(* ===== verification/_CoqProject ===== *)
-Q . S2P
Prelude.v
Endian.v
Hashing.v
ScriptNum.v
Script.v
Interpreter.v
InterpreterSafety.v
InterpreterSpec.v
ArithUint256.v
ArithUint256Spec.v
Compact.v
BlockIndex.v
BlockIndexSpec.v
Pow.v
PowSpec.v
Chain.v
Merkle.v
Hasher.v
Sha2.v
Sha256.v
Sha512.v
Sha1.v
Ripemd160.v
Hmac.v
Serialize.v
VarInt.v
Transaction.v
TransactionSpec.v
Compressor.v
Standard.v
StandardSpec.v
Coins.v
CoinsSer.v
PartialMerkle.v
PartialMerkleSpec.v
CoinsView.v
CoinsViewSpec.v
UpdateCoins.v
UpdateCoinsSpec.v
TxCheck.v
TxCheckSpec.v
Interest.v
Subsidy.v
SubsidySpec.v
TxInputs.v
ViewReads.v
TxInputsSpec.v
Connect.v
ConnectTx.v
ConnectSpec.v
Issuance.v
ChainState.v
BlockCheck.v
BlockCheckSpec.v
HeaderSpec.v
Bloom.v
BloomSpec.v
Mempool.v
MempoolSpec.v
PoolCheck.v
PoolCheckSpec.v
BlockTree.v
ChainTree.v
ChainStateSpec.v
BlockTreeSpec.v
MostWork.v
ChainLive.v
ChainCoins.v
NoteTree.v
NoteTreeSpec.v
