(* ===== verification/Prelude.v ===== *)
(** * Elosys node: verification of the consensus core

    The repository is a cryptocurrency node in C++, descended from Bitcoin,
    Zcash and Komodo.  This library models the parts that decide whether data
    received from the network is valid, and proves them correct: the script
    engine that guards every coin, the formats of transactions and coins, the
    checks of a transaction and of a block against the coin set with the block
    rewards, the 256-bit arithmetic and the difficulty rules, the block tree and
    the active chain, the memory pool, the filters of light clients, the Merkle
    trees of blocks and of notes, and the hash functions under all of them.  All
    source paths below are relative to src/src of the repository.

    ** The parts and how they interact

    A block is accepted when its header satisfies the proof-of-work rules
    (pow.cpp), which read the block tree (chain.h, chain.cpp) and compute on
    256-bit integers (arith_uint256); its Merkle root commits to its
    transactions (primitives/block.cpp), which are read from the network in the
    format of primitives/transaction.h over serialize.h and pass the context-free
    checks of main.cpp.  [ConnectBlock] (main.cpp) then looks every input up in
    a stack of caches over the coin database (coins.cpp, txdb.cpp), checks
    amounts, interest (komodo_interest.cpp) and the reward (komodo_utils.cpp),
    and has each input accepted by [VerifyScript] (script/interpreter.cpp), which
    runs byte strings read by [CScript::GetOp2] (script/script.h) on a stack of
    byte strings, some of them numbers (CScriptNum), and hashes them (hash.h over
    crypto/).  It changes the coin set, appends the new notes to the commitment
    trees (zcash/IncrementalMerkleTree.cpp) and records what [DisconnectBlock]
    needs to undo the block.  [ActivateBestChain] (main.cpp) drives all this: it
    picks the candidate with the most work, disconnects blocks down to the fork
    and connects the blocks of the better branch, marking those that fail.  The
    blocks come to it through [AcceptBlock], which checks the block and its header
    in context and enters it into the tree.  Loose transactions wait in the memory
    pool (txmempool.cpp), from which every connected block removes its own and the
    conflicting ones; light clients load Bloom filters (bloom.cpp) and receive the
    matching transactions with a partial Merkle tree (merkleblock.cpp).

    ** Files

    - Prelude (this file): machine integers as [Z] with their wrap-around
      written out, byte buffers as [list Z], the result type [res] with the
      code's own errors ([Err]), C++ exceptions and process aborts ([Exn]),
      the tactics and hint databases, the shared lemmas.
    - Endian: the accessors of crypto/common.h.
    - Hashing: the interface to the hash functions (a class of operations and
      a class of their output sizes) and the composed hashes of hash.h.
    - ScriptNum, Script: script numbers; opcodes, pushes, the instruction
      reader, signature-operation counts, templates (script/script.h and .cpp).
    - Interpreter: every case of [EvalScript], the instruction loop with its
      exception handler, [VerifyScript]; the signature checker is the class
      [BaseSignatureChecker], as in the code, and [CPubKey::CheckLowS] is a
      parameter.  InterpreterSafety: the invariant of the loop and its
      preservation by every case.  InterpreterSpec: the functional theorems.
    - ArithUint256: [base_uint] on lists of 32-bit limbs.  ArithUint256Spec:
      each operator against integer arithmetic.  Compact: the theorems, the
      compact encoding included.
    - BlockIndex, BlockIndexSpec: index entries in a map from pointers, skip
      list, median time.  Chain: [CChain].
    - Pow, PowSpec: pow.cpp over the two above.
    - Merkle: the tree of a block, its branches, its mutation flag.
    - Hasher: the buffering shared by the four hashers of crypto/; Sha2: the
      rounds shared by SHA-256 and SHA-512, with the reference; Sha256, Sha512,
      Sha1, Ripemd160: the unrolled compression functions and the hashers;
      Hmac: HMAC, the BIP 32 hash, MurmurHash3, and the hashers as an instance
      of the interface of Hashing.
    - Coins, CoinsView: the unspent outputs of a transaction; the coin database
      and the caches in front of it, with their entries for coins, anchors,
      nullifiers and proof hashes; the note commitment trees are the class
      [AnchorTrees].  CoinsViewSpec: the abstract stack of maps and the
      refinement.  CoinsSer: the database format of a transaction's coins.
    - Serialize: byte streams and the codecs of serialize.h, a class [Codec]
      with the round-trip law and an instance per type.  VarInt: the
      variable-length integers.  Transaction, TransactionSpec: the transaction
      types, wire format, id, value sums.  Compressor: the compressed amounts
      and scripts.
    - TxCheck, TxCheckSpec: [CheckTransactionWithoutProofVerification] and the
      rules around it.  Interest; Subsidy, SubsidySpec: interest, rewards and
      supply.  TxInputs, TxInputsSpec: [Consensus::CheckTxInputs].
    - UpdateCoins, UpdateCoinsSpec: [UpdateCoins] and [DisconnectBlock] on the
      views, and on the levels they represent.  Connect: [ConnectBlock].
      ViewReads: what reading a view changes.  ConnectTx, ConnectSpec: a round of
      its loop, the whole block, the way back.  Issuance: validity of a
      connected block and the value of the coin set.
    - ChainState: the globals of the chain selection in one record, with one
      definition per function from [FindMostWorkChain] to [ActivateBestChain],
      [InvalidateBlock] and [ReconsiderBlock]; what it asks of the coin set is
      the class [CoinsDriver].  ChainTree: trees up to their statuses, and the
      order of the candidates.  ChainStateSpec: the class of laws
      [CoinsDriverOk], the invariant and its preservation.  MostWork: the choice
      of the chain.  ChainLive: the loops end.  ChainCoins: pcoinsTip with
      [ConnectBlock] and [DisconnectBlock] as an instance of the two classes.
    - Standard, StandardSpec: script/standard.cpp, from [Solver] to the scripts of
      destinations.
    - BlockCheck: [CheckBlock], the contextual checks of headers and blocks, and the
      Komodo rules they call; the notary lookups are the class [CheckEnv].
      BlockCheckSpec: the declarative rules; HeaderSpec: what headers and coinbases
      promise along a chain.
    - BlockTree: [AddToBlockIndex], [AcceptBlockHeader], [AcceptBlock] and
      [ReceivedBlockTransactions] over the state of ChainState.  BlockTreeSpec: the
      invariant of arriving data and the linking of blocks.
    - Bloom, BloomSpec: Bloom filters, the filter of a peer with the messages that
      change it, filtered blocks.
    - Mempool, MempoolSpec: [CTxMemPool]; the pointers in its maps are addresses of
      elements that exist or not.  PoolCheck, PoolCheckSpec: its self-check against
      a coin view, with the simulation of all its transactions; the pool and a block.
    - PartialMerkle, PartialMerkleSpec: merkleblock.cpp.  NoteTree, NoteTreeSpec:
      the incremental tree of note commitments and its witnesses; the node hash
      is the class [NodeHash].

    ** What the theorems show

    - Scripts: [EvalScript] and [VerifyScript] return a result or one of the
      error codes for every input, with no assertion failure, no unguarded
      stack access and no unbounded loop; an accepted script respects the
      size, push, operation and stack limits; the stack opcodes do what their
      comments say; OP_CHECKMULTISIG accepts exactly when the signatures match
      keys in order; pay-to-public-key-hash and pay-to-script-hash coins are
      spent exactly under the intended conditions; script numbers and pushes
      round-trip; signature-operation counts are bounded.
    - Arithmetic and difficulty: the limb operators compute modulo
      [2^(32 * WIDTH)], division is exact, the compact encoding round-trips on
      its image; the required work is always defined (on adaptive chains for block
      times that are no multiple of 16384, which divides by zero), moves within the
      clamps, and the proof-of-work check decides what it says; the work of a block is
      [2^256 / (target + 1)].
    - Chain: the skip list finds exactly the ancestors, for every tree that
      satisfies the invariant, which adding a block preserves; [SetTip]
      rebuilds the chain of its argument from any earlier chain; [FindFork]
      returns the last common block; a locator has at most 42 entries with
      the documented spacing.
    - Merkle trees: the construction is the level-by-level one, branches
      evaluate to the root, and two unflagged lists with the same number of
      levels and the same root are equal, when double SHA-256 has no collision
      among the node inputs of the two trees.
    - Hashes: each hasher, fed in any pieces, computes the standard function
      of the whole message; test vectors of the standards are evaluated.
    - Coins: a stack of caches over the database answers every sequence of
      reads, modifications, nullifier updates, flushes and discards as a stack of
      plain maps does, and none of its assertions fails; [HaveInputs] decides
      exactly whether the inputs are unspent.
    - Formats: the wire format of a transaction is a bijection between valid
      transactions and the bytes that parse, so that ids bind transactions
      whose bytes do not collide; VarInt, amount and script compression and the
      coin records round-trip.
    - Transactions and blocks: the context-free check accepts exactly the
      transactions of the declarative rules; the input checks conserve value
      without any sum wrapping; interest is bounded; the cached subsidy is a
      function of the height, and the supply limit covers the rewards.  A block
      without imports that connects spends only unspent, mature outputs whose
      scripts accept, issues at most what the rules allow (on Komodo from
      [KOMODO_NOTARIES_HEIGHT1] on), and is undone exactly by disconnecting it.
    - Chain selection: without imports, the coin set is a function of the active
      chain, whatever reorganisations, failed attempts, invalidations and
      reconsiderations led to it; the chain chosen is the usable candidate with the
      most work; [ActivateBestChain] returns, unless a block is rejected with the
      blame on corrupt data, and after a success no candidate but the tip is left.
    - Arriving blocks: [CheckBlock] accepts exactly the blocks of the declarative
      rules, a rejection that is not marked as possible corruption is final for the
      header, the median time of a chain never decreases and the coinbases of two
      heights differ; whatever headers and non-empty blocks arrive, in whatever
      order, the tree keeps its invariant and a block is linked exactly when its
      ancestors' data is there and none of them was forgotten, as happens to a block
      whose parent is marked invalid when it comes.
    - Standard scripts: [Solver] recognises exactly the grammar of the standard
      scripts, and the script of a destination is read back as that destination.
    - Memory pool: its maps mirror its transactions after every sequence of
      operations, so that no pointer dangles; its self-check passes whenever its
      transactions could be mined, in whatever order it simulates them; removal takes
      exactly what depends on a transaction; after a block the coins still back what
      is left.
    - Bloom filters: no operation on the filter of a peer fails whatever it sends,
      what was added is found, and a client receives every transaction of a block
      that touches its filter, with a proof that yields exactly these.
    - Note and partial Merkle trees: the incremental tree has the root of the
      complete tree over its leaves, a witness kept up to date authenticates
      its leaf; a partial tree yields exactly the matched leaves, and a partial
      tree that verifies against a root proves membership.

    ** Bounds and fuel

    Loops that are not structural take fuel.  [EvalScript] gets the length of
    the script (every instruction consumes a byte), the multisig loop the number
    of keys plus one, [GetAncestor], [SetTip] and [FindFork] the height (every
    step goes down), [GetLocator] 64 (a doubling step exceeds any 31-bit height
    after 41 entries), the Merkle loops the number of leaves (each level is
    shorter), the division loop the number of bits, the batched reads of
    serialize.h the announced size, the height of a partial tree 32 rounds (it
    has less than [2^31] leaves), the periods of a supply era their number plus
    one; [FindMostWorkChain] the number of candidates plus one (every round
    removes one), the walks of the driver the heights, and [ActivateBestChain]
    the square of the number of blocks plus one (every round that goes on marks
    a block as failed or leaves a tip with more work), the removal from the memory
    pool the length of the queue plus the outputs in the pool (an erased element
    puts at most its outputs on the queue), the queue of the pool's self-check
    [n * (n + 1)] rounds for [n] transactions (in every turn of the queue one of
    them is done), the scans of a script its length.  Theorems show [out_of_fuel]
    unreachable.  Vector sizes are mathematical integers; the
    theorems state a size bound where a machine counter of the code could wrap.

    ** Not modelled

    Signature hashing and ECDSA (behind the checker interface), the notary and
    staking lookups that the proof-of-work check, [CheckBlock] and [ConnectBlock]
    consult (their answers are arguments), the copies of the memory pool that
    [CheckBlock] makes, the genesis block, Equihash, the address and spent indexes,
    the proofs of imported coins ([GetCoinImportValue] and [CheckEvalCondition] are
    parameters, and blocks with imports are outside the theorems on connecting and
    disconnecting),
    the Sapling frontier (Rust), shielded proofs, [FindAndDelete], text encodings,
    the rest of AcceptToMemoryPool and the fee estimator, the sizes that Bloom
    filters compute in floating point, the rest of the network code, storage below
    the coin database, wallet and RPC.  The proof hashes of the coin caches are
    modelled and not part of the refinement theorem.  Of the chain selection, what
    it does to the memory pool and the wallet, moving blocks out of the temporary
    file, -rewind, pruning, the entries' value pools and the composition of [ProcessNewBlock] are left out.  These are calls
    into other languages and services, floating point, or input and output; the
    fee estimator, the text encodings and the notary rules are what could be
    modelled next. *)
From stdpp Require Export base list numbers option.
From Stdlib Require Export ZArith Lia List Bool.
Export ListNotations.
#[global] Open Scope Z_scope.

(** ** Machine integers *)

(** Reduction of an integer to an unsigned machine width. *)
Definition uwrap (w x : Z) : Z := x mod 2 ^ w.

(** Reduction of an integer to a two's complement width. *)
Definition swrap (w x : Z) : Z := (x + 2 ^ (w - 1)) mod 2 ^ w - 2 ^ (w - 1).

Abbreviation u8 := (uwrap 8).
Abbreviation u16 := (uwrap 16).
Abbreviation u32 := (uwrap 32).
Abbreviation u64 := (uwrap 64).
Abbreviation i32 := (swrap 32).
Abbreviation i64 := (swrap 64).

Definition INT_MAX : Z := 2 ^ 31 - 1.
Definition INT_MIN : Z := - 2 ^ 31.
Definition INT64_MAX : Z := 2 ^ 63 - 1.
Definition INT64_MIN : Z := - 2 ^ 63.
Definition UINT32_MAX : Z := 2 ^ 32 - 1.

(** A byte is an integer in [0, 255]; a buffer is a list of them. *)
Definition is_byte (b : Z) : Prop := 0 <= b < 256.
Definition is_u32 (x : Z) : Prop := 0 <= x < 2 ^ 32.
Definition is_u64 (x : Z) : Prop := 0 <= x < 2 ^ 64.
Definition is_i64 (x : Z) : Prop := - 2 ^ 63 <= x < 2 ^ 63.
Abbreviation bytes := (Forall is_byte).

(** Length of a vector, as the [size()] the source compares with integers. *)
Definition zlen {A} (l : list A) : Z := Z.of_nat (length l).

(** [v[i]] on a vector whose index has been guarded; the default is only
    reached outside the guard. *)
Definition at_ (l : list Z) (i : Z) : Z := nth (Z.to_nat i) l 0.

(** ** Outcomes *)

(** What can interrupt the code besides a returned error: the exceptions it
    throws, and the two ways a run can stop outside the language's control
    flow (a failed [assert] aborts the process and an integer
    [division_by_zero] traps; [oob_read] is an unchecked index
    past the end of a buffer, undefined in C++; [out_of_fuel] marks a loop bound
    of the model that was too small, and theorems show it unreachable). *)
Inductive exn :=
| scriptnum_error
| out_of_range
| runtime_error
| uint_error
| length_error
| ios_failure
| division_by_zero
| undefined_shift
| assertion_failed
| oob_read
| out_of_fuel.

(** Result of a fallible operation: a value, an error code of type [E]
    reported through the code's own return path, or an interruption. *)
Inductive res (E A : Type) :=
| Ok (a : A)
| Err (e : E)
| Exn (x : exn).
Arguments Ok {E A} a.
Arguments Err {E A} e.
Arguments Exn {E A} x.

#[global] Instance res_ret E : MRet (res E) := fun A a => Ok a.
#[global] Instance res_bind E : MBind (res E) := fun A B f m =>
  match m with
  | Ok a => f a
  | Err e => Err e
  | Exn x => Exn x
  end.

(** [assert(b)]. *)
Definition assert_ {E} (b : bool) : res E unit :=
  if b then Ok tt else Exn assertion_failed.

(** A call whose only failures are exceptions, where the caller reports errors. *)
Definition rethrow {E A} (m : res unit A) : res E A :=
  match m with Ok a => Ok a | Err _ => Exn runtime_error | Exn x => Exn x end.

(** [a / b] on signed integers: truncation toward zero, a trap on zero. *)
Definition quot_ {E} (a b : Z) : res E Z :=
  if b =? 0 then Exn division_by_zero else Ok (Z.quot a b).

(** [v[i]] without a guard in the code. *)
Definition index_ {E} (l : list Z) (i : Z) : res E Z :=
  match l !! Z.to_nat i with
  | Some x => Ok x
  | None => Exn oob_read
  end.

(** ** Tactics *)

(** Turns the boolean comparisons of the code into propositions. *)
Ltac zbool :=
  repeat match goal with
  | H : context [?a <? ?b] |- _ => destruct (Z.ltb_spec a b)
  | H : context [?a <=? ?b] |- _ => destruct (Z.leb_spec a b)
  | H : context [?a =? ?b] |- _ => destruct (Z.eqb_spec a b)
  | |- context [?a <? ?b] => destruct (Z.ltb_spec a b)
  | |- context [?a <=? ?b] => destruct (Z.leb_spec a b)
  | |- context [?a =? ?b] => destruct (Z.eqb_spec a b)
  end.

(** Destructs the innermost scrutinee of a match of the goal. *)
Ltac case_goal :=
  match goal with
  | |- context [match ?x with _ => _ end] =>
      lazymatch x with
      | context [match _ with _ => _ end] => fail
      | _ => destruct x eqn:?
      end
  end.

(** Destructs the innermost scrutinee of a match of a hypothesis. *)
Ltac case_hyp H :=
  match type of H with
  | context [match ?x with _ => _ end] =>
      lazymatch x with
      | context [match _ with _ => _ end] => fail
      | _ => destruct x eqn:?
      end
  end.

Create HintDb wrap.
Create HintDb lists.
Create Rewrite HintDb lists.

(** ** Lemmas on machine integers *)

Lemma uwrap_range w x : 0 <= w -> 0 <= uwrap w x < 2 ^ w.
Proof. intros; apply Z.mod_pos_bound, Z.pow_pos_nonneg; lia. Qed.

Lemma uwrap_small w x : 0 <= x < 2 ^ w -> uwrap w x = x.
Proof. apply Z.mod_small. Qed.

Lemma swrap_range w x : 0 < w -> - 2 ^ (w - 1) <= swrap w x < 2 ^ (w - 1).
Proof.
  intros Hw; unfold swrap.
  assert (2 ^ w = 2 * 2 ^ (w - 1))
    by (rewrite <- Z.pow_succ_r by lia; f_equal; lia).
  pose proof (Z.mod_pos_bound (x + 2 ^ (w - 1)) (2 ^ w)
    ltac:(apply Z.pow_pos_nonneg; lia)); lia.
Qed.

(** Reducing a summand changes nothing of a reduced sum. *)
Lemma swrap_add w a b : 0 < w -> swrap w (swrap w a + b) = swrap w (a + b).
Proof.
  intros Hw; unfold swrap; f_equal; rewrite <- (Zplus_mod_idemp_l (a + b)).
  replace ((a + 2 ^ (w - 1)) mod 2 ^ w - 2 ^ (w - 1) + b + 2 ^ (w - 1)) with ((a + 2 ^ (w - 1)) mod 2 ^ w + b) by lia.
  rewrite Zplus_mod_idemp_l; rewrite Zplus_mod_idemp_l; f_equal; lia.
Qed.

Lemma swrap_small w x :
  0 < w -> - 2 ^ (w - 1) <= x < 2 ^ (w - 1) -> swrap w x = x.
Proof.
  intros Hw Hx; unfold swrap.
  assert (2 ^ w = 2 * 2 ^ (w - 1))
    by (rewrite <- Z.pow_succ_r by lia; f_equal; lia).
  rewrite Z.mod_small; lia.
Qed.

Lemma land_mask_mod x n : 0 <= n -> Z.land x (2 ^ n - 1) = x mod 2 ^ n.
Proof.
  intros; rewrite <- Z.land_ones by lia.
  now rewrite Z.ones_equiv, <- Z.sub_1_r.
Qed.

Lemma land_255 x : Z.land x 255 = x mod 256.
Proof. exact (land_mask_mod x 8 ltac:(lia)). Qed.

Lemma shiftr_8 x : Z.shiftr x 8 = x / 256.
Proof. now rewrite Z.shiftr_div_pow2 by lia. Qed.

(** A bitwise or of a low part and a shifted high part is their sum. *)
Lemma lor_shiftl_add a b n :
  0 <= n -> 0 <= a < 2 ^ n -> Z.lor a (Z.shiftl b n) = a + b * 2 ^ n.
Proof.
  intros Hn Ha.
  rewrite <- Z.shiftl_mul_pow2 by lia.
  symmetry; rewrite <- Z.lxor_lor; [apply Z.add_nocarry_lxor |].
  all: apply Z.bits_inj'; intros k Hk; rewrite Z.land_spec, Z.bits_0.
  all: destruct (Z.ltb_spec k n).
  all: try (rewrite Z.shiftl_spec_low by lia; now rewrite andb_false_r).
  all: rewrite <- (Z.mod_small a (2 ^ n)) by lia.
  all: now rewrite Z.mod_pow2_bits_high by lia.
Qed.

Lemma byte_testbit_7 b : is_byte b -> Z.testbit b 7 = (128 <=? b).
Proof.
  intros [Hl Hu].
  destruct (Z.leb_spec 128 b); [| apply Z.testbit_false; [lia |]].
  - apply Z.testbit_true; [lia |].
    replace (b / 2 ^ 7) with 1; [reflexivity |].
    change (2 ^ 7) with 128.
    apply Z.div_unique with (b - 128); lia.
  - change (2 ^ 7) with 128; now rewrite Z.div_small by lia.
Qed.

(** Testing one bit with a mask. *)
Lemma land_pow2_eqb x n :
  0 <= n -> (Z.land x (2 ^ n) =? 0) = negb (Z.testbit x n).
Proof.
  intros Hn.
  destruct (Z.testbit x n) eqn:E; cbn.
  - apply Z.eqb_neq; intros H0.
    apply (f_equal (fun y => Z.testbit y n)) in H0.
    rewrite Z.land_spec, Z.bits_0, E, Z.pow2_bits_true in H0 by lia.
    discriminate.
  - apply Z.eqb_eq, Z.bits_inj'; intros k Hk.
    rewrite Z.land_spec, Z.bits_0.
    destruct (Z.eq_dec k n) as [-> |]; [now rewrite E |].
    rewrite Z.pow2_bits_false by lia; apply andb_false_r.
Qed.

Lemma land_le_r a b : 0 <= b -> Z.land a b <= b.
Proof.
  intros Hb; assert (E : Z.land a b + Z.ldiff b a = b).
  { rewrite Z.add_nocarry_lxor; apply Z.bits_inj'; intros k Hk;
      rewrite ?Z.lxor_spec, ?Z.land_spec, ?Z.ldiff_spec, ?Z.land_spec, ?Z.bits_0;
      destruct (Z.testbit a k), (Z.testbit b k); reflexivity. }
  assert (0 <= Z.ldiff b a) by (apply Z.ldiff_nonneg; auto); lia.
Qed.

Lemma byte_land_128 b : is_byte b -> (Z.land b 128 =? 0) = (b <? 128).
Proof.
  intros Hb; change 128 with (2 ^ 7) at 1.
  rewrite land_pow2_eqb, byte_testbit_7 by (lia || assumption).
  zbool; lia || reflexivity.
Qed.

(** ** Little-endian byte buffers *)

(** The [n] least significant bytes of [x], least significant first. *)
Fixpoint le_bytes (n : nat) (x : Z) : list Z :=
  match n with
  | O => []
  | S n => x mod 256 :: le_bytes n (x / 256)
  end.

(** The value of a little-endian buffer. *)
Fixpoint le_val (l : list Z) : Z :=
  match l with
  | [] => 0
  | b :: l => b + 256 * le_val l
  end.

Lemma length_le_bytes n x : length (le_bytes n x) = n.
Proof. revert x; induction n; intros; cbn; auto. Qed.

Lemma bytes_le_bytes n x : bytes (le_bytes n x).
Proof.
  revert x; induction n; intros x; cbn; constructor; auto.
  apply Z.mod_pos_bound; lia.
Qed.

Lemma pow256_S (n : nat) : 256 ^ Z.of_nat (S n) = 256 * 256 ^ Z.of_nat n.
Proof. rewrite Nat2Z.inj_succ, Z.pow_succ_r by lia; lia. Qed.

Lemma pow256_pos (n : nat) : 0 < 256 ^ Z.of_nat n.
Proof. apply Z.pow_pos_nonneg; lia. Qed.

Lemma le_val_le_bytes n x : le_val (le_bytes n x) = x mod 256 ^ Z.of_nat n.
Proof.
  revert x; induction n as [| n IH]; intros x; cbn [le_bytes le_val].
  - now rewrite Z.mod_1_r.
  - rewrite IH, pow256_S, Z.rem_mul_r by (pose proof (pow256_pos n); lia); lia.
Qed.

Lemma le_val_range l : bytes l -> 0 <= le_val l < 256 ^ zlen l.
Proof.
  unfold zlen; induction 1 as [| b l Hb Hl IH]; cbn [le_val length].
  - cbn; lia.
  - rewrite pow256_S; unfold is_byte in Hb; lia.
Qed.

Lemma le_bytes_le_val l : bytes l -> le_bytes (length l) (le_val l) = l.
Proof.
  induction 1 as [| b l Hb Hl IH]; cbn [length le_bytes le_val]; auto.
  unfold is_byte in Hb.
  rewrite Z.mul_comm, Z.mod_add, Z.div_add, Z.mod_small, Z.div_small by lia.
  now rewrite Z.add_0_l, IH.
Qed.

Lemma le_val_app l1 l2 :
  le_val (l1 ++ l2) = le_val l1 + 256 ^ zlen l1 * le_val l2.
Proof.
  unfold zlen; induction l1 as [| b l1 IH]; cbn [le_val length app].
  - change (256 ^ Z.of_nat 0) with 1; lia.
  - rewrite IH, pow256_S; lia.
Qed.

Lemma le_val_inj l1 l2 :
  bytes l1 -> bytes l2 -> length l1 = length l2 -> le_val l1 = le_val l2 -> l1 = l2.
Proof.
  intros H1 H2 Hl Hv.
  rewrite <- (le_bytes_le_val l1), <- (le_bytes_le_val l2) by assumption.
  now rewrite Hl, Hv.
Qed.

(** ** Lemmas on lists *)

Lemma zlen_nonneg {A} (l : list A) : 0 <= zlen l.
Proof. unfold zlen; lia. Qed.

Lemma zlen_cons {A} (x : A) l : zlen (x :: l) = 1 + zlen l.
Proof. unfold zlen; cbn [length]; lia. Qed.

Lemma zlen_app {A} (l1 l2 : list A) : zlen (l1 ++ l2) = zlen l1 + zlen l2.
Proof. unfold zlen; rewrite length_app; lia. Qed.

Lemma zlen_nil {A} : zlen (@nil A) = 0.
Proof. reflexivity. Qed.

Lemma zlen_0_nil {A} (l : list A) : zlen l = 0 -> l = [].
Proof. destruct l; [auto | rewrite zlen_cons; pose proof (zlen_nonneg l); lia]. Qed.

#[export] Hint Rewrite @zlen_cons @zlen_app @zlen_nil : lists.
#[export] Hint Resolve zlen_nonneg : lists.

Lemma at_byte l i : bytes l -> is_byte (at_ l i).
Proof.
  intros H; unfold at_.
  destruct (Nat.lt_ge_cases (Z.to_nat i) (length l)) as [Hi | Hi].
  - apply (proj1 (Forall_nth _ l) H); assumption.
  - rewrite nth_overflow by assumption; unfold is_byte; lia.
Qed.
