(* ===== verification/Endian.v ===== *)
(** * Byte order

    The fixed-width accessors of crypto/common.h, little-endian and big-endian. *)
From S2P Require Import Prelude.

Definition ReadLE16 (ptr : list Z) : Z := le_val (take 2 ptr).
Definition ReadLE32 (ptr : list Z) : Z := le_val (take 4 ptr).
Definition ReadLE64 (ptr : list Z) : Z := le_val (take 8 ptr).
Definition WriteLE16 (x : Z) : list Z := le_bytes 2 (u16 x).
Definition WriteLE32 (x : Z) : list Z := le_bytes 4 (u32 x).
Definition WriteLE64 (x : Z) : list Z := le_bytes 8 (u64 x).

Lemma ReadLE16_Write x l : ReadLE16 (WriteLE16 x ++ l) = u16 x.
Proof.
  unfold ReadLE16, WriteLE16.
  rewrite take_app_length' by now rewrite length_le_bytes.
  rewrite le_val_le_bytes; apply Z.mod_mod; lia.
Qed.

Lemma ReadLE32_Write x l : ReadLE32 (WriteLE32 x ++ l) = u32 x.
Proof.
  unfold ReadLE32, WriteLE32.
  rewrite take_app_length' by now rewrite length_le_bytes.
  rewrite le_val_le_bytes; apply Z.mod_mod; lia.
Qed.

Lemma ReadLE64_Write x l : ReadLE64 (WriteLE64 x ++ l) = u64 x.
Proof.
  unfold ReadLE64, WriteLE64.
  rewrite take_app_length' by now rewrite length_le_bytes.
  rewrite le_val_le_bytes; apply Z.mod_mod; lia.
Qed.

Lemma WriteLE32_Read l : bytes l -> length l = 4%nat -> WriteLE32 (ReadLE32 l) = l.
Proof.
  intros Hb Hl; unfold WriteLE32, ReadLE32.
  rewrite take_ge by lia.
  pose proof (le_val_range l Hb) as Hr; unfold zlen in Hr; rewrite Hl in Hr.
  rewrite uwrap_small by exact Hr.
  rewrite <- Hl; now apply le_bytes_le_val.
Qed.

Lemma ReadLE32_range l : bytes l -> is_u32 (ReadLE32 l).
Proof.
  intros Hb; unfold ReadLE32, is_u32.
  pose proof (le_val_range (take 4 l) (Forall_take _ 4 l Hb)) as Hr.
  assert (256 ^ zlen (take 4 l) <= 256 ^ 4).
  { apply Z.pow_le_mono_r; [lia |]; unfold zlen; rewrite length_take; lia. }
  change (256 ^ 4) with (2 ^ 32) in *; lia.
Qed.

(** The big-endian accessors. *)
Definition ReadBE16 (ptr : list Z) : Z := le_val (rev (take 2 ptr)).
Definition ReadBE32 (ptr : list Z) : Z := le_val (rev (take 4 ptr)).
Definition ReadBE64 (ptr : list Z) : Z := le_val (rev (take 8 ptr)).
Definition WriteBE32 (x : Z) : list Z := rev (le_bytes 4 (u32 x)).
Definition WriteBE64 (x : Z) : list Z := rev (le_bytes 8 (u64 x)).

Lemma length_WriteBE32 x : length (WriteBE32 x) = 4%nat.
Proof. unfold WriteBE32; now rewrite length_rev, length_le_bytes. Qed.

Lemma length_WriteBE64 x : length (WriteBE64 x) = 8%nat.
Proof. unfold WriteBE64; now rewrite length_rev, length_le_bytes. Qed.

Lemma length_WriteLE32 x : length (WriteLE32 x) = 4%nat.
Proof. apply length_le_bytes. Qed.

Lemma length_WriteLE64 x : length (WriteLE64 x) = 8%nat.
Proof. apply length_le_bytes. Qed.

Lemma bytes_WriteBE32 x : bytes (WriteBE32 x).
Proof. apply Forall_rev, bytes_le_bytes. Qed.

Lemma bytes_WriteBE64 x : bytes (WriteBE64 x).
Proof. apply Forall_rev, bytes_le_bytes. Qed.

Lemma bytes_WriteLE32 x : bytes (WriteLE32 x).
Proof. apply bytes_le_bytes. Qed.

Create HintDb endian.
#[export] Hint Resolve bytes_WriteBE32 bytes_WriteBE64 bytes_WriteLE32 : endian.
#[export] Hint Resolve length_WriteBE32 length_WriteBE64 length_WriteLE32 length_WriteLE64 : endian.
