(* ===== verification/Hashing.v ===== *)
(** * Hash functions

    The interface the script engine, the Merkle code and the wallet code rely
    on: the byte-string functions computed by crypto/ripemd160.cpp,
    crypto/sha1.cpp and crypto/sha256.cpp (a class of operations, with a second
    class for the output sizes), and the two composed hashers of hash.h. *)
From S2P Require Import Prelude.

(** [C<H>().Write(data, len).Finalize(out)] for the three primitive hashers. *)
Class HashFunctions := {
  ripemd160 : list Z -> list Z;
  sha1 : list Z -> list Z;
  sha256 : list Z -> list Z;
}.

(** The output sizes ([OUTPUT_SIZE] of each hasher). *)
Class HashFunctionsOk (H : HashFunctions) := {
  ripemd160_length x : length (ripemd160 x) = 20%nat;
  sha1_length x : length (sha1 x) = 20%nat;
  sha256_length x : length (sha256 x) = 32%nat;
  ripemd160_bytes x : bytes (ripemd160 x);
  sha1_bytes x : bytes (sha1 x);
  sha256_bytes x : bytes (sha256 x);
}.

Section Composed.
Context `{HashFunctions}.

(** [CHash256]: double SHA-256. *)
Definition CHash256 (data : list Z) : list Z := sha256 (sha256 data).

(** [CHash160]: RIPEMD-160 of SHA-256. *)
Definition CHash160 (data : list Z) : list Z := ripemd160 (sha256 data).

(** [Hash160(pbegin, pend)]. *)
Definition Hash160 (data : list Z) : list Z := CHash160 data.

(** [Hash(pbegin, pend)] and its two-range form. *)
Definition Hash (data : list Z) : list Z := CHash256 data.
Definition Hash2 (p1 p2 : list Z) : list Z := CHash256 (p1 ++ p2).
End Composed.

Lemma CHash160_length `{HashFunctionsOk} x : length (CHash160 x) = 20%nat.
Proof. apply ripemd160_length. Qed.

Lemma CHash256_length `{HashFunctionsOk} x : length (CHash256 x) = 32%nat.
Proof. apply sha256_length. Qed.

Lemma CHash160_bytes `{HashFunctionsOk} x : bytes (CHash160 x).
Proof. apply ripemd160_bytes. Qed.

Lemma CHash256_bytes `{HashFunctionsOk} x : bytes (CHash256 x).
Proof. apply sha256_bytes. Qed.

(** A concrete instance with the right output sizes, for evaluated examples:
    the digest is the input's length and its first bytes. *)
Definition digest_of (n : nat) (x : list Z) : list Z :=
  le_bytes n (zlen x + 256 * le_val x).

Definition toy_hashes : HashFunctions := {|
  ripemd160 := digest_of 20;
  sha1 := digest_of 20;
  sha256 := digest_of 32;
|}.

Lemma toy_hashes_ok : HashFunctionsOk toy_hashes.
Proof.
  split; intros x; first [apply length_le_bytes | apply bytes_le_bytes].
Qed.
