(* ===== verification/ScriptNum.v ===== *)
(** * Script numbers

    The integer encoding of script/script.h ([class CScriptNum]): a number on
    the script stack is a little-endian byte vector whose most significant bit
    is the sign.  [serialize] and [set_vch] translate the two conversions,
    [CScriptNum_vch] the checking constructor, and the operators are those the
    interpreter uses, with their assertions.  The theorems show that encoding
    and decoding are inverse on the whole int64 range but its minimum, that the
    minimality rule of the constructor admits exactly the canonical encodings,
    and that a decoded operand fits the promised range. *)
From S2P Require Import Prelude.

(** ** Conversions *)

(** The [while(absvalue)] loop of [CScriptNum::serialize]; a uint64_t has at
    most eight bytes, which is the fuel. *)
Fixpoint serialize_loop (fuel : nat) (absvalue : Z) : list Z :=
  match fuel with
  | O => []
  | S fuel =>
      if absvalue =? 0 then []
      else Z.land absvalue 255 :: serialize_loop fuel (Z.shiftr absvalue 8)
  end.

Definition serialize (value : Z) : list Z :=
  if value =? 0 then []
  else
    let neg := value <? 0 in
    let absvalue := if neg then u64 (- value) else value in
    let result := serialize_loop 8 absvalue in
    let back := List.last result 0 in
    if negb (Z.land back 128 =? 0) then result ++ [if neg then 128 else 0]
    else if neg then removelast result ++ [Z.lor back 128]
    else result.

(** The accumulation loop of [CScriptNum::set_vch], from index [i]. *)
Fixpoint set_vch_loop (i : Z) (vch : list Z) (result : Z) : Z :=
  match vch with
  | [] => result
  | b :: vch => set_vch_loop (i + 1) vch (Z.lor result (i64 (Z.shiftl b (8 * i))))
  end.

Definition set_vch (vch : list Z) : Z :=
  match vch with
  | [] => 0
  | _ =>
      let result := set_vch_loop 0 vch 0 in
      if negb (Z.land (List.last vch 0) 128 =? 0)
      then - i64 (Z.ldiff (u64 result) (u64 (Z.shiftl 128 (8 * (zlen vch - 1)))))
      else result
  end.

Definition nDefaultMaxNumSize : Z := 4.

(** [CScriptNum(vch, fRequireMinimal, nMaxNumSize)]. *)
Definition CScriptNum_vch {E} (vch : list Z) (fRequireMinimal : bool)
    (nMaxNumSize : Z) : res E Z :=
  if nMaxNumSize <? zlen vch then Exn scriptnum_error
  else if fRequireMinimal && (0 <? zlen vch)
          && (Z.land (List.last vch 0) 127 =? 0)
          && ((zlen vch <=? 1) || (Z.land (at_ vch (zlen vch - 2)) 128 =? 0))
  then Exn scriptnum_error
  else Ok (set_vch vch).

(** ** Operators *)

Definition scriptnum_neg {E} (m_value : Z) : res E Z :=
  _ ← assert_ (negb (m_value =? INT64_MIN)); Ok (- m_value).

(** [operator+=(const int64_t&)], with its overflow assertion. *)
Definition scriptnum_add_assign {E} (m_value rhs : Z) : res E Z :=
  _ ← assert_ ((rhs =? 0)
               || ((0 <? rhs) && (m_value <=? INT64_MAX - rhs))
               || ((rhs <? 0) && (INT64_MIN - rhs <=? m_value)));
  Ok (m_value + rhs).

(** [operator-=(const int64_t&)], with its overflow assertion. *)
Definition scriptnum_sub_assign {E} (m_value rhs : Z) : res E Z :=
  _ ← assert_ ((rhs =? 0)
               || ((0 <? rhs) && (INT64_MIN + rhs <=? m_value))
               || ((rhs <? 0) && (m_value <=? INT64_MAX + rhs)));
  Ok (m_value - rhs).

(** [operator+] and [operator-] carry no assertion: an int64 sum. *)
Definition scriptnum_add (m_value rhs : Z) : Z := i64 (m_value + rhs).
Definition scriptnum_sub (m_value rhs : Z) : Z := i64 (m_value - rhs).

Definition getint (m_value : Z) : Z :=
  if INT_MAX <? m_value then INT_MAX
  else if m_value <? INT_MIN then INT_MIN
  else m_value.

(** ** The loops, as values of little-endian buffers *)

Lemma serialize_loop_spec fuel a :
  0 <= a < 256 ^ Z.of_nat fuel ->
  bytes (serialize_loop fuel a) /\ le_val (serialize_loop fuel a) = a /\
  (length (serialize_loop fuel a) <= fuel)%nat /\
  (a <> 0 -> List.last (serialize_loop fuel a) 0 <> 0).
Proof.
  revert a; induction fuel as [| fuel IH]; intros a Ha; cbn [serialize_loop].
  - change (256 ^ Z.of_nat 0) with 1 in Ha.
    assert (a = 0) as -> by lia; repeat split; auto; congruence.
  - rewrite pow256_S in Ha.
    destruct (Z.eqb_spec a 0) as [-> | Hne]; [repeat split; auto; cbn; lia || congruence |].
    rewrite land_255, shiftr_8.
    destruct (IH (a / 256)) as (Hb & Hv & Hl & Hlast).
    { split; [apply Z.div_pos; lia | apply Z.div_lt_upper_bound; lia]. }
    repeat split.
    + constructor; [apply Z.mod_pos_bound; lia | assumption].
    + cbn [le_val]; rewrite Hv.
      pose proof (Z.div_mod a 256 ltac:(lia)); lia.
    + cbn [length]; lia.
    + intros _.
      destruct (Z.eq_dec (a / 256) 0) as [E | E].
      * rewrite E; destruct fuel; cbn.
        all: pose proof (Z.div_mod a 256 ltac:(lia)); lia.
      * specialize (Hlast E).
        destruct (serialize_loop fuel (a / 256)) eqn:El; [| exact Hlast].
        cbn in Hlast; lia.
Qed.

Lemma last_app_one {A} (l : list A) x d : List.last (l ++ [x]) d = x.
Proof. induction l as [| y [| z l] IH]; cbn in *; auto. Qed.

Lemma app_last {A} (l : list A) d : l <> [] -> l = removelast l ++ [List.last l d].
Proof. apply app_removelast_last. Qed.

(** A digit list without a leading zero is its value's digit list. *)
Lemma serialize_loop_unique fuel l :
  bytes l -> (length l <= fuel)%nat -> (l <> [] -> List.last l 0 <> 0) ->
  serialize_loop fuel (le_val l) = l.
Proof.
  revert l; induction fuel as [| fuel IH]; intros [| b l] Hb Hl Hlast; auto.
  - cbn in Hl; lia.
  - inv Hb. cbn [le_val serialize_loop].
    unfold is_byte in *.
    assert (Hnz : b + 256 * le_val l <> 0).
    { pose proof (le_val_range l ltac:(assumption)).
      destruct l as [| c l]; [cbn in Hlast |- *; apply not_eq_sym; intros E;
        apply Hlast; [congruence | lia] |].
      intros E; assert (E0 : le_val (c :: l) = 0) by lia.
      assert (Hz : c :: l = le_bytes (length (c :: l)) 0)
        by (rewrite <- E0; symmetry; now apply le_bytes_le_val).
      clear -Hz Hlast.
      assert (Hl0 : forall n, List.last (le_bytes n 0) 0 = 0)
        by (induction n as [| [| n] IH]; cbn in *; auto).
      apply Hlast; [congruence |].
      change (List.last (c :: l) 0 = 0); rewrite Hz; apply Hl0. }
    rewrite (proj2 (Z.eqb_neq _ _) Hnz), land_255, shiftr_8.
    rewrite (Z.mul_comm 256), Z.mod_add, Z.div_add by lia.
    rewrite Z.mod_small, Z.div_small, Z.add_0_l by lia.
    f_equal; apply IH; auto; [cbn in Hl; lia |].
    intros Hne; destruct l; [congruence |]. apply Hlast; congruence.
Qed.

Lemma pow_8_256 i : 0 <= i -> 2 ^ (8 * i) = 256 ^ i.
Proof. intros; rewrite Z.pow_mul_r by lia; reflexivity. Qed.

Lemma set_vch_loop_spec l : forall i A,
  bytes l -> 0 <= i -> i + zlen l <= 8 -> 0 <= A < 256 ^ i ->
  set_vch_loop i l (i64 A) = i64 (A + 256 ^ i * le_val l).
Proof.
  induction l as [| b l IH]; intros i A Hb Hi Hlen HA; cbn [set_vch_loop le_val].
  - f_equal; lia.
  - inv Hb; rewrite zlen_cons in Hlen; pose proof (zlen_nonneg l).
    unfold is_byte in *.
    assert (HAs : 0 <= A < 2 ^ 56).
    { split; [lia |]; apply Z.lt_le_trans with (256 ^ i); [lia |].
      change (2 ^ 56) with (256 ^ 7); apply Z.pow_le_mono_r; lia. }
    rewrite (swrap_small 64 A) by lia.
    assert (Hsh : Z.lor A (i64 (Z.shiftl b (8 * i))) = i64 (A + b * 256 ^ i)).
    { rewrite Z.shiftl_mul_pow2 by lia; rewrite pow_8_256 by lia.
      destruct (Z.ltb_spec i 7).
      - assert (256 ^ i <= 256 ^ 6) by (apply Z.pow_le_mono_r; lia).
        change (256 ^ 6) with (2 ^ 48) in *.
        rewrite !swrap_small by (cbn; nia).
        rewrite <- pow_8_256 in * by lia.
        rewrite <- (Z.shiftl_mul_pow2 b) at 1 by lia.
        apply lor_shiftl_add; lia.
      - assert (i = 7) as -> by lia; change (256 ^ 7) with (2 ^ 56) in *.
        assert (Hc : forall y, 0 <= y < 2 ^ 56 ->
          i64 (y + b * 2 ^ 56) = y + (if b <? 128 then b else b - 256) * 2 ^ 56).
        { intros y Hy; unfold swrap; zbool.
          - rewrite Z.mod_small; lia.
          - replace (y + b * 2 ^ 56 + 2 ^ (64 - 1))
              with (y + b * 2 ^ 56 + 2 ^ (64 - 1) - 2 ^ 64 + 1 * 2 ^ 64) by lia.
            rewrite Z.mod_add, Z.mod_small by lia; lia. }
        rewrite (Hc A HAs).
        specialize (Hc 0 ltac:(lia)); rewrite !Z.add_0_l in Hc; rewrite Hc.
        rewrite <- Z.shiftl_mul_pow2 at 1 by lia.
        apply lor_shiftl_add; lia. }
    rewrite Hsh, IH; auto; try lia.
    + f_equal; rewrite Z.pow_add_r by lia; lia.
    + rewrite Z.pow_add_r by lia; nia.
Qed.

Lemma u64_i64 m : 0 <= m < 2 ^ 64 -> u64 (i64 m) = m.
Proof.
  intros Hm; unfold uwrap, swrap.
  rewrite Zminus_mod_idemp_l.
  replace (m + 2 ^ (64 - 1) - 2 ^ (64 - 1)) with m by lia.
  now apply Z.mod_small.
Qed.

Lemma set_vch_result v :
  bytes v -> zlen v <= 8 -> set_vch_loop 0 v 0 = i64 (le_val v).
Proof.
  intros Hb Hl.
  change 0 with (i64 0) at 2.
  rewrite set_vch_loop_spec by (auto; cbn; lia).
  f_equal; change (256 ^ 0) with 1; lia.
Qed.

Lemma le_val_range_8 v : bytes v -> zlen v <= 8 -> 0 <= le_val v < 2 ^ 64.
Proof.
  intros Hb Hl; pose proof (le_val_range v Hb); pose proof (zlen_nonneg v).
  assert (256 ^ zlen v <= 256 ^ 8) by (apply Z.pow_le_mono_r; lia).
  change (256 ^ 8) with (2 ^ 64) in *; lia.
Qed.

(** Clearing a set bit subtracts it. *)
Lemma ldiff_pow2 m n : 0 <= n -> Z.testbit m n = true -> Z.ldiff m (2 ^ n) = m - 2 ^ n.
Proof.
  intros Hn Hbit; symmetry; apply Z.sub_nocarry_ldiff.
  apply Z.bits_inj'; intros k Hk; rewrite Z.ldiff_spec, Z.bits_0.
  destruct (Z.eq_dec k n) as [-> |]; [now rewrite Hbit, andb_false_r |].
  now rewrite Z.pow2_bits_false by lia.
Qed.

Section Decode.
Context (pre : list Z) (b : Z).
Context (Hpre : bytes pre) (Hb : is_byte b) (Hlen : zlen pre <= 7).

Lemma snoc_bytes : bytes (pre ++ [b]).
Proof. apply Forall_app; auto. Qed.

Lemma snoc_len : zlen (pre ++ [b]) <= 8.
Proof. autorewrite with lists; lia. Qed.

Lemma le_val_snoc : le_val (pre ++ [b]) = le_val pre + b * 256 ^ zlen pre.
Proof. rewrite le_val_app; cbn [le_val]; lia. Qed.

Lemma set_vch_snoc :
  set_vch (pre ++ [b]) =
    if b <? 128 then le_val pre + b * 256 ^ zlen pre
    else - (le_val pre + (b - 128) * 256 ^ zlen pre).
Proof.
  pose proof snoc_bytes as Hbs; pose proof snoc_len as Hls.
  pose proof (le_val_range_8 _ Hbs Hls) as Hr.
  pose proof (le_val_range pre Hpre) as Hrp; pose proof (zlen_nonneg pre) as Hn.
  unfold is_byte in Hb.
  assert (Hp : 256 ^ zlen pre <= 2 ^ 56)
    by (change (2 ^ 56) with (256 ^ 7); apply Z.pow_le_mono_r; lia).
  unfold set_vch.
  destruct (pre ++ [b]) eqn:E; [now destruct pre |]; rewrite <- E in *; clear E.
  rewrite last_app_one, byte_land_128, set_vch_result by assumption.
  rewrite le_val_snoc in *.
  destruct (Z.ltb_spec b 128); cbn [negb].
  - apply swrap_small; [lia |]; change (64 - 1) with 63; nia.
  - rewrite u64_i64 by lia; autorewrite with lists.
    replace (zlen pre + (1 + 0) - 1) with (zlen pre) by lia.
    rewrite Z.shiftl_mul_pow2 by lia.
    change 128 with (2 ^ 7) at 1; rewrite <- Z.pow_add_r by lia.
    assert (Hpow : 2 ^ (7 + 8 * zlen pre) = 128 * 256 ^ zlen pre)
      by (rewrite Z.pow_add_r, pow_8_256 by lia; reflexivity).
    rewrite uwrap_small, ldiff_pow2, Hpow; [| lia | | rewrite Hpow; nia].
    + f_equal; rewrite swrap_small; [lia | lia |].
      change (64 - 1) with 63; nia.
    + apply Z.testbit_true; [lia |]; rewrite Hpow.
      replace ((le_val pre + b * 256 ^ zlen pre) / (128 * 256 ^ zlen pre)) with 1;
        [reflexivity |].
      apply Z.div_unique with (le_val pre + (b - 128) * 256 ^ zlen pre); nia.
Qed.
End Decode.

(** ** The encoding of a nonzero number *)

Lemma serialize_mag (neg : bool) a :
  0 < a < 2 ^ 63 ->
  let r := serialize_loop 8 a in
  let b := List.last r 0 in
  serialize (if neg then - a else a) =
    if b <? 128 then (if neg then removelast r ++ [b + 128] else r)
    else r ++ [if neg then 128 else 0].
Proof.
  intros Ha r b.
  destruct (serialize_loop_spec 8 a) as (Hb & Hv & Hl & Hlast).
  { change (256 ^ Z.of_nat 8) with (2 ^ 64); lia. }
  fold r in Hb, Hv, Hl, Hlast; fold b in Hlast.
  assert (Hne : r <> []) by (intros E; rewrite E in Hv; cbn in Hv; lia).
  assert (Hbb : is_byte b).
  { rewrite (app_last r 0 Hne) in Hb; apply Forall_app in Hb as [_ Hq].
    now apply Forall_inv in Hq. }
  unfold serialize.
  rewrite (proj2 (Z.eqb_neq _ 0)) by (destruct neg; lia).
  replace ((if neg then - a else a) <? 0) with neg by (destruct neg; symmetry; zbool; lia).
  replace (if neg then u64 (- (if neg then - a else a)) else if neg then - a else a)
    with a by (destruct neg; rewrite ?Z.opp_involutive, ?uwrap_small; lia).
  fold r; fold b; rewrite byte_land_128 by assumption.
  destruct (Z.ltb_spec b 128); cbn [negb]; [| reflexivity].
  destruct neg; [| reflexivity].
  do 2 f_equal; change 128 with (Z.shiftl 1 7) at 1.
  unfold is_byte in Hbb; rewrite lor_shiftl_add; lia.
Qed.

(** The shape of [serialize]: the digits of the magnitude, with the sign put
    into the top byte or into an extra byte when its high bit is taken. *)
Lemma serialize_shape n :
  n <> 0 -> - 2 ^ 63 < n < 2 ^ 63 ->
  exists pre b, is_byte b /\ bytes pre /\ b <> 0 /\ zlen pre <= 7 /\
    le_val pre + b * 256 ^ zlen pre = Z.abs n /\
    serialize n =
      (if b <? 128 then pre ++ [if n <? 0 then b + 128 else b]
       else pre ++ [b; if n <? 0 then 128 else 0]).
Proof.
  intros Hn Hr.
  assert (Hs : serialize n = serialize (if n <? 0 then - Z.abs n else Z.abs n))
    by (f_equal; zbool; lia).
  rewrite Hs, serialize_mag by lia; clear Hs; cbv zeta.
  destruct (serialize_loop_spec 8 (Z.abs n)) as (Hb & Hv & Hl & Hlast).
  { change (256 ^ Z.of_nat 8) with (2 ^ 64); lia. }
  specialize (Hlast ltac:(lia)).
  set (r := serialize_loop 8 (Z.abs n)) in *.
  assert (Hne : r <> []) by (intros E; rewrite E in Hv; cbn in Hv; lia).
  pose proof (app_last r 0 Hne) as Hr0.
  set (pre := removelast r) in *; set (b := List.last r 0) in *.
  exists pre, b.
  assert (Hbs := Hb); rewrite Hr0 in Hbs.
  apply Forall_app in Hbs as [Hbp Hbb]; apply Forall_inv in Hbb.
  assert (Hlp : zlen pre <= 7).
  { rewrite Hr0, length_app in Hl; unfold zlen; cbn [length] in Hl; lia. }
  repeat split; auto; [apply Hbb | apply Hbb | |].
  - rewrite <- Hv, Hr0 at 1; apply eq_sym, le_val_snoc.
  - destruct (Z.ltb_spec b 128).
    + destruct (n <? 0); [reflexivity | now rewrite <- Hr0].
    + rewrite Hr0 at 1; now rewrite <- app_assoc.
Qed.

Lemma set_vch_serialize n : - 2 ^ 63 < n < 2 ^ 63 -> set_vch (serialize n) = n.
Proof.
  intros Hr.
  destruct (Z.eq_dec n 0) as [-> | Hn]; [reflexivity |].
  destruct (serialize_shape n Hn Hr) as (pre & b & Hb & Hp & Hbn & Hl & Hv & ->).
  pose proof (le_val_range pre Hp) as Hrp; pose proof (zlen_nonneg pre).
  unfold is_byte in Hb.
  destruct (Z.ltb_spec b 128).
  - rewrite set_vch_snoc by (auto; unfold is_byte; zbool; lia).
    zbool; nia.
  - assert (Hl6 : zlen pre <= 6).
    { destruct (Z.le_gt_cases (zlen pre) 6); [assumption |].
      assert (E : zlen pre = 7) by lia; rewrite E in *.
      change (256 ^ 7) with (2 ^ 56) in *; lia. }
    replace (pre ++ [b; if n <? 0 then 128 else 0])
      with ((pre ++ [b]) ++ [if n <? 0 then 128 else 0]) by now rewrite <- app_assoc.
    rewrite set_vch_snoc.
    + rewrite le_val_snoc; zbool; lia.
    + apply Forall_app; auto.
    + unfold is_byte; zbool; lia.
    + autorewrite with lists; lia.
Qed.

(** ** The checking constructor *)

Lemma zlen_serialize n k :
  1 <= k <= 8 -> Z.abs n < 2 ^ (8 * k - 1) -> zlen (serialize n) <= k.
Proof.
  intros Hk Hr.
  destruct (Z.eq_dec n 0) as [-> | Hn]; [change (zlen (serialize 0)) with 0; lia |].
  assert (2 ^ (8 * k - 1) <= 2 ^ 63) by (apply Z.pow_le_mono_r; lia).
  destruct (serialize_shape n Hn ltac:(lia)) as (pre & b & Hb & Hp & Hbn & Hl & Hv & ->).
  pose proof (le_val_range pre Hp) as Hrp; pose proof (zlen_nonneg pre).
  unfold is_byte in Hb.
  destruct (Z.ltb_spec b 128); autorewrite with lists.
  - destruct (Z.le_gt_cases (zlen pre + (1 + 0)) k); [assumption |].
    assert (256 ^ k <= 256 ^ zlen pre) by (apply Z.pow_le_mono_r; lia).
    assert (2 ^ (8 * k - 1) < 256 ^ k)
      by (rewrite <- pow_8_256 by lia; apply Z.pow_lt_mono_r; lia).
    nia.
  - destruct (Z.le_gt_cases (zlen pre + (1 + (1 + 0))) k); [assumption |].
    assert (2 ^ (8 * k - 1) <= 2 ^ (7 + 8 * zlen pre)) by (apply Z.pow_le_mono_r; lia).
    rewrite (Z.pow_add_r 2 7), pow_8_256 in * by lia.
    change (2 ^ 7) with 128 in *; nia.
Qed.

Lemma land_127 b : is_byte b -> Z.land b 127 = b mod 128.
Proof. intros _; exact (land_mask_mod b 7 ltac:(lia)). Qed.

Lemma at_app_l l1 l2 i : 0 <= i < zlen l1 -> at_ (l1 ++ l2) i = at_ l1 i.
Proof. unfold at_, zlen; intros; apply app_nth1; lia. Qed.

Lemma at_snoc l b : at_ (l ++ [b]) (zlen l) = b.
Proof.
  unfold at_, zlen; rewrite Nat2Z.id, app_nth2, Nat.sub_diag by lia; reflexivity.
Qed.

Lemma at_last l : l <> [] -> at_ l (zlen l - 1) = List.last l 0.
Proof.
  intros Hne; rewrite (app_last l 0 Hne) at 1 2.
  autorewrite with lists.
  replace (zlen (removelast l) + (1 + 0) - 1) with (zlen (removelast l)) by lia.
  apply at_snoc.
Qed.

Lemma CScriptNum_vch_ok_inv {E} v fMin k n :
  CScriptNum_vch (E := E) v fMin k = Ok n -> zlen v <= k /\ n = set_vch v.
Proof. unfold CScriptNum_vch; intros H; zbool; repeat case_hyp H; simplify_eq; auto with lia. Qed.

(** A decoded number lies in the range its size limit promises. *)
Lemma set_vch_range v k :
  bytes v -> 1 <= k <= 8 -> zlen v <= k -> Z.abs (set_vch v) < 2 ^ (8 * k - 1).
Proof.
  intros Hb Hk Hl.
  destruct (decide (v = [])) as [-> | Hne]; [cbn; apply Z.pow_pos_nonneg; lia |].
  rewrite (app_last v 0 Hne) in Hb, Hl |- *.
  apply Forall_app in Hb as [Hp Hbb]; apply Forall_inv in Hbb.
  set (pre := removelast v) in *; set (b := List.last v 0) in *.
  autorewrite with lists in Hl; pose proof (zlen_nonneg pre).
  rewrite set_vch_snoc by (auto; lia).
  pose proof (le_val_range pre Hp) as Hrp; unfold is_byte in Hbb.
  assert (Hm : 2 ^ (7 + 8 * zlen pre) <= 2 ^ (8 * k - 1)) by (apply Z.pow_le_mono_r; lia).
  rewrite (Z.pow_add_r 2 7), pow_8_256 in Hm by lia.
  change (2 ^ 7) with 128 in Hm; zbool; nia.
Qed.

Lemma serialize_minimal n k :
  1 <= k <= 8 -> Z.abs n < 2 ^ (8 * k - 1) ->
  forall {E}, CScriptNum_vch (E := E) (serialize n) true k = Ok n.
Proof.
  intros Hk Hr E; pose proof (zlen_serialize n k Hk Hr) as Hlen.
  assert (2 ^ (8 * k - 1) <= 2 ^ 63) by (apply Z.pow_le_mono_r; lia).
  unfold CScriptNum_vch; rewrite set_vch_serialize by lia.
  rewrite (proj2 (Z.ltb_ge _ _) Hlen).
  destruct (Z.eq_dec n 0) as [-> | Hn]; [reflexivity |].
  destruct (serialize_shape n Hn ltac:(lia)) as (pre & b & Hb & Hp & Hbn & Hl & Hv & ->).
  pose proof Hb as Hb'; unfold is_byte in Hb'.
  destruct (Z.ltb_spec b 128).
  - rewrite last_app_one, land_127 by (unfold is_byte; zbool; lia).
    replace ((if n <? 0 then b + 128 else b) mod 128) with b.
    + rewrite (proj2 (Z.eqb_neq _ _) Hbn), andb_false_r; reflexivity.
    + zbool; [replace (b + 128) with (b + 1 * 128) by lia; rewrite Z.mod_add by lia |].
      all: now rewrite Z.mod_small by lia.
  - replace (pre ++ [b; if n <? 0 then 128 else 0])
      with ((pre ++ [b]) ++ [if n <? 0 then 128 else 0]) by now rewrite <- app_assoc.
    autorewrite with lists; pose proof (zlen_nonneg pre).
    replace (zlen pre + (1 + 0) + (1 + 0) - 2) with (zlen pre) by lia.
    rewrite at_app_l, at_snoc, byte_land_128 by (autorewrite with lists; lia || auto).
    zbool; try lia; now rewrite andb_false_r.
Qed.

Lemma minimal_canonical v k n :
  bytes v -> k <= 8 -> CScriptNum_vch (E := unit) v true k = Ok n -> v = serialize n.
Proof.
  intros Hb Hk Hok; destruct (CScriptNum_vch_ok_inv _ _ _ _ Hok) as [Hl ->].
  destruct (decide (v = [])) as [-> | Hne]; [reflexivity |].
  revert Hok; unfold CScriptNum_vch.
  rewrite (proj2 (Z.ltb_ge _ _) Hl).
  rewrite (app_last v 0 Hne) in Hb, Hl |- *.
  apply Forall_app in Hb as [Hp Hbb]; apply Forall_inv in Hbb.
  set (pre := removelast v) in *; set (b := List.last v 0) in *; clearbody pre b; clear v Hne.
  autorewrite with lists in Hl |- *; pose proof (zlen_nonneg pre).
  rewrite last_app_one, land_127, (proj2 (Z.ltb_lt 0 _)) by (auto; lia).
  replace (zlen pre + (1 + 0) - 2) with (zlen pre - 1) by lia.
  rewrite set_vch_snoc by (auto; lia).
  pose proof (le_val_range pre Hp) as Hrp; pose proof Hbb as Hbb'; unfold is_byte in Hbb'.
  assert (Hpow : 0 < 256 ^ zlen pre) by (apply Z.pow_pos_nonneg; lia).
  assert (Hp7 : 256 ^ zlen pre <= 256 ^ 7) by (apply Z.pow_le_mono_r; lia).
  change (256 ^ 7) with (2 ^ 56) in Hp7.
  assert (Hloop : forall c, 0 < c < 256 ->
    serialize_loop 8 (le_val pre + c * 256 ^ zlen pre) = pre ++ [c]).
  { intros c Hc; rewrite <- le_val_snoc; apply serialize_loop_unique.
    - apply Forall_app; split; auto; constructor; auto; unfold is_byte; lia.
    - rewrite length_app; unfold zlen in Hl; cbn; lia.
    - intros _; rewrite last_app_one; lia. }
  destruct (Z.eq_dec (b mod 128) 0) as [Ez | Enz].
  - (* sign byte alone: the magnitude is [pre], whose top bit must be set *)
    rewrite Ez; cbn [andb Z.eqb].
    destruct (Z.leb_spec (zlen pre + (1 + 0)) 1); [discriminate |].
    assert (Hpne : pre <> []) by (intros ->; rewrite zlen_nil in *; lia).
    rewrite at_app_l, at_last by (assumption || lia).
    pose proof (app_last pre 0 Hpne) as Hpe.
    assert (Hlb : is_byte (List.last pre 0)).
    { rewrite Hpe in Hp; apply Forall_app in Hp as [_ Hq]; now apply Forall_inv in Hq. }
    rewrite byte_land_128 by assumption; cbn [orb andb].
    destruct (Z.ltb_spec (List.last pre 0) 128); [discriminate | intros _].
    assert (Hs : serialize_loop 8 (le_val pre) = pre).
    { apply serialize_loop_unique; auto; [unfold zlen in Hl; lia | lia]. }
    assert (Hpos : 0 < le_val pre).
    { rewrite Hpe, le_val_snoc.
      rewrite Hpe in Hp; apply Forall_app in Hp as [Hq _].
      pose proof (le_val_range _ Hq); pose proof (zlen_nonneg (removelast pre)).
      assert (0 < 256 ^ zlen (removelast pre)) by (apply Z.pow_pos_nonneg; lia); nia. }
    assert (b = 0 \/ b = 128) as Hbv.
    { pose proof (Z.div_mod b 128 ltac:(lia)).
      assert (0 <= b / 128 < 2) by (split; [apply Z.div_pos | apply Z.div_lt_upper_bound]; lia).
      lia. }
    replace (if b <? 128 then _ else _)
      with (if negb (b <? 128) then - le_val pre else le_val pre) by (zbool; cbn; lia).
    rewrite serialize_mag, Hs by nia.
    destruct Hbv as [-> | ->]; zbool; cbn; lia || auto.
  - intros _.
    replace (if b <? 128 then _ else _)
      with (let a := le_val pre + b mod 128 * 256 ^ zlen pre in
            if negb (b <? 128) then - a else a).
    2: { zbool; cbn [negb]; [rewrite Z.mod_small by lia; lia |].
         replace b with (b - 128 + 1 * 128) at 1 by lia.
         rewrite Z.mod_add, Z.mod_small by lia; lia. }
    assert (0 < b mod 128 < 128) by (pose proof (Z.mod_pos_bound b 128); lia).
    cbv zeta; rewrite serialize_mag, Hloop by nia; cbv zeta.
    rewrite last_app_one, removelast_last, (proj2 (Z.ltb_lt _ _)) by lia.
    zbool; cbn [negb]; do 2 f_equal.
    + symmetry; apply Z.mod_small; lia.
    + replace b with (b - 128 + 1 * 128) at 2 by lia.
      rewrite Z.mod_add, Z.mod_small; lia.
Qed.

(** ** Properties *)

(** Under the minimality rule the constructor accepts a byte vector [v]
    with limit [k] bytes and yields [n] exactly when [v] is the encoding
    [serialize n] of [n] and [n] fits in [k] bytes with a sign bit: decoding
    inverts encoding, and no second encoding of a number is accepted. *)
Theorem scriptnum_minimal_iff (v : list Z) (n k : Z) :
  bytes v -> 1 <= k <= 8 ->
  CScriptNum_vch (E := unit) v true k = Ok n <->
  v = serialize n /\ Z.abs n < 2 ^ (8 * k - 1).
Proof.
  intros Hb Hk; split.
  - intros Hok; split; [now apply minimal_canonical with k; [| lia |] |].
    destruct (CScriptNum_vch_ok_inv _ _ _ _ Hok) as [Hl ->].
    now apply set_vch_range.
  - intros [-> Hr]; now apply serialize_minimal.
Qed.

Lemma scriptnum_minimal_iff_witness :
  CScriptNum_vch (E := unit) [255; 128] true 4 = Ok (-255) <->
  [255; 128] = serialize (-255) /\ Z.abs (-255) < 2 ^ (8 * 4 - 1).
Proof.
  apply (scriptnum_minimal_iff [255; 128] (-255) 4);
    [repeat constructor; unfold is_byte; lia | lia].
Defined.

(** With the default four-byte limit, every operand the constructor accepts
    (minimal or not) lies in [-2^31 + 1, 2^31 - 1], so [getint] returns it
    unchanged and the assertions of [operator-], [operator+=] and [operator-=]
    cannot fail on a single operand and the constant one. *)
Theorem scriptnum_operand_safe (v : list Z) (fMin : bool) (n : Z) :
  bytes v ->
  CScriptNum_vch (E := unit) v fMin nDefaultMaxNumSize = Ok n ->
  - 2 ^ 31 < n < 2 ^ 31 /\ getint n = n /\
  scriptnum_neg (E := unit) n = Ok (- n) /\
  scriptnum_add_assign (E := unit) n 1 = Ok (n + 1) /\
  scriptnum_sub_assign (E := unit) n 1 = Ok (n - 1).
Proof.
  intros Hb Hok; destruct (CScriptNum_vch_ok_inv _ _ _ _ Hok) as [Hl ->].
  pose proof (set_vch_range v 4 Hb ltac:(lia) Hl) as Hr.
  change (2 ^ (8 * 4 - 1)) with (2 ^ 31) in Hr.
  unfold getint, scriptnum_neg, scriptnum_add_assign, scriptnum_sub_assign,
    assert_, INT_MAX, INT_MIN, INT64_MAX, INT64_MIN; cbn [mbind res_bind].
  repeat split; zbool; cbn; lia || auto.
Qed.

Lemma scriptnum_operand_safe_witness :
  CScriptNum_vch (E := unit) [255; 255; 255; 255] true 4 = Ok (- (2 ^ 31 - 1)) /\
  scriptnum_sub_assign (E := unit) (- (2 ^ 31 - 1)) 1 = Ok (- (2 ^ 31 - 1) - 1).
Proof.
  split; [vm_compute; reflexivity |].
  apply (scriptnum_operand_safe [255; 255; 255; 255] true (- (2 ^ 31 - 1)));
    [repeat constructor; unfold is_byte; lia | vm_compute; reflexivity].
Defined.
