(* ===== verification/Script.v ===== *)
(** * Scripts

    The serialized script of script/script.h and script/script.cpp: opcodes,
    the builder operators, the instruction reader [GetOp2] and the predicates
    and counters that scan a script.  A script is its list of bytes; an
    iterator into it is the list of the bytes from the iterator to [end()].
    Loops over an iterator use the script's length as fuel, since every
    [GetOp2] on a nonempty rest consumes at least one byte
    ([GetOp2_progress]).  [parses] is the specification of the reader: the
    instructions a script is made of. *)
From Stdlib Require Import Ascii.
From stdpp Require Import strings pretty.
From S2P Require Import Prelude ScriptNum Endian Hashing.

(** ** Opcodes *)

Inductive opcodetype :=
| OP_0 | OP_PUSHDATA1 | OP_PUSHDATA2 | OP_PUSHDATA4 | OP_1NEGATE | OP_RESERVED
| OP_1 | OP_2 | OP_3 | OP_4 | OP_5 | OP_6 | OP_7 | OP_8 | OP_9 | OP_10 | OP_11
| OP_12 | OP_13 | OP_14 | OP_15 | OP_16
| OP_NOP | OP_VER | OP_IF | OP_NOTIF | OP_VERIF | OP_VERNOTIF | OP_ELSE
| OP_ENDIF | OP_VERIFY | OP_RETURN
| OP_TOALTSTACK | OP_FROMALTSTACK | OP_2DROP | OP_2DUP | OP_3DUP | OP_2OVER
| OP_2ROT | OP_2SWAP | OP_IFDUP | OP_DEPTH | OP_DROP | OP_DUP | OP_NIP
| OP_OVER | OP_PICK | OP_ROLL | OP_ROT | OP_SWAP | OP_TUCK
| OP_CAT | OP_SUBSTR | OP_LEFT | OP_RIGHT | OP_SIZE
| OP_INVERT | OP_AND | OP_OR | OP_XOR | OP_EQUAL | OP_EQUALVERIFY
| OP_RESERVED1 | OP_RESERVED2
| OP_1ADD | OP_1SUB | OP_2MUL | OP_2DIV | OP_NEGATE | OP_ABS | OP_NOT
| OP_0NOTEQUAL | OP_ADD | OP_SUB | OP_MUL | OP_DIV | OP_MOD | OP_LSHIFT
| OP_RSHIFT | OP_BOOLAND | OP_BOOLOR | OP_NUMEQUAL | OP_NUMEQUALVERIFY
| OP_NUMNOTEQUAL | OP_LESSTHAN | OP_GREATERTHAN | OP_LESSTHANOREQUAL
| OP_GREATERTHANOREQUAL | OP_MIN | OP_MAX | OP_WITHIN
| OP_RIPEMD160 | OP_SHA1 | OP_SHA256 | OP_HASH160 | OP_HASH256
| OP_CODESEPARATOR | OP_CHECKSIG | OP_CHECKSIGVERIFY | OP_CHECKMULTISIG
| OP_CHECKMULTISIGVERIFY | OP_CHECKCRYPTOCONDITION
| OP_CHECKCRYPTOCONDITIONVERIFY
| OP_NOP1 | OP_NOP2 | OP_NOP3 | OP_NOP4 | OP_NOP5 | OP_NOP6 | OP_NOP7
| OP_NOP8 | OP_NOP9 | OP_NOP10
| OP_SMALLDATA | OP_CRYPTOCONDITION | OP_INVALIDOPCODE.

(** The enumerators' values.  The code compares opcodes as integers and casts
    any byte to the enumeration, so an opcode in flight is an integer and the
    enumerators are coerced to it. *)
Definition opcode_value (op : opcodetype) : Z :=
  match op with
  | OP_0 => 0x00
  | OP_PUSHDATA1 => 0x4c | OP_PUSHDATA2 => 0x4d | OP_PUSHDATA4 => 0x4e
  | OP_1NEGATE => 0x4f | OP_RESERVED => 0x50
  | OP_1 => 0x51 | OP_2 => 0x52 | OP_3 => 0x53 | OP_4 => 0x54 | OP_5 => 0x55
  | OP_6 => 0x56 | OP_7 => 0x57 | OP_8 => 0x58 | OP_9 => 0x59 | OP_10 => 0x5a
  | OP_11 => 0x5b | OP_12 => 0x5c | OP_13 => 0x5d | OP_14 => 0x5e
  | OP_15 => 0x5f | OP_16 => 0x60
  | OP_NOP => 0x61 | OP_VER => 0x62 | OP_IF => 0x63 | OP_NOTIF => 0x64
  | OP_VERIF => 0x65 | OP_VERNOTIF => 0x66 | OP_ELSE => 0x67
  | OP_ENDIF => 0x68 | OP_VERIFY => 0x69 | OP_RETURN => 0x6a
  | OP_TOALTSTACK => 0x6b | OP_FROMALTSTACK => 0x6c | OP_2DROP => 0x6d
  | OP_2DUP => 0x6e | OP_3DUP => 0x6f | OP_2OVER => 0x70 | OP_2ROT => 0x71
  | OP_2SWAP => 0x72 | OP_IFDUP => 0x73 | OP_DEPTH => 0x74 | OP_DROP => 0x75
  | OP_DUP => 0x76 | OP_NIP => 0x77 | OP_OVER => 0x78 | OP_PICK => 0x79
  | OP_ROLL => 0x7a | OP_ROT => 0x7b | OP_SWAP => 0x7c | OP_TUCK => 0x7d
  | OP_CAT => 0x7e | OP_SUBSTR => 0x7f | OP_LEFT => 0x80 | OP_RIGHT => 0x81
  | OP_SIZE => 0x82
  | OP_INVERT => 0x83 | OP_AND => 0x84 | OP_OR => 0x85 | OP_XOR => 0x86
  | OP_EQUAL => 0x87 | OP_EQUALVERIFY => 0x88 | OP_RESERVED1 => 0x89
  | OP_RESERVED2 => 0x8a
  | OP_1ADD => 0x8b | OP_1SUB => 0x8c | OP_2MUL => 0x8d | OP_2DIV => 0x8e
  | OP_NEGATE => 0x8f | OP_ABS => 0x90 | OP_NOT => 0x91
  | OP_0NOTEQUAL => 0x92 | OP_ADD => 0x93 | OP_SUB => 0x94 | OP_MUL => 0x95
  | OP_DIV => 0x96 | OP_MOD => 0x97 | OP_LSHIFT => 0x98 | OP_RSHIFT => 0x99
  | OP_BOOLAND => 0x9a | OP_BOOLOR => 0x9b | OP_NUMEQUAL => 0x9c
  | OP_NUMEQUALVERIFY => 0x9d | OP_NUMNOTEQUAL => 0x9e | OP_LESSTHAN => 0x9f
  | OP_GREATERTHAN => 0xa0 | OP_LESSTHANOREQUAL => 0xa1
  | OP_GREATERTHANOREQUAL => 0xa2 | OP_MIN => 0xa3 | OP_MAX => 0xa4
  | OP_WITHIN => 0xa5
  | OP_RIPEMD160 => 0xa6 | OP_SHA1 => 0xa7 | OP_SHA256 => 0xa8
  | OP_HASH160 => 0xa9 | OP_HASH256 => 0xaa | OP_CODESEPARATOR => 0xab
  | OP_CHECKSIG => 0xac | OP_CHECKSIGVERIFY => 0xad
  | OP_CHECKMULTISIG => 0xae | OP_CHECKMULTISIGVERIFY => 0xaf
  | OP_CHECKCRYPTOCONDITION => 0xcc | OP_CHECKCRYPTOCONDITIONVERIFY => 0xcd
  | OP_NOP1 => 0xb0 | OP_NOP2 => 0xb1 | OP_NOP3 => 0xb2 | OP_NOP4 => 0xb3
  | OP_NOP5 => 0xb4 | OP_NOP6 => 0xb5 | OP_NOP7 => 0xb6 | OP_NOP8 => 0xb7
  | OP_NOP9 => 0xb8 | OP_NOP10 => 0xb9
  | OP_SMALLDATA => 0xf9 | OP_CRYPTOCONDITION => 0xfc
  | OP_INVALIDOPCODE => 0xff
  end.
Coercion opcode_value : opcodetype >-> Z.

Definition OP_FALSE : opcodetype := OP_0.
Definition OP_TRUE : opcodetype := OP_1.
Definition OP_CHECKLOCKTIMEVERIFY : opcodetype := OP_NOP2.

Definition MAX_SCRIPT_ELEMENT_SIZE : Z := 520.
Definition MAX_SCRIPT_CRYPTOCONDITION_FULFILLMENT_SIZE : Z := 2048.
Definition MAX_SCRIPT_SIZE : Z := 10000.
Definition LOCKTIME_THRESHOLD : Z := 500000000.
Definition EVAL_IMPORTCOIN : Z := 0xe2.

(** The [switch] of [GetOpName], as the list of its cases. *)
Definition GetOpName_cases : list (opcodetype * string) :=
  [(OP_0, "0"); (OP_PUSHDATA1, "OP_PUSHDATA1"); (OP_PUSHDATA2, "OP_PUSHDATA2");
   (OP_PUSHDATA4, "OP_PUSHDATA4"); (OP_1NEGATE, "-1"); (OP_RESERVED, "OP_RESERVED");
   (OP_1, "1"); (OP_2, "2"); (OP_3, "3"); (OP_4, "4"); (OP_5, "5"); (OP_6, "6");
   (OP_7, "7"); (OP_8, "8"); (OP_9, "9"); (OP_10, "10"); (OP_11, "11");
   (OP_12, "12"); (OP_13, "13"); (OP_14, "14"); (OP_15, "15"); (OP_16, "16");
   (OP_NOP, "OP_NOP"); (OP_VER, "OP_VER"); (OP_IF, "OP_IF"); (OP_NOTIF, "OP_NOTIF");
   (OP_VERIF, "OP_VERIF"); (OP_VERNOTIF, "OP_VERNOTIF"); (OP_ELSE, "OP_ELSE");
   (OP_ENDIF, "OP_ENDIF"); (OP_VERIFY, "OP_VERIFY"); (OP_RETURN, "OP_RETURN");
   (OP_TOALTSTACK, "OP_TOALTSTACK"); (OP_FROMALTSTACK, "OP_FROMALTSTACK");
   (OP_2DROP, "OP_2DROP"); (OP_2DUP, "OP_2DUP"); (OP_3DUP, "OP_3DUP");
   (OP_2OVER, "OP_2OVER"); (OP_2ROT, "OP_2ROT"); (OP_2SWAP, "OP_2SWAP");
   (OP_IFDUP, "OP_IFDUP"); (OP_DEPTH, "OP_DEPTH"); (OP_DROP, "OP_DROP");
   (OP_DUP, "OP_DUP"); (OP_NIP, "OP_NIP"); (OP_OVER, "OP_OVER");
   (OP_PICK, "OP_PICK"); (OP_ROLL, "OP_ROLL"); (OP_ROT, "OP_ROT");
   (OP_SWAP, "OP_SWAP"); (OP_TUCK, "OP_TUCK"); (OP_CAT, "OP_CAT");
   (OP_SUBSTR, "OP_SUBSTR"); (OP_LEFT, "OP_LEFT"); (OP_RIGHT, "OP_RIGHT");
   (OP_SIZE, "OP_SIZE"); (OP_INVERT, "OP_INVERT"); (OP_AND, "OP_AND");
   (OP_OR, "OP_OR"); (OP_XOR, "OP_XOR"); (OP_EQUAL, "OP_EQUAL");
   (OP_EQUALVERIFY, "OP_EQUALVERIFY"); (OP_RESERVED1, "OP_RESERVED1");
   (OP_RESERVED2, "OP_RESERVED2"); (OP_1ADD, "OP_1ADD"); (OP_1SUB, "OP_1SUB");
   (OP_2MUL, "OP_2MUL"); (OP_2DIV, "OP_2DIV"); (OP_NEGATE, "OP_NEGATE");
   (OP_ABS, "OP_ABS"); (OP_NOT, "OP_NOT"); (OP_0NOTEQUAL, "OP_0NOTEQUAL");
   (OP_ADD, "OP_ADD"); (OP_SUB, "OP_SUB"); (OP_MUL, "OP_MUL"); (OP_DIV, "OP_DIV");
   (OP_MOD, "OP_MOD"); (OP_LSHIFT, "OP_LSHIFT"); (OP_RSHIFT, "OP_RSHIFT");
   (OP_BOOLAND, "OP_BOOLAND"); (OP_BOOLOR, "OP_BOOLOR");
   (OP_NUMEQUAL, "OP_NUMEQUAL"); (OP_NUMEQUALVERIFY, "OP_NUMEQUALVERIFY");
   (OP_NUMNOTEQUAL, "OP_NUMNOTEQUAL"); (OP_LESSTHAN, "OP_LESSTHAN");
   (OP_GREATERTHAN, "OP_GREATERTHAN"); (OP_LESSTHANOREQUAL, "OP_LESSTHANOREQUAL");
   (OP_GREATERTHANOREQUAL, "OP_GREATERTHANOREQUAL"); (OP_MIN, "OP_MIN");
   (OP_MAX, "OP_MAX"); (OP_WITHIN, "OP_WITHIN"); (OP_RIPEMD160, "OP_RIPEMD160");
   (OP_SHA1, "OP_SHA1"); (OP_SHA256, "OP_SHA256"); (OP_HASH160, "OP_HASH160");
   (OP_HASH256, "OP_HASH256"); (OP_CODESEPARATOR, "OP_CODESEPARATOR");
   (OP_CHECKSIG, "OP_CHECKSIG"); (OP_CHECKSIGVERIFY, "OP_CHECKSIGVERIFY");
   (OP_CHECKMULTISIG, "OP_CHECKMULTISIG");
   (OP_CHECKMULTISIGVERIFY, "OP_CHECKMULTISIGVERIFY");
   (OP_CHECKCRYPTOCONDITION, "OP_CHECKCRYPTOCONDITION");
   (OP_CHECKCRYPTOCONDITIONVERIFY, "OP_CHECKCRYPTOCONDITIONVERIFY");
   (OP_NOP1, "OP_NOP1"); (OP_NOP2, "OP_NOP2"); (OP_NOP3, "OP_NOP3");
   (OP_NOP4, "OP_NOP4"); (OP_NOP5, "OP_NOP5"); (OP_NOP6, "OP_NOP6");
   (OP_NOP7, "OP_NOP7"); (OP_NOP8, "OP_NOP8"); (OP_NOP9, "OP_NOP9");
   (OP_NOP10, "OP_NOP10"); (OP_INVALIDOPCODE, "OP_INVALIDOPCODE")]%string.

Definition GetOpName (opcode : Z) : string :=
  match List.find (fun c => opcode_value c.1 =? opcode) GetOpName_cases with
  | Some c => c.2
  | None => "OP_UNKNOWN"
  end.

(** ** Building scripts *)

(** [operator<<(const std::vector<unsigned char>&)]: a data push. *)
Definition push_vch (script b : list Z) : list Z :=
  (if zlen b <? OP_PUSHDATA1 then script ++ [u8 (zlen b)]
   else if zlen b <=? 0xff then script ++ [OP_PUSHDATA1 : Z] ++ [u8 (zlen b)]
   else if zlen b <=? 0xffff then
     script ++ [OP_PUSHDATA2 : Z] ++ WriteLE16 (zlen b)
   else script ++ [OP_PUSHDATA4 : Z] ++ WriteLE32 (zlen b)) ++ b.

(** [operator<<(opcodetype)]. *)
Definition push_opcode {E} (script : list Z) (opcode : Z) : res E (list Z) :=
  if (opcode <? 0) || (0xff <? opcode) then Exn runtime_error
  else Ok (script ++ [u8 opcode]).

(** [operator<<(const CScriptNum&)]. *)
Definition push_scriptnum (script : list Z) (b : Z) : list Z :=
  push_vch script (serialize b).

(** [push_int64], which is [operator<<(int64_t)]. *)
Definition push_int64 (script : list Z) (n : Z) : list Z :=
  if (n =? -1) || ((1 <=? n) && (n <=? 16)) then script ++ [u8 (n + (OP_1 - 1))]
  else if n =? 0 then script ++ [OP_0 : Z]
  else push_vch script (serialize n).

(** ** Reading instructions *)

(** What [GetOp2] leaves behind: its return value, the advanced iterator, and
    the two output parameters. *)
Record getop := {
  go_ret : bool;
  go_pc : list Z;
  go_opcode : Z;
  go_vch : list Z;
}.

Definition getop_fail (pc : list Z) : getop :=
  {| go_ret := false; go_pc := pc; go_opcode := OP_INVALIDOPCODE; go_vch := [] |}.

(** The operand size of a push opcode, and the iterator behind it; the boolean
    is false when the script ends inside the size field. *)
Definition GetOp2_size (opcode : Z) (pc : list Z) : bool * Z * list Z :=
  if opcode <? OP_PUSHDATA1 then (true, opcode, pc)
  else if opcode =? OP_PUSHDATA1 then
    if zlen pc <? 1 then (false, 0, pc) else (true, at_ pc 0, drop 1 pc)
  else if opcode =? OP_PUSHDATA2 then
    if zlen pc <? 2 then (false, 0, pc) else (true, ReadLE16 pc, drop 2 pc)
  else if opcode =? OP_PUSHDATA4 then
    if zlen pc <? 4 then (false, 0, pc) else (true, ReadLE32 pc, drop 4 pc)
  else (true, 0, pc).

Definition GetOp2 (pc : list Z) : getop :=
  match pc with
  | [] => getop_fail []
  | opcode :: pc =>
      if opcode <=? OP_PUSHDATA4 then
        match GetOp2_size opcode pc with
        | (false, _, pc) => getop_fail pc
        | (true, nSize, pc) =>
            if (zlen pc <? 0) || (u32 (zlen pc) <? nSize) then getop_fail pc
            else {| go_ret := true; go_pc := drop (Z.to_nat nSize) pc;
                    go_opcode := opcode; go_vch := take (Z.to_nat nSize) pc |}
        end
      else {| go_ret := true; go_pc := pc; go_opcode := opcode; go_vch := [] |}
  end.

(** Small integers as opcodes. *)
Definition DecodeOP_N {E} (opcode : Z) : res E Z :=
  if opcode =? OP_0 then Ok 0
  else _ ← assert_ ((OP_1 <=? opcode) && (opcode <=? OP_16)); Ok (opcode - (OP_1 - 1)).

Definition EncodeOP_N {E} (n : Z) : res E Z :=
  _ ← assert_ ((0 <=? n) && (n <=? 16));
  if n =? 0 then Ok (OP_0 : Z) else Ok (OP_1 + n - 1).

(** ** Counting signature operations *)

Fixpoint GetSigOpCount_loop (fuel : nat) (fAccurate : bool) (pc : list Z)
    (lastOpcode n : Z) : Z :=
  match fuel, pc with
  | S fuel, _ :: _ =>
      let r := GetOp2 pc in
      if go_ret r then
        let opcode := go_opcode r in
        let n :=
          if (opcode =? OP_CHECKSIG) || (opcode =? OP_CHECKSIGVERIFY) then u32 (n + 1)
          else if (opcode =? OP_CHECKMULTISIG) || (opcode =? OP_CHECKMULTISIGVERIFY) then
            if fAccurate && (OP_1 <=? lastOpcode) && (lastOpcode <=? OP_16)
            then u32 (n + (lastOpcode - (OP_1 - 1)))
            else u32 (n + 20)
          else n in
        GetSigOpCount_loop fuel fAccurate (go_pc r) opcode n
      else n
  | _, _ => n
  end.

(** [GetSigOpCount(bool fAccurate)]. *)
Definition GetSigOpCount (script : list Z) (fAccurate : bool) : Z :=
  GetSigOpCount_loop (length script) fAccurate script OP_INVALIDOPCODE 0.

(** [IsPayToPublicKeyHash], [IsPayToPublicKey], [IsPayToScriptHash]. *)
Definition IsPayToPublicKeyHash (script : list Z) : bool :=
  (zlen script =? 25) && (at_ script 0 =? OP_DUP) && (at_ script 1 =? OP_HASH160)
  && (at_ script 2 =? 0x14) && (at_ script 23 =? OP_EQUALVERIFY)
  && (at_ script 24 =? OP_CHECKSIG).

Definition IsPayToPublicKey (script : list Z) : bool :=
  (zlen script =? 35) && (at_ script 0 =? 33) && (at_ script 34 =? OP_CHECKSIG).

Definition IsPayToScriptHash (script : list Z) : bool :=
  (zlen script =? 23) && (at_ script 0 =? OP_HASH160) && (at_ script 1 =? 0x14)
  && (at_ script 22 =? OP_EQUAL).

(** The scan of a P2SH input: the data of its last push, or [None] when the
    loop returns early. *)
Fixpoint last_push_loop (fuel : nat) (pc data : list Z) : option (list Z) :=
  match fuel, pc with
  | S fuel, _ :: _ =>
      let r := GetOp2 pc in
      if negb (go_ret r) then None
      else if OP_16 <? go_opcode r then None
      else last_push_loop fuel (go_pc r) (go_vch r)
  | _, _ => Some data
  end.

(** [GetSigOpCount(const CScript& scriptSig)]. *)
Definition GetSigOpCount_sig (script scriptSig : list Z) : Z :=
  if negb (IsPayToScriptHash script) then GetSigOpCount script true
  else match last_push_loop (length scriptSig) scriptSig [] with
       | None => 0
       | Some data => GetSigOpCount data true
       end.

(** ** Scanning scripts *)

(** The byte vector a small push leaves in the output list. *)
Definition small_push (opcode : Z) (data : list Z) : option (list Z) :=
  if opcode =? OP_0 then Some [0]
  else if (OP_1 <=? opcode) && (opcode <=? OP_16) then Some [u8 (opcode - OP_1 + 1)]
  else if (0 <? opcode) && (opcode <=? OP_PUSHDATA4) && (0 <? zlen data) then Some data
  else None.

(** The loop of [GetBalancedData]; [vSolutions] grows at its end. *)
Fixpoint GetBalancedData_loop (fuel : nat) (pc : list Z) (netPushes : Z)
    (vSolutions : list (list Z)) : bool * list (list Z) :=
  match fuel, pc with
  | S fuel, _ :: _ =>
      let r := GetOp2 pc in
      if go_ret r then
        if go_opcode r =? OP_DROP then
          if netPushes - 1 <? 0 then (false, vSolutions)
          else GetBalancedData_loop fuel (go_pc r) (netPushes - 1) vSolutions
        else
          match small_push (go_opcode r) (go_vch r) with
          | Some v => GetBalancedData_loop fuel (go_pc r) (netPushes + 1) (vSolutions ++ [v])
          | None => (false, vSolutions)
          end
      else (false, vSolutions)
  | _, _ => (netPushes =? 0, vSolutions)
  end.

Definition GetBalancedData (pc : list Z) : bool * list (list Z) :=
  GetBalancedData_loop (length pc) pc 0 [].

(** The loop of [GetPushedData].  A failed [GetOp] is not an error here: the
    loop goes on at the iterator [GetOp] left behind. *)
Fixpoint GetPushedData_loop (fuel : nat) (pc : list Z)
    (vData : list (list Z)) : bool * list (list Z) :=
  match fuel, pc with
  | S fuel, _ :: _ =>
      let r := GetOp2 pc in
      if go_ret r then
        match small_push (go_opcode r) (go_vch r) with
        | Some v => GetPushedData_loop fuel (go_pc r) (vData ++ [v])
        | None => (false, vData)
        end
      else GetPushedData_loop fuel (go_pc r) vData
  | _, _ => (negb (zlen vData =? 0), vData)
  end.

Definition GetPushedData (pc : list Z) : bool * list (list Z) :=
  GetPushedData_loop (length pc) pc [].

Definition GetOpretData (script : list Z) : bool * list (list Z) :=
  let r := GetOp2 script in
  if go_ret r && (go_opcode r =? OP_RETURN) then GetPushedData (go_pc r)
  else (false, []).

Definition IsOpReturn (script : list Z) : bool :=
  (0 <? zlen script) && (at_ script 0 =? OP_RETURN).

(** [IsPayToCryptoCondition(pCCSubScript, vParams)]: on success the script up
    to the condition and the parameters behind it. *)
Definition IsPayToCryptoCondition_full (script : list Z)
    : option (list Z * list (list Z)) :=
  let r := GetOp2 script in
  if go_ret r && (OP_0 <? go_opcode r) && (go_opcode r <? OP_PUSHDATA1) then
    let r2 := GetOp2 (go_pc r) in
    if go_ret r2 && (go_opcode r2 =? OP_CHECKCRYPTOCONDITION) then
      match GetBalancedData (go_pc r2) with
      | (true, vParams) => Some (take (length script - length (go_pc r2)) script, vParams)
      | (false, _) => None
      end
    else None
  else None.

Definition IsPayToCryptoCondition (script : list Z) : bool :=
  match IsPayToCryptoCondition_full script with
  | Some _ => true
  | None => false
  end.

(** [IsCoinImport]: the first data byte is read without a size check. *)
Definition IsCoinImport (script : list Z) : res unit bool :=
  let r := GetOp2 script in
  if go_ret r && (OP_0 <? go_opcode r) && (go_opcode r <=? OP_PUSHDATA4)
  then b ← index_ (go_vch r) 0; Ok (b =? EVAL_IMPORTCOIN)
  else Ok false.

Fixpoint IsPushOnly_loop (fuel : nat) (pc : list Z) : bool :=
  match fuel, pc with
  | S fuel, _ :: _ =>
      let r := GetOp2 pc in
      if negb (go_ret r) then false
      else if OP_16 <? go_opcode r then false
      else IsPushOnly_loop fuel (go_pc r)
  | _, _ => true
  end.

(** [IsPushOnly()], and [IsPushOnly(pc)] on the rest from an iterator. *)
Definition IsPushOnly (script : list Z) : bool :=
  IsPushOnly_loop (length script) script.

(** [IsWitnessProgram]: the version and the program on success. *)
Definition IsWitnessProgram {E} (script : list Z) : res E (option (Z * list Z)) :=
  if (zlen script <? 4) || (42 <? zlen script) then Ok None
  else if negb (at_ script 0 =? OP_0)
          && ((at_ script 0 <? OP_1) || (OP_16 <? at_ script 0)) then Ok None
  else if at_ script 1 + 2 =? zlen script then
    version ← DecodeOP_N (at_ script 0);
    Ok (Some (version, drop 2 script))
  else Ok None.

(** The lock time assembled from the bytes of the first push, last byte first. *)
Fixpoint unlock_time (param : list Z) : Z :=
  match param with
  | [] => 0
  | b :: param => Z.lor (i64 (Z.shiftl (unlock_time param) 8)) b
  end.

(** [IsCheckLockTimeVerify(int64_t *unlockTime)]: the byte behind the push is
    read without a size check. *)
Definition IsCheckLockTimeVerify {E} (script : list Z) : res E (option Z) :=
  let r := GetOp2 script in
  if go_ret r && (zlen (go_vch r) <? 6) then
    b ← index_ script (zlen (go_vch r) + 1);
    if b =? OP_CHECKLOCKTIMEVERIFY then Ok (Some (unlock_time (go_vch r)))
    else Ok None
  else Ok None.

Definition IsUnspendable (script : list Z) : bool :=
  ((0 <? zlen script) && (at_ script 0 =? OP_RETURN)) || (MAX_SCRIPT_SIZE <? zlen script).

(** ** Redeem scripts revealed in an OP_RETURN output *)

Section Reveal.
Context `{HashFunctions}.

(** [CHECK_SPK]: the P2SH output script of the bytes behind the three-byte
    prefix, compared with [script]. *)
Definition reveals (script redeemScript : list Z) : bool :=
  let redeemScript := drop 3 redeemScript in
  bool_decide (push_vch [OP_HASH160 : Z] (Hash160 redeemScript) ++ [OP_EQUAL : Z] = script).

Definition IsRedeemScriptReveal (script scriptpubkey : list Z) : bool :=
  let s := scriptpubkey in
  if (zlen s =? 110) && (at_ s 0 =? OP_RETURN) && (at_ s 3 =? OP_IF)
     && (at_ s 9 =? OP_NOP2) && (at_ s 10 =? OP_DROP) && (at_ s 45 =? OP_CHECKSIG)
     && (at_ s 46 =? OP_ELSE) && (at_ s 47 =? OP_SIZE) && (at_ s 48 =? 0x01)
     && (at_ s 49 =? 0x20) && (at_ s 50 =? OP_EQUALVERIFY)
     && (at_ s 51 =? OP_HASH160) && (at_ s 73 =? OP_EQUALVERIFY)
     && (at_ s 108 =? OP_CHECKSIG) && (at_ s 109 =? OP_ENDIF)
  then reveals script s
  else if (zlen s =? 122) && (at_ s 0 =? OP_RETURN) && (at_ s 3 =? OP_IF)
     && (at_ s 9 =? OP_NOP2) && (at_ s 10 =? OP_DROP) && (at_ s 45 =? OP_CHECKSIG)
     && (at_ s 46 =? OP_ELSE) && (at_ s 47 =? OP_SIZE) && (at_ s 48 =? 0x01)
     && (at_ s 49 =? 0x20) && (at_ s 50 =? OP_EQUALVERIFY)
     && ((at_ s 51 =? OP_SHA256) || (at_ s 51 =? OP_HASH256))
     && (at_ s 85 =? OP_EQUALVERIFY) && (at_ s 120 =? OP_CHECKSIG)
     && (at_ s 121 =? OP_ENDIF)
  then reveals script s
  else if (zlen s =? 101) && (at_ s 0 =? OP_RETURN) && (at_ s 1 =? 0x4c)
     && (at_ s 2 =? 0x62) && (at_ s 20 =? OP_DROP) && (at_ s 21 =? OP_IF)
     && (at_ s 22 =? 0x04) && (at_ s 27 =? OP_NOP2) && (at_ s 28 =? OP_DROP)
     && (at_ s 63 =? OP_CHECKSIG) && (at_ s 64 =? OP_ELSE)
     && (at_ s 99 =? OP_CHECKSIG) && (at_ s 100 =? OP_ENDIF)
  then reveals script s
  else false.
End Reveal.

(** ** Printing *)

Definition hexmap : list Ascii.ascii :=
  ["0"; "1"; "2"; "3"; "4"; "5"; "6"; "7"; "8"; "9"; "a"; "b"; "c"; "d"; "e"; "f"]%char.

Fixpoint HexStr (vch : list Z) : string :=
  match vch with
  | [] => EmptyString
  | val :: vch =>
      String (nth (Z.to_nat (Z.shiftr val 4)) hexmap "0"%char)
        (String (nth (Z.to_nat (Z.land val 15)) hexmap "0"%char) (HexStr vch))
  end.

(** [ValueString]: the constructor cannot throw on at most four bytes. *)
Definition ValueString (vch : list Z) : string :=
  if zlen vch <=? 4 then pretty (getint (set_vch vch)) else HexStr vch.

Fixpoint ToString_loop (fuel : nat) (pc : list Z) (str : string) : string :=
  match fuel, pc with
  | S fuel, _ :: _ =>
      let str := if String.eqb str "" then str else str +:+ " " in
      let r := GetOp2 pc in
      if negb (go_ret r) then str +:+ "[error]"
      else
        ToString_loop fuel (go_pc r)
          (str +:+ (if ((0 <=? go_opcode r) && (go_opcode r <=? OP_PUSHDATA4))%Z
                    then ValueString (go_vch r) else GetOpName (go_opcode r)))
  | _, _ => str
  end.

Definition ToString (script : list Z) : string :=
  ToString_loop (length script) script EmptyString.

(** ** The reader's progress and the script grammar *)

Lemma GetOp2_size_shrinks opcode pc ok n pc' :
  GetOp2_size opcode pc = (ok, n, pc') -> (length pc' <= length pc)%nat.
Proof.
  unfold GetOp2_size; intros H; repeat case_hyp H; simplify_eq; rewrite ?length_drop; lia.
Qed.

(** Every read on a nonempty rest advances, also when it fails. *)
Lemma GetOp2_progress pc :
  pc <> [] -> (length (go_pc (GetOp2 pc)) < length pc)%nat.
Proof.
  intros Hne; destruct pc as [| op pc]; [congruence |]; cbn [GetOp2 length].
  destruct (op <=? OP_PUSHDATA4); [| cbn; lia].
  destruct (GetOp2_size op pc) as [[ok n] pc'] eqn:E.
  apply GetOp2_size_shrinks in E.
  repeat case_goal; cbn; rewrite ?length_drop; lia.
Qed.

Lemma GetOp2_ret_nonempty pc : go_ret (GetOp2 pc) = true -> pc <> [].
Proof. now destruct pc. Qed.

Lemma GetOp2_size_bytes opcode pc ok n pc' :
  bytes pc -> GetOp2_size opcode pc = (ok, n, pc') -> bytes pc'.
Proof.
  unfold GetOp2_size; intros Hb H; repeat case_hyp H; simplify_eq; auto using Forall_drop.
Qed.

Lemma GetOp2_bytes pc :
  bytes pc ->
  bytes (go_pc (GetOp2 pc)) /\ bytes (go_vch (GetOp2 pc)) /\ is_byte (go_opcode (GetOp2 pc)).
Proof.
  intros Hb; destruct pc as [| op pc]; [repeat split; auto; cbn; lia |]; inv Hb; cbn [GetOp2].
  destruct (op <=? OP_PUSHDATA4); [| repeat split; auto; apply H1].
  destruct (GetOp2_size op pc) as [[ok n] pc'] eqn:E.
  apply GetOp2_size_bytes in E; [| assumption].
  repeat case_goal; cbn [go_pc go_vch go_opcode]; repeat split; auto using Forall_take, Forall_drop.
  all: cbn; try apply H1; lia.
Qed.

(** Only push opcodes carry data, and they are the opcodes up to OP_PUSHDATA4. *)
Lemma GetOp2_data pc :
  OP_PUSHDATA4 < go_opcode (GetOp2 pc) -> go_vch (GetOp2 pc) = [].
Proof.
  destruct pc as [| op pc]; [reflexivity |]; cbn [GetOp2].
  destruct (Z.leb_spec op OP_PUSHDATA4); [| reflexivity].
  repeat case_goal; cbn [go_opcode go_vch]; intros; auto; lia.
Qed.

(** [parses s ops]: the script [s] consists exactly of the instructions [ops],
    each an opcode with its pushed data. *)
Inductive parses : list Z -> list (Z * list Z) -> Prop :=
| parses_nil : parses [] []
| parses_cons pc op data pc' ops :
    GetOp2 pc = {| go_ret := true; go_pc := pc'; go_opcode := op; go_vch := data |} ->
    parses pc' ops -> parses pc ((op, data) :: ops).

Lemma parses_nil_inv ops : parses [] ops -> ops = [].
Proof. intros H; inversion H; [reflexivity | discriminate]. Qed.

Lemma parses_inj s ops1 ops2 : parses s ops1 -> parses s ops2 -> ops1 = ops2.
Proof.
  intros H; revert ops2; induction H as [| pc op d pc' ops E H IH]; intros ops2 H2.
  - symmetry; now apply parses_nil_inv.
  - inversion H2 as [| pc1 op1 d1 pc1' ops1 E1 H1]; subst; [discriminate |].
    rewrite E in E1; injection E1 as -> -> ->; f_equal; auto.
Qed.

(** An instruction without operand parses as itself. *)
Lemma parses_op op s ops :
  OP_PUSHDATA4 < op -> parses s ops -> parses (op :: s) ((op, []) :: ops).
Proof.
  intros Hop H; econstructor; [| eassumption]; cbn [GetOp2].
  now rewrite (proj2 (Z.leb_gt _ _) Hop).
Qed.

(** The opcode with which a vector of [n] bytes is pushed. *)
Definition push_op (n : Z) : Z :=
  if n <? OP_PUSHDATA1 then n
  else if n <=? 0xff then OP_PUSHDATA1
  else if n <=? 0xffff then OP_PUSHDATA2
  else OP_PUSHDATA4.

Lemma push_vch_prefix s b : push_vch s b = s ++ push_vch [] b.
Proof. unfold push_vch; repeat case_goal; now rewrite <- ?app_assoc. Qed.

(** Reading back a data push yields the data and the rest. *)
Lemma GetOp2_push_vch b rest :
  zlen (b ++ rest) < 2 ^ 32 ->
  GetOp2 (push_vch [] b ++ rest) =
    {| go_ret := true; go_pc := rest; go_opcode := push_op (zlen b); go_vch := b |}.
Proof.
  intros Hl; autorewrite with lists in Hl.
  pose proof (zlen_nonneg b); pose proof (zlen_nonneg rest).
  assert (Hread : forall op nSize, op <= OP_PUSHDATA4 -> nSize = zlen b ->
    forall pc0, GetOp2_size op pc0 = (true, nSize, b ++ rest) ->
    GetOp2 (op :: pc0) =
      {| go_ret := true; go_pc := rest; go_opcode := op; go_vch := b |}).
  { intros op nSize Hop -> pc0 Hs; cbn [GetOp2].
    rewrite (proj2 (Z.leb_le _ _) Hop), Hs.
    rewrite uwrap_small by (autorewrite with lists; lia); autorewrite with lists.
    rewrite (proj2 (Z.ltb_ge _ 0)), (proj2 (Z.ltb_ge _ (zlen b))) by lia; cbn [orb].
    unfold zlen; rewrite Nat2Z.id, take_app_length, drop_app_length; reflexivity. }
  unfold push_vch, push_op.
  destruct (Z.ltb_spec (zlen b) OP_PUSHDATA1) as [H1 | H1];
    [| destruct (Z.leb_spec (zlen b) 0xff) as [H2 | H2];
       [| destruct (Z.leb_spec (zlen b) 0xffff) as [H3 | H3]]];
    rewrite <- !app_assoc; cbn [app].
  - rewrite uwrap_small by (cbn in *; lia).
    apply (Hread _ (zlen b)); [cbn in *; lia | reflexivity |].
    unfold GetOp2_size; now rewrite (proj2 (Z.ltb_lt _ _) H1).
  - apply (Hread _ (zlen b)); [cbn; lia | reflexivity |].
    rewrite uwrap_small by (cbn in *; lia); unfold GetOp2_size; cbn [opcode_value].
    rewrite zlen_cons, (proj2 (Z.ltb_ge _ 1)) by (autorewrite with lists; lia).
    reflexivity.
  - apply (Hread _ (u16 (zlen b))); [cbn; lia | now apply uwrap_small; lia |].
    unfold GetOp2_size; cbn [opcode_value].
    rewrite (proj2 (Z.ltb_ge _ 2)).
    + rewrite ReadLE16_Write; reflexivity.
    + rewrite zlen_app; unfold zlen at 1; cbn [length WriteLE16 le_bytes].
      autorewrite with lists; lia.
  - apply (Hread _ (u32 (zlen b))); [cbn; lia | now apply uwrap_small; lia |].
    unfold GetOp2_size; cbn [opcode_value].
    rewrite (proj2 (Z.ltb_ge _ 4)).
    + rewrite ReadLE32_Write; reflexivity.
    + rewrite zlen_app; unfold zlen at 1; cbn [length WriteLE32 le_bytes].
      autorewrite with lists; lia.
Qed.

Lemma parses_push b s ops :
  zlen (b ++ s) < 2 ^ 32 -> parses s ops ->
  parses (push_vch [] b ++ s) ((push_op (zlen b), b) :: ops).
Proof. intros; econstructor; [now apply GetOp2_push_vch | assumption]. Qed.

Lemma fold_push_vch ds s : fold_left push_vch ds s = s ++ fold_left push_vch ds [].
Proof.
  revert s; induction ds as [| d ds IH]; intros s; cbn [fold_left].
  - now rewrite app_nil_r.
  - rewrite IH, (IH (push_vch [] d)), push_vch_prefix, <- app_assoc; reflexivity.
Qed.

(** ** Loops against the grammar *)

Lemma IsPushOnly_loop_iff fuel pc :
  (length pc <= fuel)%nat ->
  IsPushOnly_loop fuel pc = true <->
  exists ops, parses pc ops /\ Forall (fun o => o.1 <= OP_16) ops.
Proof.
  revert pc; induction fuel as [| fuel IH]; intros [| x pc0] Hf; cbn [IsPushOnly_loop].
  1, 3: split; [intros _; exists []; repeat constructor | reflexivity].
  - cbn in Hf; lia.
  - set (pc := x :: pc0) in *.
    pose proof (GetOp2_progress pc ltac:(discriminate)) as Hp.
    destruct (GetOp2 pc) as [ret pc' op data] eqn:E; cbn [go_ret go_pc go_opcode] in *.
    destruct ret; cbn [negb].
    + destruct (Z.ltb_spec OP_16 op) as [Ho | Ho].
      * split; [discriminate |]; intros (ops & Hops & Hall).
        inversion Hops; subst; rewrite E in *; simplify_eq; inv Hall; cbn in *; lia.
      * rewrite IH by lia; split; intros (ops & Hops & Hall).
        -- exists ((op, data) :: ops); split; [eapply parses_cons; eassumption | now constructor].
        -- inversion Hops; subst; rewrite E in *; simplify_eq; inv Hall; eauto.
    + split; [discriminate |]; intros (ops & Hops & Hall).
      inversion Hops; subst; rewrite E in *; simplify_eq.
Qed.

Lemma last_push_loop_iff fuel pc data0 d :
  (length pc <= fuel)%nat ->
  last_push_loop fuel pc data0 = Some d <->
  exists ops, parses pc ops /\ Forall (fun o => o.1 <= OP_16) ops /\
    d = List.last (map snd ops) data0.
Proof.
  revert pc data0; induction fuel as [| fuel IH]; intros [| x pc0] data0 Hf; cbn [last_push_loop].
  1, 3: split; [intros [= ->]; exists []; repeat constructor |
                intros (ops & Hops & _ & ->); now rewrite (parses_nil_inv ops Hops)].
  - cbn in Hf; lia.
  - set (pc := x :: pc0) in *.
    pose proof (GetOp2_progress pc ltac:(discriminate)) as Hp.
    destruct (GetOp2 pc) as [ret pc' op data] eqn:E; cbn [go_ret go_pc go_opcode go_vch] in *.
    destruct ret; cbn [negb].
    + destruct (Z.ltb_spec OP_16 op) as [Ho | Ho].
      * split; [discriminate |]; intros (ops & Hops & Hall & _).
        inversion Hops; subst; rewrite E in *; simplify_eq; inv Hall; cbn in *; lia.
      * assert (Hlast : forall l : list (Z * list Z),
          List.last (map snd ((op, data) :: l)) data0 = List.last (map snd l) data).
        { intros l; induction l as [| a [| b l] IHl] using rev_ind; auto.
          rewrite app_comm_cons, !map_app; cbn [map snd]; now rewrite !last_app_one. }
        rewrite IH by lia; split; intros (ops & Hops & Hall & ->).
        -- exists ((op, data) :: ops); rewrite Hlast.
           repeat split; [eapply parses_cons; eassumption | now constructor].
        -- inversion Hops; subst; rewrite E in *; simplify_eq; inv Hall; eauto.
    + split; [discriminate |]; intros (ops & Hops & Hall & _).
      inversion Hops; subst; rewrite E in *; simplify_eq.
Qed.

Lemma sigop_step_bound (fAcc : bool) lastop opcode n k :
  0 <= k -> 0 <= n <= 20 * k -> k < 2 ^ 27 ->
  let n' (acc : bool) :=
    if (opcode =? OP_CHECKSIG) || (opcode =? OP_CHECKSIGVERIFY) then u32 (n + 1)
    else if (opcode =? OP_CHECKMULTISIG) || (opcode =? OP_CHECKMULTISIGVERIFY) then
      if acc && (OP_1 <=? lastop) && (lastop <=? OP_16)
      then u32 (n + (lastop - (OP_1 - 1))) else u32 (n + 20)
    else n in
  n <= n' fAcc <= n + 20.
Proof.
  intros Hk Hn Hk2 n'; subst n'; cbv beta.
  destruct (_ || _); [rewrite uwrap_small; lia |].
  destruct (_ || _); [| lia].
  destruct (fAcc && _ && _) eqn:E; rewrite uwrap_small; try lia.
  all: apply andb_prop in E as [E1 E2]; apply andb_prop in E1 as [_ E1].
  all: apply Z.leb_le in E1, E2; cbn in *; lia.
Qed.

(** The running counts of the accurate and of the legacy scan, compared. *)
Lemma GetSigOpCount_loop_bound fuel pc lastop n1 n2 k :
  (length pc <= fuel)%nat -> 0 <= k -> 0 <= n1 <= n2 -> n2 <= 20 * k ->
  k + zlen pc < 2 ^ 27 ->
  0 <= GetSigOpCount_loop fuel true pc lastop n1 <= GetSigOpCount_loop fuel false pc lastop n2 /\
  GetSigOpCount_loop fuel false pc lastop n2 <= 20 * (k + zlen pc).
Proof.
  revert pc lastop n1 n2 k; induction fuel as [| fuel IH];
    intros [| x pc0] lastop n1 n2 k Hf Hk Hn Hn2 Hb; cbn [GetSigOpCount_loop].
  1, 3: change (zlen (@nil Z)) with 0 in *; lia.
  - cbn in Hf; lia.
  - set (pc := x :: pc0) in *.
    pose proof (GetOp2_progress pc ltac:(discriminate)) as Hp.
    destruct (go_ret (GetOp2 pc)); [| pose proof (zlen_nonneg pc); lia].
    set (op := go_opcode (GetOp2 pc)); set (pc' := go_pc (GetOp2 pc)) in *.
    assert (Hk' : k + 1 + zlen pc' <= k + zlen pc) by (unfold zlen; lia).
    pose proof (zlen_nonneg pc').
    cbv zeta.
    pose proof (sigop_step_bound true lastop op n1 k ltac:(lia) ltac:(lia) ltac:(lia)) as S1.
    pose proof (sigop_step_bound false lastop op n2 k ltac:(lia) ltac:(lia) ltac:(lia)) as S2.
    cbv zeta beta in S1, S2.
    match goal with |- context [GetSigOpCount_loop fuel true pc' op ?a] => set (a1 := a) in * end.
    match goal with |- context [GetSigOpCount_loop fuel false pc' op ?a] => set (a2 := a) in * end.
    assert (Ha : a1 <= a2).
    { unfold a1, a2 in *; destruct (_ || _); [rewrite !uwrap_small; lia |].
      destruct (_ || _); [| lia]; cbn [andb] in *.
      rewrite (uwrap_small 32 (n2 + 20)) in * by lia; lia. }
    destruct (IH pc' op a1 a2 (k + 1)) as [IH1 IH2]; lia.
Qed.

(** ** Output templates *)

Lemma IsPayToScriptHash_iff s :
  IsPayToScriptHash s = true <->
  exists h, length h = 20%nat /\ s = [OP_HASH160 : Z; 20] ++ h ++ [OP_EQUAL : Z].
Proof.
  unfold IsPayToScriptHash; split.
  - rewrite !andb_true_iff, !Z.eqb_eq; intros [[[Hl H0] H1] H22].
    exists (take 20 (drop 2 s)); unfold zlen in Hl.
    split; [rewrite length_take, length_drop; lia |].
    do 23 (destruct s as [| ? s]; [cbn in Hl; lia |]).
    destruct s; [| cbn in Hl; lia].
    vm_compute in H0, H1, H22; subst; reflexivity.
  - intros (h & Hh & ->).
    do 20 (destruct h as [| ? h]; [discriminate |]).
    destruct h; [reflexivity | discriminate].
Qed.

Lemma IsPayToPublicKeyHash_iff s :
  IsPayToPublicKeyHash s = true <->
  exists h, length h = 20%nat /\
    s = [OP_DUP : Z; OP_HASH160 : Z; 20] ++ h ++ [OP_EQUALVERIFY : Z; OP_CHECKSIG : Z].
Proof.
  unfold IsPayToPublicKeyHash; split.
  - rewrite !andb_true_iff, !Z.eqb_eq; intros [[[[[Hl H0] H1] H2] H23] H24].
    exists (take 20 (drop 3 s)); unfold zlen in Hl.
    split; [rewrite length_take, length_drop; lia |].
    do 25 (destruct s as [| ? s]; [cbn in Hl; lia |]).
    destruct s; [| cbn in Hl; lia].
    vm_compute in H0, H1, H2, H23, H24; subst; reflexivity.
  - intros (h & Hh & ->).
    do 20 (destruct h as [| ? h]; [discriminate |]).
    destruct h; [reflexivity | discriminate].
Qed.

(** The instructions of the two templates. *)
Lemma parses_p2sh h :
  length h = 20%nat ->
  parses ([OP_HASH160 : Z; 20] ++ h ++ [OP_EQUAL : Z])
    [(OP_HASH160 : Z, []); (20, h); (OP_EQUAL : Z, [])].
Proof.
  intros Hh; apply parses_op; [cbn; lia |].
  do 20 (destruct h as [| ? h]; [discriminate |]); destruct h; [| discriminate].
  eapply parses_cons; [reflexivity |].
  apply parses_op; [cbn; lia | constructor].
Qed.

Lemma parses_p2pkh h :
  length h = 20%nat ->
  parses ([OP_DUP : Z; OP_HASH160 : Z; 20] ++ h ++ [OP_EQUALVERIFY : Z; OP_CHECKSIG : Z])
    [(OP_DUP : Z, []); (OP_HASH160 : Z, []); (20, h); (OP_EQUALVERIFY : Z, []);
     (OP_CHECKSIG : Z, [])].
Proof.
  intros Hh; do 2 (apply parses_op; [cbn; lia |]).
  do 20 (destruct h as [| ? h]; [discriminate |]); destruct h; [| discriminate].
  eapply parses_cons; [reflexivity |].
  do 2 (apply parses_op; [cbn; lia |]); constructor.
Qed.

(** ** Properties *)

(** A script built from a list of data vectors with [operator<<] reads back
    as exactly those pushes, each with the shortest push opcode for its size,
    as long as the whole script is smaller than the 32-bit size field. *)
Theorem push_parse_roundtrip (ds : list (list Z)) :
  zlen (fold_left push_vch ds []) < 2 ^ 32 ->
  parses (fold_left push_vch ds []) (map (fun d => (push_op (zlen d), d)) ds).
Proof.
  induction ds as [| d ds IH]; cbn [fold_left map]; [constructor |].
  rewrite fold_push_vch; intros Hl.
  assert (Hd : zlen (d ++ fold_left push_vch ds []) < 2 ^ 32).
  { eapply Z.le_lt_trans; [| exact Hl]; unfold push_vch at 2.
    repeat case_goal; autorewrite with lists.
    all: pose proof (zlen_nonneg (WriteLE16 (zlen d)));
      pose proof (zlen_nonneg (WriteLE32 (zlen d))); lia. }
  apply parses_push; [assumption |]; apply IH.
  autorewrite with lists in Hd; pose proof (zlen_nonneg d); lia.
Qed.

Lemma push_parse_roundtrip_witness :
  parses (fold_left push_vch [[1; 2; 3]; repeat 7 300] [])
    [(3, [1; 2; 3]); (OP_PUSHDATA2 : Z, repeat 7 300)].
Proof.
  apply (push_parse_roundtrip [[1; 2; 3]; repeat 7 300]); vm_compute; reflexivity.
Defined.

(** [IsPushOnly] holds exactly for the scripts that parse completely into
    instructions whose opcodes are at most OP_16. *)
Theorem IsPushOnly_spec (s : list Z) :
  IsPushOnly s = true <->
  exists ops, parses s ops /\ Forall (fun o => o.1 <= OP_16) ops.
Proof. apply IsPushOnly_loop_iff; lia. Qed.

(** The accurate signature-operation count of a script of less than 2^27
    bytes never exceeds the legacy count, which is at most twenty per byte; in
    particular neither 32-bit counter overflows. *)
Theorem GetSigOpCount_bounds (s : list Z) :
  zlen s < 2 ^ 27 ->
  0 <= GetSigOpCount s true <= GetSigOpCount s false /\
  GetSigOpCount s false <= 20 * zlen s.
Proof.
  intros Hl; unfold GetSigOpCount.
  replace (20 * zlen s) with (20 * (0 + zlen s)) by lia.
  apply GetSigOpCount_loop_bound; lia.
Qed.

Lemma GetSigOpCount_bounds_witness :
  0 <= GetSigOpCount [0x52; 0x53; 0xae] true <= GetSigOpCount [0x52; 0x53; 0xae] false /\
  GetSigOpCount [0x52; 0x53; 0xae] false <= 20 * 3.
Proof. apply (GetSigOpCount_bounds [0x52; 0x53; 0xae]); vm_compute; reflexivity. Defined.

(** The count of a P2SH input is the accurate count of its redeem script:
    when the input consists of pushes only, the redeem script is the data of
    the last one (empty for an empty input); any other input counts zero. *)
Theorem GetSigOpCount_p2sh (script scriptSig : list Z) :
  IsPayToScriptHash script = true ->
  (forall ops, parses scriptSig ops -> Forall (fun o => o.1 <= OP_16) ops ->
     GetSigOpCount_sig script scriptSig = GetSigOpCount (List.last (map snd ops) []) true) /\
  (IsPushOnly scriptSig = false -> GetSigOpCount_sig script scriptSig = 0).
Proof.
  intros Hp; unfold GetSigOpCount_sig; rewrite Hp; cbn [negb].
  pose proof (fun d => last_push_loop_iff (length scriptSig) scriptSig [] d (le_n _)) as Hlp.
  split.
  - intros ops Hops Hall; now rewrite (proj2 (Hlp _)) by eauto.
  - intros Hno; destruct (last_push_loop _ _ _) as [d |] eqn:E; [| reflexivity].
    destruct (proj1 (Hlp d) eq_refl) as (ops & Hops & Hall & _).
    unfold IsPushOnly in Hno.
    assert (IsPushOnly_loop (length scriptSig) scriptSig = true)
      by (apply IsPushOnly_loop_iff; eauto).
    congruence.
Qed.

Lemma GetSigOpCount_p2sh_witness :
  IsPayToScriptHash ([0xa9; 20] ++ repeat 5 20 ++ [0x87]) = true /\
  GetSigOpCount_sig ([0xa9; 20] ++ repeat 5 20 ++ [0x87]) [0x61] = 0.
Proof.
  split; [reflexivity |].
  apply (GetSigOpCount_p2sh ([0xa9; 20] ++ repeat 5 20 ++ [0x87]) [0x61]); reflexivity.
Defined.

(** [IsCheckLockTimeVerify] indexes the script behind the first push without
    a bound: on scripts of at least seven bytes the read stays inside, but the
    one-byte script OP_0 makes it read past the end, and so does [IsCoinImport]
    on an empty OP_PUSHDATA1. *)
Theorem cltv_index_bounds :
  (forall s, 7 <= zlen s -> exists r, IsCheckLockTimeVerify (E := unit) s = Ok r) /\
  IsCheckLockTimeVerify (E := unit) [OP_0 : Z] = Exn oob_read /\
  IsCoinImport [OP_PUSHDATA1 : Z; 0] = Exn oob_read.
Proof.
  split; [| split; reflexivity].
  intros s Hl; unfold IsCheckLockTimeVerify, index_; unfold zlen in *.
  destruct (_ && _) eqn:E; [| eauto].
  apply andb_prop in E as [_ E]; apply Z.ltb_lt in E.
  destruct (lookup_lt_is_Some_2 s (Z.to_nat (Z.of_nat (length (go_vch (GetOp2 s))) + 1))) as [b ->];
    [lia |]; cbn [mbind res_bind].
  destruct (_ =? _); eauto.
Qed.
