(* ===== verification/Interpreter.v ===== *)
(** * The script interpreter

    script/interpreter.cpp: signature and public-key encodings, the stack
    machine [EvalScript] and the verification entry point [VerifyScript], with
    the error codes of script/script_error.h.

    A [vector<valtype>] used as a stack is a list whose head is [back()], so
    [stacktop(-i)] is the element at index [i - 1].  Each [case] of the
    interpreter's switch is one definition; [eval_switch] is the switch,
    [eval_step] the body of the [while] loop, [EvalScript] the whole function
    with its [catch (...)].  The signature checker is the class
    [BaseSignatureChecker], the hash functions come from Hashing, and
    [CPubKey::CheckLowS] (secp256k1) is a parameter. *)
From stdpp Require Import strings.
From S2P Require Import Prelude ScriptNum Hashing Script.

(** ** Error codes *)

Inductive ScriptError :=
| SCRIPT_ERR_OK
| SCRIPT_ERR_UNKNOWN_ERROR
| SCRIPT_ERR_EVAL_FALSE
| SCRIPT_ERR_OP_RETURN
| SCRIPT_ERR_SCRIPT_SIZE
| SCRIPT_ERR_PUSH_SIZE
| SCRIPT_ERR_OP_COUNT
| SCRIPT_ERR_STACK_SIZE
| SCRIPT_ERR_SIG_COUNT
| SCRIPT_ERR_PUBKEY_COUNT
| SCRIPT_ERR_VERIFY
| SCRIPT_ERR_EQUALVERIFY
| SCRIPT_ERR_CHECKMULTISIGVERIFY
| SCRIPT_ERR_CHECKSIGVERIFY
| SCRIPT_ERR_NUMEQUALVERIFY
| SCRIPT_ERR_BAD_OPCODE
| SCRIPT_ERR_DISABLED_OPCODE
| SCRIPT_ERR_INVALID_STACK_OPERATION
| SCRIPT_ERR_INVALID_ALTSTACK_OPERATION
| SCRIPT_ERR_UNBALANCED_CONDITIONAL
| SCRIPT_ERR_NEGATIVE_LOCKTIME
| SCRIPT_ERR_UNSATISFIED_LOCKTIME
| SCRIPT_ERR_SIG_HASHTYPE
| SCRIPT_ERR_SIG_DER
| SCRIPT_ERR_MINIMALDATA
| SCRIPT_ERR_SIG_PUSHONLY
| SCRIPT_ERR_SIG_HIGH_S
| SCRIPT_ERR_SIG_NULLDUMMY
| SCRIPT_ERR_PUBKEYTYPE
| SCRIPT_ERR_CLEANSTACK
| SCRIPT_ERR_DISCOURAGE_UPGRADABLE_NOPS
| SCRIPT_ERR_ERROR_COUNT
| SCRIPT_ERR_CRYPTOCONDITION_VERIFY
| SCRIPT_ERR_CRYPTOCONDITION_INVALID_FULFILLMENT.

#[global] Instance ScriptError_eq_dec : EqDecision ScriptError.
Proof. solve_decision. Defined.

Definition ScriptErrorString (serror : ScriptError) : string :=
  match serror with
  | SCRIPT_ERR_OK =>
      "No error"
  | SCRIPT_ERR_EVAL_FALSE =>
      "Script evaluated without error but finished with a false/empty top stack element"
  | SCRIPT_ERR_VERIFY =>
      "Script failed an OP_VERIFY operation"
  | SCRIPT_ERR_EQUALVERIFY =>
      "Script failed an OP_EQUALVERIFY operation"
  | SCRIPT_ERR_CHECKMULTISIGVERIFY =>
      "Script failed an OP_CHECKMULTISIGVERIFY operation"
  | SCRIPT_ERR_CHECKSIGVERIFY =>
      "Script failed an OP_CHECKSIGVERIFY operation"
  | SCRIPT_ERR_NUMEQUALVERIFY =>
      "Script failed an OP_NUMEQUALVERIFY operation"
  | SCRIPT_ERR_SCRIPT_SIZE =>
      "Script is too big"
  | SCRIPT_ERR_PUSH_SIZE =>
      "Push value size limit exceeded"
  | SCRIPT_ERR_OP_COUNT =>
      "Operation limit exceeded"
  | SCRIPT_ERR_STACK_SIZE =>
      "Stack size limit exceeded"
  | SCRIPT_ERR_SIG_COUNT =>
      "Signature count negative or greater than pubkey count"
  | SCRIPT_ERR_PUBKEY_COUNT =>
      "Pubkey count negative or limit exceeded"
  | SCRIPT_ERR_BAD_OPCODE =>
      "Opcode missing or not understood"
  | SCRIPT_ERR_DISABLED_OPCODE =>
      "Attempted to use a disabled opcode"
  | SCRIPT_ERR_INVALID_STACK_OPERATION =>
      "Operation not valid with the current stack size"
  | SCRIPT_ERR_INVALID_ALTSTACK_OPERATION =>
      "Operation not valid with the current altstack size"
  | SCRIPT_ERR_OP_RETURN =>
      "OP_RETURN was encountered"
  | SCRIPT_ERR_UNBALANCED_CONDITIONAL =>
      "Invalid OP_IF construction"
  | SCRIPT_ERR_NEGATIVE_LOCKTIME =>
      "Negative locktime"
  | SCRIPT_ERR_UNSATISFIED_LOCKTIME =>
      "Locktime requirement not satisfied"
  | SCRIPT_ERR_SIG_HASHTYPE =>
      "Signature hash type missing or not understood"
  | SCRIPT_ERR_SIG_DER =>
      "Non-canonical DER signature"
  | SCRIPT_ERR_MINIMALDATA =>
      "Data push larger than necessary"
  | SCRIPT_ERR_SIG_PUSHONLY =>
      "Only non-push operators allowed in signatures"
  | SCRIPT_ERR_SIG_HIGH_S =>
      "Non-canonical signature: S value is unnecessarily high"
  | SCRIPT_ERR_SIG_NULLDUMMY =>
      "Dummy CHECKMULTISIG argument must be zero"
  | SCRIPT_ERR_DISCOURAGE_UPGRADABLE_NOPS =>
      "NOPx reserved for soft-fork upgrades"
  | SCRIPT_ERR_PUBKEYTYPE =>
      "Public key is neither compressed or uncompressed"
  | SCRIPT_ERR_CRYPTOCONDITION_INVALID_FULFILLMENT =>
      "Crypto-Condition payload is invalid"
  | SCRIPT_ERR_UNKNOWN_ERROR | SCRIPT_ERR_ERROR_COUNT => "unknown error"
  | _ => "unknown error"
  end%string.

(** ** Flags *)

Definition SIGHASH_ALL : Z := 1.
Definition SIGHASH_NONE : Z := 2.
Definition SIGHASH_SINGLE : Z := 3.
Definition SIGHASH_ANYONECANPAY : Z := 0x80.

Definition SCRIPT_VERIFY_NONE : Z := 0.
Definition SCRIPT_VERIFY_P2SH : Z := 2 ^ 0.
Definition SCRIPT_VERIFY_STRICTENC : Z := 2 ^ 1.
Definition SCRIPT_VERIFY_LOW_S : Z := 2 ^ 3.
Definition SCRIPT_VERIFY_NULLDUMMY : Z := 2 ^ 4.
Definition SCRIPT_VERIFY_SIGPUSHONLY : Z := 2 ^ 5.
Definition SCRIPT_VERIFY_MINIMALDATA : Z := 2 ^ 6.
Definition SCRIPT_VERIFY_DISCOURAGE_UPGRADABLE_NOPS : Z := 2 ^ 7.
Definition SCRIPT_VERIFY_CLEANSTACK : Z := 2 ^ 8.
Definition SCRIPT_VERIFY_CHECKLOCKTIMEVERIFY : Z := 2 ^ 9.

(** [(flags & f) != 0]. *)
Definition has_flag (flags f : Z) : bool := negb (Z.land flags f =? 0).

Abbreviation valtype := (list Z).
Abbreviation stackM := (res ScriptError (list valtype)).

(** ** Values and encodings *)

Fixpoint CastToBool (vch : valtype) : bool :=
  match vch with
  | [] => false
  | b :: rest =>
      if negb (b =? 0) then
        negb (match rest with [] => b =? 0x80 | _ => false end)
      else CastToBool rest
  end.

Definition IsCompressedOrUncompressedPubKey (vchPubKey : valtype) : bool :=
  if zlen vchPubKey <? 33 then false
  else if at_ vchPubKey 0 =? 0x04 then zlen vchPubKey =? 65
  else if (at_ vchPubKey 0 =? 0x02) || (at_ vchPubKey 0 =? 0x03) then zlen vchPubKey =? 33
  else false.

Definition IsValidSignatureEncoding (sig : valtype) : bool :=
  if zlen sig <? 9 then false
  else if 73 <? zlen sig then false
  else if negb (at_ sig 0 =? 0x30) then false
  else if negb (at_ sig 1 =? zlen sig - 3) then false
  else
    let lenR := at_ sig 3 in
    if zlen sig <=? 5 + lenR then false
    else
      let lenS := at_ sig (5 + lenR) in
      if negb (lenR + lenS + 7 =? zlen sig) then false
      else if negb (at_ sig 2 =? 0x02) then false
      else if lenR =? 0 then false
      else if negb (Z.land (at_ sig 4) 0x80 =? 0) then false
      else if (1 <? lenR) && (at_ sig 4 =? 0x00) && (Z.land (at_ sig 5) 0x80 =? 0) then false
      else if negb (at_ sig (lenR + 4) =? 0x02) then false
      else if lenS =? 0 then false
      else if negb (Z.land (at_ sig (lenR + 6)) 0x80 =? 0) then false
      else if (1 <? lenS) && (at_ sig (lenR + 6) =? 0x00)
              && (Z.land (at_ sig (lenR + 7)) 0x80 =? 0) then false
      else true.

Definition IsDefinedHashtypeSignature (vchSig : valtype) : bool :=
  if zlen vchSig =? 0 then false
  else
    let nHashType := Z.ldiff (at_ vchSig (zlen vchSig - 1)) SIGHASH_ANYONECANPAY in
    negb ((nHashType <? SIGHASH_ALL) || (SIGHASH_SINGLE <? nHashType)).

Definition CheckMinimalPush (data : valtype) (opcode : Z) : bool :=
  if zlen data =? 0 then opcode =? OP_0
  else if (zlen data =? 1) && (1 <=? at_ data 0) && (at_ data 0 <=? 16) then
    opcode =? OP_1 + (at_ data 0 - 1)
  else if (zlen data =? 1) && (at_ data 0 =? 0x81) then opcode =? OP_1NEGATE
  else if zlen data <=? 75 then opcode =? zlen data
  else if zlen data <=? 255 then opcode =? OP_PUSHDATA1
  else if zlen data <=? 65535 then opcode =? OP_PUSHDATA2
  else true.

(** [CPubKey::CheckLowS], provided by secp256k1. *)
Class LowS := CheckLowS : valtype -> bool.

Section Encodings.
Context `{LowS}.

(** The checks return a boolean and write [*serror]; [serror] is its value
    before the call. *)
Definition IsLowDERSignature (vchSig : valtype) (serror : ScriptError) : bool * ScriptError :=
  if negb (IsValidSignatureEncoding vchSig) then (false, SCRIPT_ERR_SIG_DER)
  else (CheckLowS (take (length vchSig - 1) vchSig), serror).

Definition CheckSignatureEncoding (vchSig : valtype) (flags : Z) (serror : ScriptError)
    : bool * ScriptError :=
  if zlen vchSig =? 0 then (true, serror)
  else if negb (IsValidSignatureEncoding vchSig) then (false, SCRIPT_ERR_SIG_DER)
  else
    let '(lowS, serror) :=
      if has_flag flags SCRIPT_VERIFY_LOW_S then IsLowDERSignature vchSig serror
      else (true, serror) in
    if negb lowS then (false, serror)
    else if has_flag flags SCRIPT_VERIFY_STRICTENC
            && negb (IsDefinedHashtypeSignature vchSig)
    then (false, SCRIPT_ERR_SIG_HASHTYPE)
    else (true, serror).

Definition CheckPubKeyEncoding (vchPubKey : valtype) (flags : Z) (serror : ScriptError)
    : bool * ScriptError :=
  if has_flag flags SCRIPT_VERIFY_STRICTENC
     && negb (IsCompressedOrUncompressedPubKey vchPubKey)
  then (false, SCRIPT_ERR_PUBKEYTYPE)
  else (true, serror).
End Encodings.

(** ** The signature checker *)

(** [class BaseSignatureChecker]: what the interpreter asks of the transaction
    being verified. *)
Class BaseSignatureChecker := {
  CheckSig : forall (scriptSig vchPubKey scriptCode : valtype) (consensusBranchId : Z), bool;
  CheckLockTime : forall (nLockTime : Z), bool;
  CheckCryptoCondition :
    forall (condBin ffillBin scriptCode : valtype) (consensusBranchId : Z), Z;
}.

(** The base class's own methods all return false. *)
Definition BaseChecker : BaseSignatureChecker := {|
  CheckSig := fun _ _ _ _ => false;
  CheckLockTime := fun _ => false;
  CheckCryptoCondition := fun _ _ _ _ => 0;
|}.

(** [TransactionSignatureChecker::CheckLockTime], from the fields of the
    spending transaction it reads: [txTo->nLockTime] and the [nSequence] of the
    input [nIn]. *)
Definition TransactionCheckLockTime (tx_nLockTime vin_nSequence nLockTime : Z) : bool :=
  if negb (((tx_nLockTime <? LOCKTIME_THRESHOLD) && (nLockTime <? LOCKTIME_THRESHOLD))
           || ((LOCKTIME_THRESHOLD <=? tx_nLockTime) && (LOCKTIME_THRESHOLD <=? nLockTime)))
  then false
  else if tx_nLockTime <? nLockTime then false
  else if vin_nSequence =? UINT32_MAX then false
  else true.

(** ** Stack primitives *)

Definition vchFalse : valtype := [].
Definition vchTrue : valtype := [1].
Definition vch_of_bool (b : bool) : valtype := if b then vchTrue else vchFalse.

(** [stacktop(-i)]: [stack.at(stack.size() - i)]. *)
Definition stacktop {E} (stack : list valtype) (i : Z) : res E valtype :=
  if i <? 1 then Exn out_of_range
  else match stack !! Z.to_nat (i - 1) with
       | Some v => Ok v
       | None => Exn out_of_range
       end.

Definition popstack {E} (stack : list valtype) : res E (list valtype) :=
  match stack with
  | [] => Exn runtime_error
  | _ :: stack => Ok stack
  end.

(** [while (i-- > 1) popstack(stack)] pops [n = i - 1] elements. *)
Fixpoint popstack_n {E} (n : nat) (stack : list valtype) : res E (list valtype) :=
  match n with
  | O => Ok stack
  | S n => stack ← popstack stack; popstack_n n stack
  end.

(** [swap(stacktop(-i), stacktop(-j))]. *)
Definition swap_at {E} (stack : list valtype) (i j : Z) : res E (list valtype) :=
  x ← stacktop stack i;
  y ← stacktop stack j;
  Ok (<[Z.to_nat (j - 1) := x]> (<[Z.to_nat (i - 1) := y]> stack)).

(** [stack.erase(stack.end() - i, stack.end() - j)]. *)
Definition erase_range (stack : list valtype) (i j : Z) : list valtype :=
  take (Z.to_nat j) stack ++ drop (Z.to_nat i) stack.

(** [stack.insert(stack.end() - i, vch)]. *)
Definition insert_at (stack : list valtype) (i : Z) (vch : valtype) : list valtype :=
  take (Z.to_nat i) stack ++ vch :: drop (Z.to_nat i) stack.

(** The guard [if (stack.size() < n) return set_error(..)] of most cases. *)
Definition need (stack : list valtype) (n : Z) : res ScriptError unit :=
  if zlen stack <? n then Err SCRIPT_ERR_INVALID_STACK_OPERATION else Ok tt.

(** ** Stack operations of the switch *)

Definition case_TOALTSTACK (stack altstack : list valtype)
    : res ScriptError (list valtype * list valtype) :=
  _ ← need stack 1;
  v ← stacktop stack 1;
  stack ← popstack stack;
  Ok (stack, v :: altstack).

Definition case_FROMALTSTACK (stack altstack : list valtype)
    : res ScriptError (list valtype * list valtype) :=
  if zlen altstack <? 1 then Err SCRIPT_ERR_INVALID_ALTSTACK_OPERATION
  else
    v ← stacktop altstack 1;
    altstack ← popstack altstack;
    Ok (v :: stack, altstack).

Definition case_2DROP (stack : list valtype) : stackM :=
  _ ← need stack 2; stack ← popstack stack; popstack stack.

Definition case_2DUP (stack : list valtype) : stackM :=
  _ ← need stack 2;
  vch1 ← stacktop stack 2; vch2 ← stacktop stack 1;
  Ok (vch2 :: vch1 :: stack).

Definition case_3DUP (stack : list valtype) : stackM :=
  _ ← need stack 3;
  vch1 ← stacktop stack 3; vch2 ← stacktop stack 2; vch3 ← stacktop stack 1;
  Ok (vch3 :: vch2 :: vch1 :: stack).

Definition case_2OVER (stack : list valtype) : stackM :=
  _ ← need stack 4;
  vch1 ← stacktop stack 4; vch2 ← stacktop stack 3;
  Ok (vch2 :: vch1 :: stack).

Definition case_2ROT (stack : list valtype) : stackM :=
  _ ← need stack 6;
  vch1 ← stacktop stack 6; vch2 ← stacktop stack 5;
  Ok (vch2 :: vch1 :: erase_range stack 6 4).

Definition case_2SWAP (stack : list valtype) : stackM :=
  _ ← need stack 4;
  stack ← swap_at stack 4 2;
  swap_at stack 3 1.

Definition case_IFDUP (stack : list valtype) : stackM :=
  _ ← need stack 1;
  vch ← stacktop stack 1;
  Ok (if CastToBool vch then vch :: stack else stack).

Definition case_DEPTH (stack : list valtype) : stackM :=
  Ok (serialize (zlen stack) :: stack).

Definition case_DROP (stack : list valtype) : stackM :=
  _ ← need stack 1; popstack stack.

Definition case_DUP (stack : list valtype) : stackM :=
  _ ← need stack 1; vch ← stacktop stack 1; Ok (vch :: stack).

Definition case_NIP (stack : list valtype) : stackM :=
  _ ← need stack 2; Ok (erase_range stack 2 1).

Definition case_OVER (stack : list valtype) : stackM :=
  _ ← need stack 2; vch ← stacktop stack 2; Ok (vch :: stack).

Definition case_ROT (stack : list valtype) : stackM :=
  _ ← need stack 3;
  stack ← swap_at stack 3 2;
  swap_at stack 2 1.

Definition case_SWAP (stack : list valtype) : stackM :=
  _ ← need stack 2; swap_at stack 2 1.

Definition case_TUCK (stack : list valtype) : stackM :=
  _ ← need stack 2; vch ← stacktop stack 1; Ok (insert_at stack 2 vch).

Definition case_SIZE (stack : list valtype) : stackM :=
  _ ← need stack 1; vch ← stacktop stack 1; Ok (serialize (zlen vch) :: stack).

Definition case_VERIFY (stack : list valtype) : stackM :=
  _ ← need stack 1;
  vch ← stacktop stack 1;
  if CastToBool vch then popstack stack else Err SCRIPT_ERR_VERIFY.

(** [OP_EQUAL], and [OP_EQUALVERIFY] when [verify]. *)
Definition case_EQUAL (verify : bool) (stack : list valtype) : stackM :=
  _ ← need stack 2;
  vch1 ← stacktop stack 2; vch2 ← stacktop stack 1;
  let fEqual := bool_decide (vch1 = vch2) in
  stack ← popstack stack; stack ← popstack stack;
  let stack := vch_of_bool fEqual :: stack in
  if verify then if fEqual then popstack stack else Err SCRIPT_ERR_EQUALVERIFY
  else Ok stack.

(** ** Numeric operations *)

Definition bn_of_bool (b : bool) : Z := if b then 1 else 0.

(** The inner switch of the unary numeric opcodes. *)
Definition unary_op {E} (opcode bn : Z) : res E Z :=
  if opcode =? OP_1ADD then scriptnum_add_assign bn 1
  else if opcode =? OP_1SUB then scriptnum_sub_assign bn 1
  else if opcode =? OP_NEGATE then scriptnum_neg bn
  else if opcode =? OP_ABS then (if bn <? 0 then scriptnum_neg bn else Ok bn)
  else if opcode =? OP_NOT then Ok (bn_of_bool (bn =? 0))
  else if opcode =? OP_0NOTEQUAL then Ok (bn_of_bool (negb (bn =? 0)))
  else Exn assertion_failed.

(** The inner switch of the binary numeric opcodes. *)
Definition binary_op {E} (opcode bn1 bn2 : Z) : res E Z :=
  if opcode =? OP_ADD then Ok (scriptnum_add bn1 bn2)
  else if opcode =? OP_SUB then Ok (scriptnum_sub bn1 bn2)
  else if opcode =? OP_BOOLAND then Ok (bn_of_bool (negb (bn1 =? 0) && negb (bn2 =? 0)))
  else if opcode =? OP_BOOLOR then Ok (bn_of_bool (negb (bn1 =? 0) || negb (bn2 =? 0)))
  else if opcode =? OP_NUMEQUAL then Ok (bn_of_bool (bn1 =? bn2))
  else if opcode =? OP_NUMEQUALVERIFY then Ok (bn_of_bool (bn1 =? bn2))
  else if opcode =? OP_NUMNOTEQUAL then Ok (bn_of_bool (negb (bn1 =? bn2)))
  else if opcode =? OP_LESSTHAN then Ok (bn_of_bool (bn1 <? bn2))
  else if opcode =? OP_GREATERTHAN then Ok (bn_of_bool (bn2 <? bn1))
  else if opcode =? OP_LESSTHANOREQUAL then Ok (bn_of_bool (bn1 <=? bn2))
  else if opcode =? OP_GREATERTHANOREQUAL then Ok (bn_of_bool (bn2 <=? bn1))
  else if opcode =? OP_MIN then Ok (if bn1 <? bn2 then bn1 else bn2)
  else if opcode =? OP_MAX then Ok (if bn2 <? bn1 then bn1 else bn2)
  else Exn assertion_failed.

Section Numeric.
Context (fRequireMinimal : bool).

(** A numeric operand: [CScriptNum(vch, fRequireMinimal)]. *)
Definition operand {E} (vch : valtype) : res E Z :=
  CScriptNum_vch vch fRequireMinimal nDefaultMaxNumSize.

(** [OP_PICK], and [OP_ROLL] when [roll]. *)
Definition case_PICK (roll : bool) (stack : list valtype) : stackM :=
  _ ← need stack 2;
  vch ← stacktop stack 1;
  n ← operand vch;
  let n := getint n in
  stack ← popstack stack;
  if (n <? 0) || (i32 (zlen stack) <=? n) then Err SCRIPT_ERR_INVALID_STACK_OPERATION
  else
    vch ← stacktop stack (n + 1);
    Ok (vch :: if roll then erase_range stack (n + 1) n else stack).

Definition case_unary (opcode : Z) (stack : list valtype) : stackM :=
  _ ← need stack 1;
  vch ← stacktop stack 1;
  bn ← operand vch;
  bn ← unary_op opcode bn;
  stack ← popstack stack;
  Ok (serialize bn :: stack).

Definition case_binary (opcode : Z) (stack : list valtype) : stackM :=
  _ ← need stack 2;
  v1 ← stacktop stack 2; bn1 ← operand v1;
  v2 ← stacktop stack 1; bn2 ← operand v2;
  bn ← binary_op opcode bn1 bn2;
  stack ← popstack stack; stack ← popstack stack;
  let stack := serialize bn :: stack in
  if opcode =? OP_NUMEQUALVERIFY then
    top ← stacktop stack 1;
    if CastToBool top then popstack stack else Err SCRIPT_ERR_NUMEQUALVERIFY
  else Ok stack.

Definition case_WITHIN (stack : list valtype) : stackM :=
  _ ← need stack 3;
  v1 ← stacktop stack 3; bn1 ← operand v1;
  v2 ← stacktop stack 2; bn2 ← operand v2;
  v3 ← stacktop stack 1; bn3 ← operand v3;
  let fValue := (bn2 <=? bn1) && (bn1 <? bn3) in
  stack ← popstack_n 3 stack;
  Ok (vch_of_bool fValue :: stack).
End Numeric.

(** ** Hashes and signatures *)

Section Crypto.
Context `{HashFunctions} `{LowS} `{BaseSignatureChecker}.
Context (flags consensusBranchId : Z) (script : valtype).

Definition case_hash (opcode : Z) (stack : list valtype) : stackM :=
  _ ← need stack 1;
  vch ← stacktop stack 1;
  let vchHash :=
    if opcode =? OP_RIPEMD160 then ripemd160 vch
    else if opcode =? OP_SHA1 then sha1 vch
    else if opcode =? OP_SHA256 then sha256 vch
    else if opcode =? OP_HASH160 then CHash160 vch
    else CHash256 vch in
  stack ← popstack stack;
  Ok (vchHash :: stack).

(** [if (!CheckSignatureEncoding(..) || !CheckPubKeyEncoding(..)) return false]:
    [*serror] still holds the value written on entry of [EvalScript]. *)
Definition check_encodings (vchSig vchPubKey : valtype) : res ScriptError unit :=
  let '(ok, serror) := CheckSignatureEncoding vchSig flags SCRIPT_ERR_UNKNOWN_ERROR in
  if negb ok then Err serror
  else
    let '(ok, serror) := CheckPubKeyEncoding vchPubKey flags serror in
    if negb ok then Err serror else Ok tt.

(** [OP_CHECKSIG], and [OP_CHECKSIGVERIFY] when [verify]. *)
Definition case_CHECKSIG (verify : bool) (stack : list valtype) : stackM :=
  _ ← need stack 2;
  vchSig ← stacktop stack 2; vchPubKey ← stacktop stack 1;
  _ ← check_encodings vchSig vchPubKey;
  let fSuccess := CheckSig vchSig vchPubKey script consensusBranchId in
  stack ← popstack stack; stack ← popstack stack;
  let stack := vch_of_bool fSuccess :: stack in
  if verify then if fSuccess then popstack stack else Err SCRIPT_ERR_CHECKSIGVERIFY
  else Ok stack.

(** The signature loop of [OP_CHECKMULTISIG]; every iteration uses up a key, so
    [nKeysCount + 1] is enough fuel. *)
Fixpoint multisig_loop (fuel : nat) (stack : list valtype)
    (isig ikey nSigsCount nKeysCount : Z) : res ScriptError bool :=
  if 0 <? nSigsCount then
    match fuel with
    | O => Exn out_of_fuel
    | S fuel =>
        vchSig ← stacktop stack isig;
        vchPubKey ← stacktop stack ikey;
        _ ← check_encodings vchSig vchPubKey;
        let fOk := CheckSig vchSig vchPubKey script consensusBranchId in
        let isig := if fOk then isig + 1 else isig in
        let nSigsCount := if fOk then nSigsCount - 1 else nSigsCount in
        if nKeysCount - 1 <? nSigsCount then Ok false
        else multisig_loop fuel stack isig (ikey + 1) nSigsCount (nKeysCount - 1)
    end
  else Ok true.

(** [OP_CHECKMULTISIG], and [OP_CHECKMULTISIGVERIFY] when [verify]: the new
    stack and operation count. *)
Definition case_CHECKMULTISIG (verify : bool) (stack : list valtype) (nOpCount : Z)
    : res ScriptError (list valtype * Z) :=
  let fRequireMinimal := has_flag flags SCRIPT_VERIFY_MINIMALDATA in
  let i := 1 in
  _ ← need stack i;
  v ← stacktop stack i;
  nKeys ← operand fRequireMinimal v;
  let nKeysCount := getint nKeys in
  if (nKeysCount <? 0) || (20 <? nKeysCount) then Err SCRIPT_ERR_PUBKEY_COUNT
  else
    let nOpCount := nOpCount + nKeysCount in
    if 201 <? nOpCount then Err SCRIPT_ERR_OP_COUNT
    else
      let ikey := i + 1 in
      let i := ikey + nKeysCount in
      _ ← need stack i;
      v ← stacktop stack i;
      nSigs ← operand fRequireMinimal v;
      let nSigsCount := getint nSigs in
      if (nSigsCount <? 0) || (nKeysCount <? nSigsCount) then Err SCRIPT_ERR_SIG_COUNT
      else
        let isig := i + 1 in
        let i := isig + nSigsCount in
        _ ← need stack i;
        fSuccess ← multisig_loop (S (Z.to_nat nKeysCount)) stack isig ikey nSigsCount nKeysCount;
        stack ← popstack_n (Z.to_nat (i - 1)) stack;
        _ ← need stack 1;
        dummy ← stacktop stack 1;
        if has_flag flags SCRIPT_VERIFY_NULLDUMMY && negb (zlen dummy =? 0)
        then Err SCRIPT_ERR_SIG_NULLDUMMY
        else
          stack ← popstack stack;
          let stack := vch_of_bool fSuccess :: stack in
          if verify then
            if fSuccess then stack ← popstack stack; Ok (stack, nOpCount)
            else Err SCRIPT_ERR_CHECKMULTISIGVERIFY
          else Ok (stack, nOpCount).

(** [OP_CHECKCRYPTOCONDITION], and [OP_CHECKCRYPTOCONDITIONVERIFY] when
    [verify]; disabled unless the chain was started with [-ac_cc]. *)
Definition case_CHECKCRYPTOCONDITION (ASSETCHAINS_CC : Z) (verify : bool)
    (stack : list valtype) : stackM :=
  if ASSETCHAINS_CC =? 0 then Err SCRIPT_ERR_BAD_OPCODE
  else
    _ ← need stack 2;
    cond ← stacktop stack 1; ffill ← stacktop stack 2;
    let fResult := CheckCryptoCondition cond ffill script consensusBranchId in
    if fResult =? -1 then Err SCRIPT_ERR_CRYPTOCONDITION_INVALID_FULFILLMENT
    else
      stack ← popstack stack; stack ← popstack stack;
      let stack := vch_of_bool (fResult =? 1) :: stack in
      if verify then
        if fResult =? 1 then popstack stack else Err SCRIPT_ERR_CRYPTOCONDITION_VERIFY
      else Ok stack.

Definition case_CHECKLOCKTIMEVERIFY (stack : list valtype) : stackM :=
  if negb (has_flag flags SCRIPT_VERIFY_CHECKLOCKTIMEVERIFY) then
    if has_flag flags SCRIPT_VERIFY_DISCOURAGE_UPGRADABLE_NOPS
    then Err SCRIPT_ERR_DISCOURAGE_UPGRADABLE_NOPS
    else Ok stack
  else
    _ ← need stack 1;
    v ← stacktop stack 1;
    nLockTime ← CScriptNum_vch v (has_flag flags SCRIPT_VERIFY_MINIMALDATA) 5;
    if nLockTime <? 0 then Err SCRIPT_ERR_NEGATIVE_LOCKTIME
    else if negb (CheckLockTime nLockTime) then Err SCRIPT_ERR_UNSATISFIED_LOCKTIME
    else Ok stack.
End Crypto.

(** ** The interpreter loop *)

(** The local variables of [EvalScript] that survive an iteration. *)
Record eval_state := mk_state {
  st_stack : list valtype;
  st_altstack : list valtype;
  st_vfExec : list bool;
  st_nOpCount : Z;
}.

Definition set_stack (st : eval_state) (s : list valtype) : eval_state :=
  mk_state s (st_altstack st) (st_vfExec st) (st_nOpCount st).

Definition set_vfExec (st : eval_state) (v : list bool) : eval_state :=
  mk_state (st_stack st) (st_altstack st) v (st_nOpCount st).

(** Runs a case that only touches the main stack. *)
Definition on_stack (st : eval_state) (m : stackM) : res ScriptError eval_state :=
  s ← m; Ok (set_stack st s).

Definition on_stacks (st : eval_state) (m : res ScriptError (list valtype * list valtype))
    : res ScriptError eval_state :=
  sa ← m; Ok (mk_state sa.1 sa.2 (st_vfExec st) (st_nOpCount st)).

(** [OP_IF], and [OP_NOTIF] when [notif]. *)
Definition case_IF (notif fExec : bool) (st : eval_state) : res ScriptError eval_state :=
  if fExec then
    if zlen (st_stack st) <? 1 then Err SCRIPT_ERR_UNBALANCED_CONDITIONAL
    else
      vch ← stacktop (st_stack st) 1;
      let fValue := xorb notif (CastToBool vch) in
      s ← popstack (st_stack st);
      Ok (set_vfExec (set_stack st s) (fValue :: st_vfExec st))
  else Ok (set_vfExec st (false :: st_vfExec st)).

Definition case_ELSE (st : eval_state) : res ScriptError eval_state :=
  match st_vfExec st with
  | [] => Err SCRIPT_ERR_UNBALANCED_CONDITIONAL
  | b :: v => Ok (set_vfExec st (negb b :: v))
  end.

Definition case_ENDIF (st : eval_state) : res ScriptError eval_state :=
  match st_vfExec st with
  | [] => Err SCRIPT_ERR_UNBALANCED_CONDITIONAL
  | _ :: v => Ok (set_vfExec st v)
  end.

(** The opcodes rejected before execution. *)
Definition is_disabled (opcode : Z) : bool :=
  (opcode =? OP_CAT) || (opcode =? OP_SUBSTR) || (opcode =? OP_LEFT)
  || (opcode =? OP_RIGHT) || (opcode =? OP_INVERT) || (opcode =? OP_AND)
  || (opcode =? OP_OR) || (opcode =? OP_XOR) || (opcode =? OP_2MUL)
  || (opcode =? OP_2DIV) || (opcode =? OP_MUL) || (opcode =? OP_DIV)
  || (opcode =? OP_MOD) || (opcode =? OP_LSHIFT) || (opcode =? OP_RSHIFT)
  || (opcode =? OP_CODESEPARATOR).

(** The case labels of the numeric groups. *)
Definition is_unary (opcode : Z) : bool :=
  (opcode =? OP_1ADD) || (opcode =? OP_1SUB) || (opcode =? OP_NEGATE)
  || (opcode =? OP_ABS) || (opcode =? OP_NOT) || (opcode =? OP_0NOTEQUAL).

Definition is_binary (opcode : Z) : bool :=
  (opcode =? OP_ADD) || (opcode =? OP_SUB) || (opcode =? OP_BOOLAND)
  || (opcode =? OP_BOOLOR) || (opcode =? OP_NUMEQUAL)
  || (opcode =? OP_NUMEQUALVERIFY) || (opcode =? OP_NUMNOTEQUAL)
  || (opcode =? OP_LESSTHAN) || (opcode =? OP_GREATERTHAN)
  || (opcode =? OP_LESSTHANOREQUAL) || (opcode =? OP_GREATERTHANOREQUAL)
  || (opcode =? OP_MIN) || (opcode =? OP_MAX).

Definition is_hash (opcode : Z) : bool :=
  (opcode =? OP_RIPEMD160) || (opcode =? OP_SHA1) || (opcode =? OP_SHA256)
  || (opcode =? OP_HASH160) || (opcode =? OP_HASH256).

Definition is_upgradable_nop (opcode : Z) : bool :=
  (opcode =? OP_NOP1) || (opcode =? OP_NOP3) || (opcode =? OP_NOP4)
  || (opcode =? OP_NOP5) || (opcode =? OP_NOP6) || (opcode =? OP_NOP7)
  || (opcode =? OP_NOP8) || (opcode =? OP_NOP9) || (opcode =? OP_NOP10).

(** [OP_1NEGATE], [OP_1] .. [OP_16]. *)
Definition is_small_int (opcode : Z) : bool :=
  (opcode =? OP_1NEGATE) || ((OP_1 <=? opcode) && (opcode <=? OP_16)).

Section Eval.
Context `{HashFunctions} `{LowS} `{BaseSignatureChecker}.
Context (ASSETCHAINS_CC flags consensusBranchId : Z).

(** The main-stack cases between the control and the crypto groups. *)
Definition eval_stack_op (opcode : Z) (stack : list valtype) : option stackM :=
  let fRequireMinimal := has_flag flags SCRIPT_VERIFY_MINIMALDATA in
  if opcode =? OP_VERIFY then Some (case_VERIFY stack)
  else if opcode =? OP_RETURN then Some (Err SCRIPT_ERR_OP_RETURN)
  else if opcode =? OP_2DROP then Some (case_2DROP stack)
  else if opcode =? OP_2DUP then Some (case_2DUP stack)
  else if opcode =? OP_3DUP then Some (case_3DUP stack)
  else if opcode =? OP_2OVER then Some (case_2OVER stack)
  else if opcode =? OP_2ROT then Some (case_2ROT stack)
  else if opcode =? OP_2SWAP then Some (case_2SWAP stack)
  else if opcode =? OP_IFDUP then Some (case_IFDUP stack)
  else if opcode =? OP_DEPTH then Some (case_DEPTH stack)
  else if opcode =? OP_DROP then Some (case_DROP stack)
  else if opcode =? OP_DUP then Some (case_DUP stack)
  else if opcode =? OP_NIP then Some (case_NIP stack)
  else if opcode =? OP_OVER then Some (case_OVER stack)
  else if opcode =? OP_PICK then Some (case_PICK fRequireMinimal false stack)
  else if opcode =? OP_ROLL then Some (case_PICK fRequireMinimal true stack)
  else if opcode =? OP_ROT then Some (case_ROT stack)
  else if opcode =? OP_SWAP then Some (case_SWAP stack)
  else if opcode =? OP_TUCK then Some (case_TUCK stack)
  else if opcode =? OP_SIZE then Some (case_SIZE stack)
  else if opcode =? OP_EQUAL then Some (case_EQUAL false stack)
  else if opcode =? OP_EQUALVERIFY then Some (case_EQUAL true stack)
  else if is_unary opcode then Some (case_unary fRequireMinimal opcode stack)
  else if is_binary opcode then Some (case_binary fRequireMinimal opcode stack)
  else if opcode =? OP_WITHIN then Some (case_WITHIN fRequireMinimal stack)
  else None.

(** The whole [switch (opcode)]. *)
Definition eval_switch (script : valtype) (opcode : Z) (fExec : bool) (st : eval_state)
    : res ScriptError eval_state :=
  let stack := st_stack st in
  if is_small_int opcode then Ok (set_stack st (serialize (opcode - (OP_1 - 1)) :: stack))
  else if opcode =? OP_NOP then Ok st
  else if opcode =? OP_CHECKLOCKTIMEVERIFY then
    on_stack st (case_CHECKLOCKTIMEVERIFY flags stack)
  else if is_upgradable_nop opcode then
    if has_flag flags SCRIPT_VERIFY_DISCOURAGE_UPGRADABLE_NOPS
    then Err SCRIPT_ERR_DISCOURAGE_UPGRADABLE_NOPS else Ok st
  else if opcode =? OP_IF then case_IF false fExec st
  else if opcode =? OP_NOTIF then case_IF true fExec st
  else if opcode =? OP_ELSE then case_ELSE st
  else if opcode =? OP_ENDIF then case_ENDIF st
  else if opcode =? OP_TOALTSTACK then on_stacks st (case_TOALTSTACK stack (st_altstack st))
  else if opcode =? OP_FROMALTSTACK then
    on_stacks st (case_FROMALTSTACK stack (st_altstack st))
  else match eval_stack_op opcode stack with
  | Some m => on_stack st m
  | None =>
    if is_hash opcode then on_stack st (case_hash opcode stack)
    else if opcode =? OP_CHECKSIG then
      on_stack st (case_CHECKSIG flags consensusBranchId script false stack)
    else if opcode =? OP_CHECKSIGVERIFY then
      on_stack st (case_CHECKSIG flags consensusBranchId script true stack)
    else if (opcode =? OP_CHECKMULTISIG) || (opcode =? OP_CHECKMULTISIGVERIFY) then
      r ← case_CHECKMULTISIG flags consensusBranchId script
            (opcode =? OP_CHECKMULTISIGVERIFY) stack (st_nOpCount st);
      Ok (mk_state r.1 (st_altstack st) (st_vfExec st) r.2)
    else if opcode =? OP_CHECKCRYPTOCONDITION then
      on_stack st (case_CHECKCRYPTOCONDITION consensusBranchId script ASSETCHAINS_CC false stack)
    else if opcode =? OP_CHECKCRYPTOCONDITIONVERIFY then
      on_stack st (case_CHECKCRYPTOCONDITION consensusBranchId script ASSETCHAINS_CC true stack)
    else Err SCRIPT_ERR_BAD_OPCODE
  end.

(** The counter test [opcode > OP_16 && ++nOpCount > 201]. *)
Definition count_op (opcode : Z) (st : eval_state) : eval_state :=
  if OP_16 <? opcode
  then mk_state (st_stack st) (st_altstack st) (st_vfExec st) (st_nOpCount st + 1)
  else st.

(** The execution part of an iteration: the push or the switch. *)
Definition exec_op (script : valtype) (opcode : Z) (vchPushValue : valtype) (fExec : bool)
    (st : eval_state) : res ScriptError eval_state :=
  if fExec && (0 <=? opcode) && (opcode <=? OP_PUSHDATA4) then
    if has_flag flags SCRIPT_VERIFY_MINIMALDATA && negb (CheckMinimalPush vchPushValue opcode)
    then Err SCRIPT_ERR_MINIMALDATA
    else Ok (set_stack st (vchPushValue :: st_stack st))
  else if fExec || ((OP_IF <=? opcode) && (opcode <=? OP_ENDIF)) then
    eval_switch script opcode fExec st
  else Ok st.

(** An iteration behind a successful [GetOp]. *)
Definition step_op (script : valtype) (opcode : Z) (vchPushValue : valtype) (st : eval_state)
    : res ScriptError eval_state :=
  let fExec := forallb id (st_vfExec st) in
  if MAX_SCRIPT_ELEMENT_SIZE <? zlen vchPushValue then Err SCRIPT_ERR_PUSH_SIZE
  else
    let st := count_op opcode st in
    if (OP_16 <? opcode) && (201 <? st_nOpCount st) then Err SCRIPT_ERR_OP_COUNT
    else if is_disabled opcode then Err SCRIPT_ERR_DISABLED_OPCODE
    else
      st ← exec_op script opcode vchPushValue fExec st;
      if 1000 <? zlen (st_stack st) + zlen (st_altstack st) then Err SCRIPT_ERR_STACK_SIZE
      else Ok st.

(** One iteration of [while (pc < pend)], from the iterator [pc]. *)
Definition eval_step (script pc : valtype) (st : eval_state)
    : res ScriptError (valtype * eval_state) :=
  let r := GetOp2 pc in
  if negb (go_ret r) then Err SCRIPT_ERR_BAD_OPCODE
  else st ← step_op script (go_opcode r) (go_vch r) st; Ok (go_pc r, st).

Fixpoint eval_loop (fuel : nat) (script pc : valtype) (st : eval_state)
    : res ScriptError eval_state :=
  match pc with
  | [] => Ok st
  | _ =>
      match fuel with
      | O => Exn out_of_fuel
      | S fuel => r ← eval_step script pc st; eval_loop fuel script r.1 r.2
      end
  end.

(** [EvalScript]: the final stack, or the error code.  [catch (...)] turns every
    C++ exception into [SCRIPT_ERR_UNKNOWN_ERROR]; a failed assertion is not an
    exception. *)
Definition EvalScript (stack : list valtype) (script : valtype) : stackM :=
  if MAX_SCRIPT_SIZE <? zlen script then Err SCRIPT_ERR_SCRIPT_SIZE
  else match eval_loop (length script) script script (mk_state stack [] [] 0) with
  | Ok st =>
      match st_vfExec st with
      | [] => Ok (st_stack st)
      | _ => Err SCRIPT_ERR_UNBALANCED_CONDITIONAL
      end
  | Err e => Err e
  | Exn x =>
      match x with
      | assertion_failed | oob_read | division_by_zero | out_of_fuel => Exn x
      | _ => Err SCRIPT_ERR_UNKNOWN_ERROR
      end
  end.

(** [EvalCryptoConditionSig]: the script of a crypto-condition input is one
    push, with a larger size limit. *)
Definition EvalCryptoConditionSig (stack : list valtype) (scriptSig : valtype) : stackM :=
  let r := GetOp2 scriptSig in
  if negb (go_ret r) then Err SCRIPT_ERR_BAD_OPCODE
  else if (go_opcode r =? 0) || (OP_PUSHDATA4 <? go_opcode r)
  then Err SCRIPT_ERR_INVALID_STACK_OPERATION
  else if negb (zlen (go_pc r) =? 0) then Err SCRIPT_ERR_INVALID_STACK_OPERATION
  else if MAX_SCRIPT_CRYPTOCONDITION_FULFILLMENT_SIZE <? zlen (go_vch r)
  then Err SCRIPT_ERR_PUSH_SIZE
  else Ok (go_vch r :: stack).

(** The test behind each evaluation: a nonempty stack with a true top. *)
Definition top_is_true (stack : list valtype) : res ScriptError unit :=
  match stack with
  | [] => Err SCRIPT_ERR_EVAL_FALSE
  | top :: _ => if CastToBool top then Ok tt else Err SCRIPT_ERR_EVAL_FALSE
  end.

(** The P2SH part of [VerifyScript]: [stack] is the stack left by the input
    script ([stackCopy]); the result is the stack of the redeem script. *)
Definition verify_p2sh (scriptSig : valtype) (stack : list valtype) : stackM :=
  if negb (IsPushOnly scriptSig) then Err SCRIPT_ERR_SIG_PUSHONLY
  else
    _ ← assert_ (match stack with [] => false | _ => true end);
    pubKeySerialized ← stacktop stack 1;
    stack ← popstack stack;
    stack ← EvalScript stack pubKeySerialized;
    _ ← top_is_true stack;
    Ok stack.

Definition VerifyScript (scriptSig scriptPubKey : valtype) : res ScriptError unit :=
  if has_flag flags SCRIPT_VERIFY_SIGPUSHONLY && negb (IsPushOnly scriptSig)
  then Err SCRIPT_ERR_SIG_PUSHONLY
  else
    stackCopy ←
      (if negb (ASSETCHAINS_CC =? 0) && IsPayToCryptoCondition scriptPubKey
       then EvalCryptoConditionSig [] scriptSig
       else EvalScript [] scriptSig);
    stack ← EvalScript stackCopy scriptPubKey;
    _ ← top_is_true stack;
    stack ←
      (if has_flag flags SCRIPT_VERIFY_P2SH && IsPayToScriptHash scriptPubKey
       then verify_p2sh scriptSig stackCopy else Ok stack);
    if has_flag flags SCRIPT_VERIFY_CLEANSTACK then
      _ ← assert_ (has_flag flags SCRIPT_VERIFY_P2SH);
      if negb (zlen stack =? 1) then Err SCRIPT_ERR_CLEANSTACK else Ok tt
    else Ok tt.
End Eval.
