(* ===== verification/InterpreterSafety.v ===== *)
(** * Safety of the script interpreter

    Every guard of the switch of [EvalScript] is strong enough for the stack
    accesses behind it: no case throws an index error or pops an empty stack, no
    assertion on script numbers fails, and the loops end within their fuel.  The
    invariant carried through the loop bounds the elements, the two stacks and
    the operation counter. *)
From S2P Require Import Prelude ScriptNum Hashing Script Interpreter.

(** ** Safe results *)

(** A stack element: bytes, of at most [M] of them. *)
Definition elem_ok (M : Z) (v : valtype) : Prop := bytes v /\ zlen v <= M.

(** The codes the interpreter reports. *)
Definition reported (e : ScriptError) : Prop :=
  e <> SCRIPT_ERR_SIG_HIGH_S /\ e <> SCRIPT_ERR_OK /\ e <> SCRIPT_ERR_ERROR_COUNT.

#[export] Hint Extern 1 (reported _) => repeat split; discriminate : core.

(** [m] ends in a result with [P] or in a reported error; the only exception it
    throws is the one of the script-number constructor. *)
Definition safe {A} (P : A -> Prop) (m : res ScriptError A) : Prop :=
  match m with
  | Ok a => P a
  | Err e => reported e
  | Exn x => x = scriptnum_error
  end.

Lemma safe_mono {A} (P Q : A -> Prop) m : (forall a, P a -> Q a) -> safe P m -> safe Q m.
Proof. destruct m; cbn; auto. Qed.

Lemma safe_bind {A B} (P : A -> Prop) (Q : B -> Prop) m f :
  safe P m -> (forall a, P a -> safe Q (f a)) -> safe Q (m ≫= f).
Proof. destruct m; cbn; auto. Qed.

Lemma safe_err {A} (P : A -> Prop) e : reported e -> safe P (Err e).
Proof. auto. Qed.

Lemma safe_ok {A} (P : A -> Prop) a : P a -> safe P (Ok a).
Proof. auto. Qed.

Section Primitives.
Context (M : Z) {A : Type} (P : A -> Prop).
Implicit Types stack : list valtype.

Lemma need_safe stack n (k : unit -> res ScriptError A) :
  (n <= zlen stack -> safe P (k tt)) -> safe P (need stack n ≫= k).
Proof. intros H; unfold need; destruct (Z.ltb_spec (zlen stack) n); cbn; auto; now split. Qed.

Lemma stacktop_safe stack i k :
  Forall (elem_ok M) stack -> 1 <= i <= zlen stack ->
  (forall v, elem_ok M v -> safe P (k v)) -> safe P (stacktop stack i ≫= k).
Proof.
  intros Hs Hi Hk; unfold stacktop; rewrite (proj2 (Z.ltb_ge i 1)) by lia.
  unfold zlen in Hi.
  destruct (lookup_lt_is_Some_2 stack (Z.to_nat (i - 1))) as [v Hv]; [lia |].
  rewrite Hv; apply Hk; eapply Forall_lookup_1; eassumption.
Qed.

Lemma popstack_safe stack k :
  Forall (elem_ok M) stack -> 1 <= zlen stack ->
  (forall s, Forall (elem_ok M) s -> zlen s = zlen stack - 1 -> safe P (k s)) ->
  safe P (popstack stack ≫= k).
Proof.
  intros Hs Hl Hk; destruct stack as [| v s]; [change (zlen (@nil valtype)) with 0 in Hl; lia |].
  apply Hk; [now inv Hs | rewrite zlen_cons; lia].
Qed.

Lemma popstack_n_safe n stack k :
  Forall (elem_ok M) stack -> Z.of_nat n <= zlen stack ->
  (forall s, Forall (elem_ok M) s -> zlen s = zlen stack - Z.of_nat n -> safe P (k s)) ->
  safe P (popstack_n n stack ≫= k).
Proof.
  revert stack; induction n as [| n IH]; intros stack Hs Hl Hk; cbn [popstack_n].
  - apply Hk; [assumption | lia].
  - destruct stack as [| v s]; [change (zlen (@nil valtype)) with 0 in Hl; lia |].
    rewrite zlen_cons in *; inv Hs; cbn [popstack mbind res_bind].
    apply IH; auto; [lia |]; intros s' Hs' Hl'; apply Hk; [assumption | lia].
Qed.

Lemma scriptnum_safe v fMin n k :
  1 <= n <= 8 -> bytes v ->
  (forall x, Z.abs x < 2 ^ (8 * n - 1) -> safe P (k x)) ->
  safe P (CScriptNum_vch v fMin n ≫= k).
Proof.
  intros Hn Hv Hk.
  destruct (CScriptNum_vch v fMin n) as [x | e | x] eqn:E.
  - apply CScriptNum_vch_ok_inv in E as [Hl ->]; apply Hk, set_vch_range; auto.
  - unfold CScriptNum_vch in E; repeat case_hyp E; discriminate.
  - unfold CScriptNum_vch in E; repeat case_hyp E; cbn; congruence.
Qed.

Lemma operand_safe v fMin k :
  elem_ok M v -> (forall x, Z.abs x < 2 ^ 31 -> safe P (k x)) ->
  safe P (operand fMin v ≫= k).
Proof.
  intros [Hv _] Hk; unfold operand, nDefaultMaxNumSize.
  apply (scriptnum_safe v fMin 4); [lia | assumption | exact Hk].
Qed.
End Primitives.

(** ** Elements produced by the operations *)

Section Elements.
Context (M : Z) (HM : 520 <= M).

Lemma elem_false : elem_ok M vchFalse.
Proof. split; [constructor | change (zlen vchFalse) with 0; lia]. Qed.

Lemma elem_bool b : elem_ok M (vch_of_bool b).
Proof.
  destruct b; [split | apply elem_false].
  - repeat constructor; lia.
  - change (zlen (vch_of_bool true)) with 1; lia.
Qed.

Lemma elem_serialize n : Z.abs n < 2 ^ 63 -> elem_ok M (serialize n).
Proof.
  intros Hn; split; [| pose proof (zlen_serialize n 8 ltac:(lia) Hn); lia].
  destruct (Z.eq_dec n 0) as [-> | Hz]; [constructor |].
  destruct (serialize_shape n Hz ltac:(lia)) as (pre & b & Hb & Hp & _ & _ & _ & ->).
  destruct (Z.ltb_spec b 128); apply Forall_app; split; auto; repeat constructor; auto.
  all: unfold is_byte in *; destruct (n <? 0); lia.
Qed.

Lemma Forall_erase stack i j :
  Forall (elem_ok M) stack -> Forall (elem_ok M) (erase_range stack i j).
Proof. intros H; apply Forall_app; auto using Forall_take, Forall_drop. Qed.

Lemma Forall_insert_at stack i v :
  Forall (elem_ok M) stack -> elem_ok M v -> Forall (elem_ok M) (insert_at stack i v).
Proof. intros H Hv; apply Forall_app; auto using Forall_take, Forall_drop. Qed.

Lemma swap_at_safe stack i j :
  Forall (elem_ok M) stack -> 1 <= i <= zlen stack -> 1 <= j <= zlen stack ->
  safe (fun s => Forall (elem_ok M) s /\ zlen s = zlen stack) (swap_at stack i j).
Proof.
  intros Hs Hi Hj; unfold swap_at.
  apply (stacktop_safe M); auto; intros x Hx; apply (stacktop_safe M); auto; intros y Hy.
  split; [auto using Forall_insert | unfold zlen; now rewrite !length_insert].
Qed.

Lemma unary_op_safe op n :
  is_unary op = true -> Z.abs n < 2 ^ 31 -> safe (fun r => Z.abs r < 2 ^ 63) (unary_op op n).
Proof.
  unfold is_unary, unary_op, scriptnum_add_assign, scriptnum_sub_assign, scriptnum_neg,
    INT64_MAX, INT64_MIN, bn_of_bool; intros Hop Hn.
  assert (2 ^ 31 = 2147483648) by reflexivity.
  repeat (case_goal; [|]); cbn [orb] in Hop; try discriminate; zbool; cbn; try lia.
Qed.

Lemma binary_op_safe op a b :
  is_binary op = true -> Z.abs a < 2 ^ 31 -> Z.abs b < 2 ^ 31 ->
  safe (fun r => Z.abs r < 2 ^ 63) (binary_op op a b).
Proof.
  unfold is_binary, binary_op, scriptnum_add, scriptnum_sub, bn_of_bool; intros Hop Ha Hb.
  assert (2 ^ 31 = 2147483648) by reflexivity.
  rewrite !(swrap_small 64) by lia.
  repeat (case_goal; [cbn; repeat case_goal; lia |]).
  discriminate.
Qed.
End Elements.

#[export] Hint Resolve safe_err elem_false elem_bool elem_serialize Forall_erase Forall_insert_at : core.

(** ** The cases of the switch *)

(** One primitive of a case, with the guards in the context. *)
Ltac safe_step M :=
  match goal with
  | |- safe _ (mbind _ (need _ _)) => apply need_safe; intros ?
  | |- safe _ (mbind _ (stacktop _ _)) =>
      apply (stacktop_safe M); [auto | autorewrite with lists in *; lia | intros ? ?]
  | |- safe _ (mbind _ (popstack _)) =>
      apply (popstack_safe M); [auto | autorewrite with lists in *; lia | intros ? ? ?]
  | |- safe _ (mbind _ (popstack_n _ _)) =>
      apply (popstack_n_safe M); [auto | autorewrite with lists in *; lia | intros ? ? ?]
  | |- safe _ (mbind _ (operand _ _)) => apply (operand_safe M); [auto | intros ? ?]
  | |- safe _ (mbind _ (swap_at _ _ _)) =>
      eapply safe_bind; [apply (swap_at_safe M); auto; lia | intros ? [? ?]]
  | |- safe _ (swap_at _ _ _) =>
      eapply safe_mono; [| apply (swap_at_safe M); auto; lia]; cbv beta; tauto
  | |- safe _ (if ?b then _ else _) => destruct b eqn:?
  | |- safe _ (Ok _) => apply safe_ok
  | |- safe _ (Err _) => repeat split; discriminate
  end.

(** Splits the facts on an explicit list. *)
Ltac split_Forall :=
  repeat match goal with
  | H : Forall _ (_ :: _) |- _ =>
      let H' := fresh in
      pose proof (Forall_inv H) as H'; apply Forall_inv_tail in H
  end.

Section Cases.
Context (M : Z) (HM : 520 <= M < 2 ^ 31).

#[local] Lemma HM1 : 520 <= M.
Proof. apply HM. Qed.
Hint Resolve HM1 : core.

Abbreviation good := (Forall (elem_ok M)).

Lemma popstack_good s : good s -> 1 <= zlen s -> safe good (popstack s).
Proof.
  intros Hs Hl; destruct s; [change (zlen (@nil valtype)) with 0 in Hl; lia | now inv Hs].
Qed.
Hint Resolve popstack_good : core.

Lemma elem_size v : elem_ok M v -> elem_ok M (serialize (zlen v)).
Proof.
  intros [_ Hv]; apply elem_serialize; [auto |]; pose proof (zlen_nonneg v); lia.
Qed.
Hint Resolve elem_size : core.

Ltac elems :=
  repeat match goal with
  | |- Forall _ (_ :: _) => apply Forall_cons_2
  | |- Forall _ (if ?b then _ else _) => destruct b
  | |- elem_ok _ (serialize _) => apply elem_serialize; [auto | lia]
  | _ => solve [auto]
  end.

Ltac solve_case :=
  repeat safe_step M;
  repeat match goal with H : context [zlen (_ :: _)] |- _ => rewrite zlen_cons in H end;
  try match goal with
  | |- safe _ (popstack _) => apply popstack_good; [| rewrite ?zlen_cons; lia]
  end;
  elems.

(** The elements stay well-formed under every case on the main stack. *)
Lemma stack_cases_safe s :
  good s -> zlen s <= 1000 ->
  Forall (safe good)
    [case_VERIFY s; case_2DROP s; case_2DUP s; case_3DUP s; case_2OVER s; case_2ROT s;
     case_2SWAP s; case_IFDUP s; case_DEPTH s; case_DROP s; case_DUP s; case_NIP s;
     case_OVER s; case_ROT s; case_SWAP s; case_TUCK s; case_SIZE s; case_EQUAL false s;
     case_EQUAL true s].
Proof.
  intros Hs Hl; pose proof (zlen_nonneg s).
  repeat apply Forall_cons_2; [.. | apply Forall_nil_2];
    unfold case_VERIFY, case_2DROP, case_2DUP, case_3DUP, case_2OVER, case_2ROT, case_2SWAP,
      case_IFDUP, case_DEPTH, case_DROP, case_DUP, case_NIP, case_OVER, case_ROT, case_SWAP,
      case_TUCK, case_SIZE, case_EQUAL.
  all: solve_case.
Qed.

Section NumericCases.
Context (fMin : bool).

Lemma case_PICK_safe roll s :
  good s -> zlen s <= 1000 -> safe good (case_PICK fMin roll s).
Proof.
  intros Hs Hl; unfold case_PICK; repeat safe_step M.
  - rewrite orb_false_iff, Z.ltb_ge, Z.leb_gt in *.
    rewrite swrap_small in * by (change (2 ^ (32 - 1)) with (2 ^ 31); lia).
    apply (stacktop_safe M); [auto | lia |]; intros w Hw; destruct roll; solve_case.
Qed.

Lemma case_unary_safe op s : is_unary op = true -> good s -> safe good (case_unary fMin op s).
Proof.
  intros Hop Hs; unfold case_unary; repeat safe_step M.
  eapply safe_bind; [now apply unary_op_safe |]; intros r Hr; solve_case.
Qed.

Lemma case_binary_safe op s : is_binary op = true -> good s -> safe good (case_binary fMin op s).
Proof.
  intros Hop Hs; unfold case_binary; repeat safe_step M.
  eapply safe_bind; [now apply binary_op_safe |]; intros r Hr; repeat safe_step M.
  - cbn; repeat safe_step M; auto; cbn; repeat split; discriminate.
  - elems.
Qed.

Lemma case_WITHIN_safe s : good s -> safe good (case_WITHIN fMin s).
Proof. intros Hs; unfold case_WITHIN; solve_case. Qed.
End NumericCases.

Section CryptoCases.
Context `{HashFunctionsOk} `{LowS} `{BaseSignatureChecker}.
Context (flags branch : Z) (script : valtype).

Lemma case_hash_safe op s : good s -> safe good (case_hash op s).
Proof.
  intros Hs; unfold case_hash; repeat safe_step M; apply Forall_cons_2; [| assumption].
  repeat case_goal; split.
  all: first [apply ripemd160_bytes | apply sha1_bytes | apply sha256_bytes
             | apply CHash160_bytes | apply CHash256_bytes | unfold zlen].
  all: rewrite ?ripemd160_length, ?sha1_length, ?sha256_length, ?CHash160_length,
    ?CHash256_length; lia.
Qed.

(** Neither encoding check reports the high-S code. *)
Lemma check_encodings_safe sig pk : safe (fun _ => True) (check_encodings flags sig pk).
Proof.
  unfold check_encodings, CheckSignatureEncoding, IsLowDERSignature, CheckPubKeyEncoding.
  repeat case_goal; simplify_eq; try exact I; repeat split; discriminate.
Qed.

Lemma case_CHECKSIG_safe verify s :
  good s -> safe good (case_CHECKSIG flags branch script verify s).
Proof.
  intros Hs; unfold case_CHECKSIG; repeat safe_step M.
  eapply safe_bind; [apply check_encodings_safe |]; intros _ _; solve_case.
Qed.

(** The signature loop stays inside the stack and uses at most one iteration
    per key. *)
Lemma multisig_loop_safe fuel s isig ikey nsigs nkeys :
  good s -> 1 <= isig -> 1 <= ikey -> nsigs <= nkeys -> nkeys < Z.of_nat fuel ->
  isig + nsigs - 1 <= zlen s -> ikey + nkeys - 1 <= zlen s ->
  safe (fun _ => True) (multisig_loop flags branch script fuel s isig ikey nsigs nkeys).
Proof.
  revert isig ikey nsigs nkeys; induction fuel as [| fuel IH];
    intros isig ikey nsigs nkeys Hs Hi Hk Hn Hf Hsi Hke; cbn [multisig_loop].
  - destruct (Z.ltb_spec 0 nsigs); [lia | exact I].
  - destruct (Z.ltb_spec 0 nsigs); [| exact I].
    repeat safe_step M; eapply safe_bind; [apply check_encodings_safe |]; intros _ _.
    destruct (Z.ltb_spec (nkeys - 1) (if CheckSig v v0 script branch then nsigs - 1 else nsigs));
      [exact I |].
    apply IH; auto; destruct (CheckSig _ _ _ _); lia.
Qed.

Lemma case_CHECKMULTISIG_safe verify s nOp :
  good s -> 0 <= nOp ->
  safe (fun r => good r.1 /\ nOp <= r.2 <= 201)
    (case_CHECKMULTISIG flags branch script verify s nOp).
Proof.
  intros Hs HnOp; unfold case_CHECKMULTISIG; repeat safe_step M.
  rewrite orb_false_iff, !Z.ltb_ge in *.
  eapply safe_bind; [apply multisig_loop_safe; auto; lia |]; intros fSuccess _.
  repeat safe_step M; cbn [fst snd]; split; auto; lia.
Qed.

Lemma case_CHECKCRYPTOCONDITION_safe CC verify s :
  good s -> safe good (case_CHECKCRYPTOCONDITION branch script CC verify s).
Proof. intros Hs; unfold case_CHECKCRYPTOCONDITION; solve_case. Qed.

Lemma case_CHECKLOCKTIMEVERIFY_safe s :
  good s -> safe good (case_CHECKLOCKTIMEVERIFY flags s).
Proof.
  intros Hs; unfold case_CHECKLOCKTIMEVERIFY; repeat safe_step M; auto.
  apply scriptnum_safe; [lia | eapply proj1; eassumption | intros; solve_case].
Qed.

End CryptoCases.
End Cases.

(** ** The loop invariant *)

Section Loop.
Context `{HashFunctionsOk} `{LowS} `{BaseSignatureChecker}.
Context (M : Z) (HM : 520 <= M < 2 ^ 31) (CC flags branch : Z).

Abbreviation good := (Forall (elem_ok M)).

(** The elements of a state, and the bounds of its operation counter. *)
Record state_elems (n0 : Z) (st : eval_state) : Prop := {
  se_stack : good (st_stack st);
  se_alt : good (st_altstack st);
  se_count : 0 <= n0 /\ n0 <= st_nOpCount st <= 201;
}.

(** What the limits of the loop leave between two iterations. *)
Record eval_inv (n0 : Z) (st : eval_state) : Prop := {
  inv_elems : state_elems n0 st;
  inv_size : zlen (st_stack st) + zlen (st_altstack st) <= 1000;
}.

Lemma eval_stack_op_safe op s m :
  good s -> zlen s <= 1000 -> eval_stack_op flags op s = Some m -> safe good m.
Proof.
  intros Hs Hl E; unfold eval_stack_op in E.
  pose proof (stack_cases_safe M HM s Hs Hl) as Hc.
  split_Forall.
  repeat (case_hyp E; [injection E as <-; try assumption |]); try discriminate.
  all: eauto using case_PICK_safe, case_unary_safe, case_binary_safe, case_WITHIN_safe.
Qed.

Lemma on_stack_safe n0 st m :
  state_elems n0 st -> safe good m -> safe (state_elems n0) (on_stack st m).
Proof.
  intros [] Hm; unfold on_stack; eapply safe_bind; [exact Hm |]; intros; now split.
Qed.

Lemma on_stacks_safe n0 st m :
  state_elems n0 st -> safe (fun r => good r.1 /\ good r.2) m -> safe (state_elems n0) (on_stacks st m).
Proof.
  intros [] Hm; unfold on_stacks; eapply safe_bind; [exact Hm |]; intros ? []; now split.
Qed.

Lemma control_safe n0 st fExec op :
  state_elems n0 st ->
  Forall (safe (state_elems n0))
    [case_IF op fExec st; case_ELSE st; case_ENDIF st;
     on_stacks st (case_TOALTSTACK (st_stack st) (st_altstack st));
     on_stacks st (case_FROMALTSTACK (st_stack st) (st_altstack st))].
Proof.
  intros Hst; pose proof Hst as [Hs Ha Hc].
  repeat apply Forall_cons_2; [.. | apply Forall_nil_2].
  4, 5: apply on_stacks_safe; [assumption |].
  all: unfold case_IF, case_ELSE, case_ENDIF, case_TOALTSTACK, case_FROMALTSTACK.
  - destruct fExec; [| now split].
    destruct (Z.ltb_spec (zlen (st_stack st)) 1); [repeat split; discriminate |].
    repeat safe_step M; now split.
  - destruct (st_vfExec st); [repeat split; discriminate | now split].
  - destruct (st_vfExec st); [repeat split; discriminate | now split].
  - repeat safe_step M; split; cbn; auto.
  - destruct (Z.ltb_spec (zlen (st_altstack st)) 1); [repeat split; discriminate |].
    repeat safe_step M; split; cbn; auto.
Qed.

Lemma eval_switch_safe n0 script op fExec st :
  state_elems n0 st -> zlen (st_stack st) <= 1000 ->
  safe (state_elems n0) (eval_switch CC flags branch script op fExec st).
Proof.
  intros Hst Hl; pose proof Hst as [Hs Ha Hc]; unfold eval_switch.
  pose proof (control_safe n0 st fExec false Hst) as Hcf.
  pose proof (control_safe n0 st fExec true Hst) as Hct.
  split_Forall.
  destruct (is_small_int op) eqn:Esm.
  { split; cbn; auto; apply Forall_cons_2; auto; apply elem_serialize; [lia |].
    unfold is_small_int in Esm; rewrite orb_true_iff, andb_true_iff, Z.eqb_eq, !Z.leb_le in Esm.
    cbn in *; lia. }
  destruct (eval_stack_op flags op (st_stack st)) as [m |] eqn:Eop.
  - apply eval_stack_op_safe in Eop; [| assumption | assumption].
    repeat case_goal; auto using on_stack_safe, case_CHECKLOCKTIMEVERIFY_safe.
  - repeat (case_goal; [auto using on_stack_safe, case_CHECKLOCKTIMEVERIFY_safe,
      case_hash_safe, case_CHECKSIG_safe, case_CHECKCRYPTOCONDITION_safe |]).
    + now apply safe_ok.
    + eapply safe_bind; [apply (case_CHECKMULTISIG_safe M); auto; lia |].
      intros [s' n] [Hs' Hn]; split; cbn in *; auto; lia.
    + auto.
Qed.

Lemma exec_op_safe n0 script op data fExec st :
  state_elems n0 st -> zlen (st_stack st) <= 1000 -> elem_ok M data ->
  safe (state_elems n0) (exec_op CC flags branch script op data fExec st).
Proof.
  intros Hst Hl Hd; pose proof Hst as [Hs Ha Hc]; unfold exec_op.
  repeat case_goal; auto using eval_switch_safe, safe_ok.
  split; cbn; auto.
Qed.

(** What an instruction adds to the operation count by itself. *)
Definition op_cost (op : Z) : Z := if OP_16 <? op then 1 else 0.

Lemma step_op_safe n0 script op data st :
  eval_inv n0 st -> bytes data ->
  safe (eval_inv (n0 + op_cost op)) (step_op CC flags branch script op data st).
Proof.
  intros [[Hs Ha Hc] Hl] Hd; unfold step_op, count_op, op_cost.
  pose proof (zlen_nonneg (st_altstack st)); pose proof (zlen_nonneg (st_stack st)).
  destruct (Z.ltb_spec MAX_SCRIPT_ELEMENT_SIZE (zlen data)) as [| Hsz]; [auto |].
  unfold MAX_SCRIPT_ELEMENT_SIZE in Hsz.
  destruct (_ && _) eqn:Ecnt; [auto |].
  destruct (is_disabled op); [auto |].
  eapply safe_bind.
  - apply exec_op_safe with (data := data) (n0 := n0 + op_cost op);
      [| destruct (OP_16 <? op); cbn; lia | split; auto; lia].
    unfold op_cost; destruct (OP_16 <? op); cbn [andb st_nOpCount] in Ecnt; split; cbn; auto; try lia.
  - intros st' Hst'; cbv beta.
    destruct (Z.ltb_spec 1000 (zlen (st_stack st') + zlen (st_altstack st'))); [auto |].
    now apply safe_ok.
Qed.

Lemma eval_inv_weaken n0 n1 st : 0 <= n1 <= n0 -> eval_inv n0 st -> eval_inv n1 st.
Proof. intros Hn [[Hs Ha Hc] Hl]; repeat split; auto; lia. Qed.

Lemma eval_loop_safe fuel script pc st :
  (length pc <= fuel)%nat -> bytes pc -> eval_inv 0 st ->
  safe (eval_inv 0) (eval_loop CC flags branch fuel script pc st).
Proof.
  revert pc st; induction fuel as [| fuel IH]; intros [| b pc] st Hf Hb Hst; cbn [eval_loop];
    [exact Hst | cbn in Hf; lia | exact Hst |].
  unfold eval_step; pose proof (GetOp2_progress (b :: pc) ltac:(discriminate)).
  pose proof (GetOp2_bytes (b :: pc) Hb) as (Hpc & Hvch & _).
  destruct (go_ret _); cbn [negb]; [| cbn; auto].
  pose proof (step_op_safe 0 script (go_opcode (GetOp2 (b :: pc))) (go_vch (GetOp2 (b :: pc)))
    st Hst Hvch) as Hstep.
  destruct (step_op _ _ _ _ _ _ _) as [st' | e | x]; [| assumption | assumption].
  cbn [mbind res_bind]; apply IH; auto; cbn [fst length] in *; [lia |].
  eapply eval_inv_weaken; [| exact Hstep]; unfold op_cost; destruct (_ <? _); lia.
Qed.

(** What [EvalScript] can return: a well-formed stack within the limits, or a
    reported error. *)
Definition eval_result_ok (r : stackM) : Prop :=
  match r with
  | Ok s => good s /\ zlen s <= 1000
  | Err e => reported e
  | Exn _ => False
  end.

Lemma EvalScript_result stack script :
  good stack -> zlen stack <= 1000 -> bytes script ->
  eval_result_ok (EvalScript CC flags branch stack script).
Proof.
  intros Hs Hl Hb; unfold EvalScript.
  destruct (MAX_SCRIPT_SIZE <? zlen script); [cbn; auto |].
  assert (Hinv : eval_inv 0 (mk_state stack [] [] 0)).
  { split; [split; cbn; auto; lia |]; cbn; change (zlen (@nil valtype)) with 0; lia. }
  pose proof (eval_loop_safe (length script) script script _ (le_n _) Hb Hinv) as H'.
  destruct (eval_loop _ _ _ _ _ _ _) as [st | e | x]; cbn in H'; [| exact H' | subst; cbn; auto].
  destruct H' as [[Hs' Ha' _] Hl'].
  destruct (st_vfExec st); cbn; [split; auto | auto].
  pose proof (zlen_nonneg (st_altstack st)); lia.
Qed.
End Loop.
