(* ===== verification/InterpreterSpec.v ===== *)
(** * Functional correctness of the script interpreter

    The byte loop of [EvalScript] against the sequence of instructions the
    script parses into, the documented stack effect of each stack opcode, the
    matching computed by [OP_CHECKMULTISIG], and the outcome of [VerifyScript]
    on the standard templates. *)
From S2P Require Import Prelude Endian ScriptNum Hashing Script Interpreter InterpreterSafety.

(** ** Scripts as instruction sequences *)

Section Instructions.
Context `{HashFunctions} `{LowS} `{BaseSignatureChecker}.
Context (CC flags branch : Z) (script : valtype).

(** The instructions of a script, executed in order. *)
Fixpoint eval_ops (ops : list (Z * valtype)) (st : eval_state) : res ScriptError eval_state :=
  match ops with
  | [] => Ok st
  | (op, data) :: ops => st ← step_op CC flags branch script op data st; eval_ops ops st
  end.

Lemma eval_loop_parses fuel pc ops st :
  (length pc <= fuel)%nat -> parses pc ops ->
  eval_loop CC flags branch fuel script pc st = eval_ops ops st.
Proof.
  intros Hf Hp; revert fuel st Hf.
  induction Hp as [| pc op data pc' ops E Hp IH]; intros fuel st Hf; [now destruct fuel |].
  assert (Hne : pc <> []) by (intros ->; discriminate).
  pose proof (GetOp2_progress pc Hne) as Hlt; rewrite E in Hlt; cbn [go_pc] in Hlt.
  destruct fuel as [| fuel]; [lia |].
  destruct pc as [| b pc0]; [congruence |]; cbn [eval_loop eval_ops].
  unfold eval_step; rewrite E; cbn [go_ret negb go_opcode go_vch go_pc].
  destruct (step_op _ _ _ _ _ _ _); cbn [mbind res_bind]; auto; apply IH; cbn [fst]; lia.
Qed.

(** A run that does not fail has read the whole script as instructions. *)
Lemma eval_loop_ok_parses fuel pc st st' :
  eval_loop CC flags branch fuel script pc st = Ok st' -> exists ops, parses pc ops.
Proof.
  revert pc st; induction fuel as [| fuel IH]; intros [| b pc] st E; cbn [eval_loop] in E.
  1, 3: exists []; constructor.
  - discriminate.
  - unfold eval_step in E.
    destruct (GetOp2 (b :: pc)) as [ret pc' op data] eqn:Eg.
    cbn [go_ret go_pc go_opcode go_vch] in E; destruct ret; cbn [negb] in E; [| discriminate].
    destruct (step_op _ _ _ _ _ _ _) as [s1 | |]; cbn [mbind res_bind] in E; try discriminate.
    destruct (IH _ _ E) as [ops Hops]; exists ((op, data) :: ops); econstructor; eassumption.
Qed.
End Instructions.

Section Whole.
Context `{HashFunctions} `{LowS} `{BaseSignatureChecker}.
Context (CC flags branch : Z).

(** [EvalScript] on a script whose instructions are known. *)
Lemma EvalScript_parses stack script ops :
  zlen script <= MAX_SCRIPT_SIZE -> parses script ops ->
  EvalScript CC flags branch stack script =
    match eval_ops CC flags branch script ops (mk_state stack [] [] 0) with
    | Ok st => match st_vfExec st with
               | [] => Ok (st_stack st)
               | _ => Err SCRIPT_ERR_UNBALANCED_CONDITIONAL
               end
    | Err e => Err e
    | Exn x => match x with
               | assertion_failed | oob_read | division_by_zero | out_of_fuel => Exn x
               | _ => Err SCRIPT_ERR_UNKNOWN_ERROR
               end
    end.
Proof.
  intros Hl Hp; unfold EvalScript; rewrite (proj2 (Z.ltb_ge _ _)) by assumption.
  now rewrite (eval_loop_parses CC flags branch script _ _ ops) by auto.
Qed.

Lemma EvalScript_ok_iff stack script s :
  EvalScript CC flags branch stack script = Ok s <->
  zlen script <= MAX_SCRIPT_SIZE /\
  exists ops st, parses script ops /\
    eval_ops CC flags branch script ops (mk_state stack [] [] 0) = Ok st /\
    st_vfExec st = [] /\ st_stack st = s.
Proof.
  split.
  - intros E; unfold EvalScript in E.
    destruct (Z.ltb_spec MAX_SCRIPT_SIZE (zlen script)) as [| Hl]; [discriminate |].
    split; [assumption |].
    destruct (eval_loop _ _ _ _ _ _ _) as [st | e | x] eqn:El; [| discriminate | destruct x; discriminate].
    destruct (eval_loop_ok_parses _ _ _ _ _ _ _ _ El) as [ops Hops].
    rewrite (eval_loop_parses CC flags branch script _ _ ops) in El by auto.
    destruct (st_vfExec st) eqn:Ev; [| discriminate].
    exists ops, st; repeat split; auto; congruence.
  - intros [Hl (ops & st & Hp & Ho & Hv & <-)].
    rewrite (EvalScript_parses _ _ ops) by assumption; now rewrite Ho, Hv.
Qed.
End Whole.

(** ** Stack effects *)

(** The effect written beside each stack opcode, [(before -- after)], both
    listed from the bottom to the top of the stack. *)
Definition stack_effect (op : opcodetype) : option (nat * (list valtype -> list valtype)) :=
  match op with
  | OP_2DROP => Some (2%nat, fun _ => [])
  | OP_2DUP => Some (2%nat, fun l => l ++ l)
  | OP_3DUP => Some (3%nat, fun l => l ++ l)
  | OP_2OVER => Some (4%nat, fun l => l ++ take 2 l)
  | OP_2ROT => Some (6%nat, fun l => drop 2 l ++ take 2 l)
  | OP_2SWAP => Some (4%nat, fun l => drop 2 l ++ take 2 l)
  | OP_IFDUP => Some (1%nat, fun l => if CastToBool (hd [] l) then l ++ l else l)
  | OP_DROP => Some (1%nat, fun _ => [])
  | OP_DUP => Some (1%nat, fun l => l ++ l)
  | OP_NIP => Some (2%nat, fun l => drop 1 l)
  | OP_OVER => Some (2%nat, fun l => l ++ take 1 l)
  | OP_ROT => Some (3%nat, fun l => drop 1 l ++ take 1 l)
  | OP_SWAP => Some (2%nat, fun l => drop 1 l ++ take 1 l)
  | OP_TUCK => Some (2%nat, fun l => drop 1 l ++ l)
  | OP_SIZE => Some (1%nat, fun l => l ++ [serialize (zlen (hd [] l))])
  | OP_EQUAL => Some (2%nat, fun l => [vch_of_bool (bool_decide (hd [] l = nth 1 l []))])
  | _ => None
  end.

(** An effect on the [n] topmost elements, or the error of a short stack. *)
Definition apply_effect (n : nat) (f : list valtype -> list valtype) (stack : list valtype)
    : stackM :=
  if (length stack <? n)%nat then Err SCRIPT_ERR_INVALID_STACK_OPERATION
  else Ok (rev (f (rev (take n stack))) ++ drop n stack).

Lemma need_cons (x : valtype) s n (k : unit -> stackM) :
  need (x :: s) n ≫= k = need s (n - 1) ≫= k.
Proof. unfold need; rewrite zlen_cons; zbool; auto; lia. Qed.

Lemma need_le s n (k : unit -> stackM) : n <= 0 -> need s n ≫= k = k tt.
Proof. intros Hn; unfold need; pose proof (zlen_nonneg s); zbool; auto; lia. Qed.

(** Cuts the elements an opcode needs off the stack. *)
Ltac cut_stack stack n :=
  lazymatch n with
  | O => idtac
  | S ?m => destruct stack as [| ? stack]; [reflexivity |]; cut_stack stack m
  end.

(** Each stack opcode has exactly its documented effect. *)
Lemma stack_effect_ok flags op n f stack :
  stack_effect op = Some (n, f) ->
  eval_stack_op flags op stack = Some (apply_effect n f stack).
Proof.
  intros E; destruct op; try discriminate E; injection E as <- <-;
    cbv [eval_stack_op opcode_value Z.eqb Pos.eqb]; f_equal;
    cbv [case_2DROP case_2DUP case_3DUP case_2OVER case_2ROT case_2SWAP case_IFDUP case_DROP
         case_DUP case_NIP case_OVER case_ROT case_SWAP case_TUCK case_SIZE case_EQUAL];
    match goal with |- _ = apply_effect ?n _ stack => cut_stack stack n end;
    rewrite !need_cons, need_le by lia; try reflexivity.
  change (Ok (if CastToBool l then l :: l :: stack else l :: stack) =
    Ok (E := ScriptError) (rev (if CastToBool l then [l; l] else [l]) ++ stack)).
  now destruct (CastToBool l).
Qed.

(** A number pushed by the code is read back by the numeric opcodes. *)
Lemma operand_serialize {E} fMin n :
  Z.abs n < 2 ^ 31 -> operand (E := E) fMin (serialize n) = Ok n.
Proof.
  intros Hn; pose proof (serialize_minimal n 4 ltac:(lia) Hn (E := E)) as Hm.
  destruct fMin; [exact Hm |]; revert Hm; unfold operand, CScriptNum_vch, nDefaultMaxNumSize.
  cbn [andb]; repeat case_goal; congruence.
Qed.

Lemma getint_small n : Z.abs n < 2 ^ 31 -> getint n = n.
Proof. unfold getint, INT_MAX, INT_MIN; intros; zbool; lia. Qed.

Lemma stacktop_app {E} (above : list valtype) x rest i :
  i = zlen above + 1 -> stacktop (E := E) (above ++ x :: rest) i = Ok x.
Proof.
  intros ->; unfold stacktop; pose proof (zlen_nonneg above).
  rewrite (proj2 (Z.ltb_ge _ _)) by lia.
  rewrite lookup_app_r by (unfold zlen; lia).
  replace (_ - _)%nat with 0%nat by (unfold zlen; lia); reflexivity.
Qed.

Lemma need_ok {A} s n (k : unit -> res ScriptError A) : n <= zlen s -> need s n ≫= k = k tt.
Proof. intros Hn; unfold need; now rewrite (proj2 (Z.ltb_ge _ _)). Qed.

(** [(xn ... x1 x0 n -- xn ... x1 x0 xn)], and [(xn ... x1 x0 n -- ... x1 x0 xn)]
    when [roll]: the number [n] on top names the element [n] places below it. *)
Definition pick_effect (fMin roll : bool) (stack : list valtype) : stackM :=
  match stack with
  | top :: x0 :: below =>
      n ← operand fMin top;
      match (if n <? 0 then None else (x0 :: below) !! Z.to_nat n) with
      | Some xn => Ok (xn :: if roll then delete (Z.to_nat n) (x0 :: below) else x0 :: below)
      | None => Err SCRIPT_ERR_INVALID_STACK_OPERATION
      end
  | _ => Err SCRIPT_ERR_INVALID_STACK_OPERATION
  end.

Lemma pick_effect_ok fMin roll stack : zlen stack < 2 ^ 31 -> case_PICK fMin roll stack = pick_effect fMin roll stack.
Proof.
  intros Hl; unfold case_PICK, pick_effect; destruct stack as [| top [| x0 below]]; [reflexivity.. |].
  rewrite need_ok by (rewrite !zlen_cons; pose proof (zlen_nonneg below); lia).
  change (stacktop (top :: x0 :: below) 1) with (Ok (E := ScriptError) top); cbn [mbind res_bind popstack].
  destruct (operand fMin top) as [n | |]; cbn [mbind res_bind]; [| reflexivity..].
  set (s := x0 :: below) in *; rewrite zlen_cons in Hl; pose proof (zlen_nonneg s); rewrite (swrap_small 32) by (change (2 ^ (32 - 1)) with (2 ^ 31); lia).
  unfold getint, INT_MAX, INT_MIN; destruct (Z.ltb_spec n 0) as [Hn | Hn].
  - replace (_ <? 0) with true; [reflexivity | symmetry; apply Z.ltb_lt; zbool; lia].
  - destruct (s !! Z.to_nat n) as [xn |] eqn:Ex.
    + pose proof (lookup_lt_Some _ _ _ Ex) as Hlt; assert (n < zlen s) by (unfold zlen; lia).
      zbool; try lia; cbn [orb]; unfold stacktop; zbool; try lia.
      replace (n + 1 - 1) with n by lia; rewrite Ex; cbn [mbind res_bind]; destruct roll; [| reflexivity].
      unfold erase_range; rewrite delete_take_drop; do 3 f_equal; f_equal; lia.
    + apply lookup_ge_None in Ex; assert (zlen s <= n) by (unfold zlen; lia).
      replace (zlen s <=? _) with true; [now rewrite orb_true_r | symmetry; apply Z.leb_le; zbool; lia].
Qed.

(** The outcome of a stack opcode on the two stacks. *)
Definition stack_outcome (flags : Z) (op : opcodetype) (stack altstack : list valtype)
    : option (res ScriptError (list valtype * list valtype)) :=
  let main (m : stackM) := Some (s ← m; Ok (s, altstack)) in
  match op with
  | OP_TOALTSTACK =>
      Some (match stack with x :: stack => Ok (stack, x :: altstack) | [] => Err SCRIPT_ERR_INVALID_STACK_OPERATION end)
  | OP_FROMALTSTACK =>
      Some (match altstack with x :: altstack => Ok (x :: stack, altstack) | [] => Err SCRIPT_ERR_INVALID_ALTSTACK_OPERATION end)
  | OP_DEPTH => main (Ok (serialize (zlen stack) :: stack))
  | OP_PICK => main (pick_effect (has_flag flags SCRIPT_VERIFY_MINIMALDATA) false stack)
  | OP_ROLL => main (pick_effect (has_flag flags SCRIPT_VERIFY_MINIMALDATA) true stack)
  | _ => match stack_effect op with Some (n, f) => main (apply_effect n f stack) | None => None end
  end.

Lemma on_main st (m : stackM) : on_stack st m = on_stacks st (s ← m; Ok (s, st_altstack st)).
Proof. unfold on_stack, on_stacks; now destruct m. Qed.

Lemma need_alt st :
  on_stacks st (case_FROMALTSTACK (st_stack st) (st_altstack st)) =
  on_stacks st (match st_altstack st with x :: altstack => Ok (x :: st_stack st, altstack) | [] => Err SCRIPT_ERR_INVALID_ALTSTACK_OPERATION end).
Proof.
  unfold case_FROMALTSTACK; destruct (st_altstack st) as [| x alt]; [reflexivity |].
  rewrite zlen_cons; pose proof (zlen_nonneg alt); now rewrite (proj2 (Z.ltb_ge _ _)) by lia.
Qed.

Lemma need_main st :
  on_stacks st (case_TOALTSTACK (st_stack st) (st_altstack st)) =
  on_stacks st (match st_stack st with x :: stack => Ok (stack, x :: st_altstack st) | [] => Err SCRIPT_ERR_INVALID_STACK_OPERATION end).
Proof.
  unfold case_TOALTSTACK; destruct (st_stack st) as [| x s]; [reflexivity |].
  now rewrite need_ok by (rewrite zlen_cons; pose proof (zlen_nonneg s); lia).
Qed.

(** The stack opcodes reach their cases in the switch. *)
Lemma stack_outcome_ok `{HashFunctions} `{LowS} `{BaseSignatureChecker} CC flags branch script op st r :
  zlen (st_stack st) < 2 ^ 31 -> stack_outcome flags op (st_stack st) (st_altstack st) = Some r ->
  eval_switch CC flags branch script op true st = on_stacks st r.
Proof.
  intros Hl; unfold stack_outcome; destruct (stack_effect op) as [[n f] |] eqn:Ef.
  - assert (Es : eval_switch CC flags branch script op true st = on_stack st (apply_effect n f (st_stack st))).
    { pose proof (stack_effect_ok flags op n f (st_stack st) Ef) as E; unfold eval_switch; rewrite E; now destruct op. }
    rewrite Es, on_main; destruct op; try discriminate Ef; now intros [= <-].
  - destruct op; try discriminate; intros [= <-]; cbv [eval_switch eval_stack_op is_small_int is_upgradable_nop opcode_value Z.eqb Pos.eqb orb andb Z.leb Z.compare Pos.compare Pos.compare_cont].
    + apply need_main.
    + apply need_alt.
    + apply on_main.
    + rewrite <- pick_effect_ok by exact Hl; apply on_main.
    + rewrite <- pick_effect_ok by exact Hl; apply on_main.
Qed.

(** ** Multisignatures *)

(** [sig_match ok sigs keys]: the signatures can be assigned, in order, to
    distinct keys that validate them. *)
Inductive sig_match (ok : valtype -> valtype -> bool) : list valtype -> list valtype -> Prop :=
| sig_match_done keys : sig_match ok [] keys
| sig_match_use sig sigs key keys :
    ok sig key = true -> sig_match ok sigs keys -> sig_match ok (sig :: sigs) (key :: keys)
| sig_match_skip sigs key keys :
    sig_match ok sigs keys -> sig_match ok sigs (key :: keys).

(** The strategy of the loop: a key that validates the current signature is
    used for it. *)
Fixpoint greedy (ok : valtype -> valtype -> bool) (sigs keys : list valtype) : bool :=
  match sigs, keys with
  | [], _ => true
  | _, [] => false
  | sig :: sigs', key :: keys' =>
      if ok sig key then greedy ok sigs' keys' else greedy ok sigs keys'
  end.

Lemma sig_match_length ok sigs keys : sig_match ok sigs keys -> (length sigs <= length keys)%nat.
Proof. induction 1; cbn; lia. Qed.

Lemma sig_match_tail ok sig sigs keys : sig_match ok (sig :: sigs) keys -> sig_match ok sigs keys.
Proof.
  remember (sig :: sigs) as l eqn:E; intros H; revert sig sigs E.
  induction H; intros sig' sigs' E; simplify_eq; eauto using sig_match.
Qed.

(** Greedy assignment finds a matching whenever there is one. *)
Lemma greedy_match ok sigs keys : greedy ok sigs keys = true <-> sig_match ok sigs keys.
Proof.
  revert sigs; induction keys as [| key keys IH]; intros [| sig sigs]; cbn [greedy].
  1, 3: split; [constructor | reflexivity].
  - split; [discriminate | intros H; inv H].
  - destruct (ok sig key) eqn:E; rewrite IH; split; eauto using sig_match.
    + intros H; inv H; eauto using sig_match_tail.
    + intros H; inv H; [congruence | assumption].
Qed.

Lemma greedy_short ok sigs keys : (length keys < length sigs)%nat -> greedy ok sigs keys = false.
Proof.
  intros Hl; destruct (greedy ok sigs keys) eqn:E; [| reflexivity].
  apply greedy_match, sig_match_length in E; lia.
Qed.

Section Multisig.
Context `{LowS} `{BaseSignatureChecker}.
Context (flags branch : Z) (script : valtype).

(** The check the loop makes of a signature and a key. *)
Definition sig_ok (sig key : valtype) : bool := CheckSig sig key script branch.

Lemma multisig_loop_greedy fuel pre_s pre_k sigs keys rest_s rest_k stack :
  stack = pre_s ++ sigs ++ rest_s -> stack = pre_k ++ keys ++ rest_k ->
  (length sigs <= length keys)%nat -> (length keys < fuel)%nat ->
  (forall s k, s ∈ sigs -> k ∈ keys -> check_encodings flags s k = Ok tt) ->
  multisig_loop flags branch script fuel stack (zlen pre_s + 1) (zlen pre_k + 1)
    (zlen sigs) (zlen keys) = Ok (greedy sig_ok sigs keys).
Proof.
  revert pre_s pre_k sigs keys; induction fuel as [| fuel IH];
    intros pre_s pre_k sigs keys Es Ek Hl Hf Henc; [lia |]; cbn [multisig_loop].
  destruct sigs as [| sig sigs]; [now destruct keys |].
  destruct keys as [| key keys]; [cbn in Hl; lia |].
  pose proof (zlen_nonneg sigs); rewrite zlen_cons, (proj2 (Z.ltb_lt _ _)) by lia.
  assert (Hts : stacktop (E := ScriptError) stack (zlen pre_s + 1) = Ok sig)
    by (rewrite Es; now apply stacktop_app).
  assert (Htk : stacktop (E := ScriptError) stack (zlen pre_k + 1) = Ok key)
    by (rewrite Ek; now apply stacktop_app).
  rewrite Hts, Htk; cbn [mbind res_bind]; rewrite Henc by constructor.
  cbn [mbind res_bind greedy].
  fold (sig_ok sig key); rewrite zlen_cons; cbn [length] in *.
  assert (Hs1 : forall x : valtype, zlen pre_s + 1 + 1 = zlen (pre_s ++ [x]) + 1)
    by (intros; autorewrite with lists; lia).
  assert (Hk1 : forall x : valtype, zlen pre_k + 1 + 1 = zlen (pre_k ++ [x]) + 1)
    by (intros; autorewrite with lists; lia).
  rewrite (Hk1 key); replace (1 + zlen keys - 1) with (zlen keys) by lia.
  destruct (sig_ok sig key).
  - replace (1 + zlen sigs - 1) with (zlen sigs) by lia; rewrite (Hs1 sig).
    unfold zlen at 1 2; rewrite (proj2 (Z.ltb_ge _ _)) by lia.
    apply IH; rewrite <- ?app_assoc; auto; [lia | lia |].
    intros; apply Henc; now constructor.
  - destruct (Z.ltb_spec (zlen keys) (1 + zlen sigs)) as [Hlt | Hge].
    + now rewrite greedy_short by (cbn [length]; unfold zlen in Hlt; lia).
    + rewrite <- (zlen_cons sig sigs); apply IH; rewrite <- ?app_assoc; auto; [| lia |].
      * unfold zlen in Hge; cbn [length]; lia.
      * intros; apply Henc; [assumption | now constructor].
Qed.

(** The arguments of the opcode, from the top of the stack: the keys behind
    their count, the signatures behind theirs, and the extra element. *)
Definition multisig_args (keys sigs : list valtype) (dummy : valtype) (rest : list valtype)
    : list valtype :=
  serialize (zlen keys) :: keys ++ serialize (zlen sigs) :: sigs ++ dummy :: rest.

Lemma popstack_n_app {E} l (rest : list valtype) :
  popstack_n (E := E) (length l) (l ++ rest) = Ok rest.
Proof. induction l; cbn; auto. Qed.

Lemma zlen_multisig_args keys sigs dummy rest :
  zlen (multisig_args keys sigs dummy rest) = 3 + zlen keys + zlen sigs + zlen rest.
Proof. unfold multisig_args; autorewrite with lists; lia. Qed.

Lemma multisig_args_nsigs {E} keys sigs dummy rest :
  stacktop (E := E) (multisig_args keys sigs dummy rest) (1 + 1 + zlen keys)
    = Ok (serialize (zlen sigs)).
Proof. apply (stacktop_app (serialize (zlen keys) :: keys)); rewrite zlen_cons; lia. Qed.

Lemma multisig_args_pop {E} keys sigs dummy rest :
  popstack_n (E := E) (Z.to_nat (1 + 1 + zlen keys + 1 + zlen sigs - 1))
    (multisig_args keys sigs dummy rest) = Ok (dummy :: rest).
Proof.
  pose proof (popstack_n_app (E := E)
    (serialize (zlen keys) :: keys ++ serialize (zlen sigs) :: sigs) (dummy :: rest)) as Hp.
  cbn [length app] in Hp; rewrite <- app_assoc, length_app in Hp; cbn [length app] in Hp.
  rewrite <- Hp; f_equal; unfold zlen; lia.
Qed.

Lemma multisig_args_loop keys sigs dummy rest :
  zlen sigs <= zlen keys ->
  (forall s k, s ∈ sigs -> k ∈ keys -> check_encodings flags s k = Ok tt) ->
  multisig_loop flags branch script (S (Z.to_nat (zlen keys)))
    (multisig_args keys sigs dummy rest)
    (1 + 1 + zlen keys + 1) (1 + 1) (zlen sigs) (zlen keys) = Ok (greedy sig_ok sigs keys).
Proof.
  intros Hs Henc.
  pose proof (multisig_loop_greedy (S (Z.to_nat (zlen keys)))
    (serialize (zlen keys) :: keys ++ [serialize (zlen sigs)]) [serialize (zlen keys)]
    sigs keys (dummy :: rest) (serialize (zlen sigs) :: sigs ++ dummy :: rest)
    (multisig_args keys sigs dummy rest)) as Hg.
  autorewrite with lists in Hg.
  replace (1 + 1 + zlen keys + 1) with (1 + (zlen keys + (1 + 0)) + 1) by lia.
  replace (1 + 1) with (1 + 0 + 1) by lia; unfold zlen in *; apply Hg; auto; try lia.
  unfold multisig_args; cbn [app]; now rewrite <- app_assoc.
Qed.

Lemma case_CHECKMULTISIG_ok verify keys sigs dummy rest nOp :
  zlen keys <= 20 -> zlen sigs <= zlen keys -> nOp + zlen keys <= 201 ->
  (has_flag flags SCRIPT_VERIFY_NULLDUMMY = true -> dummy = []) ->
  (forall s k, s ∈ sigs -> k ∈ keys -> check_encodings flags s k = Ok tt) ->
  case_CHECKMULTISIG flags branch script verify (multisig_args keys sigs dummy rest) nOp =
    let fSuccess := greedy sig_ok sigs keys in
    if verify then
      if fSuccess then Ok (rest, nOp + zlen keys) else Err SCRIPT_ERR_CHECKMULTISIGVERIFY
    else Ok (vch_of_bool fSuccess :: rest, nOp + zlen keys).
Proof.
  intros Hk Hs Hn Hd Henc; unfold case_CHECKMULTISIG.
  pose proof (zlen_nonneg keys); pose proof (zlen_nonneg sigs); pose proof (zlen_nonneg rest).
  pose proof (zlen_multisig_args keys sigs dummy rest) as Hlen.
  pose proof (multisig_args_nsigs (E := ScriptError) keys sigs dummy rest) as Htop2.
  pose proof (multisig_args_loop keys sigs dummy rest Hs Henc) as Hloop.
  pose proof (multisig_args_pop (E := ScriptError) keys sigs dummy rest) as Hpop.
  set (stack := multisig_args keys sigs dummy rest) in *.
  change (stacktop stack 1) with (Ok (E := ScriptError) (serialize (zlen keys))).
  rewrite need_ok by lia; cbn [mbind res_bind].
  rewrite operand_serialize by lia; cbn [mbind res_bind]; rewrite getint_small by lia.
  rewrite !(proj2 (Z.ltb_ge _ _)) by lia; cbn [orb].
  rewrite need_ok, Htop2 by lia; cbn [mbind res_bind].
  rewrite operand_serialize by lia; cbn [mbind res_bind]; rewrite getint_small by lia.
  rewrite !(proj2 (Z.ltb_ge _ _)) by lia; cbn [orb]; rewrite need_ok by lia.
  rewrite Hloop; cbn [mbind res_bind]; rewrite Hpop; cbn [mbind res_bind].
  rewrite need_ok by (rewrite zlen_cons; lia).
  change (stacktop (dummy :: rest) 1) with (Ok (E := ScriptError) dummy); cbn [mbind res_bind].
  destruct (has_flag flags SCRIPT_VERIFY_NULLDUMMY).
  - rewrite Hd by reflexivity; cbn; now destruct (greedy _ _ _).
  - cbn; now destruct (greedy _ _ _).
Qed.
End Multisig.

(** ** Standard templates *)

(** The output scripts the code recognises. *)
Definition p2pkh_script (h : valtype) : valtype :=
  [OP_DUP : Z; OP_HASH160 : Z; 20] ++ h ++ [OP_EQUALVERIFY : Z; OP_CHECKSIG : Z].
Definition p2sh_script (h : valtype) : valtype :=
  [OP_HASH160 : Z; 20] ++ h ++ [OP_EQUAL : Z].

Ltac cut20 h := do 20 (destruct h as [| ? h]; [discriminate |]); destruct h; [| discriminate].

Section Templates.
Context `{HashFunctions} `{LowS} `{BaseSignatureChecker}.
Context (CC flags branch : Z).

(** One executed instruction on a state outside any conditional: the opcode is
    counted, run, and the size limit applied. *)
Lemma step_op_fresh script op data stack n :
  zlen data <= MAX_SCRIPT_ELEMENT_SIZE -> 0 <= n < 201 -> is_disabled op = false ->
  step_op CC flags branch script op data (mk_state stack [] [] n) =
    st ← exec_op CC flags branch script op data true
           (mk_state stack [] [] (if OP_16 <? op then n + 1 else n));
    if 1000 <? zlen (st_stack st) + zlen (st_altstack st) then Err SCRIPT_ERR_STACK_SIZE
    else Ok st.
Proof.
  intros Hd Hn Hdis; unfold step_op; cbn [st_vfExec forallb].
  rewrite (proj2 (Z.ltb_ge _ _) Hd), Hdis; unfold count_op; cbn [st_stack st_altstack].
  destruct (OP_16 <? op); cbn [andb st_nOpCount st_vfExec]; [| reflexivity].
  now rewrite (proj2 (Z.ltb_ge _ _)) by lia.
Qed.

(** A data push. *)
Lemma step_push script op data stack n :
  zlen data <= MAX_SCRIPT_ELEMENT_SIZE -> 0 <= n < 201 -> 0 <= op <= OP_PUSHDATA4 ->
  (has_flag flags SCRIPT_VERIFY_MINIMALDATA = true -> CheckMinimalPush data op = true) ->
  zlen stack < 1000 ->
  step_op CC flags branch script op data (mk_state stack [] [] n) =
    Ok (mk_state (data :: stack) [] [] n).
Proof.
  intros Hd Hn Hop Hmin Hl; cbn in Hop.
  rewrite step_op_fresh; [| assumption | assumption |].
  - unfold exec_op; cbn [andb opcode_value].
    rewrite (proj2 (Z.leb_le 0 op)), (proj2 (Z.leb_le op 78)), (proj2 (Z.ltb_ge 96 op)) by lia.
    cbn [andb]; destruct (has_flag flags SCRIPT_VERIFY_MINIMALDATA);
      [rewrite Hmin by reflexivity |]; cbn [andb negb mbind res_bind st_stack st_altstack set_stack
        st_vfExec st_nOpCount].
    all: rewrite zlen_cons; change (zlen (@nil valtype)) with 0.
    all: now rewrite (proj2 (Z.ltb_ge _ _)) by lia.
  - unfold is_disabled; rewrite !orb_false_iff, !Z.eqb_neq; cbn; lia.
Qed.

(** The push opcode chosen by [operator<<] is minimal for two bytes or more. *)
Lemma push_op_minimal data :
  2 <= zlen data <= MAX_SCRIPT_ELEMENT_SIZE ->
  CheckMinimalPush data (push_op (zlen data)) = true /\ 0 <= push_op (zlen data) <= OP_PUSHDATA4.
Proof.
  unfold MAX_SCRIPT_ELEMENT_SIZE, CheckMinimalPush, push_op; intros Hl; cbn [opcode_value].
  rewrite (proj2 (Z.eqb_neq (zlen data) 0)), (proj2 (Z.eqb_neq (zlen data) 1)) by lia.
  cbn [andb]; zbool; split; reflexivity || lia.
Qed.

Lemma p2sh_size h : length h = 20%nat -> zlen (p2sh_script h) <= MAX_SCRIPT_SIZE.
Proof. intros Hh; cut20 h; now vm_compute. Qed.

Lemma p2pkh_size h : length h = 20%nat -> zlen (p2pkh_script h) <= MAX_SCRIPT_SIZE.
Proof. intros Hh; cut20 h; now vm_compute. Qed.

Lemma p2sh_not_cc h : length h = 20%nat -> IsPayToCryptoCondition (p2sh_script h) = false.
Proof. intros Hh; unfold p2sh_script; cut20 h; vm_compute; reflexivity. Qed.

Lemma p2pkh_not_cc h : length h = 20%nat -> IsPayToCryptoCondition (p2pkh_script h) = false.
Proof. intros Hh; unfold p2pkh_script; cut20 h; vm_compute; reflexivity. Qed.

Lemma p2pkh_not_p2sh h : length h = 20%nat -> IsPayToScriptHash (p2pkh_script h) = false.
Proof. intros Hh; unfold p2pkh_script; cut20 h; vm_compute; reflexivity. Qed.

(** The instructions of the two templates, at any point of the operation count
    that leaves room for them. *)
Lemma step_hash160 script x stack n :
  0 <= n < 201 -> zlen stack < 1000 ->
  step_op CC flags branch script OP_HASH160 [] (mk_state (x :: stack) [] [] n) =
    Ok (mk_state (CHash160 x :: stack) [] [] (n + 1)).
Proof.
  intros Hn Hl; rewrite step_op_fresh; [| now vm_compute | assumption | reflexivity].
  change (exec_op CC flags branch script OP_HASH160 [] true ?st)
    with (on_stack st (case_hash OP_HASH160 (st_stack st))).
  unfold case_hash; cbn [st_stack]; pose proof (zlen_nonneg stack).
  rewrite need_ok by (rewrite zlen_cons; lia).
  change (stacktop (x :: stack) 1) with (Ok (E := ScriptError) x).
  cbn [mbind res_bind popstack on_stack]; cbn -[CHash160 Z.ltb zlen Z.add].
  rewrite zlen_cons; change (zlen (@nil valtype)) with 0.
  now rewrite (proj2 (Z.ltb_ge _ _)) by lia.
Qed.

Lemma step_equal script x y stack n :
  0 <= n < 201 -> zlen stack < 1000 ->
  step_op CC flags branch script OP_EQUAL [] (mk_state (y :: x :: stack) [] [] n) =
    Ok (mk_state (vch_of_bool (bool_decide (x = y)) :: stack) [] [] (n + 1)).
Proof.
  intros Hn Hl; rewrite step_op_fresh; [| now vm_compute | assumption | reflexivity].
  change (exec_op CC flags branch script OP_EQUAL [] true ?st)
    with (on_stack st (case_EQUAL false (st_stack st))).
  unfold case_EQUAL; cbn [st_stack]; pose proof (zlen_nonneg stack).
  rewrite need_ok by (rewrite !zlen_cons; lia).
  change (stacktop (y :: x :: stack) 2) with (Ok (E := ScriptError) x).
  change (stacktop (y :: x :: stack) 1) with (Ok (E := ScriptError) y).
  cbn [mbind res_bind popstack on_stack]; cbn -[Z.ltb zlen Z.add bool_decide vch_of_bool].
  rewrite zlen_cons; change (zlen (@nil valtype)) with 0.
  now rewrite (proj2 (Z.ltb_ge _ _)) by lia.
Qed.

(** The output script of a P2SH coin compares the hash of the top element. *)
Lemma EvalScript_p2sh h x stack :
  length h = 20%nat -> zlen stack < 999 ->
  EvalScript CC flags branch (x :: stack) (p2sh_script h) =
    Ok (vch_of_bool (bool_decide (Hash160 x = h)) :: stack).
Proof.
  intros Hh Hl; pose proof (zlen_nonneg stack).
  assert (Hz : zlen h = 20) by (unfold zlen; lia).
  rewrite (EvalScript_parses _ _ _ _ _ _ (p2sh_size h Hh) (parses_p2sh h Hh)).
  cbn [eval_ops]; rewrite step_hash160 by lia; cbn [mbind res_bind].
  rewrite step_push.
  - cbn [mbind res_bind]; rewrite step_equal by (rewrite ?zlen_cons; lia); reflexivity.
  - rewrite Hz; unfold MAX_SCRIPT_ELEMENT_SIZE; lia.
  - lia.
  - cbn; lia.
  - intros _; cut20 h; reflexivity.
  - rewrite zlen_cons; lia.
Qed.

Lemma EvalScript_p2sh_empty h :
  length h = 20%nat ->
  EvalScript CC flags branch [] (p2sh_script h) = Err SCRIPT_ERR_INVALID_STACK_OPERATION.
Proof.
  intros Hh.
  now rewrite (EvalScript_parses _ _ _ _ _ _ (p2sh_size h Hh) (parses_p2sh h Hh)).
Qed.

Lemma step_dup script x stack n :
  0 <= n < 201 -> zlen stack < 999 ->
  step_op CC flags branch script OP_DUP [] (mk_state (x :: stack) [] [] n) =
    Ok (mk_state (x :: x :: stack) [] [] (n + 1)).
Proof.
  intros Hn Hl; rewrite step_op_fresh; [| now vm_compute | assumption | reflexivity].
  change (exec_op CC flags branch script OP_DUP [] true ?st)
    with (on_stack st (case_DUP (st_stack st))).
  unfold case_DUP; cbn [st_stack]; pose proof (zlen_nonneg stack).
  rewrite need_ok by (rewrite zlen_cons; lia).
  change (stacktop (x :: stack) 1) with (Ok (E := ScriptError) x).
  cbn [mbind res_bind on_stack]; cbn -[Z.ltb zlen Z.add].
  rewrite !zlen_cons; change (zlen (@nil valtype)) with 0.
  now rewrite (proj2 (Z.ltb_ge _ _)) by lia.
Qed.

Lemma step_equalverify script x y stack n :
  0 <= n < 201 -> zlen stack <= 1000 ->
  step_op CC flags branch script OP_EQUALVERIFY [] (mk_state (y :: x :: stack) [] [] n) =
    if bool_decide (x = y) then Ok (mk_state stack [] [] (n + 1))
    else Err SCRIPT_ERR_EQUALVERIFY.
Proof.
  intros Hn Hl; rewrite step_op_fresh; [| now vm_compute | assumption | reflexivity].
  change (exec_op CC flags branch script OP_EQUALVERIFY [] true ?st)
    with (on_stack st (case_EQUAL true (st_stack st))).
  unfold case_EQUAL; cbn [st_stack]; pose proof (zlen_nonneg stack).
  rewrite need_ok by (rewrite !zlen_cons; lia).
  change (stacktop (y :: x :: stack) 2) with (Ok (E := ScriptError) x).
  change (stacktop (y :: x :: stack) 1) with (Ok (E := ScriptError) y).
  unfold on_stack; cbn [mbind res_bind popstack].
  destruct (bool_decide (x = y)); [| reflexivity].
  cbn -[Z.ltb zlen Z.add]; change (zlen (@nil valtype)) with 0.
  now rewrite (proj2 (Z.ltb_ge _ _)) by lia.
Qed.

Lemma step_checksig script sig pk stack n :
  0 <= n < 201 -> zlen stack < 1000 ->
  step_op CC flags branch script OP_CHECKSIG [] (mk_state (pk :: sig :: stack) [] [] n) =
    _ ← check_encodings flags sig pk;
    Ok (mk_state (vch_of_bool (CheckSig sig pk script branch) :: stack) [] [] (n + 1)).
Proof.
  intros Hn Hl; rewrite step_op_fresh; [| now vm_compute | assumption | reflexivity].
  change (exec_op CC flags branch script OP_CHECKSIG [] true ?st)
    with (on_stack st (case_CHECKSIG flags branch script false (st_stack st))).
  unfold case_CHECKSIG; cbn [st_stack]; pose proof (zlen_nonneg stack).
  rewrite need_ok by (rewrite !zlen_cons; lia).
  change (stacktop (pk :: sig :: stack) 2) with (Ok (E := ScriptError) sig).
  change (stacktop (pk :: sig :: stack) 1) with (Ok (E := ScriptError) pk).
  unfold on_stack; cbn [mbind res_bind popstack].
  destruct (check_encodings flags sig pk); cbn [mbind res_bind]; [| reflexivity | reflexivity].
  cbn -[Z.ltb zlen Z.add vch_of_bool]; rewrite zlen_cons; change (zlen (@nil valtype)) with 0.
  now rewrite (proj2 (Z.ltb_ge _ _)) by lia.
Qed.

Lemma check_encodings_cases sig pk :
  check_encodings flags sig pk = Ok tt \/ exists e, check_encodings flags sig pk = Err e.
Proof. unfold check_encodings; repeat case_goal; eauto. Qed.

(** The output script of a P2PKH coin, on a public key and a signature. *)
Lemma EvalScript_p2pkh h pk sig stack :
  length h = 20%nat -> zlen stack < 996 ->
  EvalScript CC flags branch (pk :: sig :: stack) (p2pkh_script h) =
    if bool_decide (Hash160 pk = h) then
      _ ← check_encodings flags sig pk;
      Ok (vch_of_bool (CheckSig sig pk (p2pkh_script h) branch) :: stack)
    else Err SCRIPT_ERR_EQUALVERIFY.
Proof.
  intros Hh Hl; pose proof (zlen_nonneg stack).
  assert (Hz : zlen h = 20) by (unfold zlen; lia).
  rewrite (EvalScript_parses _ _ _ _ _ _ (p2pkh_size h Hh) (parses_p2pkh h Hh)).
  cbn [eval_ops]; rewrite step_dup by (rewrite ?zlen_cons; lia); cbn [mbind res_bind].
  rewrite step_hash160 by (rewrite ?zlen_cons; lia); cbn [mbind res_bind].
  rewrite step_push.
  - cbn [mbind res_bind]; rewrite step_equalverify by (rewrite ?zlen_cons; lia).
    change (CHash160 pk) with (Hash160 pk).
    destruct (bool_decide _); cbn [mbind res_bind]; [| reflexivity].
    rewrite step_checksig by lia.
    destruct (check_encodings_cases sig pk) as [-> | [e ->]]; reflexivity.
  - rewrite Hz; unfold MAX_SCRIPT_ELEMENT_SIZE; lia.
  - lia.
  - cbn; lia.
  - intros _; cut20 h; reflexivity.
  - rewrite !zlen_cons; lia.
Qed.

Lemma zlen_push_vch d :
  zlen d <= MAX_SCRIPT_ELEMENT_SIZE -> zlen (push_vch [] d) <= zlen d + 3.
Proof.
  unfold MAX_SCRIPT_ELEMENT_SIZE; intros Hd; unfold push_vch; cbn [opcode_value].
  repeat case_goal; autorewrite with lists; rewrite ?Z.leb_gt in *; try lia.
  unfold zlen at 1; cbn [length WriteLE16 le_bytes]; lia.
Qed.

(** An input script of two pushes. *)
Lemma EvalScript_two_pushes sig pk :
  2 <= zlen sig <= MAX_SCRIPT_ELEMENT_SIZE -> 2 <= zlen pk <= MAX_SCRIPT_ELEMENT_SIZE ->
  let scriptSig := push_vch (push_vch [] sig) pk in
  IsPushOnly scriptSig = true /\ EvalScript CC flags branch [] scriptSig = Ok [pk; sig].
Proof.
  intros Hs Hp scriptSig.
  pose proof (push_op_minimal sig Hs) as [Hms Hbs].
  pose proof (push_op_minimal pk Hp) as [Hmp Hbp].
  pose proof (zlen_push_vch sig ltac:(lia)); pose proof (zlen_push_vch pk ltac:(lia)).
  unfold MAX_SCRIPT_ELEMENT_SIZE in *.
  assert (Hparse : parses scriptSig [(push_op (zlen sig), sig); (push_op (zlen pk), pk)]).
  { unfold scriptSig; rewrite push_vch_prefix; apply parses_push;
      [autorewrite with lists; lia |].
    rewrite <- (app_nil_r (push_vch [] pk)); apply parses_push; [| constructor].
    autorewrite with lists; lia. }
  assert (Hsize : zlen scriptSig <= MAX_SCRIPT_SIZE).
  { unfold scriptSig, MAX_SCRIPT_SIZE; rewrite push_vch_prefix; autorewrite with lists; lia. }
  cbn in Hbs, Hbp; split.
  - apply IsPushOnly_loop_iff; [lia |]; eexists; split; [exact Hparse |].
    repeat constructor; cbn; lia.
  - rewrite (EvalScript_parses _ _ _ _ _ _ Hsize Hparse); cbn [eval_ops].
    rewrite step_push by (auto; unfold MAX_SCRIPT_ELEMENT_SIZE; cbn [opcode_value]; change (zlen (@nil valtype)) with 0; lia).
    cbn [mbind res_bind].
    rewrite step_push by (auto; unfold MAX_SCRIPT_ELEMENT_SIZE; rewrite ?zlen_cons; cbn [opcode_value]; change (zlen (@nil valtype)) with 0; lia).
    reflexivity.
Qed.
End Templates.

(** ** Accepted scripts *)

Section Accepted.
Context `{HashFunctionsOk} `{LowS} `{BaseSignatureChecker}.
Context (CC flags branch : Z).

(** What every instruction of an accepted script satisfies. *)
Definition instr_ok (o : Z * valtype) : Prop :=
  is_disabled o.1 = false /\ zlen o.2 <= MAX_SCRIPT_ELEMENT_SIZE.

(** The operations of a script that count towards the limit. *)
Fixpoint counted (ops : list (Z * valtype)) : Z :=
  match ops with
  | [] => 0
  | o :: ops => op_cost o.1 + counted ops
  end.

Lemma step_op_instr_ok script op data st st' :
  step_op CC flags branch script op data st = Ok st' -> instr_ok (op, data).
Proof.
  unfold step_op; intros E.
  destruct (Z.ltb_spec MAX_SCRIPT_ELEMENT_SIZE (zlen data)); [discriminate |].
  destruct (_ && _); [discriminate |]; destruct (is_disabled op) eqn:Ed; [discriminate |].
  now split.
Qed.

Lemma eval_ops_ok_limits M script ops n0 st st' :
  520 <= M < 2 ^ 31 -> eval_inv M n0 st -> Forall (fun o => bytes o.2) ops ->
  eval_ops CC flags branch script ops st = Ok st' ->
  Forall instr_ok ops /\ n0 + counted ops <= 201.
Proof.
  intros HM; revert n0 st; induction ops as [| [op data] ops IH]; intros n0 st Hst Hb E.
  - destruct Hst as [[_ _ Hc] _]; cbn; split; [constructor | lia].
  - cbn [eval_ops] in E; inv Hb.
    pose proof (step_op_safe M HM CC flags branch n0 script op data st Hst) as Hs.
    destruct (step_op _ _ _ _ _ _ _) as [s1 | |] eqn:E1; cbn [mbind res_bind] in E;
      try discriminate.
    destruct (IH _ _ (Hs ltac:(assumption)) ltac:(assumption) E) as [Ha Hc].
    split; [constructor; eauto using step_op_instr_ok | cbn [counted fst]; lia].
Qed.

Lemma parses_bytes s ops : bytes s -> parses s ops -> Forall (fun o => bytes o.2) ops.
Proof.
  intros Hb Hp; induction Hp as [| pc op data pc' ops E Hp IH]; [constructor |].
  pose proof (GetOp2_bytes pc Hb) as (Hpc & Hd & _); rewrite E in Hpc, Hd; constructor; auto.
Qed.
End Accepted.

(** ** Verification of an input *)

Section Verify.
Context `{HashFunctionsOk} `{LowS} `{BaseSignatureChecker}.
Context (CC flags branch : Z).

(** The outcomes of [VerifyScript]. *)
Definition verify_result_ok {A} (r : res ScriptError A) : Prop :=
  match r with
  | Ok _ => True
  | Err e => reported e
  | Exn _ => False
  end.

Lemma eval_verify_bind {A} M (m : stackM) (f : list valtype -> res ScriptError A) :
  eval_result_ok M m ->
  (forall s, m = Ok s -> Forall (elem_ok M) s -> zlen s <= 1000 -> verify_result_ok (f s)) ->
  verify_result_ok (m ≫= f).
Proof. destruct m as [s | |]; cbn; intros R Hf; auto; apply Hf; tauto. Qed.

Lemma top_is_true_bind {A} s (f : unit -> res ScriptError A) :
  (s <> [] -> verify_result_ok (f tt)) -> verify_result_ok (top_is_true s ≫= f).
Proof.
  intros Hf; destruct s as [| v s]; [cbn; auto |].
  cbn [top_is_true]; destruct (CastToBool v); cbn; [now apply Hf | auto].
Qed.

Lemma EvalCryptoConditionSig_result scriptSig :
  bytes scriptSig -> eval_result_ok 2048 (EvalCryptoConditionSig [] scriptSig).
Proof.
  intros Hb; unfold EvalCryptoConditionSig; pose proof (GetOp2_bytes scriptSig Hb) as (_ & Hv & _).
  destruct (negb (go_ret _)); [cbn; auto |].
  destruct (_ || _); [cbn; auto |]; destruct (negb (_ =? _)); [cbn; auto |].
  destruct (Z.ltb_spec MAX_SCRIPT_CRYPTOCONDITION_FULFILLMENT_SIZE
    (zlen (go_vch (GetOp2 scriptSig)))); [cbn; auto |].
  split; [apply Forall_cons_2; [now split | apply Forall_nil_2] | now vm_compute].
Qed.

(** The stack of the input script. *)
Lemma input_stack_result scriptSig scriptPubKey :
  bytes scriptSig ->
  eval_result_ok 2048
    (if negb (CC =? 0) && IsPayToCryptoCondition scriptPubKey
     then EvalCryptoConditionSig [] scriptSig else EvalScript CC flags branch [] scriptSig).
Proof.
  intros Hb; destruct (_ && _); [now apply EvalCryptoConditionSig_result |].
  apply EvalScript_result; auto; [lia | now vm_compute].
Qed.

Lemma verify_p2sh_result scriptSig s :
  s <> [] -> Forall (elem_ok 2048) s -> zlen s <= 1000 ->
  verify_result_ok (verify_p2sh CC flags branch scriptSig s).
Proof.
  intros Hne Hs Hl; destruct s as [| v s]; [congruence |].
  unfold verify_p2sh; destruct (negb _); [cbn; auto |].
  apply Forall_cons_1 in Hs as [[Hv _] Hs]; rewrite zlen_cons in Hl; cbn [assert_ mbind res_bind popstack].
  change (stacktop (v :: s) 1) with (Ok (E := ScriptError) v); cbn [mbind res_bind].
  eapply eval_verify_bind with (M := 2048).
  - apply EvalScript_result; auto; lia.
  - intros s' _ Hs' Hl'; apply top_is_true_bind; exact (fun _ => I).
Qed.

Lemma VerifyScript_result scriptSig scriptPubKey :
  bytes scriptSig -> bytes scriptPubKey ->
  (has_flag flags SCRIPT_VERIFY_CLEANSTACK = true -> has_flag flags SCRIPT_VERIFY_P2SH = true) ->
  verify_result_ok (VerifyScript CC flags branch scriptSig scriptPubKey).
Proof.
  intros Hb1 Hb2 Hfl; unfold VerifyScript; destruct (_ && _); [cbn; auto |].
  eapply eval_verify_bind; [now apply input_stack_result |]; intros s0 _ Hs0 Hl0.
  eapply eval_verify_bind; [apply (EvalScript_result 2048); auto; lia |].
  intros s1 E1 Hs1 Hl1; apply top_is_true_bind; intros _.
  assert (Hclean : forall s : list valtype, verify_result_ok
    (if has_flag flags SCRIPT_VERIFY_CLEANSTACK then
       _ ← assert_ (has_flag flags SCRIPT_VERIFY_P2SH);
       if negb (zlen s =? 1) then Err SCRIPT_ERR_CLEANSTACK else Ok tt
     else Ok tt)).
  { intros s; destruct (has_flag flags SCRIPT_VERIFY_CLEANSTACK); [| exact I].
    rewrite Hfl by reflexivity; cbn; destruct (negb _); cbn; auto. }
  destruct (has_flag flags SCRIPT_VERIFY_P2SH && _) eqn:Ep; [| apply Hclean].
  apply andb_prop in Ep as [_ Ep]; apply IsPayToScriptHash_iff in Ep as (h & Hh & ->).
  assert (Hne : s0 <> []).
  { intros ->; fold (p2sh_script h) in E1; rewrite EvalScript_p2sh_empty in E1; [discriminate | assumption]. }
  pose proof (verify_p2sh_result scriptSig s0 Hne Hs0 Hl0) as R.
  destruct (verify_p2sh _ _ _ _ _); [apply Hclean | exact R | exact R].
Qed.

(** The tail of [VerifyScript] behind a clean stack. *)
Lemma clean_one (v : valtype) :
  (has_flag flags SCRIPT_VERIFY_CLEANSTACK = true -> has_flag flags SCRIPT_VERIFY_P2SH = true) ->
  (if has_flag flags SCRIPT_VERIFY_CLEANSTACK then
     _ ← assert_ (has_flag flags SCRIPT_VERIFY_P2SH);
     if negb (zlen [v] =? 1) then Err SCRIPT_ERR_CLEANSTACK else Ok tt
   else Ok tt) = Ok tt.
Proof.
  intros Hfl; destruct (has_flag flags SCRIPT_VERIFY_CLEANSTACK); [| reflexivity].
  now rewrite Hfl.
Qed.

Lemma top_is_true_bool b s : top_is_true (vch_of_bool b :: s) =
  if b then Ok tt else Err SCRIPT_ERR_EVAL_FALSE.
Proof. now destruct b. Qed.
End Verify.

(** ** Properties *)

Section Properties.
Context `{HashFunctionsOk} `{LowS} `{BaseSignatureChecker}.
Context (CC flags branch : Z).

(** C1: [EvalScript] always returns: started on a stack of at most 1000 byte
    strings of at most [M] bytes (520 or more), it yields a stack with the same
    bounds or one of the error codes, among which SCRIPT_ERR_SIG_HIGH_S never
    is.  No assertion fails and the instruction loop ends with the script. *)
Theorem EvalScript_total (M : Z) (stack : list valtype) (script : valtype) :
  520 <= M < 2 ^ 31 -> Forall (elem_ok M) stack -> zlen stack <= 1000 -> bytes script ->
  (exists s, EvalScript CC flags branch stack script = Ok s /\
     Forall (elem_ok M) s /\ zlen s <= 1000) \/
  (exists e, EvalScript CC flags branch stack script = Err e /\ e <> SCRIPT_ERR_SIG_HIGH_S).
Proof.
  intros HM Hs Hl Hb.
  pose proof (EvalScript_result M HM CC flags branch stack script Hs Hl Hb) as R.
  destruct (EvalScript _ _ _ _ _) as [s | e | x]; cbn in R; [left; eauto | right | contradiction].
  exists e; split; [reflexivity | apply R].
Qed.

(** The loop of [EvalScript] throws nothing but the script-number error:
    every stack access and every pop is covered by the guard of its case. *)
Theorem eval_loop_only_scriptnum_error (M : Z) (stack : list valtype) (script : valtype) (x : exn) :
  520 <= M < 2 ^ 31 -> Forall (elem_ok M) stack -> zlen stack <= 1000 -> bytes script ->
  eval_loop CC flags branch (length script) script script (mk_state stack [] [] 0) = Exn x ->
  x = scriptnum_error.
Proof.
  intros HM Hs Hl Hb E.
  assert (Hinv : eval_inv M 0 (mk_state stack [] [] 0)).
  { split; [split; cbn; auto; lia |]; cbn; change (zlen (@nil valtype)) with 0; lia. }
  pose proof (eval_loop_safe M HM CC flags branch (length script) script script _
    (le_n _) Hb Hinv) as R.
  now rewrite E in R.
Qed.

(** C6: [EvalScript] succeeds exactly when the script is within the size limit,
    reads completely as a sequence of instructions, and executing these in
    order succeeds with all conditionals closed. *)
Theorem EvalScript_instructions (stack : list valtype) (script : valtype) (s : list valtype) :
  EvalScript CC flags branch stack script = Ok s <->
  zlen script <= MAX_SCRIPT_SIZE /\
  exists ops st, parses script ops /\
    eval_ops CC flags branch script ops (mk_state stack [] [] 0) = Ok st /\
    st_vfExec st = [] /\ st_stack st = s.
Proof. apply EvalScript_ok_iff. Qed.

(** C36: an accepted script is within the size limit, contains no disabled
    opcode and no push above 520 bytes, not even in a branch that is not
    executed, and at most 201 operations beyond the pushes. *)
Theorem EvalScript_ok_limits (stack : list valtype) (script : valtype) (s : list valtype) :
  bytes script -> Forall (elem_ok 2048) stack -> zlen stack <= 1000 ->
  EvalScript CC flags branch stack script = Ok s ->
  zlen script <= MAX_SCRIPT_SIZE /\
  exists ops, parses script ops /\ Forall instr_ok ops /\ counted ops <= 201.
Proof.
  intros Hb Hs Hl E; apply EvalScript_ok_iff in E as [Hsz (ops & st & Hp & Ho & _)].
  split; [assumption |]; exists ops; split; [assumption |].
  apply (eval_ops_ok_limits CC flags branch 2048 script ops 0 (mk_state stack [] [] 0) st);
    eauto using parses_bytes; [lia |].
  split; [split; cbn; auto; lia |]; cbn; change (zlen (@nil valtype)) with 0; lia.
Qed.

(** C34: every stack opcode, from OP_TOALTSTACK to OP_TUCK, and also OP_SIZE and
    OP_EQUAL, has exactly the effect documented beside it on the stack and the
    alternative stack when the interpreter executes it.  A stack that is too short
    for it, and a depth that OP_PICK or OP_ROLL does not find, are reported as an
    invalid stack operation, and an empty alternative stack as an invalid operation
    on that one; a depth that is not a number of up to four bytes throws.  The rest
    of the state is left. *)
Theorem stack_effects (script : valtype) (op : opcodetype) (st : eval_state) :
  OP_TOALTSTACK <= op <= OP_TUCK \/ op = OP_SIZE \/ op = OP_EQUAL -> zlen (st_stack st) < 2 ^ 31 ->
  exists r, stack_outcome flags op (st_stack st) (st_altstack st) = Some r /\
    eval_switch CC flags branch script op true st = on_stacks st r.
Proof.
  intros Hop Hl; destruct (stack_outcome flags op (st_stack st) (st_altstack st)) as [r |] eqn:E.
  - exists r; split; [reflexivity | now apply (stack_outcome_ok CC flags branch script op st r)].
  - exfalso; destruct Hop as [Hop | [-> | ->]]; [| discriminate..].
    destruct op; try discriminate E; cbn in Hop; lia.
Qed.

(** C20: OP_CHECKMULTISIG accepts exactly when the signatures can be assigned in
    order to distinct keys that validate them: trying the keys greedily loses
    no assignment.  The arguments and the extra element leave the stack and the
    keys are added to the operation count. *)
Theorem multisig_accepts_iff_matching (script : valtype) (keys sigs : list valtype)
    (dummy : valtype) (rest : list valtype) (nOp : Z) :
  zlen keys <= 20 -> zlen sigs <= zlen keys -> nOp + zlen keys <= 201 ->
  (has_flag flags SCRIPT_VERIFY_NULLDUMMY = true -> dummy = []) ->
  (forall s k, s ∈ sigs -> k ∈ keys -> check_encodings flags s k = Ok tt) ->
  exists b, (b = true <-> sig_match (sig_ok branch script) sigs keys) /\
    case_CHECKMULTISIG flags branch script false (multisig_args keys sigs dummy rest) nOp =
      Ok (vch_of_bool b :: rest, nOp + zlen keys).
Proof.
  intros Hk Hs Hn Hd Henc; exists (greedy (sig_ok branch script) sigs keys).
  split; [apply greedy_match |].
  rewrite case_CHECKMULTISIG_ok by assumption; reflexivity.
Qed.

(** C18: [VerifyScript] always returns, provided that clean-stack checking is
    only requested together with P2SH: neither of its assertions can fail, in
    particular the stack of a P2SH input is never empty after the hash matched. *)
Theorem VerifyScript_total (scriptSig scriptPubKey : valtype) :
  bytes scriptSig -> bytes scriptPubKey ->
  (has_flag flags SCRIPT_VERIFY_CLEANSTACK = true -> has_flag flags SCRIPT_VERIFY_P2SH = true) ->
  VerifyScript CC flags branch scriptSig scriptPubKey = Ok tt \/
  exists e, VerifyScript CC flags branch scriptSig scriptPubKey = Err e /\
    e <> SCRIPT_ERR_SIG_HIGH_S.
Proof.
  intros Hb1 Hb2 Hfl.
  pose proof (VerifyScript_result CC flags branch scriptSig scriptPubKey Hb1 Hb2 Hfl) as R.
  destruct (VerifyScript _ _ _ _ _) as [[] | e | x]; cbn in R; [auto | right | contradiction].
  exists e; split; [reflexivity | apply R].
Qed.

(** C19: a pay-to-public-key-hash coin is spent exactly by a signature that the
    checker accepts for a public key with the right hash; the other outcomes
    are the errors of the hash comparison, of the encodings and of a false
    result. *)
Theorem p2pkh_verify (sig pk h : valtype) :
  length h = 20%nat ->
  2 <= zlen sig <= MAX_SCRIPT_ELEMENT_SIZE -> 2 <= zlen pk <= MAX_SCRIPT_ELEMENT_SIZE ->
  (has_flag flags SCRIPT_VERIFY_CLEANSTACK = true -> has_flag flags SCRIPT_VERIFY_P2SH = true) ->
  VerifyScript CC flags branch (push_vch (push_vch [] sig) pk) (p2pkh_script h) =
    if bool_decide (Hash160 pk = h) then
      _ ← check_encodings flags sig pk;
      if CheckSig sig pk (p2pkh_script h) branch then Ok tt else Err SCRIPT_ERR_EVAL_FALSE
    else Err SCRIPT_ERR_EQUALVERIFY.
Proof.
  intros Hh Hs Hp Hfl; unfold VerifyScript.
  destruct (EvalScript_two_pushes CC flags branch sig pk Hs Hp) as [Hpo He].
  rewrite Hpo, andb_false_r, p2pkh_not_cc, andb_false_r, He by assumption.
  cbn [mbind res_bind]; rewrite EvalScript_p2pkh by (auto; now vm_compute).
  destruct (bool_decide _); [| reflexivity].
  destruct (check_encodings_cases flags sig pk) as [-> | [e ->]]; [| reflexivity].
  cbn [mbind res_bind]; rewrite top_is_true_bool.
  destruct (CheckSig _ _ _ _); [| reflexivity].
  cbn [mbind res_bind]; rewrite p2pkh_not_p2sh, andb_false_r by assumption.
  apply clean_one; assumption.
Qed.

(** C35: a pay-to-script-hash coin is verified by running the revealed script:
    when the input consists of pushes and leaves [redeem] on top of [st], the
    outcome is the one of [redeem] on [st] if its hash is the committed one,
    and a false result otherwise. *)
Theorem p2sh_verify (scriptSig redeem h : valtype) (st : list valtype) :
  length h = 20%nat -> has_flag flags SCRIPT_VERIFY_P2SH = true ->
  IsPushOnly scriptSig = true ->
  EvalScript CC flags branch [] scriptSig = Ok (redeem :: st) -> zlen st < 999 ->
  VerifyScript CC flags branch scriptSig (p2sh_script h) =
    if bool_decide (Hash160 redeem = h) then
      s ← EvalScript CC flags branch st redeem;
      _ ← top_is_true s;
      if has_flag flags SCRIPT_VERIFY_CLEANSTACK && negb (zlen s =? 1)
      then Err SCRIPT_ERR_CLEANSTACK else Ok tt
    else Err SCRIPT_ERR_EVAL_FALSE.
Proof.
  intros Hh Hfl Hpo He Hl; unfold VerifyScript.
  rewrite Hpo, andb_false_r, p2sh_not_cc, andb_false_r, He by assumption.
  cbn [mbind res_bind]; rewrite EvalScript_p2sh by assumption.
  cbn [mbind res_bind]; rewrite top_is_true_bool.
  destruct (bool_decide _); [| reflexivity]; cbn [mbind res_bind].
  rewrite Hfl; unfold p2sh_script at 1; rewrite (proj2 (IsPayToScriptHash_iff _)) by eauto.
  unfold verify_p2sh; rewrite Hpo; cbn [andb negb assert_ mbind res_bind popstack].
  change (stacktop (redeem :: st) 1) with (Ok (E := ScriptError) redeem); cbn [mbind res_bind].
  destruct (EvalScript CC flags branch st redeem) as [s | |]; cbn [mbind res_bind]; auto.
  destruct (top_is_true s); cbn [mbind res_bind]; auto.
  destruct (has_flag flags SCRIPT_VERIFY_CLEANSTACK); reflexivity.
Qed.

(** A coin the node drops as provably unspendable ([IsUnspendable]) is
    spent by no input script. *)
Theorem unspendable_never_verifies (scriptSig scriptPubKey : valtype) :
  IsUnspendable scriptPubKey = true ->
  VerifyScript CC flags branch scriptSig scriptPubKey <> Ok tt.
Proof.
  intros Hu.
  assert (Hev : forall st, exists e, EvalScript CC flags branch st scriptPubKey = Err e).
  { intros st; unfold IsUnspendable in Hu; unfold EvalScript.
    destruct (MAX_SCRIPT_SIZE <? zlen scriptPubKey) eqn:Esz; [eauto |].
    rewrite orb_false_r in Hu; apply andb_prop in Hu as [_ Hu]; apply Z.eqb_eq in Hu.
    destruct scriptPubKey as [| b s]; [discriminate |].
    change (b = 106) in Hu; subst b; exists SCRIPT_ERR_OP_RETURN; reflexivity. }
  unfold VerifyScript; destruct (_ && _); [discriminate |].
  match goal with |- context [mbind _ ?m] => destruct m as [s0 | |] end; cbn [mbind res_bind]; try discriminate.
  destruct (Hev s0) as [e ->]; discriminate.
Qed.
End Properties.

(** ** Instances *)

(** A checker for examples: a signature fits the key that starts with its
    fifth byte. *)
Definition toy_checker : BaseSignatureChecker := {|
  CheckSig := fun sig key _ _ => at_ sig 4 =? at_ key 0;
  CheckLockTime := fun n => n <? 100;
  CheckCryptoCondition := fun _ _ _ _ => 1;
|}.

Definition toy_lows : LowS := fun _ => true.

(** A signature in the strict encoding whose R is the byte [r]. *)
Definition toy_sig (r : Z) : valtype := [0x30; 6; 2; 1; r; 2; 1; 1; 1].

#[local] Existing Instances toy_hashes toy_hashes_ok toy_lows toy_checker.

Lemma EvalScript_total_witness :
  (exists s, EvalScript 0 0 0 [[7]] [0x76; 0x87] = Ok s /\
     Forall (elem_ok 520) s /\ zlen s <= 1000) \/
  (exists e, EvalScript 0 0 0 [[7]] [0x76; 0x87] = Err e /\ e <> SCRIPT_ERR_SIG_HIGH_S).
Proof.
  apply (EvalScript_total 0 0 0 520 [[7]] [0x76; 0x87]).
  - lia.
  - repeat constructor; unfold zlen; cbn; lia.
  - now vm_compute.
  - repeat constructor; lia.
Defined.

Lemma eval_loop_only_scriptnum_error_witness :
  exists x,
  eval_loop 0 0 0 1 [0x8b] [0x8b] (mk_state [[1; 2; 3; 4; 5]] [] [] 0) = Exn x /\
  x = scriptnum_error.
Proof.
  assert (E : eval_loop 0 0 0 1 [0x8b] [0x8b] (mk_state [[1; 2; 3; 4; 5]] [] [] 0)
    = Exn scriptnum_error) by reflexivity.
  eexists; split; [exact E |].
  apply (eval_loop_only_scriptnum_error 0 0 0 520 [[1; 2; 3; 4; 5]] [0x8b] scriptnum_error).
  - lia.
  - repeat constructor; unfold zlen; cbn; lia.
  - now vm_compute.
  - repeat constructor; lia.
  - exact E.
Defined.

Lemma EvalScript_ok_limits_witness :
  zlen [0x51; 0x76; 0x87] <= MAX_SCRIPT_SIZE /\
  exists ops, parses [0x51; 0x76; 0x87] ops /\ Forall instr_ok ops /\ counted ops <= 201.
Proof.
  apply (EvalScript_ok_limits 0 0 0 [] [0x51; 0x76; 0x87] [[1]]).
  - repeat constructor; lia.
  - constructor.
  - now vm_compute.
  - reflexivity.
Defined.

Lemma stack_effects_witness :
  let st := mk_state [[2]; [7]; [8]; [9]] [[1]] [] 0 in
  exists r, stack_outcome 0 OP_ROLL (st_stack st) (st_altstack st) = Some r /\
    eval_switch 0 0 0 [] OP_ROLL true st = on_stacks st r /\ r = Ok ([[9]; [7]; [8]], [[1]]).
Proof.
  intros st; destruct (stack_effects 0 0 0 [] OP_ROLL st) as (r & E1 & E2); [left; split; discriminate | reflexivity |].
  exists r; split; [exact E1 |]; split; [exact E2 |]; vm_compute in E1; now injection E1 as <-.
Defined.

Lemma multisig_accepts_iff_matching_witness :
  exists b,
    (b = true <->
     sig_match (sig_ok 0 []) [toy_sig 1; toy_sig 2] [[1]; [3]; [2]]) /\
    case_CHECKMULTISIG 0 0 [] false
      (multisig_args [[1]; [3]; [2]] [toy_sig 1; toy_sig 2] [] []) 0 =
      Ok ([vch_of_bool b], 3).
Proof.
  apply (multisig_accepts_iff_matching 0 0 [] [[1]; [3]; [2]] [toy_sig 1; toy_sig 2] [] [] 0).
  - now vm_compute.
  - now vm_compute.
  - now vm_compute.
  - discriminate.
  - intros s k Hs Hk; apply list_elem_of_In in Hs; destruct Hs as [<- | [<- | []]]; reflexivity.
Defined.

Lemma VerifyScript_total_witness :
  VerifyScript 0 1 0 [0x51] [0x51] = Ok tt \/
  exists e, VerifyScript 0 1 0 [0x51] [0x51] = Err e /\ e <> SCRIPT_ERR_SIG_HIGH_S.
Proof.
  apply (VerifyScript_total 0 1 0 [0x51] [0x51]); [repeat constructor; lia .. | discriminate].
Defined.

Lemma p2pkh_verify_witness :
  VerifyScript 0 1 0 (push_vch (push_vch [] (toy_sig 5)) [5; 6])
    (p2pkh_script (Hash160 [5; 6])) = Ok tt.
Proof.
  refine (eq_trans (p2pkh_verify 0 1 0 (toy_sig 5) [5; 6] (Hash160 [5; 6]) eq_refl _ _ _) _).
  - now vm_compute.
  - now vm_compute.
  - discriminate.
  - now vm_compute.
Defined.

Lemma p2sh_verify_witness :
  VerifyScript 0 1 0 [2; 0x51; 0x87] (p2sh_script (Hash160 [0x51; 0x87])) =
    Err SCRIPT_ERR_INVALID_STACK_OPERATION.
Proof.
  refine (eq_trans (p2sh_verify 0 1 0 [2; 0x51; 0x87] [0x51; 0x87] (Hash160 [0x51; 0x87]) []
    eq_refl eq_refl eq_refl eq_refl _) _).
  - now vm_compute.
  - now vm_compute.
Defined.

Lemma unspendable_never_verifies_witness :
  VerifyScript 0 1 0 [0x51] [0x6a; 1; 7] <> Ok tt.
Proof. apply (unspendable_never_verifies 0 1 0 [0x51] [0x6a; 1; 7]); reflexivity. Defined.
