(* ===== verification/ArithUint256.v ===== *)
(** * Fixed-width big integers

    arith_uint256.{h,cpp}: [base_uint<BITS>], an array [pn] of [WIDTH] 32-bit
    limbs, least significant first, and the compact difficulty format of
    [arith_uint256].  An object is the list of its limbs; [WIDTH] is its length.
    The refinement relates every operation on limbs to arithmetic modulo
    [2^(32 * WIDTH)] on the represented value. *)
From S2P Require Import Prelude Endian.

Abbreviation limbs := (list Z).

Definition WIDTH (pn : limbs) : Z := zlen pn.

(** The loop indices [0 .. WIDTH - 1]. *)
Definition indices (n : nat) : list Z := map Z.of_nat (seq 0 n).

(** [pn[i] |= x]. *)
Definition or_limb (pn : limbs) (i x : Z) : limbs :=
  <[Z.to_nat i := Z.lor (at_ pn i) x]> pn.

(** ** Construction *)

Definition zero_like (pn : limbs) : limbs := repeat 0 (length pn).

(** [base_uint(uint64_t)] and the assignment from [uint64_t], for [w] limbs. *)
Definition base_uint_u64 (w : nat) (b : Z) : limbs :=
  u32 b :: u32 (Z.shiftr b 32) :: repeat 0 (w - 2).

(** ** Operators of the header *)

Definition op_not (pn : limbs) : bool := forallb (fun x => x =? 0) pn.

Definition op_compl (pn : limbs) : limbs := map (fun x => u32 (Z.lnot x)) pn.

(** [operator++]: increments limbs until one does not wrap around. *)
Fixpoint op_incr (pn : limbs) : limbs :=
  match pn with
  | [] => []
  | x :: pn => if u32 (x + 1) =? 0 then u32 (x + 1) :: op_incr pn else u32 (x + 1) :: pn
  end.

(** [operator--]. *)
Fixpoint op_decr (pn : limbs) : limbs :=
  match pn with
  | [] => []
  | x :: pn =>
      if u32 (x - 1) =? u32 (-1) then u32 (x - 1) :: op_decr pn else u32 (x - 1) :: pn
  end.

Definition op_neg (pn : limbs) : limbs := op_incr (op_compl pn).

Definition op_xor (pn b : limbs) : limbs := zip_with Z.lxor pn b.
Definition op_and (pn b : limbs) : limbs := zip_with Z.land pn b.
Definition op_or (pn b : limbs) : limbs := zip_with Z.lor pn b.

(** The loop of [operator+=]. *)
Fixpoint add_loop (carry : Z) (pn b : limbs) : limbs :=
  match pn, b with
  | x :: pn, y :: b =>
      let n := u64 (carry + x + y) in
      Z.land n 0xffffffff :: add_loop (Z.shiftr n 32) pn b
  | _, _ => []
  end.

Definition op_add (pn b : limbs) : limbs := add_loop 0 pn b.
Definition op_sub (pn b : limbs) : limbs := op_add pn (op_neg b).
Definition op_add_u64 (pn : limbs) (b64 : Z) : limbs :=
  op_add pn (base_uint_u64 (length pn) b64).
Definition op_sub_u64 (pn : limbs) (b64 : Z) : limbs :=
  op_add pn (op_neg (base_uint_u64 (length pn) b64)).

Definition GetLow64 (pn : limbs) : Z := Z.lor (at_ pn 0) (u64 (Z.shiftl (at_ pn 1) 32)).

(** ** Operators of the source file *)

(** The loop body of [operator<<=], for the copy [a] of the operand. *)
Definition shl_step (a : limbs) (k shift : Z) (pn : limbs) (i : Z) : limbs :=
  let pn :=
    if (i + k + 1 <? WIDTH a) && negb (shift =? 0)
    then or_limb pn (i + k + 1) (Z.shiftr (at_ a i) (32 - shift)) else pn in
  if i + k <? WIDTH a then or_limb pn (i + k) (u32 (Z.shiftl (at_ a i) shift)) else pn.

Definition op_shl (a : limbs) (shift : Z) : limbs :=
  fold_left (shl_step a (shift / 32) (shift mod 32)) (indices (length a)) (zero_like a).

Definition shr_step (a : limbs) (k shift : Z) (pn : limbs) (i : Z) : limbs :=
  let pn :=
    if (0 <=? i - k - 1) && negb (shift =? 0)
    then or_limb pn (i - k - 1) (u32 (Z.shiftl (at_ a i) (32 - shift))) else pn in
  if 0 <=? i - k then or_limb pn (i - k) (Z.shiftr (at_ a i) shift) else pn.

Definition op_shr (a : limbs) (shift : Z) : limbs :=
  fold_left (shr_step a (shift / 32) (shift mod 32)) (indices (length a)) (zero_like a).

(** [operator*=(uint32_t)]. *)
Fixpoint mul32_loop (carry b32 : Z) (pn : limbs) : limbs :=
  match pn with
  | [] => []
  | x :: pn =>
      let n := u64 (carry + b32 * x) in
      Z.land n 0xffffffff :: mul32_loop (Z.shiftr n 32) b32 pn
  end.

Definition op_mul32 (pn : limbs) (b32 : Z) : limbs := mul32_loop 0 b32 pn.

(** The inner loop of [operator*=], on the limbs [pn[j] ..]. *)
Fixpoint mul_row (carry aj : Z) (pn b : limbs) : limbs :=
  match pn, b with
  | x :: pn, y :: b =>
      let n := u64 (carry + x + aj * y) in
      Z.land n 0xffffffff :: mul_row (Z.shiftr n 32) aj pn b
  | _, _ => []
  end.

Definition mul_step (a b pn : limbs) (j : Z) : limbs :=
  take (Z.to_nat j) pn ++ mul_row 0 (at_ a j) (drop (Z.to_nat j) pn) b.

Definition op_mul (a b : limbs) : limbs :=
  fold_left (mul_step a b) (indices (length a)) (zero_like a).

(** [CompareTo]: from the most significant limb down.  The test of the two
    array addresses against 0x1000 is false for objects. *)
Fixpoint compare_loop (x b : list Z) : Z :=
  match x, b with
  | x :: xs, y :: ys => if x <? y then -1 else if y <? x then 1 else compare_loop xs ys
  | _, _ => 0
  end.

Definition CompareTo (pn b : limbs) : Z := compare_loop (rev pn) (rev b).

Definition EqualTo (pn : limbs) (b : Z) : bool :=
  if existsb (fun x => negb (x =? 0)) (drop 2 pn) then false
  else if negb (at_ pn 1 =? Z.shiftr b 32) then false
  else at_ pn 0 =? Z.land b 0xffffffff.

(** The loop over the bits of the topmost nonzero limb. *)
Fixpoint bits_loop (x : Z) (bits : nat) : Z :=
  match bits with
  | O => 1
  | S b' => if negb (Z.land x (Z.shiftl 1 (Z.of_nat bits)) =? 0)
            then Z.of_nat bits + 1 else bits_loop x b'
  end.

(** [bits], over the limbs from the most significant. *)
Fixpoint bits_rev (l : list Z) : Z :=
  match l with
  | [] => 0
  | x :: l => if negb (x =? 0) then 32 * zlen l + bits_loop x 31 else bits_rev l
  end.

Definition bits (pn : limbs) : Z := bits_rev (rev pn).

(** The loop of [operator/=]: quotient and remainder so far, from [shift] down
    to zero. *)
Fixpoint div_loop (shift : nat) (num div q : limbs) : limbs :=
  let '(num, q) :=
    if 0 <=? CompareTo num div
    then (op_sub num div,
          or_limb q (Z.of_nat shift / 32) (Z.shiftl 1 (Z.land (Z.of_nat shift) 31)))
    else (num, q) in
  let div := op_shr div 1 in
  match shift with
  | O => q
  | S shift => div_loop shift num div q
  end.

Definition op_div {E} (a b : limbs) : res E limbs :=
  let num_bits := bits a in
  let div_bits := bits b in
  if div_bits =? 0 then Exn uint_error
  else if num_bits <? div_bits then Ok (zero_like a)
  else
    let shift := num_bits - div_bits in
    Ok (div_loop (Z.to_nat shift) a (op_shl b shift) (zero_like a)).

(** ** The compact format *)

(** [SetCompact]: the number, [*pfNegative] and [*pfOverflow]. *)
Definition SetCompact (nCompact : Z) : limbs * bool * bool :=
  let nSize := Z.shiftr nCompact 24 in
  let nWord := Z.land nCompact 0x007fffff in
  let nWord := if nSize <=? 3 then Z.shiftr nWord (8 * (3 - nSize)) else nWord in
  let this := base_uint_u64 8 nWord in
  let this := if nSize <=? 3 then this else op_shl this (8 * (nSize - 3)) in
  (this,
   negb (nWord =? 0) && negb (Z.land nCompact 0x00800000 =? 0),
   negb (nWord =? 0) && ((34 <? nSize) || ((0xff <? nWord) && (33 <? nSize))
                          || ((0xffff <? nWord) && (32 <? nSize)))).

Definition GetCompact {E} (this : limbs) (fNegative : bool) : res E Z :=
  let nSize := (bits this + 7) / 8 in
  let nCompact :=
    if nSize <=? 3 then u32 (u64 (Z.shiftl (GetLow64 this) (8 * (3 - nSize))))
    else u32 (GetLow64 (op_shr this (8 * (nSize - 3)))) in
  let '(nCompact, nSize) :=
    if negb (Z.land nCompact 0x00800000 =? 0) then (Z.shiftr nCompact 8, nSize + 1)
    else (nCompact, nSize) in
  _ ← assert_ (Z.land nCompact (u32 (Z.lnot 0x007fffff)) =? 0);
  _ ← assert_ (nSize <? 256);
  let nCompact := Z.lor nCompact (u32 (Z.shiftl nSize 24)) in
  Ok (Z.lor nCompact
        (if fNegative && negb (Z.land nCompact 0x007fffff =? 0) then 0x00800000 else 0)).

(** ** Conversion to and from byte blobs *)

Definition ArithToUint256 (a : limbs) : list Z := concat (map WriteLE32 a).

Fixpoint UintToArith (w : nat) (a : list Z) : limbs :=
  match w with
  | O => []
  | S w => ReadLE32 a :: UintToArith w (drop 4 a)
  end.

Definition UintToArith256 (a : list Z) : limbs := UintToArith 8 a.

(** [base_uint<88>] has [88 / 32 = 2] limbs; the rest of the eleven bytes of a
    [blob88] is zero. *)
Definition ArithToUint88 (a : limbs) : list Z := concat (map WriteLE32 a) ++ repeat 0 3.
Definition UintToArith88 (a : list Z) : limbs := UintToArith 2 a.
