(* ===== verification/ArithUint256Spec.v ===== *)
(** * Refinement of the big-integer limbs to arithmetic

    [lval] is the number an array of limbs stands for; every operation of
    [base_uint] computes the corresponding operation on integers modulo
    [2^(32 * WIDTH)], division and shifts included, and the compact format
    keeps the leading 23 bits. *)
From S2P Require Import Prelude Endian ArithUint256.

(** ** The represented number *)

Fixpoint lval (pn : limbs) : Z :=
  match pn with
  | [] => 0
  | x :: pn => x + 2 ^ 32 * lval pn
  end.

Abbreviation wf := (Forall is_u32).

(** The modulus of an array of [n] limbs. *)
Definition modulus (n : nat) : Z := 2 ^ (32 * Z.of_nat n).

Lemma modulus_S n : modulus (S n) = 2 ^ 32 * modulus n.
Proof. unfold modulus; rewrite <- Z.pow_add_r by lia; f_equal; lia. Qed.

Lemma modulus_pos n : 0 < modulus n.
Proof. apply Z.pow_pos_nonneg; lia. Qed.

Lemma modulus_add n m : modulus (n + m) = modulus n * modulus m.
Proof. unfold modulus; rewrite <- Z.pow_add_r by lia; f_equal; lia. Qed.

Lemma modulus_0 : modulus 0 = 1.
Proof. reflexivity. Qed.

Lemma lval_range pn : wf pn -> 0 <= lval pn < modulus (length pn).
Proof.
  induction 1 as [| x pn Hx H IH]; cbn [lval length]; [rewrite modulus_0; lia |].
  rewrite modulus_S; unfold is_u32 in Hx; nia.
Qed.

Lemma lval_range_len pn n : wf pn -> length pn = n -> 0 <= lval pn < modulus n.
Proof. intros H <-; now apply lval_range. Qed.

Lemma lval_app a b : lval (a ++ b) = lval a + modulus (length a) * lval b.
Proof.
  induction a as [| x a IH]; cbn [lval length app]; [rewrite modulus_0; lia |].
  rewrite IH, modulus_S; ring.
Qed.

Lemma lval_inj a b : wf a -> wf b -> length a = length b -> lval a = lval b -> a = b.
Proof.
  intros Ha; revert b; induction Ha as [| x a Hx Ha IH]; intros [| y b] Hb Hl Hv;
    try discriminate; [reflexivity |].
  inv Hb; cbn [lval] in Hv; unfold is_u32 in *.
  assert (x = y /\ lval a = lval b) as [-> Hv'] by lia.
  f_equal; apply IH; auto.
Qed.

Lemma lval_repeat_0 n : lval (repeat 0 n) = 0.
Proof. induction n; cbn [lval repeat]; lia. Qed.

Lemma wf_repeat_0 n : wf (repeat 0 n).
Proof. induction n; cbn; constructor; auto; unfold is_u32; lia. Qed.

Lemma lval_base_uint_u64 w b :
  (2 <= w)%nat -> is_u64 b ->
  lval (base_uint_u64 w b) = b /\ wf (base_uint_u64 w b) /\ length (base_uint_u64 w b) = w.
Proof.
  unfold is_u64; intros Hw Hb; unfold base_uint_u64.
  rewrite Z.shiftr_div_pow2 by lia; cbn [lval length]; rewrite lval_repeat_0, repeat_length.
  assert (0 <= b / 2 ^ 32 < 2 ^ 32).
  { split; [apply Z.div_pos; lia | apply Z.div_lt_upper_bound; lia]. }
  rewrite (uwrap_small 32 (b / _)) by lia.
  split; [| split; [| lia]].
  - unfold uwrap; pose proof (Z.div_mod b (2 ^ 32) ltac:(lia)); lia.
  - repeat apply Forall_cons_2; auto using wf_repeat_0; apply uwrap_range; lia.
Qed.

(** ** Low and high halves of a 64-bit intermediate *)

Lemma low32 n : Z.land n 0xffffffff = n mod 2 ^ 32.
Proof. exact (land_mask_mod n 32 ltac:(lia)). Qed.

Lemma high32 n : Z.shiftr n 32 = n / 2 ^ 32.
Proof. now rewrite Z.shiftr_div_pow2 by lia. Qed.

Lemma is_u32_mod n : is_u32 (n mod 2 ^ 32).
Proof. apply Z.mod_pos_bound; lia. Qed.
#[export] Hint Resolve is_u32_mod wf_repeat_0 : core.

(** ** Sum, complement, negation, difference *)

(** [x = y] up to a multiple of the modulus: the shape in which the loops
    lose their last carry. *)
Lemma mod_of_carry (x y m c : Z) : 0 <= x < m -> x + m * c = y -> x = y mod m.
Proof. intros Hx <-; rewrite Z.mul_comm, Z.mod_add by lia; now rewrite Z.mod_small. Qed.

Lemma add_loop_spec carry pn b :
  wf pn -> wf b -> length pn = length b -> 0 <= carry <= 1 ->
  wf (add_loop carry pn b) /\ length (add_loop carry pn b) = length pn /\
  exists c, 0 <= c <= 1 /\
    lval (add_loop carry pn b) + modulus (length pn) * c = carry + lval pn + lval b.
Proof.
  intros Hp; revert carry b; induction Hp as [| x pn Hx Hp IH]; intros carry [| y b] Hb Hl Hc;
    try discriminate; cbn [add_loop lval length].
  - rewrite modulus_0; split; [constructor | split; [reflexivity |]]; exists carry; lia.
  - inv Hb; unfold is_u32 in *.
    rewrite uwrap_small, low32, high32 by lia.
    pose proof (Z.div_mod (carry + x + y) (2 ^ 32) ltac:(lia)) as Hdm.
    assert (0 <= (carry + x + y) / 2 ^ 32 <= 1).
    { split; [apply Z.div_pos; lia | apply Z.lt_succ_r, Z.div_lt_upper_bound; lia]. }
    destruct (IH ((carry + x + y) / 2 ^ 32) b) as (Hw & Hlen & c & Hcr & Hv); auto.
    split; [constructor; auto; apply is_u32_mod | split; [lia |]].
    exists c; split; [assumption |]; rewrite modulus_S; cbn [lval]; nia.
Qed.

Lemma op_add_spec a b :
  wf a -> wf b -> length a = length b ->
  wf (op_add a b) /\ length (op_add a b) = length a /\
  lval (op_add a b) = (lval a + lval b) mod modulus (length a).
Proof.
  intros Ha Hb Hl; destruct (add_loop_spec 0 a b) as (Hw & Hlen & c & Hc & Hv); auto; [lia |].
  split; [assumption | split; [assumption |]]; unfold op_add in *.
  apply mod_of_carry with c; [| lia].
  rewrite <- Hlen; apply lval_range; assumption.
Qed.

Lemma u32_lnot x : is_u32 x -> u32 (Z.lnot x) = 2 ^ 32 - 1 - x.
Proof.
  unfold is_u32, uwrap; intros Hx; replace (Z.lnot x) with (2 ^ 32 - 1 - x + -1 * 2 ^ 32)
    by (unfold Z.lnot; lia).
  rewrite Z.mod_add by lia; apply Z.mod_small; lia.
Qed.

Lemma op_compl_spec a :
  wf a -> wf (op_compl a) /\ length (op_compl a) = length a /\
  lval (op_compl a) = modulus (length a) - 1 - lval a.
Proof.
  induction 1 as [| x a Hx Ha (IHw & IHl & IHv)]; cbn [op_compl map lval length].
  - rewrite modulus_0; repeat split; auto; lia.
  - fold (op_compl a); rewrite u32_lnot by assumption.
    split; [constructor; auto; unfold is_u32 in *; lia | split; [lia |]].
    rewrite IHv, modulus_S; lia.
Qed.

Lemma op_incr_spec a :
  wf a -> wf (op_incr a) /\ length (op_incr a) = length a /\
  lval (op_incr a) = (lval a + 1) mod modulus (length a).
Proof.
  induction 1 as [| x a Hx Ha (IHw & IHl & IHv)]; cbn [op_incr lval length].
  - rewrite modulus_0, Z.mod_1_r; repeat split; auto.
  - pose proof (lval_range a Ha) as Hr; pose proof (modulus_pos (length a)).
    unfold is_u32 in Hx; rewrite modulus_S.
    destruct (Z.eq_dec x (2 ^ 32 - 1)) as [-> | Hne].
    + replace (u32 (2 ^ 32 - 1 + 1)) with 0 by reflexivity; cbn [Z.eqb lval length].
      split; [constructor; auto; unfold is_u32; lia | split; [lia |]].
      rewrite IHv, Z.add_0_l.
      replace (2 ^ 32 - 1 + 2 ^ 32 * lval a + 1) with (2 ^ 32 * (lval a + 1)) by lia.
      rewrite Z.mul_mod_distr_l by lia; reflexivity.
    + rewrite uwrap_small by lia; rewrite (proj2 (Z.eqb_neq _ _)) by lia; cbn [lval length].
      split; [constructor; auto; unfold is_u32; lia | split; [lia |]].
      rewrite Z.mod_small by nia; lia.
Qed.

Lemma op_neg_spec a :
  wf a -> wf (op_neg a) /\ length (op_neg a) = length a /\
  lval (op_neg a) = (- lval a) mod modulus (length a).
Proof.
  intros Ha; destruct (op_compl_spec a Ha) as (Hw & Hl & Hv).
  destruct (op_incr_spec _ Hw) as (Hw' & Hl' & Hv'); unfold op_neg.
  split; [assumption | split; [congruence |]]; rewrite Hv', Hv, Hl.
  replace (modulus (length a) - 1 - lval a + 1) with (- lval a + 1 * modulus (length a)) by lia.
  apply Z.mod_add; pose proof (modulus_pos (length a)); lia.
Qed.

Lemma op_sub_spec a b :
  wf a -> wf b -> length a = length b ->
  wf (op_sub a b) /\ length (op_sub a b) = length a /\
  lval (op_sub a b) = (lval a - lval b) mod modulus (length a).
Proof.
  intros Ha Hb Hl; destruct (op_neg_spec b Hb) as (Hw & Hl' & Hv).
  destruct (op_add_spec a (op_neg b)) as (Hw2 & Hl2 & Hv2); auto; [congruence |].
  unfold op_sub; split; [assumption | split; [assumption |]].
  rewrite Hv2, Hv, <- Hl, Zplus_mod_idemp_r; reflexivity.
Qed.

Lemma op_decr_spec a :
  wf a -> wf (op_decr a) /\ length (op_decr a) = length a /\
  lval (op_decr a) = (lval a - 1) mod modulus (length a).
Proof.
  induction 1 as [| x a Hx Ha (IHw & IHl & IHv)]; cbn [op_decr lval length].
  - rewrite modulus_0, Z.mod_1_r; repeat split; auto.
  - pose proof (lval_range a Ha) as Hr; pose proof (modulus_pos (length a)).
    unfold is_u32 in Hx; rewrite modulus_S.
    destruct (Z.eq_dec x 0) as [-> | Hne].
    + change (u32 (0 - 1)) with (2 ^ 32 - 1); change (u32 (-1)) with (2 ^ 32 - 1).
      rewrite Z.eqb_refl; cbn [lval length].
      split; [constructor; auto; unfold is_u32; lia | split; [lia |]].
      rewrite IHv; apply mod_of_carry with ((lval a - 1) / modulus (length a)).
      * pose proof (Z.mod_pos_bound (lval a - 1) (modulus (length a)) ltac:(lia)); nia.
      * pose proof (Z.div_mod (lval a - 1) (modulus (length a)) ltac:(lia)); nia.
    + rewrite (uwrap_small 32 (x - 1)) by lia; change (u32 (-1)) with (2 ^ 32 - 1).
      rewrite (proj2 (Z.eqb_neq _ _)) by lia; cbn [lval length].
      split; [constructor; auto; unfold is_u32; lia | split; [lia |]].
      rewrite Z.mod_small by nia; lia.
Qed.

(** ** Products *)

Lemma mul32_loop_spec carry b32 pn :
  wf pn -> is_u32 b32 -> 0 <= carry < 2 ^ 32 ->
  wf (mul32_loop carry b32 pn) /\ length (mul32_loop carry b32 pn) = length pn /\
  exists c, lval (mul32_loop carry b32 pn) + modulus (length pn) * c = carry + b32 * lval pn.
Proof.
  intros Hp Hb; revert carry; induction Hp as [| x pn Hx Hp IH]; intros carry Hc;
    cbn [mul32_loop lval length].
  - rewrite modulus_0; split; [constructor | split; [reflexivity |]]; exists carry; lia.
  - unfold is_u32 in *; assert (0 <= carry + b32 * x < 2 ^ 64) by nia.
    rewrite uwrap_small, low32, high32 by assumption.
    pose proof (Z.div_mod (carry + b32 * x) (2 ^ 32) ltac:(lia)) as Hdm.
    assert (0 <= (carry + b32 * x) / 2 ^ 32 < 2 ^ 32).
    { split; [apply Z.div_pos; lia | apply Z.div_lt_upper_bound; lia]. }
    destruct (IH ((carry + b32 * x) / 2 ^ 32)) as (Hw & Hlen & c & Hv); auto.
    split; [constructor; auto; apply is_u32_mod | split; [lia |]].
    exists c; rewrite modulus_S; nia.
Qed.

Lemma op_mul32_spec a b32 :
  wf a -> is_u32 b32 ->
  wf (op_mul32 a b32) /\ length (op_mul32 a b32) = length a /\
  lval (op_mul32 a b32) = (lval a * b32) mod modulus (length a).
Proof.
  intros Ha Hb; destruct (mul32_loop_spec 0 b32 a) as (Hw & Hlen & c & Hv); auto; [lia |].
  split; [assumption | split; [assumption |]]; unfold op_mul32 in *.
  apply mod_of_carry with c; [now apply lval_range_len | lia].
Qed.

Lemma mul_row_spec carry aj pn b :
  wf pn -> wf b -> is_u32 aj -> (length pn <= length b)%nat -> 0 <= carry < 2 ^ 32 ->
  wf (mul_row carry aj pn b) /\ length (mul_row carry aj pn b) = length pn /\
  exists c, lval (mul_row carry aj pn b) + modulus (length pn) * c
    = carry + lval pn + aj * lval b.
Proof.
  intros Hp Hb Ha; revert carry b Hb; induction Hp as [| x pn Hx Hp IH]; intros carry b Hb Hl Hc.
  - cbn [mul_row lval length]; rewrite modulus_0.
    split; [constructor | split; [reflexivity |]]; exists (carry + aj * lval b); lia.
  - destruct b as [| y b]; [cbn in Hl; lia |]; cbn [mul_row lval length] in *; inv Hb.
    unfold is_u32 in *; assert (0 <= carry + x + aj * y < 2 ^ 64) by nia.
    rewrite uwrap_small, low32, high32 by assumption.
    pose proof (Z.div_mod (carry + x + aj * y) (2 ^ 32) ltac:(lia)) as Hdm.
    assert (0 <= (carry + x + aj * y) / 2 ^ 32 < 2 ^ 32).
    { split; [apply Z.div_pos; lia | apply Z.div_lt_upper_bound; lia]. }
    destruct (IH ((carry + x + aj * y) / 2 ^ 32) b) as (Hw & Hlen & c & Hv); auto; [lia |].
    split; [constructor; auto; apply is_u32_mod | split; [lia |]].
    exists c; rewrite modulus_S; nia.
Qed.

(** Every pass of the outer loop adds one shifted multiple. *)
Lemma mul_step_spec a b pn (j : nat) :
  wf a -> wf b -> wf pn -> length pn = length b -> (j < length pn)%nat ->
  wf (mul_step a b pn (Z.of_nat j)) /\ length (mul_step a b pn (Z.of_nat j)) = length pn /\
  exists c, lval (mul_step a b pn (Z.of_nat j)) + modulus (length pn) * c
    = lval pn + modulus j * at_ a (Z.of_nat j) * lval b.
Proof.
  intros Ha Hb Hp Hl Hj; unfold mul_step; rewrite Nat2Z.id.
  assert (Haj : is_u32 (at_ a (Z.of_nat j))).
  { unfold at_; rewrite Nat2Z.id; destruct (Nat.lt_ge_cases j (length a)).
    - apply (proj1 (Forall_nth _ a) Ha); assumption.
    - rewrite nth_overflow by assumption; unfold is_u32; lia. }
  destruct (mul_row_spec 0 (at_ a (Z.of_nat j)) (drop j pn) b) as (Hw & Hlen & c & Hv);
    auto using Forall_drop; [rewrite length_drop; lia | lia |].
  split; [apply Forall_app; auto using Forall_take | split].
  - rewrite length_app, Hlen, length_take, length_drop; lia.
  - exists c; pose proof (f_equal lval (take_drop j pn)) as Hpn.
    rewrite lval_app, length_take, Nat.min_l in Hpn by lia.
    rewrite lval_app, length_take, Nat.min_l by lia; rewrite length_drop in Hv.
    replace (modulus (length pn)) with (modulus j * modulus (length pn - j))
      by (rewrite <- modulus_add; f_equal; lia).
    rewrite <- Hpn; transitivity (lval (take j pn) + modulus j *
      (lval (mul_row 0 (at_ a (Z.of_nat j)) (drop j pn) b) + modulus (length pn - j) * c));
      [ring | rewrite Hv; ring].
Qed.

(** The first [n] passes of a loop over the limb indices. *)
Lemma fold_indices_S {A} (f : A -> Z -> A) x n :
  fold_left f (indices (S n)) x = f (fold_left f (indices n) x) (Z.of_nat n).
Proof. unfold indices; rewrite seq_S, map_app, fold_left_app; reflexivity. Qed.

Lemma op_mul_prefix a b n :
  wf a -> wf b -> length a = length b -> (n <= length a)%nat ->
  let r := fold_left (mul_step a b) (indices n) (zero_like a) in
  wf r /\ length r = length a /\
  exists c, lval r + modulus (length a) * c = lval (take n a) * lval b.
Proof.
  intros Ha Hb Hl; induction n as [| n IH]; intros Hn r.
  - unfold r, zero_like; change (take 0 a) with (@nil Z); cbn [indices seq map fold_left lval].
    rewrite repeat_length, lval_repeat_0; repeat split; auto; exists 0; lia.
  - unfold r; rewrite fold_indices_S; destruct IH as (Hw & Hlen & c & Hv); [lia |].
    set (r0 := fold_left (mul_step a b) (indices n) (zero_like a)) in *.
    destruct (mul_step_spec a b r0 n) as (Hw' & Hlen' & c' & Hv'); auto; try lia.
    split; [assumption | split; [congruence |]].
    exists (c + c'); rewrite Hlen in Hv'.
    destruct (lookup_lt_is_Some_2 a n ltac:(lia)) as [x Hx].
    rewrite (take_S_r _ _ x Hx), lval_app, length_take, Nat.min_l by lia; cbn [lval].
    assert (Hat : at_ a (Z.of_nat n) = x)
      by (unfold at_; rewrite Nat2Z.id; now apply nth_lookup_Some).
    rewrite Hat in Hv'; nia.
Qed.

Lemma op_mul_spec a b :
  wf a -> wf b -> length a = length b ->
  wf (op_mul a b) /\ length (op_mul a b) = length a /\
  lval (op_mul a b) = (lval a * lval b) mod modulus (length a).
Proof.
  intros Ha Hb Hl; destruct (op_mul_prefix a b (length a) Ha Hb Hl (le_n _)) as (Hw & Hlen & c & Hv).
  unfold op_mul; split; [assumption | split; [assumption |]].
  rewrite take_ge in Hv by lia.
  apply mod_of_carry with c; [now apply lval_range_len | lia].
Qed.

(** ** Comparison and bit length *)

Lemma lval_snoc a x : lval (a ++ [x]) = lval a + modulus (length a) * x.
Proof. rewrite lval_app; cbn [lval]; lia. Qed.

(** The sign of a comparison, as the code encodes it. *)
Definition sign_of (c : comparison) : Z :=
  match c with Lt => -1 | Eq => 0 | Gt => 1 end.

Lemma CompareTo_spec a b :
  wf a -> wf b -> length a = length b -> CompareTo a b = sign_of (lval a ?= lval b).
Proof.
  unfold CompareTo; revert b; induction a as [| x a IH] using rev_ind; intros b Ha Hb Hl.
  - destruct b; [reflexivity | discriminate].
  - destruct b as [| y b _] using rev_ind; [rewrite length_app in Hl; cbn in Hl; lia |].
    rewrite !length_app in Hl; cbn in Hl; assert (Hl' : length a = length b) by lia.
    apply Forall_app in Ha as [Ha Hx], Hb as [Hb Hy]; apply Forall_inv in Hx, Hy.
    rewrite !rev_app_distr; cbn [rev app compare_loop]; rewrite IH by assumption.
    rewrite !lval_snoc, <- Hl'.
    pose proof (lval_range a Ha); pose proof (lval_range b Hb); rewrite <- Hl' in *.
    pose proof (modulus_pos (length a)); unfold is_u32 in *.
    destruct (Z.ltb_spec x y); [| destruct (Z.ltb_spec y x)].
    + rewrite (proj2 (Z.compare_lt_iff _ _)) by nia; reflexivity.
    + rewrite (proj2 (Z.compare_gt_iff _ _)) by nia; reflexivity.
    + replace y with x by lia; now rewrite !(Z.add_comm _ (modulus _ * x)), Z.add_compare_mono_l.
Qed.

Lemma op_not_spec a : wf a -> op_not a = (lval a =? 0).
Proof.
  induction 1 as [| x a Hx Ha IH]; cbn [op_not forallb lval]; [reflexivity |].
  fold (op_not a); rewrite IH; pose proof (lval_range a Ha); unfold is_u32 in Hx.
  zbool; lia || reflexivity.
Qed.

Lemma forallb_existsb_ne0 l : existsb (fun x => negb (x =? 0)) l = negb (op_not l).
Proof. unfold op_not; induction l as [| x l IH]; cbn; [auto |]; rewrite IH; now destruct (x =? 0). Qed.

Lemma EqualTo_spec a b :
  wf a -> (2 <= length a)%nat -> is_u64 b -> EqualTo a b = (lval a =? b).
Proof.
  unfold is_u64; intros Ha Hl Hb; destruct a as [| x [| y a]]; try (cbn in Hl; lia).
  unfold EqualTo; rewrite forallb_existsb_ne0; change (drop 2 (x :: y :: a)) with a.
  change (at_ (x :: y :: a) 0) with x; change (at_ (x :: y :: a) 1) with y.
  inv Ha; inv H2; rewrite op_not_spec, high32, low32 by assumption; cbn [lval].
  pose proof (lval_range a ltac:(assumption)); unfold is_u32 in *.
  pose proof (Z.div_mod b (2 ^ 32) ltac:(lia)).
  pose proof (Z.mod_pos_bound b (2 ^ 32) ltac:(lia)).
  assert (0 <= b / 2 ^ 32 < 2 ^ 32).
  { split; [apply Z.div_pos; lia | apply Z.div_lt_upper_bound; lia]. }
  zbool; cbn; try reflexivity; lia.
Qed.

Lemma bits_loop_spec x n :
  0 < x < 2 ^ Z.of_nat (S n) -> bits_loop x n = Z.log2 x + 1.
Proof.
  induction n as [| n IH]; intros Hx; cbn [bits_loop].
  - change (2 ^ Z.of_nat 1) with 2 in Hx; replace x with 1 by lia; reflexivity.
  - rewrite Z.shiftl_1_l, land_pow2_eqb, negb_involutive by lia.
    destruct (Z.testbit x (Z.of_nat (S n))) eqn:E.
    + rewrite (Z.log2_unique x (Z.of_nat (S n))); [reflexivity | lia |].
      split; [| rewrite Nat2Z.inj_succ in Hx; exact (proj2 Hx)].
      apply Z.nlt_ge; intros Hlt.
      rewrite Z.bits_above_log2 in E; [discriminate | lia |].
      apply Z.log2_lt_pow2; lia.
    + apply IH; split; [lia |]; apply Z.nle_gt; intros Hle.
      assert (Z.log2 x = Z.of_nat (S n)).
      { apply Z.log2_unique; [lia |]; rewrite Nat2Z.inj_succ in Hx; lia. }
      rewrite <- H, Z.bit_log2 in E by lia; discriminate.
Qed.

Lemma log2_snoc lo x k :
  0 <= lo < modulus k -> 0 < x -> Z.log2 (lo + modulus k * x) = 32 * Z.of_nat k + Z.log2 x.
Proof.
  intros Hlo Hx; pose proof (modulus_pos k).
  pose proof (Z.log2_spec x Hx) as [Hl Hu]; pose proof (Z.log2_nonneg x).
  apply Z.log2_unique; [lia |].
  rewrite Z.pow_succ_r, Z.pow_add_r by lia; fold (modulus k).
  rewrite Z.pow_succ_r in Hu by lia; nia.
Qed.

(** [bits] is the position of the highest set bit plus one. *)
Lemma bits_spec a : wf a -> bits a = if lval a =? 0 then 0 else Z.log2 (lval a) + 1.
Proof.
  unfold bits; induction a as [| x a IH] using rev_ind; intros Ha; [reflexivity |].
  apply Forall_app in Ha as [Ha Hx]; apply Forall_inv in Hx; unfold is_u32 in Hx.
  rewrite rev_app_distr; cbn [rev app bits_rev]; rewrite lval_snoc.
  pose proof (lval_range a Ha); pose proof (modulus_pos (length a)).
  destruct (Z.eqb_spec x 0) as [-> | Hne]; cbn [negb].
  - now rewrite IH, Z.mul_0_r, Z.add_0_r by assumption.
  - rewrite (proj2 (Z.eqb_neq _ 0)) by nia.
    rewrite bits_loop_spec, log2_snoc by (lia || assumption).
    unfold zlen; rewrite length_rev; lia.
Qed.

(** ** Shifts *)

Lemma lval_testbit a j q :
  wf a -> 0 <= j -> 0 <= q < 32 -> Z.testbit (lval a) (32 * j + q) = Z.testbit (at_ a j) q.
Proof.
  intros Ha; revert j; induction Ha as [| x a Hx Ha IH]; intros j Hj Hq; cbn [lval].
  - unfold at_; rewrite nth_overflow by (cbn; lia); now rewrite !Z.bits_0.
  - unfold is_u32 in Hx; pose proof (lval_range a Ha).
    destruct (Z.eq_dec j 0) as [-> | Hne].
    + change (at_ (x :: a) 0) with x; rewrite Z.mul_0_r, Z.add_0_l.
      rewrite <- (Z.mod_pow2_bits_low _ 32) by lia.
      rewrite (Z.mul_comm (2 ^ 32)), Z.mod_add, Z.mod_small by lia; reflexivity.
    + replace (at_ (x :: a) j) with (at_ a (j - 1)).
      * rewrite <- IH by lia.
        replace (32 * j + q) with (32 * (j - 1) + q + 32) by lia.
        rewrite <- Z.div_pow2_bits by lia.
        rewrite (Z.mul_comm (2 ^ 32)), Z.div_add, Z.div_small by lia; reflexivity.
      * unfold at_; replace (Z.to_nat j) with (S (Z.to_nat (j - 1))) by lia; reflexivity.
Qed.

(** A number is determined by its limbs. *)
Lemma lval_bits_eq a v :
  wf a -> 0 <= v < modulus (length a) ->
  (forall j q, 0 <= j < zlen a -> 0 <= q < 32 ->
     Z.testbit (at_ a j) q = Z.testbit v (32 * j + q)) ->
  lval a = v.
Proof.
  intros Ha Hv Hbits; apply Z.bits_inj'; intros p Hp.
  assert (exists j q, p = 32 * j + q /\ 0 <= j /\ 0 <= q < 32) as (j & q & -> & Hj & Hq).
  { exists (p / 32), (p mod 32); pose proof (Z.div_mod p 32 ltac:(lia)).
    pose proof (Z.mod_pos_bound p 32 ltac:(lia)); pose proof (Z.div_pos p 32 Hp); lia. }
  rewrite lval_testbit by assumption.
  destruct (Z.lt_ge_cases j (zlen a)); [apply Hbits; lia |].
  unfold at_; rewrite nth_overflow by (unfold zlen in *; lia); rewrite Z.bits_0; symmetry.
  destruct (Z.eq_dec v 0) as [-> | ]; [apply Z.bits_0 |].
  apply Z.bits_above_log2; [lia |]; apply Z.log2_lt_pow2; [lia |].
  eapply Z.lt_le_trans; [apply Hv |]; apply Z.pow_le_mono_r; unfold zlen in *; lia.
Qed.

Lemma length_or_limb pn i x : length (or_limb pn i x) = length pn.
Proof. apply length_insert. Qed.

(** A guarded update of one limb. *)
Lemma at_or_if (c : bool) pn i j x :
  (c = true -> 0 <= i < zlen pn) -> 0 <= j ->
  at_ (if c then or_limb pn i x else pn) j =
    if c && (j =? i) then Z.lor (at_ pn j) x else at_ pn j.
Proof.
  destruct c; [| reflexivity]; intros Hi Hj; specialize (Hi eq_refl).
  unfold or_limb, at_, zlen in *; cbn [andb].
  destruct (Z.eqb_spec j i) as [-> | Hne].
  - apply nth_lookup_Some; rewrite list_lookup_insert_eq by lia; reflexivity.
  - rewrite !nth_lookup, list_lookup_insert_ne by lia; reflexivity.
Qed.

Lemma zlen_or_if (c : bool) pn i x : zlen (if c then or_limb pn i x else pn) = zlen pn.
Proof. destruct c; [| reflexivity]; unfold zlen; now rewrite length_or_limb. Qed.

Lemma at_zero_like a j : at_ (zero_like a) j = 0.
Proof. apply nth_repeat. Qed.

(** Decides the guards of a limb formula. *)
Ltac guards :=
  repeat match goal with
  | |- context [?a <? ?b] =>
      first [rewrite (proj2 (Z.ltb_lt a b)) by lia | rewrite (proj2 (Z.ltb_ge a b)) by lia]
  | |- context [?a <=? ?b] =>
      first [rewrite (proj2 (Z.leb_le a b)) by lia | rewrite (proj2 (Z.leb_gt a b)) by lia]
  end; cbn [andb negb].

(** The limbs after the first [n] passes of [operator<<=]. *)
Lemma shl_prefix a k s n :
  0 <= k -> 0 <= s < 32 -> (n <= length a)%nat ->
  let r := fold_left (shl_step a k s) (indices n) (zero_like a) in
  zlen r = zlen a /\
  forall j, 0 <= j < zlen a ->
    at_ r j =
      Z.lor (if (k <=? j) && (j <? Z.of_nat n + k)
             then u32 (Z.shiftl (at_ a (j - k)) s) else 0)
            (if (k + 1 <=? j) && (j <? Z.of_nat n + k + 1) && negb (s =? 0)
             then Z.shiftr (at_ a (j - k - 1)) (32 - s) else 0).
Proof.
  intros Hk Hs; induction n as [| n IH]; intros Hn r.
  - unfold r; cbn [indices seq map fold_left]; split; [unfold zlen, zero_like; now rewrite repeat_length |].
    intros j Hj; rewrite at_zero_like.
    destruct (Z.le_gt_cases k j); guards; [| reflexivity].
    destruct (Z.le_gt_cases (k + 1) j); guards; reflexivity.
  - unfold r; rewrite fold_indices_S; destruct IH as [Hlen Hat]; [lia |].
    clear r; set (r0 := fold_left (shl_step a k s) (indices n) (zero_like a)) in *.
    clearbody r0; unfold shl_step, WIDTH.
    split; [rewrite !zlen_or_if; assumption |]; intros j Hj.
    rewrite at_or_if by (rewrite ?zlen_or_if, ?Z.ltb_lt; lia).
    rewrite at_or_if by (rewrite ?andb_true_iff, ?Z.ltb_lt; lia).
    rewrite Hat by lia.
    destruct (Z.eqb_spec s 0); cbn [negb]; rewrite ?andb_false_r, ?andb_true_r; cbn [andb].
    all: destruct (Z.eqb_spec j (Z.of_nat n + k + 1)) as [Ej1 |],
                  (Z.eqb_spec j (Z.of_nat n + k)) as [Ej |]; try lia.
    all: destruct (Z.lt_ge_cases j (Z.of_nat n + k)), (Z.le_gt_cases k j),
      (Z.le_gt_cases (k + 1) j), (Z.lt_ge_cases (Z.of_nat n + k) (zlen a)),
      (Z.lt_ge_cases (Z.of_nat n + k + 1) (zlen a)); try lia; guards.
    all: try (rewrite Ej1; replace (Z.of_nat n + k + 1 - k - 1) with (Z.of_nat n) by lia).
    all: try (rewrite Ej; replace (Z.of_nat n + k - k) with (Z.of_nat n) by lia).
    all: rewrite ?Z.lor_0_l, ?Z.lor_0_r; auto using Z.lor_comm.
Qed.

(** The bits of a limb of the result. *)
Lemma u32_testbit x q : 0 <= q < 32 -> Z.testbit (u32 x) q = Z.testbit x q.
Proof. intros; apply Z.mod_pow2_bits_low; lia. Qed.

Lemma is_u32_testbit_high x q : is_u32 x -> 32 <= q -> Z.testbit x q = false.
Proof.
  unfold is_u32; intros Hx Hq; rewrite <- (Z.mod_small x (2 ^ 32)) by lia.
  apply Z.mod_pow2_bits_high; lia.
Qed.

Lemma is_u32_at a j : wf a -> is_u32 (at_ a j).
Proof.
  intros Ha; unfold at_; destruct (Nat.lt_ge_cases (Z.to_nat j) (length a)).
  - apply (proj1 (Forall_nth _ a) Ha); assumption.
  - rewrite nth_overflow by assumption; unfold is_u32; lia.
Qed.

Lemma is_u32_bits x : (forall q, 32 <= q -> Z.testbit x q = false) -> 0 <= x -> is_u32 x.
Proof.
  intros Hb Hx; split; [assumption |]; destruct (Z.eq_dec x 0) as [-> |]; [lia |].
  apply Z.log2_lt_pow2; [lia |]; apply Z.nle_gt; intros Hge.
  specialize (Hb _ Hge); rewrite Z.bit_log2 in Hb by lia; discriminate.
Qed.

Lemma is_u32_lor x y : is_u32 x -> is_u32 y -> is_u32 (Z.lor x y).
Proof.
  intros Hx Hy; apply is_u32_bits; [| apply Z.lor_nonneg; unfold is_u32 in *; lia].
  intros q Hq; now rewrite Z.lor_spec, !is_u32_testbit_high.
Qed.

Lemma is_u32_shiftr x n : is_u32 x -> 0 <= n -> is_u32 (Z.shiftr x n).
Proof.
  intros Hx Hn; apply is_u32_bits; [| apply Z.shiftr_nonneg; apply Hx].
  intros q Hq; rewrite Z.shiftr_spec by lia; apply is_u32_testbit_high; auto; lia.
Qed.

Lemma wf_at a : (forall j, 0 <= j < zlen a -> is_u32 (at_ a j)) -> wf a.
Proof.
  intros H; apply Forall_nth; intros i d Hi; rewrite (nth_indep a d 0) by assumption.
  specialize (H (Z.of_nat i)); unfold at_ in H; rewrite Nat2Z.id in H; apply H.
  unfold zlen; lia.
Qed.

(** The bits of a limb of a left shift are those of the number. *)
Lemma shl_limb_bits a j k s q :
  wf a -> 0 <= j -> 0 <= k -> 0 <= s < 32 -> 0 <= q < 32 ->
  Z.testbit (Z.lor (if k <=? j then u32 (Z.shiftl (at_ a (j - k)) s) else 0)
                   (if (k + 1 <=? j) && negb (s =? 0)
                    then Z.shiftr (at_ a (j - k - 1)) (32 - s) else 0)) q
  = Z.testbit (lval a) (32 * j + q - (32 * k + s)).
Proof.
  intros Ha Hj Hk Hs Hq; rewrite Z.lor_spec; destruct (Z.le_gt_cases s q).
  - replace (32 * j + q - (32 * k + s)) with (32 * (j - k) + (q - s)) by lia.
    replace (Z.testbit (if _ && _ then _ else _) q) with false.
    + rewrite orb_false_r; destruct (Z.leb_spec k j).
      * rewrite u32_testbit, Z.shiftl_spec, lval_testbit by (lia || assumption); reflexivity.
      * rewrite Z.bits_0, Z.testbit_neg_r by lia; reflexivity.
    + case_goal; [| now rewrite Z.bits_0].
      rewrite Z.shiftr_spec by lia; symmetry; apply is_u32_testbit_high; [now apply is_u32_at | lia].
  - replace (32 * j + q - (32 * k + s)) with (32 * (j - k - 1) + (q + (32 - s))) by lia.
    replace (Z.testbit (if _ <=? _ then _ else _) q) with false.
    + rewrite (proj2 (Z.eqb_neq s 0)), andb_true_r by lia; cbn [orb].
      destruct (Z.leb_spec (k + 1) j).
      * rewrite Z.shiftr_spec, lval_testbit by (lia || assumption); reflexivity.
      * rewrite Z.bits_0, Z.testbit_neg_r by lia; reflexivity.
    + case_goal; [| now rewrite Z.bits_0].
      rewrite u32_testbit, Z.shiftl_spec_low by lia; reflexivity.
Qed.

Lemma op_shl_spec a shift :
  wf a -> 0 <= shift ->
  wf (op_shl a shift) /\ length (op_shl a shift) = length a /\
  lval (op_shl a shift) = (lval a * 2 ^ shift) mod modulus (length a).
Proof.
  intros Ha Hsh; pose proof (Z.div_mod shift 32 ltac:(lia)) as Hdm.
  pose proof (Z.mod_pos_bound shift 32 ltac:(lia)) as Hs.
  pose proof (Z.div_pos shift 32 Hsh ltac:(lia)) as Hk.
  unfold op_shl; set (k := shift / 32) in *; set (s := shift mod 32) in *.
  destruct (shl_prefix a k s (length a) Hk Hs (le_n _)) as [Hlen Hat].
  set (r := fold_left _ _ _) in *; clearbody r.
  assert (Hl : length r = length a) by (unfold zlen in Hlen; lia).
  assert (Hr : wf r).
  { apply wf_at; rewrite Hlen; intros j Hj; rewrite Hat by assumption.
    apply is_u32_lor; case_goal; try (unfold is_u32; lia).
    - apply uwrap_range; lia.
    - apply is_u32_shiftr; [now apply is_u32_at | lia]. }
  split; [assumption | split; [assumption |]].
  apply lval_bits_eq; [assumption | rewrite Hl; apply Z.mod_pos_bound, modulus_pos |].
  rewrite Hlen; intros j q Hj Hq; rewrite Hat by assumption; unfold zlen in Hj.
  rewrite (proj2 (Z.ltb_lt j (Z.of_nat (length a) + k))) by lia.
  rewrite (proj2 (Z.ltb_lt j (Z.of_nat (length a) + k + 1))), !andb_true_r by lia.
  rewrite shl_limb_bits, <- Hdm by (lia || assumption).
  rewrite <- Z.shiftl_mul_pow2 by lia; unfold modulus.
  now rewrite Z.mod_pow2_bits_low, Z.shiftl_spec by lia.
Qed.

(** The limbs after the first [n] passes of [operator>>=]. *)
Lemma shr_prefix a k s n :
  0 <= k -> 0 <= s < 32 -> (n <= length a)%nat ->
  let r := fold_left (shr_step a k s) (indices n) (zero_like a) in
  zlen r = zlen a /\
  forall j, 0 <= j < zlen a ->
    at_ r j =
      Z.lor (if j + k <? Z.of_nat n then Z.shiftr (at_ a (j + k)) s else 0)
            (if (j + k + 1 <? Z.of_nat n) && negb (s =? 0)
             then u32 (Z.shiftl (at_ a (j + k + 1)) (32 - s)) else 0).
Proof.
  intros Hk Hs; induction n as [| n IH]; intros Hn r.
  - unfold r; cbn [indices seq map fold_left].
    split; [unfold zlen, zero_like; now rewrite repeat_length |].
    intros j Hj; rewrite at_zero_like; guards; reflexivity.
  - unfold r; rewrite fold_indices_S; destruct IH as [Hlen Hat]; [lia |].
    clear r; set (r0 := fold_left (shr_step a k s) (indices n) (zero_like a)) in *.
    clearbody r0; unfold shr_step.
    split; [rewrite !zlen_or_if; assumption |]; intros j Hj.
    assert (Hna : Z.of_nat n < zlen a) by (unfold zlen; lia).
    rewrite at_or_if by (rewrite ?zlen_or_if, ?Z.leb_le; lia).
    rewrite at_or_if by (rewrite ?andb_true_iff, ?Z.leb_le; lia).
    rewrite Hat by lia.
    destruct (Z.eqb_spec s 0); cbn [negb]; rewrite ?andb_false_r, ?andb_true_r; cbn [andb].
    all: destruct (Z.eqb_spec j (Z.of_nat n - k - 1)) as [Ej1 |],
                  (Z.eqb_spec j (Z.of_nat n - k)) as [Ej |]; try lia.
    all: rewrite ?andb_false_r, ?andb_true_r.
    all: destruct (Z.lt_ge_cases (j + k) (Z.of_nat n)),
      (Z.lt_ge_cases (j + k + 1) (Z.of_nat n)); try lia; guards.
    all: try (rewrite Ej1; replace (Z.of_nat n - k - 1 + k + 1) with (Z.of_nat n) by lia).
    all: try (rewrite Ej; replace (Z.of_nat n - k + k) with (Z.of_nat n) by lia).
    all: rewrite ?Z.lor_0_l, ?Z.lor_0_r; auto using Z.lor_comm.
Qed.

Lemma at_beyond a j : zlen a <= j -> at_ a j = 0.
Proof. intros Hj; apply nth_overflow; unfold zlen in Hj; lia. Qed.

(** The bits of a limb of a right shift are those of the number. *)
Lemma shr_limb_bits a j k s q :
  wf a -> 0 <= j -> 0 <= k -> 0 <= s < 32 -> 0 <= q < 32 ->
  Z.testbit (Z.lor (Z.shiftr (at_ a (j + k)) s)
                   (if negb (s =? 0) then u32 (Z.shiftl (at_ a (j + k + 1)) (32 - s)) else 0)) q
  = Z.testbit (lval a) (32 * j + q + (32 * k + s)).
Proof.
  intros Ha Hj Hk Hs Hq; rewrite Z.lor_spec, Z.shiftr_spec by lia.
  destruct (Z.lt_ge_cases (q + s) 32).
  - replace (32 * j + q + (32 * k + s)) with (32 * (j + k) + (q + s)) by lia.
    rewrite lval_testbit by (lia || assumption).
    replace (Z.testbit (if negb _ then _ else _) q) with false; [apply orb_false_r |].
    case_goal; [| now rewrite Z.bits_0].
    rewrite u32_testbit, Z.shiftl_spec_low by lia; reflexivity.
  - replace (32 * j + q + (32 * k + s)) with (32 * (j + k + 1) + (q + s - 32)) by lia.
    rewrite lval_testbit by (lia || assumption).
    rewrite is_u32_testbit_high by (auto using is_u32_at; lia).
    rewrite (proj2 (Z.eqb_neq s 0)) by lia; cbn [negb orb].
    rewrite u32_testbit, Z.shiftl_spec by lia; f_equal; lia.
Qed.

Lemma op_shr_spec a shift :
  wf a -> 0 <= shift ->
  wf (op_shr a shift) /\ length (op_shr a shift) = length a /\
  lval (op_shr a shift) = lval a / 2 ^ shift.
Proof.
  intros Ha Hsh; pose proof (Z.div_mod shift 32 ltac:(lia)) as Hdm.
  pose proof (Z.mod_pos_bound shift 32 ltac:(lia)) as Hs.
  pose proof (Z.div_pos shift 32 Hsh ltac:(lia)) as Hk.
  unfold op_shr; set (k := shift / 32) in *; set (s := shift mod 32) in *.
  destruct (shr_prefix a k s (length a) Hk Hs (le_n _)) as [Hlen Hat].
  set (r := fold_left _ _ _) in *; clearbody r.
  assert (Hl : length r = length a) by (unfold zlen in Hlen; lia).
  assert (Hr : wf r).
  { apply wf_at; rewrite Hlen; intros j Hj; rewrite Hat by assumption.
    apply is_u32_lor; case_goal; try (unfold is_u32; lia).
    - apply is_u32_shiftr; [now apply is_u32_at | lia].
    - apply uwrap_range; lia. }
  split; [assumption | split; [assumption |]].
  pose proof (lval_range a Ha) as Hva; pose proof (Z.pow_pos_nonneg 2 shift).
  apply lval_bits_eq; [assumption | |].
  { rewrite Hl; split; [apply Z.div_pos; lia |].
    eapply Z.le_lt_trans; [apply Z.div_le_upper_bound with (q := lval a) |]; nia. }
  rewrite Hlen; intros j q Hj Hq; rewrite Hat by assumption.
  rewrite Z.div_pow2_bits, Hdm, <- shr_limb_bits by (lia || assumption); f_equal.
  fold (zlen a); f_equal.
  - destruct (Z.ltb_spec (j + k) (zlen a)); [reflexivity |].
    rewrite at_beyond, Z.shiftr_0_l by assumption; reflexivity.
  - destruct (Z.ltb_spec (j + k + 1) (zlen a)); [reflexivity |].
    rewrite at_beyond, Z.shiftl_0_l by assumption; now destruct (negb _).
Qed.

(** ** Division *)

Lemma wf_or_limb pn i x : wf pn -> is_u32 x -> wf (or_limb pn i x).
Proof. intros H Hx; apply Forall_insert; auto using is_u32_lor, is_u32_at. Qed.

(** Setting a bit of the quotient below those already set. *)
Lemma set_bit_spec q (shift : nat) h :
  wf q -> Z.of_nat shift < 32 * zlen q -> lval q = h * 2 ^ (Z.of_nat shift + 1) ->
  let q' := or_limb q (Z.of_nat shift / 32) (Z.shiftl 1 (Z.land (Z.of_nat shift) 31)) in
  wf q' /\ length q' = length q /\ lval q' = lval q + 2 ^ Z.of_nat shift.
Proof.
  intros Hq Hs Hh q'; change 31 with (2 ^ 5 - 1) in q'; subst q'.
  rewrite land_mask_mod by lia; change (2 ^ 5) with 32.
  pose proof (Z.div_mod (Z.of_nat shift) 32 ltac:(lia)) as Hdm.
  pose proof (Z.mod_pos_bound (Z.of_nat shift) 32 ltac:(lia)) as Hm.
  pose proof (Z.div_pos (Z.of_nat shift) 32 ltac:(lia) ltac:(lia)) as Hk.
  set (k := Z.of_nat shift / 32) in *; set (s := Z.of_nat shift mod 32) in *.
  assert (Hu : is_u32 (Z.shiftl 1 s)).
  { rewrite Z.shiftl_1_l; split; [apply Z.pow_nonneg; lia | apply Z.pow_lt_mono_r; lia]. }
  pose proof (wf_or_limb q k _ Hq Hu) as Hw.
  split; [assumption | split; [apply length_or_limb |]].
  pose proof (lval_range q Hq) as Hr.
  assert (Hlor : lval q + 2 ^ Z.of_nat shift = Z.lor (2 ^ Z.of_nat shift) (lval q)).
  { assert (2 ^ Z.of_nat shift < 2 ^ (Z.of_nat shift + 1)) by (apply Z.pow_lt_mono_r; lia).
    assert (0 < 2 ^ Z.of_nat shift) by (apply Z.pow_pos_nonneg; lia).
    rewrite Hh at 2; rewrite <- Z.shiftl_mul_pow2, lor_shiftl_add by lia; lia. }
  apply lval_bits_eq; [assumption | rewrite length_or_limb |].
  - split; [pose proof (Z.pow_nonneg 2 (Z.of_nat shift)); lia |].
    unfold modulus in *; set (m := 32 * Z.of_nat (length q)) in *.
    assert (Hm2 : 2 ^ m = 2 ^ (m - Z.of_nat shift - 1) * 2 ^ (Z.of_nat shift + 1)).
    { rewrite <- Z.pow_add_r by (unfold zlen in Hs; lia); f_equal; lia. }
    assert (2 ^ (Z.of_nat shift + 1) = 2 * 2 ^ Z.of_nat shift)
      by (rewrite Z.add_1_r, Z.pow_succ_r; lia).
    assert (0 < 2 ^ Z.of_nat shift) by (apply Z.pow_pos_nonneg; lia).
    rewrite Hh, Hm2 in *; assert (h < 2 ^ (m - Z.of_nat shift - 1)) by nia; nia.
  - intros j p Hj Hp; rewrite Hlor, Z.lor_spec, lval_testbit by (lia || assumption).
    unfold zlen in Hj; rewrite length_or_limb in Hj; fold (zlen q) in Hj.
    rewrite (at_or_if true) by (intros; lia); cbn [andb].
    rewrite Z.pow2_bits_eqb by lia.
    destruct (Z.eqb_spec j k) as [-> | Hne].
    + rewrite Z.lor_spec, Z.shiftl_1_l, Z.pow2_bits_eqb, orb_comm by lia; f_equal.
      destruct (Z.eqb_spec s p), (Z.eqb_spec (Z.of_nat shift) (32 * k + p)); lia || reflexivity.
    + rewrite (proj2 (Z.eqb_neq _ _)) by lia; reflexivity.
Qed.

Lemma CompareTo_ge a b :
  wf a -> wf b -> length a = length b -> (0 <=? CompareTo a b) = (lval b <=? lval a).
Proof.
  intros Ha Hb Hl; rewrite CompareTo_spec by assumption.
  destruct (Z.compare_spec (lval a) (lval b)); cbn; zbool; lia || reflexivity.
Qed.

Lemma div_loop_spec shift num div q D N h :
  wf num -> wf div -> wf q -> length div = length num -> length q = length num ->
  0 < D -> Z.of_nat shift < 32 * zlen q ->
  lval div = D * 2 ^ Z.of_nat shift -> lval num < 2 * lval div ->
  lval q = h * 2 ^ (Z.of_nat shift + 1) -> N = lval q * D + lval num ->
  wf (div_loop shift num div q) /\ length (div_loop shift num div q) = length num /\
  lval (div_loop shift num div q) = N / D.
Proof.
  revert num div q h; induction shift as [| shift IH];
    intros num div q h Hn Hd Hq Ldn Lqn HD Hsh Vd Vn Vq VN; cbn [div_loop].
  all: rewrite CompareTo_ge by congruence || assumption.
  all: pose proof (lval_range num Hn) as Rn.
  all: match goal with
    | Hs : Z.of_nat ?n < _ |- _ => destruct (set_bit_spec q n h Hq Hs Vq) as (Wq & Lq & Vq')
    end.
  all: match goal with
    | |- context [or_limb ?q0 ?i ?x] => set (q' := or_limb q0 i x) in *; clearbody q'
    end.
  all: destruct (op_sub_spec num div Hn Hd) as (Ws & Ls & Vs); [congruence |].
  - change (2 ^ Z.of_nat 0) with 1 in *; destruct (Z.leb_spec (lval div) (lval num)) as [Hge | Hlt].
    + rewrite Z.mod_small in Vs by lia.
      split; [assumption | split; [congruence |]]; rewrite Vq'.
      apply Z.div_unique with (lval num - D); lia.
    + split; [assumption | split; [assumption |]]; apply Z.div_unique with (lval num); lia.
  - destruct (op_shr_spec div 1 Hd ltac:(lia)) as (Wr & Lr & Vr).
    rewrite Vd, Nat2Z.inj_succ, Z.pow_succ_r in Vr by lia; change (2 ^ 1) with 2 in Vr.
    replace (D * (2 * 2 ^ Z.of_nat shift)) with (D * 2 ^ Z.of_nat shift * 2) in Vr by ring.
    rewrite Z.div_mul in Vr by lia.
    rewrite Nat2Z.inj_succ, Z.pow_succ_r in Vd, Vq' by lia.
    rewrite Nat2Z.inj_succ, <- Z.add_1_r in Hsh, Vq.
    rewrite !Z.pow_add_r in Vq by lia; change (2 ^ 1) with 2 in Vq.
    destruct (Z.leb_spec (lval div) (lval num)) as [Hge | Hlt].
    + rewrite Z.mod_small in Vs by lia; rewrite <- Ls.
      apply IH with (h := 2 * h + 1); auto; try congruence; try lia.
      * unfold zlen; rewrite Lq; fold (zlen q); lia.
      * rewrite Z.pow_add_r by lia; change (2 ^ 1) with 2; rewrite Vq', Vq; ring.
    + apply IH with (h := 2 * h); auto; try congruence; try lia.
      rewrite Z.pow_add_r by lia; change (2 ^ 1) with 2; rewrite Vq; ring.
Qed.

(** The quotient; a zero divisor is the exception the code throws. *)
Lemma op_div_spec {E} a b :
  wf a -> wf b -> length a = length b ->
  if lval b =? 0 then op_div (E := E) a b = Exn uint_error
  else exists q, op_div (E := E) a b = Ok q /\ wf q /\ length q = length a /\
    lval q = lval a / lval b.
Proof.
  intros Ha Hb Hl; pose proof (lval_range a Ha) as Ra; pose proof (lval_range b Hb) as Rb.
  unfold op_div; rewrite !bits_spec by assumption.
  destruct (Z.eqb_spec (lval b) 0) as [| Hb0]; [reflexivity |].
  pose proof (Z.log2_nonneg (lval b)); pose proof (Z.log2_spec (lval b) ltac:(lia)) as Lb.
  rewrite (proj2 (Z.eqb_neq _ _)) by lia.
  assert (Hz : wf (zero_like a) /\ length (zero_like a) = length a /\ lval (zero_like a) = 0).
  { unfold zero_like; rewrite repeat_length, lval_repeat_0; auto. }
  destruct Hz as (Wz & Lz & Vz).
  destruct (Z.eqb_spec (lval a) 0) as [Ea | Ha0].
  { rewrite (proj2 (Z.ltb_lt _ _)) by lia; exists (zero_like a); repeat split; auto.
    now rewrite Vz, Ea, Z.div_0_l. }
  pose proof (Z.log2_spec (lval a) ltac:(lia)) as La; pose proof (Z.log2_nonneg (lval a)).
  destruct (Z.ltb_spec (Z.log2 (lval a) + 1) (Z.log2 (lval b) + 1)) as [Hlt | Hge].
  { exists (zero_like a); repeat split; auto; rewrite Vz, Z.div_small; auto; split; [lia |].
    apply Z.nle_gt; intros Hle; apply Z.log2_le_mono in Hle; lia. }
  set (sh := Z.log2 (lval a) + 1 - (Z.log2 (lval b) + 1)).
  destruct (op_shl_spec b sh Hb ltac:(lia)) as (Wd & Ld & Vd).
  assert (Hpow : 2 ^ Z.log2 (lval a) = 2 ^ Z.log2 (lval b) * 2 ^ sh)
    by (rewrite <- Z.pow_add_r by lia; f_equal; lia).
  rewrite !Z.pow_succ_r in * by lia.
  assert (0 < 2 ^ sh) by (apply Z.pow_pos_nonneg; lia).
  assert (Hbits : Z.log2 (lval a) < 32 * zlen a).
  { apply Z.log2_lt_pow2; [lia | exact (proj2 Ra)]. }
  rewrite Z.mod_small in Vd.
  2: { split; [nia |]; rewrite <- Hl; unfold modulus.
       apply Z.lt_le_trans with (2 * 2 ^ Z.log2 (lval a)); [nia |].
       rewrite <- Z.pow_succ_r by lia; apply Z.pow_le_mono_r; unfold zlen in Hbits; lia. }
  eexists; split; [reflexivity |].
  apply div_loop_spec with (h := 0); auto; try congruence; try lia.
  - unfold zlen; rewrite Lz; fold (zlen a); lia.
  - rewrite Z2Nat.id by lia; assumption.
  - rewrite Vd; nia.
Qed.
