(* ===== verification/Compact.v ===== *)
(** * The compact difficulty format

    [SetCompact] and [GetCompact] of arith_uint256.cpp against the numbers they
    denote: what a compact word stands for, when it overflows, and how much of a
    number survives the 23-bit mantissa. *)
From S2P Require Import Prelude Endian ArithUint256 ArithUint256Spec.

(** ** The number of a compact word *)

(** Mantissa [m] at exponent [s]: [m * 256^(s - 3)], rounded down. *)
Definition compact_val (s m : Z) : Z :=
  if s <=? 3 then m / 256 ^ (3 - s) else m * 256 ^ (s - 3).

(** [m] at exponent [s] is a normalised approximation of [v] from below. *)
Definition compact_rep (v s m : Z) : Prop :=
  2 ^ 15 <= m < 2 ^ 23 /\ 0 <= s /\ m * 256 ^ s <= v * 2 ^ 24 < (m + 1) * 256 ^ s.

Lemma pow256_pos' s : 0 <= s -> 0 < 256 ^ s.
Proof. intros; apply Z.pow_pos_nonneg; lia. Qed.

(** An approximation at exponent [s] cannot also be one at a larger exponent. *)
Lemma compact_rep_exponent v s1 m1 s2 m2 :
  compact_rep v s1 m1 -> compact_rep v s2 m2 -> s2 <= s1.
Proof.
  intros (Hm1 & Hs1 & Hv1) (Hm2 & Hs2 & Hv2); apply Z.nlt_ge; intros Hlt.
  assert (256 ^ (s1 + 1) <= 256 ^ s2) by (apply Z.pow_le_mono_r; lia).
  rewrite Z.pow_add_r in H by lia; change (256 ^ 1) with 256 in H.
  pose proof (pow256_pos' s1 Hs1); pose proof (pow256_pos' s2 Hs2); nia.
Qed.

Lemma compact_rep_unique v s1 m1 s2 m2 :
  compact_rep v s1 m1 -> compact_rep v s2 m2 -> s1 = s2 /\ m1 = m2.
Proof.
  intros H1 H2; assert (s1 = s2) as <-.
  { pose proof (compact_rep_exponent _ _ _ _ _ H1 H2).
    pose proof (compact_rep_exponent _ _ _ _ _ H2 H1); lia. }
  destruct H1 as (_ & Hs & H1), H2 as (_ & _ & H2); split; [reflexivity |].
  pose proof (pow256_pos' s1 Hs); nia.
Qed.

(** The number of a normalised word: it approximates [v] within one part in
    2^15 and is its own approximation. *)
Lemma compact_val_rep v s m :
  compact_rep v s m ->
  let y := compact_val s m in
  0 < y <= v /\ (v - y) * 2 ^ 15 <= v /\ compact_rep y s m.
Proof.
  intros (Hm & Hs & Hv) y; pose proof (pow256_pos' s Hs) as Hp; subst y; unfold compact_val.
  destruct (Z.leb_spec s 3) as [Hle | Hgt].
  - pose proof (pow256_pos' (3 - s) ltac:(lia)) as Hq.
    assert (E : 256 ^ s * 256 ^ (3 - s) = 2 ^ 24)
      by (rewrite <- Z.pow_add_r by lia; replace (s + (3 - s)) with 3 by lia; reflexivity).
    rewrite <- E in Hv; assert (Hmv : m = v * 256 ^ (3 - s)) by nia.
    assert (Hy : m / 256 ^ (3 - s) = v) by (rewrite Hmv; apply Z.div_mul; lia); rewrite Hy.
    split; [nia | split; [nia |]]; repeat split; try lia; rewrite <- E; lia.
  - pose proof (pow256_pos' (s - 3) ltac:(lia)) as Hq.
    assert (E : 256 ^ s = 256 ^ (s - 3) * 2 ^ 24)
      by (change (2 ^ 24) with (256 ^ 3); rewrite <- Z.pow_add_r by lia; f_equal; lia).
    rewrite E in Hv; split; [nia | split; [nia |]]; repeat split; try lia; rewrite E; nia.
Qed.

(** ** [SetCompact] *)

(** The fields of a compact word. *)
Definition c_size (c : Z) : Z := c / 2 ^ 24.
Definition c_word (c : Z) : Z := c mod 2 ^ 23.

Lemma c_word_range c : 0 <= c_word c < 2 ^ 23.
Proof. apply Z.mod_pos_bound; lia. Qed.

Lemma c_fields m s : 0 <= m < 2 ^ 23 -> c_size (m + s * 2 ^ 24) = s /\ c_word (m + s * 2 ^ 24) = m.
Proof.
  intros Hm; unfold c_size, c_word; split.
  - rewrite Z.div_add, Z.div_small by lia; reflexivity.
  - replace (s * 2 ^ 24) with (2 * s * 2 ^ 23) by lia; rewrite Z.mod_add by lia.
    now apply Z.mod_small.
Qed.

(** The overflow test of the code is exact. *)
Lemma overflow_test s w :
  0 <= w < 2 ^ 23 -> 3 < s ->
  negb (w =? 0) && ((34 <? s) || ((0xff <? w) && (33 <? s)) || ((0xffff <? w) && (32 <? s)))
  = (2 ^ 256 <=? w * 256 ^ (s - 3)).
Proof.
  intros Hw Hs.
  assert (Hp : forall k, 0 <= k <= s - 3 -> 256 ^ k <= 256 ^ (s - 3))
    by (intros; apply Z.pow_le_mono_r; lia).
  destruct (Z.le_gt_cases s 32) as [H32 | H32]; [| destruct (Z.eq_dec s 33) as [-> |];
    [| destruct (Z.eq_dec s 34) as [-> |]]].
  - assert (256 ^ (s - 3) <= 256 ^ 29) by (apply Z.pow_le_mono_r; lia).
    pose proof (pow256_pos' (s - 3) ltac:(lia)).
    rewrite (proj2 (Z.leb_gt _ _)) by (change (2 ^ 256) with (256 ^ 32); nia).
    rewrite !(proj2 (Z.ltb_ge _ s)) by lia; rewrite !andb_false_r; reflexivity.
  - change (256 ^ (33 - 3)) with (2 ^ 240); change (2 ^ 256) with (65536 * 2 ^ 240).
    zbool; cbn; lia || reflexivity.
  - change (256 ^ (34 - 3)) with (2 ^ 248); change (2 ^ 256) with (256 * 2 ^ 248).
    zbool; cbn; lia || reflexivity.
  - specialize (Hp 32 ltac:(lia)); change (2 ^ 256) with (256 ^ 32).
    rewrite (proj2 (Z.ltb_lt 34 s)) by lia; cbn [orb]; rewrite andb_true_r.
    destruct (Z.eqb_spec w 0) as [-> |]; cbn [negb]; zbool; nia || reflexivity.
Qed.

Lemma compact_val_nonneg s w : 0 <= w -> 0 <= compact_val s w.
Proof.
  intros Hw; unfold compact_val; destruct (Z.leb_spec s 3).
  - apply Z.div_pos; [assumption | apply pow256_pos'; lia].
  - pose proof (pow256_pos' (s - 3) ltac:(lia)); nia.
Qed.

Lemma shiftr_bytes w k : 0 <= k -> Z.shiftr w (8 * k) = w / 256 ^ k.
Proof. intros; rewrite Z.shiftr_div_pow2, Z.pow_mul_r by lia; reflexivity. Qed.

(** What [SetCompact] computes: the number modulo [2^256], a sign that is only
    reported on a nonzero mantissa, and the exact overflow flag. *)
Lemma SetCompact_spec c :
  is_u32 c ->
  let '(this, fNegative, fOverflow) := SetCompact c in
  wf this /\ length this = 8%nat /\
  lval this = compact_val (c_size c) (c_word c) mod 2 ^ 256 /\
  fOverflow = (2 ^ 256 <=? compact_val (c_size c) (c_word c)) /\
  (fNegative = true -> Z.testbit c 23 = true).
Proof.
  intros Hc; unfold SetCompact.
  assert (Es : Z.shiftr c 24 = c_size c) by (unfold c_size; now rewrite Z.shiftr_div_pow2 by lia).
  assert (Ew : Z.land c 0x007fffff = c_word c) by exact (land_mask_mod c 23 ltac:(lia)).
  rewrite Es, Ew; pose proof (c_word_range c) as Hw.
  assert (Hs : 0 <= c_size c) by (apply Z.div_pos; unfold is_u32 in Hc; lia).
  set (s := c_size c) in *; set (w := c_word c) in *.
  assert (Hneg : forall b, negb b && negb (Z.land c 8388608 =? 0) = true -> Z.testbit c 23 = true).
  { intros b H; apply andb_prop in H as [_ H]; change 8388608 with (2 ^ 23) in H.
    rewrite land_pow2_eqb, negb_involutive in H by lia; assumption. }
  destruct (Z.leb_spec s 3) as [Hle | Hgt].
  - rewrite shiftr_bytes by lia.
    assert (Hd : 0 <= w / 256 ^ (3 - s) < 2 ^ 23).
    { pose proof (pow256_pos' (3 - s) ltac:(lia)).
      split; [apply Z.div_pos; lia | apply Z.div_lt_upper_bound; nia]. }
    unfold compact_val; rewrite (proj2 (Z.leb_le s 3) Hle).
    destruct (lval_base_uint_u64 8 (w / 256 ^ (3 - s))) as (V & W & L);
      [lia | unfold is_u64; lia |].
    rewrite V, Z.mod_small by lia; repeat split; eauto.
    rewrite (proj2 (Z.leb_gt _ _)) by lia.
    rewrite !(proj2 (Z.ltb_ge _ s)) by lia; now rewrite !andb_false_r.
  - destruct (lval_base_uint_u64 8 w) as (V & W & L); [lia | unfold is_u64; lia |].
    destruct (op_shl_spec (base_uint_u64 8 w) (8 * (s - 3)) W ltac:(lia)) as (W' & L' & V').
    rewrite L in L', V'; unfold compact_val; rewrite (proj2 (Z.leb_gt s 3) Hgt).
    rewrite V', V, Z.pow_mul_r by lia; repeat split; eauto using overflow_test.
Qed.

(** ** [GetCompact] *)

Lemma GetLow64_spec a : wf a -> (2 <= length a)%nat -> GetLow64 a = lval a mod 2 ^ 64.
Proof.
  intros Ha Hl; destruct a as [| x [| y a]]; try (cbn in Hl; lia).
  inv Ha; inv H2; unfold is_u32 in *; unfold GetLow64.
  change (at_ (x :: y :: a) 0) with x; change (at_ (x :: y :: a) 1) with y.
  rewrite Z.shiftl_mul_pow2, uwrap_small by lia.
  rewrite <- Z.shiftl_mul_pow2, lor_shiftl_add by lia; cbn [lval].
  apply mod_of_carry with (lval a); lia.
Qed.

(** The mantissa before the sign bit is cleared: the three leading bytes. *)
Definition mantissa (v s : Z) : Z := if s <=? 3 then v * 256 ^ (3 - s) else v / 256 ^ (s - 3).

Lemma mantissa_rep v s :
  0 < v -> 0 <= s -> 256 ^ s <= v * 256 < 256 * 256 ^ s ->
  2 ^ 16 <= mantissa v s < 2 ^ 24 /\
  mantissa v s * 256 ^ s <= v * 2 ^ 24 < (mantissa v s + 1) * 256 ^ s.
Proof.
  intros Hv Hs Hb; pose proof (pow256_pos' s Hs); unfold mantissa.
  destruct (Z.leb_spec s 3).
  - assert (E : 256 ^ s * 256 ^ (3 - s) = 2 ^ 24)
      by (rewrite <- Z.pow_add_r by lia; replace (s + (3 - s)) with 3 by lia; reflexivity).
    pose proof (pow256_pos' (3 - s) ltac:(lia)); rewrite <- E; split; [| nia].
    split; nia.
  - assert (E : 256 ^ s = 256 ^ (s - 3) * 2 ^ 24)
      by (change (2 ^ 24) with (256 ^ 3); rewrite <- Z.pow_add_r by lia; f_equal; lia).
    pose proof (pow256_pos' (s - 3) ltac:(lia)) as Hq.
    pose proof (Z.div_mod v (256 ^ (s - 3)) ltac:(lia)) as Hdm.
    pose proof (Z.mod_pos_bound v (256 ^ (s - 3)) ltac:(lia)) as Hmb.
    rewrite E in *; split; [| nia]; split; nia.
Qed.

(** The size in bytes of a number. *)
Lemma size_bytes v :
  0 < v -> let s := (Z.log2 v + 1 + 7) / 8 in
  1 <= s /\ 256 ^ s <= v * 256 < 256 * 256 ^ s /\ (v < 2 ^ 256 -> s <= 32).
Proof.
  intros Hv s; pose proof (Z.log2_nonneg v); pose proof (Z.log2_spec v Hv) as [Hl Hu].
  pose proof (Z.div_mod (Z.log2 v + 1 + 7) 8 ltac:(lia)) as Hdm; fold s in Hdm.
  pose proof (Z.mod_pos_bound (Z.log2 v + 1 + 7) 8 ltac:(lia)).
  assert (1 <= s) by lia; split; [assumption |].
  assert (E : 256 ^ s = 2 ^ (8 * s)) by (rewrite Z.pow_mul_r by lia; reflexivity); rewrite E.
  assert (2 ^ (8 * s) <= 2 ^ (Z.log2 v + 8)) by (apply Z.pow_le_mono_r; lia).
  assert (2 ^ Z.succ (Z.log2 v) <= 2 ^ (8 * s)) by (apply Z.pow_le_mono_r; lia).
  rewrite (Z.pow_add_r 2 (Z.log2 v) 8) in * by lia; change (2 ^ 8) with 256 in *.
  split; [lia |]; intros Hlt; assert (Z.log2 v < 256) by (apply Z.log2_lt_pow2; lia); lia.
Qed.

(** The bits the code reads and writes around the mantissa. *)
Lemma mantissa_asserts m s :
  0 <= m < 2 ^ 23 -> 0 <= s < 256 ->
  Z.land m (u32 (Z.lnot 0x007fffff)) = 0 /\
  Z.lor m (u32 (Z.shiftl s 24)) = m + s * 2 ^ 24.
Proof.
  intros Hm Hs; split.
  - change (u32 (Z.lnot 8388607)) with (Z.shiftl 511 23).
    apply Z.bits_inj'; intros k Hk; rewrite Z.land_spec, Z.bits_0.
    destruct (Z.lt_ge_cases k 23).
    + rewrite Z.shiftl_spec_low by lia; apply andb_false_r.
    + rewrite <- (Z.mod_small m (2 ^ 23)), Z.mod_pow2_bits_high by lia; reflexivity.
  - pose proof (Z.shiftl_mul_pow2 s 24 ltac:(lia)).
    rewrite uwrap_small by lia; apply lor_shiftl_add; lia.
Qed.

Lemma GetCompact_zero {E} a : wf a -> length a = 8%nat -> lval a = 0 -> GetCompact (E := E) a false = Ok 0.
Proof.
  intros Ha Hl Hv; assert (a = repeat 0 8) as ->; [| reflexivity].
  apply lval_inj; auto; now rewrite Hv, lval_repeat_0.
Qed.

(** The word the code stores for the leading bytes of a number. *)
Lemma GetCompact_mantissa a (s := (bits a + 7) / 8) :
  wf a -> length a = 8%nat -> 0 < lval a ->
  (if s <=? 3 then u32 (u64 (Z.shiftl (GetLow64 a) (8 * (3 - s))))
   else u32 (GetLow64 (op_shr a (8 * (s - 3))))) = mantissa (lval a) s.
Proof.
  intros Ha Hl Hv; subst s; rewrite bits_spec, (proj2 (Z.eqb_neq _ 0)) by (lia || assumption).
  destruct (size_bytes (lval a) Hv) as (Hs1 & Hsb & Hs32); set (s := _ / 8) in *.
  pose proof (lval_range_len a 8 Ha Hl) as Hr; change (modulus 8) with (2 ^ 256) in Hr.
  destruct (mantissa_rep (lval a) s Hv ltac:(lia) Hsb) as [Hm _]; unfold mantissa in *.
  destruct (Z.leb_spec s 3) as [Hle | Hgt].
  - assert (lval a < 2 ^ 24).
    { assert (256 ^ s <= 256 ^ 3) by (apply Z.pow_le_mono_r; lia); lia. }
    rewrite GetLow64_spec, Z.mod_small by (lia || assumption).
    rewrite Z.shiftl_mul_pow2, Z.pow_mul_r by lia; change (2 ^ 8) with 256.
    rewrite (uwrap_small 64), uwrap_small by lia; reflexivity.
  - destruct (op_shr_spec a (8 * (s - 3)) Ha ltac:(lia)) as (W & L & V).
    rewrite GetLow64_spec by (assumption || lia).
    rewrite V, Z.pow_mul_r by lia; change (2 ^ 8) with 256.
    rewrite Z.mod_small, uwrap_small by lia; reflexivity.
Qed.

(** [GetCompact] never fails an assertion: it yields the normalised
    approximation of the number. *)
Lemma GetCompact_rep {E} a :
  wf a -> length a = 8%nat -> 0 < lval a ->
  exists s m, GetCompact (E := E) a false = Ok (m + s * 2 ^ 24) /\
    compact_rep (lval a) s m /\ s <= 33.
Proof.
  intros Ha Hl Hv; unfold GetCompact.
  rewrite (GetCompact_mantissa a Ha Hl Hv), bits_spec, (proj2 (Z.eqb_neq (lval a) 0))
    by (lia || assumption).
  destruct (size_bytes (lval a) Hv) as (Hs1 & Hsb & Hs32); set (s := _ / 8) in *.
  pose proof (lval_range_len a 8 Ha Hl) as Hr; change (modulus 8) with (2 ^ 256) in Hr.
  destruct (mantissa_rep (lval a) s Hv ltac:(lia) Hsb) as [Hm Hrep].
  set (m := mantissa (lval a) s) in *; clearbody m.
  change 8388608 with (2 ^ 23); rewrite land_pow2_eqb, negb_involutive by lia.
  assert (Hbit : Z.testbit m 23 = (2 ^ 23 <=? m)).
  { destruct (Z.leb_spec (2 ^ 23) m).
    - replace 23 with (Z.log2 m) by (apply Z.log2_unique; lia); apply Z.bit_log2; lia.
    - rewrite <- (Z.mod_small m (2 ^ 23)) by lia; apply Z.mod_pow2_bits_high; lia. }
  rewrite Hbit; destruct (Z.leb_spec (2 ^ 23) m) as [Hbig | Hsmall].
  - rewrite shiftr_8; pose proof (Z.div_mod m 256 ltac:(lia)).
    pose proof (Z.mod_pos_bound m 256 ltac:(lia)).
    assert (2 ^ 15 <= m / 256 < 2 ^ 16)
      by (split; [apply Z.div_le_lower_bound | apply Z.div_lt_upper_bound]; lia).
    destruct (mantissa_asserts (m / 256) (s + 1)) as [A1 A2]; [lia | lia |].
    rewrite A1, A2, (proj2 (Z.ltb_lt (s + 1) 256)) by lia; cbn [assert_ mbind res_bind andb].
    exists (s + 1), (m / 256); rewrite Z.lor_0_r; split; [reflexivity |]; split; [| lia].
    unfold compact_rep; rewrite Z.pow_add_r by lia; change (256 ^ 1) with 256.
    pose proof (pow256_pos' s ltac:(lia)); split; [lia | split; [lia |]]; nia.
  - destruct (mantissa_asserts m s) as [A1 A2]; [lia | lia |].
    rewrite A1, A2, (proj2 (Z.ltb_lt s 256)) by lia; cbn [assert_ mbind res_bind andb].
    exists s, m; rewrite Z.lor_0_r; split; [reflexivity |]; split; [| lia].
    unfold compact_rep; lia.
Qed.

(** ** Byte blobs *)

Lemma WriteLE32_length x : length (WriteLE32 x) = 4%nat.
Proof. apply length_le_bytes. Qed.

Lemma UintToArith_blob a rest : wf a -> UintToArith (length a) (concat (map WriteLE32 a) ++ rest) = a.
Proof.
  induction 1 as [| x a Hx Ha IH]; cbn [length UintToArith map concat]; [reflexivity |].
  rewrite <- app_assoc, ReadLE32_Write, uwrap_small by assumption; f_equal.
  rewrite drop_app_length' by exact (WriteLE32_length x); exact IH.
Qed.

Lemma blob_UintToArith w l :
  bytes l -> length l = (4 * w)%nat -> concat (map WriteLE32 (UintToArith w l)) = l.
Proof.
  revert l; induction w as [| w IH]; intros l Hb Hl; cbn [UintToArith map concat].
  - destruct l; [reflexivity | discriminate].
  - rewrite IH by (auto using Forall_drop; rewrite length_drop; lia).
    assert (Hr : ReadLE32 l = ReadLE32 (take 4 l)).
    { unfold ReadLE32; now rewrite take_take. }
    rewrite Hr, WriteLE32_Read; [apply take_drop | auto using Forall_take |].
    rewrite length_take; lia.
Qed.

(** ** Properties *)

(** C40: the operators of [base_uint] compute modulo [2^(32 * WIDTH)] on the
    represented numbers: sum, difference, negation, complement, increment,
    decrement, products, shifts, comparison and bit length; limbs stay 32-bit. *)
Theorem base_uint_refines (a b : limbs) (n k : Z) :
  wf a -> wf b -> length a = length b -> is_u32 n -> 0 <= k ->
  let M := modulus (length a) in
  lval (op_add a b) = (lval a + lval b) mod M /\
  lval (op_sub a b) = (lval a - lval b) mod M /\
  lval (op_neg a) = (- lval a) mod M /\
  lval (op_compl a) = M - 1 - lval a /\
  lval (op_incr a) = (lval a + 1) mod M /\
  lval (op_decr a) = (lval a - 1) mod M /\
  lval (op_mul32 a n) = (lval a * n) mod M /\
  lval (op_mul a b) = (lval a * lval b) mod M /\
  lval (op_shl a k) = (lval a * 2 ^ k) mod M /\
  lval (op_shr a k) = lval a / 2 ^ k /\
  CompareTo a b = sign_of (lval a ?= lval b) /\
  bits a = (if lval a =? 0 then 0 else Z.log2 (lval a) + 1) /\
  Forall wf [op_add a b; op_sub a b; op_neg a; op_compl a; op_incr a; op_decr a;
             op_mul32 a n; op_mul a b; op_shl a k; op_shr a k].
Proof.
  intros Ha Hb Hl Hn Hk M.
  destruct (op_add_spec a b Ha Hb Hl) as (? & ? & ?), (op_sub_spec a b Ha Hb Hl) as (? & ? & ?),
    (op_neg_spec a Ha) as (? & ? & ?), (op_compl_spec a Ha) as (? & ? & ?),
    (op_incr_spec a Ha) as (? & ? & ?), (op_decr_spec a Ha) as (? & ? & ?),
    (op_mul32_spec a n Ha Hn) as (? & ? & ?), (op_mul_spec a b Ha Hb Hl) as (? & ? & ?),
    (op_shl_spec a k Ha Hk) as (? & ? & ?), (op_shr_spec a k Ha Hk) as (? & ? & ?).
  repeat (split; [assumption || (apply CompareTo_spec || apply bits_spec); assumption |]).
  repeat (apply Forall_cons_2; [assumption |]); apply Forall_nil_2.
Qed.

Lemma base_uint_refines_witness :
  lval (op_mul [5; 7] [2 ^ 32 - 1; 3]) = (lval [5; 7] * lval [2 ^ 32 - 1; 3]) mod modulus 2.
Proof.
  apply (base_uint_refines [5; 7] [2 ^ 32 - 1; 3] 1 0);
    [repeat constructor; lia | repeat constructor; lia | reflexivity | unfold is_u32; lia | lia].
Defined.

(** [operator/=] is integer division, for every dividend and divisor;
    division by zero throws and nothing else does. *)
Theorem base_uint_div (a b : limbs) :
  wf a -> wf b -> length a = length b ->
  (lval b = 0 -> op_div (E := unit) a b = Exn uint_error) /\
  (lval b <> 0 -> exists q, op_div (E := unit) a b = Ok q /\
     wf q /\ length q = length a /\ lval q = lval a / lval b).
Proof.
  intros Ha Hb Hl; pose proof (op_div_spec (E := unit) a b Ha Hb Hl) as H.
  destruct (Z.eqb_spec (lval b) 0); split; intros; tauto || congruence.
Qed.

Lemma base_uint_div_witness :
  exists q, op_div (E := unit) [17; 5] [3; 0] = Ok q /\ wf q /\ length q = 2%nat /\
    lval q = lval [17; 5] / lval [3; 0].
Proof.
  apply (base_uint_div [17; 5] [3; 0]);
    [repeat constructor; lia | repeat constructor; lia | reflexivity | discriminate].
Defined.

(** Encoding a number in the compact format and decoding it again gives a
    nonnegative number without overflow, at most the original and within one
    part in 2^15 of it, whose own encoding is the same word.  Neither assertion
    of [GetCompact] can fail. *)
Theorem compact_roundtrip (a : limbs) :
  wf a -> length a = 8%nat ->
  exists c y, GetCompact (E := unit) a false = Ok c /\ SetCompact c = (y, false, false) /\
    lval y <= lval a /\ (lval a - lval y) * 2 ^ 15 <= lval a /\
    GetCompact (E := unit) y false = Ok c.
Proof.
  intros Ha Hl; pose proof (lval_range_len a 8 Ha Hl) as Hr.
  change (modulus 8) with (2 ^ 256) in Hr.
  destruct (Z.eq_dec (lval a) 0) as [Hz | Hnz].
  { exists 0, (repeat 0 8); rewrite GetCompact_zero, Hz by assumption; repeat split; discriminate || lia. }
  destruct (GetCompact_rep (E := unit) a Ha Hl ltac:(lia)) as (s & m & Hg & Hrep & Hs).
  pose proof Hrep as (Hm & Hs0 & _).
  destruct (compact_val_rep _ _ _ Hrep) as ([Hy0 Hyle] & Herr & Hrep').
  set (c := m + s * 2 ^ 24) in *.
  assert (Hc : is_u32 c) by (unfold is_u32, c; lia).
  destruct (c_fields m s ltac:(lia)) as [Fs Fw]; fold c in Fs, Fw.
  pose proof (SetCompact_spec c Hc) as Hset.
  destruct (SetCompact c) as [[y neg] ovf] eqn:Eset; destruct Hset as (Wy & Ly & Vy & Hovf & Hneg).
  rewrite Fs, Fw in Vy, Hovf; rewrite Z.mod_small in Vy by lia.
  rewrite (proj2 (Z.leb_gt _ _)) in Hovf by lia.
  assert (neg = false) as ->.
  { destruct neg; [| reflexivity]; specialize (Hneg eq_refl); unfold c in Hneg.
    rewrite Z.testbit_true in Hneg by lia.
    replace (m + s * 2 ^ 24) with (m + 2 * s * 2 ^ 23) in Hneg by lia.
    rewrite Z.div_add, Z.div_small in Hneg by lia.
    rewrite Z.add_0_l, Z.mul_comm, Z.mod_mul in Hneg by lia; discriminate. }
  exists c, y; rewrite Eset, Hovf, Vy; repeat split; auto.
  destruct (GetCompact_rep (E := unit) y Wy Ly) as (s' & m' & Hg' & Hrep2 & _); [lia |].
  rewrite Vy in Hrep2; destruct (compact_rep_unique _ _ _ _ _ Hrep2 Hrep') as [-> ->]; exact Hg'.
Qed.

Lemma compact_roundtrip_witness :
  let a := base_uint_u64 8 0x123456789a in
  exists c y, GetCompact (E := unit) a false = Ok c /\ SetCompact c = (y, false, false) /\
    lval y <= lval a /\ (lval a - lval y) * 2 ^ 15 <= lval a /\
    GetCompact (E := unit) y false = Ok c.
Proof.
  intros a; apply (compact_roundtrip a); [| reflexivity].
  apply lval_base_uint_u64; [lia | unfold is_u64; lia].
Defined.

(** The conversions between [arith_uint256] and the 32-byte blob are
    inverse to each other, but [arith_uint88] has two limbs only: converting a
    blob of eleven bytes there and back drops the last three. *)
Theorem blob_conversions :
  (forall a, wf a -> length a = 8%nat -> UintToArith256 (ArithToUint256 a) = a) /\
  (forall l, bytes l -> length l = 32%nat -> ArithToUint256 (UintToArith256 l) = l) /\
  (forall l t, bytes l -> length l = 8%nat ->
     ArithToUint88 (UintToArith88 (l ++ t)) = l ++ [0; 0; 0]).
Proof.
  split; [| split].
  - intros a Ha Hl; pose proof (UintToArith_blob a [] Ha) as H.
    rewrite app_nil_r, Hl in H; exact H.
  - intros l Hb Hl; exact (blob_UintToArith 8 l Hb Hl).
  - intros l t Hb Hl; unfold ArithToUint88, UintToArith88; f_equal.
    rewrite <- (blob_UintToArith 2 l Hb Hl) at 2; do 2 f_equal.
    do 8 (destruct l as [| ? l]; [discriminate |]); destruct l; [reflexivity | discriminate].
Qed.
