(* ===== verification/BlockIndex.v ===== *)
(** * The block index

    chain.h and chain.cpp: the entries of the block tree, their validity
    status, the median time, and the skip list by which an ancestor is found.
    An index entry is a [CBlockIndex]; a pointer is a natural number and the
    tree is a finite map from pointers to entries, so that [pprev] and [pskip]
    are shared references as in the code. *)
From stdpp Require Import gmap.
From S2P Require Import Prelude.

Abbreviation ptr := nat.

(** The fields of [CBlockIndex] used by the modelled operations. *)
Record CBlockIndex := mkBlockIndex {
  blockHash : list Z;
  pprev : option ptr;
  pskip : option ptr;
  nHeight : Z;
  nTime : Z;
  nBits : Z;
  nChainWork : list Z;
  nStatus : Z;
  nTx : Z;
  nChainTx : Z;
  nSequenceId : Z;
}.

Definition set_pskip (b : CBlockIndex) (s : option ptr) : CBlockIndex :=
  mkBlockIndex (blockHash b) (pprev b) s (nHeight b) (nTime b) (nBits b) (nChainWork b)
    (nStatus b) (nTx b) (nChainTx b) (nSequenceId b).

Definition set_nStatus (b : CBlockIndex) (s : Z) : CBlockIndex :=
  mkBlockIndex (blockHash b) (pprev b) (pskip b) (nHeight b) (nTime b) (nBits b) (nChainWork b) s
    (nTx b) (nChainTx b) (nSequenceId b).

Definition set_counts (b : CBlockIndex) (tx chaintx seq : Z) : CBlockIndex :=
  mkBlockIndex (blockHash b) (pprev b) (pskip b) (nHeight b) (nTime b) (nBits b) (nChainWork b) (nStatus b)
    tx chaintx seq.

Abbreviation index_map := (gmap nat CBlockIndex).

(** ** Status *)

Definition BLOCK_VALID_MASK : Z := Z.lor (Z.lor (Z.lor (Z.lor 1 2) 3) 4) 5.
Definition BLOCK_FAILED_MASK : Z := Z.lor 32 64.

Definition BLOCK_VALID_TREE : Z := 2.
Definition BLOCK_VALID_TRANSACTIONS : Z := 3.
Definition BLOCK_VALID_SCRIPTS : Z := 5.
Definition BLOCK_VALID_CONTEXT : Z := 6.
Definition BLOCK_HAVE_DATA : Z := 8.
Definition BLOCK_HAVE_UNDO : Z := 16.
Definition BLOCK_FAILED_VALID : Z := 32.
Definition BLOCK_FAILED_CHILD : Z := 64.

Definition IsValid {E} (b : CBlockIndex) (nUpTo : Z) : res E bool :=
  _ ← assert_ (Z.land nUpTo (Z.lnot BLOCK_VALID_MASK) =? 0);
  if negb (Z.land (nStatus b) BLOCK_FAILED_MASK =? 0) then Ok false
  else Ok (nUpTo <=? Z.land (nStatus b) BLOCK_VALID_MASK).

(** The returned boolean and the entry afterwards. *)
Definition RaiseValidity {E} (b : CBlockIndex) (nUpTo : Z) : res E (bool * CBlockIndex) :=
  _ ← assert_ (Z.land nUpTo (Z.lnot BLOCK_VALID_MASK) =? 0);
  if negb (Z.land (nStatus b) BLOCK_FAILED_MASK =? 0) then Ok (false, b)
  else if Z.land (nStatus b) BLOCK_VALID_MASK <? nUpTo
  then Ok (true, set_nStatus b (Z.lor (Z.land (nStatus b) (u32 (Z.lnot BLOCK_VALID_MASK))) nUpTo))
  else Ok (false, b).

(** ** Median time *)

Fixpoint insert_sorted (x : Z) (l : list Z) : list Z :=
  match l with
  | [] => [x]
  | y :: l' => if x <=? y then x :: l else y :: insert_sorted x l'
  end.

(** [std::sort]. *)
Definition sort (l : list Z) : list Z := fold_right insert_sorted [] l.

Definition nMedianTimeSpan : nat := 11.

(** The times of the entry and its predecessors, the newest first. *)
Definition GetMedianTimePast (chain : list CBlockIndex) : Z :=
  let pmedian := map nTime (take nMedianTimeSpan chain) in
  nth (length pmedian / 2) (sort pmedian) 0.

(** ** The skip list *)

Definition InvertLowestOne (n : Z) : Z := Z.land n (n - 1).

Definition GetSkipHeight (height : Z) : Z :=
  if height <? 2 then 0
  else if negb (Z.land height 1 =? 0)
  then InvertLowestOne (InvertLowestOne (height - 1)) + 1
  else InvertLowestOne height.

Section Index.
Context (m : index_map).

(** The loop of [GetAncestor]; the height decreases in every step. *)
Fixpoint ancestor_loop {E} (fuel : nat) (height heightWalk : Z) (pindexWalk : option ptr)
    : res E (option ptr) :=
  match (if height <? heightWalk then pindexWalk else None) with
  | None => Ok pindexWalk
  | Some p =>
      match fuel, m !! p with
      | O, _ => Exn out_of_fuel
      | _, None => Exn oob_read
      | S fuel, Some b =>
          let heightSkip := GetSkipHeight heightWalk in
          let heightSkipPrev := GetSkipHeight (heightWalk - 1) in
          if (match pskip b with Some _ => true | None => false end)
             && ((heightSkip =? height)
                 || ((height <? heightSkip)
                     && negb ((heightSkipPrev <? heightSkip - 2) && (height <=? heightSkipPrev))))
          then ancestor_loop fuel height heightSkip (pskip b)
          else
            match pprev b with
            | None => Exn assertion_failed
            | Some q => ancestor_loop fuel height (heightWalk - 1) (Some q)
            end
      end
  end.

Definition GetAncestor {E} (p : ptr) (height : Z) : res E (option ptr) :=
  match m !! p with
  | None => Exn oob_read
  | Some b =>
      if (nHeight b <? height) || (height <? 0) then Ok None
      else ancestor_loop (Z.to_nat (nHeight b)) height (nHeight b) (Some p)
  end.

(** The entries reached through [pprev], at most [fuel] of them. *)
Fixpoint pprev_list (fuel : nat) (p : option ptr) : list CBlockIndex :=
  match fuel, p with
  | S fuel, Some p =>
      match m !! p with
      | Some b => b :: pprev_list fuel (pprev b)
      | None => []
      end
  | _, _ => []
  end.
End Index.

(** [BuildSkip] of the entry at [p], in the map. *)
Definition BuildSkip {E} (m : index_map) (p : ptr) : res E index_map :=
  match m !! p with
  | None => Exn oob_read
  | Some b =>
      match pprev b with
      | None => Ok m
      | Some q =>
          s ← GetAncestor m q (GetSkipHeight (nHeight b));
          Ok (<[p := set_pskip b s]> m)
      end
  end.
