(* ===== verification/BlockIndexSpec.v ===== *)
(** * The skip list of the block index

    [GetAncestor] against the definition of an ancestor through [pprev], the
    invariant of the block tree, its preservation by [BuildSkip], and the median
    of the last block times. *)
From stdpp Require Import gmap sorting.
From S2P Require Import Prelude BlockIndex.

(** ** Skip heights *)

Lemma InvertLowestOne_range n : 0 < n -> 0 <= InvertLowestOne n < n.
Proof.
  intros Hn; unfold InvertLowestOne; split; [apply Z.land_nonneg; lia |].
  pose proof (land_le_r n (n - 1) ltac:(lia)); lia.
Qed.

Lemma InvertLowestOne_0 : InvertLowestOne 0 = 0.
Proof. reflexivity. Qed.

(** A skip always leads strictly below. *)
Lemma GetSkipHeight_range h : 0 <= h -> 0 <= GetSkipHeight h /\ (0 < h -> GetSkipHeight h < h).
Proof.
  intros Hh; unfold GetSkipHeight; destruct (Z.ltb_spec h 2); [lia |].
  destruct (negb _) eqn:E.
  - apply negb_true_iff, Z.eqb_neq in E; change 1 with (2 ^ 1 - 1) in E.
    rewrite land_mask_mod in E by lia.
    pose proof (Z.div_mod h (2 ^ 1) ltac:(lia)); pose proof (Z.mod_pos_bound h (2 ^ 1) ltac:(lia)).
    pose proof (InvertLowestOne_range (h - 1) ltac:(lia)).
    destruct (Z.eq_dec (InvertLowestOne (h - 1)) 0) as [-> |]; [rewrite InvertLowestOne_0; lia |].
    pose proof (InvertLowestOne_range (InvertLowestOne (h - 1)) ltac:(lia)); lia.
  - pose proof (InvertLowestOne_range h ltac:(lia)); lia.
Qed.

(** ** Ancestors *)

(** [n] steps through [pprev]. *)
Fixpoint up (m : index_map) (n : nat) (p : ptr) : option ptr :=
  match n with
  | O => Some p
  | S n => match m !! p with
           | Some b => match pprev b with Some q => up m n q | None => None end
           | None => None
           end
  end.

Lemma up_add m n k p : up m (n + k) p = match up m n p with Some q => up m k q | None => None end.
Proof.
  revert p; induction n as [| n IH]; intros p; cbn [up Nat.add]; [reflexivity |].
  destruct (m !! p) as [b |]; [| reflexivity]; destruct (pprev b); auto.
Qed.

(** An entry of a well-formed block tree: the predecessor is one below, only
    the genesis block has none, and the skip pointer leads to the ancestor at
    the skip height. *)
Record entry_ok (m : index_map) (p : ptr) (b : CBlockIndex) : Prop := {
  eo_height : 0 <= nHeight b;
  eo_genesis : pprev b = None -> nHeight b = 0;
  eo_prev : forall q, pprev b = Some q ->
    exists c, m !! q = Some c /\ nHeight c = nHeight b - 1;
  eo_skip : forall s, pskip b = Some s ->
    up m (Z.to_nat (nHeight b - GetSkipHeight (nHeight b))) p = Some s;
}.

Definition index_ok (m : index_map) : Prop := forall p b, m !! p = Some b -> entry_ok m p b.

Section Ancestors.
Context (m : index_map) (Hm : index_ok m).

(** Going up [n] steps from height [h] reaches an entry at height [h - n]. *)
Lemma up_height n p b :
  m !! p = Some b -> Z.of_nat n <= nHeight b ->
  exists q c, up m n p = Some q /\ m !! q = Some c /\ nHeight c = nHeight b - Z.of_nat n.
Proof.
  revert p b; induction n as [| n IH]; intros p b Hp Hn.
  - exists p, b; repeat split; auto; lia.
  - destruct (Hm p b Hp) as [Hh Hg Hpr Hsk]; cbn [up]; rewrite Hp.
    destruct (pprev b) as [q |]; [| specialize (Hg eq_refl); lia].
    destruct (Hpr q eq_refl) as (c & Hq & Hc).
    destruct (IH q c Hq ltac:(lia)) as (q' & c' & Hu & Hq' & Hc'); exists q', c'.
    repeat split; auto; lia.
Qed.

(** The walk over skip pointers ends at the ancestor reached through [pprev]. *)
Lemma ancestor_loop_ok {E} fuel height p b :
  m !! p = Some b -> 0 <= height <= nHeight b -> nHeight b <= Z.of_nat fuel ->
  ancestor_loop (E := E) m fuel height (nHeight b) (Some p)
    = Ok (up m (Z.to_nat (nHeight b - height)) p).
Proof.
  revert p b; induction fuel as [| fuel IH]; intros p b Hp Hh Hf; cbn [ancestor_loop].
  - replace height with (nHeight b) by lia; rewrite Z.ltb_irrefl, Z.sub_diag; reflexivity.
  - destruct (Z.ltb_spec height (nHeight b)) as [Hlt | Hge].
    2: { replace height with (nHeight b) by lia; now rewrite Z.sub_diag. }
    rewrite Hp; destruct (Hm p b Hp) as [_ Hg Hpr Hsk].
    pose proof (GetSkipHeight_range (nHeight b) ltac:(lia)) as [Hs0 Hs1].
    specialize (Hs1 ltac:(lia)).
    destruct (_ && _) eqn:Ec.
    + apply andb_prop in Ec as [Es Ec]; destruct (pskip b) as [s |]; [| discriminate].
      assert (height <= GetSkipHeight (nHeight b)).
      { apply orb_prop in Ec as [Ec | Ec]; [apply Z.eqb_eq in Ec; lia |].
        apply andb_prop in Ec as [Ec _]; apply Z.ltb_lt in Ec; lia. }
      specialize (Hsk s eq_refl).
      destruct (up_height (Z.to_nat (nHeight b - GetSkipHeight (nHeight b))) p b Hp ltac:(lia))
        as (q & c & Hu & Hq & Hc); rewrite Hsk in Hu; injection Hu as <-.
      replace (GetSkipHeight (nHeight b)) with (nHeight c) at 1 by lia.
      rewrite IH by (auto; lia); f_equal.
      replace (Z.to_nat (nHeight b - height))
        with (Z.to_nat (nHeight b - GetSkipHeight (nHeight b)) + Z.to_nat (nHeight c - height))%nat
        by lia.
      now rewrite up_add, Hsk.
    + destruct (pprev b) as [q |] eqn:Eq; [| specialize (Hg eq_refl); lia].
      destruct (Hpr q eq_refl) as (c & Hq & Hc).
      replace (nHeight b - 1) with (nHeight c) by lia; rewrite IH by (auto; lia); f_equal.
      replace (Z.to_nat (nHeight b - height)) with (S (Z.to_nat (nHeight c - height))) by lia.
      cbn [up]; now rewrite Hp, Eq.
Qed.

Lemma GetAncestor_ok {E} p b height :
  m !! p = Some b -> 0 <= height <= nHeight b ->
  GetAncestor (E := E) m p height = Ok (up m (Z.to_nat (nHeight b - height)) p).
Proof.
  intros Hp Hh; unfold GetAncestor; rewrite Hp.
  rewrite (proj2 (Z.ltb_ge _ _)), (proj2 (Z.ltb_ge height 0)) by lia; cbn [orb].
  apply ancestor_loop_ok; auto; lia.
Qed.

End Ancestors.

(** ** Adding an entry *)

(** Walking up does not see a new entry nobody points to. *)
Lemma up_insert m p b n q :
  index_ok m -> m !! p = None -> (exists c, m !! q = Some c /\ Z.of_nat n <= nHeight c) ->
  up (<[p := b]> m) n q = up m n q.
Proof.
  intros Hm Hp; revert q; induction n as [| n IH]; intros q (c & Hq & Hn); [reflexivity |].
  cbn [up]; rewrite lookup_insert_ne, Hq by congruence.
  destruct (Hm q c Hq) as [_ Hg Hpr _]; destruct (pprev c) as [q' |]; [| reflexivity].
  destruct (Hpr q' eq_refl) as (c' & Hq' & Hc'); apply IH; exists c'; split; [assumption | lia].
Qed.

Lemma entry_ok_insert m p b q c :
  index_ok m -> m !! p = None -> m !! q = Some c -> entry_ok (<[p := b]> m) q c.
Proof.
  intros Hm Hp Hq; destruct (Hm q c Hq) as [Hh Hg Hpr Hsk]; split; auto.
  - intros q' E; destruct (Hpr q' E) as (c' & Hc' & Hn); exists c'; split; [| assumption].
    rewrite lookup_insert_ne; [assumption | congruence].
  - intros s E; rewrite up_insert; auto; exists c; split; [assumption |].
    pose proof (GetSkipHeight_range (nHeight c) Hh); lia.
Qed.

(** A new entry on top of [q], before and after its skip pointer is built. *)
Section NewEntry.
Context (m : index_map) (Hm : index_ok m) (p q : ptr) (b c : CBlockIndex).
Context (Hp : m !! p = None) (Hq : m !! q = Some c).
Context (Hprev : pprev b = Some q) (Hheight : nHeight b = nHeight c + 1).

Lemma new_entry_ok s :
  (s = None \/ s = up m (Z.to_nat (nHeight c - GetSkipHeight (nHeight b))) q) ->
  index_ok (<[p := set_pskip b s]> m).
Proof.
  intros Hs r d; pose proof (eo_height _ _ _ (Hm q c Hq)) as Hc.
  assert (Hpq : p <> q) by congruence.
  destruct (decide (r = p)) as [-> | Hne].
  - rewrite lookup_insert_eq; intros [= <-]; split; cbn [set_pskip nHeight pprev pskip].
    + lia.
    + congruence.
    + rewrite Hprev; intros q' [= <-]; exists c; split; [now rewrite lookup_insert_ne | lia].
    + intros s' ->; destruct Hs as [Hs | Hs]; [discriminate |].
      pose proof (GetSkipHeight_range (nHeight b) ltac:(lia)) as [H0 H1]; specialize (H1 ltac:(lia)).
      replace (Z.to_nat (nHeight b - GetSkipHeight (nHeight b)))
        with (S (Z.to_nat (nHeight c - GetSkipHeight (nHeight b)))) by lia.
      cbn [up]; rewrite lookup_insert_eq; cbn [set_pskip pprev]; rewrite Hprev, Hs.
      apply up_insert; auto; exists c; split; [assumption | lia].
  - rewrite lookup_insert_ne by congruence; intros Hr; now apply entry_ok_insert.
Qed.

Lemma set_pskip_same : pskip b = None -> set_pskip b None = b.
Proof. intros E; destruct b; cbn in *; now subst. Qed.

Lemma BuildSkip_ok {E} :
  pskip b = None ->
  exists s, BuildSkip (E := E) (<[p := b]> m) p = Ok (<[p := set_pskip b s]> m) /\
    index_ok (<[p := set_pskip b s]> m).
Proof.
  intros Hnone; pose proof (new_entry_ok None (or_introl eq_refl)) as Hm1.
  rewrite (set_pskip_same Hnone) in Hm1.
  pose proof (eo_height _ _ _ (Hm q c Hq)) as Hc.
  pose proof (GetSkipHeight_range (nHeight b) ltac:(lia)) as [H0 H1]; specialize (H1 ltac:(lia)).
  assert (Hpq : p <> q) by congruence.
  unfold BuildSkip; rewrite lookup_insert_eq, Hprev.
  rewrite (GetAncestor_ok _ Hm1 q c) by (rewrite ?lookup_insert_ne; auto; lia).
  rewrite up_insert by (auto; exists c; split; auto; lia); cbn [mbind res_bind].
  rewrite insert_insert_eq; eexists; split; [reflexivity |]; apply new_entry_ok; auto.
Qed.
End NewEntry.

(** ** The median *)

Lemma insert_sorted_perm x l : insert_sorted x l ≡ₚ x :: l.
Proof.
  induction l as [| y l IH]; cbn [insert_sorted]; [reflexivity |].
  destruct (x <=? y); [reflexivity |]; rewrite IH; apply Permutation_swap.
Qed.

Lemma sort_perm l : sort l ≡ₚ l.
Proof. induction l as [| x l IH]; cbn; [reflexivity |]; now rewrite insert_sorted_perm, IH. Qed.

Lemma insert_sorted_sorted x l : StronglySorted Z.le l -> StronglySorted Z.le (insert_sorted x l).
Proof.
  induction 1 as [| y l Hs IH Hy]; cbn [insert_sorted]; [repeat constructor |].
  destruct (Z.leb_spec x y).
  - constructor; [now constructor |]; constructor; [assumption |].
    eapply Forall_impl; [| exact Hy]; cbn; lia.
  - constructor; [assumption |]; rewrite insert_sorted_perm; constructor; [lia | assumption].
Qed.

Lemma sort_sorted l : StronglySorted Z.le (sort l).
Proof. induction l as [| x l IH]; cbn; [constructor |]; now apply insert_sorted_sorted. Qed.

(** In a sorted list, what lies below the element at [k] is before it and what
    lies above is behind it. *)
Lemma filter_nil_Forall (f : Z -> bool) l : Forall (fun x => f x = false) l -> List.filter f l = [].
Proof. induction 1 as [| x l Hx _ IH]; cbn; [reflexivity |]; now rewrite Hx. Qed.

Lemma filter_length_le' (f : Z -> bool) l : (length (List.filter f l) <= length l)%nat.
Proof. induction l as [| x l IH]; cbn; [lia |]; destruct (f x); cbn; lia. Qed.

Lemma sorted_rank l k d :
  StronglySorted Z.le l -> (k < length l)%nat ->
  (length (List.filter (fun x => (x <? nth k l d)%Z) l) <= k)%nat /\
  (length (List.filter (fun x => (nth k l d <? x)%Z) l) <= length l - k - 1)%nat.
Proof.
  intros Hs; revert k; induction Hs as [| y l Hs IH Hy]; intros k Hk; [cbn in Hk; lia |].
  destruct k as [| k]; cbn [nth length List.filter] in *.
  - rewrite Z.ltb_irrefl; split.
    + rewrite filter_nil_Forall; [cbn; lia |]; eapply Forall_impl; [| exact Hy].
      cbn; intros; apply Z.ltb_ge; lia.
    + pose proof (filter_length_le' (fun x => y <? x) l); lia.
  - destruct (IH k ltac:(lia)) as [H1 H2].
    assert (y <= nth k l d) by (apply (proj1 (Forall_nth _ l) Hy); lia).
    rewrite (proj2 (Z.ltb_ge (nth k l d) y)) by lia.
    destruct (y <? nth k l d); cbn [length]; lia.
Qed.

Lemma filter_length_perm (f : Z -> bool) l1 l2 :
  l1 ≡ₚ l2 -> length (List.filter f l1) = length (List.filter f l2).
Proof.
  induction 1 as [| x l1 l2 H IH | x y l | l1 l2 l3 H1 IH1 H2 IH2]; cbn;
    try (repeat case_goal; cbn; lia).
Qed.

(** ** Properties *)

(** C38: [GetAncestor] finds, over skip pointers, exactly the entry that is
    reached through [pprev] at the requested height; it needs at most one step
    per block and its assertion cannot fail in a well-formed block tree. *)
Theorem get_ancestor_correct (m : index_map) (p : ptr) (b : CBlockIndex) (height : Z) :
  index_ok m -> m !! p = Some b -> 0 <= height <= nHeight b ->
  exists q c, GetAncestor (E := unit) m p height = Ok (Some q) /\
    up m (Z.to_nat (nHeight b - height)) p = Some q /\
    m !! q = Some c /\ nHeight c = height.
Proof.
  intros Hm Hp Hh.
  destruct (up_height m Hm (Z.to_nat (nHeight b - height)) p b Hp ltac:(lia))
    as (q & c & Hu & Hq & Hc); exists q, c.
  rewrite (GetAncestor_ok m Hm p b) by assumption; rewrite Hu; repeat split; auto; lia.
Qed.

(** Adding a block on top of an existing one and building its skip pointer
    keeps the block tree well-formed. *)
Theorem build_skip_preserves (m : index_map) (p q : ptr) (b c : CBlockIndex) :
  index_ok m -> m !! p = None -> m !! q = Some c ->
  pprev b = Some q -> nHeight b = nHeight c + 1 -> pskip b = None ->
  exists m', BuildSkip (E := unit) (<[p := b]> m) p = Ok m' /\ index_ok m' /\
    (forall r, r <> p -> m' !! r = m !! r).
Proof.
  intros Hm Hp Hq Hpr Hh Hs.
  destruct (BuildSkip_ok (E := unit) m Hm p q b c Hp Hq Hpr Hh Hs) as (s & E & Hok).
  exists (<[p := set_pskip b s]> m); split; [exact E |].
  split; [exact Hok |]; intros r Hr; now rewrite lookup_insert_ne.
Qed.

(** The median time is one of the last eleven block times, with at most
    half of them below it and at most half of them above it. *)
Theorem median_time_is_median (chain : list CBlockIndex) :
  chain <> [] ->
  let ts := map nTime (take nMedianTimeSpan chain) in
  let t := GetMedianTimePast chain in
  In t ts /\
  (2 * length (List.filter (fun x => (x <? t)%Z) ts) <= length ts)%nat /\
  (2 * length (List.filter (fun x => (t <? x)%Z) ts) <= length ts)%nat.
Proof.
  intros Hne ts t.
  assert (Hpos : (0 < length ts)%nat) by (unfold ts; destruct chain; [congruence | cbn; lia]).
  assert (Hlen : length (sort ts) = length ts) by (apply Permutation_length, sort_perm).
  pose proof (Nat.div_mod_eq (length ts) 2) as Hd.
  pose proof (Nat.mod_upper_bound (length ts) 2 ltac:(lia)).
  destruct (sorted_rank (sort ts) (length ts / 2) 0 (sort_sorted ts) ltac:(lia)) as [H1 H2].
  change (nth (length ts / 2) (sort ts) 0) with t in H1, H2.
  rewrite (filter_length_perm _ _ _ (sort_perm ts)) in H1.
  rewrite (filter_length_perm _ _ _ (sort_perm ts)) in H2.
  split; [| lia].
  apply (Permutation_in _ (sort_perm ts)).
  change t with (nth (length ts / 2) (sort ts) 0); apply nth_In; lia.
Qed.

(** ** Instances *)

(** Three blocks; the third skips to the genesis block. *)
Definition example_entry (prev skip : option ptr) (h : Z) : CBlockIndex :=
  mkBlockIndex [h] prev skip h (100 * h) 0 [] 0 0 0 0.

Definition example_index : index_map :=
  <[2%nat := example_entry (Some 1%nat) (Some 0%nat) 2]>
  (<[1%nat := example_entry (Some 0%nat) (Some 0%nat) 1]>
  (<[0%nat := example_entry None None 0]> ∅)).

Lemma example_index_ok : index_ok example_index.
Proof.
  intros p b; unfold example_index.
  destruct (decide (p = 2%nat)) as [-> |]; [| destruct (decide (p = 1%nat)) as [-> |];
    [| destruct (decide (p = 0%nat)) as [-> |]]].
  1: rewrite lookup_insert_eq.
  2: rewrite lookup_insert_ne, lookup_insert_eq by congruence.
  3: rewrite !lookup_insert_ne, lookup_insert_eq by congruence.
  4: rewrite !lookup_insert_ne, lookup_empty by congruence; discriminate.
  all: intros [= <-]; split; cbn [example_entry nHeight pprev pskip]; try lia; try discriminate.
  all: intros q [= <-]; try reflexivity; eexists; split; reflexivity.
Qed.

Lemma get_ancestor_correct_witness :
  exists q c, GetAncestor (E := unit) example_index 2 0 = Ok (Some q) /\
    up example_index 2 2 = Some q /\ example_index !! q = Some c /\ nHeight c = 0.
Proof.
  apply (get_ancestor_correct example_index 2 (example_entry (Some 1%nat) (Some 0%nat) 2) 0);
    [apply example_index_ok | reflexivity | cbn; lia].
Defined.

Lemma build_skip_preserves_witness :
  exists m', BuildSkip (E := unit)
      (<[3%nat := example_entry (Some 2%nat) None 3]> example_index) 3 = Ok m' /\
    index_ok m' /\ (forall r, r <> 3%nat -> m' !! r = example_index !! r).
Proof.
  apply (build_skip_preserves example_index 3 2 (example_entry (Some 2%nat) None 3)
    (example_entry (Some 1%nat) (Some 0%nat) 2)); try reflexivity; apply example_index_ok.
Defined.

Lemma median_time_is_median_witness :
  let chain := pprev_list example_index 3 (Some 2%nat) in
  In (GetMedianTimePast chain) [200; 100; 0] /\ GetMedianTimePast chain = 100.
Proof.
  intros chain; split; [| reflexivity].
  apply (median_time_is_median chain); discriminate.
Defined.

(** The flag BLOCK_VALID_CONTEXT overlaps the levels of validity: a block that
    has its transactions checked counts, once the flag is set, as valid up to
    its scripts, and raising it later does nothing. *)
Example context_claims_scripts :
  let b := mkBlockIndex [] None None 0 0 0 [] (Z.lor (Z.lor BLOCK_VALID_TRANSACTIONS BLOCK_HAVE_DATA) BLOCK_VALID_CONTEXT) 0 0 0 in
  IsValid (E := unit) b BLOCK_VALID_SCRIPTS = Ok true /\ RaiseValidity (E := unit) b BLOCK_VALID_SCRIPTS = Ok (false, b).
Proof. split; reflexivity. Qed.
