(* ===== verification/Pow.v ===== *)
(** * Difficulty adjustment and proof of work

    pow.cpp: the averaging retarget with the adaptive rules on top of it, the
    work of a block, the notary priority of hard fork 22 and the proof-of-work
    check.  A block and its ancestors are the list reached through [pprev], the
    newest first; [arith_uint256] is the list of limbs of ArithUint256.  The
    globals of the chain and the consensus parameters are a record each.  C++
    integer conversions are written out: [u32], [i32] and [i64] wrap, [Z.quot]
    is the division that truncates toward zero. *)
From S2P Require Import Prelude Endian ArithUint256 BlockIndex.

(** ** Parameters *)

(** The fields of [Consensus::Params] the code reads. *)
Record Params := {
  powLimit : list Z;
  powAlternate : list Z;
  nHF22Height : option Z;
  nHF22NotariesPriorityRotateDelta : Z;
  nPowAveragingWindow : Z;
  nPowMaxAdjustDown : Z;
  nPowMaxAdjustUp : Z;
  nPowTargetSpacing : Z;
  nMaxFutureBlockTime : Z;
}.

(** The globals of the chain. *)
Record Globals := {
  ASSETCHAINS_BLOCKTIME : Z;
  ASSETCHAINS_ADAPTIVEPOW : Z;
  ASSETCHAINS_ALGO : Z;
  ASSETCHAINS_EQUIHASH : Z;
  ASSETCHAINS_STAKED : Z;
  KOMODO_LOADINGBLOCKS : bool;
  chain_isKMD : bool;
}.

Definition KOMODO_MINDIFF_NBITS : Z := 0x200f0f0f.

Definition AveragingWindowTimespan (p : Params) : Z :=
  i64 (nPowAveragingWindow p * nPowTargetSpacing p).
Definition MinActualTimespan (p : Params) : Z :=
  Z.quot (i64 (AveragingWindowTimespan p * (100 - nPowMaxAdjustUp p))) 100.
Definition MaxActualTimespan (p : Params) : Z :=
  Z.quot (i64 (AveragingWindowTimespan p * (100 + nPowMaxAdjustDown p))) 100.

(** ** Big-integer notation of the source *)

(** [arith_uint256(uint64_t)]; a signed argument is converted. *)
Definition arith_u64 (b : Z) : limbs := base_uint_u64 8 (u64 b).

(** [operator<] and [operator>]. *)
Definition a_lt (a b : limbs) : bool := CompareTo a b <? 0.
Definition a_gt (a b : limbs) : bool := 0 <? CompareTo a b.
(** [operator==] compares the limbs. *)
Definition a_eq (a b : limbs) : bool := bool_decide (a = b).

Abbreviation powM := (res unit).

Definition a_div (a b : limbs) : powM limbs := op_div a b.

(** [SetCompact] where the flags are not asked for. *)
Definition set_compact (nCompact : Z) : limbs := (SetCompact nCompact).1.1.

(** [GetCompact()]. *)
Definition get_compact (a : limbs) : powM Z := GetCompact a false.

Section Pow.
Context (G : Globals) (P : Params).

Abbreviation T := (ASSETCHAINS_BLOCKTIME G).
Definition K : Z := 1000000.

(** The two limits of the target. *)
Definition bnLimit : limbs :=
  UintToArith256 (if ASSETCHAINS_ALGO G =? ASSETCHAINS_EQUIHASH G
                  then powLimit P else powAlternate P).

(** ** Adaptive rules *)

(** [ts[i]] and [zflags[i]] are [index_]; the code does not guard these reads of
    the three arrays. *)
Definition ct_at (ct : list limbs) (i : Z) : powM limbs :=
  match ct !! Z.to_nat i with Some c => Ok c | None => Exn oob_read end.

Definition RT_CST_RST_outer (blk_nTime : Z) (bnTarget : limbs) (ts : list Z) (ct : list limbs)
    (numerator denominator W : Z) : powM limbs :=
  mintarget ← a_div bnTarget (arith_u64 2);
  cmpval ← quot_ (i32 (T * numerator)) denominator;
  let cmpval := if cmpval <? 2 then 2 else cmpval in
  ts0 ← index_ ts 0;
  tsW ← index_ ts W;
  let span := u32 (ts0 - tsW) in
  if span <? u32 cmpval then
    outerK ←
      quot_ (i64 (i64 (i64 (K * u32 (blk_nTime - ts0)) * span) * denominator))
            (i32 (numerator * i32 (T * T)));
    bnTarget ←
      (if outerK <? K then
         ct0 ← ct_at ct 0;
         t ← a_div ct0 (arith_u64 K);
         Ok (op_mul t (arith_u64 outerK))
       else Ok bnTarget);
    Ok (if a_gt bnTarget mintarget then mintarget else bnTarget)
  else Ok bnTarget.

(** [bnTarget = ct[0]; for (i = 1; i < width; i++) bnTarget += ct[i]]. *)
Fixpoint sum_loop (n : nat) (i : Z) (ct : list limbs) (bnTarget : limbs) : powM limbs :=
  match n with
  | O => Ok bnTarget
  | S n => c ← ct_at ct i; sum_loop n (i + 1) ct (op_add bnTarget c)
  end.

Definition sum_ct (ct : list limbs) (width : Z) : powM limbs :=
  c ← ct_at ct 0; sum_loop (Z.to_nat (width - 1)) 1 ct c.

Definition RT_CST_RST_target (blk_nTime : Z) (ts : list Z) (ct : list limbs) (width : Z)
    : powM limbs :=
  bnTarget ← sum_ct ct width;
  bnTarget ← a_div bnTarget (arith_u64 (i64 (width * K)));
  ts0 ← index_ ts 0;
  tsw ← index_ ts width;
  innerK ←
    quot_ (i64 (i64 (K * u32 (blk_nTime - ts0)) * u32 (ts0 - tsw)))
          (i32 (i32 (width * T) * T));
  Ok (op_mul bnTarget (arith_u64 innerK)).

Definition RT_CST_RST_inner (blk_nTime : Z) (bnTarget : limbs) (ts : list Z) (ct : list limbs)
    (W outeri : Z) : powM limbs :=
  let width := i32 (outeri + W) in
  let expected := i32 (i32 (width + 1) * T) in
  let origtarget := bnTarget in
  ts0 ← index_ ts 0;
  tsw ← index_ ts width;
  let elapsed := i32 (u32 (ts0 - tsw)) in
  if elapsed <? expected then
    q ← a_div bnTarget (arith_u64 101);
    let mintarget := op_mul q (arith_u64 100) in
    bnTarget ← RT_CST_RST_target blk_nTime ts ct W;
    Ok (if a_eq bnTarget origtarget then mintarget else bnTarget)
  else Ok bnTarget.

Definition zawy_targetMA (easy bnSum : limbs) (num numerator divisor : Z) : powM limbs :=
  bnSum ← a_div bnSum (arith_u64 (i32 (i32 (i32 (T * num) * num) * divisor)));
  let bnSum := op_mul bnSum (arith_u64 numerator) in
  Ok (if a_gt bnSum easy then easy else bnSum).

(** [for (i = 1; i <= n; i++) A *= 3]. *)
Definition pow3 (n : Z) : Z := Nat.iter (Z.to_nat n) (fun A => i64 (A * 3)) 1.

Definition zawy_exponential_val360000 (num : Z) : powM Z :=
  n ← quot_ num T;
  let A := if 0 <? n then pow3 n else 1 in
  let modval := Z.rem num T in
  let B := 3600 * 100 in
  B ←
    (if negb (modval =? 0) then
       b1 ← quot_ (i32 (3600 * 110 * modval)) T;
       b2 ← quot_ (i32 (i32 (3600 * 60 * modval) * modval)) (i32 (T * T));
       Ok (i64 (i64 (B + b1) + b2))
     else Ok B);
  Ok (i64 (A * B)).

Definition zawy_exponential (bnTarget : limbs) (mult : Z) : powM limbs :=
  bnTarget ← a_div bnTarget (arith_u64 (100 * 3600));
  val ← zawy_exponential_val360000 mult;
  Ok (op_mul bnTarget (arith_u64 val)).

Definition zawy_ctB (bnTarget : limbs) (solvetime : Z) : powM limbs :=
  num ← quot_ (i64 (i64 (i64 (1000 * solvetime) * solvetime) * 1000))
              (i32 (i32 (T * T) * 784));
  if 1 <? num then
    bnTarget ← a_div bnTarget (arith_u64 1000);
    Ok (op_mul bnTarget (arith_u64 num))
  else Ok bnTarget.

Definition zawy_TSA_EMA (tipdiff : Z) (prevTarget : limbs) : powM limbs :=
  let tipdiff := if tipdiff <? 4 then 4 else tipdiff in
  let tipdiff := Z.land tipdiff (Z.lnot 1) in
  bnTarget ← a_div prevTarget (arith_u64 (i64 (K * T)));
  let A := op_mul bnTarget (arith_u64 T) in
  val ← zawy_exponential_val360000 (Z.quot tipdiff 2);
  q ← a_div bnTarget (arith_u64 360000);
  let B := op_mul q (arith_u64 (i64 (tipdiff * val))) in
  let C := op_mul q (arith_u64 (i64 (T * val))) in
  r ← a_div (op_sub (op_add A B) C) (arith_u64 tipdiff);
  Ok (op_mul r (arith_u64 (i64 (K * T)))).

(** ** The averaging retarget *)

(** The dampened timespan, clamped unless adaptive proof of work is on. *)
Definition actual_timespan (nLastBlockTime nFirstBlockTime : Z) : Z :=
  let n := i64 (nLastBlockTime - nFirstBlockTime) in
  let n := i64 (AveragingWindowTimespan P + Z.quot (i64 (n - AveragingWindowTimespan P)) 4) in
  if ASSETCHAINS_ADAPTIVEPOW G <=? 0 then
    let n := if n <? MinActualTimespan P then MinActualTimespan P else n in
    if MaxActualTimespan P <? n then MaxActualTimespan P else n
  else n.

(** [bnNew *= nActualTimespan] selects the 32-bit overload of the product. *)
Definition CalculateNextWorkRequired (bnAvg : limbs) (nLastBlockTime nFirstBlockTime : Z)
    : powM Z :=
  let nActualTimespan := actual_timespan nLastBlockTime nFirstBlockTime in
  bnNew ← a_div bnAvg (arith_u64 (AveragingWindowTimespan P));
  let bnNew := op_mul32 bnNew (u32 nActualTimespan) in
  let bnNew := if a_gt bnNew bnLimit then bnLimit else bnNew in
  get_compact bnNew.

(** ** The next work *)

Definition NCT : nat := 64.

(** An array of [NCT] elements filled from the newest blocks, the rest zero. *)
Definition fill {A} (d : A) (f : CBlockIndex -> A) (chain : list CBlockIndex) : list A :=
  map f (take NCT chain) ++ repeat d (NCT - length (take NCT chain)).

(** The solvetime correction of the targets marked by their low bits. *)
Fixpoint ctB_loop (zflags ts : list Z) (ct : list limbs) : powM (list limbs) :=
  match zflags, ts, ct with
  | z :: zflags, t :: ((t' :: _) as ts), c :: ct =>
      c ← (if (z =? 1) || (z =? 2) then zawy_ctB c (u32 (t - t')) else Ok c);
      ct ← ctB_loop zflags ts ct;
      Ok (c :: ct)
  | _, _, _ => Ok ct
  end.

(** What the first part of [GetNextWorkRequired] leaves for the rest. *)
Record adaptive := {
  ad_ts : list Z;
  ad_ct : list limbs;
  ad_zflags : list Z;
  ad_tipdiff : Z;
  ad_mult : Z;
}.

Definition adaptive_none : adaptive := {|
  ad_ts := repeat 0 NCT;
  ad_ct := repeat (repeat 0 8) NCT;
  ad_zflags := repeat 0 NCT;
  ad_tipdiff := 0;
  ad_mult := 0;
|}.

(** The arrays of the newest 64 blocks, when the chain is long enough. *)
Definition adaptive_arrays (chain : list CBlockIndex) (last : CBlockIndex) (blk_nTime : Z)
    : powM adaptive :=
  let tipdiff := i32 (u32 (blk_nTime - nTime last)) in
  let zflags := fill 0 (fun b => Z.land (nBits b) 3) chain in
  let ts := fill 0 nTime chain in
  let ct := fill (repeat 0 8) (fun b => set_compact (nBits b)) chain in
  ct ← (match drop NCT chain with [] => Ok ct | _ => ctB_loop zflags ts ct end);
  Ok {| ad_ts := ts; ad_ct := ct; ad_zflags := zflags;
        ad_tipdiff := tipdiff; ad_mult := i32 (tipdiff - i32 (7 * T)) |}.

(** The loop over the averaging window: the total, the multiplier, and the
    blocks below the window. *)
Fixpoint window_loop (fuel : nat) (ad : adaptive) (pblock : option Z) (i : Z)
    (chain : list CBlockIndex) (bnTot : limbs) (mult : Z) : powM (limbs * Z * list CBlockIndex) :=
  match fuel, chain with
  | S fuel, b :: chain' =>
      let bnTmp := set_compact (nBits b) in
      match pblock with
      | Some blk_nTime =>
          if 0 <? ASSETCHAINS_ADAPTIVEPOW G then
            let diff := i32 (u32 (blk_nTime - nTime b)) in
            let diff6 := i32 (diff - i32 ((8 + i) * T)) in
            let mult := if (i <? 6) && (mult <? diff6) then diff6 else mult in
            zi ← index_ (ad_zflags ad) i;
            z0 ← index_ (ad_zflags ad) 0;
            bnTmp ←
              (if negb (zi =? 0) && (z0 =? 0) then
                 q ← a_div bnTmp (arith_u64 8); Ok (op_mul q (arith_u64 7))
               else Ok bnTmp);
            window_loop fuel ad pblock (i + 1) chain' (op_add bnTot bnTmp) mult
          else window_loop fuel ad pblock (i + 1) chain' (op_add bnTot bnTmp) mult
      | None => window_loop fuel ad pblock (i + 1) chain' (op_add bnTot bnTmp) mult
      end
  | _, _ => Ok (bnTot, mult, chain)
  end.

(** The five outer triggers, tried in order until one lowers the target. *)
Fixpoint outer_triggers (l : list (Z * Z * Z)) (blk_nTime : Z) (origtarget bnTarget : limbs)
    (ad : adaptive) : powM (limbs * Z) :=
  match l with
  | [] => Ok (bnTarget, 0)
  | (numerator, denominator, W) :: l =>
      bnTarget ← RT_CST_RST_outer blk_nTime origtarget (ad_ts ad) (ad_ct ad) numerator denominator W;
      if a_lt bnTarget origtarget then Ok (bnTarget, 2)
      else outer_triggers l blk_nTime origtarget bnTarget ad
  end.

(** The first trigger depends on the block time; a chain with blocks faster
    than a minute has none. *)
Definition outer_list : list (Z * Z * Z) :=
  (if (60 <=? T) && (T <? 100) then [(1, 60, 1)]
   else if 100 <=? T then [(1, 100, 1)] else [])
  ++ [(15, 100, 2); (1, 2, 3); (7, 3, 6); (12, 7, 12)].

(** One of the windows of the inner triggers. *)
Definition inner_step (blk_nTime : Z) (ad : adaptive) (i : Z) (st : limbs) (wl : Z * Z)
    : powM limbs :=
  if i <? wl.2 then
    t ← RT_CST_RST_inner blk_nTime st (ad_ts ad) (ad_ct ad) wl.1 i;
    Ok (if a_lt t st then t else st)
  else Ok st.

Fixpoint inner_steps (l : list (Z * Z)) (blk_nTime : Z) (ad : adaptive) (i : Z) (st : limbs)
    : powM limbs :=
  match l with
  | [] => Ok st
  | wl :: l => st ← inner_step blk_nTime ad i st wl; inner_steps l blk_nTime ad i st
  end.

(** [for (i = 0; i < 50; i++) if (zflags[i] == 2) break;]. *)
Fixpoint find_flag (fuel : nat) (i : Z) (zflags : list Z) : powM Z :=
  match fuel with
  | O => Ok i
  | S fuel => z ← index_ zflags i; if z =? 2 then Ok i else find_flag fuel (i + 1) zflags
  end.

Definition inner_triggers (blk_nTime : Z) (bnTarget : limbs) (ad : adaptive)
    : powM (limbs * Z) :=
  let origtarget := bnTarget in
  i ← find_flag 50 0 (ad_zflags ad);
  bnTarget ←
    (if i <? 10 then
       t ← RT_CST_RST_inner blk_nTime bnTarget (ad_ts ad) (ad_ct ad) 1 i;
       Ok (if a_gt t origtarget then origtarget else t)
     else Ok bnTarget);
  bnTarget ← inner_steps [(2, 20); (3, 30); (6, 40); (12, 50)] blk_nTime ad i bnTarget;
  Ok (bnTarget, if a_eq bnTarget origtarget then 0 else 1).

(** The adaptive correction of the averaged target: a compact word returned at
    once, or the new target and the flag stored in its low bits. *)
Definition adaptive_target (blk_nTime : Z) (ad : adaptive) (mult : Z) (bnTarget : limbs)
    : powM (Z + limbs * Z) :=
  let easy := set_compact (Z.land KOMODO_MINDIFF_NBITS (Z.lnot 3)) in
  z0 ← index_ (ad_zflags ad) 0;
  r ← (if (z0 =? 0) || (z0 =? 3)
       then outer_triggers outer_list blk_nTime bnTarget bnTarget ad
       else inner_triggers blk_nTime bnTarget ad);
  if 1 <? mult then
    let origtarget := r.1 in
    bnTarget ← zawy_exponential r.1 mult;
    if a_lt bnTarget origtarget || a_gt bnTarget easy
    then Ok (inl (Z.land KOMODO_MINDIFF_NBITS (Z.lnot 3)))
    else Ok (inr (bnTarget, r.2))
  else Ok (inr r).

(** The low two bits of the compact word carry the flag. *)
Definition with_flag (nbits zawyflag : Z) : Z := Z.lor (Z.land nbits 0xfffffffc) zawyflag.

Definition GetNextWorkRequired (chain : list CBlockIndex) (pblock : option Z) : powM Z :=
  nProofOfWorkLimit ← get_compact bnLimit;
  match chain with
  | [] => Ok nProofOfWorkLimit
  | last :: _ =>
      let height := i32 (nHeight last + 1) in
      let adaptive_on :=
        match pblock with
        | Some _ => (0 <? ASSETCHAINS_ADAPTIVEPOW G) && (Z.of_nat NCT <=? height)
        | None => false
        end in
      ad ← (match pblock with
            | Some blk_nTime =>
                if adaptive_on then adaptive_arrays chain last blk_nTime else Ok adaptive_none
            | None => Ok adaptive_none
            end);
      if adaptive_on && (ASSETCHAINS_ADAPTIVEPOW G =? 2) then
        ct0 ← ct_at (ad_ct ad) 0;
        bnTarget ← zawy_TSA_EMA (ad_tipdiff ad) ct0;
        nbits ← get_compact bnTarget;
        Ok (with_flag nbits 0)
      else
        w ← window_loop (Z.to_nat (nPowAveragingWindow P)) ad pblock 0 chain (repeat 0 8) (ad_mult ad);
        let '(bnTot, mult, first) := w in
        match first with
        | [] => Ok nProofOfWorkLimit
        | _ =>
            bnAvg ← a_div bnTot (arith_u64 (nPowAveragingWindow P));
            nbits ← CalculateNextWorkRequired bnAvg (GetMedianTimePast chain)
                      (GetMedianTimePast first);
            if 0 <? ASSETCHAINS_ADAPTIVEPOW G then
              let bnTarget := set_compact nbits in
              match pblock with
              | Some blk_nTime =>
                  if (Z.of_nat NCT <? height) && (0 <? ad_tipdiff ad) then
                    r ← adaptive_target blk_nTime ad mult bnTarget;
                    match r with
                    | inl nbits => Ok nbits
                    | inr (bnTarget, zawyflag) =>
                        nbits ← get_compact bnTarget; Ok (with_flag nbits zawyflag)
                    end
                  else nbits ← get_compact bnTarget; Ok (with_flag nbits 0)
              | None => nbits ← get_compact bnTarget; Ok (with_flag nbits 0)
              end
            else Ok nbits
        end
  end.
End Pow.

(** ** The work of a block *)

Definition GetBlockProof (block_nBits : Z) : powM limbs :=
  let '(bnTarget, fNegative, fOverflow) := SetCompact block_nBits in
  if fNegative || fOverflow || EqualTo bnTarget 0 then Ok (repeat 0 8)
  else
    q ← a_div (op_compl bnTarget) (op_add bnTarget (arith_u64 1));
    Ok (op_add q (arith_u64 1)).

(** [sign * r.GetLow64()] is a 64-bit unsigned product converted back. *)
Definition GetBlockProofEquivalentTime (P : Params) (to from tip : CBlockIndex) : powM Z :=
  let '(r, sign) :=
    if a_gt (nChainWork to) (nChainWork from)
    then (op_sub (nChainWork to) (nChainWork from), 1)
    else (op_sub (nChainWork from) (nChainWork to), -1) in
  proof ← GetBlockProof (nBits tip);
  r ← a_div (op_mul r (arith_u64 (nPowTargetSpacing P))) proof;
  if 63 <? bits r then Ok (sign * INT64_MAX)
  else Ok (i64 (u64 (sign * GetLow64 r))).

(** ** Notary priority *)

(** The notaries allowed a second block: those among the first [nPos + 1] of the
    priority list, and all of them behind its last range. *)
Definition isSecondBlockAllowed (notaryid blocktime threshold delta : Z)
    (vPriorityList : list Z) : bool :=
  if (threshold <=? blocktime) && (0 <? delta) && (zlen vPriorityList =? 64)
     && (0 <=? notaryid)
  then
    let nPos := u32 (blocktime - threshold) / delta in
    if nPos <? zlen vPriorityList
    then existsb (Z.eqb notaryid) (take (Z.to_nat (nPos + 1)) vPriorityList)
    else true
  else false.

(** [it = std::find(..); if (it != end && next(it) != end)
    std::rotate(it, next(it), end)]: the element moves to the end. *)
Fixpoint move_to_end (x : Z) (l : list Z) : list Z :=
  match l with
  | [] => []
  | y :: l' => if y =? x then l' ++ [y] else y :: move_to_end x l'
  end.

(** The priority list: notaries 0..63, those of [mids[65]] down to [mids[1]]
    moved to the end in turn. *)
Definition build_priority (mids : list Z) : list Z :=
  fold_left (fun l m => if m =? -1 then l else move_to_end m l) (rev (drop 1 mids))
    (map Z.of_nat (seq 0 64)).

(** ** The proof-of-work check *)

(** What the notary functions of the komodo sources answer for a block:
    [komodo_chosennotary], [komodo_eligiblenotary], [komodo_is_special] and the
    state of the active chain. *)
Record NotaryAnswers := {
  na_tiptime : Z;
  na_currentheight : Z;
  na_special : Z;
  na_notaryid : Z;
  na_flag : Z;
  na_mids : list Z;
  na_blocktimes : list Z;
  na_special2 : Z;
}.

Definition KOMODO_ELECTION_GAP : Z := 2000.

(** The flag of a notary block by height. *)
Definition notary_flag (height special special2 flag : Z) : Z :=
  if (10000 <? height) && (height <? 80000) && (negb (special =? 0) || (0 <? special2)) then 1
  else if (80000 <=? height) && (height <? 108000) && (0 <? special2) then 1
  else if (108000 <=? height) && (0 <? special2) then
    if (1000000 <? height) || (64 <? Z.rem height KOMODO_ELECTION_GAP)
       || (Z.rem height KOMODO_ELECTION_GAP =? 0) then 1 else 0
  else if height =? 790833 then 1
  else if special2 <? 0 then if 792000 <? height then 0 else flag
  else flag.

(** The reconsidered [special2] of hard fork 22. *)
Definition hf22_special2 (G : Globals) (P : Params) (N : NotaryAnswers) (blk_nTime height : Z)
    : Z :=
  match nHF22Height P with
  | None => na_special2 N
  | Some nHeightAfterGAP =>
      let nMaxGAPAllowed := u32 (nMaxFutureBlockTime P + 1) in
      if chain_isKMD G && (nHeightAfterGAP <? u32 height)
         && (u32 (na_tiptime N + nMaxGAPAllowed) <=? blk_nTime)
         && (na_tiptime N =? at_ (na_blocktimes N) 1)
         && ((na_special2 N =? -1) || (na_special2 N =? 1))
         && isSecondBlockAllowed (na_notaryid N) blk_nTime
              (u32 (na_tiptime N + nMaxGAPAllowed)) (nHF22NotariesPriorityRotateDelta P)
              (build_priority (na_mids N))
      then 2 else na_special2 N
  end.

(** [CheckProofOfWork] on the header fields it reads; the special rules for
    notaries replace the target by the minimum difficulty. *)
Definition CheckProofOfWork (G : Globals) (P : Params) (N : NotaryAnswers)
    (blk_nBits blk_nTime : Z) (blk_hash pubkey33 : list Z) (height : Z) : bool :=
  let height := if height =? 0 then i32 (na_currentheight N + 1) else height in
  let kmd := (34000 <? height) && chain_isKMD G in
  if kmd && forallb (Z.eqb 0) pubkey33 then true
  else
    let flag := notary_flag height (na_special N) (na_special2 N) (na_flag N) in
    let special2 := hf22_special2 G P N blk_nTime height in
    let easy := kmd && (0 <=? na_notaryid N)
                && (negb (flag =? 0) || (0 <? special2)) && negb (special2 =? -2) in
    let '(bnTarget, fNegative, fOverflow) :=
      SetCompact (if easy then KOMODO_MINDIFF_NBITS else blk_nBits) in
    let limit :=
      UintToArith256 (if (height <=? 1) || (ASSETCHAINS_ALGO G =? ASSETCHAINS_EQUIHASH G)
                      then powLimit P else powAlternate P) in
    if fNegative || EqualTo bnTarget 0 || fOverflow || a_gt bnTarget limit then false
    else
      let bnTarget :=
        if negb (ASSETCHAINS_STAKED G =? 0) then set_compact KOMODO_MINDIFF_NBITS else bnTarget in
      if a_gt (UintToArith256 blk_hash) bnTarget then
        if KOMODO_LOADINGBLOCKS G then true
        else negb (negb (chain_isKMD G) || (792000 <? height))
      else true.
