(* ===== verification/PowSpec.v ===== *)
(** * Properties of the difficulty and proof-of-work rules

    Results of pow.cpp against integer arithmetic: the work of a block, the
    bounds of the averaging retarget, that no rule divides by zero or fails an
    assertion, the fairness of the notary priority, and what an accepted proof
    of work means. *)
From S2P Require Import Prelude Endian ArithUint256 ArithUint256Spec Compact BlockIndex Pow.

(** ** Total computations *)

(** A computation that returns, with a result in [Q]. *)
Definition total {A} (Q : A -> Prop) (m : powM A) : Prop := exists a, m = Ok a /\ Q a.




(** ** 256-bit numbers *)

Definition arith_ok (a : limbs) : Prop := wf a /\ length a = 8%nat.

Lemma arith_range a : arith_ok a -> 0 <= lval a < 2 ^ 256.
Proof. intros [Hw Hl]; apply (lval_range_len a 8 Hw Hl). Qed.

Lemma arith_zero : arith_ok (repeat 0 8) /\ lval (repeat 0 8) = 0.
Proof. repeat split; auto. Qed.

Lemma arith_u64_spec b : is_u64 b -> arith_ok (arith_u64 b) /\ lval (arith_u64 b) = b.
Proof.
  intros Hb; unfold arith_u64; rewrite uwrap_small by exact Hb.
  destruct (lval_base_uint_u64 8 b) as (V & W & L); [lia | assumption |].
  repeat split; auto.
Qed.

Lemma arith_u64_ok b : arith_ok (arith_u64 b).
Proof.
  destruct (lval_base_uint_u64 8 (u64 b)) as (_ & W & L); [lia | apply uwrap_range; lia |].
  split; assumption.
Qed.

Lemma arith_add a b : arith_ok a -> arith_ok b ->
  arith_ok (op_add a b) /\ lval (op_add a b) = (lval a + lval b) mod 2 ^ 256.
Proof.
  intros [Ha La] [Hb Lb]; destruct (op_add_spec a b Ha Hb) as (W & L & V); [congruence |].
  rewrite La in V; repeat split; auto; congruence.
Qed.

Lemma arith_sub a b : arith_ok a -> arith_ok b ->
  arith_ok (op_sub a b) /\ lval (op_sub a b) = (lval a - lval b) mod 2 ^ 256.
Proof.
  intros [Ha La] [Hb Lb]; destruct (op_sub_spec a b Ha Hb) as (W & L & V); [congruence |].
  rewrite La in V; repeat split; auto; congruence.
Qed.

Lemma arith_mul a b : arith_ok a -> arith_ok b ->
  arith_ok (op_mul a b) /\ lval (op_mul a b) = (lval a * lval b) mod 2 ^ 256.
Proof.
  intros [Ha La] [Hb Lb]; destruct (op_mul_spec a b Ha Hb) as (W & L & V); [congruence |].
  rewrite La in V; repeat split; auto; congruence.
Qed.

Lemma arith_mul32 a n : arith_ok a -> is_u32 n ->
  arith_ok (op_mul32 a n) /\ lval (op_mul32 a n) = (lval a * n) mod 2 ^ 256.
Proof.
  intros [Ha La] Hn; destruct (op_mul32_spec a n Ha Hn) as (W & L & V).
  rewrite La in V; repeat split; auto; congruence.
Qed.

Lemma arith_compl a : arith_ok a ->
  arith_ok (op_compl a) /\ lval (op_compl a) = 2 ^ 256 - 1 - lval a.
Proof.
  intros [Ha La]; destruct (op_compl_spec a Ha) as (W & L & V).
  rewrite La in V; repeat split; auto; congruence.
Qed.

Lemma a_div_spec a b : arith_ok a -> arith_ok b -> lval b <> 0 ->
  total (fun q => arith_ok q /\ lval q = lval a / lval b) (a_div a b).
Proof.
  intros [Ha La] [Hb Lb] Hz; pose proof (op_div_spec (E := unit) a b Ha Hb) as H.
  rewrite (proj2 (Z.eqb_neq _ _) Hz) in H; destruct H as (q & E & W & L & V); [congruence |].
  exists q; split; [exact E |]; repeat split; auto; congruence.
Qed.

(** Division by a small constant. *)
Lemma a_div_u64 a n : arith_ok a -> 0 < n < 2 ^ 64 ->
  total (fun q => arith_ok q /\ lval q = lval a / n) (a_div a (arith_u64 n)).
Proof.
  intros Ha Hn; destruct (arith_u64_spec n) as [Hb V]; [unfold is_u64; lia |].
  pose proof (a_div_spec a _ Ha Hb ltac:(lia)) as H; now rewrite V in H.
Qed.

Lemma a_gt_spec a b : arith_ok a -> arith_ok b -> a_gt a b = (lval b <? lval a).
Proof.
  intros [Ha La] [Hb Lb]; unfold a_gt; rewrite CompareTo_spec by congruence || assumption.
  destruct (Z.compare_spec (lval a) (lval b)); cbn; zbool; lia || reflexivity.
Qed.

Lemma a_lt_spec a b : arith_ok a -> arith_ok b -> a_lt a b = (lval a <? lval b).
Proof.
  intros [Ha La] [Hb Lb]; unfold a_lt; rewrite CompareTo_spec by congruence || assumption.
  destruct (Z.compare_spec (lval a) (lval b)); cbn; zbool; lia || reflexivity.
Qed.

Lemma set_compact_ok c : is_u32 c -> arith_ok (set_compact c).
Proof.
  intros Hc; pose proof (SetCompact_spec c Hc) as H; unfold set_compact.
  destruct (SetCompact c) as [[t neg] ovf]; split; apply H.
Qed.

(** No compact word denotes the largest number. *)
Lemma SetCompact_not_max c t neg ovf :
  is_u32 c -> SetCompact c = (t, neg, ovf) -> lval t <> 2 ^ 256 - 1.
Proof.
  intros Hc Hs; pose proof (SetCompact_spec c Hc) as H; rewrite Hs in H.
  destruct H as (_ & _ & V & _); rewrite V; pose proof (c_word_range c) as Hw.
  assert (0 <= c_size c) by (apply Z.div_pos; unfold is_u32 in Hc; lia).
  unfold compact_val; destruct (Z.leb_spec (c_size c) 3) as [Hle | Hgt].
  - pose proof (pow256_pos' (3 - c_size c) ltac:(lia)).
    assert (0 <= c_word c / 256 ^ (3 - c_size c) <= c_word c)
      by (split; [apply Z.div_pos | apply Z.div_le_upper_bound]; nia).
    rewrite Z.mod_small; lia.
  - intros E; apply (f_equal (fun x => x mod 2)) in E.
    rewrite Z.mod_mod_divide in E by (exists (2 ^ 255); lia).
    replace (256 ^ (c_size c - 3)) with (256 ^ (c_size c - 4) * 256) in E.
    + replace (c_word c * (256 ^ (c_size c - 4) * 256))
        with (c_word c * 256 ^ (c_size c - 4) * 128 * 2) in E by ring.
      rewrite Z.mod_mul in E by lia; vm_compute in E; discriminate.
    + change 256 with (256 ^ 1) at 2; rewrite <- Z.pow_add_r by lia; f_equal; lia.
Qed.

(** A compact word is below the number it was made from. *)
Lemma get_compact_spec a : arith_ok a ->
  total (fun c => is_u32 c /\ lval (set_compact c) <= lval a) (get_compact a).
Proof.
  intros [Ha La]; unfold get_compact.
  pose proof (arith_range a (conj Ha La)) as Hr.
  destruct (Z.eq_dec (lval a) 0) as [Hz | Hnz].
  { rewrite GetCompact_zero by assumption; exists 0; split; [reflexivity |].
    split; [unfold is_u32; lia |]; change (lval (set_compact 0)) with 0; lia. }
  destruct (GetCompact_rep (E := unit) a Ha La ltac:(lia)) as (s & m & -> & Hrep & Hs).
  pose proof Hrep as (Hm & Hs0 & _); destruct (compact_val_rep _ _ _ Hrep) as (Hy & _ & _).
  exists (m + s * 2 ^ 24); split; [reflexivity |].
  assert (Hc : is_u32 (m + s * 2 ^ 24)) by (unfold is_u32; lia); split; [assumption |].
  pose proof (SetCompact_spec _ Hc) as H; unfold set_compact.
  destruct (SetCompact _) as [[t neg] ovf]; destruct H as (_ & _ & V & _).
  destruct (c_fields m s ltac:(lia)) as [Fs Fw]; rewrite Fs, Fw in V; cbn [fst].
  rewrite Z.mod_small in V by lia; lia.
Qed.

#[export] Hint Resolve arith_u64_ok set_compact_ok : core.

(** ** No rule divides by zero *)




Lemma arith_mul_u64 a n : arith_ok a -> arith_ok (op_mul a (arith_u64 n)).
Proof. intros Ha; now apply arith_mul. Qed.

Lemma arith_add_ok a b : arith_ok a -> arith_ok b -> arith_ok (op_add a b).
Proof. intros; now apply arith_add. Qed.

Lemma arith_if (b : bool) x y : arith_ok x -> arith_ok y -> arith_ok (if b then x else y).
Proof. now destruct b. Qed.
#[export] Hint Resolve arith_mul_u64 arith_add_ok arith_if : core.

Lemma UintToArith256_ok l : bytes l -> arith_ok (UintToArith256 l).
Proof.
  unfold UintToArith256; split; [| reflexivity].
  generalize 8%nat as w; intros w; revert l H; induction w as [| w IH]; intros l Hb; constructor.
  - unfold ReadLE32; pose proof (le_val_range (take 4 l) (Forall_take _ _ _ Hb)) as Hr.
    assert (256 ^ zlen (take 4 l) <= 256 ^ 4).
    { apply Z.pow_le_mono_r; [lia |]; unfold zlen; rewrite length_take; lia. }
    unfold is_u32; change (2 ^ 32) with (256 ^ 4); lia.
  - apply IH; auto using Forall_drop.
Qed.




Section Total.
Context (G : Globals) (P : Params).

Abbreviation T := (ASSETCHAINS_BLOCKTIME G).

(** The block time is positive and no multiple of [2^14]. *)
Context (HT : 0 < T < 2 ^ 31) (HT14 : T mod 2 ^ 14 <> 0).

















(** ** The adaptive rules *)














End Total.

(** ** The next work is always defined *)

Section Next.
Context (G : Globals) (P : Params).
Context (HT : 0 < ASSETCHAINS_ADAPTIVEPOW G ->
  0 < ASSETCHAINS_BLOCKTIME G < 2 ^ 31 /\ ASSETCHAINS_BLOCKTIME G mod 2 ^ 14 <> 0).
Context (Hwin : 0 < nPowAveragingWindow P <= 64).
Context (Hspan : 0 < nPowAveragingWindow P * nPowTargetSpacing P < 2 ^ 63).
Context (Hlim : bytes (powLimit P)) (Halt : bytes (powAlternate P)).


Lemma bnLimit_ok : arith_ok (bnLimit G P).
Proof. unfold bnLimit; apply UintToArith256_ok; now destruct (_ =? _). Qed.



End Next.

(** ** The notary priority *)

Lemma move_to_end_perm x l : move_to_end x l ≡ₚ l.
Proof.
  induction l as [| y l IH]; cbn [move_to_end]; [reflexivity |].
  destruct (y =? x); [now rewrite <- Permutation_cons_append | now rewrite IH].
Qed.

Lemma build_priority_perm mids : build_priority mids ≡ₚ map Z.of_nat (seq 0 64).
Proof.
  unfold build_priority; generalize (rev (drop 1 mids)) as l, (map Z.of_nat (seq 0 64)) as start.
  induction l as [| m l IH]; intros start; cbn [fold_left]; [reflexivity |].
  rewrite IH; destruct (m =? -1); [reflexivity | apply move_to_end_perm].
Qed.

Lemma build_priority_length mids : zlen (build_priority mids) = 64.
Proof. unfold zlen; now rewrite (Permutation_length (build_priority_perm mids)). Qed.

Lemma existsb_In x l : existsb (Z.eqb x) l = true <-> In x l.
Proof.
  rewrite existsb_exists; split.
  - intros (y & Hy & E); apply Z.eqb_eq in E; now subst.
  - intros H; exists x; split; [assumption | apply Z.eqb_refl].
Qed.

Lemma In_take_mono {A} (x : A) n m l : (n <= m)%nat -> In x (take n l) -> In x (take m l).
Proof.
  intros Hnm H; rewrite <- (take_drop n (take m l)); apply in_or_app; left.
  now rewrite take_take, Nat.min_l.
Qed.

(** ** Retargeting without the adaptive rules *)

Section Retarget.
Context (G : Globals) (P : Params).
Context (Hoff : ASSETCHAINS_ADAPTIVEPOW G <= 0).

Lemma timespan_clamped tl tf :
  MinActualTimespan P <= MaxActualTimespan P ->
  MinActualTimespan P <= actual_timespan G P tl tf <= MaxActualTimespan P.
Proof.
  intros Hmm; unfold actual_timespan; rewrite (proj2 (Z.leb_le _ _) Hoff).
  zbool; lia.
Qed.
End Retarget.

(** ** Time of a difference in work *)

Lemma signed_low64 sign r :
  arith_ok r -> bits r <= 63 -> sign = 1 \/ sign = -1 ->
  i64 (u64 (sign * GetLow64 r)) = sign * lval r.
Proof.
  intros [W L] Hb Hs; rewrite GetLow64_spec by (assumption || lia).
  pose proof (lval_range r W) as Hr; rewrite bits_spec in Hb by assumption.
  assert (lval r < 2 ^ 63).
  { destruct (Z.eqb_spec (lval r) 0); [lia |]; apply Z.log2_lt_pow2; lia. }
  rewrite Z.mod_small by lia; unfold uwrap, swrap.
  rewrite Zplus_mod_idemp_l; change (2 ^ (64 - 1)) with (2 ^ 63).
  rewrite Z.mod_small by (destruct Hs as [-> | ->]; lia); lia.
Qed.

(** The difference of work [d] in seconds at the work [w] of a block. *)
Definition work_time (P : Params) (d w : Z) : Z :=
  Z.min INT64_MAX ((d * nPowTargetSpacing P) mod 2 ^ 256 / w).

Lemma saturated_time P x y w sign :
  arith_ok x -> arith_ok y -> lval y <= lval x -> arith_ok w -> lval w <> 0 ->
  is_u64 (nPowTargetSpacing P) -> sign = 1 \/ sign = -1 ->
  (r ← a_div (op_mul (op_sub x y) (arith_u64 (nPowTargetSpacing P))) w;
   if 63 <? bits r then Ok (sign * INT64_MAX) else Ok (i64 (u64 (sign * GetLow64 r))))
  = Ok (sign * work_time P (lval x - lval y) (lval w)).
Proof.
  intros Hx Hy Hle Hw Hz Hsp Hs; destruct (arith_sub x y Hx Hy) as [H1 V1].
  destruct (arith_u64_spec _ Hsp) as [H2 V2]; destruct (arith_mul _ _ H1 H2) as [H3 V3].
  pose proof (arith_range x Hx); pose proof (arith_range y Hy).
  rewrite Z.mod_small in V1 by lia; rewrite V1, V2 in V3.
  destruct (a_div_spec _ w H3 Hw Hz) as (r & -> & Hr & Vr); cbn [mbind res_bind].
  unfold work_time; rewrite <- V3, <- Vr; pose proof (arith_range r Hr) as Rr.
  pose proof (bits_spec r (proj1 Hr)) as Eb; unfold INT64_MAX.
  destruct (Z.ltb_spec 63 (bits r)) as [Hb | Hb].
  - destruct (Z.eqb_spec (lval r) 0); [lia |].
    assert (2 ^ 63 <= lval r) by (apply Z.log2_le_pow2; lia); rewrite Z.min_l by lia; reflexivity.
  - rewrite signed_low64 by assumption.
    assert (lval r < 2 ^ 63).
    { destruct (Z.eqb_spec (lval r) 0); [lia |]; apply Z.log2_lt_pow2; lia. }
    rewrite Z.min_r by lia; reflexivity.
Qed.

(** ** Properties *)

(** The work of a block is [2^256 / (target + 1)], rounded down, and zero
    for a negative, overflowing or zero target; the computation neither
    overflows nor divides by zero. *)
Theorem block_proof_exact (c : Z) (t : limbs) (fNegative fOverflow : bool) :
  is_u32 c -> SetCompact c = (t, fNegative, fOverflow) ->
  exists w, GetBlockProof c = Ok w /\ arith_ok w /\
    lval w = (if fNegative || fOverflow || (lval t =? 0) then 0 else 2 ^ 256 / (lval t + 1)).
Proof.
  intros Hc Hs; unfold GetBlockProof; rewrite Hs.
  pose proof (SetCompact_spec c Hc) as Hspec; rewrite Hs in Hspec; destruct Hspec as (W & L & _).
  assert (Ht : arith_ok t) by now split.
  pose proof (arith_range t Ht) as Hr.
  rewrite EqualTo_spec by (assumption || lia || (unfold is_u64; lia)).
  destruct (fNegative || fOverflow || (lval t =? 0)) eqn:E.
  { exists (repeat 0 8); split; [reflexivity | apply arith_zero]. }
  apply orb_false_iff in E as [_ E]; apply Z.eqb_neq in E.
  destruct (arith_compl t Ht) as [Hn Vn]; pose proof (arith_range _ Hn) as Rn.
  destruct (arith_u64_spec 1) as [H1 V1]; [unfold is_u64; lia |].
  destruct (arith_add t (arith_u64 1) Ht H1) as [Hd Vd]; rewrite V1 in Vd.
  destruct (Z.eq_dec (lval t) (2 ^ 256 - 1)) as [Emax | Emax].
  { exfalso; exact (SetCompact_not_max c t _ _ Hc Hs Emax). }
  rewrite Z.mod_small in Vd by lia.
  destruct (a_div_spec _ _ Hn Hd) as (q & Eq & Hq & Vq); [lia |].
  unfold mbind, res_bind; rewrite Eq.
  destruct (arith_add q (arith_u64 1) Hq H1) as [Ha Va]; rewrite V1, Vq, Vn, Vd in Va.
  eexists; split; [reflexivity |]; split; [assumption |]; rewrite Va.
  assert (Hdiv : 2 ^ 256 / (lval t + 1) = (2 ^ 256 - 1 - lval t) / (lval t + 1) + 1).
  { replace (2 ^ 256) with (2 ^ 256 - 1 - lval t + 1 * (lval t + 1)) at 1 by lia.
    apply Z.div_add; lia. }
  rewrite Hdiv; apply Z.mod_small; split.
  - pose proof (Z.div_pos (2 ^ 256 - 1 - lval t) (lval t + 1)); lia.
  - rewrite <- Hdiv; apply Z.div_lt; lia.
Qed.

Lemma block_proof_exact_witness :
  exists w, GetBlockProof 0x1d00ffff = Ok w /\ arith_ok w /\
    lval w = 2 ^ 256 / (lval (set_compact 0x1d00ffff) + 1).
Proof.
  apply (block_proof_exact 0x1d00ffff (set_compact 0x1d00ffff) false false);
    [unfold is_u32; lia | reflexivity].
Defined.


(** Without the adaptive rules the target moves by the measured timespan
    clamped to the allowed adjustment: it is the average scaled by the clamped
    timespan, capped at the limit of the chain, up to the precision of the
    compact format. *)
Theorem retarget_clamped (G : Globals) (P : Params) (avg : limbs) (tl tf : Z) :
  ASSETCHAINS_ADAPTIVEPOW G <= 0 ->
  0 < nPowAveragingWindow P * nPowTargetSpacing P < 2 ^ 63 ->
  0 <= MinActualTimespan P <= MaxActualTimespan P -> MaxActualTimespan P < 2 ^ 32 ->
  bytes (powLimit P) -> bytes (powAlternate P) -> arith_ok avg ->
  exists span c,
    MinActualTimespan P <= span <= MaxActualTimespan P /\
    CalculateNextWorkRequired G P avg tl tf = Ok c /\
    lval (set_compact c) <= lval (bnLimit G P) /\
    lval (set_compact c) <= lval avg / (nPowAveragingWindow P * nPowTargetSpacing P) * span.
Proof.
  intros Hoff Hs Hmm Hmax Hl Ha Havg.
  pose proof (timespan_clamped G P Hoff tl tf ltac:(lia)) as Hspan.
  unfold CalculateNextWorkRequired; set (span := actual_timespan G P tl tf) in *.
  assert (Hsw : AveragingWindowTimespan P = nPowAveragingWindow P * nPowTargetSpacing P)
    by (apply swrap_small; [lia |]; change (2 ^ (64 - 1)) with (2 ^ 63); lia).
  rewrite Hsw; set (win := nPowAveragingWindow P * nPowTargetSpacing P) in *.
  destruct (a_div_u64 avg win Havg ltac:(lia)) as (q & -> & Hq & Vq); cbn [mbind res_bind].
  rewrite (uwrap_small 32) by lia.
  destruct (arith_mul32 q span Hq) as [Hm Vm]; [unfold is_u32; lia |].
  assert (Hlim : arith_ok (bnLimit G P)) by now apply bnLimit_ok.
  destruct (get_compact_spec (if a_gt (op_mul32 q span) (bnLimit G P) then bnLimit G P
    else op_mul32 q span)) as (c & Ec & Hc & Hle); [auto |].
  exists span, c; split; [assumption |]; split; [exact Ec |].
  rewrite a_gt_spec in Hle by assumption; pose proof (arith_range q Hq).
  assert (Hmod : lval (op_mul32 q span) <= lval q * span)
    by (rewrite Vm; apply Z.mod_le; nia).
  rewrite <- Vq; destruct (Z.ltb_spec (lval (bnLimit G P)) (lval (op_mul32 q span))); lia.
Qed.

(** The priority list of hard fork 22 is a permutation of the notaries
    0..63 whatever the recent miners were; a notary that is allowed a second
    block stays allowed later, and behind the last range all notaries are. *)
Theorem notary_priority_fair (mids : list Z) (id t1 t2 threshold delta : Z) :
  is_u32 threshold -> is_u32 t1 -> is_u32 t2 -> t1 <= t2 -> 0 < delta -> 0 <= id < 64 ->
  build_priority mids ≡ₚ map Z.of_nat (seq 0 64) /\
  (isSecondBlockAllowed id t1 threshold delta (build_priority mids) = true ->
   isSecondBlockAllowed id t2 threshold delta (build_priority mids) = true) /\
  (threshold + 63 * delta <= t1 ->
   isSecondBlockAllowed id t1 threshold delta (build_priority mids) = true).
Proof.
  unfold is_u32; intros Hth H1 H2 H12 Hd Hid; split; [apply build_priority_perm |].
  unfold isSecondBlockAllowed; rewrite build_priority_length.
  rewrite (proj2 (Z.ltb_lt 0 delta) Hd), (proj2 (Z.leb_le 0 id)) by lia; cbn [Z.eqb Pos.eqb].
  rewrite !andb_true_r; split.
  - destruct (Z.leb_spec threshold t1); [| discriminate].
    rewrite (proj2 (Z.leb_le threshold t2)), !uwrap_small by lia.
    assert (Hpos : (t1 - threshold) / delta <= (t2 - threshold) / delta)
      by (apply Z.div_le_mono; lia).
    assert (0 <= (t1 - threshold) / delta) by (apply Z.div_pos; lia).
    destruct (Z.ltb_spec ((t2 - threshold) / delta) 64); [| reflexivity].
    rewrite (proj2 (Z.ltb_lt ((t1 - threshold) / delta) 64)) by lia.
    rewrite !existsb_In; apply In_take_mono; lia.
  - intros Ht; rewrite (proj2 (Z.leb_le threshold t1)), uwrap_small by lia.
    assert (Hpos : 63 <= (t1 - threshold) / delta) by (apply Z.div_le_lower_bound; lia).
    destruct (Z.ltb_spec ((t1 - threshold) / delta) 64); [| reflexivity].
    apply existsb_In; rewrite take_ge.
    + apply (Permutation_in _ (Permutation_sym (build_priority_perm mids))).
      apply in_map_iff; exists (Z.to_nat id); split; [lia | apply in_seq; lia].
    + pose proof (build_priority_length mids); unfold zlen in *; lia.
Qed.

(** On a chain without notary mining and without staking a block passes the
    proof-of-work check exactly when its target is positive, not negative, not
    overflowing and within the limit of the chain, and its hash does not exceed
    it (the comparison is skipped while stored blocks are loaded). *)
Theorem check_pow_iff (G : Globals) (P : Params) (N : NotaryAnswers) (bits_ time : Z)
    (hash pubkey : list Z) (height : Z) (t : limbs) (neg ovf : bool) :
  chain_isKMD G = false -> ASSETCHAINS_STAKED G = 0 -> 1 < height ->
  is_u32 bits_ -> bytes hash -> bytes (powLimit P) -> bytes (powAlternate P) ->
  SetCompact bits_ = (t, neg, ovf) ->
  CheckProofOfWork G P N bits_ time hash pubkey height = true <->
  neg = false /\ ovf = false /\ 0 < lval t <= lval (bnLimit G P) /\
  (lval (UintToArith256 hash) <= lval t \/ KOMODO_LOADINGBLOCKS G = true).
Proof.
  intros Hk Hst Hh Hb Hhash Hl Ha Hs; unfold CheckProofOfWork.
  rewrite Hk, Hst, (proj2 (Z.eqb_neq height 0)), (proj2 (Z.leb_gt height 1)) by lia.
  rewrite andb_false_r; cbn [andb orb negb Z.eqb]; rewrite Hs.
  pose proof (SetCompact_spec bits_ Hb) as Hspec; rewrite Hs in Hspec; destruct Hspec as (W & L & _).
  assert (Ht : arith_ok t) by now split.
  pose proof (arith_range t Ht); fold (bnLimit G P).
  assert (Hz : EqualTo t 0 = (lval t =? 0))
    by (apply EqualTo_spec; [assumption | rewrite L; auto with arith | now split]).
  rewrite Hz, (a_gt_spec t _ Ht (bnLimit_ok G P Hl Ha)).
  rewrite (a_gt_spec _ t (UintToArith256_ok hash Hhash) Ht).
  destruct neg, ovf, (Z.eqb_spec (lval t) 0); cbn [orb]; try (split; [discriminate | intuition lia]).
  destruct (Z.ltb_spec (lval (bnLimit G P)) (lval t)); [split; [discriminate | intuition lia] |].
  destruct (Z.ltb_spec (lval t) (lval (UintToArith256 hash))), (KOMODO_LOADINGBLOCKS G);
    intuition (discriminate || lia).
Qed.

(** The time equivalent to a difference of work is the difference times the
    target spacing over the work of the tip block, saturated at the largest
    64-bit time, with the sign of the difference. *)
Theorem proof_time_value (P : Params) (a b tip : CBlockIndex) (w : limbs) :
  arith_ok (nChainWork a) -> arith_ok (nChainWork b) -> is_u64 (nPowTargetSpacing P) ->
  GetBlockProof (nBits tip) = Ok w -> arith_ok w -> lval w <> 0 ->
  GetBlockProofEquivalentTime P a b tip =
    Ok (if lval (nChainWork b) <? lval (nChainWork a)
        then work_time P (lval (nChainWork a) - lval (nChainWork b)) (lval w)
        else - work_time P (lval (nChainWork b) - lval (nChainWork a)) (lval w)).
Proof.
  intros Ha Hb Hsp Hp Hw Hz; unfold GetBlockProofEquivalentTime.
  rewrite Hp, a_gt_spec by assumption.
  pose proof (arith_range _ Ha); pose proof (arith_range _ Hb).
  destruct (Z.ltb_spec (lval (nChainWork b)) (lval (nChainWork a))).
  - rewrite <- (Z.mul_1_l (work_time _ _ _)); apply saturated_time; auto; lia.
  - rewrite Z.opp_eq_mul_m1, Z.mul_comm; apply saturated_time; auto; lia.
Qed.

(** ** Instances *)

(** Parameters close to those of the main chain. *)
Definition example_params : Params := {|
  powLimit := repeat 255 30 ++ [15; 15];
  powAlternate := repeat 255 30 ++ [15; 15];
  nHF22Height := None;
  nHF22NotariesPriorityRotateDelta := 20;
  nPowAveragingWindow := 17;
  nPowMaxAdjustDown := 32;
  nPowMaxAdjustUp := 16;
  nPowTargetSpacing := 60;
  nMaxFutureBlockTime := 420;
|}.

Definition example_globals : Globals := {|
  ASSETCHAINS_BLOCKTIME := 60;
  ASSETCHAINS_ADAPTIVEPOW := 0;
  ASSETCHAINS_ALGO := 0;
  ASSETCHAINS_EQUIHASH := 0;
  ASSETCHAINS_STAKED := 0;
  KOMODO_LOADINGBLOCKS := false;
  chain_isKMD := false;
|}.

Definition example_block (h : Z) : CBlockIndex :=
  {| blockHash := []; pprev := None; pskip := None; nHeight := h; nTime := 1500000000 + 60 * h;
     nBits := 0x1d00ffff; nChainWork := arith_u64 h; nStatus := 0; nTx := 0; nChainTx := 0; nSequenceId := 0 |}.

Lemma example_limits : bytes (powLimit example_params) /\ bytes (powAlternate example_params).
Proof.
  split; apply Forall_forall; intros x Hx; apply in_app_or in Hx as [Hx | Hx];
    try apply repeat_spec in Hx; try destruct Hx as [<- | [<- | []]]; subst; unfold is_byte; lia.
Qed.

(** Adaptive rules with the block time [t]. *)
Definition adaptive_globals (t : Z) : Globals := {|
  ASSETCHAINS_BLOCKTIME := t;
  ASSETCHAINS_ADAPTIVEPOW := 1;
  ASSETCHAINS_ALGO := 0;
  ASSETCHAINS_EQUIHASH := 0;
  ASSETCHAINS_STAKED := 0;
  KOMODO_LOADINGBLOCKS := false;
  chain_isKMD := false;
|}.
(** Seventy blocks whose compact words carry the flag 1. *)
Definition flagged_block (h : Z) : CBlockIndex :=
  {| blockHash := []; pprev := None; pskip := None; nHeight := h; nTime := 1500000000 + 60 * h;
     nBits := 0x1d00fffd; nChainWork := arith_u64 h; nStatus := 0; nTx := 0; nChainTx := 0; nSequenceId := 0 |}.
Definition long_chain : list CBlockIndex := map (fun h => flagged_block (Z.of_nat h)) (rev (seq 0 70)).


(** [-ac_blocktime] is not restricted: at 16384 seconds the divisor of [zawy_ctB]
    wraps to zero. *)
Example block_time_16384 :
  GetNextWorkRequired (adaptive_globals 16384) example_params long_chain (Some 1500004200) = Exn division_by_zero.
Proof. vm_compute; reflexivity. Qed.

Lemma retarget_clamped_witness :
  exists span c,
    MinActualTimespan example_params <= span <= MaxActualTimespan example_params /\
    CalculateNextWorkRequired example_globals example_params (set_compact 0x1d00ffff)
      1500001000 1500000000 = Ok c /\
    lval (set_compact c) <= lval (bnLimit example_globals example_params) /\
    lval (set_compact c) <= lval (set_compact 0x1d00ffff) / (17 * 60) * span.
Proof.
  apply (retarget_clamped example_globals example_params (set_compact 0x1d00ffff));
    try apply example_limits.
  - cbn; lia.
  - cbn; lia.
  - vm_compute; split; discriminate.
  - now vm_compute.
  - apply set_compact_ok; unfold is_u32; lia.
Defined.

Lemma notary_priority_fair_witness :
  isSecondBlockAllowed 5 2000 1000 10 (build_priority (repeat 5 66)) = true.
Proof.
  apply (notary_priority_fair (repeat 5 66) 5 2000 2000 1000 10);
    unfold is_u32; lia.
Defined.

Lemma check_pow_iff_witness :
  CheckProofOfWork example_globals example_params
    {| na_tiptime := 0; na_currentheight := 0; na_special := 0; na_notaryid := -1; na_flag := 0;
       na_mids := []; na_blocktimes := []; na_special2 := 0 |}
    0x1d00ffff 1500000000 (repeat 0 32) [] 2 = true.
Proof.
  apply (check_pow_iff example_globals example_params _ 0x1d00ffff 1500000000 (repeat 0 32) [] 2
    (set_compact 0x1d00ffff) false false); try reflexivity; try apply example_limits.
  - unfold is_u32; lia.
  - apply Forall_forall; intros x Hx; apply repeat_spec in Hx; subst; unfold is_byte; lia.
  - split; [reflexivity | split; [reflexivity |]]; split; [| left]; vm_compute;
      [split; [reflexivity |] |]; discriminate.
Defined.

Lemma proof_time_value_witness :
  GetBlockProofEquivalentTime example_params (example_block (2 ^ 40)) (example_block 0)
    (example_block 7) = Ok (work_time example_params (2 ^ 40) 4295032833).
Proof.
  refine (eq_trans (proof_time_value example_params (example_block (2 ^ 40)) (example_block 0)
    (example_block 7) (arith_u64 4295032833) _ _ _ eq_refl _ _) eq_refl).
  - apply arith_u64_ok.
  - apply arith_u64_ok.
  - unfold is_u64; cbn; lia.
  - apply arith_u64_ok.
  - now vm_compute.
Defined.
