(* ===== verification/Chain.v ===== *)
(** * The active chain

    chain.cpp and chain.h: [CChain], the vector of block index pointers by
    height, with the operations that move its tip, find forks and build
    locators.  A null pointer is [None]. *)
From stdpp Require Import gmap.
From S2P Require Import Prelude BlockIndex BlockIndexSpec.

Abbreviation vchain := (list (option ptr)).

(** ** Operations *)

Definition chain_at (vChain : vchain) (h : Z) : option ptr :=
  if (h <? 0) || (zlen vChain <=? h) then None else nth (Z.to_nat h) vChain None.

Definition Genesis (vChain : vchain) : option ptr :=
  if 0 <? zlen vChain then nth 0 vChain None else None.

Definition Tip (vChain : vchain) : option ptr :=
  if 0 <? zlen vChain then nth (length vChain - 1) vChain None else None.

Definition Height (vChain : vchain) : Z := zlen vChain - 1.

(** A pointer to an entry that is not in the map is not followed. *)
Definition deref {E} (m : index_map) (p : ptr) : res E CBlockIndex :=
  match m !! p with Some b => Ok b | None => Exn oob_read end.

Definition Contains {E} (m : index_map) (vChain : vchain) (p : ptr) : res E bool :=
  b ← deref (E := E) m p; Ok (bool_decide (chain_at vChain (nHeight b) = Some p)).

Definition Next {E} (m : index_map) (vChain : vchain) (p : ptr) : res E (option ptr) :=
  b ← deref (E := E) m p;
  c ← Contains (E := E) m vChain p;
  Ok (match (c : bool) with true => chain_at vChain (nHeight b + 1) | false => None end).

Definition chain_eq (a b : vchain) : bool :=
  (Height a =? Height b) && bool_decide (Tip a = Tip b).

(** [vChain.resize(n)]. *)
Definition resize (vChain : vchain) (n : nat) : vchain :=
  take n vChain ++ replicate (n - length vChain) None.

Fixpoint set_tip_loop {E} (fuel : nat) (m : index_map) (vChain : vchain) (pindex : option ptr)
    : res E vchain :=
  match pindex with
  | None => Ok vChain
  | Some p =>
      b ← deref (E := E) m p;
      match vChain !! Z.to_nat (nHeight b) with
      | None => Exn oob_read
      | Some x =>
          if bool_decide (x = Some p) then Ok vChain
          else
            match fuel with
            | O => Exn out_of_fuel
            | S fuel => set_tip_loop fuel m (<[Z.to_nat (nHeight b) := Some p]> vChain) (pprev b)
            end
      end
  end.

Definition SetTip {E} (m : index_map) (vChain : vchain) (pindex : option ptr) : res E vchain :=
  match pindex with
  | None => Ok []
  | Some p =>
      b ← deref (E := E) m p;
      set_tip_loop (S (Z.to_nat (nHeight b))) m (resize vChain (Z.to_nat (nHeight b + 1))) pindex
  end.

(** The walk of [FindFork]; every step goes down one block. *)
Fixpoint find_fork_loop {E} (fuel : nat) (m : index_map) (vChain : vchain) (pindex : option ptr)
    : res E (option ptr) :=
  match pindex with
  | None => Ok None
  | Some p =>
      c ← Contains (E := E) m vChain p;
      if (c : bool) then Ok (Some p)
      else
        match fuel with
        | O => Exn out_of_fuel
        | S fuel => b ← deref (E := E) m p; find_fork_loop fuel m vChain (pprev b)
        end
  end.

Definition FindFork {E} (m : index_map) (vChain : vchain) (pindex : option ptr)
    : res E (option ptr) :=
  match pindex with
  | None => Ok None
  | Some p =>
      b ← deref (E := E) m p;
      pindex ← (if Height vChain <? nHeight b then GetAncestor m p (Height vChain)
                else Ok pindex);
      find_fork_loop (S (Z.to_nat (nHeight b))) m vChain pindex
  end.

(** The loop of [GetLocator]: the hashes collected so far are [vHave]. *)
Fixpoint locator_loop {E} (fuel : nat) (m : index_map) (vChain : vchain) (nStep : Z)
    (pindex : option ptr) (vHave : list (list Z)) : res E (list (list Z)) :=
  match pindex with
  | None => Ok vHave
  | Some p =>
      b ← deref (E := E) m p;
      let vHave := vHave ++ [blockHash b] in
      if nHeight b =? 0 then Ok vHave
      else
        match fuel with
        | O => Exn out_of_fuel
        | S fuel =>
            let h := Z.max (i32 (nHeight b - nStep)) 0 in
            c ← Contains (E := E) m vChain p;
            pindex ← (if (c : bool) then Ok (chain_at vChain h) else GetAncestor m p h);
            locator_loop fuel m vChain (if 10 <? zlen vHave then i32 (nStep * 2) else nStep)
              pindex vHave
        end
  end.

(** Ten single steps and one step per doubling: 64 is enough for any height. *)
Definition locator_fuel : nat := 64.

Definition GetLocator {E} (m : index_map) (vChain : vchain) (pindex : option ptr)
    : res E (list (list Z)) :=
  let pindex := match pindex with None => Tip vChain | Some _ => pindex end in
  locator_loop locator_fuel m vChain 1 pindex [].

(** ** Chains of a block tree *)

(** [vChain] holds, by height, the ancestors of [p], up to [p] itself. *)
Definition chain_to (m : index_map) (vChain : vchain) (p : ptr) : Prop :=
  exists b, m !! p = Some b /\ length vChain = S (Z.to_nat (nHeight b)) /\
    forall i : nat, Z.of_nat i <= nHeight b ->
      vChain !! i = Some (up m (Z.to_nat (nHeight b) - i) p).

(** A chain as [SetTip] leaves it: empty, or the ancestors of its tip. *)
Definition chain_ok (m : index_map) (vChain : vchain) : Prop :=
  vChain = [] \/ exists p, chain_to m vChain p.

(** The entries of a chain by height are coherent: each one determines those
    below it. *)
Definition coherent (m : index_map) (old : nat -> option ptr) : Prop :=
  forall i j r, (i <= j)%nat -> old j = Some r -> old i = up m (j - i) r.

Section Spec.
Context (m : index_map) (Hm : index_ok m).

Lemma nth_lookup_vchain (v : vchain) i x : v !! i = Some x -> nth i v None = x.
Proof. intros H; now apply nth_lookup_Some. Qed.

Lemma set_tip_loop_ok {E} old (h : nat) v p b fuel :
  coherent m old -> m !! p = Some b -> nHeight b = Z.of_nat h ->
  (S h <= fuel)%nat -> (h < length v)%nat ->
  (forall i, (i <= h)%nat -> v !! i = Some (old i)) ->
  exists v', set_tip_loop (E := E) fuel m v (Some p) = Ok v' /\ length v' = length v /\
    (forall i, (i <= h)%nat -> v' !! i = Some (up m (h - i) p)) /\
    (forall i, (h < i)%nat -> v' !! i = v !! i).
Proof.
  intros Hold; revert h v p b; induction fuel as [| fuel IH]; intros h v p b Hp Hh Hf Hl Hv; [lia |].
  cbn [set_tip_loop]; unfold deref; rewrite Hp; cbn [mbind res_bind]; rewrite Hh, Nat2Z.id.
  rewrite Hv by auto.
  destruct (bool_decide_reflect (old h = Some p)) as [Eo | Eo].
  - exists v; repeat split; auto; intros i Hi; rewrite Hv by assumption.
    f_equal; now apply Hold.
  - destruct (Hm p b Hp) as [_ Hg Hpr _].
    destruct (pprev b) as [q |] eqn:Eq.
    + destruct (Hpr q eq_refl) as (c & Hq & Hc).
      destruct h as [| h]; [pose proof (eo_height _ _ _ (Hm q c Hq)); lia |].
      destruct (IH h (<[S h := Some p]> v) q c) as (v' & E' & L' & Hlow & Hhigh); auto; try lia.
      { rewrite length_insert; lia. }
      { intros i Hi; rewrite list_lookup_insert_ne by lia; apply Hv; lia. }
      rewrite length_insert in L'; exists v'; repeat split; auto.
      * intros i Hi; destruct (decide (i = S h)) as [-> |].
        -- rewrite Hhigh by lia; rewrite list_lookup_insert_eq by lia.
           now rewrite Nat.sub_diag.
        -- rewrite Hlow by lia; f_equal; replace (S h - i)%nat with (S (h - i)) by lia.
           cbn [up]; now rewrite Hp, Eq.
      * intros i Hi; rewrite Hhigh by lia; now rewrite list_lookup_insert_ne by lia.
    + specialize (Hg eq_refl); assert (h = 0%nat) as -> by lia.
      exists (<[0%nat := Some p]> v); repeat split; [now destruct fuel | apply length_insert | |].
      * intros i Hi; replace i with 0%nat by lia; now rewrite list_lookup_insert_eq by lia.
      * intros i Hi; now rewrite list_lookup_insert_ne by lia.
Qed.

(** What the vector holds before the loop: the old chain, then null pointers. *)
Lemma resize_coherent v n :
  chain_ok m v ->
  exists old, coherent m old /\ length (resize v n) = n /\
    forall i, (i < n)%nat -> resize v n !! i = Some (old i).
Proof.
  intros Hv; exists (fun i => nth i v None); split; [| split].
  - destruct Hv as [-> | (p & b & Hp & Hl & Hup)].
    + intros i j r _ E; destruct j; discriminate.
    + intros i j r Hij E; pose proof (eo_height _ _ _ (Hm p b Hp)).
      assert (j < length v)%nat.
      { destruct (Nat.lt_ge_cases j (length v)); [assumption |].
        rewrite nth_overflow in E by assumption; discriminate. }
      rewrite (nth_lookup_vchain v j _ (Hup j ltac:(lia))) in E.
      rewrite (nth_lookup_vchain v i _ (Hup i ltac:(lia))).
      replace (Z.to_nat (nHeight b) - i)%nat
        with ((Z.to_nat (nHeight b) - j) + (j - i))%nat by lia.
      now rewrite up_add, E.
  - unfold resize; rewrite length_app, length_take, length_replicate; lia.
  - intros i Hi; unfold resize; destruct (Nat.lt_ge_cases i (length v)).
    + rewrite lookup_app_l by (rewrite length_take; lia); rewrite lookup_take_lt by lia.
      destruct (lookup_lt_is_Some_2 v i ltac:(lia)) as [x Hx].
      now rewrite Hx, (nth_lookup_vchain v i x Hx).
    + rewrite lookup_app_r by (rewrite length_take; lia); rewrite length_take.
      rewrite nth_overflow by assumption.
      apply lookup_replicate_2; lia.
Qed.

(** [p] is [q] or above it. *)
Definition descends (p q : ptr) : Prop := exists k, up m k p = Some q.

Lemma up_exists_height k p b q :
  m !! p = Some b -> up m k p = Some q ->
  Z.of_nat k <= nHeight b /\ exists c, m !! q = Some c /\ nHeight c = nHeight b - Z.of_nat k.
Proof.
  intros Hp Hu; destruct (Z.le_gt_cases (Z.of_nat k) (nHeight b)) as [Hk | Hk].
  - destruct (up_height m Hm k p b Hp Hk) as (q' & c & Hu' & Hq & Hc).
    rewrite Hu in Hu'; injection Hu' as <-; eauto.
  - exfalso; pose proof (eo_height _ _ _ (Hm p b Hp)).
    destruct (up_height m Hm (Z.to_nat (nHeight b)) p b Hp ltac:(lia)) as (g & c & Hg & Hc & Hh).
    replace k with (Z.to_nat (nHeight b) + S (k - Z.to_nat (nHeight b) - 1))%nat in Hu by lia.
    rewrite up_add, Hg in Hu; cbn [up] in Hu; rewrite Hc in Hu.
    destruct (pprev c) as [q' |] eqn:Eq; [| discriminate].
    destruct (eo_prev _ _ _ (Hm g c Hc) q' Eq) as (d & Hd & Hdh).
    pose proof (eo_height _ _ _ (Hm q' d Hd)); lia.
Qed.

Lemma chain_at_lookup v h : 0 <= h -> chain_at v h = default None (v !! Z.to_nat h).
Proof.
  intros Hh; unfold chain_at, zlen; destruct (Z.ltb_spec h 0); [lia |]; cbn [orb].
  destruct (Z.leb_spec (Z.of_nat (length v)) h).
  - rewrite lookup_ge_None_2 by lia; reflexivity.
  - destruct (lookup_lt_is_Some_2 v (Z.to_nat h) ltac:(lia)) as [x Hx].
    now rewrite Hx, (nth_lookup_vchain v _ x Hx).
Qed.

Section OfChain.
Context (v : vchain) (t : ptr) (bt : CBlockIndex).
Context (Ht : m !! t = Some bt) (Hl : length v = S (Z.to_nat (nHeight bt))).
Context (Hup : forall i : nat, Z.of_nat i <= nHeight bt ->
  v !! i = Some (up m (Z.to_nat (nHeight bt) - i) t)).

Lemma chain_at_up h :
  0 <= h <= nHeight bt -> chain_at v h = up m (Z.to_nat (nHeight bt - h)) t.
Proof.
  intros Hh; rewrite chain_at_lookup, Hup by lia; cbn; f_equal; lia.
Qed.

Lemma chain_at_above h : nHeight bt < h -> chain_at v h = None.
Proof.
  intros Hh; pose proof (eo_height _ _ _ (Hm t bt Ht)).
  rewrite chain_at_lookup, lookup_ge_None_2 by lia; reflexivity.
Qed.

Lemma Height_tip : Height v = nHeight bt.
Proof. pose proof (eo_height _ _ _ (Hm t bt Ht)); unfold Height, zlen; lia. Qed.

(** A block is contained in the chain exactly when the tip descends from it. *)
Lemma Contains_iff {E} p b :
  m !! p = Some b ->
  exists c, Contains (E := E) m v p = Ok c /\ (c = true <-> descends t p).
Proof.
  intros Hp; unfold Contains, deref; rewrite Hp; cbn [mbind res_bind]; eexists; split; [reflexivity |].
  pose proof (eo_height _ _ _ (Hm p b Hp)); rewrite bool_decide_eq_true; split.
  - destruct (Z.le_gt_cases (nHeight b) (nHeight bt)).
    + rewrite chain_at_up by lia; eexists; eassumption.
    + rewrite chain_at_above by lia; discriminate.
  - intros [k Hk]; destruct (up_exists_height k t bt p Ht Hk) as [Hle (c & Hc & Hh)].
    rewrite Hp in Hc; injection Hc as <-.
    rewrite chain_at_up by lia; rewrite <- Hk; f_equal; lia.
Qed.

(** The last common block of two branches, [None] when they share none. *)
Definition last_common (p : ptr) (r : option ptr) : Prop :=
  match r with
  | Some f => descends p f /\ descends t f /\
      forall q, descends p q -> descends t q -> descends f q
  | None => forall q, descends p q -> ~ descends t q
  end.

Lemma descends_step p b q : m !! p = Some b -> descends p q ->
  q = p \/ exists p', pprev b = Some p' /\ descends p' q.
Proof.
  intros Hp [[| k] Hk]; cbn [up] in Hk; [left; congruence | right].
  rewrite Hp in Hk; destruct (pprev b) as [p' |]; [| discriminate].
  exists p'; split; [reflexivity | now exists k].
Qed.

Lemma descends_up n p q r : up m n p = Some q -> descends q r -> descends p r.
Proof. intros Hn [k Hk]; exists (n + k)%nat; now rewrite up_add, Hn. Qed.

Lemma find_fork_loop_ok {E} fuel p b :
  m !! p = Some b -> nHeight b < Z.of_nat fuel ->
  exists r, find_fork_loop (E := E) fuel m v (Some p) = Ok r /\ last_common p r.
Proof.
  revert p b; induction fuel as [| fuel IH]; intros p b Hp Hf; cbn [find_fork_loop].
  { pose proof (eo_height _ _ _ (Hm p b Hp)); lia. }
  destruct (Contains_iff (E := E) p b Hp) as ([|] & -> & Hc); cbn [mbind res_bind].
  { exists (Some p); repeat split; [exists 0%nat; reflexivity | now apply Hc | auto]. }
  assert (Hn : ~ descends t p) by (intros Hd; apply Hc in Hd; discriminate).
  unfold deref; rewrite Hp; cbn [mbind res_bind].
  destruct (pprev b) as [p' |] eqn:Ep.
  - destruct (eo_prev _ _ _ (Hm p b Hp) p' Ep) as (b' & Hp' & Hh).
    destruct (IH p' b' Hp' ltac:(lia)) as (r & -> & Hr); exists r; split; [reflexivity |].
    assert (Hu : up m 1 p = Some p') by (cbn [up]; now rewrite Hp, Ep).
    assert (Hd : forall q, descends p q -> descends t q -> descends p' q).
    { intros q Hq Htq; destruct (descends_step p b q Hp Hq) as [-> | (x & Ex & Hx)];
        [contradiction | now rewrite Ep in Ex; injection Ex as ->]. }
    destruct r as [f |]; cbn in Hr |- *.
    + destruct Hr as (H1 & H2 & H3); repeat split; eauto using descends_up.
    + intros q Hq Htq; apply (Hr q); auto.
  - exists None; split; [now destruct fuel |]; intros q Hq Htq.
    destruct (descends_step p b q Hp Hq) as [-> | (x & Ex & _)]; congruence.
Qed.

(** A common ancestor is no higher than the tip, so the walk may start there. *)
Lemma last_common_up n p b q r :
  m !! p = Some b -> Z.of_nat n = nHeight b - nHeight bt -> up m n p = Some q ->
  last_common q r -> last_common p r.
Proof.
  intros Hp Hn Hu Hr.
  assert (Hd : forall x, descends p x -> descends t x -> descends q x).
  { intros x [k Hk] [j Hj].
    destruct (up_exists_height j t bt x Ht Hj) as [Hj' (c & Hx & Hc)].
    destruct (up_exists_height k p b x Hp Hk) as [Hk' (c' & Hx' & Hc')].
    rewrite Hx in Hx'; injection Hx' as <-; exists (k - n)%nat.
    replace k with (n + (k - n))%nat in Hk by lia; now rewrite up_add, Hu in Hk. }
  destruct r as [f |]; cbn in Hr |- *.
  - destruct Hr as (H1 & H2 & H3); repeat split; eauto using descends_up.
  - intros x Hx Htx; apply (Hr x); auto.
Qed.

Lemma FindFork_ok {E} p b :
  m !! p = Some b -> exists r, FindFork (E := E) m v (Some p) = Ok r /\ last_common p r.
Proof.
  intros Hp; unfold FindFork, deref; rewrite Hp; cbn [mbind res_bind]; rewrite Height_tip.
  pose proof (eo_height _ _ _ (Hm t bt Ht)); pose proof (eo_height _ _ _ (Hm p b Hp)).
  destruct (Z.ltb_spec (nHeight bt) (nHeight b)).
  - rewrite (GetAncestor_ok m Hm p b) by (auto; lia); cbn [mbind res_bind].
    destruct (up_height m Hm (Z.to_nat (nHeight b - nHeight bt)) p b Hp ltac:(lia))
      as (q & c & Hu & Hq & Hc); rewrite Hu.
    destruct (find_fork_loop_ok (E := E) (S (Z.to_nat (nHeight b))) q c Hq ltac:(lia))
      as (r & -> & Hr); exists r; split; [reflexivity |].
    eapply last_common_up; eauto; lia.
  - cbn [mbind res_bind]; apply find_fork_loop_ok with b; auto; lia.
Qed.

(** The hashes of a locator from the [i]th entry on: ten single steps back,
    then steps that double, cut at the genesis block. *)
Inductive locates : nat -> ptr -> list (list Z) -> Prop :=
| locates_genesis i p b : m !! p = Some b -> nHeight b = 0 -> locates i p [blockHash b]
| locates_back i p b q l :
    m !! p = Some b -> 0 < nHeight b ->
    up m (Z.to_nat (Z.min (nHeight b) (2 ^ Z.of_nat (i - 10)))) p = Some q ->
    locates (S i) q l -> locates i p (blockHash b :: l).

(** What the loop keeps: the step of the [i]th entry has not overflowed. *)
Definition locator_inv (i : nat) (h nStep : Z) : Prop :=
  h = 0 \/ 0 < h /\ nStep = 2 ^ Z.of_nat (i - 10) /\ h + nStep <= 2 ^ 31.

Lemma locator_inv_bound i h nStep : locator_inv i h nStep -> 0 < h -> (i <= 40)%nat.
Proof.
  intros [| (_ & -> & Hb)] Hh; [lia |].
  destruct (Nat.le_gt_cases i 40); [assumption |].
  pose proof (Z.pow_le_mono_r 2 31 (Z.of_nat (i - 10)) ltac:(lia) ltac:(lia)); lia.
Qed.

Lemma locator_inv_step i h nStep :
  locator_inv i h nStep -> 0 < h ->
  let nStep' := if 10 <? Z.of_nat i + 1 then i32 (nStep * 2) else nStep in
  i32 (h - nStep) = h - nStep /\ locator_inv (S i) (Z.max (h - nStep) 0) nStep'.
Proof.
  intros [| (_ & E & Hb)] Hh; [lia | cbv zeta].
  assert (0 < nStep) by (subst nStep; apply Z.pow_pos_nonneg; lia).
  split; [apply swrap_small; [lia |]; change (2 ^ (32 - 1)) with (2 ^ 31); lia |].
  unfold locator_inv; destruct (Z.le_gt_cases (h - nStep) 0); [left; lia | right].
  destruct (Z.ltb_spec 10 (Z.of_nat i + 1)).
  - rewrite swrap_small by (change (2 ^ (32 - 1)) with (2 ^ 31); lia).
    repeat split; [lia | | lia]; rewrite E.
    replace (Z.of_nat (S i - 10)) with (Z.succ (Z.of_nat (i - 10))) by lia.
    rewrite Z.pow_succ_r by lia; lia.
  - replace (i - 10)%nat with 0%nat in E by lia; replace (S i - 10)%nat with 0%nat by lia.
    repeat split; [lia | assumption | cbn in E; lia].
Qed.

(** The next block of a locator, found in the chain or with the skip list. *)
Lemma locator_next {E} p b h :
  m !! p = Some b -> 0 <= h <= nHeight b ->
  exists c, Contains (E := E) m v p = Ok c /\
    (if c then Ok (chain_at v h) else GetAncestor (E := E) m p h)
      = Ok (up m (Z.to_nat (nHeight b - h)) p).
Proof.
  intros Hp Hh; destruct (Contains_iff (E := E) p b Hp) as (c & Hc & Hd).
  exists c; split; [assumption |]; destruct c; [| now apply GetAncestor_ok].
  destruct (proj1 Hd eq_refl) as [k Hk].
  destruct (up_exists_height k t bt p Ht Hk) as [Hle (c & Hp' & Hc')].
  rewrite Hp in Hp'; injection Hp' as <-; f_equal; rewrite chain_at_up by lia.
  replace (Z.to_nat (nHeight bt - h)) with (k + Z.to_nat (nHeight b - h))%nat by lia.
  now rewrite up_add, Hk.
Qed.

Lemma locator_loop_ok {E} fuel i p b nStep vHave :
  m !! p = Some b -> length vHave = i -> locator_inv i (nHeight b) nStep ->
  (i <= 41)%nat -> (41 <= fuel + i)%nat ->
  exists l, locator_loop (E := E) fuel m v nStep (Some p) vHave = Ok (vHave ++ l) /\
    locates i p l /\ (i + length l <= 42)%nat.
Proof.
  revert i p b nStep vHave; induction fuel as [| fuel IH]; intros i p b nStep vHave Hp Hi Hinv Hi' Hf.
  all: cbn [locator_loop]; unfold deref; rewrite Hp; cbn [mbind res_bind].
  all: pose proof (eo_height _ _ _ (Hm p b Hp)).
  all: destruct (Z.eqb_spec (nHeight b) 0) as [H0 | H0];
    [exists [blockHash b]; repeat split; [now apply locates_genesis | cbn; lia] |].
  all: pose proof (locator_inv_bound _ _ _ Hinv ltac:(lia)).
  1: lia.
  destruct (locator_inv_step _ _ _ Hinv ltac:(lia)) as [-> Hinv'].
  assert (0 < nStep)
    by (destruct Hinv as [| (_ & -> & _)]; [lia | apply Z.pow_pos_nonneg; lia]).
  destruct (locator_next (E := E) p b (Z.max (nHeight b - nStep) 0) Hp ltac:(lia))
    as (c & -> & Hc); cbn [mbind res_bind]; rewrite Hc; cbn [mbind res_bind].
  destruct (up_height m Hm (Z.to_nat (nHeight b - Z.max (nHeight b - nStep) 0)) p b Hp ltac:(lia))
    as (q & d & Hu & Hq & Hd); rewrite Hu.
  unfold zlen; rewrite length_app, Hi; cbn [length].
  replace (Z.of_nat (i + 1)) with (Z.of_nat i + 1) by lia.
  edestruct (IH (S i) q d) as (l & -> & Hl' & Hlen); [eassumption | | | lia | lia |].
  { rewrite length_app; cbn; lia. }
  { replace (nHeight d) with (Z.max (nHeight b - nStep) 0) by lia; exact Hinv'. }
  exists (blockHash b :: l); rewrite <- app_assoc; repeat split; [| cbn; lia].
  destruct Hinv as [| (_ & E' & _)]; [lia |].
  apply locates_back with q; auto; [lia |]; rewrite <- Hu; f_equal; lia.
Qed.
End OfChain.
End Spec.

(** ** Moving the tip *)

Lemma SetTip_ok (m : index_map) (v : vchain) (p : ptr) (b : CBlockIndex) :
  index_ok m -> chain_ok m v -> m !! p = Some b ->
  exists v', SetTip (E := unit) m v (Some p) = Ok v' /\ chain_to m v' p /\
    Tip v' = Some p /\ Height v' = nHeight b /\
    Genesis v' = up m (Z.to_nat (nHeight b)) p /\
    forall q c, m !! q = Some c ->
      exists r, Contains (E := unit) m v' q = Ok r /\ (r = true <-> descends m p q).
Proof.
  intros Hm Hv Hp; pose proof (eo_height _ _ _ (Hm p b Hp)).
  destruct (resize_coherent m Hm v (Z.to_nat (nHeight b + 1)) Hv) as (old & Ho & Hl & Hi).
  destruct (set_tip_loop_ok m Hm (E := unit) old (Z.to_nat (nHeight b))
    (resize v (Z.to_nat (nHeight b + 1))) p b (S (Z.to_nat (nHeight b))))
    as (v' & E & Hl' & Hlow & _); auto; try lia.
  { intros i Hi'; apply Hi; lia. }
  assert (Hup : forall i : nat, Z.of_nat i <= nHeight b ->
    v' !! i = Some (up m (Z.to_nat (nHeight b) - i) p)) by (intros i Hi'; apply Hlow; lia).
  assert (Hlen : length v' = S (Z.to_nat (nHeight b))) by lia.
  exists v'; split; [unfold SetTip, deref; now rewrite Hp |].
  split; [exists b; auto |].
  assert (Hz : (0 <? zlen v') = true) by (apply Z.ltb_lt; unfold zlen; lia).
  unfold Tip, Genesis; rewrite Hz, Hlen.
  repeat split.
  - erewrite nth_lookup_vchain; [| apply Hup; lia].
    now replace (_ - _)%nat with 0%nat by lia.
  - now apply (Height_tip m Hm v' p b).
  - erewrite nth_lookup_vchain; [| apply Hup; lia]; f_equal; lia.
  - intros q c Hq; eapply Contains_iff; eauto.
Qed.

(** ** Properties *)

(** After [SetTip(pindex)] on a chain that [SetTip] built before, the
    vector holds exactly the ancestors of the new tip by height, whatever
    branch the old tip was on, although the loop stops at the first entry that
    already agrees; [Tip], [Height] and [Genesis] then answer for the new tip,
    and [Contains] holds of exactly the blocks the tip descends from. *)
Theorem set_tip_rebuilds (m : index_map) (v : vchain) (p : ptr) (b : CBlockIndex) :
  index_ok m -> chain_ok m v -> m !! p = Some b ->
  exists v', SetTip (E := unit) m v (Some p) = Ok v' /\ chain_to m v' p /\
    Tip v' = Some p /\ Height v' = nHeight b /\
    Genesis v' = up m (Z.to_nat (nHeight b)) p /\
    forall q c, m !! q = Some c ->
      exists r, Contains (E := unit) m v' q = Ok r /\ (r = true <-> descends m p q).
Proof.
  apply SetTip_ok.
Qed.

(** [FindFork(pindex)] terminates and returns the last block that
    [pindex] and the chain have in common: both descend from it, and so does
    it from every other common block; NULL is returned only when they have
    none. *)
Theorem find_fork_last_common (m : index_map) (v : vchain) (t p : ptr) (b : CBlockIndex) :
  index_ok m -> chain_to m v t -> m !! p = Some b ->
  exists r, FindFork (E := unit) m v (Some p) = Ok r /\ last_common m t p r.
Proof. intros Hm (bt & Ht & Hl & Hup) Hp; now apply (FindFork_ok m Hm v t bt Ht Hl Hup p b). Qed.

(** [GetLocator(pindex)] terminates with at most 42 hashes on every chain
    of a height below 2^31: the block itself, the ten blocks below it, then
    steps that double, the last one cut at the genesis block, which always
    ends the list; a block outside the chain is walked on its own branch. *)
Theorem get_locator_exact (m : index_map) (v : vchain) (t p : ptr) (b : CBlockIndex) :
  index_ok m -> chain_to m v t -> m !! p = Some b -> nHeight b < 2 ^ 31 ->
  exists l, GetLocator (E := unit) m v (Some p) = Ok l /\ locates m 0 p l /\ (length l <= 42)%nat.
Proof.
  intros Hm (bt & Ht & Hl & Hup) Hp Hb; pose proof (eo_height _ _ _ (Hm p b Hp)).
  apply (locator_loop_ok m Hm v t bt Ht Hl Hup locator_fuel 0 p b 1 []); auto;
    unfold locator_fuel; try lia.
  unfold locator_inv; change (2 ^ Z.of_nat (0 - 10)) with 1; lia.
Qed.

(** ** Instances *)

(** The three blocks of [example_index], then a block on another branch. *)
Definition fork_index : index_map := <[3%nat := example_entry (Some 1%nat) None 2]> example_index.

Lemma fork_index_ok : index_ok fork_index.
Proof.
  intros p b; unfold fork_index, example_index.
  destruct (decide (p = 3%nat)) as [-> |].
  - rewrite lookup_insert_eq; intros [= <-].
    split; cbn [example_entry nHeight pprev pskip]; try lia; try discriminate.
    intros q [= <-]; eexists; split; reflexivity.
  - rewrite lookup_insert_ne by congruence; intros Hp.
    now apply entry_ok_insert; [apply example_index_ok | |].
Qed.

Lemma fork_chain_ok : chain_to fork_index [Some 0%nat; Some 1%nat; Some 2%nat] 2.
Proof.
  eexists; split; [reflexivity |]; split; [reflexivity |].
  intros i Hi; cbn [nHeight example_entry] in Hi |- *.
  destruct i as [| [| [| i]]]; [reflexivity .. | lia].
Qed.

Lemma set_tip_rebuilds_witness :
  exists v', SetTip (E := unit) fork_index [Some 0%nat; Some 1%nat; Some 2%nat] (Some 3%nat)
      = Ok v' /\ v' = [Some 0%nat; Some 1%nat; Some 3%nat] /\ Tip v' = Some 3%nat.
Proof.
  destruct (set_tip_rebuilds fork_index [Some 0%nat; Some 1%nat; Some 2%nat] 3
    (example_entry (Some 1%nat) None 2) fork_index_ok (or_intror (ex_intro _ _ fork_chain_ok))
    eq_refl) as (v' & E & _ & Ht & _); exists v'; split; [exact E |].
  vm_compute in E; injection E as <-; split; reflexivity.
Defined.

Lemma find_fork_last_common_witness :
  exists r, FindFork (E := unit) fork_index [Some 0%nat; Some 1%nat; Some 2%nat] (Some 3%nat)
      = Ok r /\ last_common fork_index 2 3 r /\ r = Some 1%nat.
Proof.
  destruct (find_fork_last_common fork_index [Some 0%nat; Some 1%nat; Some 2%nat] 2 3
    (example_entry (Some 1%nat) None 2) fork_index_ok fork_chain_ok eq_refl) as (r & E & Hr).
  exists r; split; [exact E |]; split; [exact Hr |].
  vm_compute in E; now injection E as <-.
Defined.

Lemma get_locator_exact_witness :
  exists l, GetLocator (E := unit) fork_index [Some 0%nat; Some 1%nat; Some 2%nat] (Some 3%nat)
      = Ok l /\ locates fork_index 0 3 l /\ l = [[2]; [1]; [0]].
Proof.
  destruct (get_locator_exact fork_index [Some 0%nat; Some 1%nat; Some 2%nat] 2 3
    (example_entry (Some 1%nat) None 2) fork_index_ok fork_chain_ok eq_refl eq_refl)
    as (l & E & Hl & _); exists l; split; [exact E |]; split; [exact Hl |].
  vm_compute in E; now injection E as <-.
Defined.
