(* ===== verification/Merkle.v ===== *)
(** * Merkle trees of a block

    primitives/block.cpp: the construction of the tree over the transaction
    hashes, with the detection of duplicated transactions, the branch of a leaf,
    and the evaluation of a branch.  The tree is one vector, the levels one
    after the other, as in the code; the hash functions are those of
    [Hashing]. *)
From S2P Require Import Prelude Hashing.

Abbreviation uint256 := (list Z).

(** [uint256()]. *)
Definition uint256_null : uint256 := repeat 0 32.

(** [vMerkleTree[k]]. *)
Definition tree_at {E} (vMerkleTree : list uint256) (k : Z) : res E uint256 :=
  if k <? 0 then Exn oob_read
  else match vMerkleTree !! Z.to_nat k with Some h => Ok h | None => Exn oob_read end.

Section Code.
Context `{HashFunctions}.

(** The inner loop of [BuildMerkleTree], with [n] iterations left. *)
Fixpoint merkle_row {E} (n : nat) (j nSize i : Z) (vMerkleTree : list uint256) (mutated : bool)
    : res E (list uint256 * bool) :=
  match n with
  | O => Ok (vMerkleTree, mutated)
  | S n =>
      let i2 := Z.min (i + 1) (nSize - 1) in
      a ← tree_at vMerkleTree (j + i);
      b ← tree_at vMerkleTree (j + i2);
      let mutated :=
        if (i2 =? i + 1) && (i2 + 1 =? nSize) && bool_decide (a = b) then true else mutated in
      merkle_row n j nSize (i + 2) (vMerkleTree ++ [Hash2 a b]) mutated
  end.

(** The outer loop; the size is halved in every round. *)
Fixpoint merkle_rows {E} (fuel : nat) (j nSize : Z) (vMerkleTree : list uint256) (mutated : bool)
    : res E (list uint256 * bool) :=
  if 1 <? nSize then
    match fuel with
    | O => Exn out_of_fuel
    | S fuel =>
        '(t, mu) ← merkle_row (Z.to_nat ((nSize + 1) / 2)) j nSize 0 vMerkleTree mutated;
        merkle_rows fuel (j + nSize) ((nSize + 1) / 2) t mu
    end
  else Ok (vMerkleTree, mutated).

(** The root, [*fMutated] and [vMerkleTree]. *)
Definition BuildMerkleTree {E} (leaves : list uint256) : res E (uint256 * bool * list uint256) :=
  '(t, mu) ← merkle_rows (length leaves) 0 (zlen leaves) leaves false;
  Ok (List.last t uint256_null, mu, t).

Fixpoint branch_loop {E} (fuel : nat) (j nSize nIndex : Z) (vMerkleTree vMerkleBranch : list uint256)
    : res E (list uint256) :=
  if 1 <? nSize then
    match fuel with
    | O => Exn out_of_fuel
    | S fuel =>
        h ← tree_at vMerkleTree (j + Z.min (Z.lxor nIndex 1) (nSize - 1));
        branch_loop fuel (j + nSize) ((nSize + 1) / 2) (Z.shiftr nIndex 1) vMerkleTree
          (vMerkleBranch ++ [h])
    end
  else Ok vMerkleBranch.

Definition GetMerkleBranch {E} (nIndex nLeaves : Z) (vMerkleTree : list uint256)
    : res E (list uint256) :=
  branch_loop (Z.to_nat nLeaves) 0 nLeaves nIndex vMerkleTree [].

Fixpoint check_branch_loop (hash : uint256) (vMerkleBranch : list uint256) (nIndex : Z) : uint256 :=
  match vMerkleBranch with
  | [] => hash
  | h :: br =>
      check_branch_loop
        (if negb (Z.land nIndex 1 =? 0) then Hash2 h hash else Hash2 hash h)
        br (Z.shiftr nIndex 1)
  end.

Definition CheckMerkleBranch (hash : uint256) (vMerkleBranch : list uint256) (nIndex : Z) : uint256 :=
  if nIndex =? -1 then uint256_null else check_branch_loop hash vMerkleBranch nIndex.

(** ** Reference definitions *)

(** The level above: neighbours hashed together, an odd last one with itself. *)
Fixpoint next_level (l : list uint256) : list uint256 :=
  match l with
  | a :: b :: l => Hash2 a b :: next_level l
  | [a] => [Hash2 a a]
  | [] => []
  end.

(** A level that ends in a pair of equal hashes. *)
Fixpoint ends_in_pair (l : list uint256) : bool :=
  match l with
  | [a; b] => bool_decide (a = b)
  | _ :: _ :: l => ends_in_pair l
  | _ => false
  end.

(** The levels of the tree from the leaves up to the root. *)
Fixpoint levels (fuel : nat) (l : list uint256) : list (list uint256) :=
  match l with
  | _ :: _ :: _ => l :: match fuel with O => [] | S fuel => levels fuel (next_level l) end
  | _ => [l]
  end.

Definition merkle_levels (leaves : list uint256) : list (list uint256) :=
  levels (length leaves) leaves.

Definition merkle_root (leaves : list uint256) : uint256 :=
  nth 0 (List.last (merkle_levels leaves) []) uint256_null.
End Code.

(** ** Levels *)

Section Levels.
Context `{HashFunctions}.

(** Induction by two elements. *)
Lemma pair_ind {A} (P : list A -> Prop) :
  P [] -> (forall a, P [a]) -> (forall a b l, P l -> P (a :: b :: l)) -> forall l, P l.
Proof.
  intros H0 H1 H2; fix IH 1; intros [| a [| b l]]; [exact H0 | apply H1 | apply H2, IH].
Qed.

Lemma length_next_level l : length (next_level l) = ((length l + 1) / 2)%nat.
Proof.
  induction l as [| a | a b l IH] using pair_ind; [reflexivity .. |]; cbn [next_level length].
  rewrite IH; replace (S (S (length l)) + 1)%nat with (length l + 1 + 1 * 2)%nat by lia.
  rewrite Nat.div_add by lia; lia.
Qed.

Lemma next_level_shorter l : (2 <= length l)%nat -> (1 <= length (next_level l) < length l)%nat.
Proof.
  intros Hl; rewrite length_next_level; split.
  - change 1%nat with (2 / 2)%nat; apply Nat.Div0.div_le_mono; lia.
  - apply Nat.Div0.div_lt_upper_bound; lia.
Qed.

(** More fuel than the number of leaves changes nothing. *)
Lemma levels_fuel f1 f2 l :
  (length l <= f1)%nat -> (length l <= f2)%nat -> levels f1 l = levels f2 l.
Proof.
  revert f2 l; induction f1 as [| f1 IH]; intros f2 l H1 H2.
  - destruct l as [| a [| b l]]; cbn in H1; [now destruct f2 .. | lia].
  - destruct l as [| a [| b l]]; [now destruct f2 .. |].
    destruct f2 as [| f2]; [cbn in H2; lia |]; cbn [levels]; f_equal.
    pose proof (next_level_shorter (a :: b :: l) ltac:(cbn; lia)); apply IH; lia.
Qed.

Lemma merkle_levels_step l :
  (2 <= length l)%nat -> merkle_levels l = l :: merkle_levels (next_level l).
Proof.
  intros Hl; unfold merkle_levels; pose proof (next_level_shorter l Hl).
  destruct l as [| a [| b l]]; cbn in Hl; [lia .. |].
  change (levels _ (a :: b :: l))
    with ((a :: b :: l) :: levels (S (length l)) (next_level (a :: b :: l))).
  f_equal; apply levels_fuel; cbn [length] in *; lia.
Qed.

Lemma merkle_levels_single l : (length l < 2)%nat -> merkle_levels l = [l].
Proof. destruct l as [| a [| b l]]; cbn; [reflexivity .. | lia]. Qed.

(** Induction on the levels of a tree. *)
Lemma level_ind (P : list uint256 -> Prop) :
  (forall l, (length l < 2)%nat -> P l) ->
  (forall l, (2 <= length l)%nat -> P (next_level l) -> P l) -> forall l, P l.
Proof.
  intros H1 H2 l; induction l as [l IH] using (induction_ltof1 _ (@length uint256)).
  destruct (Nat.lt_ge_cases (length l) 2) as [Hl | Hl]; [auto |].
  apply H2, IH; [assumption |]; unfold ltof; pose proof (next_level_shorter l Hl); lia.
Qed.

Lemma merkle_root_step l :
  (2 <= length l)%nat -> merkle_root l = merkle_root (next_level l).
Proof.
  intros Hl; unfold merkle_root; rewrite merkle_levels_step by assumption.
  remember (merkle_levels (next_level l)) as ls eqn:E; destruct ls; [| reflexivity].
  exfalso; revert E; unfold merkle_levels.
  destruct (next_level l) as [| a [| b l']]; discriminate.
Qed.
End Levels.

(** ** The construction *)

Section Build.
Context `{HashFunctions}.

Lemma tree_at_level {E} (pre lvl post : list uint256) (i : nat) x :
  lvl !! i = Some x -> tree_at (E := E) (pre ++ lvl ++ post) (zlen pre + Z.of_nat i) = Ok x.
Proof.
  intros Hi; unfold tree_at, zlen; destruct (Z.ltb_spec (Z.of_nat (length pre) + Z.of_nat i) 0); [lia |].
  replace (Z.to_nat _) with (length pre + i)%nat by lia.
  rewrite lookup_app_r by lia; replace (length pre + i - length pre)%nat with i by lia.
  now rewrite lookup_app_l, Hi by (eapply lookup_lt_Some; eassumption).
Qed.

Lemma merkle_row_ok {E} rest pre lvl post (k : nat) mu :
  drop k lvl = rest ->
  merkle_row (E := E) ((length rest + 1) / 2) (zlen pre) (zlen lvl) (Z.of_nat k)
    (pre ++ lvl ++ post) mu
  = Ok (pre ++ lvl ++ post ++ next_level rest, mu || ends_in_pair rest).
Proof.
  revert k post mu; induction rest as [| a | a b rest IH] using pair_ind; intros k post mu Hr.
  - cbn; now rewrite app_nil_r, orb_false_r.
  - assert (Hk : lvl !! k = Some a) by (rewrite <- (Nat.add_0_r k), <- lookup_drop, Hr; reflexivity).
    assert (Hl : zlen lvl = Z.of_nat k + 1).
    { apply (f_equal length) in Hr; rewrite length_drop in Hr; cbn in Hr; unfold zlen; lia. }
    cbn [length Nat.add Nat.div Nat.divmod fst merkle_row].
    replace (Z.min _ _) with (Z.of_nat k) by lia; rewrite !(tree_at_level _ _ _ _ a Hk).
    cbn [mbind res_bind ends_in_pair next_level].
    replace (Z.of_nat k =? Z.of_nat k + 1) with false by (symmetry; apply Z.eqb_neq; lia).
    cbn [andb]; now rewrite orb_false_r, !app_assoc.
  - assert (Hk : lvl !! k = Some a) by (rewrite <- (Nat.add_0_r k), <- lookup_drop, Hr; reflexivity).
    assert (Hk1 : lvl !! (k + 1)%nat = Some b) by (rewrite <- lookup_drop, Hr; reflexivity).
    assert (Hl : zlen lvl = Z.of_nat k + 2 + zlen rest).
    { apply (f_equal length) in Hr; rewrite length_drop in Hr; cbn in Hr; unfold zlen; lia. }
    pose proof (zlen_nonneg rest).
    replace ((length (a :: b :: rest) + 1) / 2)%nat with (S ((length rest + 1) / 2)).
    2: { cbn [length]; replace (S (S (length rest)) + 1)%nat with (length rest + 1 + 1 * 2)%nat by lia.
         rewrite Nat.div_add by lia; lia. }
    cbn [merkle_row]; replace (Z.min _ _) with (Z.of_nat (k + 1)) by lia.
    rewrite (tree_at_level _ _ _ _ a Hk), (tree_at_level _ _ _ _ b Hk1); cbn [mbind res_bind].
    replace (Z.of_nat k + 2) with (Z.of_nat (k + 2)) by lia.
    rewrite <- !app_assoc, IH by (rewrite <- drop_drop, Hr; reflexivity).
    cbn [next_level]; rewrite <- !app_assoc; f_equal; f_equal.
    replace (Z.of_nat (k + 1) =? Z.of_nat k + 1) with true by (symmetry; apply Z.eqb_eq; lia).
    destruct rest as [| c rest].
    + replace (Z.of_nat (k + 1) + 1 =? zlen lvl) with true
        by (symmetry; apply Z.eqb_eq; rewrite Hl, zlen_nil; lia).
      cbn; destruct (bool_decide (a = b)); now rewrite ?orb_true_r, ?orb_false_r.
    + replace (Z.of_nat (k + 1) + 1 =? zlen lvl) with false
        by (symmetry; apply Z.eqb_neq; rewrite zlen_cons in *; pose proof (zlen_nonneg rest); lia).
      reflexivity.
Qed.

Lemma merkle_rows_ok {E} l : forall fuel pre mu,
  (length l <= fuel)%nat ->
  merkle_rows (E := E) fuel (zlen pre) (zlen l) (pre ++ l) mu
  = Ok (pre ++ concat (merkle_levels l), mu || existsb ends_in_pair (merkle_levels l)).
Proof.
  induction l as [l Hl | l Hl IH] using level_ind; intros fuel pre mu Hf.
  - rewrite merkle_levels_single by assumption; cbn [concat existsb].
    destruct fuel; cbn [merkle_rows]; destruct (Z.ltb_spec 1 (zlen l)); try (unfold zlen in *; lia).
    all: rewrite app_nil_r; f_equal; f_equal; destruct l as [| a [| b l]]; cbn in Hl |- *;
      [now rewrite orb_false_r .. | lia].
  - rewrite merkle_levels_step by assumption; cbn [concat existsb].
    destruct fuel as [| fuel]; [lia |]; cbn [merkle_rows].
    destruct (Z.ltb_spec 1 (zlen l)); [| unfold zlen in *; lia].
    assert (Hh : (zlen l + 1) / 2 = Z.of_nat ((length l + 1) / 2))
      by (unfold zlen; rewrite Nat2Z.inj_div, Nat2Z.inj_add; reflexivity).
    rewrite Hh, Nat2Z.id; change 0 with (Z.of_nat 0).
    pose proof (merkle_row_ok (E := E) l pre l [] 0 mu eq_refl) as R; rewrite !app_nil_r in R.
    rewrite R; cbn [mbind res_bind]; rewrite app_nil_l, <- length_next_level.
    replace (zlen pre + zlen l) with (zlen (pre ++ l)) by apply zlen_app.
    fold (zlen (next_level l)); rewrite app_assoc.
    pose proof (next_level_shorter l Hl); rewrite IH by lia.
    now rewrite <- app_assoc, orb_assoc.
Qed.

Lemma merkle_levels_last l : exists front,
  merkle_levels l = front ++ [List.last (merkle_levels l) []] /\
  (length (List.last (merkle_levels l) []) < 2)%nat /\ (l <> [] -> List.last (merkle_levels l) [] <> []).
Proof.
  induction l as [l Hl | l Hl (front & IH & IH1 & IH2)] using level_ind.
  - exists []; rewrite merkle_levels_single by assumption; cbn; auto.
  - exists (l :: front); rewrite merkle_levels_step by assumption; cbn [app].
    assert (E : List.last (l :: merkle_levels (next_level l)) []
              = List.last (merkle_levels (next_level l)) []) by (rewrite IH; now destruct front).
    rewrite E; repeat split; [congruence | assumption |]; intros _; apply IH2; intros H0.
    pose proof (next_level_shorter l Hl); rewrite H0 in *; cbn in *; lia.
Qed.

Lemma BuildMerkleTree_ok {E} leaves :
  BuildMerkleTree (E := E) leaves
  = Ok (merkle_root leaves, existsb ends_in_pair (merkle_levels leaves),
        concat (merkle_levels leaves)).
Proof.
  unfold BuildMerkleTree; pose proof (merkle_rows_ok (E := E) leaves (length leaves) [] false
    (le_n _)) as R; cbn [app orb] in R; change (zlen (@nil uint256)) with 0 in R.
  rewrite R; cbn [mbind res_bind]; f_equal; f_equal; f_equal; unfold merkle_root.
  destruct (merkle_levels_last leaves) as (front & E' & Hl & Hn).
  destruct (List.last (merkle_levels leaves) []) as [| r [| ? ?]] eqn:Er; [| | cbn in Hl; lia].
  - destruct leaves; [reflexivity | now exfalso; apply Hn].
  - rewrite E', concat_app; cbn; apply last_last.
Qed.
End Build.

(** ** Branches *)

Section Branch.
Context `{HashFunctions}.

(** The parent of the node at [i] is the hash of it and its neighbour. *)
Lemma next_level_lookup l : forall (i : nat) x,
  l !! i = Some x ->
  exists y, l !! Nat.min (if Nat.even i then i + 1 else i - 1) (length l - 1) = Some y /\
    next_level l !! (i / 2)%nat = Some (if Nat.even i then Hash2 x y else Hash2 y x).
Proof.
  induction l as [| a | a b l IH] using pair_ind; intros i x Hi; [discriminate | |].
  - destruct i as [| i]; [| discriminate]; injection Hi as ->; now exists x.
  - destruct i as [| [| i]].
    + injection Hi as ->; exists b; split; [cbn; now destruct (length l) | reflexivity].
    + injection Hi as ->; exists a; split; reflexivity.
    + destruct (IH i x Hi) as (y & Hy & Hn); exists y; cbn [Nat.even]; split.
      * pose proof (lookup_lt_Some _ _ _ Hi); cbn [length] in *.
        destruct (Nat.even i) eqn:Ei.
        -- replace (Nat.min _ _) with (S (S (Nat.min (i + 1) (length l - 1)))) by lia; exact Hy.
        -- destruct i as [| i]; [discriminate |].
           replace (Nat.min _ _) with (S (S (Nat.min (S i - 1) (length l - 1)))) by lia; exact Hy.
      * replace (S (S i) / 2)%nat with (S (i / 2))
          by (replace (S (S i)) with (i + 1 * 2)%nat by lia; rewrite Nat.div_add by lia; lia).
        exact Hn.
Qed.

Lemma lxor_1_double z : 0 <= z -> Z.lxor (2 * z) 1 = 2 * z + 1 /\ Z.lxor (2 * z + 1) 1 = 2 * z.
Proof. now destruct z as [| p | p]; [| | lia]. Qed.

Lemma lxor_1 (i : nat) :
  Z.lxor (Z.of_nat i) 1 = Z.of_nat (if Nat.even i then i + 1 else i - 1).
Proof.
  destruct (Nat.Even_or_Odd i) as [Hi | Hi]; pose proof Hi as [k Hk].
  - apply Nat.even_spec in Hi; rewrite Hi; subst i.
    replace (Z.of_nat (2 * k)) with (2 * Z.of_nat k) by lia; rewrite (proj1 (lxor_1_double (Z.of_nat k) ltac:(lia))); lia.
  - apply Nat.odd_spec in Hi; unfold Nat.odd in Hi; apply negb_true_iff in Hi; rewrite Hi; subst i.
    replace (Z.of_nat (2 * k + 1)) with (2 * Z.of_nat k + 1) by lia.
    rewrite (proj2 (lxor_1_double (Z.of_nat k) ltac:(lia))); lia.
Qed.

Lemma land_1_even (i : nat) : negb (Z.land (Z.of_nat i) 1 =? 0) = negb (Nat.even i).
Proof.
  replace (Z.land (Z.of_nat i) 1) with (Z.of_nat (i mod 2))
    by (rewrite Nat2Z.inj_mod; symmetry; exact (land_mask_mod (Z.of_nat i) 1 ltac:(lia))).
  f_equal; destruct (Nat.Even_or_Odd i) as [Hi | Hi]; pose proof Hi as [k Hk].
  - apply Nat.even_spec in Hi; rewrite Hi; subst i; rewrite Nat.mul_comm, Nat.Div0.mod_mul; reflexivity.
  - apply Nat.odd_spec in Hi; unfold Nat.odd in Hi; apply negb_true_iff in Hi; rewrite Hi; subst i.
    rewrite Nat.add_comm, Nat.mul_comm, Nat.Div0.mod_add; reflexivity.
Qed.

(** The branch collected from a level up evaluates to the root of that level. *)
Lemma branch_loop_ok {E} l : forall fuel (i : nat) x pre post acc,
  (length l <= fuel)%nat -> l !! i = Some x ->
  exists br, branch_loop (E := E) fuel (zlen pre) (zlen l) (Z.of_nat i)
      (pre ++ concat (merkle_levels l) ++ post) acc = Ok (acc ++ br) /\
    check_branch_loop x br (Z.of_nat i) = merkle_root l.
Proof.
  induction l as [l Hl | l Hl IH] using level_ind; intros fuel i x pre post acc Hf Hi.
  - exists []; rewrite app_nil_r; split.
    + destruct fuel; cbn [branch_loop]; destruct (Z.ltb_spec 1 (zlen l)); try (unfold zlen in *; lia);
        reflexivity.
    + destruct l as [| a [| b l]]; [discriminate | | cbn in Hl; lia].
      destruct i as [| i]; [now injection Hi as -> | discriminate].
  - destruct fuel as [| fuel]; [lia |].
    destruct (next_level_lookup l i x Hi) as (y & Hy & Hn).
    destruct (IH fuel (i / 2)%nat _ (pre ++ l) post (acc ++ [y])
      ltac:(pose proof (next_level_shorter l Hl); lia) Hn) as (br & Hbr & Hc).
    exists (y :: br); rewrite merkle_root_step by assumption.
    replace (acc ++ y :: br) with ((acc ++ [y]) ++ br) by now rewrite <- app_assoc.
    rewrite <- Hbr, <- Hc; split.
    + cbn [branch_loop]; destruct (Z.ltb_spec 1 (zlen l)); [| unfold zlen in *; lia].
      rewrite merkle_levels_step by assumption; cbn [concat]; rewrite <- !app_assoc, lxor_1.
      replace (Z.min _ _) with
        (Z.of_nat (Nat.min (if Nat.even i then i + 1 else i - 1) (length l - 1)))
        by (unfold zlen in *; lia).
      rewrite (tree_at_level _ _ _ _ y Hy); cbn [mbind res_bind].
      rewrite zlen_app; replace (zlen (next_level l)) with ((zlen l + 1) / 2)
        by (unfold zlen; rewrite length_next_level, Nat2Z.inj_div, Nat2Z.inj_add; reflexivity).
      now rewrite Z.shiftr_div_pow2, Nat2Z.inj_div by lia.
    + cbn [check_branch_loop]; rewrite land_1_even, Z.shiftr_div_pow2 by lia.
      rewrite Nat2Z.inj_div; now destruct (Nat.even i).
Qed.
End Branch.

(** ** Binding *)

Section Binding.
Context `{HashFunctions}.

(** Double SHA-256 tells the inputs of a computation apart.  It cannot be
    injective on all inputs, so the theorems name the finitely many inputs that
    the code hashes. *)
Definition collision_free (inputs : list (list Z)) : Prop :=
  forall x y, x ∈ inputs -> y ∈ inputs -> CHash256 x = CHash256 y -> x = y.

Lemma collision_free_mono l1 l2 : l1 ⊆ l2 -> collision_free l2 -> collision_free l1.
Proof. intros Hl Hf x y Hx Hy; apply Hf; now apply Hl. Qed.

(** Evaluated on a concrete list. *)
Lemma collision_free_digests l :
  bool_decide (base.NoDup (map CHash256 (remove_dups l))) = true -> collision_free l.
Proof.
  intros Hd%bool_decide_eq_true x y Hx%elem_of_remove_dups Hy%elem_of_remove_dups E.
  apply list_elem_of_lookup in Hx as [i Hi]; apply list_elem_of_lookup in Hy as [j Hj].
  assert (i = j) as <- by (eapply (NoDup_lookup _ i j (CHash256 x) Hd); rewrite list_lookup_fmap;
    [now rewrite Hi | now rewrite Hj, E]); congruence.
Qed.

(** What is hashed for the level above one, and for a whole tree. *)
Fixpoint pair_inputs (l : list uint256) : list (list Z) :=
  match l with
  | [] => []
  | [a] => [a ++ a]
  | a :: b :: l => (a ++ b) :: pair_inputs l
  end.

Definition merkle_inputs (leaves : list uint256) : list (list Z) :=
  concat (map pair_inputs (removelast (merkle_levels leaves))).

Lemma next_level_inputs l : next_level l = map CHash256 (pair_inputs l).
Proof. induction l as [| a | a b l IH] using pair_ind; [reflexivity.. |]; cbn; now rewrite IH. Qed.

Lemma merkle_inputs_step l : (2 <= length l)%nat -> merkle_inputs l = pair_inputs l ++ merkle_inputs (next_level l).
Proof.
  intros Hl; unfold merkle_inputs; rewrite merkle_levels_step by assumption.
  destruct (merkle_levels_last (next_level l)) as (front & E & _).
  destruct (merkle_levels (next_level l)) as [| a r] eqn:Em; [now destruct front | reflexivity].
Qed.

Lemma Hash2_binding inputs a b c d :
  collision_free inputs -> a ++ b ∈ inputs -> c ++ d ∈ inputs ->
  length a = 32%nat -> length c = 32%nat -> Hash2 a b = Hash2 c d -> a = c /\ b = d.
Proof. intros Hf Hx Hy Ha Hc E; apply app_inj_1; [congruence | exact (Hf _ _ Hx Hy E)]. Qed.

Lemma next_level_binding inputs l1 : forall l2,
  collision_free inputs -> pair_inputs l1 ⊆ inputs -> pair_inputs l2 ⊆ inputs ->
  Forall (fun h => length h = 32%nat) l1 -> Forall (fun h => length h = 32%nat) l2 ->
  ends_in_pair l1 = false -> ends_in_pair l2 = false ->
  next_level l1 = next_level l2 -> l1 = l2.
Proof.
  induction l1 as [| a | a b l1 IH] using pair_ind; intros [| c [| d l2]] Hf I1 I2 F1 F2 P1 P2 E;
    try discriminate; [reflexivity | | | |].
  all: cbn [next_level] in E; first [injection E as E Er | injection E as E].
  all: apply (Hash2_binding inputs) in E as [-> E];
    [| exact Hf | apply I1; now left | apply I2; now left | exact (Forall_inv F1) | exact (Forall_inv F2)].
  - reflexivity.
  - destruct l2; [| destruct l2; discriminate]; subst d; cbn in P2.
    now rewrite bool_decide_eq_true_2 in P2.
  - destruct l1; [| destruct l1; discriminate]; subst b; cbn in P1.
    now rewrite bool_decide_eq_true_2 in P1.
  - subst d; rewrite (IH l2); auto.
    + intros x Hx; apply I1; now right.
    + intros x Hx; apply I2; now right.
    + now do 2 apply Forall_inv_tail in F1.
    + now do 2 apply Forall_inv_tail in F2.
    + now destruct l1 as [| ? [| ? ?]].
    + now destruct l2 as [| ? [| ? ?]].
Qed.

Lemma next_level_sizes `{!HashFunctionsOk _} l :
  Forall (fun h => length h = 32%nat) (next_level l).
Proof.
  induction l as [| a | a b l IH] using pair_ind; cbn; constructor;
    auto using CHash256_length; apply CHash256_length.
Qed.
End Binding.

(** ** Properties *)

(** [BuildMerkleTree] terminates without leaving the vector, for every
    list of leaves: the vector it fills is the levels of the tree one after the
    other, each obtained from the one below by hashing neighbours and an odd
    last node with itself; the result is the root, and [*fMutated] is set
    exactly when some level ends in a pair of equal hashes. *)
Theorem build_merkle_tree_exact `{HashFunctions} (leaves : list uint256) :
  BuildMerkleTree (E := unit) leaves
  = Ok (merkle_root leaves, existsb ends_in_pair (merkle_levels leaves),
        concat (merkle_levels leaves)).
Proof. apply BuildMerkleTree_ok. Qed.

(** The branch [GetMerkleBranch] collects for a leaf from the tree of
    [BuildMerkleTree] is found for every leaf, and [CheckMerkleBranch] computes
    from the leaf and that branch the root of the tree. *)
Theorem merkle_branch_verifies `{HashFunctions} (leaves tree : list uint256) (root : uint256)
    (mutated : bool) (i : nat) (leaf : uint256) :
  BuildMerkleTree (E := unit) leaves = Ok (root, mutated, tree) -> leaves !! i = Some leaf ->
  exists branch, GetMerkleBranch (E := unit) (Z.of_nat i) (zlen leaves) tree = Ok branch /\
    CheckMerkleBranch leaf branch (Z.of_nat i) = root.
Proof.
  rewrite BuildMerkleTree_ok; intros [= <- <- <-] Hi.
  destruct (branch_loop_ok (E := unit) leaves (length leaves) i leaf [] [] [] (le_n _) Hi)
    as (br & Hbr & Hc); cbn [app] in Hbr; rewrite app_nil_r in Hbr.
  exists br; unfold GetMerkleBranch, CheckMerkleBranch, zlen; rewrite Nat2Z.id; split; [exact Hbr |].
  now destruct (Z.eqb_spec (Z.of_nat i) (-1)); [lia |].
Qed.

(** The defence against CVE-2012-2459.  Two lists of transaction hashes
    whose trees have equally many levels, the same root, and for neither of
    which [*fMutated] is set, are the same list, when double SHA-256 tells apart
    what is hashed for the two trees. *)
Theorem merkle_root_binding `{HashFunctionsOk} (l1 l2 t1 t2 : list uint256) (root : uint256) :
  collision_free (merkle_inputs l1 ++ merkle_inputs l2) ->
  Forall (fun h => length h = 32%nat) l1 -> Forall (fun h => length h = 32%nat) l2 ->
  length (merkle_levels l1) = length (merkle_levels l2) -> l1 <> [] -> l2 <> [] ->
  BuildMerkleTree (E := unit) l1 = Ok (root, false, t1) ->
  BuildMerkleTree (E := unit) l2 = Ok (root, false, t2) ->
  l1 = l2.
Proof.
  rewrite !BuildMerkleTree_ok; intros Hf F1 F2 Hlv N1 N2 [= R1 M1 _] [= R2 M2 _].
  rewrite <- R2 in R1; clear R2.
  assert (I1 : merkle_inputs l1 ⊆ merkle_inputs l1 ++ merkle_inputs l2) by now apply list_subseteq_app_l.
  assert (I2 : merkle_inputs l2 ⊆ merkle_inputs l1 ++ merkle_inputs l2) by now apply list_subseteq_app_r.
  revert Hf I1 I2; generalize (merkle_inputs l1 ++ merkle_inputs l2) as inputs; intros inputs Hf I1 I2.
  revert l2 I2 F1 F2 Hlv N1 N2 R1 M1 M2; induction l1 as [l1 H1 | l1 H1 IH] using level_ind;
    intros l2 I2 F1 F2 Hlv N1 N2 R M1 M2; destruct (Nat.lt_ge_cases (length l2) 2) as [H2 | H2].
  - destruct l1 as [| a [| ? ?]]; [easy | | cbn in H1; lia].
    destruct l2 as [| b [| ? ?]]; [easy | | cbn in H2; lia].
    now cbn in R; rewrite R.
  - rewrite (merkle_levels_single l1), (merkle_levels_step l2) in Hlv by assumption.
    cbn in Hlv; destruct (merkle_levels_last (next_level l2)) as (fr & E & _).
    rewrite E, length_app in Hlv; cbn in Hlv; lia.
  - rewrite (merkle_levels_single l2), (merkle_levels_step l1) in Hlv by assumption.
    cbn in Hlv; destruct (merkle_levels_last (next_level l1)) as (fr & E & _).
    rewrite E, length_app in Hlv; cbn in Hlv; lia.
  - rewrite merkle_inputs_step in I1, I2 by assumption; apply list_subseteq_app_iff_l in I1 as [J1 I1]; apply list_subseteq_app_iff_l in I2 as [J2 I2].
    rewrite (merkle_levels_step l1) in Hlv, M1 by assumption.
    rewrite (merkle_levels_step l2) in Hlv, M2 by assumption; cbn [length existsb] in *.
    rewrite (merkle_root_step l1), (merkle_root_step l2) in R by assumption.
    apply orb_false_elim in M1 as [P1 M1]; apply orb_false_elim in M2 as [P2 M2].
    pose proof (next_level_shorter l1 H1); pose proof (next_level_shorter l2 H2).
    apply (next_level_binding inputs); try assumption.
    apply IH; auto using next_level_sizes; intros E; rewrite E in *; cbn in *; lia.
Qed.

(** ** Instances *)

(** Three hashes of 32 bytes. *)
Definition hash_of (x : Z) : uint256 := x :: repeat 0 31.
Definition three : list uint256 := [hash_of 1; hash_of 2; hash_of 3].

Lemma merkle_branch_verifies_witness :
  exists root tree branch,
    @BuildMerkleTree toy_hashes unit three = Ok (root, false, tree) /\
    GetMerkleBranch (E := unit) 2 3 tree = Ok branch /\ length branch = 2%nat /\
    @CheckMerkleBranch toy_hashes (hash_of 3) branch 2 = root.
Proof.
  destruct (@BuildMerkleTree toy_hashes unit three) as [[[root mu] tree] | |] eqn:E;
    [| vm_compute in E; discriminate ..].
  destruct (@merkle_branch_verifies toy_hashes three tree root mu 2 (hash_of 3) E eq_refl)
    as (branch & Hb & Hc); exists root, tree, branch.
  assert (mu = false) as -> by (vm_compute in E; congruence).
  split; [reflexivity |]; split; [exact Hb |]; split; [| exact Hc].
  vm_compute in E; injection E as <- <-; vm_compute in Hb; now injection Hb as <-.
Defined.

(** The list with its last hash repeated has the same root and as many levels,
    but is flagged; the list itself is not. *)
Lemma merkle_root_binding_witness :
  (exists root t1 t2,
    @BuildMerkleTree toy_hashes unit three = Ok (root, false, t1) /\
    @BuildMerkleTree toy_hashes unit (three ++ [hash_of 3]) = Ok (root, true, t2)) /\
  three = three.
Proof.
  split; [vm_compute; repeat eexists |].
  destruct (@BuildMerkleTree toy_hashes unit three) as [[[root mu] tree] | |] eqn:E;
    [| vm_compute in E; discriminate ..].
  assert (mu = false) as -> by (vm_compute in E; congruence).
  apply (@merkle_root_binding toy_hashes toy_hashes_ok three three tree tree root);
    [apply (@collision_free_digests toy_hashes); vm_compute; reflexivity
    | repeat constructor | repeat constructor | reflexivity | discriminate | discriminate
    | exact E | exact E].
Defined.
