(* ===== verification/Hasher.v ===== *)
(** * Buffered hashers

    The four hashers of crypto/ (CSHA256, CSHA512, CSHA1, CRIPEMD160) share one
    driver: [Write] collects the input in a block-sized buffer and transforms
    every full block, [Finalize] appends the padding and the bit length.  The
    driver is written once here, over the block size and the transformation,
    and is instantiated by each hasher. *)
From S2P Require Import Prelude Endian.

(** The members [s], [buf] and [bytes]. *)
Record hasher := mk_hasher { hs : list Z; hbuf : list Z; hbytes : Z }.

(** [memcpy(buf + off, data, len)]. *)
Definition overwrite (buf : list Z) (off : nat) (data : list Z) : list Z :=
  take off buf ++ data ++ drop (off + length data) buf.

Section Buffered.
Context (B : nat) (Transform : list Z -> list Z -> list Z) (Initialize : list Z).

(** [n] transformations of consecutive blocks: the loop [while (blocks--)] of
    SHA-256, the loop [while (end >= data + B)] of the others. *)
Fixpoint transform_blocks (n : nat) (s chunk : list Z) : list Z :=
  match n with
  | O => s
  | S n => transform_blocks n (Transform s (take B chunk)) (drop B chunk)
  end.

(** The constructor and [Reset]; the buffer's first content is never read. *)
Definition hasher_init : hasher := mk_hasher Initialize (repeat 0 B) 0.

(** First part of [Write]: complete the buffer and process it.  The hasher, the
    rest of the data and the remaining fill of the buffer. *)
Definition write_fill (h : hasher) (data : list Z) : hasher * list Z * nat :=
  let bufsize := Z.to_nat (hbytes h mod Z.of_nat B) in
  if negb (bufsize =? 0)%nat && (B <=? bufsize + length data)%nat then
    let buf := overwrite (hbuf h) bufsize (take (B - bufsize) data) in
    (mk_hasher (Transform (hs h) buf) buf (u64 (hbytes h + Z.of_nat (B - bufsize))),
     drop (B - bufsize) data, 0%nat)
  else (h, data, bufsize).

(** Second part: the full blocks, directly from the source. *)
Definition write_blocks (h : hasher) (data : list Z) : hasher * list Z :=
  if (B <=? length data)%nat then
    let blocks := (length data / B)%nat in
    (mk_hasher (transform_blocks blocks (hs h) data) (hbuf h)
       (u64 (hbytes h + Z.of_nat (B * blocks))),
     drop (B * blocks) data)
  else (h, data).

(** Third part: what remains goes to the buffer. *)
Definition write_rest (h : hasher) (data : list Z) (bufsize : nat) : hasher :=
  if (0 <? length data)%nat then
    mk_hasher (hs h) (overwrite (hbuf h) bufsize data) (u64 (hbytes h + zlen data))
  else h.

Definition Write (h : hasher) (data : list Z) : hasher :=
  let '(h, data, bufsize) := write_fill h data in
  let '(h, data) := write_blocks h data in
  write_rest h data bufsize.

(** [Finalize] up to the output: [L] bytes of length descriptor, made by [desc]
    from the bit count. *)
Context (L : nat) (desc : Z -> list Z).

Definition pad : list Z := 0x80 :: repeat 0 (B - 1).

Definition finalize_state (h : hasher) : list Z :=
  let sizedesc := desc (u64 (Z.shiftl (hbytes h) 3)) in
  let padlen := 1 + (Z.of_nat (2 * B - L - 1) - hbytes h mod Z.of_nat B) mod Z.of_nat B in
  let h := Write h (take (Z.to_nat padlen) pad) in
  hs (Write h sizedesc).

(** ** Reference: the hash of the whole padded message *)

Definition md_pad (msg : list Z) : list Z :=
  msg ++ 0x80 :: repeat 0 ((2 * B - L - 1 - length msg mod B) mod B) ++ desc (8 * zlen msg).

Definition md_state (msg : list Z) : list Z :=
  transform_blocks (length (md_pad msg) / B) Initialize (md_pad msg).

Context (HB : (0 < B)%nat) (HB64 : (Z.of_nat B | 2 ^ 64)).

Lemma transform_blocks_add n m s c :
  transform_blocks (n + m) s c = transform_blocks m (transform_blocks n s c) (drop (B * n) c).
Proof.
  revert s c; induction n as [| n IH]; intros s c; cbn [transform_blocks Nat.add].
  - now rewrite Nat.mul_0_r, drop_0.
  - rewrite IH, drop_drop; do 2 f_equal; lia.
Qed.

Lemma transform_blocks_app n s c d :
  (B * n <= length c)%nat -> transform_blocks n s (c ++ d) = transform_blocks n s c.
Proof.
  revert s c; induction n as [| n IH]; intros s c Hn; [reflexivity |]; cbn [transform_blocks].
  rewrite take_app_le, drop_app_le by nia; apply IH; rewrite length_drop; nia.
Qed.

(** The blocks of a message that starts with [c], a whole number of blocks. *)
Lemma transform_blocks_split c d s :
  (length c mod B = 0)%nat ->
  transform_blocks (length (c ++ d) / B) s (c ++ d)
  = transform_blocks (length d / B) (transform_blocks (length c / B) s c) d.
Proof.
  intros Hc; pose proof (Nat.div_mod (length c) B ltac:(lia)) as E; rewrite Hc in E.
  assert (Ed : (length (c ++ d) / B = length c / B + length d / B)%nat).
  { rewrite length_app; rewrite E at 1; rewrite Nat.add_0_r, Nat.mul_comm.
    rewrite Nat.div_add_l by lia; reflexivity. }
  rewrite Ed, transform_blocks_add; rewrite (transform_blocks_app _ s c d) by lia.
  now rewrite drop_app_length' by lia.
Qed.

(** What a hasher knows of the message [c ++ r] written so far: the blocks [c]
    have been transformed and the incomplete block [r] is in the buffer. *)
Record absorbed (h : hasher) (c r : list Z) : Prop := {
  ab_blocks : (length c mod B = 0)%nat;
  ab_rest : (length r < B)%nat;
  ab_state : hs h = transform_blocks (length c / B) Initialize c;
  ab_bytes : hbytes h = u64 (zlen (c ++ r));
  ab_buf : take (length r) (hbuf h) = r;
  ab_size : length (hbuf h) = B;
}.

Lemma absorbed_init : absorbed hasher_init [] [].
Proof.
  split; cbn [hasher_init hs hbytes hbuf length app].
  - now rewrite Nat.Div0.mod_0_l.
  - assumption.
  - now rewrite Nat.Div0.div_0_l.
  - reflexivity.
  - reflexivity.
  - apply repeat_length.
Qed.

Lemma bytes_mod_absorbed h c r : absorbed h c r -> hbytes h mod Z.of_nat B = zlen r.
Proof.
  intros [Hc Hr _ Hb _ _]; rewrite Hb; unfold uwrap; rewrite Z.mod_mod_divide by assumption.
  unfold zlen; rewrite length_app, Nat2Z.inj_add, Z.add_comm, <- Z.add_mod_idemp_r by lia.
  rewrite <- (Nat2Z.inj_mod (length c)), Hc, Z.add_0_r; apply Z.mod_small; lia.
Qed.

(** Counting on wraps the counter as the message length does. *)
Lemma u64_add_zlen (msg data : list Z) n :
  n = zlen data -> u64 (u64 (zlen msg) + n) = u64 (zlen (msg ++ data)).
Proof. intros ->; rewrite zlen_app; apply Zplus_mod_idemp_l. Qed.

Lemma mod_0_app (c d : list Z) :
  (length c mod B = 0)%nat -> (length d mod B = 0)%nat -> (length (c ++ d) mod B = 0)%nat.
Proof. intros Hc Hd; now rewrite length_app, Nat.Div0.add_mod, Hc, Hd, Nat.Div0.mod_0_l. Qed.

(** The buffer after it has been completed. *)
Lemma overwrite_full buf r d :
  take (length r) buf = r -> length buf = B -> (length r + length d = B)%nat ->
  overwrite buf (length r) d = r ++ d.
Proof.
  intros Ht Hl Hd; unfold overwrite; rewrite Ht, (drop_ge buf) by lia; now rewrite app_nil_r.
Qed.

Lemma write_fill_ok h c r data :
  absorbed h c r ->
  exists h' c' r' data' , write_fill h data = (h', data', length r') /\
    absorbed h' c' r' /\ c ++ r ++ data = c' ++ r' ++ data' /\
    (r' = [] \/ length r' + length data' < B)%nat.
Proof.
  intros Ha; unfold write_fill; rewrite (bytes_mod_absorbed h c r Ha).
  replace (Z.to_nat (zlen r)) with (length r) by (unfold zlen; lia).
  destruct Ha as [Hc Hr Hs Hb Ht Hl].
  destruct (negb (length r =? 0)%nat && (B <=? length r + length data)%nat) eqn:E.
  - apply andb_prop in E as [_ E]; apply Nat.leb_le in E.
    set (d := take (B - length r) data).
    assert (Hd : (length r + length d = B)%nat) by (unfold d; rewrite length_take; lia).
    assert (Hd' : length (r ++ d) = B) by (rewrite length_app; lia).
    assert (Hm : (length (r ++ d) mod B = 0)%nat) by (rewrite Hd'; apply Nat.Div0.mod_same).
    exists (mk_hasher (Transform (hs h) (r ++ d)) (r ++ d) (u64 (hbytes h + Z.of_nat (B - length r)))).
    exists (c ++ r ++ d), [], (drop (B - length r) data); rewrite overwrite_full by assumption.
    split; [reflexivity |]; split; [split; cbn [hs hbytes hbuf length] |].
    + now apply mod_0_app.
    + lia.
    + rewrite transform_blocks_split, <- Hs, Hd', Nat.div_same by (assumption || lia).
      cbn [transform_blocks]; now rewrite take_ge by lia.
    + rewrite app_nil_r, app_assoc, Hb; apply u64_add_zlen; unfold zlen; lia.
    + reflexivity.
    + assumption.
    + split; [| now left]; unfold d; now rewrite <- !app_assoc, app_nil_l, take_drop.
  - exists h, c, r, data; split; [reflexivity |]; split; [split; assumption |].
    split; [reflexivity |]; apply andb_false_iff in E as [E | E].
    + left; apply negb_false_iff, Nat.eqb_eq in E; now destruct r.
    + right; now apply Nat.leb_gt in E.
Qed.

Lemma write_blocks_ok h c r data :
  absorbed h c r -> (r = [] \/ length r + length data < B)%nat ->
  exists h' c' data', write_blocks h data = (h', data') /\
    absorbed h' c' r /\ c ++ r ++ data = c' ++ r ++ data' /\ (length r + length data' < B)%nat.
Proof.
  intros Ha Hor; unfold write_blocks; destruct (Nat.leb_spec B (length data)) as [E | E].
  - destruct Hor as [-> | ?]; [| lia]; destruct Ha as [Hc Hr Hs Hb Ht Hl].
    set (n := (length data / B)%nat); set (d := take (B * n) data).
    pose proof (Nat.div_mod (length data) B ltac:(lia)) as Edm; fold n in Edm.
    pose proof (Nat.mod_upper_bound (length data) B ltac:(lia)).
    assert (Hd : length d = (B * n)%nat) by (unfold d; rewrite length_take; lia).
    assert (Hm : (length d mod B = 0)%nat) by (rewrite Hd, Nat.mul_comm; apply Nat.Div0.mod_mul).
    exists (mk_hasher (transform_blocks n (hs h) data) (hbuf h) (u64 (hbytes h + Z.of_nat (B * n)))).
    exists (c ++ d), (drop (B * n) data); split; [reflexivity |].
    split; [split; cbn [hs hbytes hbuf length] |].
    + now apply mod_0_app.
    + lia.
    + rewrite transform_blocks_split, <- Hs by assumption.
      rewrite Hd, Nat.mul_comm, Nat.div_mul by lia.
      rewrite <- (take_drop (B * n) data); apply transform_blocks_app; fold d; lia.
    + rewrite app_nil_r, Hb, app_nil_r; apply u64_add_zlen; unfold zlen; lia.
    + reflexivity.
    + assumption.
    + cbn [length app]; rewrite length_drop; split; [| lia].
      unfold d; now rewrite <- app_assoc, take_drop.
  - exists h, c, data; split; [reflexivity |]; split; [assumption |]; split; [reflexivity |].
    destruct Hor as [-> | ?]; [cbn; lia | assumption].
Qed.

Lemma write_rest_ok h c r data :
  absorbed h c r -> (length r + length data < B)%nat ->
  absorbed (write_rest h data (length r)) c (r ++ data).
Proof.
  intros Ha Hlt; unfold write_rest; destruct (Nat.ltb_spec 0 (length data)) as [E | E].
  - destruct Ha as [Hc Hr Hs Hb Ht Hl].
    split; cbn [hs hbytes hbuf]; auto; try (rewrite length_app; lia).
    + rewrite Hb, app_assoc; now apply u64_add_zlen.
    + unfold overwrite; rewrite Ht, app_assoc; now apply take_app_length'.
    + unfold overwrite; rewrite !length_app, length_take, length_drop; lia.
  - destruct data; [now rewrite app_nil_r | cbn in E; lia].
Qed.

Lemma Write_ok h c r data :
  absorbed h c r -> exists c' r', absorbed (Write h data) c' r' /\ c ++ r ++ data = c' ++ r'.
Proof.
  intros Ha; unfold Write.
  destruct (write_fill_ok h c r data Ha) as (h1 & c1 & r1 & d1 & -> & H1 & E1 & O1).
  destruct (write_blocks_ok h1 c1 r1 d1 H1 O1) as (h2 & c2 & d2 & -> & H2 & E2 & O2).
  exists c2, (r1 ++ d2); split; [now apply write_rest_ok | congruence].
Qed.

Lemma fold_Write_ok ds h c r :
  absorbed h c r ->
  exists c' r', absorbed (fold_left Write ds h) c' r' /\ c ++ r ++ concat ds = c' ++ r'.
Proof.
  revert h c r; induction ds as [| d ds IH]; intros h c r Ha; cbn [fold_left concat].
  - exists c, r; now rewrite app_nil_r.
  - destruct (Write_ok h c r d Ha) as (c1 & r1 & H1 & E1).
    destruct (IH _ _ _ H1) as (c2 & r2 & H2 & E2); exists c2, r2; split; [assumption |].
    rewrite <- E2, !app_assoc in *; now rewrite E1.
Qed.

Context (HL : (0 < L)%nat) (HLB : (L < B)%nat) (Hdesc : forall x, length (desc x) = L).

(** The padding fills the last block. *)
Lemma md_pad_mod msg : (length (md_pad msg) mod B = 0)%nat.
Proof.
  unfold md_pad; rewrite length_app; cbn [length]; rewrite length_app, repeat_length, Hdesc.
  set (n := length msg); pose proof (Nat.mod_upper_bound n B ltac:(lia)).
  pose proof (Nat.div_mod n B ltac:(lia)) as En.
  set (k := (2 * B - L - 1 - n mod B)%nat).
  pose proof (Nat.div_mod k B ltac:(lia)) as Ek.
  replace (n + S (k mod B + L))%nat with (0 + (n / B + 2 - k / B) * B)%nat;
    [rewrite Nat.Div0.mod_add; apply Nat.Div0.mod_0_l |].
  assert (k / B <= 1)%nat by (apply Nat.lt_succ_r, Nat.Div0.div_lt_upper_bound; unfold k; lia).
  unfold k in *; nia.
Qed.

Lemma absorbed_state h c r : absorbed h c r -> (length (c ++ r) mod B = 0)%nat ->
  hs h = transform_blocks (length (c ++ r) / B) Initialize (c ++ r).
Proof.
  intros [Hc Hr Hs _ _ _] Hm.
  rewrite length_app, Nat.Div0.add_mod, Hc, Nat.add_0_l, Nat.Div0.mod_mod in Hm.
  rewrite Nat.mod_small in Hm by assumption; destruct r; [now rewrite app_nil_r | discriminate].
Qed.

Lemma take_pad k : (k <= B - 1)%nat -> take (S k) pad = 0x80 :: repeat 0 k.
Proof.
  intros Hk; unfold pad; cbn [take]; f_equal.
  replace (B - 1)%nat with (k + (B - 1 - k))%nat by lia; rewrite repeat_app.
  apply take_app_length'; now rewrite repeat_length.
Qed.

Lemma pad_length_ok h c r :
  absorbed h c r ->
  Z.to_nat (1 + (Z.of_nat (2 * B - L - 1) - hbytes h mod Z.of_nat B) mod Z.of_nat B)
  = S ((2 * B - L - 1 - length (c ++ r) mod B) mod B).
Proof.
  intros Ha; rewrite (bytes_mod_absorbed h c r Ha); destruct Ha as [Hc Hr _ _ _ _].
  assert (E : (length (c ++ r) mod B = length r)%nat).
  { rewrite length_app, Nat.Div0.add_mod, Hc, Nat.add_0_l, Nat.Div0.mod_mod.
    now apply Nat.mod_small. }
  rewrite E; unfold zlen; rewrite <- Nat2Z.inj_sub, <- Nat2Z.inj_mod by lia; lia.
Qed.

(** A hasher fed piecewise ends in the state of the whole padded message. *)
Lemma finalize_state_ok ds :
  zlen (concat ds) < 2 ^ 61 ->
  finalize_state (fold_left Write ds hasher_init) = md_state (concat ds).
Proof.
  intros Hlen; destruct (fold_Write_ok ds hasher_init [] [] absorbed_init) as (c & r & Ha & E).
  cbn [app] in E; unfold finalize_state, md_state; rewrite (pad_length_ok _ _ _ Ha).
  rewrite (ab_bytes _ _ _ Ha), E in *; pose proof (zlen_nonneg (c ++ r)).
  set (k := ((2 * B - L - 1 - length (c ++ r) mod B) mod B)%nat).
  rewrite (take_pad k) by (pose proof (Nat.mod_upper_bound
    (2 * B - L - 1 - length (c ++ r) mod B) B ltac:(lia)); fold k in H0; lia).
  rewrite Z.shiftl_mul_pow2, (uwrap_small 64 (zlen _)) by lia.
  rewrite (uwrap_small 64) by lia; change (2 ^ 3) with 8; rewrite (Z.mul_comm _ 8).
  destruct (Write_ok _ c r (0x80 :: repeat 0 k) Ha) as (c1 & r1 & H1 & E1).
  destruct (Write_ok _ c1 r1 (desc (8 * zlen (c ++ r))) H1) as (c2 & r2 & H2 & E2).
  assert (Ep : md_pad (c ++ r) = c2 ++ r2).
  { rewrite <- E2, app_assoc, <- E1; unfold md_pad; fold k; now rewrite <- !app_assoc. }
  rewrite Ep; apply (absorbed_state _ c2 r2 H2); rewrite <- Ep; apply md_pad_mod.
Qed.
End Buffered.

(** Hashers with the same transformation compute the same. *)
Lemma transform_blocks_ext B T1 T2 n s c :
  (forall s c, T1 s c = T2 s c) -> transform_blocks B T1 n s c = transform_blocks B T2 n s c.
Proof.
  intros HT; revert s c; induction n as [| n IH]; intros s c; cbn [transform_blocks]; [reflexivity |].
  now rewrite HT, IH.
Qed.

Lemma md_state_ext B T1 T2 init L desc msg :
  (forall s c, T1 s c = T2 s c) -> md_state B T1 init L desc msg = md_state B T2 init L desc msg.
Proof. intros HT; now apply transform_blocks_ext. Qed.
