(* ===== verification/Sha2.v ===== *)
(** * The SHA-2 rounds

    What crypto/sha256.cpp and crypto/sha512.cpp have in common: the two choice
    functions, one round and one step of the message expansion, over the word
    width and the four rotation functions; and the reference definition of the
    compression function, with the registers shifted in every round and the
    message schedule as a list (FIPS 180-4, sections 6.2.2 and 6.4.2), against
    which the unrolled code of each file is proved. *)
From S2P Require Import Prelude.

Definition Ch (x y z : Z) : Z := Z.lxor z (Z.land x (Z.lxor y z)).
Definition Maj (x y z : Z) : Z := Z.lor (Z.land x y) (Z.land z (Z.lor x y)).

Section Rounds.
Context (wd : Z) (Sigma0 Sigma1 sigma0 sigma1 : Z -> Z).

(** The new values of the references [d] and [h]. *)
Definition Round (a b c d e f g h k w : Z) : Z * Z :=
  let t1 := uwrap wd (h + Sigma1 e + Ch e f g + k + w) in
  let t2 := uwrap wd (Sigma0 a + Maj a b c) in
  (uwrap wd (d + t1), uwrap wd (t1 + t2)).

(** [w0 += sigma1(w14) + w9 + sigma0(w1)]. *)
Definition Expand (w0 w14 w9 w1 : Z) : Z := uwrap wd (w0 + (sigma1 w14 + w9 + sigma0 w1)).

(** [Round(.., k, w0 += ..)]: the assigned word, then the values of [d] and [h]. *)
Definition Round_set (a b c d e f g h k w : Z) : Z * Z * Z :=
  (w, fst (Round a b c d e f g h k w), snd (Round a b c d e f g h k w)).

(** ** Reference *)

(** ROTR of FIPS 180-4, section 3.2. *)
Definition rotr (n x : Z) : Z := Z.lor (Z.shiftr x n) (uwrap wd (Z.shiftl x (wd - n))).

Definition regs : Type := Z * Z * Z * Z * Z * Z * Z * Z.

Definition ref_Ch (x y z : Z) : Z := Z.lxor (Z.land x y) (Z.land (Z.lnot x) z).
Definition ref_Maj (x y z : Z) : Z := Z.lxor (Z.lxor (Z.land x y) (Z.land x z)) (Z.land y z).

Definition ref_round (r : regs) (kw : Z * Z) : regs :=
  let '(a, b, c, d, e, f, g, h) := r in
  let T1 := h + Sigma1 e + ref_Ch e f g + fst kw + snd kw in
  let T2 := Sigma0 a + ref_Maj a b c in
  (uwrap wd (T1 + T2), a, b, c, uwrap wd (d + T1), e, f, g).

(** The words after the sixteen words [win] of the window. *)
Fixpoint schedule (n : nat) (win : list Z) : list Z :=
  match n with
  | O => []
  | S n =>
      let w := uwrap wd (sigma1 (nth 14 win 0) + nth 9 win 0 + sigma0 (nth 1 win 0) + nth 0 win 0) in
      w :: schedule n (tl win ++ [w])
  end.

Definition ref_compress (K words : list Z) (r : regs) : regs :=
  fold_left ref_round (combine K (words ++ schedule (length K - 16) words)) r.

(** ** The code's round is the reference round *)

Lemma Ch_ref x y z : Ch x y z = ref_Ch x y z.
Proof.
  apply Z.bits_inj'; intros n Hn; unfold Ch, ref_Ch.
  rewrite !Z.lxor_spec, !Z.land_spec, Z.lxor_spec, Z.lnot_spec by assumption.
  now destruct (Z.testbit x n), (Z.testbit y n), (Z.testbit z n).
Qed.

Lemma Maj_ref x y z : Maj x y z = ref_Maj x y z.
Proof.
  apply Z.bits_inj'; intros n Hn; unfold Maj, ref_Maj.
  rewrite !Z.lxor_spec, Z.lor_spec, !Z.land_spec, Z.lor_spec.
  now destruct (Z.testbit x n), (Z.testbit y n), (Z.testbit z n).
Qed.

Lemma ref_round_eq a b c d e f g h k w :
  ref_round (a, b, c, d, e, f, g, h) (k, w)
  = (snd (Round a b c d e f g h k w), a, b, c, fst (Round a b c d e f g h k w), e, f, g).
Proof.
  unfold Round; cbn [ref_round fst snd]; rewrite <- Ch_ref, <- Maj_ref; unfold uwrap.
  now rewrite <- Zplus_mod, Zplus_mod_idemp_r.
Qed.

(** One round with a word of the message. *)
Lemma fold_round_eq k ks w ws a b c d e f g h :
  fold_left ref_round (combine (k :: ks) (w :: ws)) (a, b, c, d, e, f, g, h)
  = fold_left ref_round (combine ks ws)
      (snd (Round a b c d e f g h k w), a, b, c, fst (Round a b c d e f g h k w), e, f, g).
Proof. cbn [combine fold_left]; now rewrite ref_round_eq. Qed.

(** One round with a word of the expanded schedule. *)
Lemma fold_expand_eq k ks n a b c d e f g h
    w0 w1 w2 w3 w4 w5 w6 w7 w8 w9 w10 w11 w12 w13 w14 w15 :
  fold_left ref_round
    (combine (k :: ks) (schedule (S n)
       [w0; w1; w2; w3; w4; w5; w6; w7; w8; w9; w10; w11; w12; w13; w14; w15]))
    (a, b, c, d, e, f, g, h)
  = let r := Round_set a b c d e f g h k (Expand w0 w14 w9 w1) in
    fold_left ref_round
      (combine ks (schedule n
         [w1; w2; w3; w4; w5; w6; w7; w8; w9; w10; w11; w12; w13; w14; w15; fst (fst r)]))
      (snd r, a, b, c, snd (fst r), e, f, g).
Proof.
  cbv zeta; unfold Round_set, Expand; rewrite (Z.add_comm w0); cbn [schedule combine fold_left nth tl app].
  now rewrite ref_round_eq.
Qed.
End Rounds.

(** ** The constants of the standard *)

(** The integer cube root, one bit at a time. *)
Fixpoint cube_root_loop (bits : nat) (n r : Z) : Z :=
  match bits with
  | O => r
  | S bits =>
      let r' := r + 2 ^ Z.of_nat bits in
      cube_root_loop bits n (if r' * r' * r' <=? n then r' else r)
  end.

(** The first [wd] bits of the fractional parts of the cube root and of the
    square root of a number below 512. *)
Definition cube_root_frac (wd : nat) (p : Z) : Z :=
  uwrap (Z.of_nat wd) (cube_root_loop (wd + 4) (p * 2 ^ (3 * Z.of_nat wd)) 0).
Definition square_root_frac (wd : nat) (p : Z) : Z :=
  uwrap (Z.of_nat wd) (Z.sqrt (p * 2 ^ (2 * Z.of_nat wd))).

(** The first eighty primes. *)
Definition is_prime (n : Z) : bool :=
  forallb (fun d => negb (n mod d =? 0)) (map Z.of_nat (seq 2 (Z.to_nat n - 2))).
Definition primes : list Z := List.filter is_prime (map Z.of_nat (seq 2 408)).

(** Follows one round of unrolled code and of the reference: the loaded or
    expanded word and the two new registers become variables. *)
Ltac sha2_word :=
  lazymatch goal with
  | |- (let w := ?X in @?F w) = ?R =>
      change_no_check (F X = R); generalize X; let v := fresh "v" in intros v; cbv beta
  end.

Ltac sha2_round :=
  lazymatch goal with
  | |- (match ?X with pair _ _ => _ end) = _ =>
      let p := fresh "p" in let q := fresh "q" in
      destruct X as [p q]; cbv beta iota delta [fst snd]
  end.

Ltac sha2_expand :=
  lazymatch goal with
  | |- (match ?X with pair _ _ => _ end) = _ =>
      let v := fresh "v" in let p := fresh "p" in let q := fresh "q" in
      destruct X as [[v p] q]; cbv beta iota delta [fst snd]
  end.
