(* ===== verification/Sha256.v ===== *)
(** * SHA-256

    crypto/sha256.cpp: the unrolled compression function, proved equal to the
    reference of [Sha2], and the hasher [CSHA256], proved to compute, for any
    division of its input into writes, the hash of the whole padded message. *)
From S2P Require Import Prelude Endian Hasher Sha2.

Definition sha256_Sigma0 (x : Z) : Z :=
  Z.lxor (Z.lxor (Z.lor (Z.shiftr x 2) (u32 (Z.shiftl x 30))) (Z.lor (Z.shiftr x 13) (u32 (Z.shiftl x 19))))
    (Z.lor (Z.shiftr x 22) (u32 (Z.shiftl x 10))).
Definition sha256_Sigma1 (x : Z) : Z :=
  Z.lxor (Z.lxor (Z.lor (Z.shiftr x 6) (u32 (Z.shiftl x 26))) (Z.lor (Z.shiftr x 11) (u32 (Z.shiftl x 21))))
    (Z.lor (Z.shiftr x 25) (u32 (Z.shiftl x 7))).
Definition sha256_sigma0 (x : Z) : Z :=
  Z.lxor (Z.lxor (Z.lor (Z.shiftr x 7) (u32 (Z.shiftl x 25))) (Z.lor (Z.shiftr x 18) (u32 (Z.shiftl x 14))))
    (Z.shiftr x 3).
Definition sha256_sigma1 (x : Z) : Z :=
  Z.lxor (Z.lxor (Z.lor (Z.shiftr x 17) (u32 (Z.shiftl x 15))) (Z.lor (Z.shiftr x 19) (u32 (Z.shiftl x 13))))
    (Z.shiftr x 10).

Definition sha256_Round := Round 32 sha256_Sigma0 sha256_Sigma1.
Definition sha256_Round_set := Round_set 32 sha256_Sigma0 sha256_Sigma1.
Definition sha256_Expand := Expand 32 sha256_sigma0 sha256_sigma1.

Definition sha256_Initialize : list Z :=
  [0x6a09e667; 0xbb67ae85; 0x3c6ef372; 0xa54ff53a;
   0x510e527f; 0x9b05688c; 0x1f83d9ab; 0x5be0cd19].

(** One block: the registers are renamed from round to round as in the code. *)
Definition sha256_Transform (s chunk : list Z) : list Z :=
  let a := at_ s 0 in let b := at_ s 1 in let c := at_ s 2 in let d := at_ s 3 in
  let e := at_ s 4 in let f := at_ s 5 in let g := at_ s 6 in let h := at_ s 7 in
  let w0 := ReadBE32 (drop 0 chunk) in
  let '(d, h) := sha256_Round a b c d e f g h 0x428a2f98 w0 in
  let w1 := ReadBE32 (drop 4 chunk) in
  let '(c, g) := sha256_Round h a b c d e f g 0x71374491 w1 in
  let w2 := ReadBE32 (drop 8 chunk) in
  let '(b, f) := sha256_Round g h a b c d e f 0xb5c0fbcf w2 in
  let w3 := ReadBE32 (drop 12 chunk) in
  let '(a, e) := sha256_Round f g h a b c d e 0xe9b5dba5 w3 in
  let w4 := ReadBE32 (drop 16 chunk) in
  let '(h, d) := sha256_Round e f g h a b c d 0x3956c25b w4 in
  let w5 := ReadBE32 (drop 20 chunk) in
  let '(g, c) := sha256_Round d e f g h a b c 0x59f111f1 w5 in
  let w6 := ReadBE32 (drop 24 chunk) in
  let '(f, b) := sha256_Round c d e f g h a b 0x923f82a4 w6 in
  let w7 := ReadBE32 (drop 28 chunk) in
  let '(e, a) := sha256_Round b c d e f g h a 0xab1c5ed5 w7 in
  let w8 := ReadBE32 (drop 32 chunk) in
  let '(d, h) := sha256_Round a b c d e f g h 0xd807aa98 w8 in
  let w9 := ReadBE32 (drop 36 chunk) in
  let '(c, g) := sha256_Round h a b c d e f g 0x12835b01 w9 in
  let w10 := ReadBE32 (drop 40 chunk) in
  let '(b, f) := sha256_Round g h a b c d e f 0x243185be w10 in
  let w11 := ReadBE32 (drop 44 chunk) in
  let '(a, e) := sha256_Round f g h a b c d e 0x550c7dc3 w11 in
  let w12 := ReadBE32 (drop 48 chunk) in
  let '(h, d) := sha256_Round e f g h a b c d 0x72be5d74 w12 in
  let w13 := ReadBE32 (drop 52 chunk) in
  let '(g, c) := sha256_Round d e f g h a b c 0x80deb1fe w13 in
  let w14 := ReadBE32 (drop 56 chunk) in
  let '(f, b) := sha256_Round c d e f g h a b 0x9bdc06a7 w14 in
  let w15 := ReadBE32 (drop 60 chunk) in
  let '(e, a) := sha256_Round b c d e f g h a 0xc19bf174 w15 in
  let '(w0, d, h) := sha256_Round_set a b c d e f g h 0xe49b69c1
    (sha256_Expand w0 w14 w9 w1) in
  let '(w1, c, g) := sha256_Round_set h a b c d e f g 0xefbe4786
    (sha256_Expand w1 w15 w10 w2) in
  let '(w2, b, f) := sha256_Round_set g h a b c d e f 0x0fc19dc6
    (sha256_Expand w2 w0 w11 w3) in
  let '(w3, a, e) := sha256_Round_set f g h a b c d e 0x240ca1cc
    (sha256_Expand w3 w1 w12 w4) in
  let '(w4, h, d) := sha256_Round_set e f g h a b c d 0x2de92c6f
    (sha256_Expand w4 w2 w13 w5) in
  let '(w5, g, c) := sha256_Round_set d e f g h a b c 0x4a7484aa
    (sha256_Expand w5 w3 w14 w6) in
  let '(w6, f, b) := sha256_Round_set c d e f g h a b 0x5cb0a9dc
    (sha256_Expand w6 w4 w15 w7) in
  let '(w7, e, a) := sha256_Round_set b c d e f g h a 0x76f988da
    (sha256_Expand w7 w5 w0 w8) in
  let '(w8, d, h) := sha256_Round_set a b c d e f g h 0x983e5152
    (sha256_Expand w8 w6 w1 w9) in
  let '(w9, c, g) := sha256_Round_set h a b c d e f g 0xa831c66d
    (sha256_Expand w9 w7 w2 w10) in
  let '(w10, b, f) := sha256_Round_set g h a b c d e f 0xb00327c8
    (sha256_Expand w10 w8 w3 w11) in
  let '(w11, a, e) := sha256_Round_set f g h a b c d e 0xbf597fc7
    (sha256_Expand w11 w9 w4 w12) in
  let '(w12, h, d) := sha256_Round_set e f g h a b c d 0xc6e00bf3
    (sha256_Expand w12 w10 w5 w13) in
  let '(w13, g, c) := sha256_Round_set d e f g h a b c 0xd5a79147
    (sha256_Expand w13 w11 w6 w14) in
  let '(w14, f, b) := sha256_Round_set c d e f g h a b 0x06ca6351
    (sha256_Expand w14 w12 w7 w15) in
  let '(w15, e, a) := sha256_Round_set b c d e f g h a 0x14292967
    (sha256_Expand w15 w13 w8 w0) in
  let '(w0, d, h) := sha256_Round_set a b c d e f g h 0x27b70a85
    (sha256_Expand w0 w14 w9 w1) in
  let '(w1, c, g) := sha256_Round_set h a b c d e f g 0x2e1b2138
    (sha256_Expand w1 w15 w10 w2) in
  let '(w2, b, f) := sha256_Round_set g h a b c d e f 0x4d2c6dfc
    (sha256_Expand w2 w0 w11 w3) in
  let '(w3, a, e) := sha256_Round_set f g h a b c d e 0x53380d13
    (sha256_Expand w3 w1 w12 w4) in
  let '(w4, h, d) := sha256_Round_set e f g h a b c d 0x650a7354
    (sha256_Expand w4 w2 w13 w5) in
  let '(w5, g, c) := sha256_Round_set d e f g h a b c 0x766a0abb
    (sha256_Expand w5 w3 w14 w6) in
  let '(w6, f, b) := sha256_Round_set c d e f g h a b 0x81c2c92e
    (sha256_Expand w6 w4 w15 w7) in
  let '(w7, e, a) := sha256_Round_set b c d e f g h a 0x92722c85
    (sha256_Expand w7 w5 w0 w8) in
  let '(w8, d, h) := sha256_Round_set a b c d e f g h 0xa2bfe8a1
    (sha256_Expand w8 w6 w1 w9) in
  let '(w9, c, g) := sha256_Round_set h a b c d e f g 0xa81a664b
    (sha256_Expand w9 w7 w2 w10) in
  let '(w10, b, f) := sha256_Round_set g h a b c d e f 0xc24b8b70
    (sha256_Expand w10 w8 w3 w11) in
  let '(w11, a, e) := sha256_Round_set f g h a b c d e 0xc76c51a3
    (sha256_Expand w11 w9 w4 w12) in
  let '(w12, h, d) := sha256_Round_set e f g h a b c d 0xd192e819
    (sha256_Expand w12 w10 w5 w13) in
  let '(w13, g, c) := sha256_Round_set d e f g h a b c 0xd6990624
    (sha256_Expand w13 w11 w6 w14) in
  let '(w14, f, b) := sha256_Round_set c d e f g h a b 0xf40e3585
    (sha256_Expand w14 w12 w7 w15) in
  let '(w15, e, a) := sha256_Round_set b c d e f g h a 0x106aa070
    (sha256_Expand w15 w13 w8 w0) in
  let '(w0, d, h) := sha256_Round_set a b c d e f g h 0x19a4c116
    (sha256_Expand w0 w14 w9 w1) in
  let '(w1, c, g) := sha256_Round_set h a b c d e f g 0x1e376c08
    (sha256_Expand w1 w15 w10 w2) in
  let '(w2, b, f) := sha256_Round_set g h a b c d e f 0x2748774c
    (sha256_Expand w2 w0 w11 w3) in
  let '(w3, a, e) := sha256_Round_set f g h a b c d e 0x34b0bcb5
    (sha256_Expand w3 w1 w12 w4) in
  let '(w4, h, d) := sha256_Round_set e f g h a b c d 0x391c0cb3
    (sha256_Expand w4 w2 w13 w5) in
  let '(w5, g, c) := sha256_Round_set d e f g h a b c 0x4ed8aa4a
    (sha256_Expand w5 w3 w14 w6) in
  let '(w6, f, b) := sha256_Round_set c d e f g h a b 0x5b9cca4f
    (sha256_Expand w6 w4 w15 w7) in
  let '(w7, e, a) := sha256_Round_set b c d e f g h a 0x682e6ff3
    (sha256_Expand w7 w5 w0 w8) in
  let '(w8, d, h) := sha256_Round_set a b c d e f g h 0x748f82ee
    (sha256_Expand w8 w6 w1 w9) in
  let '(w9, c, g) := sha256_Round_set h a b c d e f g 0x78a5636f
    (sha256_Expand w9 w7 w2 w10) in
  let '(w10, b, f) := sha256_Round_set g h a b c d e f 0x84c87814
    (sha256_Expand w10 w8 w3 w11) in
  let '(w11, a, e) := sha256_Round_set f g h a b c d e 0x8cc70208
    (sha256_Expand w11 w9 w4 w12) in
  let '(w12, h, d) := sha256_Round_set e f g h a b c d 0x90befffa
    (sha256_Expand w12 w10 w5 w13) in
  let '(w13, g, c) := sha256_Round_set d e f g h a b c 0xa4506ceb
    (sha256_Expand w13 w11 w6 w14) in
  let '(_, f, b) := sha256_Round_set c d e f g h a b 0xbef9a3f7
    (sha256_Expand w14 w12 w7 w15) in
  let '(_, e, a) := sha256_Round_set b c d e f g h a 0xc67178f2
    (sha256_Expand w15 w13 w8 w0) in
  [u32 (at_ s 0 + a); u32 (at_ s 1 + b); u32 (at_ s 2 + c); u32 (at_ s 3 + d);
   u32 (at_ s 4 + e); u32 (at_ s 5 + f); u32 (at_ s 6 + g); u32 (at_ s 7 + h)].

(** ** The hasher *)

Definition CSHA256 : hasher := hasher_init 64 sha256_Initialize.
Definition CSHA256_Write : hasher -> list Z -> hasher := Write 64 sha256_Transform.

Definition sha256_digest (s : list Z) : list Z :=
  WriteBE32 (at_ s 0) ++ WriteBE32 (at_ s 1) ++ WriteBE32 (at_ s 2) ++ WriteBE32 (at_ s 3)
  ++ WriteBE32 (at_ s 4) ++ WriteBE32 (at_ s 5) ++ WriteBE32 (at_ s 6) ++ WriteBE32 (at_ s 7).

(** [FinalizeNoPadding]: the digest, or the length error. *)
Definition CSHA256_FinalizeNoPadding {E} (h : hasher) (enforce_compression : bool)
    : res E (list Z) :=
  if enforce_compression && negb (hbytes h =? 64) then Exn length_error
  else Ok (sha256_digest (hs h)).

(** The size descriptor: the bit count. *)
Definition sha256_sizedesc (n : Z) : list Z := WriteBE64 n.

Definition CSHA256_Finalize (h : hasher) : list Z :=
  sha256_digest (finalize_state 64 sha256_Transform 8 sha256_sizedesc h).

(** [CSHA256().Write(data).Finalize(hash)]. *)
Definition sha256_hash (data : list Z) : list Z := CSHA256_Finalize (CSHA256_Write CSHA256 data).

(** ** Reference *)

(** The round constants: the first 32 bits of the fractional parts of the cube
    roots of the first 64 primes. *)
Definition sha256_K : list Z := map (cube_root_frac 32) (take 64 primes).

(** The initial hash value: the first 32 bits of the fractional parts of the
    square roots of the first eight primes. *)
Definition sha256_H0 : list Z := map (square_root_frac 32) (take 8 primes).

(** The four functions of the standard. *)
Definition sha256_ref_Sigma0 (x : Z) : Z :=
  Z.lxor (Z.lxor (rotr 32 2 x) (rotr 32 13 x)) (rotr 32 22 x).
Definition sha256_ref_Sigma1 (x : Z) : Z :=
  Z.lxor (Z.lxor (rotr 32 6 x) (rotr 32 11 x)) (rotr 32 25 x).
Definition sha256_ref_sigma0 (x : Z) : Z :=
  Z.lxor (Z.lxor (rotr 32 7 x) (rotr 32 18 x)) (Z.shiftr x 3).
Definition sha256_ref_sigma1 (x : Z) : Z :=
  Z.lxor (Z.lxor (rotr 32 17 x) (rotr 32 19 x)) (Z.shiftr x 10).

Definition sha256_words (chunk : list Z) : list Z :=
  map (fun i => ReadBE32 (drop (4 * i) chunk)) (seq 0 16).

Definition sha256_ref_Transform (s chunk : list Z) : list Z :=
  let '(a, b, c, d, e, f, g, h) :=
    ref_compress 32 sha256_ref_Sigma0 sha256_ref_Sigma1 sha256_ref_sigma0 sha256_ref_sigma1 sha256_K
      (sha256_words chunk)
      (at_ s 0, at_ s 1, at_ s 2, at_ s 3, at_ s 4, at_ s 5, at_ s 6, at_ s 7) in
  [u32 (at_ s 0 + a); u32 (at_ s 1 + b); u32 (at_ s 2 + c); u32 (at_ s 3 + d);
   u32 (at_ s 4 + e); u32 (at_ s 5 + f); u32 (at_ s 6 + g); u32 (at_ s 7 + h)].

(** The two steps of [Sha2] for this hash. *)
Lemma sha256_round_eq k ks w ws a b c d e f g h :
  fold_left (ref_round 32 sha256_Sigma0 sha256_Sigma1) (combine (k :: ks) (w :: ws))
    (a, b, c, d, e, f, g, h)
  = fold_left (ref_round 32 sha256_Sigma0 sha256_Sigma1) (combine ks ws)
      (snd (sha256_Round a b c d e f g h k w), a, b, c,
       fst (sha256_Round a b c d e f g h k w), e, f, g).
Proof. apply fold_round_eq. Qed.

Lemma sha256_expand_eq k ks n a b c d e f g h
    w0 w1 w2 w3 w4 w5 w6 w7 w8 w9 w10 w11 w12 w13 w14 w15 :
  fold_left (ref_round 32 sha256_Sigma0 sha256_Sigma1)
    (combine (k :: ks) (schedule 32 sha256_sigma0 sha256_sigma1 (S n)
       [w0; w1; w2; w3; w4; w5; w6; w7; w8; w9; w10; w11; w12; w13; w14; w15]))
    (a, b, c, d, e, f, g, h)
  = fold_left (ref_round 32 sha256_Sigma0 sha256_Sigma1)
      (combine ks (schedule 32 sha256_sigma0 sha256_sigma1 n
         [w1; w2; w3; w4; w5; w6; w7; w8; w9; w10; w11; w12; w13; w14; w15;
          fst (fst (sha256_Round_set a b c d e f g h k (sha256_Expand w0 w14 w9 w1)))]))
      (snd (sha256_Round_set a b c d e f g h k (sha256_Expand w0 w14 w9 w1)), a, b, c,
       snd (fst (sha256_Round_set a b c d e f g h k (sha256_Expand w0 w14 w9 w1))), e, f, g).
Proof. apply fold_expand_eq. Qed.

Lemma sha256_Transform_ref s chunk : sha256_Transform s chunk = sha256_ref_Transform s chunk.
Proof.
  unfold sha256_ref_Transform, ref_compress, sha256_words.
  let k := eval vm_compute in sha256_K in replace sha256_K with k by (vm_compute; reflexivity).
  change sha256_ref_Sigma0 with sha256_Sigma0; change sha256_ref_Sigma1 with sha256_Sigma1.
  change sha256_ref_sigma0 with sha256_sigma0; change sha256_ref_sigma1 with sha256_sigma1.
  cbn [length Nat.sub seq map Nat.mul Nat.add app].
  cbv beta delta [sha256_Transform]; do 8 sha2_word.
  do 16 (sha2_word; rewrite sha256_round_eq; sha2_round).
  do 48 (rewrite sha256_expand_eq; sha2_expand).
  reflexivity.
Qed.

(** The digest of the padded message under the reference compression. *)
Definition sha256_ref (msg : list Z) : list Z :=
  sha256_digest (md_state 64 sha256_ref_Transform sha256_H0 8 sha256_sizedesc msg).

Lemma sha256_streaming ds :
  zlen (concat ds) < 2 ^ 61 ->
  CSHA256_Finalize (fold_left CSHA256_Write ds CSHA256) = sha256_ref (concat ds).
Proof.
  intros Hlen; unfold CSHA256_Finalize, sha256_ref; f_equal.
  replace sha256_H0 with sha256_Initialize by (vm_compute; reflexivity).
  rewrite <- (md_state_ext 64 sha256_Transform) by apply sha256_Transform_ref.
  apply finalize_state_ok; try lia; [now exists 288230376151711744 |].
  intros x; unfold sha256_sizedesc; rewrite ?length_app, ?repeat_length; now rewrite length_WriteBE64.
Qed.

Lemma sha256_digest_length s : length (sha256_digest s) = 32%nat.
Proof. unfold sha256_digest; now rewrite !length_app, !length_WriteBE32. Qed.

Lemma sha256_digest_bytes s : bytes (sha256_digest s).
Proof. unfold sha256_digest; do 7 (apply Forall_app_2; [auto with endian |]); auto with endian. Qed.

(** ** The self test *)

(** [memcmp(buf, expected, sizeof(buf)) == 0] on the eight words. *)
Definition same_words (a b : list Z) : bool := bool_decide (a = b).

(** [SelfTest] of an implementation [tr(s, chunk, blocks)]. *)
Definition SelfTest (tr : list Z -> list Z -> nat -> list Z) : bool :=
  let in1 := 0 :: 0x80 :: repeat 0 63 in
  let in2 := 0 :: repeat 32 64 ++ 0x80 :: repeat 0 61 ++ [2; 0] in
  let init := [0x6a09e667; 0xbb67ae85; 0x3c6ef372; 0xa54ff53a;
               0x510e527f; 0x9b05688c; 0x1f83d9ab; 0x5be0cd19] in
  let out1 := [0xe3b0c442; 0x98fc1c14; 0x9afbf4c8; 0x996fb924;
               0x27ae41e4; 0x649b934c; 0xa495991b; 0x7852b855] in
  let out2 := [0xce4153b0; 0x147c2a86; 0x3ed4298e; 0xe0676bc8;
               0x79fc77a1; 0x2abe1f49; 0xb2b055df; 0x1069523e] in
  if negb (same_words (tr init [] 0%nat) init) then false
  else if negb (same_words (tr (tr init [] 0%nat) (drop 1 in1) 1%nat) out1) then false
  else if negb (same_words (tr init (drop 1 in2) 2%nat) out2) then false
  else true.

(** [sha256::Transform] with its block count. *)
Definition sha256_Transform_blocks (s chunk : list Z) (blocks : nat) : list Z :=
  transform_blocks 64 sha256_Transform blocks s chunk.

(** [SHA256AutoDetect] without the assembly variant. *)
Definition SHA256AutoDetect {E} : res E (list Z) :=
  _ ← assert_ (SelfTest sha256_Transform_blocks);
  Ok [0x73; 0x74; 0x61; 0x6e; 0x64; 0x61; 0x72; 0x64].

(** The start-up check passes. *)
Lemma SHA256AutoDetect_ok :
  SHA256AutoDetect (E := unit) = Ok [0x73; 0x74; 0x61; 0x6e; 0x64; 0x61; 0x72; 0x64].
Proof. vm_compute; reflexivity. Qed.

(** The test vector of FIPS 180-4 for the message "abc". *)
Example sha256_abc :
  sha256_hash [0x61; 0x62; 0x63]
  = [0xba; 0x78; 0x16; 0xbf; 0x8f; 0x01; 0xcf; 0xea; 0x41; 0x41; 0x40; 0xde; 0x5d; 0xae; 0x22; 0x23;
     0xb0; 0x03; 0x61; 0xa3; 0x96; 0x17; 0x7a; 0x9c; 0xb4; 0x10; 0xff; 0x61; 0xf2; 0x00; 0x15; 0xad].
Proof. vm_compute; reflexivity. Qed.

(** ** Properties *)

(** C37: [CSHA256] computes SHA-256.  However the input is divided into calls of
    [Write], [Finalize] returns the digest of the whole message as FIPS 180-4
    defines it: padded with one bit, zeros and the bit length to full blocks,
    each compressed by the 64 rounds over the message schedule.  The buffer
    handling, the unrolled rounds with their renamed registers and the words
    expanded in place are covered; messages of up to 2^61 bytes. *)
Theorem sha256_hasher_exact (ds : list (list Z)) :
  zlen (concat ds) < 2 ^ 61 ->
  CSHA256_Finalize (fold_left CSHA256_Write ds CSHA256) = sha256_ref (concat ds).
Proof. apply sha256_streaming. Qed.

(** The message "abc" in two pieces. *)
Lemma sha256_hasher_exact_witness :
  CSHA256_Finalize (fold_left CSHA256_Write [[0x61]; [0x62; 0x63]] CSHA256)
    = sha256_ref [0x61; 0x62; 0x63] /\
  firstn 4 (sha256_ref [0x61; 0x62; 0x63]) = [0xba; 0x78; 0x16; 0xbf].
Proof.
  split; [| vm_compute; reflexivity].
  apply (sha256_hasher_exact [[0x61]; [0x62; 0x63]]); vm_compute; reflexivity.
Defined.
