(* ===== verification/Sha512.v ===== *)
(** * SHA-512

    crypto/sha512.cpp: the unrolled compression function, proved equal to the
    reference of [Sha2], and the hasher [CSHA512], proved to compute, for any
    division of its input into writes, the hash of the whole padded message. *)
From S2P Require Import Prelude Endian Hasher Sha2.

Definition sha512_Sigma0 (x : Z) : Z :=
  Z.lxor (Z.lxor (Z.lor (Z.shiftr x 28) (u64 (Z.shiftl x 36))) (Z.lor (Z.shiftr x 34) (u64 (Z.shiftl x 30))))
    (Z.lor (Z.shiftr x 39) (u64 (Z.shiftl x 25))).
Definition sha512_Sigma1 (x : Z) : Z :=
  Z.lxor (Z.lxor (Z.lor (Z.shiftr x 14) (u64 (Z.shiftl x 50))) (Z.lor (Z.shiftr x 18) (u64 (Z.shiftl x 46))))
    (Z.lor (Z.shiftr x 41) (u64 (Z.shiftl x 23))).
Definition sha512_sigma0 (x : Z) : Z :=
  Z.lxor (Z.lxor (Z.lor (Z.shiftr x 1) (u64 (Z.shiftl x 63))) (Z.lor (Z.shiftr x 8) (u64 (Z.shiftl x 56))))
    (Z.shiftr x 7).
Definition sha512_sigma1 (x : Z) : Z :=
  Z.lxor (Z.lxor (Z.lor (Z.shiftr x 19) (u64 (Z.shiftl x 45))) (Z.lor (Z.shiftr x 61) (u64 (Z.shiftl x 3))))
    (Z.shiftr x 6).

Definition sha512_Round := Round 64 sha512_Sigma0 sha512_Sigma1.
Definition sha512_Round_set := Round_set 64 sha512_Sigma0 sha512_Sigma1.
Definition sha512_Expand := Expand 64 sha512_sigma0 sha512_sigma1.

Definition sha512_Initialize : list Z :=
  [0x6a09e667f3bcc908; 0xbb67ae8584caa73b; 0x3c6ef372fe94f82b; 0xa54ff53a5f1d36f1;
   0x510e527fade682d1; 0x9b05688c2b3e6c1f; 0x1f83d9abfb41bd6b; 0x5be0cd19137e2179].

(** One block: the registers are renamed from round to round as in the code. *)
Definition sha512_Transform (s chunk : list Z) : list Z :=
  let a := at_ s 0 in let b := at_ s 1 in let c := at_ s 2 in let d := at_ s 3 in
  let e := at_ s 4 in let f := at_ s 5 in let g := at_ s 6 in let h := at_ s 7 in
  let w0 := ReadBE64 (drop 0 chunk) in
  let '(d, h) := sha512_Round a b c d e f g h 0x428a2f98d728ae22 w0 in
  let w1 := ReadBE64 (drop 8 chunk) in
  let '(c, g) := sha512_Round h a b c d e f g 0x7137449123ef65cd w1 in
  let w2 := ReadBE64 (drop 16 chunk) in
  let '(b, f) := sha512_Round g h a b c d e f 0xb5c0fbcfec4d3b2f w2 in
  let w3 := ReadBE64 (drop 24 chunk) in
  let '(a, e) := sha512_Round f g h a b c d e 0xe9b5dba58189dbbc w3 in
  let w4 := ReadBE64 (drop 32 chunk) in
  let '(h, d) := sha512_Round e f g h a b c d 0x3956c25bf348b538 w4 in
  let w5 := ReadBE64 (drop 40 chunk) in
  let '(g, c) := sha512_Round d e f g h a b c 0x59f111f1b605d019 w5 in
  let w6 := ReadBE64 (drop 48 chunk) in
  let '(f, b) := sha512_Round c d e f g h a b 0x923f82a4af194f9b w6 in
  let w7 := ReadBE64 (drop 56 chunk) in
  let '(e, a) := sha512_Round b c d e f g h a 0xab1c5ed5da6d8118 w7 in
  let w8 := ReadBE64 (drop 64 chunk) in
  let '(d, h) := sha512_Round a b c d e f g h 0xd807aa98a3030242 w8 in
  let w9 := ReadBE64 (drop 72 chunk) in
  let '(c, g) := sha512_Round h a b c d e f g 0x12835b0145706fbe w9 in
  let w10 := ReadBE64 (drop 80 chunk) in
  let '(b, f) := sha512_Round g h a b c d e f 0x243185be4ee4b28c w10 in
  let w11 := ReadBE64 (drop 88 chunk) in
  let '(a, e) := sha512_Round f g h a b c d e 0x550c7dc3d5ffb4e2 w11 in
  let w12 := ReadBE64 (drop 96 chunk) in
  let '(h, d) := sha512_Round e f g h a b c d 0x72be5d74f27b896f w12 in
  let w13 := ReadBE64 (drop 104 chunk) in
  let '(g, c) := sha512_Round d e f g h a b c 0x80deb1fe3b1696b1 w13 in
  let w14 := ReadBE64 (drop 112 chunk) in
  let '(f, b) := sha512_Round c d e f g h a b 0x9bdc06a725c71235 w14 in
  let w15 := ReadBE64 (drop 120 chunk) in
  let '(e, a) := sha512_Round b c d e f g h a 0xc19bf174cf692694 w15 in
  let '(w0, d, h) := sha512_Round_set a b c d e f g h 0xe49b69c19ef14ad2
    (sha512_Expand w0 w14 w9 w1) in
  let '(w1, c, g) := sha512_Round_set h a b c d e f g 0xefbe4786384f25e3
    (sha512_Expand w1 w15 w10 w2) in
  let '(w2, b, f) := sha512_Round_set g h a b c d e f 0x0fc19dc68b8cd5b5
    (sha512_Expand w2 w0 w11 w3) in
  let '(w3, a, e) := sha512_Round_set f g h a b c d e 0x240ca1cc77ac9c65
    (sha512_Expand w3 w1 w12 w4) in
  let '(w4, h, d) := sha512_Round_set e f g h a b c d 0x2de92c6f592b0275
    (sha512_Expand w4 w2 w13 w5) in
  let '(w5, g, c) := sha512_Round_set d e f g h a b c 0x4a7484aa6ea6e483
    (sha512_Expand w5 w3 w14 w6) in
  let '(w6, f, b) := sha512_Round_set c d e f g h a b 0x5cb0a9dcbd41fbd4
    (sha512_Expand w6 w4 w15 w7) in
  let '(w7, e, a) := sha512_Round_set b c d e f g h a 0x76f988da831153b5
    (sha512_Expand w7 w5 w0 w8) in
  let '(w8, d, h) := sha512_Round_set a b c d e f g h 0x983e5152ee66dfab
    (sha512_Expand w8 w6 w1 w9) in
  let '(w9, c, g) := sha512_Round_set h a b c d e f g 0xa831c66d2db43210
    (sha512_Expand w9 w7 w2 w10) in
  let '(w10, b, f) := sha512_Round_set g h a b c d e f 0xb00327c898fb213f
    (sha512_Expand w10 w8 w3 w11) in
  let '(w11, a, e) := sha512_Round_set f g h a b c d e 0xbf597fc7beef0ee4
    (sha512_Expand w11 w9 w4 w12) in
  let '(w12, h, d) := sha512_Round_set e f g h a b c d 0xc6e00bf33da88fc2
    (sha512_Expand w12 w10 w5 w13) in
  let '(w13, g, c) := sha512_Round_set d e f g h a b c 0xd5a79147930aa725
    (sha512_Expand w13 w11 w6 w14) in
  let '(w14, f, b) := sha512_Round_set c d e f g h a b 0x06ca6351e003826f
    (sha512_Expand w14 w12 w7 w15) in
  let '(w15, e, a) := sha512_Round_set b c d e f g h a 0x142929670a0e6e70
    (sha512_Expand w15 w13 w8 w0) in
  let '(w0, d, h) := sha512_Round_set a b c d e f g h 0x27b70a8546d22ffc
    (sha512_Expand w0 w14 w9 w1) in
  let '(w1, c, g) := sha512_Round_set h a b c d e f g 0x2e1b21385c26c926
    (sha512_Expand w1 w15 w10 w2) in
  let '(w2, b, f) := sha512_Round_set g h a b c d e f 0x4d2c6dfc5ac42aed
    (sha512_Expand w2 w0 w11 w3) in
  let '(w3, a, e) := sha512_Round_set f g h a b c d e 0x53380d139d95b3df
    (sha512_Expand w3 w1 w12 w4) in
  let '(w4, h, d) := sha512_Round_set e f g h a b c d 0x650a73548baf63de
    (sha512_Expand w4 w2 w13 w5) in
  let '(w5, g, c) := sha512_Round_set d e f g h a b c 0x766a0abb3c77b2a8
    (sha512_Expand w5 w3 w14 w6) in
  let '(w6, f, b) := sha512_Round_set c d e f g h a b 0x81c2c92e47edaee6
    (sha512_Expand w6 w4 w15 w7) in
  let '(w7, e, a) := sha512_Round_set b c d e f g h a 0x92722c851482353b
    (sha512_Expand w7 w5 w0 w8) in
  let '(w8, d, h) := sha512_Round_set a b c d e f g h 0xa2bfe8a14cf10364
    (sha512_Expand w8 w6 w1 w9) in
  let '(w9, c, g) := sha512_Round_set h a b c d e f g 0xa81a664bbc423001
    (sha512_Expand w9 w7 w2 w10) in
  let '(w10, b, f) := sha512_Round_set g h a b c d e f 0xc24b8b70d0f89791
    (sha512_Expand w10 w8 w3 w11) in
  let '(w11, a, e) := sha512_Round_set f g h a b c d e 0xc76c51a30654be30
    (sha512_Expand w11 w9 w4 w12) in
  let '(w12, h, d) := sha512_Round_set e f g h a b c d 0xd192e819d6ef5218
    (sha512_Expand w12 w10 w5 w13) in
  let '(w13, g, c) := sha512_Round_set d e f g h a b c 0xd69906245565a910
    (sha512_Expand w13 w11 w6 w14) in
  let '(w14, f, b) := sha512_Round_set c d e f g h a b 0xf40e35855771202a
    (sha512_Expand w14 w12 w7 w15) in
  let '(w15, e, a) := sha512_Round_set b c d e f g h a 0x106aa07032bbd1b8
    (sha512_Expand w15 w13 w8 w0) in
  let '(w0, d, h) := sha512_Round_set a b c d e f g h 0x19a4c116b8d2d0c8
    (sha512_Expand w0 w14 w9 w1) in
  let '(w1, c, g) := sha512_Round_set h a b c d e f g 0x1e376c085141ab53
    (sha512_Expand w1 w15 w10 w2) in
  let '(w2, b, f) := sha512_Round_set g h a b c d e f 0x2748774cdf8eeb99
    (sha512_Expand w2 w0 w11 w3) in
  let '(w3, a, e) := sha512_Round_set f g h a b c d e 0x34b0bcb5e19b48a8
    (sha512_Expand w3 w1 w12 w4) in
  let '(w4, h, d) := sha512_Round_set e f g h a b c d 0x391c0cb3c5c95a63
    (sha512_Expand w4 w2 w13 w5) in
  let '(w5, g, c) := sha512_Round_set d e f g h a b c 0x4ed8aa4ae3418acb
    (sha512_Expand w5 w3 w14 w6) in
  let '(w6, f, b) := sha512_Round_set c d e f g h a b 0x5b9cca4f7763e373
    (sha512_Expand w6 w4 w15 w7) in
  let '(w7, e, a) := sha512_Round_set b c d e f g h a 0x682e6ff3d6b2b8a3
    (sha512_Expand w7 w5 w0 w8) in
  let '(w8, d, h) := sha512_Round_set a b c d e f g h 0x748f82ee5defb2fc
    (sha512_Expand w8 w6 w1 w9) in
  let '(w9, c, g) := sha512_Round_set h a b c d e f g 0x78a5636f43172f60
    (sha512_Expand w9 w7 w2 w10) in
  let '(w10, b, f) := sha512_Round_set g h a b c d e f 0x84c87814a1f0ab72
    (sha512_Expand w10 w8 w3 w11) in
  let '(w11, a, e) := sha512_Round_set f g h a b c d e 0x8cc702081a6439ec
    (sha512_Expand w11 w9 w4 w12) in
  let '(w12, h, d) := sha512_Round_set e f g h a b c d 0x90befffa23631e28
    (sha512_Expand w12 w10 w5 w13) in
  let '(w13, g, c) := sha512_Round_set d e f g h a b c 0xa4506cebde82bde9
    (sha512_Expand w13 w11 w6 w14) in
  let '(w14, f, b) := sha512_Round_set c d e f g h a b 0xbef9a3f7b2c67915
    (sha512_Expand w14 w12 w7 w15) in
  let '(w15, e, a) := sha512_Round_set b c d e f g h a 0xc67178f2e372532b
    (sha512_Expand w15 w13 w8 w0) in
  let '(w0, d, h) := sha512_Round_set a b c d e f g h 0xca273eceea26619c
    (sha512_Expand w0 w14 w9 w1) in
  let '(w1, c, g) := sha512_Round_set h a b c d e f g 0xd186b8c721c0c207
    (sha512_Expand w1 w15 w10 w2) in
  let '(w2, b, f) := sha512_Round_set g h a b c d e f 0xeada7dd6cde0eb1e
    (sha512_Expand w2 w0 w11 w3) in
  let '(w3, a, e) := sha512_Round_set f g h a b c d e 0xf57d4f7fee6ed178
    (sha512_Expand w3 w1 w12 w4) in
  let '(w4, h, d) := sha512_Round_set e f g h a b c d 0x06f067aa72176fba
    (sha512_Expand w4 w2 w13 w5) in
  let '(w5, g, c) := sha512_Round_set d e f g h a b c 0x0a637dc5a2c898a6
    (sha512_Expand w5 w3 w14 w6) in
  let '(w6, f, b) := sha512_Round_set c d e f g h a b 0x113f9804bef90dae
    (sha512_Expand w6 w4 w15 w7) in
  let '(w7, e, a) := sha512_Round_set b c d e f g h a 0x1b710b35131c471b
    (sha512_Expand w7 w5 w0 w8) in
  let '(w8, d, h) := sha512_Round_set a b c d e f g h 0x28db77f523047d84
    (sha512_Expand w8 w6 w1 w9) in
  let '(w9, c, g) := sha512_Round_set h a b c d e f g 0x32caab7b40c72493
    (sha512_Expand w9 w7 w2 w10) in
  let '(w10, b, f) := sha512_Round_set g h a b c d e f 0x3c9ebe0a15c9bebc
    (sha512_Expand w10 w8 w3 w11) in
  let '(w11, a, e) := sha512_Round_set f g h a b c d e 0x431d67c49c100d4c
    (sha512_Expand w11 w9 w4 w12) in
  let '(w12, h, d) := sha512_Round_set e f g h a b c d 0x4cc5d4becb3e42b6
    (sha512_Expand w12 w10 w5 w13) in
  let '(w13, g, c) := sha512_Round_set d e f g h a b c 0x597f299cfc657e2a
    (sha512_Expand w13 w11 w6 w14) in
  let '(_, f, b) := sha512_Round_set c d e f g h a b 0x5fcb6fab3ad6faec
    (sha512_Expand w14 w12 w7 w15) in
  let '(_, e, a) := sha512_Round_set b c d e f g h a 0x6c44198c4a475817
    (sha512_Expand w15 w13 w8 w0) in
  [u64 (at_ s 0 + a); u64 (at_ s 1 + b); u64 (at_ s 2 + c); u64 (at_ s 3 + d);
   u64 (at_ s 4 + e); u64 (at_ s 5 + f); u64 (at_ s 6 + g); u64 (at_ s 7 + h)].

(** ** The hasher *)

Definition CSHA512 : hasher := hasher_init 128 sha512_Initialize.
Definition CSHA512_Write : hasher -> list Z -> hasher := Write 128 sha512_Transform.

Definition sha512_digest (s : list Z) : list Z :=
  WriteBE64 (at_ s 0) ++ WriteBE64 (at_ s 1) ++ WriteBE64 (at_ s 2) ++ WriteBE64 (at_ s 3)
  ++ WriteBE64 (at_ s 4) ++ WriteBE64 (at_ s 5) ++ WriteBE64 (at_ s 6) ++ WriteBE64 (at_ s 7).

(** The size descriptor: the bit count, after eight zero bytes. *)
Definition sha512_sizedesc (n : Z) : list Z := repeat 0 8 ++ WriteBE64 n.

Definition CSHA512_Finalize (h : hasher) : list Z :=
  sha512_digest (finalize_state 128 sha512_Transform 16 sha512_sizedesc h).

(** [CSHA512().Write(data).Finalize(hash)]. *)
Definition sha512_hash (data : list Z) : list Z := CSHA512_Finalize (CSHA512_Write CSHA512 data).

(** ** Reference *)

(** The round constants: the first 64 bits of the fractional parts of the cube
    roots of the first 80 primes. *)
Definition sha512_K : list Z := map (cube_root_frac 64) (take 80 primes).

(** The initial hash value: the first 64 bits of the fractional parts of the
    square roots of the first eight primes. *)
Definition sha512_H0 : list Z := map (square_root_frac 64) (take 8 primes).

(** The four functions of the standard. *)
Definition sha512_ref_Sigma0 (x : Z) : Z :=
  Z.lxor (Z.lxor (rotr 64 28 x) (rotr 64 34 x)) (rotr 64 39 x).
Definition sha512_ref_Sigma1 (x : Z) : Z :=
  Z.lxor (Z.lxor (rotr 64 14 x) (rotr 64 18 x)) (rotr 64 41 x).
Definition sha512_ref_sigma0 (x : Z) : Z :=
  Z.lxor (Z.lxor (rotr 64 1 x) (rotr 64 8 x)) (Z.shiftr x 7).
Definition sha512_ref_sigma1 (x : Z) : Z :=
  Z.lxor (Z.lxor (rotr 64 19 x) (rotr 64 61 x)) (Z.shiftr x 6).

Definition sha512_words (chunk : list Z) : list Z :=
  map (fun i => ReadBE64 (drop (8 * i) chunk)) (seq 0 16).

Definition sha512_ref_Transform (s chunk : list Z) : list Z :=
  let '(a, b, c, d, e, f, g, h) :=
    ref_compress 64 sha512_ref_Sigma0 sha512_ref_Sigma1 sha512_ref_sigma0 sha512_ref_sigma1 sha512_K
      (sha512_words chunk)
      (at_ s 0, at_ s 1, at_ s 2, at_ s 3, at_ s 4, at_ s 5, at_ s 6, at_ s 7) in
  [u64 (at_ s 0 + a); u64 (at_ s 1 + b); u64 (at_ s 2 + c); u64 (at_ s 3 + d);
   u64 (at_ s 4 + e); u64 (at_ s 5 + f); u64 (at_ s 6 + g); u64 (at_ s 7 + h)].

(** The two steps of [Sha2] for this hash. *)
Lemma sha512_round_eq k ks w ws a b c d e f g h :
  fold_left (ref_round 64 sha512_Sigma0 sha512_Sigma1) (combine (k :: ks) (w :: ws))
    (a, b, c, d, e, f, g, h)
  = fold_left (ref_round 64 sha512_Sigma0 sha512_Sigma1) (combine ks ws)
      (snd (sha512_Round a b c d e f g h k w), a, b, c,
       fst (sha512_Round a b c d e f g h k w), e, f, g).
Proof. apply fold_round_eq. Qed.

Lemma sha512_expand_eq k ks n a b c d e f g h
    w0 w1 w2 w3 w4 w5 w6 w7 w8 w9 w10 w11 w12 w13 w14 w15 :
  fold_left (ref_round 64 sha512_Sigma0 sha512_Sigma1)
    (combine (k :: ks) (schedule 64 sha512_sigma0 sha512_sigma1 (S n)
       [w0; w1; w2; w3; w4; w5; w6; w7; w8; w9; w10; w11; w12; w13; w14; w15]))
    (a, b, c, d, e, f, g, h)
  = fold_left (ref_round 64 sha512_Sigma0 sha512_Sigma1)
      (combine ks (schedule 64 sha512_sigma0 sha512_sigma1 n
         [w1; w2; w3; w4; w5; w6; w7; w8; w9; w10; w11; w12; w13; w14; w15;
          fst (fst (sha512_Round_set a b c d e f g h k (sha512_Expand w0 w14 w9 w1)))]))
      (snd (sha512_Round_set a b c d e f g h k (sha512_Expand w0 w14 w9 w1)), a, b, c,
       snd (fst (sha512_Round_set a b c d e f g h k (sha512_Expand w0 w14 w9 w1))), e, f, g).
Proof. apply fold_expand_eq. Qed.

Lemma sha512_Transform_ref s chunk : sha512_Transform s chunk = sha512_ref_Transform s chunk.
Proof.
  unfold sha512_ref_Transform, ref_compress, sha512_words.
  let k := eval vm_compute in sha512_K in replace sha512_K with k by (vm_compute; reflexivity).
  change sha512_ref_Sigma0 with sha512_Sigma0; change sha512_ref_Sigma1 with sha512_Sigma1.
  change sha512_ref_sigma0 with sha512_sigma0; change sha512_ref_sigma1 with sha512_sigma1.
  cbn [length Nat.sub seq map Nat.mul Nat.add app].
  cbv beta delta [sha512_Transform]; do 8 sha2_word.
  do 16 (sha2_word; rewrite sha512_round_eq; sha2_round).
  do 64 (rewrite sha512_expand_eq; sha2_expand).
  reflexivity.
Qed.

(** The digest of the padded message under the reference compression. *)
Definition sha512_ref (msg : list Z) : list Z :=
  sha512_digest (md_state 128 sha512_ref_Transform sha512_H0 16 sha512_sizedesc msg).

Lemma sha512_streaming ds :
  zlen (concat ds) < 2 ^ 61 ->
  CSHA512_Finalize (fold_left CSHA512_Write ds CSHA512) = sha512_ref (concat ds).
Proof.
  intros Hlen; unfold CSHA512_Finalize, sha512_ref; f_equal.
  replace sha512_H0 with sha512_Initialize by (vm_compute; reflexivity).
  rewrite <- (md_state_ext 128 sha512_Transform) by apply sha512_Transform_ref.
  apply finalize_state_ok; try lia; [now exists 144115188075855872 |].
  intros x; unfold sha512_sizedesc; rewrite ?length_app, ?repeat_length; now rewrite length_WriteBE64.
Qed.

Lemma sha512_digest_length s : length (sha512_digest s) = 64%nat.
Proof. unfold sha512_digest; now rewrite !length_app, !length_WriteBE64. Qed.

Lemma sha512_digest_bytes s : bytes (sha512_digest s).
Proof. unfold sha512_digest; do 7 (apply Forall_app_2; [auto with endian |]); auto with endian. Qed.

(** The first bytes of the test vector of FIPS 180-4 for the message "abc". *)
Example sha512_abc :
  take 8 (sha512_hash [0x61; 0x62; 0x63]) = [0xdd; 0xaf; 0x35; 0xa1; 0x93; 0x61; 0x7a; 0xba].
Proof. vm_compute; reflexivity. Qed.
