(* ===== verification/Sha1.v ===== *)
(** * SHA-1

    crypto/sha1.cpp: the unrolled compression function, proved equal to the
    reference (FIPS 180-4, section 6.1.2), and the hasher [CSHA1], proved to
    compute, for any division of its input into writes, the hash of the whole
    padded message. *)
From S2P Require Import Prelude Endian Hasher Sha2.

Definition sha1_f1 (b c d : Z) : Z := Z.lxor d (Z.land b (Z.lxor c d)).
Definition sha1_f2 (b c d : Z) : Z := Z.lxor (Z.lxor b c) d.
Definition sha1_f3 (b c d : Z) : Z := Z.lor (Z.land b c) (Z.land d (Z.lor b c)).

Definition left (x : Z) : Z := Z.lor (u32 (Z.shiftl x 1)) (Z.shiftr x 31).

(** The new values of the references [b] and [e]. *)
Definition sha1_Round (a b c d e f k w : Z) : Z * Z :=
  (Z.lor (u32 (Z.shiftl b 30)) (Z.shiftr b 2),
   u32 (e + (Z.lor (u32 (Z.shiftl a 5)) (Z.shiftr a 27) + f + k + w))).

(** [left(w0 ^ w13 ^ w8 ^ w2)]. *)
Definition sha1_Expand (w0 w13 w8 w2 : Z) : Z :=
  left (Z.lxor (Z.lxor (Z.lxor w0 w13) w8) w2).

(** [Round(.., w0 = ..)]: the assigned word, then the values of [b] and [e]. *)
Definition sha1_Round_set (a b c d e f k w : Z) : Z * Z * Z :=
  (w, fst (sha1_Round a b c d e f k w), snd (sha1_Round a b c d e f k w)).

Definition sha1_Initialize : list Z :=
  [0x67452301; 0xEFCDAB89; 0x98BADCFE; 0x10325476; 0xC3D2E1F0].

Definition sha1_k1 : Z := 0x5A827999.
Definition sha1_k2 : Z := 0x6ED9EBA1.
Definition sha1_k3 : Z := 0x8F1BBCDC.
Definition sha1_k4 : Z := 0xCA62C1D6.

Definition sha1_Transform (s chunk : list Z) : list Z :=
  let a := at_ s 0 in let b := at_ s 1 in let c := at_ s 2 in let d := at_ s 3 in
  let e := at_ s 4 in
  let w0 := ReadBE32 (drop 0 chunk) in
  let '(b, e) := sha1_Round a b c d e (sha1_f1 b c d) sha1_k1 w0 in
  let w1 := ReadBE32 (drop 4 chunk) in
  let '(a, d) := sha1_Round e a b c d (sha1_f1 a b c) sha1_k1 w1 in
  let w2 := ReadBE32 (drop 8 chunk) in
  let '(e, c) := sha1_Round d e a b c (sha1_f1 e a b) sha1_k1 w2 in
  let w3 := ReadBE32 (drop 12 chunk) in
  let '(d, b) := sha1_Round c d e a b (sha1_f1 d e a) sha1_k1 w3 in
  let w4 := ReadBE32 (drop 16 chunk) in
  let '(c, a) := sha1_Round b c d e a (sha1_f1 c d e) sha1_k1 w4 in
  let w5 := ReadBE32 (drop 20 chunk) in
  let '(b, e) := sha1_Round a b c d e (sha1_f1 b c d) sha1_k1 w5 in
  let w6 := ReadBE32 (drop 24 chunk) in
  let '(a, d) := sha1_Round e a b c d (sha1_f1 a b c) sha1_k1 w6 in
  let w7 := ReadBE32 (drop 28 chunk) in
  let '(e, c) := sha1_Round d e a b c (sha1_f1 e a b) sha1_k1 w7 in
  let w8 := ReadBE32 (drop 32 chunk) in
  let '(d, b) := sha1_Round c d e a b (sha1_f1 d e a) sha1_k1 w8 in
  let w9 := ReadBE32 (drop 36 chunk) in
  let '(c, a) := sha1_Round b c d e a (sha1_f1 c d e) sha1_k1 w9 in
  let w10 := ReadBE32 (drop 40 chunk) in
  let '(b, e) := sha1_Round a b c d e (sha1_f1 b c d) sha1_k1 w10 in
  let w11 := ReadBE32 (drop 44 chunk) in
  let '(a, d) := sha1_Round e a b c d (sha1_f1 a b c) sha1_k1 w11 in
  let w12 := ReadBE32 (drop 48 chunk) in
  let '(e, c) := sha1_Round d e a b c (sha1_f1 e a b) sha1_k1 w12 in
  let w13 := ReadBE32 (drop 52 chunk) in
  let '(d, b) := sha1_Round c d e a b (sha1_f1 d e a) sha1_k1 w13 in
  let w14 := ReadBE32 (drop 56 chunk) in
  let '(c, a) := sha1_Round b c d e a (sha1_f1 c d e) sha1_k1 w14 in
  let w15 := ReadBE32 (drop 60 chunk) in
  let '(b, e) := sha1_Round a b c d e (sha1_f1 b c d) sha1_k1 w15 in
  let '(w0, a, d) := sha1_Round_set e a b c d (sha1_f1 a b c) sha1_k1
    (sha1_Expand w0 w13 w8 w2) in
  let '(w1, e, c) := sha1_Round_set d e a b c (sha1_f1 e a b) sha1_k1
    (sha1_Expand w1 w14 w9 w3) in
  let '(w2, d, b) := sha1_Round_set c d e a b (sha1_f1 d e a) sha1_k1
    (sha1_Expand w2 w15 w10 w4) in
  let '(w3, c, a) := sha1_Round_set b c d e a (sha1_f1 c d e) sha1_k1
    (sha1_Expand w3 w0 w11 w5) in
  let '(w4, b, e) := sha1_Round_set a b c d e (sha1_f2 b c d) sha1_k2
    (sha1_Expand w4 w1 w12 w6) in
  let '(w5, a, d) := sha1_Round_set e a b c d (sha1_f2 a b c) sha1_k2
    (sha1_Expand w5 w2 w13 w7) in
  let '(w6, e, c) := sha1_Round_set d e a b c (sha1_f2 e a b) sha1_k2
    (sha1_Expand w6 w3 w14 w8) in
  let '(w7, d, b) := sha1_Round_set c d e a b (sha1_f2 d e a) sha1_k2
    (sha1_Expand w7 w4 w15 w9) in
  let '(w8, c, a) := sha1_Round_set b c d e a (sha1_f2 c d e) sha1_k2
    (sha1_Expand w8 w5 w0 w10) in
  let '(w9, b, e) := sha1_Round_set a b c d e (sha1_f2 b c d) sha1_k2
    (sha1_Expand w9 w6 w1 w11) in
  let '(w10, a, d) := sha1_Round_set e a b c d (sha1_f2 a b c) sha1_k2
    (sha1_Expand w10 w7 w2 w12) in
  let '(w11, e, c) := sha1_Round_set d e a b c (sha1_f2 e a b) sha1_k2
    (sha1_Expand w11 w8 w3 w13) in
  let '(w12, d, b) := sha1_Round_set c d e a b (sha1_f2 d e a) sha1_k2
    (sha1_Expand w12 w9 w4 w14) in
  let '(w13, c, a) := sha1_Round_set b c d e a (sha1_f2 c d e) sha1_k2
    (sha1_Expand w13 w10 w5 w15) in
  let '(w14, b, e) := sha1_Round_set a b c d e (sha1_f2 b c d) sha1_k2
    (sha1_Expand w14 w11 w6 w0) in
  let '(w15, a, d) := sha1_Round_set e a b c d (sha1_f2 a b c) sha1_k2
    (sha1_Expand w15 w12 w7 w1) in
  let '(w0, e, c) := sha1_Round_set d e a b c (sha1_f2 e a b) sha1_k2
    (sha1_Expand w0 w13 w8 w2) in
  let '(w1, d, b) := sha1_Round_set c d e a b (sha1_f2 d e a) sha1_k2
    (sha1_Expand w1 w14 w9 w3) in
  let '(w2, c, a) := sha1_Round_set b c d e a (sha1_f2 c d e) sha1_k2
    (sha1_Expand w2 w15 w10 w4) in
  let '(w3, b, e) := sha1_Round_set a b c d e (sha1_f2 b c d) sha1_k2
    (sha1_Expand w3 w0 w11 w5) in
  let '(w4, a, d) := sha1_Round_set e a b c d (sha1_f2 a b c) sha1_k2
    (sha1_Expand w4 w1 w12 w6) in
  let '(w5, e, c) := sha1_Round_set d e a b c (sha1_f2 e a b) sha1_k2
    (sha1_Expand w5 w2 w13 w7) in
  let '(w6, d, b) := sha1_Round_set c d e a b (sha1_f2 d e a) sha1_k2
    (sha1_Expand w6 w3 w14 w8) in
  let '(w7, c, a) := sha1_Round_set b c d e a (sha1_f2 c d e) sha1_k2
    (sha1_Expand w7 w4 w15 w9) in
  let '(w8, b, e) := sha1_Round_set a b c d e (sha1_f3 b c d) sha1_k3
    (sha1_Expand w8 w5 w0 w10) in
  let '(w9, a, d) := sha1_Round_set e a b c d (sha1_f3 a b c) sha1_k3
    (sha1_Expand w9 w6 w1 w11) in
  let '(w10, e, c) := sha1_Round_set d e a b c (sha1_f3 e a b) sha1_k3
    (sha1_Expand w10 w7 w2 w12) in
  let '(w11, d, b) := sha1_Round_set c d e a b (sha1_f3 d e a) sha1_k3
    (sha1_Expand w11 w8 w3 w13) in
  let '(w12, c, a) := sha1_Round_set b c d e a (sha1_f3 c d e) sha1_k3
    (sha1_Expand w12 w9 w4 w14) in
  let '(w13, b, e) := sha1_Round_set a b c d e (sha1_f3 b c d) sha1_k3
    (sha1_Expand w13 w10 w5 w15) in
  let '(w14, a, d) := sha1_Round_set e a b c d (sha1_f3 a b c) sha1_k3
    (sha1_Expand w14 w11 w6 w0) in
  let '(w15, e, c) := sha1_Round_set d e a b c (sha1_f3 e a b) sha1_k3
    (sha1_Expand w15 w12 w7 w1) in
  let '(w0, d, b) := sha1_Round_set c d e a b (sha1_f3 d e a) sha1_k3
    (sha1_Expand w0 w13 w8 w2) in
  let '(w1, c, a) := sha1_Round_set b c d e a (sha1_f3 c d e) sha1_k3
    (sha1_Expand w1 w14 w9 w3) in
  let '(w2, b, e) := sha1_Round_set a b c d e (sha1_f3 b c d) sha1_k3
    (sha1_Expand w2 w15 w10 w4) in
  let '(w3, a, d) := sha1_Round_set e a b c d (sha1_f3 a b c) sha1_k3
    (sha1_Expand w3 w0 w11 w5) in
  let '(w4, e, c) := sha1_Round_set d e a b c (sha1_f3 e a b) sha1_k3
    (sha1_Expand w4 w1 w12 w6) in
  let '(w5, d, b) := sha1_Round_set c d e a b (sha1_f3 d e a) sha1_k3
    (sha1_Expand w5 w2 w13 w7) in
  let '(w6, c, a) := sha1_Round_set b c d e a (sha1_f3 c d e) sha1_k3
    (sha1_Expand w6 w3 w14 w8) in
  let '(w7, b, e) := sha1_Round_set a b c d e (sha1_f3 b c d) sha1_k3
    (sha1_Expand w7 w4 w15 w9) in
  let '(w8, a, d) := sha1_Round_set e a b c d (sha1_f3 a b c) sha1_k3
    (sha1_Expand w8 w5 w0 w10) in
  let '(w9, e, c) := sha1_Round_set d e a b c (sha1_f3 e a b) sha1_k3
    (sha1_Expand w9 w6 w1 w11) in
  let '(w10, d, b) := sha1_Round_set c d e a b (sha1_f3 d e a) sha1_k3
    (sha1_Expand w10 w7 w2 w12) in
  let '(w11, c, a) := sha1_Round_set b c d e a (sha1_f3 c d e) sha1_k3
    (sha1_Expand w11 w8 w3 w13) in
  let '(w12, b, e) := sha1_Round_set a b c d e (sha1_f2 b c d) sha1_k4
    (sha1_Expand w12 w9 w4 w14) in
  let '(w13, a, d) := sha1_Round_set e a b c d (sha1_f2 a b c) sha1_k4
    (sha1_Expand w13 w10 w5 w15) in
  let '(w14, e, c) := sha1_Round_set d e a b c (sha1_f2 e a b) sha1_k4
    (sha1_Expand w14 w11 w6 w0) in
  let '(w15, d, b) := sha1_Round_set c d e a b (sha1_f2 d e a) sha1_k4
    (sha1_Expand w15 w12 w7 w1) in
  let '(w0, c, a) := sha1_Round_set b c d e a (sha1_f2 c d e) sha1_k4
    (sha1_Expand w0 w13 w8 w2) in
  let '(w1, b, e) := sha1_Round_set a b c d e (sha1_f2 b c d) sha1_k4
    (sha1_Expand w1 w14 w9 w3) in
  let '(w2, a, d) := sha1_Round_set e a b c d (sha1_f2 a b c) sha1_k4
    (sha1_Expand w2 w15 w10 w4) in
  let '(w3, e, c) := sha1_Round_set d e a b c (sha1_f2 e a b) sha1_k4
    (sha1_Expand w3 w0 w11 w5) in
  let '(w4, d, b) := sha1_Round_set c d e a b (sha1_f2 d e a) sha1_k4
    (sha1_Expand w4 w1 w12 w6) in
  let '(w5, c, a) := sha1_Round_set b c d e a (sha1_f2 c d e) sha1_k4
    (sha1_Expand w5 w2 w13 w7) in
  let '(w6, b, e) := sha1_Round_set a b c d e (sha1_f2 b c d) sha1_k4
    (sha1_Expand w6 w3 w14 w8) in
  let '(w7, a, d) := sha1_Round_set e a b c d (sha1_f2 a b c) sha1_k4
    (sha1_Expand w7 w4 w15 w9) in
  let '(w8, e, c) := sha1_Round_set d e a b c (sha1_f2 e a b) sha1_k4
    (sha1_Expand w8 w5 w0 w10) in
  let '(w9, d, b) := sha1_Round_set c d e a b (sha1_f2 d e a) sha1_k4
    (sha1_Expand w9 w6 w1 w11) in
  let '(w10, c, a) := sha1_Round_set b c d e a (sha1_f2 c d e) sha1_k4
    (sha1_Expand w10 w7 w2 w12) in
  let '(w11, b, e) := sha1_Round_set a b c d e (sha1_f2 b c d) sha1_k4
    (sha1_Expand w11 w8 w3 w13) in
  let '(w12, a, d) := sha1_Round_set e a b c d (sha1_f2 a b c) sha1_k4
    (sha1_Expand w12 w9 w4 w14) in
  let '(_, e, c) := sha1_Round_set d e a b c (sha1_f2 e a b) sha1_k4
    (sha1_Expand w13 w10 w5 w15) in
  let '(_, d, b) := sha1_Round_set c d e a b (sha1_f2 d e a) sha1_k4
    (sha1_Expand w14 w11 w6 w0) in
  let '(_, c, a) := sha1_Round_set b c d e a (sha1_f2 c d e) sha1_k4
    (sha1_Expand w15 w12 w7 w1) in
  [u32 (at_ s 0 + a); u32 (at_ s 1 + b); u32 (at_ s 2 + c); u32 (at_ s 3 + d);
   u32 (at_ s 4 + e)].

(** ** The hasher *)

Definition CSHA1 : hasher := hasher_init 64 sha1_Initialize.
Definition CSHA1_Write : hasher -> list Z -> hasher := Write 64 sha1_Transform.

Definition sha1_digest (s : list Z) : list Z :=
  WriteBE32 (at_ s 0) ++ WriteBE32 (at_ s 1) ++ WriteBE32 (at_ s 2) ++ WriteBE32 (at_ s 3)
  ++ WriteBE32 (at_ s 4).

Definition CSHA1_Finalize (h : hasher) : list Z :=
  sha1_digest (finalize_state 64 sha1_Transform 8 WriteBE64 h).

(** [CSHA1().Write(data).Finalize(hash)]. *)
Definition sha1_hash (data : list Z) : list Z := CSHA1_Finalize (CSHA1_Write CSHA1 data).

(** ** Reference *)

Definition sha1_regs : Type := Z * Z * Z * Z * Z.

(** The function and constant of each of the eighty rounds. *)
Definition sha1_fk : list ((Z -> Z -> Z -> Z) * Z) :=
  repeat (ref_Ch, sha1_k1) 20 ++ repeat (sha1_f2, sha1_k2) 20
  ++ repeat (ref_Maj, sha1_k3) 20 ++ repeat (sha1_f2, sha1_k4) 20.

Definition sha1_ref_round (r : sha1_regs) (fkw : (Z -> Z -> Z -> Z) * Z * Z) : sha1_regs :=
  let '(a, b, c, d, e) := r in
  let '(f, k, w) := fkw in
  (u32 (e + (Z.lor (u32 (Z.shiftl a 5)) (Z.shiftr a 27) + f b c d + k + w)),
   a, Z.lor (u32 (Z.shiftl b 30)) (Z.shiftr b 2), c, d).

Fixpoint sha1_schedule (n : nat) (win : list Z) : list Z :=
  match n with
  | O => []
  | S n =>
      let w := left (Z.lxor (Z.lxor (Z.lxor (nth 0 win 0) (nth 13 win 0)) (nth 8 win 0))
                       (nth 2 win 0)) in
      w :: sha1_schedule n (tl win ++ [w])
  end.

Definition sha1_words (chunk : list Z) : list Z :=
  map (fun i => ReadBE32 (drop (4 * i) chunk)) (seq 0 16).

Definition sha1_ref_Transform (s chunk : list Z) : list Z :=
  let '(a, b, c, d, e) :=
    fold_left sha1_ref_round
      (combine sha1_fk (sha1_words chunk ++ sha1_schedule 64 (sha1_words chunk)))
      (at_ s 0, at_ s 1, at_ s 2, at_ s 3, at_ s 4) in
  [u32 (at_ s 0 + a); u32 (at_ s 1 + b); u32 (at_ s 2 + c); u32 (at_ s 3 + d);
   u32 (at_ s 4 + e)].

(** One round with a word of the message. *)
Lemma sha1_round_eq f g k fks w ws a b c d e :
  f b c d = g b c d ->
  fold_left sha1_ref_round (combine ((f, k) :: fks) (w :: ws)) (a, b, c, d, e)
  = fold_left sha1_ref_round (combine fks ws)
      (snd (sha1_Round a b c d e (g b c d) k w), a, fst (sha1_Round a b c d e (g b c d) k w), c, d).
Proof. intros <-; reflexivity. Qed.

(** One round with a word of the expanded schedule. *)
Lemma sha1_expand_eq f g k fks n a b c d e
    w0 w1 w2 w3 w4 w5 w6 w7 w8 w9 w10 w11 w12 w13 w14 w15 :
  f b c d = g b c d ->
  let r := sha1_Round_set a b c d e (g b c d) k (sha1_Expand w0 w13 w8 w2) in
  fold_left sha1_ref_round
    (combine ((f, k) :: fks) (sha1_schedule (S n)
       [w0; w1; w2; w3; w4; w5; w6; w7; w8; w9; w10; w11; w12; w13; w14; w15])) (a, b, c, d, e)
  = fold_left sha1_ref_round
      (combine fks (sha1_schedule n
         [w1; w2; w3; w4; w5; w6; w7; w8; w9; w10; w11; w12; w13; w14; w15; fst (fst r)]))
      (snd r, a, snd (fst r), c, d).
Proof. intros <-; reflexivity. Qed.

Lemma sha1_f1_ref b c d : ref_Ch b c d = sha1_f1 b c d.
Proof. symmetry; apply Ch_ref. Qed.

Lemma sha1_f3_ref b c d : ref_Maj b c d = sha1_f3 b c d.
Proof. symmetry; apply Maj_ref. Qed.

Lemma sha1_Transform_ref s chunk : sha1_Transform s chunk = sha1_ref_Transform s chunk.
Proof.
  unfold sha1_ref_Transform, sha1_words, sha1_fk.
  cbn [seq map Nat.mul Nat.add app repeat].
  cbv beta delta [sha1_Transform]; do 5 sha2_word.
  do 16 (sha2_word; rewrite (sha1_round_eq _ sha1_f1) by apply sha1_f1_ref; sha2_round).
  do 4 (rewrite (sha1_expand_eq _ sha1_f1) by apply sha1_f1_ref; cbv zeta; sha2_expand).
  do 20 (rewrite (sha1_expand_eq _ sha1_f2) by reflexivity; cbv zeta; sha2_expand).
  do 20 (rewrite (sha1_expand_eq _ sha1_f3) by apply sha1_f3_ref; cbv zeta; sha2_expand).
  do 20 (rewrite (sha1_expand_eq _ sha1_f2) by reflexivity; cbv zeta; sha2_expand).
  reflexivity.
Qed.

(** The digest of the padded message under the reference compression. *)
Definition sha1_ref (msg : list Z) : list Z :=
  sha1_digest (md_state 64 sha1_ref_Transform sha1_Initialize 8 WriteBE64 msg).

Lemma sha1_streaming ds :
  zlen (concat ds) < 2 ^ 61 ->
  CSHA1_Finalize (fold_left CSHA1_Write ds CSHA1) = sha1_ref (concat ds).
Proof.
  intros Hlen; unfold CSHA1_Finalize, sha1_ref; f_equal.
  rewrite <- (md_state_ext 64 sha1_Transform) by apply sha1_Transform_ref.
  apply finalize_state_ok; try lia; [now exists 288230376151711744 | apply length_WriteBE64].
Qed.

Lemma sha1_digest_length s : length (sha1_digest s) = 20%nat.
Proof. unfold sha1_digest; now rewrite !length_app, !length_WriteBE32. Qed.

Lemma sha1_digest_bytes s : bytes (sha1_digest s).
Proof. unfold sha1_digest; do 4 (apply Forall_app_2; [auto with endian |]); auto with endian. Qed.

(** The test vector of FIPS 180-4 for the message "abc". *)
Example sha1_abc :
  sha1_hash [0x61; 0x62; 0x63]
  = [0xa9; 0x99; 0x3e; 0x36; 0x47; 0x06; 0x81; 0x6a; 0xba; 0x3e; 0x25; 0x71; 0x78; 0x50; 0xc2; 0x6c;
     0x9c; 0xd0; 0xd8; 0x9d].
Proof. vm_compute; reflexivity. Qed.
