(* ===== verification/Ripemd160.v ===== *)
(** * RIPEMD-160

    crypto/ripemd160.cpp: the unrolled compression function with its two
    interleaved lines, proved equal to the table-driven reference, and the
    hasher [CRIPEMD160], proved to compute, for any division of its input into
    writes, the hash of the whole padded message. *)
From S2P Require Import Prelude Endian Hasher Sha2.

(** [~x] on 32 bits. *)
Definition not32 (x : Z) : Z := u32 (Z.lnot x).

Definition ripemd160_f1 (x y z : Z) : Z := Z.lxor (Z.lxor x y) z.
Definition ripemd160_f2 (x y z : Z) : Z := Z.lor (Z.land x y) (Z.land (not32 x) z).
Definition ripemd160_f3 (x y z : Z) : Z := Z.lxor (Z.lor x (not32 y)) z.
Definition ripemd160_f4 (x y z : Z) : Z := Z.lor (Z.land x z) (Z.land y (not32 z)).
Definition ripemd160_f5 (x y z : Z) : Z := Z.lxor x (Z.lor y (not32 z)).

Definition ripemd160_Initialize : list Z :=
  [0x67452301; 0xEFCDAB89; 0x98BADCFE; 0x10325476; 0xC3D2E1F0].

Definition rol (x i : Z) : Z := Z.lor (u32 (Z.shiftl x i)) (Z.shiftr x (32 - i)).

(** The new values of the references [a] and [c]. *)
Definition ripemd160_Round (a b c d e f x k r : Z) : Z * Z :=
  (u32 (rol (u32 (a + f + x + k)) r + e), rol c 10).

Definition R11 (a b c d e x r : Z) : Z * Z :=
  ripemd160_Round a b c d e (ripemd160_f1 b c d) x 0 r.
Definition R12 (a b c d e x r : Z) : Z * Z :=
  ripemd160_Round a b c d e (ripemd160_f5 b c d) x 0x50A28BE6 r.
Definition R21 (a b c d e x r : Z) : Z * Z :=
  ripemd160_Round a b c d e (ripemd160_f2 b c d) x 0x5A827999 r.
Definition R22 (a b c d e x r : Z) : Z * Z :=
  ripemd160_Round a b c d e (ripemd160_f4 b c d) x 0x5C4DD124 r.
Definition R31 (a b c d e x r : Z) : Z * Z :=
  ripemd160_Round a b c d e (ripemd160_f3 b c d) x 0x6ED9EBA1 r.
Definition R32 (a b c d e x r : Z) : Z * Z :=
  ripemd160_Round a b c d e (ripemd160_f3 b c d) x 0x6D703EF3 r.
Definition R41 (a b c d e x r : Z) : Z * Z :=
  ripemd160_Round a b c d e (ripemd160_f4 b c d) x 0x8F1BBCDC r.
Definition R42 (a b c d e x r : Z) : Z * Z :=
  ripemd160_Round a b c d e (ripemd160_f2 b c d) x 0x7A6D76E9 r.
Definition R51 (a b c d e x r : Z) : Z * Z :=
  ripemd160_Round a b c d e (ripemd160_f5 b c d) x 0xA953FD4E r.
Definition R52 (a b c d e x r : Z) : Z * Z :=
  ripemd160_Round a b c d e (ripemd160_f1 b c d) x 0 r.

Definition ripemd160_Transform (s chunk : list Z) : list Z :=
  let a1 := at_ s 0 in let b1 := at_ s 1 in let c1 := at_ s 2 in let d1 := at_ s 3 in
  let e1 := at_ s 4 in
  let a2 := a1 in let b2 := b1 in let c2 := c1 in let d2 := d1 in let e2 := e1 in
  let w0 := ReadLE32 (drop 0 chunk) in
  let w1 := ReadLE32 (drop 4 chunk) in
  let w2 := ReadLE32 (drop 8 chunk) in
  let w3 := ReadLE32 (drop 12 chunk) in
  let w4 := ReadLE32 (drop 16 chunk) in
  let w5 := ReadLE32 (drop 20 chunk) in
  let w6 := ReadLE32 (drop 24 chunk) in
  let w7 := ReadLE32 (drop 28 chunk) in
  let w8 := ReadLE32 (drop 32 chunk) in
  let w9 := ReadLE32 (drop 36 chunk) in
  let w10 := ReadLE32 (drop 40 chunk) in
  let w11 := ReadLE32 (drop 44 chunk) in
  let w12 := ReadLE32 (drop 48 chunk) in
  let w13 := ReadLE32 (drop 52 chunk) in
  let w14 := ReadLE32 (drop 56 chunk) in
  let w15 := ReadLE32 (drop 60 chunk) in
  let '(a1, c1) := R11 a1 b1 c1 d1 e1 w0 11 in
  let '(a2, c2) := R12 a2 b2 c2 d2 e2 w5 8 in
  let '(e1, b1) := R11 e1 a1 b1 c1 d1 w1 14 in
  let '(e2, b2) := R12 e2 a2 b2 c2 d2 w14 9 in
  let '(d1, a1) := R11 d1 e1 a1 b1 c1 w2 15 in
  let '(d2, a2) := R12 d2 e2 a2 b2 c2 w7 9 in
  let '(c1, e1) := R11 c1 d1 e1 a1 b1 w3 12 in
  let '(c2, e2) := R12 c2 d2 e2 a2 b2 w0 11 in
  let '(b1, d1) := R11 b1 c1 d1 e1 a1 w4 5 in
  let '(b2, d2) := R12 b2 c2 d2 e2 a2 w9 13 in
  let '(a1, c1) := R11 a1 b1 c1 d1 e1 w5 8 in
  let '(a2, c2) := R12 a2 b2 c2 d2 e2 w2 15 in
  let '(e1, b1) := R11 e1 a1 b1 c1 d1 w6 7 in
  let '(e2, b2) := R12 e2 a2 b2 c2 d2 w11 15 in
  let '(d1, a1) := R11 d1 e1 a1 b1 c1 w7 9 in
  let '(d2, a2) := R12 d2 e2 a2 b2 c2 w4 5 in
  let '(c1, e1) := R11 c1 d1 e1 a1 b1 w8 11 in
  let '(c2, e2) := R12 c2 d2 e2 a2 b2 w13 7 in
  let '(b1, d1) := R11 b1 c1 d1 e1 a1 w9 13 in
  let '(b2, d2) := R12 b2 c2 d2 e2 a2 w6 7 in
  let '(a1, c1) := R11 a1 b1 c1 d1 e1 w10 14 in
  let '(a2, c2) := R12 a2 b2 c2 d2 e2 w15 8 in
  let '(e1, b1) := R11 e1 a1 b1 c1 d1 w11 15 in
  let '(e2, b2) := R12 e2 a2 b2 c2 d2 w8 11 in
  let '(d1, a1) := R11 d1 e1 a1 b1 c1 w12 6 in
  let '(d2, a2) := R12 d2 e2 a2 b2 c2 w1 14 in
  let '(c1, e1) := R11 c1 d1 e1 a1 b1 w13 7 in
  let '(c2, e2) := R12 c2 d2 e2 a2 b2 w10 14 in
  let '(b1, d1) := R11 b1 c1 d1 e1 a1 w14 9 in
  let '(b2, d2) := R12 b2 c2 d2 e2 a2 w3 12 in
  let '(a1, c1) := R11 a1 b1 c1 d1 e1 w15 8 in
  let '(a2, c2) := R12 a2 b2 c2 d2 e2 w12 6 in
  let '(e1, b1) := R21 e1 a1 b1 c1 d1 w7 7 in
  let '(e2, b2) := R22 e2 a2 b2 c2 d2 w6 9 in
  let '(d1, a1) := R21 d1 e1 a1 b1 c1 w4 6 in
  let '(d2, a2) := R22 d2 e2 a2 b2 c2 w11 13 in
  let '(c1, e1) := R21 c1 d1 e1 a1 b1 w13 8 in
  let '(c2, e2) := R22 c2 d2 e2 a2 b2 w3 15 in
  let '(b1, d1) := R21 b1 c1 d1 e1 a1 w1 13 in
  let '(b2, d2) := R22 b2 c2 d2 e2 a2 w7 7 in
  let '(a1, c1) := R21 a1 b1 c1 d1 e1 w10 11 in
  let '(a2, c2) := R22 a2 b2 c2 d2 e2 w0 12 in
  let '(e1, b1) := R21 e1 a1 b1 c1 d1 w6 9 in
  let '(e2, b2) := R22 e2 a2 b2 c2 d2 w13 8 in
  let '(d1, a1) := R21 d1 e1 a1 b1 c1 w15 7 in
  let '(d2, a2) := R22 d2 e2 a2 b2 c2 w5 9 in
  let '(c1, e1) := R21 c1 d1 e1 a1 b1 w3 15 in
  let '(c2, e2) := R22 c2 d2 e2 a2 b2 w10 11 in
  let '(b1, d1) := R21 b1 c1 d1 e1 a1 w12 7 in
  let '(b2, d2) := R22 b2 c2 d2 e2 a2 w14 7 in
  let '(a1, c1) := R21 a1 b1 c1 d1 e1 w0 12 in
  let '(a2, c2) := R22 a2 b2 c2 d2 e2 w15 7 in
  let '(e1, b1) := R21 e1 a1 b1 c1 d1 w9 15 in
  let '(e2, b2) := R22 e2 a2 b2 c2 d2 w8 12 in
  let '(d1, a1) := R21 d1 e1 a1 b1 c1 w5 9 in
  let '(d2, a2) := R22 d2 e2 a2 b2 c2 w12 7 in
  let '(c1, e1) := R21 c1 d1 e1 a1 b1 w2 11 in
  let '(c2, e2) := R22 c2 d2 e2 a2 b2 w4 6 in
  let '(b1, d1) := R21 b1 c1 d1 e1 a1 w14 7 in
  let '(b2, d2) := R22 b2 c2 d2 e2 a2 w9 15 in
  let '(a1, c1) := R21 a1 b1 c1 d1 e1 w11 13 in
  let '(a2, c2) := R22 a2 b2 c2 d2 e2 w1 13 in
  let '(e1, b1) := R21 e1 a1 b1 c1 d1 w8 12 in
  let '(e2, b2) := R22 e2 a2 b2 c2 d2 w2 11 in
  let '(d1, a1) := R31 d1 e1 a1 b1 c1 w3 11 in
  let '(d2, a2) := R32 d2 e2 a2 b2 c2 w15 9 in
  let '(c1, e1) := R31 c1 d1 e1 a1 b1 w10 13 in
  let '(c2, e2) := R32 c2 d2 e2 a2 b2 w5 7 in
  let '(b1, d1) := R31 b1 c1 d1 e1 a1 w14 6 in
  let '(b2, d2) := R32 b2 c2 d2 e2 a2 w1 15 in
  let '(a1, c1) := R31 a1 b1 c1 d1 e1 w4 7 in
  let '(a2, c2) := R32 a2 b2 c2 d2 e2 w3 11 in
  let '(e1, b1) := R31 e1 a1 b1 c1 d1 w9 14 in
  let '(e2, b2) := R32 e2 a2 b2 c2 d2 w7 8 in
  let '(d1, a1) := R31 d1 e1 a1 b1 c1 w15 9 in
  let '(d2, a2) := R32 d2 e2 a2 b2 c2 w14 6 in
  let '(c1, e1) := R31 c1 d1 e1 a1 b1 w8 13 in
  let '(c2, e2) := R32 c2 d2 e2 a2 b2 w6 6 in
  let '(b1, d1) := R31 b1 c1 d1 e1 a1 w1 15 in
  let '(b2, d2) := R32 b2 c2 d2 e2 a2 w9 14 in
  let '(a1, c1) := R31 a1 b1 c1 d1 e1 w2 14 in
  let '(a2, c2) := R32 a2 b2 c2 d2 e2 w11 12 in
  let '(e1, b1) := R31 e1 a1 b1 c1 d1 w7 8 in
  let '(e2, b2) := R32 e2 a2 b2 c2 d2 w8 13 in
  let '(d1, a1) := R31 d1 e1 a1 b1 c1 w0 13 in
  let '(d2, a2) := R32 d2 e2 a2 b2 c2 w12 5 in
  let '(c1, e1) := R31 c1 d1 e1 a1 b1 w6 6 in
  let '(c2, e2) := R32 c2 d2 e2 a2 b2 w2 14 in
  let '(b1, d1) := R31 b1 c1 d1 e1 a1 w13 5 in
  let '(b2, d2) := R32 b2 c2 d2 e2 a2 w10 13 in
  let '(a1, c1) := R31 a1 b1 c1 d1 e1 w11 12 in
  let '(a2, c2) := R32 a2 b2 c2 d2 e2 w0 13 in
  let '(e1, b1) := R31 e1 a1 b1 c1 d1 w5 7 in
  let '(e2, b2) := R32 e2 a2 b2 c2 d2 w4 7 in
  let '(d1, a1) := R31 d1 e1 a1 b1 c1 w12 5 in
  let '(d2, a2) := R32 d2 e2 a2 b2 c2 w13 5 in
  let '(c1, e1) := R41 c1 d1 e1 a1 b1 w1 11 in
  let '(c2, e2) := R42 c2 d2 e2 a2 b2 w8 15 in
  let '(b1, d1) := R41 b1 c1 d1 e1 a1 w9 12 in
  let '(b2, d2) := R42 b2 c2 d2 e2 a2 w6 5 in
  let '(a1, c1) := R41 a1 b1 c1 d1 e1 w11 14 in
  let '(a2, c2) := R42 a2 b2 c2 d2 e2 w4 8 in
  let '(e1, b1) := R41 e1 a1 b1 c1 d1 w10 15 in
  let '(e2, b2) := R42 e2 a2 b2 c2 d2 w1 11 in
  let '(d1, a1) := R41 d1 e1 a1 b1 c1 w0 14 in
  let '(d2, a2) := R42 d2 e2 a2 b2 c2 w3 14 in
  let '(c1, e1) := R41 c1 d1 e1 a1 b1 w8 15 in
  let '(c2, e2) := R42 c2 d2 e2 a2 b2 w11 14 in
  let '(b1, d1) := R41 b1 c1 d1 e1 a1 w12 9 in
  let '(b2, d2) := R42 b2 c2 d2 e2 a2 w15 6 in
  let '(a1, c1) := R41 a1 b1 c1 d1 e1 w4 8 in
  let '(a2, c2) := R42 a2 b2 c2 d2 e2 w0 14 in
  let '(e1, b1) := R41 e1 a1 b1 c1 d1 w13 9 in
  let '(e2, b2) := R42 e2 a2 b2 c2 d2 w5 6 in
  let '(d1, a1) := R41 d1 e1 a1 b1 c1 w3 14 in
  let '(d2, a2) := R42 d2 e2 a2 b2 c2 w12 9 in
  let '(c1, e1) := R41 c1 d1 e1 a1 b1 w7 5 in
  let '(c2, e2) := R42 c2 d2 e2 a2 b2 w2 12 in
  let '(b1, d1) := R41 b1 c1 d1 e1 a1 w15 6 in
  let '(b2, d2) := R42 b2 c2 d2 e2 a2 w13 9 in
  let '(a1, c1) := R41 a1 b1 c1 d1 e1 w14 8 in
  let '(a2, c2) := R42 a2 b2 c2 d2 e2 w9 12 in
  let '(e1, b1) := R41 e1 a1 b1 c1 d1 w5 6 in
  let '(e2, b2) := R42 e2 a2 b2 c2 d2 w7 5 in
  let '(d1, a1) := R41 d1 e1 a1 b1 c1 w6 5 in
  let '(d2, a2) := R42 d2 e2 a2 b2 c2 w10 15 in
  let '(c1, e1) := R41 c1 d1 e1 a1 b1 w2 12 in
  let '(c2, e2) := R42 c2 d2 e2 a2 b2 w14 8 in
  let '(b1, d1) := R51 b1 c1 d1 e1 a1 w4 9 in
  let '(b2, d2) := R52 b2 c2 d2 e2 a2 w12 8 in
  let '(a1, c1) := R51 a1 b1 c1 d1 e1 w0 15 in
  let '(a2, c2) := R52 a2 b2 c2 d2 e2 w15 5 in
  let '(e1, b1) := R51 e1 a1 b1 c1 d1 w5 5 in
  let '(e2, b2) := R52 e2 a2 b2 c2 d2 w10 12 in
  let '(d1, a1) := R51 d1 e1 a1 b1 c1 w9 11 in
  let '(d2, a2) := R52 d2 e2 a2 b2 c2 w4 9 in
  let '(c1, e1) := R51 c1 d1 e1 a1 b1 w7 6 in
  let '(c2, e2) := R52 c2 d2 e2 a2 b2 w1 12 in
  let '(b1, d1) := R51 b1 c1 d1 e1 a1 w12 8 in
  let '(b2, d2) := R52 b2 c2 d2 e2 a2 w5 5 in
  let '(a1, c1) := R51 a1 b1 c1 d1 e1 w2 13 in
  let '(a2, c2) := R52 a2 b2 c2 d2 e2 w8 14 in
  let '(e1, b1) := R51 e1 a1 b1 c1 d1 w10 12 in
  let '(e2, b2) := R52 e2 a2 b2 c2 d2 w7 6 in
  let '(d1, a1) := R51 d1 e1 a1 b1 c1 w14 5 in
  let '(d2, a2) := R52 d2 e2 a2 b2 c2 w6 8 in
  let '(c1, e1) := R51 c1 d1 e1 a1 b1 w1 12 in
  let '(c2, e2) := R52 c2 d2 e2 a2 b2 w2 13 in
  let '(b1, d1) := R51 b1 c1 d1 e1 a1 w3 13 in
  let '(b2, d2) := R52 b2 c2 d2 e2 a2 w13 6 in
  let '(a1, c1) := R51 a1 b1 c1 d1 e1 w8 14 in
  let '(a2, c2) := R52 a2 b2 c2 d2 e2 w14 5 in
  let '(e1, b1) := R51 e1 a1 b1 c1 d1 w11 11 in
  let '(e2, b2) := R52 e2 a2 b2 c2 d2 w0 15 in
  let '(d1, a1) := R51 d1 e1 a1 b1 c1 w6 8 in
  let '(d2, a2) := R52 d2 e2 a2 b2 c2 w3 13 in
  let '(c1, e1) := R51 c1 d1 e1 a1 b1 w15 5 in
  let '(c2, e2) := R52 c2 d2 e2 a2 b2 w9 11 in
  let '(b1, d1) := R51 b1 c1 d1 e1 a1 w13 6 in
  let '(b2, d2) := R52 b2 c2 d2 e2 a2 w11 11 in
  let t := at_ s 0 in
  [u32 (at_ s 1 + c1 + d2); u32 (at_ s 2 + d1 + e2); u32 (at_ s 3 + e1 + a2);
   u32 (at_ s 4 + a1 + b2); u32 (t + b1 + c2)].

(** ** The hasher *)

Definition CRIPEMD160 : hasher := hasher_init 64 ripemd160_Initialize.
Definition CRIPEMD160_Write : hasher -> list Z -> hasher := Write 64 ripemd160_Transform.

Definition ripemd160_digest (s : list Z) : list Z :=
  WriteLE32 (at_ s 0) ++ WriteLE32 (at_ s 1) ++ WriteLE32 (at_ s 2) ++ WriteLE32 (at_ s 3)
  ++ WriteLE32 (at_ s 4).

Definition CRIPEMD160_Finalize (h : hasher) : list Z :=
  ripemd160_digest (finalize_state 64 ripemd160_Transform 8 WriteLE64 h).

(** [CRIPEMD160().Write(data).Finalize(hash)]. *)
Definition ripemd160_hash (data : list Z) : list Z :=
  CRIPEMD160_Finalize (CRIPEMD160_Write CRIPEMD160 data).

(** ** Reference *)

Definition rmd_regs : Type := Z * Z * Z * Z * Z.

(** The eighty rounds of a line: function, constant, word index and rotation. *)
Definition rmd_line : Type := list ((Z -> Z -> Z -> Z) * Z * nat * Z).

Definition rmd_functions : list (Z -> Z -> Z -> Z) :=
  [ripemd160_f1; ripemd160_f2; ripemd160_f3; ripemd160_f4; ripemd160_f5].

Definition rmd_table (fs : list (Z -> Z -> Z -> Z)) (ks : list Z) (ws : list nat) (rs : list Z)
    : rmd_line :=
  combine (combine (flat_map (fun fk => repeat fk 16) (combine fs ks)) ws) rs.

Definition rmd_left : rmd_line := rmd_table rmd_functions
  [0; 0x5A827999; 0x6ED9EBA1; 0x8F1BBCDC; 0xA953FD4E]
  [0; 1; 2; 3; 4; 5; 6; 7; 8; 9; 10; 11; 12; 13; 14; 15;
   7; 4; 13; 1; 10; 6; 15; 3; 12; 0; 9; 5; 2; 14; 11; 8;
   3; 10; 14; 4; 9; 15; 8; 1; 2; 7; 0; 6; 13; 11; 5; 12;
   1; 9; 11; 10; 0; 8; 12; 4; 13; 3; 7; 15; 14; 5; 6; 2;
   4; 0; 5; 9; 7; 12; 2; 10; 14; 1; 3; 8; 11; 6; 15; 13]%nat
  [11; 14; 15; 12; 5; 8; 7; 9; 11; 13; 14; 15; 6; 7; 9; 8;
   7; 6; 8; 13; 11; 9; 7; 15; 7; 12; 15; 9; 11; 7; 13; 12;
   11; 13; 6; 7; 14; 9; 13; 15; 14; 8; 13; 6; 5; 12; 7; 5;
   11; 12; 14; 15; 14; 15; 9; 8; 9; 14; 5; 6; 8; 6; 5; 12;
   9; 15; 5; 11; 6; 8; 13; 12; 5; 12; 13; 14; 11; 8; 5; 6].

Definition rmd_right : rmd_line := rmd_table (rev rmd_functions)
  [0x50A28BE6; 0x5C4DD124; 0x6D703EF3; 0x7A6D76E9; 0]
  [5; 14; 7; 0; 9; 2; 11; 4; 13; 6; 15; 8; 1; 10; 3; 12;
   6; 11; 3; 7; 0; 13; 5; 10; 14; 15; 8; 12; 4; 9; 1; 2;
   15; 5; 1; 3; 7; 14; 6; 9; 11; 8; 12; 2; 10; 0; 4; 13;
   8; 6; 4; 1; 3; 11; 15; 0; 5; 12; 2; 13; 9; 7; 10; 14;
   12; 15; 10; 4; 1; 5; 8; 7; 6; 2; 13; 14; 0; 3; 9; 11]%nat
  [8; 9; 9; 11; 13; 15; 15; 5; 7; 7; 8; 11; 14; 14; 12; 6;
   9; 13; 15; 7; 12; 8; 9; 11; 7; 7; 12; 7; 6; 15; 13; 11;
   9; 7; 15; 11; 8; 6; 6; 14; 12; 13; 5; 14; 13; 13; 7; 5;
   15; 5; 8; 11; 14; 14; 6; 14; 6; 9; 12; 9; 12; 5; 15; 8;
   8; 5; 12; 9; 12; 5; 14; 6; 8; 13; 6; 5; 15; 13; 11; 11].

Definition rmd_ref_round (X : list Z) (r : rmd_regs) (t : (Z -> Z -> Z -> Z) * Z * nat * Z)
    : rmd_regs :=
  let '(a, b, c, d, e) := r in
  let '(f, k, i, s) := t in
  (e, u32 (rol (u32 (a + f b c d + nth i X 0 + k)) s + e), b, rol c 10, d).

Definition rmd_words (chunk : list Z) : list Z :=
  map (fun i => ReadLE32 (drop (4 * i) chunk)) (seq 0 16).

Definition ripemd160_ref_Transform (s chunk : list Z) : list Z :=
  let init := (at_ s 0, at_ s 1, at_ s 2, at_ s 3, at_ s 4) in
  let '(a1, b1, c1, d1, e1) := fold_left (rmd_ref_round (rmd_words chunk)) rmd_left init in
  let '(a2, b2, c2, d2, e2) := fold_left (rmd_ref_round (rmd_words chunk)) rmd_right init in
  [u32 (at_ s 1 + c1 + d2); u32 (at_ s 2 + d1 + e2); u32 (at_ s 3 + e1 + a2);
   u32 (at_ s 4 + a1 + b2); u32 (at_ s 0 + b1 + c2)].

(** One round of the code, as [g], is one round of a line. *)
Lemma rmd_step X f k (g : Z -> Z -> Z -> Z -> Z -> Z -> Z -> Z * Z) i r ts a b c d e :
  (forall a b c d e x r, g a b c d e x r = ripemd160_Round a b c d e (f b c d) x k r) ->
  fold_left (rmd_ref_round X) ((f, k, i, r) :: ts) (a, b, c, d, e)
  = fold_left (rmd_ref_round X) ts
      (e, fst (g a b c d e (nth i X 0) r), b, snd (g a b c d e (nth i X 0) r), d).
Proof. intros Hg; now rewrite Hg. Qed.

Lemma ripemd160_Transform_ref s chunk :
  ripemd160_Transform s chunk = ripemd160_ref_Transform s chunk.
Proof.
  cbv beta zeta delta [ripemd160_ref_Transform rmd_words].
  cbn [map seq Nat.mul Nat.add].
  cbv beta iota delta [rmd_left rmd_right rmd_table rmd_functions rev flat_map combine repeat app].
  cbv beta delta [ripemd160_Transform]; do 26 sha2_word.
  do 16 (rewrite (rmd_step _ ripemd160_f1 0 R11) by reflexivity; cbn [nth]; sha2_round;
    rewrite (rmd_step _ ripemd160_f5 0x50A28BE6 R12) by reflexivity; cbn [nth]; sha2_round).
  do 16 (rewrite (rmd_step _ ripemd160_f2 0x5A827999 R21) by reflexivity; cbn [nth]; sha2_round;
    rewrite (rmd_step _ ripemd160_f4 0x5C4DD124 R22) by reflexivity; cbn [nth]; sha2_round).
  do 16 (rewrite (rmd_step _ ripemd160_f3 0x6ED9EBA1 R31) by reflexivity; cbn [nth]; sha2_round;
    rewrite (rmd_step _ ripemd160_f3 0x6D703EF3 R32) by reflexivity; cbn [nth]; sha2_round).
  do 16 (rewrite (rmd_step _ ripemd160_f4 0x8F1BBCDC R41) by reflexivity; cbn [nth]; sha2_round;
    rewrite (rmd_step _ ripemd160_f2 0x7A6D76E9 R42) by reflexivity; cbn [nth]; sha2_round).
  do 16 (rewrite (rmd_step _ ripemd160_f5 0xA953FD4E R51) by reflexivity; cbn [nth]; sha2_round;
    rewrite (rmd_step _ ripemd160_f1 0 R52) by reflexivity; cbn [nth]; sha2_round).
  reflexivity.
Qed.

(** The digest of the padded message under the reference compression. *)
Definition ripemd160_ref (msg : list Z) : list Z :=
  ripemd160_digest (md_state 64 ripemd160_ref_Transform ripemd160_Initialize 8 WriteLE64 msg).

Lemma ripemd160_streaming ds :
  zlen (concat ds) < 2 ^ 61 ->
  CRIPEMD160_Finalize (fold_left CRIPEMD160_Write ds CRIPEMD160) = ripemd160_ref (concat ds).
Proof.
  intros Hlen; unfold CRIPEMD160_Finalize, ripemd160_ref; f_equal.
  rewrite <- (md_state_ext 64 ripemd160_Transform) by apply ripemd160_Transform_ref.
  apply finalize_state_ok; try lia; [now exists 288230376151711744 | apply length_WriteLE64].
Qed.

Lemma ripemd160_digest_length s : length (ripemd160_digest s) = 20%nat.
Proof. unfold ripemd160_digest; now rewrite !length_app, !length_WriteLE32. Qed.

Lemma ripemd160_digest_bytes s : bytes (ripemd160_digest s).
Proof.
  unfold ripemd160_digest; do 4 (apply Forall_app_2; [auto with endian |]); auto with endian.
Qed.

(** The test vector of the RIPEMD-160 authors for the message "abc". *)
Example ripemd160_abc :
  ripemd160_hash [0x61; 0x62; 0x63]
  = [0x8e; 0xb2; 0x08; 0xf7; 0xe0; 0x5d; 0x98; 0x7a; 0x9b; 0x04; 0x4a; 0x8e; 0x98; 0xc6; 0xb0; 0x87;
     0xf1; 0x5a; 0x0b; 0xfc].
Proof. vm_compute; reflexivity. Qed.
