(* ===== verification/Hmac.v ===== *)
(** * Keyed and non-cryptographic hashes

    crypto/hmac_sha256.cpp and crypto/hmac_sha512.cpp (one definition over the
    hasher, instantiated twice), hash.cpp ([MurmurHash3], [BIP32Hash]), and the
    hashers of this development as the hash functions of [Hashing]. *)
From S2P Require Import Prelude Endian Hashing Hasher Sha256 Sha512 Sha1 Ripemd160.

(** The hash functions of the node. *)
Definition node_hashes : HashFunctions := {|
  ripemd160 := ripemd160_hash;
  sha1 := sha1_hash;
  sha256 := sha256_hash;
|}.

#[export] Instance node_hashes_ok : HashFunctionsOk node_hashes.
Proof.
  split; intros x; cbn [ripemd160 sha1 sha256 node_hashes].
  - unfold ripemd160_hash, CRIPEMD160_Finalize; apply ripemd160_digest_length.
  - unfold sha1_hash, CSHA1_Finalize; apply sha1_digest_length.
  - unfold sha256_hash, CSHA256_Finalize; apply sha256_digest_length.
  - unfold ripemd160_hash, CRIPEMD160_Finalize; apply ripemd160_digest_bytes.
  - unfold sha1_hash, CSHA1_Finalize; apply sha1_digest_bytes.
  - unfold sha256_hash, CSHA256_Finalize; apply sha256_digest_bytes.
Qed.

(** ** HMAC *)

(** The members [outer] and [inner]. *)
Record hmac := mk_hmac { outer : hasher; inner : hasher }.

Section Hmac.
Context (B : nat) (init : hasher) (write : hasher -> list Z -> hasher) (finalize : hasher -> list Z).

(** The key in a block-sized buffer; a longer one is hashed first. *)
Definition hmac_rkey (key : list Z) : list Z :=
  if (length key <=? B)%nat then key ++ repeat 0 (B - length key)
  else finalize (write init key) ++ repeat 0 (B - length (finalize (write init key))).

Definition hmac_init (key : list Z) : hmac :=
  let rkey := map (fun b => Z.lxor b 0x5c) (hmac_rkey key) in
  let outer := write init rkey in
  let rkey := map (fun b => Z.lxor b (Z.lxor 0x5c 0x36)) rkey in
  mk_hmac outer (write init rkey).

Definition hmac_write (h : hmac) (data : list Z) : hmac := mk_hmac (outer h) (write (inner h) data).

Definition hmac_finalize (h : hmac) : list Z :=
  let temp := finalize (inner h) in
  finalize (write (outer h) temp).

(** ** Reference (RFC 2104) *)
Definition hmac_ref (H : list Z -> list Z) (key text : list Z) : list Z :=
  let K := (if (length key <=? B)%nat then key else H key) in
  let K := K ++ repeat 0 (B - length K) in
  H (map (Z.lxor 0x5c) K ++ H (map (Z.lxor 0x36) K ++ text)).

Lemma hmac_inner ds h :
  fold_left hmac_write ds h = mk_hmac (outer h) (fold_left write ds (inner h)).
Proof. revert h; induction ds as [| d ds IH]; intros [o i]; cbn; [reflexivity | apply IH]. Qed.

Lemma xor_opad_ipad l :
  map (fun b => Z.lxor b (Z.lxor 0x5c 0x36)) (map (fun b => Z.lxor b 0x5c) l) = map (Z.lxor 0x36) l.
Proof.
  rewrite map_map; apply map_ext; intros b.
  now rewrite Z.lxor_assoc, <- (Z.lxor_assoc 0x5c), Z.lxor_nilpotent, Z.lxor_0_l, Z.lxor_comm.
Qed.

Lemma map_xor_comm k l : map (fun b => Z.lxor b k) l = map (Z.lxor k) l.
Proof. apply map_ext; intros b; apply Z.lxor_comm. Qed.

(** A hasher that computes [H] on messages of at most [n] bytes, however they
    are divided, gives an HMAC that does so too. *)
Lemma hmac_exact (H : list Z -> list Z) (n : Z) (key : list Z) ds :
  (forall ds, zlen (concat ds) < n -> finalize (fold_left write ds init) = H (concat ds)) ->
  (forall x, (length (H x) <= B)%nat) ->
  zlen key < n -> 2 * Z.of_nat B < n -> Z.of_nat B + zlen (concat ds) < n ->
  hmac_finalize (fold_left hmac_write ds (hmac_init key)) = hmac_ref H key (concat ds).
Proof.
  intros HH HL Hk HB Hn.
  assert (H1 : forall d, zlen d < n -> finalize (write init d) = H d).
  { intros d Hd; pose proof (HH [d]) as E; cbn [concat fold_left] in E.
    rewrite app_nil_r in E; auto. }
  assert (Ek : hmac_rkey key = (if (length key <=? B)%nat then key else H key)
    ++ repeat 0 (B - length (if (length key <=? B)%nat then key else H key))).
  { unfold hmac_rkey; now destruct (_ <=? _)%nat; [| rewrite !H1 by assumption]. }
  unfold hmac_ref; cbv zeta; rewrite <- Ek.
  assert (Hlen : zlen (hmac_rkey key) = Z.of_nat B).
  { rewrite Ek; unfold zlen; rewrite length_app, repeat_length.
    destruct (Nat.leb_spec (length key) B); [lia |]; specialize (HL key); lia. }
  unfold hmac_finalize, hmac_init; rewrite hmac_inner; cbn [outer inner].
  rewrite xor_opad_ipad, map_xor_comm.
  change (fold_left write ds (write init (map (Z.lxor 0x36) (hmac_rkey key))))
    with (fold_left write (map (Z.lxor 0x36) (hmac_rkey key) :: ds) init).
  assert (Hm : forall k, zlen (map (Z.lxor k) (hmac_rkey key)) = Z.of_nat B)
    by (intros k; unfold zlen in *; now rewrite length_map).
  rewrite HH by (cbn [concat]; rewrite zlen_app, Hm; lia).
  set (temp := H _).
  change (write (write init (map (Z.lxor 0x5c) (hmac_rkey key))) temp)
    with (fold_left write [map (Z.lxor 0x5c) (hmac_rkey key); temp] init).
  rewrite HH; [cbn [concat]; now rewrite app_nil_r |].
  cbn [concat]; rewrite app_nil_r, zlen_app, Hm; specialize (HL (concat (map (Z.lxor 54) (hmac_rkey key) :: ds))).
  unfold zlen; fold temp in HL; lia.
Qed.
End Hmac.

Definition CHMAC_SHA256 : list Z -> hmac := hmac_init 64 CSHA256 CSHA256_Write CSHA256_Finalize.
Definition CHMAC_SHA256_Write : hmac -> list Z -> hmac := hmac_write CSHA256_Write.
Definition CHMAC_SHA256_Finalize : hmac -> list Z := hmac_finalize CSHA256_Write CSHA256_Finalize.

Definition CHMAC_SHA512 : list Z -> hmac := hmac_init 128 CSHA512 CSHA512_Write CSHA512_Finalize.
Definition CHMAC_SHA512_Write : hmac -> list Z -> hmac := hmac_write CSHA512_Write.
Definition CHMAC_SHA512_Finalize : hmac -> list Z := hmac_finalize CSHA512_Write CSHA512_Finalize.

Lemma CHMAC_SHA256_exact key ds :
  zlen key < 2 ^ 61 -> 64 + zlen (concat ds) < 2 ^ 61 ->
  CHMAC_SHA256_Finalize (fold_left CHMAC_SHA256_Write ds (CHMAC_SHA256 key))
  = hmac_ref 64 sha256_ref key (concat ds).
Proof.
  intros Hk Hd; apply hmac_exact with (n := 2 ^ 61); try assumption; try lia.
  - apply sha256_streaming.
  - intros x; unfold sha256_ref; rewrite sha256_digest_length; lia.
Qed.

Lemma CHMAC_SHA512_exact key ds :
  zlen key < 2 ^ 61 -> 128 + zlen (concat ds) < 2 ^ 61 ->
  CHMAC_SHA512_Finalize (fold_left CHMAC_SHA512_Write ds (CHMAC_SHA512 key))
  = hmac_ref 128 sha512_ref key (concat ds).
Proof.
  intros Hk Hd; apply hmac_exact with (n := 2 ^ 61); try assumption; try lia.
  - apply sha512_streaming.
  - intros x; unfold sha512_ref; rewrite sha512_digest_length; lia.
Qed.

(** ** BIP 32 *)

Definition BIP32Hash (chainCode : list Z) (nChild header : Z) (data : list Z) : list Z :=
  let num := [Z.land (Z.shiftr nChild 24) 0xFF; Z.land (Z.shiftr nChild 16) 0xFF;
              Z.land (Z.shiftr nChild 8) 0xFF; Z.land nChild 0xFF] in
  CHMAC_SHA512_Finalize
    (CHMAC_SHA512_Write
       (CHMAC_SHA512_Write (CHMAC_SHA512_Write (CHMAC_SHA512 chainCode) [header]) data) num).

(** The key derivation hash is one HMAC of the concatenated fields. *)
Lemma BIP32Hash_exact chainCode nChild header data :
  zlen chainCode = 32 -> zlen data = 32 -> is_u32 nChild ->
  BIP32Hash chainCode nChild header data
  = hmac_ref 128 sha512_ref chainCode (header :: data ++ WriteBE32 nChild).
Proof.
  intros Hc Hd Hn; unfold BIP32Hash.
  set (num := [_; _; _; _]).
  assert (En : WriteBE32 nChild = num).
  { unfold WriteBE32, num; rewrite uwrap_small by exact Hn; cbn [le_bytes rev app].
    rewrite !land_255; rewrite !Z.shiftr_div_pow2, !Z.div_div by lia; reflexivity. }
  rewrite En; pose proof (CHMAC_SHA512_exact chainCode [[header]; data; num]) as H.
  cbn [fold_left concat app] in H; rewrite app_nil_r in H; apply H; [lia |].
  autorewrite with lists; rewrite Hd; unfold num; autorewrite with lists; lia.
Qed.

(** ** MurmurHash3 *)

Definition ROTL32 (x r : Z) : Z := Z.lor (u32 (Z.shiftl x r)) (Z.shiftr x (32 - r)).

Definition murmur_c1 : Z := 0xcc9e2d51.
Definition murmur_c2 : Z := 0x1b873593.

(** The mixing of one word [k1]. *)
Definition murmur_k (k1 : Z) : Z := u32 (ROTL32 (u32 (k1 * murmur_c1)) 15 * murmur_c2).

(** The body: [n] blocks of four bytes. *)
Fixpoint murmur_body (n : nat) (h1 : Z) (blocks : list Z) : Z :=
  match n with
  | O => h1
  | S n =>
      let h1 := ROTL32 (Z.lxor h1 (murmur_k (ReadLE32 blocks))) 13 in
      murmur_body n (u32 (h1 * 5 + 0xe6546b64)) (drop 4 blocks)
  end.

(** The tail: the last one to three bytes, by fall-through. *)
Definition murmur_tail (h1 : Z) (tail : list Z) (rest : Z) : Z :=
  let k1 := 0 in
  let k1 := if rest =? 3 then Z.lxor k1 (Z.shiftl (at_ tail 2) 16) else k1 in
  let k1 := if 2 <=? rest then Z.lxor k1 (Z.shiftl (at_ tail 1) 8) else k1 in
  if 1 <=? rest then Z.lxor h1 (murmur_k (Z.lxor k1 (at_ tail 0))) else h1.

Definition MurmurHash3 (nHashSeed : Z) (vDataToHash : list Z) : Z :=
  let h1 := nHashSeed in
  let h1 :=
    if 0 <? zlen vDataToHash then
      let nblocks := (length vDataToHash / 4)%nat in
      let h1 := murmur_body nblocks h1 vDataToHash in
      murmur_tail h1 (drop (nblocks * 4) vDataToHash) (Z.land (zlen vDataToHash) 3)
    else h1 in
  let h1 := Z.lxor h1 (u32 (zlen vDataToHash)) in
  let h1 := Z.lxor h1 (Z.shiftr h1 16) in
  let h1 := u32 (h1 * 0x85ebca6b) in
  let h1 := Z.lxor h1 (Z.shiftr h1 13) in
  let h1 := u32 (h1 * 0xc2b2ae35) in
  Z.lxor h1 (Z.shiftr h1 16).

(** Vectors of the repository's tests (test/hash_tests.cpp). *)
Example murmur_vectors :
  MurmurHash3 0 [] = 0 /\ MurmurHash3 0xFBA4C795 [] = 0x6a396f08 /\
  MurmurHash3 0xFBA4C795 [0] = 0xea3f0b17 /\ MurmurHash3 0 [0; 0x11] = 0x16c6b7ab /\
  MurmurHash3 0 [0; 0x11; 0x22] = 0x8eb51c3d /\
  MurmurHash3 0 [0; 0x11; 0x22; 0x33] = 0xb4471bf8 /\
  MurmurHash3 0 [0; 0x11; 0x22; 0x33; 0x44; 0x55; 0x66; 0x77; 0x88] = 0xb4698def.
Proof. vm_compute; repeat split; reflexivity. Qed.

(** The hash is a 32-bit value. *)
Lemma shiftr_xor_u32 h n : is_u32 h -> 0 <= n -> is_u32 (Z.lxor h (Z.shiftr h n)).
Proof.
  intros [H0 H1] Hn; unfold is_u32.
  assert (0 <= Z.shiftr h n) by now apply Z.shiftr_nonneg.
  assert (0 <= Z.lxor h (Z.shiftr h n)) by (apply Z.lxor_nonneg; lia).
  split; [assumption |]; destruct (Z.eq_dec (Z.lxor h (Z.shiftr h n)) 0) as [-> |]; [lia |].
  apply Z.log2_lt_pow2; [lia |].
  pose proof (Z.log2_lxor h (Z.shiftr h n) ltac:(lia) ltac:(lia)).
  assert (Z.shiftr h n <= h).
  { rewrite Z.shiftr_div_pow2 by lia; apply Z.div_le_upper_bound; [apply Z.pow_pos_nonneg; lia |].
    pose proof (Z.pow_pos_nonneg 2 n ltac:(lia) ltac:(lia)); nia. }
  pose proof (Z.log2_le_mono (Z.shiftr h n) h ltac:(lia)).
  destruct (Z.eq_dec h 0) as [-> |]; [cbn in *; lia |].
  pose proof (proj1 (Z.log2_lt_pow2 h 32 ltac:(lia)) ltac:(lia)); lia.
Qed.

Lemma MurmurHash3_range seed data : is_u32 (MurmurHash3 seed data).
Proof. apply shiftr_xor_u32; [apply uwrap_range |]; lia. Qed.

(** RFC 4231, test case 2: the key "Jefe" and "what do ya want for nothing?". *)
Example hmac_sha256_jefe :
  take 8 (CHMAC_SHA256_Finalize (CHMAC_SHA256_Write (CHMAC_SHA256 [0x4a; 0x65; 0x66; 0x65])
    [0x77; 0x68; 0x61; 0x74; 0x20; 0x64; 0x6f; 0x20; 0x79; 0x61; 0x20; 0x77; 0x61; 0x6e; 0x74; 0x20;
     0x66; 0x6f; 0x72; 0x20; 0x6e; 0x6f; 0x74; 0x68; 0x69; 0x6e; 0x67; 0x3f]))
  = [0x5b; 0xdc; 0xc1; 0x46; 0xbf; 0x60; 0x75; 0x4e].
Proof. vm_compute; reflexivity. Qed.
