(* ===== verification/Serialize.v ===== *)
(** * Serialisation

    serialize.h and the data stream of streams.h.  A class of the source
    describes its format once, by a SerializationOp that READWRITEs the members
    in order, for writing and for reading; here a format is a value of type
    [bi S A], a pair of a writer of (parts of) an object of type [S] and a
    reader, with a monad to put steps in sequence.  A format of whole objects
    is a [codec]; the class [Codec] states that it is a bijection between the
    valid objects and the accepted byte strings, and the combinators preserve
    it. *)
From S2P Require Import Prelude Endian.

Definition MAX_SIZE : Z := 33554432.

(** ** Streams *)

(** [CBaseDataStream]: the buffer and the position of the next read. *)
Record CDataStream := mkStream { vch : list Z; nReadPos : Z }.

(** What is left to read: [begin()] to [end()]. *)
Definition unread (s : CDataStream) : list Z := drop (Z.to_nat (nReadPos s)) (vch s).

Definition stream_read {E} (s : CDataStream) (nSize : Z) : res E (list Z * CDataStream) :=
  if nSize =? 0 then Ok ([], s)
  else
    let nReadPosNext := u32 (nReadPos s + nSize) in
    let data := take (Z.to_nat nSize) (unread s) in
    if zlen (vch s) <=? nReadPosNext then
      if zlen (vch s) <? nReadPosNext then Exn ios_failure
      else Ok (data, mkStream [] 0)
    else Ok (data, mkStream (vch s) nReadPosNext).

Definition stream_ignore {E} (s : CDataStream) (nSize : Z) : res E CDataStream :=
  if nSize <? 0 then Exn ios_failure
  else
    let nReadPosNext := u32 (nReadPos s + nSize) in
    if zlen (vch s) <=? nReadPosNext then
      if zlen (vch s) <? nReadPosNext then Exn ios_failure else Ok (mkStream [] 0)
    else Ok (mkStream (vch s) nReadPosNext).

Definition stream_write (s : CDataStream) (data : list Z) : CDataStream :=
  mkStream (vch s ++ data) (nReadPos s).

Definition stream_Rewind (s : CDataStream) (n : Z) : bool * CDataStream :=
  if nReadPos s <? n then (false, s) else (true, mkStream (vch s) (u32 (nReadPos s - n))).

(** The interface the templates use: a stream is the list of unread bytes. *)
Definition reader (A : Type) : Type := list Z -> res unit (A * list Z).

(** [s.read(pch, n)]. *)
Definition s_read (n : Z) : reader (list Z) := fun s =>
  if zlen s <? n then Exn ios_failure else Ok (take (Z.to_nat n) s, drop (Z.to_nat n) s).

(** [s.ignore(n)]. *)
Definition s_ignore (n : Z) : reader unit := fun s =>
  if zlen s <? n then Exn ios_failure else Ok (tt, drop (Z.to_nat n) s).

#[global] Instance reader_ret : MRet reader := fun A a s => Ok (a, s).
#[global] Instance reader_bind : MBind reader := fun A B f m s =>
  match m s with
  | Ok (a, s) => f a s
  | Err e => Err e
  | Exn x => Exn x
  end.

Definition r_fail {A} : reader A := fun _ => Exn ios_failure.

(** The data stream implements the interface, as long as positions fit in its
    32-bit counter. *)
Definition stream_ok (s : CDataStream) : Prop :=
  0 <= nReadPos s <= zlen (vch s) /\ zlen (vch s) < 2 ^ 32.

Lemma zlen_unread s : stream_ok s -> zlen (unread s) = zlen (vch s) - nReadPos s.
Proof. intros [Hp _]; unfold unread, zlen in *; rewrite length_drop; lia. Qed.

Lemma stream_read_ok s n :
  stream_ok s -> 0 <= n -> nReadPos s + n < 2 ^ 32 ->
  match stream_read (E := unit) s n with
  | Ok (d, s') => s_read n (unread s) = Ok (d, unread s') /\ stream_ok s'
  | Err _ => False
  | Exn x => s_read n (unread s) = Exn x
  end.
Proof.
  intros Hs Hn Hw; pose proof (zlen_unread s Hs) as Hl; destruct Hs as [Hp Hz].
  unfold stream_read, s_read; rewrite Hl, uwrap_small by lia.
  destruct (Z.eqb_spec n 0) as [-> | Hne].
  { zbool; [lia |]; split; [reflexivity | now split]. }
  zbool; try lia; try reflexivity;
    (split; [| split; cbn [nReadPos vch]; unfold zlen in *; cbn [length] in *; lia]);
    repeat f_equal; unfold unread; cbn [nReadPos vch]; rewrite ?drop_drop.
  - apply drop_ge; unfold zlen in *; lia.
  - f_equal; lia.
Qed.

Lemma stream_write_ok s d :
  stream_ok s -> zlen (vch s) + zlen d < 2 ^ 32 ->
  unread (stream_write s d) = unread s ++ d /\ stream_ok (stream_write s d).
Proof.
  intros [Hp Hz] Hd; pose proof (zlen_nonneg d); split.
  - unfold unread, stream_write; cbn [nReadPos vch]; rewrite drop_app_le; [reflexivity |].
    unfold zlen in *; lia.
  - split; cbn [stream_write nReadPos vch]; autorewrite with lists; lia.
Qed.

Lemma s_read_app n a rest : zlen a = n -> s_read n (a ++ rest) = Ok (a, rest).
Proof.
  intros <-; unfold s_read; rewrite zlen_app; pose proof (zlen_nonneg rest).
  destruct (Z.ltb_spec (zlen a + zlen rest) (zlen a)); [lia |].
  unfold zlen; rewrite Nat2Z.id, take_app_length, drop_app_length; reflexivity.
Qed.

Lemma s_read_inv n s a rest :
  0 <= n -> s_read n s = Ok (a, rest) -> s = a ++ rest /\ zlen a = n.
Proof.
  unfold s_read; intros Hn; destruct (Z.ltb_spec (zlen s) n); [discriminate |].
  intros [= <- <-]; split; [now rewrite take_drop |].
  unfold zlen in *; rewrite length_take; lia.
Qed.

(** ** Formats *)

Record bi (S A : Type) := mkBi {
  put : S -> res unit (A * list Z);
  get : reader A;
}.
Arguments mkBi {S A}.
Arguments put {S A}.
Arguments get {S A}.

#[global] Instance bi_ret S : MRet (bi S) := fun A a =>
  mkBi (fun _ => Ok (a, [])) (mret a).

#[global] Instance bi_bind S : MBind (bi S) := fun A B f m =>
  mkBi (fun s =>
          r ← put m s;
          q ← put (f r.1) s;
          Ok (q.1, r.2 ++ q.2))
       (get m ≫= fun a => get (f a)).

(** Formats of whole objects. *)
Abbreviation codec A := (bi A A).

(** [READWRITE(member)]. *)
Definition READWRITE {S A} (c : codec A) (member : S -> A) : bi S A :=
  mkBi (fun s => put c (member s)) (get c).

(** [if (ser_action.ForRead()) member = v;]. *)
Definition ASSIGN {S A} (v : A) (member : S -> A) : bi S A :=
  mkBi (fun s => Ok (member s, [])) (mret v).

(** A member the format leaves out: it keeps the value it has in the object
    that is written, or in the object [old] that is read into. *)
Definition KEEP {S A} (old : S) (member : S -> A) : bi S A := ASSIGN (member old) member.

(** [if (b) throw std::ios_base::failure(...)]. *)
Definition throw_if {S} (b : bool) : bi S unit :=
  if b then mkBi (fun _ => Exn ios_failure) r_fail else mret tt.

(** ** Laws *)

(** Writing [s] with the format [m] gives [a], and reading back gives it again. *)
Definition writes {S A} (m : bi S A) (s : S) (a : A) : Prop :=
  exists out, put m s = Ok (a, out) /\ bytes out /\ forall rest, get m (out ++ rest) = Ok (a, rest).

(** A codec is a bijection between valid objects and accepted encodings. *)
Class Codec {A} (valid : A -> Prop) (c : codec A) : Prop := {
  codec_writes a : valid a -> writes c a a;
  codec_reads i a rest : bytes i -> get c i = Ok (a, rest) ->
    valid a /\ exists out, put c a = Ok (a, out) /\ i = out ++ rest;
}.

Section Laws.
Context {S : Type}.

Lemma writes_ret {A} (a : A) (s : S) : writes (mret a) s a.
Proof. exists []; split; [reflexivity |]; split; [constructor | reflexivity]. Qed.

Lemma put_bind_eq {A B} (m : bi S A) (f : A -> bi S B) s :
  put (m ≫= f) s =
    match put m s with
    | Ok (a, o1) => match put (f a) s with Ok (b, o2) => Ok (b, o1 ++ o2) | Err e => Err e | Exn x => Exn x end
    | Err e => Err e
    | Exn x => Exn x
    end.
Proof.
  unfold mbind at 1, bi_bind; cbn [put]; unfold mbind, res_bind.
  destruct (put m s) as [[a o1] | |]; try reflexivity; cbn [fst snd].
  destruct (put (f a) s) as [[b o2] | |]; reflexivity.
Qed.

Lemma get_bind_eq {A B} (m : bi S A) (f : A -> bi S B) i :
  get (m ≫= f) i =
    match get m i with Ok (a, i1) => get (f a) i1 | Err e => Err e | Exn x => Exn x end.
Proof. reflexivity. Qed.

Lemma writes_bind {A B} (m : bi S A) (f : A -> bi S B) s a b :
  writes m s a -> writes (f a) s b -> writes (m ≫= f) s b.
Proof.
  intros (o1 & P1 & B1 & G1) (o2 & P2 & B2 & G2); exists (o1 ++ o2); split; [| split].
  - now rewrite put_bind_eq, P1, P2.
  - now apply Forall_app.
  - intros rest; now rewrite get_bind_eq, <- app_assoc, G1, G2.
Qed.

Lemma writes_READWRITE {A} (valid : A -> Prop) (c : codec A) `{!Codec valid c} (member : S -> A) s :
  valid (member s) -> writes (READWRITE c member) s (member s).
Proof. intros Hv; exact (codec_writes (member s) Hv). Qed.

Lemma writes_ASSIGN {A} (v : A) (member : S -> A) s :
  member s = v -> writes (ASSIGN v member) s (member s).
Proof. intros E; exists []; split; [reflexivity |]; split; [constructor |]; cbn; now rewrite E. Qed.

Lemma writes_throw_if b (s : S) : b = false -> writes (throw_if b) s tt.
Proof. intros ->; apply writes_ret. Qed.

Lemma get_bind_inv {A B} (m : bi S A) (f : A -> bi S B) i b rest :
  get (m ≫= f) i = Ok (b, rest) -> exists a i1, get m i = Ok (a, i1) /\ get (f a) i1 = Ok (b, rest).
Proof.
  rewrite get_bind_eq; destruct (get m i) as [[a i1] | |]; [| discriminate..]; eauto.
Qed.

Lemma put_bind {A B} (m : bi S A) (f : A -> bi S B) s a o1 b o2 :
  put m s = Ok (a, o1) -> put (f a) s = Ok (b, o2) -> put (m ≫= f) s = Ok (b, o1 ++ o2).
Proof. intros P1 P2; now rewrite put_bind_eq, P1, P2. Qed.

Lemma get_READWRITE_inv {A} (valid : A -> Prop) (c : codec A) `{!Codec valid c} (member : S -> A) i a i1 :
  bytes i -> get (READWRITE c member) i = Ok (a, i1) ->
  valid a /\ exists out, i = out ++ i1 /\ bytes i1 /\
    forall s, member s = a -> put (READWRITE c member) s = Ok (a, out).
Proof.
  intros Hb Hg; destruct (codec_reads i a i1 Hb Hg) as (Hv & out & Hp & ->).
  split; [exact Hv |]; exists out; split; [reflexivity |]; split; [now apply Forall_app in Hb |].
  intros s <-; exact Hp.
Qed.

Lemma get_ASSIGN_inv {A} (v : A) (member : S -> A) i a i1 :
  get (ASSIGN v member) i = Ok (a, i1) ->
  a = v /\ i1 = i /\ forall s, member s = a -> put (ASSIGN v member) s = Ok (a, []).
Proof. cbn; intros [= <- <-]; repeat split; now intros s ->. Qed.

Lemma get_throw_if_inv b i a i1 :
  get (S := S) (throw_if b) i = Ok (a, i1) -> b = false /\ a = tt /\ i1 = i.
Proof. destruct b; cbn; [discriminate |]; now intros [= <- <-]. Qed.

Lemma put_throw_if b (s : S) : b = false -> put (throw_if b) s = Ok (tt, []).
Proof. now intros ->. Qed.

Lemma put_ret {A} (a : A) (s : S) : put (mret a) s = Ok (a, []).
Proof. reflexivity. Qed.

Lemma get_ret_inv {A} (a b : A) i i1 : get (S := S) (mret a) i = Ok (b, i1) -> b = a /\ i1 = i.
Proof. now intros [= <- <-]. Qed.
End Laws.

(** Two valid objects with the same encoding are equal. *)
Lemma codec_inj {A} (valid : A -> Prop) (c : codec A) `{!Codec valid c} a b out :
  valid a -> valid b -> put c a = Ok (a, out) -> put c b = Ok (b, out) -> a = b.
Proof.
  intros Ha Hb Pa Pb; destruct (codec_writes a Ha) as (o & P & _ & G), (codec_writes b Hb) as (o' & P' & _ & G').
  rewrite P in Pa; rewrite P' in Pb; injection Pa as ->; injection Pb as ->.
  specialize (G []); specialize (G' []); congruence.
Qed.

(** Proves that a class's format writes a valid object: one step per member. *)
Ltac writes_steps :=
  repeat lazymatch goal with
  | |- writes (mret _) ?x ?x => first [apply writes_ret | destruct x; apply writes_ret]
  | |- writes (_ ≫= _) _ _ =>
      eapply writes_bind;
        [lazymatch goal with
         | |- writes (READWRITE _ _) _ _ => eapply writes_READWRITE; [typeclasses eauto | eauto]
         | |- writes (ASSIGN _ _) _ _ => eapply writes_ASSIGN; eauto
         | |- writes (KEEP _ _) _ _ => eapply writes_ASSIGN; eauto
         | |- writes (throw_if _) _ _ => eapply writes_throw_if; eauto
         end |]; cbv beta
  end.

(** Inverts the reading of a class's format, member by member, then rebuilds
    its writing. *)
Ltac get_step H :=
  let a := fresh "m" in let i1 := fresh "i" in let H1 := fresh "Hg" in
  lazymatch type of H with get (_ ≫= _) _ = _ => idtac end;
  apply get_bind_inv in H as (a & i1 & H1 & H); cbv beta in H;
  lazymatch type of H1 with
  | get (READWRITE _ _) _ = _ =>
      let Hv := fresh "Hv" in let o := fresh "out" in let E := fresh "E" in
      let Hb := fresh "Hb" in let P := fresh "Hput" in
      eapply get_READWRITE_inv in H1 as (Hv & o & E & Hb & P);
        [| typeclasses eauto | eassumption]; subst
  | get (ASSIGN _ _) _ = _ =>
      let E := fresh "E" in let P := fresh "Hput" in apply get_ASSIGN_inv in H1 as (E & -> & P); subst a
  | get (KEEP _ _) _ = _ =>
      let E := fresh "E" in let P := fresh "Hput" in apply get_ASSIGN_inv in H1 as (E & -> & P); subst a
  | get (throw_if _) _ = _ =>
      let E := fresh "E" in apply get_throw_if_inv in H1 as (E & -> & ->)
  end.

Ltac get_steps H :=
  repeat get_step H; try (apply get_ret_inv in H as (-> & ->)).

Ltac put_steps :=
  repeat lazymatch goal with
  | |- put (mret _) _ = _ => apply put_ret
  | |- put (_ ≫= _) _ = _ =>
      eapply put_bind;
        [match goal with
         | P : forall s, @?R s -> put ?m s = Ok (?a, ?o) |- put ?m' _ = _ => constr_eq m m'; apply P; reflexivity
         | |- put (throw_if _) _ = _ => apply put_throw_if; assumption
         end |]; cbv beta
  end.

(** ** Integers *)

Definition ser_writedata8 (obj : Z) : list Z := [u8 obj].
Definition ser_writedata16 (obj : Z) : list Z := WriteLE16 obj.
Definition ser_writedata16be (obj : Z) : list Z := rev (WriteLE16 obj).
Definition ser_writedata32 (obj : Z) : list Z := WriteLE32 obj.
Definition ser_writedata32be (obj : Z) : list Z := WriteBE32 obj.
Definition ser_writedata64 (obj : Z) : list Z := WriteLE64 obj.

Definition ser_readdata8 : reader Z := d ← s_read 1; mret (le_val d).
Definition ser_readdata16 : reader Z := d ← s_read 2; mret (ReadLE16 d).
Definition ser_readdata16be : reader Z := d ← s_read 2; mret (ReadBE16 d).
Definition ser_readdata32 : reader Z := d ← s_read 4; mret (ReadLE32 d).
Definition ser_readdata32be : reader Z := d ← s_read 4; mret (ReadBE32 d).
Definition ser_readdata64 : reader Z := d ← s_read 8; mret (ReadLE64 d).

(** [Serialize] and [Unserialize] of the integer types. *)
Definition c_uint8 : codec Z := mkBi (fun a : Z => Ok (a, ser_writedata8 a)) ser_readdata8.
Definition c_uint16 : codec Z := mkBi (fun a => Ok (a, ser_writedata16 a)) ser_readdata16.
Definition c_uint32 : codec Z := mkBi (fun a => Ok (a, ser_writedata32 a)) ser_readdata32.
Definition c_uint64 : codec Z := mkBi (fun a => Ok (a, ser_writedata64 a)) ser_readdata64.
Definition c_int32 : codec Z :=
  mkBi (fun a => Ok (a, ser_writedata32 a)) (x ← ser_readdata32; mret (i32 x)).
Definition c_int64 : codec Z :=
  mkBi (fun a => Ok (a, ser_writedata64 a)) (x ← ser_readdata64; mret (i64 x)).

(** [bool]: any non-zero byte reads as true. *)
Definition c_bool : codec bool :=
  mkBi (fun a : bool => Ok (a, ser_writedata8 (if a then 1 else 0)))
    (x ← ser_readdata8; mret (negb (x =? 0))).

Lemma read_le n x rest :
  0 <= x < 256 ^ Z.of_nat n -> s_read (Z.of_nat n) (le_bytes n x ++ rest) = Ok (le_bytes n x, rest).
Proof. intros _; apply s_read_app; unfold zlen; now rewrite length_le_bytes. Qed.

Lemma uwrap_le_bytes w n x : w = 8 * Z.of_nat n -> 0 <= x < 256 ^ Z.of_nat n -> uwrap w x = x.
Proof.
  intros -> Hx; apply uwrap_small; rewrite Z.pow_mul_r by lia; exact Hx.
Qed.

(** A format that stores [to x] in [n] little-endian bytes. *)
Lemma Codec_le (n : nat) (valid : Z -> Prop) (to from : Z -> Z) (c : codec Z) :
  (forall a : Z, put c a = Ok (a, le_bytes n (to a))) ->
  (forall i, get c i =
     match s_read (Z.of_nat n) i with
     | Ok (d, s) => Ok (from (le_val d), s)
     | Err e => Err e
     | Exn x => Exn x
     end) ->
  (forall a, valid a -> 0 <= to a < 256 ^ Z.of_nat n /\ from (to a) = a) ->
  (forall x, 0 <= x < 256 ^ Z.of_nat n -> valid (from x) /\ to (from x) = x) ->
  Codec valid c.
Proof.
  intros Hp Hg Ht Hf; split.
  - intros a Ha; destruct (Ht a Ha) as [Hr Hi]; exists (le_bytes n (to a)).
    split; [apply Hp |]; split; [apply bytes_le_bytes |]; intros rest.
    rewrite Hg, read_le, le_val_le_bytes, Z.mod_small by assumption; now rewrite Hi.
  - intros i a rest Hb; rewrite Hg.
    destruct (s_read (Z.of_nat n) i) as [[d s] | |] eqn:Er; [| discriminate..].
    intros [= <- <-]; apply s_read_inv in Er as [-> El]; [| lia]; apply Forall_app in Hb as [Hd _].
    pose proof (le_val_range d Hd) as Hr; rewrite El in Hr; destruct (Hf _ Hr) as [Hv Hi].
    split; [exact Hv |]; exists d; split; [| reflexivity]; rewrite Hp, Hi; repeat f_equal.
    replace n with (length d) by (unfold zlen in El; lia); now apply le_bytes_le_val.
Qed.

Lemma take_exact (n : nat) (i d s : list Z) :
  s_read (Z.of_nat n) i = Ok (d, s) -> take n d = d.
Proof.
  intros Er; apply s_read_inv in Er as [_ El]; [| lia]; apply take_ge; unfold zlen in El; lia.
Qed.

(** The readers, as [Codec_le] needs them. *)
Ltac le_reader n :=
  let i := fresh in let d := fresh in let s := fresh in let E := fresh in
  intros i; cbn; unfold ser_readdata8, ser_readdata16, ser_readdata32, ser_readdata64, mbind, reader_bind,
    mret, reader_ret, ReadLE16, ReadLE32, ReadLE64;
  match goal with |- context [s_read ?k i] => change k with (Z.of_nat n) end;
  destruct (s_read (Z.of_nat n) i) as [[d s] | |] eqn:E; try reflexivity;
  now rewrite ?(take_exact n i d s E).

Lemma swrap_uwrap w x : 0 < w -> swrap w (uwrap w x) = swrap w x.
Proof.
  intros Hw; unfold swrap, uwrap; rewrite Zplus_mod_idemp_l; reflexivity.
Qed.

Lemma uwrap_swrap w x : 0 < w -> uwrap w (swrap w x) = uwrap w x.
Proof.
  intros Hw; unfold swrap, uwrap; rewrite Zminus_mod_idemp_l; f_equal; lia.
Qed.

Definition is_u8 (x : Z) : Prop := 0 <= x < 256.
Definition is_u16 (x : Z) : Prop := 0 <= x < 2 ^ 16.
Definition is_i32 (x : Z) : Prop := - 2 ^ 31 <= x < 2 ^ 31.

#[global] Instance Codec_uint8 : Codec is_byte c_uint8.
Proof.
  apply (Codec_le 1 _ u8 (fun x => x)); [intros a; cbn; unfold ser_writedata8, uwrap; change (2 ^ 8) with 256; now rewrite Zmod_mod
    | le_reader 1%nat | |]; unfold is_byte; intros x Hx; change (256 ^ Z.of_nat 1) with 256 in *;
    rewrite uwrap_small by exact Hx; auto.
Qed.

#[global] Instance Codec_uint16 : Codec is_u16 c_uint16.
Proof.
  apply (Codec_le 2 _ u16 (fun x => x)); [reflexivity | le_reader 2%nat | |];
    intros x Hx; change (256 ^ Z.of_nat 2) with (2 ^ 16) in *; rewrite uwrap_small by exact Hx; auto.
Qed.

#[global] Instance Codec_uint32 : Codec is_u32 c_uint32.
Proof.
  apply (Codec_le 4 _ u32 (fun x => x)); [reflexivity | le_reader 4%nat | |];
    intros x Hx; change (256 ^ Z.of_nat 4) with (2 ^ 32) in *; rewrite uwrap_small by exact Hx; auto.
Qed.

#[global] Instance Codec_uint64 : Codec is_u64 c_uint64.
Proof.
  apply (Codec_le 8 _ u64 (fun x => x)); [reflexivity | le_reader 8%nat | |];
    intros x Hx; change (256 ^ Z.of_nat 8) with (2 ^ 64) in *; rewrite uwrap_small by exact Hx; auto.
Qed.

#[global] Instance Codec_int32 : Codec is_i32 c_int32.
Proof.
  apply (Codec_le 4 _ u32 i32); [reflexivity | le_reader 4%nat | |]; intros x Hx;
    change (256 ^ Z.of_nat 4) with (2 ^ 32) in *.
  - split; [apply uwrap_range; lia |]; rewrite swrap_uwrap by lia; now apply swrap_small.
  - split; [apply (swrap_range 32); lia |]; rewrite uwrap_swrap by lia; now apply uwrap_small.
Qed.

#[global] Instance Codec_int64 : Codec is_i64 c_int64.
Proof.
  apply (Codec_le 8 _ u64 i64); [reflexivity | le_reader 8%nat | |]; intros x Hx;
    change (256 ^ Z.of_nat 8) with (2 ^ 64) in *.
  - split; [apply uwrap_range; lia |]; rewrite swrap_uwrap by lia; now apply swrap_small.
  - split; [apply (swrap_range 64); lia |]; rewrite uwrap_swrap by lia; now apply uwrap_small.
Qed.

(** ** Flat data and sizes *)

(** [CFlatData] of [n] bytes, [uint256], arrays of bytes. *)
Definition c_flat (n : Z) : codec (list Z) := mkBi (fun a : list Z => Ok (a, a)) (s_read n).

Definition is_blob (n : Z) (l : list Z) : Prop := bytes l /\ zlen l = n.

(** A fixed size. *)
Class FlatSize (n : Z) : Prop := flat_size : 0 <= n.
#[global] Instance FlatSize_pos p : FlatSize (Zpos p).
Proof. unfold FlatSize; lia. Qed.

#[global] Instance Codec_flat n : FlatSize n -> Codec (is_blob n) (c_flat n).
Proof.
  unfold FlatSize; intros Hn; split.
  - intros a [Hb Hl]; exists a; split; [reflexivity |]; split; [assumption |].
    intros rest; now apply s_read_app.
  - intros i a rest Hb Hg; apply s_read_inv in Hg as [-> Hl]; [| assumption].
    apply Forall_app in Hb as [Hb _]; split; [now split |]; now exists a.
Qed.

Definition GetSizeOfCompactSize (nSize : Z) : Z :=
  if nSize <? 253 then 1
  else if nSize <=? 65535 then 3
  else if nSize <=? 4294967295 then 5
  else 9.

Definition WriteCompactSize (nSize : Z) : list Z :=
  if nSize <? 253 then ser_writedata8 nSize
  else if nSize <=? 65535 then ser_writedata8 253 ++ ser_writedata16 nSize
  else if nSize <=? 4294967295 then ser_writedata8 254 ++ ser_writedata32 nSize
  else ser_writedata8 255 ++ ser_writedata64 nSize.

Definition ReadCompactSize (range_check : bool) : reader Z :=
  chSize ← ser_readdata8;
  nSizeRet ←
    (if chSize <? 253 then mret chSize
     else if chSize =? 253 then
       n ← ser_readdata16; (if n <? 253 then r_fail else mret n)
     else if chSize =? 254 then
       n ← ser_readdata32; (if n <? 65536 then r_fail else mret n)
     else
       n ← ser_readdata64; (if n <? 4294967296 then r_fail else mret n));
  if range_check && (MAX_SIZE <? nSizeRet) then r_fail else mret nSizeRet.

(** A length prefix. *)
Definition c_compact (range_check : bool) : codec Z :=
  mkBi (fun n : Z => Ok (n, WriteCompactSize n)) (ReadCompactSize range_check).

Definition compact_valid (range_check : bool) (n : Z) : Prop :=
  0 <= n < 2 ^ 64 /\ (range_check = true -> n <= MAX_SIZE).

Lemma reader_bind_eq {A B} (m : reader A) (f : A -> reader B) i :
  (m ≫= f) i = match m i with Ok (a, i1) => f a i1 | Err e => Err e | Exn x => Exn x end.
Proof. reflexivity. Qed.

(** What the integer codecs say about their readers and writers. *)
Lemma read8 x rest : is_byte x -> ser_readdata8 (ser_writedata8 x ++ rest) = Ok (x, rest).
Proof.
  intros Hx; destruct (codec_writes (c := c_uint8) x Hx) as (o & Hp & _ & Hg).
  cbn in Hp; injection Hp as <-; apply Hg.
Qed.

Lemma read16 x rest : is_u16 x -> ser_readdata16 (ser_writedata16 x ++ rest) = Ok (x, rest).
Proof.
  intros Hx; destruct (codec_writes (c := c_uint16) x Hx) as (o & Hp & _ & Hg).
  cbn in Hp; injection Hp as <-; apply Hg.
Qed.

Lemma read32 x rest : is_u32 x -> ser_readdata32 (ser_writedata32 x ++ rest) = Ok (x, rest).
Proof.
  intros Hx; destruct (codec_writes (c := c_uint32) x Hx) as (o & Hp & _ & Hg).
  cbn in Hp; injection Hp as <-; apply Hg.
Qed.

Lemma read64 x rest : is_u64 x -> ser_readdata64 (ser_writedata64 x ++ rest) = Ok (x, rest).
Proof.
  intros Hx; destruct (codec_writes (c := c_uint64) x Hx) as (o & Hp & _ & Hg).
  cbn in Hp; injection Hp as <-; apply Hg.
Qed.

(** Inverts a read of an integer with its codec. *)
Ltac read_inv c H :=
  let Hv := fresh "Hv" in let o := fresh "o" in let P := fresh "P" in
  eapply (codec_reads (c := c)) in H as (Hv & o & P & ->); [| eassumption];
  cbn in P; injection P as <-.

Lemma bytes_WriteCompactSize n : bytes (WriteCompactSize n).
Proof.
  assert (H8 : forall x, bytes (ser_writedata8 x))
    by (intros x; repeat constructor; apply Z.mod_pos_bound; lia).
  unfold WriteCompactSize, ser_writedata16, ser_writedata32, ser_writedata64.
  repeat case_match; rewrite ?Forall_app; repeat split; auto; apply bytes_le_bytes.
Qed.

Lemma ReadCompactSize_write rc n rest :
  compact_valid rc n -> ReadCompactSize rc (WriteCompactSize n ++ rest) = Ok (n, rest).
Proof.
  intros [Hn Hr]; assert (Hrc : rc && (MAX_SIZE <? n) = false).
  { destruct rc; [| reflexivity]; specialize (Hr eq_refl); cbn; apply Z.ltb_ge; lia. }
  assert (B : is_byte 253 /\ is_byte 254 /\ is_byte 255) by (unfold is_byte; lia).
  destruct B as (B3 & B4 & B5).
  unfold ReadCompactSize, WriteCompactSize; rewrite reader_bind_eq.
  destruct (Z.ltb_spec n 253).
  { rewrite read8 by (unfold is_byte; lia); destruct (Z.ltb_spec n 253); [| lia].
    rewrite reader_bind_eq; cbn [mret reader_ret]; rewrite Hrc; reflexivity. }
  destruct (Z.leb_spec n 65535).
  { rewrite <- app_assoc, (read8 253) by assumption; cbn [Z.ltb Z.eqb Pos.eqb Z.compare Pos.compare Pos.compare_cont].
    rewrite !reader_bind_eq, read16 by (unfold is_u16; lia).
    destruct (Z.ltb_spec n 253); [lia |]; cbn [mret reader_ret]; rewrite Hrc; reflexivity. }
  destruct (Z.leb_spec n 4294967295).
  { rewrite <- app_assoc, (read8 254) by assumption; cbn [Z.ltb Z.eqb Pos.eqb Z.compare Pos.compare Pos.compare_cont].
    rewrite !reader_bind_eq, read32 by (unfold is_u32; lia).
    destruct (Z.ltb_spec n 65536); [lia |]; cbn [mret reader_ret]; rewrite Hrc; reflexivity. }
  rewrite <- app_assoc, (read8 255) by assumption; cbn [Z.ltb Z.eqb Pos.eqb Z.compare Pos.compare Pos.compare_cont].
  rewrite !reader_bind_eq, read64 by (unfold is_u64; lia).
  destruct (Z.ltb_spec n 4294967296); [lia |]; cbn [mret reader_ret]; rewrite Hrc; reflexivity.
Qed.

(** A value in one of the four ranges is written with the prefix it was read with. *)
Lemma ReadCompactSize_inv rc i n rest :
  bytes i -> ReadCompactSize rc i = Ok (n, rest) ->
  compact_valid rc n /\ i = WriteCompactSize n ++ rest.
Proof.
  intros Hb; unfold ReadCompactSize; rewrite reader_bind_eq.
  destruct (ser_readdata8 i) as [[ch i1] | |] eqn:E8; [| discriminate..].
  read_inv c_uint8 E8; apply Forall_app in Hb as [_ Hb]; unfold is_byte in Hv.
  assert (Hfin : forall m i2, (if rc && (MAX_SIZE <? m) then r_fail else mret m) i2 = Ok (n, rest) ->
    m = n /\ i2 = rest /\ (rc = true -> n <= MAX_SIZE)).
  { intros m i2; destruct (rc && (MAX_SIZE <? m)) eqn:Erc; [discriminate |]; intros [= <- <-].
    do 2 (split; [reflexivity |]); intros ->; cbn in Erc; now apply Z.ltb_ge. }
  rewrite reader_bind_eq; unfold compact_valid, WriteCompactSize.
  destruct (Z.ltb_spec ch 253); [| destruct (Z.eqb_spec ch 253) as [-> |]; [| destruct (Z.eqb_spec ch 254) as [-> |]]].
  - cbn [mret reader_ret]; intros Hf; apply Hfin in Hf as (-> & -> & Hm).
    destruct (Z.ltb_spec n 253); [| lia]; split; [split; [lia | exact Hm] | reflexivity].
  - rewrite reader_bind_eq; destruct (ser_readdata16 i1) as [[m i2] | |] eqn:E16; [| discriminate..].
    read_inv c_uint16 E16; unfold is_u16 in *; destruct (Z.ltb_spec m 253); [discriminate |].
    cbn [mret reader_ret]; intros Hf; apply Hfin in Hf as (-> & -> & Hm).
    destruct (Z.ltb_spec n 253); [lia |]; destruct (Z.leb_spec n 65535); [| lia].
    split; [split; [lia | exact Hm] | now rewrite <- app_assoc].
  - rewrite reader_bind_eq; destruct (ser_readdata32 i1) as [[m i2] | |] eqn:E32; [| discriminate..].
    read_inv c_uint32 E32; unfold is_u32 in *; destruct (Z.ltb_spec m 65536); [discriminate |].
    cbn [mret reader_ret]; intros Hf; apply Hfin in Hf as (-> & -> & Hm).
    destruct (Z.ltb_spec n 253); [lia |]; destruct (Z.leb_spec n 65535); [lia |].
    destruct (Z.leb_spec n 4294967295); [| lia]; split; [split; [lia | exact Hm] | now rewrite <- app_assoc].
  - rewrite reader_bind_eq; destruct (ser_readdata64 i1) as [[m i2] | |] eqn:E64; [| discriminate..].
    read_inv c_uint64 E64; unfold is_u64 in *; destruct (Z.ltb_spec m 4294967296); [discriminate |].
    cbn [mret reader_ret]; intros Hf; apply Hfin in Hf as (-> & -> & Hm).
    destruct (Z.ltb_spec n 253); [lia |]; destruct (Z.leb_spec n 65535); [lia |].
    destruct (Z.leb_spec n 4294967295); [lia |]; split; [split; [lia | exact Hm] |].
    replace ch with 255 by lia; now rewrite <- app_assoc.
Qed.

#[global] Instance Codec_compact rc : Codec (compact_valid rc) (c_compact rc).
Proof.
  split.
  - intros n Hn; exists (WriteCompactSize n); split; [reflexivity |].
    split; [apply bytes_WriteCompactSize |]; intros rest; now apply ReadCompactSize_write.
  - intros i n rest Hb Hg; apply ReadCompactSize_inv in Hg as [Hv ->]; [| assumption].
    split; [exact Hv |]; now exists (WriteCompactSize n).
Qed.

Lemma zlen_WriteCompactSize n : zlen (WriteCompactSize n) = GetSizeOfCompactSize n.
Proof.
  unfold WriteCompactSize, GetSizeOfCompactSize, ser_writedata16, ser_writedata32, ser_writedata64,
    WriteLE16, WriteLE32, WriteLE64; repeat case_match; rewrite ?zlen_app; unfold zlen;
    rewrite ?length_le_bytes; reflexivity.
Qed.

(** ** Vectors *)

(** [Unserialize_impl] of a vector of bytes: blocks of at most 5000000. *)
Fixpoint read_blocks (fuel : nat) (i nSize : Z) (v : list Z) : reader (list Z) :=
  if i <? nSize then
    match fuel with
    | O => fun _ => Exn out_of_fuel
    | S fuel =>
        let blk := Z.min (nSize - i) (1 + 4999999 / 1) in
        d ← s_read blk; read_blocks fuel (i + blk) nSize (v ++ d)
    end
  else mret v.

(** [Serialize] and [Unserialize] of [std::vector<unsigned char>], of a
    [prevector] of bytes and of [std::string]. *)
Definition c_vector : codec (list Z) :=
  mkBi (fun v : list Z => Ok (v, WriteCompactSize (zlen v) ++ v))
    (nSize ← ReadCompactSize true;
     read_blocks (Z.to_nat nSize) 0 (u32 nSize) []).

(** [for (; i < nMid; i++) Unserialize(is, v[i]);] with [n] elements to go. *)
Fixpoint read_items {A} (n : nat) (c : reader A) (v : list A) : reader (list A) :=
  match n with
  | O => mret v
  | S n => x ← c; read_items n c (v ++ [x])
  end.

(** [Unserialize_impl] of a vector of objects of [sizeof] bytes in memory:
    batches of at most [5000000 / sizeof]. *)
Fixpoint read_batches {A} (fuel : nat) (sizeof : Z) (c : reader A) (i nMid nSize : Z) (v : list A)
    : reader (list A) :=
  if nMid <? nSize then
    match fuel with
    | O => fun _ => Exn out_of_fuel
    | S fuel =>
        let nMid := u32 (nMid + 5000000 / sizeof) in
        let nMid := if nSize <? nMid then nSize else nMid in
        v ← read_items (Z.to_nat (nMid - i)) c v;
        read_batches fuel sizeof c nMid nMid nSize v
    end
  else mret v.

(** Writing the elements one after the other. *)
Fixpoint write_items {A} (c : codec A) (v : list A) : res unit (list Z) :=
  match v with
  | [] => Ok []
  | x :: v => r ← put c x; o ← write_items c v; Ok (r.2 ++ o)
  end.

Definition c_vec {A} (sizeof : Z) (c : codec A) : codec (list A) :=
  mkBi (fun v => o ← write_items c v; Ok (v, WriteCompactSize (zlen v) ++ o))
    (nSize ← ReadCompactSize true;
     read_batches (Z.to_nat nSize) sizeof (get c) 0 0 (u32 nSize) []).

(** [std::array<T, N>]. *)
Definition c_array {A} (n : nat) (c : codec A) : codec (list A) :=
  mkBi (fun v => o ← write_items c v; Ok (v, o)) (read_items n (get c) []).

(** The blocks are one read of the whole. *)
Lemma read_blocks_spec fuel : forall i nSize v s,
  0 <= i <= nSize -> nSize - i <= Z.of_nat fuel ->
  (exists x, read_blocks fuel i nSize v s = Exn x /\ zlen s < nSize - i) \/
  (nSize - i <= zlen s /\
   read_blocks fuel i nSize v s =
     Ok (v ++ take (Z.to_nat (nSize - i)) s, drop (Z.to_nat (nSize - i)) s)).
Proof.
  induction fuel as [| fuel IH]; intros i nSize v s Hi Hf; cbn [read_blocks];
    destruct (Z.ltb_spec i nSize) as [Hlt | Hge].
  - lia.
  - right; pose proof (zlen_nonneg s); split; [lia |]; replace (nSize - i) with 0 by lia.
    cbn; now rewrite app_nil_r.
  - rewrite reader_bind_eq; set (blk := Z.min (nSize - i) (1 + 4999999 / 1)).
    assert (Hblk : 0 < blk <= nSize - i) by (unfold blk; change (4999999 / 1) with 4999999; lia).
    unfold s_read; destruct (Z.ltb_spec (zlen s) blk) as [Hs | Hs].
    { left; eexists; split; [reflexivity | lia]. }
    destruct (IH (i + blk) nSize (v ++ take (Z.to_nat blk) s) (drop (Z.to_nat blk) s))
      as [(x & -> & Hx) | (Hx & ->)]; try lia; unfold zlen in *; rewrite length_drop in Hx.
    + left; eexists; split; [reflexivity | lia].
    + right; split; [lia |]; rewrite <- app_assoc, drop_drop; repeat f_equal; [| lia].
      replace (Z.to_nat (nSize - i)) with (Z.to_nat blk + Z.to_nat (nSize - (i + blk)))%nat by lia.
      now rewrite take_take_drop.
  - right; pose proof (zlen_nonneg s); split; [lia |]; replace (nSize - i) with 0 by lia.
    cbn; now rewrite app_nil_r.
Qed.

Definition vector_valid (v : list Z) : Prop := bytes v /\ zlen v <= MAX_SIZE.

Lemma compact_size_ok {A} (v : list A) : zlen v <= MAX_SIZE -> compact_valid true (zlen v).
Proof. intros Hv; pose proof (zlen_nonneg v); unfold compact_valid, MAX_SIZE in *; split; [lia | auto]. Qed.

Lemma u32_size n : 0 <= n <= MAX_SIZE -> u32 n = n.
Proof. intros Hn; apply uwrap_small; unfold MAX_SIZE in Hn; lia. Qed.

#[global] Instance Codec_vector : Codec vector_valid c_vector.
Proof.
  split.
  - intros v [Hb Hl]; exists (WriteCompactSize (zlen v) ++ v); split; [reflexivity |].
    split; [apply Forall_app; split; [apply bytes_WriteCompactSize | assumption] |].
    intros rest; cbn [get c_vector]; rewrite reader_bind_eq, <- app_assoc.
    rewrite ReadCompactSize_write by now apply compact_size_ok.
    pose proof (zlen_nonneg v); rewrite u32_size by lia.
    destruct (read_blocks_spec (Z.to_nat (zlen v)) 0 (zlen v) [] (v ++ rest)) as [(x & _ & Hx) | (_ & ->)];
      try lia; rewrite Z.sub_0_r in *.
    + rewrite zlen_app in Hx; pose proof (zlen_nonneg rest); lia.
    + unfold zlen; rewrite Nat2Z.id, take_app_length, drop_app_length; reflexivity.
  - intros i v rest Hb; cbn [get c_vector]; rewrite reader_bind_eq.
    destruct (ReadCompactSize true i) as [[n i1] | |] eqn:En; [| discriminate..].
    apply ReadCompactSize_inv in En as [[Hn Hm] ->]; [| assumption]; specialize (Hm eq_refl).
    apply Forall_app in Hb as [_ Hb]; rewrite u32_size by lia.
    destruct (read_blocks_spec (Z.to_nat n) 0 n [] i1) as [(x & -> & _) | (Hl & ->)]; try lia; [discriminate |].
    rewrite Z.sub_0_r in *; intros [= <- <-].
    assert (El : zlen (take (Z.to_nat n) i1) = n) by (unfold zlen in *; rewrite length_take; lia).
    split; [split; [now apply Forall_take | now rewrite El] |].
    eexists; split; [reflexivity |]; now rewrite El, <- app_assoc, take_drop.
Qed.

Section Items.
Context {A : Type} (valid : A -> Prop) (c : codec A) `{!Codec valid c}.

Lemma read_items_app (m n : nat) v s :
  read_items (m + n) (get c) v s =
    match read_items m (get c) v s with
    | Ok (w, s) => read_items n (get c) w s
    | Err e => Err e
    | Exn x => Exn x
    end.
Proof.
  revert v s; induction m as [| m IH]; intros v s; [reflexivity |].
  cbn [read_items Nat.add]; rewrite !reader_bind_eq; destruct (get c s) as [[x s1] | |]; auto.
Qed.

(** The batches are one loop over all elements. *)
Lemma read_batches_spec sizeof (fuel : nat) : forall i nSize v s,
  0 < sizeof <= 5000000 -> 0 <= i <= nSize -> nSize <= MAX_SIZE -> nSize - i <= Z.of_nat fuel ->
  read_batches fuel sizeof (get c) i i nSize v s = read_items (Z.to_nat (nSize - i)) (get c) v s.
Proof.
  induction fuel as [| fuel IH]; intros i nSize v s Hs Hi Hm Hf; cbn [read_batches];
    destruct (Z.ltb_spec i nSize) as [Hlt | Hge];
    try (replace (nSize - i) with 0 by lia; reflexivity); [lia |].
  assert (Hstep : 1 <= 5000000 / sizeof <= 5000000).
  { split; [apply Z.div_le_lower_bound; lia |]; apply Z.div_le_upper_bound; nia. }
  unfold MAX_SIZE in Hm; rewrite uwrap_small by lia.
  set (nMid := if nSize <? i + 5000000 / sizeof then nSize else i + 5000000 / sizeof).
  assert (Hmid : i < nMid <= nSize) by (unfold nMid; zbool; lia).
  replace (Z.to_nat (nSize - i)) with (Z.to_nat (nMid - i) + Z.to_nat (nSize - nMid))%nat by lia.
  rewrite reader_bind_eq, read_items_app.
  destruct (read_items (Z.to_nat (nMid - i)) (get c) v s) as [[w s1] | |]; auto.
  apply IH; unfold MAX_SIZE; lia.
Qed.

Lemma write_items_ok l :
  Forall valid l ->
  exists out, write_items c l = Ok out /\ bytes out /\
    forall v rest, read_items (length l) (get c) v (out ++ rest) = Ok (v ++ l, rest).
Proof.
  induction 1 as [| x l Hx Hl (out & Hw & Hb & Hr)]; cbn [write_items length].
  { exists []; split; [reflexivity |]; split; [constructor |]; intros v rest; cbn; now rewrite app_nil_r. }
  destruct (codec_writes x Hx) as (o & Hp & Hbo & Hg); exists (o ++ out); rewrite Hp; cbn [mbind res_bind fst snd].
  rewrite Hw; split; [reflexivity |]; split; [now apply Forall_app |]; intros v rest.
  cbn [read_items]; rewrite reader_bind_eq, <- app_assoc, Hg, Hr, <- app_assoc; reflexivity.
Qed.

Lemma read_items_inv n : forall v i w rest,
  bytes i -> read_items n (get c) v i = Ok (w, rest) ->
  exists l out, w = v ++ l /\ length l = n /\ Forall valid l /\ write_items c l = Ok out /\ i = out ++ rest.
Proof.
  induction n as [| n IH]; intros v i w rest Hb; cbn [read_items].
  { intros [= <- <-]; exists [], []; rewrite app_nil_r; repeat split; constructor. }
  rewrite reader_bind_eq; destruct (get c i) as [[x i1] | |] eqn:Eg; [| discriminate..].
  destruct (codec_reads i x i1 Hb Eg) as (Hx & o & Hp & ->); apply Forall_app in Hb as [_ Hb].
  intros Hr; destruct (IH _ _ _ _ Hb Hr) as (l & out & -> & Hl & Hv & Hw & ->).
  exists (x :: l), (o ++ out); rewrite <- !app_assoc; split; [reflexivity |].
  split; [cbn; now rewrite Hl |]; split; [now constructor |]; split; [| reflexivity].
  cbn [write_items]; rewrite Hp; cbn [mbind res_bind fst snd]; now rewrite Hw.
Qed.
End Items.

Definition vec_valid {A} (valid : A -> Prop) (v : list A) : Prop := Forall valid v /\ zlen v <= MAX_SIZE.
Definition array_valid {A} (n : nat) (valid : A -> Prop) (v : list A) : Prop :=
  Forall valid v /\ length v = n.

(** A size of an object in memory with which the batches make progress. *)
Class BatchSize (sizeof : Z) : Prop := batch_size : 0 < sizeof <= 5000000.

#[global] Instance Codec_vec {A} (valid : A -> Prop) (c : codec A) sizeof :
  Codec valid c -> BatchSize sizeof -> Codec (vec_valid valid) (c_vec sizeof c).
Proof.
  unfold BatchSize; intros Hc Hs; split.
  - intros v [Hv Hl]; destruct (write_items_ok valid c v Hv) as (out & Hw & Hb & Hr).
    pose proof (zlen_nonneg v).
    exists (WriteCompactSize (zlen v) ++ out); split; [cbn; now rewrite Hw |].
    split; [apply Forall_app; split; [apply bytes_WriteCompactSize | assumption] |].
    intros rest; cbn [get c_vec]; rewrite reader_bind_eq, <- app_assoc.
    rewrite ReadCompactSize_write by now apply compact_size_ok.
    rewrite u32_size by lia; rewrite read_batches_spec by lia.
    rewrite Z.sub_0_r; unfold zlen; rewrite Nat2Z.id; apply Hr.
  - intros i v rest Hb; cbn [get c_vec]; rewrite reader_bind_eq.
    destruct (ReadCompactSize true i) as [[n i1] | |] eqn:En; [| discriminate..].
    apply ReadCompactSize_inv in En as [[Hn Hm] ->]; [| assumption]; specialize (Hm eq_refl).
    apply Forall_app in Hb as [_ Hb]; rewrite u32_size by lia; rewrite read_batches_spec by lia.
    intros Hr; destruct (read_items_inv valid c _ _ _ _ _ Hb Hr) as (l & out & -> & Hl & Hv & Hw & ->).
    assert (El : zlen l = n) by (unfold zlen; lia).
    cbn [app]; split; [split; [assumption | now rewrite El] |].
    exists (WriteCompactSize n ++ out); rewrite <- app_assoc; split; [| reflexivity].
    cbn; rewrite Hw; cbn; now rewrite El.
Qed.

#[global] Instance Codec_array {A} (valid : A -> Prop) (c : codec A) n :
  Codec valid c -> Codec (array_valid n valid) (c_array n c).
Proof.
  intros Hc; split.
  - intros v [Hv Hl]; destruct (write_items_ok valid c v Hv) as (out & Hw & Hb & Hr).
    exists out; split; [cbn; now rewrite Hw |]; split; [assumption |]; intros rest.
    cbn [get c_array]; rewrite <- Hl; apply Hr.
  - intros i v rest Hb Hr; destruct (read_items_inv valid c _ _ _ _ _ Hb Hr) as (l & out & -> & Hl & Hv & Hw & ->).
    cbn [app]; split; [now split |]; exists out; split; [cbn; now rewrite Hw | reflexivity].
Qed.
