(* ===== verification/VarInt.v ===== *)
(** * Variable-length integers

    WriteVarInt, ReadVarInt and GetSizeOfVarInt of serialize.h: digits of seven
    bits, the most significant first, one subtracted from all but the last. *)
From S2P Require Import Prelude Endian Serialize.

(** The integer types the templates are used with. *)
Record int_type := mkType { bits : Z; wrapI : Z -> Z }.
Definition uint32_t : int_type := mkType 32 u32.
Definition uint64_t : int_type := mkType 64 u64.
Definition int_t : int_type := mkType 32 i32.

(** [n = (n >> 7) - 1]. *)
Definition next_digit (I : int_type) (n : Z) : Z := wrapI I (Z.shiftr n 7 - 1).

(** The loop of [GetSizeOfVarInt]. *)
Fixpoint size_loop (I : int_type) (fuel : nat) (n nRet : Z) : res unit Z :=
  match fuel with
  | O => Exn out_of_fuel
  | S fuel =>
      let nRet := nRet + 1 in
      if n <=? 127 then Ok nRet else size_loop I fuel (next_digit I n) nRet
  end.

Definition GetSizeOfVarInt (I : int_type) (n : Z) : res unit Z := size_loop I (Z.to_nat (bits I)) n 0.

(** The first loop of [WriteVarInt]: the bytes [tmp[len]], [tmp[len + 1]], ...,
    with [room] elements of [tmp] left. *)
Fixpoint tmp_loop (I : int_type) (room : nat) (n : Z) (len : Z) : res unit (list Z) :=
  match room with
  | O => Exn oob_read
  | S room =>
      let b := Z.lor (Z.land n 127) (if len =? 0 then 0 else 128) in
      if n <=? 127 then Ok [b]
      else tmp ← tmp_loop I room (next_digit I n) (len + 1); Ok (b :: tmp)
  end.

Definition tmp_size (I : int_type) : Z := (bits I + 6) / 7.

Definition WriteVarInt (I : int_type) (n : Z) : res unit (list Z) :=
  tmp ← tmp_loop I (Z.to_nat (tmp_size I)) n 0;
  Ok (rev tmp).

(** [ReadVarInt]. *)
Fixpoint read_varint_loop (I : int_type) (n : Z) (s : list Z) : res unit (Z * list Z) :=
  match s with
  | [] => Exn ios_failure
  | chData :: s =>
      let n := wrapI I (Z.lor (wrapI I (Z.shiftl n 7)) (Z.land chData 127)) in
      if negb (Z.land chData 128 =? 0) then read_varint_loop I (wrapI I (n + 1)) s else Ok (n, s)
  end.

Definition ReadVarInt (I : int_type) : reader Z := read_varint_loop I 0.

Definition c_varint (I : int_type) : codec Z :=
  mkBi (fun n => o ← WriteVarInt I n; Ok (n, o)) (ReadVarInt I).

(** ** The digits *)

(** The digits of [n] without machine arithmetic, the last first; all but the
    last are marked. *)
Fixpoint digits (fuel : nat) (n : Z) (mark : Z) : list Z :=
  match fuel with
  | O => []
  | S fuel => if n <=? 127 then [n + mark] else n mod 128 + mark :: digits fuel (n / 128 - 1) 128
  end.

(** A type whose non-negative values below [2 ^ w] the operations keep. *)
Definition type_ok (I : int_type) (w : Z) : Prop :=
  0 < w <= bits I /\ bits I <= 64 /\ forall x, 0 <= x < 2 ^ w -> wrapI I x = x.

Lemma uint64_ok : type_ok uint64_t 64.
Proof. split; [cbn; lia |]; split; [cbn; lia |]; intros x Hx; now apply uwrap_small. Qed.
Lemma uint32_ok : type_ok uint32_t 32.
Proof. split; [cbn; lia |]; split; [cbn; lia |]; intros x Hx; now apply uwrap_small. Qed.
Lemma int_ok : type_ok int_t 31.
Proof. split; [cbn; lia |]; split; [cbn; lia |]; intros x Hx; apply swrap_small; cbn; lia. Qed.

Lemma varint_land_127 n : Z.land n 127 = n mod 128.
Proof. exact (land_mask_mod n 7 ltac:(lia)). Qed.

Lemma lor_mark n (b : bool) : 0 <= n < 128 -> Z.lor n (if b then 0 else 128) = n + (if b then 0 else 128).
Proof.
  intros Hn; destruct b; [rewrite Z.lor_0_r; lia |].
  change 128 with (Z.shiftl 1 7); rewrite lor_shiftl_add by lia; reflexivity.
Qed.

(** What [f] digits can hold. *)
Definition cap (f : nat) : Z := match f with O => 0 | S _ => 128 ^ Z.of_nat f end.

Lemma cap_step f n : 127 < n < cap (S f) -> 0 <= n / 128 - 1 < cap f.
Proof.
  unfold cap; rewrite Nat2Z.inj_succ, Z.pow_succ_r by lia; intros Hn.
  pose proof (Z.div_le_lower_bound n 128 1 ltac:(lia) ltac:(lia)).
  pose proof (Z.div_lt_upper_bound n 128 (128 ^ Z.of_nat f) ltac:(lia) ltac:(lia)).
  destruct f; [change (128 ^ Z.of_nat 0) with 1 in *; lia | lia].
Qed.

Section Digits.
Context (I : int_type) (w : Z) (HI : type_ok I w).

Lemma next_digit_eq n : 127 < n < 2 ^ w -> next_digit I n = n / 128 - 1.
Proof.
  intros Hn; unfold next_digit; rewrite Z.shiftr_div_pow2 by lia; change (2 ^ 7) with 128.
  destruct HI as (_ & _ & Hw); apply Hw; pose proof (Z.div_le_lower_bound n 128 1 ltac:(lia) ltac:(lia)).
  split; [lia |]; pose proof (Z.div_lt_upper_bound n 128 n ltac:(lia) ltac:(lia)); lia.
Qed.

Lemma tmp_loop_digits room : forall n len,
  0 <= n < 2 ^ w -> n < cap room -> 0 <= len ->
  tmp_loop I room n len = Ok (digits room n (if len =? 0 then 0 else 128)).
Proof.
  induction room as [| room IH]; intros n len Hn Hr Hl; [cbn in Hr; lia |].
  cbn [tmp_loop digits]; rewrite varint_land_127; destruct (Z.leb_spec n 127) as [H127 | H127].
  - rewrite Z.mod_small, lor_mark by lia; reflexivity.
  - pose proof (Z.mod_pos_bound n 128 ltac:(lia)); pose proof (Z.div_mod n 128 ltac:(lia)).
    pose proof (cap_step room n ltac:(lia)).
    rewrite next_digit_eq, IH by lia; cbn [mbind res_bind]; rewrite lor_mark by lia.
    destruct (Z.eqb_spec (len + 1) 0); [lia | reflexivity].
Qed.

Lemma size_loop_digits fuel : forall n k mark,
  0 <= n < 2 ^ w -> n < cap fuel ->
  size_loop I fuel n k = Ok (k + zlen (digits fuel n mark)).
Proof.
  induction fuel as [| fuel IH]; intros n k mark Hn Hr; [cbn in Hr; lia |].
  cbn [size_loop digits]; destruct (Z.leb_spec n 127) as [H127 | H127]; [reflexivity |].
  pose proof (Z.div_mod n 128 ltac:(lia)); pose proof (Z.mod_pos_bound n 128 ltac:(lia)).
  pose proof (cap_step fuel n ltac:(lia)).
  rewrite next_digit_eq, (IH _ _ 128) by lia; rewrite zlen_cons; f_equal; lia.
Qed.

(** Reading one digit into the accumulator [m]. *)
Lemma read_digit m d (b : bool) s :
  0 <= d < 128 -> 0 <= m -> 128 * m + d + 1 < 2 ^ w \/ (b = true /\ 128 * m + d < 2 ^ w) ->
  read_varint_loop I m (d + (if b then 0 else 128) :: s) =
    if b then Ok (128 * m + d, s) else read_varint_loop I (128 * m + d + 1) s.
Proof.
  intros Hd Hm Hb; cbn [read_varint_loop].
  assert (El : Z.land (d + (if b then 0 else 128)) 127 = d).
  { rewrite varint_land_127; destruct b; [rewrite Z.add_0_r; apply Z.mod_small; lia |].
    replace (d + 128) with (d + 1 * 128) by lia; rewrite Z.mod_add by lia; apply Z.mod_small; lia. }
  assert (Eh : negb (Z.land (d + (if b then 0 else 128)) 128 =? 0) = negb b).
  { rewrite byte_land_128 by (unfold is_byte; destruct b; lia); destruct b, (Z.ltb_spec d 128); zbool; auto; lia. }
  rewrite El, Eh, Z.shiftl_mul_pow2 by lia; change (2 ^ 7) with 128.
  destruct HI as (_ & _ & Hw); rewrite (Hw (m * 128)) by lia.
  rewrite Z.lor_comm; replace (m * 128) with (Z.shiftl m 7) by (rewrite Z.shiftl_mul_pow2; lia).
  rewrite lor_shiftl_add by lia; change (2 ^ 7) with 128; rewrite (Hw (d + m * 128)) by lia.
  replace (d + m * 128) with (128 * m + d) by lia; destruct b; cbn [negb]; [reflexivity |].
  rewrite Hw by lia; reflexivity.
Qed.

(** Marked digits leave one more than the number in the accumulator. *)
Lemma read_marked fuel : forall n s,
  0 <= n -> n < cap fuel -> n + 1 < 2 ^ w ->
  read_varint_loop I 0 (rev (digits fuel n 128) ++ s) = read_varint_loop I (n + 1) s.
Proof.
  induction fuel as [| fuel IH]; intros n s Hn Hf Hw; [cbn in Hf; lia |].
  cbn [digits]; destruct (Z.leb_spec n 127) as [H127 | H127]; cbn [rev app].
  - rewrite (read_digit 0 n false) by lia; f_equal; lia.
  - pose proof (Z.div_mod n 128 ltac:(lia)); pose proof (Z.mod_pos_bound n 128 ltac:(lia)).
    pose proof (cap_step fuel n ltac:(lia)).
    rewrite <- app_assoc, IH by lia; cbn [app].
    rewrite (read_digit (n / 128 - 1 + 1) (n mod 128) false) by lia; f_equal; lia.
Qed.

Lemma read_digits fuel n s :
  0 <= n < 2 ^ w -> n < cap fuel ->
  read_varint_loop I 0 (rev (digits fuel n 0) ++ s) = Ok (n, s).
Proof.
  intros Hn Hf; destruct fuel as [| fuel]; [cbn in Hf; lia |].
  cbn [digits]; destruct (Z.leb_spec n 127) as [H127 | H127]; cbn [rev app].
  - rewrite (read_digit 0 n true) by lia; f_equal.
  - pose proof (Z.div_mod n 128 ltac:(lia)); pose proof (Z.mod_pos_bound n 128 ltac:(lia)).
    pose proof (cap_step fuel n ltac:(lia)).
    rewrite <- app_assoc, read_marked by lia; cbn [app].
    rewrite (read_digit (n / 128 - 1 + 1) (n mod 128) true) by lia; repeat f_equal; lia.
Qed.

Lemma digits_bytes fuel : forall n mark, mark = 0 \/ mark = 128 -> 0 <= n -> bytes (digits fuel n mark).
Proof.
  induction fuel as [| fuel IH]; intros n mark Hm Hn; cbn [digits]; [constructor |].
  pose proof (Z.mod_pos_bound n 128 ltac:(lia)).
  destruct (Z.leb_spec n 127) as [H127 | H127]; constructor; try (unfold is_byte; lia); [constructor |].
  apply IH; [now right |]; pose proof (Z.div_le_lower_bound n 128 1 ltac:(lia) ltac:(lia)); lia.
Qed.

(** The buffer [tmp] is large enough. *)
Lemma tmp_size_enough n : 0 <= n < 2 ^ w -> n < cap (Z.to_nat (tmp_size I)).
Proof.
  intros Hn; destruct HI as (Hw & _ & _); unfold tmp_size.
  pose proof (Z.div_pos (bits I + 6) 7 ltac:(lia) ltac:(lia)).
  pose proof (Z.div_mod (bits I + 6) 7 ltac:(lia)); pose proof (Z.mod_pos_bound (bits I + 6) 7 ltac:(lia)).
  assert (E : cap (Z.to_nat ((bits I + 6) / 7)) = 2 ^ (7 * ((bits I + 6) / 7))).
  { unfold cap; destruct (Z.to_nat ((bits I + 6) / 7)) eqn:En; [lia |]; rewrite <- En, Z2Nat.id by lia.
    change 128 with (2 ^ 7); now rewrite <- Z.pow_mul_r by lia. }
  rewrite E;   apply Z.lt_le_trans with (2 ^ w); [lia |]; apply Z.pow_le_mono_r; lia.
Qed.

Lemma WriteVarInt_digits n :
  0 <= n < 2 ^ w -> WriteVarInt I n = Ok (rev (digits (Z.to_nat (tmp_size I)) n 0)).
Proof.
  intros Hn; unfold WriteVarInt; rewrite tmp_loop_digits by (try apply tmp_size_enough; lia); reflexivity.
Qed.

Lemma writes_varint n : 0 <= n < 2 ^ w -> writes (c_varint I) n n.
Proof.
  intros Hn; exists (rev (digits (Z.to_nat (tmp_size I)) n 0)); split; [| split].
  - cbn; now rewrite WriteVarInt_digits.
  - apply Forall_rev, digits_bytes; [now left | lia].
  - intros rest; apply read_digits; [assumption | now apply tmp_size_enough].
Qed.

Lemma digits_fuel f1 : forall f2 n mark,
  0 <= n < cap f1 -> n < cap f2 -> digits f1 n mark = digits f2 n mark.
Proof.
  induction f1 as [| f1 IH]; intros f2 n mark H1 H2; [cbn in H1; lia |].
  destruct f2 as [| f2]; [cbn in H2; lia |]; cbn [digits].
  destruct (Z.leb_spec n 127) as [H127 | H127]; [reflexivity |]; f_equal.
  pose proof (cap_step f1 n ltac:(lia)); pose proof (cap_step f2 n ltac:(lia)).
  apply IH; lia.
Qed.

Lemma length_digits n : 0 < w <= bits I -> Z.of_nat (length (digits (Z.to_nat (tmp_size I)) n 0)) <= tmp_size I.
Proof.
  intros Hw; assert (L : forall f m mark, (length (digits f m mark) <= f)%nat).
  { induction f as [| f IH]; intros m mark; cbn; [lia |].
    destruct (m <=? 127); cbn; [lia |]; specialize (IH (m / 128 - 1) 128); lia. }
  specialize (L (Z.to_nat (tmp_size I)) n 0); unfold tmp_size in *.
  pose proof (Z.div_pos (bits I + 6) 7 ltac:(lia) ltac:(lia)); lia.
Qed.

Lemma GetSizeOfVarInt_eq n out :
  0 <= n < 2 ^ w -> WriteVarInt I n = Ok out -> GetSizeOfVarInt I n = Ok (zlen out).
Proof.
  intros Hn; rewrite WriteVarInt_digits by assumption; intros [= <-]; unfold GetSizeOfVarInt.
  assert (Hf : n < cap (Z.to_nat (bits I))).
  { destruct HI as (Hw & _ & _); unfold cap; destruct (Z.to_nat (bits I)) eqn:En; [lia |].
    rewrite <- En, Z2Nat.id by lia; apply Z.lt_le_trans with (2 ^ w); [lia |]; apply Z.le_trans with (2 ^ bits I);
      [apply Z.pow_le_mono_r | apply Z.pow_le_mono_l]; lia. }
  rewrite (size_loop_digits _ _ _ 0) by assumption; unfold zlen; rewrite length_rev, Z.add_0_l; do 3 f_equal.
  apply digits_fuel; [lia | now apply tmp_size_enough].
Qed.
End Digits.

(** ** Properties *)

(** Variable-length integers, for every value of the unsigned types and
    every non-negative int: writing stays inside the buffer [tmp] of
    [(sizeof(n) * 8 + 6) / 7] bytes, takes [GetSizeOfVarInt] bytes, and reading
    gives the value back and leaves what follows. *)
Theorem varint_roundtrip (I : int_type) (w n : Z) :
  type_ok I w -> 0 <= n < 2 ^ w ->
  exists out, WriteVarInt I n = Ok out /\ bytes out /\ zlen out <= tmp_size I /\
    GetSizeOfVarInt I n = Ok (zlen out) /\
    forall rest, ReadVarInt I (out ++ rest) = Ok (n, rest).
Proof.
  intros HI Hn; destruct (writes_varint I w HI n Hn) as (out & Hp & Hb & Hg).
  pose proof (WriteVarInt_digits I w HI n Hn) as Hw.
  cbn in Hp; rewrite Hw in Hp; injection Hp as <-.
  exists (rev (digits (Z.to_nat (tmp_size I)) n 0)); split; [exact Hw |]; split; [exact Hb |].
  split; [unfold zlen; rewrite length_rev; apply (length_digits I w); now destruct HI |].
  split; [now apply (GetSizeOfVarInt_eq I w HI) | exact Hg].
Qed.

Lemma varint_roundtrip_witness :
  type_ok uint64_t 64 /\ exists out, WriteVarInt uint64_t (2 ^ 32) = Ok out /\ out = [142; 254; 254; 255; 0].
Proof.
  split; [exact uint64_ok |].
  destruct (varint_roundtrip uint64_t 64 (2 ^ 32) uint64_ok ltac:(lia)) as (out & Hw & _).
  exists out; split; [exact Hw |]; vm_compute in Hw; now injection Hw as <-.
Defined.

(** The reader does not check that the value fits: two byte strings, the second
    not a result of the writer, are read as the same 64-bit number. *)
Example varint_wraps :
  ReadVarInt uint64_t [0] = Ok (0, []) /\
  ReadVarInt uint64_t [128; 254; 254; 254; 254; 254; 254; 254; 255; 0] = Ok (0, []).
Proof. split; vm_compute; reflexivity. Qed.
