(* ===== verification/Transaction.v ===== *)
(** * Transactions

    primitives/transaction.h and transaction.cpp, the proofs of zcash/Proof.hpp
    and the amounts of amount.h: the data of a transaction, its format in every
    version (before Overwinter, Overwinter version 3, Sapling version 4), its
    identifier, its totals.  Members of fixed size are lists of bytes. *)
From S2P Require Import Prelude Endian Hashing Merkle Script Serialize.

(** ** Amounts *)

Definition COIN : Z := 100000000.

(** [MAX_MONEY] is a global that start-up sets from the chain parameters. *)
Class MoneyLimit := MAX_MONEY : Z.
Class MoneyLimitOk (M : MoneyLimit) : Prop := money_limit : 0 < MAX_MONEY < 2 ^ 62.

Definition MoneyRange `{MoneyLimit} (nValue : Z) : bool := (0 <=? nValue) && (nValue <=? MAX_MONEY).

(** ** Data *)

Record COutPoint := mkOutPoint { op_hash : uint256; op_n : Z }.

Definition outpoint_SetNull : COutPoint := mkOutPoint uint256_null UINT32_MAX.

Definition hash_IsNull (h : uint256) : bool := forallb (Z.eqb 0) h.

Definition outpoint_IsNull (o : COutPoint) : bool := hash_IsNull (op_hash o) && (op_n o =? UINT32_MAX).

#[global] Instance COutPoint_eq_dec : EqDecision COutPoint.
Proof. solve_decision. Defined.

Record CTxIn := mkTxIn { prevout : COutPoint; scriptSig : list Z; nSequence : Z }.

Definition txin_IsFinal (i : CTxIn) : bool := nSequence i =? UINT32_MAX.

Record CTxOut := mkTxOut { nValue : Z; scriptPubKey : list Z }.

#[global] Instance CTxOut_eq_dec : EqDecision CTxOut.
Proof. solve_decision. Defined.

Definition txout_SetNull : CTxOut := mkTxOut (-1) [].
Definition txout_IsNull (o : CTxOut) : bool := nValue o =? -1.

Record SpendDescription := mkSpend {
  sp_cv : uint256; sp_anchor : uint256; sp_nullifier : uint256; sp_rk : uint256;
  sp_zkproof : list Z; sp_spendAuthSig : list Z }.

Record OutputDescription := mkOutput {
  od_cv : uint256; od_cmu : uint256; od_ephemeralKey : uint256;
  od_encCiphertext : list Z; od_outCiphertext : list Z; od_zkproof : list Z }.

Record CompressedG1 := mkG1 { y_lsb : bool; g1_x : list Z }.
Record CompressedG2 := mkG2 { y_gt : bool; g2_x : list Z }.

Record PHGRProof := mkPHGR {
  g_A : CompressedG1; g_A_prime : CompressedG1; g_B : CompressedG2; g_B_prime : CompressedG1;
  g_C : CompressedG1; g_C_prime : CompressedG1; g_K : CompressedG1; g_H : CompressedG1 }.

Inductive SproutProof := PHGR (proof : PHGRProof) | Groth (proof : list Z).

Record JSDescription := mkJS {
  vpub_old : Z; vpub_new : Z; js_anchor : uint256; js_nullifiers : list uint256;
  js_commitments : list uint256; js_ephemeralKey : uint256; js_randomSeed : uint256;
  js_macs : list uint256; js_proof : SproutProof; js_ciphertexts : list (list Z) }.

Record CTransaction := mkTx {
  fOverwintered : bool; tx_nVersion : Z; nVersionGroupId : Z;
  tx_vin : list CTxIn; tx_vout : list CTxOut; nLockTime : Z; nExpiryHeight : Z;
  valueBalance : Z; vShieldedSpend : list SpendDescription; vShieldedOutput : list OutputDescription;
  vjoinsplit : list JSDescription; joinSplitPubKey : uint256; joinSplitSig : list Z;
  bindingSig : list Z }.

(** ** Formats *)

Definition c_uint256 : codec uint256 := c_flat 32.

Definition COutPoint_op : codec COutPoint :=
  hash ← READWRITE c_uint256 op_hash;
  n ← READWRITE c_uint32 op_n;
  mret (mkOutPoint hash n).

Definition CTxIn_op : codec CTxIn :=
  prevout ← READWRITE COutPoint_op prevout;
  scriptSig ← READWRITE c_vector scriptSig;
  nSequence ← READWRITE c_uint32 nSequence;
  mret (mkTxIn prevout scriptSig nSequence).

Definition CTxOut_op : codec CTxOut :=
  nValue ← READWRITE c_int64 nValue;
  scriptPubKey ← READWRITE c_vector scriptPubKey;
  mret (mkTxOut nValue scriptPubKey).

(** Arrays of bytes. *)
Definition GROTH_PROOF_SIZE : nat := 192.
Definition c_byte_array (n : nat) : codec (list Z) := c_array n c_uint8.

Definition SpendDescription_op : codec SpendDescription :=
  cv ← READWRITE c_uint256 sp_cv;
  anchor ← READWRITE c_uint256 sp_anchor;
  nullifier ← READWRITE c_uint256 sp_nullifier;
  rk ← READWRITE c_uint256 sp_rk;
  zkproof ← READWRITE (c_byte_array GROTH_PROOF_SIZE) sp_zkproof;
  spendAuthSig ← READWRITE (c_byte_array 64) sp_spendAuthSig;
  mret (mkSpend cv anchor nullifier rk zkproof spendAuthSig).

Definition ENCCIPHERTEXT_SIZE : nat := 580.
Definition OUTCIPHERTEXT_SIZE : nat := 80.

Definition OutputDescription_op : codec OutputDescription :=
  cv ← READWRITE c_uint256 od_cv;
  cmu ← READWRITE c_uint256 od_cmu;
  ephemeralKey ← READWRITE c_uint256 od_ephemeralKey;
  encCiphertext ← READWRITE (c_byte_array ENCCIPHERTEXT_SIZE) od_encCiphertext;
  outCiphertext ← READWRITE (c_byte_array OUTCIPHERTEXT_SIZE) od_outCiphertext;
  zkproof ← READWRITE (c_byte_array GROTH_PROOF_SIZE) od_zkproof;
  mret (mkOutput cv cmu ephemeralKey encCiphertext outCiphertext zkproof).

Definition G1_PREFIX_MASK : Z := 2.
Definition G2_PREFIX_MASK : Z := 10.

Definition CompressedG1_op : codec CompressedG1 :=
  leadingByte ← READWRITE c_uint8 (fun g => Z.lor G1_PREFIX_MASK (if y_lsb g then 1 else 0));
  _ ← throw_if (negb (Z.land leadingByte (-2) =? G1_PREFIX_MASK));
  x ← READWRITE (c_flat 32) g1_x;
  mret (mkG1 (Z.testbit leadingByte 0) x).

Definition CompressedG2_op : codec CompressedG2 :=
  leadingByte ← READWRITE c_uint8 (fun g => Z.lor G2_PREFIX_MASK (if y_gt g then 1 else 0));
  _ ← throw_if (negb (Z.land leadingByte (-2) =? G2_PREFIX_MASK));
  x ← READWRITE (c_flat 64) g2_x;
  mret (mkG2 (Z.testbit leadingByte 0) x).

Definition PHGRProof_op : codec PHGRProof :=
  a ← READWRITE CompressedG1_op g_A;
  a' ← READWRITE CompressedG1_op g_A_prime;
  b ← READWRITE CompressedG2_op g_B;
  b' ← READWRITE CompressedG1_op g_B_prime;
  c ← READWRITE CompressedG1_op g_C;
  c' ← READWRITE CompressedG1_op g_C_prime;
  k ← READWRITE CompressedG1_op g_K;
  h ← READWRITE CompressedG1_op g_H;
  mret (mkPHGR a a' b b' c c' k h).

(** [SerReadWriteSproutProof]: writing the wrong kind of proof throws. *)
Definition SproutProof_op (useGroth : bool) : codec SproutProof :=
  mkBi
    (fun proof =>
       match proof with
       | PHGR p =>
           if useGroth then Exn ios_failure
           else r ← put PHGRProof_op p; Ok (PHGR r.1, r.2)
       | Groth p =>
           if useGroth then r ← put (c_byte_array GROTH_PROOF_SIZE) p; Ok (Groth r.1, r.2)
           else Exn ios_failure
       end)
    (if useGroth then p ← get (c_byte_array GROTH_PROOF_SIZE); mret (Groth p)
     else p ← get PHGRProof_op; mret (PHGR p)).

Definition SAPLING_TX_VERSION : Z := 4.
Definition OVERWINTER_TX_VERSION : Z := 3.
Definition NOTE_CIPHERTEXT_SIZE : nat := 601.

(** [nVersion] is the version of the stream, an int with the bits of the
    transaction's header. *)
Definition JSDescription_op (nVersion : Z) : codec JSDescription :=
  let fOverwintered := negb (Z.shiftr nVersion 31 =? 0) in
  let txVersion := Z.land nVersion 2147483647 in
  let useGroth := fOverwintered && (SAPLING_TX_VERSION <=? txVersion) in
  old ← READWRITE c_int64 vpub_old;
  new ← READWRITE c_int64 vpub_new;
  anchor ← READWRITE c_uint256 js_anchor;
  nullifiers ← READWRITE (c_array 2 c_uint256) js_nullifiers;
  commitments ← READWRITE (c_array 2 c_uint256) js_commitments;
  ephemeralKey ← READWRITE c_uint256 js_ephemeralKey;
  randomSeed ← READWRITE c_uint256 js_randomSeed;
  macs ← READWRITE (c_array 2 c_uint256) js_macs;
  proof ← READWRITE (SproutProof_op useGroth) js_proof;
  ciphertexts ← READWRITE (c_array 2 (c_byte_array NOTE_CIPHERTEXT_SIZE)) js_ciphertexts;
  mret (mkJS old new anchor nullifiers commitments ephemeralKey randomSeed macs proof ciphertexts).

Definition OVERWINTER_VERSION_GROUP_ID : Z := 63210096.
Definition SAPLING_VERSION_GROUP_ID : Z := 2301567109.

(** [GetHeader]. *)
Definition GetHeader (tx : CTransaction) : Z :=
  let header := u32 (tx_nVersion tx) in
  if fOverwintered tx then Z.lor header 2147483648 else header.

(** The sizes in memory of the elements of the vectors, which the compiler fixes. *)
Class Layout := {
  sizeof_CTxIn : Z; sizeof_CTxOut : Z; sizeof_SpendDescription : Z;
  sizeof_OutputDescription : Z; sizeof_JSDescription : Z;
}.
Class LayoutOk (L : Layout) : Prop := {
  layout_in :: BatchSize sizeof_CTxIn;
  layout_out :: BatchSize sizeof_CTxOut;
  layout_spend :: BatchSize sizeof_SpendDescription;
  layout_output :: BatchSize sizeof_OutputDescription;
  layout_js :: BatchSize sizeof_JSDescription;
}.

(** [SerializationOp]; [old] is the object that is read into. *)
Definition CTransaction_op `{Layout} (old : CTransaction) : codec CTransaction :=
  header ← READWRITE c_uint32 GetHeader;
  fOver ← ASSIGN (negb (Z.shiftr header 31 =? 0)) fOverwintered;
  nVersion ← ASSIGN (Z.land header 2147483647) tx_nVersion;
  groupId ← (if fOver then READWRITE c_uint32 nVersionGroupId else KEEP old nVersionGroupId);
  let isOverwinterV3 := fOver && (groupId =? OVERWINTER_VERSION_GROUP_ID) && (nVersion =? OVERWINTER_TX_VERSION) in
  let isSaplingV4 := fOver && (groupId =? SAPLING_VERSION_GROUP_ID) && (nVersion =? SAPLING_TX_VERSION) in
  _ ← throw_if (fOver && negb (isOverwinterV3 || isSaplingV4));
  vin ← READWRITE (c_vec sizeof_CTxIn CTxIn_op) tx_vin;
  vout ← READWRITE (c_vec sizeof_CTxOut CTxOut_op) tx_vout;
  lock ← READWRITE c_uint32 nLockTime;
  expiry ← (if isOverwinterV3 || isSaplingV4 then READWRITE c_uint32 nExpiryHeight
            else KEEP old nExpiryHeight);
  balance ← (if isSaplingV4 then READWRITE c_int64 valueBalance else KEEP old valueBalance);
  spends ← (if isSaplingV4 then READWRITE (c_vec sizeof_SpendDescription SpendDescription_op) vShieldedSpend
            else KEEP old vShieldedSpend);
  outputs ← (if isSaplingV4 then READWRITE (c_vec sizeof_OutputDescription OutputDescription_op) vShieldedOutput
             else KEEP old vShieldedOutput);
  joinsplits ← (if 2 <=? nVersion
                then READWRITE (c_vec sizeof_JSDescription (JSDescription_op (i32 header))) vjoinsplit
                else KEEP old vjoinsplit);
  let hasJS := (2 <=? nVersion) && (0 <? zlen joinsplits) in
  pubKey ← (if hasJS then READWRITE c_uint256 joinSplitPubKey else KEEP old joinSplitPubKey);
  sig ← (if hasJS then READWRITE (c_byte_array 64) joinSplitSig else KEEP old joinSplitSig);
  binding ← (if isSaplingV4 && negb ((zlen spends =? 0) && (zlen outputs =? 0))
             then READWRITE (c_byte_array 64) bindingSig else KEEP old bindingSig);
  mret (mkTx fOver nVersion groupId vin vout lock expiry balance spends outputs joinsplits pubKey sig binding).

(** [CTransaction()] and [CMutableTransaction()]. *)
Definition new_tx : CTransaction :=
  mkTx false 1 0 [] [] 0 0 0 [] [] [] uint256_null (repeat 0 64) (repeat 0 64).

(** ** Valid objects and the laws of the formats *)

Definition outpoint_valid (o : COutPoint) : Prop := is_blob 32 (op_hash o) /\ is_u32 (op_n o).
Definition txin_valid (i : CTxIn) : Prop :=
  outpoint_valid (prevout i) /\ vector_valid (scriptSig i) /\ is_u32 (nSequence i).
Definition txout_valid (o : CTxOut) : Prop := is_i64 (nValue o) /\ vector_valid (scriptPubKey o).

Definition byte_array_valid (n : nat) : list Z -> Prop := array_valid n is_byte.

Definition spend_valid (d : SpendDescription) : Prop :=
  is_blob 32 (sp_cv d) /\ is_blob 32 (sp_anchor d) /\ is_blob 32 (sp_nullifier d) /\ is_blob 32 (sp_rk d) /\
  byte_array_valid GROTH_PROOF_SIZE (sp_zkproof d) /\ byte_array_valid 64 (sp_spendAuthSig d).

Definition output_valid (d : OutputDescription) : Prop :=
  is_blob 32 (od_cv d) /\ is_blob 32 (od_cmu d) /\ is_blob 32 (od_ephemeralKey d) /\
  byte_array_valid ENCCIPHERTEXT_SIZE (od_encCiphertext d) /\
  byte_array_valid OUTCIPHERTEXT_SIZE (od_outCiphertext d) /\ byte_array_valid GROTH_PROOF_SIZE (od_zkproof d).

Definition g1_valid (g : CompressedG1) : Prop := is_blob 32 (g1_x g).
Definition g2_valid (g : CompressedG2) : Prop := is_blob 64 (g2_x g).

Definition phgr_valid (p : PHGRProof) : Prop :=
  g1_valid (g_A p) /\ g1_valid (g_A_prime p) /\ g2_valid (g_B p) /\ g1_valid (g_B_prime p) /\
  g1_valid (g_C p) /\ g1_valid (g_C_prime p) /\ g1_valid (g_K p) /\ g1_valid (g_H p).

Definition proof_valid (useGroth : bool) (p : SproutProof) : Prop :=
  match p with
  | PHGR p => useGroth = false /\ phgr_valid p
  | Groth p => useGroth = true /\ byte_array_valid GROTH_PROOF_SIZE p
  end.

(** Closes the writing half of a record's format, then the reading half. *)
Ltac codec_writes_record := let x := fresh in intros x ?; destruct_and?; writes_steps.

Ltac codec_reads_record :=
  let i := fresh in let x := fresh in let rest := fresh in let Hb := fresh in let Hg := fresh in
  intros i x rest Hb Hg; get_steps Hg;
  split; [repeat match goal with |- _ /\ _ => split end; try assumption; try reflexivity | eexists; split; [put_steps | now rewrite ?app_nil_r, <- ?app_assoc]].

#[global] Instance Codec_uint256 : Codec (is_blob 32) c_uint256.
Proof. unfold c_uint256; typeclasses eauto. Qed.

#[global] Instance Codec_byte_array n : Codec (byte_array_valid n) (c_byte_array n).
Proof. unfold byte_array_valid, c_byte_array; typeclasses eauto. Qed.

#[global] Instance Codec_COutPoint : Codec outpoint_valid COutPoint_op.
Proof. split; unfold COutPoint_op, outpoint_valid; [codec_writes_record | codec_reads_record]. Qed.

#[global] Instance Codec_CTxIn : Codec txin_valid CTxIn_op.
Proof. split; unfold CTxIn_op, txin_valid; [codec_writes_record | codec_reads_record]. Qed.

#[global] Instance Codec_CTxOut : Codec txout_valid CTxOut_op.
Proof. split; unfold CTxOut_op, txout_valid; [codec_writes_record | codec_reads_record]. Qed.

#[global] Instance Codec_SpendDescription : Codec spend_valid SpendDescription_op.
Proof. split; unfold SpendDescription_op, spend_valid; [codec_writes_record | codec_reads_record]. Qed.

#[global] Instance Codec_OutputDescription : Codec output_valid OutputDescription_op.
Proof. split; unfold OutputDescription_op, output_valid; [codec_writes_record | codec_reads_record]. Qed.

(** The prefix byte of a compressed point and its bit 0 determine each other. *)
Lemma prefix_byte mask (b : bool) :
  mask = 2 \/ mask = 10 ->
  let lead := Z.lor mask (if b then 1 else 0) in
  is_byte lead /\ negb (Z.land lead (-2) =? mask) = false /\ Z.testbit lead 0 = b.
Proof. unfold is_byte; intros [-> | ->]; destruct b; repeat split; vm_compute; congruence. Qed.

Lemma prefix_byte_inv mask lead :
  mask = 2 \/ mask = 10 -> is_byte lead -> negb (Z.land lead (-2) =? mask) = false ->
  Z.lor mask (if Z.testbit lead 0 then 1 else 0) = lead.
Proof.
  intros Hm Hb E; apply negb_false_iff, Z.eqb_eq in E; subst mask; clear Hm.
  apply Z.bits_inj'; intros k Hk; rewrite Z.lor_spec, Z.land_spec.
  destruct (Z.eq_dec k 0) as [-> | Hk0].
  - destruct (Z.testbit lead 0); reflexivity.
  - assert (Z.testbit (-2) k = true) as ->.
    { change (-2) with (Z.lnot 1); rewrite Z.lnot_spec by lia; change 1 with (2 ^ 0).
      now rewrite Z.pow2_bits_false by lia. }
    rewrite andb_true_r; destruct (Z.testbit lead 0); rewrite ?Z.bits_0, ?orb_false_r; [| reflexivity].
    change 1 with (2 ^ 0); rewrite Z.pow2_bits_false by lia; apply orb_false_r.
Qed.

#[global] Instance Codec_CompressedG1 : Codec g1_valid CompressedG1_op.
Proof.
  split; unfold CompressedG1_op, g1_valid.
  - intros [y x] Hx; destruct (prefix_byte G1_PREFIX_MASK y) as (Hb & Hm & Ht); [now left |].
    eapply writes_bind; [eapply (writes_READWRITE is_byte); [typeclasses eauto | exact Hb] |]; cbv beta.
    eapply writes_bind; [apply writes_throw_if, Hm |]; cbv beta.
    eapply writes_bind; [eapply writes_READWRITE; [typeclasses eauto | exact Hx] |]; cbv beta.
    cbn [y_lsb g1_x]; rewrite Ht; apply writes_ret.
  - intros i g rest Hb Hg; get_steps Hg; split; [assumption |].
    pose proof (prefix_byte_inv G1_PREFIX_MASK m (or_introl eq_refl) Hv E) as El.
    eexists; split.
    + eapply put_bind; [apply Hput, El |]; put_steps.
    + now rewrite app_nil_r, <- app_assoc.
Qed.

#[global] Instance Codec_CompressedG2 : Codec g2_valid CompressedG2_op.
Proof.
  split; unfold CompressedG2_op, g2_valid.
  - intros [y x] Hx; destruct (prefix_byte G2_PREFIX_MASK y) as (Hb & Hm & Ht); [now right |].
    eapply writes_bind; [eapply (writes_READWRITE is_byte); [typeclasses eauto | exact Hb] |]; cbv beta.
    eapply writes_bind; [apply writes_throw_if, Hm |]; cbv beta.
    eapply writes_bind; [eapply writes_READWRITE; [typeclasses eauto | exact Hx] |]; cbv beta.
    cbn [y_gt g2_x]; rewrite Ht; apply writes_ret.
  - intros i g rest Hb Hg; get_steps Hg; split; [assumption |].
    pose proof (prefix_byte_inv G2_PREFIX_MASK m (or_intror eq_refl) Hv E) as El.
    eexists; split.
    + eapply put_bind; [apply Hput, El |]; put_steps.
    + now rewrite app_nil_r, <- app_assoc.
Qed.

#[global] Instance Codec_PHGRProof : Codec phgr_valid PHGRProof_op.
Proof. split; unfold PHGRProof_op, phgr_valid; [codec_writes_record | codec_reads_record]. Qed.

#[global] Instance Codec_SproutProof useGroth : Codec (proof_valid useGroth) (SproutProof_op useGroth).
Proof.
  split.
  - intros [p | p] [-> Hp];
      [destruct (codec_writes (c := PHGRProof_op) p Hp) as (o & Ep & Hb & Hg)
      | destruct (codec_writes (c := c_byte_array GROTH_PROOF_SIZE) p Hp) as (o & Ep & Hb & Hg)];
      (exists o; split; [cbn [put SproutProof_op]; now rewrite Ep |]; split; [assumption |]);
      intros rest; cbn [get SproutProof_op]; rewrite reader_bind_eq, Hg; reflexivity.
  - intros i p rest Hb; cbn [get SproutProof_op]; destruct useGroth; rewrite reader_bind_eq.
    + destruct (get (c_byte_array GROTH_PROOF_SIZE) i) as [[q i1] | |] eqn:Eg; [| discriminate..].
      intros [= <- <-]; apply codec_reads in Eg as (Hv & o & Ep & ->); [| assumption].
      split; [now split |]; exists o; split; [cbn [put SproutProof_op]; now rewrite Ep | reflexivity].
    + destruct (get PHGRProof_op i) as [[q i1] | |] eqn:Eg; [| discriminate..].
      intros [= <- <-]; apply codec_reads in Eg as (Hv & o & Ep & ->); [| assumption].
      split; [now split |]; exists o; split; [cbn [put SproutProof_op]; now rewrite Ep | reflexivity].
Qed.

Definition use_groth (nVersion : Z) : bool :=
  negb (Z.shiftr nVersion 31 =? 0) && (SAPLING_TX_VERSION <=? Z.land nVersion 2147483647).

Definition js_valid (nVersion : Z) (d : JSDescription) : Prop :=
  is_i64 (vpub_old d) /\ is_i64 (vpub_new d) /\ is_blob 32 (js_anchor d) /\
  array_valid 2 (is_blob 32) (js_nullifiers d) /\ array_valid 2 (is_blob 32) (js_commitments d) /\
  is_blob 32 (js_ephemeralKey d) /\ is_blob 32 (js_randomSeed d) /\ array_valid 2 (is_blob 32) (js_macs d) /\
  proof_valid (use_groth nVersion) (js_proof d) /\
  array_valid 2 (byte_array_valid NOTE_CIPHERTEXT_SIZE) (js_ciphertexts d).

#[global] Instance Codec_JSDescription nVersion : Codec (js_valid nVersion) (JSDescription_op nVersion).
Proof.
  split; unfold JSDescription_op, js_valid; fold (use_groth nVersion);
    [codec_writes_record | codec_reads_record].
Qed.

(** ** The format of a transaction *)

(** The header of a transaction with a version that fits in 31 bits. *)
Definition header_of (fOver : bool) (nVersion : Z) : Z :=
  if fOver then Z.lor (u32 nVersion) 2147483648 else u32 nVersion.

Lemma header_of_sum fOver v :
  0 <= v < 2 ^ 31 -> header_of fOver v = v + (if fOver then 1 else 0) * 2 ^ 31.
Proof.
  intros Hv; unfold header_of; rewrite uwrap_small by lia.
  destruct fOver; [| lia]; change 2147483648 with (Z.shiftl 1 31); now apply lor_shiftl_add.
Qed.

Lemma header_of_split fOver v :
  0 <= v < 2 ^ 31 ->
  is_u32 (header_of fOver v) /\ negb (Z.shiftr (header_of fOver v) 31 =? 0) = fOver /\
  Z.land (header_of fOver v) 2147483647 = v.
Proof.
  intros Hv; rewrite header_of_sum by assumption; split; [unfold is_u32; destruct fOver; lia |].
  change 2147483647 with (2 ^ 31 - 1); rewrite land_mask_mod, Z.shiftr_div_pow2 by lia.
  rewrite Z.div_add, Z.mod_add, Z.div_small, Z.mod_small by lia; destruct fOver; auto.
Qed.

Lemma header_of_join h :
  is_u32 h -> 0 <= Z.land h 2147483647 < 2 ^ 31 /\
  header_of (negb (Z.shiftr h 31 =? 0)) (Z.land h 2147483647) = h.
Proof.
  intros Hh; unfold is_u32 in Hh; change 2147483647 with (2 ^ 31 - 1).
  rewrite land_mask_mod, Z.shiftr_div_pow2 by lia.
  pose proof (Z.mod_pos_bound h (2 ^ 31) ltac:(lia)); split; [assumption |].
  rewrite header_of_sum by assumption; pose proof (Z.div_mod h (2 ^ 31) ltac:(lia)).
  assert (h / 2 ^ 31 = 0 \/ h / 2 ^ 31 = 1) as [E | E].
  { assert (0 <= h / 2 ^ 31 < 2); [| lia].
    split; [apply Z.div_pos; lia | apply Z.div_lt_upper_bound; lia]. }
  - rewrite E; cbn [Z.eqb negb]; lia.
  - rewrite E; cbn [Z.eqb negb]; lia.
Qed.

(** The versions of the format. *)
Definition isOverwinterV3 (tx : CTransaction) : bool :=
  fOverwintered tx && (nVersionGroupId tx =? OVERWINTER_VERSION_GROUP_ID)
  && (tx_nVersion tx =? OVERWINTER_TX_VERSION).
Definition isSaplingV4 (tx : CTransaction) : bool :=
  fOverwintered tx && (nVersionGroupId tx =? SAPLING_VERSION_GROUP_ID)
  && (tx_nVersion tx =? SAPLING_TX_VERSION).
Definition hasJoinSplits (tx : CTransaction) : bool := (2 <=? tx_nVersion tx) && (0 <? zlen (vjoinsplit tx)).
Definition hasBindingSig (tx : CTransaction) : bool :=
  isSaplingV4 tx && negb ((zlen (vShieldedSpend tx) =? 0) && (zlen (vShieldedOutput tx) =? 0)).

(** What the format can carry: values in range, and outside the version's
    members the values of the object that is read into. *)
Record tx_valid (old tx : CTransaction) : Prop := {
  tv_version : 0 <= tx_nVersion tx < 2 ^ 31;
  tv_group : if fOverwintered tx then is_u32 (nVersionGroupId tx)
             else nVersionGroupId tx = nVersionGroupId old;
  tv_known : fOverwintered tx && negb (isOverwinterV3 tx || isSaplingV4 tx) = false;
  tv_vin : vec_valid txin_valid (tx_vin tx);
  tv_vout : vec_valid txout_valid (tx_vout tx);
  tv_lock : is_u32 (nLockTime tx);
  tv_expiry : if isOverwinterV3 tx || isSaplingV4 tx then is_u32 (nExpiryHeight tx)
              else nExpiryHeight tx = nExpiryHeight old;
  tv_balance : if isSaplingV4 tx then is_i64 (valueBalance tx) else valueBalance tx = valueBalance old;
  tv_spends : if isSaplingV4 tx then vec_valid spend_valid (vShieldedSpend tx)
              else vShieldedSpend tx = vShieldedSpend old;
  tv_outputs : if isSaplingV4 tx then vec_valid output_valid (vShieldedOutput tx)
               else vShieldedOutput tx = vShieldedOutput old;
  tv_js : if 2 <=? tx_nVersion tx then vec_valid (js_valid (i32 (GetHeader tx))) (vjoinsplit tx)
          else vjoinsplit tx = vjoinsplit old;
  tv_pub : if hasJoinSplits tx then is_blob 32 (joinSplitPubKey tx)
           else joinSplitPubKey tx = joinSplitPubKey old;
  tv_sig : if hasJoinSplits tx then byte_array_valid 64 (joinSplitSig tx)
           else joinSplitSig tx = joinSplitSig old;
  tv_binding : if hasBindingSig tx then byte_array_valid 64 (bindingSig tx)
               else bindingSig tx = bindingSig old;
}.

(** A member that only some versions have. *)
Section Conditional.
Context {S A : Type} (valid : A -> Prop) (c : codec A) `{!Codec valid c}.

Lemma writes_cond (b : bool) (old : S) (member : S -> A) s :
  (if b then valid (member s) else member s = member old) ->
  writes (if b then READWRITE c member else KEEP old member) s (member s).
Proof. destruct b; intros Hm; [now apply (writes_READWRITE valid) | now apply writes_ASSIGN]. Qed.

Lemma get_cond_inv (b : bool) (old : S) (member : S -> A) i a i1 :
  bytes i -> get (if b then READWRITE c member else KEEP old member) i = Ok (a, i1) ->
  (if b then valid a else a = member old) /\
  exists out, i = out ++ i1 /\ bytes i1 /\
    forall s, member s = a -> put (if b then READWRITE c member else KEEP old member) s = Ok (a, out).
Proof.
  intros Hb Hg; destruct b.
  - now apply (get_READWRITE_inv valid) in Hg.
  - apply get_ASSIGN_inv in Hg as (-> & -> & P); split; [reflexivity |]; exists []; auto.
Qed.
End Conditional.

Ltac cond_step := eapply writes_bind; [eapply writes_cond; [typeclasses eauto | assumption] |]; cbv beta.

Ltac get_cond_step H :=
  let a := fresh "m" in let i1 := fresh "i" in let H1 := fresh "Hg" in
  let Hv := fresh "Hv" in let o := fresh "out" in let E := fresh "E" in
  let Hb := fresh "Hb" in let P := fresh "Hput" in
  apply get_bind_inv in H as (a & i1 & H1 & H); cbv beta in H;
  eapply get_cond_inv in H1 as (Hv & o & E & Hb & P); [| typeclasses eauto | eassumption]; subst.

#[global] Instance Codec_CTransaction `{LayoutOk} old : Codec (tx_valid old) (CTransaction_op old).
Proof.
  split.
  - intros tx []; unfold CTransaction_op.
    destruct (header_of_split (fOverwintered tx) (tx_nVersion tx)) as (Hh & Ho & Hn); [assumption |].
    change (header_of _ _) with (GetHeader tx) in Hh, Ho, Hn.
    eapply writes_bind; [eapply (writes_READWRITE is_u32); [typeclasses eauto | exact Hh] |]; cbv beta.
    eapply writes_bind; [now apply writes_ASSIGN |]; cbv beta.
    eapply writes_bind; [now apply writes_ASSIGN |]; cbv beta.
    cond_step; eapply writes_bind; [apply writes_throw_if; assumption |]; cbv beta.
    do 3 (eapply writes_bind; [eapply writes_READWRITE; [typeclasses eauto | assumption] |]; cbv beta).
    do 8 cond_step; destruct tx; apply writes_ret.
  - intros i tx rest Hb Hg; unfold CTransaction_op in Hg; do 3 get_step Hg.
    get_cond_step Hg; do 4 get_step Hg; do 8 get_cond_step Hg; apply get_ret_inv in Hg as [-> ->].
    destruct (header_of_join m Hv) as [Hr Hj].
    split; [constructor; cbn [fOverwintered tx_nVersion nVersionGroupId tx_vin tx_vout nLockTime nExpiryHeight
      valueBalance vShieldedSpend vShieldedOutput vjoinsplit joinSplitPubKey joinSplitSig bindingSig]; try assumption |].
    { unfold GetHeader; cbn [fOverwintered tx_nVersion]; fold (header_of (negb (Z.shiftr m 31 =? 0)) (Z.land m 2147483647)).
      rewrite Hj; assumption. }
    eexists; split; [unfold CTransaction_op; eapply put_bind; [apply Hput; exact Hj |]; put_steps |].
    rewrite ?app_nil_r, <- ?app_assoc; reflexivity.
Qed.

(** ** Identifiers, totals, kinds *)

Definition tx_Serialize `{Layout} (tx : CTransaction) : res unit (list Z) :=
  r ← put (CTransaction_op new_tx) tx; Ok r.2.

(** Reading into a new object. *)
Definition tx_Unserialize `{Layout} : reader CTransaction := get (CTransaction_op new_tx).

(** [SerializeHash(tx)]: the cached [hash] after [UpdateHash]. *)
Definition tx_GetHash `{Layout} `{HashFunctions} (tx : CTransaction) : res unit uint256 :=
  data ← tx_Serialize tx; Ok (Hash data).

Definition IsCoinBase (tx : CTransaction) : bool :=
  match tx_vin tx with [i] => outpoint_IsNull (prevout i) | _ => false end.

(** The outpoint index 10e8 marks an import. *)
Definition IsCoinImport (tx : CTransaction) : bool :=
  match tx_vin tx with [i] => op_n (prevout i) =? 1000000000 | _ => false end.

Definition IsMint (tx : CTransaction) : bool := IsCoinImport tx || IsCoinBase tx.

Section Totals.
Context `{MoneyLimit}.

(** Adds an amount to a total; both must be in range. *)
Definition add_in_range {E} (total amount : Z) : res E Z :=
  let total := i64 (total + amount) in
  if negb (MoneyRange amount) || negb (MoneyRange total) then Exn runtime_error else Ok total.

Fixpoint sum_in_range {E} (total : Z) (l : list Z) : res E Z :=
  match l with
  | [] => Ok total
  | x :: l => t ← add_in_range total x; sum_in_range t l
  end.

Definition GetValueOut {E} (tx : CTransaction) : res E Z :=
  nValueOut ← sum_in_range 0 (map nValue (tx_vout tx));
  nValueOut ← (if valueBalance tx <=? 0 then add_in_range nValueOut (i64 (- valueBalance tx))
               else Ok nValueOut);
  sum_in_range nValueOut (map vpub_old (vjoinsplit tx)).

Definition GetShieldedValueIn {E} (tx : CTransaction) : res E Z :=
  nValue ← (if 0 <=? valueBalance tx then add_in_range 0 (valueBalance tx) else Ok 0);
  sum_in_range nValue (map vpub_new (vjoinsplit tx)).

Lemma MoneyRange_iff x : MoneyRange x = true <-> 0 <= x <= MAX_MONEY.
Proof. unfold MoneyRange; rewrite andb_true_iff, !Z.leb_le; reflexivity. Qed.

Definition zsum (l : list Z) : Z := fold_right Z.add 0 l.

(** An accumulation in range succeeds exactly when every amount and every
    partial sum is in range, and then it is the exact sum. *)
Lemma add_in_range_ok {E} `{!MoneyLimitOk _} t x r :
  0 <= t <= MAX_MONEY -> is_i64 x ->
  add_in_range (E := E) t x = Ok r <-> 0 <= x /\ t + x <= MAX_MONEY /\ r = t + x.
Proof.
  intros Ht Hx; pose proof money_limit as Hm; unfold add_in_range, is_i64 in *; split.
  - destruct (MoneyRange x) eqn:Ex; cbn [negb orb]; [| discriminate].
    apply MoneyRange_iff in Ex; rewrite swrap_small by lia.
    destruct (MoneyRange (t + x)) eqn:Er; cbn [negb]; [| discriminate].
    apply MoneyRange_iff in Er; intros [= <-]; lia.
  - intros (H0 & Hs & ->); rewrite swrap_small by lia.
    assert (MoneyRange x = true) as -> by (apply MoneyRange_iff; lia).
    now assert (MoneyRange (t + x) = true) as -> by (apply MoneyRange_iff; lia).
Qed.

Lemma sum_in_range_ok {E} `{!MoneyLimitOk _} l : forall t r,
  0 <= t <= MAX_MONEY -> Forall is_i64 l ->
  sum_in_range (E := E) t l = Ok r <-> Forall (fun x => 0 <= x) l /\ t + zsum l <= MAX_MONEY /\ r = t + zsum l.
Proof.
  induction l as [| x l IH]; intros t r Ht Hl; cbn [sum_in_range zsum fold_right].
  { split; [intros [= <-]; repeat split; [constructor | lia..] | intros (_ & _ & ->); f_equal; lia]. }
  apply Forall_cons_1 in Hl as [Hx Hl]; unfold mbind, res_bind; split.
  - destruct (add_in_range (E := E) t x) as [s | |] eqn:Es; [| discriminate..].
    apply add_in_range_ok in Es as (H0 & Hs & ->); [| assumption..].
    intros Hr; apply IH in Hr as (Hp & Hq & ->); [| lia | assumption].
    unfold zsum in *; repeat split; [now constructor | lia..].
  - intros (Hp & Hq & ->); apply Forall_cons_1 in Hp as [H0 Hp].
    assert (Hn : 0 <= zsum l) by (clear -Hp; unfold zsum; induction Hp; cbn; lia); unfold zsum in *.
    rewrite (proj2 (add_in_range_ok t x (t + x) Ht Hx)) by lia.
    apply IH; [lia | assumption |]; repeat split; [assumption | lia..].
Qed.
End Totals.

(** The converting constructors: copying, and the moving one, whose member list
    does not have [bindingSig]. *)
Definition CTransaction_copy (tx : CTransaction) : CTransaction := tx.
Definition CTransaction_move (tx : CTransaction) : CTransaction :=
  mkTx (fOverwintered tx) (tx_nVersion tx) (nVersionGroupId tx) (tx_vin tx) (tx_vout tx) (nLockTime tx)
    (nExpiryHeight tx) (valueBalance tx) (vShieldedSpend tx) (vShieldedOutput tx) (vjoinsplit tx)
    (joinSplitPubKey tx) (joinSplitSig tx) (repeat 0 64).

(** [CTransaction(deserialize, s)]. *)
Definition CTransaction_deserialize `{Layout} : reader CTransaction :=
  tx ← tx_Unserialize; mret (CTransaction_move tx).

(** One input's share in [CalculateModifiedSize]. *)
Definition modified_size_step (nTxSize : Z) (i : CTxIn) : Z :=
  let offset := 41 + Z.min 110 (u32 (zlen (scriptSig i))) in
  if offset <? nTxSize then nTxSize - offset else nTxSize.

Definition CalculateModifiedSize `{Layout} (tx : CTransaction) (nTxSize : Z) : res unit Z :=
  nTxSize ← (if nTxSize =? 0 then d ← tx_Serialize tx; Ok (u32 (zlen d)) else Ok nTxSize);
  Ok (fold_left modified_size_step (tx_vin tx) nTxSize).
