(* ===== verification/TransactionSpec.v ===== *)
(** * Properties of transactions

    The format of a transaction is a bijection between the transactions it can
    carry and the byte strings the reader accepts, so the identifier commits to
    the whole transaction; totals are exact sums or a rejection. *)
From S2P Require Import Prelude Endian Hashing Merkle Script Serialize Transaction.

Lemma tx_put_eq `{LayoutOk} tx out :
  tx_Serialize tx = Ok out -> exists t, put (CTransaction_op new_tx) tx = Ok (t, out).
Proof.
  unfold tx_Serialize, mbind, res_bind; destruct (put _ tx) as [[t o] | |]; [| discriminate..].
  intros [= <-]; now exists t.
Qed.

(** The amount a transaction takes from the transparent pool, and the amount
    its shielded parts give to it. *)
Definition value_out (tx : CTransaction) : Z :=
  zsum (map nValue (tx_vout tx)) + Z.max 0 (- valueBalance tx) + zsum (map vpub_old (vjoinsplit tx)).
Definition shielded_value_in (tx : CTransaction) : Z :=
  Z.max 0 (valueBalance tx) + zsum (map vpub_new (vjoinsplit tx)).

(** Machine amounts. *)
Definition amounts_valid (tx : CTransaction) : Prop :=
  Forall is_i64 (map nValue (tx_vout tx)) /\ is_i64 (valueBalance tx) /\
  Forall is_i64 (map vpub_old (vjoinsplit tx)) /\ Forall is_i64 (map vpub_new (vjoinsplit tx)).

Lemma zsum_nonneg l : Forall (fun x => 0 <= x) l -> 0 <= zsum l.
Proof. unfold zsum; induction 1; cbn; lia. Qed.

Section Totals.
Context `{MoneyLimit} `{!MoneyLimitOk _}.

(** The negation of an amount, as the code adds it. *)
Lemma add_neg_ok {E} t x r :
  0 <= t <= MAX_MONEY -> is_i64 x -> x <= 0 ->
  add_in_range (E := E) t (i64 (- x)) = Ok r <-> t - x <= MAX_MONEY /\ r = t - x.
Proof.
  intros Ht Hx Hn; pose proof money_limit as Hm; unfold is_i64 in Hx.
  rewrite add_in_range_ok; [| assumption | apply (swrap_range 64); lia].
  destruct (Z.eq_dec x (- 2 ^ 63)) as [-> |]; [change (i64 (- - 2 ^ 63)) with (- 2 ^ 63); lia |].
  rewrite swrap_small by lia; split; lia.
Qed.

Lemma GetValueOut_ok {E} tx r :
  amounts_valid tx ->
  GetValueOut (E := E) tx = Ok r <->
  Forall (fun x => 0 <= x) (map nValue (tx_vout tx)) /\
  Forall (fun x => 0 <= x) (map vpub_old (vjoinsplit tx)) /\
  value_out tx <= MAX_MONEY /\ r = value_out tx.
Proof.
  intros (Hv & Hb & Ho & _); pose proof money_limit as Hm; unfold GetValueOut, value_out, mbind, res_bind; split.
  - destruct (sum_in_range (E := E) 0 (map nValue (tx_vout tx))) as [s | |] eqn:Es; [| discriminate..].
    apply sum_in_range_ok in Es as (Hp & Hs & ->); [| lia | assumption].
    pose proof (zsum_nonneg _ Hp); destruct (Z.leb_spec (valueBalance tx) 0) as [Hn | Hn].
    + destruct (add_in_range (E := E) _ (i64 (- valueBalance tx))) as [s | |] eqn:Ea; [| discriminate..].
      apply add_neg_ok in Ea as (Ha & ->); [| lia | assumption..].
      intros Er; apply sum_in_range_ok in Er as (Hq & Hr & ->); [| lia | assumption]; repeat split; auto; lia.
    + intros Er; apply sum_in_range_ok in Er as (Hq & Hr & ->); [| lia | assumption]; repeat split; auto; lia.
  - intros (Hp & Hq & Hr & ->); pose proof (zsum_nonneg _ Hp); pose proof (zsum_nonneg _ Hq).
    assert (sum_in_range (E := E) 0 (map nValue (tx_vout tx)) = Ok (0 + zsum (map nValue (tx_vout tx)))) as ->
      by (apply sum_in_range_ok; [lia | assumption |]; repeat split; auto; lia).
    destruct (Z.leb_spec (valueBalance tx) 0) as [Hn | Hn].
    + assert (add_in_range (E := E) (0 + zsum (map nValue (tx_vout tx))) (i64 (- valueBalance tx)) =
        Ok (0 + zsum (map nValue (tx_vout tx)) - valueBalance tx)) as ->
        by (apply add_neg_ok; [lia | assumption.. |]; split; [lia | reflexivity]).
      apply sum_in_range_ok; [lia | assumption |]; repeat split; auto; lia.
    + apply sum_in_range_ok; [lia | assumption |]; repeat split; auto; lia.
Qed.

Lemma GetShieldedValueIn_ok {E} tx r :
  amounts_valid tx ->
  GetShieldedValueIn (E := E) tx = Ok r <->
  Forall (fun x => 0 <= x) (map vpub_new (vjoinsplit tx)) /\
  shielded_value_in tx <= MAX_MONEY /\ r = shielded_value_in tx.
Proof.
  intros (_ & Hb & _ & Hv); pose proof money_limit as Hm.
  unfold GetShieldedValueIn, shielded_value_in, mbind, res_bind; split.
  - destruct (Z.leb_spec 0 (valueBalance tx)) as [Hn | Hn].
    + destruct (add_in_range (E := E) 0 (valueBalance tx)) as [s | |] eqn:Ea; [| discriminate..].
      apply add_in_range_ok in Ea as (_ & Ha & ->); [| lia | assumption].
      intros Er; apply sum_in_range_ok in Er as (Hq & Hr & ->); [| lia | assumption]; repeat split; auto; lia.
    + intros Er; apply sum_in_range_ok in Er as (Hq & Hr & ->); [| lia | assumption]; repeat split; auto; lia.
  - intros (Hq & Hr & ->); pose proof (zsum_nonneg _ Hq); destruct (Z.leb_spec 0 (valueBalance tx)) as [Hn | Hn].
    + assert (add_in_range (E := E) 0 (valueBalance tx) = Ok (0 + valueBalance tx)) as ->
        by (apply add_in_range_ok; [lia | assumption |]; lia).
      apply sum_in_range_ok; [lia | assumption |]; repeat split; auto; lia.
    + apply sum_in_range_ok; [lia | assumption |]; repeat split; auto; lia.
Qed.
End Totals.

(** ** Properties *)

(** C24: the transaction format is a bijection.  Every transaction whose members
    are in range is written, in every version of the format, and reading the
    bytes, whatever follows them, gives it back; and any byte string that the
    reader accepts is exactly the encoding of the transaction it returns, so no
    transaction has two encodings. *)
Theorem tx_format_bijective `{LayoutOk} (tx : CTransaction) (i rest : list Z) :
  (tx_valid new_tx tx ->
   exists out, tx_Serialize tx = Ok out /\ bytes out /\
     forall more, tx_Unserialize (out ++ more) = Ok (tx, more)) /\
  (bytes i -> tx_Unserialize i = Ok (tx, rest) ->
   tx_valid new_tx tx /\ exists out, tx_Serialize tx = Ok out /\ i = out ++ rest).
Proof.
  split.
  - intros Hv; destruct (codec_writes (c := CTransaction_op new_tx) tx Hv) as (out & Hp & Hb & Hg).
    exists out; unfold tx_Serialize; rewrite Hp; auto.
  - intros Hb Hg; destruct (codec_reads (c := CTransaction_op new_tx) i tx rest Hb Hg) as (Hv & out & Hp & ->).
    split; [exact Hv |]; exists out; unfold tx_Serialize; now rewrite Hp.
Qed.

(** A transaction identifier commits to the whole transaction: two valid
    transactions with the same identifier are the same, or their encodings are
    different byte strings with the same double SHA-256 hash. *)
Theorem txid_binding `{LayoutOk} `{HashFunctions} (tx1 tx2 : CTransaction) (h : uint256) :
  tx_valid new_tx tx1 -> tx_valid new_tx tx2 -> tx_GetHash tx1 = Ok h -> tx_GetHash tx2 = Ok h ->
  tx1 = tx2 \/
  exists d1 d2, tx_Serialize tx1 = Ok d1 /\ tx_Serialize tx2 = Ok d2 /\ d1 <> d2 /\ Hash d1 = Hash d2.
Proof.
  intros V1 V2; unfold tx_GetHash, mbind, res_bind.
  destruct (tx_Serialize tx1) as [d1 | |] eqn:S1; [| discriminate..].
  destruct (tx_Serialize tx2) as [d2 | |] eqn:S2; [| discriminate..]; intros [= E1] [= E2].
  destruct (decide (d1 = d2)) as [-> | Hne]; [left | right; exists d1, d2; repeat split; auto; congruence].
  destruct (codec_writes (c := CTransaction_op new_tx) tx1 V1) as (o1 & P1 & _ & G1).
  destruct (codec_writes (c := CTransaction_op new_tx) tx2 V2) as (o2 & P2 & _ & G2).
  unfold tx_Serialize in S1, S2; rewrite P1 in S1; rewrite P2 in S2.
  injection S1 as ->; injection S2 as ->; specialize (G1 []); specialize (G2 []); congruence.
Qed.

(** The bytes that are hashed for a transaction. *)
Definition tx_bytes `{Layout} (tx : CTransaction) : list Z :=
  match tx_Serialize tx with Ok d => d | _ => [] end.

Lemma txid_injective `{LayoutOk} `{HashFunctions} (inputs : list (list Z)) (tx1 tx2 : CTransaction) (h : uint256) :
  collision_free inputs -> tx_bytes tx1 ∈ inputs -> tx_bytes tx2 ∈ inputs ->
  tx_valid new_tx tx1 -> tx_valid new_tx tx2 -> tx_GetHash tx1 = Ok h -> tx_GetHash tx2 = Ok h -> tx1 = tx2.
Proof.
  unfold tx_bytes; intros Hf I1 I2 V1 V2 T1 T2.
  destruct (txid_binding tx1 tx2 h V1 V2 T1 T2) as [| (d1 & d2 & S1 & S2 & Hne & E)]; [assumption |].
  rewrite S1 in I1; rewrite S2 in I2; destruct Hne; exact (Hf _ _ I1 I2 E).
Qed.

(** The totals of a transaction are exact.  [GetValueOut] returns a value
    exactly when every output and every join-split input is non-negative and
    the total, the negated value balance included, does not exceed [MAX_MONEY],
    and it is that total; likewise [GetShieldedValueIn].  No 64-bit addition
    wraps, even on the extreme amounts a transaction can carry. *)
Theorem tx_totals_exact `{MoneyLimit} `{!MoneyLimitOk _} (tx : CTransaction) (r : Z) :
  amounts_valid tx ->
  (GetValueOut (E := unit) tx = Ok r <->
     Forall (fun x => 0 <= x) (map nValue (tx_vout tx)) /\
     Forall (fun x => 0 <= x) (map vpub_old (vjoinsplit tx)) /\
     value_out tx <= MAX_MONEY /\ r = value_out tx) /\
  (GetShieldedValueIn (E := unit) tx = Ok r <->
     Forall (fun x => 0 <= x) (map vpub_new (vjoinsplit tx)) /\
     shielded_value_in tx <= MAX_MONEY /\ r = shielded_value_in tx).
Proof. intros Ha; split; [now apply GetValueOut_ok | now apply GetShieldedValueIn_ok]. Qed.

(** ** A concrete transaction *)

Module Example_tx.
#[global] Instance layout : Layout := {|
  sizeof_CTxIn := 104; sizeof_CTxOut := 48; sizeof_SpendDescription := 384;
  sizeof_OutputDescription := 948; sizeof_JSDescription := 1824 |}.
#[global] Instance layout_ok : LayoutOk layout.
Proof. split; unfold BatchSize; cbn; lia. Qed.

#[global] Instance limit : MoneyLimit := 20000000000000000.
#[global] Instance limit_ok : MoneyLimitOk limit.
Proof. unfold MoneyLimitOk, MAX_MONEY, limit; lia. Qed.

(** A Sapling transaction with a transparent input, a transparent output and a
    shielded output. *)
Definition output : OutputDescription :=
  mkOutput (repeat 1 32) (repeat 2 32) (repeat 3 32) (repeat 4 580) (repeat 5 80) (repeat 6 192).
Definition tx : CTransaction :=
  mkTx true 4 SAPLING_VERSION_GROUP_ID [mkTxIn (mkOutPoint (repeat 7 32) 1) [81; 82] UINT32_MAX]
    [mkTxOut 1000 [118; 169]] 0 200 (-500) [] [output] [] uint256_null (repeat 0 64) (repeat 8 64).

Lemma bytes_repeat b n : is_byte b -> bytes (repeat b n).
Proof. intros Hb; induction n; cbn; now constructor. Qed.

Lemma blob_repeat b n : is_byte b -> is_blob (Z.of_nat n) (repeat b n).
Proof. intros Hb; split; [now apply bytes_repeat | unfold zlen; now rewrite repeat_length]. Qed.

Lemma array_repeat b n : is_byte b -> byte_array_valid n (repeat b n).
Proof. intros Hb; split; [now apply bytes_repeat | apply repeat_length]. Qed.

Lemma output_ok : output_valid output.
Proof.
  assert (B : forall b, 0 <= b < 10 -> is_byte b) by (unfold is_byte; lia).
  split; [apply (blob_repeat 1 32); auto with lia |].
  split; [apply (blob_repeat 2 32); auto with lia |].
  split; [apply (blob_repeat 3 32); auto with lia |].
  split; [apply (array_repeat 4 580); auto with lia |].
  split; [apply (array_repeat 5 80); auto with lia | apply (array_repeat 6 192); auto with lia].
Qed.

Lemma tx_ok : tx_valid new_tx tx.
Proof.
  constructor; cbn; try reflexivity; try (unfold is_u32, is_i64, SAPLING_VERSION_GROUP_ID; lia).
  - split; [| unfold MAX_SIZE, zlen; cbn; lia].
    constructor; [| constructor]; repeat split; cbn; try (unfold is_u32, is_byte, UINT32_MAX; lia).
    + apply (bytes_repeat 7 32); unfold is_byte; lia.
    + repeat constructor; unfold is_byte; lia.
    + unfold MAX_SIZE, zlen; cbn; lia.
  - split; [| unfold MAX_SIZE, zlen; cbn; lia].
    constructor; [| constructor]; repeat split; cbn; try (unfold is_i64, MAX_SIZE, zlen; cbn; lia).
    repeat constructor; unfold is_byte; lia.
  - split; [constructor | unfold MAX_SIZE, zlen; cbn; lia].
  - split; [constructor; [exact output_ok | constructor] | unfold MAX_SIZE, zlen; cbn; lia].
  - split; [constructor | unfold MAX_SIZE, zlen; cbn; lia].
  - change (byte_array_valid 64 (repeat 8 64)); apply array_repeat; unfold is_byte; lia.
Qed.

Lemma amounts_ok : amounts_valid tx.
Proof. repeat split; repeat constructor; cbn; unfold is_i64; lia. Qed.

(** Its encoding, by evaluation. *)
Definition encoded : list Z :=
  Eval vm_compute in match tx_Serialize tx with Ok d => d | _ => [] end.

Lemma encoded_bytes : bytes encoded.
Proof.
  apply List.Forall_forall; intros x Hx.
  assert (E : forallb (fun b => (0 <=? b) && (b <? 256)) encoded = true) by (vm_compute; reflexivity).
  rewrite forallb_forall in E; specialize (E x Hx); apply andb_prop in E as [E1 E2].
  unfold is_byte; lia.
Qed.
End Example_tx.

Lemma tx_format_bijective_witness :
  (exists out, tx_Serialize Example_tx.tx = Ok out /\ bytes out /\
     forall more, tx_Unserialize (out ++ more) = Ok (Example_tx.tx, more)) /\
  (tx_valid new_tx Example_tx.tx /\
   exists out, tx_Serialize Example_tx.tx = Ok out /\ Example_tx.encoded = out ++ []).
Proof.
  split.
  - apply (tx_format_bijective Example_tx.tx [] []), Example_tx.tx_ok.
  - apply (tx_format_bijective Example_tx.tx Example_tx.encoded []); [exact Example_tx.encoded_bytes |].
    vm_compute; reflexivity.
Defined.

Lemma txid_binding_witness :
  exists h, @tx_GetHash Example_tx.layout toy_hashes Example_tx.tx = Ok h /\
  (Example_tx.tx = Example_tx.tx \/
   exists d1 d2, tx_Serialize Example_tx.tx = Ok d1 /\ tx_Serialize Example_tx.tx = Ok d2 /\ d1 <> d2 /\
     @Hash toy_hashes d1 = @Hash toy_hashes d2).
Proof.
  eexists; split; [vm_compute; reflexivity |].
  eapply (@txid_binding Example_tx.layout Example_tx.layout_ok toy_hashes Example_tx.tx Example_tx.tx);
    [exact Example_tx.tx_ok | exact Example_tx.tx_ok | vm_compute; reflexivity | vm_compute; reflexivity].
Defined.

Lemma tx_totals_exact_witness :
  GetValueOut (E := unit) Example_tx.tx = Ok 1500 /\ value_out Example_tx.tx = 1500.
Proof.
  pose proof (tx_totals_exact Example_tx.tx 1500 Example_tx.amounts_ok) as [[H _] _].
  split; [vm_compute; reflexivity |]; symmetry; apply H; vm_compute; reflexivity.
Defined.
