(* ===== verification/Compressor.v ===== *)
(** * Compressed outputs

    compressor.h and compressor.cpp: the special forms of common scripts, the
    amount encoding, and the format of an output in the coin database.  The
    elliptic-curve operations of CPubKey are the class [PubKeys]. *)
From S2P Require Import Prelude Endian Script Serialize VarInt Transaction.

(** [CPubKey::IsFullyValid] and [CPubKey::Decompress], computed by libsecp256k1;
    a key is its bytes. *)
Class PubKeys := {
  IsFullyValid : list Z -> bool;
  PubKey_Decompress : list Z -> option (list Z);
}.

(** The compressed form of a key: its abscissa and the parity of its ordinate. *)
Definition compressed_key (pubkey : list Z) : list Z :=
  2 + at_ pubkey 64 mod 2 :: take 32 (drop 1 pubkey).

(** Decompressing gives a 65-byte key, and inverts compressing on valid keys. *)
Class PubKeysOk (P : PubKeys) : Prop := {
  decompress_length k k' : PubKey_Decompress k = Some k' -> zlen k' = 65;
  decompress_compressed k :
    zlen k = 65 -> at_ k 0 = 4 -> IsFullyValid k = true -> PubKey_Decompress (compressed_key k) = Some k;
}.

Lemma list_length_S {A} (n : nat) (l : list A) :
  length l = S n -> exists x l', l = x :: l' /\ length l' = n.
Proof. destruct l; [discriminate |]; intros [= E]; eauto. Qed.

(** Makes the elements of a list of known length explicit. *)
Ltac explode E :=
  lazymatch type of E with
  | length ?l = S _ =>
      let x := fresh "b" in let l' := fresh "l" in let H := fresh in
      apply list_length_S in E as (x & l' & H & E); subst l; explode E
  | length ?l = O => apply nil_length_inv in E; subst l
  end.

Ltac explode_bytes n l :=
  let E := fresh in assert (E : length l = n) by (unfold zlen in *; lia); explode E;
  repeat match goal with H : at_ _ _ = _ |- _ => vm_compute in H end;
  repeat match goal with H : Forall _ (_ :: _) |- _ => inversion_clear H end.

Ltac split_bools Hc :=
  repeat (apply andb_true_iff in Hc; let H := fresh in destruct Hc as [Hc H]; try apply Z.eqb_eq in H);
  apply Z.eqb_eq in Hc.

Ltac bytes_explicit := lazy [take drop Z.to_nat Pos.to_nat Pos.iter_op Nat.add]; repeat (apply Forall_cons_2; [first [assumption | unfold is_byte; lia] |]); apply Forall_nil_2.

Section Compressor.
Context `{PubKeys}.

Definition nSpecialScripts : Z := 6.

(** The hash, when the script has the form. *)
Definition IsToKeyID (script : list Z) : option (list Z) :=
  if (zlen script =? 25) && (at_ script 0 =? OP_DUP) && (at_ script 1 =? OP_HASH160)
     && (at_ script 2 =? 20) && (at_ script 23 =? OP_EQUALVERIFY) && (at_ script 24 =? OP_CHECKSIG)
  then Some (take 20 (drop 3 script)) else None.

Definition IsToScriptID (script : list Z) : option (list Z) :=
  if (zlen script =? 23) && (at_ script 0 =? OP_HASH160) && (at_ script 1 =? 20)
     && (at_ script 22 =? OP_EQUAL)
  then Some (take 20 (drop 2 script)) else None.

(** [CPubKey::GetLen] and [CPubKey::Set]; an invalid key has no bytes. *)
Definition PubKey_GetLen (chHeader : Z) : Z :=
  if (chHeader =? 2) || (chHeader =? 3) then 33
  else if (chHeader =? 4) || (chHeader =? 6) || (chHeader =? 7) then 65 else 0.

Definition PubKey_Set (data : list Z) : list Z :=
  let len := match data with [] => 0 | c :: _ => PubKey_GetLen c end in
  if negb (len =? 0) && (len =? zlen data) then data else [].

(** [CPubKey::ValidSize]. *)
Definition ValidSize (vch : list Z) : bool := (0 <? zlen vch) && (PubKey_GetLen (at_ vch 0) =? zlen vch).

(** The returned boolean and the key. *)
Definition IsToPubKey (script : list Z) : bool * list Z :=
  if (zlen script =? 35) && (at_ script 0 =? 33) && (at_ script 34 =? OP_CHECKSIG)
     && ((at_ script 1 =? 2) || (at_ script 1 =? 3))
  then (true, PubKey_Set (take 33 (drop 1 script)))
  else if (zlen script =? 67) && (at_ script 0 =? 65) && (at_ script 66 =? OP_CHECKSIG)
          && (at_ script 1 =? 4)
  then let pubkey := PubKey_Set (take 65 (drop 1 script)) in (IsFullyValid pubkey, pubkey)
  else (false, []).

(** [Compress]: the special form, when there is one. *)
Definition Compress (script : list Z) : option (list Z) :=
  match IsToKeyID script with
  | Some keyID => Some (0 :: keyID)
  | None =>
      match IsToScriptID script with
      | Some scriptID => Some (1 :: scriptID)
      | None =>
          match IsToPubKey script with
          | (true, pubkey) =>
              let x := take 32 (drop 1 pubkey) in
              if (at_ pubkey 0 =? 2) || (at_ pubkey 0 =? 3) then Some (at_ pubkey 0 :: x)
              else if at_ pubkey 0 =? 4 then Some (Z.lor 4 (Z.land (at_ pubkey 64) 1) :: x)
              else None
          | (false, _) => None
          end
      end
  end.

Definition GetSpecialSize (nSize : Z) : Z :=
  if (nSize =? 0) || (nSize =? 1) then 20
  else if (nSize =? 2) || (nSize =? 3) || (nSize =? 4) || (nSize =? 5) then 32
  else 0.

(** Its cases 4 and 5, once [pubkey.Decompress()] has given the full key or failed. *)
Definition full_key_script (pubkey : option (list Z)) (script : list Z) : res unit (list Z) :=
  match pubkey with
  | None => Ok script
  | Some pubkey => _ ← assert_ (zlen pubkey =? 65); Ok (65 :: take 65 pubkey ++ [OP_CHECKSIG : Z])
  end.

(** [Decompress]: the script afterwards; it is unchanged when the result is false. *)
Definition Decompress (nSize : Z) (data script : list Z) : res unit (list Z) :=
  match nSize with
  | 0 => Ok ([OP_DUP : Z; OP_HASH160 : Z; 20] ++ take 20 data ++ [OP_EQUALVERIFY : Z; OP_CHECKSIG : Z])
  | 1 => Ok ([OP_HASH160 : Z; 20] ++ take 20 data ++ [OP_EQUAL : Z])
  | 2 | 3 => Ok ([33; nSize] ++ take 32 data ++ [OP_CHECKSIG : Z])
  | 4 | 5 =>
      full_key_script (PubKey_Decompress (PubKey_Set (nSize - 2 :: take 32 data))) script
  | _ => Ok script
  end.

(** [CScriptCompressor::Serialize]. *)
Definition script_Serialize (script : list Z) : res unit (list Z) :=
  match Compress script with
  | Some compr => Ok compr
  | None =>
      let nSize := u32 (zlen script + nSpecialScripts) in
      o ← WriteVarInt uint32_t nSize; Ok (o ++ script)
  end.

(** A computation that reads nothing. *)
Definition lift_res {A} (r : res unit A) : reader A := fun s => a ← r; Ok (a, s).

(** [CScriptCompressor::Unserialize] into [script]. *)
Definition script_Unserialize (script : list Z) : reader (list Z) :=
  nSize ← ReadVarInt uint32_t;
  if nSize <? nSpecialScripts then
    vch ← s_read (GetSpecialSize nSize);
    lift_res (Decompress nSize vch script)
  else
    let nSize := u32 (nSize - nSpecialScripts) in
    if MAX_SCRIPT_SIZE <? nSize then
      _ ← s_ignore nSize; mret (script ++ [OP_RETURN : Z])
    else s_read nSize.

(** The loop that divides by ten while it can. *)
Fixpoint strip_zeros (fuel : nat) (n e : Z) : Z * Z :=
  match fuel with
  | O => (n, e)
  | S fuel => if (n mod 10 =? 0) && (e <? 9) then strip_zeros fuel (n / 10) (e + 1) else (n, e)
  end.

Definition CompressAmount (n : Z) : res unit Z :=
  if n =? 0 then Ok 0
  else
    let '(n, e) := strip_zeros 9 n 0 in
    if e <? 9 then
      let d := n mod 10 in
      _ ← assert_ ((1 <=? d) && (d <=? 9));
      let n := n / 10 in
      Ok (u64 (1 + (n * 9 + d - 1) * 10 + e))
    else Ok (u64 (1 + (n - 1) * 10 + 9)).

(** [while (e) { n *= 10; e--; }]. *)
Fixpoint times10 (e : nat) (n : Z) : Z := match e with O => n | S e => times10 e (u64 (n * 10)) end.

Definition DecompressAmount (x : Z) : Z :=
  if x =? 0 then 0
  else
    let x := x - 1 in
    let e := x mod 10 in
    let x := x / 10 in
    let n := if e <? 9 then (let d := x mod 9 + 1 in u64 (x / 9 * 10 + d)) else u64 (x + 1) in
    times10 (Z.to_nat e) n.

(** [CTxOutCompressor]: writing, and reading into [old]. *)
Definition txout_Serialize (o : CTxOut) : res unit (list Z) :=
  nVal ← CompressAmount (u64 (nValue o));
  v ← WriteVarInt uint64_t nVal;
  s ← script_Serialize (scriptPubKey o);
  Ok (v ++ s).

Definition txout_Unserialize (old : CTxOut) : reader CTxOut :=
  nVal ← ReadVarInt uint64_t;
  script ← script_Unserialize (scriptPubKey old);
  mret (mkTxOut (i64 (DecompressAmount nVal)) script).

(** ** Amounts *)

Lemma strip_zeros_spec fuel : forall n e,
  0 < n -> 0 <= e -> e + Z.of_nat fuel = 9 ->
  let '(n', e') := strip_zeros fuel n e in
  0 < n' /\ e <= e' <= 9 /\ n = n' * 10 ^ (e' - e) /\ (e' < 9 -> n' mod 10 <> 0).
Proof.
  induction fuel as [| fuel IH]; intros n e Hn He Hf; cbn [strip_zeros].
  { rewrite Z.sub_diag; repeat split; lia. }
  destruct (Z.eqb_spec (n mod 10) 0) as [E | E]; cbn [andb]; [| rewrite Z.sub_diag; repeat split; lia].
  destruct (Z.ltb_spec e 9) as [H9 | H9]; [| lia].
  pose proof (Z.div_mod n 10 ltac:(lia)) as Hd.
  specialize (IH (n / 10) (e + 1) ltac:(lia) ltac:(lia) ltac:(lia)).
  destruct (strip_zeros fuel (n / 10) (e + 1)) as [n' e']; destruct IH as (H1 & H2 & H3 & H4).
  repeat split; try lia; auto.
  replace (e' - e) with (Z.succ (e' - (e + 1))) by lia; rewrite Z.pow_succ_r by lia; lia.
Qed.

Lemma times10_eq e : forall n, 0 <= n -> n * 10 ^ Z.of_nat e < 2 ^ 64 -> times10 e n = n * 10 ^ Z.of_nat e.
Proof.
  induction e as [| e IH]; intros n Hn Hb; cbn [times10]; [cbn; lia |].
  rewrite Nat2Z.inj_succ, Z.pow_succ_r in * by lia; pose proof (Z.pow_pos_nonneg 10 (Z.of_nat e) ltac:(lia) ltac:(lia)).
  rewrite uwrap_small by nia; rewrite IH by nia; nia.
Qed.

Lemma digit_split e y b : 0 <= e < b -> (e + y * b) mod b = e /\ (e + y * b) / b = y.
Proof.
  intros He; rewrite Z.mod_add, Z.div_add, Z.mod_small, Z.div_small by lia; lia.
Qed.

(** An amount up to a ninth of the range is encoded without overflow and decoded exactly. *)
Lemma amount_roundtrip n :
  0 <= n -> 9 * n + 10 <= 2 ^ 64 ->
  exists x, CompressAmount n = Ok x /\ 0 <= x < 2 ^ 64 /\ DecompressAmount x = n.
Proof.
  intros Hn Hb; unfold CompressAmount; destruct (Z.eqb_spec n 0) as [-> | H0].
  { exists 0; repeat split; lia. }
  pose proof (strip_zeros_spec 9 n 0 ltac:(lia) ltac:(lia) ltac:(lia)) as Hs.
  destruct (strip_zeros 9 n 0) as [m e]; destruct Hs as (Hm & He & En & Hd); rewrite Z.sub_0_r in En.
  pose proof (Z.pow_pos_nonneg 10 e ltac:(lia) ltac:(lia)) as Hp.
  assert (Hmn : m <= n) by nia.
  pose proof (Z.div_mod m 10 ltac:(lia)) as Hdm; pose proof (Z.mod_pos_bound m 10 ltac:(lia)) as Hmb.
  destruct (Z.ltb_spec e 9) as [H9 | H9].
  - specialize (Hd H9); assert ((1 <=? m mod 10) && (m mod 10 <=? 9) = true) as -> by (apply andb_true_iff; lia).
    cbn [assert_ mbind res_bind]; remember (m / 10 * 9 + m mod 10 - 1) as y eqn:Ey.
    assert (Hy : 0 <= y /\ 10 * y + e + 1 < 2 ^ 64) by lia.
    rewrite uwrap_small by lia; eexists; split; [reflexivity |]; split; [lia |]; unfold DecompressAmount.
    destruct (Z.eqb_spec (1 + y * 10 + e) 0); [lia |].
    replace (1 + y * 10 + e - 1) with (e + y * 10) by lia.
    destruct (digit_split e y 10 ltac:(lia)) as [-> ->]; destruct (Z.ltb_spec e 9); [| lia].
    replace y with (m mod 10 - 1 + m / 10 * 9) by lia.
    destruct (digit_split (m mod 10 - 1) (m / 10) 9 ltac:(lia)) as [-> ->].
    replace (m / 10 * 10 + (m mod 10 - 1 + 1)) with m by lia; rewrite uwrap_small by lia.
    rewrite times10_eq by (rewrite ?Z2Nat.id by lia; lia); rewrite Z2Nat.id by lia; lia.
  - assert (e = 9) as -> by lia; rewrite uwrap_small by lia; eexists; split; [reflexivity |]; split; [lia |].
    unfold DecompressAmount; destruct (Z.eqb_spec (1 + (m - 1) * 10 + 9) 0); [lia |].
    replace (1 + (m - 1) * 10 + 9 - 1) with (9 + (m - 1) * 10) by lia.
    destruct (digit_split 9 (m - 1) 10 ltac:(lia)) as [-> ->].
    destruct (Z.ltb_spec 9 9); [lia |]; replace (m - 1 + 1) with m by lia; rewrite uwrap_small by lia.
    rewrite times10_eq by (change (10 ^ Z.of_nat (Z.to_nat 9)) with (10 ^ 9); lia).
    change (10 ^ Z.of_nat (Z.to_nat 9)) with (10 ^ 9); lia.
Qed.

(** ** Scripts *)

Context `{!PubKeysOk H}.

(** A special form and what reading it takes. *)
Definition special (c script : list Z) : Prop :=
  exists tag data, c = tag :: data /\ 0 <= tag < 6 /\ bytes c /\ zlen data = GetSpecialSize tag /\
    forall old, Decompress tag data old = Ok script.

Lemma special_KeyID script k : bytes script -> IsToKeyID script = Some k -> special (0 :: k) script.
Proof.
  intros Hb; unfold IsToKeyID; case_match eqn:Hc; [| discriminate]; intros [= <-]; split_bools Hc.
  explode_bytes 25%nat script; exists 0; eexists; split; [reflexivity |]; split; [lia |].
  split; [bytes_explicit |]; split; [reflexivity |]; intros old; subst; reflexivity.
Qed.

Lemma special_ScriptID script k : bytes script -> IsToScriptID script = Some k -> special (1 :: k) script.
Proof.
  intros Hb; unfold IsToScriptID; case_match eqn:Hc; [| discriminate]; intros [= <-]; split_bools Hc.
  explode_bytes 23%nat script; exists 1; eexists; split; [reflexivity |]; split; [lia |].
  split; [bytes_explicit |]; split; [reflexivity |]; intros old; subst; reflexivity.
Qed.

Lemma special_PubKey script k :
  bytes script -> IsToPubKey script = (true, k) ->
  exists c, (if (at_ k 0 =? 2) || (at_ k 0 =? 3) then Some (at_ k 0 :: take 32 (drop 1 k))
             else if at_ k 0 =? 4 then Some (Z.lor 4 (Z.land (at_ k 64) 1) :: take 32 (drop 1 k))
             else None) = Some c /\ special c script.
Proof.
  intros Hb; unfold IsToPubKey; case_match eqn:Hc.
  - intros [= <-]; apply andb_true_iff in Hc as [Hc Ht]; split_bools Hc.
    explode_bytes 35%nat script; apply orb_true_iff in Ht; rewrite !Z.eqb_eq in Ht.
    destruct Ht as [E | E]; vm_compute in E; subst;
      (eexists; split; [reflexivity |]; eexists _, _; split; [reflexivity |]; split; [vm_compute; split; [discriminate | reflexivity] |];
       split; [bytes_explicit |]; split; [reflexivity |]; intros old; reflexivity).
  - clear Hc; case_match eqn:Hc; [| discriminate]; intros [= Hv <-]; split_bools Hc.
    explode_bytes 67%nat script; subst.
    match type of Hv with IsFullyValid ?k = true => set (key := k) in *; let k' := eval vm_compute in k in change k' in (value of key) end.
    pose proof (decompress_compressed key eq_refl eq_refl Hv) as Hd.
    assert (Hm : at_ key 64 mod 2 = 0 \/ at_ key 64 mod 2 = 1)
      by (pose proof (Z.mod_pos_bound (at_ key 64) 2 ltac:(lia)); lia).
    assert (El : Z.lor 4 (Z.land (at_ key 64) 1) = 4 + at_ key 64 mod 2).
    { rewrite (land_mask_mod _ 1) by lia; change (2 ^ 1) with 2; destruct Hm as [-> | ->]; reflexivity. }
    unfold compressed_key in Hd; rewrite El; destruct Hm as [Hm | Hm]; rewrite Hm in Hd |- *;
      (eexists; split; [reflexivity |]; eexists _, _; split; [reflexivity |]; split; [vm_compute; split; [discriminate | reflexivity] |];
       split; [unfold key; bytes_explicit |]; split; [reflexivity |]; intros old;
       lazymatch type of Hd with PubKey_Decompress ?k = _ =>
         transitivity (full_key_script (PubKey_Decompress k) old)
       end; [reflexivity | rewrite Hd; reflexivity]).
Qed.

Lemma Compress_special script c : bytes script -> Compress script = Some c -> special c script.
Proof.
  intros Hb; unfold Compress; destruct (IsToKeyID script) as [k |] eqn:Ek.
  { intros [= <-]; now apply special_KeyID. }
  destruct (IsToScriptID script) as [k |] eqn:Es.
  { intros [= <-]; now apply special_ScriptID. }
  destruct (IsToPubKey script) as [[] k] eqn:Ep; [| discriminate].
  destruct (special_PubKey script k Hb Ep) as (c' & E & Hs); cbv zeta; rewrite E; now intros [= <-].
Qed.

Lemma read_small tag rest : 0 <= tag < 128 -> ReadVarInt uint32_t (tag :: rest) = Ok (tag, rest).
Proof.
  intros Ht; pose proof (read_digit uint32_t 32 uint32_ok 0 tag true rest ltac:(lia) ltac:(lia) ltac:(lia)) as E.
  now rewrite Z.add_0_r in E.
Qed.

(** A script within the size limit is read back, into any object. *)
Lemma script_roundtrip script :
  bytes script -> zlen script <= MAX_SCRIPT_SIZE ->
  exists out, script_Serialize script = Ok out /\ bytes out /\
    forall old rest, script_Unserialize old (out ++ rest) = Ok (script, rest).
Proof.
  intros Hb Hs; unfold script_Serialize; destruct (Compress script) as [c |] eqn:Ec.
  - destruct (Compress_special script c Hb Ec) as (tag & data & -> & Ht & Hc & Hl & Hd).
    eexists; split; [reflexivity |]; split; [exact Hc |]; intros old rest.
    unfold script_Unserialize, mbind, reader_bind; cbn [app]; rewrite read_small by lia.
    destruct (Z.ltb_spec tag nSpecialScripts) as [_ | ?]; [| unfold nSpecialScripts in *; lia].
    rewrite s_read_app by exact Hl; unfold lift_res; now rewrite Hd.
  - pose proof (zlen_nonneg script); assert (Hn : 0 <= zlen script + nSpecialScripts < 2 ^ 32)
      by (unfold MAX_SCRIPT_SIZE, nSpecialScripts in *; lia).
    cbv zeta; rewrite uwrap_small by exact Hn.
    destruct (writes_varint uint32_t 32 uint32_ok _ Hn) as (out & Hp & Ho & Hg).
    cbn in Hp; destruct (WriteVarInt uint32_t (zlen script + nSpecialScripts)) as [o | |]; try discriminate.
    cbn in Hp; injection Hp as ->; cbn [mbind res_bind].
    eexists; split; [reflexivity |]; split; [now apply Forall_app |]; intros old rest.
    unfold script_Unserialize, mbind, reader_bind; rewrite <- app_assoc; cbn in Hg; rewrite Hg.
    destruct (Z.ltb_spec (zlen script + nSpecialScripts) nSpecialScripts); [lia |].
    replace (zlen script + nSpecialScripts - nSpecialScripts) with (zlen script) by lia.
    cbv zeta; rewrite uwrap_small by (unfold MAX_SCRIPT_SIZE in *; lia).
    destruct (Z.ltb_spec MAX_SCRIPT_SIZE (zlen script)); [lia | now apply s_read_app].
Qed.

(** An output the database format keeps. *)
Definition txout_compressible (o : CTxOut) : Prop :=
  0 <= nValue o /\ 9 * nValue o + 10 <= 2 ^ 64 /\
  bytes (scriptPubKey o) /\ zlen (scriptPubKey o) <= MAX_SCRIPT_SIZE.

Lemma txout_roundtrip o :
  txout_compressible o ->
  exists out, txout_Serialize o = Ok out /\ bytes out /\
    forall old rest, txout_Unserialize old (out ++ rest) = Ok (o, rest).
Proof.
  intros (Hn & Hv & Hb & Hs); unfold txout_Serialize; rewrite uwrap_small by lia.
  destruct (amount_roundtrip (nValue o) Hn Hv) as (x & -> & Hx & Ed); cbn [mbind res_bind].
  destruct (writes_varint uint64_t 64 uint64_ok x Hx) as (v & Hp & Bv & Hg); cbn in Hp, Hg.
  destruct (WriteVarInt uint64_t x) as [v' | |]; try discriminate; cbn in Hp; injection Hp as ->.
  destruct (script_roundtrip _ Hb Hs) as (so & -> & Bs & Gs); cbn [mbind res_bind].
  eexists; split; [reflexivity |]; split; [now apply Forall_app |]; intros old rest.
  unfold txout_Unserialize, mbind, reader_bind; rewrite <- app_assoc, Hg, Gs, Ed.
  rewrite swrap_small by (change (2 ^ (64 - 1)) with (2 ^ 63); lia); now destruct o.
Qed.
End Compressor.

(** ** Properties *)

(** A stand-in for the curve: a point whose ordinate is zero or one. *)
Module Example_keys.
#[export] Instance toy : PubKeys := {|
  IsFullyValid k :=
    (zlen k =? 65) &&
    bool_decide (k = 4 :: take 32 (drop 1 k) ++ replicate 31 0 ++ [at_ k 64 mod 2]);
  PubKey_Decompress c :=
    if zlen c =? 33 then Some (4 :: drop 1 c ++ replicate 31 0 ++ [at_ c 0 - 2]) else None;
|}.

#[export] Instance toy_ok : PubKeysOk toy.
Proof.
  split.
  - cbn; intros k k'; destruct (Z.eqb_spec (zlen k) 33) as [E |]; [| discriminate]; intros [= <-].
    unfold zlen in *; cbn [length]; rewrite !length_app, length_drop; cbn; lia.
  - intros k El _ Hv; apply andb_true_iff in Hv as [_ Hv]; apply bool_decide_eq_true in Hv.
    unfold PubKey_Decompress, toy, compressed_key.
    assert ((zlen (2 + at_ k 64 mod 2 :: take 32 (drop 1 k)) =? 33) = true) as ->.
    { apply Z.eqb_eq; unfold zlen in *; cbn [length]; rewrite length_take, length_drop; lia. }
    f_equal; etransitivity; [| symmetry; exact Hv]; do 4 f_equal.
    change (at_ (2 + at_ k 64 mod 2 :: _) 0) with (2 + at_ k 64 mod 2); f_equal; lia.
Qed.
End Example_keys.

Section Properties.
Context `{PubKeys, !PubKeysOk H}.

(** The database format of an output, for every amount up to a ninth of
    the unsigned 64-bit range and every script up to MAX_SCRIPT_SIZE: writing
    succeeds, with no assertion failing, and reading gives the same output back
    into any object and leaves what follows; so the special forms stand for
    exactly the scripts they replace. *)
Theorem txout_compress_roundtrip (o : CTxOut) :
  txout_compressible o ->
  exists out, txout_Serialize o = Ok out /\ bytes out /\
    forall old rest, txout_Unserialize old (out ++ rest) = Ok (o, rest).
Proof. exact (txout_roundtrip o). Qed.
End Properties.

Import Example_keys.

(** A pay-to-public-key output with a full key. *)
Example key_output : CTxOut :=
  mkTxOut 5000000000 (65 :: 4 :: replicate 32 7 ++ replicate 31 0 ++ [1; OP_CHECKSIG : Z]).

Lemma txout_compress_roundtrip_witness :
  txout_compressible key_output /\
  exists out, txout_Serialize key_output = Ok out /\ out = 50 :: 5 :: replicate 32 7.
Proof.
  assert (Hc : txout_compressible key_output)
    by (split; [cbn; lia |]; split; [cbn; lia |]; split; [| vm_compute; discriminate];
        cbn; repeat (apply Forall_cons_2; [unfold is_byte; vm_compute; split; easy |]); apply Forall_nil_2).
  split; [exact Hc |]; destruct (txout_compress_roundtrip key_output Hc) as (out & Hs & _).
  exists out; split; [exact Hs |]; vm_compute in Hs; now injection Hs as <-.
Defined.
