(* ===== verification/Standard.v ===== *)
(** * Standard scripts

    script/standard.h and script/standard.cpp: the classification of output
    scripts by [Solver], the destinations they pay to, and the scripts that are
    built for destinations; [CScript::MayAcceptCryptoCondition] (script.cpp) and
    [IsCryptoConditionsEnabled] (script/cc.cpp).  A public key is its bytes, and
    an invalid one has none. *)
From S2P Require Import Prelude Hashing ScriptNum Script Compressor.

(** ASSETCHAINS_CC; whether the hard fork of komodo_is_vSolutionsFixActive is
    past; and whether libcryptoconditions reads a condition whose types are all
    enabled ([cc_readConditionBinary], [IsSupportedCryptoCondition]). *)
Class StandardEnv := {
  std_ASSETCHAINS_CC : Z;
  komodo_is_vSolutionsFixActive : bool;
  supported_condition : list Z -> bool;
}.

Inductive txnouttype :=
| TX_NONSTANDARD | TX_PUBKEY | TX_PUBKEYHASH | TX_SCRIPTHASH | TX_MULTISIG | TX_CRYPTOCONDITION | TX_NULL_DATA.

#[global] Instance txnouttype_eq_dec : EqDecision txnouttype.
Proof. solve_decision. Defined.

Inductive CTxDestination :=
| CNoDestination
| DestPubKey (key : list Z)
| DestKeyID (id : list Z)
| DestScriptID (id : list Z).

(** ** Public keys *)

Definition PUBLIC_KEY_SIZE : Z := 65.
Definition COMPRESSED_PUBLIC_KEY_SIZE : Z := 33.

(** [IsValid] and [GetID] of a key. *)
Definition PubKey_IsValid (key : list Z) : bool := 0 <? zlen key.
Definition PubKey_GetID `{HashFunctions} (key : list Z) : list Z := Hash160 key.

(** [uint160(vector)]. *)
Definition uint160_of {E} (vch : list Z) : res E (list Z) := _ ← assert_ (zlen vch =? 20); Ok vch.

(** ** Templates *)

(** The returned boolean and the key. *)
Definition MatchPayToPubkey (script : list Z) : bool * list Z :=
  if (zlen script =? PUBLIC_KEY_SIZE + 2) && (at_ script 0 =? PUBLIC_KEY_SIZE) && (at_ script (zlen script - 1) =? OP_CHECKSIG)
  then let pubkey := take 65 (drop 1 script) in (ValidSize pubkey, pubkey)
  else if (zlen script =? COMPRESSED_PUBLIC_KEY_SIZE + 2) && (at_ script 0 =? COMPRESSED_PUBLIC_KEY_SIZE)
          && (at_ script (zlen script - 1) =? OP_CHECKSIG)
  then let pubkey := take 33 (drop 1 script) in (ValidSize pubkey, pubkey)
  else (false, []).

Definition MatchPayToPubkeyHash (script : list Z) : option (list Z) :=
  if (zlen script =? 25) && (at_ script 0 =? OP_DUP) && (at_ script 1 =? OP_HASH160) && (at_ script 2 =? 20)
     && (at_ script 23 =? OP_EQUALVERIFY) && (at_ script 24 =? OP_CHECKSIG)
  then Some (take 20 (drop 3 script)) else None.

Definition IsSmallInteger (opcode : Z) : bool := (OP_1 <=? opcode) && (opcode <=? OP_16).

(** The keys, and the instruction behind them. *)
Fixpoint multisig_keys (fuel : nat) (pc : list Z) (pubkeys : list (list Z)) : list (list Z) * getop :=
  let r := GetOp2 pc in
  match fuel with
  | O => (pubkeys, r)
  | S fuel => if go_ret r && ValidSize (go_vch r) then multisig_keys fuel (go_pc r) (pubkeys ++ [go_vch r]) else (pubkeys, r)
  end.

(** [required] and [pubkeys] on success. *)
Definition MatchMultisig {E} (script : list Z) : res E (option (Z * list (list Z))) :=
  if (zlen script <? 1) || negb (at_ script (zlen script - 1) =? OP_CHECKMULTISIG) then Ok None
  else
    let r := GetOp2 script in
    if negb (go_ret r) || negb (IsSmallInteger (go_opcode r)) then Ok None
    else
      required ← DecodeOP_N (go_opcode r);
      let '(pubkeys, r) := multisig_keys (length script) (go_pc r) [] in
      if negb (IsSmallInteger (go_opcode r)) then Ok None
      else
        keys ← DecodeOP_N (go_opcode r);
        if negb (zlen pubkeys =? keys) || (keys <? required) then Ok None
        else Ok (if zlen (go_pc r) =? 1 then Some (required, pubkeys) else None).

(** ** Parameters of crypto conditions *)

Record COptCCParams := mkCCParams {
  cc_version : Z;
  cc_evalCode : Z;
  cc_m : Z;
  cc_n : Z;
  cc_vKeys : list (list Z);
  cc_vData : list (list Z);
}.

Definition CC_VERSION : Z := 1.

(** The scan of the pushes; a failed [GetOp] is not an error, the loop goes on
    where it left the iterator.  [None] is [valid = false]. *)
Fixpoint cc_params_loop (fuel : nat) (pc : list Z) (data : list (list Z)) : option (list (list Z)) :=
  match fuel, pc with
  | S fuel, _ :: _ =>
      let r := GetOp2 pc in
      if go_ret r then
        match small_push (go_opcode r) (go_vch r) with
        | Some v => cc_params_loop fuel (go_pc r) (data ++ [v])
        | None => None
        end
      else cc_params_loop fuel (go_pc r) data
  | _, _ => Some data
  end.

(** The keys up to the first invalid one; the boolean says that all were valid. *)
Fixpoint load_keys (data : list (list Z)) : bool * list (list Z) :=
  match data with
  | [] => (true, [])
  | d :: data =>
      let k := PubKey_Set d in
      if PubKey_IsValid k then let '(ok, ks) := load_keys data in (ok, k :: ks) else (false, [k])
  end.

(** What the constructor leaves; the fields it does not set are not read when
    the version is not 1.  [None] is a version that it does not set at all. *)
Definition COptCCParams_of (vch : list Z) : option COptCCParams :=
  if 1 <? zlen vch then
    match cc_params_loop (length vch) vch [] with
    | Some (param :: rest) =>
        match param with
        | [version; evalCode; m; n] =>
            if negb (version =? CC_VERSION) || negb (m =? 1) || (negb (n =? 1) && negb (n =? 2)) || (zlen (param :: rest) <=? n)
            then Some (mkCCParams 0 evalCode m n [] [])
            else
              let '(ok, keys) := load_keys (take (Z.to_nat n) rest) in
              if ok then Some (mkCCParams version evalCode m n keys (drop (Z.to_nat n) rest))
              else Some (mkCCParams 0 evalCode m n keys [])
        | _ => Some (mkCCParams 0 0 0 0 [] [])
        end
    | _ => None
    end
  else None.

Definition cc_IsValid (p : COptCCParams) : bool := negb (cc_version p =? 0).

Definition AsVector (p : COptCCParams) : list Z :=
  let cData := push_vch [] [cc_version p; cc_evalCode p; cc_n p; cc_m p] in
  fold_left push_vch (cc_vData p) (fold_left push_vch (cc_vKeys p) cData).

(** ** Classification *)

Section Solver.
Context `{HashFunctions, StandardEnv}.

Definition IsCryptoConditionsEnabled : bool := negb (std_ASSETCHAINS_CC =? 0).

Definition MayAcceptCryptoCondition (script : list Z) : bool :=
  let r := GetOp2 script in
  go_ret r && ((OP_0 <? go_opcode r) && (go_opcode r <? OP_PUSHDATA1)) && supported_condition (go_vch r).

(** The keys among the parameters that were added to the solutions before the
    hard fork; without a valid version there are none. *)
Definition param_keys (vParams : list (list Z)) : list (list Z) :=
  match vParams with
  | [] => []
  | vch :: _ => match COptCCParams_of vch with Some p => if cc_IsValid p then cc_vKeys p else [] | None => [] end
  end.

(** The returned boolean, [typeRet] and [vSolutionsRet]. *)
Abbreviation solution := (bool * txnouttype * list (list Z))%type.

(** The templates of public keys, key hashes and multisig scripts. *)
Definition solve_keys {E} (scriptPubKey : list Z) : res E solution :=
  match MatchPayToPubkey scriptPubKey with
  | (true, data) => Ok (true, TX_PUBKEY, [data])
  | (false, _) =>
      match MatchPayToPubkeyHash scriptPubKey with
      | Some data => Ok (true, TX_PUBKEYHASH, [data])
      | None =>
          ms ← MatchMultisig scriptPubKey;
          match ms with
          | Some (required, keys) => Ok (true, TX_MULTISIG, [u8 required] :: keys ++ [[u8 (zlen keys)]])
          | None => Ok (false, TX_NONSTANDARD, [])
          end
      end
  end.

Definition Solver {E} (typeRet : txnouttype) (scriptPubKey : list Z) : res E solution :=
  if IsPayToScriptHash scriptPubKey then Ok (true, TX_SCRIPTHASH, [take 20 (drop 2 scriptPubKey)])
  else if (1 <=? zlen scriptPubKey) && (at_ scriptPubKey 0 =? OP_RETURN) && IsPushOnly (drop 1 scriptPubKey)
  then Ok (true, TX_NULL_DATA, [])
  else
    match (if IsCryptoConditionsEnabled then IsPayToCryptoCondition_full scriptPubKey else None) with
    | Some (ccSubScript, vParams) =>
        if MayAcceptCryptoCondition scriptPubKey
        then Ok (true, TX_CRYPTOCONDITION, Hash160 ccSubScript :: (if komodo_is_vSolutionsFixActive then [] else param_keys vParams))
        else Ok (false, typeRet, [])
    | None => solve_keys scriptPubKey
    end.

Definition ScriptSigArgsExpected (t : txnouttype) (vSolutions : list (list Z)) : Z :=
  match t with
  | TX_NONSTANDARD | TX_NULL_DATA => -1
  | TX_PUBKEY => 1
  | TX_PUBKEYHASH => 2
  | TX_MULTISIG => match vSolutions with (b :: _) :: _ => b + 1 | _ => -1 end
  | TX_SCRIPTHASH => 1
  | TX_CRYPTOCONDITION => 1
  end.

(** The returned boolean and [whichType]. *)
Definition IsStandard {E} (whichType : txnouttype) (scriptPubKey : list Z) : res E (bool * txnouttype) :=
  '(ok, whichType, vSolutions) ← Solver whichType scriptPubKey;
  if negb ok then Ok (false, whichType)
  else if bool_decide (whichType = TX_MULTISIG) then
    match vSolutions with
    | [] => Exn oob_read
    | front :: _ =>
        m ← index_ front 0;
        n ← index_ (List.last vSolutions []) 0;
        if (n <? 1) || (9 <? n) then Ok (false, whichType)
        else if (m <? 1) || (n <? m) then Ok (false, whichType)
        else Ok (negb (bool_decide (whichType = TX_NONSTANDARD)), whichType)
    end
  else Ok (negb (bool_decide (whichType = TX_NONSTANDARD)), whichType).

(** ** Destinations *)

(** What follows the lock time, if the script begins with one. *)
Definition after_lock_time {E} (script : list Z) : res E (option (list Z)) :=
  lock ← IsCheckLockTimeVerify script;
  match lock with
  | None => Ok None
  | Some _ => pushOp ← index_ script 0; Ok (Some (drop (Z.to_nat (pushOp + 3)) script))
  end.

(** [vSolutions[0]]. *)
Definition solution_at {E} (vSolutions : list (list Z)) (i : nat) : res E (list Z) :=
  match vSolutions !! i with Some v => Ok v | None => Exn oob_read end.

(** The returned boolean, with [addressRet] when it was assigned. *)
Definition ExtractDestination {E} (script : list Z) (returnPubKey : bool) : res E (bool * option CTxDestination) :=
  postfix ← after_lock_time script;
  let scriptPubKey := default script postfix in
  '(ok, whichType, vSolutions) ← Solver TX_NONSTANDARD scriptPubKey;
  if negb ok then Ok (false, None)
  else
    match whichType with
    | TX_PUBKEY =>
        v ← solution_at vSolutions 0;
        let pubKey := PubKey_Set v in
        if negb (PubKey_IsValid pubKey) then Ok (false, None)
        else Ok (true, Some (if returnPubKey then DestPubKey pubKey else DestKeyID (PubKey_GetID pubKey)))
    | TX_PUBKEYHASH => v ← solution_at vSolutions 0; id ← uint160_of v; Ok (true, Some (DestKeyID id))
    | TX_SCRIPTHASH => v ← solution_at vSolutions 0; id ← uint160_of v; Ok (true, Some (DestScriptID id))
    | TX_CRYPTOCONDITION =>
        if IsCryptoConditionsEnabled then
          if (1 <? zlen vSolutions) && negb komodo_is_vSolutionsFixActive then
            v ← solution_at vSolutions 1;
            let pk := PubKey_Set v in
            Ok (PubKey_IsValid pk, Some (DestPubKey pk))
          else v ← solution_at vSolutions 0; id ← uint160_of v; Ok (true, Some (DestKeyID id))
        else Ok (false, None)
    | _ => Ok (false, None)
    end.

(** The addresses of the valid keys of a multisig script. *)
Definition multisig_addresses (keys : list (list Z)) : list CTxDestination :=
  omap (fun v => let k := PubKey_Set v in if PubKey_IsValid k then Some (DestKeyID (PubKey_GetID k)) else None) keys.

(** The returned boolean, [typeRet], [addressRet], and [nRequiredRet] when it was
    assigned. *)
Fixpoint ExtractDestinations {E} (fuel : nat) (scriptPubKey : list Z) : res E (bool * txnouttype * list CTxDestination * option Z) :=
  postfix ← after_lock_time scriptPubKey;
  match postfix with
  | Some postfix =>
      match fuel with
      | O => Exn out_of_fuel
      | S fuel => ExtractDestinations fuel postfix
      end
  | None =>
      '(ok, typeRet, vSolutions) ← Solver TX_NONSTANDARD scriptPubKey;
      if negb ok || bool_decide (typeRet = TX_NULL_DATA) then Ok (false, typeRet, [], None)
      else if bool_decide (typeRet = TX_MULTISIG) then
        front ← solution_at vSolutions 0;
        nRequiredRet ← index_ front 0;
        let addressRet := multisig_addresses (take (length vSolutions - 2) (drop 1 vSolutions)) in
        Ok (negb (bool_decide (addressRet = [])), typeRet, addressRet, Some nRequiredRet)
      else
        '(found, address) ← ExtractDestination scriptPubKey false;
        if negb found then Ok (false, typeRet, [], Some 1)
        else Ok (true, typeRet, [default CNoDestination address], Some 1)
  end.
End Solver.

(** ** Scripts for destinations *)

(** The visitor's answer is dropped. *)
Definition GetScriptForDestination {E} (dest : CTxDestination) : res E (list Z) :=
  match dest with
  | CNoDestination => Ok []
  | DestPubKey key => push_opcode (push_vch [] key) OP_CHECKSIG
  | DestKeyID keyID =>
      s ← push_opcode [] OP_DUP;
      s ← push_opcode s OP_HASH160;
      s ← push_opcode (push_vch s keyID) OP_EQUALVERIFY;
      push_opcode s OP_CHECKSIG
  | DestScriptID scriptID =>
      s ← push_opcode [] OP_HASH160;
      push_opcode (push_vch s scriptID) OP_EQUAL
  end.

Definition GetScriptForMultisig {E} (nRequired : Z) (keys : list (list Z)) : res E (list Z) :=
  m ← EncodeOP_N nRequired;
  script ← push_opcode [] m;
  let script := fold_left push_vch keys script in
  n ← EncodeOP_N (i32 (zlen keys));
  script ← push_opcode script n;
  push_opcode script OP_CHECKMULTISIG.

Definition IsValidDestination (dest : CTxDestination) : bool :=
  match dest with CNoDestination => false | _ => true end.
