(* ===== verification/StandardSpec.v ===== *)
(** * Standard scripts: theorems

    [Solver] against the grammar of the standard scripts, and the scripts built
    for destinations read back. *)
From S2P Require Import Prelude Hashing ScriptNum Script Interpreter InterpreterSpec Compressor Standard.

(** ** Reading a part of a script *)

Inductive reads : list Z -> list (Z * list Z) -> list Z -> Prop :=
| reads_nil pc : reads pc [] pc
| reads_cons pc op data pc' ops rest :
    GetOp2 pc = {| go_ret := true; go_pc := pc'; go_opcode := op; go_vch := data |} ->
    reads pc' ops rest -> reads pc ((op, data) :: ops) rest.

Lemma reads_parses pc ops rest ops' : reads pc ops rest -> parses rest ops' -> parses pc (ops ++ ops').
Proof. induction 1 as [| pc op data pc' ops rest E R IH]; intros P; [exact P |]; cbn; eapply parses_cons; eauto. Qed.

Lemma parses_reads ops : forall pc ops', parses pc (ops ++ ops') -> exists rest, reads pc ops rest /\ parses rest ops'.
Proof.
  induction ops as [| o ops IH]; intros pc ops' P; cbn in P; [exists pc; split; [constructor | exact P] |].
  inversion P as [| pc0 op data pc' ops0 E P' E1 E2]; subst; destruct (IH _ _ P') as (rest & R & P2).
  exists rest; split; [eapply reads_cons; eauto | exact P2].
Qed.

(** The first byte of what could be read. *)
Lemma GetOp2_head s : go_ret (GetOp2 s) = true -> at_ s 0 = go_opcode (GetOp2 s).
Proof.
  destruct s as [| x s]; [discriminate |]; cbn [GetOp2]; unfold at_; cbn [nth Z.to_nat].
  destruct (x <=? OP_PUSHDATA4); [| reflexivity]; destruct (GetOp2_size x s) as [[[|] n] pc]; [| discriminate].
  now destruct (_ || _).
Qed.

(** A single opcode at the end. *)
Lemma GetOp2_last s op : OP_PUSHDATA4 < op ->
  GetOp2 s = {| go_ret := true; go_pc := []; go_opcode := op; go_vch := [] |} <-> s = [op].
Proof.
  intros Hop; split; [| intros ->; cbn [GetOp2]; now rewrite (proj2 (Z.leb_gt _ _) Hop)].
  destruct s as [| x s]; [discriminate |]; intros E; pose proof (GetOp2_head (x :: s)) as Hx; rewrite E in Hx; specialize (Hx eq_refl).
  change (x = op) in Hx; subst x; cbn [GetOp2] in E; rewrite (proj2 (Z.leb_gt _ _) Hop) in E; congruence.
Qed.

Lemma parses_last s op : OP_PUSHDATA4 < op -> parses s [(op, [])] <-> s = [op].
Proof.
  intros Hop; split.
  - inversion 1 as [| pc0 op0 data pc' ops E P]; subst; inversion P; subst; now apply GetOp2_last in E.
  - intros ->; eapply parses_cons; [now apply GetOp2_last | constructor].
Qed.

(** ** The forms *)

Lemma ValidSize_sizes k : ValidSize k = true -> zlen k = 33 \/ zlen k = 65.
Proof.
  unfold ValidSize, PubKey_GetLen; rewrite andb_true_iff, Z.eqb_eq; intros [Hp E]; apply Z.ltb_lt in Hp; revert E.
  repeat case_goal; lia.
Qed.

Definition p2pk_script (k : list Z) : list Z := zlen k :: k ++ [OP_CHECKSIG : Z].

Lemma at_snoc_last (x : Z) l y : at_ (x :: l ++ [y]) (zlen (x :: l ++ [y]) - 1) = y.
Proof.
  unfold at_, zlen; cbn [length]; rewrite length_app; cbn [length].
  replace (Z.to_nat _) with (S (length l)) by lia; cbn [nth]; now rewrite nth_middle.
Qed.

Lemma zlen_p2pk k : zlen (p2pk_script k) = zlen k + 2.
Proof. unfold p2pk_script, zlen; cbn [length]; rewrite length_app; cbn; lia. Qed.

Lemma split_last (s : list Z) n : zlen s = Z.of_nat n + 2 -> exists x k y, length k = n /\ s = x :: k ++ [y].
Proof.
  intros Hl; unfold zlen in Hl; destruct s as [| x s]; [cbn in Hl; lia |]; cbn in Hl.
  destruct (exists_last (l := s)) as (k & y & ->); [intros ->; cbn in Hl; lia |].
  rewrite length_app in Hl; cbn in Hl; exists x, k, y; split; [lia | reflexivity].
Qed.

Lemma pubkey_form_size s n : zlen s = Z.of_nat n + 2 -> at_ s 0 = Z.of_nat n -> at_ s (zlen s - 1) = OP_CHECKSIG ->
  s = p2pk_script (take n (drop 1 s)).
Proof.
  intros Hl H0 H1; destruct (split_last s n Hl) as (x & k & y & Hk & ->); rewrite at_snoc_last in H1; change (x = Z.of_nat n) in H0; subst x y.
  change (drop 1 (Z.of_nat n :: k ++ [OP_CHECKSIG : Z])) with (k ++ [OP_CHECKSIG : Z]).
  rewrite take_app_length' by (now symmetry); unfold p2pk_script, zlen; now rewrite Hk.
Qed.

Lemma MatchPayToPubkey_iff s k : MatchPayToPubkey s = (true, k) <-> ValidSize k = true /\ s = p2pk_script k.
Proof.
  unfold MatchPayToPubkey, PUBLIC_KEY_SIZE, COMPRESSED_PUBLIC_KEY_SIZE; split.
  - destruct ((zlen s =? 65 + 2) && _ && _) eqn:E1; [| destruct ((zlen s =? 33 + 2) && _ && _) eqn:E2; [| discriminate]].
    + intros [= Hv <-]; rewrite !andb_true_iff, !Z.eqb_eq in E1; destruct E1 as [[? ?] ?]; split; [exact Hv | now apply (pubkey_form_size s 65)].
    + intros [= Hv <-]; rewrite !andb_true_iff, !Z.eqb_eq in E2; destruct E2 as [[? ?] ?]; split; [exact Hv | now apply (pubkey_form_size s 33)].
  - intros [Hv ->]; rewrite zlen_p2pk.
    assert (H0 : at_ (p2pk_script k) 0 = zlen k) by reflexivity.
    assert (H1 : at_ (p2pk_script k) (zlen k + 2 - 1) = OP_CHECKSIG) by (rewrite <- zlen_p2pk; apply at_snoc_last).
    rewrite H0, H1, Z.eqb_refl, !andb_true_r; change (drop 1 (p2pk_script k)) with (k ++ [OP_CHECKSIG : Z]).
    destruct (ValidSize_sizes k Hv) as [E | E]; rewrite E; rewrite ?Z.eqb_refl;
      [change (33 + 2 =? 65 + 2) with false |]; cbn [andb]; rewrite take_app_length' by (unfold zlen in E; lia); now rewrite Hv.
Qed.

Lemma MatchPayToPubkeyHash_iff s h : MatchPayToPubkeyHash s = Some h <-> length h = 20%nat /\ s = p2pkh_script h.
Proof.
  unfold MatchPayToPubkeyHash; fold (IsPayToPublicKeyHash s); split.
  - destruct (IsPayToPublicKeyHash s) eqn:E; [| discriminate]; intros [= <-]; apply IsPayToPublicKeyHash_iff in E as (h & Hh & ->).
    assert (E : take 20 (drop 3 ([OP_DUP : Z; OP_HASH160 : Z; 20] ++ h ++ [OP_EQUALVERIFY : Z; OP_CHECKSIG : Z])) = h)
      by (cbn [skipn app]; now apply take_app_length').
    rewrite E; auto.
  - intros [Hh ->]; assert (E : IsPayToPublicKeyHash (p2pkh_script h) = true) by (apply IsPayToPublicKeyHash_iff; eauto); rewrite E.
    f_equal; unfold p2pkh_script; cbn [skipn app]; now apply take_app_length'.
Qed.

(** ** Multisig scripts *)

(** The loop reads keys as long as there are any. *)
Lemma multisig_keys_ok fuel : forall pc acc, (length pc <= fuel)%nat ->
  exists ops rest, reads pc ops rest /\ Forall (fun o => ValidSize o.2 = true) ops /\
    multisig_keys fuel pc acc = (acc ++ map snd ops, GetOp2 rest) /\ go_ret (GetOp2 rest) && ValidSize (go_vch (GetOp2 rest)) = false.
Proof.
  induction fuel as [| fuel IH]; intros pc acc Hf; cbn [multisig_keys].
  - destruct pc; [| cbn in Hf; lia]; exists [], []; rewrite app_nil_r; repeat split; constructor.
  - destruct (go_ret (GetOp2 pc) && ValidSize (go_vch (GetOp2 pc))) eqn:E.
    2: { exists [], pc; rewrite app_nil_r; repeat split; auto; constructor. }
    apply andb_prop in E as [E1 E2]; pose proof (GetOp2_progress pc (GetOp2_ret_nonempty pc E1)) as Hp.
    destruct (IH (go_pc (GetOp2 pc)) (acc ++ [go_vch (GetOp2 pc)]) ltac:(lia)) as (ops & rest & R & F & E & Hn).
    exists ((go_opcode (GetOp2 pc), go_vch (GetOp2 pc)) :: ops), rest; rewrite E, <- app_assoc; repeat split; auto.
    apply (reads_cons pc _ _ (go_pc (GetOp2 pc))); [destruct (GetOp2 pc); cbn in *; congruence | exact R].
Qed.

(** Keys followed by something else are read up to it. *)
Lemma reads_stop ops : forall pc rest ops2 rest2, reads pc ops rest -> reads pc ops2 rest2 ->
  Forall (fun o => ValidSize o.2 = true) ops -> Forall (fun o => ValidSize o.2 = true) ops2 ->
  go_ret (GetOp2 rest) && ValidSize (go_vch (GetOp2 rest)) = false ->
  go_ret (GetOp2 rest2) && ValidSize (go_vch (GetOp2 rest2)) = false -> ops = ops2 /\ rest = rest2.
Proof.
  induction ops as [| o ops IH]; intros pc rest ops2 rest2 R R2 F F2 N N2; inversion R; subst; inversion R2; subst; auto.
  - exfalso; inv F2; match goal with E : GetOp2 rest = _ |- _ => rewrite E in N end; cbn in *; congruence.
  - exfalso; inv F; match goal with E : GetOp2 rest2 = _ |- _ => rewrite E in N2 end; cbn in *; congruence.
  - match goal with E : GetOp2 pc = _, E' : GetOp2 pc = _ |- _ => rewrite E in E'; injection E' as -> -> -> end.
    inv F; inv F2; match goal with A : reads _ ops _, B : reads _ _ rest2 |- _ => destruct (IH _ _ _ _ A B) as [-> ->] end; auto.
Qed.

Definition small_op (n : Z) : Z := OP_1 + n - 1.

(** [m] of [keys], pushed in any way. *)
Definition multisig_form (s : list Z) (m : Z) (keys : list (list Z)) : Prop :=
  1 <= m <= zlen keys /\ zlen keys <= 16 /\
  exists ops, map snd ops = keys /\ Forall (fun o => ValidSize o.2 = true) ops /\
    parses s ((small_op m, []) :: ops ++ [(small_op (zlen keys), []); (OP_CHECKMULTISIG : Z, [])]).

Lemma small_op_data op pc : IsSmallInteger op = true -> go_ret (GetOp2 pc) = true -> go_opcode (GetOp2 pc) = op ->
  GetOp2 pc = {| go_ret := true; go_pc := go_pc (GetOp2 pc); go_opcode := op; go_vch := [] |}.
Proof.
  unfold IsSmallInteger; rewrite andb_true_iff, !Z.leb_le; intros [H1 H2] Hr <-; rewrite <- (GetOp2_data pc) by (cbn in *; lia).
  now destruct (GetOp2 pc); cbn in *; subst.
Qed.

Lemma DecodeOP_N_small {E} op : IsSmallInteger op = true -> DecodeOP_N (E := E) op = Ok (op - OP_1 + 1).
Proof.
  unfold IsSmallInteger, DecodeOP_N; intros Hs; pose proof Hs as Hr; rewrite andb_true_iff, !Z.leb_le in Hr; rewrite Hs.
  rewrite (proj2 (Z.eqb_neq _ _)) by (cbn in *; lia); cbn [assert_ mbind res_bind]; f_equal; cbn; lia.
Qed.

Lemma last_of_rest ops s : forall rest x, reads s ops rest -> length rest = 1%nat -> at_ s (zlen s - 1) = x -> rest = [x].
Proof.
  assert (Hsuf : forall s ops rest, reads s ops rest -> exists pre, s = pre ++ rest).
  { clear; induction 1 as [pc | pc op data pc' ops rest E R IH]; [now exists [] |]; destruct IH as (pre & ->).
    assert (Hpre : exists p, pc = p ++ go_pc (GetOp2 pc)).
    { clear E; destruct pc as [| x pc]; [now exists [] |]; cbn [GetOp2]; destruct (x <=? OP_PUSHDATA4); [| now exists [x]].
      assert (Hz : exists p, pc = p ++ (GetOp2_size x pc).2).
      { unfold GetOp2_size; repeat case_goal; cbn; first [now exists [] | now eexists; rewrite take_drop]. }
      destruct Hz as (p & Hz); destruct (GetOp2_size x pc) as [[[|] n] pc1]; cbn in Hz; [destruct (_ || _) |]; cbn [go_pc]; subst pc.
      - now exists (x :: p).
      - exists (x :: p ++ take (Z.to_nat n) pc1); cbn; now rewrite <- app_assoc, take_drop.
      - now exists (x :: p). }
    destruct Hpre as (p & Hp); rewrite E in Hp; cbn in Hp; exists (p ++ pre); now rewrite <- app_assoc. }
  intros rest x R Hl Hx; destruct (Hsuf _ _ _ R) as (pre & ->); destruct rest as [| y [| ? ?]]; try discriminate; f_equal.
  unfold at_, zlen in Hx; rewrite length_app in Hx; cbn in Hx; replace (Z.to_nat _) with (length pre) in Hx by lia.
  now rewrite nth_middle in Hx.
Qed.

Lemma reads_app pc ops mid ops2 rest : reads pc ops mid -> reads mid ops2 rest -> reads pc (ops ++ ops2) rest.
Proof. induction 1 as [| pc op data pc' ops mid E R IH]; intros R2; [exact R2 |]; cbn; eapply reads_cons; eauto. Qed.

Lemma reads_one pc op data rest : GetOp2 pc = {| go_ret := true; go_pc := rest; go_opcode := op; go_vch := data |} -> reads pc [(op, data)] rest.
Proof. intros E; eapply reads_cons; [exact E | constructor]. Qed.

Lemma small_opcode_ret pc : IsSmallInteger (go_opcode (GetOp2 pc)) = true -> go_ret (GetOp2 pc) = true.
Proof.
  destruct pc as [| x pc]; [discriminate |]; cbn [GetOp2]; destruct (x <=? OP_PUSHDATA4); [| reflexivity].
  destruct (GetOp2_size x pc) as [[[|] n] pc1]; [destruct (_ || _); [discriminate | reflexivity] | discriminate].
Qed.

Lemma small_range op : IsSmallInteger op = true -> op = small_op (op - OP_1 + 1) /\ 1 <= op - OP_1 + 1 <= 16.
Proof. unfold IsSmallInteger, small_op; rewrite andb_true_iff, !Z.leb_le; cbn; lia. Qed.

Lemma is_small n : 1 <= n <= 16 -> IsSmallInteger (small_op n) = true.
Proof. unfold IsSmallInteger, small_op; rewrite andb_true_iff, !Z.leb_le; cbn; lia. Qed.

Lemma MatchMultisig_some {E} s m keys : MatchMultisig (E := E) s = Ok (Some (m, keys)) -> multisig_form s m keys.
Proof.
  unfold MatchMultisig; destruct (_ || _) eqn:E0; [discriminate |]; apply orb_false_iff in E0 as [_ Eb].
  rewrite negb_false_iff, Z.eqb_eq in Eb; destruct (_ || _) eqn:E1; [discriminate |]; apply orb_false_iff in E1 as [Er Es].
  rewrite negb_false_iff in Er, Es; rewrite (DecodeOP_N_small _ Es); cbn [mbind res_bind].
  pose proof (GetOp2_progress s (GetOp2_ret_nonempty s Er)) as Hp.
  destruct (multisig_keys_ok (length s) (go_pc (GetOp2 s)) [] ltac:(lia)) as (ops & rest & R & F & -> & _); cbn [app].
  destruct (IsSmallInteger (go_opcode (GetOp2 rest))) eqn:En; cbn [negb]; [| discriminate].
  rewrite (DecodeOP_N_small _ En); cbn [mbind res_bind]; destruct (_ || _) eqn:E2; [discriminate |].
  apply orb_false_iff in E2 as [Ek El]; rewrite negb_false_iff, Z.eqb_eq in Ek; apply Z.ltb_ge in El.
  destruct (Z.eqb_spec (zlen (go_pc (GetOp2 rest))) 1) as [H1 |]; [| discriminate]; intros [= <- <-].
  change (go_opcode (GetOp2 s) - 81 + 1) with (go_opcode (GetOp2 s) - OP_1 + 1); destruct (small_range _ Es) as [Ems Hm]; destruct (small_range _ En) as [Ens Hn].
  pose proof (small_op_data _ s Es Er eq_refl) as G1; pose proof (small_op_data _ rest En (small_opcode_ret rest En) eq_refl) as G2.
  split; [lia |]; split; [lia |]; exists ops; split; [reflexivity |]; split; [exact F |].
  assert (R2 : reads s ((small_op (go_opcode (GetOp2 s) - OP_1 + 1), []) :: ops ++ [(small_op (zlen (map snd ops)), [])]) (go_pc (GetOp2 rest))).
  { eapply reads_cons; [rewrite <- Ems; exact G1 |]; eapply reads_app; [exact R |]; apply reads_one; rewrite Ek, <- Ens; exact G2. }
  assert (H174 : go_pc (GetOp2 rest) = [OP_CHECKMULTISIG : Z]).
  { apply (last_of_rest _ s _ _ R2); [unfold zlen in H1; lia | exact Eb]. }
  rewrite H174 in R2; rewrite app_comm_cons; change [?a; ?b] with ([a] ++ [b]).
  rewrite app_assoc, <- (app_comm_cons ops); eapply reads_parses; [exact R2 |]; apply parses_last; [cbn; lia | reflexivity].
Qed.

Lemma reads_shorter s ops rest : reads s ops rest -> (length rest <= length s)%nat.
Proof.
  induction 1 as [| pc op data pc' ops rest E R IH]; [lia |].
  pose proof (GetOp2_progress pc (GetOp2_ret_nonempty pc ltac:(now rewrite E))) as Hp; rewrite E in Hp; cbn in Hp; lia.
Qed.

Lemma parses_snoc_last s ops op : OP_PUSHDATA4 < op -> parses s (ops ++ [(op, [])]) -> at_ s (zlen s - 1) = op /\ 1 <= zlen s.
Proof.
  intros Hop P; destruct (parses_reads ops s _ P) as (rest & R & P2); apply (parses_last _ _ Hop) in P2 as ->.
  pose proof (last_of_rest ops s [op] _ R eq_refl eq_refl) as [= E]; split; [congruence |].
  pose proof (reads_shorter _ _ _ R) as Hl; cbn in Hl; unfold zlen; lia.
Qed.

Lemma MatchMultisig_form {E} s m keys : multisig_form s m keys -> MatchMultisig (E := E) s = Ok (Some (m, keys)).
Proof.
  intros (Hm & Hn & ops & <- & F & P).
  destruct (parses_snoc_last s ((small_op m, []) :: ops ++ [(small_op (zlen (map snd ops)), [])]) OP_CHECKMULTISIG ltac:(cbn; lia)) as [Hl Hs].
  { cbn; now rewrite <- app_assoc. }
  unfold MatchMultisig; rewrite (proj2 (Z.ltb_ge _ 1)), Hl, Z.eqb_refl by lia; cbn [negb orb].
  inversion P as [| pc0 op0 data pc' ops0 E1 P1 E2 E3]; subst; rewrite E1; cbn [go_ret go_opcode go_pc].
  rewrite is_small by lia; cbn [negb orb]; rewrite DecodeOP_N_small by (apply is_small; lia); cbn [mbind res_bind].
  pose proof (GetOp2_progress s (GetOp2_ret_nonempty s ltac:(now rewrite E1))) as Hp; rewrite E1 in Hp; cbn [go_pc] in Hp.
  destruct (parses_reads ops pc' _ P1) as (rest & R & P2).
  inversion P2 as [| pc1 op1 data1 pc1' ops1 E4 P3 E5 E6]; subst; apply (parses_last _ OP_CHECKMULTISIG ltac:(cbn; lia)) in P3 as ->.
  destruct (multisig_keys_ok (length s) pc' [] ltac:(lia)) as (ops' & rest' & R' & F' & -> & N').
  destruct (reads_stop ops pc' rest ops' rest' R R' F F' ltac:(now rewrite E4) N') as [<- <-].
  rewrite E4; cbn [go_opcode go_pc app]; rewrite is_small by lia; cbn [negb]; rewrite DecodeOP_N_small by (apply is_small; lia); cbn [mbind res_bind].
  replace (small_op (zlen (map snd ops)) - OP_1 + 1) with (zlen (map snd ops)) by (unfold small_op; lia).
  replace (small_op m - OP_1 + 1) with m by (unfold small_op; lia).
  rewrite Z.eqb_refl, (proj2 (Z.ltb_ge _ m)) by lia; cbn [negb orb]; reflexivity.
Qed.

Lemma MatchMultisig_total {E} s : exists r, MatchMultisig (E := E) s = Ok r.
Proof.
  unfold MatchMultisig; destruct (_ || _); [eauto |]; destruct (_ || _) eqn:E1; [eauto |]; apply orb_false_iff in E1 as [_ Es].
  rewrite negb_false_iff in Es; rewrite (DecodeOP_N_small _ Es); cbn [mbind res_bind]; destruct (multisig_keys _ _ _) as [ks r].
  destruct (IsSmallInteger (go_opcode r)) eqn:En; cbn [negb]; [| eauto]; rewrite (DecodeOP_N_small _ En); cbn [mbind res_bind].
  destruct (_ || _); eauto.
Qed.

(** ** Classification *)

Section Classification.
Context `{HashFunctions, StandardEnv}.

(** The standard scripts, with their types and solutions. *)
Inductive standard_form (s : list Z) : txnouttype -> list (list Z) -> Prop :=
| form_pubkey k : ValidSize k = true -> s = p2pk_script k -> standard_form s TX_PUBKEY [k]
| form_pubkeyhash h : length h = 20%nat -> s = p2pkh_script h -> standard_form s TX_PUBKEYHASH [h]
| form_scripthash h : length h = 20%nat -> s = p2sh_script h -> standard_form s TX_SCRIPTHASH [h]
| form_multisig m keys : multisig_form s m keys -> standard_form s TX_MULTISIG ([m] :: keys ++ [[zlen keys]])
| form_condition sub params : IsCryptoConditionsEnabled = true -> IsPayToCryptoCondition_full s = Some (sub, params) ->
    MayAcceptCryptoCondition s = true ->
    standard_form s TX_CRYPTOCONDITION (Hash160 sub :: if komodo_is_vSolutionsFixActive then [] else param_keys params)
| form_data r ops : s = (OP_RETURN : Z) :: r -> parses r ops -> Forall (fun o => o.1 <= OP_16) ops -> standard_form s TX_NULL_DATA [].

(** The first byte tells most forms apart. *)
Lemma cc_first s sub params : IsPayToCryptoCondition_full s = Some (sub, params) ->
  0 < at_ s 0 < 76 /\ go_opcode (GetOp2 (go_pc (GetOp2 s))) = OP_CHECKCRYPTOCONDITION.
Proof.
  unfold IsPayToCryptoCondition_full; destruct (_ && _ && _) eqn:E; [| discriminate]; rewrite !andb_true_iff, !Z.ltb_lt in E.
  destruct E as [[Er Ha] Hb]; destruct (_ && _) eqn:E2; [| discriminate]; rewrite andb_true_iff, Z.eqb_eq in E2; intros _.
  rewrite (GetOp2_head s Er); cbn in *; split; [lia | tauto].
Qed.

Lemma multisig_first s m keys : multisig_form s m keys -> 81 <= at_ s 0 <= 96.
Proof.
  intros (Hm & Hn & ops & _ & _ & P); inversion P as [| pc0 op0 data pc' ops0 E1 P1 E2 E3]; subst.
  rewrite GetOp2_head, E1 by (now rewrite E1); unfold small_op; cbn; lia.
Qed.

Lemma p2pk_second k : ValidSize k = true -> go_opcode (GetOp2 (go_pc (GetOp2 (p2pk_script k)))) = OP_CHECKSIG.
Proof.
  intros Hv; assert (E : p2pk_script k = push_vch [] k ++ [OP_CHECKSIG : Z]).
  { unfold push_vch; rewrite (proj2 (Z.ltb_lt _ _)) by (change (OP_PUSHDATA1 : Z) with 76; destruct (ValidSize_sizes k Hv); lia); unfold p2pk_script; cbn [app].
    rewrite uwrap_small by (destruct (ValidSize_sizes k Hv); lia); reflexivity. }
  rewrite E, GetOp2_push_vch; [reflexivity |]; rewrite zlen_app; change (zlen [OP_CHECKSIG : Z]) with 1; destruct (ValidSize_sizes k Hv); lia.
Qed.

Lemma p2sh_first s : IsPayToScriptHash s = true -> at_ s 0 = 169.
Proof. intros (h & _ & ->)%IsPayToScriptHash_iff; reflexivity. Qed.

Lemma null_data_iff s : (1 <=? zlen s) && (at_ s 0 =? OP_RETURN) && IsPushOnly (drop 1 s) = true <->
  exists r ops, s = (OP_RETURN : Z) :: r /\ parses r ops /\ Forall (fun o => o.1 <= OP_16) ops.
Proof.
  rewrite !andb_true_iff, Z.leb_le, Z.eqb_eq, IsPushOnly_spec; split.
  - intros [[Hl Hr] (ops & P & F)]; destruct s as [| x s]; [unfold zlen in Hl; cbn in Hl; lia |]; change (x = OP_RETURN) in Hr; subst x; exists s, ops; auto.
  - intros (r & ops & -> & P & F); split; [split; [unfold zlen; cbn; lia | reflexivity] | eauto].
Qed.

Lemma solve_keys_some {E} s ty sols : solve_keys (E := E) s = Ok (true, ty, sols) -> standard_form s ty sols.
Proof.
  unfold solve_keys; destruct (MatchPayToPubkey s) as [[|] k] eqn:E1.
  { intros [= <- <-]; apply MatchPayToPubkey_iff in E1 as [Hv Hs]; now apply form_pubkey. }
  destruct (MatchPayToPubkeyHash s) as [h |] eqn:E2.
  { intros [= <- <-]; apply MatchPayToPubkeyHash_iff in E2 as [Hh Hs]; now apply form_pubkeyhash. }
  destruct (MatchMultisig_total (E := E) s) as ([[m keys] |] & E3); rewrite E3; cbn [mbind res_bind]; [| discriminate].
  apply MatchMultisig_some in E3; pose proof E3 as (Hm & Hn & _); intros [= <- <-]; rewrite !uwrap_small by lia; now apply form_multisig.
Qed.

(** The earlier tests fail on a script of one of the three forms. *)
Lemma first_tests s : at_ s 0 <> 169 -> at_ s 0 <> 106 ->
  IsPayToScriptHash s = false /\ (1 <=? zlen s) && (at_ s 0 =? OP_RETURN) && IsPushOnly (drop 1 s) = false.
Proof.
  intros H1 H2; split.
  - destruct (IsPayToScriptHash s) eqn:E; [| reflexivity]; now apply p2sh_first in E.
  - rewrite (proj2 (Z.eqb_neq (at_ s 0) OP_RETURN)) by exact H2; now rewrite andb_false_r.
Qed.

Lemma Solver_some {E} t s ty sols : Solver (E := E) t s = Ok (true, ty, sols) -> standard_form s ty sols.
Proof.
  unfold Solver; destruct (IsPayToScriptHash s) eqn:E1.
  { intros [= <- <-]; apply IsPayToScriptHash_iff in E1 as (h & Hh & ->).
    replace (take 20 (drop 2 _)) with h; [now apply form_scripthash |]; symmetry; now apply take_app_length'. }
  destruct ((1 <=? zlen s) && _ && _) eqn:E2.
  { intros [= <- <-]; apply null_data_iff in E2 as (r & ops & Hs & P & F); now apply (form_data s r ops). }
  destruct IsCryptoConditionsEnabled eqn:Ec; [| apply solve_keys_some].
  destruct (IsPayToCryptoCondition_full s) as [[sub params] |] eqn:E3; [| apply solve_keys_some].
  destruct (MayAcceptCryptoCondition s) eqn:E4; [| discriminate]; intros [= <- <-]; now apply form_condition.
Qed.

(** Nor is it a crypto condition. *)
Lemma not_condition s : (at_ s 0 <= 0 \/ 76 <= at_ s 0 \/ go_opcode (GetOp2 (go_pc (GetOp2 s))) <> OP_CHECKCRYPTOCONDITION) ->
  (if IsCryptoConditionsEnabled then IsPayToCryptoCondition_full s else None) = None.
Proof.
  intros Hn; destruct IsCryptoConditionsEnabled; [| reflexivity]; destruct (IsPayToCryptoCondition_full s) as [[sub params] |] eqn:Ef; [| reflexivity].
  apply cc_first in Ef as [Hr Ef]; lia.
Qed.

Lemma not_pubkey s : at_ s 0 <> 33 -> at_ s 0 <> 65 -> exists k, MatchPayToPubkey s = (false, k).
Proof.
  intros H1 H2; destruct (MatchPayToPubkey s) as [[|] k] eqn:E; [| eauto]; apply MatchPayToPubkey_iff in E as [Hv ->].
  destruct (ValidSize_sizes k Hv); contradiction.
Qed.

Lemma not_pubkeyhash s : at_ s 0 <> 118 -> MatchPayToPubkeyHash s = None.
Proof. intros H1; destruct (MatchPayToPubkeyHash s) eqn:E; [| reflexivity]; apply MatchPayToPubkeyHash_iff in E as [_ ->]; now destruct H1. Qed.

Lemma Solver_form {E} t s ty sols : standard_form s ty sols -> Solver (E := E) t s = Ok (true, ty, sols).
Proof.
  intros F; unfold Solver; destruct F as [k Hv Hs | h Hh Hs | h Hh Hs | m keys Hf | sub params Hc Hf Ha | r ops Hs P F].
  - assert (H33 : at_ s 0 = 33 \/ at_ s 0 = 65) by (rewrite Hs; apply (ValidSize_sizes k Hv)).
    destruct (first_tests s) as [-> ->]; [lia | lia |].
    rewrite not_condition by (right; right; rewrite Hs, p2pk_second by exact Hv; discriminate).
    unfold solve_keys; now rewrite (proj2 (MatchPayToPubkey_iff s k) (conj Hv Hs)).
  - assert (H118 : at_ s 0 = 118) by now rewrite Hs.
    destruct (first_tests s) as [-> ->]; [lia | lia |]; rewrite not_condition by lia.
    destruct (not_pubkey s) as (k & Ek); [lia | lia |]; unfold solve_keys; rewrite Ek.
    now rewrite (proj2 (MatchPayToPubkeyHash_iff s h) (conj Hh Hs)).
  - rewrite (proj2 (IsPayToScriptHash_iff s)) by eauto; rewrite Hs; repeat f_equal; now apply take_app_length'.
  - pose proof (multisig_first s m keys Hf) as Hr; pose proof Hf as (Hm & Hn & _).
    destruct (first_tests s) as [-> ->]; [lia | lia |]; rewrite not_condition by lia.
    destruct (not_pubkey s) as (k & Ek); [lia | lia |]; unfold solve_keys; rewrite Ek, not_pubkeyhash by lia.
    rewrite (MatchMultisig_form s m keys Hf); cbn [mbind res_bind]; now rewrite !uwrap_small by lia.
  - apply cc_first in Hf as Hr; destruct (first_tests s) as [-> ->]; [lia | lia |]; now rewrite Hc, Hf, Ha.
  - assert (H106 : at_ s 0 = 106) by now rewrite Hs.
    destruct (IsPayToScriptHash s) eqn:E1; [apply p2sh_first in E1; lia |].
    now rewrite (proj2 (null_data_iff s)) by eauto.
Qed.

Lemma Solver_total {E} t s : exists ok ty sols, Solver (E := E) t s = Ok (ok, ty, sols) /\ (ok = false -> sols = []).
Proof.
  unfold Solver; destruct (IsPayToScriptHash s); [repeat eexists; discriminate |]; destruct (_ && _); [repeat eexists; discriminate |].
  assert (Hk : exists ok ty sols, solve_keys (E := E) s = Ok (ok, ty, sols) /\ (ok = false -> sols = [])).
  { unfold solve_keys; destruct (MatchPayToPubkey s) as [[|] k]; [repeat eexists; discriminate |].
    destruct (MatchPayToPubkeyHash s); [repeat eexists; discriminate |].
    destruct (MatchMultisig_total (E := E) s) as ([[m keys] |] & E3); rewrite E3; cbn [mbind res_bind]; repeat eexists; discriminate || auto. }
  destruct (if IsCryptoConditionsEnabled then _ else _) as [[sub params] |]; [| exact Hk].
  destruct (MayAcceptCryptoCondition s); repeat eexists; discriminate || auto.
Qed.

(** C31: [Solver] always returns, and it recognises exactly the standard scripts:
    pay to a public key of a valid size, to a key hash, to a script hash, to [m] of
    up to sixteen keys, to a supported crypto condition where these are enabled,
    and data behind OP_RETURN; with the key, the hash, the keys with their numbers
    as solutions.  No script has two forms. *)
Theorem solver_exact (s : list Z) (t : txnouttype) :
  (forall ty sols, Solver (E := unit) t s = Ok (true, ty, sols) <-> standard_form s ty sols) /\
  ((forall ty sols, ~ standard_form s ty sols) <-> exists ty, Solver (E := unit) t s = Ok (false, ty, [])).
Proof.
  split; [split; [apply Solver_some | apply Solver_form] |].
  destruct (Solver_total (E := unit) t s) as ([|] & ty & sols & E & Hn); split.
  - intros Hno; destruct (Hno ty sols); now apply (Solver_some (E := unit) t).
  - intros (ty' & E'); congruence.
  - intros _; exists ty; now rewrite E, (Hn eq_refl).
  - intros _ ty' sols' F; apply (Solver_form (E := unit) t) in F; congruence.
Qed.

(** ** Destinations *)

Definition good_destination (d : CTxDestination) : Prop :=
  match d with
  | CNoDestination => False
  | DestPubKey k => ValidSize k = true
  | DestKeyID h | DestScriptID h => length h = 20%nat
  end.

Definition destination_script (d : CTxDestination) : list Z :=
  match d with
  | CNoDestination => []
  | DestPubKey k => p2pk_script k
  | DestKeyID h => p2pkh_script h
  | DestScriptID h => p2sh_script h
  end.

Lemma PubKey_Set_valid k : ValidSize k = true -> PubKey_Set k = k /\ PubKey_IsValid k = true.
Proof.
  intros Hv; pose proof (ValidSize_sizes k Hv) as Hz; unfold PubKey_IsValid; rewrite (proj2 (Z.ltb_lt 0 _)) by lia; split; [| reflexivity].
  unfold ValidSize in Hv; apply andb_prop in Hv as [_ Hv]; apply Z.eqb_eq in Hv; unfold PubKey_Set; destruct k as [| c k]; [reflexivity |].
  change (at_ (c :: k) 0) with c in Hv; rewrite Hv, Z.eqb_refl, (proj2 (Z.eqb_neq _ 0)) by lia; reflexivity.
Qed.

Lemma push_short l b : zlen b < 76 -> push_vch l b = l ++ zlen b :: b.
Proof.
  intros Hb; pose proof (zlen_nonneg b); unfold push_vch; rewrite (proj2 (Z.ltb_lt _ _)) by exact Hb; rewrite uwrap_small by lia.
  now rewrite <- app_assoc.
Qed.

Lemma script_of_destination {E} d : good_destination d -> GetScriptForDestination (E := E) d = Ok (destination_script d).
Proof.
  destruct d as [| k | h | h]; cbn [good_destination]; [contradiction | intros Hv | intros Hh..].
  - unfold GetScriptForDestination; rewrite push_short by (destruct (ValidSize_sizes k Hv); lia); reflexivity.
  - unfold GetScriptForDestination; cbn [push_opcode mbind res_bind]; cut20 h; reflexivity.
  - unfold GetScriptForDestination; cbn [push_opcode mbind res_bind]; cut20 h; reflexivity.
Qed.

Lemma no_lock_time {E} d : good_destination d -> after_lock_time (E := E) (destination_script d) = Ok None.
Proof.
  destruct d as [| k | h | h]; cbn [good_destination destination_script]; [contradiction | intros Hv | intros Hh..]; unfold after_lock_time.
  - assert (Es : p2pk_script k = push_vch [] k ++ [OP_CHECKSIG : Z]) by (rewrite push_short by (destruct (ValidSize_sizes k Hv); lia); reflexivity).
    rewrite Es; unfold IsCheckLockTimeVerify; rewrite GetOp2_push_vch by (rewrite zlen_app; change (zlen [OP_CHECKSIG : Z]) with 1; destruct (ValidSize_sizes k Hv); lia).
    cbn [go_ret go_vch andb]; now rewrite (proj2 (Z.ltb_ge _ 6)) by (destruct (ValidSize_sizes k Hv); lia).
  - unfold p2pkh_script; cut20 h; reflexivity.
  - unfold p2sh_script; cut20 h; reflexivity.
Qed.

Lemma destination_form d : good_destination d ->
  exists ty v, standard_form (destination_script d) ty [v] /\
    match d with DestPubKey k => ty = TX_PUBKEY /\ v = k | DestKeyID h => ty = TX_PUBKEYHASH /\ v = h
    | DestScriptID h => ty = TX_SCRIPTHASH /\ v = h | CNoDestination => False end.
Proof.
  destruct d as [| k | h | h]; cbn; [contradiction | ..]; intros Hd; eexists _, _; (split; [| split; reflexivity]).
  - now apply form_pubkey.
  - now apply form_pubkeyhash.
  - now apply form_scripthash.
Qed.

(** The address that a destination stands for when public keys are not returned. *)
Definition address_of (d : CTxDestination) : CTxDestination :=
  match d with DestPubKey k => DestKeyID (PubKey_GetID k) | _ => d end.

(** C32: the script that is built for a destination, a public key, a key hash or a
    script hash, is read back as that destination, or, when public keys are not
    asked for, as the hash of the key. *)
Theorem destination_roundtrip (d : CTxDestination) (returnPubKey : bool) :
  good_destination d ->
  exists s, GetScriptForDestination (E := unit) d = Ok s /\
    ExtractDestination (E := unit) s returnPubKey = Ok (true, Some (if returnPubKey then d else address_of d)).
Proof.
  intros Hd; exists (destination_script d); split; [now apply script_of_destination |].
  unfold ExtractDestination; rewrite (no_lock_time d Hd); cbn [mbind res_bind default].
  destruct (destination_form d Hd) as (ty & v & F & Hty); rewrite (Solver_form TX_NONSTANDARD _ ty [v] F); cbn [mbind res_bind negb].
  destruct d as [| k | h | h]; [contradiction | destruct Hty as [-> ->]..]; cbn in Hd; cbn [solution_at lookup list_lookup mbind res_bind].
  - destruct (PubKey_Set_valid k Hd) as [-> ->]; cbn; now destruct returnPubKey.
  - unfold uint160_of, zlen; rewrite Hd; cbn; now destruct returnPubKey.
  - unfold uint160_of, zlen; rewrite Hd; cbn; now destruct returnPubKey.
Qed.

Lemma parses_pushes keys : forall rest ops, Forall (fun k => ValidSize k = true) keys -> zlen rest + 66 * zlen keys < 2 ^ 32 ->
  parses rest ops -> parses (fold_left push_vch keys [] ++ rest) (map (fun k => (push_op (zlen k), k)) keys ++ ops).
Proof.
  induction keys as [| k keys IH]; intros rest ops F Hs P; [exact P |]; inv F; cbn [fold_left map app].
  rewrite fold_push_vch, <- app_assoc; rewrite zlen_cons in Hs.
  assert (Hz : forall ks, Forall (fun k => ValidSize k = true) ks -> zlen (fold_left push_vch ks []) <= 66 * zlen ks).
  { clear; induction ks as [| k ks IH]; intros F; [unfold zlen; cbn; lia |]; inv F; cbn [fold_left]; rewrite fold_push_vch, zlen_app, zlen_cons.
    rewrite push_short by (destruct (ValidSize_sizes k); auto; lia); cbn [app]; rewrite zlen_cons; specialize (IH ltac:(assumption)).
    destruct (ValidSize_sizes k); auto; lia. }
  apply parses_push; [| apply IH; auto; lia].
  rewrite !zlen_app; specialize (Hz keys ltac:(assumption)); destruct (ValidSize_sizes k); auto; lia.
Qed.

Definition multisig_script (m : Z) (keys : list (list Z)) : list Z :=
  small_op m :: fold_left push_vch keys [] ++ [small_op (zlen keys); OP_CHECKMULTISIG : Z].

Lemma script_of_multisig {E} m keys : 1 <= m <= 16 -> 1 <= zlen keys <= 16 -> GetScriptForMultisig (E := E) m keys = Ok (multisig_script m keys).
Proof.
  intros Hm Hn; unfold GetScriptForMultisig.
  assert (He : forall n, 1 <= n <= 16 -> EncodeOP_N (E := E) n = Ok (small_op n)).
  { intros n Hr; unfold EncodeOP_N; rewrite (proj2 (Z.leb_le 0 n)), (proj2 (Z.leb_le n 16)), (proj2 (Z.eqb_neq n 0)) by lia; reflexivity. }
  assert (Hp : forall n l, 1 <= n <= 16 -> push_opcode (E := E) l (small_op n) = Ok (l ++ [small_op n])).
  { intros n l Hr; unfold push_opcode, small_op; cbn [opcode_value]; rewrite (proj2 (Z.ltb_ge _ 0)), (proj2 (Z.ltb_ge 255 _)), uwrap_small by lia; reflexivity. }
  rewrite (He m Hm); cbn [mbind res_bind]; rewrite (Hp m [] Hm); cbn [mbind res_bind app].
  rewrite swrap_small, (He (zlen keys) Hn) by lia; cbn [mbind res_bind]; rewrite (Hp (zlen keys) _ Hn); cbn [mbind res_bind].
  rewrite fold_push_vch; unfold multisig_script, push_opcode; cbn -[u8 fold_left]; now rewrite <- app_assoc.
Qed.

Lemma multisig_script_form m keys : 1 <= m <= zlen keys -> zlen keys <= 16 -> Forall (fun k => ValidSize k = true) keys ->
  multisig_form (multisig_script m keys) m keys.
Proof.
  intros Hm Hn F; split; [exact Hm |]; split; [exact Hn |]; exists (map (fun k => (push_op (zlen k), k)) keys); split.
  { rewrite map_map; cbn; apply map_id. }
  split; [apply Forall_map; exact F |]; apply parses_op; [unfold small_op; cbn; lia |]; apply parses_pushes; [exact F | unfold zlen in *; cbn; lia |].
  apply parses_op; [unfold small_op; cbn; lia |]; apply parses_op; [cbn; lia | constructor].
Qed.

Lemma multisig_no_lock {E} m k keys : 1 <= m <= 16 -> ValidSize k = true -> after_lock_time (E := E) (multisig_script m (k :: keys)) = Ok None.
Proof.
  intros Hm Hv; unfold after_lock_time, IsCheckLockTimeVerify, multisig_script; cbn [GetOp2].
  rewrite (proj2 (Z.leb_gt _ _)) by (unfold small_op; cbn; lia); cbn [go_ret go_vch andb fold_left]; change (zlen [] <? 6) with true; cbn [andb].
  rewrite fold_push_vch, push_short by (destruct (ValidSize_sizes k Hv); lia); change (zlen [] + 1) with 1.
  replace (index_ _ 1) with (Ok (E := E) (zlen k)) by reflexivity; cbn [mbind res_bind].
  rewrite (proj2 (Z.eqb_neq _ _)) by (destruct (ValidSize_sizes k Hv) as [-> | ->]; discriminate); reflexivity.
Qed.

Lemma multisig_addresses_valid keys : Forall (fun k => ValidSize k = true) keys ->
  multisig_addresses keys = map (fun k => DestKeyID (PubKey_GetID k)) keys.
Proof.
  unfold multisig_addresses; induction 1 as [| k keys Hv F IH]; [reflexivity |]; cbn.
  destruct (PubKey_Set_valid k Hv) as [-> ->]; now rewrite IH.
Qed.

(** The script built for [m] of up to sixteen keys of valid sizes is read back
    with the number of required signatures and the addresses of all the keys, in
    their order. *)
Theorem multisig_roundtrip (m : Z) (keys : list (list Z)) (fuel : nat) :
  1 <= m <= zlen keys -> zlen keys <= 16 -> Forall (fun k => ValidSize k = true) keys ->
  exists s, GetScriptForMultisig (E := unit) m keys = Ok s /\
    ExtractDestinations (E := unit) fuel s = Ok (true, TX_MULTISIG, map (fun k => DestKeyID (PubKey_GetID k)) keys, Some m).
Proof.
  intros Hm Hn F; exists (multisig_script m keys); split; [apply script_of_multisig; lia |].
  pose proof (form_multisig _ m keys (multisig_script_form m keys Hm Hn F)) as Hf; apply (Solver_form (E := unit) TX_NONSTANDARD) in Hf.
  assert (Hl : after_lock_time (E := unit) (multisig_script m keys) = Ok None).
  { destruct keys as [| k keys]; [unfold zlen in Hm; cbn in Hm; lia |]; inv F; apply multisig_no_lock; [lia | assumption]. }
  destruct fuel; cbn [ExtractDestinations]; rewrite Hl; cbn [mbind res_bind]; rewrite Hf; cbn [mbind res_bind negb orb].
  all: rewrite bool_decide_eq_false_2, bool_decide_eq_true_2 by discriminate || reflexivity.
  all: cbn [solution_at lookup list_lookup mbind res_bind index_ Z.to_nat skipn].
  all: cbn [length]; rewrite length_app; cbn [length]; replace (S (length keys + 1) - 2)%nat with (length keys) by lia.
  all: rewrite drop_0, take_app_length, (multisig_addresses_valid keys F).
  all: destruct keys; [unfold zlen in Hm; cbn in Hm; lia |]; reflexivity.
Qed.
End Classification.

(** ** Examples *)

Module Example_standard.
Definition env : StandardEnv := {|
  std_ASSETCHAINS_CC := 1; komodo_is_vSolutionsFixActive := false; supported_condition := fun _ => true |}.
#[export] Existing Instances toy_hashes env.

Definition key1 : list Z := 2 :: repeat 7 32.
Definition key2 : list Z := 4 :: repeat 9 64.

(** A crypto condition with a parameter that names a key. *)
Definition condition : list Z :=
  push_vch (push_vch [] [160; 1] ++ [OP_CHECKCRYPTOCONDITION : Z]) (AsVector (mkCCParams 1 3 1 1 [key1] [])) ++ [OP_DROP : Z].

Example solver_examples :
  Solver (E := unit) TX_NONSTANDARD (p2pkh_script (repeat 5 20)) = Ok (true, TX_PUBKEYHASH, [repeat 5 20]) /\
  Solver (E := unit) TX_NONSTANDARD ((OP_RETURN : Z) :: push_vch [] [1; 2]) = Ok (true, TX_NULL_DATA, []) /\
  Solver (E := unit) TX_NONSTANDARD condition
    = Ok (true, TX_CRYPTOCONDITION, [Hash160 [2; 160; 1; OP_CHECKCRYPTOCONDITION : Z]; key1]) /\
  Solver (E := unit) TX_NONSTANDARD [OP_1 : Z; OP_CHECKSIG : Z] = Ok (false, TX_NONSTANDARD, []) /\
  IsStandard (E := unit) TX_NONSTANDARD (multisig_script 2 [key1; key2; key1]) = Ok (true, TX_MULTISIG) /\
  IsStandard (E := unit) TX_NONSTANDARD (multisig_script 2 (repeat key1 10)) = Ok (false, TX_MULTISIG).
Proof. vm_compute; repeat split; reflexivity. Qed.

(** [AsVector] writes [n] before [m] and the constructor reads them the other way
    round: parameters of one of two keys are not read back. *)
Example params_one_of_two :
  let p := mkCCParams 1 3 1 2 [key1; key2] [] in
  (cc_IsValid <$> COptCCParams_of (AsVector p)) = Some false /\
  (cc_IsValid <$> COptCCParams_of (AsVector (mkCCParams 1 3 1 1 [key1] [[8]]))) = Some true.
Proof. vm_compute; auto. Qed.

(** A lock time written as a small integer: the script behind it is looked for at
    the wrong place, and the output has no destination. *)
Example small_lock_time :
  let s := [OP_1 : Z; OP_CHECKLOCKTIMEVERIFY : Z; OP_DROP : Z] ++ p2pkh_script (repeat 5 20) in
  let s' := [1; 1; OP_CHECKLOCKTIMEVERIFY : Z; OP_DROP : Z] ++ p2pkh_script (repeat 5 20) in
  ExtractDestination (E := unit) s false = Ok (false, None) /\
  ExtractDestination (E := unit) s' false = Ok (true, Some (DestKeyID (repeat 5 20))).
Proof. vm_compute; auto. Qed.
End Example_standard.

Lemma destination_roundtrip_witness :
  exists s, GetScriptForDestination (E := unit) (DestPubKey Example_standard.key1) = Ok s /\
    ExtractDestination (H := toy_hashes) (H0 := Example_standard.env) (E := unit) s true = Ok (true, Some (DestPubKey Example_standard.key1)).
Proof.
  apply (destination_roundtrip (H := toy_hashes) (H0 := Example_standard.env) (DestPubKey Example_standard.key1) true); reflexivity.
Defined.

Lemma multisig_roundtrip_witness :
  exists s, GetScriptForMultisig (E := unit) 2 [Example_standard.key1; Example_standard.key2] = Ok s /\
    ExtractDestinations (H := toy_hashes) (H0 := Example_standard.env) (E := unit) 5 s
    = Ok (true, TX_MULTISIG, map (fun k => DestKeyID (PubKey_GetID (H := toy_hashes) k)) [Example_standard.key1; Example_standard.key2], Some 2).
Proof.
  apply (multisig_roundtrip (H := toy_hashes) (H0 := Example_standard.env) 2 [Example_standard.key1; Example_standard.key2] 5).
  - unfold zlen; cbn; lia.
  - unfold zlen; cbn; lia.
  - repeat constructor.
Defined.
