(* ===== verification/Coins.v ===== *)
(** * The unspent outputs of a transaction

    coins.h and coins.cpp, class [CCoins]: the outputs of a transaction that
    are still unspent, with the metadata that validation needs.  A spent output
    is null, and null outputs at the end are dropped. *)
From S2P Require Import Prelude Script Serialize Transaction.

Record CCoins := mkCoins { fCoinBase : bool; vout : list CTxOut; coins_nHeight : Z; coins_nVersion : Z }.

#[global] Instance CCoins_eq_dec : EqDecision CCoins.
Proof. solve_decision. Defined.

(** [CCoins()] and [Clear()]. *)
Definition coins_Clear : CCoins := mkCoins false [] 0 0.

Definition set_vout (c : CCoins) (v : list CTxOut) : CCoins :=
  mkCoins (fCoinBase c) v (coins_nHeight c) (coins_nVersion c).

(** Pops null outputs, on the reversed vector. *)
Fixpoint pop_null (l : list CTxOut) : list CTxOut :=
  match l with
  | o :: l' => if txout_IsNull o then pop_null l' else l
  | [] => []
  end.

Definition Cleanup (c : CCoins) : CCoins := set_vout c (rev (pop_null (rev (vout c)))).

Definition ClearUnspendable (c : CCoins) : CCoins :=
  Cleanup (set_vout c
    (map (fun o => if IsUnspendable (scriptPubKey o) then txout_SetNull else o) (vout c))).

Definition FromTx (tx : CTransaction) (nHeightIn : Z) : CCoins :=
  ClearUnspendable (mkCoins (IsCoinBase tx) (tx_vout tx) nHeightIn (tx_nVersion tx)).

Definition IsAvailable (c : CCoins) (nPos : Z) : bool :=
  (nPos <? zlen (vout c))
  && match vout c !! Z.to_nat nPos with Some o => negb (txout_IsNull o) | None => false end.

Definition IsPruned (c : CCoins) : bool := forallb txout_IsNull (vout c).

(** The returned boolean and the object afterwards. *)
Definition Spend (c : CCoins) (nPos : Z) : bool * CCoins :=
  if (zlen (vout c) <=? nPos)
     || match vout c !! Z.to_nat nPos with Some o => txout_IsNull o | None => true end
  then (false, c)
  else (true, Cleanup (set_vout c (<[Z.to_nat nPos := txout_SetNull]> (vout c)))).

(** [operator==]: fully spent objects are equal. *)
Definition coins_eq (a b : CCoins) : bool :=
  if IsPruned a && IsPruned b then true
  else Bool.eqb (fCoinBase a) (fCoinBase b) && (coins_nHeight a =? coins_nHeight b)
       && (coins_nVersion a =? coins_nVersion b) && bool_decide (vout a = vout b).

Definition TotalTxValue (c : CCoins) : Z := fold_left (fun t o => i64 (t + nValue o)) (vout c) 0.

(** The loop of [CalcMaskSize] over the bytes of the mask: byte [b] covers the
    outputs from [2 + 8 * b] on, which are the list [l]. *)
Fixpoint mask_loop (fuel : nat) (b : Z) (l : list CTxOut) (nLast nNonzero : Z) : Z * Z :=
  match l, fuel with
  | [], _ | _, O => (nLast, nNonzero)
  | _, S fuel =>
      if forallb txout_IsNull (take 8 l)
      then mask_loop fuel (b + 1) (drop 8 l) nLast nNonzero
      else mask_loop fuel (b + 1) (drop 8 l) (b + 1) (nNonzero + 1)
  end.

(** [nBytes] and [nNonzeroBytes], from zero. *)
Definition CalcMaskSize (c : CCoins) : Z * Z :=
  mask_loop (length (vout c)) 0 (drop 2 (vout c)) 0 0.

(** ** Lemmas *)

Lemma pop_null_suffix l : exists d, l = d ++ pop_null l /\ Forall (fun o => txout_IsNull o = true) d.
Proof.
  induction l as [| o l (d & E & F)]; [now exists [] |]; cbn [pop_null].
  destruct (txout_IsNull o) eqn:En; [| now exists []].
  exists (o :: d); split; [cbn; now f_equal | now constructor].
Qed.

(** [Cleanup] drops null outputs at the end and nothing else. *)
Lemma Cleanup_vout c : exists d,
  vout c = vout (Cleanup c) ++ d /\ Forall (fun o => txout_IsNull o = true) d.
Proof.
  destruct (pop_null_suffix (rev (vout c))) as (d & E & F).
  exists (rev d); split; [| now apply Forall_rev].
  cbn [Cleanup set_vout vout]; now rewrite <- rev_app_distr, <- E, rev_involutive.
Qed.

Lemma forallb_null_app a d :
  Forall (fun o => txout_IsNull o = true) d -> forallb txout_IsNull (a ++ d) = forallb txout_IsNull a.
Proof.
  intros F; rewrite forallb_app.
  assert (forallb txout_IsNull d = true) as -> by (apply forallb_forall, List.Forall_forall, F).
  apply andb_true_r.
Qed.

Lemma IsPruned_Cleanup c : IsPruned (Cleanup c) = IsPruned c.
Proof.
  destruct (Cleanup_vout c) as (d & E & F); unfold IsPruned; rewrite E.
  now rewrite forallb_null_app.
Qed.

Lemma lookup_null_tail (d : list CTxOut) i o :
  Forall (fun o => txout_IsNull o = true) d -> d !! i = Some o -> txout_IsNull o = true.
Proof. intros F Hi; exact (proj1 (Forall_lookup _ d) F i o Hi). Qed.

(** Availability is what the unspent output at the position says. *)
Lemma IsAvailable_iff c n :
  0 <= n -> IsAvailable c n = true <-> exists o, vout c !! Z.to_nat n = Some o /\ txout_IsNull o = false.
Proof.
  intros Hn; unfold IsAvailable, zlen; split.
  - intros E; apply andb_prop in E as [_ E]; destruct (vout c !! Z.to_nat n) as [o |]; [| discriminate].
    exists o; split; [reflexivity |]; now apply negb_true_iff.
  - intros (o & Ho & En); rewrite Ho, En; pose proof (lookup_lt_Some _ _ _ Ho).
    destruct (Z.ltb_spec n (Z.of_nat (length (vout c)))); [reflexivity | lia].
Qed.

(** Cleaning up changes the availability of no output. *)
Lemma IsAvailable_Cleanup c n : 0 <= n -> IsAvailable (Cleanup c) n = IsAvailable c n.
Proof.
  intros Hn; destruct (Cleanup_vout c) as (d & E & F); apply eq_true_iff_eq.
  rewrite !IsAvailable_iff by assumption; rewrite E; split; intros (o & Ho & En).
  - exists o; split; [| assumption]; now apply lookup_app_l_Some.
  - exists o; split; [| assumption]; apply lookup_app_Some in Ho as [Ho | [_ Ho]]; [assumption |].
    rewrite (lookup_null_tail d _ o F Ho) in En; discriminate.
Qed.

(** Spending succeeds exactly on an available output, and takes away that one. *)
Lemma Spend_spec c n :
  0 <= n ->
  fst (Spend c n) = IsAvailable c n /\
  forall m, 0 <= m ->
    IsAvailable (snd (Spend c n)) m = IsAvailable c m && negb (IsAvailable c n && (m =? n)).
Proof.
  intros Hn; unfold Spend.
  destruct (zlen (vout c) <=? n) eqn:El; cbn [orb].
  - assert (Ea : IsAvailable c n = false).
    { unfold IsAvailable; apply Z.leb_le in El; destruct (Z.ltb_spec n (zlen (vout c))); [lia |].
      reflexivity. }
    rewrite Ea; cbn; split; [reflexivity |]; intros m Hm; now rewrite andb_true_r.
  - apply Z.leb_gt in El; destruct (vout c !! Z.to_nat n) as [o |] eqn:Eo.
    2: { apply lookup_ge_None in Eo; unfold zlen in El; lia. }
    assert (Ea : IsAvailable c n = negb (txout_IsNull o)).
    { unfold IsAvailable; rewrite Eo; now destruct (Z.ltb_spec n (zlen (vout c))); [| lia]. }
    rewrite Ea; destruct (txout_IsNull o) eqn:En; cbn [negb andb fst snd]; split; try reflexivity.
    { intros m Hm; now rewrite andb_true_r. }
    intros m Hm; rewrite IsAvailable_Cleanup by assumption; apply eq_true_iff_eq.
    rewrite andb_true_iff, !IsAvailable_iff, negb_true_iff, Z.eqb_neq by assumption; cbn [set_vout vout].
    destruct (Z.eq_dec m n) as [-> | Hne].
    + rewrite list_lookup_insert_eq by (unfold zlen in El; lia); split; [| now intros [_ []]].
      intros (o' & [= <-] & H); discriminate.
    + rewrite list_lookup_insert_ne by lia; tauto.
Qed.
