(* ===== verification/CoinsSer.v ===== *)
(** * The database format of unspent outputs

    [CCoins::Serialize] and [CCoins::Unserialize] of coins.h: version, header
    code, the mask of the unspent outputs, the compressed outputs, height. *)
From S2P Require Import Prelude Endian Script Serialize VarInt Transaction Compressor Coins.

(** ** Writing *)

(** The inner loop that sets bit [i] of [chAvail] for each unspent output. *)
Fixpoint avail_loop (i : Z) (l : list CTxOut) (chAvail : Z) : Z :=
  match l with
  | [] => chAvail
  | o :: l => avail_loop (i + 1) l (if txout_IsNull o then chAvail else u8 (Z.lor chAvail (Z.shiftl 1 i)))
  end.

(** The outer loop: [n] bytes of the mask, for the outputs [l]. *)
Fixpoint mask_bytes (n : nat) (l : list CTxOut) : list Z :=
  match n with
  | O => []
  | S n => ser_writedata8 (avail_loop 0 (take 8 l) 0) ++ mask_bytes n (drop 8 l)
  end.

Section CoinsSer.
Context `{PubKeys}.

(** The outputs that are not null. *)
Fixpoint write_txouts (l : list CTxOut) : res unit (list Z) :=
  match l with
  | [] => Ok []
  | o :: l =>
      if txout_IsNull o then write_txouts l
      else a ← txout_Serialize o; b ← write_txouts l; Ok (a ++ b)
  end.

Definition first_unspent (c : CCoins) (n : nat) : bool :=
  match vout c !! n with Some o => negb (txout_IsNull o) | None => false end.

Definition coins_code (c : CCoins) (nMaskCode : Z) : Z :=
  let fFirst := first_unspent c 0 in
  let fSecond := first_unspent c 1 in
  u32 (8 * u32 (nMaskCode - (if fFirst || fSecond then 0 else 1)) + (if fCoinBase c then 1 else 0)
       + (if fFirst then 2 else 0) + (if fSecond then 4 else 0)).

Definition coins_Serialize (c : CCoins) : res unit (list Z) :=
  let '(nMaskSize, nMaskCode) := CalcMaskSize c in
  let fFirst := first_unspent c 0 in
  let fSecond := first_unspent c 1 in
  _ ← assert_ (fFirst || fSecond || negb (nMaskCode =? 0));
  version ← WriteVarInt int_t (coins_nVersion c);
  code ← WriteVarInt uint32_t (coins_code c nMaskCode);
  outs ← write_txouts (vout c);
  height ← WriteVarInt int_t (coins_nHeight c);
  Ok (version ++ code ++ mask_bytes (Z.to_nat nMaskSize) (drop 2 (vout c)) ++ outs ++ height).

(** ** Reading *)

(** The eight bits of a byte of the mask. *)
Definition mask_bits (chAvail : Z) : list bool :=
  map (fun p => negb (Z.land chAvail (Z.shiftl 1 p) =? 0)) [0; 1; 2; 3; 4; 5; 6; 7].

(** [while (nMaskCode > 0)]; each round reads a byte of the stream. *)
Fixpoint read_mask (nMaskCode : Z) (vAvail : list bool) (s : list Z) : res unit (list bool * list Z) :=
  if 0 <? nMaskCode then
    match s with
    | [] => Exn ios_failure
    | chAvail :: s =>
        read_mask (if negb (chAvail =? 0) then u32 (nMaskCode - 1) else nMaskCode)
          (vAvail ++ mask_bits chAvail) s
    end
  else Ok (vAvail, s).

(** The outputs: null, or read where the mask says so. *)
Fixpoint read_txouts (vAvail : list bool) : reader (list CTxOut) :=
  match vAvail with
  | [] => mret []
  | a :: vAvail =>
      o ← (if a then txout_Unserialize txout_SetNull else mret txout_SetNull);
      l ← read_txouts vAvail;
      mret (o :: l)
  end.

Definition coins_Unserialize : reader CCoins :=
  version ← ReadVarInt int_t;
  nCode ← ReadVarInt uint32_t;
  let cb := negb (Z.land nCode 1 =? 0) in
  let vAvail := [negb (Z.land nCode 2 =? 0); negb (Z.land nCode 4 =? 0)] in
  let nMaskCode := u32 (nCode / 8 + (if negb (Z.land nCode 6 =? 0) then 0 else 1)) in
  vAvail ← read_mask nMaskCode vAvail;
  outs ← read_txouts vAvail;
  height ← ReadVarInt int_t;
  mret (Cleanup (mkCoins cb outs height version)).
End CoinsSer.

(** ** The mask *)

(** Which outputs are unspent. *)
Definition avail (l : list CTxOut) : list bool := map (fun o => negb (txout_IsNull o)) l.

(** The byte of a list of bits. *)
Fixpoint bits_byte (i : Z) (l : list bool) (ch : Z) : Z :=
  match l with
  | [] => ch
  | b :: l => bits_byte (i + 1) l (if b then u8 (Z.lor ch (Z.shiftl 1 i)) else ch)
  end.

Lemma avail_loop_bits l : forall i ch, avail_loop i l ch = bits_byte i (avail l) ch.
Proof.
  induction l as [| o l IH]; intros i ch; cbn [avail_loop avail map bits_byte]; [reflexivity |].
  rewrite IH; now destruct (txout_IsNull o).
Qed.

Lemma bits_byte_spec l :
  (length l <= 8)%nat ->
  is_byte (bits_byte 0 l 0) /\ (bits_byte 0 l 0 =? 0) = forallb negb l /\
  mask_bits (bits_byte 0 l 0) = l ++ replicate (8 - length l) false.
Proof.
  intros Hl; do 9 (destruct l as [| [] l]; [vm_compute; repeat split; discriminate | cbn in Hl..]); lia.
Qed.

(** The last output, if any, is unspent. *)
Definition trimmed (l : list CTxOut) : Prop := forall l' o, l = l' ++ [o] -> txout_IsNull o = false.

Lemma trimmed_drop n l : trimmed l -> trimmed (drop n l).
Proof.
  intros Ht l' o E; apply (Ht (take n l ++ l')); now rewrite <- app_assoc, <- E, take_drop.
Qed.

Lemma forallb_avail l : forallb negb (avail l) = forallb txout_IsNull l.
Proof.
  unfold avail; induction l as [| o l IH]; cbn [map forallb]; [reflexivity |]; now rewrite IH, negb_involutive.
Qed.

Lemma trimmed_not_null l : l <> [] -> trimmed l -> forallb txout_IsNull l = false.
Proof.
  intros Hne Ht; destruct (exists_last Hne) as (l' & o & E); pose proof (Ht l' o E) as Hn.
  rewrite E, forallb_app; cbn; rewrite Hn; apply andb_false_r.
Qed.

(** One round of reading. *)
Lemma read_mask_byte cnt acc ch rest :
  0 < cnt < 2 ^ 32 ->
  read_mask cnt acc (ch :: rest) = read_mask (if ch =? 0 then cnt else cnt - 1) (acc ++ mask_bits ch) rest.
Proof.
  intros Hc; cbn [read_mask]; destruct (Z.ltb_spec 0 cnt); [| lia].
  destruct (ch =? 0); cbn [negb]; rewrite ?uwrap_small by lia; reflexivity.
Qed.

Lemma read_mask_done acc rest : read_mask 0 acc rest = Ok (acc, rest).
Proof. now destruct rest. Qed.

(** [CalcMaskSize] counts the bytes of the mask, and reading as many non-zero
    bytes as it says gives the mask, padded to a whole byte. *)
Definition mask_ok (l : list CTxOut) (n : nat) (cnt : Z) (k : nat) : Prop :=
  0 <= cnt /\ 8 * cnt <= zlen l + 7 /\ (l <> [] -> 0 < cnt) /\ (l = [] -> cnt = 0 /\ k = O) /\
  bytes (mask_bytes n l) /\
  forall acc rest, read_mask cnt acc (mask_bytes n l ++ rest) = Ok (acc ++ avail l ++ replicate k false, rest).

Lemma mask_ok_nil : mask_ok [] 0 0 0.
Proof.
  split; [lia |]; split; [unfold zlen; cbn; lia |]; split; [congruence |]; split; [easy |]; split; [constructor |].
  intros acc rest; cbn; now rewrite app_nil_r, read_mask_done.
Qed.

(** The byte of eight outputs, or of the last ones. *)
Lemma chunk_byte l :
  let ch := avail_loop 0 (take 8 l) 0 in
  is_byte ch /\ (ch =? 0) = forallb txout_IsNull (take 8 l) /\
  mask_bits ch = avail (take 8 l) ++ replicate (8 - length (take 8 l)) false.
Proof.
  cbv zeta; rewrite avail_loop_bits.
  destruct (bits_byte_spec (avail (take 8 l))) as (H1 & H2 & H3); [unfold avail; rewrite length_map, length_take; lia |].
  rewrite forallb_avail in H2; unfold avail at 3 in H3; rewrite length_map in H3; auto.
Qed.

Lemma mask_ok_step l n cnt k :
  l <> [] -> trimmed l -> zlen l < 2 ^ 31 -> mask_ok (drop 8 l) n cnt k ->
  exists k', mask_ok l (S n) (cnt + (if forallb txout_IsNull (take 8 l) then 0 else 1)) k'.
Proof.
  intros Hne Ht Hz (H0 & H8 & Hpos & Hnil & Hb & Hr).
  destruct (chunk_byte l) as (Hcb & Hc0 & Hcm).
  assert (Hlen : length (take 8 l) = 8%nat \/ drop 8 l = []).
  { rewrite length_take; destruct (Nat.le_gt_cases 8 (length l)); [left; lia | right; apply drop_ge; lia]. }
  assert (Hlast : drop 8 l = [] -> forallb txout_IsNull (take 8 l) = false).
  { intros E; rewrite <- (take_drop 8 l), E, app_nil_r in Hne, Ht; now apply trimmed_not_null. }
  assert (Hlpos : 0 < zlen l) by (pose proof (zlen_nonneg l); destruct (Z.eq_dec (zlen l) 0) as [E |]; [now apply zlen_0_nil in E | lia]).
  exists (8 - length (take 8 l) + k)%nat; set (z := forallb txout_IsNull (take 8 l)) in *.
  assert (Hd : drop 8 l <> [] -> zlen (drop 8 l) = zlen l - 8).
  { intros Hd; unfold zlen; rewrite length_drop; destruct Hlen as [E | E]; [| contradiction].
    rewrite length_take in E; lia. }
  assert (Hcase : (drop 8 l = [] /\ cnt = 0 /\ k = O /\ z = false) \/ (drop 8 l <> [] /\ 0 < cnt /\ length (take 8 l) = 8%nat)).
  { destruct (drop 8 l) eqn:E; [left | right].
    - destruct (Hnil eq_refl) as [-> ->]; auto.
    - split; [discriminate |]; split; [apply Hpos; discriminate |]; destruct Hlen as [? | [=]]; assumption. }
  split; [destruct z; lia |]; split.
  { destruct Hcase as [(E & -> & _) | (E & _)]; [destruct z; lia |]; rewrite (Hd E) in H8; destruct z; lia. }
  split; [intros _; destruct Hcase as [(_ & -> & _ & Ez) | (_ & ? & _)]; destruct z; (congruence || lia) |]; split; [contradiction |].
  split; [cbn [mask_bytes ser_writedata8 app]; constructor; [| exact Hb] |].
  { unfold is_byte in *; now rewrite uwrap_small by lia. }
  intros acc rest; cbn [mask_bytes ser_writedata8 app].
  rewrite uwrap_small by (unfold is_byte in *; lia); rewrite read_mask_byte
    by (destruct Hcase as [(_ & -> & _ & Ez) | (E & ? & _)]; try rewrite (Hd E) in H8; destruct z; (congruence || lia)).
  rewrite Hc0, Hcm; fold z.
  replace (if z then _ else _) with cnt by (destruct z; lia).
  rewrite Hr, <- app_assoc; do 3 f_equal; rewrite <- app_assoc.
  rewrite <- (take_drop 8 l) at 4; unfold avail; rewrite map_app, <- app_assoc; f_equal.
  destruct Hcase as [(E & _ & -> & _) | (_ & _ & ->)]; [rewrite E; cbn | reflexivity].
  now rewrite Nat.add_0_r, app_nil_r.
Qed.

Lemma mask_spec fuel : forall l b nl nz,
  (length l <= fuel)%nat -> trimmed l -> zlen l < 2 ^ 31 ->
  exists n cnt k, mask_ok l n cnt k /\
    mask_loop fuel b l nl nz = (match n with O => nl | _ => b + Z.of_nat n end, nz + cnt).
Proof.
  induction fuel as [| fuel IH]; intros l b nl nz Hf Ht Hz.
  { destruct l; [| cbn in Hf; lia]; exists 0%nat, 0, 0%nat; rewrite Z.add_0_r.
    split; [apply mask_ok_nil | reflexivity]. }
  destruct l as [| o l0] eqn:El.
  { exists 0%nat, 0, 0%nat; rewrite Z.add_0_r; split; [apply mask_ok_nil | reflexivity]. }
  assert (Hne : o :: l0 <> []) by discriminate; rewrite <- El in *; clear El.
  assert (Hu : forall fuel, mask_loop (S fuel) b l nl nz =
    if forallb txout_IsNull (take 8 l) then mask_loop fuel (b + 1) (drop 8 l) nl nz
    else mask_loop fuel (b + 1) (drop 8 l) (b + 1) (nz + 1)) by (intros; destruct l; [congruence | reflexivity]).
  rewrite Hu; clear Hu o l0.
  assert (Hf' : (length (drop 8 l) <= fuel)%nat) by (rewrite length_drop; lia).
  assert (Hz' : zlen (drop 8 l) < 2 ^ 31) by (unfold zlen in *; rewrite length_drop; lia).
  pose proof (trimmed_drop 8 l Ht) as Ht'.
  destruct (forallb txout_IsNull (take 8 l)) eqn:Hz8.
  - destruct (IH (drop 8 l) (b + 1) nl nz Hf' Ht' Hz') as (n & cnt & k & Hm & E).
    destruct (mask_ok_step l n cnt k Hne Ht Hz Hm) as (k' & Hm'); rewrite Hz8 in Hm'.
    eexists (S n), _, k'; split; [exact Hm' |]; rewrite E; f_equal; [| lia].
    destruct n; [| lia]; destruct Hm as (_ & _ & Hp & Hn & _ & Hr).
    destruct (drop 8 l) eqn:Ed.
    + rewrite <- (take_drop 8 l), Ed, app_nil_r in Ht, Hne; now rewrite trimmed_not_null in Hz8.
    + specialize (Hr [] []); specialize (Hp ltac:(discriminate)); cbn in Hr.
      destruct (Z.ltb_spec 0 cnt); [discriminate | lia].
  - destruct (IH (drop 8 l) (b + 1) (b + 1) (nz + 1) Hf' Ht' Hz') as (n & cnt & k & Hm & E).
    destruct (mask_ok_step l n cnt k Hne Ht Hz Hm) as (k' & Hm'); rewrite Hz8 in Hm'.
    eexists (S n), _, k'; split; [exact Hm' |]; rewrite E; f_equal; [| lia]; destruct n; lia.
Qed.

(** ** The whole object *)

(** Coins the database keeps: with an unspent output, no null output at the
    end, spent outputs cleared, and fields in range. *)
Definition coins_storable (c : CCoins) : Prop :=
  vout c <> [] /\ trimmed (vout c) /\ zlen (vout c) < 2 ^ 31 /\
  Forall (fun o => if txout_IsNull o then o = txout_SetNull else txout_compressible o) (vout c) /\
  0 <= coins_nHeight c < 2 ^ 31 /\ 0 <= coins_nVersion c < 2 ^ 31.

(** The same, without the unspent output: what the operations keep. *)
Definition coins_trim_inv (c : CCoins) : Prop :=
  trimmed (vout c) /\ zlen (vout c) < 2 ^ 31 /\
  Forall (fun o => if txout_IsNull o then o = txout_SetNull else txout_compressible o) (vout c) /\
  0 <= coins_nHeight c < 2 ^ 31 /\ 0 <= coins_nVersion c < 2 ^ 31.

Lemma pop_null_not_null l o r : pop_null l = o :: r -> txout_IsNull o = false.
Proof.
  induction l as [| a l IH]; cbn; [discriminate |].
  destruct (txout_IsNull a) eqn:Ea; [exact IH | now intros [= <- _]].
Qed.

Lemma trimmed_Cleanup c : trimmed (vout (Cleanup c)).
Proof.
  intros l' o E; cbn in E; apply (f_equal (@rev _)) in E; rewrite rev_involutive, rev_app_distr in E.
  exact (pop_null_not_null _ _ _ E).
Qed.

Lemma coins_trim_inv_Cleanup c :
  zlen (vout c) < 2 ^ 31 ->
  Forall (fun o => if txout_IsNull o then o = txout_SetNull else txout_compressible o) (vout c) ->
  0 <= coins_nHeight c < 2 ^ 31 -> 0 <= coins_nVersion c < 2 ^ 31 -> coins_trim_inv (Cleanup c).
Proof.
  intros Hz Hf Hh Hv; split; [apply trimmed_Cleanup |].
  destruct (Cleanup_vout c) as (d & E & _); rewrite E in Hz, Hf; rewrite zlen_app in Hz.
  apply Forall_app in Hf as [Hf _]; pose proof (zlen_nonneg d); split; [lia |]; now split.
Qed.

Lemma coins_trim_inv_Spend c n : coins_trim_inv c -> coins_trim_inv (snd (Spend c n)).
Proof.
  intros Hc; unfold Spend; case_match; [exact Hc |]; destruct Hc as (_ & Hz & Hf & Hh & Hv).
  apply coins_trim_inv_Cleanup; cbn [set_vout vout coins_nHeight coins_nVersion snd]; auto.
  - unfold zlen in *; now rewrite length_insert.
  - apply Forall_insert; [exact Hf | reflexivity].
Qed.

Lemma coins_trim_inv_FromTx tx h :
  Forall txout_compressible (tx_vout tx) -> zlen (tx_vout tx) < 2 ^ 31 ->
  0 <= h < 2 ^ 31 -> 0 <= tx_nVersion tx < 2 ^ 31 -> coins_trim_inv (FromTx tx h).
Proof.
  intros Hf Hz Hh Hv; apply coins_trim_inv_Cleanup; cbn [set_vout vout coins_nHeight coins_nVersion]; auto.
  - unfold zlen in *; now rewrite length_map.
  - apply Forall_fmap; clear Hz; induction Hf as [| o l Ho _ IH]; constructor; auto; cbn.
    destruct (IsUnspendable (scriptPubKey o)); [reflexivity |]; destruct Ho as (H0 & Ho).
    unfold txout_IsNull; destruct (Z.eqb_spec (nValue o) (-1)); [lia | now split].
Qed.

Lemma inv_storable c : coins_trim_inv c -> IsPruned c = false -> coins_storable c.
Proof. intros Hc Hp; split; [| exact Hc]; intros E; unfold IsPruned in Hp; now rewrite E in Hp. Qed.

Lemma pop_null_app d l : Forall (fun o => txout_IsNull o = true) d -> pop_null (d ++ l) = pop_null l.
Proof. induction 1 as [| o d Ho _ IH]; cbn; [reflexivity | now rewrite Ho]. Qed.

Lemma Cleanup_padding cb v k h n :
  trimmed v -> Cleanup (mkCoins cb (v ++ replicate k txout_SetNull) h n) = mkCoins cb v h n.
Proof.
  intros Ht; unfold Cleanup; cbn [vout]; rewrite rev_app_distr, pop_null_app.
  2: { apply Forall_rev, Forall_replicate; reflexivity. }
  enough (pop_null (rev v) = rev v) as -> by (rewrite rev_involutive; reflexivity).
  destruct (rev v) as [| o r] eqn:Er; [reflexivity |]; cbn [pop_null].
  rewrite (Ht (rev r) o); [reflexivity |]; rewrite <- (rev_involutive v), Er; reflexivity.
Qed.

(** The header code and its parts. *)
Lemma land_low x q m : 0 <= x < 8 -> 0 <= m < 8 -> Z.land (8 * q + x) m = Z.land x m.
Proof.
  intros Hx Hm; assert (E : m = Z.land 7 m).
  { rewrite Z.land_comm; change 7 with (2 ^ 3 - 1); rewrite land_mask_mod by lia; symmetry; apply Z.mod_small; lia. }
  rewrite E, !Z.land_assoc; f_equal; change 7 with (2 ^ 3 - 1); rewrite !land_mask_mod by lia.
  change (2 ^ 3) with 8; rewrite Z.add_comm, Z.mul_comm, Z.mod_add by lia; reflexivity.
Qed.

Lemma code_parts (q : Z) (cb f g : bool) :
  let code := 8 * q + (if cb then 1 else 0) + (if f then 2 else 0) + (if g then 4 else 0) in
  negb (Z.land code 1 =? 0) = cb /\ negb (Z.land code 2 =? 0) = f /\ negb (Z.land code 4 =? 0) = g /\
  negb (Z.land code 6 =? 0) = f || g /\ code / 8 = q.
Proof.
  cbv zeta; set (x := (if cb then 1 else 0) + (if f then 2 else 0) + (if g then 4 else 0)).
  replace (8 * q + _ + _ + _) with (8 * q + x) by (unfold x; lia).
  assert (Hx : 0 <= x < 8) by (unfold x; destruct cb, f, g; lia).
  rewrite !land_low by lia; split; [| split; [| split; [| split]]]; try (unfold x; now destruct cb, f, g).
  rewrite Z.add_comm, Z.mul_comm, Z.div_add, Z.div_small by lia; reflexivity.
Qed.

Section Roundtrip.
Context `{PubKeys, !PubKeysOk H}.

Lemma txouts_roundtrip l :
  Forall (fun o => if txout_IsNull o then o = txout_SetNull else txout_compressible o) l ->
  exists out, write_txouts l = Ok out /\ bytes out /\
    forall k rest, read_txouts (avail l ++ replicate k false) (out ++ rest)
                   = Ok (l ++ replicate k txout_SetNull, rest).
Proof.
  induction 1 as [| o l Ho _ (out & Hw & Hb & Hr)]; cbn [write_txouts].
  { exists []; split; [reflexivity |]; split; [constructor |]; intros k rest; cbn.
    induction k as [| k IH]; cbn; [reflexivity |]; unfold mbind, reader_bind, mret, reader_ret; now rewrite IH. }
  unfold avail; cbn [map app read_txouts]; fold (avail l); destruct (txout_IsNull o) eqn:En; cbn [negb].
  - exists out; split; [exact Hw |]; split; [exact Hb |]; intros k rest.
    unfold mbind, reader_bind, mret, reader_ret; now rewrite Hr, <- Ho.
  - destruct (txout_roundtrip o Ho) as (a & Ha & Ba & Ga); rewrite Ha, Hw; cbn [mbind res_bind].
    exists (a ++ out); split; [reflexivity |]; split; [now apply Forall_app |]; intros k rest.
    unfold mbind, reader_bind, mret, reader_ret; now rewrite <- app_assoc, Ga, Hr.
Qed.

(** The two bits of the header code and the mask make up the availability vector. *)
Lemma avail_split c k :
  (drop 2 (vout c) = [] -> k = O) ->
  exists k', [first_unspent c 0; first_unspent c 1] ++ avail (drop 2 (vout c)) ++ replicate k false
             = avail (vout c) ++ replicate k' false.
Proof.
  unfold first_unspent; destruct (vout c) as [| a [| b l]]; intros Hk.
  - rewrite (Hk eq_refl); now exists 2%nat.
  - rewrite (Hk eq_refl); now exists 1%nat.
  - now exists k.
Qed.

Lemma write_varint I w n :
  type_ok I w -> 0 <= n < 2 ^ w ->
  exists out, WriteVarInt I n = Ok out /\ bytes out /\ forall rest, ReadVarInt I (out ++ rest) = Ok (n, rest).
Proof.
  intros HI Hn; destruct (writes_varint I w HI n Hn) as (v & Hp & Bv & Hg); cbn in Hp, Hg.
  destruct (WriteVarInt I n) as [v' | |]; try discriminate; cbn in Hp; injection Hp as ->; eauto.
Qed.

(** Some output is unspent, and the header code says where to look. *)
Lemma unspent_somewhere c :
  vout c <> [] -> trimmed (vout c) ->
  first_unspent c 0 || first_unspent c 1 = true \/ drop 2 (vout c) <> [].
Proof.
  unfold first_unspent; destruct (vout c) as [| a [| b [| d l]]] eqn:E; intros Hne Ht; [congruence | left..|].
  - cbn; now rewrite (Ht [] a eq_refl).
  - cbn; rewrite (Ht [a] b eq_refl); apply orb_true_r.
  - right; discriminate.
Qed.

Lemma coins_roundtrip c :
  coins_storable c ->
  exists out, coins_Serialize c = Ok out /\ bytes out /\
    forall rest, coins_Unserialize (out ++ rest) = Ok (c, rest).
Proof.
  intros (Hne & Ht & Hz & Ho & Hh & Hv); unfold coins_Serialize, CalcMaskSize.
  destruct (mask_spec (length (vout c)) (drop 2 (vout c)) 0 0 0) as (n & cnt & k & Hm & ->);
    [rewrite length_drop; lia | now apply trimmed_drop | unfold zlen in *; rewrite length_drop; lia |].
  replace (Z.to_nat (match n with O => 0 | _ => 0 + Z.of_nat n end)) with n by (destruct n; lia).
  rewrite Z.add_0_l; destruct Hm as (Hc0 & Hc8 & Hcp & Hcn & Bm & Rm).
  destruct (avail_split c k) as (k' & Ek); [intros E; apply Hcn, E |].
  set (f := first_unspent c 0) in *; set (g := first_unspent c 1) in *.
  assert (Hfg : f || g = true \/ 0 < cnt) by (destruct (unspent_somewhere c Hne Ht); auto).
  assert (f || g || negb (cnt =? 0) = true) as ->
    by (destruct Hfg as [-> | ?]; [reflexivity | rewrite (proj2 (Z.eqb_neq cnt 0)) by lia; apply orb_true_r]).
  cbn [assert_]; pose (q := cnt - (if f || g then 0 else 1)).
  assert (Hq : 0 <= q /\ 8 * q <= zlen (vout c) + 7).
  { assert (zlen (drop 2 (vout c)) <= zlen (vout c)) by (unfold zlen; rewrite length_drop; lia).
    unfold q; destruct (f || g); [lia |]; destruct Hfg as [[=] | ?]; lia. }
  assert (Hu : forall cb a b : bool,
    0 <= 8 * q + (if cb then 1 else 0) + (if a then 2 else 0) + (if b then 4 else 0) < 2 ^ 32)
    by (intros [] [] []; lia).
  specialize (Hu (fCoinBase c) f g); unfold coins_code; cbv zeta; fold f g; fold q.
  rewrite (uwrap_small 32 q), (uwrap_small 32 (8 * q + _ + _ + _)) by lia.
  destruct (code_parts q (fCoinBase c) f g) as (P1 & P2 & P3 & P4 & P5).
  set (code := 8 * q + _ + _ + _) in *; clearbody code.
  destruct (write_varint int_t 31 _ int_ok Hv) as (o1 & -> & B1 & G1).
  destruct (write_varint uint32_t 32 _ uint32_ok Hu) as (o2 & -> & B2 & G2).
  destruct (txouts_roundtrip _ Ho) as (o3 & -> & B3 & G3).
  destruct (write_varint int_t 31 _ int_ok Hh) as (o4 & -> & B4 & G4); cbn [mbind res_bind].
  eexists; split; [reflexivity |]; split; [repeat (apply Forall_app; split; [assumption |]); assumption |].
  intros rest; unfold coins_Unserialize, mbind, reader_bind; rewrite <- !app_assoc, G1, G2; cbv zeta.
  rewrite P1, P2, P3, P4, P5.
  replace (q + (if f || g then 0 else 1)) with cnt by (unfold q; lia).
  rewrite uwrap_small by (assert (zlen (drop 2 (vout c)) <= zlen (vout c)) by (unfold zlen; rewrite length_drop; lia); lia).
  rewrite Rm, Ek, G3, G4; unfold mret, reader_ret; rewrite Cleanup_padding by assumption; now destruct c.
Qed.
End Roundtrip.

(** ** Properties *)

(** The coins of a transaction after outputs have been spent in turn. *)
Definition spend_all (c : CCoins) (ps : list Z) : CCoins := fold_left (fun c n => snd (Spend c n)) ps c.

Section Properties.
Context `{PubKeys, !PubKeysOk H}.

(** C33: the coins of any transaction, after any sequence of spends of its
    outputs, are either fully spent, and then not stored, or are written without
    an assertion failing and read back exactly, and what follows in the stream
    is left: the mask, the header code and the compressed outputs lose nothing,
    and reading drops the padding of the mask again. *)
Theorem coins_db_roundtrip (tx : CTransaction) (nHeight : Z) (ps : list Z) :
  Forall txout_compressible (tx_vout tx) -> zlen (tx_vout tx) < 2 ^ 31 ->
  0 <= nHeight < 2 ^ 31 -> 0 <= tx_nVersion tx < 2 ^ 31 ->
  let c := spend_all (FromTx tx nHeight) ps in
  IsPruned c = true \/
  exists out, coins_Serialize c = Ok out /\ bytes out /\
    forall rest, coins_Unserialize (out ++ rest) = Ok (c, rest).
Proof.
  intros Hf Hz Hh Hv c; assert (Hc : coins_trim_inv c).
  { unfold c, spend_all; pose proof (coins_trim_inv_FromTx tx nHeight Hf Hz Hh Hv) as Hi; revert Hi.
    generalize (FromTx tx nHeight); induction ps as [| p ps IH]; intros c0 Hi; cbn; [exact Hi |].
    apply IH; now apply coins_trim_inv_Spend. }
  destruct (IsPruned c) eqn:Ep; [now left | right]; apply coins_roundtrip; now apply inv_storable.
Qed.
End Properties.

Import Example_keys.

(** A transaction with eleven outputs of which all but the first two and the
    fifth are spent. *)
Definition eleven : CTransaction :=
  mkTx false 1 0 []
    (replicate 10 (mkTxOut 5000 [81]) ++ [mkTxOut 7 ([OP_HASH160 : Z; 20] ++ replicate 20 9 ++ [OP_EQUAL : Z])])
    0 0 0 [] [] [] [] [] [].
Definition spends : list Z := [10; 9; 2; 3; 5; 8; 7; 6].

Lemma coins_db_roundtrip_witness :
  let c := spend_all (FromTx eleven 1000) spends in
  vout c = [mkTxOut 5000 [81]; mkTxOut 5000 [81]; txout_SetNull; txout_SetNull; mkTxOut 5000 [81]] /\
  exists out, coins_Serialize c = Ok out /\ bytes out /\
    forall rest, coins_Unserialize (out ++ rest) = Ok (c, rest).
Proof.
  cbv zeta; split; [reflexivity |].
  destruct (coins_db_roundtrip eleven 1000 spends) as [E | E];
    [| vm_compute; reflexivity | lia | vm_compute; split; easy | discriminate | exact E].
  repeat apply Forall_cons_2; try apply Forall_nil_2;
    (split; [cbn; lia |]; split; [cbn; lia |]; split; [| vm_compute; discriminate];
     cbn; repeat (apply Forall_cons_2; [vm_compute; split; easy |]); apply Forall_nil_2).
Defined.
