(* ===== verification/PartialMerkle.v ===== *)
(** * Partial Merkle trees

    merkleblock.cpp and merkleblock.h: the proof that some transactions belong
    to a block, as built for a light client, sent, and checked by it. *)
From stdpp Require Import list gmap.
From S2P Require Import Prelude Endian Hashing Merkle Serialize CoinsSer.

Record CPartialMerkleTree := mkPMT {
  nTransactions : Z; vBits : list bool; vHash : list uint256; fBad : bool }.

Definition CalcTreeWidth (nTransactions : Z) (height : nat) : Z :=
  Z.shiftr (u32 (nTransactions + Z.shiftl 1 (Z.of_nat height) - 1)) (Z.of_nat height).

(** [while (CalcTreeWidth(nHeight) > 1) nHeight++;]; at most 32 rounds. *)
Fixpoint tree_height {E} (fuel : nat) (n : Z) (nHeight : nat) : res E nat :=
  if 1 <? CalcTreeWidth n nHeight then
    match fuel with O => Exn out_of_fuel | S fuel => tree_height fuel n (S nHeight) end
  else Ok nHeight.

Section Code.
Context `{HashFunctions}.

(** ** Building *)

Fixpoint CalcHash {E} (n : Z) (height : nat) (pos : Z) (vTxid : list uint256) : res E uint256 :=
  match height with
  | O => tree_at vTxid pos
  | S height =>
      left ← CalcHash n height (u32 (pos * 2)) vTxid;
      right ← (if u32 (pos * 2 + 1) <? CalcTreeWidth n height
               then CalcHash n height (u32 (pos * 2 + 1)) vTxid else Ok left);
      Ok (Hash2 left right)
  end.

(** The loop over the transactions below a node, [k] of them at most from [p]. *)
Fixpoint parent_of_match {E} (n : Z) (k : nat) (p : Z) (vMatch : list bool) (f : bool) : res E bool :=
  match k with
  | O => Ok f
  | S k =>
      if p <? n then
        match vMatch !! Z.to_nat p with
        | Some b => parent_of_match n k (p + 1) vMatch (f || b)
        | None => Exn oob_read
        end
      else Ok f
  end.

Fixpoint TraverseAndBuild {E} (n : Z) (height : nat) (pos : Z) (vTxid : list uint256) (vMatch : list bool)
    (bits : list bool) (hashes : list uint256) : res E (list bool * list uint256) :=
  fParentOfMatch ← parent_of_match n (2 ^ height) (u32 (Z.shiftl pos (Z.of_nat height))) vMatch false;
  let bits := bits ++ [fParentOfMatch] in
  let store := h ← CalcHash n height pos vTxid; Ok (bits, hashes ++ [h]) in
  match height with
  | O => store
  | S height' =>
      if negb fParentOfMatch then store
      else
        '(bits, hashes) ← TraverseAndBuild n height' (u32 (pos * 2)) vTxid vMatch bits hashes;
        if u32 (pos * 2 + 1) <? CalcTreeWidth n height'
        then TraverseAndBuild n height' (u32 (pos * 2 + 1)) vTxid vMatch bits hashes
        else Ok (bits, hashes)
  end.

(** The constructor from transaction ids and a mask. *)
Definition new_pmt {E} (vTxid : list uint256) (vMatch : list bool) : res E CPartialMerkleTree :=
  let n := u32 (zlen vTxid) in
  nHeight ← tree_height 32 n 0;
  '(bits, hashes) ← TraverseAndBuild n nHeight 0 vTxid vMatch [] [];
  Ok (mkPMT n bits hashes false).

(** ** Extracting *)

(** The variables that the traversal changes. *)
Record extract_state := mkExtract { es_bad : bool; nBitsUsed : nat; nHashUsed : nat; es_match : list uint256 }.

Definition set_bad (st : extract_state) : extract_state :=
  mkExtract true (nBitsUsed st) (nHashUsed st) (es_match st).

Fixpoint TraverseAndExtract (t : CPartialMerkleTree) (height : nat) (pos : Z) (st : extract_state)
    : uint256 * extract_state :=
  match vBits t !! nBitsUsed st with
  | None => (uint256_null, set_bad st)
  | Some fParentOfMatch =>
      let st := mkExtract (es_bad st) (S (nBitsUsed st)) (nHashUsed st) (es_match st) in
      let use_hash (leaf : bool) :=
        match vHash t !! nHashUsed st with
        | None => (uint256_null, set_bad st)
        | Some hash =>
            (hash, mkExtract (es_bad st) (nBitsUsed st) (S (nHashUsed st))
                     (if leaf && fParentOfMatch then es_match st ++ [hash] else es_match st))
        end in
      match height with
      | O => use_hash true
      | S height' =>
          if negb fParentOfMatch then use_hash false
          else
            let '(hl, st) := TraverseAndExtract t height' (u32 (pos * 2)) st in
            if u32 (pos * 2 + 1) <? CalcTreeWidth (nTransactions t) height' then
              let '(hr, st) := TraverseAndExtract t height' (u32 (pos * 2 + 1)) st in
              (Hash2 hl hr, if bool_decide (hr = hl) then set_bad st else st)
            else (Hash2 hl hl, st)
      end
  end.

(** [MAX_BLOCK_SIZE] of chainparams.cpp, given the height at which Sapling is
    active. *)
Definition MAX_BLOCK_SIZE (saplinght height : Z) : Z :=
  if (height <=? 0) || ((0 <? saplinght) && (saplinght <=? height)) then 4096 * 1024 else 2000000.

(** [ExtractMatches]: the root, or null on failure, [vMatch], and the tree with
    its flag. *)
Definition ExtractMatches {E} (saplinght : Z) (t : CPartialMerkleTree) : res E (uint256 * list uint256 * CPartialMerkleTree) :=
  if nTransactions t =? 0 then Ok (uint256_null, [], t)
  else if MAX_BLOCK_SIZE saplinght 10000000 / 60 <? nTransactions t then Ok (uint256_null, [], t)
  else if nTransactions t <? zlen (vHash t) then Ok (uint256_null, [], t)
  else if (length (vBits t) <? length (vHash t))%nat then Ok (uint256_null, [], t)
  else
    nHeight ← tree_height 32 (nTransactions t) 0;
    let '(hashMerkleRoot, st) := TraverseAndExtract t nHeight 0 (mkExtract (fBad t) 0 0 []) in
    let t := mkPMT (nTransactions t) (vBits t) (vHash t) (es_bad st) in
    let root :=
      if es_bad st then uint256_null
      else if negb (((nBitsUsed st + 7) / 8 =? (length (vBits t) + 7) / 8)%nat) then uint256_null
      else if negb ((nHashUsed st =? length (vHash t))%nat) then uint256_null
      else hashMerkleRoot in
    Ok (root, es_match st, t).
End Code.

(** ** The serialised form *)

(** [for (p...) vBytes[p / 8] |= vBits[p] << (p % 8);]. *)
Fixpoint set_bits (p : nat) (bits : list bool) (vBytes : list Z) : list Z :=
  match bits with
  | [] => vBytes
  | b :: bits =>
      set_bits (S p) bits
        (alter (fun x => u8 (Z.lor x (Z.shiftl (Z.b2z b) (Z.of_nat (p mod 8))))) (p / 8)%nat vBytes)
  end.

Definition pack_bits (bits : list bool) : list Z :=
  set_bits 0 bits (replicate ((length bits + 7) / 8)%nat 0).

Definition unpack_bits (vBytes : list Z) : list bool := concat (map mask_bits vBytes).

Definition CPartialMerkleTree_op : codec CPartialMerkleTree :=
  nTransactions ← READWRITE c_uint32 nTransactions;
  vHash ← READWRITE (c_vec 32 (c_flat 32)) vHash;
  vBytes ← READWRITE c_vector (fun t => pack_bits (vBits t));
  mret (mkPMT nTransactions (unpack_bits vBytes) vHash false).
