(* ===== verification/PartialMerkleSpec.v ===== *)
(** * Correctness of partial Merkle trees

    What a full node builds from a block and a selection of its transactions,
    a client extracts again; and what a client extracts against the root of a
    block, from any data, are transactions of that block. *)
From stdpp Require Import list gmap.
From S2P Require Import Prelude Endian Hashing Merkle Hmac Serialize CoinsSer PartialMerkle.

(** ** The levels of the tree *)

Section Levels.
Context `{HashFunctions} (txids : list uint256).

Definition lvl (h : nat) : list uint256 := Nat.iter h next_level txids.

Lemma next_level_at l : forall i x,
  l !! (2 * i)%nat = Some x ->
  next_level l !! i = Some (Hash2 x (match l !! (2 * i + 1)%nat with Some y => y | None => x end)).
Proof.
  induction l as [| a | a b l IH] using pair_ind; intros i x; [discriminate | |].
  - destruct i as [| i]; [now intros [= ->] |]; replace (2 * S i)%nat with (S (S (2 * i))) by lia; discriminate.
  - destruct i as [| i]; [now intros [= ->] |].
    replace (2 * S i)%nat with (S (S (2 * i))) by lia; cbn [Nat.add]; apply IH.
Qed.

Lemma pair_inputs_at l : forall i x,
  l !! (2 * i)%nat = Some x ->
  x ++ (match l !! (2 * i + 1)%nat with Some y => y | None => x end) ∈ pair_inputs l.
Proof.
  induction l as [| a | a b l IH] using pair_ind; intros i x; [discriminate | |].
  - destruct i as [| i]; [intros [= ->]; now left |]; replace (2 * S i)%nat with (S (S (2 * i))) by lia; discriminate.
  - destruct i as [| i]; [intros [= ->]; now left |].
    replace (2 * S i)%nat with (S (S (2 * i))) by lia; cbn [Nat.add]; intros Hx; right; now apply IH.
Qed.

(** What is hashed on any level is hashed for the tree. *)
Lemma lvl_inputs h : (2 <= length (lvl h))%nat -> pair_inputs (lvl h) ⊆ merkle_inputs txids.
Proof.
  assert (G : merkle_inputs (lvl h) ⊆ merkle_inputs txids).
  { induction h as [| h IH]; [easy |]; change (lvl (S h)) with (next_level (lvl h)).
    destruct (Nat.lt_ge_cases (length (lvl h)) 2) as [Hl | Hl].
    - destruct (lvl h) as [| a [| b l]]; cbn in Hl; [easy | easy | lia].
    - rewrite merkle_inputs_step in IH by exact Hl; now apply list_subseteq_app_iff_l in IH as [_ IH]. }
  intros Hl; rewrite merkle_inputs_step in G by exact Hl; now apply list_subseteq_app_iff_l in G as [G _].
Qed.

Lemma lvl_length h : Z.of_nat (length (lvl h)) = (zlen txids + 2 ^ Z.of_nat h - 1) / 2 ^ Z.of_nat h.
Proof.
  induction h as [| h IH]; [cbn; unfold zlen; rewrite Z.div_1_r; lia |].
  change (lvl (S h)) with (next_level (lvl h)); rewrite length_next_level.
  rewrite Nat2Z.inj_div, Nat2Z.inj_add, IH; change (Z.of_nat 1) with 1; change (Z.of_nat 2) with 2.
  pose proof (Z.pow_pos_nonneg 2 (Z.of_nat h)) as Hp.
  rewrite <- Z.div_add by lia; rewrite Z.div_div by lia.
  rewrite Nat2Z.inj_succ, Z.pow_succ_r by lia; f_equal; lia.
Qed.

(** The nodes of a level that exist. *)
Lemma width_iff h (i : nat) :
  (i < length (lvl h))%nat <-> (i * 2 ^ h < length txids)%nat.
Proof.
  pose proof (lvl_length h) as Hl; unfold zlen in Hl; pose proof (Z.pow_pos_nonneg 2 (Z.of_nat h)) as Hp.
  assert (E : Z.of_nat (i * 2 ^ h) = Z.of_nat i * 2 ^ Z.of_nat h) by now rewrite Nat2Z.inj_mul, Nat2Z.inj_pow.
  split; intros Hi.
  - pose proof (Z.mul_div_le (Z.of_nat (length txids) + 2 ^ Z.of_nat h - 1) (2 ^ Z.of_nat h)); nia.
  - pose proof (Z.mul_succ_div_gt (Z.of_nat (length txids) + 2 ^ Z.of_nat h - 1) (2 ^ Z.of_nat h)); nia.
Qed.

Lemma CalcTreeWidth_ok h :
  zlen txids < 2 ^ 31 -> (h <= 31)%nat -> CalcTreeWidth (zlen txids) h = Z.of_nat (length (lvl h)).
Proof.
  intros Hn Hh; unfold CalcTreeWidth; rewrite lvl_length, Z.shiftl_1_l.
  assert (0 < 2 ^ Z.of_nat h <= 2 ^ 31) by (split; [apply Z.pow_pos_nonneg | apply Z.pow_le_mono_r]; lia).
  pose proof (zlen_nonneg txids); rewrite (uwrap_small 32), Z.shiftr_div_pow2 by lia; reflexivity.
Qed.

(** The height at which one node is left. *)
Lemma tree_height_ok {E} :
  txids <> [] -> zlen txids < 2 ^ 31 ->
  exists h root, tree_height (E := E) 32 (zlen txids) 0 = Ok h /\ (h <= 31)%nat /\ lvl h = [root] /\
    merkle_root txids = root.
Proof.
  intros Hne Hn.
  assert (G : forall fuel h, (fuel + h = 32)%nat -> (0 < fuel)%nat -> (1 <= length (lvl h))%nat ->
    exists h' root, tree_height (E := E) fuel (zlen txids) h = Ok h' /\ (h' <= 31)%nat /\ lvl h' = [root] /\
      merkle_root (lvl h) = root).
  { induction fuel as [| fuel IH]; intros h Hf Hp Hl; [lia |]; cbn [tree_height].
    rewrite CalcTreeWidth_ok by lia; destruct (Z.ltb_spec 1 (Z.of_nat (length (lvl h)))) as [Hlt | Hge].
    - destruct fuel as [| fuel'].
      + replace h with 31%nat in * by lia; pose proof (lvl_length 31) as Hw; change (Z.of_nat 31) with 31 in Hw.
        pose proof (Z.div_lt_upper_bound (zlen txids + 2 ^ 31 - 1) (2 ^ 31) 2); lia.
      + pose proof (next_level_shorter (lvl h) ltac:(lia)) as Hs.
        destruct (IH (S h)) as (h' & root & E1 & H1 & H2 & H3); [lia | lia | apply Hs |].
        exists h', root; split; [exact E1 |]; split; [exact H1 |]; split; [exact H2 |].
        rewrite merkle_root_step by lia; exact H3.
    - destruct (lvl h) as [| r [| ? ?]] eqn:El; cbn in Hl, Hge; [lia | | lia].
      exists h, r; split; [reflexivity |]; split; [lia |]; split; [exact El | reflexivity]. }
  destruct (G 32%nat 0%nat) as (h & root & HH); [lia | lia | change (lvl 0) with txids; destruct txids; cbn; [easy | lia] | eauto].
Qed.

(** Below that height there are two nodes or more. *)
Lemma tree_height_below {E} fuel : forall n k h, tree_height (E := E) fuel n k = Ok h -> forall j, (k <= j < h)%nat -> 1 < CalcTreeWidth n j.
Proof.
  induction fuel as [| fuel IH]; intros n k h; cbn [tree_height]; destruct (Z.ltb_spec 1 (CalcTreeWidth n k)); try discriminate.
  1, 3: intros [= <-] j Hj; lia.
  intros Hh j Hj; destruct (Nat.eq_dec j k) as [-> | Hne]; [assumption | apply (IH n (S k) h Hh); lia].
Qed.

Lemma lvl_below {E} h : zlen txids < 2 ^ 31 -> tree_height (E := E) 32 (zlen txids) 0 = Ok h -> (h <= 31)%nat ->
  forall j, (j < h)%nat -> pair_inputs (lvl j) ⊆ merkle_inputs txids.
Proof.
  intros Hn Hh H31 j Hj; apply lvl_inputs; pose proof (tree_height_below 32 _ _ _ Hh j ltac:(lia)) as Hw.
  rewrite CalcTreeWidth_ok in Hw by lia; lia.
Qed.
End Levels.

(** ** Nodes *)

(** The leaves below a node. *)
Definition range {A} (h i : nat) (l : list A) : list A := take (2 ^ h) (drop (i * 2 ^ h) l).

Lemma range_split {A} h i (l : list A) : range (S h) i l = range h (2 * i) l ++ range h (2 * i + 1) l.
Proof.
  unfold range; replace ((2 * i + 1) * 2 ^ h)%nat with (i * 2 ^ S h + 2 ^ h)%nat by (cbn; lia).
  replace (2 * i * 2 ^ h)%nat with (i * 2 ^ S h)%nat by (cbn; lia); rewrite <- drop_drop.
  replace (2 ^ S h)%nat with (2 ^ h + 2 ^ h)%nat by (cbn; lia); now rewrite take_take_drop.
Qed.

Lemma range_nil {A} h i (l : list A) : (length l <= i * 2 ^ h)%nat -> range h i l = [].
Proof. intros Hl; unfold range; rewrite drop_ge by assumption; apply take_nil. Qed.

Section Nodes.
Context `{HashFunctions} (txids : list uint256).
Hypothesis small : zlen txids < 2 ^ 31.
Abbreviation n := (zlen txids).
Abbreviation lvl := (lvl txids).

(** Positions do not wrap, and the children of a node are where the code looks. *)
Lemma child_ok h (i : nat) :
  (S h <= 31)%nat -> (i < length (lvl (S h)))%nat ->
  u32 (Z.of_nat i * 2) = Z.of_nat (2 * i) /\ u32 (Z.of_nat i * 2 + 1) = Z.of_nat (2 * i + 1) /\
  (2 * i < length (lvl h))%nat /\
  (u32 (Z.of_nat i * 2 + 1) <? CalcTreeWidth n h) = (2 * i + 1 <? length (lvl h))%nat.
Proof.
  intros Hh Hi; pose proof (proj1 (width_iff txids (S h) i) Hi) as Hw; rewrite CalcTreeWidth_ok by lia.
  assert (Hl : (2 * i < length (lvl h))%nat) by (apply width_iff; cbn [Nat.pow] in Hw; lia).
  assert (Hb : Z.of_nat (2 * i) < 2 ^ 31).
  { pose proof (lvl_length txids h); pose proof (Z.pow_pos_nonneg 2 (Z.of_nat h)).
    pose proof (zlen_nonneg txids); pose proof (Z.div_le_upper_bound (n + 2 ^ Z.of_nat h - 1) (2 ^ Z.of_nat h) n).
    destruct (Z.eq_dec n 0) as [E |]; [unfold zlen in E; lia | nia]. }
  rewrite !(uwrap_small 32) by lia; repeat split; try lia.
  destruct (Z.ltb_spec (Z.of_nat i * 2 + 1) (Z.of_nat (length (lvl h)))), (Nat.ltb_spec (2 * i + 1) (length (lvl h))); lia || reflexivity.
Qed.

(** A node and its children. *)
Lemma node_children h i x :
  lvl (S h) !! i = Some x ->
  exists a, lvl h !! (2 * i)%nat = Some a /\
    x = Hash2 a (match lvl h !! (2 * i + 1)%nat with Some b => b | None => a end).
Proof.
  intros Hx; destruct (lvl h !! (2 * i)%nat) as [a |] eqn:Ea.
  - exists a; split; [reflexivity |]; apply next_level_at in Ea; change (next_level (lvl h)) with (lvl (S h)) in Ea; congruence.
  - apply lookup_lt_Some, width_iff in Hx; apply lookup_ge_None in Ea.
    assert ((2 * i < length (lvl h))%nat) by (apply width_iff; cbn [Nat.pow] in Hx; lia); lia.
Qed.

(** ** Building *)

Lemma CalcHash_ok {E} h : forall i x,
  (h <= 31)%nat -> lvl h !! i = Some x -> CalcHash (E := E) n h (Z.of_nat i) txids = Ok x.
Proof.
  induction h as [| h IH]; intros i x Hh Hx; cbn [CalcHash].
  { change (lvl 0) with txids in Hx; unfold tree_at; rewrite (proj2 (Z.ltb_ge (Z.of_nat i) 0)) by lia.
    now rewrite Nat2Z.id, Hx. }
  destruct (child_ok h i Hh (lookup_lt_Some _ _ _ Hx)) as (El & Er & Hl & Ew).
  destruct (node_children h i x Hx) as (a & Ha & ->); rewrite Ew, El, Er, (IH _ _ ltac:(lia) Ha); cbn [mbind res_bind].
  destruct (Nat.ltb_spec (2 * i + 1) (length (lvl h))) as [Hlt | Hge].
  - destruct (lookup_lt_is_Some_2 _ _ Hlt) as [b Hb]; now rewrite (IH _ _ ltac:(lia) Hb), Hb.
  - now rewrite (lookup_ge_None_2 _ _ Hge).
Qed.

Lemma parent_of_match_ok {E} vMatch k : forall p f,
  length vMatch = length txids -> 0 <= p ->
  parent_of_match (E := E) n k p vMatch f = Ok (f || existsb id (take k (drop (Z.to_nat p) vMatch))).
Proof.
  induction k as [| k IH]; intros p f Hm Hp; cbn [parent_of_match]; [now rewrite orb_false_r |].
  unfold zlen; destruct (Z.ltb_spec p (Z.of_nat (length txids))) as [Hlt | Hge].
  - destruct (lookup_lt_is_Some_2 vMatch (Z.to_nat p)) as [b Hb]; [lia |]; rewrite Hb.
    fold n; rewrite IH by lia; rewrite (drop_S _ _ _ Hb), Z2Nat.inj_add by lia; cbn [take existsb].
    rewrite Nat.add_1_r; unfold id at 2; now rewrite orb_assoc.
  - rewrite drop_ge by lia; now rewrite orb_false_r.
Qed.

(** ** Distinct nodes *)

Section Distinct.
Context `{!HashFunctionsOk _}.
Hypothesis sizes : Forall (fun h => length h = 32%nat) txids.

Lemma lvl_sizes h i x : lvl h !! i = Some x -> length x = 32%nat.
Proof.
  destruct h as [| h]; intros Hx.
  - exact (proj1 (Forall_lookup _ _) sizes i x Hx).
  - exact (proj1 (Forall_lookup _ _) (next_level_sizes (lvl h)) i x Hx).
Qed.

Lemma lvl_blobs h i x : Forall (is_blob 32) txids -> lvl h !! i = Some x -> is_blob 32 x.
Proof.
  destruct h as [| h]; intros Hb Hx; [exact (proj1 (Forall_lookup _ _) Hb i x Hx) |].
  destruct (node_children h i x Hx) as (a & _ & ->); split; [apply CHash256_bytes |].
  unfold zlen, Hash2; now rewrite CHash256_length.
Qed.

(** The nodes of a level are distinct. *)
Lemma lvl_distinct h : forall a b x,
  collision_free (merkle_inputs txids) -> base.NoDup txids -> lvl h !! a = Some x -> lvl h !! b = Some x -> a = b.
Proof.
  induction h as [| h IH]; intros a b x Hf Hd Ha Hb; [exact (NoDup_lookup _ _ _ _ Hd Ha Hb) |].
  destruct (Nat.eq_dec a b) as [| Hne]; [assumption |].
  destruct (node_children h a x Ha) as (p & Hp & Ep); destruct (node_children h b x Hb) as (q & Hq & Eq).
  assert (Hl : (2 <= length (lvl h))%nat) by (apply lookup_lt_Some in Hp, Hq; lia).
  rewrite Ep in Eq; apply (Hash2_binding (merkle_inputs txids)) in Eq as [-> _]; eauto using lvl_sizes.
  - pose proof (IH _ _ _ Hf Hd Hp Hq); lia.
  - apply (lvl_inputs txids h Hl), pair_inputs_at, Hp.
  - apply (lvl_inputs txids h Hl), pair_inputs_at, Hq.
Qed.
End Distinct.
End Nodes.

(** ** Building and extracting *)

(** The selected transactions. *)
Definition selected (txs : list uint256) (ms : list bool) : list uint256 := (List.filter snd (zip txs ms)).*1.

Lemma selected_app t1 t2 m1 m2 :
  length t1 = length m1 -> selected (t1 ++ t2) (m1 ++ m2) = selected t1 m1 ++ selected t2 m2.
Proof. intros Hl; unfold selected; rewrite zip_with_app by assumption; now rewrite filter_app, fmap_app. Qed.

Lemma selected_none txs : forall ms, existsb id ms = false -> selected txs ms = [].
Proof.
  induction txs as [| t txs IH]; intros [| m ms]; try reflexivity; cbn; unfold id at 1; intros E.
  apply orb_false_elim in E as [-> E]; now apply IH.
Qed.

Lemma length_range {A B} h i (l : list A) (l' : list B) :
  length l = length l' -> length (range h i l) = length (range h i l').
Proof. intros E; unfold range; now rewrite !length_take, !length_drop, E. Qed.

(** The data that the builder emits for a node, and what the extraction makes
    of them wherever they stand in the vectors. *)
Record encodes `{HashFunctions} (txids : list uint256) (vMatch : list bool) (h i : nat) (x : uint256)
    (B : list bool) (Hs : list uint256) : Prop := {
  enc_build E bits hashes :
    TraverseAndBuild (E := E) (zlen txids) h (Z.of_nat i) txids vMatch bits hashes = Ok (bits ++ B, hashes ++ Hs);
  enc_sizes : (length Hs <= length B)%nat /\ (length Hs <= length (range h i txids))%nat /\
    (length B <= (h + 1) * length (range h i txids))%nat;
  enc_blobs : Forall (is_blob 32) Hs;
  enc_extract t st brest hrest :
    nTransactions t = zlen txids ->
    drop (nBitsUsed st) (vBits t) = B ++ brest -> drop (nHashUsed st) (vHash t) = Hs ++ hrest ->
    TraverseAndExtract t h (Z.of_nat i) st =
      (x, mkExtract (es_bad st) (nBitsUsed st + length B) (nHashUsed st + length Hs)
            (es_match st ++ selected (range h i txids) (range h i vMatch)));
}.

Lemma drop_head {A} k (l : list A) a r : drop k l = a :: r -> l !! k = Some a /\ drop (S k) l = r.
Proof.
  intros E; assert (Ha : l !! k = Some a) by (rewrite <- (Nat.add_0_r k), <- lookup_drop, E; reflexivity).
  split; [exact Ha |]; rewrite (drop_S _ _ _ Ha) in E; congruence.
Qed.

Section Encode.
Context `{HashFunctionsOk} (txids : list uint256) (vMatch : list bool).
Hypotheses (small : zlen txids < 2 ^ 31) (same : length vMatch = length txids)
  (blobs : Forall (is_blob 32) txids) (distinct : base.NoDup txids) (free : collision_free (merkle_inputs txids)).
Abbreviation lvl := (lvl txids).

Lemma blob_sizes (l : list uint256) : Forall (is_blob 32) l -> Forall (fun h => length h = 32%nat) l.
Proof. apply Forall_impl; intros x [_ Hl]; unfold zlen in Hl; lia. Qed.

Lemma parent_bit {E} h (i : nat) :
  (h <= 31)%nat -> (i < length (lvl h))%nat ->
  parent_of_match (E := E) (zlen txids) (2 ^ h) (u32 (Z.shiftl (Z.of_nat i) (Z.of_nat h))) vMatch false
  = Ok (existsb id (range h i vMatch)).
Proof.
  intros Hh Hi; apply width_iff in Hi; rewrite Z.shiftl_mul_pow2 by lia.
  assert (E2 : Z.of_nat i * 2 ^ Z.of_nat h = Z.of_nat (i * 2 ^ h)) by now rewrite Nat2Z.inj_mul, Nat2Z.inj_pow.
  unfold zlen in small; rewrite E2, (uwrap_small 32) by lia.
  rewrite parent_of_match_ok by (auto; lia); now rewrite Nat2Z.id.
Qed.

Lemma range_pos h i : (i < length (lvl h))%nat -> (0 < length (range h i txids))%nat.
Proof.
  intros Hi; unfold range; rewrite length_take, length_drop; apply width_iff in Hi.
  pose proof (Nat.pow_nonzero 2 h); lia.
Qed.

(** A node whose hash is stored. *)
Lemma encodes_hash h i x m :
  (h <= 31)%nat -> lvl h !! i = Some x -> existsb id (range h i vMatch) = m -> (h = 0%nat \/ m = false) ->
  encodes txids vMatch h i x [m] [x].
Proof.
  intros Hh Hx Em Hc; pose proof (lookup_lt_Some _ _ _ Hx) as Hi; split.
  - intros E bits hashes; destruct h as [| h]; cbn [TraverseAndBuild]; rewrite parent_bit by assumption;
      cbn [mbind res_bind]; rewrite Em; [| destruct Hc as [Hc | ->]; [discriminate | cbn [negb]]];
      rewrite (CalcHash_ok txids small _ i x Hh Hx); reflexivity.
  - pose proof (range_pos h i Hi); cbn [length]; nia.
  - apply Forall_cons_2; [exact (lvl_blobs txids h i x blobs Hx) | apply Forall_nil_2].
  - intros t st brest hrest Ht Hb Hs; cbn [length].
    apply drop_head in Hb as [Hb _]; apply drop_head in Hs as [Hs _].
    assert (Hsel : es_match st ++ selected (range h i txids) (range h i vMatch)
      = if (h =? 0)%nat && m then es_match st ++ [x] else es_match st).
    { destruct m; [| rewrite andb_false_r, selected_none, app_nil_r by exact Em; reflexivity].
      destruct Hc as [-> | Hc]; [| discriminate]; unfold range in *; cbn [Nat.pow Nat.eqb andb] in *.
      change (lvl 0) with txids in Hx; rewrite Nat.mul_1_r in *; f_equal.
      destruct (lookup_lt_is_Some_2 vMatch i) as [b Hm]; [rewrite same; apply lookup_lt_Some in Hx; exact Hx |].
      rewrite (drop_S _ _ _ Hx), (drop_S _ _ _ Hm) in *; cbn in Em |- *; destruct b; [reflexivity | discriminate]. }
    destruct h as [| h]; cbn [TraverseAndExtract]; rewrite Hb; cbn [nHashUsed es_match es_bad nBitsUsed];
      [| destruct Hc as [Hc | ->]; [discriminate | cbn [negb]]];
      rewrite Hs, Hsel; cbn [Nat.eqb andb]; do 2 f_equal; lia.
Qed.

Lemma drop_app_rest {A} k (l a r : list A) : drop k l = a ++ r -> drop (k + length a) l = r.
Proof. intros E; rewrite <- drop_drop, E; apply drop_app_length. Qed.

(** A node with one child, and a node with two. *)
Lemma encodes_one h i a B Hs :
  (S h <= 31)%nat -> (i < length (lvl (S h)))%nat -> (length (lvl h) <= 2 * i + 1)%nat ->
  existsb id (range (S h) i vMatch) = true -> encodes txids vMatch h (2 * i) a B Hs ->
  encodes txids vMatch (S h) i (Hash2 a a) (true :: B) Hs.
Proof.
  intros Hh Hi Hw Em [Eb (Es1 & Es2 & Es3) Ef Ex]; destruct (child_ok txids small h i Hh Hi) as (El & _ & _ & Ew).
  rewrite (proj2 (Nat.ltb_ge _ _) Hw) in Ew.
  assert (Hr : forall A (l : list A), length l = length txids -> range (S h) i l = range h (2 * i) l).
  { intros A l Hl; rewrite range_split, (range_nil h (2 * i + 1)), app_nil_r; [reflexivity |].
    rewrite Hl; destruct (Nat.le_gt_cases (length txids) ((2 * i + 1) * 2 ^ h)) as [| Hgt]; [assumption |].
    apply (width_iff txids) in Hgt; lia. }
  split.
  - intros E bits hashes; cbn [TraverseAndBuild]; rewrite parent_bit by assumption; cbn [mbind res_bind].
    rewrite Em, El, Eb; cbn [negb mbind res_bind]; rewrite Ew; now rewrite <- app_assoc.
  - pose proof (range_pos (S h) i Hi) as Hp; rewrite (Hr _ txids eq_refl) in *; cbn [length]; nia.
  - exact Ef.
  - intros t st brest hrest Ht Hb Hhs; rewrite !Hr by auto.
    apply drop_head in Hb as [Hb0 Hb]; cbn [TraverseAndExtract]; rewrite Hb0; cbn [negb]; rewrite Ht, El, Ew.
    set (st1 := mkExtract _ _ _ _); rewrite (Ex t st1 brest hrest Ht Hb Hhs).
    subst st1; cbn [es_bad nBitsUsed nHashUsed es_match length]; do 2 f_equal; lia.
Qed.

Lemma encodes_two h i a b B1 H1 B2 H2 :
  (S h <= 31)%nat -> (i < length (lvl (S h)))%nat ->
  lvl h !! (2 * i)%nat = Some a -> lvl h !! (2 * i + 1)%nat = Some b ->
  existsb id (range (S h) i vMatch) = true ->
  encodes txids vMatch h (2 * i) a B1 H1 -> encodes txids vMatch h (2 * i + 1) b B2 H2 ->
  encodes txids vMatch (S h) i (Hash2 a b) (true :: B1 ++ B2) (H1 ++ H2).
Proof.
  intros Hh Hi Ha Hb Em [Eb1 (Es1 & Es2 & Es3) Ef1 Ex1] [Eb2 (Fs1 & Fs2 & Fs3) Ef2 Ex2].
  destruct (child_ok txids small h i Hh Hi) as (El & Er & _ & Ew).
  rewrite (proj2 (Nat.ltb_lt _ _) (lookup_lt_Some _ _ _ Hb)) in Ew; split.
  - intros E bits hashes; cbn [TraverseAndBuild]; rewrite parent_bit by assumption; cbn [mbind res_bind].
    rewrite Em, El, Eb1; cbn [negb mbind res_bind]; rewrite Ew, Er, Eb2; now rewrite <- !app_assoc.
  - pose proof (range_pos (S h) i Hi) as Hp; rewrite range_split, length_app in *; cbn [length]; rewrite !length_app; nia.
  - now apply Forall_app.
  - intros t st brest hrest Ht Hbits Hhs; rewrite !range_split, selected_app by now apply length_range.
    rewrite <- app_assoc in Hhs; cbn [app] in Hbits; rewrite <- app_assoc in Hbits.
    apply drop_head in Hbits as [Hb0 Hbits]; cbn [TraverseAndExtract]; rewrite Hb0; cbn [negb]; rewrite Ht, El, Ew, Er.
    set (st1 := mkExtract _ _ _ _); rewrite (Ex1 t st1 _ _ Ht Hbits Hhs).
    set (st2 := mkExtract _ _ _ _).
    rewrite (Ex2 t st2 brest hrest Ht (drop_app_rest _ _ _ _ Hbits) (drop_app_rest _ _ _ _ Hhs)).
    destruct (decide (b = a)) as [-> | Hne];
      [pose proof (lvl_distinct txids (blob_sizes _ blobs) h (2 * i) (2 * i + 1) a free distinct Ha Hb); lia |].
    rewrite bool_decide_eq_false_2 by assumption; subst st2 st1.
    cbn [es_bad nBitsUsed nHashUsed es_match length]; rewrite !length_app, <- app_assoc; do 2 f_equal; lia.
Qed.

Lemma encodes_ok h : forall i x,
  (h <= 31)%nat -> lvl h !! i = Some x -> exists B Hs, encodes txids vMatch h i x B Hs.
Proof.
  induction h as [| h IH]; intros i x Hh Hx; [eauto using encodes_hash |].
  destruct (existsb id (range (S h) i vMatch)) eqn:Em; [| eauto using encodes_hash].
  pose proof (lookup_lt_Some _ _ _ Hx) as Hi; destruct (node_children txids h i x Hx) as (a & Ha & ->).
  destruct (IH _ _ ltac:(lia) Ha) as (B1 & H1 & E1); destruct (lvl h !! (2 * i + 1)%nat) as [b |] eqn:Eb.
  - destruct (IH _ _ ltac:(lia) Eb) as (B2 & H2 & E2); eauto using encodes_two.
  - apply lookup_ge_None in Eb; eauto using encodes_one.
Qed.
End Encode.

(** ** Packed bits *)

(** Bit [j] of a vector of bytes. *)
Definition bit_of (v : list Z) (j : nat) : option bool :=
  (fun x => Z.testbit x (Z.of_nat (j mod 8))) <$> (v !! (j / 8)%nat).

Lemma mask_bits_lookup x i :
  (i < 8)%nat -> mask_bits x !! i = Some (Z.testbit x (Z.of_nat i)).
Proof.
  intros Hi; unfold mask_bits; rewrite list_lookup_fmap.
  assert (E : [0; 1; 2; 3; 4; 5; 6; 7] !! i = Some (Z.of_nat i)) by (do 8 (destruct i; [reflexivity |]); lia).
  rewrite E; cbn; f_equal; rewrite Z.shiftl_1_l.
  destruct (Z.testbit x (Z.of_nat i)) eqn:Et.
  - apply negb_true_iff, Z.eqb_neq; intros E0; apply (f_equal (fun z => Z.testbit z (Z.of_nat i))) in E0.
    rewrite Z.land_spec, Z.pow2_bits_true, Et, Z.bits_0 in E0 by lia; discriminate.
  - apply negb_false_iff, Z.eqb_eq, Z.bits_inj'; intros k Hk; rewrite Z.land_spec, Z.bits_0.
    rewrite Z.pow2_bits_eqb by lia; destruct (Z.eqb_spec (Z.of_nat i) k) as [<- |]; [now rewrite Et | apply andb_false_r].
Qed.

Lemma unpack_lookup v : forall j, unpack_bits v !! j = bit_of v j.
Proof.
  induction v as [| x v IH]; intros j; [reflexivity |]; unfold unpack_bits in *; cbn [map concat].
  destruct (Nat.lt_ge_cases j 8) as [Hj | Hj].
  - rewrite lookup_app_l by exact Hj; rewrite mask_bits_lookup by assumption; unfold bit_of.
    rewrite Nat.div_small, Nat.mod_small by assumption; reflexivity.
  - rewrite lookup_app_r by exact Hj; change (length (mask_bits x)) with 8%nat; rewrite IH; unfold bit_of.
    remember (j - 8)%nat as k eqn:Ek; replace j with (k + 1 * 8)%nat by lia.
    rewrite Nat.div_add, Nat.Div0.mod_add by lia; now rewrite Nat.add_1_r.
Qed.

Lemma set_bits_length bits : forall p v, length (set_bits p bits v) = length v.
Proof. induction bits as [| b bits IH]; intros p v; cbn; [reflexivity |]; now rewrite IH, length_alter. Qed.

(** Setting a bit of a byte. *)
Lemma set_bit_testbit x b i k :
  0 <= i < 8 -> 0 <= k < 8 ->
  Z.testbit (u8 (Z.lor x (Z.shiftl (Z.b2z b) i))) k = Z.testbit x k || (b && (k =? i)).
Proof.
  intros Hi Hk; unfold uwrap; rewrite Z.mod_pow2_bits_low, Z.lor_spec, Z.shiftl_spec by lia; f_equal.
  destruct (Z.eqb_spec k i) as [-> | Hne]; [rewrite Z.sub_diag, andb_true_r; now destruct b |].
  rewrite andb_false_r; destruct (Z.lt_ge_cases k i); [apply Z.testbit_neg_r; lia |].
  destruct b; [apply (Z.bits_above_log2 1); cbn; lia | apply Z.bits_0].
Qed.

Lemma set_bits_ok bits : forall p v j,
  (j < 8 * length v)%nat ->
  bit_of (set_bits p bits v) j =
    (fun old => old || (if decide (p <= j < p + length bits)%nat then default false (bits !! (j - p)%nat) else false))
    <$> bit_of v j.
Proof.
  induction bits as [| b bits IH]; intros p v j Hj; cbn [set_bits length].
  { destruct (bit_of v j); cbn; [| reflexivity]; destruct (decide _); [lia | now rewrite orb_false_r]. }
  rewrite IH by (rewrite length_alter; exact Hj); unfold bit_of.
  destruct (decide (p / 8 = j / 8)%nat) as [Ed | Nd].
  - rewrite Ed, list_lookup_alter_eq; destruct (v !! (j / 8)%nat) as [x |]; cbn [fmap option_fmap option_map]; [| reflexivity]; f_equal.
    pose proof (Nat.mod_upper_bound p 8); pose proof (Nat.mod_upper_bound j 8); rewrite set_bit_testbit by lia.
    pose proof (Nat.div_mod_eq p 8); pose proof (Nat.div_mod_eq j 8); rewrite <- orb_assoc; f_equal.
    destruct (Z.eqb_spec (Z.of_nat (j mod 8)) (Z.of_nat (p mod 8))) as [E | N].
    + assert (j = p) as -> by lia; rewrite decide_False, decide_True, Nat.sub_diag by lia; cbn; now destruct b.
    + rewrite andb_false_r; cbn [orb]; destruct (decide (S p <= j < _)%nat), (decide (p <= j < _)%nat); try lia.
      now replace (j - p)%nat with (S (j - S p)) by lia.
  - rewrite list_lookup_alter_ne by assumption; destruct (v !! (j / 8)%nat) as [x |]; cbn [fmap option_fmap option_map]; [| reflexivity]; do 2 f_equal.
    assert (j <> p) by (intros ->; lia).
    destruct (decide (S p <= j < _)%nat), (decide (p <= j < _)%nat); try lia.
    now replace (j - p)%nat with (S (j - S p)) by lia.
Qed.

Lemma pack_length bits : length (pack_bits bits) = ((length bits + 7) / 8)%nat.
Proof. unfold pack_bits; now rewrite set_bits_length, length_replicate. Qed.

Lemma set_bits_bytes bits : forall p v, bytes v -> bytes (set_bits p bits v).
Proof.
  induction bits as [| b bits IH]; intros p v Hv; cbn [set_bits]; [exact Hv |]; apply IH.
  apply Forall_alter; [exact Hv |]; intros x Hx _; apply (uwrap_range 8); lia.
Qed.

Lemma pack_bytes bits : bytes (pack_bits bits).
Proof. apply set_bits_bytes, Forall_replicate; unfold is_byte; lia. Qed.

(** Reading back the packed bits pads them to whole bytes. *)
Lemma unpack_pack bits :
  exists pad, unpack_bits (pack_bits bits) = bits ++ pad /\
    ((length (bits ++ pad) + 7) / 8 = (length bits + 7) / 8)%nat.
Proof.
  set (m := ((length bits + 7) / 8)%nat); exists (replicate (8 * m - length bits) false).
  pose proof (Nat.div_mod_eq (length bits + 7) 8) as Hm; pose proof (Nat.mod_upper_bound (length bits + 7) 8).
  fold m in Hm; assert (Hlen : (length bits <= 8 * m)%nat) by lia; split.
  - apply list_eq; intros j; rewrite unpack_lookup; destruct (Nat.lt_ge_cases j (8 * m)) as [Hj | Hj].
    + unfold pack_bits; fold m; rewrite set_bits_ok by (rewrite length_replicate; exact Hj).
      unfold bit_of; rewrite lookup_replicate_2 by (apply Nat.Div0.div_lt_upper_bound; lia).
      cbn [fmap option_fmap option_map]; rewrite Z.bits_0; cbn [orb].
      destruct (decide (0 <= j < 0 + length bits)%nat) as [Hin | Hout].
      * rewrite lookup_app_l, Nat.sub_0_r by lia; destruct (lookup_lt_is_Some_2 bits j) as [b ->]; [lia | reflexivity].
      * rewrite lookup_app_r, lookup_replicate_2 by lia; reflexivity.
    + unfold bit_of; rewrite (lookup_ge_None_2 (pack_bits bits)), lookup_ge_None_2; [reflexivity | |].
      * rewrite length_app, length_replicate; lia.
      * rewrite pack_length; fold m; apply Nat.div_le_lower_bound; lia.
  - rewrite length_app, length_replicate; replace (length bits + (8 * m - length bits) + 7)%nat with (7 + m * 8)%nat by lia.
    rewrite Nat.div_add by lia; reflexivity.
Qed.

(** ** Extracting from arbitrary data *)

(** What the extraction hashes. *)
Fixpoint extract_inputs `{HashFunctions} (t : CPartialMerkleTree) (height : nat) (pos : Z) (st : extract_state) : list (list Z) :=
  match vBits t !! nBitsUsed st, height with
  | Some true, S height' =>
      let st := mkExtract (es_bad st) (S (nBitsUsed st)) (nHashUsed st) (es_match st) in
      let '(hl, st1) := TraverseAndExtract t height' (u32 (pos * 2)) st in
      extract_inputs t height' (u32 (pos * 2)) st ++
      (if u32 (pos * 2 + 1) <? CalcTreeWidth (nTransactions t) height' then
         let '(hr, _) := TraverseAndExtract t height' (u32 (pos * 2 + 1)) st1 in
         extract_inputs t height' (u32 (pos * 2 + 1)) st1 ++ [hl ++ hr]
       else [hl ++ hl])
  | _, _ => []
  end.

Definition ExtractMatches_inputs `{HashFunctions} (t : CPartialMerkleTree) : list (list Z) :=
  match tree_height (E := unit) 32 (nTransactions t) 0 with
  | Ok nHeight => extract_inputs t nHeight 0 (mkExtract (fBad t) 0 0 [])
  | _ => []
  end.

Section Sound.
Context `{HashFunctionsOk} (txids : list uint256) (t : CPartialMerkleTree).
Hypotheses (small : zlen txids < 2 ^ 31) (sizes : Forall (fun h => length h = 32%nat) txids)
  (count : nTransactions t = zlen txids) (hash_sizes : Forall (fun h => length h = 32%nat) (vHash t)).
Abbreviation lvl := (lvl txids).

Lemma extract_length h : forall i st, length (fst (TraverseAndExtract t h i st)) = 32%nat.
Proof.
  induction h as [| h IH]; intros i st; cbn [TraverseAndExtract]; destruct (vBits t !! nBitsUsed st) as [m |]; try reflexivity.
  2: destruct m; cbn [negb].
  2: { destruct (TraverseAndExtract t h _ _) as [hl st1]; destruct (_ <? _); [| apply CHash256_length].
       destruct (TraverseAndExtract t h _ _) as [hr st2]; apply CHash256_length. }
  all: cbn [nHashUsed]; destruct (vHash t !! nHashUsed st) as [x |] eqn:Ex; [| reflexivity].
  all: exact (proj1 (Forall_lookup _ _) hash_sizes _ _ Ex).
Qed.

Lemma extract_bad h : forall i st, es_bad (snd (TraverseAndExtract t h i st)) = false -> es_bad st = false.
Proof.
  induction h as [| h IH]; intros i st; cbn [TraverseAndExtract]; destruct (vBits t !! nBitsUsed st) as [m |]; try discriminate.
  2: destruct m; cbn [negb].
  2: { set (st0 := mkExtract _ _ _ _); pose proof (IH (u32 (i * 2)) st0) as H1.
       destruct (TraverseAndExtract t h (u32 (i * 2)) st0) as [hl st1]; destruct (_ <? _); [| exact H1].
       pose proof (IH (u32 (i * 2 + 1)) st1) as H2; destruct (TraverseAndExtract t h (u32 (i * 2 + 1)) st1) as [hr st2].
       cbn [snd] in *; destruct (bool_decide _); [discriminate | auto]. }
  all: cbn [nHashUsed]; now destruct (vHash t !! nHashUsed st).
Qed.

(** What is extracted below a node with the right hash belongs to it. *)
Lemma extract_sound inputs h : forall i st x st',
  collision_free inputs -> (forall j, (j < h)%nat -> pair_inputs (lvl j) ⊆ inputs) -> extract_inputs t h (Z.of_nat i) st ⊆ inputs ->
  (h <= 31)%nat -> lvl h !! i = Some x -> TraverseAndExtract t h (Z.of_nat i) st = (x, st') -> es_bad st' = false ->
  exists M, es_match st' = es_match st ++ M /\ M `sublist_of` range h i txids.
Proof.
  induction h as [| h IH]; intros i st x st' Hf Hlv Hin Hh Hx; cbn [TraverseAndExtract]; cbn [extract_inputs] in Hin;
    destruct (vBits t !! nBitsUsed st) as [m |]; try (intros [= <- <-]; discriminate).
  - change (lvl 0) with txids in Hx; cbn [nHashUsed es_match andb].
    destruct (vHash t !! nHashUsed st) as [y |]; intros [= Ey <-]; [intros _; subst y | discriminate].
    assert (Er : range 0 i txids = [x]) by (unfold range; cbn; rewrite Nat.mul_1_r; now rewrite (drop_S _ _ _ Hx)).
    rewrite Er; destruct m; cbn [es_match]; [exists [x]; auto | exists []; split; [now rewrite app_nil_r | apply sublist_nil_l]].
  - cbn [nHashUsed es_match andb]; destruct m; cbn [negb].
    2: { destruct (vHash t !! nHashUsed st) as [y |]; intros [= Ey <-]; [intros _; subst y | discriminate].
         exists []; split; [now rewrite app_nil_r | apply sublist_nil_l]. }
    destruct (child_ok txids small h i Hh (lookup_lt_Some _ _ _ Hx)) as (El & Er & Hl & Ew).
    destruct (node_children txids h i x Hx) as (a & Ha & Exa); rewrite range_split, count, Ew, El, Er in *.
    cbn [negb] in Hin; set (st0 := mkExtract (es_bad st) _ _ _) in *; pose proof (extract_length h (Z.of_nat (2 * i)) st0) as L1.
    destruct (TraverseAndExtract t h (Z.of_nat (2 * i)) st0) as [hl st1] eqn:E1; cbn [fst] in L1.
    assert (Hpa : a ++ match lvl h !! (2 * i + 1)%nat with Some b => b | None => a end ∈ inputs)
      by (apply (Hlv h); [lia | now apply pair_inputs_at]).
    apply list_subseteq_app_iff_l in Hin as [Hin1 Hin2].
    pose proof (IH (2 * i)%nat st0 a st1 Hf ltac:(auto with lia) Hin1 ltac:(lia) Ha) as I1.
    destruct (Nat.ltb_spec (2 * i + 1) (length (lvl h))) as [Hlt | Hge].
    + destruct (lookup_lt_is_Some_2 _ _ Hlt) as [b Hb]; rewrite Hb in Exa, Hpa.
      pose proof (extract_bad h (Z.of_nat (2 * i + 1)) st1) as Hbad.
      destruct (TraverseAndExtract t h (Z.of_nat (2 * i + 1)) st1) as [hr st2] eqn:E2; intros [= <- <-] Hg.
      destruct (bool_decide (hr = hl)); [discriminate |]; apply list_subseteq_app_iff_l in Hin2 as [Hin2 Hin3].
      apply (Hash2_binding inputs) in Exa as [-> ->]; [| exact Hf | apply Hin3; now left | exact Hpa | exact L1 | exact (lvl_sizes txids sizes _ _ _ Ha)].
      destruct (I1 E1 (Hbad Hg)) as (M1 & Em1 & S1).
      destruct (IH (2 * i + 1)%nat st1 b st2 Hf ltac:(auto with lia) Hin2 ltac:(lia) Hb E2 Hg) as (M2 & Em2 & S2).
      exists (M1 ++ M2); rewrite Em2, Em1, <- app_assoc; split; [reflexivity | now apply sublist_app].
    + intros [= <- <-] Hg; rewrite (lookup_ge_None_2 _ _ Hge) in Exa, Hpa.
      apply (Hash2_binding inputs) in Exa as [-> _]; [| exact Hf | apply Hin2; now left | exact Hpa | exact L1 | exact (lvl_sizes txids sizes _ _ _ Ha)].
      destruct (I1 E1 Hg) as (M1 & Em1 & S1).
      exists M1; split; [exact Em1 |]; now apply sublist_inserts_r.
Qed.
End Sound.

(** ** Properties *)

#[global] Instance batch32 : BatchSize 32.
Proof. unfold BatchSize; lia. Qed.

Lemma CPartialMerkleTree_writes (t : CPartialMerkleTree) :
  is_u32 (nTransactions t) -> Forall (is_blob 32) (vHash t) -> zlen (vHash t) <= MAX_SIZE ->
  Z.of_nat (length (vBits t)) <= MAX_SIZE ->
  writes CPartialMerkleTree_op t (mkPMT (nTransactions t) (unpack_bits (pack_bits (vBits t))) (vHash t) false).
Proof.
  intros Hn Hf Hh Hb; unfold CPartialMerkleTree_op.
  eapply writes_bind; [apply (writes_READWRITE is_u32 c_uint32); exact Hn |].
  eapply writes_bind; [apply (writes_READWRITE (vec_valid (is_blob 32)) (c_vec 32 (c_flat 32))); now split |].
  eapply writes_bind; [apply (writes_READWRITE vector_valid c_vector); split; [apply pack_bytes |] | apply writes_ret].
  unfold zlen; rewrite pack_length; pose proof (Nat.Div0.div_le_upper_bound (length (vBits t) + 7) 8 (length (vBits t) + 7)).
  destruct (vBits t) as [| b l]; [cbn; unfold MAX_SIZE; lia |].
  assert (((length (b :: l) + 7) / 8 <= length (b :: l))%nat); [| lia].
  apply Nat.Div0.div_le_upper_bound; cbn [length]; lia.
Qed.

(** The root node of the whole tree covers all leaves. *)
Lemma range_all {A} h (l : list A) : (length l <= 2 ^ h)%nat -> range h 0 l = l.
Proof. intros Hl; unfold range; cbn [Nat.mul]; rewrite drop_0; now apply take_ge. Qed.

Lemma one_node_covers `{HashFunctions} txids h root : lvl txids h = [root] -> (length txids <= 2 ^ h)%nat.
Proof.
  intros E; pose proof (width_iff txids h 1) as Hw; rewrite E in Hw; cbn [length] in Hw.
  rewrite Nat.mul_1_l in Hw; lia.
Qed.

(** A partial Merkle tree carries its selection.  For any block of distinct
    transaction ids within the size limit and any selection of them, the tree
    that the constructor builds is serialised and read back, and
    [ExtractMatches] on what was read, padding bits included, returns the Merkle
    root of the block and exactly the selected ids in their order, when double
    SHA-256 tells apart the inputs from which the tree of the block is built. *)
Theorem partial_merkle_roundtrip `{HashFunctionsOk} (saplinght : Z) (txids : list uint256) (vMatch : list bool) :
  txids <> [] -> base.NoDup txids -> Forall (is_blob 32) txids -> length vMatch = length txids ->
  zlen txids <= MAX_BLOCK_SIZE saplinght 10000000 / 60 -> collision_free (merkle_inputs txids) ->
  exists t t' data,
    new_pmt (E := unit) txids vMatch = Ok t /\ put CPartialMerkleTree_op t = Ok (t', data) /\
    (forall rest, get CPartialMerkleTree_op (data ++ rest) = Ok (t', rest)) /\
    ExtractMatches (E := unit) saplinght t' = Ok (merkle_root txids, selected txids vMatch, t').
Proof.
  intros Hne Hd Hb Hm Hmax Hfree.
  assert (Hn : zlen txids <= 69905).
  { etransitivity; [exact Hmax |]; unfold MAX_BLOCK_SIZE; destruct (_ || _); vm_compute; discriminate. }
  pose proof (zlen_nonneg txids) as Hp.
  destruct (tree_height_ok (E := unit) txids Hne ltac:(lia)) as (h & root & Eh & Hh & El & ->).
  destruct (encodes_ok txids vMatch ltac:(lia) Hm Hb Hd Hfree h 0 root Hh ltac:(now rewrite El)) as (B & Hs & [Eb Es Ef Ex]).
  pose proof (one_node_covers txids h root El) as Hc; rewrite !range_all in * by lia; unfold zlen in *.
  assert (HB : Z.of_nat (length B) <= MAX_SIZE) by (unfold MAX_SIZE; nia).
  set (t := mkPMT (Z.of_nat (length txids)) B Hs false).
  destruct (CPartialMerkleTree_writes t) as (data & Hput & _ & Hget);
    [split; cbn; lia | exact Ef | unfold MAX_SIZE in *; unfold zlen; cbn; lia | exact HB |].
  exists t; eexists; exists data; split; [| split; [exact Hput |]; split; [exact Hget |]].
  { unfold new_pmt, zlen; rewrite (uwrap_small 32), Eh by lia; cbn [mbind res_bind]; change (Z.of_nat 0) with 0 in Eb; now rewrite (Eb unit [] []). }
  destruct (unpack_pack B) as (pad & Epad & Elen); subst t; cbn [vBits vHash nTransactions]; rewrite Epad.
  set (t' := mkPMT _ _ _ _); set (st0 := mkExtract false 0 0 []).
  pose proof (Ex t' st0 pad [] eq_refl eq_refl ltac:(now rewrite app_nil_r)) as E.
  unfold ExtractMatches; cbn [nTransactions vHash vBits fBad t']; rewrite (proj2 (Z.eqb_neq _ 0)) by (destruct txids; cbn; [easy | lia]).
  rewrite (proj2 (Z.ltb_ge _ (Z.of_nat (length txids)))) by exact Hmax.
  rewrite (proj2 (Z.ltb_ge _ (zlen Hs))), (proj2 (Nat.ltb_ge _ _)) by (unfold zlen; rewrite ?length_app; lia).
  rewrite Eh; cbn [mbind res_bind]; fold st0 t'; change (Z.of_nat 0) with 0 in E; rewrite E.
  cbn [es_bad st0 nBitsUsed nHashUsed es_match Nat.add vBits vHash t' nTransactions app].
  rewrite Elen, Nat.eqb_refl, Nat.eqb_refl; reflexivity.
Qed.

(** C25: a client is not deceived.  Whatever bits and hashes a partial tree
    holds, if it names the number of transactions of a block and
    [ExtractMatches] returns the Merkle root of that block (which is not zero,
    the value that stands for a failure), then the ids it returns are ids of
    transactions of the block, in their order.  Of double SHA-256 it is used that
    it has no collision among the inputs that were hashed for the tree of the block
    and those that the extraction hashes. *)
Theorem partial_merkle_sound `{HashFunctionsOk} (saplinght : Z) (txids : list uint256) (t t' : CPartialMerkleTree)
    (ids : list uint256) :
  collision_free (merkle_inputs txids ++ ExtractMatches_inputs t) ->
  txids <> [] -> Forall (fun h => length h = 32%nat) txids -> zlen txids < 2 ^ 31 ->
  nTransactions t = zlen txids -> Forall (fun h => length h = 32%nat) (vHash t) ->
  merkle_root txids <> uint256_null ->
  ExtractMatches (E := unit) saplinght t = Ok (merkle_root txids, ids, t') ->
  ids `sublist_of` txids.
Proof.
  intros Hf Hne Hs Hn Hc Hh Hnull; unfold ExtractMatches.
  destruct (tree_height_ok (E := unit) txids Hne Hn) as (h & root & Eh & Hh31 & El & Er); rewrite Er in *.
  do 4 (case_match; [intros [= Er' _ _]; congruence |]); rewrite Hc, Eh; cbn [mbind res_bind].
  set (st0 := mkExtract _ _ _ _); destruct (TraverseAndExtract t h 0 st0) as [x st] eqn:E.
  intros [= Ex <- _]; destruct (es_bad st) eqn:Eb; [congruence |]; do 2 (case_match; [congruence |]); subst x.
  destruct (extract_sound txids t Hn Hs Hc Hh _ h 0 st0 root st Hf) as (M & EM & S); try assumption.
  { intros j Hj; apply list_subseteq_app_l; exact (lvl_below txids h Hn Eh Hh31 j Hj). }
  { apply list_subseteq_app_r; unfold ExtractMatches_inputs; rewrite Hc, Eh; easy. }
  { now rewrite El. }
  rewrite range_all in S by (eapply one_node_covers; exact El); cbn [es_match st0 app] in EM; now rewrite EM.
Qed.

(** Three transactions, the second one selected; with the hash of the node. *)
Lemma partial_merkle_roundtrip_witness :
  exists t t' data,
    @new_pmt node_hashes unit three [false; true; false] = Ok t /\ put CPartialMerkleTree_op t = Ok (t', data) /\
    @ExtractMatches node_hashes unit 1 t' = Ok (@merkle_root node_hashes three, [hash_of 2], t').
Proof.
  destruct (@partial_merkle_roundtrip node_hashes node_hashes_ok 1 three [false; true; false])
    as (t & t' & data & H1 & H2 & _ & H3).
  - discriminate.
  - apply (bool_decide_unpack _); vm_compute; exact I.
  - repeat apply Forall_cons_2; [.. | apply Forall_nil_2];
      (split; [apply (bool_decide_unpack _); vm_compute; exact I | reflexivity]).
  - reflexivity.
  - vm_compute; discriminate.
  - apply (@collision_free_digests node_hashes); vm_compute; reflexivity.
  - exists t, t', data; auto.
Defined.

Definition three_pmt : CPartialMerkleTree := Eval vm_compute in
  match @new_pmt node_hashes unit three [false; true; false] with Ok t => t | _ => mkPMT 0 [] [] false end.

Lemma partial_merkle_sound_witness :
  @new_pmt node_hashes unit three [false; true; false] = Ok three_pmt /\ [hash_of 2] `sublist_of` three.
Proof.
  split; [vm_compute; reflexivity |].
  apply (@partial_merkle_sound node_hashes node_hashes_ok 1 three three_pmt three_pmt [hash_of 2]).
  - apply (@collision_free_digests node_hashes); vm_compute; reflexivity.
  - discriminate.
  - repeat constructor.
  - reflexivity.
  - reflexivity.
  - repeat constructor.
  - vm_compute; discriminate.
  - vm_compute; reflexivity.
Defined.
