(* ===== verification/CoinsView.v ===== *)
(** * Views of the coin set

    coins.h, coins.cpp and the coin database of txdb.cpp.  A view is the
    database, or a cache ([CCoinsViewCache]) in front of another view; caches
    are stacked.  Reading through a cache fills it and the caches below, so
    every operation returns the views afterwards.  The three commitment-tree
    classes are one type with a root per shielded type; the allocator sizes of
    memusage.h are two functions, and their sum is a size_t of 64 bits. *)
From stdpp Require Import gmap functions.
From S2P Require Import Prelude Hashing Merkle Serialize Transaction Coins.

Inductive ShieldedType := SPROUT | SAPLING | SAPLINGFRONTIER.
Inductive ProofType := OUTPUT | SPEND.

#[global] Instance ShieldedType_eq_dec : EqDecision ShieldedType.
Proof. solve_decision. Defined.
#[global] Instance ProofType_eq_dec : EqDecision ProofType.
Proof. solve_decision. Defined.

(** The commitment trees: their roots, the empty tree, their memory. *)
Class AnchorTrees (Tree : Type) := {
  tree_root : ShieldedType -> Tree -> uint256;
  new_tree : ShieldedType -> Tree;
  empty_root : ShieldedType -> uint256;
  tree_usage : Tree -> Z;
  coins_usage : CCoins -> Z;
}.

(** The flags DIRTY and FRESH are booleans. *)
Record CCoinsCacheEntry := mkCoinsEntry { ce_coins : CCoins; ce_dirty : bool; ce_fresh : bool }.
Record CAnchorsCacheEntry (Tree : Type) := mkAnchorEntry {
  ae_entered : bool; ae_tree : Tree; ae_dirty : bool }.
Record CNullifiersCacheEntry := mkNullifierEntry { ne_entered : bool; ne_dirty : bool }.
Record CProofHashCacheEntry := mkProofEntry { pe_txids : gset (uint256 * Z); pe_dirty : bool }.
Arguments mkAnchorEntry {Tree}.
Arguments ae_entered {Tree}.
Arguments ae_tree {Tree}.
Arguments ae_dirty {Tree}.

Section Views.
Context {Tree : Type} `{AnchorTrees Tree}.

Abbreviation coins_map := (gmap uint256 CCoinsCacheEntry).
Abbreviation anchors_map := (gmap uint256 (CAnchorsCacheEntry Tree)).
Abbreviation nullifiers_map := (gmap uint256 CNullifiersCacheEntry).
Abbreviation proofs_map := (gmap uint256 CProofHashCacheEntry).

(** The database records, by the key prefixes of txdb.cpp. *)
Record CCoinsViewDB := mkDB {
  db_coins : gmap uint256 CCoins;
  db_anchors : ShieldedType -> gmap uint256 Tree;
  db_nullifiers : ShieldedType -> gmap uint256 bool;
  db_proofs : ProofType -> gmap uint256 (gset (uint256 * Z));
  db_best_block : option uint256;
  db_best_anchor : ShieldedType -> option uint256;
}.

(** The members of [CCoinsViewCache]. *)
Record CCoinsViewCache := mkCache {
  hasModifier : bool;
  hashBlock : uint256;
  cacheCoins : coins_map;
  hashAnchor : ShieldedType -> uint256;
  cacheAnchors : ShieldedType -> anchors_map;
  cacheNullifiers : ShieldedType -> nullifiers_map;
  cacheProofHash : ProofType -> proofs_map;
  cachedCoinsUsage : Z;
}.

Inductive view :=
| VDB (d : CCoinsViewDB)
| VCache (c : CCoinsViewCache) (base : view).

Definition IsNull (h : uint256) : bool := bool_decide (h = uint256_null).

(** [CCoinsViewCache(base)]. *)
Definition new_cache : CCoinsViewCache :=
  mkCache false uint256_null ∅ (fun _ => uint256_null) (fun _ => ∅) (fun _ => ∅) (fun _ => ∅) 0.

Definition set_coins (c : CCoinsViewCache) (m : coins_map) (u : Z) : CCoinsViewCache :=
  mkCache (hasModifier c) (hashBlock c) m (hashAnchor c) (cacheAnchors c) (cacheNullifiers c)
    (cacheProofHash c) u.
Definition set_modifier (c : CCoinsViewCache) (b : bool) : CCoinsViewCache :=
  mkCache b (hashBlock c) (cacheCoins c) (hashAnchor c) (cacheAnchors c) (cacheNullifiers c)
    (cacheProofHash c) (cachedCoinsUsage c).
Definition set_block (c : CCoinsViewCache) (h : uint256) : CCoinsViewCache :=
  mkCache (hasModifier c) h (cacheCoins c) (hashAnchor c) (cacheAnchors c) (cacheNullifiers c)
    (cacheProofHash c) (cachedCoinsUsage c).
Definition set_anchors (c : CCoinsViewCache) (t : ShieldedType) (m : anchors_map) (u : Z)
    : CCoinsViewCache :=
  mkCache (hasModifier c) (hashBlock c) (cacheCoins c) (hashAnchor c) (<[t := m]> (cacheAnchors c))
    (cacheNullifiers c) (cacheProofHash c) u.
Definition set_hashAnchor (c : CCoinsViewCache) (t : ShieldedType) (h : uint256) : CCoinsViewCache :=
  mkCache (hasModifier c) (hashBlock c) (cacheCoins c) (<[t := h]> (hashAnchor c)) (cacheAnchors c)
    (cacheNullifiers c) (cacheProofHash c) (cachedCoinsUsage c).
Definition set_nullifiers (c : CCoinsViewCache) (t : ShieldedType) (m : nullifiers_map)
    : CCoinsViewCache :=
  mkCache (hasModifier c) (hashBlock c) (cacheCoins c) (hashAnchor c) (cacheAnchors c)
    (<[t := m]> (cacheNullifiers c)) (cacheProofHash c) (cachedCoinsUsage c).
Definition set_proofs (c : CCoinsViewCache) (t : ProofType) (m : proofs_map) : CCoinsViewCache :=
  mkCache (hasModifier c) (hashBlock c) (cacheCoins c) (hashAnchor c) (cacheAnchors c)
    (cacheNullifiers c) (<[t := m]> (cacheProofHash c)) (cachedCoinsUsage c).

(** ** Reading *)

(** The database's own readers. *)
Definition db_GetCoins (d : CCoinsViewDB) (txid : uint256) : option CCoins := db_coins d !! txid.

Definition db_HaveCoins (d : CCoinsViewDB) (txid : uint256) : bool :=
  match db_coins d !! txid with Some _ => true | None => false end.

Definition db_GetAnchorAt (d : CCoinsViewDB) (t : ShieldedType) (rt : uint256) : option Tree :=
  if bool_decide (rt = empty_root t) then Some (new_tree t) else db_anchors d t !! rt.

Definition db_GetNullifier {E} (d : CCoinsViewDB) (t : ShieldedType) (nf : uint256) : res E bool :=
  match t with
  | SAPLINGFRONTIER => Exn runtime_error
  | _ => Ok (match db_nullifiers d t !! nf with Some _ => true | None => false end)
  end.

Definition db_GetZkProofHash (d : CCoinsViewDB) (t : ProofType) (h : uint256)
    : bool * gset (uint256 * Z) :=
  match db_proofs d t !! h with Some s => (true, s) | None => (false, ∅) end.

Definition db_GetBestBlock (d : CCoinsViewDB) : uint256 :=
  match db_best_block d with Some h => h | None => uint256_null end.

Definition db_GetBestAnchor (d : CCoinsViewDB) (t : ShieldedType) : uint256 :=
  match db_best_anchor d t with Some h => h | None => empty_root t end.

(** [FetchCoins] of a cache, given [base->GetCoins(txid)] and its effect on the
    base: the entry, or the end iterator, and the cache afterwards. *)
Definition fetch_entry (tmp : CCoins) : CCoinsCacheEntry := mkCoinsEntry tmp false (IsPruned tmp).

(** [GetCoins]: the coins, when found, and the views afterwards. *)
Fixpoint GetCoins (v : view) (txid : uint256) : option CCoins * view :=
  match v with
  | VDB d => (db_GetCoins d txid, v)
  | VCache c base =>
      match cacheCoins c !! txid with
      | Some e => (Some (ce_coins e), v)
      | None =>
          let '(r, base) := GetCoins base txid in
          match r with
          | None => (None, VCache c base)
          | Some tmp =>
              (Some tmp,
               VCache (set_coins c (<[txid := fetch_entry tmp]> (cacheCoins c))
                         (u64 (cachedCoinsUsage c + coins_usage tmp))) base)
          end
      end
  end.

(** [AccessCoins] of a cache: the coins, or NULL. *)
Definition AccessCoins (v : view) (txid : uint256) : option CCoins * view := GetCoins v txid.

(** [HaveCoins]. *)
Definition HaveCoins (v : view) (txid : uint256) : bool * view :=
  match v with
  | VDB d => (db_HaveCoins d txid, v)
  | VCache _ _ =>
      let '(r, v) := GetCoins v txid in
      (match r with Some c => negb (match vout c with [] => true | _ => false end) | None => false end,
       v)
  end.

(** [GetSproutAnchorAt], [GetSaplingAnchorAt], [GetSaplingFrontierAnchorAt]. *)
Fixpoint GetAnchorAt (v : view) (t : ShieldedType) (rt : uint256) : option Tree * view :=
  match v with
  | VDB d => (db_GetAnchorAt d t rt, v)
  | VCache c base =>
      match cacheAnchors c t !! rt with
      | Some e => (if ae_entered e then Some (ae_tree e) else None, v)
      | None =>
          let '(r, base) := GetAnchorAt base t rt in
          match r with
          | None => (None, VCache c base)
          | Some tree =>
              (Some tree,
               VCache (set_anchors c t (<[rt := mkAnchorEntry true tree false]> (cacheAnchors c t))
                         (u64 (cachedCoinsUsage c + tree_usage tree))) base)
          end
      end
  end.

(** [GetNullifier]; the frontier type is rejected with an exception. *)
Fixpoint GetNullifier {E} (v : view) (t : ShieldedType) (nf : uint256) : res E (bool * view) :=
  match t with
  | SAPLINGFRONTIER => Exn runtime_error
  | _ =>
      match v with
      | VDB d => b ← db_GetNullifier d t nf; Ok (b, v)
      | VCache c base =>
          match cacheNullifiers c t !! nf with
          | Some e => Ok (ne_entered e, v)
          | None =>
              r ← GetNullifier base t nf;
              Ok (r.1, VCache (set_nullifiers c t
                                 (<[nf := mkNullifierEntry r.1 false]> (cacheNullifiers c t))) r.2)
          end
      end
  end.

(** [GetZkProofHash]: the returned boolean, [txids] and the views. *)
Fixpoint GetZkProofHash (v : view) (t : ProofType) (h : uint256)
    : bool * gset (uint256 * Z) * view :=
  match v with
  | VDB d => (db_GetZkProofHash d t h, v)
  | VCache c base =>
      match cacheProofHash c t !! h with
      | Some e => (negb (bool_decide (pe_txids e = ∅)), pe_txids e, v)
      | None =>
          let '(_, txids, base) := GetZkProofHash base t h in
          (negb (bool_decide (txids = ∅)), txids,
           VCache (set_proofs c t (<[h := mkProofEntry txids false]> (cacheProofHash c t))) base)
      end
  end.

Fixpoint GetBestBlock (v : view) : uint256 * view :=
  match v with
  | VDB d => (db_GetBestBlock d, v)
  | VCache c base =>
      if IsNull (hashBlock c) then
        let '(h, base) := GetBestBlock base in (h, VCache (set_block c h) base)
      else (hashBlock c, v)
  end.

Fixpoint GetBestAnchor (v : view) (t : ShieldedType) : uint256 * view :=
  match v with
  | VDB d => (db_GetBestAnchor d t, v)
  | VCache c base =>
      if IsNull (hashAnchor c t) then
        let '(h, base) := GetBestAnchor base t in (h, VCache (set_hashAnchor c t h) base)
      else (hashAnchor c t, v)
  end.

(** ** Modifying a cache *)

Definition SetBestBlock (c : CCoinsViewCache) (h : uint256) : CCoinsViewCache := set_block c h.

(** [ModifyCoins]: the cache with the entry for [txid] marked dirty and the
    modifier taken, the base, and the memory of the entry before. *)
Definition ModifyCoins {E} (c : CCoinsViewCache) (base : view) (txid : uint256)
    : res E (CCoinsViewCache * view * Z) :=
  _ ← assert_ (negb (hasModifier c));
  let '(e, base, usage) :=
    match cacheCoins c !! txid with
    | Some e => (e, base, coins_usage (ce_coins e))
    | None =>
        let '(r, base) := GetCoins base txid in
        match r with
        | None => (mkCoinsEntry coins_Clear false true, base, 0)
        | Some coins => (mkCoinsEntry coins false (IsPruned coins), base, 0)
        end
    end in
  let e := mkCoinsEntry (ce_coins e) true (ce_fresh e) in
  Ok (set_modifier (set_coins c (<[txid := e]> (cacheCoins c)) (cachedCoinsUsage c)) true, base, usage).

(** A change of the coins through the modifier. *)
Definition modifier_apply (c : CCoinsViewCache) (txid : uint256) (f : CCoins -> CCoins)
    : CCoinsViewCache :=
  match cacheCoins c !! txid with
  | Some e =>
      set_coins c (<[txid := mkCoinsEntry (f (ce_coins e)) (ce_dirty e) (ce_fresh e)]> (cacheCoins c))
        (cachedCoinsUsage c)
  | None => c
  end.

(** [~CCoinsModifier]. *)
Definition modifier_end {E} (c : CCoinsViewCache) (txid : uint256) (usage : Z)
    : res E CCoinsViewCache :=
  _ ← assert_ (hasModifier c);
  let c := set_modifier c false in
  match cacheCoins c !! txid with
  | None => Exn oob_read
  | Some e =>
      let coins := Cleanup (ce_coins e) in
      let u := u64 (cachedCoinsUsage c - usage) in
      if ce_fresh e && IsPruned coins
      then Ok (set_coins c (delete txid (cacheCoins c)) u)
      else Ok (set_coins c
                 (<[txid := mkCoinsEntry coins (ce_dirty e) (ce_fresh e)]> (cacheCoins c))
                 (u64 (u + coins_usage coins)))
  end.

(** A scope with a modifier: [ModifyCoins], a change, and the destructor. *)
Definition modify {E} (c : CCoinsViewCache) (base : view) (txid : uint256) (f : CCoins -> CCoins)
    : res E (CCoinsViewCache * view) :=
  r ← ModifyCoins c base txid;
  let '(c, base, usage) := r in
  c ← modifier_end (modifier_apply c txid f) txid usage;
  Ok (c, base).

(** A scope whose statements also give a value, or fail. *)
Definition modify_with {E R} (c : CCoinsViewCache) (base : view) (txid : uint256)
    (f : CCoins -> res E (R * CCoins)) : res E (R * (CCoinsViewCache * view)) :=
  r ← ModifyCoins c base txid;
  let '(c, base, usage) := r in
  match cacheCoins c !! txid with
  | None => Exn oob_read
  | Some e =>
      q ← f (ce_coins e);
      c ← modifier_end (modifier_apply c txid (fun _ => q.2)) txid usage;
      Ok (q.1, (c, base))
  end.

(** [PushAnchor] of a tree of each type. *)
Definition PushAnchor (c : CCoinsViewCache) (base : view) (t : ShieldedType) (tree : Tree)
    : CCoinsViewCache * view :=
  let newrt := tree_root t tree in
  match GetBestAnchor (VCache c base) t with
  | (currentRoot, VCache c base) =>
      if bool_decide (currentRoot = newrt) then (c, base)
      else
        let u := match cacheAnchors c t !! newrt with
                 | None => u64 (cachedCoinsUsage c + tree_usage tree)
                 | Some _ => cachedCoinsUsage c
                 end in
        (set_hashAnchor
           (set_anchors c t (<[newrt := mkAnchorEntry true tree true]> (cacheAnchors c t)) u) t newrt,
         base)
  | (_, VDB _) => (c, base)
  end.

(** [PopAnchor]: the best anchor must be readable. *)
Definition PopAnchor {E} (c : CCoinsViewCache) (base : view) (t : ShieldedType) (newrt : uint256)
    : res E (CCoinsViewCache * view) :=
  match GetBestAnchor (VCache c base) t with
  | (currentRoot, v) =>
      if bool_decide (currentRoot = newrt) then
        match v with VCache c base => Ok (c, base) | VDB _ => Ok (c, base) end
      else
        match GetAnchorAt v t currentRoot with
        | (None, _) => Exn assertion_failed
        | (Some _, VDB _) => Exn assertion_failed
        | (Some tree, VCache c base) =>
            let e := match cacheAnchors c t !! currentRoot with
                     | Some e => mkAnchorEntry false (ae_tree e) true
                     | None => mkAnchorEntry false tree true
                     end in
            Ok (set_hashAnchor
                  (set_anchors c t (<[currentRoot := e]> (cacheAnchors c t)) (cachedCoinsUsage c))
                  t newrt, base)
        end
  end.

(** One insertion of [SetNullifiers]. *)
Definition set_nullifier (c : CCoinsViewCache) (t : ShieldedType) (nf : uint256) (spent : bool)
    : CCoinsViewCache :=
  set_nullifiers c t (<[nf := mkNullifierEntry spent true]> (cacheNullifiers c t)).

(** The two loops of [SetNullifiers]. *)
Definition set_nullifier_lists (c : CCoinsViewCache) (sprout sapling : list uint256) (spent : bool)
    : CCoinsViewCache :=
  let c := fold_left (fun c nf => set_nullifier c SPROUT nf spent) sprout c in
  fold_left (fun c nf => set_nullifier c SAPLING nf spent) sapling c.

(** [SetNullifiers]: the nullifiers of the join-splits and of the spends. *)
Definition sprout_nullifiers (tx : CTransaction) : list uint256 :=
  concat (map js_nullifiers (vjoinsplit tx)).
Definition sapling_nullifiers (tx : CTransaction) : list uint256 := map sp_nullifier (vShieldedSpend tx).

Definition SetNullifiers (c : CCoinsViewCache) (tx : CTransaction) (spent : bool) : CCoinsViewCache :=
  set_nullifier_lists c (sprout_nullifiers tx) (sapling_nullifiers tx) spent.

(** One insertion of [SetZkProofHashes]; a missing entry starts empty. *)
Definition set_proof (c : CCoinsViewCache) (t : ProofType) (txid h : uint256) (i : Z) (addTx : bool)
    : CCoinsViewCache :=
  let txids := match cacheProofHash c t !! h with Some e => pe_txids e | None => ∅ end in
  let txids := if addTx then txids ∪ {[(txid, i)]} else txids ∖ {[(txid, i)]} in
  set_proofs c t (<[h := mkProofEntry txids true]> (cacheProofHash c t)).

Fixpoint set_proofs_loop (c : CCoinsViewCache) (t : ProofType) (txid : uint256) (hs : list uint256)
    (i : Z) (addTx : bool) : CCoinsViewCache :=
  match hs with
  | [] => c
  | h :: hs => set_proofs_loop (set_proof c t txid h i addTx) t txid hs (i + 1) addTx
  end.

(** [txid] is the transaction's hash; [ProofHash] is double SHA-256. *)
Definition SetZkProofHashes `{HashFunctions} (c : CCoinsViewCache) (txid : uint256) (tx : CTransaction)
    (addTx : bool) : CCoinsViewCache :=
  let c := set_proofs_loop c SPEND txid (map (fun d => Hash (sp_zkproof d)) (vShieldedSpend tx)) 0 addTx in
  set_proofs_loop c OUTPUT txid (map (fun d => Hash (od_zkproof d)) (vShieldedOutput tx)) 0 addTx.

(** ** Writing back *)

(** One iteration over the child's coins in [CCoinsViewCache::BatchWrite]. *)
Definition write_coins_entry {E} (c : CCoinsViewCache) (txid : uint256) (e : CCoinsCacheEntry)
    : res E CCoinsViewCache :=
  if negb (ce_dirty e) then Ok c
  else
    match cacheCoins c !! txid with
    | None =>
        if IsPruned (ce_coins e) then Ok c
        else
          _ ← assert_ (ce_fresh e);
          Ok (set_coins c (<[txid := mkCoinsEntry (ce_coins e) true true]> (cacheCoins c))
                (u64 (cachedCoinsUsage c + coins_usage (ce_coins e))))
    | Some us =>
        if ce_fresh us && IsPruned (ce_coins e)
        then Ok (set_coins c (delete txid (cacheCoins c))
                   (u64 (cachedCoinsUsage c - coins_usage (ce_coins us))))
        else Ok (set_coins c
                   (<[txid := mkCoinsEntry (ce_coins e) true (ce_fresh us)]> (cacheCoins c))
                   (u64 (u64 (cachedCoinsUsage c - coins_usage (ce_coins us)) + coins_usage (ce_coins e))))
    end.

(** The loop, over the entries in the order of iteration. *)
Fixpoint write_coins {E} (l : list (uint256 * CCoinsCacheEntry)) (c : CCoinsViewCache)
    : res E CCoinsViewCache :=
  match l with
  | [] => Ok c
  | (txid, e) :: l => c ← write_coins_entry c txid e; write_coins l c
  end.

(** [BatchWriteNullifiers] of coins.cpp. *)
Definition write_nullifier (m : nullifiers_map) (ne : uint256 * CNullifiersCacheEntry)
    : nullifiers_map :=
  let '(nf, e) := ne in
  if negb (ne_dirty e) then m
  else
    match m !! nf with
    | None => <[nf := mkNullifierEntry (ne_entered e) true]> m
    | Some p =>
        if Bool.eqb (ne_entered p) (ne_entered e) then m
        else <[nf := mkNullifierEntry (ne_entered e) true]> m
    end.

Definition BatchWriteNullifiers (l : list (uint256 * CNullifiersCacheEntry)) (m : nullifiers_map)
    : nullifiers_map := fold_left write_nullifier l m.

(** [BatchWriteProofHashes] of coins.cpp. *)
Definition write_proof (m : proofs_map) (he : uint256 * CProofHashCacheEntry) : proofs_map :=
  let '(h, e) := he in
  if negb (pe_dirty e) then m
  else
    match m !! h with
    | None => <[h := mkProofEntry (pe_txids e) true]> m
    | Some p =>
        if bool_decide (pe_txids p = pe_txids e) then m
        else <[h := mkProofEntry (pe_txids e) true]> m
    end.

Definition BatchWriteProofHashes (l : list (uint256 * CProofHashCacheEntry)) (m : proofs_map)
    : proofs_map := fold_left write_proof l m.

(** [BatchWriteAnchors] of coins.cpp, with the memory counter. *)
Definition write_anchor (mu : anchors_map * Z) (re : uint256 * CAnchorsCacheEntry Tree)
    : anchors_map * Z :=
  let '(m, u) := mu in
  let '(rt, e) := re in
  if negb (ae_dirty e) then (m, u)
  else
    match m !! rt with
    | None => (<[rt := mkAnchorEntry (ae_entered e) (ae_tree e) true]> m, u64 (u + tree_usage (ae_tree e)))
    | Some p =>
        if Bool.eqb (ae_entered p) (ae_entered e) then (m, u)
        else (<[rt := mkAnchorEntry (ae_entered e) (ae_tree p) true]> m, u)
    end.

Definition BatchWriteAnchors (c : CCoinsViewCache) (t : ShieldedType)
    (l : list (uint256 * CAnchorsCacheEntry Tree)) : CCoinsViewCache :=
  let '(m, u) := fold_left write_anchor l (cacheAnchors c t, cachedCoinsUsage c) in
  set_anchors c t m u.

(** The same for the database (txdb.cpp). *)
Definition db_write_coins (m : gmap uint256 CCoins) (te : uint256 * CCoinsCacheEntry)
    : gmap uint256 CCoins :=
  let '(txid, e) := te in
  if ce_dirty e then
    if IsPruned (ce_coins e) then delete txid m else <[txid := ce_coins e]> m
  else m.

Definition db_write_nullifier (m : gmap uint256 bool) (ne : uint256 * CNullifiersCacheEntry)
    : gmap uint256 bool :=
  let '(nf, e) := ne in
  if ne_dirty e then if ne_entered e then <[nf := true]> m else delete nf m else m.

Definition db_write_proof (m : gmap uint256 (gset (uint256 * Z)))
    (he : uint256 * CProofHashCacheEntry) : gmap uint256 (gset (uint256 * Z)) :=
  let '(h, e) := he in
  if pe_dirty e then
    if bool_decide (pe_txids e = ∅) then delete h m else <[h := pe_txids e]> m
  else m.

Definition db_write_anchor (t : ShieldedType) (m : gmap uint256 Tree)
    (re : uint256 * CAnchorsCacheEntry Tree) : gmap uint256 Tree :=
  let '(rt, e) := re in
  if ae_dirty e then
    if ae_entered e then
      if bool_decide (rt = empty_root t) then m else <[rt := ae_tree e]> m
    else delete rt m
  else m.

(** [batch.Write] of a best hash, unless it is null. *)
Definition db_set_best (old : option uint256) (h : uint256) : option uint256 :=
  if IsNull h then old else Some h.

Definition db_BatchWrite (d : CCoinsViewDB) (ch : CCoinsViewCache) : CCoinsViewDB :=
  mkDB (fold_left db_write_coins (map_to_list (cacheCoins ch)) (db_coins d))
    (fun t => fold_left (db_write_anchor t) (map_to_list (cacheAnchors ch t)) (db_anchors d t))
    (fun t => fold_left db_write_nullifier (map_to_list (cacheNullifiers ch t)) (db_nullifiers d t))
    (fun t => fold_left db_write_proof (map_to_list (cacheProofHash ch t)) (db_proofs d t))
    (db_set_best (db_best_block d) (hashBlock ch))
    (fun t => db_set_best (db_best_anchor d t) (hashAnchor ch t)).

(** [BatchWrite] with the maps and hashes of the child cache [ch]. *)
Definition BatchWrite {E} (v : view) (ch : CCoinsViewCache) : res E view :=
  match v with
  | VDB d => Ok (VDB (db_BatchWrite d ch))
  | VCache c base =>
      _ ← assert_ (negb (hasModifier c));
      c ← write_coins (map_to_list (cacheCoins ch)) c;
      let c := BatchWriteAnchors c SPROUT (map_to_list (cacheAnchors ch SPROUT)) in
      let c := BatchWriteAnchors c SAPLING (map_to_list (cacheAnchors ch SAPLING)) in
      let c := BatchWriteAnchors c SAPLINGFRONTIER (map_to_list (cacheAnchors ch SAPLINGFRONTIER)) in
      let nfs t := BatchWriteNullifiers (map_to_list (cacheNullifiers ch t)) (cacheNullifiers c t) in
      let c := set_nullifiers (set_nullifiers c SPROUT (nfs SPROUT)) SAPLING (nfs SAPLING) in
      let prs t := BatchWriteProofHashes (map_to_list (cacheProofHash ch t)) (cacheProofHash c t) in
      let c := set_proofs (set_proofs c OUTPUT (prs OUTPUT)) SPEND (prs SPEND) in
      Ok (VCache (mkCache (hasModifier c) (hashBlock ch) (cacheCoins c) (hashAnchor ch)
                    (cacheAnchors c) (cacheNullifiers c) (cacheProofHash c) (cachedCoinsUsage c))
            base)
  end.

(** [Flush]: the emptied cache and the base with its changes. *)
Definition Flush {E} (c : CCoinsViewCache) (base : view) : res E (CCoinsViewCache * view) :=
  base ← BatchWrite base c;
  Ok (mkCache (hasModifier c) (hashBlock c) ∅ (hashAnchor c) (fun _ => ∅) (fun _ => ∅) (fun _ => ∅) 0,
      base).

(** ** Questions about transactions *)

(** The loop of [HaveInputs] over the outpoints of the inputs. *)
Fixpoint have_inputs_loop (v : view) (l : list (uint256 * Z)) : bool * view :=
  match l with
  | [] => (true, v)
  | (hash, n) :: l =>
      let '(r, v) := AccessCoins v hash in
      match r with
      | Some coins => if IsAvailable coins n then have_inputs_loop v l else (false, v)
      | None => (false, v)
      end
  end.

(** The outpoints a transaction spends. *)
Definition prevouts (tx : CTransaction) : list (uint256 * Z) :=
  map (fun i => (op_hash (prevout i), op_n (prevout i))) (tx_vin tx).

Definition HaveInputs (v : view) (tx : CTransaction) : bool * view :=
  if IsMint tx then (true, v) else have_inputs_loop v (prevouts tx).

(** [GetOutputFor]. *)
Definition GetOutputFor {E} (v : view) (hash : uint256) (n : Z) : res E (CTxOut * view) :=
  let '(r, v) := AccessCoins v hash in
  match r with
  | Some coins =>
      _ ← assert_ (IsAvailable coins n);
      match vout coins !! Z.to_nat n with Some o => Ok (o, v) | None => Exn oob_read end
  | None => Exn assertion_failed
  end.
End Views.

Arguments CCoinsViewDB Tree : clear implicits.
Arguments CCoinsViewCache Tree : clear implicits.
Arguments view Tree : clear implicits.
