(* ===== verification/CoinsViewSpec.v ===== *)
(** * Caches of the coin set refine maps

    A stack of caches over the coin database behaves as a stack of plain maps:
    every read through the caches answers what the map of the top level says,
    a modification updates that map alone, [Flush] copies it to the level below,
    and no assertion of the caches fails.  The flags DIRTY and FRESH are
    explained by an invariant that relates each entry to the view below. *)
From stdpp Require Import gmap functions.
From S2P Require Import Prelude Hashing Merkle Serialize Transaction Coins CoinsView.

(** ** Maps written entry by entry *)

(** A loop over the entries of a map whose body touches only the entry's key
    acts on every key separately, in whatever order. *)
Lemma fold_left_per_key {K} `{Countable K} {V W}
    (step : gmap K W -> K * V -> gmap K W) (upd : V -> option W -> option W) (l : list (K * V)) :
  (forall m k v j, step m (k, v) !! j = if decide (j = k) then upd v (m !! k) else m !! j) ->
  base.NoDup l.*1 -> forall m j,
  fold_left step l m !! j =
    match (list_to_map l : gmap K V) !! j with Some v => upd v (m !! j) | None => m !! j end.
Proof.
  intros Hs; induction l as [| [k v] l IH]; intros Hnd m j; cbn [fold_left].
  - now rewrite list_to_map_nil, lookup_empty.
  - pose proof (NoDup_cons_1_1 _ _ Hnd) as Hk; apply NoDup_cons_1_2 in Hnd; rewrite IH by assumption; cbn [list_to_map foldr fst snd].
    rewrite Hs; destruct (decide (j = k)) as [-> | Hne].
    + rewrite lookup_insert_eq, not_elem_of_list_to_map_1 by assumption; reflexivity.
    + now rewrite lookup_insert_ne by congruence.
Qed.

Lemma fold_map_to_list {K} `{Countable K} {V W}
    (step : gmap K W -> K * V -> gmap K W) (upd : V -> option W -> option W) (ch : gmap K V) :
  (forall m k v j, step m (k, v) !! j = if decide (j = k) then upd v (m !! k) else m !! j) ->
  forall m j, fold_left step (map_to_list ch) m !! j =
    match ch !! j with Some v => upd v (m !! j) | None => m !! j end.
Proof.
  intros Hs m j; rewrite (fold_left_per_key step upd) by (assumption || apply NoDup_fst_map_to_list).
  now rewrite list_to_map_to_list.
Qed.

Section Spec.
Context {Tree : Type} `{AnchorTrees Tree}.
Abbreviation cache := (CCoinsViewCache Tree).
Abbreviation view := (view Tree).

(** ** Coins *)

(** Fully spent coins are no coins. *)
Definition canon (c : CCoins) : option CCoins := if IsPruned c then None else Some c.

Definition canon_opt (o : option CCoins) : option CCoins :=
  match o with Some c => canon c | None => None end.

(** The coin set a view represents. *)
Fixpoint utxo (v : view) (txid : uint256) : option CCoins :=
  match v with
  | VDB d => canon_opt (db_coins d !! txid)
  | VCache c base =>
      match cacheCoins c !! txid with
      | Some e => canon (ce_coins e)
      | None => utxo base txid
      end
  end.

(** The view can be written to at [txid] without the FRESH flag: a database
    always, a cache when it has an entry. *)
Definition has_entry (v : view) (txid : uint256) : Prop :=
  match v with VDB _ => True | VCache c _ => is_Some (cacheCoins c !! txid) end.

(** What the flags of an entry say about the view below. *)
Record entry_inv (base : view) (txid : uint256) (e : CCoinsCacheEntry) : Prop := {
  ei_fresh : ce_fresh e = true -> utxo base txid = None;
  ei_clean : ce_dirty e = false -> canon (ce_coins e) = utxo base txid;
  ei_known : ce_fresh e = false -> has_entry base txid;
}.

Fixpoint coins_inv (v : view) : Prop :=
  match v with
  | VDB _ => True
  | VCache c base =>
      coins_inv base /\ hasModifier c = false /\
      forall txid e, cacheCoins c !! txid = Some e -> entry_inv base txid e
  end.

Lemma entry_inv_mono b b' txid e :
  utxo b' txid = utxo b txid -> (has_entry b txid -> has_entry b' txid) ->
  entry_inv b txid e -> entry_inv b' txid e.
Proof. intros E Hm [H1 H2 H3]; split; rewrite ?E; auto. Qed.

(** Reading fills caches but changes no coin set. *)
Lemma GetCoins_ok v txid :
  coins_inv v ->
  let r := GetCoins v txid in
  canon_opt r.1 = utxo v txid /\ coins_inv r.2 /\ (forall t, utxo r.2 t = utxo v t) /\
  (forall t, has_entry v t -> has_entry r.2 t) /\ (r.1 <> None -> has_entry r.2 txid).
Proof.
  induction v as [d | c base IH]; intros Hinv; cbn [GetCoins utxo]; [repeat split; auto |].
  destruct Hinv as (Hb & Hmod & He).
  destruct (cacheCoins c !! txid) as [e |] eqn:Ee.
  { cbn [fst snd]; split; [reflexivity |]; split; [now split |].
    split; [auto |]; split; [auto |]; intros _; now exists e. }
  specialize (IH Hb); destruct (GetCoins base txid) as [r base'] eqn:Er.
  cbn [fst snd] in IH; destruct IH as (Hr & Hb' & Hu & Hm & Hk).
  assert (Hold : forall t e, cacheCoins c !! t = Some e -> entry_inv base' t e).
  { intros t e Hte; apply (entry_inv_mono base); auto. }
  destruct r as [tmp |]; cbn [fst snd].
  - split; [assumption |]; split; [| split; [| split]].
    + split; [assumption |]; split; [assumption |]; cbn [set_coins cacheCoins]; intros t e.
      destruct (decide (t = txid)) as [-> |]; [rewrite lookup_insert_eq | rewrite lookup_insert_ne by congruence].
      * intros [= <-]; unfold fetch_entry; split; cbn [ce_fresh ce_dirty ce_coins].
        -- intros Hp; rewrite Hu, <- Hr; cbn; unfold canon; now rewrite Hp.
        -- intros _; now rewrite Hu, <- Hr.
        -- intros _; apply Hk; discriminate.
      * apply Hold.
    + intros t; cbn [utxo set_coins cacheCoins].
      destruct (decide (t = txid)) as [-> |]; [rewrite lookup_insert_eq | rewrite lookup_insert_ne by congruence].
      * now rewrite Ee.
      * destruct (cacheCoins c !! t); auto.
    + intros t [e Hte]; cbn [has_entry set_coins cacheCoins].
      apply lookup_insert_is_Some'; right; eauto.
    + intros _; cbn; rewrite lookup_insert_eq; eauto.
  - split; [assumption |]; split; [split; [assumption | split; assumption] |].
    split; [| split; [auto | congruence]].
    intros t; cbn [utxo]; destruct (cacheCoins c !! t); auto.
Qed.

(** A scope with a modifier: [cur] is the object the modifier refers to; it is
    changed by some [g], and then the destructor runs. *)
Lemma modifier_scope {E} c base txid :
  coins_inv (VCache c base) ->
  exists cur c1 base' u e, ModifyCoins (E := E) c base txid = Ok (c1, base', u) /\
    cacheCoins c1 !! txid = Some e /\ ce_coins e = cur /\
    canon cur = utxo (VCache c base) txid /\
    (forall t, utxo base' t = utxo base t) /\
    (base' = base \/ base' = snd (GetCoins base txid)) /\
    forall g, exists c' m w, modifier_end (E := E) (modifier_apply c1 txid g) txid u = Ok c' /\
      coins_inv (VCache c' base') /\ c' = set_coins c m w /\
      (forall t, utxo (VCache c' base') t
         = if decide (t = txid) then canon (Cleanup (g cur)) else utxo (VCache c base) t).
Proof.
  intros (Hb & Hmod & He); unfold ModifyCoins; rewrite Hmod; cbn [negb assert_ mbind res_bind].
  set (sel := match cacheCoins c !! txid with Some e => _ | None => _ end).
  assert (Hsel : exists e base' u, sel = (e, base', u) /\ canon (ce_coins e) = utxo (VCache c base) txid /\
    coins_inv base' /\ (forall t, utxo base' t = utxo base t) /\
    (forall t, has_entry base t -> has_entry base' t) /\
    (ce_fresh e = true -> utxo base' txid = None) /\ (ce_fresh e = false -> has_entry base' txid) /\
    (base' = base \/ base' = snd (GetCoins base txid))).
  { subst sel; cbn [utxo]; destruct (cacheCoins c !! txid) as [e |] eqn:Ee.
    - exists e, base, (coins_usage (ce_coins e)); destruct (He txid e Ee).
      split; [reflexivity |]; repeat (split; auto).
    - pose proof (GetCoins_ok base txid Hb) as G; destruct (GetCoins base txid) as [r base'].
      cbn [fst snd] in G; destruct G as (Hr & Hb' & Hu & Hm & Hk).
      destruct r as [coins |]; (eexists _, base', 0; split; [reflexivity |]); cbn [ce_coins ce_fresh snd].
      + split; [exact Hr |]; split; [exact Hb' |]; split; [exact Hu |]; split; [exact Hm |].
        split; [| split; [intros _; apply Hk; discriminate | now right]].
        intros Hp; rewrite Hu, <- Hr; cbn; unfold canon; now rewrite Hp.
      + split; [exact Hr |]; split; [exact Hb' |]; split; [exact Hu |]; split; [exact Hm |].
        split; [| split; [discriminate | now right]]; intros _; now rewrite Hu, <- Hr. }
  destruct Hsel as (e & base' & u & -> & Hcur & Hb' & Hu & Hm & Hf & Hk & Hor).
  assert (Hold : forall t e, cacheCoins c !! t = Some e -> entry_inv base' t e).
  { intros t e' Hte; apply (entry_inv_mono base); auto. }
  eexists (ce_coins e), _, base', u, _; split; [reflexivity |].
  cbn [set_modifier set_coins cacheCoins]; split; [apply lookup_insert_eq |]; split; [reflexivity |].
  split; [assumption |]; split; [assumption |]; split; [assumption |]; intros g; unfold modifier_apply.
  cbn [set_modifier set_coins cacheCoins ce_coins ce_dirty ce_fresh].
  rewrite lookup_insert_eq; unfold modifier_end.
  cbn [set_modifier set_coins cacheCoins hasModifier assert_ mbind res_bind ce_coins ce_dirty ce_fresh].
  rewrite lookup_insert_eq, insert_insert_eq; cbn [ce_coins ce_dirty ce_fresh].
  destruct (ce_fresh e && IsPruned (Cleanup (g (ce_coins e)))) eqn:Edel;
    (eexists _, _, _; split; [reflexivity |]).
  - apply andb_prop in Edel as [Efr Epr].
    split; [| split; [unfold set_coins; cbn; rewrite <- Hmod; reflexivity |]].
    + split; [assumption |]; split; [reflexivity |]; cbn [set_coins cacheCoins]; intros t e'.
      rewrite lookup_delete_Some; intros [Hne Hte].
      rewrite lookup_insert_ne in Hte by congruence; auto.
    + intros t; cbn [utxo set_coins cacheCoins]; destruct (decide (t = txid)) as [-> |].
      * rewrite lookup_delete_eq; unfold canon; rewrite Epr; auto.
      * rewrite lookup_delete_ne, lookup_insert_ne by congruence.
        destruct (cacheCoins c !! t); auto.
  - split; [| split; [unfold set_coins; cbn; rewrite <- Hmod; reflexivity |]].
    + split; [assumption |]; split; [reflexivity |]; cbn [set_coins cacheCoins]; intros t e'.
      rewrite insert_insert_eq; destruct (decide (t = txid)) as [-> |].
      * rewrite lookup_insert_eq; intros [= <-]; split; cbn; auto; discriminate.
      * rewrite lookup_insert_ne by congruence; auto.
    + intros t; cbn [utxo set_coins cacheCoins]; rewrite insert_insert_eq.
      destruct (decide (t = txid)) as [-> |]; [now rewrite lookup_insert_eq |].
      rewrite lookup_insert_ne by congruence; destruct (cacheCoins c !! t); auto.
Qed.

Lemma modify_ok {E} c base txid f :
  coins_inv (VCache c base) ->
  exists cur c' base', modify (E := E) c base txid f = Ok (c', base') /\
    canon cur = utxo (VCache c base) txid /\ coins_inv (VCache c' base') /\
    (forall t, utxo base' t = utxo base t) /\
    (forall t, utxo (VCache c' base') t
       = if decide (t = txid) then canon (Cleanup (f cur)) else utxo (VCache c base) t) /\
    (base' = base \/ base' = snd (GetCoins base txid)) /\ cacheNullifiers c' = cacheNullifiers c.
Proof.
  intros Hi; destruct (modifier_scope (E := E) c base txid Hi)
    as (cur & c1 & base' & u & e & Em & _ & _ & Hcur & Hu & Hor & Hg).
  destruct (Hg f) as (c' & m & w & Ee & Hi' & Ec & Ht).
  exists cur, c', base'; unfold modify; rewrite Em; cbn [mbind res_bind]; rewrite Ee; cbn [mbind res_bind].
  subst c'; auto 10.
Qed.

(** The same with a change that can also return a value. *)
Lemma modify_with_ok {E R} c base txid (f : CCoins -> res E (R * CCoins)) :
  coins_inv (VCache c base) ->
  exists cur base', canon cur = utxo (VCache c base) txid /\
    (forall t, utxo base' t = utxo base t) /\ (base' = base \/ base' = snd (GetCoins base txid)) /\
    match f cur with
    | Ok (r, new) => exists c' m w, modify_with c base txid f = Ok (r, (c', base')) /\
        c' = set_coins c m w /\ coins_inv (VCache c' base') /\
        (forall t, utxo (VCache c' base') t
           = if decide (t = txid) then canon (Cleanup new) else utxo (VCache c base) t)
    | Err e => modify_with c base txid f = Err e
    | Exn x => modify_with c base txid f = Exn x
    end.
Proof.
  intros Hi; destruct (modifier_scope (E := E) c base txid Hi)
    as (cur & c1 & base' & u & e & Em & El & <- & Hcur & Hu & Hor & Hg).
  exists (ce_coins e), base'; split; [exact Hcur |]; split; [exact Hu |]; split; [exact Hor |].
  unfold modify_with; rewrite Em; cbn [mbind res_bind]; rewrite El.
  destruct (f (ce_coins e)) as [[r new] | |]; [| reflexivity..]; cbn [mbind res_bind fst snd].
  destruct (Hg (fun _ => new)) as (c' & m & w & Ee & Hi' & Ec & Ht).
  exists c', m, w; rewrite Ee; auto.
Qed.

(** ** Writing coins back *)

(** The entry of the parent after the child's entry [e] has been written. *)
Definition upd_coins (e : CCoinsCacheEntry) (us : option CCoinsCacheEntry)
    : option CCoinsCacheEntry :=
  if negb (ce_dirty e) then us
  else match us with
  | None => if IsPruned (ce_coins e) then None else Some (mkCoinsEntry (ce_coins e) true true)
  | Some us =>
      if ce_fresh us && IsPruned (ce_coins e) then None
      else Some (mkCoinsEntry (ce_coins e) true (ce_fresh us))
  end.

(** The condition of the assertion in the loop. *)
Definition write_ok (e : CCoinsCacheEntry) (us : option CCoinsCacheEntry) : Prop :=
  ce_dirty e = true -> us = None -> IsPruned (ce_coins e) = false -> ce_fresh e = true.

Lemma set_coins_same (c : cache) : c = set_coins c (cacheCoins c) (cachedCoinsUsage c).
Proof. now destruct c. Qed.

Lemma write_coins_entry_ok {E} (c : cache) txid e :
  write_ok e (cacheCoins c !! txid) ->
  exists m u, write_coins_entry (E := E) c txid e = Ok (set_coins c m u) /\
    forall j, m !! j = if decide (j = txid) then upd_coins e (cacheCoins c !! txid)
                       else cacheCoins c !! j.
Proof.
  intros Hok; unfold write_coins_entry, upd_coins; unfold write_ok in Hok.
  assert (Hsame : exists m u, Ok (E := E) c = Ok (set_coins c m u) /\ forall j, m !! j =
    if decide (j = txid) then cacheCoins c !! txid else cacheCoins c !! j).
  { exists (cacheCoins c), (cachedCoinsUsage c); split; [f_equal; apply set_coins_same |].
    intros j; destruct (decide (j = txid)) as [-> |]; reflexivity. }
  destruct (ce_dirty e); cbn [negb]; [| exact Hsame].
  destruct (cacheCoins c !! txid) as [us |] eqn:Eu.
  - destruct (ce_fresh us && IsPruned (ce_coins e)); eexists _, _; (split; [reflexivity |]); intros j;
      destruct (decide (j = txid)) as [-> |].
    + apply lookup_delete_eq.
    + now apply lookup_delete_ne.
    + apply lookup_insert_eq.
    + now apply lookup_insert_ne.
  - destruct (IsPruned (ce_coins e)); [exact Hsame |].
    rewrite Hok by auto; cbn [assert_ mbind res_bind].
    eexists _, _; split; [reflexivity |]; intros j; destruct (decide (j = txid)) as [-> |];
      [apply lookup_insert_eq | now apply lookup_insert_ne].
Qed.

Lemma write_coins_ok {E} l : forall (c : cache),
  base.NoDup l.*1 -> (forall txid e, (txid, e) ∈ l -> write_ok e (cacheCoins c !! txid)) ->
  exists m u, write_coins (E := E) l c = Ok (set_coins c m u) /\
    forall j, m !! j = match (list_to_map l : gmap uint256 CCoinsCacheEntry) !! j with
                       | Some e => upd_coins e (cacheCoins c !! j)
                       | None => cacheCoins c !! j
                       end.
Proof.
  induction l as [| [txid e] l IH]; intros c Hnd Hok; cbn [write_coins].
  - exists (cacheCoins c), (cachedCoinsUsage c); split; [f_equal; apply set_coins_same |].
    intros j; now rewrite list_to_map_nil, lookup_empty.
  - pose proof (NoDup_cons_1_1 _ _ Hnd) as Hk; apply NoDup_cons_1_2 in Hnd.
    destruct (write_coins_entry_ok (E := E) c txid e) as (m & u & -> & Hm);
      [apply Hok; apply list_elem_of_here |]; cbn [mbind res_bind].
    destruct (IH (set_coins c m u) Hnd) as (m' & u' & -> & Hm').
    { intros t e' Hin; cbn [set_coins cacheCoins]; rewrite Hm; destruct (decide (t = txid)) as [-> |].
      - exfalso; apply Hk; apply list_elem_of_fmap; exists (txid, e'); auto.
      - apply Hok; now apply list_elem_of_further. }
    exists m', u'; split; [reflexivity |]; intros j; rewrite Hm'; cbn [set_coins cacheCoins list_to_map foldr fst snd].
    rewrite Hm; destruct (decide (j = txid)) as [-> |].
    + rewrite lookup_insert_eq, not_elem_of_list_to_map_1 by assumption; reflexivity.
    + now rewrite lookup_insert_ne by congruence.
Qed.

(** ** Nullifiers *)

Definition nf_type (t : ShieldedType) : Prop := t = SPROUT \/ t = SAPLING.

(** The spent nullifiers of a view. *)
Fixpoint nf_spent (v : view) (t : ShieldedType) (nf : uint256) : bool :=
  match v with
  | VDB d => match db_nullifiers d t !! nf with Some _ => true | None => false end
  | VCache c base =>
      match cacheNullifiers c t !! nf with
      | Some e => ne_entered e
      | None => nf_spent base t nf
      end
  end.

(** A clean entry agrees with the view below. *)
Fixpoint nf_inv (v : view) : Prop :=
  match v with
  | VDB _ => True
  | VCache c base =>
      nf_inv base /\
      forall t nf e, nf_type t -> cacheNullifiers c t !! nf = Some e -> ne_dirty e = false ->
        ne_entered e = nf_spent base t nf
  end.

Definition upd_nf (e : CNullifiersCacheEntry) (p : option CNullifiersCacheEntry)
    : option CNullifiersCacheEntry :=
  if negb (ne_dirty e) then p
  else match p with
  | None => Some (mkNullifierEntry (ne_entered e) true)
  | Some p =>
      if Bool.eqb (ne_entered p) (ne_entered e) then Some p
      else Some (mkNullifierEntry (ne_entered e) true)
  end.

Lemma write_nullifier_lookup m k e j :
  write_nullifier m (k, e) !! j = if decide (j = k) then upd_nf e (m !! k) else m !! j.
Proof.
  unfold write_nullifier, upd_nf; destruct (decide (j = k)) as [-> | Hne].
  - destruct (ne_dirty e); cbn [negb]; [| reflexivity].
    destruct (m !! k) as [p |] eqn:Ep; [destruct (Bool.eqb _ _) |]; rewrite ?lookup_insert_eq; auto.
  - destruct (ne_dirty e); cbn [negb]; [| reflexivity].
    destruct (m !! k) as [p |]; [destruct (Bool.eqb _ _) |]; rewrite ?lookup_insert_ne by congruence; auto.
Qed.

(** ** [BatchWrite] of a cache *)

Lemma BatchWriteAnchors_coins (c : cache) t l : cacheCoins (BatchWriteAnchors c t l) = cacheCoins c.
Proof. unfold BatchWriteAnchors; now destruct (fold_left _ _ _). Qed.

Lemma BatchWriteAnchors_nullifiers (c : cache) t l :
  cacheNullifiers (BatchWriteAnchors c t l) = cacheNullifiers c.
Proof. unfold BatchWriteAnchors; now destruct (fold_left _ _ _). Qed.

Lemma BatchWriteAnchors_modifier (c : cache) t l :
  hasModifier (BatchWriteAnchors c t l) = hasModifier c.
Proof. unfold BatchWriteAnchors; now destruct (fold_left _ _ _). Qed.

Lemma BatchWrite_cache {E} (c ch : cache) base :
  hasModifier c = false ->
  (forall txid e, cacheCoins ch !! txid = Some e -> write_ok e (cacheCoins c !! txid)) ->
  exists c', BatchWrite (E := E) (VCache c base) ch = Ok (VCache c' base) /\
    hasModifier c' = false /\
    (forall j, cacheCoins c' !! j = match cacheCoins ch !! j with
       | Some e => upd_coins e (cacheCoins c !! j) | None => cacheCoins c !! j end) /\
    (forall t j, nf_type t -> cacheNullifiers c' t !! j = match cacheNullifiers ch t !! j with
       | Some e => upd_nf e (cacheNullifiers c t !! j) | None => cacheNullifiers c t !! j end).
Proof.
  intros Hmod Hok; unfold BatchWrite; rewrite Hmod; cbn [negb assert_ mbind res_bind].
  destruct (write_coins_ok (E := E) (map_to_list (cacheCoins ch)) c) as (m & u & -> & Hm).
  { apply NoDup_fst_map_to_list. }
  { intros txid e Hin; apply Hok; now apply elem_of_map_to_list. }
  cbn [mbind res_bind]; eexists; split; [reflexivity |].
  cbn [hasModifier cacheCoins cacheNullifiers set_proofs set_nullifiers].
  rewrite !BatchWriteAnchors_modifier, !BatchWriteAnchors_coins, !BatchWriteAnchors_nullifiers.
  split; [assumption |]; split.
  - intros j; cbn [set_coins cacheCoins]; now rewrite Hm, list_to_map_to_list.
  - cbn [set_coins cacheNullifiers]; intros t j [-> | ->].
    + rewrite fn_lookup_insert_ne, fn_lookup_insert by discriminate; unfold BatchWriteNullifiers.
      now rewrite (fold_map_to_list _ upd_nf) by (intros; apply write_nullifier_lookup).
    + rewrite fn_lookup_insert; unfold BatchWriteNullifiers.
      rewrite (fold_map_to_list _ upd_nf) by (intros; apply write_nullifier_lookup).
      reflexivity.
Qed.

(** ** [Flush] *)

(** The view below a cache. *)
Definition below (v : view) : option view := match v with VCache _ b => Some b | VDB _ => None end.

Lemma db_write_coins_lookup m k e j :
  db_write_coins m (k, e) !! j
  = if decide (j = k) then (if ce_dirty e then canon (ce_coins e) else m !! k) else m !! j.
Proof.
  unfold db_write_coins, canon; destruct (ce_dirty e), (IsPruned (ce_coins e)), (decide (j = k)) as [-> |];
    rewrite ?lookup_insert_eq, ?lookup_delete_eq, ?lookup_insert_ne, ?lookup_delete_ne by congruence;
    reflexivity.
Qed.

Lemma db_write_nullifier_lookup m k e j :
  db_write_nullifier m (k, e) !! j
  = if decide (j = k) then (if ne_dirty e then (if ne_entered e then Some true else None) else m !! k)
    else m !! j.
Proof.
  unfold db_write_nullifier; destruct (ne_dirty e), (ne_entered e), (decide (j = k)) as [-> |];
    rewrite ?lookup_insert_eq, ?lookup_delete_eq, ?lookup_insert_ne, ?lookup_delete_ne by congruence;
    reflexivity.
Qed.

Lemma canon_idem c : canon_opt (canon c) = canon c.
Proof. unfold canon; destruct (IsPruned c) eqn:E; cbn; [reflexivity | unfold canon; now rewrite E]. Qed.

(** Writing the coins of a child changes the parent's coin set to the child's. *)
Lemma upd_coins_utxo (c ch : cache) (b : view) j e :
  coins_inv (VCache c b) -> entry_inv (VCache c b) j e ->
  write_ok e (cacheCoins c !! j) /\
  match upd_coins e (cacheCoins c !! j) with
  | Some e' => canon (ce_coins e') | None => utxo b j end = canon (ce_coins e) /\
  forall e', upd_coins e (cacheCoins c !! j) = Some e' -> entry_inv b j e'.
Proof.
  intros (Hb & Hmod & He) [Hf Hc Hk]; cbn [utxo has_entry] in *; unfold write_ok, upd_coins.
  destruct (cacheCoins c !! j) as [us |] eqn:Eu.
  - destruct (He j us Eu) as [Hf' Hc' Hk']; split; [discriminate |].
    destruct (ce_dirty e) eqn:Ed; cbn [negb].
    + destruct (ce_fresh us) eqn:Ef; cbn [andb].
      * destruct (IsPruned (ce_coins e)) eqn:Ep.
        -- split; [| discriminate]; unfold canon; rewrite Ep; auto.
        -- split; [reflexivity |]; intros e' [= <-]; split; cbn; auto; discriminate.
      * split; [reflexivity |]; intros e' [= <-]; split; cbn; auto; discriminate.
    + split; [symmetry; auto |]; intros e' [= <-]; split; auto.
  - assert (Hfr : ce_fresh e = true).
    { destruct (ce_fresh e); [reflexivity |]; destruct (Hk eq_refl) as [? ?]; discriminate. }
    split; [auto |]; destruct (ce_dirty e) eqn:Ed; cbn [negb].
    + destruct (IsPruned (ce_coins e)) eqn:Ep.
      * split; [unfold canon; rewrite Ep; auto | discriminate].
      * split; [reflexivity |]; intros e' [= <-]; split; cbn; auto; discriminate.
    + split; [symmetry; auto | discriminate].
Qed.

(** An emptied cache adds nothing to its base. *)
Lemma empty_cache_ok (c : cache) base :
  hasModifier c = false -> cacheCoins c = ∅ -> cacheNullifiers c = (fun _ => ∅) ->
  coins_inv base -> nf_inv base ->
  coins_inv (VCache c base) /\ nf_inv (VCache c base) /\
  (forall t, utxo (VCache c base) t = utxo base t) /\
  (forall t nf, nf_spent (VCache c base) t nf = nf_spent base t nf).
Proof.
  intros Hm Hc Hn Hb Hnb; split; [| split; [| split]].
  - split; [assumption |]; split; [assumption |]; intros t e; rewrite Hc, lookup_empty; discriminate.
  - split; [assumption |]; intros t nf e _; rewrite Hn, lookup_empty; discriminate.
  - intros t; cbn [utxo]; now rewrite Hc, lookup_empty.
  - intros t nf; cbn [nf_spent]; now rewrite Hn, lookup_empty.
Qed.

Lemma Flush_ok {E} (c : cache) base :
  coins_inv (VCache c base) -> nf_inv (VCache c base) ->
  exists c' base', Flush (E := E) c base = Ok (c', base') /\
    coins_inv (VCache c' base') /\ nf_inv (VCache c' base') /\ below base' = below base /\
    (forall t, utxo base' t = utxo (VCache c base) t) /\
    (forall t nf, nf_type t -> nf_spent base' t nf = nf_spent (VCache c base) t nf) /\
    (forall t, utxo (VCache c' base') t = utxo (VCache c base) t) /\
    (forall t nf, nf_type t -> nf_spent (VCache c' base') t nf = nf_spent (VCache c base) t nf).
Proof.
  intros (Hb & Hmod & He) (Hnb & Hn); unfold Flush; destruct base as [d | p b].
  - cbn [BatchWrite mbind res_bind]; eexists _, _; split; [reflexivity |].
    assert (U : forall t, utxo (VDB (db_BatchWrite d c)) t = utxo (VCache c (VDB d)) t).
    { intros t; cbn [utxo db_BatchWrite db_coins].
      rewrite (fold_map_to_list _ (fun e o => if ce_dirty e then canon (ce_coins e) else o))
        by (intros; apply db_write_coins_lookup).
      destruct (cacheCoins c !! t) as [e |] eqn:Ee; [| reflexivity].
      destruct (He t e Ee) as [_ Hc _]; destruct (ce_dirty e); [apply canon_idem | now rewrite Hc]. }
    assert (N : forall t nf, nf_type t ->
      nf_spent (VDB (db_BatchWrite d c)) t nf = nf_spent (VCache c (VDB d)) t nf).
    { intros t nf Ht; cbn [nf_spent db_BatchWrite db_nullifiers].
      rewrite (fold_map_to_list _
        (fun e o => if ne_dirty e then (if ne_entered e then Some true else None) else o))
        by (intros; apply db_write_nullifier_lookup).
      destruct (cacheNullifiers c t !! nf) as [e |] eqn:Ee; [| reflexivity].
      destruct (ne_dirty e) eqn:Ed; [now destruct (ne_entered e) |].
      rewrite (Hn t nf e Ht Ee Ed); reflexivity. }
    edestruct (empty_cache_ok (mkCache (hasModifier c) (hashBlock c) ∅ (hashAnchor c)
      (fun _ => ∅) (fun _ => ∅) (fun _ => ∅) 0) (VDB (db_BatchWrite d c)))
      as (E1 & E2 & E3 & E4); [assumption | reflexivity | reflexivity | exact I | exact I |].
    split; [exact E1 |]; split; [exact E2 |]; split; [reflexivity |]; split; [exact U |].
    split; [exact N |]; split; [intros t; now rewrite E3 | intros t nf Ht; rewrite E4; auto].
  - destruct Hb as (Hb & Hpm & Hpe).
    assert (Hupd : forall j e, cacheCoins c !! j = Some e -> _) by
      (intros j e Hj; exact (upd_coins_utxo p c b j e (conj Hb (conj Hpm Hpe)) (He j e Hj))).
    destruct (BatchWrite_cache (E := E) p c b Hpm) as (p' & -> & Hpm' & Hco & Hnf).
    { intros t e Ht; now apply Hupd. }
    cbn [mbind res_bind]; eexists _, _; split; [reflexivity |].
    assert (U : forall t, utxo (VCache p' b) t = utxo (VCache c (VCache p b)) t).
    { intros t; cbn [utxo]; rewrite Hco; destruct (cacheCoins c !! t) as [e |] eqn:Ee; [| reflexivity].
      now apply Hupd. }
    assert (N : forall t nf, nf_type t ->
      nf_spent (VCache p' b) t nf = nf_spent (VCache c (VCache p b)) t nf).
    { intros t nf Ht; cbn [nf_spent]; rewrite Hnf by assumption.
      destruct (cacheNullifiers c t !! nf) as [e |] eqn:Ee; [| reflexivity]; unfold upd_nf.
      destruct (ne_dirty e) eqn:Ed; cbn [negb].
      - destruct (cacheNullifiers p t !! nf) as [q |]; [| reflexivity].
        destruct (Bool.eqb (ne_entered q) (ne_entered e)) eqn:Eq; [| reflexivity].
        now apply eqb_prop in Eq.
      - symmetry; now apply (Hn t nf e). }
    assert (I : coins_inv (VCache p' b)).
    { split; [assumption |]; split; [assumption |]; intros t e' Ht; rewrite Hco in Ht.
      destruct (cacheCoins c !! t) as [e |] eqn:Ee; [now apply (Hupd t e Ee) | auto]. }
    assert (J : nf_inv (VCache p' b)).
    { destruct Hnb as [Hnb Hnp]; split; [assumption |]; intros t nf e' Ht El Ed; rewrite Hnf in El by assumption.
      destruct (cacheNullifiers c t !! nf) as [e |] eqn:Ee; [| eauto]; unfold upd_nf in El.
      destruct (ne_dirty e); cbn [negb] in El; [| eauto].
      destruct (cacheNullifiers p t !! nf) as [q |] eqn:Eq; [| injection El as <-; discriminate].
      destruct (Bool.eqb _ _); injection El as <-; [eauto | discriminate]. }
    edestruct (empty_cache_ok (mkCache (hasModifier c) (hashBlock c) ∅ (hashAnchor c)
      (fun _ => ∅) (fun _ => ∅) (fun _ => ∅) 0) (VCache p' b))
      as (E1 & E2 & E3 & E4); [assumption | reflexivity | reflexivity | exact I | exact J |].
    split; [exact E1 |]; split; [exact E2 |]; split; [reflexivity |]; split; [exact U |].
    split; [exact N |]; split; [intros t; now rewrite E3 | intros t nf Ht; rewrite E4; auto].
Qed.

(** ** The abstract machine *)

(** A level of the stack as plain functions. *)
Record level := mkLevel {
  lv_coins : uint256 -> option CCoins;
  lv_spent : ShieldedType -> uint256 -> bool;
}.

Definition level_of (v : view) (l : level) : Prop :=
  (forall t, lv_coins l t = utxo v t) /\
  (forall t nf, nf_type t -> lv_spent l t nf = nf_spent v t nf).

(** The stack of views [v] represents the levels, the top first. *)
Fixpoint represents (v : view) (s : list level) : Prop :=
  match v, s with
  | VDB d, [l] => level_of v l
  | VCache c b, l :: s => level_of v l /\ represents b s
  | _, _ => False
  end.

Lemma nf_GetCoins v txid :
  nf_inv v ->
  nf_inv (snd (GetCoins v txid)) /\
  forall t nf, nf_spent (snd (GetCoins v txid)) t nf = nf_spent v t nf.
Proof.
  induction v as [d | c base IH]; intros Hn; cbn [GetCoins]; [now split |].
  destruct (cacheCoins c !! txid); [now split |]; destruct Hn as [Hnb Hn].
  specialize (IH Hnb); destruct (GetCoins base txid) as [r base']; cbn [snd] in IH.
  destruct IH as [Hb' Hs]; destruct r; cbn [snd]; (split; [split; [assumption |] |]);
    cbn [nf_spent set_coins cacheNullifiers]; intros; rewrite ?Hs; auto.
Qed.

Lemma represents_GetCoins v txid s :
  coins_inv v -> nf_inv v -> represents v s -> represents (snd (GetCoins v txid)) s.
Proof.
  revert s; induction v as [d | c base IH]; intros s Hc Hn Hr; [exact Hr |].
  pose proof (GetCoins_ok (VCache c base) txid Hc) as (_ & _ & Hu & _).
  pose proof (nf_GetCoins (VCache c base) txid Hn) as [_ Hs].
  destruct s as [| l s]; [destruct Hr |]; destruct Hr as [[Hl1 Hl2] Hr].
  assert (HL : level_of (snd (GetCoins (VCache c base) txid)) l)
    by (split; intros; rewrite ?Hl1, ?Hl2, ?Hu, ?Hs by assumption; reflexivity).
  cbn [GetCoins] in *; destruct (cacheCoins c !! txid); [now split |].
  specialize (IH s (proj1 Hc) (proj1 Hn) Hr).
  destruct (GetCoins base txid) as [[tmp |] base']; cbn [snd] in *; now split.
Qed.

Lemma GetNullifier_ok {E} v t nf :
  nf_type t -> nf_inv v ->
  exists v', GetNullifier (E := E) v t nf = Ok (nf_spent v t nf, v') /\ nf_inv v' /\
    (coins_inv v -> coins_inv v') /\ (forall x, utxo v' x = utxo v x) /\
    (forall x, has_entry v x -> has_entry v' x) /\
    (forall t x, nf_type t -> nf_spent v' t x = nf_spent v t x) /\
    (forall s, represents v s -> represents v' s).
Proof.
  intros Ht; induction v as [d | c base IH]; intros Hn.
  { exists (VDB d); destruct Ht as [-> | ->]; cbn; auto 10. }
  assert (Eg : GetNullifier (E := E) (VCache c base) t nf =
    match cacheNullifiers c t !! nf with
    | Some e => Ok (ne_entered e, VCache c base)
    | None => r ← GetNullifier base t nf;
        Ok (r.1, VCache (set_nullifiers c t (<[nf := mkNullifierEntry r.1 false]> (cacheNullifiers c t))) r.2)
    end) by (destruct Ht as [-> | ->]; reflexivity).
  rewrite Eg; clear Eg; cbn [nf_spent].
  destruct (cacheNullifiers c t !! nf) as [e |] eqn:Ee; [exists (VCache c base); auto 10 |].
  destruct Hn as [Hnb Hn]; destruct (IH Hnb) as (b' & -> & Hnb' & Hc' & Hu & Hm & Hs & Hr).
  cbn [mbind res_bind fst snd]; eexists; split; [reflexivity |].
  set (c' := set_nullifiers _ _ _).
  assert (Hs' : forall t' x, nf_type t' -> nf_spent (VCache c' b') t' x = nf_spent (VCache c base) t' x).
  { intros t' x Ht'; cbn [nf_spent c' set_nullifiers cacheNullifiers].
    destruct (decide (t' = t)) as [-> |]; [rewrite fn_lookup_insert | rewrite fn_lookup_insert_ne by congruence].
    - destruct (decide (x = nf)) as [-> |];
        [rewrite lookup_insert_eq, Ee | rewrite lookup_insert_ne by congruence]; cbn; auto.
      rewrite Hs; auto.
    - rewrite Hs; auto. }
  assert (Hu' : forall x, utxo (VCache c' b') x = utxo (VCache c base) x)
    by (intros x; cbn [utxo c' set_nullifiers cacheCoins]; now rewrite Hu).
  split; [| split; [| split; [exact Hu' | split; [auto | split; [exact Hs' |]]]]].
  - split; [assumption |]; cbn [c' set_nullifiers cacheNullifiers]; intros t' x e' Ht'.
    rewrite Hs by assumption; destruct (decide (t' = t)) as [-> |];
      [rewrite fn_lookup_insert | rewrite fn_lookup_insert_ne by congruence]; [| now apply Hn].
    destruct (decide (x = nf)) as [-> |];
      [rewrite lookup_insert_eq | rewrite lookup_insert_ne by congruence]; [| now apply Hn].
    now intros [= <-].
  - intros (Hb & Hmod & He); split; [auto |]; split; [assumption |]; intros x e' Hx.
    apply (entry_inv_mono base); auto.
  - intros [| l s] Hrep; [destruct Hrep |]; destruct Hrep as [[H1 H2] Hrep]; split; [| auto].
    split; intros; [now rewrite Hu' | now rewrite Hs' by assumption; apply H2].
Qed.

(** ** Marking nullifiers *)

Lemma fold_set_nullifier (l : list uint256) t0 b (c : cache) t x :
  cacheNullifiers (fold_left (fun c nf => set_nullifier c t0 nf b) l c) t !! x =
  if decide (t = t0 /\ x ∈ l) then Some (mkNullifierEntry b true) else cacheNullifiers c t !! x.
Proof.
  revert c; induction l as [| n l IH]; intros c; cbn [fold_left].
  - destruct (decide _) as [[_ Hin] |]; [now apply not_elem_of_nil in Hin | reflexivity].
  - rewrite IH; cbn [set_nullifier set_nullifiers cacheNullifiers].
    destruct (decide (t = t0 /\ x ∈ l)) as [[-> Hin] | Hnot].
    { destruct (decide _) as [| N]; [reflexivity |]; exfalso; apply N; split; [reflexivity |].
      now apply list_elem_of_further. }
    destruct (decide (t = t0)) as [-> | Ht]; [rewrite fn_lookup_insert | rewrite fn_lookup_insert_ne by congruence].
    + destruct (decide (x = n)) as [-> | Hx].
      * rewrite lookup_insert_eq; destruct (decide _) as [| N]; [reflexivity |].
        exfalso; apply N; split; [reflexivity | apply list_elem_of_here].
      * rewrite lookup_insert_ne by congruence; destruct (decide _) as [[_ Hin] |]; [| reflexivity].
        exfalso; apply Hnot; split; [reflexivity |]; now apply elem_of_cons in Hin as [? | ?].
    + destruct (decide _) as [[? _] |]; [contradiction | reflexivity].
Qed.

Lemma fold_set_nullifier_rest (l : list uint256) t0 b (c : cache) :
  let c' := fold_left (fun c nf => set_nullifier c t0 nf b) l c in
  cacheCoins c' = cacheCoins c /\ hasModifier c' = hasModifier c.
Proof.
  cbv zeta; revert c; induction l as [| n l IH]; intros c; cbn [fold_left]; [auto |].
  destruct (IH (set_nullifier c t0 n b)) as [-> ->]; auto.
Qed.

(** The nullifiers of a type that a transaction marks. *)
Definition marked (sprout sapling : list uint256) (t : ShieldedType) : list uint256 :=
  match t with SPROUT => sprout | SAPLING => sapling | SAPLINGFRONTIER => [] end.

Lemma set_nullifier_lists_lookup (c : cache) sprout sapling b t x :
  nf_type t ->
  cacheNullifiers (set_nullifier_lists c sprout sapling b) t !! x =
  if decide (x ∈ marked sprout sapling t) then Some (mkNullifierEntry b true)
  else cacheNullifiers c t !! x.
Proof.
  intros Ht; unfold set_nullifier_lists; rewrite !fold_set_nullifier.
  destruct Ht as [-> | ->]; cbn [marked].
  - destruct (decide (SPROUT = SAPLING /\ _)) as [[? _] |]; [discriminate |].
    destruct (decide (x ∈ sprout)), (decide (SPROUT = SPROUT /\ _)); tauto.
  - destruct (decide (SAPLING = SPROUT /\ _)) as [[? _] |]; [discriminate |].
    destruct (decide (x ∈ sapling)), (decide (SAPLING = SAPLING /\ _)); tauto.
Qed.

Lemma set_nullifier_lists_rest (c : cache) sprout sapling b :
  cacheCoins (set_nullifier_lists c sprout sapling b) = cacheCoins c /\
  hasModifier (set_nullifier_lists c sprout sapling b) = hasModifier c.
Proof.
  unfold set_nullifier_lists.
  destruct (fold_set_nullifier_rest sapling SAPLING b
    (fold_left (fun c nf => set_nullifier c SPROUT nf b) sprout c)) as [-> ->].
  apply fold_set_nullifier_rest.
Qed.

(** ** Operations on a stack of views *)

Inductive coin_op :=
| OpGet (txid : uint256)
| OpModify (txid : uint256) (f : CCoins -> CCoins)
| OpGetNullifier (t : ShieldedType) (nf : uint256)
| OpSetNullifiers (tx : CTransaction) (spent : bool)
| OpPush
| OpFlush
| OpDiscard.

Inductive answer := ACoins (o : option CCoins) | ASpent (b : bool) | ADone.

(** The code: an operation on the top view, or putting a new cache on top, or
    dropping it; the error is that there is no cache to operate on. *)
Definition view_step (v : view) (op : coin_op) : res unit (answer * view) :=
  match op with
  | OpGet txid => let '(r, v) := GetCoins v txid in Ok (ACoins (canon_opt r), v)
  | OpGetNullifier t nf => r ← GetNullifier v t nf; Ok (ASpent r.1, r.2)
  | OpPush => Ok (ADone, VCache new_cache v)
  | OpModify txid f =>
      match v with
      | VCache c b => r ← modify c b txid f; Ok (ADone, VCache r.1 r.2)
      | VDB _ => Err tt
      end
  | OpSetNullifiers tx spent =>
      match v with
      | VCache c b => Ok (ADone, VCache (SetNullifiers c tx spent) b)
      | VDB _ => Err tt
      end
  | OpFlush =>
      match v with
      | VCache c b => r ← Flush c b; Ok (ADone, VCache r.1 r.2)
      | VDB _ => Err tt
      end
  | OpDiscard => match v with VCache _ b => Ok (ADone, b) | VDB _ => Err tt end
  end.

(** The specification: a stack of maps. *)
Definition spec_step (s : list level) (op : coin_op) : option (answer * list level) :=
  match op, s with
  | _, [] => None
  | OpGet txid, l :: _ => Some (ACoins (lv_coins l txid), s)
  | OpGetNullifier t nf, l :: _ => Some (ASpent (lv_spent l t nf), s)
  | OpPush, l :: _ => Some (ADone, l :: s)
  | _, [_] => None
  | OpModify txid f, l :: s =>
      let coins := canon (Cleanup (f (default coins_Clear (lv_coins l txid)))) in
      Some (ADone, mkLevel (fun t => if decide (t = txid) then coins else lv_coins l t) (lv_spent l) :: s)
  | OpSetNullifiers tx spent, l :: s =>
      Some (ADone, mkLevel (lv_coins l) (fun t x =>
        if decide (x ∈ marked (sprout_nullifiers tx) (sapling_nullifiers tx) t) then spent else lv_spent l t x) :: s)
  | OpFlush, l :: _ :: s => Some (ADone, l :: l :: s)
  | OpDiscard, _ :: s => Some (ADone, s)
  end.

(** A change of coins that does not look at the metadata of spent coins. *)
Definition respects (f : CCoins -> CCoins) : Prop :=
  forall c, IsPruned c = true -> canon (Cleanup (f c)) = canon (Cleanup (f coins_Clear)).

Definition op_ok (op : coin_op) : Prop :=
  match op with
  | OpModify _ f => respects f
  | OpGetNullifier t _ => nf_type t
  | _ => True
  end.

Fixpoint view_run (v : view) (ops : list coin_op) : res unit (list answer * view) :=
  match ops with
  | [] => Ok ([], v)
  | op :: ops => r ← view_step v op; q ← view_run r.2 ops; Ok (r.1 :: q.1, q.2)
  end.

Fixpoint spec_run (s : list level) (ops : list coin_op) : option (list answer * list level) :=
  match ops with
  | [] => Some ([], s)
  | op :: ops =>
      match spec_step s op with
      | None => None
      | Some (a, s) => match spec_run s ops with None => None | Some (l, s) => Some (a :: l, s) end
      end
  end.

(** A view that is as it should be, and the levels it represents. *)
Definition good (v : view) (s : list level) : Prop :=
  coins_inv v /\ nf_inv v /\ represents v s.

Lemma good_cons v s : good v s -> exists l s', s = l :: s' /\ level_of v l.
Proof.
  intros (_ & _ & Hr); destruct v as [d | c b], s as [| l s]; try destruct Hr; eauto.
  destruct s; [| destruct Hr]; eauto.
Qed.

Lemma good_cache c b l s : good (VCache c b) (l :: s) ->
  exists l2 s', s = l2 :: s' /\ represents b s.
Proof.
  intros (_ & _ & _ & Hr); destruct s as [| l2 s]; [destruct b; destruct Hr |]; eauto.
Qed.

(** ** Refinement, operation by operation *)

Definition step_refines (v : view) (s : list level) (op : coin_op) : Prop :=
  match spec_step s op with
  | Some (a, s') => exists v', view_step v op = Ok (a, v') /\ good v' s'
  | None => view_step v op = Err tt
  end.

Lemma refines_get v s txid : good v s -> step_refines v s (OpGet txid).
Proof.
  intros Hg; destruct (good_cons v s Hg) as (l & s' & -> & [Hl _]); destruct Hg as (Hc & Hn & Hr).
  unfold step_refines; cbn [spec_step view_step].
  pose proof (GetCoins_ok v txid Hc) as (Hv & Hc' & _); pose proof (nf_GetCoins v txid Hn) as [Hn' _].
  pose proof (represents_GetCoins v txid _ Hc Hn Hr) as Hr'.
  destruct (GetCoins v txid) as [r v']; cbn [fst snd] in *; exists v'; split; [| now split].
  now rewrite Hv, Hl.
Qed.

Lemma refines_get_nullifier v s t nf :
  nf_type t -> good v s -> step_refines v s (OpGetNullifier t nf).
Proof.
  intros Ht Hg; destruct (good_cons v s Hg) as (l & s' & -> & [_ Hl]); destruct Hg as (Hc & Hn & Hr).
  unfold step_refines; cbn [spec_step view_step].
  destruct (GetNullifier_ok (E := unit) v t nf Ht Hn) as (v' & -> & Hn' & Hc' & _ & _ & _ & Hr').
  cbn [mbind res_bind fst snd]; exists v'; split; [now rewrite Hl | split; auto].
Qed.

Lemma refines_push v s : good v s -> step_refines v s OpPush.
Proof.
  intros Hg; destruct (good_cons v s Hg) as (l & s' & -> & [Hl1 Hl2]); destruct Hg as (Hc & Hn & Hr).
  unfold step_refines; cbn [spec_step view_step]; eexists; split; [reflexivity |].
  destruct (empty_cache_ok new_cache v) as (E1 & E2 & E3 & E4); auto.
  split; [exact E1 |]; split; [exact E2 |]; split; [| exact Hr].
  split; intros; [rewrite E3 | rewrite E4]; auto.
Qed.

Lemma refines_modify v s txid f : respects f -> good v s -> step_refines v s (OpModify txid f).
Proof.
  intros Hf Hg; destruct (good_cons v s Hg) as (l & s' & -> & [Hl1 Hl2]).
  unfold step_refines; destruct v as [d | c b].
  { destruct Hg as (_ & _ & Hr); destruct s'; [reflexivity | destruct Hr]. }
  destruct (good_cache c b l s' Hg) as (l2 & s2 & -> & Hrb); destruct Hg as (Hc & Hn & Hr).
  cbn [spec_step view_step].
  destruct (modify_ok (E := unit) c b txid f Hc) as (cur & c' & b' & -> & Hcur & Hc' & Hub & Hu & Hor & Hnf).
  cbn [mbind res_bind fst snd]; eexists; split; [reflexivity |].
  pose proof (proj1 Hc) as Hcb; pose proof (proj1 Hn) as Hnb.
  assert (Hb' : nf_inv b' /\ (forall t x, nf_spent b' t x = nf_spent b t x) /\ represents b' (l2 :: s2)).
  { destruct Hor as [-> | ->]; [auto |].
    destruct (nf_GetCoins b txid Hnb); repeat split; auto; now apply represents_GetCoins. }
  destruct Hb' as (Hnb' & Hns & Hrb').
  split; [exact Hc' |]; split.
  - split; [assumption |]; rewrite Hnf; intros t x e Ht Hx Hd; rewrite Hns; now apply (proj2 Hn).
  - split; [| exact Hrb']; split; cbn [lv_coins lv_spent]; intros t.
    + rewrite Hu; destruct (decide (t = txid)) as [-> |]; [| apply Hl1].
      rewrite Hl1, <- Hcur; unfold canon at 2; destruct (IsPruned cur) eqn:Ep; cbn [default]; [| reflexivity].
      symmetry; now apply Hf.
    + intros nf Ht; cbn [nf_spent]; rewrite Hnf, Hns; now apply Hl2.
Qed.

Lemma refines_set_nullifiers v s tx b :
  good v s -> step_refines v s (OpSetNullifiers tx b).
Proof.
  intros Hg; destruct (good_cons v s Hg) as (l & s' & -> & [Hl1 Hl2]).
  unfold step_refines; destruct v as [d | c base].
  { destruct Hg as (_ & _ & Hr); destruct s'; [reflexivity | destruct Hr]. }
  destruct (good_cache c base l s' Hg) as (l2 & s2 & -> & Hrb).
  destruct Hg as ((Hcb & Hmod & He) & (Hnb & Hn) & Hr).
  cbn [spec_step view_step]; eexists; split; [reflexivity |].
  unfold SetNullifiers; set (sp := sprout_nullifiers tx); set (sa := sapling_nullifiers tx).
  destruct (set_nullifier_lists_rest c sp sa b) as [Ec Em].
  split; [split; [assumption |]; rewrite Ec, Em; auto |]; split.
  - split; [assumption |]; intros t x e Ht; rewrite set_nullifier_lists_lookup by assumption.
    destruct (decide _); [intros [= <-]; discriminate | now apply Hn].
  - split; [| exact Hrb]; split; cbn [lv_coins lv_spent].
    + intros t; cbn [utxo]; rewrite Ec; apply Hl1.
    + intros t x Ht; cbn [nf_spent]; rewrite set_nullifier_lists_lookup by assumption.
      destruct (decide _); [reflexivity | now apply Hl2].
Qed.

Lemma good_flush {E} (c : cache) b l l2 s : good (VCache c b) (l :: l2 :: s) ->
  exists c' b', Flush (E := E) c b = Ok (c', b') /\ good (VCache c' b') (l :: l :: s) /\ below b' = below b.
Proof.
  intros Hg; destruct (good_cons _ _ Hg) as (l' & s' & [= <- <-] & [Hl1 Hl2]); destruct (good_cache c b l _ Hg) as (? & ? & [= <- <-] & Hrb).
  destruct Hg as (Hc & Hn & Hr); destruct (Flush_ok (E := E) c b Hc Hn) as (c' & b' & -> & Hc' & Hn' & Hbel & U & N & U' & N').
  exists c', b'; split; [reflexivity |]; split; [| exact Hbel]; split; [exact Hc' |]; split; [exact Hn' |].
  assert (Hlb : level_of b' l) by (split; intros; rewrite ?U, ?N by assumption; auto).
  split; [split; intros; rewrite ?U', ?N' by assumption; auto |].
  destruct b as [d | p b], b' as [d' | p' b'']; try discriminate.
  - destruct s; [exact Hlb | destruct Hrb].
  - injection Hbel as ->; destruct Hrb as [_ Hrb]; now split.
Qed.

Lemma refines_flush v s : good v s -> step_refines v s OpFlush.
Proof.
  intros Hg; destruct (good_cons v s Hg) as (l & s' & -> & _); unfold step_refines; destruct v as [d | c b].
  { destruct Hg as (_ & _ & Hr); destruct s'; [reflexivity | destruct Hr]. }
  destruct (good_cache c b l s' Hg) as (l2 & s2 & -> & _); cbn [spec_step view_step].
  destruct (good_flush (E := unit) c b l l2 s2 Hg) as (c' & b' & -> & Hg' & _).
  cbn [mbind res_bind fst snd]; eexists; split; [reflexivity | exact Hg'].
Qed.

Lemma refines_discard v s : good v s -> step_refines v s OpDiscard.
Proof.
  intros Hg; destruct (good_cons v s Hg) as (l & s' & -> & _).
  unfold step_refines; destruct v as [d | c b].
  { destruct Hg as (_ & _ & Hr); destruct s'; [reflexivity | destruct Hr]. }
  destruct (good_cache c b l s' Hg) as (l2 & s2 & -> & Hrb).
  destruct Hg as ((Hcb & _) & (Hnb & _) & _); exists b; split; [reflexivity | now split].
Qed.

Lemma step_refines_ok v s op : op_ok op -> good v s -> step_refines v s op.
Proof.
  destruct op; intros Hop; auto using refines_get, refines_modify, refines_get_nullifier,
    refines_set_nullifiers, refines_push, refines_flush, refines_discard.
Qed.

(** The two changes validation makes do not look at spent coins. *)
Lemma respects_FromTx tx h : respects (fun _ => FromTx tx h).
Proof. now intros c _. Qed.

Lemma pruned_Spend c n : 0 <= n -> IsPruned c = true -> Spend c n = (false, c).
Proof.
  intros Hn Hp; unfold Spend, IsPruned in *.
  destruct (vout c !! Z.to_nat n) as [o |] eqn:Eo; [| now rewrite orb_true_r].
  rewrite forallb_forall in Hp; rewrite (Hp o), orb_true_r; [reflexivity |].
  apply list_elem_of_In; now apply list_elem_of_lookup_2 with (Z.to_nat n).
Qed.

Lemma respects_Spend n : 0 <= n -> respects (fun c => snd (Spend c n)).
Proof.
  intros Hn c Hp; rewrite pruned_Spend by assumption; cbn [snd].
  rewrite pruned_Spend by (assumption || reflexivity); cbn [snd].
  unfold canon; rewrite !IsPruned_Cleanup, Hp; reflexivity.
Qed.
End Spec.

(** ** Inputs of a transaction *)

Section Inputs.
Context {Tree : Type} `{AnchorTrees Tree}.
Abbreviation view := (view Tree).

(** An output that the coin set of the view has unspent. *)
Definition unspent (v : view) (prevout : uint256 * Z) : Prop :=
  exists c, utxo v prevout.1 = Some c /\ IsAvailable c prevout.2 = true.

Lemma canon_available c n : 0 <= n -> IsAvailable c n = true -> canon c = Some c.
Proof.
  intros Hn Ha; unfold canon; destruct (IsPruned c) eqn:Ep; [| reflexivity].
  apply IsAvailable_iff in Ha as (o & Ho & En); [| assumption].
  unfold IsPruned in Ep; rewrite forallb_forall in Ep; rewrite (Ep o) in En; [discriminate |].
  apply list_elem_of_In; now apply list_elem_of_lookup_2 with (Z.to_nat n).
Qed.

Lemma unspent_found v prevout :
  coins_inv v -> 0 <= prevout.2 ->
  (unspent v prevout <->
   exists c, fst (GetCoins v prevout.1) = Some c /\ IsAvailable c prevout.2 = true).
Proof.
  intros Hc Hn; pose proof (GetCoins_ok v prevout.1 Hc) as (Hr & _); split.
  - intros (c & Hu & Ha); exists c; split; [| assumption]; rewrite Hu in Hr.
    destruct (fst (GetCoins v prevout.1)) as [c' |]; cbn in Hr; [| discriminate].
    unfold canon in Hr; destruct (IsPruned c'); congruence.
  - intros (c & Hf & Ha); exists c; split; [| assumption]; rewrite <- Hr, Hf; cbn.
    now apply canon_available with prevout.2.
Qed.

Lemma have_inputs_loop_ok l : forall (v : view) s,
  Forall (fun p => 0 <= p.2) l -> good v s ->
  let r := have_inputs_loop v l in
  good r.2 s /\ (r.1 = true <-> Forall (unspent v) l).
Proof.
  induction l as [| [h n] l IH]; intros v s Hl Hg; cbn [have_inputs_loop].
  { cbn [fst snd]; split; [assumption |]; now split; [constructor |]. }
  destruct Hg as (Hc & Hn & Hr); apply Forall_cons_1 in Hl as [H0 Hl].
  pose proof (unspent_found v (h, n) Hc H0) as Hun; cbn [fst snd] in Hun, H0.
  pose proof (GetCoins_ok v h Hc) as (_ & Hc' & Hu & _); pose proof (nf_GetCoins v h Hn) as [Hn' _].
  pose proof (represents_GetCoins v h s Hc Hn Hr) as Hr'; unfold AccessCoins.
  destruct (GetCoins v h) as [r v']; cbn [fst snd] in *.
  assert (Hg' : good v' s) by now split.
  assert (Hsame : forall p, unspent v' p <-> unspent v p) by (intros p; unfold unspent; now rewrite Hu).
  assert (Hno : ~ unspent v (h, n) -> false = true <-> Forall (unspent v) ((h, n) :: l)).
  { intros Hnot; split; [discriminate |]; intros HF; apply Forall_cons_1 in HF as [HF _]; contradiction. }
  destruct r as [c |]; [| split; [exact Hg' | apply Hno; rewrite Hun; intros (c & E & _); discriminate]].
  destruct (IsAvailable c n) eqn:Ea.
  - destruct (IH v' s Hl Hg') as [Hg2 Hiff]; split; [exact Hg2 |]; rewrite Hiff; split.
    + intros HF; apply Forall_cons_2; [apply Hun; eauto |].
      eapply Forall_impl; [apply Hsame | exact HF].
    + intros HF; apply Forall_cons_1 in HF as [_ HF].
      eapply Forall_impl; [apply Hsame | exact HF].
  - split; [exact Hg' |]; apply Hno; rewrite Hun; intros (c' & [= <-] & Ha); congruence.
Qed.

Lemma GetOutputFor_ok {E} (v : view) h n :
  coins_inv v -> 0 <= n -> unspent v (h, n) ->
  exists o c, GetOutputFor (E := E) v h n = Ok (o, snd (GetCoins v h)) /\
    utxo v h = Some c /\ vout c !! Z.to_nat n = Some o /\ txout_IsNull o = false.
Proof.
  intros Hc Hn Hu; pose proof (proj1 (unspent_found v (h, n) Hc Hn) Hu) as (c & Hf & Ha).
  pose proof (GetCoins_ok v h Hc) as (Hr & _); cbn [fst snd] in *.
  pose proof (proj1 (IsAvailable_iff c n Hn) Ha) as (o & Ho & En).
  exists o, c; unfold GetOutputFor, AccessCoins; destruct (GetCoins v h) as [r v']; cbn [fst snd] in *.
  subst r; rewrite Ha; cbn [assert_ mbind res_bind]; rewrite Ho.
  repeat split; auto; rewrite <- Hr; cbn; now apply canon_available with n.
Qed.
End Inputs.

(** ** Proof hashes *)

Section Proofs.
Context {Tree : Type} `{AnchorTrees Tree}.

Lemma db_write_proof_lookup m k e j :
  db_write_proof m (k, e) !! j =
    (if decide (j = k) then
       if pe_dirty e then if bool_decide (pe_txids e = ∅) then None else Some (pe_txids e) else m !! k
     else m !! j).
Proof.
  unfold db_write_proof; destruct (decide (j = k)) as [-> | Hne]; destruct (pe_dirty e);
    try reflexivity; case_match; now simplify_map_eq.
Qed.

(** Removing one transaction's use of a proof through a cache that has not
    read the entry removes every recorded use of that proof: [SetZkProofHashes]
    starts from an empty set, and the flush writes it over the database. *)
Lemma unrecord_forgets_all_uses {E : Type} (d : CCoinsViewDB Tree) (txid h : uint256)
    (others : gset (uint256 * Z)) :
  db_proofs d SPEND !! h = Some others ->
  exists c' v', Flush (E := E) (set_proofs_loop new_cache SPEND txid [h] 0 false) (VDB d) = Ok (c', v') /\
    GetZkProofHash v' SPEND h = (false, (∅ : gset (uint256 * Z)), v').
Proof.
  intros Hd; do 2 eexists; split; [reflexivity |]; cbn [GetZkProofHash]; unfold db_GetZkProofHash; cbn [db_BatchWrite db_proofs].
  rewrite (fold_map_to_list db_write_proof (fun e p => if pe_dirty e
      then if bool_decide (pe_txids e = ∅) then None else Some (pe_txids e) else p))
    by (intros; apply db_write_proof_lookup).
  cbn; rewrite fn_lookup_insert, lookup_insert_eq, lookup_empty; cbn [pe_dirty pe_txids].
  now rewrite empty_difference_L.
Qed.
End Proofs.

(** ** Properties *)

(** C21: a stack of coin caches over the database behaves as a stack of plain
    maps, for every sequence of reads, modifications, nullifier updates, new
    caches, flushes and discards: it gives the same answers, ends representing
    the same maps, and no assertion of the caches (an active modifier, a
    non-fresh entry unknown to the parent) ever fails.  [ModifyCoins] is used
    with changes that ignore the metadata of spent coins. *)
Theorem coin_views_refine_maps {Tree} `{AnchorTrees Tree} (v : view Tree) (s : list level)
    (ops : list coin_op) :
  good v s -> Forall op_ok ops ->
  match spec_run s ops with
  | Some (answers, s') => exists v', view_run v ops = Ok (answers, v') /\ good v' s'
  | None => view_run v ops = Err tt
  end.
Proof.
  revert v s; induction ops as [| op ops IH]; intros v s Hg Hops; cbn [spec_run view_run].
  { now exists v. }
  apply Forall_cons_1 in Hops as [Hop Hops].
  pose proof (step_refines_ok v s op Hop Hg) as Hs; unfold step_refines in Hs.
  destruct (spec_step s op) as [[a s'] |]; [| now rewrite Hs].
  destruct Hs as (v' & -> & Hg'); cbn [mbind res_bind fst snd]; specialize (IH v' s' Hg' Hops).
  destruct (spec_run s' ops) as [[l s2] |]; [| now rewrite IH].
  destruct IH as (v2 & -> & Hg2); now exists v2.
Qed.

(** [HaveInputs] holds exactly when the coin set of the view has every
    output that the transaction (no coinbase, no import) spends unspent, whatever
    the caches contain, and changes no coin set;
    after it, [GetOutputFor] returns each of these outputs without failing its
    assertion. *)
Theorem have_inputs_exact {Tree} `{AnchorTrees Tree} (v : view Tree) (s : list level)
    (tx : CTransaction) :
  good v s -> IsMint tx = false -> Forall (fun p => 0 <= p.2) (prevouts tx) ->
  exists r v', HaveInputs v tx = (r, v') /\ good v' s /\
    (r = true <-> Forall (unspent v) (prevouts tx)) /\
    (r = true -> forall h n, (h, n) ∈ prevouts tx ->
       exists o c, GetOutputFor (E := unit) v' h n = Ok (o, snd (GetCoins v' h)) /\
         utxo v h = Some c /\ vout c !! Z.to_nat n = Some o /\ txout_IsNull o = false).
Proof.
  intros Hg Hm Hl; destruct (have_inputs_loop_ok (prevouts tx) v s Hl Hg) as [Hg' Hiff].
  unfold HaveInputs; rewrite Hm; destruct (have_inputs_loop v (prevouts tx)) as [r v']; cbn [fst snd] in *.
  exists r, v'; split; [reflexivity |]; split; [assumption |]; split; [assumption |].
  intros Hr h n Hin; apply list_elem_of_In in Hin.
  pose proof (proj1 (Forall_forall _ _) (proj1 Hiff Hr) _ Hin) as Hun.
  pose proof (proj1 (Forall_forall _ _) Hl _ Hin) as Hn; cbn [fst snd] in Hn.
  assert (Hu : forall t, utxo v' t = utxo v t).
  { intros t; destruct (good_cons v s Hg) as (l & s' & -> & [H1 _]).
    destruct (good_cons v' _ Hg') as (l' & s2 & [= <- <-] & [H2 _]); now rewrite <- H1, <- H2. }
  destruct (GetOutputFor_ok (E := unit) v' h n (proj1 Hg') Hn) as (o & c & E & E2 & E3).
  { unfold unspent in *; now rewrite Hu. }
  exists o, c; rewrite Hu in E2; auto.
Qed.

(** ** A concrete stack of views *)

Module Example_views.
(** Trees without content; the sizes are those of an allocator that counts
    outputs. *)
#[global] Instance unit_trees : AnchorTrees unit := {|
  tree_root := fun _ _ => uint256_null;
  new_tree := fun _ => tt;
  empty_root := fun _ => uint256_null;
  tree_usage := fun _ => 1;
  coins_usage := fun c => zlen (vout c);
|}.

Definition coin : CCoins := mkCoins false [txout_SetNull; mkTxOut 5 [81]] 7 1.
Definition db : view unit :=
  VDB (mkDB {[ [1] := coin ]} (fun _ => ∅) (fun _ => {[ [9] := true ]}) (fun _ => ∅) None (fun _ => None)).
Definition bottom : level := mkLevel (utxo db) (nf_spent db).

Lemma good_db : good db [bottom].
Proof. split; [exact I |]; split; [exact I |]; now split. Qed.

(** A coinbase transaction. *)
Definition coinbase : CTransaction :=
  mkTx false 1 0 [mkTxIn outpoint_SetNull [] 0] [mkTxOut 3 [82]] 0 0 0 [] [] [] uint256_null [] [].

(** A transaction with a Sapling spend, and one that spends the coin. *)
Definition shielded : CTransaction :=
  mkTx true 4 0 [] [] 0 0 0 [mkSpend [] [] [4] [] [] []] [] [] uint256_null [] [].
Definition spender : CTransaction :=
  mkTx false 1 0 [mkTxIn (mkOutPoint [1] 1) [] 0] [] 0 0 0 [] [] [] uint256_null [] [].

(** Spending the last output below two caches, adding a transaction, flushing
    once and dropping the top cache. *)
Definition ops : list coin_op :=
  [OpPush; OpPush; OpModify [1] (fun c => snd (Spend c 1));
   OpModify [2] (fun _ => FromTx coinbase 8);
   OpSetNullifiers shielded true; OpGet [1]; OpFlush; OpDiscard; OpGet [1]; OpGet [2];
   OpGetNullifier SAPLING [4]; OpGetNullifier SAPLING [9]; OpFlush; OpDiscard; OpGet [2]].

Lemma ops_ok : Forall op_ok ops.
Proof.
  unfold ops; repeat (apply Forall_cons_2; [cbn [op_ok] |]); try exact I; try (now right);
    [apply respects_Spend; lia | apply respects_FromTx | constructor].
Qed.

Definition added : CCoins := mkCoins true [mkTxOut 3 [82]] 8 1.
Definition answers : list answer :=
  [ADone; ADone; ADone; ADone; ADone; ACoins None; ADone; ADone; ACoins None; ACoins (Some added);
   ASpent true; ASpent true; ADone; ADone; ACoins (Some added)].
End Example_views.

Lemma coin_views_refine_maps_witness :
  let ex := spec_run [Example_views.bottom] Example_views.ops in
  option_map fst ex = Some Example_views.answers /\
  match ex with
  | Some (answers, s') => exists v', view_run Example_views.db Example_views.ops = Ok (answers, v') /\ good v' s'
  | None => view_run Example_views.db Example_views.ops = Err tt
  end.
Proof.
  split; [vm_compute; reflexivity |].
  exact (coin_views_refine_maps Example_views.db _ _ Example_views.good_db Example_views.ops_ok).
Defined.

Lemma have_inputs_exact_witness :
  exists r v', HaveInputs Example_views.db Example_views.spender = (r, v') /\ good v' [Example_views.bottom] /\
    (r = true <-> Forall (unspent Example_views.db) (prevouts Example_views.spender)) /\
    (r = true -> forall h n, (h, n) ∈ prevouts Example_views.spender ->
       exists o c, GetOutputFor (E := unit) v' h n = Ok (o, snd (GetCoins v' h)) /\
         utxo Example_views.db h = Some c /\ vout c !! Z.to_nat n = Some o /\ txout_IsNull o = false).
Proof.
  apply (have_inputs_exact Example_views.db [Example_views.bottom] Example_views.spender Example_views.good_db).
  - reflexivity.
  - repeat constructor; cbn [snd op_n prevout]; lia.
Defined.
