(* ===== verification/UpdateCoins.v ===== *)
(** * Connecting and disconnecting transactions

    What main.cpp does to the coin set when a transaction is connected
    (UpdateCoins) and when a block is disconnected (ApplyTxInUndo,
    DisconnectBlock), the undo records of undo.h, the tombstones of
    importcoin.cpp, and the shielded requirements of coins.cpp.  A transaction
    comes with its hash.  The address and spent indexes are left out: they are
    written to other databases. *)
From stdpp Require Import gmap functions strings.
From S2P Require Import Prelude Hashing Merkle Serialize Transaction Coins CoinsView.

(** ** Undo records *)

Record CTxInUndo := mkUndo { un_txout : CTxOut; un_fCoinBase : bool; un_nHeight : Z; un_nVersion : Z }.

(** [CTxUndo] is its [vprevout]. *)
Abbreviation CTxUndo := (list CTxInUndo).

Record CBlockUndo := mkBlockUndo { vtxundo : list CTxUndo; old_sprout_tree_root : uint256 }.

(** ** One output *)

(** The body of the loop of [UpdateCoins] over the inputs. *)
Definition spend_coin {E} (nPos : Z) (coins : CCoins) : res E (CTxInUndo * CCoins) :=
  match vout coins !! Z.to_nat nPos with
  | Some o =>
      if (zlen (vout coins) <=? nPos) || txout_IsNull o then Exn assertion_failed
      else
        let coins := snd (Spend coins nPos) in
        Ok (if zlen (vout coins) =? 0
            then mkUndo o (fCoinBase coins) (u32 (coins_nHeight coins)) (coins_nVersion coins)
            else mkUndo o false 0 0, coins)
  | None => Exn assertion_failed
  end.

(** [vout.resize(size)]. *)
Definition resize (size : Z) (v : list CTxOut) : list CTxOut :=
  take (Z.to_nat size) v ++ replicate (Z.to_nat (size - zlen v)) txout_SetNull.

(** [ApplyTxInUndo] on the coins; the boolean is [fClean]. *)
Definition undo_coin {E} (undo : CTxInUndo) (n : Z) (coins : CCoins) : res E (bool * CCoins) :=
  let '(fClean, coins) :=
    if negb (un_nHeight undo =? 0)
    then (IsPruned coins, mkCoins (un_fCoinBase undo) [] (i32 (un_nHeight undo)) (un_nVersion undo))
    else (negb (IsPruned coins), coins) in
  let fClean := fClean && negb (IsAvailable coins n) in
  let v := if zlen (vout coins) <? u32 (n + 1) then resize (u32 (n + 1)) (vout coins) else vout coins in
  if zlen v <=? n then Exn oob_read
  else Ok (fClean, set_vout coins (<[Z.to_nat n := un_txout undo]> v)).

(** The block of [DisconnectBlock] that removes the outputs of [tx]. *)
Definition remove_outputs {E} (tx : CTransaction) (nHeight : Z) (outs : CCoins) : res E (bool * CCoins) :=
  let outs := ClearUnspendable outs in
  let outsBlock := FromTx tx nHeight in
  let outs := if coins_nVersion outsBlock <? 0
              then mkCoins (fCoinBase outs) (vout outs) (coins_nHeight outs) (coins_nVersion outsBlock)
              else outs in
  Ok (coins_eq outs outsBlock, coins_Clear).

(** The coins of an import's tombstone. *)
Definition tombstone (nHeight : Z) (coins : CCoins) : CCoins :=
  mkCoins (fCoinBase coins) (vout coins ++ [mkTxOut 0 [0]]) nHeight 4.

(** [importTx.vin[0].prevout.hash]. *)
Definition burn_hash {E} (tx : CTransaction) : res E uint256 :=
  match tx_vin tx with i :: _ => Ok (op_hash (prevout i)) | [] => Exn oob_read end.

(** Appending a note commitment to a tree, where a full tree throws; and the
    Rust library's appending of a transaction's outputs to the frontier. *)
Class NoteTrees (Tree : Type) := {
  tree_append : Tree -> uint256 -> res unit Tree;
  AppendBundle : Tree -> CTransaction -> Tree;
}.

Section UpdateCoins.
Context {Tree : Type} `{AnchorTrees Tree, NoteTrees Tree, HashFunctions}.
Abbreviation cache := (CCoinsViewCache Tree).
Abbreviation view := (view Tree).
Abbreviation top := (cache * view)%type.

(** ** Connecting *)

Fixpoint spend_inputs {E} (v : top) (l : list (uint256 * Z)) : res E (list CTxInUndo * top) :=
  match l with
  | [] => Ok ([], v)
  | (hash, n) :: l =>
      r ← modify_with v.1 v.2 hash (spend_coin n);
      q ← spend_inputs r.2 l;
      Ok (r.1 :: q.1, q.2)
  end.

Definition AddImportTombstone {E} (importTx : CTransaction) (v : top) (nHeight : Z) : res E top :=
  h ← burn_hash importTx;
  modify v.1 v.2 h (tombstone nHeight).

(** [UpdateCoins]: what is appended to [txundo.vprevout], and the view. *)
Definition UpdateCoins {E} (v : top) (txid : uint256) (tx : CTransaction) (nHeight : Z)
    : res E (CTxUndo * top) :=
  r ← (if negb (IsMint tx) then spend_inputs v (prevouts tx) else Ok ([], v));
  let '(undo, (c, base)) := r in
  let c := SetNullifiers c tx true in
  let c := SetZkProofHashes c txid tx true in
  v ← modify c base txid (fun _ => FromTx tx nHeight);
  v ← (if IsCoinImport tx then AddImportTombstone tx v nHeight else Ok v);
  Ok (undo, v).

(** ** Shielded requirements *)

(** The nullifiers of a join-split: true when one is already spent. *)
Fixpoint nullifier_spent {E} (v : view) (t : ShieldedType) (nfs : list uint256) : res E (bool * view) :=
  match nfs with
  | [] => Ok (false, v)
  | nf :: nfs =>
      '(spent, v) ← GetNullifier v t nf;
      if spent : bool then Ok (true, v) else nullifier_spent v t nfs
  end.

Fixpoint append_all (tree : Tree) (l : list uint256) : res unit Tree :=
  match l with [] => Ok tree | c :: l => t ← tree_append tree c; append_all t l end.

(** The loop over the join-splits; [intermediates] are the trees of the earlier ones. *)
Fixpoint joinsplit_loop (v : view) (intermediates : gmap uint256 Tree) (l : list JSDescription)
    : res unit (bool * view) :=
  match l with
  | [] => Ok (true, v)
  | js :: l =>
      '(spent, v) ← nullifier_spent v SPROUT (js_nullifiers js);
      if spent : bool then Ok (false, v)
      else
        let '(tree, v) :=
          match intermediates !! js_anchor js with
          | Some tree => (Some tree, v)
          | None => GetAnchorAt v SPROUT (js_anchor js)
          end in
        match tree with
        | None => Ok (false, v)
        | Some tree =>
            tree ← append_all tree (js_commitments js);
            let root := tree_root SPROUT tree in
            let intermediates :=
              match intermediates !! root with Some _ => intermediates | None => <[root := tree]> intermediates end in
            joinsplit_loop v intermediates l
        end
  end.

(** The worker that reads the anchors of the spends. *)
Fixpoint anchors_known (v : view) (l : list SpendDescription) : bool * view :=
  match l with
  | [] => (true, v)
  | d :: l =>
      let '(r, v) := GetAnchorAt v SAPLING (sp_anchor d) in
      match r with Some _ => anchors_known v l | None => (false, v) end
  end.

(** [HaveJoinSplitRequirements].  Its two threads fill different maps of the
    caches, so they are run one after the other. *)
Definition HaveJoinSplitRequirements (v : view) (tx : CTransaction) : res unit (bool * view) :=
  '(ok, v) ← joinsplit_loop v ∅ (vjoinsplit tx);
  if negb ok then Ok (false, v)
  else
    '(spent, v) ← nullifier_spent v SAPLING (sapling_nullifiers tx);
    let '(known, v) := anchors_known v (vShieldedSpend tx) in
    Ok (negb spent && known, v).

(** ** The block *)

(** A transaction with its hash. *)
Abbreviation hashed_tx := (uint256 * CTransaction)%type.

(** The views afterwards; the top stays a cache. *)
Definition as_top (v : view) (old : top) : top := match v with VCache c b => (c, b) | VDB _ => old end.

(** What the two functions read of the block index and the block: hash, height,
    whether Sapling is active and the block's Sapling root; of the previous block
    the hash, the Sapling root and whether Sapling was active. *)
Record block_pos := mkPos {
  bp_hash : uint256; bp_nHeight : Z; bp_sapling : bool; hashFinalSaplingRoot : uint256;
  bp_prev_hash : uint256; bp_prev_sapling_root : uint256; bp_prev_sapling : bool }.

(** ** Disconnecting *)

(** [ApplyTxInUndo]. *)
Definition ApplyTxInUndo {E} (undo : CTxInUndo) (v : top) (out : uint256 * Z) : res E (bool * top) :=
  modify_with v.1 v.2 out.1 (undo_coin undo out.2).

Definition RemoveImportTombstone {E} (importTx : CTransaction) (v : top) : res E top :=
  h ← burn_hash importTx;
  modify v.1 v.2 h (fun _ => coins_Clear).

(** The inputs, from the last to the first. *)
Fixpoint restore_inputs {E} (v : top) (l : list (CTxInUndo * (uint256 * Z))) (fClean : bool)
    : res E (bool * top) :=
  match l with
  | [] => Ok (fClean, v)
  | (undo, out) :: l =>
      r ← ApplyTxInUndo undo v out;
      restore_inputs r.2 l (fClean && r.1)
  end.

(** The round of [DisconnectBlock] for one transaction; [txundo] is
    [vtxundo[i - 1]], and its absence an index out of range. *)
Definition disconnect_tx (v : top) (txid : uint256) (tx : CTransaction) (txundo : option CTxUndo) (nHeight : Z)
    : res string (bool * top) :=
  r ← modify_with v.1 v.2 txid (remove_outputs tx nHeight);
  let '(fClean, (c, base)) := r in
  let c := SetNullifiers c tx false in
  let c := SetZkProofHashes c txid tx false in
  if negb (IsMint tx) then
    match txundo with
    | None => Exn oob_read
    | Some vprevout =>
        if negb (zlen vprevout =? zlen (tx_vin tx))
        then Err "transaction and undo data inconsistent"%string
        else restore_inputs (c, base) (rev (zip vprevout (prevouts tx))) fClean
    end
  else if IsCoinImport tx then
    v ← RemoveImportTombstone tx (c, base); Ok (fClean, v)
  else Ok (fClean, (c, base)).

(** [for (int i = block.vtx.size() - 1; i >= 0; i--)]. *)
Fixpoint disconnect_loop (n : nat) (v : top) (vtx : list hashed_tx) (undo : list CTxUndo) (nHeight : Z)
    (fClean : bool) : res string (bool * top) :=
  match n with
  | O => Ok (fClean, v)
  | S i =>
      match vtx !! i with
      | None => Exn oob_read
      | Some (txid, tx) =>
          r ← disconnect_tx v txid tx (match i with O => None | S k => undo !! k end) nHeight;
          disconnect_loop i r.2 vtx undo nHeight (fClean && r.1)
      end
  end.

(** [DisconnectBlock] once the undo data has been read: [fClean] and the view. *)
Definition DisconnectBlock (v : top) (vtx : list hashed_tx) (pindex : block_pos) (blockUndo : CBlockUndo)
    : res string (bool * top) :=
  let '(best, v') := GetBestBlock (VCache v.1 v.2) in
  _ ← assert_ (bool_decide (bp_hash pindex = best));
  let v := as_top v' v in
  if negb (zlen (vtxundo blockUndo) + 1 =? zlen vtx)
  then Err "block and undo data inconsistent"%string
  else
    r ← disconnect_loop (length vtx) v vtx (vtxundo blockUndo) (bp_nHeight pindex) true;
    let '(fClean, (c, base)) := r in
    v ← PopAnchor c base SPROUT (old_sprout_tree_root blockUndo);
    v ← PopAnchor v.1 v.2 SAPLING
          (if bp_prev_sapling pindex then bp_prev_sapling_root pindex else empty_root SAPLING);
    v ← PopAnchor v.1 v.2 SAPLINGFRONTIER
          (if bp_prev_sapling pindex then bp_prev_sapling_root pindex else empty_root SAPLINGFRONTIER);
    Ok (fClean, (SetBestBlock v.1 (bp_prev_hash pindex), v.2)).
End UpdateCoins.
