(* ===== verification/UpdateCoinsSpec.v ===== *)
(** * Disconnecting a block undoes connecting it

    On the coin sets that the views represent: spending an output and applying
    its undo record restores the coins; so does every transaction, and a whole
    block in reverse order. *)
From stdpp Require Import gmap functions strings.
From S2P Require Import Prelude Hashing Merkle Script Serialize Transaction Coins CoinsSer CoinsView CoinsViewSpec UpdateCoins.

(** ** One output *)

(** Coins as the operations leave them: no null output at the end, null
    outputs cleared, and a height that is neither zero nor beyond an int. *)
Definition coins_wf (c : CCoins) : Prop :=
  trimmed (vout c) /\ Forall (fun o => txout_IsNull o = true -> o = txout_SetNull) (vout c) /\
  zlen (vout c) < 2 ^ 32 /\ 0 < coins_nHeight c < 2 ^ 31.

Lemma Cleanup_trimmed c : trimmed (vout c) -> Cleanup c = c.
Proof.
  intros Ht; pose proof (Cleanup_padding (fCoinBase c) (vout c) 0 (coins_nHeight c) (coins_nVersion c) Ht) as E.
  cbn in E; rewrite app_nil_r in E; now destruct c.
Qed.

Lemma Cleanup_app c v d :
  trimmed v -> Forall (fun o => txout_IsNull o = true) d -> Cleanup (set_vout c (v ++ d)) = set_vout c v.
Proof.
  intros Ht Hd; unfold Cleanup; cbn [vout set_vout]; rewrite rev_app_distr, pop_null_app by now apply Forall_rev.
  pose proof (Cleanup_trimmed (set_vout c v) Ht) as E; unfold Cleanup in E; cbn [vout set_vout] in E.
  injection E as E; unfold set_vout; cbn; now rewrite E.
Qed.

Lemma trimmed_pruned v : trimmed v -> forallb txout_IsNull v = true -> v = [].
Proof.
  intros Ht Hp; destruct v as [| o v]; [reflexivity |]; rewrite trimmed_not_null in Hp by (easy || assumption); discriminate.
Qed.

Lemma Spend_eq c n o :
  0 <= n -> vout c !! Z.to_nat n = Some o -> txout_IsNull o = false ->
  Spend c n = (true, Cleanup (set_vout c (<[Z.to_nat n := txout_SetNull]> (vout c)))).
Proof.
  intros Hn Ho Hnull; unfold Spend; rewrite Ho, Hnull; pose proof (lookup_lt_Some _ _ _ Ho).
  destruct (Z.leb_spec (zlen (vout c)) n); [unfold zlen in *; lia | reflexivity].
Qed.

Lemma null_replicate d :
  Forall (fun o => txout_IsNull o = true -> o = txout_SetNull) d -> Forall (fun o => txout_IsNull o = true) d ->
  d = replicate (length d) txout_SetNull.
Proof.
  induction d as [| o d IH]; intros Hw Hn; [reflexivity |].
  apply Forall_cons_1 in Hw as [Ho Hw]; apply Forall_cons_1 in Hn as [Hno Hn].
  cbn; rewrite <- IH by assumption; f_equal; auto.
Qed.

Lemma trimmed_last v o : trimmed v -> v !! (length v - 1)%nat = Some o -> txout_IsNull o = false.
Proof.
  intros Ht Ho; apply (Ht (take (length v - 1) v) o).
  pose proof (lookup_lt_Some _ _ _ Ho); rewrite <- (take_S_r _ _ _ Ho), take_ge; [reflexivity | lia].
Qed.

(** What spending leaves of the outputs, once padded again. *)
Lemma spend_shape c n o :
  coins_wf c -> 0 <= n -> vout c !! Z.to_nat n = Some o -> txout_IsNull o = false ->
  let c' := snd (Spend c n) in
  trimmed (vout c') /\ fCoinBase c' = fCoinBase c /\ coins_nHeight c' = coins_nHeight c /\
  coins_nVersion c' = coins_nVersion c /\
  Forall (fun o => txout_IsNull o = true -> o = txout_SetNull) (vout c') /\ zlen (vout c') <= zlen (vout c) /\
  (if zlen (vout c') <? u32 (n + 1) then resize (u32 (n + 1)) (vout c') else vout c')
    = <[Z.to_nat n := txout_SetNull]> (vout c).
Proof.
  intros (Ht & Hf & Hz & _) Hn Ho Hnull; rewrite (Spend_eq c n o) by assumption; cbn [snd].
  split; [apply trimmed_Cleanup |]; split; [reflexivity |]; split; [reflexivity |]; split; [reflexivity |].
  destruct (Cleanup_vout (set_vout c (<[Z.to_nat n := txout_SetNull]> (vout c)))) as (d & E & Hd).
  set (v' := vout (Cleanup _)) in *; cbn [set_vout vout] in E.
  assert (Hf' : Forall (fun o => txout_IsNull o = true -> o = txout_SetNull) (v' ++ d))
    by (rewrite <- E; apply Forall_insert; auto).
  apply Forall_app in Hf' as [Hfv Hfd]; split; [exact Hfv |].
  pose proof (f_equal length E) as El; rewrite length_insert, length_app in El.
  pose proof (lookup_lt_Some _ _ _ Ho) as Hlt; split; [unfold zlen; lia |].
  rewrite (null_replicate d Hfd Hd) in E; rewrite uwrap_small by (unfold zlen in *; lia).
  assert (Hk : length d = 0%nat \/ Z.to_nat n = (length (vout c) - 1)%nat).
  { destruct (Nat.eq_dec (length d) 0) as [| Hd0]; [now left | right].
    destruct (Nat.eq_dec (Z.to_nat n) (length (vout c) - 1)) as [| Hne]; [assumption | exfalso].
    assert (Hl : vout c !! (length (vout c) - 1)%nat = Some txout_SetNull).
    { rewrite <- (list_lookup_insert_ne (vout c) (Z.to_nat n) _ txout_SetNull Hne), E.
      rewrite lookup_app_r by lia; apply lookup_replicate_2; lia. }
    pose proof (trimmed_last _ _ Ht Hl); discriminate. }
  rewrite E; destruct Hk as [Hk | Hk].
  - rewrite Hk, app_nil_r; destruct (Z.ltb_spec (zlen v') (n + 1)); [unfold zlen in *; lia | reflexivity].
  - destruct (Z.ltb_spec (zlen v') (n + 1)).
    + unfold resize, zlen in *; rewrite take_ge by lia; do 2 f_equal; lia.
    + assert (length d = 0%nat) as -> by (unfold zlen in *; lia); now rewrite app_nil_r.
Qed.

Lemma IsAvailable_lookup c n :
  0 <= n -> IsAvailable c n = true -> exists o, vout c !! Z.to_nat n = Some o /\ txout_IsNull o = false.
Proof. intros Hn; now apply IsAvailable_iff. Qed.

Lemma canon_Some c c' : canon c = Some c' -> c' = c /\ IsPruned c = false.
Proof. unfold canon; destruct (IsPruned c) eqn:E; [discriminate |]; now intros [= <-]. Qed.

Lemma coins_wf_spend c n : coins_wf c -> 0 <= n -> IsAvailable c n = true -> coins_wf (snd (Spend c n)).
Proof.
  intros Hw Hn Ha; destruct (IsAvailable_lookup c n Hn Ha) as (o & Ho & Hno).
  destruct (spend_shape c n o Hw Hn Ho Hno) as (Ht & _ & Eh & _ & Hf & Hz & _).
  destruct Hw as (_ & _ & Hz0 & Hh); split; [exact Ht |]; split; [exact Hf |]; split; [lia | now rewrite Eh].
Qed.

(** The undo record of a spend restores the coins, whatever object stands for
    fully spent coins in the meantime. *)
Lemma undo_spend {E} c n :
  coins_wf c -> 0 <= n -> IsAvailable c n = true ->
  exists undo c', spend_coin (E := E) n c = Ok (undo, c') /\ c' = snd (Spend c n) /\
    forall cur, canon cur = canon c' ->
      exists new, undo_coin (E := E) undo n cur = Ok (true, new) /\ Cleanup new = c.
Proof.
  intros Hw Hn Ha; destruct (IsAvailable_lookup c n Hn Ha) as (o & Ho & Hno).
  pose proof (spend_shape c n o Hw Hn Ho Hno) as (Ht & Eb & Eh & Ev & Hf & Hz & Ep).
  pose proof (proj2 (Spend_spec c n Hn) n Hn) as Hun; rewrite Ha, Z.eqb_refl in Hun; cbn in Hun.
  unfold spend_coin; rewrite Ho, Hno; pose proof (lookup_lt_Some _ _ _ Ho) as Hlt.
  destruct (Z.leb_spec (zlen (vout c)) n) as [? | _]; [unfold zlen in *; lia |]; cbn [orb].
  set (c' := snd (Spend c n)) in *; eexists _, c'; split; [reflexivity |]; split; [reflexivity |]; intros cur Hcur.
  assert (Hres : forall cb h ver, cb = fCoinBase c -> h = coins_nHeight c -> ver = coins_nVersion c ->
    Cleanup (mkCoins cb (<[Z.to_nat n := o]> (<[Z.to_nat n := txout_SetNull]> (vout c))) h ver) = c).
  { intros cb h ver -> -> ->; rewrite list_insert_insert_eq, list_insert_id by assumption.
    destruct c; apply Cleanup_trimmed; apply Hw. }
  assert (Hlen : (zlen (<[Z.to_nat n := txout_SetNull]> (vout c)) <=? n) = false)
    by (apply Z.leb_gt; unfold zlen in *; rewrite length_insert; lia).
  unfold undo_coin; destruct (Z.eqb_spec (zlen (vout c')) 0) as [E0 | E0]; cbn [un_nHeight un_fCoinBase un_nVersion un_txout].
  - apply zlen_0_nil in E0; rewrite Eh, uwrap_small by (destruct Hw as (_ & _ & _ & ?); lia).
    destruct (Z.eqb_spec (coins_nHeight c) 0) as [? | _]; [destruct Hw as (_ & _ & _ & ?); lia |]; cbn [negb vout].
    assert (Hp : IsPruned cur = true).
    { unfold canon in Hcur at 2; unfold IsPruned in Hcur at 1; rewrite E0 in Hcur; cbn in Hcur.
      unfold canon in Hcur; now destruct (IsPruned cur). }
    rewrite E0 in Ep; rewrite Hp, Ep, Hlen; cbn [andb].
    assert (IsAvailable (mkCoins (fCoinBase c') [] (i32 (coins_nHeight c)) (coins_nVersion c')) n = false) as ->
      by (unfold IsAvailable; cbn; now rewrite andb_false_r).
    eexists; split; [reflexivity |]; unfold set_vout; cbn [fCoinBase coins_nHeight coins_nVersion].
    apply Hres; auto; apply swrap_small; destruct Hw as (_ & _ & _ & ?); cbn; lia.
  - assert (Hnp : IsPruned c' = false).
    { unfold IsPruned; apply trimmed_not_null; [| exact Ht]; intros E1; now rewrite E1 in E0. }
    unfold canon in Hcur at 2; rewrite Hnp in Hcur; apply canon_Some in Hcur as [<- _].
    cbn [Z.eqb negb]; rewrite Hnp, Hun, Ep, Hlen; cbn [negb andb].
    eexists; split; [reflexivity |]; unfold set_vout; apply Hres; auto.
Qed.

(** ** Levels *)

(** The same coins and nullifiers. *)
Definition level_eq (l l' : level) : Prop :=
  (forall t, lv_coins l t = lv_coins l' t) /\
  (forall t x, nf_type t -> lv_spent l t x = lv_spent l' t x).

#[global] Instance level_eq_equivalence : Equivalence level_eq.
Proof.
  split.
  - now split.
  - intros l l' [H1 H2]; split; intros; [now rewrite H1 | now rewrite H2].
  - intros l l' l'' [H1 H2] [H3 H4]; split; intros; [now rewrite H1 | now rewrite H2, H4].
Qed.

(** Setting the coins of a transaction, and the state of nullifiers. *)
Definition set_tx (l : level) (txid : uint256) (x : option CCoins) : level :=
  mkLevel (fun t => if decide (t = txid) then x else lv_coins l t) (lv_spent l).

Definition set_spent (l : level) (tx : CTransaction) (b : bool) : level :=
  mkLevel (lv_coins l) (fun t x =>
    if decide (x ∈ marked (sprout_nullifiers tx) (sapling_nullifiers tx) t) then b else lv_spent l t x).

#[global] Instance set_tx_proper : Proper (level_eq ==> eq ==> eq ==> level_eq) set_tx.
Proof.
  intros l l' [H1 H2] t t' <- x x' <-; split; intros; cbn; [| now apply H2].
  destruct (decide _); [reflexivity | apply H1].
Qed.

#[global] Instance set_spent_proper : Proper (level_eq ==> eq ==> eq ==> level_eq) set_spent.
Proof.
  intros l l' [H1 H2] t t' <- x x' <-; split; intros; cbn; [apply H1 |].
  destruct (decide _); [reflexivity | now apply H2].
Qed.

Lemma set_tx_id l txid x : lv_coins l txid = x -> level_eq (set_tx l txid x) l.
Proof. intros <-; split; intros; cbn; [| reflexivity]; now destruct (decide _) as [-> |]. Qed.

Lemma set_tx_twice l txid x y : level_eq (set_tx (set_tx l txid x) txid y) (set_tx l txid y).
Proof. split; intros; cbn; [| reflexivity]; now destruct (decide _). Qed.

Lemma set_tx_comm l t t' x x' : t <> t' -> level_eq (set_tx (set_tx l t x) t' x') (set_tx (set_tx l t' x') t x).
Proof.
  intros Hne; split; intros; cbn; [| reflexivity].
  destruct (decide (t0 = t')), (decide (t0 = t)); congruence.
Qed.

Section Levels.
Context {Tree : Type} `{AnchorTrees Tree}.
Abbreviation cache := (CCoinsViewCache Tree).
Abbreviation view := (view Tree).

Lemma good_level_eq (v : view) l l' s : level_eq l l' -> good v (l :: s) -> good v (l' :: s).
Proof.
  intros [H1 H2] (Hc & Hn & Hr); split; [exact Hc |]; split; [exact Hn |].
  assert (Hl : level_of v l -> level_of v l').
  { intros [L1 L2]; split; intros; [now rewrite <- H1, L1 | now rewrite <- H2, L2 by assumption]. }
  destruct v as [d | c b]; cbn in *; [destruct s; tauto |]; destruct Hr; auto.
Qed.

Lemma good_modify_with {E R} (c : cache) (b : view) l s txid (f : CCoins -> res E (R * CCoins)) :
  good (VCache c b) (l :: s) ->
  exists cur, canon cur = lv_coins l txid /\
    match f cur with
    | Ok (r, new) => exists c' b' m w, modify_with c b txid f = Ok (r, (c', b')) /\
        c' = set_coins c m w /\ good (VCache c' b') (set_tx l txid (canon (Cleanup new)) :: s)
    | Err e => modify_with c b txid f = Err e
    | Exn x => modify_with c b txid f = Exn x
    end.
Proof.
  intros Hg; destruct (good_cons _ _ Hg) as (l0 & s' & [= <- <-] & [Hl1 Hl2]).
  destruct (good_cache c b l s Hg) as (l2 & s2 & -> & Hrb); destruct Hg as (Hc & Hn & Hr).
  destruct (modify_with_ok c b txid f Hc) as (cur & b' & Hcur & Hub & Hor & Hf).
  exists cur; split; [now rewrite Hl1 |]; destruct (f cur) as [[r new] | |]; try exact Hf.
  destruct Hf as (c' & m & w & Em & Ec & Hc' & Hu); exists c', b', m, w.
  split; [exact Em |]; split; [exact Ec |]; pose proof (proj1 Hc) as Hcb; pose proof (proj1 Hn) as Hnb.
  assert (Hnf : cacheNullifiers c' = cacheNullifiers c) by (now rewrite Ec).
  assert (Hb' : nf_inv b' /\ (forall t x, nf_spent b' t x = nf_spent b t x) /\ represents b' (l2 :: s2)).
  { destruct Hor as [-> | ->]; [auto |].
    destruct (nf_GetCoins b txid Hnb); repeat split; auto; now apply represents_GetCoins. }
  destruct Hb' as (Hnb' & Hns & Hrb'); split; [exact Hc' |]; split.
  - split; [assumption |]; rewrite Hnf; intros t x e Ht Hx Hd; rewrite Hns; now apply (proj2 Hn).
  - split; [| exact Hrb']; split; cbn [set_tx lv_coins lv_spent]; intros t.
    + rewrite Hu; destruct (decide (t = txid)) as [-> |]; [reflexivity | apply Hl1].
    + intros nf Ht; cbn [nf_spent]; rewrite Hnf, Hns; now apply Hl2.
Qed.

Lemma modify_as_with {E} (c : cache) (b : view) txid f :
  modify (E := E) c b txid f = (r ← modify_with c b txid (fun x => Ok (tt, f x)); Ok r.2).
Proof.
  unfold modify, modify_with; destruct (ModifyCoins c b txid) as [[[c1 b1] u] | |] eqn:Em; try reflexivity.
  cbn [mbind res_bind]; unfold modifier_apply.
  destruct (cacheCoins c1 !! txid) as [e |] eqn:Ee; cbn [mbind res_bind fst snd].
  - destruct (modifier_end _ _ _); reflexivity.
  - unfold ModifyCoins in Em; exfalso.
    destruct (hasModifier c); [discriminate |]; cbn [negb assert_ mbind res_bind] in Em.
    repeat case_match; injection Em as <- <- <-; cbn in Ee; now rewrite lookup_insert_eq in Ee.
Qed.

(** Views that differ only in anchors, proofs, best hashes and memory. *)
Fixpoint same_coins (v v' : view) : Prop :=
  match v, v' with
  | VDB d, VDB d' => d = d'
  | VCache c b, VCache c' b' =>
      cacheCoins c' = cacheCoins c /\ hasModifier c' = hasModifier c /\ cacheNullifiers c' = cacheNullifiers c /\
      same_coins b b'
  | _, _ => False
  end.

Lemma same_coins_refl v : same_coins v v.
Proof. induction v; cbn; auto. Qed.

Lemma same_coins_trans v1 : forall v2 v3, same_coins v1 v2 -> same_coins v2 v3 -> same_coins v1 v3.
Proof.
  induction v1 as [d | c b IH]; intros [d2 | c2 b2] [d3 | c3 b3]; cbn; try tauto; [congruence |].
  intros (-> & -> & -> & H1) (-> & -> & -> & H2); eauto.
Qed.

Lemma same_reads v : forall v', same_coins v v' ->
  (forall t, utxo v' t = utxo v t) /\ (forall t x, nf_spent v' t x = nf_spent v t x) /\
  (forall t, has_entry v t -> has_entry v' t).
Proof.
  induction v as [d | c b IH]; intros [d' | c' b']; cbn [same_coins]; try tauto; [now intros -> |].
  intros (Ec & Em & En & Hs); destruct (IH b' Hs) as (H1 & H2 & H3); cbn; rewrite Ec, En; split; [| split; auto].
  - intros t; now rewrite H1.
  - intros t x; now rewrite H2.
Qed.

Lemma good_same v : forall v' s, same_coins v v' -> good v s -> good v' s.
Proof.
  induction v as [d | c b IH]; intros [d' | c' b'] s; cbn [same_coins]; try tauto; [now intros -> |].
  intros (Ec & Em & En & Hs) (Hc & Hn & Hr).
  assert (Hs' : same_coins (VCache c b) (VCache c' b')) by now split.
  destruct (same_reads _ _ Hs') as (U & N & _); destruct (same_reads b b' Hs) as (Ub & Nb & Kb).
  destruct s as [| l s]; [destruct Hr |]; destruct Hr as [[L1 L2] Hr].
  destruct Hc as (Hcb & Hm & He), Hn as (Hnb & Hn).
  assert (Hgb : good b' s) by (apply IH; [exact Hs |]; split; auto).
  destruct Hgb as (G1 & G2 & G3); split; [| split].
  - split; [exact G1 |]; rewrite Em, Ec; split; [exact Hm |]; intros t e Ht.
    apply (entry_inv_mono b); auto.
  - split; [exact G2 |]; rewrite En; intros t x e Ht Hx Hd; rewrite Nb; eauto.
  - split; [| exact G3]; split; intros; [now rewrite U | now rewrite N; auto].
Qed.

Lemma GetAnchorAt_same v t rt : same_coins v (snd (GetAnchorAt v t rt)).
Proof.
  induction v as [d | c b IH]; cbn [GetAnchorAt]; [reflexivity |].
  destruct (cacheAnchors c t !! rt); [apply same_coins_refl |].
  destruct (GetAnchorAt b t rt) as [[tree |] b']; cbn in *; auto.
Qed.

Lemma GetBestAnchor_same v t : same_coins v (snd (GetBestAnchor v t)).
Proof.
  induction v as [d | c b IH]; cbn [GetBestAnchor]; [reflexivity |].
  destruct (IsNull _); [| apply same_coins_refl].
  destruct (GetBestAnchor b t) as [h b']; cbn in *; auto.
Qed.

Lemma GetBestBlock_same v : same_coins v (snd (GetBestBlock v)).
Proof.
  induction v as [d | c b IH]; cbn [GetBestBlock]; [reflexivity |].
  destruct (IsNull _); [| apply same_coins_refl].
  destruct (GetBestBlock b) as [h b']; cbn in *; auto.
Qed.

(** What the coin operations leave alone in the top cache. *)
Definition frame (c c' : cache) : Prop :=
  hashBlock c' = hashBlock c /\ hashAnchor c' = hashAnchor c /\ cacheAnchors c' = cacheAnchors c.

#[global] Instance frame_preorder : PreOrder frame.
Proof.
  split; [now repeat split |]; intros c1 c2 c3 (H1 & H2 & H3) (H4 & H5 & H6); repeat split; congruence.
Qed.

Lemma frame_set_coins c m w : frame c (set_coins c m w).
Proof. now repeat split. Qed.

Lemma fold_nullifier_frame (l : list uint256) t b (c : cache) :
  frame c (fold_left (fun c nf => set_nullifier c t nf b) l c).
Proof.
  revert c; induction l as [| n l IH]; intros c; cbn; [reflexivity |].
  transitivity (set_nullifier c t n b); [now repeat split | apply IH].
Qed.

Lemma frame_SetNullifiers (c : cache) tx b : frame c (SetNullifiers c tx b).
Proof.
  unfold SetNullifiers, set_nullifier_lists; etransitivity; apply fold_nullifier_frame.
Qed.

Lemma proofs_loop_same (c : cache) t txid hs i b v :
  let c' := set_proofs_loop c t txid hs i b in frame c c' /\ same_coins (VCache c v) (VCache c' v).
Proof.
  revert c i; induction hs as [| h hs IH]; intros c i; cbn [set_proofs_loop].
  { split; [reflexivity | apply same_coins_refl]. }
  destruct (IH (set_proof c t txid h i b) (i + 1)) as [F S]; split.
  - etransitivity; [| exact F]; now repeat split.
  - eapply same_coins_trans; [| exact S]; split; auto using same_coins_refl.
Qed.

Lemma SetZkProofHashes_same `{HashFunctions} (c : cache) txid tx b v :
  let c' := SetZkProofHashes c txid tx b in frame c c' /\ same_coins (VCache c v) (VCache c' v).
Proof.
  unfold SetZkProofHashes; cbv zeta; set (c1 := set_proofs_loop c SPEND _ _ _ _).
  destruct (proofs_loop_same c SPEND txid (map (fun d => Hash (sp_zkproof d)) (vShieldedSpend tx)) 0 b v) as [F1 S1].
  destruct (proofs_loop_same c1 OUTPUT txid (map (fun d => Hash (od_zkproof d)) (vShieldedOutput tx)) 0 b v) as [F2 S2].
  split; [now transitivity c1 | eapply same_coins_trans; eassumption].
Qed.

Lemma good_SetNullifiers (c : cache) b l s tx x :
  good (VCache c b) (l :: s) -> good (VCache (SetNullifiers c tx x) b) (set_spent l tx x :: s).
Proof.
  intros Hg; pose proof (refines_set_nullifiers _ _ tx x Hg) as Hs; unfold step_refines in Hs.
  destruct (good_cache c b l s Hg) as (l2 & s2 & -> & _); cbn in Hs.
  destruct Hs as (v' & [= <-] & Hg'); exact Hg'.
Qed.

Lemma good_modify {E} (c : cache) (b : view) l s txid f :
  good (VCache c b) (l :: s) ->
  exists cur c' b', canon cur = lv_coins l txid /\ modify (E := E) c b txid f = Ok (c', b') /\ frame c c' /\
    good (VCache c' b') (set_tx l txid (canon (Cleanup (f cur))) :: s).
Proof.
  intros Hg; destruct (good_modify_with (E := E) c b l s txid (fun x => Ok (tt, f x)) Hg)
    as (cur & Hcur & c' & b' & m & w & Em & Ec & Hg').
  exists cur, c', b'; split; [exact Hcur |]; rewrite modify_as_with, Em; split; [reflexivity |].
  split; [subst; apply frame_set_coins | exact Hg'].
Qed.
End Levels.

(** ** The inputs of a transaction *)

Definition level_wf (l : level) : Prop := forall t c, lv_coins l t = Some c -> coins_wf c.

(** The outpoint is unspent in the level. *)
Definition available (l : level) (p : uint256 * Z) : Prop :=
  0 <= p.2 /\ exists c, lv_coins l p.1 = Some c /\ IsAvailable c p.2 = true.

(** The level after spending one outpoint, and several. *)
Definition spend_one (l : level) (p : uint256 * Z) : level :=
  set_tx l p.1 (match lv_coins l p.1 with Some c => canon (snd (Spend c p.2)) | None => None end).

Definition spend_level (l : level) (ps : list (uint256 * Z)) : level := fold_left spend_one ps l.

Lemma available_spend_one l p q : available l p -> available l q -> p <> q -> available (spend_one l p) q.
Proof.
  intros (Hp & c & Ec & Ac) (Hq & d & Ed & Ad) Hne; split; [exact Hq |]; unfold spend_one; rewrite Ec; cbn.
  destruct (decide (q.1 = p.1)) as [E | E]; [| eauto].
  rewrite E, Ec in Ed; injection Ed as <-; pose proof (proj2 (Spend_spec c p.2 Hp) q.2 Hq) as Hs.
  destruct (Z.eqb_spec q.2 p.2) as [E2 | E2]; [destruct p, q; cbn in *; congruence |].
  rewrite Ad, andb_false_r in Hs; cbn in Hs; exists (snd (Spend c p.2)); split; [| exact Hs].
  now apply canon_available with q.2.
Qed.

Lemma level_wf_set l t x : level_wf l -> (forall c, x = Some c -> coins_wf c) -> level_wf (set_tx l t x).
Proof. intros Hl Hx t' c; cbn; destruct (decide _); [apply Hx | apply Hl]. Qed.

Lemma canon_wf c c' : coins_wf c -> canon c = Some c' -> coins_wf c'.
Proof. intros Hw E; apply canon_Some in E as [-> _]; exact Hw. Qed.

Lemma level_wf_spend_one l p : level_wf l -> available l p -> level_wf (spend_one l p).
Proof.
  intros Hl (Hn & c & Ec & Ha); apply level_wf_set; [exact Hl |]; rewrite Ec; intros c'.
  apply canon_wf, coins_wf_spend; eauto.
Qed.

Lemma spend_one_None l p t : lv_coins l t = None -> lv_coins (spend_one l p) t = None.
Proof. intros Ht; cbn; destruct (decide _) as [-> |]; [now rewrite Ht | exact Ht]. Qed.

Lemma spend_level_None ps : forall l t, lv_coins l t = None -> lv_coins (spend_level l ps) t = None.
Proof. induction ps as [| p ps IH]; intros l t Ht; cbn; [exact Ht |]; now apply IH, spend_one_None. Qed.

Lemma spend_level_spent ps : forall l, lv_spent (spend_level l ps) = lv_spent l.
Proof. induction ps as [| p ps IH]; intros l; [reflexivity | exact (IH (spend_one l p))]. Qed.

Section Inputs.
Context {Tree : Type} `{AnchorTrees Tree}.
Abbreviation cache := (CCoinsViewCache Tree).
Abbreviation view := (view Tree).
Abbreviation top := (cache * view)%type.
Abbreviation vtop v := (VCache v.1 v.2).

Lemma restore_inputs_app {E} (v : top) a : forall b f,
  restore_inputs (E := E) v (a ++ b) f = (r ← restore_inputs v a f; restore_inputs r.2 b r.1).
Proof.
  revert v; induction a as [| [u o] a IH]; intros v b f; cbn [app restore_inputs]; [reflexivity |].
  destruct (ApplyTxInUndo u v o) as [r | |]; cbn [mbind res_bind]; [apply IH | reflexivity..].
Qed.

(** Applying [undos] to the outpoints [ps], last first, from any view of the
    level [l'] gives a view of [l]. *)
Definition restores E (undos : list CTxInUndo) (ps : list (uint256 * Z)) (l' l : level) : Prop :=
  forall (v : top) s f, good (vtop v) (l' :: s) ->
  exists v', restore_inputs (E := E) v (rev (zip undos ps)) f = Ok (f, v') /\ frame v.1 v'.1 /\
    good (vtop v') (l :: s).

(** One input. *)
Lemma spend_input_ok {E E'} (v : top) l s p :
  good (vtop v) (l :: s) -> level_wf l -> available l p ->
  exists u v', modify_with v.1 v.2 p.1 (spend_coin (E := E) p.2) = Ok (u, v') /\ frame v.1 v'.1 /\
    good (vtop v') (spend_one l p :: s) /\ restores E' [u] [p] (spend_one l p) l.
Proof.
  intros Hg Hw (Hn & c & Ec & Ha); pose proof (Hw _ _ Ec) as Hcw.
  destruct (undo_spend (E := E) c p.2 Hcw Hn Ha) as (u & c' & Es & Ec' & _).
  destruct (undo_spend (E := E') c p.2 Hcw Hn Ha) as (u' & c'' & Es' & -> & Hu).
  assert (u' = u) as ->.
  { unfold spend_coin in Es, Es'; destruct (vout c !! _); [| discriminate].
    destruct (_ || _); [discriminate |]; congruence. }
  assert (Hclean : Cleanup (snd (Spend c p.2)) = snd (Spend c p.2))
    by (apply Cleanup_trimmed; now apply coins_wf_spend).
  destruct (good_modify_with v.1 v.2 l s p.1 (spend_coin (E := E) p.2) Hg) as (cur & Hcur & Hf).
  rewrite Ec in Hcur; apply canon_Some in Hcur as [<- Hnp]; rewrite Es in Hf.
  destruct Hf as (c1 & b1 & m & w & Em & Ef & Hg1); exists u, (c1, b1); split; [exact Em |].
  split; [cbn; rewrite Ef; apply frame_set_coins |]; split; [cbn; unfold spend_one; rewrite Ec; now rewrite Ec', Hclean in Hg1 |].
  intros v2 s2 f Hg2; cbn [zip zip_with rev app restore_inputs]; unfold ApplyTxInUndo; cbn [fst snd].
  destruct (good_modify_with v2.1 v2.2 _ s2 p.1 (undo_coin (E := E') u p.2) Hg2) as (cur & Hcur & Hf).
  unfold spend_one in Hcur; cbn in Hcur; rewrite decide_True in Hcur by reflexivity; rewrite Ec in Hcur.
  destruct (Hu cur Hcur) as (new & Eu & Enew); rewrite Eu in Hf.
  destruct Hf as (c2 & b2 & m2 & w2 & Em2 & Ef2 & Hg3); rewrite Em2; cbn [mbind res_bind fst snd].
  exists (c2, b2); rewrite andb_true_r; split; [reflexivity |].
  split; [cbn; rewrite Ef2; apply frame_set_coins |]; eapply good_level_eq; [| exact Hg3].
  unfold spend_one; rewrite Ec, Enew, set_tx_twice; apply set_tx_id.
  rewrite Ec; unfold canon; now rewrite Hnp.
Qed.

Lemma restores_trans E us u ps p l1 l2 l3 :
  length us = length ps -> restores E us ps l1 l2 -> restores E [u] [p] l2 l3 ->
  restores E (u :: us) (p :: ps) l1 l3.
Proof.
  intros Hl H1 H2 v s f Hg; change (zip (u :: us) (p :: ps)) with ((u, p) :: zip us ps).
  cbn [rev]; rewrite restore_inputs_app; destruct (H1 v s f Hg) as (v1 & E1 & F1 & G1); rewrite E1; cbn [mbind res_bind fst snd].
  destruct (H2 v1 s f G1) as (v2 & E2 & F2 & G2); exists v2; split; [exact E2 |].
  split; [now transitivity v1.1 | exact G2].
Qed.

(** All inputs: no assertion fails, and the undo records restore the level. *)
Lemma spend_inputs_ok {E E'} ps : forall (v : top) l s,
  good (vtop v) (l :: s) -> level_wf l -> base.NoDup ps -> Forall (available l) ps ->
  exists undos v', spend_inputs (E := E) v ps = Ok (undos, v') /\ frame v.1 v'.1 /\
    length undos = length ps /\ good (vtop v') (spend_level l ps :: s) /\ level_wf (spend_level l ps) /\
    restores E' undos ps (spend_level l ps) l.
Proof.
  induction ps as [| p ps IH]; intros v l s Hg Hw Hnd Hav; cbn [spend_inputs].
  { exists [], v; split; [reflexivity |]; split; [reflexivity |]; split; [reflexivity |].
    split; [now destruct v |]; split; [exact Hw |]; intros v2 s2 f Hg2; exists v2; cbn; auto.
    split; [reflexivity |]; split; [reflexivity | exact Hg2]. }
  apply Forall_cons_1 in Hav as [Hp Hav]; pose proof (NoDup_cons_1_1 _ _ Hnd) as Hnot; apply NoDup_cons_1_2 in Hnd.
  destruct (spend_input_ok (E := E) (E' := E') v l s p Hg Hw Hp) as (u & v1 & Em & F1 & G1 & R1).
  destruct p as [h n]; cbn [fst snd] in *; rewrite Em; cbn [mbind res_bind fst snd].
  assert (Hav' : Forall (available (spend_one l (h, n))) ps).
  { apply Forall_forall; intros q Hq; apply available_spend_one; [exact Hp | exact (proj1 (Forall_forall _ _) Hav q Hq) |].
    intros <-; apply Hnot; now apply list_elem_of_In. }
  destruct (IH v1 (spend_one l (h, n)) s G1 (level_wf_spend_one l _ Hw Hp) Hnd Hav')
    as (us & v2 & E2 & F2 & L2 & G2 & W2 & R2).
  rewrite E2; cbn [mbind res_bind fst snd]; exists (u :: us), v2.
  split; [reflexivity |]; split; [now transitivity v1.1 |]; split; [cbn; now f_equal |].
  split; [exact G2 |]; split; [exact W2 |]; now apply (restores_trans E' us u ps (h, n) _ (spend_one l (h, n))).
Qed.
End Inputs.

(** ** A transaction *)

Definition outputs_ok (tx : CTransaction) : Prop :=
  Forall (fun o => 0 <= nValue o) (tx_vout tx) /\ zlen (tx_vout tx) < 2 ^ 32.

Lemma coins_wf_Cleanup c :
  Forall (fun o => txout_IsNull o = true -> o = txout_SetNull) (vout c) -> zlen (vout c) < 2 ^ 32 ->
  0 < coins_nHeight c < 2 ^ 31 -> coins_wf (Cleanup c).
Proof.
  intros Hf Hz Hh; split; [apply trimmed_Cleanup |]; destruct (Cleanup_vout c) as (d & E & _).
  rewrite E in Hf, Hz; apply Forall_app in Hf as [Hf _]; rewrite zlen_app in Hz; pose proof (zlen_nonneg d).
  split; [exact Hf |]; split; [lia | exact Hh].
Qed.

Lemma coins_wf_FromTx tx h : outputs_ok tx -> 0 < h < 2 ^ 31 -> coins_wf (FromTx tx h).
Proof.
  intros [Hv Hz] Hh; apply coins_wf_Cleanup; cbn [set_vout vout coins_nHeight]; [| unfold zlen in *; now rewrite length_map | exact Hh].
  apply Forall_fmap; clear Hz; induction Hv as [| o l Ho _ IH]; constructor; auto; cbn.
  destruct (IsUnspendable (scriptPubKey o)); [reflexivity |].
  unfold txout_IsNull; destruct (Z.eqb_spec (nValue o) (-1)); [lia | discriminate].
Qed.

Definition clear_output (o : CTxOut) : CTxOut := if IsUnspendable (scriptPubKey o) then txout_SetNull else o.

Lemma clear_output_idem o : clear_output (clear_output o) = clear_output o.
Proof. unfold clear_output; destruct (IsUnspendable (scriptPubKey o)) eqn:E; [reflexivity | now rewrite E]. Qed.

Lemma ClearUnspendable_FromTx tx h : outputs_ok tx -> 0 < h < 2 ^ 31 -> ClearUnspendable (FromTx tx h) = FromTx tx h.
Proof.
  intros Ho Hh; unfold ClearUnspendable at 1; fold clear_output.
  assert (E : map clear_output (vout (FromTx tx h)) = vout (FromTx tx h)).
  { destruct (Cleanup_vout (set_vout (mkCoins (IsCoinBase tx) (tx_vout tx) h (tx_nVersion tx))
      (map clear_output (tx_vout tx)))) as (d & E & _); cbn [set_vout vout] in E.
    change (vout (Cleanup _)) with (vout (FromTx tx h)) in E.
    apply (f_equal (map clear_output)) in E as E'; rewrite map_map, map_app in E'.
    rewrite (map_ext _ clear_output clear_output_idem), E in E'.
    apply app_inj_1 in E' as [E' _]; [now symmetry | now rewrite length_map]. }
  rewrite E; destruct (coins_wf_FromTx tx h Ho Hh) as (Ht & _).
  destruct (FromTx tx h) eqn:Ef; apply Cleanup_trimmed; exact Ht.
Qed.

Lemma coins_eq_refl c : coins_eq c c = true.
Proof.
  unfold coins_eq; destruct (IsPruned c && IsPruned c); [reflexivity |].
  now rewrite Bool.eqb_reflx, !Z.eqb_refl, bool_decide_eq_true_2.
Qed.

Lemma IsPruned_ClearUnspendable c : IsPruned c = true -> IsPruned (ClearUnspendable c) = true.
Proof.
  intros Hp; unfold ClearUnspendable; rewrite IsPruned_Cleanup; unfold IsPruned in *; cbn [set_vout vout].
  rewrite forallb_forall in *; intros o Ho; apply in_map_iff in Ho as (o' & <- & Ho').
  destruct (IsUnspendable _); [reflexivity | auto].
Qed.

(** The outputs found when the transaction is disconnected are its own. *)
Lemma remove_outputs_ok {E} tx h cur :
  outputs_ok tx -> 0 < h < 2 ^ 31 -> canon cur = canon (FromTx tx h) ->
  remove_outputs (E := E) tx h cur = Ok (true, coins_Clear).
Proof.
  intros Ho Hh Hc; unfold remove_outputs; do 2 f_equal; unfold canon in Hc.
  destruct (IsPruned (FromTx tx h)) eqn:Ep.
  - assert (Hp : IsPruned (ClearUnspendable cur) = true)
      by (apply IsPruned_ClearUnspendable; now destruct (IsPruned cur)).
    unfold coins_eq; rewrite Ep; destruct (_ <? 0); unfold IsPruned in *; cbn [vout]; rewrite Hp; reflexivity.
  - destruct (IsPruned cur); [discriminate |]; injection Hc as ->; rewrite ClearUnspendable_FromTx by assumption.
    destruct (_ <? 0); [| apply coins_eq_refl]; destruct (FromTx tx h); apply coins_eq_refl.
Qed.

(** The transaction can be connected to the level: what the checks of
    [ConnectBlock] and [CheckTransaction] establish. *)
Record tx_ok (l : level) (txid : uint256) (tx : CTransaction) : Prop := {
  ok_import : IsCoinImport tx = false;
  ok_new : lv_coins l txid = None;
  ok_outputs : outputs_ok tx;
  ok_distinct : IsMint tx = false -> base.NoDup (prevouts tx);
  ok_inputs : IsMint tx = false -> Forall (available l) (prevouts tx);
  ok_nullifiers : forall t x, nf_type t ->
    x ∈ marked (sprout_nullifiers tx) (sapling_nullifiers tx) t -> lv_spent l t x = false;
}.

(** The specification of [UpdateCoins] on levels. *)
Definition next_level (l : level) (txid : uint256) (tx : CTransaction) (h : Z) : level :=
  set_tx (set_spent (if IsMint tx then l else spend_level l (prevouts tx)) tx true) txid (canon (FromTx tx h)).

Section Transaction.
Context {Tree : Type} `{AnchorTrees Tree, HashFunctions}.
Abbreviation cache := (CCoinsViewCache Tree).
Abbreviation view := (view Tree).
Abbreviation top := (cache * view)%type.
Abbreviation vtop v := (VCache v.1 v.2).

(** Disconnecting the transaction leads from views of [l'] to views of [l]. *)
Definition disconnects (txid : uint256) (tx : CTransaction) (undo : option CTxUndo) (h : Z) (l' l : level) : Prop :=
  forall (v : top) s, good (vtop v) (l' :: s) ->
  exists v', disconnect_tx v txid tx undo h = Ok (true, v') /\ frame v.1 v'.1 /\ good (vtop v') (l :: s).

Lemma good_marks (v : top) l s txid tx b :
  good (vtop v) (l :: s) ->
  let c := SetZkProofHashes (SetNullifiers v.1 tx b) txid tx b in
  frame v.1 c /\ good (VCache c v.2) (set_spent l tx b :: s).
Proof.
  intros Hg; cbv zeta; destruct (SetZkProofHashes_same (SetNullifiers v.1 tx b) txid tx b v.2) as [F S].
  split; [etransitivity; [apply frame_SetNullifiers | exact F] |].
  eapply good_same; [exact S |]; now apply good_SetNullifiers.
Qed.

Lemma unmark_level l l0 txid tx h :
  tx_ok l0 txid tx -> lv_coins l txid = None -> lv_spent l = lv_spent l0 ->
  level_eq (set_spent (set_tx (set_tx (set_spent l tx true) txid (canon (FromTx tx h))) txid None) tx false) l.
Proof.
  intros Hok Hn Hs; split; intros t; cbn [set_spent set_tx lv_coins lv_spent].
  - destruct (decide (t = txid)) as [-> |]; congruence.
  - intros x Ht; destruct (decide (x ∈ _)) as [Hin |]; [| reflexivity].
    rewrite Hs; symmetry; now apply (ok_nullifiers l0 txid tx Hok).
Qed.

Lemma UpdateCoins_ok {E} (v : top) l s txid tx h :
  good (vtop v) (l :: s) -> level_wf l -> tx_ok l txid tx -> 0 < h < 2 ^ 31 ->
  exists undo v', UpdateCoins (E := E) v txid tx h = Ok (undo, v') /\ frame v.1 v'.1 /\
    good (vtop v') (next_level l txid tx h :: s) /\ level_wf (next_level l txid tx h) /\
    disconnects txid tx (Some undo) h (next_level l txid tx h) l /\
    (IsMint tx = true -> disconnects txid tx None h (next_level l txid tx h) l).
Proof.
  intros Hg Hw Hok Hh; unfold UpdateCoins, next_level.
  set (l1 := if IsMint tx then l else spend_level l (prevouts tx)).
  assert (Hin : exists undo v1, (if negb (IsMint tx) then spend_inputs (E := E) v (prevouts tx) else Ok ([], v)) = Ok (undo, v1) /\
    frame v.1 v1.1 /\ good (vtop v1) (l1 :: s) /\ level_wf l1 /\ lv_coins l1 txid = None /\ lv_spent l1 = lv_spent l /\
    (IsMint tx = true -> l1 = l) /\
    (IsMint tx = false -> length undo = length (prevouts tx) /\ restores string undo (prevouts tx) l1 l)).
  { subst l1; pose proof (ok_new _ _ _ Hok) as Hnew; destruct (IsMint tx) eqn:Em; cbn [negb].
    - exists [], v; repeat (split; [auto; reflexivity |]); discriminate.
    - destruct (spend_inputs_ok (E := E) (E' := string) (prevouts tx) v l s Hg Hw
        (ok_distinct _ _ _ Hok Em) (ok_inputs _ _ _ Hok Em)) as (undo & v1 & E1 & F1 & L1 & G1 & W1 & R1).
      exists undo, v1; repeat (split; [assumption |]); split; [now apply spend_level_None |].
      split; [apply spend_level_spent |]; split; [discriminate | auto]. }
  destruct Hin as (undo & [c1 b1] & -> & F1 & G1 & W1 & N1 & S1 & M1 & R1); cbn [mbind res_bind]; clearbody l1.
  destruct (good_marks (c1, b1) l1 s txid tx true G1) as [F2 G2]; cbn [fst snd] in *.
  destruct (good_modify (E := E) _ b1 _ s txid (fun _ => FromTx tx h) G2) as (cur & c2 & b2 & _ & E2 & F3 & G3).
  pose proof (coins_wf_FromTx tx h (ok_outputs _ _ _ Hok) Hh) as Hfw.
  rewrite (Cleanup_trimmed _ (proj1 Hfw)) in G3.
  rewrite E2; cbn [mbind res_bind]; rewrite (ok_import _ _ _ Hok); cbn [mbind res_bind].
  exists undo, (c2, b2); split; [reflexivity |].
  split; [cbn; transitivity c1; [exact F1 |]; etransitivity; eassumption |]; split; [exact G3 |].
  split; [apply level_wf_set; [exact W1 | intros c'; apply canon_wf, Hfw] |].
  assert (Hdis : forall ou, (IsMint tx = false -> ou = Some undo) ->
    disconnects txid tx ou h (set_tx (set_spent l1 tx true) txid (canon (FromTx tx h))) l).
  { intros ou Hou v3 s3 G; unfold disconnect_tx.
    destruct (good_modify_with v3.1 v3.2 _ s3 txid (remove_outputs (E := string) tx h) G) as (cur' & Hcur & Hf).
    cbn [set_tx lv_coins] in Hcur; rewrite decide_True in Hcur by reflexivity.
    rewrite (remove_outputs_ok tx h cur' (ok_outputs _ _ _ Hok) Hh Hcur) in Hf.
    destruct Hf as (c4 & b4 & m & w & -> & -> & G4); cbn [mbind res_bind].
    destruct (good_marks (set_coins v3.1 m w, b4) _ s3 txid tx false G4) as [F5 G5]; cbn [fst snd] in F5, G5.
    apply (good_level_eq _ _ l1) in G5; [| now apply (unmark_level l1 l txid tx h)].
    assert (F6 : frame v3.1 (SetZkProofHashes (SetNullifiers (set_coins v3.1 m w) tx false) txid tx false))
      by (etransitivity; [apply frame_set_coins | exact F5]).
    set (c5 := SetZkProofHashes (SetNullifiers (set_coins v3.1 m w) tx false) txid tx false) in *; destruct (IsMint tx) eqn:Em; cbn [negb].
    - rewrite (ok_import _ _ _ Hok); rewrite (M1 eq_refl) in G5; exists (c5, b4); auto.
    - rewrite (Hou eq_refl); destruct (R1 eq_refl) as [Hl R].
      assert ((zlen undo =? zlen (tx_vin tx)) = true) as ->.
      { apply Z.eqb_eq; unfold zlen; rewrite Hl; unfold prevouts; now rewrite length_map. }
      cbn [negb]; destruct (R (c5, b4) s3 true G5) as (v6 & E6 & F7 & G6).
      exists v6; split; [exact E6 |]; split; [now transitivity c5 | exact G6]. }
  split; [now apply Hdis | intros Em; apply Hdis; congruence].
Qed.
End Transaction.
