(* ===== verification/TxCheck.v ===== *)
(** * Checks of a single transaction

    main.cpp: CheckTransaction and CheckTransactionWithoutProofVerification,
    IsFinalTx, IsExpiredTx, GetLegacySigOpCount; consensus/validation.h; the
    season and privacy rules they consult.  The globals that describe the chain
    are the class [ChainParams]; a transaction comes with its hash. *)
From stdpp Require Import strings.
From S2P Require Import Prelude Endian Hashing Merkle Script Serialize Transaction.

(** ** Validation state *)

Inductive mode_state := MODE_VALID | MODE_INVALID | MODE_ERROR.

Record CValidationState := mkState {
  mode : mode_state; nDoS : Z; strRejectReason : string; chRejectCode : Z; corruptionPossible : bool }.

Definition new_state : CValidationState := mkState MODE_VALID 0 "" 0 false.

Definition REJECT_INVALID : Z := 16.

(** [DoS]; it returns its argument [ret], which is false at every call. *)
Definition state_DoS (st : CValidationState) (level chRejectCodeIn : Z) (strRejectReasonIn : string)
    (corruptionIn : bool) : CValidationState :=
  match mode st with
  | MODE_ERROR => mkState MODE_ERROR (nDoS st) strRejectReasonIn chRejectCodeIn corruptionIn
  | _ => mkState MODE_INVALID (i32 (nDoS st + level)) strRejectReasonIn chRejectCodeIn corruptionIn
  end.

Definition state_Invalid (st : CValidationState) (code : Z) (reason : string) : CValidationState :=
  state_DoS st 0 code reason false.

Definition state_Error (st : CValidationState) (reason : string) : CValidationState :=
  mkState MODE_ERROR (nDoS st)
    (match mode st with MODE_VALID => reason | _ => strRejectReason st end) (chRejectCode st) (corruptionPossible st).

(** A rejection, [return state.DoS(level, false, code, reason)]. *)
Record reject := mkReject { rj_level : Z; rj_code : Z; rj_reason : string }.

Definition DoS (level : Z) (reason : string) : reject := mkReject level REJECT_INVALID reason.

(** [if (b) return state.DoS(...)]. *)
Definition reject_if (b : bool) (r : reject) : res reject unit := if b then Err r else Ok tt.

(** The returned boolean and the state, of a check that rejects or succeeds. *)
Definition run_check (m : res reject unit) (st : CValidationState) : res unit (bool * CValidationState) :=
  match m with
  | Ok _ => Ok (true, st)
  | Err r => Ok (false, state_DoS st (rj_level r) (rj_code r) (rj_reason r) false)
  | Exn x => Exn x
  end.

(** ** The chain *)

(** Start-up parameters and the tip; [isnotaryvout] is komodo_isnotaryvout on
    the address of a script. *)
Class ChainParams := {
  ASSETCHAINS_PRIVATE : Z;
  ASSETCHAINS_PUBLIC : Z;
  ASSETCHAINS_TXPOW : Z;
  isKMD : bool;
  isZEX : bool;
  tip_nTime : option Z;
  tip_nHeight : Z;
  isnotaryvout : list Z -> Z -> bool;
}.

Definition KOMODO_SAPLING_DEADLINE : Z := 1550188800.
Definition nStakedDecemberHardforkTimestamp : Z := 1576840000.
Definition nDecemberHardforkHeight : Z := 1670000.
Definition KMD_SEASON_TIMESTAMPS : list Z :=
  [1525132800; 1563148800; 1576840000; 1592146800; 1623682800; 1656077853; 1688132253; 1951328000].
Definition KMD_SEASON_HEIGHTS : list Z :=
  [814000; 1444000; 1670000; 1922000; 2437300; 2963330; 3484958; 8113400].

(** The loop of [getkmdseason] and [getacseason], from the entry after [prev]. *)
Fixpoint season_loop (x prev : Z) (l : list Z) (i : Z) : Z :=
  match l with
  | [] => 0
  | t :: l => if (x <=? t) && (prev <? x) then i + 1 else season_loop x t l (i + 1)
  end.

Definition season (table : list Z) (x : Z) : Z :=
  match table with
  | [] => 0
  | t :: l => if x <=? t then 1 else season_loop x t l 1
  end.

Definition getkmdseason (height : Z) : Z := season KMD_SEASON_HEIGHTS height.
Definition getacseason (timestamp : Z) : Z := season KMD_SEASON_TIMESTAMPS timestamp.

Section Checks.
Context `{ChainParams, MoneyLimit, HashFunctions, Layout}.

Definition komodo_acpublic (tiptime : Z) : Z :=
  if ASSETCHAINS_PUBLIC =? 0 then
    let tiptime := if tiptime =? 0 then default tiptime tip_nTime else tiptime in
    if (isKMD || isZEX) && (KOMODO_SAPLING_DEADLINE <=? tiptime) then 1 else ASSETCHAINS_PUBLIC
  else ASSETCHAINS_PUBLIC.

Definition komodo_hardfork_active (time : Z) : bool :=
  (isKMD && (nDecemberHardforkHeight <? tip_nHeight))
  || (negb isKMD && (nStakedDecemberHardforkTimestamp <? time)).

(** ** CheckTransactionWithoutProofVerification *)

Definition MAX_TX_SIZE_AFTER_SAPLING : Z := 200000.
Definition TX_EXPIRY_HEIGHT_THRESHOLD : Z := 500000000.
Definition IGUANA_MAXSCRIPTSIZE : Z := 10001.

Definition empty_list {A} (l : list A) : bool := match l with [] => true | _ => false end.

(** [GetSerializeSize(tx, ...)]. *)
Definition GetSerializeSize {E} (tx : CTransaction) : res E Z :=
  match tx_Serialize tx with Ok d => Ok (zlen d) | Err _ => Exn ios_failure | Exn x => Exn x end.

Definition check_version (tx : CTransaction) : res reject unit :=
  if negb (fOverwintered tx) && (tx_nVersion tx <? 1) then Err (DoS 100 "bad-txns-version-too-low")
  else if fOverwintered tx then
    _ ← reject_if (tx_nVersion tx <? 3) (DoS 100 "bad-tx-overwinter-version-too-low");
    _ ← reject_if (negb (nVersionGroupId tx =? OVERWINTER_VERSION_GROUP_ID)
                   && negb (nVersionGroupId tx =? SAPLING_VERSION_GROUP_ID)) (DoS 100 "bad-tx-version-group-id");
    reject_if (TX_EXPIRY_HEIGHT_THRESHOLD <=? nExpiryHeight tx) (DoS 100 "bad-tx-expiry-height-too-high")
  else Ok tt.

Definition check_size (tx : CTransaction) : res reject unit :=
  _ ← reject_if (empty_list (tx_vin tx) && empty_list (vjoinsplit tx) && empty_list (vShieldedSpend tx))
        (DoS 10 "bad-txns-vin-empty");
  _ ← reject_if (empty_list (tx_vout tx) && empty_list (vjoinsplit tx) && empty_list (vShieldedOutput tx))
        (DoS 10 "bad-txns-vout-empty");
  size ← GetSerializeSize tx;
  reject_if (MAX_TX_SIZE_AFTER_SAPLING <? size) (DoS 100 "bad-txns-oversize").

(** An output that a private chain does not allow. *)
Definition invalid_taddr (tiptime : Z) (iscoinbase : bool) (o : CTxOut) : bool :=
  negb (ASSETCHAINS_PRIVATE =? 0) && negb iscoinbase && (0 <? nValue o)
  && negb (isnotaryvout (scriptPubKey o) tiptime).

(** The loop over the outputs: [nValueOut] and [invalid_private_taddr]. *)
Fixpoint check_outputs (tiptime : Z) (iscoinbase : bool) (l : list CTxOut) (nValueOut : Z) (invalid : bool)
    : res reject (Z * bool) :=
  match l with
  | [] => Ok (nValueOut, invalid)
  | o :: l =>
      _ ← reject_if (nValue o <? 0) (DoS 100 "bad-txns-vout-negative");
      _ ← reject_if (MAX_MONEY <? nValue o) (DoS 100 "bad-txns-vout-toolarge");
      let invalid := invalid_taddr tiptime iscoinbase o || invalid in
      _ ← reject_if (IGUANA_MAXSCRIPTSIZE <? zlen (scriptPubKey o)) (DoS 100 "bad-txns-opret-too-big");
      let nValueOut := i64 (nValueOut + nValue o) in
      _ ← reject_if (negb (MoneyRange nValueOut)) (DoS 100 "bad-txns-txouttotal-toolarge");
      check_outputs tiptime iscoinbase l nValueOut invalid
  end.

(** The swap script that a private chain lets through from season 6 on. *)
Definition reveals_swap (tiptime : Z) (tx : CTransaction) : bool :=
  (5 <? getacseason tiptime) && (zlen (tx_vin tx) =? 0)
  && match tx_vout tx with
     | [o1; o2] => IsPayToScriptHash (scriptPubKey o1) && IsRedeemScriptReveal (scriptPubKey o1) (scriptPubKey o2)
     | _ => false
     end.

(** The Sapling value balance: [nValueOut] and [invalid_private_taddr] afterwards. *)
Definition check_balance (tiptime acpublic : Z) (tx : CTransaction) (nValueOut : Z) (invalid : bool)
    : res reject (Z * bool) :=
  let no_spend := empty_list (vShieldedSpend tx) in
  let no_output := empty_list (vShieldedOutput tx) in
  _ ← reject_if (no_spend && no_output && negb (valueBalance tx =? 0)) (DoS 100 "bad-txns-valuebalance-nonzero");
  _ ← reject_if (negb (acpublic =? 0) && (negb no_spend || negb no_output)) (DoS 100 "bad-txns-acpublic-chain");
  let private := negb (ASSETCHAINS_PRIVATE =? 0) && invalid && negb no_spend in
  _ ← reject_if (private && negb (reveals_swap tiptime tx)) (DoS 100 "bad-txns-acprivate-chain");
  let invalid := if private then false else invalid in
  _ ← reject_if ((MAX_MONEY <? valueBalance tx) || (valueBalance tx <? - MAX_MONEY))
        (DoS 100 "bad-txns-valuebalance-toolarge");
  if valueBalance tx <=? 0 then
    let nValueOut := i64 (nValueOut + i64 (- valueBalance tx)) in
    _ ← reject_if (negb (MoneyRange nValueOut)) (DoS 100 "bad-txns-txouttotal-toolarge");
    Ok (nValueOut, invalid)
  else Ok (nValueOut, invalid).

(** The counters of the join-splits: shielded only, shielding, unshielding. *)
Record js_counts := mkCounts { z_z : Z; t_z : Z; z_t : Z }.

Definition count_js (n : js_counts) (js : JSDescription) : js_counts :=
  if (vpub_new js =? 0) && (vpub_old js =? 0) then mkCounts (z_z n + 1) (t_z n) (z_t n)
  else if (vpub_new js =? 0) && negb (vpub_old js =? 0) then mkCounts (z_z n) (t_z n + 1) (z_t n)
  else if negb (vpub_new js =? 0) && (vpub_old js =? 0) then mkCounts (z_z n) (t_z n) (z_t n + 1)
  else n.

Fixpoint check_joinsplits (tiptime acpublic : Z) (l : list JSDescription) (nValueOut : Z) (n : js_counts)
    : res reject js_counts :=
  match l with
  | [] => Ok n
  | js :: l =>
      _ ← reject_if (negb (acpublic =? 0)) (DoS 100 "bad-txns-acpublic-chain");
      _ ← reject_if (KOMODO_SAPLING_DEADLINE <=? tiptime) (DoS 100 "bad-txns-sprout-expired");
      _ ← reject_if (vpub_old js <? 0) (DoS 100 "bad-txns-vpub_old-negative");
      _ ← reject_if (vpub_new js <? 0) (DoS 100 "bad-txns-vpub_new-negative");
      _ ← reject_if (MAX_MONEY <? vpub_old js) (DoS 100 "bad-txns-vpub_old-toolarge");
      _ ← reject_if (MAX_MONEY <? vpub_new js) (DoS 100 "bad-txns-vpub_new-toolarge");
      _ ← reject_if (negb (vpub_new js =? 0) && negb (vpub_old js =? 0)) (DoS 100 "bad-txns-vpubs-both-nonzero");
      let nValueOut := i64 (nValueOut + vpub_old js) in
      _ ← reject_if (negb (MoneyRange nValueOut)) (DoS 100 "bad-txns-txouttotal-toolarge");
      check_joinsplits tiptime acpublic l nValueOut (count_js n js)
  end.

(** A private chain allows other outputs only from join-splits. *)
Definition check_private (tx : CTransaction) (invalid : bool) (n : js_counts) : res reject unit :=
  reject_if (negb (ASSETCHAINS_PRIVATE =? 0) && invalid
             && ((z_t n =? 0) || negb (z_z n =? 0) || negb (t_z n =? 0) || negb (zlen (tx_vin tx) =? 0)))
    (DoS 100 "bad-txns-acprivacy-chain").

(** uint256S("4a5e1e4baab89f3a32518a88c31bc87f618f76673e2cc77ab2127b7afdeda33b"). *)
Definition genesistxid : uint256 :=
  [0x3b; 0xa3; 0xed; 0xfd; 0x7a; 0x7b; 0x12; 0xb2; 0x7a; 0xc7; 0x2c; 0x3e; 0x67; 0x76; 0x8f; 0x61;
   0x7f; 0xc8; 0x1b; 0xc3; 0x88; 0x8a; 0x51; 0x32; 0x3a; 0x9f; 0xb8; 0xaa; 0x4b; 0x1e; 0x5e; 0x4a].

Definition check_txpow (txid : uint256) (iscoinbase : bool) : res reject unit :=
  reject_if (negb (ASSETCHAINS_TXPOW =? 0)
             && ((negb (Z.land ASSETCHAINS_TXPOW 2 =? 0) && iscoinbase)
                 || (negb (Z.land ASSETCHAINS_TXPOW 1 =? 0) && negb iscoinbase))
             && (negb (at_ txid 0 =? 0) || negb (at_ txid 31 =? 0))
             && negb (bool_decide (txid = genesistxid)))
    (DoS 100 "bad-txns-actxpow-chain").

(** What the shielded parts claim to add. *)
Fixpoint check_value_in (l : list JSDescription) (nValueIn : Z) : res reject Z :=
  match l with
  | [] => Ok nValueIn
  | js :: l =>
      let nValueIn := i64 (nValueIn + vpub_new js) in
      _ ← reject_if (negb (MoneyRange (vpub_new js)) || negb (MoneyRange nValueIn))
            (DoS 100 "bad-txns-txintotal-toolarge");
      check_value_in l nValueIn
  end.

Definition check_inputs_total (tx : CTransaction) : res reject unit :=
  nValueIn ← check_value_in (vjoinsplit tx) 0;
  if 0 <=? valueBalance tx then
    reject_if (negb (MoneyRange (i64 (nValueIn + valueBalance tx)))) (DoS 100 "bad-txns-txintotal-toolarge")
  else Ok tt.

(** A loop that inserts in a set and stops at an element already there. *)
Fixpoint duplicate {A} `{EqDecision A} (seen l : list A) : bool :=
  match l with
  | [] => false
  | x :: l => if bool_decide (x ∈ seen) then true else duplicate (x :: seen) l
  end.

Definition check_duplicates (tx : CTransaction) : res reject unit :=
  _ ← reject_if (duplicate [] (map prevout (tx_vin tx))) (DoS 100 "bad-txns-inputs-duplicate");
  _ ← reject_if (duplicate [] (concat (map js_nullifiers (vjoinsplit tx))))
        (DoS 100 "bad-joinsplits-nullifiers-duplicate");
  reject_if (duplicate [] (map sp_nullifier (vShieldedSpend tx)))
    (DoS 100 "bad-spend-description-nullifiers-duplicate").

(** The rules for coinbases and imports, and for the others. *)
Definition check_mint (tx : CTransaction) : res reject unit :=
  if IsMint tx then
    _ ← reject_if (0 <? zlen (vjoinsplit tx)) (DoS 100 "bad-cb-has-joinsplits");
    _ ← reject_if (0 <? zlen (vShieldedSpend tx)) (DoS 100 "bad-cb-has-spend-description");
    _ ← reject_if (0 <? zlen (vShieldedOutput tx)) (DoS 100 "bad-cb-has-output-description");
    match tx_vin tx with
    | i :: _ => reject_if ((zlen (scriptSig i) <? 2) || (100 <? zlen (scriptSig i))) (DoS 100 "bad-cb-length")
    | [] => Exn oob_read
    end
  else reject_if (existsb (fun i => outpoint_IsNull (prevout i)) (tx_vin tx)) (DoS 10 "bad-txns-prevout-null").

Definition CheckTransactionWithoutProofVerification (tiptime : Z) (txid : uint256) (tx : CTransaction)
    : res reject unit :=
  let acpublic := komodo_acpublic tiptime in
  _ ← check_version tx;
  _ ← check_size tx;
  '(nValueOut, invalid) ← check_outputs tiptime (IsCoinBase tx) (tx_vout tx) 0 false;
  '(nValueOut, invalid) ← check_balance tiptime acpublic tx nValueOut invalid;
  counts ← check_joinsplits tiptime acpublic (vjoinsplit tx) nValueOut (mkCounts 0 0 0);
  _ ← check_private tx invalid counts;
  _ ← check_txpow txid (IsCoinBase tx);
  _ ← check_inputs_total tx;
  _ ← check_duplicates tx;
  check_mint tx.

(** ** CheckTransaction *)

(** What it consults besides: the banned outpoints of the KMD chain, the
    staking rule and the proof verifier. *)
Class TxEnvironment := {
  banned : COutPoint -> bool;
  ASSETCHAINS_STAKED : Z;
  newStakerActive : Z -> bool;
  DecodeStakingOpRet : list Z -> bool;
  VerifySprout : JSDescription -> uint256 -> bool;
}.

(** [None] is the return without a rejection. *)
Definition CheckTransaction `{TxEnvironment} (tiptime : Z) (txid : uint256) (tx : CTransaction)
    (txIndex numTxs : Z) : res (option reject) unit :=
  if isKMD && existsb (fun i => banned (prevout i)) (tx_vin tx) then Err None
  else if negb (ASSETCHAINS_STAKED =? 0) && newStakerActive tiptime
       && match tx_vout tx with [_; o] => DecodeStakingOpRet (scriptPubKey o) | _ => false end
       && ((numTxs =? 0) || negb (txIndex =? numTxs - 1))
  then Err (Some (DoS 100 "bad-txns-stakingtx"))
  else
    match CheckTransactionWithoutProofVerification tiptime txid tx with
    | Err r => Err (Some r)
    | Exn x => Exn x
    | Ok _ =>
        if forallb (fun js => VerifySprout js (joinSplitPubKey tx)) (vjoinsplit tx) then Ok tt
        else Err (Some (DoS 100 "bad-txns-joinsplit-verification-failed"))
    end.

(** ** Finality and expiry *)

(** The two empty branches of the loop. *)
Definition sequence_exempt (tx : CTransaction) (i : CTxIn) (nBlockHeight nBlockTime : Z) : bool :=
  let lock := nLockTime tx in
  let active := komodo_hardfork_active (u32 nBlockTime) in
  (negb active && (nSequence i =? 4294967294)
   && (((LOCKTIME_THRESHOLD <=? lock) && (nBlockTime <? lock))
       || ((lock <? LOCKTIME_THRESHOLD) && (nBlockHeight <? lock))))
  || (active && (nSequence i =? 4294967294)
      && (((LOCKTIME_THRESHOLD <=? lock) && (lock <=? nBlockTime))
          || ((lock <? LOCKTIME_THRESHOLD) && (lock <=? nBlockHeight)))).

Definition IsFinalTx (tx : CTransaction) (nBlockHeight nBlockTime : Z) : bool :=
  if nLockTime tx =? 0 then true
  else if nLockTime tx <? (if nLockTime tx <? LOCKTIME_THRESHOLD then nBlockHeight else nBlockTime) then true
  else forallb (fun i => sequence_exempt tx i nBlockHeight nBlockTime || txin_IsFinal i) (tx_vin tx).

Definition IsExpiredTx (tx : CTransaction) (nBlockHeight : Z) : bool :=
  if (nExpiryHeight tx =? 0) || IsCoinBase tx then false else nExpiryHeight tx <? u32 nBlockHeight.

(** ** Signature operations *)

Definition GetLegacySigOpCount (tx : CTransaction) : Z :=
  let n := fold_left (fun n i => u32 (n + GetSigOpCount (scriptSig i) false)) (tx_vin tx) 0 in
  fold_left (fun n o => u32 (n + GetSigOpCount (scriptPubKey o) false)) (tx_vout tx) n.
End Checks.
