(* ===== verification/TxCheckSpec.v ===== *)
(** * What the transaction checks accept

    CheckTransactionWithoutProofVerification accepts exactly the transactions
    that satisfy a list of declarative conditions; finality. *)
From stdpp Require Import strings.
From S2P Require Import Prelude Endian Hashing Merkle Script Serialize Transaction TransactionSpec TxCheck.

(** ** Sequences of rejections *)

Lemma reject_if_ok b r x : reject_if b r = Ok x <-> b = false /\ x = tt.
Proof. destruct b, x; cbn; split; try easy; now intros [? _]. Qed.

Lemma reject_then {A} b r (k : res reject A) x :
  (reject_if b r ≫= fun _ => k) = Ok x <-> b = false /\ k = Ok x.
Proof. destruct b; cbn; split; try easy; now intros [? _]. Qed.

Lemma bind_ok {E A B} (m : res E A) (f : A -> res E B) x :
  (m ≫= f) = Ok x <-> exists a, m = Ok a /\ f a = Ok x.
Proof.
  destruct m as [a | |]; cbn; split; try easy; eauto; try (intros (? & ? & ?); congruence).
Qed.

Lemma empty_list_true {A} (l : list A) : empty_list l = true <-> l = [].
Proof. destruct l; cbn; split; easy. Qed.

Lemma duplicate_NoDup {A} `{EqDecision A} (l : list A) : forall seen,
  duplicate seen l = false <-> base.NoDup l /\ forall x, x ∈ l -> x ∉ seen.
Proof.
  induction l as [| a l IH]; intros seen; cbn [duplicate].
  { split; [intros _; split; [constructor | intros x Hx; now apply not_elem_of_nil in Hx] | reflexivity]. }
  case_bool_decide as Ha.
  - split; [discriminate |]; intros [_ Hd]; exfalso; exact (Hd a (list_elem_of_here _ _) Ha).
  - rewrite IH, list.NoDup_cons; split.
    + intros [Hn Hd]; split; [split; [| exact Hn] |].
      * intros Hin; exact (Hd a Hin (list_elem_of_here _ _)).
      * intros x Hx; apply elem_of_cons in Hx as [-> | Hx]; [exact Ha |].
        intros Hs; exact (Hd x Hx (list_elem_of_further _ _ _ Hs)).
    + intros [[Hn1 Hn2] Hd]; split; [exact Hn2 |]; intros x Hx Hs; apply elem_of_cons in Hs as [-> | Hs]; [contradiction |].
      exact (Hd x (list_elem_of_further _ _ _ Hx) Hs).
Qed.

Lemma no_duplicate {A} `{EqDecision A} (l : list A) : duplicate [] l = false <-> base.NoDup l.
Proof.
  rewrite duplicate_NoDup; split; [now intros [? _] |]; intros Hn; split; [exact Hn |].
  intros x _; apply not_elem_of_nil.
Qed.

Section Spec.
Context `{ChainParams, MoneyLimit, HashFunctions, Layout} `{!MoneyLimitOk H0}.

(** ** The loops *)

Definition output_ok (o : CTxOut) : Prop :=
  0 <= nValue o <= MAX_MONEY /\ zlen (scriptPubKey o) <= IGUANA_MAXSCRIPTSIZE.

Lemma check_outputs_ok tiptime cb l : forall n inv r,
  0 <= n <= MAX_MONEY ->
  check_outputs tiptime cb l n inv = Ok r <->
  Forall output_ok l /\ n + zsum (map nValue l) <= MAX_MONEY /\
  r = (n + zsum (map nValue l), existsb (invalid_taddr tiptime cb) l || inv).
Proof.
  pose proof money_limit as Hm; induction l as [| o l IH]; intros n inv r Hn; cbn [check_outputs map zsum fold_right existsb].
  { rewrite Z.add_0_r; split; [intros [= <-]; repeat split; [constructor | lia] | now intros (_ & _ & ->)]. }
  rewrite !reject_then, !Z.ltb_ge; cbv zeta; split.
  - intros (H0' & H1' & H2' & Hr & Hk); rewrite swrap_small in Hr, Hk by lia.
    apply negb_false_iff, MoneyRange_iff in Hr; apply IH in Hk as (Hf & Hs & ->); [| exact Hr]; unfold zsum in *.
    split; [constructor; [split; lia | exact Hf] |]; split; [lia |].
    f_equal; [lia |]; now rewrite !orb_assoc, (orb_comm (existsb _ _)).
  - intros (Hf & Hs & ->); apply Forall_cons_1 in Hf as [[Hv Hz] Hf]; rewrite swrap_small by lia.
    assert (Hp : 0 <= zsum (map nValue l)).
    { apply zsum_nonneg, Forall_fmap; eapply Forall_impl; [| exact Hf]; intros x [[? _] _]; exact H3. }
    unfold zsum in *; assert (Hr : MoneyRange (n + nValue o) = true) by (apply MoneyRange_iff; lia).
    rewrite Hr; repeat split; try lia; apply IH; [apply MoneyRange_iff, Hr |]; unfold zsum; split; [exact Hf |].
    split; [lia |]; f_equal; [lia |]; now rewrite !orb_assoc, (orb_comm (existsb _ _)).
Qed.

Definition joinsplit_ok (js : JSDescription) : Prop :=
  0 <= vpub_old js <= MAX_MONEY /\ 0 <= vpub_new js <= MAX_MONEY /\ (vpub_new js = 0 \/ vpub_old js = 0).

Lemma joinsplits_nonneg l :
  Forall joinsplit_ok l -> 0 <= zsum (map vpub_old l) /\ 0 <= zsum (map vpub_new l).
Proof.
  intros Hf; split; apply zsum_nonneg, Forall_fmap; (eapply Forall_impl; [| exact Hf]);
    intros x (? & ? & _); unfold compose; lia.
Qed.

Lemma check_joinsplits_ok tiptime pub l : forall n c r,
  0 <= n <= MAX_MONEY ->
  check_joinsplits tiptime pub l n c = Ok r <->
  (l <> [] -> pub = 0 /\ tiptime < KOMODO_SAPLING_DEADLINE) /\ Forall joinsplit_ok l /\
  n + zsum (map vpub_old l) <= MAX_MONEY /\ r = fold_left count_js l c.
Proof.
  pose proof money_limit as Hm; induction l as [| js l IH]; intros n c r Hn; cbn [check_joinsplits map zsum fold_right fold_left].
  { rewrite Z.add_0_r; split; [intros [= <-]; repeat split; try easy; lia | now intros (_ & _ & _ & ->)]. }
  rewrite !reject_then, !negb_false_iff, !Z.ltb_ge, Z.leb_gt, Z.eqb_eq; cbv zeta; split.
  - intros (Hp & Ht & Ho & Hw & Ho' & Hw' & Hb & Hr & Hk); rewrite swrap_small in Hr, Hk by lia.
    apply MoneyRange_iff in Hr; apply IH in Hk as (_ & Hf & Hs & ->); [| exact Hr]; unfold zsum in *.
    split; [auto |]; split; [| split; [lia | reflexivity]]; constructor; [| exact Hf].
    split; [lia |]; split; [lia |]; destruct (Z.eqb_spec (vpub_new js) 0); [now left |].
    destruct (Z.eqb_spec (vpub_old js) 0); [now right | discriminate].
  - intros (Hp & Hf & Hs & ->); destruct (Hp ltac:(discriminate)) as [Hp1 Hp2].
    apply Forall_cons_1 in Hf as [(Ho & Hw & Hb) Hf]; destruct (joinsplits_nonneg l Hf) as [Hq _]; unfold zsum in *.
    rewrite swrap_small by lia.
    assert (Hr : MoneyRange (n + vpub_old js) = true) by (apply MoneyRange_iff; lia).
    rewrite Hr; repeat split; try lia.
    apply IH; [apply MoneyRange_iff, Hr |]; unfold zsum; repeat split; auto; lia.
Qed.

Lemma check_value_in_ok l : forall n r,
  0 <= n <= MAX_MONEY -> Forall is_i64 (map vpub_new l) ->
  check_value_in l n = Ok r <->
  Forall (fun x => 0 <= x) (map vpub_new l) /\ n + zsum (map vpub_new l) <= MAX_MONEY /\ r = n + zsum (map vpub_new l).
Proof.
  pose proof money_limit as Hm; induction l as [| js l IH]; intros n r Hn Hi; cbn [check_value_in map zsum fold_right].
  { rewrite Z.add_0_r; split; [intros [= <-]; repeat split; [constructor | lia] | now intros (_ & _ & ->)]. }
  apply Forall_cons_1 in Hi as [Hi Hl]; unfold is_i64 in Hi.
  rewrite reject_then, orb_false_iff, !negb_false_iff, MoneyRange_iff; cbv zeta; split.
  - intros ((Hj & Hr) & Hk); rewrite swrap_small in Hr, Hk by lia; apply MoneyRange_iff in Hr.
    apply IH in Hk as (Hf & Hs & ->); [| exact Hr | exact Hl]; unfold zsum in *.
    split; [constructor; [lia | exact Hf] | split; lia].
  - intros (Hf & Hs & ->); apply Forall_cons_1 in Hf as [Hf0 Hf]; pose proof (zsum_nonneg _ Hf); unfold zsum in *.
    rewrite swrap_small by lia; assert (Hr : MoneyRange (n + vpub_new js) = true) by (apply MoneyRange_iff; lia).
    rewrite Hr; repeat split; try lia.
    apply IH; [apply MoneyRange_iff, Hr | exact Hl |]; unfold zsum; repeat split; [exact Hf | lia..].
Qed.

(** ** The conditions *)

(** The outputs a private chain does not allow, and the way out of season 6. *)
Definition taddr_found (tiptime : Z) (tx : CTransaction) : bool :=
  existsb (invalid_taddr tiptime (IsCoinBase tx)) (tx_vout tx).

Definition js_totals (tx : CTransaction) : js_counts := fold_left count_js (vjoinsplit tx) (mkCounts 0 0 0).

(** Only join-splits that unshield, and no transparent inputs. *)
Definition only_unshields (tx : CTransaction) : Prop :=
  z_t (js_totals tx) <> 0 /\ z_z (js_totals tx) = 0 /\ t_z (js_totals tx) = 0 /\ tx_vin tx = [].

(** The same without the code's counters and tests: a transparent output that is
    not a notary's, a swap script revealed by a shielded spend, join-splits that
    all unshield, and the proof of work of an identifier. *)
Definition pays_transparently (tiptime : Z) (tx : CTransaction) : Prop :=
  IsCoinBase tx = false /\ exists o, o ∈ tx_vout tx /\ 0 < nValue o /\ isnotaryvout (scriptPubKey o) tiptime = false.

Definition swap_revealed (tiptime : Z) (tx : CTransaction) : Prop :=
  5 < getacseason tiptime /\ tx_vin tx = [] /\
  exists o1 o2, tx_vout tx = [o1; o2] /\ IsPayToScriptHash (scriptPubKey o1) = true /\
    IsRedeemScriptReveal (scriptPubKey o1) (scriptPubKey o2) = true.

Definition all_unshield (tx : CTransaction) : Prop :=
  tx_vin tx = [] /\ vjoinsplit tx <> [] /\ Forall (fun js => vpub_new js <> 0) (vjoinsplit tx).

Definition txpow_ok (txid : uint256) (tx : CTransaction) : Prop :=
  Z.testbit ASSETCHAINS_TXPOW (if IsCoinBase tx then 1 else 0) = true ->
  at_ txid 0 = 0 /\ at_ txid 31 = 0 \/ txid = genesistxid.

Record acceptable (tiptime : Z) (txid : uint256) (tx : CTransaction) : Prop := {
  ac_version : if fOverwintered tx
    then 3 <= tx_nVersion tx /\
         (nVersionGroupId tx = OVERWINTER_VERSION_GROUP_ID \/ nVersionGroupId tx = SAPLING_VERSION_GROUP_ID) /\
         nExpiryHeight tx < TX_EXPIRY_HEIGHT_THRESHOLD
    else 1 <= tx_nVersion tx;
  ac_has_input : tx_vin tx <> [] \/ vjoinsplit tx <> [] \/ vShieldedSpend tx <> [];
  ac_has_output : tx_vout tx <> [] \/ vjoinsplit tx <> [] \/ vShieldedOutput tx <> [];
  ac_size : exists d, tx_Serialize tx = Ok d /\ zlen d <= MAX_TX_SIZE_AFTER_SAPLING;
  ac_outputs : Forall output_ok (tx_vout tx);
  ac_joinsplits : Forall joinsplit_ok (vjoinsplit tx);
  ac_value_out : value_out tx <= MAX_MONEY;
  ac_value_in : shielded_value_in tx <= MAX_MONEY;
  ac_balance : vShieldedSpend tx = [] -> vShieldedOutput tx = [] -> valueBalance tx = 0;
  ac_public : komodo_acpublic tiptime <> 0 ->
    vShieldedSpend tx = [] /\ vShieldedOutput tx = [] /\ vjoinsplit tx = [];
  ac_sprout : vjoinsplit tx <> [] -> tiptime < KOMODO_SAPLING_DEADLINE;
  ac_private : ASSETCHAINS_PRIVATE <> 0 -> pays_transparently tiptime tx ->
    (vShieldedSpend tx <> [] -> swap_revealed tiptime tx) /\
    (vShieldedSpend tx = [] -> all_unshield tx);
  ac_txpow : txpow_ok txid tx;
  ac_inputs_distinct : base.NoDup (map prevout (tx_vin tx));
  ac_sprout_nullifiers : base.NoDup (concat (map js_nullifiers (vjoinsplit tx)));
  ac_sapling_nullifiers : base.NoDup (map sp_nullifier (vShieldedSpend tx));
  ac_mint : IsMint tx = true ->
    vjoinsplit tx = [] /\ vShieldedSpend tx = [] /\ vShieldedOutput tx = [] /\
    exists i l, tx_vin tx = i :: l /\ 2 <= zlen (scriptSig i) <= 100;
  ac_not_mint : IsMint tx = false -> Forall (fun i => outpoint_IsNull (prevout i) = false) (tx_vin tx);
}.

Lemma check_version_ok tx x : check_version tx = Ok x <->
  if fOverwintered tx
  then 3 <= tx_nVersion tx /\
       (nVersionGroupId tx = OVERWINTER_VERSION_GROUP_ID \/ nVersionGroupId tx = SAPLING_VERSION_GROUP_ID) /\
       nExpiryHeight tx < TX_EXPIRY_HEIGHT_THRESHOLD
  else 1 <= tx_nVersion tx.
Proof.
  unfold check_version; destruct (fOverwintered tx); cbn [negb andb].
  - rewrite !reject_then, reject_if_ok, Z.ltb_ge, Z.leb_gt; destruct x.
    destruct (Z.eqb_spec (nVersionGroupId tx) OVERWINTER_VERSION_GROUP_ID),
      (Z.eqb_spec (nVersionGroupId tx) SAPLING_VERSION_GROUP_ID); cbn; intuition congruence.
  - destruct (Z.ltb_spec (tx_nVersion tx) 1), x; split; easy || lia.
Qed.

Lemma empty3 {A B C} (a : list A) (b : list B) (c : list C) :
  empty_list a && empty_list b && empty_list c = false <-> a <> [] \/ b <> [] \/ c <> [].
Proof. destruct a, b, c; cbn; intuition congruence. Qed.

Lemma check_size_ok tx x : check_size tx = Ok x <->
  (tx_vin tx <> [] \/ vjoinsplit tx <> [] \/ vShieldedSpend tx <> []) /\
  (tx_vout tx <> [] \/ vjoinsplit tx <> [] \/ vShieldedOutput tx <> []) /\
  exists d, tx_Serialize tx = Ok d /\ zlen d <= MAX_TX_SIZE_AFTER_SAPLING.
Proof.
  unfold check_size; rewrite !reject_then, !empty3, bind_ok; unfold GetSerializeSize; destruct x.
  do 2 (apply and_iff_compat_l); destruct (tx_Serialize tx) as [d | |]; split.
  - intros (a & [= <-] & E); exists d; apply reject_if_ok in E as [E _]; split; [reflexivity | lia].
  - intros (d' & [= <-] & Hd); exists (zlen d); split; [reflexivity |]; apply reject_if_ok; split; [lia | reflexivity].
  - now intros (a & ? & _).
  - now intros (a & ? & _).
  - now intros (a & ? & _).
  - now intros (a & ? & _).
Qed.

Lemma check_duplicates_ok tx x : check_duplicates tx = Ok x <->
  base.NoDup (map prevout (tx_vin tx)) /\ base.NoDup (concat (map js_nullifiers (vjoinsplit tx))) /\
  base.NoDup (map sp_nullifier (vShieldedSpend tx)).
Proof.
  unfold check_duplicates; rewrite !reject_then, reject_if_ok, !no_duplicate; destruct x; tauto.
Qed.

Lemma zlen_pos {A} (l : list A) : (0 <? zlen l) = false <-> l = [].
Proof. destruct l; cbn; [easy |]; rewrite zlen_cons; pose proof (zlen_nonneg l); split; [lia | discriminate]. Qed.

Lemma check_mint_ok tx x : check_mint tx = Ok x <->
  (IsMint tx = true -> vjoinsplit tx = [] /\ vShieldedSpend tx = [] /\ vShieldedOutput tx = [] /\
    exists i l, tx_vin tx = i :: l /\ 2 <= zlen (scriptSig i) <= 100) /\
  (IsMint tx = false -> Forall (fun i => outpoint_IsNull (prevout i) = false) (tx_vin tx)).
Proof.
  unfold check_mint; destruct (IsMint tx), x.
  - rewrite !reject_then, !zlen_pos; destruct (tx_vin tx) as [| i l].
    + split; [intros (_ & _ & _ & ?); discriminate |].
      intros [Hm _]; destruct (Hm eq_refl) as (_ & _ & _ & i & l & ? & _); discriminate.
    + rewrite reject_if_ok, orb_false_iff, !Z.ltb_ge; split.
      * intros (-> & -> & -> & Hz & _); split; [| discriminate]; intros _; repeat split; eauto.
      * intros [Hm _]; destruct (Hm eq_refl) as (-> & -> & -> & i' & l' & [= <- <-] & Hz); repeat split; lia.
  - rewrite reject_if_ok; split.
    + intros [E _]; split; [discriminate |]; intros _; apply Forall_forall; intros i Hi.
      destruct (outpoint_IsNull (prevout i)) eqn:En; [| reflexivity].
      rewrite (proj2 (existsb_exists _ _)) in E; [discriminate |]; eauto.
    + intros [_ Hf]; specialize (Hf eq_refl); split; [| reflexivity].
      apply not_true_iff_false; intros E; apply existsb_exists in E as (i & Hi & En).
      rewrite (proj1 (Forall_forall _ _) Hf i Hi) in En; discriminate.
Qed.

Lemma check_balance_ok tiptime pub tx n inv r :
  0 <= n <= MAX_MONEY ->
  check_balance tiptime pub tx n inv = Ok r <->
  (vShieldedSpend tx = [] -> vShieldedOutput tx = [] -> valueBalance tx = 0) /\
  (pub <> 0 -> vShieldedSpend tx = [] /\ vShieldedOutput tx = []) /\
  (ASSETCHAINS_PRIVATE <> 0 -> inv = true -> vShieldedSpend tx <> [] -> reveals_swap tiptime tx = true) /\
  - MAX_MONEY <= valueBalance tx <= MAX_MONEY /\ n + Z.max 0 (- valueBalance tx) <= MAX_MONEY /\
  r = (n + Z.max 0 (- valueBalance tx),
       inv && ((ASSETCHAINS_PRIVATE =? 0) || empty_list (vShieldedSpend tx))).
Proof.
  intros Hn; pose proof money_limit as Hm; unfold check_balance; cbv zeta; rewrite !reject_then.
  set (sp := empty_list (vShieldedSpend tx)); set (so := empty_list (vShieldedOutput tx)).
  assert (Hsp : sp = true <-> vShieldedSpend tx = []) by apply empty_list_true.
  assert (Hso : so = true <-> vShieldedOutput tx = []) by apply empty_list_true.
  assert (Hinv : (if negb (ASSETCHAINS_PRIVATE =? 0) && inv && negb sp then false else inv)
    = inv && ((ASSETCHAINS_PRIVATE =? 0) || sp)) by (destruct (ASSETCHAINS_PRIVATE =? 0), inv, sp; reflexivity).
  rewrite Hinv; rewrite <- Hsp, <- Hso; clear Hsp Hso Hinv.
  assert (C1 : sp && so && negb (valueBalance tx =? 0) = false <-> (sp = true -> so = true -> valueBalance tx = 0))
    by (destruct sp, so; cbn; rewrite ?negb_false_iff, ?Z.eqb_eq; intuition congruence).
  assert (C2 : negb (pub =? 0) && (negb sp || negb so) = false <-> (pub <> 0 -> sp = true /\ so = true))
    by (destruct (Z.eqb_spec pub 0), sp, so; cbn; intuition congruence).
  assert (C3 : negb (ASSETCHAINS_PRIVATE =? 0) && inv && negb sp && negb (reveals_swap tiptime tx) = false <->
    (ASSETCHAINS_PRIVATE <> 0 -> inv = true -> sp <> true -> reveals_swap tiptime tx = true))
    by (destruct (Z.eqb_spec ASSETCHAINS_PRIVATE 0), inv, sp, (reveals_swap tiptime tx); cbn; intuition congruence).
  rewrite C1, C2, C3, orb_false_iff, !Z.ltb_ge; do 3 (apply and_iff_compat_l).
  destruct (Z.leb_spec (valueBalance tx) 0) as [Hb | Hb].
  - rewrite Z.max_r, reject_then by lia; split.
    + intros (Hr & Hk & [= <-]); rewrite (swrap_small 64 (- _)), swrap_small in * by lia.
      apply negb_false_iff, MoneyRange_iff in Hk; repeat split; lia.
    + intros (Hr & Hk & ->); rewrite (swrap_small 64 (- _)), swrap_small by lia.
      repeat split; [lia.. |]; apply negb_false_iff, MoneyRange_iff; lia.
  - rewrite Z.max_l, Z.add_0_r by lia; split; [intros (Hr & [= <-]); repeat split; lia | intros (Hr & Hk & ->); repeat split; lia].
Qed.

Lemma check_private_ok tx inv x : check_private tx inv (js_totals tx) = Ok x <->
  (ASSETCHAINS_PRIVATE <> 0 -> inv = true -> only_unshields tx).
Proof.
  unfold check_private, only_unshields; rewrite reject_if_ok; destruct x.
  assert (Hz : zlen (tx_vin tx) = 0 <-> tx_vin tx = []) by (split; [apply zlen_0_nil | now intros ->]).
  rewrite <- Hz; destruct (Z.eqb_spec ASSETCHAINS_PRIVATE 0) as [E | E], inv; cbn [negb andb]; try (intuition congruence).
  rewrite !orb_false_iff, !negb_false_iff, Z.eqb_neq, !Z.eqb_eq; intuition congruence.
Qed.

(** ** The code's tests *)

Lemma taddr_found_iff tiptime tx : ASSETCHAINS_PRIVATE <> 0 -> taddr_found tiptime tx = true <-> pays_transparently tiptime tx.
Proof.
  intros Hp; unfold taddr_found, pays_transparently, invalid_taddr; rewrite (proj2 (Z.eqb_neq _ _) Hp), existsb_exists; cbn [negb andb].
  setoid_rewrite list_elem_of_In; split.
  - intros (o & Ho & Ht); rewrite !andb_true_iff, !negb_true_iff, Z.ltb_lt in Ht; destruct Ht as ((Hc & Hv) & Hn); eauto.
  - intros (Hc & o & Ho & Hv & Hn); exists o; rewrite !andb_true_iff, !negb_true_iff, Z.ltb_lt; auto.
Qed.

Lemma reveals_swap_iff tiptime tx : reveals_swap tiptime tx = true <-> swap_revealed tiptime tx.
Proof.
  unfold reveals_swap, swap_revealed; rewrite !andb_true_iff, Z.ltb_lt, Z.eqb_eq.
  assert (Hz : zlen (tx_vin tx) = 0 <-> tx_vin tx = []) by (split; [apply zlen_0_nil | now intros ->]); rewrite Hz; split.
  - intros ((Hs & Hv) & Ho); split; [exact Hs |]; split; [exact Hv |].
    destruct (tx_vout tx) as [| o1 [| o2 [| ? ?]]]; try discriminate; apply andb_prop in Ho as [? ?]; eauto.
  - intros (Hs & Hv & o1 & o2 & -> & H1' & H2'); split; [auto | now rewrite H1', H2'].
Qed.

Lemma count_js_all l : forall c, Forall joinsplit_ok l ->
  fold_left count_js l c = mkCounts (z_z c + zlen (List.filter (fun js => (vpub_new js =? 0) && (vpub_old js =? 0)) l))
    (t_z c + zlen (List.filter (fun js => (vpub_new js =? 0) && negb (vpub_old js =? 0)) l))
    (z_t c + zlen (List.filter (fun js => negb (vpub_new js =? 0)) l)).
Proof.
  induction l as [| js l IH]; intros c Hf; cbn [fold_left List.filter]; [destruct c; unfold zlen; cbn; now rewrite !Z.add_0_r |].
  apply Forall_cons_1 in Hf as [(_ & _ & Hj) Hf]; rewrite IH by exact Hf; unfold count_js.
  destruct (Z.eqb_spec (vpub_new js) 0), (Z.eqb_spec (vpub_old js) 0); try lia; cbn [andb negb z_z t_z z_t]; rewrite zlen_cons; f_equal; lia.
Qed.

Lemma filter_empty {A} (f : A -> bool) l : zlen (List.filter f l) = 0 <-> Forall (fun x => f x = false) l.
Proof.
  induction l as [| x l IH]; cbn [List.filter]; [now split |]; rewrite list.Forall_cons, <- IH; pose proof (zlen_nonneg (List.filter f l)).
  destruct (f x); [rewrite zlen_cons; split; [lia | now intros [? _]] | tauto].
Qed.

Lemma only_unshields_iff tx : Forall joinsplit_ok (vjoinsplit tx) -> only_unshields tx <-> all_unshield tx.
Proof.
  intros Hf; unfold only_unshields, all_unshield, js_totals; rewrite count_js_all by exact Hf; cbn [z_z t_z z_t]; rewrite !Z.add_0_l, !filter_empty; split.
  - intros (Hu & Hz & Ht & Hv); split; [exact Hv |]; split; [intros E; apply Hu; now rewrite E |].
    apply Forall_lookup; intros i js Hi; specialize (proj1 (Forall_lookup _ _) Hz i js Hi) as Hz'; specialize (proj1 (Forall_lookup _ _) Ht i js Hi) as Ht'.
    cbn beta in *; destruct (Z.eqb_spec (vpub_new js) 0), (vpub_old js =? 0); cbn in *; congruence.
  - intros (Hv & Hne & Hu); assert (Hp : forall (p : JSDescription -> bool), Forall (fun js => (vpub_new js =? 0) && p js = false) (vjoinsplit tx)).
    { intros p; eapply Forall_impl; [| exact Hu]; intros js Hj; cbn beta; now rewrite (proj2 (Z.eqb_neq _ _) Hj). }
    split; [| auto]; destruct (vjoinsplit tx) as [| js l]; [easy |]; apply Forall_cons_1 in Hu as [Hj _].
    intros Hn; apply Forall_cons_1 in Hn as [Hn _]; now rewrite (proj2 (Z.eqb_neq _ _) Hj) in Hn.
Qed.

Lemma land_bit a n : 0 <= n -> (Z.land a (2 ^ n) =? 0) = negb (Z.testbit a n).
Proof.
  intros Hn; destruct (Z.eqb_spec (Z.land a (2 ^ n)) 0) as [E | E].
  - apply (f_equal (fun x => Z.testbit x n)) in E; rewrite Z.land_spec, Z.pow2_bits_true, andb_true_r, Z.bits_0 in E by exact Hn; now rewrite E.
  - destruct (Z.testbit a n) eqn:Et; [reflexivity |]; destruct E; apply Z.bits_inj'; intros k Hk.
    rewrite Z.land_spec, Z.bits_0, Z.pow2_bits_eqb by exact Hn; destruct (Z.eqb_spec n k) as [<- |]; [now rewrite Et | apply andb_false_r].
Qed.

Lemma check_txpow_iff txid tx : check_txpow txid (IsCoinBase tx) = Ok tt <-> txpow_ok txid tx.
Proof.
  unfold check_txpow, txpow_ok; rewrite reject_if_ok; change 2 with (2 ^ 1); change 1 with (2 ^ 0) at 2; rewrite !land_bit by lia.
  assert (Hz : forall n, ASSETCHAINS_TXPOW = 0 -> Z.testbit ASSETCHAINS_TXPOW n = false) by (intros n ->; apply Z.bits_0).
  destruct (Z.eqb_spec ASSETCHAINS_TXPOW 0) as [E | _]; cbn [negb andb]; [rewrite (Hz _ E); intuition congruence |].
  destruct (IsCoinBase tx); cbn [negb]; rewrite ?andb_true_r, ?andb_false_r, ?orb_false_r, ?orb_false_l, !negb_involutive;
    (destruct (Z.testbit ASSETCHAINS_TXPOW _); cbn [andb]; [| intuition congruence]);
    destruct (Z.eqb_spec (at_ txid 0) 0), (Z.eqb_spec (at_ txid 31) 0), (bool_decide_reflect (txid = genesistxid)); cbn; intuition congruence.
Qed.

Lemma check_inputs_total_ok tx x :
  Forall is_i64 (map vpub_new (vjoinsplit tx)) -> - MAX_MONEY <= valueBalance tx <= MAX_MONEY ->
  check_inputs_total tx = Ok x <->
  Forall (fun x => 0 <= x) (map vpub_new (vjoinsplit tx)) /\ shielded_value_in tx <= MAX_MONEY.
Proof.
  intros Hv Hb; pose proof money_limit as Hm; unfold check_inputs_total, shielded_value_in; rewrite bind_ok; split.
  - intros (a & Ha & Hk); apply check_value_in_ok in Ha as (Hf & Hs & ->); [| lia | exact Hv].
    split; [exact Hf |]; pose proof (zsum_nonneg _ Hf); destruct (Z.leb_spec 0 (valueBalance tx)); [| lia].
    apply reject_if_ok in Hk as [Hk _]; apply negb_false_iff in Hk; rewrite swrap_small, MoneyRange_iff in Hk by lia; lia.
  - intros [Hf Hs]; pose proof (zsum_nonneg _ Hf); exists (0 + zsum (map vpub_new (vjoinsplit tx))); split.
    + apply check_value_in_ok; [lia | exact Hv |]; repeat split; [exact Hf | lia].
    + destruct x, (Z.leb_spec 0 (valueBalance tx)); [| reflexivity]; apply reject_if_ok; split; [| reflexivity].
      apply negb_false_iff; rewrite swrap_small, MoneyRange_iff by lia; lia.
Qed.

(** ** The whole check *)

Lemma check_tx_parts tiptime txid tx :
  amounts_valid tx ->
  CheckTransactionWithoutProofVerification tiptime txid tx = Ok tt <->
  check_version tx = Ok tt /\ check_size tx = Ok tt /\
  Forall output_ok (tx_vout tx) /\ Forall joinsplit_ok (vjoinsplit tx) /\
  value_out tx <= MAX_MONEY /\ shielded_value_in tx <= MAX_MONEY /\
  (vShieldedSpend tx = [] -> vShieldedOutput tx = [] -> valueBalance tx = 0) /\
  (komodo_acpublic tiptime <> 0 -> vShieldedSpend tx = [] /\ vShieldedOutput tx = []) /\
  (vjoinsplit tx <> [] -> komodo_acpublic tiptime = 0 /\ tiptime < KOMODO_SAPLING_DEADLINE) /\
  (ASSETCHAINS_PRIVATE <> 0 -> taddr_found tiptime tx = true -> vShieldedSpend tx <> [] ->
     reveals_swap tiptime tx = true) /\
  (ASSETCHAINS_PRIVATE <> 0 -> taddr_found tiptime tx && empty_list (vShieldedSpend tx) = true -> only_unshields tx) /\
  check_txpow txid (IsCoinBase tx) = Ok tt /\ check_duplicates tx = Ok tt /\ check_mint tx = Ok tt.
Proof.
  intros (Hv & Hb & Ho & Hw); pose proof money_limit as Hm; unfold CheckTransactionWithoutProofVerification.
  set (S := zsum (map nValue (tx_vout tx))); set (V := valueBalance tx); set (J := zsum (map vpub_old (vjoinsplit tx))).
  assert (Ev : value_out tx = S + Z.max 0 (- V) + J) by reflexivity; rewrite Ev.
  assert (Hpriv : forall inv, inv && ((ASSETCHAINS_PRIVATE =? 0) || empty_list (vShieldedSpend tx)) = true ->
    ASSETCHAINS_PRIVATE <> 0 -> inv && empty_list (vShieldedSpend tx) = true).
  { intros inv E Hne; rewrite (proj2 (Z.eqb_neq _ _) Hne) in E; exact E. }
  assert (Hjs : Forall joinsplit_ok (vjoinsplit tx) -> Forall (fun x => 0 <= x) (map vpub_new (vjoinsplit tx))).
  { intros Hf; apply Forall_fmap; eapply Forall_impl; [| exact Hf]; intros x (_ & ? & _); unfold compose; lia. }
  assert (Hos : Forall output_ok (tx_vout tx) -> 0 <= S).
  { intros Hf; apply zsum_nonneg, Forall_fmap; eapply Forall_impl; [| exact Hf]; intros x ((? & _) & _); exact H3. }
  split.
  - intros E; apply bind_ok in E as ([] & Hver & E); apply bind_ok in E as ([] & Hsize & E).
    apply bind_ok in E as ([n inv] & Hout & E); apply check_outputs_ok in Hout as (Fo & Hs & [= -> ->]); [| lia].
    pose proof (Hos Fo) as HS; rewrite orb_false_r in E; apply bind_ok in E as ([n inv] & Hbal & E).
    apply check_balance_ok in Hbal as (B1 & B2 & B3 & B4 & B5 & [= -> ->]); [| lia].
    apply bind_ok in E as (cts & Hj & E); apply check_joinsplits_ok in Hj as (J1 & J2 & J3 & ->); [| lia].
    apply bind_ok in E as ([] & Hp0 & E); pose proof (proj1 (check_private_ok tx _ tt) Hp0) as Hp; apply bind_ok in E as ([] & Hpow & E).
    apply bind_ok in E as ([] & Hin & E); apply check_inputs_total_ok in Hin as [_ Hin]; [| exact Hw | exact B4].
    apply bind_ok in E as ([] & Hdup & Hmint); fold S V in J3, B5; fold J in J3.
    split; [exact Hver |]; split; [exact Hsize |]; split; [exact Fo |]; split; [exact J2 |]; split; [lia |].
    split; [exact Hin |]; split; [exact B1 |]; split; [exact B2 |]; split; [exact J1 |]; split; [exact B3 |].
    split; [| auto]; intros Hne Ht; apply Hp; [exact Hne |]; now rewrite (proj2 (Z.eqb_neq _ _) Hne).
  - intros (Hver & Hsize & Fo & J2 & Hsum & Hin & B1 & B2 & J1 & B3 & Hp & Hpow & Hdup & Hmint).
    pose proof (Hos Fo) as HS; destruct (joinsplits_nonneg _ J2) as [HJ HJ']; fold J in HJ.
    assert (HV : - MAX_MONEY <= V <= MAX_MONEY) by (unfold shielded_value_in in Hin; fold V in Hin; lia).
    rewrite Hver; cbn [mbind res_bind]; rewrite Hsize; cbn [mbind res_bind].
    assert (check_outputs tiptime (IsCoinBase tx) (tx_vout tx) 0 false = Ok (0 + S, taddr_found tiptime tx)) as ->
      by (apply check_outputs_ok; [lia |]; split; [exact Fo |]; rewrite orb_false_r; split; [fold S; lia | reflexivity]).
    cbn [mbind res_bind]; set (inv := taddr_found tiptime tx) in *.
    assert (check_balance tiptime (komodo_acpublic tiptime) tx (0 + S) inv =
      Ok (0 + S + Z.max 0 (- V), inv && ((ASSETCHAINS_PRIVATE =? 0) || empty_list (vShieldedSpend tx)))) as ->.
    { apply check_balance_ok; [lia |]; split; [exact B1 |]; split; [exact B2 |]; split; [exact B3 |].
      split; [exact HV |]; split; [fold V; lia | reflexivity]. }
    cbn [mbind res_bind].
    assert (check_joinsplits tiptime (komodo_acpublic tiptime) (vjoinsplit tx) (0 + S + Z.max 0 (- V)) (mkCounts 0 0 0)
      = Ok (js_totals tx)) as ->
      by (apply check_joinsplits_ok; [lia |]; split; [exact J1 |]; split; [exact J2 |]; split; [fold J; lia | reflexivity]).
    cbn [mbind res_bind].
    rewrite (proj2 (check_private_ok tx _ tt)) by (intros Hne Ht; apply Hp; auto).
    cbn [mbind res_bind]; rewrite Hpow; cbn [mbind res_bind].
    rewrite (proj2 (check_inputs_total_ok tx tt Hw HV) (conj (Hjs J2) Hin)); cbn [mbind res_bind].
    rewrite Hdup; exact Hmint.
Qed.

(** The conditions in one record. *)
Lemma acceptable_iff tiptime txid tx :
  amounts_valid tx ->
  CheckTransactionWithoutProofVerification tiptime txid tx = Ok tt <-> acceptable tiptime txid tx.
Proof.
  intros Ha; rewrite check_tx_parts, check_version_ok, check_size_ok, check_duplicates_ok, check_mint_ok by assumption.
  split.
  - intros (Hver & (S1 & S2 & S3) & Fo & J2 & Hsum & Hin & B1 & B2 & J1 & B3 & Hp & Hpow & (D1 & D2 & D3) & M1 & M2).
    split; auto; try (now intros Hj; apply J1).
    + intros Hpub; destruct (B2 Hpub) as [-> ->]; split; [reflexivity |]; split; [reflexivity |].
      destruct (vjoinsplit tx); [reflexivity |]; destruct (J1 ltac:(discriminate)); contradiction.
    + intros Hne Ht%taddr_found_iff; [| exact Hne]; split; [intros Hs; apply reveals_swap_iff; auto |].
      intros Hs; apply only_unshields_iff; [exact J2 |]; apply Hp; [exact Hne |]; now rewrite Ht, Hs.
    + now apply check_txpow_iff.
  - intros [A1 A2 A3 A4 A5 A6 A7 A8 A9 A10 A11 A12 A13 A14 A15 A16 A17 A18].
    repeat (split; [solve [auto] |]).
    split; [intros Hp; destruct (A10 Hp) as (? & ? & _); auto |].
    split; [intros Hj; split; [| auto]; destruct (Z.eq_dec (komodo_acpublic tiptime) 0); [assumption |];
            destruct (A10 ltac:(assumption)) as (_ & _ & ?); contradiction |].
    split; [intros Hne Ht%taddr_found_iff Hs; [apply reveals_swap_iff; now apply A12 | exact Hne] |].
    split; [intros Hne Ht; apply andb_prop in Ht as [Ht Hs]; apply only_unshields_iff; [exact A6 |]; apply A12; auto;
            [now apply taddr_found_iff | now apply empty_list_true] |].
    split; [now apply check_txpow_iff | auto].
Qed.
End Spec.

(** ** Properties *)

(** C17: the context-free check of a transaction, whose amounts are 64-bit values,
    accepts exactly the transactions that satisfy all of the following.  The
    version is known, and an overwintered transaction has an expiry height below the
    threshold; there are a source and a sink; the encoding keeps to the size limit;
    outputs and join-splits are in range; the total output and the shielded input (no
    64-bit addition wrapping) are at most [MAX_MONEY]; without shielded spends and
    outputs the value balance is zero; inputs and nullifiers are distinct.  On a
    public chain nothing is shielded; join-splits are allowed only before the Sapling
    deadline; on a private chain a transparent payment to no notary, unless by the
    coinbase, reveals a swap script from season 6 on, or is made only of join-splits
    that unshield.  Where the chain asks for proof of work of this kind of
    transaction, the first and the last byte of the identifier are zero, or it is that
    of the first coinbase.  A coinbase or an import has nothing shielded and a script
    of 2 to 100 bytes, and another transaction no null input. *)
Theorem check_transaction_exact `{ChainParams, MoneyLimit, HashFunctions, Layout} `{!MoneyLimitOk H0}
    (tiptime : Z) (txid : uint256) (tx : CTransaction) :
  amounts_valid tx ->
  CheckTransactionWithoutProofVerification tiptime txid tx = Ok tt <-> acceptable tiptime txid tx.
Proof. exact (acceptable_iff tiptime txid tx). Qed.

(** The cut-off that a lock time is compared with. *)
Definition lock_cutoff (tx : CTransaction) (nBlockHeight nBlockTime : Z) : Z :=
  if nLockTime tx <? LOCKTIME_THRESHOLD then nBlockHeight else nBlockTime.

(** Lock times.  After the December 2019 hard fork a transaction is final
    exactly when its lock time is zero or has passed, or when every input is
    either final or has the sequence number 0xfffffffe and the lock time is that
    of the block itself; before it, a transaction all of whose inputs have that
    sequence number is final unless its lock time is that of the block itself,
    so the lock was not enforced. *)
Theorem final_tx_rule `{ChainParams} (tx : CTransaction) (nBlockHeight nBlockTime : Z) :
  let cutoff := lock_cutoff tx nBlockHeight nBlockTime in
  (komodo_hardfork_active (u32 nBlockTime) = true ->
   IsFinalTx tx nBlockHeight nBlockTime = true <->
     nLockTime tx = 0 \/ nLockTime tx < cutoff \/
     Forall (fun i => nSequence i = UINT32_MAX \/ (nSequence i = 4294967294 /\ nLockTime tx = cutoff)) (tx_vin tx)) /\
  (komodo_hardfork_active (u32 nBlockTime) = false ->
   Forall (fun i => nSequence i = 4294967294) (tx_vin tx) -> nLockTime tx <> cutoff ->
   IsFinalTx tx nBlockHeight nBlockTime = true).
Proof.
  cbv zeta; unfold IsFinalTx, lock_cutoff.
  set (cut := if nLockTime tx <? LOCKTIME_THRESHOLD then nBlockHeight else nBlockTime).
  assert (Hex : forall i, cut <= nLockTime tx -> sequence_exempt tx i nBlockHeight nBlockTime =
    (nSequence i =? 4294967294) &&
    (if komodo_hardfork_active (u32 nBlockTime) then nLockTime tx =? cut else cut <? nLockTime tx)).
  { intros i Hc; unfold sequence_exempt; subst cut.
    destruct (komodo_hardfork_active _), (Z.eqb_spec (nSequence i) 4294967294); cbn [negb andb orb]; try reflexivity;
      destruct (Z.ltb_spec (nLockTime tx) LOCKTIME_THRESHOLD); cbn [andb orb]; lia. }
  split.
  - intros Ha; rewrite Ha in Hex; destruct (Z.eqb_spec (nLockTime tx) 0) as [| Hz]; [tauto |].
    destruct (Z.ltb_spec (nLockTime tx) cut) as [Hl | Hl]; [tauto |].
    rewrite forallb_forall, Forall_forall; split.
    + intros Hf; right; right; intros i Hi; specialize (Hf i Hi); rewrite (Hex i Hl) in Hf; unfold txin_IsFinal in Hf; lia.
    + intros [? | [? | Hf]]; [lia.. |]; intros i Hi; specialize (Hf i Hi); rewrite (Hex i Hl); unfold txin_IsFinal; lia.
  - intros Ha Hs Hne; rewrite Ha in Hex; destruct (Z.eqb_spec (nLockTime tx) 0); [reflexivity |].
    destruct (Z.ltb_spec (nLockTime tx) cut) as [Hl | Hl]; [reflexivity |].
    apply forallb_forall; intros i Hi; rewrite (Hex i Hl), (proj1 (Forall_forall _ _) Hs i Hi); lia.
Qed.

(** A chain without special rules, after the hard fork. *)
Module Example_chain.
#[global] Instance chain : ChainParams := {|
  ASSETCHAINS_PRIVATE := 0; ASSETCHAINS_PUBLIC := 0; ASSETCHAINS_TXPOW := 0; isKMD := false; isZEX := false;
  tip_nTime := Some 1650000000; tip_nHeight := 1000; isnotaryvout := fun _ _ => false |}.
End Example_chain.

Lemma check_transaction_exact_witness :
  let accepts := CheckTransactionWithoutProofVerification (H1 := toy_hashes) 1650000000 (repeat 5 32) Example_tx.tx in
  accepts = Ok tt /\ acceptable (H1 := toy_hashes) 1650000000 (repeat 5 32) Example_tx.tx.
Proof.
  assert (E : CheckTransactionWithoutProofVerification (H1 := toy_hashes) 1650000000 (repeat 5 32) Example_tx.tx = Ok tt)
    by (vm_compute; reflexivity).
  split; [exact E |]; apply (check_transaction_exact (H1 := toy_hashes)); [| exact E].
  repeat split; cbn; try apply Forall_nil_2; unfold is_i64; try lia; repeat constructor; lia.
Defined.

(** Locked until the block it is in, with the sequence number before the last. *)
Example locked : CTransaction :=
  mkTx false 1 0 [mkTxIn (mkOutPoint (repeat 7 32) 1) [] 4294967294] [] 7 0 0 [] [] [] [] [] [].

Lemma final_tx_rule_witness :
  komodo_hardfork_active (u32 1650000000) = true /\ IsFinalTx locked 7 1650000000 = true.
Proof.
  assert (Ha : komodo_hardfork_active (u32 1650000000) = true) by (vm_compute; reflexivity).
  split; [exact Ha |]; apply (proj1 (final_tx_rule locked 7 1650000000) Ha); right; right.
  constructor; [right; split; reflexivity | constructor].
Defined.
