(* ===== verification/Interest.v ===== *)
(** * Interest on unspent outputs

    komodo_interest.cpp: the interest an output has earned when it is spent.
    Transactions, block positions and the tip come from [InterestChain]. *)
From stdpp Require Import gmap strings.
From S2P Require Import Prelude Endian Hashing Merkle Script Serialize Transaction TxCheck.

Definition KOMODO_INTEREST : Z := 5000000.
Definition KOMODO_MAXMEMPOOLTIME : Z := 3600.
Definition KOMODO_ENDOFERA : Z := 7777777.
Definition nS7HardforkHeight : Z := 3484958.
Definition year : Z := 365 * 24 * 60.
Definition month : Z := 31 * 24 * 60.

(** Whole minutes between the lock time and the tip. *)
Definition elapsed (nLockTime tiptime : Z) : Z := i32 (u32 (tiptime - nLockTime) / 60).

(** [_komodo_interestnew]. *)
Definition interestnew_ (txheight nValue nLockTime tiptime : Z) : Z :=
  let minutes := elapsed nLockTime tiptime in
  if (LOCKTIME_THRESHOLD <=? nLockTime) && (nLockTime <? tiptime) && (KOMODO_MAXMEMPOOLTIME / 60 <=? minutes) then
    let minutes := if year <? minutes then year else minutes in
    let minutes := if (1000000 <=? txheight) && (month <? minutes) then month else minutes in
    let minutes := minutes - (KOMODO_MAXMEMPOOLTIME / 60 - 1) in
    let r := u64 (nValue / 10512000 * u64 minutes) in
    if nS7HardforkHeight <=? txheight then r / 500 else r
  else 0.

Definition komodo_interestnew (txheight nValue nLockTime tiptime : Z) : Z :=
  if (txheight <? KOMODO_ENDOFERA) && (LOCKTIME_THRESHOLD <=? nLockTime) && negb (tiptime =? 0)
     && (nLockTime <? tiptime) && (10 * COIN <=? nValue)
  then interestnew_ txheight nValue nLockTime tiptime else 0.

(** Outputs that were paid by the first formula, as height and value. *)
Definition exceptions : list (Z * Z) :=
  [(116607, 2502721100000); (126891, 2879650000000); (129510, 3000000000000); (141549, 3500000000000);
   (154473, 3983399350000); (154736, 3983406748175); (155013, 3983414006565); (155492, 3983427592291);
   (155613, 9997409999999797); (157927, 9997410667451072); (155613, 2590000000000); (155949, 4000000000000)].

Definition is_exception (txheight nValue : Z) : bool :=
  (txheight <=? 155949) && existsb (fun e => (txheight =? e.1) && (nValue =? e.2)) exceptions.

(** More than 25,000 coins. *)
Definition interest_large (txheight nValue nLockTime tiptime minutes denominator : Z) : Z :=
  if negb (is_exception txheight nValue) then
    let numerator := nValue / 20 in
    if txheight <? 250000 then numerator / denominator
    else if txheight <? 1000000 then u64 (numerator * u64 minutes) / year
    else interestnew_ txheight nValue nLockTime tiptime
  else if txheight <? 1000000 then
    let numerator := u64 (nValue * KOMODO_INTEREST) in
    numerator / denominator / COIN
  else interestnew_ txheight nValue nLockTime tiptime.

Definition activation : Z := 1491350400.

(** At most 25,000 coins. *)
Definition interest_small (txheight nValue nLockTime tiptime minutes denominator : Z) : Z :=
  let numerator := u64 (nValue * KOMODO_INTEREST) in
  if (txheight <? 250000) || (tiptime <? activation) then
    if (txheight <? 250000) || (u64 (numerator * u64 minutes) <? year)
    then numerator / denominator / COIN
    else u64 (numerator * u64 minutes) / year / COIN
  else if txheight <? 1000000 then u64 (nValue / 20 * u64 minutes) / year
  else interestnew_ txheight nValue nLockTime tiptime.

Section Interest.
Context `{ChainParams}.

Definition komodo_interest (txheight nValue nLockTime tiptime : Z) : Z :=
  if negb isKMD then 0
  else if KOMODO_ENDOFERA <=? txheight then 0
  else if (LOCKTIME_THRESHOLD <=? nLockTime) && negb (tiptime =? 0) && (nLockTime <? tiptime)
          && (10 * COIN <=? nValue) then
    let minutes := elapsed nLockTime tiptime in
    if 60 <=? minutes then
      let minutes := if year <? minutes then year else minutes in
      let minutes := if 250000 <=? txheight then minutes - 59 else minutes in
      let denominator := year / u64 minutes in
      let denominator := if denominator =? 0 then 1 else denominator in
      if 25000 * COIN <? nValue then interest_large txheight nValue nLockTime tiptime minutes denominator
      else interest_small txheight nValue nLockTime tiptime minutes denominator
    else 0
  else 0.

(** The node's chain: [GetTransaction] with the hash of the block,
    [komodo_getblockindex] as height and time, [chainActive[h]->nTime], and
    [chainActive.Tip()->nTime]. *)
Class InterestChain := {
  GetTransaction : uint256 -> option (CTransaction * uint256);
  komodo_getblockindex : uint256 -> option (Z * Z);
  active_time : Z -> option Z;
  Tip_nTime : option Z;
}.

(** The outputs of [komodo_interest_args] and its result. *)
Record interest_args := mkArgs {
  ia_txheighttime : Z; ia_txheight : Z; ia_tiptime : Z; ia_value : Z; ia_locktime : Z }.

Definition no_args : interest_args := mkArgs 0 0 0 0 0.

Context `{InterestChain}.

(** [komodo_interest_args]; [n] is an int32_t, and the comparison with
    [tx.vout.size()] is unsigned. *)
Definition komodo_interest_args (hash : uint256) (n : Z) : interest_args :=
  match GetTransaction hash with
  | None => no_args
  | Some (tx, hashBlock) =>
      match tx_vout tx !! Z.to_nat (u64 n), komodo_getblockindex hashBlock with
      | Some o, Some (nHeight, nTime) =>
          mkArgs nTime nHeight (default 0 Tip_nTime) (u64 (nValue o)) (nLockTime tx)
      | _, _ => no_args
      end
  end.

(** [komodo_accrued_interest]: the interest, [*txheightp] and [*locktimep]. *)
Definition komodo_accrued_interest (hash : uint256) (n checkheight checkvalue tipheight : Z) : Z * Z * Z :=
  let tiptime := default 0 (active_time tipheight) in
  let a := komodo_interest_args hash n in
  let tiptime := ia_tiptime a in
  let interest :=
    if negb (ia_locktime a =? 0) then
      if ((checkvalue =? 0) || (ia_value a =? checkvalue)) && ((checkheight =? 0) || (ia_txheight a =? checkheight))
      then komodo_interest (ia_txheight a) (ia_value a) (ia_locktime a) tiptime else 0
    else 0 in
  (interest, ia_txheight a, ia_locktime a).
End Interest.

(** ** Bounds *)

Lemma elapsed_eq nLockTime tiptime :
  0 <= nLockTime < tiptime -> tiptime < 2 ^ 32 -> elapsed nLockTime tiptime = (tiptime - nLockTime) / 60.
Proof.
  intros Hl Ht; unfold elapsed; rewrite (uwrap_small 32) by lia.
  apply swrap_small; [lia |]; change (2 ^ (32 - 1)) with (2 ^ 31); pose proof (Z.div_pos (tiptime - nLockTime) 60).
  pose proof (Z.div_lt_upper_bound (tiptime - nLockTime) 60 (2 ^ 31)); lia.
Qed.

(** A product that wraps is not larger than the exact one. *)
Lemma u64_le x : 0 <= x -> 0 <= u64 x <= x.
Proof. intros Hx; unfold uwrap; split; [apply Z.mod_pos_bound; lia | apply Z.mod_le; lia]. Qed.

Lemma interestnew_bound txheight v lock tip :
  0 <= v -> 0 <= lock < 2 ^ 32 -> 0 <= tip < 2 ^ 32 ->
  let r := interestnew_ txheight v lock tip in
  0 <= r /\ 10512000 * r <= v * (if 1000000 <=? txheight then month else year) /\
  ((nS7HardforkHeight <=? txheight) = true -> 500 * 10512000 * r <= v * month).
Proof.
  intros Hv Hl Ht; unfold interestnew_, KOMODO_MAXMEMPOOLTIME, year, month, nS7HardforkHeight.
  change (3600 / 60) with 60.
  destruct (_ && _ && _) eqn:E; [| cbv zeta; destruct (1000000 <=? txheight); repeat split; lia].
  apply andb_prop in E as [E Em]; apply andb_prop in E as [_ El]; apply Z.ltb_lt in El; apply Z.leb_le in Em.
  rewrite elapsed_eq in * by lia.
  set (m0 := (tip - lock) / 60) in *; cbv zeta.
  set (m1 := if 365 * 24 * 60 <? m0 then 365 * 24 * 60 else m0).
  assert (H1 : 60 <= m1 <= 365 * 24 * 60) by (subst m1; destruct (Z.ltb_spec (365 * 24 * 60) m0); lia).
  set (m2 := if (1000000 <=? txheight) && (31 * 24 * 60 <? m1) then 31 * 24 * 60 else m1).
  assert (H2 : 60 <= m2 <= (if 1000000 <=? txheight then 31 * 24 * 60 else 365 * 24 * 60)).
  { subst m2; destruct (1000000 <=? txheight); cbn [andb]; [destruct (Z.ltb_spec (31 * 24 * 60) m1); lia | lia]. }
  rewrite (uwrap_small 64 (m2 - _)) by (destruct (1000000 <=? txheight); lia).
  pose proof (Z.div_pos v 10512000 ltac:(lia) ltac:(lia)) as Hp.
  pose proof (Z.mul_div_le v 10512000 ltac:(lia)) as Hq.
  pose proof (u64_le (v / 10512000 * (m2 - (60 - 1))) ltac:(nia)) as Hr; revert Hr.
  generalize (u64 (v / 10512000 * (m2 - (60 - 1)))); intros r Hr.
  pose proof (Z.mul_div_le r 500 ltac:(lia)); pose proof (Z.div_pos r 500 ltac:(lia) ltac:(lia)).
  destruct (Z.leb_spec 3484958 txheight), (Z.leb_spec 1000000 txheight); try lia;
    repeat split; try discriminate; nia.
Qed.

Lemma div_le_self a b : 0 <= a -> 0 < b -> 0 <= a / b <= a.
Proof. intros Ha Hb; split; [apply Z.div_pos; lia | apply Z.div_le_upper_bound; nia]. Qed.

Lemma scaled_bound v d : 0 <= v -> 0 < d -> 0 <= u64 (v * KOMODO_INTEREST) / d / COIN <= v / 20.
Proof.
  intros Hv Hd; unfold KOMODO_INTEREST, COIN; pose proof (u64_le (v * 5000000) ltac:(lia)) as Hu.
  pose proof (div_le_self _ d (proj1 Hu) Hd); split; [apply Z.div_pos; lia |].
  transitivity (v * 5000000 / 100000000); [apply Z.div_le_mono; lia |].
  change 100000000 with (20 * 5000000); rewrite Z.div_mul_cancel_r by lia; lia.
Qed.

Lemma annual_bound v m : 0 <= v -> 0 <= m <= year -> 0 <= u64 (v * u64 m) / year <= v.
Proof.
  intros Hv Hm; unfold year in *; rewrite (uwrap_small 64 m) by lia.
  pose proof (u64_le (v * m) ltac:(nia)); split; [apply Z.div_pos; lia |].
  apply Z.div_le_upper_bound; nia.
Qed.

Lemma interestnew_twentieth txheight v lock tip :
  0 <= v -> 0 <= lock < 2 ^ 32 -> 0 <= tip < 2 ^ 32 -> 0 <= interestnew_ txheight v lock tip <= v / 20.
Proof.
  intros Hv Hl Ht; destruct (interestnew_bound txheight v lock tip) as (H0 & H1 & _); auto.
  split; [exact H0 |]; apply Z.div_le_lower_bound; [lia |]; unfold year, month in H1; destruct (_ <=? _) in H1; lia.
Qed.

Lemma interest_large_bound txheight v lock tip m d :
  0 <= v -> 0 <= lock < 2 ^ 32 -> 0 <= tip < 2 ^ 32 -> 0 <= m <= year -> 0 < d ->
  0 <= interest_large txheight v lock tip m d <= v / 20.
Proof.
  intros Hv Hl Ht Hm Hd; pose proof (interestnew_twentieth txheight v lock tip Hv Hl Ht).
  pose proof (div_le_self v 20 Hv eq_refl) as [Hp _]; pose proof (div_le_self (v / 20) d Hp Hd).
  unfold interest_large; repeat case_match; auto using annual_bound, scaled_bound.
Qed.

Lemma interest_small_bound txheight v lock tip m d :
  0 <= v -> 0 <= lock < 2 ^ 32 -> 0 <= tip < 2 ^ 32 -> 0 <= m <= year -> 0 < d ->
  0 <= interest_small txheight v lock tip m d <= v / 20.
Proof.
  intros Hv Hl Ht Hm Hd; pose proof (interestnew_twentieth txheight v lock tip Hv Hl Ht).
  pose proof (div_le_self v 20 Hv eq_refl) as [Hp _].
  assert (Hs : 0 <= u64 (u64 (v * KOMODO_INTEREST) * u64 m) / year / COIN <= v / 20).
  { pose proof (annual_bound (u64 (v * KOMODO_INTEREST)) m (proj1 (uwrap_range 64 _ ltac:(lia))) Hm) as [A1 A2].
    pose proof (scaled_bound v 1 Hv eq_refl) as [_ B]; rewrite Z.div_1_r in B.
    split; [apply Z.div_pos; unfold COIN; lia |].
    etransitivity; [apply Z.div_le_mono; [unfold COIN; lia | exact A2] | exact B]. }
  unfold interest_small; repeat case_match; auto using annual_bound, scaled_bound.
Qed.

Lemma komodo_interest_bound `{ChainParams} txheight v lock tip :
  0 <= v -> 0 <= lock < 2 ^ 32 -> 0 <= tip < 2 ^ 32 -> 0 <= komodo_interest txheight v lock tip <= v / 20.
Proof.
  intros Hv Hl Ht; unfold komodo_interest; pose proof (div_le_self v 20 Hv eq_refl) as [Hp _].
  destruct (negb isKMD), (KOMODO_ENDOFERA <=? txheight); try lia.
  destruct (_ && _ && _ && _); [| lia]; cbv zeta; destruct (Z.leb_spec 60 (elapsed lock tip)); [| lia].
  set (m := if 250000 <=? txheight then _ else _); set (d := if year / u64 m =? 0 then 1 else _).
  assert (Hm : 1 <= m <= year).
  { subst m; unfold year in *; destruct (250000 <=? txheight), (Z.ltb_spec (365 * 24 * 60) (elapsed lock tip)); lia. }
  assert (Hd : 0 < d).
  { subst d; pose proof (div_le_self year (u64 m) ltac:(unfold year; lia)) as Hq.
    rewrite (uwrap_small 64) in * by (unfold year in *; lia); destruct (Z.eqb_spec (year / m) 0); lia. }
  destruct (25000 * COIN <? v); [apply interest_large_bound | apply interest_small_bound]; auto; lia.
Qed.

Lemma interest_is_new `{ChainParams} txheight v lock tip :
  isKMD = true -> 1000000 <= txheight -> activation <= tip ->
  komodo_interest txheight v lock tip = komodo_interestnew txheight v lock tip.
Proof.
  intros Hk Hh Ha; unfold komodo_interest, komodo_interestnew; rewrite Hk; cbn [negb].
  rewrite Z.leb_antisym; destruct (txheight <? KOMODO_ENDOFERA); cbn [negb andb]; [| reflexivity].
  destruct (_ && _ && _ && _); [| reflexivity]; cbv zeta.
  unfold interest_large, interest_small; rewrite (proj2 (Z.ltb_ge txheight 250000)),
    (proj2 (Z.ltb_ge txheight 1000000)), (proj2 (Z.ltb_ge tip activation)) by lia; cbn [orb].
  destruct (60 <=? elapsed lock tip) eqn:Em; [now repeat case_match |].
  unfold interestnew_; change (KOMODO_MAXMEMPOOLTIME / 60) with 60; now rewrite Em, andb_false_r.
Qed.

(** The interest of an output is at most 5% of its value, whatever the
    height, times and value (products that wrap included), and is paid only on
    the KMD chain before the end of the era, for at least ten coins locked by
    time at least an hour ago.  From height 1,000,000 on it is what the newer
    formula gives, at most a month's share of the yearly 5%, and from season 7
    on a 500th of that. *)
Theorem interest_bounds `{ChainParams} (txheight v lock tip : Z) :
  0 <= v < 2 ^ 64 -> 0 <= lock < 2 ^ 32 -> 0 <= tip < 2 ^ 32 ->
  let i := komodo_interest txheight v lock tip in
  0 <= i <= v / 20 /\
  (0 < i -> isKMD = true /\ txheight < KOMODO_ENDOFERA /\ 10 * COIN <= v /\ LOCKTIME_THRESHOLD <= lock /\
     lock + KOMODO_MAXMEMPOOLTIME <= tip) /\
  (isKMD = true -> 1000000 <= txheight -> activation <= tip ->
     i = komodo_interestnew txheight v lock tip /\ 10512000 * i <= v * month /\
     (nS7HardforkHeight <= txheight -> 500 * 10512000 * i <= v * month)).
Proof.
  intros Hv Hl Ht; split; [apply komodo_interest_bound; lia |]; split.
  - unfold komodo_interest; destruct isKMD; cbn [negb]; [| lia].
    destruct (Z.leb_spec KOMODO_ENDOFERA txheight); [lia |]; destruct (_ && _ && _ && _) eqn:E; [| lia].
    rewrite !andb_true_iff, !Z.leb_le, Z.ltb_lt in E; destruct E as [[[? _] ?] ?]; rewrite elapsed_eq by lia.
    cbv zeta; destruct (Z.leb_spec 60 ((tip - lock) / 60)) as [Hm |]; [intros _ | lia].
    unfold KOMODO_MAXMEMPOOLTIME; pose proof (Z.mul_div_le (tip - lock) 60); repeat split; auto; lia.
  - intros Hk Hh Ha; rewrite (interest_is_new txheight v lock tip Hk Hh Ha); split; [reflexivity |].
    destruct (interestnew_bound txheight v lock tip) as (_ & H1 & H2); [lia.. |].
    rewrite (proj2 (Z.leb_le 1000000 txheight) Hh) in H1.
    unfold komodo_interestnew; destruct (_ && _) eqn:E; [| unfold month; split; lia].
    split; [exact H1 |]; intros Hs; apply H2, Z.leb_le, Hs.
Qed.

(** The time of the tip and the lock times are 32-bit. *)
Record InterestChainOk (C : InterestChain) : Prop := {
  icok_tip : forall t, Tip_nTime = Some t -> 0 <= t < 2 ^ 32;
  icok_lock : forall h tx b, GetTransaction h = Some (tx, b) -> 0 <= nLockTime tx < 2 ^ 32;
}.

(** Interest is paid on the value that is checked. *)
Lemma accrued_bound `{ChainParams} (C : InterestChain) (Ok : InterestChainOk C) hash n checkheight v tipheight :
  0 < v < 2 ^ 64 -> 0 <= fst (fst (komodo_accrued_interest hash n checkheight v tipheight)) <= v / 20.
Proof.
  intros Hv; pose proof (div_le_self v 20 ltac:(lia) eq_refl) as [Hp _].
  unfold komodo_accrued_interest, komodo_interest_args; cbv zeta; cbn [fst].
  destruct (GetTransaction hash) as [[tx b] |] eqn:Eg; cbn; [| lia].
  pose proof (icok_lock C Ok _ _ _ Eg) as Hl; clear Eg.
  destruct (tx_vout tx !! _) as [o |]; cbn; [| lia]; destruct (komodo_getblockindex b) as [[h t] |]; cbn; [| lia].
  destruct (negb _); [| lia]; destruct (_ && _) eqn:E; [| lia]; apply andb_prop in E as [E _].
  rewrite (proj2 (Z.eqb_neq v 0)) in E by lia; apply Z.eqb_eq in E; rewrite E.
  apply komodo_interest_bound; [lia | exact Hl |].
  destruct Tip_nTime as [tt |] eqn:Et; cbn; [now apply (icok_tip C Ok) | lia].
Qed.

Module Example_interest.
#[local] Instance kmd : ChainParams := {|
  ASSETCHAINS_PRIVATE := 0; ASSETCHAINS_PUBLIC := 0; ASSETCHAINS_TXPOW := 0; isKMD := true; isZEX := false;
  tip_nTime := None; tip_nHeight := 3000000; isnotaryvout := fun _ _ => false |}.

(** 20,000 coins for a year: the 64-bit product of the old formula wraps, and
    0.0012 coins are paid instead of 999.9. *)
Example product_wraps :
  komodo_interest 300000 (20000 * COIN) 1450000000 1491350399 <> 20000 * COIN / 20 * (year - 59) / year.
Proof. vm_compute; discriminate. Qed.
End Example_interest.

Lemma interest_bounds_witness :
  let i := komodo_interest (H := Example_interest.kmd) 2000000 (1000 * COIN) 1600000000 1610000000 in
  0 < i <= 1000 * COIN / 20 /\ i = komodo_interestnew 2000000 (1000 * COIN) 1600000000 1610000000.
Proof.
  pose proof (interest_bounds (H := Example_interest.kmd) 2000000 (1000 * COIN) 1600000000 1610000000) as Hb.
  destruct Hb as ([_ Hu] & _ & Hn); [unfold COIN; lia.. |].
  split; [split; [vm_compute; reflexivity | exact Hu] |].
  apply Hn; [reflexivity | lia | unfold activation; lia].
Defined.
