(* ===== verification/Subsidy.v ===== *)
(** * Block rewards and the money supply

    komodo_utils.cpp: komodo_ac_block_subsidy with its static cache,
    komodo_current_supply and komodo_max_money, komodo_block_prg and
    komodo_block_unlocktime; GetBlockSubsidy of main.cpp.  The start-up options
    of a chain are the class [SubsidyParams]; the arrays indexed by era are
    functions, which the code reads at indices up to [ASSETCHAINS_LASTERA + 1]
    only. *)
From stdpp Require Import list strings.
From S2P Require Import Prelude Endian Hashing Merkle Script Serialize Transaction TxCheck Interest.

Definition SATOSHIDEN : Z := 100000000.
Definition KOMODO_MAXNVALUE : Z := 2 ^ 63 - 1.
Definition KOMODO_BIT63SET (x : Z) : bool := Z.testbit x 63.

Class SubsidyParams := {
  ASSETCHAINS_LASTERA : nat;
  ASSETCHAINS_REWARD : nat -> Z;
  ASSETCHAINS_ENDSUBSIDY : nat -> Z;
  ASSETCHAINS_HALVING : nat -> Z;
  ASSETCHAINS_DECAY : nat -> Z;
  ASSETCHAINS_SUPPLY : Z;
  ASSETCHAINS_MAGIC : Z;
  ASSETCHAINS_STAKED : Z;
  ASSETCHAINS_COMMISSION : Z;
  ASSETCHAINS_GENESISTXVAL : Z;
  ASSETCHAINS_TIMEUNLOCKFROM : Z;
  ASSETCHAINS_TIMEUNLOCKTO : Z;
  is_STAKED : Z;
}.

(** The static variables of [komodo_ac_block_subsidy]. *)
Record subsidy_cache := mkSubsidyCache { cached_subsidy : Z; cached_numhalvings : Z; cached_era : nat }.

Definition empty_subsidy_cache : subsidy_cache := mkSubsidyCache 0 0 0.

Section Subsidy.
Context `{SubsidyParams}.

(** ** komodo_ac_block_subsidy *)

(** The loop that finds the era of a height, over the last [n] eras. *)
Fixpoint find_era (nHeight : Z) (n curEra : nat) : nat :=
  match n with
  | O => curEra
  | S n =>
      let e := ASSETCHAINS_ENDSUBSIDY curEra in
      if (u64 nHeight <? e) || (e =? 0) then curEra else find_era nHeight n (S curEra)
  end.

(** The loop of the decay, with a 64-bit unsigned product. *)
Fixpoint decay_loop (numhalvings : nat) (decay subsidy : Z) : Z :=
  match numhalvings with
  | O => subsidy
  | S n => if subsidy =? 0 then subsidy
           else decay_loop n decay (i64 (u64 (u64 subsidy * decay) / 100000000))
  end.

(** Linear decay towards the reward of the next era, or to zero. *)
Definition linear_subsidy (nHeight nStart subsidy : Z) (curEra : nat) : res unit Z :=
  let '(sign, subsidyDifference) :=
    if (curEra =? ASSETCHAINS_LASTERA)%nat then (1, subsidy)
    else let d := i64 (u64 (subsidy - ASSETCHAINS_REWARD (S curEra))) in
         if d <? 0 then (-1, i64 (- d)) else (1, d) in
  let e := ASSETCHAINS_ENDSUBSIDY curEra in
  let denominator := i64 (u64 (e - nStart)) in
  let numerator :=
    i64 (u64 (denominator - (u64 (e - nHeight) + u64 (nHeight - nStart) mod ASSETCHAINS_HALVING curEra))) in
  if denominator =? 0 then Exn division_by_zero
  else Ok (i64 (subsidy - sign * Z.quot (i64 (subsidyDifference * numerator)) denominator)).

(** The reward of the era with its halvings. *)
Definition era_subsidy (c : subsidy_cache) (nHeight : Z) (curEra : nat) : res unit (Z * subsidy_cache) :=
  let nStart := match curEra with O => 0 | S p => i64 (ASSETCHAINS_ENDSUBSIDY p) end in
  let subsidy := i64 (ASSETCHAINS_REWARD curEra) in
  if negb (subsidy =? 0) || (negb (curEra =? ASSETCHAINS_LASTERA)%nat && negb (ASSETCHAINS_REWARD (S curEra) =? 0)) then
    if negb (ASSETCHAINS_HALVING curEra =? 0) then
      let numhalvings := i32 (u64 (nHeight - nStart) / ASSETCHAINS_HALVING curEra) in
      if 0 <? numhalvings then
        if ASSETCHAINS_DECAY curEra =? 0 then
          if 64 <=? numhalvings then Exn undefined_shift else Ok (Z.shiftr subsidy numhalvings, c)
        else if (ASSETCHAINS_DECAY curEra =? 100000000) && negb (ASSETCHAINS_ENDSUBSIDY curEra =? 0) then
          s ← linear_subsidy nHeight nStart subsidy curEra; Ok (s, c)
        else if (0 <? cached_subsidy c) && (cached_era c =? curEra)%nat && (cached_numhalvings c =? numhalvings) then
          Ok (i64 (cached_subsidy c), c)
        else
          let s := decay_loop (Z.to_nat numhalvings) (ASSETCHAINS_DECAY curEra) subsidy in
          Ok (s, mkSubsidyCache (u64 s) numhalvings curEra)
      else Ok (subsidy, c)
    else Ok (subsidy, c)
  else Ok (subsidy, c).

(** The supply of the chain is paid in the first blocks. *)
Definition add_supply (nHeight subsidy : Z) : Z :=
  let magicExtra := if negb (ASSETCHAINS_STAKED =? 0) then ASSETCHAINS_MAGIC else Z.land ASSETCHAINS_MAGIC 0xffffff in
  if 10000000000 <? ASSETCHAINS_SUPPLY then
    if u64 nHeight <=? ASSETCHAINS_SUPPLY / 1000000000 then
      let subsidy := i64 (u64 (subsidy + 1000000000 * COIN)) in
      if nHeight =? 1
      then i64 (u64 (subsidy + u64 (ASSETCHAINS_SUPPLY mod 1000000000 * COIN + magicExtra))) else subsidy
    else subsidy
  else if nHeight =? 1 then
    let first := u64 (ASSETCHAINS_SUPPLY * SATOSHIDEN + magicExtra) in
    if (ASSETCHAINS_LASTERA =? 0)%nat then i64 first else i64 (u64 (subsidy + first))
  else if is_STAKED =? 2 then 0
  else subsidy.

Definition komodo_ac_block_subsidy (c : subsidy_cache) (nHeight : Z) : res unit (Z * subsidy_cache) :=
  let E0 := ASSETCHAINS_ENDSUBSIDY 0 in
  '(subsidy, c) ← (if (E0 =? 0) && (ASSETCHAINS_REWARD 0 =? 0) then Ok (10000, c)
                   else
                     let curEra := if negb (E0 =? 0) then find_era nHeight (S ASSETCHAINS_LASTERA) 0 else O in
                     if (curEra <=? ASSETCHAINS_LASTERA)%nat then era_subsidy c nHeight curEra else Ok (0, c));
  Ok (u64 (add_supply nHeight subsidy), c).

(** ** GetBlockSubsidy *)

Definition GetBlockSubsidy `{ChainParams} (c : subsidy_cache) (nHeight : Z) : res unit (Z * subsidy_cache) :=
  if isKMD then
    Ok (if nHeight =? 1 then 100000000 * COIN
        else if nHeight <? KOMODO_ENDOFERA then 3 * COIN
        else if nHeight <? 2 * KOMODO_ENDOFERA then 2 * COIN
        else COIN, c)
  else '(s, c) ← komodo_ac_block_subsidy c nHeight; Ok (i64 s, c).

(** ** komodo_current_supply *)

(** An era with linear decay; the [modulo] of this branch is 1. *)
Definition linear_supply (cur_money : Z) (j : nat) (reward period nSteps lastEnd curEnd : Z) : Z :=
  let '(sign, subsidyDifference, lowestSubsidy) :=
    if (j =? ASSETCHAINS_LASTERA)%nat then (1, reward, 0)
    else let d := i64 (u64 (reward - ASSETCHAINS_REWARD (S j))) in
         if d <? 0 then (-1, i64 (- d), reward) else (1, d, i64 (ASSETCHAINS_REWARD (S j))) in
  let denominator := i64 (u64 (nSteps * period)) in
  let denominator := if denominator =? 0 then 1 else denominator in
  let stepDifference := i64 (u64 (period * u64 subsidyDifference) / u64 denominator) in
  let stepTriangle := i64 (Z.shiftr (u64 (period * u64 stepDifference)) 1) in
  let '(cur_money, lowestSubsidy) :=
    if sign <? 0 then
      let n1 := u32 (nSteps - 1) in
      let cur_money := u64 (cur_money + i64 (stepTriangle * n1)) in
      let cur_money := u64 (cur_money + i64 (i64 (stepTriangle * n1) * n1)) in
      (u64 (cur_money + i64 (stepDifference * nSteps)), lowestSubsidy)
    else
      let lowest := i64 (reward - i64 (stepDifference * nSteps)) in
      let cur_money := u64 (cur_money + i64 (stepTriangle * nSteps)) in
      (u64 (cur_money + i64 (i64 (stepTriangle * nSteps) * nSteps)), lowest) in
  u64 (cur_money + u64 (u64 lowestSubsidy * u64 (curEnd - lastEnd))).

(** The loop over the periods of an era: [cur_money] and [reward]. *)
Fixpoint period_loop (fuel : nat) (k curEnd period decay cur_money reward : Z) : res unit (Z * Z) :=
  if u64 k <? curEnd then
    match fuel with
    | O => Exn out_of_fuel
    | S fuel =>
        let cur_money := u64 (cur_money + u64 (period * u64 reward)) in
        let reward := if negb (decay =? 0) then i64 (u64 (u64 reward * decay) / SATOSHIDEN)
                      else Z.shiftr reward 1 in
        period_loop fuel (i32 (u64 (k + period))) curEnd period decay cur_money reward
    end
  else Ok (cur_money, reward).

(** The rewards of one era up to [nHeight]. *)
Definition era_supply (nHeight cur_money : Z) (j : nat) : res unit Z :=
  let reward := i64 (ASSETCHAINS_REWARD j) in
  if 0 <? reward then
    let lastEnd := match j with O => 0 | S p => ASSETCHAINS_ENDSUBSIDY p end in
    let e := ASSETCHAINS_ENDSUBSIDY j in
    let curEnd := if e =? 0 then nHeight else if e <? nHeight then e else nHeight in
    let period := if ASSETCHAINS_HALVING j =? 0 then 210000 else ASSETCHAINS_HALVING j in
    let nSteps := u32 (u64 (curEnd - lastEnd) / period) in
    let modulo := u32 (u64 (curEnd - lastEnd) mod period) in
    let decay := ASSETCHAINS_DECAY j in
    if ASSETCHAINS_HALVING j =? 0 then Ok (u64 (cur_money + i64 (reward * u32 (nHeight - 1))))
    else if decay =? SATOSHIDEN then Ok (linear_supply cur_money j reward period nSteps lastEnd curEnd)
    else
      '(cur_money, reward) ← period_loop (S (Z.to_nat nSteps)) (i32 lastEnd) curEnd period decay cur_money reward;
      Ok (u64 (cur_money + i64 (modulo * reward)))
  else Ok cur_money.

(** The loop over the last [n] eras. *)
Fixpoint supply_loop (nHeight : Z) (n j : nat) (cur_money : Z) : res unit Z :=
  match n with
  | O => Ok cur_money
  | S n =>
      let stop := match j with
                  | O => false
                  | S p =>
                      let e := ASSETCHAINS_ENDSUBSIDY p in
                      (nHeight <=? e)
                      || ((e =? 0) && ((ASSETCHAINS_REWARD j =? 0)
                          && ((j =? ASSETCHAINS_LASTERA)%nat || negb (ASSETCHAINS_DECAY j =? SATOSHIDEN))))
                  end in
      if stop then Ok cur_money
      else m ← era_supply nHeight cur_money j; supply_loop nHeight n (S j) m
  end.

(** The commission, and the cap at 63 bits. *)
Definition cap_supply (cur_money : Z) : Z :=
  if KOMODO_BIT63SET cur_money then KOMODO_MAXNVALUE
  else if negb (ASSETCHAINS_COMMISSION =? 0) then
    let newval := u64 (cur_money + u64 (cur_money / COIN * ASSETCHAINS_COMMISSION)) in
    if KOMODO_BIT63SET newval then KOMODO_MAXNVALUE
    else if newval <? cur_money then KOMODO_MAXNVALUE
    else newval
  else cur_money.

(** The supply before any reward. *)
Definition initial_supply : Z :=
  u64 ((ASSETCHAINS_SUPPLY + 1) * SATOSHIDEN + Z.land ASSETCHAINS_MAGIC 0xffffff + ASSETCHAINS_GENESISTXVAL).

(** [komodo_current_supply] of a 32-bit height; the product with 10000 is a
    32-bit one. *)
Definition komodo_current_supply (nHeight : Z) : res unit Z :=
  cur_money ← (if (ASSETCHAINS_LASTERA =? 0)%nat && (ASSETCHAINS_REWARD 0 =? 0)
               then Ok (u64 (initial_supply + u32 (nHeight * 10000)))
               else supply_loop nHeight (S ASSETCHAINS_LASTERA) 0 initial_supply);
  Ok (cap_supply cur_money).

Definition komodo_max_money : res unit Z := komodo_current_supply 10000000.

(** ** Unlock times *)

Section Unlock.
Context `{HashFunctions}.

Definition komodo_block_prg (nHeight : Z) : Z :=
  let hashSrc64 := Z.lor (Z.shiftl ASSETCHAINS_MAGIC 32) nHeight in
  let hashSrc := map (fun i => Z.land (Z.shiftr hashSrc64 (Z.of_nat i * 8)) 0xff) (seq 0 8) in
  fold_left (fun r b => Z.lor (u64 (Z.shiftl r 8)) b) (take 8 (sha256 hashSrc)) 0.

Definition komodo_block_unlocktime (nHeight : Z) : Z :=
  if ASSETCHAINS_TIMEUNLOCKFROM =? ASSETCHAINS_TIMEUNLOCKTO then i64 ASSETCHAINS_TIMEUNLOCKTO
  else
    let unlocktime := komodo_block_prg nHeight mod u64 (ASSETCHAINS_TIMEUNLOCKTO - ASSETCHAINS_TIMEUNLOCKFROM) in
    i64 (u64 (unlocktime + ASSETCHAINS_TIMEUNLOCKFROM)).
End Unlock.
End Subsidy.
