(* ===== verification/SubsidySpec.v ===== *)
(** * Block rewards: the cache and the money supply

    The static cache of komodo_ac_block_subsidy never changes a result, and
    komodo_current_supply covers the rewards that the schedule has paid. *)
From stdpp Require Import list strings.
From S2P Require Import Prelude Endian Hashing Merkle Script Serialize Transaction TxCheck Interest Subsidy.

Section Cache.
Context `{SubsidyParams}.

(** The reward of a height, from an empty cache. *)
Definition subsidy_at (h : Z) : res unit Z :=
  '(s, _) ← komodo_ac_block_subsidy empty_subsidy_cache h; Ok s.

(** A sequence of calls, as blocks are validated in any order. *)
Fixpoint subsidy_calls (c : subsidy_cache) (hs : list Z) : res unit (list Z * subsidy_cache) :=
  match hs with
  | [] => Ok ([], c)
  | h :: hs =>
      '(s, c) ← komodo_ac_block_subsidy c h;
      '(l, c) ← subsidy_calls c hs;
      Ok (s :: l, c)
  end.

(** The rewards, one by one. *)
Fixpoint subsidies (hs : list Z) : res unit (list Z) :=
  match hs with
  | [] => Ok []
  | h :: hs => s ← subsidy_at h; l ← subsidies hs; Ok (s :: l)
  end.

(** What the cache holds is the reward after its halvings. *)
Definition cache_ok (c : subsidy_cache) : Prop :=
  0 < cached_subsidy c ->
  cached_subsidy c = u64 (decay_loop (Z.to_nat (cached_numhalvings c)) (ASSETCHAINS_DECAY (cached_era c))
                            (i64 (ASSETCHAINS_REWARD (cached_era c)))).

Lemma decay_loop_i64 n decay : forall s, is_i64 s -> is_i64 (decay_loop n decay s).
Proof.
  induction n as [| n IH]; intros s Hs; cbn [decay_loop]; [exact Hs |].
  destruct (s =? 0); [exact Hs |]; apply IH, (swrap_range 64); lia.
Qed.

Lemma i64_u64 x : is_i64 x -> i64 (u64 x) = x.
Proof.
  intros Hx; unfold is_i64, swrap, uwrap in *; change (2 ^ (64 - 1)) with (2 ^ 63).
  rewrite Zplus_mod_idemp_l, Z.mod_small by lia; lia.
Qed.

(** Hits and misses agree. *)
Lemma era_subsidy_cache c h e :
  cache_ok c ->
  match era_subsidy c h e, era_subsidy empty_subsidy_cache h e with
  | Ok (s, c'), Ok (s', _) => s = s' /\ cache_ok c'
  | Exn x, Exn x' => x = x'
  | _, _ => False
  end.
Proof.
  intros Hc; unfold era_subsidy; set (nStart := match e with O => 0 | S p => _ end).
  destruct (_ || _); [| now split]; destruct (negb _); [| now split]; destruct (0 <? _) eqn:En; [| now split].
  destruct (_ =? 0); [destruct (64 <=? _); [reflexivity | now split] |].
  destruct (_ && _); [destruct (linear_subsidy _ _ _ _) as [s | |] eqn:El; cbn [mbind res_bind];
    [now split | unfold linear_subsidy in El; repeat case_match; discriminate | reflexivity] |].
  cbn [cached_subsidy empty_subsidy_cache Z.ltb Z.compare andb].
  set (n := i32 _) in *; set (s := decay_loop _ _ _).
  assert (Hs : is_i64 s) by (apply decay_loop_i64, (swrap_range 64); lia).
  destruct (_ && _ && _) eqn:Eh; [| split; [reflexivity | intros _; reflexivity]].
  apply andb_prop in Eh as [Eh En']; apply andb_prop in Eh as [Ep Ee].
  apply Z.ltb_lt in Ep; apply Z.eqb_eq in En'; apply Nat.eqb_eq in Ee.
  rewrite (Hc Ep), Ee, En'; fold s; rewrite i64_u64 by assumption; now split.
Qed.

Lemma subsidy_cache_step c h :
  cache_ok c ->
  match komodo_ac_block_subsidy c h with
  | Ok (s, c') => subsidy_at h = Ok s /\ cache_ok c'
  | Err e => subsidy_at h = Err e
  | Exn x => subsidy_at h = Exn x
  end.
Proof.
  intros Hc; unfold subsidy_at, komodo_ac_block_subsidy.
  destruct (_ && _); cbn [mbind res_bind]; [now split |]; set (e := if negb _ then _ else _).
  destruct (_ <=? _)%nat; cbn [mbind res_bind]; [| now split].
  pose proof (era_subsidy_cache c h e Hc) as He.
  destruct (era_subsidy c h e) as [[s c'] | |], (era_subsidy empty_subsidy_cache h e) as [[s' c2] | |];
    cbn [mbind res_bind]; try contradiction; [destruct He as [-> He]; now split | now rewrite He].
Qed.
End Cache.

(** The static cache of [komodo_ac_block_subsidy] is transparent.  Any
    sequence of calls, for any heights in any order and on any reward schedule,
    returns exactly the rewards that each call alone would compute without a
    cache, and fails where and as the first of them fails. *)
Theorem subsidy_cache_transparent `{SubsidyParams} (hs : list Z) :
  ('(l, _) ← subsidy_calls empty_subsidy_cache hs; Ok l) = subsidies hs.
Proof.
  assert (G : forall c, cache_ok c -> ('(l, _) ← subsidy_calls c hs; Ok l) = subsidies hs);
    [| apply G; intros Hp; discriminate Hp].
  induction hs as [| h hs IH]; intros c Hc; [reflexivity |]; cbn [subsidy_calls subsidies].
  pose proof (subsidy_cache_step c h Hc) as Hs.
  destruct (komodo_ac_block_subsidy c h) as [[s c'] | |]; cbn [mbind res_bind]; [| now rewrite Hs..].
  destruct Hs as [-> Hc']; cbn [mbind res_bind]; rewrite <- (IH c' Hc').
  now destruct (subsidy_calls c' hs) as [[l c2] | |].
Qed.

(** ** The money supply of a chain with halvings *)

Section Supply.
Context `{SubsidyParams} (r p : Z).
Hypotheses (era0 : ASSETCHAINS_LASTERA = 0%nat) (end0 : ASSETCHAINS_ENDSUBSIDY 0 = 0)
  (reward0 : ASSETCHAINS_REWARD 0 = r) (halving0 : ASSETCHAINS_HALVING 0 = p) (decay0 : ASSETCHAINS_DECAY 0 = 0)
  (staked0 : ASSETCHAINS_STAKED = 0) (labs0 : is_STAKED <> 2) (commission0 : ASSETCHAINS_COMMISSION = 0)
  (supply0 : 0 <= ASSETCHAINS_SUPPLY <= 10000000000) (magic0 : 0 <= ASSETCHAINS_MAGIC)
  (genesis0 : 0 <= ASSETCHAINS_GENESISTXVAL) (reward_pos : 0 < r) (period_pos : 0 < p).

Definition initial : Z :=
  (ASSETCHAINS_SUPPLY + 1) * SATOSHIDEN + Z.land ASSETCHAINS_MAGIC 0xffffff + ASSETCHAINS_GENESISTXVAL.

(** The rewards of the heights below [n]. *)
Fixpoint scheduled (n : nat) : Z :=
  match n with O => 0 | S n => scheduled n + Z.shiftr r (Z.of_nat n / p) end.

Lemma shiftr_bounds j : 0 <= j -> 0 <= Z.shiftr r j <= r.
Proof.
  intros Hj; rewrite Z.shiftr_div_pow2 by lia; pose proof (Z.pow_pos_nonneg 2 j ltac:(lia) Hj).
  split; [apply Z.div_pos; lia | apply Z.div_le_upper_bound; nia].
Qed.

Lemma shiftr_antitone i j : 0 <= i <= j -> Z.shiftr r j <= Z.shiftr r i.
Proof.
  intros Hij; rewrite !Z.shiftr_div_pow2 by lia; apply Z.div_le_compat_l; [lia |].
  split; [apply Z.pow_pos_nonneg; lia | apply Z.pow_le_mono_r; lia].
Qed.

Lemma scheduled_term n : 0 <= Z.shiftr r (Z.of_nat n / p) <= r.
Proof. apply shiftr_bounds, Z.div_pos; lia. Qed.

Lemma scheduled_mono a b : (a <= b)%nat -> scheduled a <= scheduled b <= scheduled a + r * Z.of_nat (b - a).
Proof.
  induction 1 as [| b Hab IH]; [rewrite Nat.sub_diag; lia |]; cbn [scheduled].
  pose proof (scheduled_term b); rewrite Nat.sub_succ_l by assumption; nia.
Qed.

(** The heights of one period have one reward. *)
Lemma scheduled_period j m :
  0 <= j -> Z.of_nat m <= p -> scheduled (Z.to_nat (j * p) + m) = scheduled (Z.to_nat (j * p)) + Z.of_nat m * Z.shiftr r j.
Proof.
  intros Hj; induction m as [| m IH]; intros Hm; [rewrite Nat.add_0_r; lia |].
  rewrite Nat.add_succ_r; cbn [scheduled]; rewrite IH by lia.
  replace (Z.of_nat (Z.to_nat (j * p) + m) / p) with j; [lia |].
  rewrite Nat2Z.inj_add, Z2Nat.id by nia; rewrite Z.div_add_l by lia; rewrite Z.div_small; lia.
Qed.

(** The loop over the periods adds the rewards of whole periods. *)
Lemma period_loop_ok h fuel : forall j money,
  0 <= j -> h + p < 2 ^ 31 -> h - j * p <= Z.of_nat fuel * p -> j * p < h + p ->
  0 <= money -> money + r * (h + p - j * p) < 2 ^ 63 ->
  exists n, period_loop fuel (j * p) h p 0 money (Z.shiftr r j) =
    Ok (money + (scheduled (Z.to_nat (n * p)) - scheduled (Z.to_nat (j * p))), Z.shiftr r n) /\
    h <= n * p < h + p /\ 0 <= n.
Proof.
  induction fuel as [| fuel IH]; intros j money Hj Hh Hf Hk Hm Hb; cbn [period_loop];
    rewrite (uwrap_small 64 (j * p)) by nia; destruct (Z.ltb_spec (j * p) h) as [Hlt | Hge];
    try (exists j; split; [repeat f_equal; lia | lia]).
  pose proof (shiftr_bounds j Hj) as Hr; pose proof (scheduled_period j (Z.to_nat p) Hj ltac:(lia)) as Hs.
  rewrite <- Z2Nat.inj_add in Hs by nia; replace (j * p + p) with ((j + 1) * p) in * by lia.
  rewrite Z2Nat.id in Hs by lia.
  rewrite Z.eqb_refl; cbn [negb]; rewrite (uwrap_small 64 (Z.shiftr r j)) by nia.
  rewrite (uwrap_small 64 (p * _)), (uwrap_small 64 (money + _)), (uwrap_small 64 ((j + 1) * p)) by nia.
  rewrite (swrap_small 32) by nia; rewrite Z.shiftr_shiftr by lia.
  destruct (IH (j + 1) (money + p * Z.shiftr r j)) as (n & E & Hn); [nia.. |].
  exists n; split; [rewrite E, Hs; do 2 f_equal; lia | exact Hn].
Qed.

(** What the chain has paid up to height [n], block by block. *)
Fixpoint minted (n : nat) : res unit Z :=
  match n with
  | O => Ok 0
  | S n => t ← minted n; s ← subsidy_at (Z.of_nat (S n)); Ok (t + s)
  end.

Lemma magic_bounds : 0 <= Z.land ASSETCHAINS_MAGIC 0xffffff < 2 ^ 24.
Proof. change 0xffffff with (Z.ones 24); rewrite Z.land_ones by lia; apply Z.mod_pos_bound; lia. Qed.

Lemma subsidy_at_ok h :
  0 < h < 2 ^ 31 -> h / p < 64 -> r < 2 ^ 63 ->
  subsidy_at h = Ok (if h =? 1 then ASSETCHAINS_SUPPLY * SATOSHIDEN + Z.land ASSETCHAINS_MAGIC 0xffffff
                     else Z.shiftr r (h / p)).
Proof.
  intros Hh Hp Hr; pose proof magic_bounds as Hm.
  unfold subsidy_at, komodo_ac_block_subsidy; rewrite end0, reward0, era0; cbn [Z.eqb negb andb Nat.leb].
  rewrite (proj2 (Z.eqb_neq r 0)) by lia.
  unfold era_subsidy; rewrite reward0, halving0, decay0, Z.sub_0_r, (swrap_small 64 r), (uwrap_small 64 h) by lia.
  rewrite (proj2 (Z.eqb_neq r 0)), (proj2 (Z.eqb_neq p 0)) by lia; cbn [negb orb Z.eqb].
  pose proof (Z.div_pos h p ltac:(lia) period_pos) as Hd; rewrite (swrap_small 32) by lia.
  rewrite (proj2 (Z.leb_gt 64 (h / p))) by lia.
  set (s := if 0 <? h / p then _ else _).
  assert (Es : s = Ok (Z.shiftr r (h / p), empty_subsidy_cache)).
  { subst s; destruct (Z.ltb_spec 0 (h / p)); [reflexivity |]; now replace (h / p) with 0 by lia. }
  rewrite Es; cbn [mbind res_bind]; unfold add_supply; rewrite staked0, era0; cbn [negb Z.eqb Nat.eqb].
  rewrite (proj2 (Z.ltb_ge _ ASSETCHAINS_SUPPLY)), (proj2 (Z.eqb_neq is_STAKED 2)) by lia.
  pose proof (shiftr_bounds (h / p) Hd); unfold SATOSHIDEN.
  destruct (h =? 1); rewrite ?(swrap_small 64), !(uwrap_small 64); repeat (rewrite (uwrap_small 64)); lia || reflexivity.
Qed.

Lemma minted_ok n :
  (0 < n)%nat -> Z.of_nat n < 2 ^ 31 -> Z.of_nat n / p < 64 -> r < 2 ^ 63 ->
  exists t, minted n = Ok t /\
    t <= ASSETCHAINS_SUPPLY * SATOSHIDEN + Z.land ASSETCHAINS_MAGIC 0xffffff + (scheduled n - scheduled 1).
Proof.
  intros Hn; induction n as [| n IH]; [lia |]; intros Hb Hp Hr; cbn [minted].
  rewrite subsidy_at_ok by lia; destruct (Z.eqb_spec (Z.of_nat (S n)) 1) as [E1 | E1].
  { replace n with 0%nat by lia; eexists; split; [reflexivity |]; cbn [scheduled]; lia. }
  assert (Hp' : Z.of_nat n / p < 64) by (eapply Z.le_lt_trans; [apply Z.div_le_mono | exact Hp]; lia).
  destruct IH as (t & -> & Ht); [lia | lia | exact Hp' | exact Hr |].
  eexists; split; [reflexivity |]; cbn [scheduled] in *.
  pose proof (shiftr_antitone (Z.of_nat n / p) (Z.of_nat (S n) / p)) as Ha.
  assert (0 <= Z.of_nat n / p <= Z.of_nat (S n) / p) by (split; [apply Z.div_pos | apply Z.div_le_mono]; lia).
  specialize (Ha ltac:(assumption)); lia.
Qed.

Lemma current_supply_ok h :
  0 < h -> h + p < 2 ^ 31 -> initial + 2 * r * (h + p) < 2 ^ 63 ->
  exists m, komodo_current_supply h = Ok m /\ initial + scheduled (Z.to_nat h) <= m < 2 ^ 63.
Proof.
  intros Hh Hp Hb; pose proof magic_bounds as Hm; unfold initial in *.
  assert (Hr : r < 2 ^ 62) by (unfold SATOSHIDEN in *; nia).
  unfold komodo_current_supply, initial_supply; rewrite era0, reward0; cbn [Nat.eqb andb].
  rewrite (proj2 (Z.eqb_neq r 0)) by lia; cbn [supply_loop]; unfold era_supply.
  rewrite reward0, end0, halving0, decay0, Z.eqb_refl, Z.sub_0_r, (swrap_small 64 r), (uwrap_small 64 h) by lia.
  rewrite (proj2 (Z.ltb_lt 0 r)), (proj2 (Z.eqb_neq p 0)) by lia; change (0 =? SATOSHIDEN) with false.
  set (i0 := (ASSETCHAINS_SUPPLY + 1) * SATOSHIDEN + _ + _) in *.
  assert (Hi : 0 <= i0) by (subst i0; unfold SATOSHIDEN; nia).
  rewrite (uwrap_small 64 i0) by nia.
  pose proof (Z.div_pos h p ltac:(lia) period_pos) as Hd.
  pose proof (Z.div_le_upper_bound h p h period_pos ltac:(nia)) as Hdu.
  rewrite (uwrap_small 32 (h / p)) by lia.
  destruct (period_loop_ok h (S (Z.to_nat (h / p))) 0 i0) as (n & E & Hn & Hn0);
    [lia | lia | pose proof (Z.mul_succ_div_gt h p period_pos); nia | lia | lia | nia |].
  rewrite Z.shiftr_0_r, Z.mul_0_l in E; change (Z.to_nat 0) with 0%nat in E.
  change (i32 0) with 0; rewrite E; cbn [mbind res_bind scheduled].
  pose proof (scheduled_mono (Z.to_nat h) (Z.to_nat (n * p)) ltac:(lia)) as [Hlo _].
  pose proof (scheduled_mono 0 (Z.to_nat (n * p)) ltac:(lia)) as [Hpos Hhi]; cbn [scheduled] in *.
  rewrite Nat.sub_0_r, Z2Nat.id in Hhi by nia.
  pose proof (Z.mod_pos_bound h p period_pos) as Hmod; rewrite (uwrap_small 32 (h mod p)) by lia.
  pose proof (shiftr_bounds n Hn0) as Hs.
  assert (Hx : 0 <= (h mod p) * Z.shiftr r n <= p * r) by nia.
  assert (Hnp : r * (n * p) <= r * (h + p)) by (apply Z.mul_le_mono_nonneg_l; lia).
  assert (Hpr : p * r <= r * (h + p)) by nia.
  rewrite (swrap_small 64), (uwrap_small 64) by lia.
  eexists; split; [reflexivity |]; unfold cap_supply, KOMODO_BIT63SET.
  set (m := _ + (_ - 0) + _); assert (Hmm : 0 <= m < 2 ^ 63) by (subst m; lia).
  rewrite (Z.bits_above_log2 m 63), commission0; [cbn [negb Z.eqb]; subst m; lia | lia |].
  destruct (Z.eq_dec m 0) as [-> |]; [reflexivity | apply Z.log2_lt_pow2; lia].
Qed.
End Supply.

(** A chain of one endless era whose reward [r] halves every [p] blocks. *)
Record halving_chain `{SubsidyParams} (r p : Z) : Prop := {
  hc_era : ASSETCHAINS_LASTERA = 0%nat;
  hc_end : ASSETCHAINS_ENDSUBSIDY 0 = 0;
  hc_reward : ASSETCHAINS_REWARD 0 = r;
  hc_halving : ASSETCHAINS_HALVING 0 = p;
  hc_decay : ASSETCHAINS_DECAY 0 = 0;
  hc_staked : ASSETCHAINS_STAKED = 0;
  hc_labs : is_STAKED <> 2;
  hc_commission : ASSETCHAINS_COMMISSION = 0;
  hc_supply : 0 <= ASSETCHAINS_SUPPLY <= 10000000000;
  hc_magic : 0 <= ASSETCHAINS_MAGIC;
  hc_genesis : 0 <= ASSETCHAINS_GENESISTXVAL;
  hc_reward_pos : 0 < r;
  hc_period_pos : 0 < p;
}.

(** [komodo_current_supply], from which [MAX_MONEY] is set, covers what the
    chain mints.  On a chain with one era and halvings, at every height up to
    the 64th halving at which the sums fit in 63 bits, every reward up to that
    height is computed, and their total, one coin and the genesis value are at
    most the supply that is returned. *)
Theorem supply_covers_rewards `{SubsidyParams} (r p : Z) (h : nat) :
  halving_chain r p -> (0 < h)%nat -> Z.of_nat h + p < 2 ^ 31 -> Z.of_nat h / p < 64 ->
  initial + 2 * r * (Z.of_nat h + p) < 2 ^ 63 ->
  exists total m, minted h = Ok total /\ komodo_current_supply (Z.of_nat h) = Ok m /\
    total + SATOSHIDEN + ASSETCHAINS_GENESISTXVAL <= m < 2 ^ 63.
Proof.
  intros [] Hh Hp Hd Hb.
  destruct (current_supply_ok r p) with (h := Z.of_nat h) as (m & Em & Hm); auto; [lia |].
  assert (Hr : r < 2 ^ 63) by (pose proof magic_bounds; unfold initial, SATOSHIDEN in Hb; nia).
  destruct (minted_ok r p) with (n := h) as (t & Et & Ht); auto; [lia |].
  exists t, m; split; [exact Et |]; split; [exact Em |]; rewrite Nat2Z.id in Hm; unfold initial in Hm.
  assert (Hs : 0 <= Z.shiftr r (Z.of_nat 0 / p) <= r) by (apply scheduled_term; auto).
  cbn [scheduled] in *; lia.
Qed.

Module Example_subsidy.
(** 256 coins, halved every 388,885 blocks. *)
#[local] Instance elosys : SubsidyParams := {|
  ASSETCHAINS_LASTERA := 0; ASSETCHAINS_REWARD := fun e => if (e =? 0)%nat then 25600000000 else 0;
  ASSETCHAINS_ENDSUBSIDY := fun _ => 0; ASSETCHAINS_HALVING := fun e => if (e =? 0)%nat then 388885 else 0;
  ASSETCHAINS_DECAY := fun _ => 0; ASSETCHAINS_SUPPLY := 10; ASSETCHAINS_MAGIC := 2387029918;
  ASSETCHAINS_STAKED := 0; ASSETCHAINS_COMMISSION := 0; ASSETCHAINS_GENESISTXVAL := 5000000000;
  ASSETCHAINS_TIMEUNLOCKFROM := 0; ASSETCHAINS_TIMEUNLOCKTO := 0; is_STAKED := 0 |}.

Lemma elosys_halves : halving_chain 25600000000 388885.
Proof. split; (reflexivity || (cbn; lia)). Qed.

Example elosys_max_money : komodo_max_money = Ok 19910917912260826.
Proof. vm_compute; reflexivity. Qed.

(** A chain without rewards of its own pays 0.0001 coins a block. *)
Definition unrewarded : SubsidyParams := {|
  ASSETCHAINS_LASTERA := 0; ASSETCHAINS_REWARD := fun _ => 0; ASSETCHAINS_ENDSUBSIDY := fun _ => 0;
  ASSETCHAINS_HALVING := fun _ => 0; ASSETCHAINS_DECAY := fun _ => 0; ASSETCHAINS_SUPPLY := 10;
  ASSETCHAINS_MAGIC := 0; ASSETCHAINS_STAKED := 0; ASSETCHAINS_COMMISSION := 0;
  ASSETCHAINS_GENESISTXVAL := 5000000000; ASSETCHAINS_TIMEUNLOCKFROM := 0; ASSETCHAINS_TIMEUNLOCKTO := 0;
  is_STAKED := 0 |}.

Lemma unrewarded_at h :
  0 < h < 2 ^ 31 -> subsidy_at (H := unrewarded) h = Ok (if h =? 1 then 1000000000 else 10000).
Proof. intros Hh; unfold subsidy_at, komodo_ac_block_subsidy, add_supply; cbn; now destruct (h =? 1). Qed.

Lemma unrewarded_minted n :
  (0 < n)%nat -> Z.of_nat n < 2 ^ 31 -> minted (H := unrewarded) n = Ok (1000000000 + 10000 * (Z.of_nat n - 1)).
Proof.
  intros Hn; induction n as [| n IH]; [lia |]; intros Hb; cbn [minted]; rewrite unrewarded_at by lia.
  destruct (Z.eqb_spec (Z.of_nat (S n)) 1); [now replace n with 0%nat by lia |].
  rewrite IH by lia; cbn [mbind res_bind]; f_equal; lia.
Qed.
End Example_subsidy.

(** On a chain without configured rewards the supply is not covered: the
    product of the height with the block reward in [komodo_current_supply]
    wraps at 32 bits, so [komodo_max_money], 73 coins, is far less than the
    1010 coins that the chain mints by the height it is computed for. *)
Theorem unrewarded_supply_wraps :
  exists m total, komodo_max_money (H := Example_subsidy.unrewarded) = Ok m /\
    minted (H := Example_subsidy.unrewarded) (Z.to_nat 10000000) = Ok total /\ m + 900 * COIN < total.
Proof.
  do 2 eexists; split; [vm_compute; reflexivity |].
  split; [apply Example_subsidy.unrewarded_minted; lia |]; rewrite Z2Nat.id by lia; unfold COIN; lia.
Qed.

Lemma supply_covers_rewards_witness :
  exists total m, minted (H := Example_subsidy.elosys) 1000 = Ok total /\
    komodo_current_supply (H := Example_subsidy.elosys) 1000 = Ok m /\
    total + SATOSHIDEN + 5000000000 <= m < 2 ^ 63.
Proof.
  apply (supply_covers_rewards (H := Example_subsidy.elosys) 25600000000 388885 1000);
    [exact Example_subsidy.elosys_halves | lia | lia | vm_compute; reflexivity | vm_compute; reflexivity].
Defined.
