(* ===== verification/TxInputs.v ===== *)
(** * Checks of a transaction against the coin set

    Consensus::CheckTxInputs and GetP2SHSigOpCount of main.cpp, GetValueIn and
    HaveJoinSplitRequirementsDuplicateProofs of coins.cpp. *)
From stdpp Require Import gmap functions strings.
From S2P Require Import Prelude Endian Hashing Merkle Script Serialize Transaction TxCheck Interest Subsidy.
From S2P Require Import Coins CoinsView UpdateCoins.

(** Consensus parameters; [GetCoinImportValue] (importcoin.cpp) decodes the
    proof that an import carries. *)
Class SpendParams := {
  CoinbaseMaturity : Z;
  coinbase_protected : bool;
  ASSETCHAINS_TIMELOCKGTE : Z;
  GetCoinImportValue : CTransaction -> Z;
}.

Section Inputs.
Context {Tree : Type} `{AnchorTrees Tree, NoteTrees Tree, HashFunctions, ChainParams, MoneyLimit, SpendParams,
  InterestChain, SubsidyParams}.
Abbreviation view := (view Tree).

(** The workers of [HaveJoinSplitRequirementsDuplicateProofs]: they stop at the
    first proof that is recorded. *)
Fixpoint duplicate_proofs (v : view) (t : ProofType) (hs : list uint256) : bool * view :=
  match hs with
  | [] => (true, v)
  | h :: hs =>
      let '(found, txids, v) := GetZkProofHash v t h in
      if found then (bool_decide (txids = ∅), v) else duplicate_proofs v t hs
  end.

Definition HaveJoinSplitRequirementsDuplicateProofs (v : view) (tx : CTransaction) : bool * view :=
  let '(b1, v) := duplicate_proofs v SPEND (map (fun d => Hash (sp_zkproof d)) (vShieldedSpend tx)) in
  let '(b2, v) := duplicate_proofs v OUTPUT (map (fun d => Hash (od_zkproof d)) (vShieldedOutput tx)) in
  (b1 && b2, v).

(** ** CheckTxInputs *)

(** The rules for spending a coinbase. *)
Definition check_coinbase_spend (tx : CTransaction) (coins : CCoins) (nSpendHeight : Z) : res reject unit :=
  if fCoinBase coins then
    _ ← reject_if ((ASSETCHAINS_TIMELOCKGTE <=? u64 (TotalTxValue coins))
                   && (u64 nSpendHeight <? u64 (komodo_block_unlocktime (u32 (coins_nHeight coins)))))
          (DoS 10 "bad-txns-premature-spend-of-coinbase");
    _ ← reject_if (i32 (nSpendHeight - coins_nHeight coins) <? CoinbaseMaturity)
          (DoS 0 "bad-txns-premature-spend-of-coinbase");
    reject_if (coinbase_protected && negb (empty_list (tx_vout tx)))
      (DoS 100 "bad-txns-coinbase-spend-has-transparent-outputs")
  else Ok tt.

(** The interest that an input earns on the KMD chain. *)
Definition accrued (hash : uint256) (n value tipheight : Z) : Z :=
  i64 (fst (fst (komodo_accrued_interest hash (i32 n) 0 (u64 value) tipheight))).

Definition input_interest (hash : uint256) (n value nSpendHeight : Z) : Z :=
  if isKMD && (60000 <? nSpendHeight) && (10 * COIN <=? value)
  then accrued hash n value (i32 (nSpendHeight - 1)) else 0.

(** The loop over the inputs: [nValueIn]. *)
Fixpoint check_inputs_loop (v : view) (tx : CTransaction) (l : list (uint256 * Z)) (nSpendHeight nValueIn : Z)
    : res reject (Z * view) :=
  match l with
  | [] => Ok (nValueIn, v)
  | (hash, n) :: l =>
      let '(r, v) := AccessCoins v hash in
      match r with
      | None => Exn assertion_failed
      | Some coins =>
          _ ← check_coinbase_spend tx coins nSpendHeight;
          match vout coins !! Z.to_nat n with
          | None => Exn oob_read
          | Some o =>
              let nValueIn := i64 (nValueIn + nValue o) in
              let nValueIn := i64 (nValueIn + input_interest hash n (nValue o) nSpendHeight) in
              _ ← reject_if (negb (MoneyRange (nValue o)) || negb (MoneyRange nValueIn))
                    (DoS 100 "bad-txns-inputvalues-outofrange");
              check_inputs_loop v tx l nSpendHeight nValueIn
          end
      end
  end.

(** The shielded requirements, in the error type of the checks. *)
Definition reject_requirements (v : view) (tx : CTransaction) : res reject (bool * view) :=
  rethrow (HaveJoinSplitRequirements v tx).

(** [state.Invalid(...)] without a reason. *)
Definition invalid : reject := mkReject 0 0 "".

(** [CheckTxInputs]: the fee it tallies, and the view. *)
Definition CheckTxInputs (v : view) (tx : CTransaction) (nSpendHeight : Z) : res reject (Z * view) :=
  let '(have, v) := HaveInputs v tx in
  if negb have then Err invalid
  else
    '(ok, v) ← reject_requirements v tx;
    if negb ok then Err invalid
    else
      let '(_, v) := HaveJoinSplitRequirementsDuplicateProofs v tx in
      '(nValueIn, v) ← check_inputs_loop v tx (prevouts tx) nSpendHeight 0;
      shielded ← GetShieldedValueIn tx;
      let nValueIn := i64 (nValueIn + shielded) in
      _ ← reject_if (negb (MoneyRange nValueIn)) (DoS 100 "bad-txns-inputvalues-outofrange");
      valueOut ← GetValueOut tx;
      _ ← reject_if (nValueIn <? valueOut) (DoS 100 "bad-txns-in-belowout");
      let nTxFee := i64 (nValueIn - valueOut) in
      _ ← reject_if (nTxFee <? 0) (DoS 100 "bad-txns-fee-negative");
      _ ← reject_if (negb (MoneyRange nTxFee)) (DoS 100 "bad-txns-fee-outofrange");
      Ok (nTxFee, v).

(** ** GetP2SHSigOpCount *)

Fixpoint p2sh_sigops {E} (v : view) (l : list CTxIn) (nSigOps : Z) : res E (Z * view) :=
  match l with
  | [] => Ok (nSigOps, v)
  | i :: l =>
      '(o, v) ← GetOutputFor v (op_hash (prevout i)) (op_n (prevout i));
      let n := if IsPayToScriptHash (scriptPubKey o)
               then u32 (nSigOps + GetSigOpCount_sig (scriptPubKey o) (scriptSig i)) else nSigOps in
      p2sh_sigops v l n
  end.

Definition GetP2SHSigOpCount {E} (v : view) (tx : CTransaction) : res E (Z * view) :=
  if IsCoinBase tx || IsCoinImport tx then Ok (0, v) else p2sh_sigops v (tx_vin tx) 0.

(** ** GetValueIn *)

(** The loop: [nResult] and [interestp]. *)
Fixpoint value_in_loop {E} (v : view) (l : list (uint256 * Z)) (nHeight nResult interestp : Z)
    : res E (Z * Z * view) :=
  match l with
  | [] => Ok (nResult, interestp, v)
  | (hash, n) :: l =>
      '(o, v) ← GetOutputFor v hash n;
      let value := nValue o in
      let nResult := i64 (nResult + value) in
      if isKMD && (60000 <=? nHeight) && (10 * COIN <=? value) then
        let interest := accrued hash n value nHeight in
        value_in_loop v l nHeight (i64 (nResult + interest)) (i64 (interestp + interest))
      else value_in_loop v l nHeight nResult interestp
  end.

(** [GetValueIn]: value, interest and view. *)
Definition GetValueIn {E} (v : view) (tx : CTransaction) (nHeight : Z) : res E (Z * Z * view) :=
  if IsCoinImport tx then Ok (GetCoinImportValue tx, 0, v)
  else if IsCoinBase tx then Ok (0, 0, v)
  else
    '(nResult, interestp, v) ← value_in_loop v (prevouts tx) nHeight 0 0;
    shielded ← GetShieldedValueIn tx;
    Ok (i64 (nResult + shielded), interestp, v).
End Inputs.
