(* ===== verification/ViewReads.v ===== *)
(** * Reading the coin views

    Every check of a transaction reads the views and fills their caches.
    [loads] is what all of them have in common: the views still represent the
    same levels, and the best anchors that the top cache remembers are
    unchanged. *)
From stdpp Require Import gmap functions strings.
From S2P Require Import Prelude Endian Hashing Merkle Script Serialize Transaction TxCheck Interest Subsidy.
From S2P Require Import Coins CoinsView CoinsViewSpec UpdateCoins UpdateCoinsSpec TxInputs.

Section Reading.
Context {Tree : Type} `{AnchorTrees Tree, NoteTrees Tree, HashFunctions}.
Abbreviation cache := (CCoinsViewCache Tree).
Abbreviation view := (view Tree).
Abbreviation top := (cache * view)%type.
Abbreviation vtop v := (VCache v.1 v.2).

Lemma as_top_ok (v : view) (old : top) l s :
  good v (l :: s) -> s <> [] -> vtop (as_top v old) = v.
Proof. intros (_ & _ & Hr) Hs; destruct v as [d | c b]; [destruct s; [congruence | destruct Hr] | reflexivity]. Qed.

Lemma good_level (v : view) l s : good v (l :: s) -> level_of v l.
Proof. intros Hg; destruct (good_cons v _ Hg) as (l0 & s' & [= <- <-] & Hl); exact Hl. Qed.

Lemma good_below (v : top) l s : good (vtop v) (l :: s) -> s <> [].
Proof. intros Hg; destruct (good_cache _ _ _ _ Hg) as (l2 & s2 & -> & _); discriminate. Qed.

(** The best anchors the top cache remembers. *)
Definition top_anchor (v : view) (t : ShieldedType) : uint256 :=
  match v with VCache c _ => hashAnchor c t | VDB _ => uint256_null end.

(** The best block the top cache remembers; null when it does not know it. *)
Definition top_block (v : view) : uint256 := match v with VCache c _ => hashBlock c | VDB _ => uint256_null end.

Record loads (v v' : view) : Prop := {
  ld_good : forall l s, good v (l :: s) -> good v' (l :: s);
  ld_anchor : forall t, top_anchor v' t = top_anchor v t;
  ld_block : IsNull (top_block v) = false -> top_block v' = top_block v;
}.

#[global] Instance loads_preorder : PreOrder loads.
Proof.
  split; [now split |]; intros v1 v2 v3 [G1 A1 B1] [G2 A2 B2]; split; [eauto | intros t; now rewrite A2 |].
  intros Hn; rewrite B2; rewrite B1; auto.
Qed.

(** A read that changes neither coins nor nullifiers, nor the best hashes. *)
Lemma loads_same (v v' : view) :
  same_coins v v' -> (forall t, top_anchor v' t = top_anchor v t) ->
  (IsNull (top_block v) = false -> top_block v' = top_block v) -> loads v v'.
Proof. intros Hs Ha Hb; split; [| exact Ha | exact Hb]; intros l s; now apply good_same. Qed.

(** ** The primitive reads *)

Lemma GetCoins_loads (v : view) txid : loads v (snd (GetCoins v txid)).
Proof.
  split.
  - intros l s (Hc & Hn & Hr); pose proof (GetCoins_ok v txid Hc) as (_ & Hc' & _).
    pose proof (nf_GetCoins v txid Hn) as [Hn' _]; split; [exact Hc' |]; split; [exact Hn' |].
    now apply represents_GetCoins.
  - intros t; destruct v as [d | c b]; cbn [GetCoins]; [reflexivity |]; destruct (cacheCoins c !! txid); [reflexivity |].
    destruct (GetCoins b txid) as [[tmp |] b']; reflexivity.
  - intros _; destruct v as [d | c b]; cbn [GetCoins]; [reflexivity |]; destruct (cacheCoins c !! txid); [reflexivity |].
    destruct (GetCoins b txid) as [[tmp |] b']; reflexivity.
Qed.

Lemma AccessCoins_loads (v v' : view) txid r : AccessCoins v txid = (r, v') -> loads v v'.
Proof. unfold AccessCoins; intros E; pose proof (GetCoins_loads v txid) as L; now rewrite E in L. Qed.

Lemma GetAnchorAt_loads (v v' : view) t rt r : GetAnchorAt v t rt = (r, v') -> loads v v'.
Proof.
  intros E; assert (Hs : same_coins v v') by (pose proof (GetAnchorAt_same v t rt) as S; now rewrite E in S).
  destruct v as [d | c b]; cbn [GetAnchorAt] in E; [injection E as _ <-; reflexivity |].
  destruct (cacheAnchors c t !! rt); [injection E as _ <-; reflexivity |].
  destruct (GetAnchorAt b t rt) as [[tree |] b']; injection E as _ <-; now apply loads_same.
Qed.

Lemma GetNullifier_loads {E} (v v' : view) t nf r : GetNullifier (E := E) v t nf = Ok (r, v') -> loads v v'.
Proof.
  intros E1; assert (Ht : nf_type t) by (destruct t, v; try discriminate E1; (now left) || (now right)); split.
  - intros l s (Hc & Hn & Hr); destruct (GetNullifier_ok (E := E) v t nf Ht Hn) as (v2 & E2 & Hn' & Hc' & _ & _ & _ & Hr').
    rewrite E1 in E2; injection E2 as _ <-; split; auto.
  - intros t'; destruct Ht as [-> | ->], v as [d | c b]; cbn [GetNullifier] in E1;
      try (injection E1 as _ <-; reflexivity);
      (destruct (cacheNullifiers c _ !! nf); [injection E1 as _ <-; reflexivity |];
       destruct (GetNullifier b _ nf) as [[q b'] | |]; cbn in E1; try discriminate; injection E1 as _ <-; reflexivity).
  - intros _; destruct Ht as [-> | ->], v as [d | c b]; cbn [GetNullifier] in E1;
      try (injection E1 as _ <-; reflexivity);
      (destruct (cacheNullifiers c _ !! nf); [injection E1 as _ <-; reflexivity |];
       destruct (GetNullifier b _ nf) as [[q b'] | |]; cbn in E1; try discriminate; injection E1 as _ <-; reflexivity).
Qed.

Lemma GetNullifier_spent {E} (v v' : view) l s t nf r :
  good v (l :: s) -> nf_type t -> GetNullifier (E := E) v t nf = Ok (r, v') -> lv_spent l t nf = r.
Proof.
  intros Hg Ht E1; destruct (GetNullifier_ok (E := E) v t nf Ht (proj1 (proj2 Hg))) as (v2 & E2 & _).
  rewrite E1 in E2; injection E2 as -> _; exact (proj2 (good_level v l s Hg) t nf Ht).
Qed.

Lemma GetZkProofHash_same (v v' : view) t h r : GetZkProofHash v t h = (r, v') -> same_coins v v'.
Proof.
  revert v' r; induction v as [d | c b IH]; intros v' r; cbn [GetZkProofHash]; [intros [= _ <-]; reflexivity |].
  destruct (cacheProofHash c t !! h); [intros [= _ <-]; apply same_coins_refl |].
  destruct (GetZkProofHash b t h) as [[f s] b'] eqn:Eb; intros [= _ <-]; cbn; repeat split; eapply IH; reflexivity.
Qed.

Lemma GetZkProofHash_loads (v v' : view) t h r : GetZkProofHash v t h = (r, v') -> loads v v'.
Proof.
  intros E; pose proof (GetZkProofHash_same _ _ _ _ _ E) as Hs.
  destruct v as [d | c b]; cbn [GetZkProofHash] in E; [injection E as _ <-; reflexivity |].
  destruct (cacheProofHash c t !! h); [injection E as _ <-; reflexivity |].
  destruct (GetZkProofHash b t h) as [[f s] b']; injection E as _ <-; now apply loads_same.
Qed.

Lemma GetBestBlock_loads (v v' : view) r : GetBestBlock v = (r, v') -> loads v v'.
Proof.
  intros E; assert (Hs : same_coins v v') by (pose proof (GetBestBlock_same v) as S; now rewrite E in S).
  destruct v as [d | c b]; cbn [GetBestBlock] in E; [injection E as _ <-; reflexivity |].
  destruct (IsNull (hashBlock c)) eqn:En; [| injection E as _ <-; reflexivity].
  destruct (GetBestBlock b) as [h b']; injection E as _ <-; apply loads_same; [exact Hs | reflexivity |].
  cbn; congruence.
Qed.

(** Once known, the best block is the one the top cache remembers. *)
Lemma GetBestBlock_top (v v' : view) r :
  GetBestBlock v = (r, v') -> IsNull (top_block v) = false -> r = top_block v.
Proof.
  destruct v as [d | c b]; cbn; [intros _; cbn; discriminate |]; intros E Hn; rewrite Hn in E; congruence.
Qed.

Lemma GetBestBlock_known (c : cache) (b : view) v' r :
  GetBestBlock (VCache c b) = (r, v') -> top_block v' = r.
Proof.
  cbn; destruct (IsNull (hashBlock c)); [destruct (GetBestBlock b) |]; now intros [= <- <-].
Qed.

Lemma GetOutputFor_loads {E} (v v' : view) h n o : GetOutputFor (E := E) v h n = Ok (o, v') -> loads v v'.
Proof.
  unfold GetOutputFor; destruct (AccessCoins v h) as [[c |] v1] eqn:Ea; [| discriminate].
  apply AccessCoins_loads in Ea; destruct (IsAvailable c n); cbn [assert_ mbind res_bind]; [| discriminate].
  destruct (vout c !! _); [intros [= _ <-]; exact Ea | discriminate].
Qed.

(** An unspent outpoint is found, with the coins of the level. *)
Lemma AccessCoins_ok (v : view) l s p :
  good v (l :: s) -> available l p ->
  exists c o v', AccessCoins v p.1 = (Some c, v') /\ good v' (l :: s) /\ lv_coins l p.1 = Some c /\
    vout c !! Z.to_nat p.2 = Some o /\ IsAvailable c p.2 = true.
Proof.
  intros Hg (Hp & c & Hl & Ha); pose proof (ld_good _ _ (GetCoins_loads v p.1) l s Hg) as Hg'; unfold AccessCoins.
  pose proof (proj1 (good_level v l s Hg)) as HL; pose proof (GetCoins_ok v p.1 (proj1 Hg)) as (Hcan & _).
  destruct (GetCoins v p.1) as [r v']; cbn [fst snd] in *; rewrite <- HL, Hl in Hcan.
  destruct r as [c' |]; cbn in Hcan; [| discriminate].
  unfold canon in Hcan; destruct (IsPruned c'); [discriminate |]; injection Hcan as ->.
  pose proof (proj1 (IsAvailable_iff c p.2 Hp) Ha) as (o & Ho & _).
  exists c, o, v'; auto.
Qed.

(** ** The composed reads *)

Lemma have_inputs_loads l : forall v : view, loads v (snd (have_inputs_loop v l)).
Proof.
  induction l as [| [h n] l IH]; intros v; cbn [have_inputs_loop]; [reflexivity |].
  destruct (AccessCoins v h) as [[c |] v'] eqn:Ea; apply AccessCoins_loads in Ea; [| exact Ea].
  destruct (IsAvailable c n); [etransitivity; [exact Ea | apply IH] | exact Ea].
Qed.

Lemma HaveInputs_loads (v v' : view) tx r : HaveInputs v tx = (r, v') -> loads v v'.
Proof.
  unfold HaveInputs; destruct (IsMint tx); [now intros [= _ <-] |]; intros E.
  pose proof (have_inputs_loads (prevouts tx) v) as L; now rewrite E in L.
Qed.

Lemma HaveInputs_ok (v v' : view) l s tx :
  good v (l :: s) -> IsMint tx = false -> Forall (fun p => 0 <= p.2) (prevouts tx) ->
  HaveInputs v tx = (true, v') -> Forall (available l) (prevouts tx).
Proof.
  intros Hg Hm Hi; unfold HaveInputs; rewrite Hm; intros E.
  destruct (have_inputs_loop_ok (prevouts tx) v (l :: s) Hi Hg) as [_ Hiff]; rewrite E in Hiff.
  apply Forall_forall; intros p Hp.
  destruct (proj1 (Forall_forall _ _) (proj1 Hiff eq_refl) p Hp) as (c & Hu & Ha).
  split; [exact (proj1 (Forall_forall _ _) Hi p Hp) |]; exists c.
  now rewrite (proj1 (good_level v l s Hg)).
Qed.

Lemma nullifier_spent_loads {E} t nfs : forall (v v' : view) r,
  nullifier_spent (E := E) v t nfs = Ok (r, v') -> loads v v'.
Proof.
  induction nfs as [| nf nfs IH]; intros v v' r; cbn [nullifier_spent]; [now intros [= _ <-] |].
  destruct (GetNullifier v t nf) as [[q v1] | |] eqn:Eg; cbn [mbind res_bind]; try discriminate.
  apply GetNullifier_loads in Eg; destruct q; [now intros [= _ <-] |]; intros En; etransitivity; eauto.
Qed.

Lemma nullifier_spent_ok {E} t nfs : forall (v v' : view) l s,
  nf_type t -> good v (l :: s) -> nullifier_spent (E := E) v t nfs = Ok (false, v') ->
  forall x, x ∈ nfs -> lv_spent l t x = false.
Proof.
  induction nfs as [| nf nfs IH]; intros v v' l s Ht Hg E1 x Hx; cbn [nullifier_spent] in E1;
    [now apply not_elem_of_nil in Hx |].
  destruct (GetNullifier v t nf) as [[q v1] | |] eqn:Eg; cbn [mbind res_bind] in E1; try discriminate.
  destruct q; [discriminate |]; apply elem_of_cons in Hx as [-> | Hx]; [eapply GetNullifier_spent; eassumption |].
  apply GetNullifier_loads in Eg; eapply IH; [exact Ht | apply Eg, Hg | exact E1 | exact Hx].
Qed.

(** The tree of a join-split: an earlier one of the transaction, or an anchor. *)
Lemma joinsplit_tree_loads (v v' : view) (im : gmap uint256 Tree) a r :
  match im !! a with Some tree => (Some tree, v) | None => GetAnchorAt v SPROUT a end = (r, v') -> loads v v'.
Proof. destruct (im !! a); [now intros [= _ <-] | apply GetAnchorAt_loads]. Qed.

Lemma joinsplit_loop_ok jss : forall (v v' : view) im r,
  joinsplit_loop v im jss = Ok (r, v') ->
  loads v v' /\ forall l s, good v (l :: s) -> r = true ->
    forall x, x ∈ concat (map js_nullifiers jss) -> lv_spent l SPROUT x = false.
Proof.
  induction jss as [| js jss IH]; intros v v' im r; cbn [joinsplit_loop].
  { intros [= <- <-]; split; [reflexivity |]; intros l s _ _ x Hx; now apply not_elem_of_nil in Hx. }
  destruct (nullifier_spent v SPROUT (js_nullifiers js)) as [[sp v1] | |] eqn:En; cbn [mbind res_bind]; try discriminate.
  pose proof (nullifier_spent_loads _ _ _ _ _ En) as L1.
  destruct sp; [intros [= <- <-]; split; [exact L1 | discriminate] |].
  destruct (match im !! js_anchor js with Some _ => _ | None => _ end) as [o v2] eqn:Ep; apply joinsplit_tree_loads in Ep.
  destruct o as [tree |]; [| intros [= <- <-]; split; [now transitivity v1 | discriminate]].
  destruct (append_all tree (js_commitments js)) as [tree' | |]; cbn [mbind res_bind]; try discriminate.
  intros Ej; destruct (IH _ _ _ _ Ej) as [L3 N3]; split; [transitivity v1; [exact L1 |]; now transitivity v2 |].
  intros l s Hg Hr x Hx; cbn [map concat] in Hx; apply elem_of_app in Hx as [Hx | Hx].
  - eapply nullifier_spent_ok; [now left | exact Hg | exact En | exact Hx].
  - eapply N3; [apply Ep, L1, Hg | exact Hr | exact Hx].
Qed.

Lemma anchors_known_loads ds : forall (v v' : view) r, anchors_known v ds = (r, v') -> loads v v'.
Proof.
  induction ds as [| d ds IH]; intros v v' r; cbn [anchors_known]; [now intros [= _ <-] |].
  destruct (GetAnchorAt v SAPLING (sp_anchor d)) as [[tree |] v1] eqn:Ea; apply GetAnchorAt_loads in Ea.
  - intros E; etransitivity; [exact Ea | eapply IH, E].
  - intros [= _ <-]; exact Ea.
Qed.

Lemma requirements_ok (v v' : view) tx r :
  HaveJoinSplitRequirements v tx = Ok (r, v') ->
  loads v v' /\ forall l s, good v (l :: s) -> r = true ->
    forall t x, nf_type t -> x ∈ marked (sprout_nullifiers tx) (sapling_nullifiers tx) t -> lv_spent l t x = false.
Proof.
  unfold HaveJoinSplitRequirements.
  destruct (joinsplit_loop v ∅ (vjoinsplit tx)) as [[ok v1] | |] eqn:Ej; cbn [mbind res_bind]; try discriminate.
  apply joinsplit_loop_ok in Ej as [L1 Hspr].
  destruct ok; cbn [negb]; [| intros [= <- <-]; split; [exact L1 | discriminate]].
  destruct (nullifier_spent v1 SAPLING (sapling_nullifiers tx)) as [[sp v2] | |] eqn:En; cbn [mbind res_bind]; try discriminate.
  pose proof (nullifier_spent_loads _ _ _ _ _ En) as L2.
  destruct (anchors_known v2 (vShieldedSpend tx)) as [known v3] eqn:Ea; apply anchors_known_loads in Ea.
  intros [= <- <-]; split; [transitivity v1; [exact L1 |]; now transitivity v2 |].
  intros l s Hg Hr t x Ht Hx; apply andb_prop in Hr as [Hr _]; apply negb_true_iff in Hr; subst sp.
  destruct Ht as [-> | ->]; cbn [marked] in Hx; [eapply Hspr; eauto |].
  eapply nullifier_spent_ok; [now right | apply L1, Hg | exact En | exact Hx].
Qed.

Lemma duplicate_proofs_loads t hs : forall (v v' : view) r, duplicate_proofs v t hs = (r, v') -> loads v v'.
Proof.
  induction hs as [| h hs IH]; intros v v' r; cbn [duplicate_proofs]; [now intros [= _ <-] |].
  destruct (GetZkProofHash v t h) as [[[] s] v1] eqn:Ez; apply GetZkProofHash_loads in Ez.
  - intros [= _ <-]; exact Ez.
  - intros E; etransitivity; [exact Ez | eapply IH, E].
Qed.

Lemma duplicates_loads (v v' : view) tx r : HaveJoinSplitRequirementsDuplicateProofs v tx = (r, v') -> loads v v'.
Proof.
  unfold HaveJoinSplitRequirementsDuplicateProofs.
  destruct (duplicate_proofs v SPEND _) as [b1 v1] eqn:E1; apply duplicate_proofs_loads in E1.
  destruct (duplicate_proofs v1 OUTPUT _) as [b2 v2] eqn:E2; apply duplicate_proofs_loads in E2.
  intros [= _ <-]; now transitivity v1.
Qed.

Section Spending.
Context `{ChainParams, MoneyLimit, SpendParams, InterestChain, SubsidyParams}.

Lemma check_inputs_loads tx h ps : forall (v v' : view) t r,
  check_inputs_loop v tx ps h t = Ok (r, v') -> loads v v'.
Proof.
  induction ps as [| [hash n] ps IH]; intros v v' t r; cbn [check_inputs_loop]; [now intros [= _ <-] |].
  destruct (AccessCoins v hash) as [[c |] v1] eqn:Ea; apply AccessCoins_loads in Ea; [| discriminate].
  destruct (check_coinbase_spend tx c h) as [[] | |]; cbn [mbind res_bind]; try discriminate.
  destruct (vout c !! Z.to_nat n); [| discriminate].
  destruct (reject_if _ _) as [[] | |]; cbn [mbind res_bind]; try discriminate.
  intros E; etransitivity; [exact Ea | eapply IH, E].
Qed.

Lemma p2sh_sigops_loads {E} l : forall (v v' : view) n r, p2sh_sigops (E := E) v l n = Ok (r, v') -> loads v v'.
Proof.
  induction l as [| i l IH]; intros v v' n r; cbn [p2sh_sigops]; [now intros [= _ <-] |].
  destruct (GetOutputFor v _ _) as [[o v1] | |] eqn:Eo; cbn [mbind res_bind]; try discriminate.
  apply GetOutputFor_loads in Eo; intros E1; etransitivity; [exact Eo | eapply IH, E1].
Qed.

Lemma GetP2SHSigOpCount_loads {E} (v v' : view) tx r : GetP2SHSigOpCount (E := E) v tx = Ok (r, v') -> loads v v'.
Proof. unfold GetP2SHSigOpCount; destruct (_ || _); [now intros [= _ <-] | apply p2sh_sigops_loads]. Qed.

Lemma value_in_loads {E} l h : forall (v v' : view) a b r, value_in_loop (E := E) v l h a b = Ok (r, v') -> loads v v'.
Proof.
  induction l as [| [hash n] l IH]; intros v v' a b r; cbn [value_in_loop]; [now intros [= _ <-] |].
  destruct (GetOutputFor v hash n) as [[o v1] | |] eqn:Eo; cbn [mbind res_bind]; try discriminate.
  apply GetOutputFor_loads in Eo; destruct (_ && _); intros E1; (etransitivity; [exact Eo | eapply IH, E1]).
Qed.

Lemma GetValueIn_loads {E} (v v' : view) tx h r : GetValueIn (E := E) v tx h = Ok (r, v') -> loads v v'.
Proof.
  unfold GetValueIn; destruct (IsCoinImport tx); [now intros [= _ <-] |]; destruct (IsCoinBase tx); [now intros [= _ <-] |].
  destruct (value_in_loop v (prevouts tx) h 0 0) as [[[n i] v1] | |] eqn:El; cbn [mbind res_bind]; try discriminate.
  apply value_in_loads in El; destruct (GetShieldedValueIn tx); cbn [mbind res_bind]; try discriminate.
  intros [= _ <-]; exact El.
Qed.
End Spending.
End Reading.
