(* ===== verification/TxInputsSpec.v ===== *)
(** * What CheckTxInputs guarantees

    A transaction that the check accepts spends only unspent outputs, creates
    no money beyond the interest the rules allow, spends no immature coinbase
    and no spent nullifier; and the check changes no coin. *)
From stdpp Require Import gmap functions strings.
From S2P Require Import Prelude Endian Hashing Merkle Script Serialize Transaction TransactionSpec TxCheck.
From S2P Require Import Interest Subsidy Coins CoinsView CoinsViewSpec UpdateCoins UpdateCoinsSpec TxInputs.
From S2P Require Import ViewReads.

(** The output that an outpoint names in a level. *)
Definition coin_at (l : level) (p : uint256 * Z) : option CTxOut :=
  c ← lv_coins l p.1; vout c !! Z.to_nat p.2.

Definition input_value (l : level) (p : uint256 * Z) : Z := from_option nValue 0 (coin_at l p).

(** Amounts of the coins are 64-bit integers. *)
Definition level_amounts (l : level) : Prop :=
  forall t c, lv_coins l t = Some c -> Forall (fun o => is_i64 (nValue o)) (vout c).

(** A coinbase is deep enough, and unlocked when the chain locks coinbases. *)
Definition mature `{SpendParams, SubsidyParams, HashFunctions} (l : level) (h : Z) (p : uint256 * Z) : Prop :=
  forall c, lv_coins l p.1 = Some c -> fCoinBase c = true ->
    CoinbaseMaturity <= h - coins_nHeight c /\
    (ASSETCHAINS_TIMELOCKGTE <= u64 (TotalTxValue c) -> u64 (komodo_block_unlocktime (u32 (coins_nHeight c))) <= h).

Section Inputs.
Context {Tree : Type} `{AnchorTrees Tree, NoteTrees Tree, HashFunctions, ChainParams, MoneyLimit, SpendParams,
  InterestChain, SubsidyParams} `{!MoneyLimitOk _} (icok : InterestChainOk _).
Abbreviation view := (view Tree).

(** ** Amounts *)

Lemma input_interest_bound h n v nSpendHeight :
  0 <= v < 2 ^ 62 -> 0 <= 20 * input_interest h n v nSpendHeight <= v.
Proof.
  intros Hv; unfold input_interest; destruct (_ && _) eqn:E; [| lia]; apply andb_prop in E as [_ E].
  apply Z.leb_le in E; unfold COIN in E; unfold accrued; rewrite (uwrap_small 64) by lia.
  pose proof (accrued_bound _ icok h (i32 n) 0 v (i32 (nSpendHeight - 1)) ltac:(lia)) as Hb.
  pose proof (Z.mul_div_le v 20 ltac:(lia)); pose proof (Z.div_le_upper_bound v 20 v).
  rewrite swrap_small; [| lia..]; lia.
Qed.

(** One addition of the loop: a total that stays in range has not wrapped. *)
Lemma value_step t x i r :
  0 <= t <= MAX_MONEY -> is_i64 x -> (0 <= x -> 0 <= 20 * i <= x) -> i64 (i64 (t + x) + i) = r ->
  MoneyRange x = true -> MoneyRange r = true -> r = t + x + i.
Proof.
  intros Ht Hx Hi Hr Hm Hm'; pose proof money_limit; apply MoneyRange_iff in Hm, Hm'; specialize (Hi (proj1 Hm)).
  rewrite (swrap_small 64 (t + x)) in Hr by lia; subst r; unfold swrap in *.
  change (2 ^ (64 - 1)) with (2 ^ 63) in *.
  destruct (Z.lt_ge_cases (t + x + i) (2 ^ 63)) as [Hs | Hs]; [rewrite Z.mod_small in * by lia; lia |].
  rewrite <- (Z_mod_plus_full _ (-1)), Z.mod_small in Hm' by lia; lia.
Qed.

(** ** The loop *)

Lemma check_coinbase_ok tx c h :
  check_coinbase_spend tx c h = Ok tt -> fCoinBase c = true ->
  0 <= h < 2 ^ 31 -> 0 < coins_nHeight c < 2 ^ 31 ->
  CoinbaseMaturity <= h - coins_nHeight c /\
  (ASSETCHAINS_TIMELOCKGTE <= u64 (TotalTxValue c) -> u64 (komodo_block_unlocktime (u32 (coins_nHeight c))) <= h).
Proof.
  intros Hc Hf Hh Hn; unfold check_coinbase_spend in Hc; rewrite Hf in Hc.
  rewrite (uwrap_small 64 h), (swrap_small 32) in Hc by lia; unfold reject_if, mbind, res_bind in Hc.
  destruct (_ && _) eqn:E1 in Hc; [discriminate |]; destruct (_ <? _) eqn:E2 in Hc; [discriminate |].
  apply Z.ltb_ge in E2; split; [exact E2 |]; intros Hle; apply andb_false_iff in E1 as [E1 | E1];
    [apply Z.leb_gt in E1; lia | now apply Z.ltb_ge in E1].
Qed.

Lemma check_inputs_loop_ok tx l s h ps : forall (v v' : view) t r,
  good v (l :: s) -> level_wf l -> level_amounts l -> Forall (available l) ps ->
  0 <= h < 2 ^ 31 -> 0 <= t <= MAX_MONEY ->
  check_inputs_loop v tx ps h t = Ok (r, v') ->
  let interest := map (fun p => input_interest p.1 p.2 (input_value l p) h) ps in
  r = t + zsum (map (input_value l) ps) + zsum interest /\ 0 <= r <= MAX_MONEY /\
  0 <= 20 * zsum interest <= zsum (map (input_value l) ps) /\ Forall (mature l h) ps.
Proof.
  induction ps as [| [hash n] ps IH]; intros v v' t r Hg Hw Ha Hav Hh Ht; cbn [check_inputs_loop map zsum fold_right].
  { intros [= <- <-]; split; [lia |]; split; [lia |]; split; [lia | apply Forall_nil_2]. }
  apply Forall_cons_1 in Hav as [Hp Hav]; destruct (AccessCoins_ok v l s (hash, n) Hg Hp) as (c & o & v1 & E & Hg1 & Hl & Ho & _).
  cbn [fst snd] in *; rewrite E; destruct (check_coinbase_spend tx c h) as [[] | |] eqn:Ec; [| discriminate..].
  cbn [mbind res_bind]; rewrite Ho.
  assert (Hv : input_value l (hash, n) = nValue o)
    by (unfold input_value, coin_at; cbn [fst snd]; rewrite Hl; cbn; now rewrite Ho).
  rewrite <- Hv in *; set (x := input_value l (hash, n)) in *; set (i := input_interest hash n x h) in *.
  destruct (MoneyRange x) eqn:Ex; cbn [negb orb reject_if]; [| discriminate].
  destruct (MoneyRange (i64 _)) eqn:Er; cbn [negb reject_if]; [| discriminate].
  pose proof money_limit as Hm; pose proof (proj1 (MoneyRange_iff x) Ex) as Hx.
  pose proof (input_interest_bound hash n x h ltac:(lia)) as Hi; fold i in Hi.
  assert (Es : i64 (i64 (t + x) + i) = t + x + i)
    by (eapply value_step; [exact Ht | unfold is_i64; lia | auto | reflexivity | exact Ex | exact Er]).
  rewrite Es in *.
  apply MoneyRange_iff in Er; intros Hr.
  destruct (IH v1 v' _ r Hg1 Hw Ha Hav Hh Er Hr) as (R & B & I & M); unfold zsum in *.
  split; [lia |]; split; [exact B |]; split; [lia |].
  apply Forall_cons_2; [| exact M]; intros c' Hc' Hf; cbn [fst] in Hc'; rewrite Hl in Hc'; injection Hc' as <-.
  eapply check_coinbase_ok; eauto; apply (Hw _ _ Hl).
Qed.

(** What an accepted transaction does: the equation of values, with the interest
    of spending at height [h]. *)
Definition inputs_value (l : level) (tx : CTransaction) : Z := zsum (map (input_value l) (prevouts tx)).
Definition inputs_interest (l : level) (tx : CTransaction) (h : Z) : Z :=
  zsum (map (fun p => input_interest p.1 p.2 (input_value l p) h) (prevouts tx)).

Record spends_ok (l : level) (tx : CTransaction) (h fee : Z) : Prop := {
  so_available : Forall (available l) (prevouts tx);
  so_value : inputs_value l tx + inputs_interest l tx h + shielded_value_in tx = value_out tx + fee;
  so_fee : 0 <= fee <= MAX_MONEY;
  so_interest : 0 <= 20 * inputs_interest l tx h <= inputs_value l tx;
  so_kmd : isKMD = false -> inputs_interest l tx h = 0;
  so_mature : Forall (mature l h) (prevouts tx);
  so_nullifiers : forall t x, nf_type t -> x ∈ marked (sprout_nullifiers tx) (sapling_nullifiers tx) t ->
    lv_spent l t x = false;
  so_total : 0 <= inputs_value l tx + inputs_interest l tx h <= MAX_MONEY /\ 0 <= shielded_value_in tx <= MAX_MONEY /\
    inputs_value l tx + inputs_interest l tx h + shielded_value_in tx <= MAX_MONEY;
  so_out : 0 <= value_out tx <= MAX_MONEY;
}.

Lemma no_interest l tx h : isKMD = false -> inputs_interest l tx h = 0.
Proof.
  intros Hk; unfold inputs_interest, zsum; induction (prevouts tx) as [| p ps IH]; cbn; [reflexivity |].
  rewrite IH; unfold input_interest; now rewrite Hk.
Qed.

Lemma shielded_nonneg tx : Forall (fun x => 0 <= x) (map vpub_new (vjoinsplit tx)) -> 0 <= shielded_value_in tx.
Proof. intros Hs; unfold shielded_value_in; pose proof (zsum_nonneg _ Hs); lia. Qed.

Lemma value_out_nonneg tx :
  Forall (fun x => 0 <= x) (map nValue (tx_vout tx)) -> Forall (fun x => 0 <= x) (map vpub_old (vjoinsplit tx)) ->
  0 <= value_out tx.
Proof. intros Ho Hj; unfold value_out; pose proof (zsum_nonneg _ Ho); pose proof (zsum_nonneg _ Hj); lia. Qed.

Lemma CheckTxInputs_ok (v v' : view) l s tx h fee :
  good v (l :: s) -> level_wf l -> level_amounts l -> IsMint tx = false ->
  Forall (fun p => 0 <= p.2) (prevouts tx) -> amounts_valid tx -> 0 <= h < 2 ^ 31 ->
  CheckTxInputs v tx h = Ok (fee, v') -> loads v v' /\ spends_ok l tx h fee.
Proof.
  intros Hg Hw Ha Hm Hi Hv Hh; unfold CheckTxInputs.
  destruct (HaveInputs v tx) as [have v1] eqn:Eh; pose proof (HaveInputs_loads _ _ _ _ Eh) as L1.
  destruct have; cbn [negb]; [| discriminate]; pose proof (HaveInputs_ok _ _ _ _ _ Hg Hm Hi Eh) as Hav.
  unfold reject_requirements; destruct (HaveJoinSplitRequirements v1 tx) as [[ok v2] | |] eqn:Eq;
    cbn [rethrow mbind res_bind]; try discriminate; apply requirements_ok in Eq as [L2 Hnf].
  destruct ok; cbn [negb]; [| discriminate]; pose proof (Hnf l s (ld_good _ _ L1 _ _ Hg) eq_refl) as Hnf'.
  destruct (HaveJoinSplitRequirementsDuplicateProofs v2 tx) as [b v3] eqn:Ed; apply duplicates_loads in Ed as L3.
  pose proof (ld_good _ _ L3 _ _ (ld_good _ _ L2 _ _ (ld_good _ _ L1 _ _ Hg))) as Hg3; pose proof money_limit as HM.
  destruct (check_inputs_loop v3 tx (prevouts tx) h 0) as [[r v4] | |] eqn:El; cbn [mbind res_bind]; try discriminate.
  pose proof (check_inputs_loads _ _ _ _ _ _ _ El) as L4.
  destruct (check_inputs_loop_ok tx l s h _ _ _ 0 r Hg3 Hw Ha Hav Hh ltac:(lia) El) as (R & B & I & M).
  fold (inputs_value l tx) in *; fold (inputs_interest l tx h) in *.
  destruct (GetShieldedValueIn tx) as [sh | |] eqn:Es; try discriminate.
  apply GetShieldedValueIn_ok in Es as (Hs0 & Hs1 & ->); [| exact Hv]; cbn [mbind res_bind].
  pose proof (shielded_nonneg tx Hs0) as Hsn; rewrite (swrap_small 64 (r + _)) by lia.
  destruct (MoneyRange (r + _)) eqn:Er; cbn [negb reject_if mbind res_bind]; [| discriminate]; apply MoneyRange_iff in Er.
  destruct (GetValueOut tx) as [out | |] eqn:Eo; try discriminate.
  apply GetValueOut_ok in Eo as (Ho0 & Ho1 & Ho2 & ->); [| exact Hv]; cbn [mbind res_bind].
  pose proof (value_out_nonneg tx Ho0 Ho1) as Hon.
  destruct (Z.ltb_spec (r + shielded_value_in tx) (value_out tx)); cbn [reject_if mbind res_bind]; [discriminate |].
  rewrite (swrap_small 64) by lia; destruct (Z.ltb_spec (r + shielded_value_in tx - value_out tx) 0); [lia |]; cbn [reject_if mbind res_bind].
  destruct (MoneyRange _) eqn:Ef; cbn [negb]; [apply MoneyRange_iff in Ef | discriminate]; intros [= <- <-].
  split; [transitivity v1; [exact L1 |]; transitivity v2; [exact L2 |]; now transitivity v3 |].
  split; [exact Hav | lia | exact Ef | exact I | apply no_interest | exact M | exact Hnf' | lia | lia].
Qed.

(** ** The value that a transaction takes in *)

(** The interest at the tip, as [GetValueIn] computes it. *)
Lemma interest_at_tip hash n x h :
  0 <= h < 2 ^ 31 - 1 ->
  input_interest hash n x (h + 1) =
  if isKMD && (60000 <=? h) && (10 * COIN <=? x) then accrued hash n x h else 0.
Proof.
  intros Hh; unfold input_interest; rewrite swrap_small by lia; replace (h + 1 - 1) with h by lia.
  now assert ((60000 <? h + 1) = (60000 <=? h)) as -> by (destruct (Z.ltb_spec 60000 (h + 1)), (Z.leb_spec 60000 h); lia).
Qed.

Lemma value_in_loop_ok {E} l s h ps : forall (v v' : view) a b r i,
  good v (l :: s) -> Forall (available l) ps -> 0 <= h < 2 ^ 31 - 1 -> is_i64 a -> is_i64 b ->
  value_in_loop (E := E) v ps h a b = Ok (r, i, v') ->
  let interest := zsum (map (fun p => input_interest p.1 p.2 (input_value l p) (h + 1)) ps) in
  r = i64 (a + zsum (map (input_value l) ps) + interest) /\ i = i64 (b + interest).
Proof.
  induction ps as [| [hash n] ps IH]; intros v v' a b r i Hg Hav Hh Ha Hb; cbn [value_in_loop map zsum fold_right].
  { intros [= <- <- <-]; rewrite !Z.add_0_r, !swrap_small by (unfold is_i64 in *; lia); auto. }
  apply Forall_cons_1 in Hav as [Hp Hav]; destruct (AccessCoins_ok v l s (hash, n) Hg Hp) as (c & o & v1 & E1 & Hg1 & Hl & Ho & Hc).
  cbn [fst snd] in *; unfold GetOutputFor; rewrite E1, Hc; cbn [assert_ mbind res_bind]; rewrite Ho.
  assert (Hv : input_value l (hash, n) = nValue o)
    by (unfold input_value, coin_at; cbn [fst snd]; rewrite Hl; cbn; now rewrite Ho).
  cbn [mbind res_bind]; cbv zeta; rewrite <- Hv, (interest_at_tip hash n _ h Hh).
  assert (Hr : forall x, is_i64 (i64 x)) by (intros x; apply (swrap_range 64); lia).
  set (x := input_value l (hash, n)); destruct (isKMD && (60000 <=? h) && (10 * COIN <=? x));
    intros E2; apply (IH v1) in E2 as [-> ->]; auto; cbv zeta; unfold zsum;
    repeat (rewrite <- ?Z.add_assoc, swrap_add by lia); split; f_equal; lia.
Qed.

(** ** The property *)

(** C16: a transaction that [CheckTxInputs] accepts conserves money.  Every
    outpoint it spends is unspent in the coin set; the values of those outputs,
    the interest and the value from the shielded pools are exactly the value
    out plus the fee, and no 64-bit sum wraps; the fee is between zero and
    [MAX_MONEY]; the interest is at most 5% of the inputs, and nothing off the
    KMD chain; coinbases are mature and unlocked; no nullifier is revealed
    twice; and the view still shows the same coins and nullifiers. *)
Theorem check_inputs_conserves (v v' : view) (l : level) (s : list level) (tx : CTransaction) (h fee : Z) :
  good v (l :: s) -> level_wf l -> level_amounts l -> IsMint tx = false ->
  Forall (fun p => 0 <= p.2) (prevouts tx) -> amounts_valid tx -> 0 <= h < 2 ^ 31 ->
  CheckTxInputs v tx h = Ok (fee, v') ->
  let values := inputs_value l tx in let interest := inputs_interest l tx h in
  Forall (available l) (prevouts tx) /\
  values + interest + shielded_value_in tx = value_out tx + fee /\ 0 <= fee <= MAX_MONEY /\
  0 <= 20 * interest <= values /\ (isKMD = false -> interest = 0) /\
  Forall (mature l h) (prevouts tx) /\
  (forall t x, nf_type t -> x ∈ marked (sprout_nullifiers tx) (sapling_nullifiers tx) t -> lv_spent l t x = false) /\
  good v' (l :: s).
Proof.
  intros Hg Hw Ha Hm Hi Hv Hh E; destruct (CheckTxInputs_ok v v' l s tx h fee Hg Hw Ha Hm Hi Hv Hh E) as [L []].
  cbv zeta; repeat (split; [assumption |]); apply L, Hg.
Qed.
End Inputs.

(** Trees that only count their commitments. *)
Module Example_counts.
#[global] Instance count_trees : AnchorTrees nat := {|
  tree_root := fun _ n => [1; Z.of_nat n];
  new_tree := fun _ => 0%nat;
  empty_root := fun _ => [1; 0];
  tree_usage := fun _ => 1;
  coins_usage := fun c => zlen (vout c);
|}.
#[global] Instance count_notes : NoteTrees nat := {|
  tree_append := fun n _ => Ok (S n);
  AppendBundle := fun n tx => (n + length (vShieldedOutput tx))%nat;
|}.
End Example_counts.

(** A coinbase output of 1000 coins, spent after 115 days with interest. *)
Module Example_inputs.
Definition coin : CCoins := mkCoins true [txout_SetNull; mkTxOut (1000 * COIN) [81]] 2000000 1.
Definition db : view nat :=
  VDB (mkDB {[ repeat 1 32 := coin ]} (fun _ => ∅) (fun _ => ∅) (fun _ => ∅) None (fun _ => None)).
Definition bottom : level := mkLevel (utxo db) (nf_spent db).
Definition tx_with (vin : list CTxIn) (vout : list CTxOut) : CTransaction :=
  mkTx false 1 0 vin vout 1600000000 0 0 [] [] [] uint256_null [] [].
Definition origin : CTransaction := tx_with [] [mkTxOut (1000 * COIN) [82]; mkTxOut (1000 * COIN) [81]].
Definition spender : CTransaction :=
  tx_with [mkTxIn (mkOutPoint (repeat 1 32) 1) [] 0] [mkTxOut (1003 * COIN) [81]].

#[local] Instance limit : MoneyLimit := 20000000000000000.
#[local] Instance limit_ok : MoneyLimitOk limit.
Proof. unfold MoneyLimitOk, MAX_MONEY, limit; lia. Qed.
#[local] Instance spend_params : SpendParams := {|
  CoinbaseMaturity := 100; coinbase_protected := false; ASSETCHAINS_TIMELOCKGTE := 2 ^ 64 - 1;
  GetCoinImportValue := fun _ => 0 |}.
#[local] Instance chain : InterestChain := {|
  GetTransaction := fun h => if decide (h = repeat 1 32) then Some (origin, [9]) else None;
  komodo_getblockindex := fun _ => Some (2000000, 1600000000);
  active_time := fun _ => None; Tip_nTime := Some 1610000000 |}.
Lemma chain_ok : InterestChainOk chain.
Proof.
  split; cbn; [intros t [= <-]; lia |]; intros h tx b; destruct (decide _); [intros [= <- <-]; cbn; lia | discriminate].
Qed.
#[local] Instance params : SubsidyParams := {|
  ASSETCHAINS_LASTERA := 0; ASSETCHAINS_REWARD := fun _ => 0; ASSETCHAINS_ENDSUBSIDY := fun _ => 0;
  ASSETCHAINS_HALVING := fun _ => 0; ASSETCHAINS_DECAY := fun _ => 0; ASSETCHAINS_SUPPLY := 10;
  ASSETCHAINS_MAGIC := 0; ASSETCHAINS_STAKED := 0; ASSETCHAINS_COMMISSION := 0; ASSETCHAINS_GENESISTXVAL := 0;
  ASSETCHAINS_TIMEUNLOCKFROM := 0; ASSETCHAINS_TIMEUNLOCKTO := 0; is_STAKED := 0 |}.

Lemma coin_only t c : lv_coins bottom t = Some c -> c = coin.
Proof.
  unfold bottom, db; cbn [lv_coins utxo db_coins]; destruct (decide (t = repeat 1 32)) as [-> | Hne].
  - rewrite lookup_singleton_eq; change (Some coin = Some c -> c = coin); congruence.
  - rewrite lookup_singleton_ne by congruence; discriminate.
Qed.

Lemma wf_spent_bottom : level_wf bottom.
Proof.
  intros t c ->%coin_only; split; [| split; [| split; [reflexivity | cbn; lia]]].
  - intros [| ? [| ? [| ? ?]]] o; cbn; intros [=]; subst; reflexivity.
  - repeat constructor; discriminate.
Qed.

Lemma amounts_bottom : level_amounts bottom.
Proof. intros t c ->%coin_only; repeat apply Forall_cons_2; [.. | apply Forall_nil_2]; vm_compute; split; discriminate || reflexivity. Qed.

Definition checked := CheckTxInputs (H1 := toy_hashes) (H2 := Example_interest.kmd) db spender 2001000.
End Example_inputs.

Lemma check_inputs_conserves_witness :
  exists fee v', Example_inputs.checked = Ok (fee, v') /\ 0 < fee <= 20000000000000000 /\
    value_out Example_inputs.spender + fee > 1000 * COIN /\
    good v' [Example_inputs.bottom].
Proof.
  destruct Example_inputs.checked as [[fee v'] | |] eqn:E; [| vm_compute in E; discriminate..].
  exists fee, v'; split; [reflexivity |].
  destruct (check_inputs_conserves (H1 := toy_hashes) (H2 := Example_interest.kmd) (H4 := Example_inputs.spend_params)
    (H6 := Example_inputs.params) (MoneyLimitOk0 := Example_inputs.limit_ok) Example_inputs.chain_ok
    Example_inputs.db v' Example_inputs.bottom [] Example_inputs.spender 2001000 fee) as (_ & _ & F & _ & _ & _ & _ & G).
  - split; [exact I |]; split; [exact I |]; now split.
  - exact Example_inputs.wf_spent_bottom.
  - exact Example_inputs.amounts_bottom.
  - reflexivity.
  - repeat constructor; cbn; lia.
  - repeat split; repeat constructor; vm_compute; discriminate || reflexivity.
  - lia.
  - exact E.
  - vm_compute in E; injection E as <- _; split; [split; [reflexivity | apply F] |]; split; [vm_compute; reflexivity | exact G].
Defined.
