(* ===== verification/Connect.v ===== *)
(** * Connecting a block

    main.cpp, ConnectBlock: every check it makes against the view (BIP30,
    signature operations, inputs, shielded requirements, values, scripts, the
    coinbase's amount, the Sapling root) and every change it makes to the view;
    ContextualCheckInputs with the script checks it runs or queues,
    VerifyCoinImport (importcoin.cpp) and komodo_commission
    (komodo_bitcoind.cpp).  The block has passed CheckBlock and is not the
    genesis block; the index databases are left out. *)
From stdpp Require Import gmap functions strings.
From S2P Require Import Prelude Endian Hashing Merkle Script Interpreter Serialize Transaction TxCheck Interest.
From S2P Require Import Subsidy Coins CoinsView UpdateCoins TxInputs.

(** Globals, the height of a block of mapBlockIndex, and what the checks ask of
    code outside this file: the signature checker of an input
    (ServerTransactionSignatureChecker of a transaction, an input and its
    amount), the evaluation of an import's condition, and the slow
    komodo_checkPOW of the block for an amount. *)
Class BlockEnv := {
  MAX_BLOCK_SIGOPS : Z;
  KOMODO_EXTRASATOSHI : Z;
  ASSETCHAINS_CC : Z;
  ASSETCHAINS_FOUNDERS : Z;
  ASSETCHAINS_FOUNDERS_REWARD : Z;
  nScriptCheckThreads : Z;
  mapBlockIndex_nHeight : uint256 -> option Z;
  ServerChecker : CTransaction -> nat -> Z -> BaseSignatureChecker;
  CheckEvalCondition : CTransaction -> list Z -> bool;
  komodo_checkPOW : Z -> Z;
}.

Definition KOMODO_NOTARIES_HEIGHT1 : Z := 814000.
Definition KOMODO_NOTARIES_HEIGHT2 : Z := 2588672.
Definition KOMODO_VALUETOOBIG (x : Z) : bool := u64 (10000000001 * COIN) <? x.
Definition REJECT_NONSTANDARD : Z := 64.

Definition MANDATORY_SCRIPT_VERIFY_FLAGS : Z := SCRIPT_VERIFY_P2SH.
Definition STANDARD_SCRIPT_VERIFY_FLAGS : Z :=
  fold_left Z.lor [SCRIPT_VERIFY_STRICTENC; SCRIPT_VERIFY_MINIMALDATA; SCRIPT_VERIFY_NULLDUMMY;
    SCRIPT_VERIFY_DISCOURAGE_UPGRADABLE_NOPS; SCRIPT_VERIFY_CLEANSTACK; SCRIPT_VERIFY_CHECKLOCKTIMEVERIFY;
    SCRIPT_VERIFY_LOW_S] MANDATORY_SCRIPT_VERIFY_FLAGS.
Definition STANDARD_NOT_MANDATORY_VERIFY_FLAGS : Z := Z.ldiff STANDARD_SCRIPT_VERIFY_FLAGS MANDATORY_SCRIPT_VERIFY_FLAGS.

Section Connect.
Context {Tree : Type} `{AnchorTrees Tree, NoteTrees Tree, HashFunctions, LowS, ChainParams, MoneyLimit, SpendParams,
  InterestChain, SubsidyParams, BlockEnv}.
Abbreviation cache := (CCoinsViewCache Tree).
Abbreviation view := (view Tree).
Abbreviation top := (cache * view)%type.
Abbreviation hashed_tx := (uint256 * CTransaction)%type.

(** ** Script checks *)

Record CScriptCheck := mkCheck {
  ck_scriptPubKey : list Z; ck_amount : Z; ck_ptxTo : CTransaction; ck_nIn : nat; ck_nFlags : Z; ck_branch : Z }.

(** The constructor, for the coins that the input spends. *)
Definition new_check {E} (coins : CCoins) (tx : CTransaction) (i : nat) (inp : CTxIn) (flags branch : Z)
    : res E CScriptCheck :=
  match vout coins !! Z.to_nat (op_n (prevout inp)) with
  | Some o => Ok (mkCheck (scriptPubKey o) (nValue o) tx i flags branch)
  | None => Exn oob_read
  end.

(** [CScriptCheck::operator()]: success or the script error. *)
Definition run_script (ck : CScriptCheck) : res ScriptError unit :=
  match tx_vin (ck_ptxTo ck) !! ck_nIn ck with
  | Some inp =>
      VerifyScript (H1 := ServerChecker (ck_ptxTo ck) (ck_nIn ck) (ck_amount ck)) ASSETCHAINS_CC
        (ck_nFlags ck) (ck_branch ck) (scriptSig inp) (ck_scriptPubKey ck)
  | None => Exn oob_read
  end.

(** [check()] without a queue, with the second run that tells a failure of
    standardness rules from a failure of mandatory ones. *)
Definition check_now (ck : CScriptCheck) : res reject unit :=
  match run_script ck with
  | Ok _ => Ok tt
  | Exn x => Exn x
  | Err e =>
      let mandatory :=
        DoS 100 (String.append "mandatory-script-verify-flag-failed (" (String.append (ScriptErrorString e) ")")) in
      if has_flag (ck_nFlags ck) STANDARD_NOT_MANDATORY_VERIFY_FLAGS then
        let flags2 := Z.ldiff (ck_nFlags ck) STANDARD_NOT_MANDATORY_VERIFY_FLAGS in
        match run_script (mkCheck (ck_scriptPubKey ck) (ck_amount ck) (ck_ptxTo ck) (ck_nIn ck) flags2 (ck_branch ck)) with
        | Ok _ => Err (mkReject 0 REJECT_NONSTANDARD
                    (String.append "non-mandatory-script-verify-flag (" (String.append (ScriptErrorString e) ")")))
        | Exn x => Exn x
        | Err _ => Err mandatory
        end
      else Err mandatory
  end.

(** The loop over the inputs; [queue] says whether [pvChecks] is given, and the
    result are the queued checks. *)
Fixpoint script_checks (v : view) (tx : CTransaction) (flags branch : Z) (queue : bool) (i : nat) (l : list CTxIn)
    : res reject (list CScriptCheck * view) :=
  match l with
  | [] => Ok ([], v)
  | inp :: l =>
      let '(r, v) := AccessCoins v (op_hash (prevout inp)) in
      match r with
      | None => Exn assertion_failed
      | Some coins =>
          check ← new_check coins tx i inp flags branch;
          _ ← (if queue then Ok tt else check_now check);
          '(checks, v) ← script_checks v tx flags branch queue (S i) l;
          Ok (if queue then check :: checks else checks, v)
      end
  end.

(** ** ContextualCheckInputs *)

(** [GetSpendHeight]; a best block without index entry is an invalid iterator. *)
Definition GetSpendHeight {E} (v : view) : res E (Z * view) :=
  let '(best, v) := GetBestBlock v in
  match mapBlockIndex_nHeight best with Some h => Ok (i32 (h + 1), v) | None => Exn oob_read end.

Definition VerifyCoinImport (scriptSig : list Z) (tx : CTransaction) : res reject unit :=
  let r := GetOp2 scriptSig in
  if go_ret r && empty_list (go_pc r) && negb (zlen (go_vch r) =? 0) && (nth 0 (go_vch r) 0 =? EVAL_IMPORTCOIN)
     && CheckEvalCondition tx (go_vch r)
  then Ok tt else Err (mkReject 0 0 "invalid-coin-import").

Definition ContextualCheckInputs (v : view) (tx : CTransaction) (fScriptChecks : bool) (flags branch : Z)
    (queue : bool) : res reject (list CScriptCheck * view) :=
  '(checks, v) ← (if negb (IsMint tx) then
                    '(height, v) ← GetSpendHeight v;
                    '(_, v) ← CheckTxInputs v tx height;
                    if fScriptChecks then script_checks v tx flags branch queue 0 (tx_vin tx) else Ok ([], v)
                  else Ok ([], v));
  _ ← (if IsCoinImport tx then
         match tx_vin tx with inp :: _ => VerifyCoinImport (scriptSig inp) tx | [] => Exn oob_read end
       else Ok tt);
  Ok (checks, v).

(** ** One transaction *)

(** What the loop of [ConnectBlock] carries: view, [nSigOps], [nFees], [sum],
    [stakeTxValue], the three trees and the queued script checks. *)
Record connect_state := mkConnect {
  cs_view : top; cs_sigops : Z; cs_fees : Z; cs_sum : Z; cs_stake : Z;
  cs_sprout : Tree; cs_sapling : Tree; cs_frontier : Tree; cs_checks : list CScriptCheck }.

(** The checks of a transaction that is not a mint: inputs, shielded
    requirements, P2SH signature operations. *)
Definition check_view (v : top) (tx : CTransaction) (nSigOps : Z) : res reject (Z * top) :=
  let '(have, v') := HaveInputs (VCache v.1 v.2) tx in
  _ ← reject_if (negb have) (DoS 100 "bad-txns-inputs-missingorspent");
  '(ok, v') ← reject_requirements v' tx;
  _ ← reject_if (negb ok) (DoS 100 "bad-txns-joinsplit-requirements-not-met");
  let '(_, v') := HaveJoinSplitRequirementsDuplicateProofs v' tx in
  '(n, v') ← GetP2SHSigOpCount v' tx;
  let nSigOps := u32 (nSigOps + n) in
  _ ← reject_if (MAX_BLOCK_SIGOPS <? nSigOps) (DoS 100 "bad-blk-sigops");
  Ok (nSigOps, as_top v' v).

(** The values and the input checks of a transaction that is not a coinbase:
    fee, interest, queued script checks. *)
Definition check_spend (v : top) (tx : CTransaction) (valueout : Z) (fExpensiveChecks : bool) (branch : Z)
    : res reject (Z * Z * list CScriptCheck * top) :=
  '(nValueIn, interest, v') ← GetValueIn (VCache v.1 v.2) tx tip_nHeight;
  let stakeTxValue := i64 (nValueIn - valueout) in
  '(vChecks, v') ← ContextualCheckInputs v' tx fExpensiveChecks
                     (Z.lor SCRIPT_VERIFY_P2SH SCRIPT_VERIFY_CHECKLOCKTIMEVERIFY) branch
                     (negb (nScriptCheckThreads =? 0));
  Ok (stakeTxValue, interest, vChecks, as_top v' v).

Definition append_notes (tree : Tree) (l : list uint256) : res reject Tree := rethrow (append_all tree l).

Definition append_frontier (tree : Tree) (tx : CTransaction) : Tree :=
  if 0 <? zlen (vShieldedOutput tx) then AppendBundle tree tx else tree.

(** What [ConnectBlock] knows of the block besides its transactions; the script
    checks are off below a checkpoint. *)
Record connect_args := mkConnectArgs {
  ca_pos : block_pos; fExpensiveChecks : bool; consensusBranchId : Z; fCheckPOW : bool; notarypaycheque : Z }.

Definition connect_tx (a : connect_args) (st : connect_state) (t : hashed_tx) : res reject (CTxUndo * connect_state) :=
  let '(txid, tx) := t in
  let nSigOps := u32 (cs_sigops st + GetLegacySigOpCount tx) in
  _ ← reject_if (MAX_BLOCK_SIGOPS <? nSigOps) (DoS 100 "bad-blk-sigops");
  '(nSigOps, v) ← (if negb (IsMint tx) then check_view (cs_view st) tx nSigOps else Ok (nSigOps, cs_view st));
  valueout ← GetValueOut tx;
  let valueout := u64 valueout in
  _ ← reject_if (KOMODO_VALUETOOBIG valueout) (DoS 100 "tx valueout is too big");
  '(fees, sum, stake, checks, v) ←
    (if negb (IsCoinBase tx) then
       '(stake, interest, vChecks, v) ← check_spend v tx valueout (fExpensiveChecks a) (consensusBranchId a);
       Ok (i64 (cs_fees st + stake), i64 (cs_sum st + interest), stake, cs_checks st ++ vChecks, v)
     else Ok (cs_fees st, cs_sum st, cs_stake st, cs_checks st, v));
  '(undo, v) ← UpdateCoins v txid tx (bp_nHeight (ca_pos a));
  sprout ← append_notes (cs_sprout st) (concat (map js_commitments (vjoinsplit tx)));
  sapling ← append_notes (cs_sapling st) (map od_cmu (vShieldedOutput tx));
  let frontier := append_frontier (cs_frontier st) tx in
  Ok (undo, mkConnect v nSigOps fees sum stake sprout sapling frontier checks).

(** The loop; the undo record of the first transaction is dropped. *)
Fixpoint connect_loop (a : connect_args) (st : connect_state) (first : bool) (vtx : list hashed_tx)
    : res reject (list CTxUndo * connect_state) :=
  match vtx with
  | [] => Ok ([], st)
  | t :: vtx =>
      r ← connect_tx a st t;
      q ← connect_loop a r.2 false vtx;
      Ok (if first then q.1 else r.1 :: q.1, q.2)
  end.

(** ** komodo_commission *)

(** The inner loop: the outputs from index [j] on, of [n] outputs of the
    transaction [i] of [txn_count]. *)
Fixpoint commission_outputs (height txn_count i n j : Z) (l : list CTxOut) (total : Z) : Z :=
  match l with
  | [] => total
  | o :: l =>
      if (225000 <? height) && negb (ASSETCHAINS_STAKED =? 0) && (1 <? txn_count) && (i =? txn_count - 1) && (j =? n - 1)
      then total
      else
        let total := if negb (i =? 0) || negb (j =? 1) then u64 (total + nValue o) else total in
        if 1000000 * COIN <? total then 1000000 * COIN
        else commission_outputs height txn_count i n (j + 1) l total
  end.

Fixpoint commission_txs (height txn_count i : Z) (vtx : list hashed_tx) (total : Z) : Z :=
  match vtx with
  | [] => total
  | t :: vtx =>
      commission_txs height txn_count (i + 1) vtx
        (commission_outputs height txn_count i (zlen (tx_vout t.2)) 0 (tx_vout t.2) total)
  end.

Definition komodo_commission (c : subsidy_cache) (vtx : list hashed_tx) (height : Z) : res unit (Z * subsidy_cache) :=
  if is_STAKED =? 2 then Ok (0, c)
  else
    '(commission, c) ←
      (if negb (ASSETCHAINS_FOUNDERS =? 0) then
         '(nSubsidy, c) ← GetBlockSubsidy c height;
         let commission := u64 (nSubsidy * ASSETCHAINS_COMMISSION) / COIN in
         Ok (if 1 <? ASSETCHAINS_FOUNDERS then
               if Z.rem height ASSETCHAINS_FOUNDERS =? 0 then
                 if ASSETCHAINS_FOUNDERS_REWARD =? 0 then u64 (commission * ASSETCHAINS_FOUNDERS)
                 else ASSETCHAINS_FOUNDERS_REWARD
               else 0
             else commission, c)
       else
         let total := commission_txs height (zlen vtx) 0 vtx 0 in
         Ok (u64 (total / 10000 * ASSETCHAINS_COMMISSION) / 10000, c));
    Ok (if commission <? 10000 then 0 else commission, c).

(** ** The coinbase's amount *)

(** The commission is added to the reward when the second output pays it; the
    message of the other case reads that output. *)
Definition add_commission (c : subsidy_cache) (vtx : list hashed_tx) (coinbase : CTransaction) (height blockReward : Z)
    : res reject (Z * subsidy_cache) :=
  if negb (ASSETCHAINS_COMMISSION =? 0) || negb (ASSETCHAINS_FOUNDERS_REWARD =? 0) then
    '(checktoshis, c) ← rethrow (komodo_commission c vtx height);
    if checktoshis =? 0 then Ok (blockReward, c)
    else
      match tx_vout coinbase !! 1%nat with
      | Some o => Ok (if u64 (nValue o) =? checktoshis then i64 (blockReward + checktoshis) else blockReward, c)
      | None => if 1 <? height then Exn oob_read else Ok (blockReward, c)
      end
  else Ok (blockReward, c).

Definition check_reward (coinbase : CTransaction) (height blockReward : Z) : res reject unit :=
  paid ← GetValueOut coinbase;
  _ ← reject_if (negb isKMD && (height =? 1) && negb (paid =? blockReward)) (DoS 100 "bad-cb-amount");
  if i64 (blockReward + KOMODO_EXTRASATOSHI) <? paid then
    if negb isKMD || (KOMODO_NOTARIES_HEIGHT1 <=? height) then Err (DoS 100 "bad-cb-amount")
    else
      match tx_vout coinbase with
      | o :: _ => reject_if (blockReward <? nValue o) (DoS 100 "bad-cb-amount")
      | [] => Exn oob_read
      end
  else Ok tt.

(** [control.Wait()]: the queued checks all succeed. *)
Fixpoint wait_checks (l : list CScriptCheck) : res reject unit :=
  match l with
  | [] => Ok tt
  | ck :: l => match run_script ck with Ok _ => wait_checks l | Err _ => Err (mkReject 100 0 "") | Exn x => Exn x end
  end.

(** ** The block *)

(** No transaction of the block overwrites an unspent one (BIP30). *)
Fixpoint bip30_loop (v : top) (vtx : list hashed_tx) : res reject top :=
  match vtx with
  | [] => Ok v
  | (txid, tx) :: vtx =>
      let '(coins, v') := AccessCoins (VCache v.1 v.2) txid in
      if match coins with Some c => negb (IsPruned c) | None => false end
      then Err (DoS 100 "bad-txns-BIP30")
      else bip30_loop (as_top v' v) vtx
  end.

(** [view.GetBestAnchor(t)] and the tree of that root, which must be readable. *)
Definition best_tree (v : top) (t : ShieldedType) : res reject (uint256 * Tree * top) :=
  let '(rt, v1) := GetBestAnchor (VCache v.1 v.2) t in
  let '(tree, v2) := GetAnchorAt v1 t rt in
  match tree with
  | Some tree => Ok (rt, tree, as_top v2 v)
  | None => Exn assertion_failed
  end.

Definition push (v : top) (t : ShieldedType) (tree : Tree) : top := PushAnchor v.1 v.2 t tree.

(** The state at the start of the loop, and the root of the Sprout tree. *)
Definition connect_start (v : top) (vtx : list hashed_tx) (pindex : block_pos) : res reject (uint256 * connect_state) :=
  let '(best, v1) := GetBestBlock (VCache v.1 v.2) in
  let v := as_top v1 v in
  _ ← reject_if (negb (bool_decide (bp_prev_hash pindex = best))) (DoS 1 "hashPrevBlock-not-bestblock");
  v ← bip30_loop v vtx;
  '(old_root, sprout, v) ← best_tree v SPROUT;
  _ ← assert_ (bool_decide (tree_root SPROUT sprout = old_root));
  '(_, sapling, v) ← best_tree v SAPLING;
  '(_, frontier, v) ← best_tree v SAPLINGFRONTIER;
  Ok (old_root, mkConnect v 0 0 0 0 sprout sapling frontier []).

(** The reward that the coinbase may take: subsidy, notary pay, fees, interest
    and commission. *)
Definition block_reward (c : subsidy_cache) (vtx : list hashed_tx) (coinbase : CTransaction) (st : connect_state)
    (height blockReward : Z) : res reject (Z * subsidy_cache) :=
  let blockReward := i64 (blockReward + i64 (cs_fees st + cs_sum st)) in
  let blockReward := if isKMD && (KOMODO_NOTARIES_HEIGHT2 <=? height) then i64 (blockReward - cs_sum st) else blockReward in
  add_commission c vtx coinbase height blockReward.

(** [ConnectBlock] with [fJustCheck] false: undo data, view, and the static
    variables of the subsidy. *)
Definition ConnectBlock (c : subsidy_cache) (v : top) (vtx : list hashed_tx) (a : connect_args)
    : res reject (CBlockUndo * top * subsidy_cache) :=
  let pindex := ca_pos a in
  '(blockReward, c) ← rethrow (GetBlockSubsidy c (bp_nHeight pindex));
  let blockReward := i64 (blockReward + notarypaycheque a) in
  '(old_root, st) ← connect_start v vtx pindex;
  '(undo, st) ← connect_loop a st true vtx;
  _ ← reject_if (negb (ASSETCHAINS_STAKED =? 0) && fCheckPOW a
                 && (komodo_checkPOW (i64 (i64 (blockReward + cs_stake st) - notarypaycheque a)) <? 0))
        (DoS 100 "failed-slow_checkPOW");
  let v := push (push (push (cs_view st) SPROUT (cs_sprout st)) SAPLING (cs_sapling st)) SAPLINGFRONTIER (cs_frontier st) in
  _ ← reject_if (bp_sapling pindex
                 && (negb (bool_decide (hashFinalSaplingRoot pindex = tree_root SAPLING (cs_sapling st)))
                     || negb (bool_decide (hashFinalSaplingRoot pindex = tree_root SAPLINGFRONTIER (cs_frontier st)))))
        (DoS 100 "bad-sapling-root-in-block");
  match vtx with
  | [] => Exn oob_read
  | (_, coinbase) :: _ =>
      '(blockReward, c) ← block_reward c vtx coinbase st (bp_nHeight pindex) blockReward;
      _ ← check_reward coinbase (bp_nHeight pindex) blockReward;
      _ ← wait_checks (cs_checks st);
      Ok (mkBlockUndo undo old_root, (SetBestBlock v.1 (bp_hash pindex), v.2), c)
  end.
End Connect.
