(* ===== verification/ConnectTx.v ===== *)
(** * One transaction of a block

    What the round of ConnectBlock for a transaction establishes, on the level
    that the view represents: the transaction spends unspent outputs whose
    scripts accept, conserves value, and moves the level to the next one, from
    which the recorded undo data leads back. *)
From stdpp Require Import gmap functions strings.
From S2P Require Import Prelude Endian Hashing Merkle Script Interpreter Serialize Transaction TransactionSpec.
From S2P Require Import TxCheck TxCheckSpec Interest Subsidy Coins CoinsSer CoinsView CoinsViewSpec UpdateCoins.
From S2P Require Import UpdateCoinsSpec TxInputs ViewReads TxInputsSpec Connect.

(** What the context-free check and the block checks give about a transaction. *)
Record tx_static (tx : CTransaction) : Prop := {
  st_import : IsCoinImport tx = false;
  st_amounts : amounts_valid tx;
  st_outputs : outputs_ok tx;
  st_indices : Forall (fun p => 0 <= p.2) (prevouts tx);
  st_distinct : IsMint tx = false -> base.NoDup (prevouts tx);
  st_mint : IsMint tx = true -> vjoinsplit tx = [] /\ vShieldedSpend tx = [];
}.

(** ** Amounts of the coin set *)

Definition money_out `{MoneyLimit} (o : CTxOut) : Prop := o = txout_SetNull \/ 0 <= nValue o <= MAX_MONEY.

(** Every unspent output is in the range of money. *)
Definition level_money `{MoneyLimit} (l : level) : Prop :=
  forall t c, lv_coins l t = Some c -> Forall money_out (vout c).

Lemma Forall_Cleanup (P : CTxOut -> Prop) c : Forall P (vout c) -> Forall P (vout (Cleanup c)).
Proof. destruct (Cleanup_vout c) as (d & E & _); rewrite E; now intros [Hc _]%Forall_app. Qed.

Section Money.
Context `{MoneyLimit} `{!MoneyLimitOk _}.

Lemma level_money_amounts l : level_money l -> level_amounts l.
Proof.
  intros Hl t c Hc; pose proof money_limit; eapply Forall_impl; [| exact (Hl t c Hc)].
  intros o [-> | Ho]; unfold is_i64; cbn; lia.
Qed.

Lemma level_money_set l t x :
  level_money l -> (forall c, x = Some c -> Forall money_out (vout c)) -> level_money (set_tx l t x).
Proof. intros Hl Hx t' c; cbn; destruct (decide _); [apply Hx | apply Hl]. Qed.

Lemma money_Spend c n : Forall money_out (vout c) -> Forall money_out (vout (snd (Spend c n))).
Proof.
  intros Hc; unfold Spend; destruct (_ || _); [exact Hc |]; cbn [snd]; apply Forall_Cleanup; cbn.
  apply Forall_insert; [exact Hc | now left].
Qed.

Lemma level_money_spend ps : forall l, level_money l -> level_money (spend_level l ps).
Proof.
  induction ps as [| p ps IH]; intros l Hl; cbn; [exact Hl |]; apply IH; apply level_money_set; [exact Hl |].
  intros c; destruct (lv_coins l p.1) as [d |] eqn:Ed; [| discriminate]; intros Hc; apply canon_Some in Hc as [-> _].
  apply money_Spend; eauto.
Qed.

Lemma money_outputs tx r :
  amounts_valid tx -> GetValueOut (E := reject) tx = Ok r -> Forall money_out (tx_vout tx) /\ r = value_out tx /\
  0 <= value_out tx <= MAX_MONEY.
Proof.
  intros Hv Hr; apply GetValueOut_ok in Hr as (Ho & Hj & Hb & ->); [| exact Hv].
  pose proof (value_out_nonneg tx Ho Hj) as Hn; split; [| split; [reflexivity | lia]].
  apply Forall_forall; intros o Hin; right; unfold value_out in Hb; pose proof (zsum_nonneg _ Hj).
  assert (Hle : 0 <= nValue o <= zsum (map nValue (tx_vout tx))); [| lia].
  clear -Ho Hin; induction (tx_vout tx) as [| x l IH]; [destruct Hin |].
  cbn in Ho; apply Forall_cons_1 in Ho as [Hx Ho]; pose proof (zsum_nonneg _ Ho) as Hl; cbn; unfold zsum in *.
  destruct Hin as [-> | Hin]; [lia | specialize (IH Ho Hin); lia].
Qed.

Lemma money_FromTx tx h : Forall money_out (tx_vout tx) -> Forall money_out (vout (FromTx tx h)).
Proof.
  intros Ho; unfold FromTx, ClearUnspendable; apply Forall_Cleanup; cbn.
  apply Forall_fmap; eapply Forall_impl; [| exact Ho]; intros o Hm; cbn.
  destruct (IsUnspendable _); [now left | exact Hm].
Qed.

Lemma level_money_next l txid tx h :
  level_money l -> Forall money_out (tx_vout tx) -> level_money (next_level l txid tx h).
Proof.
  intros Hl Ho; apply level_money_set.
  - intros t c; cbn; destruct (IsMint tx); [apply Hl | now apply level_money_spend].
  - intros c Hc; apply canon_Some in Hc as [-> _]; now apply money_FromTx.
Qed.
End Money.

(** ** The checks of an input *)

Section Transaction.
Context {Tree : Type} `{AnchorTrees Tree, NoteTrees Tree, HashFunctions, LowS, ChainParams, MoneyLimit, SpendParams,
  InterestChain, SubsidyParams, BlockEnv} `{!MoneyLimitOk _} (icok : InterestChainOk _).
Abbreviation cache := (CCoinsViewCache Tree).
Abbreviation view := (view Tree).
Abbreviation top := (cache * view)%type.
Abbreviation vtop v := (VCache v.1 v.2).

Lemma loads_top (v : top) (w : view) l s :
  good (vtop v) (l :: s) -> loads (vtop v) w -> vtop (as_top w v) = w.
Proof. intros Hg L; eapply as_top_ok; [eapply ld_good; eassumption | eapply good_below; eassumption]. Qed.

(** The check of input [k], which spends the output [o]. *)
Definition check_of (tx : CTransaction) (k : nat) (o : CTxOut) (flags branch : Z) : CScriptCheck :=
  mkCheck (scriptPubKey o) (nValue o) tx k flags branch.

(** Every input's check has succeeded or is queued. *)
Definition scripts_in (l : level) (tx : CTransaction) (flags branch : Z) (k0 : nat) (inps : list CTxIn)
    (queued : list CScriptCheck) : Prop :=
  forall k inp, inps !! k = Some inp ->
  exists o, coin_at l (op_hash (prevout inp), op_n (prevout inp)) = Some o /\
    (run_script (check_of tx (k0 + k) o flags branch) = Ok tt \/ check_of tx (k0 + k) o flags branch ∈ queued).

Lemma scripts_in_mono l tx flags branch k0 inps q q' :
  scripts_in l tx flags branch k0 inps q -> (forall c, c ∈ q -> c ∈ q') -> scripts_in l tx flags branch k0 inps q'.
Proof. intros Hs Hq k inp Hk; destruct (Hs k inp Hk) as (o & Ho & [Hr | Hi]); eauto. Qed.

Lemma check_now_ok ck x : check_now ck = Ok x -> run_script ck = Ok tt.
Proof.
  unfold check_now; destruct (run_script ck) as [[] | e |]; [reflexivity | | discriminate].
  destruct (has_flag _ _); [| discriminate]; destruct (run_script _); discriminate.
Qed.

Lemma script_checks_ok l s tx flags branch queue inps : forall k0 (v v' : view) cs,
  good v (l :: s) -> Forall (available l) (map (fun i => (op_hash (prevout i), op_n (prevout i))) inps) ->
  script_checks v tx flags branch queue k0 inps = Ok (cs, v') ->
  loads v v' /\ scripts_in l tx flags branch k0 inps cs.
Proof.
  induction inps as [| inp inps IH]; intros k0 v v' cs Hg Hav; cbn [script_checks map].
  { intros [= <- <-]; split; [reflexivity | intros k inp Hk; discriminate]. }
  apply Forall_cons_1 in Hav as [Hp Hav].
  destruct (AccessCoins_ok v l s _ Hg Hp) as (c & o & v1 & E1 & Hg1 & Hl & Ho & _); cbn [fst snd] in *; rewrite E1.
  pose proof (AccessCoins_loads _ _ _ _ E1) as L1; unfold new_check; rewrite Ho; cbn [mbind res_bind].
  destruct (if queue then Ok tt else check_now _) as [[] | |] eqn:Ec; cbn [mbind res_bind]; try discriminate.
  destruct (script_checks v1 tx flags branch queue (S k0) inps) as [[cs1 v2] | |] eqn:Es; cbn [mbind res_bind]; try discriminate.
  intros [= <- <-]; destruct (IH _ _ _ _ Hg1 Hav Es) as [L2 Hs]; split; [now transitivity v1 |].
  intros [| k] inp' Hk; cbn in Hk.
  - injection Hk as <-; exists o; split; [unfold coin_at; cbn; rewrite Hl; exact Ho |]; rewrite Nat.add_0_r.
    destruct queue; [right; now left | left; eapply check_now_ok, Ec].
  - destruct (Hs k inp' Hk) as (o' & Ho' & Hor); exists o'; split; [exact Ho' |].
    replace (k0 + S k)%nat with (S k0 + k)%nat by lia; destruct Hor as [Hr | Hi]; [now left | right].
    destruct queue; [now right | exact Hi].
Qed.

(** ** The input checks and the fee *)

(** The block extends the tip of the active chain. *)
Record at_tip (pindex : block_pos) : Prop := {
  tip_prev : IsNull (bp_prev_hash pindex) = false;
  tip_index : mapBlockIndex_nHeight (bp_prev_hash pindex) = Some tip_nHeight;
  tip_next : bp_nHeight pindex = tip_nHeight + 1;
  tip_range : 0 <= tip_nHeight < 2 ^ 31 - 1;
}.

Definition tx_fee (l : level) (tx : CTransaction) (h : Z) : Z :=
  inputs_value l tx + inputs_interest l tx h + shielded_value_in tx - value_out tx.

Lemma spends_fee l tx h fee : spends_ok l tx h fee -> fee = tx_fee l tx h.
Proof. intros Hs; pose proof (so_value _ _ _ _ Hs); unfold tx_fee; lia. Qed.

Section Spend.
Context (pindex : block_pos) (Htip : at_tip pindex).
Abbreviation h := (bp_nHeight pindex).

Lemma GetSpendHeight_ok {E} (v v' : view) r :
  top_block v = bp_prev_hash pindex -> GetSpendHeight (E := E) v = Ok (r, v') -> loads v v' /\ r = h.
Proof.
  intros Hb; unfold GetSpendHeight; destruct (GetBestBlock v) as [b v1] eqn:Eb.
  pose proof (GetBestBlock_top v v1 b Eb) as Ht; rewrite Hb in Ht; rewrite Ht by apply Htip.
  rewrite (tip_index _ Htip); intros [= <- <-]; split; [now apply GetBestBlock_loads in Eb |].
  rewrite (tip_next _ Htip); pose proof (tip_range _ Htip); apply swrap_small; lia.
Qed.

Lemma ContextualCheckInputs_ok (v v' : view) l s tx scripts flags branch queue cs :
  good v (l :: s) -> level_wf l -> level_money l -> tx_static tx -> IsMint tx = false ->
  top_block v = bp_prev_hash pindex ->
  ContextualCheckInputs v tx scripts flags branch queue = Ok (cs, v') ->
  loads v v' /\ spends_ok l tx h (tx_fee l tx h) /\
  (scripts = true -> scripts_in l tx flags branch 0 (tx_vin tx) cs).
Proof.
  intros Hg Hw Hm Hst Hmint Hb; unfold ContextualCheckInputs; rewrite Hmint, (st_import _ Hst); cbn [negb].
  destruct (GetSpendHeight v) as [[hh v1] | |] eqn:Eh; cbn [mbind res_bind]; try discriminate.
  apply GetSpendHeight_ok in Eh as [L1 ->]; [| exact Hb].
  destruct (CheckTxInputs v1 tx h) as [[fee v2] | |] eqn:Ec; cbn [mbind res_bind]; try discriminate.
  pose proof (ld_good _ _ L1 _ _ Hg) as Hg1.
  assert (Hh : 0 <= h < 2 ^ 31) by (rewrite (tip_next _ Htip); pose proof (tip_range _ Htip); lia).
  destruct (CheckTxInputs_ok icok v1 v2 l s tx h fee Hg1 Hw (level_money_amounts l Hm) Hmint (st_indices _ Hst)
    (st_amounts _ Hst) Hh Ec) as [L2 Hsp].
  pose proof (ld_good _ _ L2 _ _ Hg1) as Hg2; rewrite (spends_fee _ _ _ _ Hsp) in Hsp.
  destruct scripts; [| intros [= <- <-]; split; [now transitivity v1 | split; [exact Hsp | discriminate]]].
  destruct (script_checks v2 tx flags branch queue 0 (tx_vin tx)) as [[cs' v3] | |] eqn:Es; cbn [mbind res_bind]; try discriminate.
  apply (script_checks_ok l s) in Es as [L3 Hin]; [| exact Hg2 | exact (so_available _ _ _ _ Hsp)].
  intros [= <- <-]; split; [transitivity v1; [exact L1 | now transitivity v2] | auto].
Qed.

(** [GetValueIn] computes the same sum as the check, which shows that it does
    not wrap. *)
Lemma check_spend_ok (v v' : top) l s tx expensive branch fee interest cs :
  good (vtop v) (l :: s) -> level_wf l -> level_money l -> tx_static tx -> IsMint tx = false ->
  Forall (available l) (prevouts tx) -> top_block (vtop v) = bp_prev_hash pindex ->
  check_spend v tx (value_out tx) expensive branch = Ok (fee, interest, cs, v') ->
  loads (vtop v) (vtop v') /\ spends_ok l tx h (tx_fee l tx h) /\ fee = tx_fee l tx h /\
  interest = inputs_interest l tx h /\
  (expensive = true -> scripts_in l tx (Z.lor SCRIPT_VERIFY_P2SH SCRIPT_VERIFY_CHECKLOCKTIMEVERIFY) branch 0 (tx_vin tx) cs).
Proof.
  intros Hg Hw Hm Hst Hmint Hav Hb; unfold check_spend.
  destruct (GetValueIn (vtop v) tx tip_nHeight) as [[[n i] v1] | |] eqn:Ev; cbn [mbind res_bind]; try discriminate.
  pose proof (GetValueIn_loads _ _ _ _ _ Ev) as L1; pose proof (ld_good _ _ L1 _ _ Hg) as Hg1.
  destruct (ContextualCheckInputs v1 tx expensive _ branch _) as [[cs' v2] | |] eqn:Ec; cbn [mbind res_bind]; try discriminate.
  apply (ContextualCheckInputs_ok v1 v2 l s) in Ec as (L2 & Hsp & Hsc); try assumption;
    [| rewrite (ld_block _ _ L1); [exact Hb | rewrite Hb; apply Htip]].
  assert (L : loads (vtop v) v2) by now transitivity v1.
  intros [= <- <- <- <-]; rewrite (loads_top v v2 l s Hg L); split; [exact L |]; split; [exact Hsp |].
  unfold GetValueIn in Ev; rewrite (st_import _ Hst) in Ev.
  assert (IsCoinBase tx = false) as Ecb by (unfold IsMint in Hmint; now apply orb_false_elim in Hmint).
  rewrite Ecb in Ev.
  destruct (value_in_loop (vtop v) (prevouts tx) tip_nHeight 0 0) as [[[r j] w] | |] eqn:El; cbn [mbind res_bind] in Ev; try discriminate.
  destruct (GetShieldedValueIn tx) as [sh | |] eqn:Es; cbn [mbind res_bind] in Ev; try discriminate.
  apply GetShieldedValueIn_ok in Es as (_ & _ & ->); [| apply Hst]; injection Ev as <- <- _.
  apply (value_in_loop_ok l s) in El as [-> ->]; try assumption; [| apply Htip | unfold is_i64; lia..].
  rewrite <- (tip_next _ Htip); fold (inputs_value l tx) (inputs_interest l tx h); pose proof money_limit.
  pose proof (so_total _ _ _ _ Hsp); pose proof (so_interest _ _ _ _ Hsp); pose proof (so_out _ _ _ _ Hsp).
  unfold tx_fee; rewrite !Z.add_0_l, (swrap_small 64 (inputs_value l tx + _)), (swrap_small 64 (_ + shielded_value_in tx)),
    !swrap_small by lia.
  auto.
Qed.

(** ** The round of the loop *)

Lemma check_view_ok (v v' : top) l s tx n n' :
  good (vtop v) (l :: s) -> tx_static tx -> IsMint tx = false -> check_view v tx n = Ok (n', v') ->
  loads (vtop v) (vtop v') /\ Forall (available l) (prevouts tx) /\
  forall t x, nf_type t -> x ∈ marked (sprout_nullifiers tx) (sapling_nullifiers tx) t -> lv_spent l t x = false.
Proof.
  intros Hg Hst Hm; unfold check_view; destruct (HaveInputs (vtop v) tx) as [have v1] eqn:Eh.
  pose proof (HaveInputs_loads _ _ _ _ Eh) as L1; destruct have; cbn [negb reject_if mbind res_bind]; [| discriminate].
  pose proof (HaveInputs_ok _ _ _ _ _ Hg Hm (st_indices _ Hst) Eh) as Hav.
  unfold reject_requirements; destruct (HaveJoinSplitRequirements v1 tx) as [[ok v2] | |] eqn:Er;
    cbn [rethrow mbind res_bind]; try discriminate; apply requirements_ok in Er as [L2 Hnf].
  destruct ok; cbn [negb reject_if mbind res_bind]; [| discriminate].
  destruct (HaveJoinSplitRequirementsDuplicateProofs v2 tx) as [b v3] eqn:Ed; apply duplicates_loads in Ed.
  destruct (GetP2SHSigOpCount v3 tx) as [[k v4] | |] eqn:Ep; cbn [mbind res_bind]; try discriminate.
  apply GetP2SHSigOpCount_loads in Ep; destruct (MAX_BLOCK_SIGOPS <? _); cbn [reject_if mbind res_bind]; [discriminate |].
  assert (L : loads (vtop v) v4) by (transitivity v1; [exact L1 |]; transitivity v2; [exact L2 |]; now transitivity v3).
  intros [= _ <-]; rewrite (loads_top v v4 l s Hg L); split; [exact L |]; split; [exact Hav |].
  eapply Hnf; [eapply ld_good; eassumption | reflexivity].
Qed.

(** What a round adds to fees, interest and queued checks. *)
Record round_adds (a : connect_args) (l : level) (tx : CTransaction) (st st' : connect_state (Tree := Tree)) : Prop := {
  ra_fees : cs_fees st' = i64 (cs_fees st + if IsCoinBase tx then 0 else tx_fee l tx h);
  ra_sum : cs_sum st' = i64 (cs_sum st + if IsCoinBase tx then 0 else inputs_interest l tx h);
  ra_out : 0 <= value_out tx <= MAX_MONEY;
  ra_spends : IsCoinBase tx = false -> spends_ok l tx h (tx_fee l tx h);
  ra_checks : forall c, c ∈ cs_checks st -> c ∈ cs_checks st';
  ra_scripts : IsCoinBase tx = false -> fExpensiveChecks a = true ->
    scripts_in l tx (Z.lor SCRIPT_VERIFY_P2SH SCRIPT_VERIFY_CHECKLOCKTIMEVERIFY) (consensusBranchId a) 0 (tx_vin tx) (cs_checks st');
}.

(** The views after a round: the next level, with best anchors and best block
    as before, and the undo data leads back. *)
Record round_views (l : level) (s : list level) (txid : uint256) (tx : CTransaction) (undo : CTxUndo) (v v' : top) : Prop := {
  rv_anchor : forall t, top_anchor (vtop v') t = top_anchor (vtop v) t;
  rv_block : top_block (vtop v') = top_block (vtop v);
  rv_good : good (vtop v') (next_level l txid tx h :: s);
  rv_wf : level_wf (next_level l txid tx h);
  rv_undo : disconnects txid tx (Some undo) h (next_level l txid tx h) l;
  rv_mint : IsMint tx = true -> disconnects txid tx None h (next_level l txid tx h) l;
}.

Lemma UpdateCoins_round (v v1 v2 : top) l s txid tx undo :
  good (vtop v) (l :: s) -> level_wf l -> loads (vtop v) (vtop v1) -> IsNull (top_block (vtop v)) = false ->
  tx_ok l txid tx -> UpdateCoins (E := reject) v1 txid tx h = Ok (undo, v2) -> round_views l s txid tx undo v v2.
Proof.
  intros Hg Hw L Hn Hok Eu; assert (Hh : 0 < h < 2 ^ 31) by (rewrite (tip_next _ Htip); pose proof (tip_range _ Htip); lia).
  destruct (UpdateCoins_ok (E := reject) v1 l s txid tx h (ld_good _ _ L _ _ Hg) Hw Hok Hh)
    as (u & v3 & E & (Fb & Fa & _) & G & W & D & D'); rewrite Eu in E; injection E as <- <-.
  split; auto; [intros t; rewrite <- (ld_anchor _ _ L t); cbn; now rewrite Fa |].
  rewrite <- (ld_block _ _ L Hn); cbn; exact Fb.
Qed.

Lemma connect_tx_ok a (st st' : connect_state) l s txid tx undo :
  ca_pos a = pindex -> good (vtop (cs_view st)) (l :: s) -> level_wf l -> level_money l -> tx_static tx ->
  lv_coins l txid = None -> top_block (vtop (cs_view st)) = bp_prev_hash pindex ->
  is_i64 (cs_fees st) -> is_i64 (cs_sum st) ->
  connect_tx a st (txid, tx) = Ok (undo, st') ->
  round_adds a l tx st st' /\ round_views l s txid tx undo (cs_view st) (cs_view st') /\
  level_money (next_level l txid tx h).
Proof.
  intros Ha Hg Hw Hm Hst Hnew Hb If Is; unfold connect_tx; rewrite Ha.
  destruct (MAX_BLOCK_SIGOPS <? _); cbn [reject_if mbind res_bind]; [discriminate |].
  assert (Hnull : IsNull (top_block (vtop (cs_view st))) = false) by (rewrite Hb; apply Htip).
  destruct (IsMint tx) eqn:Em; cbn [negb mbind res_bind].
  - destruct (GetValueOut tx) as [out | |] eqn:Eo; cbn [mbind res_bind]; try discriminate.
    destruct (money_outputs tx out (st_amounts _ Hst) Eo) as (Hmo & -> & Hout).
    destruct (KOMODO_VALUETOOBIG _); cbn [reject_if mbind res_bind]; [discriminate |].
    assert (Ecb : IsCoinBase tx = true) by (unfold IsMint in Em; rewrite (st_import _ Hst) in Em; exact Em).
    rewrite Ecb; cbn [negb mbind res_bind].
    destruct (UpdateCoins (cs_view st) txid tx h) as [[u v2] | |] eqn:Eu; cbn [mbind res_bind]; try discriminate.
    destruct (append_notes (cs_sprout st) _) as [t1 | |]; cbn [mbind res_bind]; try discriminate.
    destruct (append_notes (cs_sapling st) _) as [t2 | |]; cbn [mbind res_bind]; try discriminate.
    intros [= <- <-]; cbn [cs_view]; destruct (st_mint _ Hst Em) as [E1 E2]; split; [| split].
    + split; cbn [cs_fees cs_sum cs_checks]; rewrite ?Ecb, ?Z.add_0_r, ?swrap_small by (unfold is_i64 in *; lia);
        auto; discriminate.
    + eapply UpdateCoins_round; [exact Hg | exact Hw | reflexivity | exact Hnull | | exact Eu].
      split; try apply Hst; auto; try congruence; intros t x [-> | ->] Hx; unfold sprout_nullifiers, sapling_nullifiers in Hx;
        rewrite ?E1, ?E2 in Hx; now apply not_elem_of_nil in Hx.
    + now apply level_money_next.
  - destruct (check_view (cs_view st) tx _) as [[n v1] | |] eqn:Ev; cbn [mbind res_bind]; try discriminate.
    destruct (check_view_ok _ _ l s _ _ _ Hg Hst Em Ev) as (L1 & Hav & Hnf).
    destruct (GetValueOut tx) as [out | |] eqn:Eo; cbn [mbind res_bind]; try discriminate.
    destruct (money_outputs tx out (st_amounts _ Hst) Eo) as (Hmo & -> & Hout).
    destruct (KOMODO_VALUETOOBIG _); cbn [reject_if mbind res_bind]; [discriminate |].
    assert (Ecb : IsCoinBase tx = false) by (unfold IsMint in Em; now apply orb_false_elim in Em).
    rewrite Ecb; cbn [negb mbind res_bind]; pose proof money_limit; rewrite uwrap_small by lia.
    destruct (check_spend v1 tx _ _ _) as [[[[fee int] cs] v2] | |] eqn:Es; cbn [mbind res_bind]; try discriminate.
    apply (check_spend_ok v1 v2 l s) in Es as (L2 & Hsp & -> & -> & Hsc); try assumption;
      [| eapply ld_good; eassumption | rewrite (ld_block _ _ L1 Hnull); exact Hb].
    destruct (UpdateCoins v2 txid tx h) as [[u v3] | |] eqn:Eu; cbn [mbind res_bind]; try discriminate.
    destruct (append_notes (cs_sprout st) _) as [t1 | |]; cbn [mbind res_bind]; try discriminate.
    destruct (append_notes (cs_sapling st) _) as [t2 | |]; cbn [mbind res_bind]; try discriminate.
    intros [= <- <-]; cbn [cs_view]; split; [| split].
    + split; cbn [cs_fees cs_sum cs_checks]; rewrite ?Ecb; auto.
      * intros c Hc; apply elem_of_app; now left.
      * intros _ He; eapply scripts_in_mono; [now apply Hsc |]; intros c Hc; apply elem_of_app; now right.
    + eapply UpdateCoins_round; [exact Hg | exact Hw | transitivity (vtop v1); [exact L1 | exact L2] | exact Hnull | | exact Eu].
      split; auto; try apply Hst; congruence.
    + now apply level_money_next.
Qed.
End Spend.
End Transaction.
