(* ===== verification/ConnectSpec.v ===== *)
(** * Connecting and disconnecting a block

    The checks of ConnectBlock against the view establish what UpdateCoins
    needs, so no assertion fails; and DisconnectBlock, with the undo records
    that connecting produced, gives back the coin set and the nullifiers. *)
From stdpp Require Import gmap functions strings.
From S2P Require Import Prelude Endian Hashing Merkle Script Interpreter Serialize Transaction TransactionSpec.
From S2P Require Import TxCheck TxCheckSpec Interest Subsidy Coins CoinsSer CoinsView CoinsViewSpec UpdateCoins.
From S2P Require Import UpdateCoinsSpec TxInputs ViewReads TxInputsSpec Connect ConnectTx.

Section Connect.
Context {Tree : Type} `{AnchorTrees Tree, NoteTrees Tree, HashFunctions, LowS, ChainParams, MoneyLimit, SpendParams,
  InterestChain, SubsidyParams, BlockEnv} `{!MoneyLimitOk _} (icok : InterestChainOk _).
Abbreviation cache := (CCoinsViewCache Tree).
Abbreviation view := (view Tree).
Abbreviation top := (cache * view)%type.
Abbreviation vtop v := (VCache v.1 v.2).

(** ** The loops *)

Abbreviation hashed_tx := (uint256 * CTransaction)%type.

Definition levels (l : level) (vtx : list hashed_tx) (h : Z) : level :=
  fold_left (fun l t => next_level l t.1 t.2 h) vtx l.

(** The rounds of [disconnect_loop], as a list. *)
Fixpoint disconnect_list (v : top) (ts : list (hashed_tx * option CTxUndo)) (h : Z) (f : bool)
    : res string (bool * top) :=
  match ts with
  | [] => Ok (f, v)
  | (t, u) :: ts => r ← disconnect_tx v t.1 t.2 u h; disconnect_list r.2 ts h (f && r.1)
  end.

Lemma disconnect_list_app a : forall (v : top) b h f,
  disconnect_list v (a ++ b) h f = (r ← disconnect_list v a h f; disconnect_list r.2 b h r.1).
Proof.
  induction a as [| [t u] a IH]; intros v b h f; cbn [app disconnect_list]; [reflexivity |].
  destruct (disconnect_tx v t.1 t.2 u h) as [r | |]; cbn [mbind res_bind]; [apply IH | reflexivity..].
Qed.

(** The undo record of each transaction; the first has none. *)
Definition with_undo (vtx : list hashed_tx) (undo : list CTxUndo) : list (hashed_tx * option CTxUndo) :=
  zip vtx (None :: (Some <$> undo)).

Lemma disconnect_loop_list vtx undo h n : forall (v : top) f,
  length vtx = S (length undo) -> (n <= length vtx)%nat ->
  disconnect_loop n v vtx undo h f = disconnect_list v (rev (take n (with_undo vtx undo))) h f.
Proof.
  induction n as [| n IH]; intros v f Hl Hn; [reflexivity |]; cbn [disconnect_loop].
  destruct (lookup_lt_is_Some_2 vtx n) as [[txid tx] Et]; [lia |]; rewrite Et.
  assert (Ei : with_undo vtx undo !! n = Some (txid, tx, match n with O => None | S k => undo !! k end)).
  { unfold with_undo; apply lookup_zip_with_Some; eexists _, _; split; [reflexivity |]; split; [exact Et |].
    destruct n as [| k]; [reflexivity |]; change ((Some <$> undo) !! k = Some (undo !! k)); rewrite list_lookup_fmap.
    destruct (lookup_lt_is_Some_2 undo k) as [u Eu]; [lia |]; now rewrite Eu. }
  rewrite (take_S_r _ _ _ Ei), rev_app_distr; cbn [rev app disconnect_list fst snd].
  destruct (disconnect_tx v txid tx _ h) as [r | |]; cbn [mbind res_bind]; [apply IH; lia | reflexivity..].
Qed.

(** Disconnecting the transactions in reverse leads from views of [l'] to views of [l]. *)
Definition disconnects_all (ts : list (hashed_tx * option CTxUndo)) (h : Z) (l' l : level) : Prop :=
  forall (v : top) s, good (vtop v) (l' :: s) ->
  exists v', disconnect_list v (rev ts) h true = Ok (true, v') /\ frame v.1 v'.1 /\ good (vtop v') (l :: s).

Lemma disconnects_all_cons t u ts h l1 l2 l3 :
  disconnects_all ts h l1 l2 -> disconnects t.1 t.2 u h l2 l3 -> disconnects_all ((t, u) :: ts) h l1 l3.
Proof.
  intros D1 D2 v s Hg; cbn [rev]; rewrite disconnect_list_app; destruct (D1 v s Hg) as (v1 & -> & F1 & G1).
  cbn [mbind res_bind fst snd disconnect_list]; destruct (D2 v1 s G1) as (v2 & -> & F2 & G2).
  cbn [mbind res_bind fst snd andb]; exists v2; split; [reflexivity |]; split; [now transitivity v1.1 | exact G2].
Qed.

Lemma next_level_None l txid tx h t :
  lv_coins l t = None -> t <> txid -> lv_coins (next_level l txid tx h) t = None.
Proof.
  intros Ht Hne; unfold next_level; cbn; rewrite decide_False by exact Hne.
  destruct (IsMint tx); [exact Ht | now apply spend_level_None].
Qed.

(** What holds of every transaction at the level at which it is connected, and
    the sum of an amount over the transactions. *)
Fixpoint block_all (P : level -> CTransaction -> Prop) (l : level) (vtx : list hashed_tx) (h : Z) : Prop :=
  match vtx with
  | [] => True
  | (txid, tx) :: vtx => P l tx /\ block_all P (next_level l txid tx h) vtx h
  end.

Fixpoint block_sum (f : level -> CTransaction -> Z) (l : level) (vtx : list hashed_tx) (h : Z) : Z :=
  match vtx with
  | [] => 0
  | (txid, tx) :: vtx => f l tx + block_sum f (next_level l txid tx h) vtx h
  end.

Lemma block_all_impl (P Q : level -> CTransaction -> Prop) vtx h : forall l,
  (forall l tx, P l tx -> Q l tx) -> block_all P l vtx h -> block_all Q l vtx h.
Proof. induction vtx as [| [txid tx] vtx IH]; intros l Hi; cbn; [auto | intros [H1' H2']; split; auto]. Qed.

Lemma block_all_and (P Q : level -> CTransaction -> Prop) vtx h : forall l,
  block_all P l vtx h -> block_all Q l vtx h -> block_all (fun l tx => P l tx /\ Q l tx) l vtx h.
Proof. induction vtx as [| [txid tx] vtx IH]; intros l; cbn; [auto |]; intros [P1 P2] [Q1 Q2]; auto. Qed.

Definition script_flags : Z := Z.lor SCRIPT_VERIFY_P2SH SCRIPT_VERIFY_CHECKLOCKTIMEVERIFY.

Definition fee_of (h : Z) (l : level) (tx : CTransaction) : Z := if IsCoinBase tx then 0 else tx_fee l tx h.
Definition interest_of (h : Z) (l : level) (tx : CTransaction) : Z := if IsCoinBase tx then 0 else inputs_interest l tx h.

(** What the loop has established of a transaction, with the checks [q] queued. *)
Definition round_ok (a : connect_args) (h : Z) (q : list CScriptCheck) (l : level) (tx : CTransaction) : Prop :=
  level_money l /\ 0 <= value_out tx <= MAX_MONEY /\
  (IsCoinBase tx = false ->
   spends_ok l tx h (tx_fee l tx h) /\
   (fExpensiveChecks a = true -> scripts_in l tx script_flags (consensusBranchId a) 0 (tx_vin tx) q)).

(** The state of the loop, after the transactions [vtx]. *)
Record loop_adds (a : connect_args) (h : Z) (l : level) (vtx : list hashed_tx) (st st' : connect_state (Tree := Tree)) : Prop := {
  la_fees : cs_fees st' = i64 (cs_fees st + block_sum (fee_of h) l vtx h);
  la_sum : cs_sum st' = i64 (cs_sum st + block_sum (interest_of h) l vtx h);
  la_checks : forall c, c ∈ cs_checks st -> c ∈ cs_checks st';
  la_rounds : block_all (round_ok a h (cs_checks st')) l vtx h;
  la_money : level_money (levels l vtx h);
  la_wf : level_wf (levels l vtx h);
}.

Record loop_views (h : Z) (l : level) (s : list level) (vtx : list hashed_tx) (first : bool) (undo : list CTxUndo)
    (v v' : top) : Prop := {
  lw_anchor : forall t, top_anchor (vtop v') t = top_anchor (vtop v) t;
  lw_good : good (vtop v') (levels l vtx h :: s);
  lw_length : if first then S (length undo) = length vtx \/ vtx = [] else length undo = length vtx;
  lw_undo : disconnects_all (zip vtx (if first then None :: (Some <$> undo) else (Some <$> undo))) h (levels l vtx h) l;
}.

Lemma loop_adds_cons a h l txid tx vtx (st st1 st2 : connect_state) :
  cs_fees st1 = i64 (cs_fees st + fee_of h l tx) -> cs_sum st1 = i64 (cs_sum st + interest_of h l tx) ->
  (forall c, c ∈ cs_checks st -> c ∈ cs_checks st1) -> round_ok a h (cs_checks st1) l tx ->
  loop_adds a h (next_level l txid tx h) vtx st1 st2 -> loop_adds a h l ((txid, tx) :: vtx) st st2.
Proof.
  intros Ef Es Hc (Hl & Ho & Hr) [F S C R M W]; split; cbn [block_sum block_all levels fold_left fst snd]; auto.
  - rewrite F, Ef, swrap_add by lia; f_equal; lia.
  - rewrite S, Es, swrap_add by lia; f_equal; lia.
  - split; [split; [exact Hl |]; split; [exact Ho |] | exact R]; intros Hcb; destruct (Hr Hcb) as [H1' H2']; split; [exact H1' |].
    intros He; eapply scripts_in_mono; [now apply H2' | exact C].
Qed.

Section Loop.
Context (pindex : block_pos) (Htip : at_tip pindex).
Abbreviation h := (bp_nHeight pindex).

Lemma connect_loop_ok a vtx : forall (st st' : connect_state) first l s undo,
  ca_pos a = pindex -> good (vtop (cs_view st)) (l :: s) -> level_wf l -> level_money l ->
  Forall (fun t => tx_static t.2) vtx -> base.NoDup vtx.*1 -> Forall (fun t => lv_coins l t.1 = None) vtx ->
  (first = true -> match vtx with t :: _ => IsMint t.2 = true | [] => True end) ->
  top_block (vtop (cs_view st)) = bp_prev_hash pindex -> is_i64 (cs_fees st) -> is_i64 (cs_sum st) ->
  connect_loop a st first vtx = Ok (undo, st') ->
  loop_adds a h l vtx st st' /\ loop_views h l s vtx first undo (cs_view st) (cs_view st').
Proof.
  induction vtx as [| [txid tx] vtx IH]; intros st st' first l s undo Ha Hg Hw Hm Hst Hnd Hnew Hfirst Hb If Is; cbn [connect_loop].
  { intros [= <- <-]; split; split; cbn; rewrite ?Z.add_0_r, ?swrap_small by (unfold is_i64 in *; lia); auto.
    - destruct first; auto.
    - intros v2 s2 Hg2; exists v2; split; [reflexivity |]; split; [reflexivity | exact Hg2]. }
  apply Forall_cons_1 in Hst as [Hst Hsts]; apply Forall_cons_1 in Hnew as [Hn Hns]; cbn [fst snd] in *.
  pose proof (NoDup_cons_1_1 _ _ Hnd) as Hnot; apply NoDup_cons_1_2 in Hnd.
  destruct (connect_tx a st (txid, tx)) as [[u st1] | |] eqn:Et; cbn [mbind res_bind fst snd]; try discriminate.
  destruct (connect_loop a st1 false vtx) as [[us st2] | |] eqn:El; cbn [mbind res_bind fst snd]; try discriminate.
  intros [= <- <-].
  destruct (connect_tx_ok icok pindex Htip a st st1 l s txid tx u Ha Hg Hw Hm Hst Hn Hb If Is Et) as (A1 & V1 & M1).
  destruct A1 as [Ef Es Eo Esp Ec Esc]; destruct V1 as [A2 B2 G2 W2 D D'].
  assert (Hi : forall x, is_i64 (i64 x)) by (intros x; apply (swrap_range 64); lia).
  destruct (IH st1 st2 false (next_level l txid tx h) s us Ha G2 W2 M1 Hsts Hnd) as (Ad & [A3 G3 L3 D3]);
    [| discriminate | now rewrite B2 | rewrite Ef; apply Hi | rewrite Es; apply Hi | exact El |].
  { apply Forall_forall; intros t Ht; apply next_level_None; [exact (proj1 (Forall_forall _ _) Hns t Ht) |].
    intros E; apply Hnot; rewrite <- E; apply list_elem_of_fmap; exists t; split; [reflexivity | now apply list_elem_of_In]. }
  split; [eapply loop_adds_cons; eauto; split; [exact Hm | split; auto] |].
  split; [intros t; now rewrite A3 | exact G3 | |]; destruct first.
  - left; cbn; now rewrite L3.
  - cbn; now rewrite L3.
  - change (disconnects_all (((txid, tx), None) :: zip vtx (Some <$> us)) h (levels (next_level l txid tx h) vtx h) l).
    eapply disconnects_all_cons; [exact D3 | auto].
  - change (disconnects_all (((txid, tx), (Some u)) :: zip vtx (Some <$> us)) h (levels (next_level l txid tx h) vtx h) l).
    eapply disconnects_all_cons; [exact D3 | auto].
Qed.
End Loop.

(** The BIP30 check: no transaction of the block has unspent outputs. *)
Lemma bip30_ok vtx : forall (v v1 : top) l s,
  good (vtop v) (l :: s) -> bip30_loop v vtx = Ok v1 ->
  loads (vtop v) (vtop v1) /\ Forall (fun t => lv_coins l t.1 = None) vtx.
Proof.
  induction vtx as [| [txid tx] vtx IH]; intros v v1 l s Hg; cbn [bip30_loop]; [intros [= <-]; now split |].
  pose proof (GetCoins_ok (vtop v) txid (proj1 Hg)) as (Hu & _); pose proof (proj1 (good_level _ _ _ Hg) txid) as Hlv.
  destruct (AccessCoins (vtop v) txid) as [r v'] eqn:Ea; pose proof (AccessCoins_loads _ _ _ _ Ea) as L.
  unfold AccessCoins in Ea; rewrite Ea in Hu; cbn [fst] in Hu.
  pose proof (loads_top v v' l s Hg L) as Et; pose proof (ld_good _ _ L _ _ Hg) as Hg'.
  destruct r as [c |]; [destruct (IsPruned c) eqn:Ep |]; cbn [negb]; try discriminate;
    (intros E; destruct (IH _ _ l s ltac:(now rewrite Et) E) as [L' F]; rewrite Et in L';
     split; [now transitivity v' |]; constructor; [cbn; rewrite Hlv, <- Hu; cbn; unfold canon; now rewrite ?Ep | exact F]).
Qed.

(** ** Pushing and popping anchors *)

Abbreviation best v t := (fst (GetBestAnchor v t)).

Lemma best_GetCoins (v : view) txid t : best (snd (GetCoins v txid)) t = best v t.
Proof.
  induction v as [d | c b IH]; cbn [GetCoins]; [reflexivity |]; destruct (cacheCoins c !! txid); [reflexivity |].
  destruct (GetCoins b txid) as [[tmp |] b']; cbn [snd GetBestAnchor set_coins hashAnchor] in *;
    (destruct (IsNull (hashAnchor c t)); [| reflexivity]; destruct (GetBestAnchor b' t), (GetBestAnchor b t); exact IH).
Qed.

Lemma best_GetBestBlock (v : view) t : best (snd (GetBestBlock v)) t = best v t.
Proof.
  induction v as [d | c b IH]; cbn [GetBestBlock]; [reflexivity |]; destruct (IsNull (hashBlock c)); [| reflexivity].
  destruct (GetBestBlock b) as [h b']; cbn [snd GetBestAnchor set_block hashAnchor] in *.
  destruct (IsNull (hashAnchor c t)); [| reflexivity]; destruct (GetBestAnchor b' t), (GetBestAnchor b t); exact IH.
Qed.

Lemma best_GetAnchorAt (v : view) t0 rt t : best (snd (GetAnchorAt v t0 rt)) t = best v t.
Proof.
  induction v as [d | c b IH]; cbn [GetAnchorAt]; [reflexivity |]; destruct (cacheAnchors c t0 !! rt); [reflexivity |].
  destruct (GetAnchorAt b t0 rt) as [[tree |] b']; cbn [snd GetBestAnchor set_anchors hashAnchor] in *;
    (destruct (IsNull (hashAnchor c t)); [| reflexivity]; destruct (GetBestAnchor b' t), (GetBestAnchor b t); exact IH).
Qed.

Lemma best_GetBestAnchor (v : view) t0 t : t <> t0 -> best (snd (GetBestAnchor v t0)) t = best v t.
Proof.
  intros Hne; induction v as [d | c b IH]; cbn [GetBestAnchor]; [reflexivity |].
  destruct (IsNull (hashAnchor c t0)); [| reflexivity].
  destruct (GetBestAnchor b t0) as [h b']; cbn [snd GetBestAnchor set_hashAnchor hashAnchor] in *.
  rewrite fn_lookup_insert_ne by congruence.
  destruct (IsNull (hashAnchor c t)); [| reflexivity]; destruct (GetBestAnchor b' t), (GetBestAnchor b t); exact IH.
Qed.

Lemma best_as_top (v : view) (old : top) l s t :
  good v (l :: s) -> s <> [] -> best (vtop (as_top v old)) t = best v t.
Proof. intros Hg Hs; now rewrite (as_top_ok v old l s Hg Hs). Qed.

Lemma best_bip30 vtx t : forall (v v1 : top) l s,
  good (vtop v) (l :: s) -> bip30_loop v vtx = Ok v1 -> best (vtop v1) t = best (vtop v) t.
Proof.
  induction vtx as [| [txid tx] vtx IH]; intros v v1 l s Hg; cbn [bip30_loop]; [now intros [= <-] |].
  destruct (AccessCoins (vtop v) txid) as [r v'] eqn:Ea; pose proof (AccessCoins_loads _ _ _ _ Ea) as L.
  pose proof (best_GetCoins (vtop v) txid t) as Hb; unfold AccessCoins in Ea; rewrite Ea in Hb; cbn [snd] in Hb.
  pose proof (loads_top v v' l s Hg L) as Et; pose proof (ld_good _ _ L _ _ Hg) as Hg'.
  destruct (match r with Some c => _ | None => _ end); [discriminate |]; intros E.
  rewrite (IH _ _ l s ltac:(now rewrite Et) E), Et; exact Hb.
Qed.

(** Reading the tree of the best anchor caches its root. *)
Lemma best_tree_ok (v v1 : top) l s t rt tree :
  good (vtop v) (l :: s) -> best_tree v t = Ok (rt, tree, v1) ->
  good (vtop v1) (l :: s) /\ rt = best (vtop v) t /\ top_anchor (vtop v1) t = rt /\
  (IsNull (top_block (vtop v)) = false -> top_block (vtop v1) = top_block (vtop v)) /\
  forall t', t' <> t -> top_anchor (vtop v1) t' = top_anchor (vtop v) t' /\ best (vtop v1) t' = best (vtop v) t'.
Proof.
  intros Hg; unfold best_tree; pose proof (good_below v l s Hg) as Hs.
  pose proof (GetBestAnchor_same (vtop v) t) as S1; pose proof (fun t' => best_GetBestAnchor (vtop v) t t') as B1.
  assert (T1 : top_anchor (snd (GetBestAnchor (vtop v) t)) t = best (vtop v) t /\
    top_block (snd (GetBestAnchor (vtop v) t)) = top_block (vtop v) /\
    forall t', t' <> t -> top_anchor (snd (GetBestAnchor (vtop v) t)) t' = top_anchor (vtop v) t').
  { cbn [GetBestAnchor]; destruct (IsNull (hashAnchor v.1 t)) eqn:En; [| repeat split; reflexivity].
    destruct (GetBestAnchor v.2 t) as [h b']; cbn; rewrite fn_lookup_insert; split; [reflexivity |]; split; [reflexivity |].
    intros t' Hne; now rewrite fn_lookup_insert_ne by congruence. }
  destruct (GetBestAnchor (vtop v) t) as [h v']; cbn [fst snd] in *.
  pose proof (fun t' => best_GetAnchorAt v' t h t') as B2.
  destruct (GetAnchorAt v' t h) as [[tr |] v2] eqn:Ea; cbn [fst snd] in *; [| discriminate]; intros [= <- <- <-].
  apply GetAnchorAt_loads in Ea as L; destruct T1 as (T1 & K1 & T1').
  assert (Hg2 : good v2 (l :: s)) by (apply (ld_good _ _ L); eapply good_same; eassumption).
  rewrite (as_top_ok v2 v l s Hg2 Hs); split; [exact Hg2 |]; split; [reflexivity |]; split; [now rewrite (ld_anchor _ _ L) |].
  split; [intros Hn; rewrite (ld_block _ _ L); rewrite K1; auto |].
  intros t' Hne; rewrite (ld_anchor _ _ L), B2; auto.
Qed.

(** Popping the anchor [r] will succeed and make it the best anchor. *)
Definition ready (v : top) (t : ShieldedType) (r : uint256) : Prop :=
  IsNull (hashAnchor v.1 t) = false /\
  (hashAnchor v.1 t = r \/ exists e, cacheAnchors v.1 t !! hashAnchor v.1 t = Some e /\ ae_entered e = true).

Definition others (v v' : top) (t : ShieldedType) : Prop :=
  forall t', t' <> t -> hashAnchor v'.1 t' = hashAnchor v.1 t' /\ cacheAnchors v'.1 t' = cacheAnchors v.1 t'.

Lemma ready_others (v v' : top) t t' r : others v v' t -> t' <> t -> ready v t' r -> ready v' t' r.
Proof. intros Ho Hne Hr; destruct (Ho t' Hne) as [E1 E2]; unfold ready; now rewrite E1, E2. Qed.

Lemma ready_frame (v v' : top) t r : frame v.1 v'.1 -> ready v t r -> ready v' t r.
Proof. intros (_ & E1 & E2) Hr; unfold ready; now rewrite E1, E2. Qed.

Lemma push_ok (v : top) t tree :
  IsNull (hashAnchor v.1 t) = false -> IsNull (tree_root t tree) = false ->
  let v' := push v t tree in
  same_coins (vtop v) (vtop v') /\ ready v' t (hashAnchor v.1 t) /\ others v v' t /\ hashBlock v'.1 = hashBlock v.1.
Proof.
  intros Hn Hr; unfold push, PushAnchor; cbn [GetBestAnchor]; rewrite Hn; case_bool_decide as E; cbv zeta.
  { split; [apply same_coins_refl |]; split; [split; auto |]; now split. }
  cbn; split; [repeat split; apply same_coins_refl |]; split; [| split; [| reflexivity]].
  - unfold ready; cbn; rewrite !fn_lookup_insert, lookup_insert_eq; split; [exact Hr |]; right; eexists; now split.
  - intros t' Hne; cbn; now rewrite !fn_lookup_insert_ne by congruence.
Qed.

Lemma pop_ok {E} (v : top) t r :
  ready v t r ->
  exists v', PopAnchor (E := E) v.1 v.2 t r = Ok v' /\ same_coins (vtop v) (vtop v') /\ hashAnchor v'.1 t = r /\
    others v v' t /\ hashBlock v'.1 = hashBlock v.1.
Proof.
  intros [Hn Hr]; unfold PopAnchor; cbn [GetBestAnchor]; rewrite Hn; case_bool_decide as E1.
  { exists v; destruct v; split; [reflexivity |]; split; [apply same_coins_refl |]; split; [exact E1 |]; now split. }
  destruct Hr as [? | (e & Ee & He)]; [contradiction |]; cbn [GetAnchorAt]; rewrite Ee, He, Ee.
  eexists; split; [reflexivity |]; cbn; split; [repeat split; apply same_coins_refl |].
  rewrite fn_lookup_insert; split; [reflexivity |]; split; [| reflexivity].
  intros t' Hne; cbn; now rewrite !fn_lookup_insert_ne by congruence.
Qed.

(** ** The whole block *)

Definition prev_root (pindex : block_pos) (t : ShieldedType) : uint256 :=
  if bp_prev_sapling pindex then bp_prev_sapling_root pindex else empty_root t.

(** The views and the data that a connected block leaves. *)
Record connected (v1 : top) (l : level) (s : list level) (vtx : list hashed_tx) (pindex : block_pos)
    (undo : CBlockUndo) : Prop := {
  cn_good : good (vtop v1) (levels l vtx (bp_nHeight pindex) :: s);
  cn_length : length vtx = S (length (vtxundo undo));
  cn_undo : disconnects_all (with_undo vtx (vtxundo undo)) (bp_nHeight pindex)
              (levels l vtx (bp_nHeight pindex)) l;
  cn_block : hashBlock v1.1 = bp_hash pindex;
}.

(** Pushing leaves the coins as they are. *)
Lemma good_push (v : top) l s t tree : good (vtop v) (l :: s) -> good (vtop (push v t tree)) (l :: s).
Proof.
  intros Hg; eapply good_same; [| exact Hg]; unfold push, PushAnchor; pose proof (GetBestAnchor_same (vtop v) t) as S1.
  destruct (GetBestAnchor (vtop v) t) as [cur [d | c b]] eqn:Eg; cbn [fst snd] in S1; [destruct S1 |]; case_bool_decide; cbv zeta; [exact S1 |].
  eapply same_coins_trans; [exact S1 |]; repeat split; apply same_coins_refl.
Qed.

Lemma three_pushes (v : top) l s (T : ShieldedType -> Tree) :
  good (vtop v) (l :: s) ->
  let v' := push (push (push v SPROUT (T SPROUT)) SAPLING (T SAPLING)) SAPLINGFRONTIER (T SAPLINGFRONTIER) in
  good (vtop v') (l :: s) /\
  ((forall t, IsNull (hashAnchor v.1 t) = false) -> (forall t tree, IsNull (tree_root t tree) = false) ->
   forall t, ready v' t (hashAnchor v.1 t)).
Proof.
  intros Hg; cbv zeta; split; [now repeat apply good_push |]; intros Hn Hr.
  destruct (push_ok v SPROUT (T SPROUT) (Hn _) (Hr _ _)) as (S1 & R1 & O1 & _); set (v1 := push v SPROUT _) in *.
  assert (N1 : forall t, t <> SPROUT -> hashAnchor v1.1 t = hashAnchor v.1 t) by (intros t Ht; apply (O1 t Ht)).
  destruct (push_ok v1 SAPLING (T SAPLING)) as (S2 & R2 & O2 & _); [rewrite N1 by discriminate; apply Hn | apply Hr |].
  set (v2 := push v1 SAPLING _) in *; rewrite N1 in R2 by discriminate.
  assert (N2 : hashAnchor v2.1 SAPLINGFRONTIER = hashAnchor v.1 SAPLINGFRONTIER)
    by (rewrite (proj1 (O2 SAPLINGFRONTIER ltac:(discriminate))); now apply N1).
  destruct (push_ok v2 SAPLINGFRONTIER (T SAPLINGFRONTIER)) as (S3 & R3 & O3 & _); [rewrite N2; apply Hn | apply Hr |].
  rewrite N2 in R3; intros [].
  - apply (ready_others v2 _ SAPLINGFRONTIER); [exact O3 | discriminate |].
    apply (ready_others v1 _ SAPLING); [exact O2 | discriminate | exact R1].
  - apply (ready_others v2 _ SAPLINGFRONTIER); [exact O3 | discriminate | exact R2].
  - exact R3.
Qed.

(** The state at the start of the loop. *)
Record started (v : top) (l : level) (s : list level) (vtx : list hashed_tx) (pindex : block_pos) (old : uint256)
    (st : connect_state (Tree := Tree)) : Prop := {
  sd_good : good (vtop (cs_view st)) (l :: s);
  sd_old : old = best (vtop v) SPROUT;
  sd_prev : fst (GetBestBlock (vtop v)) = bp_prev_hash pindex;
  sd_block : top_block (vtop (cs_view st)) = bp_prev_hash pindex;
  sd_anchor : forall t, top_anchor (vtop (cs_view st)) t = best (vtop v) t;
  sd_new : Forall (fun t => lv_coins l t.1 = None) vtx;
  sd_zero : cs_fees st = 0 /\ cs_sum st = 0;
  sd_checks : cs_checks st = [];
}.

Lemma connect_start_ok (v : top) l s vtx pindex old st :
  good (vtop v) (l :: s) -> IsNull (bp_prev_hash pindex) = false ->
  connect_start v vtx pindex = Ok (old, st) -> started v l s vtx pindex old st.
Proof.
  intros Hg Hn; unfold connect_start.
  pose proof (fun t => best_GetBestBlock (vtop v) t) as B0.
  destruct (GetBestBlock (vtop v)) as [bb v0] eqn:Ebb; pose proof (GetBestBlock_loads _ _ _ Ebb) as L0.
  pose proof (GetBestBlock_known _ _ _ _ Ebb) as K0; cbn [fst snd] in *.
  case_bool_decide as Eb; cbn [negb reject_if mbind res_bind]; [| discriminate].
  pose proof (loads_top v v0 l s Hg L0) as Et; set (va := as_top v0 v) in *; clearbody va.
  rewrite <- Et in B0, K0, L0; pose proof (ld_good _ _ L0 _ _ Hg) as Ga.
  destruct (bip30_loop va vtx) as [vb | |] eqn:E30; cbn [mbind res_bind]; try discriminate.
  destruct (bip30_ok vtx va vb l s Ga E30) as [Lb Hnew]; pose proof (fun t => best_bip30 vtx t va vb l s Ga E30) as Bb.
  pose proof (ld_good _ _ Lb _ _ Ga) as Gb; assert (Kb : top_block (vtop vb) = bp_prev_hash pindex)
    by (rewrite (ld_block _ _ Lb), K0; congruence).
  destruct (best_tree vb SPROUT) as [[[r1 T1] vc] | |] eqn:E1; cbn [mbind res_bind]; try discriminate.
  destruct (best_tree_ok vb vc l s _ _ _ Gb E1) as (Gc & -> & A1 & K1 & O1).
  case_bool_decide; cbn [assert_ mbind res_bind]; [| discriminate].
  destruct (best_tree vc SAPLING) as [[[r2 T2] vd] | |] eqn:E2; cbn [mbind res_bind]; try discriminate.
  destruct (best_tree_ok vc vd l s _ _ _ Gc E2) as (Gd & -> & A2 & K2 & O2).
  destruct (best_tree vd SAPLINGFRONTIER) as [[[r3 T3] ve] | |] eqn:E3; cbn [mbind res_bind]; try discriminate.
  destruct (best_tree_ok vd ve l s _ _ _ Gd E3) as (Ge & -> & A3 & K3 & O3).
  intros [= <- <-]; split; cbn [cs_view cs_fees cs_sum cs_checks]; auto.
  - change (best (vtop vb) SPROUT = best (vtop v) SPROUT); now rewrite Bb, B0.
  - now rewrite Ebb.
  - rewrite K3; rewrite K2; rewrite K1; rewrite Kb; auto.
  - intros []; [rewrite (proj1 (O3 SPROUT ltac:(discriminate))), (proj1 (O2 SPROUT ltac:(discriminate))), A1
               | rewrite (proj1 (O3 SAPLING ltac:(discriminate))), A2, (proj2 (O1 SAPLING ltac:(discriminate)))
               | rewrite A3, (proj2 (O2 SAPLINGFRONTIER ltac:(discriminate))), (proj2 (O1 SAPLINGFRONTIER ltac:(discriminate)))];
      now rewrite Bb, B0.
Qed.

(** What [ConnectBlock] has done when it succeeds. *)
Record block_connected (c : subsidy_cache) (v v1 : top) (l : level) (s : list level) (vtx : list hashed_tx)
    (a : connect_args) (undo : CBlockUndo) (coinbase : CTransaction) (reward paid_reward : Z) (st : connect_state (Tree := Tree)) : Prop := {
  bc_connected : connected v1 l s vtx (ca_pos a) undo;
  bc_old : old_sprout_tree_root undo = best (vtop v) SPROUT;
  bc_prev : fst (GetBestBlock (vtop v)) = bp_prev_hash (ca_pos a);
  bc_ready : (forall t tree, IsNull (tree_root t tree) = false) -> (forall t, IsNull (best (vtop v) t) = false) ->
    forall t, ready v1 t (best (vtop v) t);
  bc_fees : cs_fees st = i64 (block_sum (fee_of (bp_nHeight (ca_pos a))) l vtx (bp_nHeight (ca_pos a)));
  bc_sum : cs_sum st = i64 (block_sum (interest_of (bp_nHeight (ca_pos a))) l vtx (bp_nHeight (ca_pos a)));
  bc_rounds : block_all (round_ok a (bp_nHeight (ca_pos a)) (cs_checks st)) l vtx (bp_nHeight (ca_pos a));
  bc_money : level_money (levels l vtx (bp_nHeight (ca_pos a)));
  bc_wf : level_wf (levels l vtx (bp_nHeight (ca_pos a)));
  bc_subsidy : exists subsidy c1 c2, GetBlockSubsidy c (bp_nHeight (ca_pos a)) = Ok (subsidy, c1) /\
    reward = i64 (subsidy + notarypaycheque a) /\
    block_reward c1 vtx coinbase st (bp_nHeight (ca_pos a)) reward = Ok (paid_reward, c2);
  bc_paid : check_reward coinbase (bp_nHeight (ca_pos a)) paid_reward = Ok tt;
  bc_checks : wait_checks (cs_checks st) = Ok tt;
}.

Lemma ConnectBlock_ok c c1 (v v1 : top) l s vtx a undo :
  good (vtop v) (l :: s) -> level_wf l -> level_money l -> at_tip (ca_pos a) ->
  Forall (fun t => tx_static t.2) vtx -> base.NoDup vtx.*1 ->
  match vtx with t :: _ => IsMint t.2 = true | [] => False end ->
  ConnectBlock c v vtx a = Ok (undo, v1, c1) ->
  exists txid coinbase rest reward paid_reward st, vtx = (txid, coinbase) :: rest /\
    block_connected c v v1 l s vtx a undo coinbase reward paid_reward st.
Proof.
  intros Hg Hw Hm Htip Hst Hnd Hcb; unfold ConnectBlock; set (pindex := ca_pos a) in *.
  destruct (GetBlockSubsidy c (bp_nHeight pindex)) as [[sub c0] | |] eqn:Esub; cbn [rethrow mbind res_bind]; try discriminate.
  destruct (connect_start v vtx pindex) as [[old st0] | |] eqn:E0; cbn [mbind res_bind]; try discriminate.
  destruct (connect_start_ok v l s vtx pindex old st0 Hg (tip_prev _ Htip) E0) as [Gs -> Ps Bs As Ns [Zf Zs] Zc].
  destruct (connect_loop a st0 true vtx) as [[us st] | |] eqn:El; cbn [mbind res_bind]; try discriminate.
  destruct (connect_loop_ok pindex Htip a vtx st0 st true l s us eq_refl Gs Hw Hm Hst Hnd Ns) as ([Af Asum Ac Ar Am Aw] & [Aa Ag Al Au]);
    [intros _; now destruct vtx | exact Bs | rewrite Zf; unfold is_i64; lia | rewrite Zs; unfold is_i64; lia | exact El |].
  destruct (negb (ASSETCHAINS_STAKED =? 0) && _ && _); cbn [reject_if mbind res_bind]; [discriminate |].
  destruct (bp_sapling pindex && _); cbn [reject_if mbind res_bind]; [discriminate |].
  assert (Ha : forall t, hashAnchor (cs_view st).1 t = best (vtop v) t) by (intros t; rewrite <- As; apply (Aa t)).
  destruct (three_pushes (cs_view st) _ s (fun t => match t with SPROUT => cs_sprout st | SAPLING => cs_sapling st
    | SAPLINGFRONTIER => cs_frontier st end) Ag) as [Gp Rp]; cbv beta match in Gp, Rp.
  destruct vtx as [| [txid coinbase] rest] eqn:Ev; [contradiction |]; rewrite <- Ev in *.
  destruct (block_reward c0 vtx coinbase st _ _) as [[pr c2] | |] eqn:Er; cbn [mbind res_bind]; try discriminate.
  destruct (check_reward coinbase _ pr) as [[] | |] eqn:Ek; cbn [mbind res_bind]; try discriminate.
  destruct (wait_checks (cs_checks st)) as [[] | |] eqn:Ew; cbn [mbind res_bind]; try discriminate.
  intros [= <- <- <-]; exists txid, coinbase, rest, (i64 (sub + notarypaycheque a)), pr, st; split; [exact Ev |].
  split; auto.
  - split; cbn [vtxundo fst snd]; [| | exact Au | reflexivity].
    + eapply good_same; [| exact Gp]; repeat split; apply same_coins_refl.
    + destruct Al as [Al | Al]; [now symmetry | congruence].
  - intros Hroot Hbest t; specialize (Rp ltac:(intros t'; rewrite Ha; apply Hbest) Hroot t); rewrite Ha in Rp; exact Rp.
  - now rewrite Af, Zf.
  - now rewrite Asum, Zs.
  - exists sub, c0, c2; auto.
Qed.

Lemma DisconnectBlock_ok (v1 : top) l s vtx pindex undo (r : ShieldedType -> uint256) :
  connected v1 l s vtx pindex undo -> IsNull (bp_hash pindex) = false ->
  (forall t, ready v1 t (r t)) -> old_sprout_tree_root undo = r SPROUT ->
  prev_root pindex SAPLING = r SAPLING -> prev_root pindex SAPLINGFRONTIER = r SAPLINGFRONTIER ->
  exists v2, DisconnectBlock v1 vtx pindex undo = Ok (true, v2) /\ good (vtop v2) (l :: s) /\
    hashBlock v2.1 = bp_prev_hash pindex /\ forall t, hashAnchor v2.1 t = r t.
Proof.
  intros [Hg Hl Hd Hb] Hn Hr E1 E2 E3; unfold DisconnectBlock; cbn [GetBestBlock]; rewrite Hb, Hn.
  rewrite bool_decide_eq_true_2 by reflexivity; cbn [assert_ mbind res_bind as_top].
  assert ((zlen (vtxundo undo) + 1 =? zlen vtx) = true) as -> by (apply Z.eqb_eq; unfold zlen; lia); cbn [negb].
  rewrite disconnect_loop_list by lia; rewrite take_ge by (unfold with_undo; rewrite length_zip_with; lia).
  destruct (Hd v1 s Hg) as (va & Ea & Fa & Ga); destruct v1 as [c1 b1]; cbn [fst snd] in *; rewrite Ea; cbn [mbind res_bind].
  assert (Ra : forall t, ready va t (r t)) by (intros t; apply (ready_frame (c1, b1)); auto).
  destruct va as [ca ba]; rewrite E1.
  destruct (pop_ok (E := string) (ca, ba) SPROUT (r SPROUT) (Ra _)) as (vb & Eb & S1 & A1 & O1 & _).
  cbn [fst snd] in Eb; rewrite Eb; cbn [mbind res_bind]; fold (prev_root pindex SAPLING); rewrite E2.
  destruct (pop_ok (E := string) vb SAPLING (r SAPLING)) as (vc & -> & S2 & A2 & O2 & _);
    [apply (ready_others (ca, ba) _ SPROUT); [exact O1 | discriminate | apply Ra] |]; cbn [mbind res_bind].
  fold (prev_root pindex SAPLINGFRONTIER); rewrite E3.
  destruct (pop_ok (E := string) vc SAPLINGFRONTIER (r SAPLINGFRONTIER)) as (vd & -> & S3 & A3 & O3 & _);
    [apply (ready_others vb _ SAPLING); [exact O2 | discriminate |];
     apply (ready_others (ca, ba) _ SPROUT); [exact O1 | discriminate | apply Ra] |].
  cbn [mbind res_bind]; eexists; split; [reflexivity |]; cbn [fst snd SetBestBlock set_block hashBlock hashAnchor].
  split; [| split; [reflexivity |]].
  - eapply good_same; [| eapply good_same; [exact S3 |]; eapply good_same; [exact S2 |]; eapply good_same; [exact S1 | exact Ga]].
    repeat split; apply same_coins_refl.
  - intros []; [rewrite (proj1 (O3 SPROUT ltac:(discriminate))), (proj1 (O2 SPROUT ltac:(discriminate))); exact A1
               | rewrite (proj1 (O3 SAPLING ltac:(discriminate))); exact A2 | exact A3].
Qed.
End Connect.

(** ** Transactions that passed the context-free check *)

(** Machine values of a transaction that has been read. *)
Definition machine_tx (tx : CTransaction) : Prop :=
  amounts_valid tx /\ Forall (fun p => 0 <= p.2) (prevouts tx) /\ zlen (tx_vout tx) < 2 ^ 32.

Definition pair_of (p : COutPoint) : uint256 * Z := (op_hash p, op_n p).

#[global] Instance pair_of_inj : Inj eq eq pair_of.
Proof. intros [h1 n1] [h2 n2] [= -> ->]; reflexivity. Qed.

Lemma accepted_static `{ChainParams, MoneyLimit, HashFunctions, Layout} `{!MoneyLimitOk H0} tiptime txid tx :
  machine_tx tx -> IsCoinImport tx = false ->
  CheckTransactionWithoutProofVerification tiptime txid tx = Ok tt -> tx_static tx.
Proof.
  intros (Ha & Hi & Hz) Him Hc; apply acceptable_iff in Hc; [| exact Ha]; destruct Hc.
  split; auto.
  - split; [| exact Hz]; eapply Forall_impl; [| exact ac_outputs]; intros o ((? & _) & _); exact H3.
  - intros _; unfold prevouts; rewrite <- (map_map prevout pair_of).
    exact (NoDup_fmap_2 pair_of _ ac_inputs_distinct).
  - intros Em; destruct (ac_mint Em) as (? & ? & _); auto.
Qed.

(** What a block that reaches the view has passed: every transaction the
    context-free check; distinct hashes; a coinbase first, and only there; no
    import. *)
Record block_checked `{ChainParams, MoneyLimit, HashFunctions, Layout} (tiptime : Z)
    (vtx : list (uint256 * CTransaction)) : Prop := {
  bk_txs : Forall (fun t => machine_tx t.2 /\ IsCoinImport t.2 = false /\
    CheckTransactionWithoutProofVerification tiptime t.1 t.2 = Ok tt) vtx;
  bk_distinct : base.NoDup vtx.*1;
  bk_coinbase : match vtx with t :: rest => IsCoinBase t.2 = true /\ Forall (fun t => IsCoinBase t.2 = false) rest | [] => False end;
}.

Lemma checked_static `{ChainParams, MoneyLimit, HashFunctions, Layout} `{!MoneyLimitOk H0} tiptime vtx :
  block_checked tiptime vtx -> Forall (fun t => tx_static t.2) vtx.
Proof.
  intros Hb; eapply Forall_impl; [| apply Hb]; intros t (Hm & Hi & Ha); eapply accepted_static; eassumption.
Qed.

Lemma checked_mint `{ChainParams, MoneyLimit, HashFunctions, Layout} tiptime vtx :
  block_checked tiptime vtx -> match vtx with t :: _ => IsMint t.2 = true | [] => False end.
Proof.
  intros [_ _ Hc]; destruct vtx; [exact Hc |]; unfold IsMint; now rewrite (proj1 Hc), orb_true_r.
Qed.

(** ** Properties *)

Section Properties.
Context {Tree : Type} `{AnchorTrees Tree, NoteTrees Tree, HashFunctions, LowS, ChainParams, MoneyLimit, SpendParams,
  InterestChain, SubsidyParams, BlockEnv, Layout} `{!MoneyLimitOk _} (icok : InterestChainOk _).

(** The block extends a view of the level [l] in which all roots are known, and
    has passed the context-free checks. *)
Record block_ready (v : CCoinsViewCache Tree * view Tree) (l : level) (s : list level)
    (vtx : list (uint256 * CTransaction)) (a : connect_args) (tiptime : Z) : Prop := {
  br_good : good (VCache v.1 v.2) (l :: s);
  br_wf : level_wf l;
  br_money : level_money l;
  br_tip : at_tip (ca_pos a);
  br_checked : block_checked tiptime vtx;
  br_roots : forall t tree, IsNull (tree_root t tree) = false;
  br_best : forall t, IsNull (fst (GetBestAnchor (VCache v.1 v.2) t)) = false;
}.

Lemma ready_connected c c1 v v1 l s vtx a undo tiptime :
  block_ready v l s vtx a tiptime -> ConnectBlock c v vtx a = Ok (undo, v1, c1) ->
  exists txid coinbase rest reward paid st, vtx = (txid, coinbase) :: rest /\
    block_connected c v v1 l s vtx a undo coinbase reward paid st.
Proof.
  intros [] Hc; eapply ConnectBlock_ok; eauto; [eapply checked_static | apply br_checked0 | eapply checked_mint]; eassumption.
Qed.

(** C7: disconnecting a block undoes connecting it.  If [ConnectBlock] accepts a
    block on the tip whose transactions pass the context-free check (a coinbase
    first, no imports, distinct hashes), then [DisconnectBlock] on the resulting
    view with the undo data that was produced finds everything clean, fails no
    assertion, and leaves a view of exactly the coin set and nullifiers of
    before, with the previous best block and the previous best anchors;
    whatever the caches contain, and whatever the transactions of the block
    spend of each other. *)
Theorem disconnect_undoes_connect (c c1 : subsidy_cache) (v v1 : CCoinsViewCache Tree * view Tree) (l : level)
    (s : list level) (vtx : list (uint256 * CTransaction)) (a : connect_args) (undo : CBlockUndo) (tiptime : Z) :
  block_ready v l s vtx a tiptime -> IsNull (bp_hash (ca_pos a)) = false ->
  (forall t, t <> SPROUT -> prev_root (ca_pos a) t = fst (GetBestAnchor (VCache v.1 v.2) t)) ->
  ConnectBlock c v vtx a = Ok (undo, v1, c1) ->
  exists v2, DisconnectBlock v1 vtx (ca_pos a) undo = Ok (true, v2) /\ good (VCache v2.1 v2.2) (l :: s) /\
    hashBlock v2.1 = fst (GetBestBlock (VCache v.1 v.2)) /\
    forall t, hashAnchor v2.1 t = fst (GetBestAnchor (VCache v.1 v.2) t).
Proof.
  intros Hb Hnull Hprev Hc; destruct (ready_connected _ _ _ _ _ _ _ _ _ _ Hb Hc) as (txid & cb & rest & r & pr & st & Ev & B).
  destruct (DisconnectBlock_ok v1 l s vtx (ca_pos a) undo (fun t => fst (GetBestAnchor (VCache v.1 v.2) t)))
    as (v2 & E & G & Bl & A); try (apply B || exact Hnull || (apply Hprev; discriminate)).
  1, 2: apply Hb.
  exists v2; rewrite (bc_prev _ _ _ _ _ _ _ _ _ _ _ _ B); auto.
Qed.
End Properties.

(** A block of a coinbase, a transaction that spends an old coin with interest,
    and one that spends that transaction's output.  Trees only count their
    commitments. *)
Module Example_block.
Import Example_inputs.
Definition prev : uint256 := repeat 8 32.
Definition db : view nat :=
  VDB (mkDB {[ repeat 1 32 := coin ]} (fun _ => ∅) (fun _ => ∅) (fun _ => ∅) (Some prev) (fun _ => None)).
Definition bottom : level := mkLevel (utxo db) (nf_spent db).
Definition v : CCoinsViewCache nat * view nat := (new_cache, db).

Definition vtx : list (uint256 * CTransaction) :=
  [(repeat 11 32, tx_with [mkTxIn outpoint_SetNull [1; 2] 0] [mkTxOut (3 * COIN) [82]]);
   (repeat 12 32, spender);
   (repeat 13 32, tx_with [mkTxIn (mkOutPoint (repeat 12 32) 0) [1; 2] 0] [mkTxOut (500 * COIN) [81]; mkTxOut 0 [106]])].
Definition args : connect_args := mkConnectArgs (mkPos [9] 3000001 true [1; 0] prev [1; 0] true) true 0 false 0.

#[local] Existing Instances toy_hashes Example_interest.kmd limit limit_ok spend_params chain params.
#[local] Instance lows : LowS := fun _ => true.
#[local] Instance env : BlockEnv := {|
  MAX_BLOCK_SIGOPS := 40000; KOMODO_EXTRASATOSHI := 0; ASSETCHAINS_CC := 0; ASSETCHAINS_FOUNDERS := 0;
  ASSETCHAINS_FOUNDERS_REWARD := 0; nScriptCheckThreads := 2;
  mapBlockIndex_nHeight := fun h => if decide (h = prev) then Some 3000000 else None;
  ServerChecker := fun _ _ _ => BaseChecker; CheckEvalCondition := fun _ _ => false; komodo_checkPOW := fun _ => 0 |}.

Lemma good_v : good (VCache v.1 v.2) [bottom; bottom].
Proof.
  assert (G : good db [bottom]) by (split; [exact I |]; split; [exact I |]; now split).
  destruct (refines_push db [bottom] G) as (v' & [= <-] & Hg); exact Hg.
Qed.

Lemma wf_block_bottom : level_wf bottom.
Proof. exact wf_spent_bottom. Qed.

Lemma money_bottom : level_money bottom.
Proof.
  intros t c ->%coin_only; repeat apply Forall_cons_2; [now left | right | apply Forall_nil_2].
  vm_compute; split; discriminate.
Qed.

Lemma tip : at_tip (ca_pos args).
Proof. now split; vm_compute. Qed.

Lemma checked : block_checked 1650000000 vtx.
Proof.
  split.
  - repeat apply Forall_cons_2; [.. | apply Forall_nil_2];
      (split; [| split; [reflexivity | vm_compute; reflexivity]]; unfold machine_tx, amounts_valid, is_i64; cbn;
       repeat first [apply Forall_nil_2 | apply Forall_cons_2 | apply conj | reflexivity | vm_compute; discriminate]).
  - vm_compute; repeat (apply NoDup_cons_2; [rewrite ?elem_of_cons, ?elem_of_nil; intuition discriminate |]); apply NoDup_nil_2.
  - split; [reflexivity | repeat constructor].
Qed.

Lemma ready : block_ready v bottom [bottom] vtx args 1650000000.
Proof. split; [exact good_v | exact wf_block_bottom | exact money_bottom | exact tip | exact checked |..]; intros t; reflexivity. Qed.

Definition connect := ConnectBlock empty_subsidy_cache v vtx args.
Definition disconnect (v1 : CCoinsViewCache nat * view nat) (undo : CBlockUndo) := DisconnectBlock v1 vtx (ca_pos args) undo.
End Example_block.

Lemma disconnect_undoes_connect_witness :
  exists undo v1 c1 v2,
    Example_block.connect = Ok (undo, v1, c1) /\ Example_block.disconnect v1 undo = Ok (true, v2) /\
    good (VCache v2.1 v2.2) [Example_block.bottom; Example_block.bottom].
Proof.
  destruct Example_block.connect as [[[undo v1] c1] | |] eqn:E; [| vm_compute in E; discriminate..].
  exists undo, v1, c1.
  destruct (disconnect_undoes_connect (H1 := toy_hashes) (H2 := Example_block.lows) (H3 := Example_interest.kmd)
    (H5 := Example_inputs.spend_params) (H7 := Example_inputs.params) (H8 := Example_block.env)
    (MoneyLimitOk0 := Example_inputs.limit_ok) Example_inputs.chain_ok
    empty_subsidy_cache c1 Example_block.v v1 Example_block.bottom [Example_block.bottom] Example_block.vtx Example_block.args
    undo 1650000000) as (v2 & E2 & G & _);
    [exact Example_block.ready | reflexivity | | exact E |].
  - intros t Ht; vm_compute; reflexivity.
  - exists v2; auto.
Defined.

(** Two imports of one burn: connecting the second does not look for the tombstone
    of the first, and disconnecting it clears the tombstone, while the first import
    stays connected. *)
Module Example_imports.
Import Example_inputs.
#[local] Existing Instances toy_hashes.
Definition burn : uint256 := repeat 5 32.
Definition import (n : Z) : uint256 * CTransaction := (repeat n 32, tx_with [mkTxIn (mkOutPoint burn 1000000000) [] 0] [mkTxOut n [81]]).
Definition empty_view : CCoinsViewCache nat * view nat :=
  (new_cache, VDB (mkDB ∅ (fun _ => ∅) (fun _ => ∅) (fun _ => ∅) None (fun _ => None))).
Definition connected (v : CCoinsViewCache nat * view nat) (t : uint256 * CTransaction) : CCoinsViewCache nat * view nat :=
  match UpdateCoins (E := unit) v t.1 t.2 7 with Ok (_, v) => v | _ => v end.
Definition disconnected (v : CCoinsViewCache nat * view nat) (t : uint256 * CTransaction) : CCoinsViewCache nat * view nat :=
  match disconnect_tx v t.1 t.2 None 7 with Ok (_, v) => v | _ => v end.
Definition marked_burn (v : CCoinsViewCache nat * view nat) : bool := (HaveCoins (VCache v.1 v.2) burn).1.

Example tombstone_lost :
  let v1 := connected empty_view (import 31) in
  let v2 := connected v1 (import 32) in
  let v3 := disconnected v2 (import 32) in
  (marked_burn v1, marked_burn v2, marked_burn v3) = (true, true, false) /\ (HaveCoins (VCache v3.1 v3.2) (repeat 31 32)).1 = true.
Proof. vm_compute; auto. Qed.
End Example_imports.
