(* ===== verification/Issuance.v ===== *)
(** * The value of the coin set

    What a connected block does to the sum of the unspent amounts: ConnectBlock
    checks every input against the coin set and its script, and the coinbase
    against the reward, so the sum grows by no more than what the chain issues. *)
From stdpp Require Import gmap functions strings.
From S2P Require Import Prelude Endian Hashing Merkle Script Interpreter Serialize Transaction TransactionSpec.
From S2P Require Import TxCheck TxCheckSpec Interest Subsidy Coins CoinsSer CoinsView CoinsViewSpec UpdateCoins.
From S2P Require Import UpdateCoinsSpec TxInputs ViewReads TxInputsSpec Connect ConnectTx ConnectSpec.

(** ** Sums over transactions *)

Definition out_value (o : CTxOut) : Z := if txout_IsNull o then 0 else nValue o.
Definition outs_value (os : list CTxOut) : Z := zsum (map out_value os).
Definition coins_value (x : option CCoins) : Z := from_option (fun c => outs_value (vout c)) 0 x.

(** The unspent amounts of the transactions [T]. *)
Definition total (T : list uint256) (l : level) : Z := zsum (map (fun t => coins_value (lv_coins l t)) T).

Lemma zsum_app a b : zsum (a ++ b) = zsum a + zsum b.
Proof. unfold zsum; induction a; cbn; lia. Qed.

Lemma outs_value_null d : Forall (fun o => txout_IsNull o = true) d -> outs_value d = 0.
Proof. unfold outs_value, zsum; induction 1 as [| o d Ho Hd IH]; cbn; [reflexivity |]; unfold out_value at 1; rewrite Ho; exact IH. Qed.

Lemma outs_value_Cleanup c : outs_value (vout (Cleanup c)) = outs_value (vout c).
Proof.
  destruct (Cleanup_vout c) as (d & E & Hd); rewrite E; unfold outs_value; rewrite map_app, zsum_app.
  fold (outs_value d); rewrite outs_value_null by exact Hd; lia.
Qed.

Lemma coins_value_canon c : coins_value (canon c) = outs_value (vout c).
Proof.
  unfold canon; destruct (IsPruned c) eqn:E; [| reflexivity]; symmetry; apply outs_value_null.
  apply Forall_forall; unfold IsPruned in E; rewrite forallb_forall in E; intros o Ho; now apply E.
Qed.

Lemma outs_value_insert os : forall i o x,
  os !! i = Some o -> outs_value (<[i := x]> os) = outs_value os - out_value o + out_value x.
Proof.
  unfold outs_value, zsum; induction os as [| o' os IH]; intros [| i] o x E; cbn in *; try discriminate.
  - injection E as ->; lia.
  - etransitivity; [apply (f_equal (Z.add _)), (IH i o x E) | lia].
Qed.

Lemma outs_value_nonneg `{MoneyLimit} os : Forall money_out os -> 0 <= outs_value os.
Proof.
  intros Ho; apply zsum_nonneg, Forall_map; eapply Forall_impl; [| exact Ho].
  intros o [-> | Hb]; unfold out_value; cbn; [lia | destruct (txout_IsNull o); lia].
Qed.

Lemma coins_value_nonneg `{MoneyLimit} l t : level_money l -> 0 <= coins_value (lv_coins l t).
Proof. intros Hl; destruct (lv_coins l t) as [c |] eqn:E; cbn; [eapply outs_value_nonneg, Hl, E | lia]. Qed.

Lemma set_tx_coins l t x t' : lv_coins (set_tx l t x) t' = if decide (t' = t) then x else lv_coins l t'.
Proof. reflexivity. Qed.

Lemma total_set T l t x :
  base.NoDup T -> t ∈ T -> total T (set_tx l t x) = total T l - coins_value (lv_coins l t) + coins_value x.
Proof.
  unfold total, zsum; induction 1 as [| t' T Hni Hnd IH]; [intros []%not_elem_of_nil |]; intros Hin; cbn [map fold_right].
  apply elem_of_cons in Hin as [<- | Hin].
  - enough (fold_right Z.add 0 (map (fun t' => coins_value (lv_coins (set_tx l t x) t')) T)
            = fold_right Z.add 0 (map (fun t' => coins_value (lv_coins l t')) T)) as ->
      by (rewrite set_tx_coins, decide_True by reflexivity; lia).
    f_equal; apply map_ext_in; intros t' Ht'; rewrite set_tx_coins, decide_False; [reflexivity |].
    intros ->; now apply Hni, list_elem_of_In.
  - rewrite (IH Hin), set_tx_coins, decide_False by (intros ->; contradiction); lia.
Qed.

(** ** Spending *)

Lemma total_spend_one T l p :
  base.NoDup T -> p.1 ∈ T -> available l p -> total T (spend_one l p) = total T l - input_value l p.
Proof.
  intros Hnd Hin (Hn & c & Ec & Ha); destruct (IsAvailable_lookup c p.2 Hn Ha) as (o & Ho & Hno).
  unfold spend_one; rewrite total_set, Ec, coins_value_canon, (Spend_eq c p.2 o) by assumption; cbn [snd coins_value from_option].
  rewrite outs_value_Cleanup; cbn [vout set_vout]; rewrite (outs_value_insert _ _ o) by exact Ho.
  unfold input_value, coin_at; rewrite Ec; cbn; rewrite Ho; cbn; unfold out_value; rewrite Hno; cbn; lia.
Qed.

Lemma input_value_spend_one l p q :
  available l p -> available l q -> p <> q -> input_value (spend_one l p) q = input_value l q.
Proof.
  intros Hp Hq Hne; pose proof (available_spend_one l p q Hp Hq Hne) as (_ & d & Ed & Ad).
  destruct Hp as (Hp & c & Ec & Ac), Hq as (Hq & c' & Ec' & Ac'); unfold input_value, coin_at.
  unfold spend_one in Ed |- *; rewrite Ec in Ed |- *; cbn in Ed |- *; destruct (decide (q.1 = p.1)) as [E | E]; [| reflexivity].
  destruct (IsAvailable_lookup c p.2 Hp Ac) as (o & Ho & Hno); rewrite E, Ec; rewrite (Spend_eq c p.2 o) in Ed |- * by assumption.
  rewrite Ed; cbn [mbind option_bind snd] in *; apply canon_Some in Ed as [-> _].
  destruct (IsAvailable_lookup _ q.2 Hq Ad) as (o' & Ho' & _); cbn [mbind option_bind]; rewrite Ho'.
  destruct (Cleanup_vout (set_vout c (<[Z.to_nat p.2:=txout_SetNull]> (vout c)))) as (d & Ev & _); cbn [vout set_vout] in Ev.
  apply (lookup_app_l_Some _ d) in Ho'; rewrite <- Ev, list_lookup_insert_ne in Ho'; [now rewrite Ho' |].
  destruct p as [p1 p2], q as [q1 q2]; cbn in *; intros E2; apply Hne; f_equal; [congruence | lia].
Qed.

Lemma total_spend T ps : base.NoDup T -> forall l,
  base.NoDup ps -> Forall (fun p => p.1 ∈ T) ps -> Forall (available l) ps ->
  total T (spend_level l ps) = total T l - zsum (map (input_value l) ps).
Proof.
  intros HT; induction ps as [| p ps IH]; intros l Hnd Hin Hav; cbn; [lia |].
  pose proof (NoDup_cons_1_1 _ _ Hnd) as Hni; apply NoDup_cons_1_2 in Hnd.
  apply Forall_cons_1 in Hin as [Hp Hin], Hav as [Ap Hav]; rewrite Forall_forall in Hav.
  assert (Hne : forall q, In q ps -> p <> q) by (intros q Hq ->; apply Hni; now apply list_elem_of_In).
  unfold spend_level in IH; rewrite IH, total_spend_one;
    auto; [| apply Forall_forall; intros q Hq; apply available_spend_one; auto].
  rewrite (map_ext_in (input_value (spend_one l p)) (input_value l)); [unfold zsum; lia |].
  intros q Hq; apply input_value_spend_one; auto.
Qed.

(** ** One transaction *)

Definition outputs_value (tx : CTransaction) : Z := zsum (map nValue (tx_vout tx)).

(** What the transaction moves into the shielded pools. *)
Definition shielded_value_out (tx : CTransaction) : Z :=
  Z.max 0 (- valueBalance tx) + zsum (map vpub_old (vjoinsplit tx)).

Lemma outs_value_FromTx tx h :
  Forall (fun o => 0 <= nValue o) (tx_vout tx) -> outs_value (vout (FromTx tx h)) <= outputs_value tx.
Proof.
  intros Ho; unfold FromTx, ClearUnspendable; rewrite outs_value_Cleanup; cbn [vout set_vout]; unfold outs_value, outputs_value.
  rewrite map_map; unfold zsum; induction Ho as [| o os Hv Hos IH]; cbn; [lia |].
  unfold out_value at 1; destruct (IsUnspendable _); cbn; [| destruct (txout_IsNull o)]; lia.
Qed.

(** The transactions whose coins a block changes. *)
Definition touches (T : list uint256) (t : uint256 * CTransaction) : Prop :=
  t.1 ∈ T /\ (IsMint t.2 = false -> Forall (fun p => p.1 ∈ T) (prevouts t.2)).

Lemma total_next_level `{MoneyLimit} `{!MoneyLimitOk _} T l txid tx h :
  base.NoDup T -> touches T (txid, tx) -> level_money l -> tx_static tx ->
  (IsMint tx = false -> Forall (available l) (prevouts tx)) ->
  total T (next_level l txid tx h) <=
  total T l - (if IsMint tx then 0 else inputs_value l tx) + outputs_value tx.
Proof.
  intros HT [Ht Hp] Hl Hs Hav; cbn in Ht, Hp; unfold next_level; rewrite total_set, coins_value_canon by assumption.
  pose proof (outs_value_FromTx tx h (proj1 (st_outputs _ Hs))) as Hf.
  destruct (IsMint tx) eqn:Em; cbn [set_spent lv_coins].
  - pose proof (coins_value_nonneg l txid Hl); change (total T (set_spent l tx true)) with (total T l); lia.
  - pose proof (coins_value_nonneg (spend_level l (prevouts tx)) txid (level_money_spend _ _ Hl)).
    change (total T (set_spent (spend_level l (prevouts tx)) tx true)) with (total T (spend_level l (prevouts tx))).
    rewrite (total_spend T (prevouts tx) HT l (st_distinct _ Hs Em) (Hp eq_refl) (Hav eq_refl)); unfold inputs_value; lia.
Qed.

(** ** A block *)

Section Block.
Context {Tree : Type} `{AnchorTrees Tree, NoteTrees Tree, HashFunctions, LowS, ChainParams, MoneyLimit, SpendParams,
  InterestChain, SubsidyParams, BlockEnv} `{!MoneyLimitOk _}.

(** Amounts that the transactions other than coinbases take out of the shielded
    pools, and what all transactions put into them. *)
Definition unshielded (l : level) (tx : CTransaction) : Z := if IsCoinBase tx then 0 else shielded_value_in tx.
Definition shielded (l : level) (tx : CTransaction) : Z := shielded_value_out tx.
Definition coinbase_value (l : level) (tx : CTransaction) : Z := if IsCoinBase tx then value_out tx else 0.

Lemma total_round a h q T l txid tx :
  base.NoDup T -> touches T (txid, tx) -> tx_static tx -> round_ok a h q l tx ->
  total T (next_level l txid tx h) + shielded l tx + fee_of h l tx <=
  total T l + unshielded l tx + interest_of h l tx + coinbase_value l tx.
Proof.
  intros HT Ht Hs (Hl & Hv & Hr).
  assert (Em : IsMint tx = IsCoinBase tx) by (unfold IsMint; now rewrite (st_import _ Hs)).
  pose proof (total_next_level T l txid tx h HT Ht Hl Hs) as Hn; rewrite Em in Hn.
  unfold fee_of, interest_of, unshielded, shielded, coinbase_value, shielded_value_out; unfold value_out, outputs_value in *.
  destruct (IsCoinBase tx); [specialize (Hn ltac:(discriminate)); lia |].
  destruct (Hr eq_refl) as [Hsp _]; specialize (Hn (fun _ => so_available _ _ _ _ Hsp)).
  unfold tx_fee, value_out; lia.
Qed.

Lemma total_block a h q T vtx : base.NoDup T -> forall l,
  Forall (touches T) vtx -> Forall (fun t => tx_static t.2) vtx -> block_all (round_ok a h q) l vtx h ->
  total T (levels l vtx h) + block_sum shielded l vtx h + block_sum (fee_of h) l vtx h <=
  total T l + block_sum unshielded l vtx h + block_sum (interest_of h) l vtx h + block_sum coinbase_value l vtx h.
Proof.
  intros HT; induction vtx as [| [txid tx] vtx IH]; intros l Ht Hs; cbn; [lia |]; intros [Hr Hrs].
  apply Forall_cons_1 in Ht as [Ht Hts], Hs as [Hs Hss]; cbn in Hs.
  pose proof (total_round a h q T l txid tx HT Ht Hs Hr); specialize (IH _ Hts Hss Hrs).
  unfold levels in IH; lia.
Qed.

Lemma coinbase_only vtx h : forall l,
  Forall (fun t => IsCoinBase t.2 = false) vtx -> block_sum coinbase_value l vtx h = 0.
Proof.
  induction vtx as [| [txid tx] vtx IH]; intros l; cbn; [reflexivity |]; intros Hf.
  apply Forall_cons_1 in Hf as [Hc Hf]; cbn in Hc; unfold coinbase_value at 1; rewrite Hc, IH by exact Hf; reflexivity.
Qed.

(** ** The reward *)

Lemma swrap_le x : - 2 ^ 63 <= x -> i64 x <= x.
Proof. intros Hx; unfold swrap; change (64 - 1) with 63; pose proof (Z.mod_le (x + 2 ^ 63) (2 ^ 64)); lia. Qed.

Lemma GetBlockSubsidy_range c h s c' : GetBlockSubsidy c h = Ok (s, c') -> is_i64 s.
Proof.
  unfold GetBlockSubsidy; destruct isKMD.
  - intros [= <- _]; unfold is_i64, COIN; repeat destruct (_ <? _); destruct (_ =? _); lia.
  - destruct (komodo_ac_block_subsidy c h) as [[x c1] | |]; cbn [mbind res_bind]; try discriminate.
    intros [= <- _]; apply (swrap_range 64); lia.
Qed.

(** The commission that the second output of the coinbase pays. *)
Definition pays_commission (vtx : list (uint256 * CTransaction)) (coinbase : CTransaction) (h x : Z) : Prop :=
  exists c1 c2 o, komodo_commission c1 vtx h = Ok (x, c2) /\ tx_vout coinbase !! 1%nat = Some o /\ u64 (nValue o) = x.

Lemma add_commission_ok c vtx cb h r r' c' :
  add_commission c vtx cb h r = Ok (r', c') ->
  exists x, r' = (if x =? 0 then r else i64 (r + x)) /\ (x = 0 \/ pays_commission vtx cb h x).
Proof.
  unfold add_commission; destruct (negb _ || _); [| intros [= <- _]; exists 0; auto].
  destruct (komodo_commission c vtx h) as [[x c2] | |] eqn:Ek; cbn [rethrow mbind res_bind]; try discriminate.
  destruct (Z.eqb_spec x 0) as [E | E]; [intros [= <- _]; exists 0; auto |].
  destruct (tx_vout cb !! 1%nat) as [o |] eqn:Eo; [| destruct (1 <? h); [discriminate | intros [= <- _]; exists 0; auto]].
  destruct (Z.eqb_spec (u64 (nValue o)) x) as [Ex | Ex]; intros [= <- _]; [exists x | exists 0; auto].
  rewrite (proj2 (Z.eqb_neq x 0) E); split; [reflexivity |]; right; unfold pays_commission; eauto 6.
Qed.

Lemma swrap_sub_r a b : i64 (a - i64 b) = i64 (a - b).
Proof.
  unfold swrap at 1 3; change (64 - 1) with 63; f_equal.
  replace (a - i64 b + 2 ^ 63) with (a + 2 * 2 ^ 63 - (b + 2 ^ 63) mod 2 ^ 64) by (unfold swrap; change (64 - 1) with 63; lia).
  rewrite Zminus_mod_idemp_r; f_equal; lia.
Qed.

Lemma swrap_add_r a b : i64 (a + i64 b) = i64 (a + b).
Proof. rewrite Z.add_comm, swrap_add by lia; f_equal; lia. Qed.

Lemma block_reward_ok c vtx cb (st : connect_state (Tree := Tree)) h r fees interest r' c' :
  cs_fees st = i64 fees -> cs_sum st = i64 interest ->
  block_reward c vtx cb st h (i64 r) = Ok (r', c') ->
  exists x, r' = i64 (r + fees + (if isKMD && (KOMODO_NOTARIES_HEIGHT2 <=? h) then 0 else interest) + x) /\
    0 <= x /\ (x = 0 \/ pays_commission vtx cb h x).
Proof.
  intros Ef Es; unfold block_reward; rewrite Ef, Es; intros (x & -> & Hx)%add_commission_ok; exists x.
  split; [| split; [destruct Hx as [-> | (? & ? & o & _ & _ & <-)]; [lia | apply (uwrap_range 64); lia] | exact Hx]].
  assert (E : (if isKMD && (KOMODO_NOTARIES_HEIGHT2 <=? h)
               then i64 (i64 (i64 r + i64 (i64 fees + i64 interest)) - i64 interest)
               else i64 (i64 r + i64 (i64 fees + i64 interest)))
              = i64 (r + fees + (if isKMD && (KOMODO_NOTARIES_HEIGHT2 <=? h) then 0 else interest))).
  { assert (E1 : i64 (i64 r + i64 (i64 fees + i64 interest)) = i64 (r + fees + interest)).
    { rewrite swrap_add, swrap_add_r, (Z.add_comm (i64 fees)), Z.add_assoc, swrap_add_r by lia.
      rewrite (Z.add_comm r), <- Z.add_assoc, swrap_add by lia; f_equal; lia. }
    rewrite E1; destruct (_ && _); [| reflexivity].
    rewrite swrap_sub_r; unfold Z.sub; rewrite swrap_add by lia; f_equal; lia. }
  rewrite E; destruct (Z.eqb_spec x 0) as [-> | Hne]; [f_equal; lia | rewrite swrap_add by lia; f_equal; lia].
Qed.

Lemma check_reward_ok cb h r :
  amounts_valid cb -> (isKMD = true -> KOMODO_NOTARIES_HEIGHT1 <= h) -> check_reward cb h r = Ok tt ->
  value_out cb <= i64 (r + KOMODO_EXTRASATOSHI).
Proof.
  intros Ha Hk; unfold check_reward.
  destruct (GetValueOut cb) as [paid | |] eqn:Ep; cbn [mbind res_bind]; try discriminate.
  destruct (money_outputs cb paid Ha Ep) as (_ & -> & _).
  destruct (reject_if _ _) as [[] | |]; cbn [mbind res_bind]; try discriminate.
  destruct (Z.ltb_spec (i64 (r + KOMODO_EXTRASATOSHI)) (value_out cb)) as [Hlt | Hge]; [| lia].
  destruct isKMD; cbn [negb orb]; [rewrite (proj2 (Z.leb_le _ _) (Hk eq_refl)) |]; discriminate.
Qed.

Lemma block_sum_nonneg (P : level -> CTransaction -> Prop) f vtx h : (forall l tx, P l tx -> 0 <= f l tx) ->
  forall l, block_all P l vtx h -> 0 <= block_sum f l vtx h.
Proof.
  intros Hf; induction vtx as [| [txid tx] vtx IH]; intros l; cbn; [lia |]; intros [Hp Hr].
  specialize (IH _ Hr); specialize (Hf _ _ Hp); lia.
Qed.

Lemma round_nonneg a h q l tx : round_ok a h q l tx -> 0 <= fee_of h l tx /\ 0 <= interest_of h l tx.
Proof.
  intros (_ & _ & Hr); unfold fee_of, interest_of; destruct (IsCoinBase tx); [lia |].
  destruct (Hr eq_refl) as [[] _]; lia.
Qed.

(** ** The queued checks *)

Lemma wait_checks_ok l : wait_checks l = Ok tt -> Forall (fun ck => run_script ck = Ok tt) l.
Proof.
  induction l as [| ck l IH]; cbn; [constructor |]; destruct (run_script ck) as [[] | |] eqn:E; try discriminate.
  constructor; auto.
Qed.

(** Every input of the transaction spends an output whose script accepts it. *)
Definition scripts_accept (l : level) (tx : CTransaction) (flags branch : Z) : Prop :=
  forall k inp, tx_vin tx !! k = Some inp ->
  exists o, coin_at l (op_hash (prevout inp), op_n (prevout inp)) = Some o /\
    run_script (check_of tx k o flags branch) = Ok tt.

Lemma scripts_in_accept l tx flags branch q :
  Forall (fun ck => run_script ck = Ok tt) q -> scripts_in l tx flags branch 0 (tx_vin tx) q ->
  scripts_accept l tx flags branch.
Proof.
  intros Hq Hs k inp Hk; destruct (Hs k inp Hk) as (o & Ho & [Hr | Hi]); exists o; split; auto.
  rewrite Forall_forall in Hq; apply Hq; now apply list_elem_of_In.
Qed.
End Block.

(** ** Properties *)

Section Properties.
Context {Tree : Type} `{AnchorTrees Tree, NoteTrees Tree, HashFunctions, LowS, ChainParams, MoneyLimit, SpendParams,
  InterestChain, SubsidyParams, BlockEnv, Layout} `{!MoneyLimitOk _} (icok : InterestChainOk _).

(** C4: a connected block without imports is valid.  Take a block on the tip whose
    transactions have distinct ids and pass the context-free checks, the first and
    only the first a coinbase, and none an import (an import spends no unspent
    output).  If [ConnectBlock] accepts it, then every transaction but the
    coinbase, at the point of the block at which it stands, spends unspent outputs
    that are mature, has nullifiers that are not in the view, and pays a fee in
    the range of money out of its inputs, interest and shielded value; and, unless
    the block lies below a checkpoint, the script of every output that it spends
    has accepted the input, whether the check ran at once or waited in the queue.
    The view is then one of the coin set after all transactions. *)
Theorem connect_block_valid c c1 v v1 l s vtx a undo tiptime :
  block_ready v l s vtx a tiptime -> ConnectBlock c v vtx a = Ok (undo, v1, c1) ->
  block_all (fun l tx => IsCoinBase tx = false ->
    spends_ok l tx (bp_nHeight (ca_pos a)) (tx_fee l tx (bp_nHeight (ca_pos a))) /\
    (fExpensiveChecks a = true -> scripts_accept l tx script_flags (consensusBranchId a)))
    l vtx (bp_nHeight (ca_pos a)) /\
  good (VCache v1.1 v1.2) (levels l vtx (bp_nHeight (ca_pos a)) :: s) /\ hashBlock v1.1 = bp_hash (ca_pos a).
Proof.
  intros Hb Hc; destruct (ready_connected icok _ _ _ _ _ _ _ _ _ _ Hb Hc) as (txid & cb & rest & r & pr & st & _ & []).
  split; [| split; apply bc_connected].
  eapply block_all_impl; [| exact bc_rounds]; intros l' tx (_ & _ & Hr) Hcb; destruct (Hr Hcb) as [Hs Hi].
  split; [exact Hs |]; intros He; eapply scripts_in_accept; [apply wait_checks_ok, bc_checks | now apply Hi].
Qed.

(** C5: what a block without imports issues (an import would issue what it
    imports), on any chain but Komodo below [KOMODO_NOTARIES_HEIGHT1], where
    main.cpp:4247 lets the coinbase exceed the reward.  Take a block on the tip whose
    transactions have distinct ids and pass the context-free checks, the first and
    only the first a coinbase and none an import, notaries' pay and a tolerance
    that are not negative, and any transactions [T] that include those of the block
    and those whose outputs it spends.  When [ConnectBlock] accepts the block, the
    unspent amounts of [T] together with what the block moves into the shielded
    pools exceed the unspent amounts before and what it takes out of the pools by
    at most the subsidy, the notaries' pay, the commission that the coinbase pays,
    the tolerance [KOMODO_EXTRASATOSHI], and the interest: once, or twice where the
    coinbase may take the interest again, as off Komodo and on Komodo before
    [KOMODO_NOTARIES_HEIGHT2].  No machine addition of the check has to be assumed
    not to wrap. *)
Theorem block_issuance c c1 v v1 l s vtx a undo tiptime (T : list uint256) :
  let h := bp_nHeight (ca_pos a) in
  block_ready v l s vtx a tiptime -> (isKMD = true -> KOMODO_NOTARIES_HEIGHT1 <= h) ->
  0 <= notarypaycheque a -> 0 <= KOMODO_EXTRASATOSHI -> base.NoDup T -> Forall (touches T) vtx ->
  ConnectBlock c v vtx a = Ok (undo, v1, c1) ->
  exists subsidy c0 commission coinbase, GetBlockSubsidy c h = Ok (subsidy, c0) /\ head vtx.*2 = Some coinbase /\
    (commission = 0 \/ pays_commission vtx coinbase h commission) /\
    total T (levels l vtx h) + block_sum shielded l vtx h <=
    total T l + block_sum unshielded l vtx h + subsidy + notarypaycheque a + commission + KOMODO_EXTRASATOSHI +
    (if isKMD && (KOMODO_NOTARIES_HEIGHT2 <=? h) then 1 else 2) * block_sum (interest_of h) l vtx h.
Proof.
  intros h; subst h; intros Hb Hk Hn He HT Ht Hc; destruct (ready_connected icok _ _ _ _ _ _ _ _ _ _ Hb Hc) as (txid & cb & rest & r & pr & st & -> & []).
  remember (bp_nHeight (ca_pos a)) as h eqn:Eh; destruct bc_subsidy as (sub & c0 & c2 & Es & -> & Er).
  destruct (block_reward_ok _ _ _ _ _ _ _ _ _ _ bc_fees bc_sum Er) as (x & -> & Hx & Hp).
  exists sub, c0, x, cb; split; [exact Es |]; split; [reflexivity |]; split; [exact Hp |].
  pose proof (checked_static _ _ (br_checked _ _ _ _ _ _ Hb)) as Hst.
  pose proof (check_reward_ok cb h _ (st_amounts _ (Forall_inv Hst)) Hk bc_paid) as Hv; rewrite swrap_add in Hv by lia.
  pose proof (GetBlockSubsidy_range _ _ _ _ Es) as Hs; unfold is_i64 in Hs.
  pose proof (block_sum_nonneg _ (fee_of h) _ h (fun l tx R => proj1 (round_nonneg a h _ l tx R)) l bc_rounds) as Hf.
  pose proof (block_sum_nonneg _ (interest_of h) _ h (fun l tx R => proj2 (round_nonneg a h _ l tx R)) l bc_rounds) as Hi.
  pose proof (total_block a h _ T _ HT l Ht Hst bc_rounds) as Htot.
  destruct (bk_coinbase _ _ (br_checked _ _ _ _ _ _ Hb)) as [Hcb Hrest].
  change (block_sum coinbase_value l ((txid, cb) :: rest) h)
    with (coinbase_value l cb + block_sum coinbase_value (next_level l txid cb h) rest h) in Htot.
  rewrite coinbase_only in Htot by exact Hrest; unfold coinbase_value in Htot; cbn in Hcb; rewrite Hcb in Htot.
  match type of Hv with _ <= i64 ?y => pose proof (swrap_le y) end; destruct (_ && _); lia.
Qed.
End Properties.

Lemma connect_block_valid_witness :
  exists undo v1 c1,
    Example_block.connect = Ok (undo, v1, c1) /\ hashBlock v1.1 = [9] /\
    good (VCache v1.1 v1.2) [levels Example_block.bottom Example_block.vtx 3000001; Example_block.bottom].
Proof.
  destruct Example_block.connect as [[[undo v1] c1] | |] eqn:E; [| vm_compute in E; discriminate..].
  exists undo, v1, c1; split; [reflexivity |].
  destruct (connect_block_valid (H1 := toy_hashes) (H2 := Example_block.lows) (H3 := Example_interest.kmd)
    (H5 := Example_inputs.spend_params) (H7 := Example_inputs.params) (H8 := Example_block.env)
    (MoneyLimitOk0 := Example_inputs.limit_ok) Example_inputs.chain_ok
    empty_subsidy_cache c1 Example_block.v v1 Example_block.bottom [Example_block.bottom] Example_block.vtx Example_block.args
    undo 1650000000) as (_ & G & B);
    [exact Example_block.ready | exact E | split; [exact B | exact G]].
Defined.

(** The transactions of the example, and the one whose output is spent. *)
Definition example_ids : list uint256 := [repeat 1 32; repeat 11 32; repeat 12 32; repeat 13 32].

Definition example_height : Z := bp_nHeight (ca_pos Example_block.args).
Definition example_interest : Z :=
  block_sum (interest_of (H3 := Example_interest.kmd) (H6 := Example_inputs.chain) example_height)
    Example_block.bottom Example_block.vtx example_height.

Lemma block_issuance_witness :
  exists undo v1 c1 subsidy commission,
    Example_block.connect = Ok (undo, v1, c1) /\ 0 < example_interest <= 50 * COIN /\
    total example_ids (levels Example_block.bottom Example_block.vtx example_height) +
      block_sum shielded Example_block.bottom Example_block.vtx example_height <=
    total example_ids Example_block.bottom + block_sum unshielded Example_block.bottom Example_block.vtx example_height +
      subsidy + 0 + commission + 0 + 1 * example_interest.
Proof.
  destruct Example_block.connect as [[[undo v1] c1] | |] eqn:E; [| vm_compute in E; discriminate..].
  destruct (block_issuance (H1 := toy_hashes) (H2 := Example_block.lows) (H3 := Example_interest.kmd)
    (H5 := Example_inputs.spend_params) (H7 := Example_inputs.params) (H8 := Example_block.env)
    (MoneyLimitOk0 := Example_inputs.limit_ok) Example_inputs.chain_ok
    empty_subsidy_cache c1 Example_block.v v1 Example_block.bottom [Example_block.bottom] Example_block.vtx Example_block.args
    undo 1650000000 example_ids) as (sub & c0 & x & cb & Hs & _ & _ & Hi);
    [exact Example_block.ready | | | | | | exact E |].
  - intros _; vm_compute; discriminate.
  - vm_compute; discriminate.
  - vm_compute; discriminate.
  - vm_compute; repeat (apply NoDup_cons_2; [rewrite ?elem_of_cons, ?elem_of_nil; intuition discriminate |]); apply NoDup_nil_2.
  - repeat apply Forall_cons_2; [.. | apply Forall_nil_2]; (split; [| intros Hm; vm_compute in Hm; try discriminate Hm; clear Hm]; apply (bool_decide_unpack _); vm_compute; exact I).
  - exists undo, v1, c1, sub, x; split; [reflexivity |].
    split; [vm_compute; split; [reflexivity | discriminate] | exact Hi].
Defined.
