(* ===== verification/ChainState.v ===== *)
(** * The driver of the active chain

    main.cpp: the set of candidate tips, the choice of the chain with the most
    work, and the steps by which the active chain and the coin set move to it.
    The state is one record of the globals of main.cpp.  What the driver asks of
    the coin set ([ConnectBlock] and [DisconnectBlock] on a fresh cache over
    pcoinsTip that is flushed afterwards) and of the disk is the class
    [CoinsDriver], which ChainCoins implements with the definitions of Connect
    and UpdateCoins.  The effects on the memory pool and the wallet, log
    messages and notifications are left out, and -rewind is not given. *)
From stdpp Require Import gmap strings.
From S2P Require Import Prelude BlockIndex Chain ArithUint256 Pow TxCheck.

(** ** Interface to the coin set and the disk *)

(** Why [ConnectBlock] returns false: a rejection, with the flag
    [corruptionIn], or another failure, with the reason of [state.Error] if any. *)
Inductive connect_error := Rejected (r : reject) (corruption : bool) | Failed (reason : option string).

(** [read_trees] reads the three best trees, as the assertions of [ConnectTip]
    and [DisconnectTip] do; the notarised height and hash depend on the active
    chain. *)
Class CoinsDriver (V B U : Type) := {
  ReadBlockFromDisk : ptr -> option B;
  connect_view : index_map -> V -> ptr -> B -> res connect_error (U * V);
  disconnect_view : index_map -> V -> ptr -> B -> U -> res string (bool * V);
  read_trees : V -> option V;
  FlushStateToDisk : V -> res string V;
  komodo_notarized_height : vchain -> Z * list Z;
  MAX_REORG_LENGTH : Z;
}.

(** ** The globals *)

Record ChainState (V U : Type) := mkChain {
  mapBlockIndex : index_map;
  chainActive : vchain;
  setBlockIndexCandidates : gset ptr;
  mapBlocksUnlinked : list (ptr * ptr);
  pindexBestInvalid : option ptr;
  pcoinsTip : V;
  undo_files : gmap ptr U;
}.
Arguments mkChain {V U}.
Arguments mapBlockIndex {V U}.
Arguments chainActive {V U}.
Arguments setBlockIndexCandidates {V U}.
Arguments mapBlocksUnlinked {V U}.
Arguments pindexBestInvalid {V U}.
Arguments pcoinsTip {V U}.
Arguments undo_files {V U}.

(** [CBlockIndexWorkComparator]: [pa] is the worse candidate.  Pointers break
    ties. *)
Definition worse_entry (pa pb : ptr) (a b : CBlockIndex) : bool :=
  if a_gt (nChainWork a) (nChainWork b) then false
  else if a_lt (nChainWork a) (nChainWork b) then true
  else if nSequenceId a <? nSequenceId b then false
  else if nSequenceId b <? nSequenceId a then true
  else (pb <? pa)%nat.

Definition worse (m : index_map) (pa pb : ptr) : bool :=
  match m !! pa, m !! pb with Some a, Some b => worse_entry pa pb a b | _, _ => false end.

(** [*rbegin()]: the last element in the order of the comparator. *)
Definition better_of (m : index_map) (p : ptr) (best : option ptr) : option ptr :=
  match best with None => Some p | Some q => if worse m q p then Some p else Some q end.

Definition best_candidate (m : index_map) (s : gset ptr) : option ptr := foldr (better_of m) None (elements s).

Definition has_status (b : CBlockIndex) (mask : Z) : bool := negb (Z.land (nStatus b) mask =? 0).

Section Driver.
Context {V B U : Type} `{CoinsDriver V B U}.
Abbreviation state := (ChainState V U).

(** [p->nStatus |= flags]. *)
Definition or_status (m : index_map) (p : ptr) (flags : Z) : index_map :=
  alter (fun b => set_nStatus b (Z.lor (nStatus b) flags)) p m.

Definition set_index (st : state) (m : index_map) : state :=
  mkChain m (chainActive st) (setBlockIndexCandidates st) (mapBlocksUnlinked st) (pindexBestInvalid st) (pcoinsTip st)
    (undo_files st).
Definition set_chain (st : state) (c : vchain) : state :=
  mkChain (mapBlockIndex st) c (setBlockIndexCandidates st) (mapBlocksUnlinked st) (pindexBestInvalid st) (pcoinsTip st)
    (undo_files st).
Definition set_candidates (st : state) (s : gset ptr) : state :=
  mkChain (mapBlockIndex st) (chainActive st) s (mapBlocksUnlinked st) (pindexBestInvalid st) (pcoinsTip st)
    (undo_files st).
Definition set_unlinked (st : state) (l : list (ptr * ptr)) : state :=
  mkChain (mapBlockIndex st) (chainActive st) (setBlockIndexCandidates st) l (pindexBestInvalid st) (pcoinsTip st)
    (undo_files st).
Definition set_best_invalid (st : state) (p : option ptr) : state :=
  mkChain (mapBlockIndex st) (chainActive st) (setBlockIndexCandidates st) (mapBlocksUnlinked st) p (pcoinsTip st)
    (undo_files st).
Definition set_view (st : state) (v : V) : state :=
  mkChain (mapBlockIndex st) (chainActive st) (setBlockIndexCandidates st) (mapBlocksUnlinked st) (pindexBestInvalid st) v
    (undo_files st).
Definition set_undo (st : state) (u : gmap ptr U) : state :=
  mkChain (mapBlockIndex st) (chainActive st) (setBlockIndexCandidates st) (mapBlocksUnlinked st) (pindexBestInvalid st)
    (pcoinsTip st) u.

Definition erase_candidate (st : state) (p : ptr) : state :=
  set_candidates st (setBlockIndexCandidates st ∖ {[p]}).

(** ** Invalid blocks *)

(** [if (!pindexBestInvalid || p->nChainWork > pindexBestInvalid->nChainWork)]. *)
Definition raise_best_invalid (st : state) (p : ptr) (b : CBlockIndex) : res unit state :=
  match pindexBestInvalid st with
  | None => Ok (set_best_invalid st (Some p))
  | Some q =>
      c ← deref (mapBlockIndex st) q;
      Ok (if a_gt (nChainWork b) (nChainWork c) then set_best_invalid st (Some p) else st)
  end.

Definition InvalidChainFound (st : state) (p : ptr) : res unit state :=
  b ← deref (mapBlockIndex st) p;
  st ← raise_best_invalid st p b;
  _ ← assert_ (bool_decide (is_Some (Tip (chainActive st))));
  Ok st.

Definition InvalidBlockFound (st : state) (p : ptr) (vs : CValidationState) : res unit state :=
  if corruptionPossible vs then Ok st
  else InvalidChainFound (erase_candidate (set_index st (or_status (mapBlockIndex st) p BLOCK_FAILED_VALID)) p) p.

(** ** The tip *)

(** [UpdateTip]; its messages read the new tip. *)
Definition UpdateTip (st : state) (p : option ptr) : res unit state :=
  c ← SetTip (mapBlockIndex st) (chainActive st) p;
  match p with None => Exn oob_read | Some _ => Ok (set_chain st c) end.

(** Results: the returned boolean, the validation state, the globals. *)
Abbreviation outcome := (res unit (bool * CValidationState * state)).

Definition DisconnectTip (vs : CValidationState) (st : state) : outcome :=
  match Tip (chainActive st) with
  | None => Exn assertion_failed
  | Some p =>
      b ← deref (mapBlockIndex st) p;
      match ReadBlockFromDisk p with
      | None => Ok (false, state_Error vs "Failed to read block", st)
      | Some block =>
          if bool_decide (blockHash b = snd (komodo_notarized_height (chainActive st)))
          then Ok (false, state_DoS vs 100 REJECT_INVALID "past-notarized-height" false, st)
          else
            match (if has_status b BLOCK_HAVE_UNDO then undo_files st !! p else None) with
            | None => Ok (false, vs, st)
            | Some undo =>
                match disconnect_view (mapBlockIndex st) (pcoinsTip st) p block undo with
                | Exn x => Exn x
                | Err _ | Ok (false, _) => Ok (false, vs, st)
                | Ok (true, v) =>
                    match FlushStateToDisk v with
                    | Exn x => Exn x
                    | Err reason => Ok (false, state_Error vs reason, set_view st v)
                    | Ok v =>
                        st ← UpdateTip (set_view st v) (pprev b);
                        match read_trees (pcoinsTip st) with
                        | None => Exn assertion_failed
                        | Some v => Ok (true, vs, set_view st v)
                        end
                    end
                end
            end
      end
  end.

(** The end of [ConnectBlock]: the undo data is written unless it is there, and
    the entry raised.  The disk takes the data; the cached branch id and the flag
    of a block that activates an upgrade, which the driver does not read, are
    left out. *)
Definition record_undo (st : state) (p : ptr) (b : CBlockIndex) (u : U) : res unit state :=
  valid ← IsValid b BLOCK_VALID_SCRIPTS;
  if negb (has_status b BLOCK_HAVE_UNDO) || negb (valid : bool) then
    let '(st, b) :=
      if negb (has_status b BLOCK_HAVE_UNDO)
      then (set_undo st (<[p := u]> (undo_files st)), set_nStatus b (Z.lor (nStatus b) BLOCK_HAVE_UNDO)) else (st, b) in
    '(_, b) ← RaiseValidity b BLOCK_VALID_SCRIPTS;
    Ok (set_index st (<[p := b]> (mapBlockIndex st)))
  else Ok st.

Definition ConnectTip (vs : CValidationState) (st : state) (p : ptr) (pblock : option B) : outcome :=
  b ← deref (mapBlockIndex st) p;
  _ ← assert_ (bool_decide (pprev b = Tip (chainActive st)));
  match (match pblock with Some block => Some block | None => ReadBlockFromDisk p end) with
  | None => Ok (false, state_Error vs "Failed to read block", st)
  | Some block =>
      match read_trees (pcoinsTip st) with
      | None => Exn assertion_failed
      | Some v =>
          let st := set_view st v in
          match connect_view (mapBlockIndex st) v p block with
          | Exn x => Exn x
          | Err (Failed None) => Ok (false, vs, st)
          | Err (Failed (Some reason)) => Ok (false, state_Error vs reason, st)
          | Err (Rejected r corruption) =>
              let vs := state_DoS vs (rj_level r) (rj_code r) (rj_reason r) corruption in
              match mode vs with
              | MODE_INVALID => st ← InvalidBlockFound st p vs; Ok (false, vs, st)
              | _ => Ok (false, vs, st)
              end
          | Ok (u, v) =>
              st ← record_undo st p b u;
              match FlushStateToDisk v with
              | Exn x => Exn x
              | Err reason => Ok (false, state_Error vs reason, set_view st v)
              | Ok v => st ← UpdateTip (set_view st v) (Some p); Ok (true, vs, st)
              end
          end
      end
  end.

(** ** The chain with the most work *)

(** The walk from the candidate down to the active chain: the first block that
    failed or has no data, and whether it failed. *)
Fixpoint test_path (fuel : nat) (m : index_map) (c : vchain) (p : option ptr) : res unit (option (ptr * bool)) :=
  match p with
  | None => Ok None
  | Some p =>
      inside ← Contains m c p;
      if (inside : bool) then Ok None
      else
        b ← deref m p;
        _ ← assert_ (negb (nChainTx b =? 0) || (nHeight b =? 0));
        let fFailedChain := has_status b BLOCK_FAILED_MASK in
        let fMissingData := negb (has_status b BLOCK_HAVE_DATA) in
        if fFailedChain || fMissingData then Ok (Some (p, fFailedChain))
        else
          match fuel with
          | O => Exn out_of_fuel
          | S fuel => test_path fuel m c (pprev b)
          end
  end.

(** The blocks above [pindexTest] leave the candidates. *)
Fixpoint remove_chain (fuel : nat) (st : state) (fFailedChain : bool) (pindexTest pindexFailed : ptr) : res unit state :=
  if bool_decide (pindexTest = pindexFailed) then Ok st
  else
    b ← deref (mapBlockIndex st) pindexFailed;
    let st :=
      if fFailedChain then set_index st (or_status (mapBlockIndex st) pindexFailed BLOCK_FAILED_CHILD)
      else match pprev b with
           | Some q => set_unlinked st (mapBlocksUnlinked st ++ [(q, pindexFailed)])
           | None => st
           end in
    let st := erase_candidate st pindexFailed in
    match pprev b, fuel with
    | Some q, S fuel => remove_chain fuel st fFailedChain pindexTest q
    | Some _, O => Exn out_of_fuel
    | None, _ => Exn oob_read
    end.

Fixpoint most_work_loop (fuel : nat) (st : state) : res unit (option ptr * state) :=
  match best_candidate (mapBlockIndex st) (setBlockIndexCandidates st) with
  | None => Ok (None, st)
  | Some p =>
      b ← deref (mapBlockIndex st) p;
      bad ← test_path (S (Z.to_nat (nHeight b))) (mapBlockIndex st) (chainActive st) (Some p);
      match (bad : option (ptr * bool)) with
      | None => Ok (Some p, st)
      | Some (pindexTest, fFailedChain) =>
          st ← (if fFailedChain then raise_best_invalid st p b else Ok st);
          st ← remove_chain (S (Z.to_nat (nHeight b))) st fFailedChain pindexTest p;
          let st := erase_candidate st pindexTest in
          match fuel with
          | O => Exn out_of_fuel
          | S fuel => most_work_loop fuel st
          end
      end
  end.

(** Every round takes a candidate away. *)
Definition FindMostWorkChain (st : state) : res unit (option ptr * state) :=
  most_work_loop (S (size (setBlockIndexCandidates st))) st.

(** The candidates are in order, so the loop removes those worse than the tip. *)
Definition PruneBlockIndexCandidates (st : state) : res unit state :=
  match Tip (chainActive st) with
  | None => Exn oob_read
  | Some t =>
      let s := base.filter (fun p => worse (mapBlockIndex st) p t = false) (setBlockIndexCandidates st) in
      _ ← assert_ (negb (bool_decide (s = ∅)));
      Ok (set_candidates st s)
  end.

(** ** Invalidating and reconsidering *)

(** The blocks from [p] up are disconnected, while the active chain has [p]. *)
Fixpoint invalidate_loop (fuel : nat) (vs : CValidationState) (st : state) (p : ptr) : outcome :=
  inside ← Contains (mapBlockIndex st) (chainActive st) p;
  if negb (inside : bool) then Ok (true, vs, st)
  else
    match Tip (chainActive st) with
    | None => Exn oob_read
    | Some walk =>
        let st := erase_candidate (set_index st (or_status (mapBlockIndex st) walk BLOCK_FAILED_CHILD)) walk in
        '(ok, vs, st) ← DisconnectTip vs st;
        if negb (ok : bool) then Ok (false, vs, st)
        else match fuel with O => Exn out_of_fuel | S fuel => invalidate_loop fuel vs st p end
    end.

(** The entries that may become the tip: valid transactions, linked to the
    genesis block, no worse than the tip. *)
Definition eligible (m : index_map) (t p : ptr) (b : CBlockIndex) : bool :=
  negb (has_status b BLOCK_FAILED_MASK) && (BLOCK_VALID_TRANSACTIONS <=? Z.land (nStatus b) BLOCK_VALID_MASK)
  && negb (nChainTx b =? 0) && negb (worse m p t).

Definition InvalidateBlock (vs : CValidationState) (st : state) (p : ptr) : outcome :=
  let st := erase_candidate (set_index st (or_status (mapBlockIndex st) p BLOCK_FAILED_VALID)) p in
  '(ok, vs, st) ← invalidate_loop (length (chainActive st)) vs st p;
  if negb (ok : bool) then Ok (false, vs, st)
  else
    match Tip (chainActive st) with
    | None => Exn oob_read
    | Some t =>
        let m := mapBlockIndex st in
        let more := dom (base.filter (fun e => eligible m t e.1 e.2 = true) m) in
        st ← InvalidChainFound (set_candidates st (setBlockIndexCandidates st ∪ more)) p;
        Ok (true, vs, st)
    end.

Definition clear_failed (b : CBlockIndex) : CBlockIndex :=
  set_nStatus b (Z.land (nStatus b) (u32 (Z.lnot BLOCK_FAILED_MASK))).

(** The entry is not valid up to its transactions and descends from [p]. *)
Definition reconsidered (m : index_map) (p : ptr) (h : Z) (q : ptr) (b : CBlockIndex) : bool :=
  (has_status b BLOCK_FAILED_MASK || (Z.land (nStatus b) BLOCK_VALID_MASK <? BLOCK_VALID_TRANSACTIONS))
  && match GetAncestor (E := unit) m q h with Ok (Some r) => bool_decide (r = p) | _ => false end.

Fixpoint clear_ancestors (fuel : nat) (m : index_map) (p : option ptr) : res unit index_map :=
  match p with
  | None => Ok m
  | Some p =>
      b ← deref m p;
      let m := if has_status b BLOCK_FAILED_MASK then <[p := clear_failed b]> m else m in
      match fuel with O => Exn out_of_fuel | S fuel => clear_ancestors fuel m (pprev b) end
  end.

Definition ReconsiderBlock (vs : CValidationState) (st : state) (p : ptr) : outcome :=
  b ← deref (mapBlockIndex st) p;
  match Tip (chainActive st) with
  | None => Exn oob_read
  | Some t =>
      let m0 := mapBlockIndex st in
      let hit q c := reconsidered m0 p (nHeight b) q c in
      let m := map_imap (fun q c => Some (if hit q c then clear_failed c else c)) m0 in
      let more := dom (base.filter (fun e => hit e.1 e.2 && (BLOCK_VALID_TRANSACTIONS <=? Z.land (nStatus e.2) BLOCK_VALID_MASK)
                                             && negb (nChainTx e.2 =? 0) && worse m t e.1 = true) m0) in
      let best := match pindexBestInvalid st with
                  | Some q => match m0 !! q with Some c => if hit q c then None else Some q | None => Some q end
                  | None => None
                  end in
      m ← clear_ancestors (S (Z.to_nat (nHeight b))) m (Some p);
      Ok (true, vs, set_best_invalid (set_candidates (set_index st m) (setBlockIndexCandidates st ∪ more)) best)
  end.

(** ** One step towards a tip *)

Fixpoint disconnect_to (fuel : nat) (vs : CValidationState) (st : state) (fork : option ptr) : outcome :=
  match Tip (chainActive st) with
  | None => Ok (true, vs, st)
  | Some t =>
      if bool_decide (fork = Some t) then Ok (true, vs, st)
      else
        '(ok, vs, st) ← DisconnectTip vs st;
        if negb (ok : bool) then Ok (false, vs, st)
        else match fuel with O => Exn out_of_fuel | S fuel => disconnect_to fuel vs st fork end
  end.

(** [vpindexToConnect], reversed: the blocks above [nHeight], in the order in
    which they are connected, before [acc]. *)
Fixpoint to_connect (fuel : nat) (m : index_map) (p : option ptr) (nHeight0 : Z) (acc : list ptr) : res unit (list ptr) :=
  match p with
  | None => Ok acc
  | Some p =>
      b ← deref m p;
      if nHeight b =? nHeight0 then Ok acc
      else match fuel with O => Exn out_of_fuel | S fuel => to_connect fuel m (pprev b) nHeight0 (p :: acc) end
  end.

(** How a batch of connections ends. *)
Inductive batch := BatchDone | BatchBetter | BatchInvalid | BatchFailed.

Definition more_work (m : index_map) (t : ptr) (old : option ptr) : res unit bool :=
  match old with
  | None => Ok true
  | Some o => b ← deref m t; c ← deref m o; Ok (a_gt (nChainWork b) (nChainWork c))
  end.

Fixpoint connect_batch (vs : CValidationState) (st : state) (old : option ptr) (mostWork : ptr) (pblock : option B)
    (back : ptr) (ps : list ptr) : res unit (batch * CValidationState * state) :=
  match ps with
  | [] => Ok (BatchDone, vs, st)
  | p :: ps =>
      '(ok, vs, st) ← ConnectTip vs st p (if bool_decide (p = mostWork) then pblock else None);
      if negb (ok : bool) then
        match mode vs with
        | MODE_INVALID =>
            st ← (if corruptionPossible vs then Ok st else InvalidChainFound st back);
            Ok (BatchInvalid, new_state, st)
        | _ => Ok (BatchFailed, vs, st)
        end
      else
        st ← PruneBlockIndexCandidates st;
        match Tip (chainActive st) with
        | None => Exn oob_read
        | Some t =>
            better ← more_work (mapBlockIndex st) t old;
            if (better : bool) then Ok (BatchBetter, vs, st) else connect_batch vs st old mostWork pblock back ps
        end
  end.

Fixpoint connect_to (fuel : nat) (vs : CValidationState) (st : state) (old : option ptr) (mostWork : ptr)
    (pblock : option B) (nHeight0 : Z) : res unit (batch * CValidationState * state) :=
  b ← deref (mapBlockIndex st) mostWork;
  if nHeight0 =? nHeight b then Ok (BatchDone, vs, st)
  else
    let target := Z.min (nHeight0 + 32) (nHeight b) in
    top ← GetAncestor (mapBlockIndex st) mostWork target;
    ps ← to_connect (S (Z.to_nat target)) (mapBlockIndex st) top nHeight0 [];
    '(r, vs, st) ← connect_batch vs st old mostWork pblock (hd 0%nat ps) ps;
    match (r : batch) with
    | BatchDone => match fuel with O => Exn out_of_fuel | S fuel => connect_to fuel vs st old mostWork pblock target end
    | _ => Ok (r, vs, st)
    end.

Definition height_or (m : index_map) (p : option ptr) (default : Z) : res unit Z :=
  match p with Some p => b ← deref m p; Ok (nHeight b) | None => Ok default end.

(** The fork lies below the notarised block of the active chain. *)
Definition below_notarized (st : state) (fSkipdpow : bool) (fork : option ptr) : res unit bool :=
  if fSkipdpow then Ok false
  else
    match fork with
    | None => Ok false
    | Some f =>
        let notarizedht := fst (komodo_notarized_height (chainActive st)) in
        match Tip (chainActive st) with
        | None => Exn oob_read
        | Some t =>
            b ← deref (mapBlockIndex st) t; c ← deref (mapBlockIndex st) f;
            Ok ((notarizedht <? nHeight b) && (nHeight c <? notarizedht))
        end
    end.

Definition known_hash (m : index_map) (h : list Z) : bool :=
  existsb (fun e => bool_decide (blockHash e.2 = h)) (map_to_list m).

Definition ActivateBestChainStep (fSkipdpow : bool) (vs : CValidationState) (st : state) (mostWork : ptr)
    (pblock : option B) : outcome :=
  let old := Tip (chainActive st) in
  fork ← FindFork (mapBlockIndex st) (chainActive st) (Some mostWork);
  refused ← below_notarized st fSkipdpow fork;
  if (refused : bool) then
    if negb (known_hash (mapBlockIndex st) (snd (komodo_notarized_height (chainActive st)))) then Exn oob_read
    else
      '(_, _, st) ← InvalidateBlock new_state st mostWork;
      Ok (false, state_DoS vs 100 REJECT_INVALID "past-notarized-height" false, st)
  else
    forkHeight ← height_or (mapBlockIndex st) fork (-1);
    reorgLength ← (match old with Some o => b ← deref (mapBlockIndex st) o; Ok (i32 (nHeight b - forkHeight)) | None => Ok 0 end);
    _ ← assert_ (0 <? MAX_REORG_LENGTH);
    if MAX_REORG_LENGTH <? reorgLength then
      match fork with None => Exn oob_read | Some _ => Ok (false, vs, st) end
    else
      '(ok, vs, st) ← disconnect_to (length (chainActive st)) vs st fork;
      if negb (ok : bool) then Ok (false, vs, st)
      else
        b ← deref (mapBlockIndex st) mostWork;
        '(r, vs, st) ← connect_to (S (Z.to_nat (nHeight b))) vs st old mostWork pblock forkHeight;
        match (r : batch) with
        | BatchFailed => Ok (false, vs, st)
        | _ => match Tip (chainActive st) with None => Exn oob_read | Some _ => Ok (true, vs, st) end
        end.

(** ** ActivateBestChain *)

(** [pblock] is the block with the hash [h], when it is given. *)
Definition block_for (m : index_map) (p : ptr) (pblock : option (list Z * B)) : option B :=
  match pblock, m !! p with
  | Some (h, block), Some b => if bool_decide (h = blockHash b) then Some block else None
  | _, _ => None
  end.

Fixpoint activate_loop (fuel : nat) (fSkipdpow : bool) (vs : CValidationState) (st : state)
    (pblock : option (list Z * B)) : outcome :=
  '(mostWork, st) ← FindMostWorkChain st;
  match mostWork with
  | None => Ok (true, vs, st)
  | Some p =>
      if bool_decide (Tip (chainActive st) = Some p) then Ok (true, vs, st)
      else
        '(ok, vs, st) ← ActivateBestChainStep fSkipdpow vs st p (block_for (mapBlockIndex st) p pblock);
        if negb (ok : bool) then Ok (false, vs, st)
        else if bool_decide (Tip (chainActive st) = Some p) then
          match FlushStateToDisk (pcoinsTip st) with
          | Exn x => Exn x
          | Err reason => Ok (false, state_Error vs reason, st)
          | Ok v => Ok (true, vs, set_view st v)
          end
        else match fuel with O => Exn out_of_fuel | S fuel => activate_loop fuel fSkipdpow vs st pblock end
  end.

(** Every round either marks a block as failed or leaves a tip with more work. *)
Definition ActivateBestChain (fSkipdpow : bool) (vs : CValidationState) (st : state) (pblock : option (list Z * B)) : outcome :=
  activate_loop (S (size (mapBlockIndex st)) * S (size (mapBlockIndex st))) fSkipdpow vs st pblock.
End Driver.
