(* ===== verification/BlockCheck.v ===== *)
(** * Checks of a block and of a header

    main.cpp: CheckBlockHeader, CheckBlock, ContextualCheckBlockHeader and
    ContextualCheckBlock; primitives/block.h: the header, its format and hash;
    checkpoints.cpp; what they call in
    komodo_bitcoind.cpp and komodo_gateway.cpp.  A transaction comes with its
    hash, the chain below a block is the list of its entries, the newest first.
    The copies that CheckBlock makes of the memory pool, log messages and
    misbehaviour scores of peers are left out. *)
From stdpp Require Import gmap strings.
From S2P Require Import Prelude Endian Hashing Merkle Script ArithUint256 Serialize Transaction TxCheck.
From S2P Require Import Compressor Standard.
From S2P Require Import BlockIndex Chain Pow ChainState Interest Subsidy Connect PartialMerkle.

(** ** The header and the block *)

Record CBlockHeader := mkHeader {
  hd_nVersion : Z; hashPrevBlock : uint256; hashMerkleRoot : uint256; hashFinalSaplingRoot : uint256;
  hd_nTime : Z; hd_nBits : Z; nNonce : uint256; nSolution : list Z }.

Record CBlock := mkBlock { header : CBlockHeader; vtx : list (uint256 * CTransaction) }.

(** [SerializationOp]. *)
Definition CBlockHeader_op : codec CBlockHeader :=
  nVersion ← READWRITE c_int32 hd_nVersion;
  prev ← READWRITE c_uint256 hashPrevBlock;
  merkle ← READWRITE c_uint256 hashMerkleRoot;
  sapling ← READWRITE c_uint256 hashFinalSaplingRoot;
  time ← READWRITE c_uint32 hd_nTime;
  nbits ← READWRITE c_uint32 hd_nBits;
  nonce ← READWRITE c_uint256 nNonce;
  solution ← READWRITE c_vector nSolution;
  mret (mkHeader nVersion prev merkle sapling time nbits nonce solution).

(** A write, which only throws. *)
Definition written {E A} (c : codec A) (a : A) : res E (list Z) :=
  match put c a with Ok (_, d) => Ok d | Err _ => Exn ios_failure | Exn x => Exn x end.

(** [GetSHA256DHash], the hash function that [GetHash] points to. *)
Definition GetSHA256DHash {E} `{HashFunctions} (h : CBlockHeader) : res E uint256 :=
  d ← written CBlockHeader_op h; Ok (Hash d).

(** [GetSerializeSize(block, ...)]: the header, then the vector [vtx]. *)
Definition block_size {E} `{Layout} (b : CBlock) : res E Z :=
  h ← written CBlockHeader_op (header b);
  txs ← written (c_vec 1 (CTransaction_op new_tx)) (map snd (vtx b));
  Ok (zlen h + zlen txs).

(** ** What the checks consult *)

(** The clock, consensus parameters and globals, the checkpoints in the order of
    their heights, and the answers of code outside this file: what Solver asks
    (the state of a hard fork and libcryptoconditions), the notary lookups
    (komodo_chosennotary, komodo_electednotary, komodo_notarizeddata and those of
    CheckProofOfWork), Equihash, the slow komodo_checkPOW, GetTransaction,
    komodo_checkcommission, GetBlockSubsidy and the contextual checks of the
    transactions.  [stack33] is what the array [pubkey33] of CheckBlock holds
    before it is written. *)
Class CheckEnv := {
  GetTime : Z;
  consensus : Params;
  hashGenesisBlock : uint256;
  mapCheckpoints : list (Z * uint256);
  fCheckpointsEnabled : bool;
  sapling_nActivationHeight : Z;
  KOMODO_REWIND : Z;
  ck_BLOCKTIME : Z;
  ck_ADAPTIVEPOW : Z;
  ck_ALGO : Z;
  ck_EQUIHASH : Z;
  ck_LOADINGBLOCKS : bool;
  stack33 : list Z;
  vSolutionsFixActive : bool;
  ck_supported_condition : list Z -> bool;
  komodo_chosennotary : Z -> list Z -> Z -> Z;
  komodo_electednotary : list Z -> Z -> Z;
  komodo_notarizeddata : Z -> Z * uint256;
  notary_answers : CBlock -> list Z -> Z -> NotaryAnswers;
  CheckEquihashSolution : CBlockHeader -> bool;
  slow_checkPOW : CBlock -> Z -> Z;
  banned_txids : list uint256;
  GetTransaction : uint256 -> option CTransaction;
  komodo_checkcommission : CBlock -> Z -> Z;
  GetBlockSubsidy_value : Z -> Z;
  ContextualCheckTransactions : CBlock -> Z -> res connect_error unit;
}.

Abbreviation checkM := (res connect_error).

Definition REJECT_OBSOLETE : Z := 17.
Definition REJECT_CHECKPOINT : Z := 67.
Definition MIN_BLOCK_VERSION : Z := 4.
Definition nS5HardforkHeight : Z := 2437300.

(** [return state.DoS(level, false, REJECT_INVALID, reason, corruption)] under a condition. *)
Definition reject_block (b : bool) (level : Z) (reason : string) (corruption : bool) : checkM unit :=
  if b then Err (Rejected (DoS level reason) corruption) else Ok tt.

(** [return false] under a condition. *)
Definition fail_if (b : bool) : checkM unit := if b then Err (Failed None) else Ok tt.

Section BlockChecks.
Context `{HashFunctions, Layout, MoneyLimit, ChainParams, TxEnvironment, SubsidyParams, BlockEnv, CheckEnv}.

Definition globals : Globals := {|
  ASSETCHAINS_BLOCKTIME := ck_BLOCKTIME; ASSETCHAINS_ADAPTIVEPOW := ck_ADAPTIVEPOW; ASSETCHAINS_ALGO := ck_ALGO;
  ASSETCHAINS_EQUIHASH := ck_EQUIHASH; Pow.ASSETCHAINS_STAKED := TxCheck.ASSETCHAINS_STAKED;
  KOMODO_LOADINGBLOCKS := ck_LOADINGBLOCKS; chain_isKMD := isKMD |}.

(** [NetworkUpgradeActive(nHeight, params, UPGRADE_SAPLING)]. *)
Definition sapling_active_at {E} (nHeight : Z) : res E bool :=
  _ ← assert_ (0 <=? nHeight);
  Ok (negb (sapling_nActivationHeight =? -1) && (sapling_nActivationHeight <=? nHeight)).

(** ** CheckBlockHeader *)

(** [*futureblockp] and the returned value. *)
Definition CheckBlockHeader (height : Z) (h : CBlockHeader) (fCheckPOW : bool) : bool * checkM unit :=
  let rest :=
    _ ← reject_block ((0 <? height) && (hd_nVersion h <? MIN_BLOCK_VERSION)) 100 "version-too-low" false;
    reject_block (fCheckPOW && negb (CheckEquihashSolution h)) 100 "invalid-solution" false in
  if 0 <? ck_ADAPTIVEPOW then
    if GetTime + 4 <? hd_nTime h then (false, Err (Failed None)) else (false, rest)
  else if GetTime + 60 <? hd_nTime h then (hd_nTime h <? GetTime + 300, Err (Failed None))
  else (false, rest).

(** ** The miner's key and the commitment of notary blocks *)

(** [Solver] asks for the globals of this chain. *)
#[local] Instance standard_env : StandardEnv := {|
  std_ASSETCHAINS_CC := ASSETCHAINS_CC; komodo_is_vSolutionsFixActive := vSolutionsFixActive;
  supported_condition := ck_supported_condition |}.

(** What it leaves in [pubkey33]. *)
Definition komodo_block2pubkey33 (b : CBlock) : checkM (list Z) :=
  match vtx b with
  | [] => Exn oob_read
  | (_, tx) :: _ =>
      match tx_vout tx with
      | [] => Ok (repeat (if ck_LOADINGBLOCKS then 0 else 255) 33)
      | o :: _ =>
          '(solved, whichType, vch) ← Solver TX_NONSTANDARD (scriptPubKey o);
          if solved && bool_decide (whichType = TX_PUBKEY) then
            v ← solution_at vch 0;
            Ok (if PubKey_IsValid (PubKey_Set v) then take 33 v else repeat 0 33)
          else Ok (repeat 0 33)
      end
  end.

(** The leaves are the previous hash and the transactions, the last one left out
    unless the block is new. *)
Definition komodo_makeopret {E} (b : CBlock) (fNew : bool) : res E (list Z) :=
  let hashes := map fst (vtx b) in
  let vLeaves := hashPrevBlock (header b) :: (if fNew then hashes else removelast hashes) in
  '(merkleroot, _, _) ← BuildMerkleTree vLeaves;
  opret ← push_opcode [] OP_RETURN;
  Ok (push_vch opret merkleroot).

Definition script_IsOpReturn (s : list Z) : bool := (0 <? zlen s) && (at_ s 0 =? OP_RETURN).

Definition komodo_checkopret {E} (b : CBlock) : res E bool :=
  match List.last (map Some (vtx b)) None with
  | None => Exn oob_read
  | Some (_, tx) =>
      match List.last (map Some (tx_vout tx)) None with
      | None => Exn oob_read
      | Some o =>
          opret ← komodo_makeopret b false;
          Ok (script_IsOpReturn (scriptPubKey o) && bool_decide (scriptPubKey o = opret))
      end
  end.

(** ** komodo_check_deposit *)

Definition komodo_checkvout (vout k indallvouts : Z) : bool :=
  if k <? indallvouts then vout =? 1
  else if (k =? indallvouts) || (k =? indallvouts + 1) then true
  else vout =? 0.

(** The loop over the banned transactions, from index [k]. *)
Fixpoint banned_loop (o : COutPoint) (k indallvouts : Z) (l : list uint256) : bool :=
  match l with
  | [] => false
  | h :: l => (bool_decide (op_hash o = h) && komodo_checkvout (i32 (op_n o)) k indallvouts) || banned_loop o (k + 1) indallvouts l
  end.

Definition spends_banned (tx : CTransaction) : bool :=
  existsb (fun i => banned_loop (prevout i) 0 (zlen banned_txids - 2) banned_txids) (tx_vin tx).

(** [GetTransaction], then the transactions of the block. *)
Definition find_proof_vin (b : CBlock) (h : uint256) : option CTransaction :=
  match GetTransaction h with
  | Some tx => Some tx
  | None => snd <$> List.find (fun t => bool_decide (t.1 = h)) (vtx b)
  end.

(** [notmatched], set by the last transaction of a block with several. *)
Definition notary_proof (b : CBlock) : checkM bool :=
  match vtx b, List.last (map Some (vtx b)) None with
  | (_, coinbase) :: _ :: _, Some (_, last) =>
      match tx_vout last, tx_vin last with
      | o :: _, [i] =>
          if nValue o =? 5000 then
            match find_proof_vin b (op_hash (prevout i)) with
            | None => Ok false
            | Some tx =>
                match tx_vout coinbase, tx_vout tx !! Z.to_nat (op_n (prevout i)) with
                | c :: _, Some p => Ok (bool_decide (scriptPubKey c = scriptPubKey p))
                | _, _ => Exn oob_read
                end
            end
          else Ok false
      | _, _ => Ok false
      end
  | _, _ => Ok false
  end.

(** The loop over the coinbase's outputs from index [i]: [overflow], [strangeout]
    and [total]; [prevtotal] is the total before. *)
Fixpoint coinbase_outputs (i : Z) (l : list CTxOut) (strangeout total prevtotal : Z) : checkM (bool * Z * Z) :=
  match l with
  | [] => Ok (false, strangeout, total)
  | o :: l =>
      let val := nValue o in
      if (val <? 0) || (MAX_MONEY <=? val) then Ok (true, strangeout, total)
      else
        strangeout ←
          (if 1 <? i then
             match scriptPubKey o with
             | [] => Exn oob_read
             | s :: _ => Ok (if negb (s =? OP_RETURN) && (val <? 5000) then strangeout + 1 else strangeout)
             end
           else Ok strangeout);
        let total := u64 (total + val) in
        if (total <? u64 prevtotal) || (negb (val =? 0) && (total =? u64 prevtotal)) then Ok (true, strangeout, total)
        else coinbase_outputs (i + 1) l strangeout total (i64 total)
  end.

Definition check_deposit_KMD (height : Z) (b : CBlock) (coinbase : CTransaction) (notmatched overflow : bool)
    (strangeout total : Z) : checkM Z :=
  if (overflow || (COIN / 10 <? total)) && (235300 <=? height) then Ok (-1)
  else if negb (overflow || (COIN / 10 <? total)) && (hd_nBits (header b) =? KOMODO_MINDIFF_NBITS) && (0 <? total)
          && (KOMODO_NOTARIES_HEIGHT1 <? height) then Ok (-1)
  else if negb (strangeout =? 0) || notmatched then
    Ok (if (1000000 <? height) && negb (strangeout =? 0) then -1 else 0)
  else if 814000 <? height then
    match tx_vout coinbase with
    | [] => Exn oob_read
    | o :: _ => Ok (if (0 <=? komodo_electednotary (drop 1 (scriptPubKey o)) height) && (1000000 <? height) then -1 else 0)
    end
  else Ok 0.

Definition has_commission : bool := negb (ASSETCHAINS_COMMISSION =? 0) || negb (ASSETCHAINS_FOUNDERS_REWARD =? 0).

Definition check_deposit_other (height : Z) (b : CBlock) (coinbase : CTransaction) (overflow : bool) (strangeout total : Z)
    : checkM Z :=
  let commission := if has_commission && (1 <? height) then komodo_checkcommission b height else 0 in
  if commission <? 0 then Ok (-1)
  else
    checktoshis ←
      (if (1 <? height) && (commission =? 0) then
         match tx_vout coinbase with
         | [] => Exn oob_read
         | o :: _ => Ok (i64 (u64 (GetBlockSubsidy_value height) - nValue o))
         end
       else Ok commission);
    Ok (if (2 <=? height) && (overflow || (u64 checktoshis <? total) || negb (strangeout =? 0)) then -1 else 0).

Definition komodo_check_deposit (height : Z) (b : CBlock) : checkM Z :=
  notmatched ← (if isKMD then notary_proof b else Ok false);
  if isKMD && existsb (fun t => spends_banned t.2) (vtx b) then Ok (-1)
  else
    sapling ← (if isKMD || (has_commission && (1 <? height)) then Ok true else sapling_active_at height);
    if (sapling : bool) then
      match vtx b with
      | [] => Exn oob_read
      | (_, coinbase) :: _ =>
          '(overflow, strangeout, total) ← coinbase_outputs 1 (drop 1 (tx_vout coinbase)) 0 0 0;
          if isKMD then check_deposit_KMD height b coinbase notmatched overflow strangeout total
          else check_deposit_other height b coinbase overflow strangeout total
      end
    else Ok 0.

(** ** CheckBlock *)

Definition check_block_pow (height : Z) (b : CBlock) (pubkey33 : list Z) : checkM unit :=
  hash ← GetSHA256DHash (header b);
  _ ← reject_block (negb (CheckProofOfWork globals consensus (notary_answers b pubkey33 height) (hd_nBits (header b))
                            (hd_nTime (header b)) hash pubkey33 height)) 50 "high-hash" false;
  reject_block ((TxCheck.ASSETCHAINS_STAKED =? 0) && (slow_checkPOW b height <? 0)) 100 "failed-slow_checkPOW" false.

(** The commitment that easily mined blocks of the KMD chain carry. *)
Definition check_block_opret (height tiptime : Z) (b : CBlock) (pubkey33 : list Z) : checkM unit :=
  if (nDecemberHardforkHeight <? height) && isKMD then
    let notaryid := komodo_chosennotary height pubkey33 tiptime in
    if (0 <? notaryid) || ((notaryid =? 0) && (nS5HardforkHeight <? height)) then
      ok ← komodo_checkopret b;
      reject_block (negb ok) 100 "failed-merkle-opret-in-easy-mined" false
    else Ok tt
  else Ok tt.

Definition check_block_merkle (b : CBlock) : checkM unit :=
  '(hashMerkleRoot2, mutated, _) ← BuildMerkleTree (map fst (vtx b));
  _ ← reject_block (negb (bool_decide (hashMerkleRoot (header b) = hashMerkleRoot2))) 100 "bad-txnmrklroot" true;
  reject_block mutated 100 "bad-txns-duplicate" true.

Definition check_block_size (height : Z) (b : CBlock) : checkM unit :=
  let too_many := empty_list (vtx b) || (MAX_BLOCK_SIZE sapling_nActivationHeight height <? zlen (vtx b)) in
  too_big ← (if too_many then Ok true else size ← block_size b; Ok (MAX_BLOCK_SIZE sapling_nActivationHeight height <? size));
  reject_block too_big 100 "bad-blk-length" false.

Definition check_block_coinbase (b : CBlock) : checkM unit :=
  match vtx b with
  | [] => Err (Rejected (DoS 100 "bad-cb-missing") false)
  | t :: rest =>
      _ ← reject_block (negb (IsCoinBase t.2)) 100 "bad-cb-missing" false;
      reject_block (existsb (fun t => IsCoinBase t.2) rest) 100 "bad-cb-multiple" false
  end.

Definition tx_result (r : res (option reject) unit) : checkM unit :=
  match r with
  | Ok _ => Ok tt
  | Err (Some r) => Err (Rejected r false)
  | Err None => Err (Failed None)
  | Exn x => Exn x
  end.

(** [CheckTransaction] of the transactions from index [i] on, of [n]. *)
Fixpoint check_block_txs (tiptime n i : Z) (l : list (uint256 * CTransaction)) : checkM unit :=
  match l with
  | [] => Ok tt
  | (txid, tx) :: l =>
      _ ← tx_result (CheckTransaction tiptime txid tx i n);
      check_block_txs tiptime n (i + 1) l
  end.

Definition block_sigops (b : CBlock) : Z :=
  fold_left (fun n t => u32 (n + GetLegacySigOpCount t.2)) (vtx b) 0.

(** Everything after the header; [prev_nTime] is the time of [pindex->pprev], if
    both exist. *)
Definition check_block_body (height : Z) (prev_nTime : option Z) (b : CBlock) (fCheckPOW fCheckMerkleRoot : bool)
    : checkM unit :=
  let tiptime := default (hd_nTime (header b)) prev_nTime in
  pubkey33 ← (if fCheckPOW then
                pubkey33 ← komodo_block2pubkey33 b; _ ← check_block_pow height b pubkey33; Ok pubkey33
              else Ok stack33);
  _ ← check_block_opret height tiptime b pubkey33;
  _ ← (if fCheckMerkleRoot then check_block_merkle b else Ok tt);
  _ ← check_block_size height b;
  _ ← check_block_coinbase b;
  if negb (ASSETCHAINS_CC =? 0) && negb fCheckPOW then Ok tt
  else
    _ ← check_block_txs tiptime (zlen (vtx b)) 0 (vtx b);
    _ ← reject_block (MAX_BLOCK_SIGOPS <? block_sigops b) 100 "bad-blk-sigops" true;
    if fCheckPOW then d ← komodo_check_deposit height b; fail_if (d <? 0) else Ok tt.

(** [*futureblockp] and the returned value: a block from the near future goes
    through the other checks. *)
Definition CheckBlock (height : Z) (prev_nTime : option Z) (b : CBlock) (fCheckPOW fCheckMerkleRoot : bool)
    : bool * checkM unit :=
  let '(future, r) := CheckBlockHeader height (header b) fCheckPOW in
  match r with
  | Ok _ => (future, check_block_body height prev_nTime b fCheckPOW fCheckMerkleRoot)
  | Err e => (future, if future then check_block_body height prev_nTime b fCheckPOW fCheckMerkleRoot else Err e)
  | Exn x => (future, Exn x)
  end.

(** ** Checkpoints *)

(** [mapBlockIndex.find]: the pointer that the map has for a hash, and its entry. *)
Definition find_ptr (m : index_map) (h : uint256) : option ptr :=
  head (omap (fun e => if decide (blockHash e.2 = h) then Some e.1 else None) (map_to_list m)).

Definition BlockMap_find (m : index_map) (h : uint256) : option CBlockIndex := p ← find_ptr m h; m !! p.

(** [Checkpoints::CheckBlock]. *)
Definition checkpoint_allows (nHeight : Z) (hash : uint256) : bool :=
  match List.find (fun c => c.1 =? nHeight) mapCheckpoints with
  | None => true
  | Some c => bool_decide (hash = c.2)
  end.

Definition GetTotalBlocksEstimate : Z :=
  match List.last (map Some mapCheckpoints) None with Some c => c.1 | None => 0 end.

Definition GetLastCheckpoint (m : index_map) : option CBlockIndex :=
  head (omap (fun c => BlockMap_find m c.2) (rev mapCheckpoints)).

(** The entry at the tip of the active chain, and at a height. *)
Definition active_at (m : index_map) (p : option ptr) : checkM (option CBlockIndex) :=
  match p with None => Ok None | Some p => e ← deref m p; Ok (Some e) end.

Definition komodo_checkpoint (m : index_map) (tip : option CBlockIndex) (nHeight : Z) (hash : uint256) : bool :=
  match tip with
  | None => false
  | Some t =>
      let '(notarized_height, notarized_hash) := komodo_notarizeddata (BlockIndex.nHeight t) in
      match BlockMap_find m notarized_hash with
      | Some notary =>
          if (0 <=? notarized_height) && (notarized_height <=? BlockIndex.nHeight t)
             && (BlockIndex.nHeight notary =? notarized_height)
          then negb ((nHeight <? notarized_height)
                     || ((nHeight =? notarized_height) && negb (bool_decide (hash = notarized_hash))))
          else true
      | None => true
      end
  end.

(** ** ContextualCheckBlockHeader *)

(** [state.Invalid]. *)
Definition invalid_if (b : bool) (code : Z) (reason : string) : checkM unit :=
  if b then Err (Rejected (mkReject 0 code reason) false) else Ok tt.

Definition check_header_work (nHeight : Z) (h : CBlockHeader) (chain : list CBlockIndex) : checkM unit :=
  if negb isKMD || (nHeight <? 235300) || (236000 <? nHeight) then
    required ← rethrow (GetNextWorkRequired globals consensus chain (Some (hd_nTime h)));
    reject_block (negb (hd_nBits h =? required)) 100 "bad-diffbits" false
  else Ok tt.

Definition check_header_time (nHeight : Z) (h : CBlockHeader) (chain : list CBlockIndex) (prev : CBlockIndex) : checkM unit :=
  _ ← (if (ck_ADAPTIVEPOW <=? 0) || (nHeight <? 30)
       then invalid_if (hd_nTime h <=? GetMedianTimePast chain) REJECT_INVALID "time-too-old"
       else invalid_if (hd_nTime h <=? nTime prev) REJECT_INVALID "time-too-old");
  invalid_if (i64 (GetTime + nMaxFutureBlockTime consensus) <? hd_nTime h) REJECT_INVALID "time-too-new".

(** [chainActive[nHeight]] has this hash. *)
Definition is_active (m : index_map) (active : vchain) (nHeight : Z) (hash : uint256) : checkM bool :=
  e ← active_at m (chain_at active nHeight);
  Ok (match e with Some e => bool_decide (blockHash e = hash) | None => false end).

(** The checks against checkpoints and notarisations; [true] is the early return
    for a block that the active chain has.  The format string of the last
    message has more conversions than arguments, for which tinyformat throws. *)
Definition check_header_checkpoints (m : index_map) (active : vchain) (nHeight : Z) (hash : uint256) : checkM bool :=
  _ ← (if checkpoint_allows nHeight hash then Ok tt
       else Err (Rejected (mkReject 100 REJECT_CHECKPOINT "checkpoint mismatch") false));
  tip ← active_at m (Tip active);
  if (nHeight =? 1) && match tip with Some t => 1 <? BlockIndex.nHeight t | None => false end then
    known ← is_active m active nHeight hash;
    if (known : bool) then Ok true else Err (Rejected (mkReject 1 0 "") false)
  else if nHeight =? 0 then Ok false
  else if match GetLastCheckpoint m with Some c => nHeight <? BlockIndex.nHeight c | None => false end
  then Err (Rejected (mkReject 1 0 "") false)
  else if komodo_checkpoint m tip nHeight hash then Ok false
  else
    known ← is_active m active nHeight hash;
    if (known : bool) then Ok true else Exn runtime_error.

(** [chain] are [pindexPrev] and the entries below it. *)
Definition ContextualCheckBlockHeader (m : index_map) (active : vchain) (h : CBlockHeader) (chain : list CBlockIndex)
    : checkM unit :=
  hash ← GetSHA256DHash h;
  if bool_decide (hash = hashGenesisBlock) then Ok tt
  else
    match chain with
    | [] => Exn assertion_failed
    | prev :: _ =>
        let nHeight := i32 (BlockIndex.nHeight prev + 1) in
        _ ← check_header_work nHeight h chain;
        _ ← check_header_time nHeight h chain prev;
        known ← (if fCheckpointsEnabled then check_header_checkpoints m active nHeight hash else Ok false);
        if (known : bool) then Ok tt else invalid_if (hd_nVersion h <? 4) REJECT_OBSOLETE "bad-version"
    end.

(** ** ContextualCheckBlock *)

Definition komodo_validate_interest (tx : CTransaction) (txheight cmptime : Z) : bool :=
  if (KOMODO_REWIND =? 0) && isKMD && (LOCKTIME_THRESHOLD <=? nLockTime tx) && (246748 <? txheight) then
    let cmptime := if txheight <? 247205 then u32 (cmptime - 16000) else cmptime in
    negb (nLockTime tx <? u32 (cmptime - KOMODO_MAXMEMPOOLTIME))
  else true.

(** The height that the first push of a coinbase claims. *)
Fixpoint coinbase_height (n : nat) (i : Z) (script : list Z) (height : Z) : checkM Z :=
  match n with
  | O => Ok height
  | S n =>
      x ← index_ script (i + 1);
      if 32 <=? i * 8 then Exn undefined_shift
      else coinbase_height n (i + 1) script (i32 (height + u32 (Z.shiftl x (i * 8))))
  end.

Definition komodo_block2height (m : index_map) (b : CBlock) : checkM Z :=
  hash ← GetSHA256DHash (header b);
  match BlockMap_find m hash with
  | None => Ok 0
  | Some e =>
      if 0 <=? BlockIndex.nHeight e then Ok (BlockIndex.nHeight e)
      else
        match vtx b with
        | [] => Exn oob_read
        | (_, tx) :: _ =>
            match tx_vin tx with
            | i :: _ =>
                if 5 <? zlen (scriptSig i) then coinbase_height (Z.to_nat (at_ (scriptSig i) 0)) 0 (scriptSig i) 0 else Ok 0
            | [] => Ok 0
            end
        end
  end.

Fixpoint check_final_txs (txheight cmptime nHeight nBlockTime : Z) (l : list (uint256 * CTransaction)) : checkM unit :=
  match l with
  | [] => Ok tt
  | (_, tx) :: l =>
      _ ← reject_block (negb (komodo_validate_interest tx txheight cmptime)) 0 "komodo-interest-invalid" false;
      _ ← reject_block (negb (IsFinalTx tx nHeight nBlockTime)) 10 "bad-txns-nonfinal" false;
      check_final_txs txheight cmptime nHeight nBlockTime l
  end.

(** The coinbase begins with the height of the block. *)
Definition check_coinbase_height (nHeight : Z) (b : CBlock) : checkM unit :=
  if 0 <? nHeight then
    let expect := push_int64 [] nHeight in
    match vtx b with
    | (_, tx) :: _ =>
        match tx_vin tx with
        | i :: _ => reject_block ((zlen (scriptSig i) <? zlen expect) || negb (bool_decide (take (length expect) (scriptSig i) = expect)))
                      100 "bad-cb-height" false
        | [] => Exn oob_read
        end
    | [] => Exn oob_read
    end
  else Ok tt.

Definition ContextualCheckBlock (m : index_map) (b : CBlock) (chain : list CBlockIndex) : checkM unit :=
  let nHeight := match chain with [] => 0 | prev :: _ => i32 (BlockIndex.nHeight prev + 1) end in
  _ ← sapling_active_at nHeight;
  txheight ← (if nHeight =? 0 then komodo_block2height m b else Ok nHeight);
  let hf22 := isKMD && match nHF22Height consensus with Some n => n <? txheight | None => false end in
  let cmptime :=
    match chain with
    | _ :: _ => if hf22 then u32 (GetMedianTimePast chain + 777) else hd_nTime (header b)
    | [] => hd_nTime (header b)
    end in
  _ ← check_final_txs txheight cmptime nHeight (hd_nTime (header b)) (vtx b);
  _ ← ContextualCheckTransactions b nHeight;
  check_coinbase_height nHeight b.
End BlockChecks.
