(* ===== verification/BlockCheckSpec.v ===== *)
(** * What the checks of a block accept

    CheckBlock accepts exactly the blocks that satisfy a list of declarative
    conditions, its signature-operation counter not wrapping; a rejection that is
    not marked as possible corruption is final for the header; headers that
    follow the time rules keep the median time monotone; coinbases at different
    heights differ. *)
From stdpp Require Import gmap strings sorting.
From S2P Require Import Prelude Endian Hashing Merkle Hmac ScriptNum Script Interpreter ArithUint256 Serialize Transaction TransactionSpec.
From S2P Require Import TxCheck TxCheckSpec BlockIndex BlockIndexSpec Chain Pow ChainState Interest Subsidy Connect PartialMerkle BlockCheck PowSpec.

(** ** Sizes *)

(** Writing is sequential. *)
Lemma put_bind_inv {S A B} (m : bi S A) (f : A -> bi S B) s b o :
  put (m ≫= f) s = Ok (b, o) ->
  exists a o1 o2, put m s = Ok (a, o1) /\ put (f a) s = Ok (b, o2) /\ zlen o = zlen o1 + zlen o2.
Proof.
  rewrite put_bind_eq; destruct (put m s) as [[a o1] | |]; try discriminate.
  destruct (put (f a) s) as [[b' o2] | |] eqn:E; try discriminate; intros [= <- <-].
  exists a, o1, o2; split; [reflexivity |]; split; [exact E |]; unfold zlen; rewrite length_app; lia.
Qed.

Lemma put_READWRITE_inv {S A} (c : codec A) (member : S -> A) s a o :
  put (READWRITE c member) s = Ok (a, o) -> exists x, put c (member s) = Ok (x, o).
Proof. unfold READWRITE; cbn; unfold mbind, res_bind; destruct (put c (member s)) as [[x o'] | |]; try discriminate; intros [= _ <-]; eauto. Qed.

Lemma write_items_zlen {A} (c : codec A) (f : A -> Z) l : forall o,
  (forall x a d, put c x = Ok (a, d) -> f x <= zlen d) -> write_items c l = Ok o -> zsum (map f l) <= zlen o.
Proof.
  induction l as [| x l IH]; intros o Hf; cbn [write_items map zsum fold_right]; [intros _; apply zlen_nonneg |].
  unfold mbind, res_bind; destruct (put c x) as [[a d] | |] eqn:E; try discriminate.
  destruct (write_items c l) as [o' | |] eqn:E'; try discriminate; intros [= <-].
  specialize (Hf x a d E) as Hx; specialize (IH o' Hf eq_refl); cbn [snd]; unfold zlen, zsum in *; rewrite length_app; lia.
Qed.

Lemma put_vec_zlen {A} sizeof (c : codec A) (f : A -> Z) l x o :
  (forall x a d, put c x = Ok (a, d) -> f x <= zlen d) -> put (c_vec sizeof c) l = Ok (x, o) -> zsum (map f l) <= zlen o.
Proof.
  intros Hf; cbn; unfold mbind, res_bind; destruct (write_items c l) as [d | |] eqn:E; try discriminate; intros [= _ <-].
  pose proof (write_items_zlen c f l d Hf E); unfold zlen in *; rewrite length_app; lia.
Qed.

Lemma put_vector_zlen v x o : put c_vector v = Ok (x, o) -> zlen v <= zlen o.
Proof. cbn; intros [= _ <-]; unfold zlen; rewrite length_app; lia. Qed.

(** Peels the members off a write. *)
Ltac put_members H :=
  repeat match type of H with
  | put (_ ≫= _) _ = Ok _ =>
      let a := fresh "a" in let o := fresh "o" in let r := fresh "r" in let E := fresh "E" in let L := fresh "L" in
      apply put_bind_inv in H as (a & o & r & E & H & L)
  end.

(** Lengths of the written parts are not negative. *)
Ltac zlens :=
  repeat match goal with
  | x : list Z |- _ => lazymatch goal with _ : 0 <= zlen x |- _ => fail | _ => pose proof (zlen_nonneg x) end
  end.

Lemma put_txin_zlen i a o : put CTxIn_op i = Ok (a, o) -> zlen (scriptSig i) <= zlen o.
Proof.
  unfold CTxIn_op; intros H; put_members H; apply put_READWRITE_inv in E0 as (? & E0%put_vector_zlen).
  zlens; lia.
Qed.

Lemma put_txout_zlen i a o : put CTxOut_op i = Ok (a, o) -> zlen (scriptPubKey i) <= zlen o.
Proof.
  unfold CTxOut_op; intros H; put_members H; apply put_READWRITE_inv in E0 as (? & E0%put_vector_zlen).
  zlens; lia.
Qed.

(** The bytes of the scripts of a transaction. *)
Definition script_bytes (tx : CTransaction) : Z :=
  zsum (map (fun i => zlen (scriptSig i)) (tx_vin tx)) + zsum (map (fun o => zlen (scriptPubKey o)) (tx_vout tx)).

Lemma put_tx_zlen `{Layout} tx a o : put (CTransaction_op new_tx) tx = Ok (a, o) -> script_bytes tx <= zlen o.
Proof.
  unfold CTransaction_op; intros Hp; do 7 (apply put_bind_inv in Hp as (? & ? & ? & ? & Hp & ?)).
  repeat match goal with
  | H : put (READWRITE (c_vec _ _) _) _ = Ok _ |- _ => apply put_READWRITE_inv in H as (? & H)
  end.
  unfold script_bytes.
  match goal with H : put (c_vec _ CTxIn_op) _ = _ |- _ => apply (put_vec_zlen _ _ (fun i => zlen (scriptSig i))) in H; [| exact put_txin_zlen] end.
  match goal with H : put (c_vec _ CTxOut_op) _ = _ |- _ => apply (put_vec_zlen _ _ (fun i => zlen (scriptPubKey i))) in H; [| exact put_txout_zlen] end.
  zlens; lia.
Qed.

Lemma written_ok {E A} (c : codec A) a d : written (E := E) c a = Ok d -> exists x, put c a = Ok (x, d).
Proof. unfold written; destruct (put c a) as [[x d'] | |]; try discriminate; intros [= <-]; eauto. Qed.

Lemma block_size_scripts {E} `{Layout} b n :
  block_size (E := E) b = Ok n -> zsum (map (fun t => script_bytes t.2) (vtx b)) <= n.
Proof.
  unfold block_size; rewrite bind_ok; intros (h & _ & Hr); apply bind_ok in Hr as (d & (x & Hd)%written_ok & [= <-]).
  apply (put_vec_zlen _ _ script_bytes) in Hd; [| exact put_tx_zlen]; rewrite map_map in Hd.
  pose proof (zlen_nonneg h); lia.
Qed.

(** ** Signature operations *)

(** A 32-bit counter that does not reach its limit is a sum. *)
Lemma fold_u32 {A} (f : A -> Z) l : forall n,
  0 <= n -> Forall (fun x => 0 <= f x) l -> n + zsum (map f l) < 2 ^ 32 ->
  fold_left (fun n x => u32 (n + f x)) l n = n + zsum (map f l).
Proof.
  induction l as [| x l IH]; intros n Hn Hf; cbn [fold_left map zsum fold_right]; [lia |].
  apply Forall_cons_1 in Hf as [Hx Hf].
  assert (0 <= zsum (map f l)) by (apply zsum_nonneg, Forall_fmap, Hf).
  unfold zsum in *; intros Hs; rewrite uwrap_small by lia; rewrite IH; unfold zsum; auto; lia.
Qed.

Lemma zsum_map_nonneg {A} (f : A -> Z) l : Forall (fun x => 0 <= f x) l -> 0 <= zsum (map f l).
Proof. intros Hf; apply zsum_nonneg, Forall_fmap, Hf. Qed.

Lemma zsum_le {A} (f g : A -> Z) l : (forall x, x ∈ l -> f x <= g x) -> zsum (map f l) <= zsum (map g l).
Proof.
  induction l as [| x l IH]; intros Hf; cbn [map zsum fold_right]; [lia |].
  specialize (IH (fun y Hy => Hf y (list_elem_of_further _ _ _ Hy))); specialize (Hf x (list_elem_of_here _ _)).
  unfold zsum in *; lia.
Qed.

Lemma zsum_scale {A} k (f : A -> Z) l : zsum (map (fun x => k * f x) l) = k * zsum (map f l).
Proof. induction l as [| x l IH]; cbn [map zsum fold_right]; unfold zsum in *; lia. Qed.

Lemma zsum_member {A} (f : A -> Z) x l : (forall y, 0 <= f y) -> x ∈ l -> f x <= zsum (map f l).
Proof.
  intros Hf; induction l as [| y l IH]; [intros Hx; now apply not_elem_of_nil in Hx |].
  pose proof (zsum_map_nonneg f l ltac:(apply Forall_true; intros z; apply Hf)).
  specialize (Hf y); cbn [map zsum fold_right]; intros [-> | Hx]%elem_of_cons; unfold zsum in *; [lia | specialize (IH Hx); lia].
Qed.

(** The counters of the code, without the width. *)
Definition script_sigops (s : list Z) : Z := GetSigOpCount s false.
Definition tx_sigops (tx : CTransaction) : Z :=
  zsum (map (fun i => script_sigops (scriptSig i)) (tx_vin tx)) + zsum (map (fun o => script_sigops (scriptPubKey o)) (tx_vout tx)).

Lemma script_sigops_bound s : zlen s < 2 ^ 27 -> 0 <= script_sigops s <= 20 * zlen s.
Proof.
  intros Hl; unfold script_sigops, GetSigOpCount.
  pose proof (GetSigOpCount_loop_bound (length s) s OP_INVALIDOPCODE 0 0 0 (le_n _) ltac:(lia) ltac:(lia) ltac:(lia) ltac:(lia)); lia.
Qed.

Lemma sigops_sum {A} (f : A -> list Z) l :
  zsum (map (fun x => zlen (f x)) l) < 2 ^ 27 ->
  Forall (fun x => 0 <= script_sigops (f x)) l /\ zsum (map (fun x => script_sigops (f x)) l) <= 20 * zsum (map (fun x => zlen (f x)) l).
Proof.
  intros Hl; assert (Hb : forall x, x ∈ l -> 0 <= script_sigops (f x) <= 20 * zlen (f x)).
  { intros x Hx; apply script_sigops_bound.
    pose proof (zsum_member (fun x => zlen (f x)) x l (fun y => zlen_nonneg _) Hx); cbn in *; lia. }
  split; [apply list.Forall_forall; intros x Hx; apply Hb, Hx |].
  rewrite <- zsum_scale; apply zsum_le; intros x Hx; apply Hb, Hx.
Qed.

Lemma tx_sigops_ok tx : script_bytes tx < 2 ^ 27 ->
  GetLegacySigOpCount tx = tx_sigops tx /\ 0 <= tx_sigops tx <= 20 * script_bytes tx.
Proof.
  unfold script_bytes, tx_sigops; intros Hs.
  assert (Hn : forall A (f : A -> list Z) l, 0 <= zsum (map (fun x => zlen (f x)) l))
    by (intros A f l; apply zsum_map_nonneg, Forall_true; intros x; apply zlen_nonneg).
  pose proof (Hn _ scriptSig (tx_vin tx)); pose proof (Hn _ scriptPubKey (tx_vout tx)).
  destruct (sigops_sum scriptSig (tx_vin tx) ltac:(lia)) as [F1 S1]; destruct (sigops_sum scriptPubKey (tx_vout tx) ltac:(lia)) as [F2 S2].
  pose proof (zsum_map_nonneg _ _ F1) as P1; pose proof (zsum_map_nonneg _ _ F2) as P2.
  split; [| lia]; unfold GetLegacySigOpCount.
  rewrite (fold_u32 (fun i => script_sigops (scriptSig i))) by (auto; lia).
  now rewrite (fold_u32 (fun o => script_sigops (scriptPubKey o))) by (auto; lia).
Qed.

(** A transaction that passes CheckTransaction has the form it should have. *)
Lemma CheckTransaction_without `{HashFunctions, Layout, MoneyLimit, ChainParams, TxEnvironment} tiptime txid tx i n :
  CheckTransaction tiptime txid tx i n = Ok tt -> CheckTransactionWithoutProofVerification tiptime txid tx = Ok tt.
Proof.
  unfold CheckTransaction; repeat (case_goal; try discriminate); intros _; now destruct a.
Qed.

Section Accept.
Context `{HashFunctions, Layout, MoneyLimit, ChainParams, TxEnvironment, SubsidyParams, BlockEnv, CheckEnv}.

Lemma max_block_size height : MAX_BLOCK_SIZE sapling_nActivationHeight height <= 4194304.
Proof. unfold MAX_BLOCK_SIZE; destruct (_ || _); lia. Qed.

(** The count of a block within the size limit. *)
Lemma block_sigops_ok {E} height b n :
  block_size (E := E) b = Ok n -> n <= MAX_BLOCK_SIZE sapling_nActivationHeight height ->
  block_sigops b = zsum (map (fun t => tx_sigops t.2) (vtx b)).
Proof.
  intros Hs Hn; apply block_size_scripts in Hs; pose proof (max_block_size height) as Hm.
  assert (Hnn : forall t : uint256 * CTransaction, 0 <= script_bytes t.2).
  { intros t; unfold script_bytes; apply Z.add_nonneg_nonneg; apply zsum_map_nonneg, Forall_true; intros x; apply zlen_nonneg. }
  assert (Hb : forall t, t ∈ vtx b -> GetLegacySigOpCount t.2 = tx_sigops t.2 /\ 0 <= tx_sigops t.2 <= 20 * script_bytes t.2).
  { intros t Ht; apply tx_sigops_ok; pose proof (zsum_member (fun t => script_bytes t.2) t (vtx b) Hnn Ht); cbn in *; lia. }
  assert (Hl : zsum (map (fun t => tx_sigops t.2) (vtx b)) <= 20 * n).
  { etransitivity; [apply zsum_le; intros t Ht; apply Hb, Ht |]; rewrite (zsum_scale 20 (fun t => script_bytes t.2)); lia. }
  assert (He : map (fun t => GetLegacySigOpCount t.2) (vtx b) = map (fun t => tx_sigops t.2) (vtx b))
    by (apply map_ext_Forall, list.Forall_forall; intros t Ht; now apply Hb).
  unfold block_sigops; rewrite (fold_u32 (fun t => GetLegacySigOpCount t.2)); rewrite ?He; try lia.
  apply list.Forall_forall; intros t Ht; destruct (Hb t Ht) as [-> ?]; lia.
Qed.

(** ** The conditions *)

Lemma then_iff {E} (x y : res E unit) : (x ≫= fun _ => y) = Ok tt <-> x = Ok tt /\ y = Ok tt.
Proof. destruct x as [[] | |]; cbn; intuition discriminate. Qed.

Lemma reject_block_iff c level reason corruption : reject_block c level reason corruption = Ok tt <-> c = false.
Proof. destruct c; cbn; split; easy. Qed.

Lemma fail_if_iff c : fail_if c = Ok tt <-> c = false.
Proof. destruct c; cbn; split; easy. Qed.

(** The time limit of a header. *)
Definition time_limit : Z := GetTime + (if 0 <? ck_ADAPTIVEPOW then 4 else 60).

Record header_valid (height : Z) (h : CBlockHeader) (pow : bool) : Prop := {
  hv_time : hd_nTime h <= time_limit;
  hv_version : 0 < height -> 4 <= hd_nVersion h;
  hv_solution : pow = true -> CheckEquihashSolution h = true;
}.

(** A block of the KMD chain that a chosen notary mined after the hard fork. *)
Definition easy_mined (height tiptime : Z) (key : list Z) : Prop :=
  isKMD = true /\ nDecemberHardforkHeight < height /\
  (0 < komodo_chosennotary height key tiptime \/ komodo_chosennotary height key tiptime = 0 /\ nS5HardforkHeight < height).

(** The last output of the last transaction commits to the previous block and
    to the other transactions. *)
Definition commits_to_transactions (b : CBlock) : Prop :=
  exists front txid tx outs value,
    vtx b = front ++ [(txid, tx)] /\
    tx_vout tx = outs ++ [mkTxOut value (push_vch [OP_RETURN : Z] (merkle_root (hashPrevBlock (header b) :: map fst front)))].

(** What the proof of work of a block and its notary commitment must satisfy;
    the key is the one that the block pays, when the proof of work is checked. *)
Record miner_valid (height tiptime : Z) (b : CBlock) (pow : bool) : Prop := {
  mv_pow : pow = true -> exists key hash, komodo_block2pubkey33 b = Ok key /\
    GetSHA256DHash (E := unit) (header b) = Ok hash /\
    CheckProofOfWork globals consensus (notary_answers b key height) (hd_nBits (header b)) (hd_nTime (header b)) hash key height = true /\
    (TxCheck.ASSETCHAINS_STAKED = 0 -> 0 <= slow_checkPOW b height);
  mv_opret : forall key, (if pow then komodo_block2pubkey33 b else Ok stack33) = Ok key -> easy_mined height tiptime key ->
    commits_to_transactions b;
}.

Record block_valid (height : Z) (prev_nTime : option Z) (b : CBlock) (pow merkle : bool) : Prop := {
  bv_header : header_valid height (header b) pow;
  bv_miner : miner_valid height (default (hd_nTime (header b)) prev_nTime) b pow;
  bv_merkle : merkle = true -> hashMerkleRoot (header b) = merkle_root (map fst (vtx b)) /\
    Forall (fun l => ends_in_pair l = false) (merkle_levels (map fst (vtx b)));
  bv_size : exists n, block_size (E := unit) b = Ok n /\ n <= MAX_BLOCK_SIZE sapling_nActivationHeight height /\ zlen (vtx b) <= MAX_BLOCK_SIZE sapling_nActivationHeight height;
  bv_coinbase : match vtx b with t :: rest => IsCoinBase t.2 = true /\ Forall (fun t => IsCoinBase t.2 = false) rest | [] => False end;
  bv_txs : ASSETCHAINS_CC = 0 \/ pow = true -> forall i txid tx, vtx b !! i = Some (txid, tx) ->
    CheckTransaction (default (hd_nTime (header b)) prev_nTime) txid tx (Z.of_nat i) (zlen (vtx b)) = Ok tt;
  bv_sigops : ASSETCHAINS_CC = 0 \/ pow = true -> zsum (map (fun t => tx_sigops t.2) (vtx b)) <= MAX_BLOCK_SIGOPS;
  bv_deposit : pow = true -> exists d, komodo_check_deposit height b = Ok d /\ 0 <= d;
}.

Lemma last_Some_app {A} (l : list A) x : List.last (map Some (l ++ [x])) None = Some x.
Proof. rewrite map_app; apply List.last_last. Qed.

Lemma last_Some_iff {A} (l : list A) x : List.last (map Some l) None = Some x <-> exists front, l = front ++ [x].
Proof.
  split.
  - destruct l as [| y l] using rev_ind; [discriminate |]; rewrite last_Some_app; intros [= ->]; eauto.
  - intros [front ->]; apply last_Some_app.
Qed.

Lemma push_vch_head c b : exists rest, push_vch [c] b = c :: rest.
Proof. unfold push_vch; repeat destruct (_ <? _); repeat destruct (_ <=? _); cbn [app]; eauto. Qed.

Lemma checkopret_iff {E} b : komodo_checkopret (E := E) b = Ok true <-> commits_to_transactions b.
Proof.
  unfold komodo_checkopret, commits_to_transactions.
  destruct (List.last (map Some (vtx b)) None) as [[txid tx] |] eqn:Et.
  2:{ split; [discriminate |]; intros (front & txid & tx & ? & ? & Ev & _).
      rewrite Ev, last_Some_app in Et; discriminate. }
  apply last_Some_iff in Et as [front Et].
  destruct (List.last (map Some (tx_vout tx)) None) as [o |] eqn:Eo.
  2:{ split; [discriminate |]; intros (front' & txid' & tx' & outs & v & Ev & Evo).
      rewrite Et in Ev; apply app_inj_tail in Ev as [_ [= <- <-]]; rewrite Evo, last_Some_app in Eo; discriminate. }
  apply last_Some_iff in Eo as [outs Eo].
  unfold komodo_makeopret; rewrite Et, map_app; cbn [map]; rewrite removelast_last, BuildMerkleTree_ok; cbn [mbind res_bind].
  change (push_opcode [] OP_RETURN) with (Ok (E := E) [OP_RETURN : Z]); cbn [mbind res_bind].
  set (opret := push_vch _ _); split.
  - intros [= [_ Hs%bool_decide_eq_true]%andb_prop]; exists front, txid, tx, outs, (nValue o); rewrite Eo.
    split; [reflexivity |]; fold opret; rewrite <- Hs; now destruct o.
  - intros (front' & txid' & tx' & outs' & v & Ev & Evo).
    apply app_inj_tail in Ev as [<- [= <- <-]]; rewrite Eo in Evo; apply app_inj_tail in Evo as [_ ->]; cbn [scriptPubKey].
    fold opret; rewrite bool_decide_eq_true_2 by reflexivity; rewrite andb_true_r; do 2 f_equal.
    destruct (push_vch_head OP_RETURN (merkle_root (hashPrevBlock (header b) :: map fst front))) as [rest E']; fold opret in E'; rewrite E'.
    unfold script_IsOpReturn; destruct (Z.ltb_spec 0 (zlen ((OP_RETURN : Z) :: rest))) as [_ | Hc]; [reflexivity |].
    unfold zlen in Hc; cbn [length] in Hc; lia.
Qed.

Lemma check_opret_iff height tiptime b key :
  check_block_opret height tiptime b key = Ok tt <-> (easy_mined height tiptime key -> commits_to_transactions b).
Proof.
  unfold check_block_opret, easy_mined; destruct (Z.ltb_spec nDecemberHardforkHeight height) as [Hd | Hd]; cbn [andb].
  2:{ split; [intros _ (_ & ? & _); lia | reflexivity]. }
  destruct isKMD; [| split; [intros _ (? & _); discriminate | reflexivity]].
  cbv zeta; set (nid := komodo_chosennotary height key tiptime).
  destruct ((0 <? nid) || ((nid =? 0) && (nS5HardforkHeight <? height))) eqn:Ec.
  - rewrite <- (checkopret_iff (E := connect_error)), bind_ok; split.
    + intros (ok & -> & Hr) _; apply reject_block_iff in Hr; now destruct ok.
    + intros Hc; exists true; split; [apply Hc | reflexivity].
      split; [reflexivity |]; split; [exact Hd |].
      apply orb_prop in Ec as [?%Z.ltb_lt | [?%Z.eqb_eq ?%Z.ltb_lt]%andb_prop]; auto.
  - split; [| reflexivity]; intros _ (_ & _ & Hn); exfalso; apply orb_false_iff in Ec as [?%Z.ltb_ge Hb].
    destruct Hn as [? | [Hn ?]]; [lia |]; rewrite Hn in Hb; cbn in Hb; zbool; discriminate || lia.
Qed.

Lemma check_header_iff height h pow : CheckBlockHeader height h pow = (false, Ok tt) <-> header_valid height h pow.
Proof.
  unfold CheckBlockHeader; cbv zeta; set (rest := _ ≫= _).
  assert (Hrest : rest = Ok tt <-> (0 < height -> 4 <= hd_nVersion h) /\ (pow = true -> CheckEquihashSolution h = true)).
  { unfold rest; rewrite then_iff, !reject_block_iff, !andb_false_iff, negb_false_iff, !Z.ltb_ge.
    unfold MIN_BLOCK_VERSION; destruct pow; intuition lia || discriminate. }
  unfold time_limit; split.
  - intros Hc; assert (Hr : rest = Ok tt /\ hd_nTime h <= GetTime + (if 0 <? ck_ADAPTIVEPOW then 4 else 60)).
    { destruct (0 <? ck_ADAPTIVEPOW); zbool; try discriminate; injection Hc as Hc; split; (exact Hc || lia). }
    destruct Hr as [[? ?]%Hrest ?]; now split.
  - intros [Ht Hv Hs]; rewrite (proj2 Hrest (conj Hv Hs)); unfold time_limit in Ht.
    destruct (0 <? ck_ADAPTIVEPOW); zbool; reflexivity || lia.
Qed.

(** What writes is independent of the type of errors of the caller. *)
Lemma written_any {E E' A} (c : codec A) a d : written (E := E) c a = Ok d <-> written (E := E') c a = Ok d.
Proof. unfold written; destruct (put c a) as [[? ?] | |]; split; try discriminate; now intros [= <-]. Qed.

Lemma hash_any {E E'} h x : GetSHA256DHash (E := E) h = Ok x <-> GetSHA256DHash (E := E') h = Ok x.
Proof. unfold GetSHA256DHash; rewrite !bind_ok; split; intros (d & Hd & [= <-]); exists d; split; auto; eapply written_any, Hd. Qed.

Lemma block_size_any {E E'} b n : block_size (E := E) b = Ok n <-> block_size (E := E') b = Ok n.
Proof.
  unfold block_size; rewrite !bind_ok; split; intros (h & Hh & Hr); exists h; (split; [eapply written_any, Hh |]);
    apply bind_ok in Hr as (d & Hd & [= <-]); apply bind_ok; exists d; split; auto; eapply written_any, Hd.
Qed.

Lemma existsb_false_Forall {A} (f : A -> bool) l : existsb f l = false <-> Forall (fun x => f x = false) l.
Proof.
  induction l as [| x l IH]; cbn; [split; auto |]; now rewrite orb_false_iff, IH, list.Forall_cons.
Qed.

Lemma check_merkle_iff b : check_block_merkle b = Ok tt <->
  hashMerkleRoot (header b) = merkle_root (map fst (vtx b)) /\ Forall (fun l => ends_in_pair l = false) (merkle_levels (map fst (vtx b))).
Proof.
  unfold check_block_merkle; rewrite BuildMerkleTree_ok; cbn [mbind res_bind].
  now rewrite then_iff, !reject_block_iff, negb_false_iff, bool_decide_eq_true, existsb_false_Forall.
Qed.

Lemma check_size_iff height b : check_block_size height b = Ok tt <->
  vtx b <> [] /\ exists n, block_size (E := unit) b = Ok n /\ n <= MAX_BLOCK_SIZE sapling_nActivationHeight height /\ zlen (vtx b) <= MAX_BLOCK_SIZE sapling_nActivationHeight height.
Proof.
  unfold check_block_size; cbv zeta; rewrite bind_ok; split.
  - intros (big & Hb & ->%reject_block_iff); revert Hb.
    destruct (empty_list (vtx b)) eqn:Ee; cbn [orb]; [discriminate |].
    destruct (Z.ltb_spec (MAX_BLOCK_SIZE sapling_nActivationHeight height) (zlen (vtx b))); [discriminate |]; rewrite bind_ok.
    intros (n & Hn & [= Hs%Z.ltb_ge]); split; [intros E; rewrite E in Ee; discriminate |].
    exists n; split; [eapply block_size_any, Hn | auto].
  - intros (Hne & n & Hn & Hs & Hl); exists false; split; [| reflexivity].
    destruct (vtx b) eqn:Ev; [contradiction |]; rewrite <- Ev in *; replace (empty_list (vtx b)) with false by now rewrite Ev.
    destruct (Z.ltb_spec (MAX_BLOCK_SIZE sapling_nActivationHeight height) (zlen (vtx b))); [lia |]; cbn [orb].
    apply bind_ok; exists n; split; [eapply block_size_any, Hn |]; f_equal; now apply Z.ltb_ge.
Qed.

Lemma check_coinbase_iff b : check_block_coinbase b = Ok tt <->
  match vtx b with t :: rest => IsCoinBase t.2 = true /\ Forall (fun t => IsCoinBase t.2 = false) rest | [] => False end.
Proof.
  unfold check_block_coinbase; destruct (vtx b) as [| t rest]; [split; [discriminate | easy] |].
  now rewrite then_iff, !reject_block_iff, negb_false_iff, existsb_false_Forall.
Qed.

Lemma tx_result_iff r : tx_result r = Ok tt <-> r = Ok tt.
Proof. destruct r as [[] | [?|] |]; cbn; split; easy. Qed.

Lemma check_txs_iff tiptime n l : forall k,
  check_block_txs tiptime n k l = Ok tt <->
  forall i txid tx, l !! i = Some (txid, tx) -> CheckTransaction tiptime txid tx (k + Z.of_nat i) n = Ok tt.
Proof.
  induction l as [| [txid tx] l IH]; intros k; cbn [check_block_txs]; [split; [intros _ i ? ?; now rewrite lookup_nil | reflexivity] |].
  rewrite then_iff, tx_result_iff, IH; split.
  - intros [H0' Hl] [| i] ? ?; cbn; [intros [= <- <-]; now rewrite Z.add_0_r |].
    intros Hi; specialize (Hl _ _ _ Hi); replace (k + Z.of_nat (Datatypes.S i)) with (k + 1 + Z.of_nat i) by lia; exact Hl.
  - intros Hall; split; [rewrite <- (Z.add_0_r k); exact (Hall 0%nat txid tx eq_refl) |].
    intros i ? ? Hi; replace (k + 1 + Z.of_nat i) with (k + Z.of_nat (Datatypes.S i)) by lia; now apply Hall.
Qed.

Lemma check_miner_iff height tiptime b (pow : bool) :
  (exists key, (if pow then key ← komodo_block2pubkey33 b; _ ← check_block_pow height b key; Ok key else Ok stack33) = Ok key /\
     check_block_opret height tiptime b key = Ok tt) <-> miner_valid height tiptime b pow.
Proof.
  assert (Hpow : forall key, check_block_pow height b key = Ok tt <-> exists hash, GetSHA256DHash (E := unit) (header b) = Ok hash /\
    CheckProofOfWork globals consensus (notary_answers b key height) (hd_nBits (header b)) (hd_nTime (header b)) hash key height = true /\
    (TxCheck.ASSETCHAINS_STAKED = 0 -> 0 <= slow_checkPOW b height)).
  { intros key; unfold check_block_pow; rewrite bind_ok; split; intros (hash & Hh & Hr); exists hash;
      (split; [eapply hash_any, Hh |]); revert Hr; rewrite then_iff, !reject_block_iff, negb_false_iff, andb_false_iff, Z.eqb_neq, Z.ltb_ge;
      intros [Hc Hs]; (split; [exact Hc |]); destruct (Z.eq_dec TxCheck.ASSETCHAINS_STAKED 0); intuition. }
  destruct pow; split.
  - intros (key & Hk & Ho); apply bind_ok in Hk as (key' & Hk & Hr); apply bind_ok in Hr as ([] & (hash & Hp)%Hpow & [= <-]).
    split; [eauto 8 |]; intros key2 Hk2; rewrite Hk in Hk2; injection Hk2 as <-; now apply check_opret_iff.
  - intros [Hp Ho]; destruct (Hp eq_refl) as (key & hash & Hk & Hr); exists key; rewrite Hk; cbn [mbind res_bind].
    rewrite (proj2 (Hpow key)) by eauto; split; [reflexivity |]; apply check_opret_iff, Ho, Hk.
  - intros (key & [= <-] & Ho); split; [discriminate |]; intros key2 [= <-]; now apply check_opret_iff.
  - intros [_ Ho]; exists stack33; split; [reflexivity |]; now apply check_opret_iff, Ho.
Qed.

Lemma check_deposit_iff height b (pow : bool) :
  (if pow then d ← komodo_check_deposit height b; fail_if (d <? 0) else Ok tt) = Ok tt <->
  (pow = true -> exists d, komodo_check_deposit height b = Ok d /\ 0 <= d).
Proof.
  destruct pow; [| split; [intros _; discriminate | reflexivity]]; rewrite bind_ok; split.
  - intros (d & Hd & Hf%fail_if_iff%Z.ltb_ge) _; eauto.
  - intros Hd; destruct (Hd eq_refl) as (d & ? & ?); exists d; split; [assumption |]; now apply fail_if_iff, Z.ltb_ge.
Qed.

(** The transactions, where the code looks at them. *)
Lemma check_rest_iff height tiptime b (pow : bool) n :
  block_size (E := unit) b = Ok n -> n <= MAX_BLOCK_SIZE sapling_nActivationHeight height ->
  (if negb (ASSETCHAINS_CC =? 0) && negb pow then Ok tt
   else _ ← check_block_txs tiptime (zlen (vtx b)) 0 (vtx b);
        _ ← reject_block (MAX_BLOCK_SIGOPS <? block_sigops b) 100 "bad-blk-sigops" true;
        if pow then d ← komodo_check_deposit height b; fail_if (d <? 0) else Ok tt) = Ok tt <->
  (ASSETCHAINS_CC = 0 \/ pow = true -> forall i txid tx, vtx b !! i = Some (txid, tx) ->
     CheckTransaction tiptime txid tx (Z.of_nat i) (zlen (vtx b)) = Ok tt) /\
  (ASSETCHAINS_CC = 0 \/ pow = true -> zsum (map (fun t => tx_sigops t.2) (vtx b)) <= MAX_BLOCK_SIGOPS) /\
  (pow = true -> exists d, komodo_check_deposit height b = Ok d /\ 0 <= d).
Proof.
  intros Hs Hn; rewrite <- (block_sigops_ok height b n Hs Hn), <- check_deposit_iff.
  destruct (negb (ASSETCHAINS_CC =? 0) && negb pow) eqn:Ec.
  - apply andb_prop in Ec as [Ec%negb_true_iff%Z.eqb_neq Ep]; destruct pow; [discriminate |].
    split; [intros _; split; [intros [? | ?]; easy |]; split; [intros [? | ?]; easy | reflexivity] | reflexivity].
  - assert (Hc : ASSETCHAINS_CC = 0 \/ pow = true).
    { apply andb_false_iff in Ec as [Ec%negb_false_iff%Z.eqb_eq | Ec]; [now left | right; now destruct pow]. }
    rewrite !then_iff, reject_block_iff, check_txs_iff, Z.ltb_ge; cbn [Z.add]; intuition.
Qed.

Lemma check_body_iff height prev b pow merkle :
  check_block_body height prev b pow merkle = Ok tt /\ header_valid height (header b) pow <->
  block_valid height prev b pow merkle.
Proof.
  unfold check_block_body; cbv zeta; set (tiptime := default _ prev).
  set (rest := if negb _ && _ then _ else _); rewrite bind_ok.
  assert (Hm : (if merkle then check_block_merkle b else Ok tt) = Ok tt <-> (merkle = true ->
    hashMerkleRoot (header b) = merkle_root (map fst (vtx b)) /\ Forall (fun l => ends_in_pair l = false) (merkle_levels (map fst (vtx b))))).
  { destruct merkle; [rewrite check_merkle_iff; intuition | split; [intros _; discriminate | reflexivity]]. }
  split.
  - intros [(key & Hk & Hr) Hh].
    rewrite !then_iff, check_size_iff, check_coinbase_iff in Hr; destruct Hr as (Ho & Hmk & (_ & n & Hs) & Hcb & Hr).
    apply (check_rest_iff height tiptime b pow n) in Hr; try tauto; destruct Hr as (? & ? & ?); split; auto; eauto.
    + apply check_miner_iff; eauto.
    + now apply Hm.
  - intros [Hh Hmi Hmk (n & Hs & Hn & Hl) Hcb Ht Hsi Hd]; split; [| exact Hh].
    apply check_miner_iff in Hmi as (key & Hk & Ho); exists key; split; [exact Hk |].
    rewrite !then_iff, check_size_iff, check_coinbase_iff; split; [exact Ho |]; split; [now apply Hm |].
    split; [split; [destruct (vtx b); easy | eauto] |]; split; [exact Hcb |].
    now apply (check_rest_iff height tiptime b pow n).
Qed.

(** An empty block is refused. *)
Lemma empty_refused height prev b pow merkle : vtx b = [] -> (CheckBlock height prev b pow merkle).2 <> Ok tt.
Proof.
  intros He; unfold CheckBlock.
  assert (Hb : check_block_body height prev b pow merkle <> Ok tt).
  { unfold check_block_body; cbv zeta; rewrite bind_ok; intros (key & _ & Hr).
    rewrite !then_iff, check_size_iff in Hr; tauto. }
  destruct (CheckBlockHeader height (header b) pow) as [[] [[] | e | x]]; cbn; congruence.
Qed.

Lemma check_block_iff height prev b pow merkle :
  CheckBlock height prev b pow merkle = (false, Ok tt) <-> block_valid height prev b pow merkle.
Proof.
  rewrite <- check_body_iff, <- check_header_iff; unfold CheckBlock.
  destruct (CheckBlockHeader height (header b) pow) as [[] [[] | e | x]]; split; try (intros [? ?]; congruence); try discriminate.
  all: intros [= Hb]; now split.
Qed.
End Accept.

(** ** Rejections that are final for a header *)

Section Final.
Context `{HashFunctionsOk, LayoutOk, MoneyLimit, ChainParams, TxEnvironment, SubsidyParams, BlockEnv, CheckEnv}.

(** The transactions of a block carry their hashes. *)
Definition hashes_ok (b : CBlock) : Prop :=
  Forall (fun t => tx_valid new_tx t.2 /\ tx_GetHash t.2 = Ok t.1) (vtx b).

Lemma hashes_size b : hashes_ok b -> Forall (fun h => length h = 32%nat) (map fst (vtx b)).
Proof.
  intros Hb; apply Forall_fmap; eapply Forall_impl; [| exact Hb]; intros [h tx] [_ Ht]; cbn in *.
  unfold tx_GetHash in Ht; apply bind_ok in Ht as (d & _ & [= <-]); apply CHash256_length.
Qed.

(** What is hashed for a block: its transactions and its Merkle tree. *)
Definition block_inputs (b : CBlock) : list (list Z) :=
  map (fun t => tx_bytes t.2) (vtx b) ++ merkle_inputs (map fst (vtx b)).

Lemma same_hashes inputs l1 : forall l2 : list (uint256 * CTransaction),
  collision_free inputs -> map (fun t => tx_bytes t.2) l1 ⊆ inputs -> map (fun t => tx_bytes t.2) l2 ⊆ inputs ->
  Forall (fun t => tx_valid new_tx t.2 /\ tx_GetHash t.2 = Ok t.1) l1 ->
  Forall (fun t => tx_valid new_tx t.2 /\ tx_GetHash t.2 = Ok t.1) l2 ->
  map fst l1 = map fst l2 -> l1 = l2.
Proof.
  induction l1 as [| [h1 tx1] l1 IH]; intros [| [h2 tx2] l2] Hf I1 I2 F1 F2; try discriminate; [reflexivity |]; intros [= E1 E2]; cbn in E1; subst h2.
  apply list_subseteq_cons_iff in I1 as [J1 I1]; apply list_subseteq_cons_iff in I2 as [J2 I2].
  apply Forall_cons_1 in F1 as [[V1 T1] F1]; apply Forall_cons_1 in F2 as [[V2 T2] F2]; cbn in *.
  rewrite (txid_injective inputs tx1 tx2 h1) by assumption; f_equal; now apply IH.
Qed.

(** What the Merkle check leaves open, when nothing that depends on the
    transactions comes before it. *)
Lemma body_after_merkle height prev b :
  isKMD = false \/ height <= nDecemberHardforkHeight ->
  (exists e, check_block_body height prev b false true = Err (Rejected e false)) \/ check_block_body height prev b false true = Ok tt ->
  check_block_merkle b = Ok tt.
Proof.
  intros Hk; unfold check_block_body; cbv zeta; cbn [mbind res_bind].
  assert (Ho : forall t, check_block_opret height t b stack33 = Ok tt).
  { intros t; unfold check_block_opret; destruct Hk as [-> | Hk]; [now rewrite andb_false_r |].
    now destruct (Z.ltb_spec nDecemberHardforkHeight height); [lia |]. }
  rewrite Ho; unfold check_block_merkle; rewrite BuildMerkleTree_ok; cbn [mbind res_bind].
  destruct (negb (bool_decide (hashMerkleRoot _ = _))); cbn [reject_block mbind res_bind]; [intros [(e & ?) | ?]; discriminate |].
  destruct (existsb ends_in_pair _); cbn [reject_block mbind res_bind]; [intros [(e & ?) | ?]; discriminate | reflexivity].
Qed.

(** A header after which CheckBlock goes on to the transactions. *)
Definition proceeds (height : Z) (h : CBlockHeader) (pow : bool) : bool :=
  match CheckBlockHeader height h pow with (_, Ok _) => true | (future, Err _) => future | (_, Exn _) => false end.

Lemma check_block_eq height prev b pow merkle :
  (CheckBlock height prev b pow merkle).2 =
  if proceeds height (header b) pow then check_block_body height prev b pow merkle else (CheckBlockHeader height (header b) pow).2.
Proof. unfold CheckBlock, proceeds; destruct (CheckBlockHeader _ _ _) as [[] [[] | e | x]]; reflexivity. Qed.

Lemma same_transactions b1 b2 :
  collision_free (block_inputs b1 ++ block_inputs b2) ->
  header b1 = header b2 -> hashMerkleRoot (header b1) <> uint256_null -> hashes_ok b1 -> hashes_ok b2 ->
  length (merkle_levels (map fst (vtx b1))) = length (merkle_levels (map fst (vtx b2))) ->
  check_block_merkle b1 = Ok tt -> check_block_merkle b2 = Ok tt -> b1 = b2.
Proof.
  unfold block_inputs; intros Hf Hh Hz V1 V2 Hlv [R1 P1]%check_merkle_iff [R2 P2]%check_merkle_iff.
  assert (N1 : map fst (vtx b1) <> []) by (intros E; now rewrite R1, E in Hz).
  assert (N2 : map fst (vtx b2) <> []) by (intros E; now rewrite Hh, R2, E in Hz).
  rewrite Hh, R2 in R1; assert (E : map fst (vtx b1) = map fst (vtx b2)).
  { apply (merkle_root_binding (map fst (vtx b1)) (map fst (vtx b2)) (concat (merkle_levels (map fst (vtx b1))))
    (concat (merkle_levels (map fst (vtx b2)))) (merkle_root (map fst (vtx b2)))); try assumption.
  1: { revert Hf; apply collision_free_mono; intros x; rewrite !elem_of_app; tauto. }
  1, 2: now apply hashes_size.
  - rewrite BuildMerkleTree_ok, <- R1; do 3 f_equal; now apply existsb_false_Forall.
  - rewrite BuildMerkleTree_ok; do 3 f_equal; now apply existsb_false_Forall. }
  assert (vtx b1 = vtx b2); [| destruct b1, b2; cbn in *; congruence].
  apply (same_hashes _ _ _ Hf); try assumption; intros x; rewrite !elem_of_app; tauto.
Qed.
End Final.

(** ** Properties *)

(** C9: CheckBlock returns true, with [*futureblockp] zero, exactly for the
    blocks that satisfy all of the following.  The time is at most a minute ahead
    of the clock (four seconds with adaptive proof of work), and the version at least
    4 above height zero.  When the proof of work is to be checked, the Equihash
    solution is valid, the hash meets the target for the key that the block pays, the
    slow check agrees on a chain without staking, and [komodo_check_deposit], the rule
    on banned inputs and on the further outputs of the coinbase, does not refuse the
    block.  A block of the KMD chain that a chosen notary mined after the hard fork
    commits to its transactions in its last output.  When the Merkle root is to be
    checked, the header holds that of the transactions, and no level of the tree ends
    in a pair of equal hashes.  The block keeps to the size limit and has one coinbase,
    the first transaction.  Unless the chain has contracts and the proof of work is not
    to be checked, every transaction passes CheckTransaction and the signature
    operations are at most as many as allowed: the 32-bit counters of the code do not
    wrap in a block within the size limit. *)
Theorem check_block_exact `{HashFunctions, Layout, MoneyLimit, ChainParams, TxEnvironment, SubsidyParams, BlockEnv, CheckEnv}
    (height : Z) (prev_nTime : option Z) (b : CBlock) (fCheckPOW fCheckMerkleRoot : bool) :
  CheckBlock height prev_nTime b fCheckPOW fCheckMerkleRoot = (false, Ok tt) <->
  block_valid height prev_nTime b fCheckPOW fCheckMerkleRoot.
Proof. apply check_block_iff. Qed.

(** C10: a rejection by CheckBlock that is not marked as possible corruption is
    final for the header.  When the proof of work is not asked for and no notary
    commitment is due, and a block is so rejected, then no block with the same
    header is accepted, whatever its transactions: a node that marks the header as
    failed does not shut out a valid block.  The Merkle root in the header is not
    zero, the Merkle trees of the two blocks have equally many levels, and double
    SHA-256 has no collision among what is hashed for the transaction ids and the
    Merkle trees of the two blocks. *)
Theorem rejection_is_final
    `{HashFunctionsOk, LayoutOk, MoneyLimit, ChainParams, TxEnvironment, SubsidyParams, BlockEnv, CheckEnv}
    (height : Z) (prev_nTime : option Z) (b1 b2 : CBlock) (f1 f2 : bool) (r : reject) :
  collision_free (block_inputs b1 ++ block_inputs b2) ->
  isKMD = false \/ height <= nDecemberHardforkHeight ->
  header b1 = header b2 -> hashMerkleRoot (header b1) <> uint256_null -> hashes_ok b1 -> hashes_ok b2 ->
  length (merkle_levels (map fst (vtx b1))) = length (merkle_levels (map fst (vtx b2))) ->
  CheckBlock height prev_nTime b1 false true = (f1, Err (Rejected r false)) ->
  CheckBlock height prev_nTime b2 false true <> (f2, Ok tt).
Proof.
  intros Hf Hk Hh Hz V1 V2 Hlv C1 C2.
  pose proof (check_block_eq height prev_nTime b1 false true) as E1; rewrite C1, Hh in E1; cbn [snd] in E1.
  pose proof (check_block_eq height prev_nTime b2 false true) as E2; rewrite C2 in E2; cbn [snd] in E2.
  destruct (proceeds height (header b2) false); [| congruence].
  assert (M1 : check_block_merkle b1 = Ok tt) by (apply (body_after_merkle height prev_nTime); eauto).
  assert (M2 : check_block_merkle b2 = Ok tt) by (apply (body_after_merkle height prev_nTime); eauto).
  assert (b1 = b2) by (apply same_transactions; auto); congruence.
Qed.

(** ** Instances *)

(** A block with a coinbase and a payment, on a chain without notaries; and the
    same header with a coinbase that pays a negative amount, which the toy hash
    does not tell apart. *)
Module Example_check.
Definition net : ChainParams := {|
  ASSETCHAINS_PRIVATE := 0; ASSETCHAINS_PUBLIC := 0; ASSETCHAINS_TXPOW := 0; isKMD := false; isZEX := false;
  tip_nTime := None; tip_nHeight := 4; isnotaryvout := fun _ _ => false |}.
Definition txenv : TxEnvironment := {|
  banned := fun _ => false; TxCheck.ASSETCHAINS_STAKED := 0; newStakerActive := fun _ => false;
  DecodeStakingOpRet := fun _ => false; VerifySprout := fun _ _ => true |}.
Definition rewards : SubsidyParams := {|
  ASSETCHAINS_LASTERA := 0; ASSETCHAINS_REWARD := fun _ => 0; ASSETCHAINS_ENDSUBSIDY := fun _ => 0;
  ASSETCHAINS_HALVING := fun _ => 0; ASSETCHAINS_DECAY := fun _ => 0; ASSETCHAINS_SUPPLY := 10;
  ASSETCHAINS_MAGIC := 0; Subsidy.ASSETCHAINS_STAKED := 0; ASSETCHAINS_COMMISSION := 0; ASSETCHAINS_GENESISTXVAL := 0;
  ASSETCHAINS_TIMEUNLOCKFROM := 0; ASSETCHAINS_TIMEUNLOCKTO := 0; is_STAKED := 0 |}.
Definition blockenv : BlockEnv := {|
  MAX_BLOCK_SIGOPS := 20000; KOMODO_EXTRASATOSHI := 0; ASSETCHAINS_CC := 0; ASSETCHAINS_FOUNDERS := 0;
  ASSETCHAINS_FOUNDERS_REWARD := 0; nScriptCheckThreads := 2; mapBlockIndex_nHeight := fun _ => None;
  ServerChecker := fun _ _ _ => BaseChecker; CheckEvalCondition := fun _ _ => false; komodo_checkPOW := fun _ => 0 |}.
Definition answers : NotaryAnswers := {|
  na_tiptime := 1600000000; na_currentheight := 4; na_special := 0; na_notaryid := -1; na_flag := 0; na_mids := repeat (-1) 66;
  na_blocktimes := repeat 0 66; na_special2 := -1 |}.
Definition checkenv : CheckEnv := {|
  GetTime := 1600000500; consensus := example_params; hashGenesisBlock := repeat 9 32; mapCheckpoints := [(0, repeat 9 32)];
  fCheckpointsEnabled := true; sapling_nActivationHeight := 3; KOMODO_REWIND := 0; ck_BLOCKTIME := 60; ck_ADAPTIVEPOW := 0;
  ck_ALGO := 0; ck_EQUIHASH := 0; ck_LOADINGBLOCKS := false; stack33 := repeat 0 33; vSolutionsFixActive := true; ck_supported_condition := fun _ => false;
  komodo_chosennotary := fun _ _ _ => -1; komodo_electednotary := fun _ _ => -1; komodo_notarizeddata := fun _ => (0, repeat 9 32);
  notary_answers := fun _ _ _ => answers; CheckEquihashSolution := fun _ => true; slow_checkPOW := fun _ _ => 0;
  banned_txids := []; GetTransaction := fun _ => None; komodo_checkcommission := fun _ _ => 0;
  GetBlockSubsidy_value := fun _ => 5000; ContextualCheckTransactions := fun _ _ => Ok tt |}.
#[export] Existing Instances toy_hashes toy_hashes_ok net txenv rewards blockenv checkenv.

Definition coinbase_at (n value : Z) : CTransaction :=
  mkTx false 1 0 [mkTxIn (mkOutPoint uint256_null UINT32_MAX) (push_int64 [] n ++ [0; 0]) UINT32_MAX]
    [mkTxOut value [81]] 0 0 0 [] [] [] uint256_null (repeat 0 64) (repeat 0 64).
Definition payment : CTransaction :=
  mkTx false 1 0 [mkTxIn (mkOutPoint (repeat 7 32) 1) [81; 82] UINT32_MAX]
    [mkTxOut 1000 [118; 169]] 0 0 0 [] [] [] uint256_null (repeat 0 64) (repeat 0 64).

Definition hashed (tx : CTransaction) : uint256 * CTransaction :=
  (match tx_GetHash tx with Ok h => h | _ => [] end, tx).
Definition body (value : Z) : list (uint256 * CTransaction) := [hashed (coinbase_at 5 value); hashed payment].
Definition head5 : CBlockHeader :=
  mkHeader 4 (repeat 0 32) (merkle_root (map fst (body 5000))) (repeat 0 32) 1600000400 537857807 (repeat 0 32) [].
Definition block5 (value : Z) : CBlock := mkBlock head5 (body value).

(** The block is accepted, also with the proof of work. *)
Example block5_accepted : CheckBlock 5 (Some 1600000000) (block5 5000) true true = (false, Ok tt).
Proof. vm_compute; reflexivity. Qed.

Lemma bytes_check l : forallb (fun b => (0 <=? b) && (b <? 256)) l = true -> bytes l.
Proof.
  rewrite forallb_forall; intros Hl; apply List.Forall_forall; intros x Hx.
  specialize (Hl x Hx); apply andb_prop in Hl as [?%Z.leb_le ?%Z.ltb_lt]; now split.
Qed.

(** A transaction of the oldest format with one input and one output. *)
Lemma simple_valid txid n script value out :
  is_blob 32 txid -> is_u32 n -> vector_valid script -> is_i64 value -> vector_valid out ->
  tx_valid new_tx (mkTx false 1 0 [mkTxIn (mkOutPoint txid n) script UINT32_MAX] [mkTxOut value out] 0 0 0 [] [] [] uint256_null
    (repeat 0 64) (repeat 0 64)).
Proof.
  intros Ht Hn Hs Hv Ho; split; try reflexivity.
  - cbn; unfold is_i32; lia.
  - split; [apply Forall_cons_2; [| apply Forall_nil_2] | unfold MAX_SIZE, zlen; cbn; lia].
    split; [split; assumption |]; split; [exact Hs | unfold is_u32, UINT32_MAX; cbn; lia].
  - split; [apply Forall_cons_2; [now split | apply Forall_nil_2] | unfold MAX_SIZE, zlen; cbn; lia].
  - cbn; unfold is_u32; lia.
Qed.

Lemma coinbase_valid n value : n ∈ [5; 6] -> is_i64 value -> tx_valid new_tx (coinbase_at n value).
Proof.
  intros Hn Hv; repeat (apply elem_of_cons in Hn as [-> | Hn]); [.. | now apply not_elem_of_nil in Hn];
    (apply simple_valid; try exact Hv; try (split; [apply bytes_check; vm_compute; reflexivity | vm_compute; reflexivity || discriminate]);
     unfold is_u32, UINT32_MAX; lia).
Qed.

Lemma payment_valid : tx_valid new_tx payment.
Proof.
  apply simple_valid; try (split; [apply bytes_check; vm_compute; reflexivity | vm_compute; reflexivity || discriminate]).
  - unfold is_u32; lia.
  - unfold is_i64; lia.
Qed.

Lemma hashed_ok tx : tx_valid new_tx tx -> tx_GetHash (hashed tx).2 = Ok (hashed tx).1.
Proof.
  intros Hv; destruct (codec_writes (c := CTransaction_op new_tx) tx Hv) as (out & Hp & _).
  unfold hashed, tx_GetHash, tx_Serialize; cbn [fst snd]; now rewrite Hp.
Qed.

Lemma hashes_ok5 value : is_i64 value -> hashes_ok (block5 value).
Proof.
  intros Hv; pose proof (coinbase_valid 5 value ltac:(repeat constructor) Hv); pose proof payment_valid.
  apply Forall_cons_2; [| apply Forall_cons_2; [| apply Forall_nil_2]]; (split; [assumption | now apply hashed_ok]).
Qed.
End Example_check.

(** A block whose coinbase pays a negative amount, and one with the same header
    and another coinbase, with the hash of the node. *)
Module Example_final.
#[local] Existing Instances node_hashes node_hashes_ok Example_check.net Example_check.txenv Example_check.rewards Example_check.blockenv Example_check.checkenv.
Definition hashed (tx : CTransaction) : uint256 * CTransaction := Eval cbv beta delta [tx_GetHash] in
  (match tx_GetHash tx with Ok h => h | _ => [] end, tx).
Definition body (value : Z) : list (uint256 * CTransaction) := [hashed (Example_check.coinbase_at 5 value); hashed Example_check.payment].
Definition head_final : CBlockHeader := Eval vm_compute in
  mkHeader 4 (repeat 0 32) (merkle_root (map fst (body (-1)))) (repeat 0 32) 1600000400 537857807 (repeat 0 32) [].
Definition block (value : Z) : CBlock := mkBlock head_final (body value).
Definition rejected (value : Z) := CheckBlock 5 (Some 1600000000) (block value) false true.

Lemma hashed_final tx : tx_valid new_tx tx -> tx_GetHash (hashed tx).2 = Ok (hashed tx).1.
Proof.
  intros Ht; destruct (codec_writes (c := CTransaction_op new_tx) tx Ht) as (out & Hp & _).
  unfold hashed, tx_GetHash, tx_Serialize; cbn [fst snd]; now rewrite Hp.
Qed.

Lemma hashes_ok_final value : is_i64 value -> hashes_ok (block value).
Proof.
  intros Hv; pose proof (Example_check.coinbase_valid 5 value ltac:(repeat constructor) Hv); pose proof Example_check.payment_valid.
  apply Forall_cons_2; [| apply Forall_cons_2; [| apply Forall_nil_2]]; (split; [assumption | now apply hashed_final]).
Qed.
End Example_final.

Lemma rejection_is_final_witness :
  Example_final.rejected (-1) = (false, Err (Rejected (DoS 100 "bad-txns-vout-negative") false)) /\
  Example_final.rejected 5000 <> (false, Ok tt).
Proof.
  assert (E : Example_final.rejected (-1) = (false, Err (Rejected (DoS 100 "bad-txns-vout-negative") false))) by (vm_compute; reflexivity).
  split; [exact E |].
  apply (rejection_is_final (H := node_hashes) (H0 := node_hashes_ok) (H3 := Example_check.net) (H4 := Example_check.txenv)
    (H5 := Example_check.rewards) (H6 := Example_check.blockenv) (H7 := Example_check.checkenv) 5 (Some 1600000000)
    (Example_final.block (-1)) (Example_final.block 5000) false false (DoS 100 "bad-txns-vout-negative")).
  - apply (collision_free_digests (H := node_hashes)); vm_compute; reflexivity.
  - now left.
  - reflexivity.
  - vm_compute; discriminate.
  - apply Example_final.hashes_ok_final; unfold is_i64; lia.
  - apply Example_final.hashes_ok_final; unfold is_i64; lia.
  - vm_compute; reflexivity.
  - exact E.
Defined.
