(* ===== verification/HeaderSpec.v ===== *)
(** * Times and heights along a chain

    The median time of a chain whose headers pass ContextualCheckBlockHeader
    never decreases, and every block is later than the median below it;
    coinbases of blocks that pass ContextualCheckBlock at different heights are
    different transactions. *)
From stdpp Require Import gmap strings.
From S2P Require Import Prelude Endian Hashing Merkle Hmac ScriptNum Script ArithUint256 Serialize Transaction TransactionSpec.
From S2P Require Import TxCheck TxCheckSpec BlockIndex BlockIndexSpec Chain Pow ChainState Interest Subsidy Connect BlockCheck BlockCheckSpec.

(** ** Counting *)

Abbreviation cnt f l := (length (List.filter f l)).

Lemma cnt_mono (f g : Z -> bool) l : (forall x, f x = true -> g x = true) -> (cnt f l <= cnt g l)%nat.
Proof.
  intros Hfg; induction l as [| x l IH]; cbn; [lia |]; specialize (Hfg x).
  destruct (f x); [rewrite Hfg by reflexivity; cbn; lia | destruct (g x); cbn; lia].
Qed.

Lemma cnt_split (f : Z -> bool) l : (cnt f l + cnt (fun x => negb (f x)) l = length l)%nat.
Proof. induction l as [| x l IH]; cbn; [reflexivity |]; destruct (f x); cbn; lia. Qed.

Lemma cnt_take (f : Z -> bool) j l : (cnt f (take j l) <= cnt f l <= cnt f (take j l) + (length l - j))%nat.
Proof.
  revert j; induction l as [| x l IH]; intros [| j]; cbn; try lia.
  - pose proof (filter_length_le' f l); destruct (f x); cbn; lia.
  - specialize (IH j); destruct (f x); cbn; lia.
Qed.

(** The element of rank [k]: at most [k] elements are below it, more than [k] are
    not above it. *)
Lemma rank_below l k : (k < length l)%nat -> (cnt (fun x => (x <? nth k (sort l) 0)%Z) l <= k)%nat.
Proof.
  intros Hk; rewrite <- (filter_length_perm _ _ _ (sort_perm l)).
  apply (sorted_rank (sort l) k 0 (sort_sorted l)); now rewrite (Permutation_length (sort_perm l)).
Qed.

Lemma rank_above l k : (k < length l)%nat -> (k < cnt (fun x => (x <=? nth k (sort l) 0)%Z) l)%nat.
Proof.
  intros Hk; pose proof (Permutation_length (sort_perm l)) as Hl.
  destruct (sorted_rank (sort l) k 0 (sort_sorted l) ltac:(lia)) as [_ H2].
  rewrite (filter_length_perm _ _ _ (sort_perm l)), Hl in H2.
  pose proof (cnt_split (fun x => (nth k (sort l) 0 <? x)%Z) l) as Hs.
  assert (cnt (fun x => negb (nth k (sort l) 0 <? x)%Z) l <= cnt (fun x => (x <=? nth k (sort l) 0)%Z) l)%nat; [| lia].
  apply cnt_mono; intros x Hx%negb_true_iff%Z.ltb_ge; now apply Z.leb_le.
Qed.

Lemma rank_ge l k (M : Z) : (k < length l)%nat -> (cnt (fun x => (x <? M)%Z) l <= k)%nat -> M <= nth k (sort l) 0.
Proof.
  intros Hk Hc; destruct (Z.le_gt_cases M (nth k (sort l) 0)) as [| Hlt]; [assumption | exfalso].
  pose proof (rank_above l k Hk); assert (cnt (fun x => (x <=? nth k (sort l) 0)%Z) l <= cnt (fun x => (x <? M)%Z) l)%nat; [| lia].
  apply cnt_mono; intros x Hx%Z.leb_le; apply Z.ltb_lt; lia.
Qed.

Lemma rank_le l k (t : Z) : (k < length l)%nat -> (k < cnt (fun x => (x <=? t)%Z) l)%nat -> nth k (sort l) 0 <= t.
Proof.
  intros Hk Hc; destruct (Z.le_gt_cases (nth k (sort l) 0) t) as [| Hlt]; [assumption | exfalso].
  pose proof (rank_below l k Hk); assert (cnt (fun x => (x <=? t)%Z) l <= cnt (fun x => (x <? nth k (sort l) 0)%Z) l)%nat; [| lia].
  apply cnt_mono; intros x Hx%Z.leb_le; apply Z.ltb_lt; lia.
Qed.

(** ** The median when a later block is added *)

Lemma median_step e chain : chain <> [] -> GetMedianTimePast chain < nTime e ->
  GetMedianTimePast chain <= GetMedianTimePast (e :: chain) <= nTime e.
Proof.
  intros Hne; unfold GetMedianTimePast, nMedianTimeSpan.
  change (take 11 (e :: chain)) with (e :: take 10 chain); cbn [map].
  set (w := map nTime (take 11 chain)); set (w' := nTime e :: map nTime (take 10 chain)).
  assert (Et : map nTime (take 10 chain) = take 10 w) by (unfold w; now rewrite firstn_map, firstn_firstn).
  assert (Hw : (0 < length w <= 11)%nat).
  { unfold w; rewrite length_map, length_take; destruct chain; [contradiction | cbn [length]; lia]. }
  assert (Hw' : length w' = S (Nat.min 10 (length w))) by (unfold w'; cbn [length]; now rewrite Et, length_take).
  set (k := (length w / 2)%nat); set (k' := (length w' / 2)%nat); set (M := nth k (sort w) 0); intros Ht.
  assert (Hk : (k < length w)%nat) by (unfold k; apply Nat.div_lt; lia).
  assert (Hk' : (k' < length w')%nat) by (unfold k'; apply Nat.div_lt; lia).
  assert (Hkk : (k <= k' /\ k' <= 5 /\ k' <= S k /\ (length w = 11 -> k' = k))%nat).
  { unfold k, k'; rewrite Hw'; revert Hw; generalize (length w); intros n Hn; do 12 (destruct n as [| n]; [cbn; lia |]); lia. }
  split.
  - apply rank_ge; [exact Hk' |]; unfold w'; cbn [List.filter]; rewrite Et.
    pose proof (rank_below w k Hk) as Hb; fold M in Hb; pose proof (cnt_take (fun x => (x <? M)%Z) 10 w).
    destruct (Z.ltb_spec (nTime e) M); [lia |]; lia.
  - apply rank_le; [exact Hk' |]; unfold w'; cbn [List.filter]; rewrite Et, Z.leb_refl; cbn [length].
    pose proof (rank_above w k Hk) as Ha; fold M in Ha.
    assert (cnt (fun x => (x <=? M)%Z) w <= cnt (fun x => (x <=? nTime e)%Z) w)%nat
      by (apply cnt_mono; intros x Hx%Z.leb_le; apply Z.leb_le; lia).
    pose proof (cnt_take (fun x => (x <=? nTime e)%Z) 10 w); lia.
Qed.

(** ** Chains of accepted headers *)

(** Chains that start at some block and grow by headers that pass
    ContextualCheckBlockHeader, each at its own time and state of the node. *)
Inductive header_chain `{HashFunctions} : list CBlockIndex -> Prop :=
| hc_first g : header_chain [g]
| hc_next (CP : ChainParams) (TE : TxEnvironment) (CE : CheckEnv) m active h hash e chain :
    header_chain chain -> GetSHA256DHash (E := unit) h = Ok hash -> hash <> hashGenesisBlock ->
    ContextualCheckBlockHeader m active h chain = Ok tt -> nTime e = hd_nTime h -> header_chain (e :: chain).

Lemma invalid_if_iff c code reason : invalid_if c code reason = Ok tt <-> c = false.
Proof. destruct c; cbn; split; easy. Qed.

Section Context.
Context `{HashFunctions, ChainParams, TxEnvironment, CheckEnv}.

Lemma header_time nHeight h chain prev :
  check_header_time nHeight h chain prev = Ok tt -> GetMedianTimePast chain <= nTime prev -> GetMedianTimePast chain < hd_nTime h.
Proof.
  unfold check_header_time; rewrite then_iff; intros [Ht _]; destruct (_ || _); apply invalid_if_iff, Z.leb_gt in Ht; lia.
Qed.

(** The time of an accepted header. *)
Lemma header_later m active h hash prev chain :
  GetSHA256DHash (E := unit) h = Ok hash -> hash <> hashGenesisBlock ->
  ContextualCheckBlockHeader m active h (prev :: chain) = Ok tt ->
  GetMedianTimePast (prev :: chain) <= nTime prev -> GetMedianTimePast (prev :: chain) < hd_nTime h.
Proof.
  unfold ContextualCheckBlockHeader; intros Hh Hg; apply (hash_any (E' := connect_error)) in Hh; rewrite Hh; cbn [mbind res_bind].
  rewrite bool_decide_eq_false_2 by exact Hg; cbv zeta; rewrite !then_iff; intros (_ & Ht & _) Hp; eapply header_time; eassumption.
Qed.
End Context.

Lemma header_chain_times `{HashFunctions} chain : header_chain chain ->
  exists tip below, chain = tip :: below /\ GetMedianTimePast chain <= nTime tip /\
    (below <> [] -> GetMedianTimePast below <= GetMedianTimePast chain /\ GetMedianTimePast below < nTime tip).
Proof.
  induction 1 as [g | CP TE CE m active h hash e chain Hc (tip & below & -> & Ht & _) Hh Hg Hk He].
  - exists g, []; split; [reflexivity |]; split; [cbn; lia | easy].
  - pose proof (header_later m active h hash tip below Hh Hg Hk Ht) as Hl; rewrite <- He in Hl.
    destruct (median_step e (tip :: below) ltac:(discriminate) Hl) as [H1 H2]; eauto 8.
Qed.

Lemma header_chain_drop `{HashFunctions} chain k : header_chain chain -> (k < length chain)%nat -> header_chain (drop k chain).
Proof.
  intros Hc; revert k; induction Hc as [g | CP TE CE m active h hash e chain Hc IH Hh Hg Hk He]; intros [| k] Hl; cbn in *.
  - constructor.
  - lia.
  - exact (hc_next CP TE CE m active h hash e chain Hc Hh Hg Hk He).
  - apply IH; lia.
Qed.

(** ** The height in the coinbase *)

(** The script that a coinbase at height [n] begins with. *)
Lemma expect_small n : 1 <= n <= 16 -> push_int64 [] n = [n + 80].
Proof.
  intros Hn; unfold push_int64; replace ((n =? -1) || ((1 <=? n) && (n <=? 16))) with true.
  - cbn [app]; rewrite uwrap_small; [f_equal; cbn; lia | cbn; lia].
  - symmetry; apply orb_true_intro; right; apply andb_true_intro; split; apply Z.leb_le; lia.
Qed.

Lemma expect_large n : 16 < n < 2 ^ 31 -> exists k, 1 <= k <= 4 /\ push_int64 [] n = k :: serialize n /\ zlen (serialize n) = k.
Proof.
  intros Hn; pose proof (zlen_serialize n 4 ltac:(lia) ltac:(rewrite Z.abs_eq by lia; lia)) as Hl.
  assert (Hp : 1 <= zlen (serialize n)).
  { destruct (serialize n) as [| x l] eqn:E; [| unfold zlen; cbn [length]; lia].
    pose proof (set_vch_serialize n ltac:(lia)) as Hs; rewrite E in Hs; cbn in Hs; lia. }
  exists (zlen (serialize n)); split; [lia |]; split; [| reflexivity]; unfold push_int64.
  destruct (Z.eqb_spec n (-1)); [lia |]; destruct (Z.leb_spec 1 n); [| lia]; destruct (Z.leb_spec n 16); [lia |]; cbn [andb orb].
  destruct (Z.eqb_spec n 0); [lia |]; unfold push_vch.
  change (OP_PUSHDATA1 : Z) with 76; destruct (Z.ltb_spec (zlen (serialize n)) 76); [| lia].
  cbn [app]; rewrite uwrap_small by lia; reflexivity.
Qed.

Definition begins_with (s expect : list Z) : Prop := take (length expect) s = expect.

(** No script begins with two heights. *)
Lemma height_prefix_unique s n1 n2 :
  0 < n1 < 2 ^ 31 -> 0 < n2 < 2 ^ 31 -> begins_with s (push_int64 [] n1) -> begins_with s (push_int64 [] n2) -> n1 = n2.
Proof.
  assert (Hmix : forall a b, 1 <= a <= 16 -> 16 < b < 2 ^ 31 -> begins_with s (push_int64 [] a) -> begins_with s (push_int64 [] b) -> False).
  { intros a b Ha Hb; destruct (expect_large b Hb) as (k & Hk & -> & _); rewrite (expect_small a Ha); unfold begins_with.
    destruct s as [| x s]; cbn; intros [= E1] [= E2 _]; lia. }
  intros H1 H2 B1 B2; destruct (Z.le_gt_cases n1 16), (Z.le_gt_cases n2 16); 
    try (exfalso; first [exact (Hmix n1 n2 ltac:(lia) ltac:(lia) B1 B2) | exact (Hmix n2 n1 ltac:(lia) ltac:(lia) B2 B1)]).
  - rewrite (expect_small n1) in B1 by lia; rewrite (expect_small n2) in B2 by lia; 
    unfold begins_with in *; destruct s; cbn in *; [discriminate |]; injection B1; injection B2; lia.
  - destruct (expect_large n1) as (k1 & _ & E1 & L1); [lia |]; destruct (expect_large n2) as (k2 & _ & E2 & L2); [lia |].
    rewrite E1 in B1; rewrite E2 in B2; unfold begins_with in *; destruct s as [| x s]; [discriminate |]; cbn [length take] in B1, B2.
    injection B1 as <- B1; injection B2 as <- B2; assert (El : length (serialize n1) = length (serialize n2)) by (unfold zlen in *; lia).
    rewrite El in B1; rewrite <- (set_vch_serialize n1), <- (set_vch_serialize n2) by lia; congruence.
Qed.

(** What an accepted coinbase begins with. *)
Lemma coinbase_begins `{HashFunctions} (P : ChainParams) (E : CheckEnv) m b prev chain id tx :
  ContextualCheckBlock m b (prev :: chain) = Ok tt -> 0 <= nHeight prev < 2 ^ 31 - 1 -> head (vtx b) = Some (id, tx) ->
  exists i rest, tx_vin tx = i :: rest /\ begins_with (scriptSig i) (push_int64 [] (nHeight prev + 1)).
Proof.
  unfold ContextualCheckBlock; cbv zeta; intros Hc Hh Hb; rewrite (swrap_small 32 (nHeight prev + 1)) in Hc by lia.
  apply bind_ok in Hc as (? & _ & Hc); apply bind_ok in Hc as (? & _ & Hc); rewrite !then_iff in Hc; destruct Hc as (_ & _ & Hc).
  unfold check_coinbase_height in Hc; destruct (Z.ltb_spec 0 (nHeight prev + 1)); [| lia].
  destruct (vtx b) as [| [id' tx'] r]; [discriminate |]; injection Hb as -> ->.
  destruct (tx_vin tx) as [| i rest]; [discriminate |]; exists i, rest; split; [reflexivity |].
  apply reject_block_iff, orb_false_iff in Hc as [_ Hc%negb_false_iff%bool_decide_eq_true]; exact Hc.
Qed.

(** ** Properties *)

(** C11: the median time never decreases.  Along a chain of headers each of which
    passed ContextualCheckBlockHeader on the one below, whichever of the two
    time rules was in force, the median time at every ancestor is at most the
    median time at the tip, which is at most the time of the tip; and the tip is
    later than the median time below every one of its ancestors. *)
Theorem median_time_monotone `{HashFunctions} (chain : list CBlockIndex) (tip : CBlockIndex) (k : nat) :
  header_chain chain -> head chain = Some tip -> (k < length chain)%nat ->
  GetMedianTimePast (drop k chain) <= GetMedianTimePast chain <= nTime tip /\
  ((0 < k)%nat -> GetMedianTimePast (drop k chain) < nTime tip).
Proof.
  intros Hc; revert tip; induction k as [| k IH]; intros tip Ht Hk.
  - destruct (header_chain_times chain Hc) as (tip' & below & -> & Hm & _); injection Ht as ->; rewrite drop_0; lia.
  - destruct (IH tip Ht ltac:(lia)) as [[H1 H2] H4].
    destruct (header_chain_times chain Hc) as (tip' & rest & -> & _ & Hr); injection Ht as ->.
    destruct (header_chain_times (drop k (tip :: rest))) as (u & below & E & _ & Hb); [apply header_chain_drop; [exact Hc | lia] |].
    assert (Eb : drop (S k) (tip :: rest) = below) by (rewrite <- Nat.add_1_r, <- drop_drop, E; reflexivity).
    assert (Hne : below <> []) by (rewrite <- Eb; intros En; apply (f_equal length) in En; rewrite length_drop in En; cbn [length] in *; lia).
    destruct (Hb Hne) as [H3 _]; rewrite Eb; split; [lia |]; intros _.
    destruct k as [| k].
    + rewrite drop_0 in E; injection E as <- <-; destruct (Hr Hne); lia.
    + specialize (H4 ltac:(lia)); lia.
Qed.

(** C12: coinbases at different heights are different transactions.  If
    ContextualCheckBlock accepts two blocks, at possibly different times and
    states of the node, whose heights differ, then the hashes of their coinbases
    differ, unless the encodings of these very coinbases are two byte strings with
    one double SHA-256 digest. *)
Theorem coinbase_hashes_differ `{LayoutOk, HashFunctions} (P1 P2 : ChainParams) (E1 E2 : CheckEnv)
    (m1 m2 : index_map) (b1 b2 : CBlock) (prev1 prev2 : CBlockIndex) (chain1 chain2 : list CBlockIndex)
    (id1 id2 : uint256) (tx1 tx2 : CTransaction) :
  ContextualCheckBlock (H2 := P1) (H6 := E1) m1 b1 (prev1 :: chain1) = Ok tt ->
  ContextualCheckBlock (H2 := P2) (H6 := E2) m2 b2 (prev2 :: chain2) = Ok tt ->
  0 <= nHeight prev1 < INT_MAX -> 0 <= nHeight prev2 < INT_MAX -> nHeight prev1 <> nHeight prev2 ->
  head (vtx b1) = Some (id1, tx1) -> head (vtx b2) = Some (id2, tx2) ->
  tx_valid new_tx tx1 -> tx_valid new_tx tx2 -> tx_GetHash tx1 = Ok id1 -> tx_GetHash tx2 = Ok id2 ->
  collision_free [tx_bytes tx1; tx_bytes tx2] ->
  id1 <> id2.
Proof.
  intros C1 C2 H1 H2 Hne B1 B2 V1 V2 T1 T2 Hf <-; unfold INT_MAX in *.
  assert (tx1 = tx2) as -> by (apply (txid_injective _ tx1 tx2 id1 Hf); try assumption; [now left | right; now left]).
  destruct (coinbase_begins P1 E1 m1 b1 prev1 chain1 id1 tx2 C1 H1 B1) as (i & r & Ei & S1).
  destruct (coinbase_begins P2 E2 m2 b2 prev2 chain2 id1 tx2 C2 H2 B2) as (i' & r' & Ei' & S2).
  rewrite Ei in Ei'; injection Ei' as <- <-; 
  pose proof (height_prefix_unique (scriptSig i) (nHeight prev1 + 1) (nHeight prev2 + 1) ltac:(lia) ltac:(lia) S1 S2); lia.
Qed.

(** ** Instances *)

Module Example_headers.
Export Example_check.
Definition entry (h time : Z) : CBlockIndex := {|
  blockHash := repeat (h + 20) 32; pprev := None; pskip := None; nHeight := h; nTime := time; nBits := 537858047;
  nChainWork := repeat 0 8; nStatus := 0; nTx := 1; nChainTx := 1; nSequenceId := 0 |}.
Definition child (time : Z) : CBlockHeader :=
  mkHeader 4 (repeat 1 32) (repeat 2 32) (repeat 0 32) time 537858047 (repeat 0 32) [].
Definition known : index_map := {[ 0%nat := entry 0 1600000000 ]}.

(** The fourth block is earlier than the third, and later than the median. *)
Definition chain : list CBlockIndex := [entry 3 1600000150; entry 2 1600000200; entry 1 1600000100; entry 0 1600000000].

Lemma chain_next e below : header_chain below ->
  ContextualCheckBlockHeader known [Some 0%nat] (child (nTime e)) below = Ok tt ->
  match GetSHA256DHash (E := unit) (child (nTime e)) with Ok h => bool_decide (h <> repeat 9 32) | _ => false end = true ->
  header_chain (e :: below).
Proof.
  intros Hb Hc; destruct (GetSHA256DHash (child (nTime e))) as [h | |] eqn:Eh; try discriminate; intros Hn%bool_decide_eq_true.
  exact (hc_next net txenv checkenv known [Some 0%nat] (child (nTime e)) h e below Hb Eh Hn Hc eq_refl).
Qed.

Lemma times_chain_ok : header_chain chain.
Proof. do 3 (apply chain_next; [| vm_compute; reflexivity | vm_compute; reflexivity]); constructor. Qed.

End Example_headers.

#[local] Existing Instances toy_hashes.

Lemma median_time_monotone_witness :
  GetMedianTimePast (drop 1 Example_headers.chain) = 1600000100 /\
  GetMedianTimePast (drop 1 Example_headers.chain) <= GetMedianTimePast Example_headers.chain <= 1600000150 /\
  GetMedianTimePast (drop 1 Example_headers.chain) < 1600000150.
Proof.
  split; [reflexivity |].
  destruct (median_time_monotone Example_headers.chain (Example_headers.entry 3 1600000150) 1
    Example_headers.times_chain_ok eq_refl ltac:(cbn; lia)) as [Hm Hl]; split; [exact Hm | apply Hl; lia].
Defined.

(** The two coinbases, with the hash of the node. *)
Definition coinbase_block (n : Z) : CBlock := mkBlock Example_check.head5 [Example_final.hashed (Example_check.coinbase_at n 5000)].

Lemma hashed_pair tx : Example_final.hashed tx = ((Example_final.hashed tx).1, tx).
Proof. reflexivity. Qed.

Lemma coinbase_block_head n :
  head (vtx (coinbase_block n)) = Some ((Example_final.hashed (Example_check.coinbase_at n 5000)).1, Example_check.coinbase_at n 5000).
Proof. exact (f_equal Some (hashed_pair (Example_check.coinbase_at n 5000))). Qed.

Lemma coinbase_hashes_differ_witness :
  let tx n := Example_check.coinbase_at n 5000 in
  (Example_final.hashed (tx 5)).1 <> (Example_final.hashed (tx 6)).1.
Proof.
  apply (coinbase_hashes_differ (H0 := node_hashes) Example_check.net Example_check.net Example_check.checkenv Example_check.checkenv
    Example_headers.known Example_headers.known (coinbase_block 5) (coinbase_block 6)
    (Example_headers.entry 4 1600000000) (Example_headers.entry 5 1600000000) [] []
    (Example_final.hashed (Example_check.coinbase_at 5 5000)).1 (Example_final.hashed (Example_check.coinbase_at 6 5000)).1
    (Example_check.coinbase_at 5 5000) (Example_check.coinbase_at 6 5000)).
  - vm_compute; reflexivity.
  - vm_compute; reflexivity.
  - cbn; unfold INT_MAX; lia.
  - cbn; unfold INT_MAX; lia.
  - discriminate.
  - apply coinbase_block_head.
  - apply coinbase_block_head.
  - apply Example_check.coinbase_valid; [repeat constructor | unfold is_i64; lia].
  - apply Example_check.coinbase_valid; [repeat constructor | unfold is_i64; lia].
  - apply Example_final.hashed_final, Example_check.coinbase_valid; [repeat constructor | unfold is_i64; lia].
  - apply Example_final.hashed_final, Example_check.coinbase_valid; [repeat constructor | unfold is_i64; lia].
  - apply (collision_free_digests (H := node_hashes)); vm_compute; reflexivity.
Defined.
