(* ===== verification/Bloom.v ===== *)
(** * Bloom filters

    bloom.h and bloom.cpp: the filters that light clients load, and the rolling
    filter; the filtered block (merkleblock.cpp); the filter of a peer, with the
    messages that change it and the places that use it (main.cpp, net.cpp).  The
    sizes that the constructors compute with floating-point logarithms are
    arguments. *)
From S2P Require Import Prelude Hashing Hmac Merkle ScriptNum Script Serialize Transaction Compressor Standard PartialMerkle BlockCheck.

Definition MAX_BLOOM_FILTER_SIZE : Z := 36000.
Definition MAX_HASH_FUNCS : Z := 50.

Definition BLOOM_UPDATE_NONE : Z := 0.
Definition BLOOM_UPDATE_ALL : Z := 1.
Definition BLOOM_UPDATE_P2PUBKEY_ONLY : Z := 2.
Definition BLOOM_UPDATE_MASK : Z := 3.

Record CBloomFilter := mkBloom {
  vData : list Z;
  isFull : bool;
  isEmpty : bool;
  nHashFuncs : Z;
  nTweak : Z;
  nFlags : Z;
}.

(** The constructors: [bits] and [funcs] are the truncated results of the
    formulas; the second one is that of the rolling filter, the third the default. *)
Definition CBloomFilter_new (bits funcs nTweakIn nFlagsIn : Z) : CBloomFilter :=
  mkBloom (repeat 0 (Z.to_nat (Z.min bits (MAX_BLOOM_FILTER_SIZE * 8) / 8))) false false (Z.min funcs MAX_HASH_FUNCS) nTweakIn nFlagsIn.

Definition CBloomFilter_rolling (bits funcs nTweakIn : Z) : CBloomFilter :=
  mkBloom (repeat 0 (Z.to_nat (bits / 8))) false true funcs nTweakIn BLOOM_UPDATE_NONE.

Definition CBloomFilter_default : CBloomFilter := mkBloom [] true false 0 0 0.

Definition CBloomFilter_op : codec CBloomFilter :=
  data ← READWRITE c_vector vData;
  funcs ← READWRITE c_uint32 nHashFuncs;
  tweak ← READWRITE c_uint32 nTweak;
  flags ← READWRITE c_uint8 nFlags;
  mret (mkBloom data true false funcs tweak flags).

Definition set_data (f : CBloomFilter) (data : list Z) (full empty : bool) : CBloomFilter :=
  mkBloom data full empty (nHashFuncs f) (nTweak f) (nFlags f).

(** ** Insertion and lookup *)

Definition bloom_Hash {E} (f : CBloomFilter) (nHashNum : Z) (vDataToHash : list Z) : res E Z :=
  let n := zlen (vData f) * 8 in
  if n =? 0 then Exn division_by_zero
  else Ok (MurmurHash3 (u32 (nHashNum * 0xFBA4C795 + nTweak f)) vDataToHash mod n).

(** [vData[nIndex >> 3]]. *)
Definition byte_of {E} (data : list Z) (nIndex : Z) : res E Z := index_ data (Z.shiftr nIndex 3).

Definition bit_mask (nIndex : Z) : Z := Z.shiftl 1 (Z.land 7 nIndex).

(** The loop from [i] on, [n] times. *)
Fixpoint insert_loop {E} (n : nat) (i : Z) (f : CBloomFilter) (vKey : list Z) : res E CBloomFilter :=
  match n with
  | O => Ok f
  | S n =>
      nIndex ← bloom_Hash f i vKey;
      b ← byte_of (vData f) nIndex;
      let data := <[Z.to_nat (Z.shiftr nIndex 3) := u8 (Z.lor b (bit_mask nIndex))]> (vData f) in
      insert_loop n (i + 1) (set_data f data (isFull f) (isEmpty f)) vKey
  end.

Definition insert {E} (f : CBloomFilter) (vKey : list Z) : res E CBloomFilter :=
  if isFull f then Ok f
  else f ← insert_loop (Z.to_nat (nHashFuncs f)) 0 f vKey; Ok (set_data f (vData f) (isFull f) false).

Fixpoint contains_loop {E} (n : nat) (i : Z) (f : CBloomFilter) (vKey : list Z) : res E bool :=
  match n with
  | O => Ok true
  | S n =>
      nIndex ← bloom_Hash f i vKey;
      b ← byte_of (vData f) nIndex;
      if Z.land b (bit_mask nIndex) =? 0 then Ok false else contains_loop n (i + 1) f vKey
  end.

Definition contains {E} (f : CBloomFilter) (vKey : list Z) : res E bool :=
  if isFull f then Ok true
  else if isEmpty f then Ok false
  else contains_loop (Z.to_nat (nHashFuncs f)) 0 f vKey.

(** [stream << outpoint]. *)
Definition insert_outpoint {E} (f : CBloomFilter) (o : COutPoint) : res E CBloomFilter :=
  data ← written COutPoint_op o; insert f data.
Definition contains_outpoint {E} (f : CBloomFilter) (o : COutPoint) : res E bool :=
  data ← written COutPoint_op o; contains f data.

Definition clear (f : CBloomFilter) : CBloomFilter := set_data f (repeat 0 (length (vData f))) false true.

Definition bloom_reset (f : CBloomFilter) (nNewTweak : Z) : CBloomFilter :=
  let f := clear f in mkBloom (vData f) (isFull f) (isEmpty f) (nHashFuncs f) nNewTweak (nFlags f).

Definition IsWithinSizeConstraints (f : CBloomFilter) : bool :=
  (zlen (vData f) <=? MAX_BLOOM_FILTER_SIZE) && (nHashFuncs f <=? MAX_HASH_FUNCS).

Definition UpdateEmptyFull (f : CBloomFilter) : CBloomFilter :=
  set_data f (vData f) (forallb (fun b => b =? 0xff) (vData f)) (forallb (fun b => b =? 0) (vData f)).

(** ** Relevant transactions *)

Section Relevant.
Context `{HashFunctions, StandardEnv}.

(** The first data element of a script that the filter contains. *)
Fixpoint script_matches {E} (fuel : nat) (f : CBloomFilter) (pc : list Z) : res E bool :=
  match fuel, pc with
  | S fuel, _ :: _ =>
      let r := GetOp2 pc in
      if go_ret r then
        found ← (if zlen (go_vch r) =? 0 then Ok false else contains f (go_vch r));
        if (found : bool) then Ok true else script_matches fuel f (go_pc r)
      else Ok false
  | _, _ => Ok false
  end.

(** What is added for a matched output. *)
Definition update_output {E} (f : CBloomFilter) (hash : uint256) (i : Z) (script : list Z) : res E CBloomFilter :=
  if Z.land (nFlags f) BLOOM_UPDATE_MASK =? BLOOM_UPDATE_ALL then insert_outpoint f (mkOutPoint hash i)
  else if Z.land (nFlags f) BLOOM_UPDATE_MASK =? BLOOM_UPDATE_P2PUBKEY_ONLY then
    '(solved, type, _) ← Solver TX_NONSTANDARD script;
    if solved && (bool_decide (type = TX_PUBKEY) || bool_decide (type = TX_MULTISIG)) then insert_outpoint f (mkOutPoint hash i)
    else Ok f
  else Ok f.

Fixpoint match_outputs {E} (f : CBloomFilter) (hash : uint256) (i : Z) (vout : list CTxOut) (fFound : bool) : res E (bool * CBloomFilter) :=
  match vout with
  | [] => Ok (fFound, f)
  | txout :: vout =>
      found ← script_matches (length (scriptPubKey txout)) f (scriptPubKey txout);
      if (found : bool) then f ← update_output f hash i (scriptPubKey txout); match_outputs f hash (i + 1) vout true
      else match_outputs f hash (i + 1) vout fFound
  end.

Fixpoint match_inputs {E} (f : CBloomFilter) (vin : list CTxIn) : res E bool :=
  match vin with
  | [] => Ok false
  | txin :: vin =>
      found ← contains_outpoint f (prevout txin);
      if (found : bool) then Ok true
      else
        found ← script_matches (length (scriptSig txin)) f (scriptSig txin);
        if (found : bool) then Ok true else match_inputs f vin
  end.

(** A transaction with its hash; the returned boolean and the filter. *)
Definition IsRelevantAndUpdate {E} (f : CBloomFilter) (tx : uint256 * CTransaction) : res E (bool * CBloomFilter) :=
  if isFull f then Ok (true, f)
  else if isEmpty f then Ok (false, f)
  else
    fFound ← contains f tx.1;
    '(fFound, f) ← match_outputs f tx.1 0 (tx_vout tx.2) fFound;
    if (fFound : bool) then Ok (true, f)
    else r ← match_inputs f (tx_vin tx.2); Ok (r, f).

(** ** Filtered blocks *)

Record CMerkleBlock := mkMerkleBlock {
  mb_header : CBlockHeader;
  mb_txn : CPartialMerkleTree;
  vMatchedTxn : list (Z * uint256);
}.

Fixpoint filter_txs {E} (f : CBloomFilter) (i : Z) (txs : list (uint256 * CTransaction)) : res E (list bool * list (Z * uint256) * CBloomFilter) :=
  match txs with
  | [] => Ok ([], [], f)
  | tx :: txs =>
      '(m, f) ← IsRelevantAndUpdate f tx;
      '(ms, matched, f) ← filter_txs f (i + 1) txs;
      Ok (m :: ms, (if (m : bool) then [(i, tx.1)] else []) ++ matched, f)
  end.

Definition CMerkleBlock_filter {E} (block : CBlock) (f : CBloomFilter) : res E (CMerkleBlock * CBloomFilter) :=
  '(vMatch, matched, f) ← filter_txs f 0 (vtx block);
  txn ← new_pmt (map fst (vtx block)) vMatch;
  Ok (mkMerkleBlock (header block) txn matched, f).

Definition CMerkleBlock_txids {E} (block : CBlock) (txids : list uint256) : res E CMerkleBlock :=
  txn ← new_pmt (map fst (vtx block)) (map (fun tx => bool_decide (tx.1 ∈ txids)) (vtx block));
  Ok (mkMerkleBlock (header block) txn []).
End Relevant.

(** ** The filter of a peer *)

(** The fields of [CNode] and [CNodeState] that the handlers use. *)
Record Peer := mkPeer {
  peer_nVersion : Z;
  pfilter : option CBloomFilter;
  fRelayTxes : bool;
  fDisconnect : bool;
  nMisbehavior : Z;
  fShouldBan : bool;
}.

Definition new_peer : Peer := mkPeer 0 (Some CBloomFilter_default) false false 0 false.

Definition set_filter (p : Peer) (f : CBloomFilter) : Peer :=
  mkPeer (peer_nVersion p) (Some f) (fRelayTxes p) (fDisconnect p) (nMisbehavior p) (fShouldBan p).
Definition set_relay (p : Peer) : Peer :=
  mkPeer (peer_nVersion p) (pfilter p) true (fDisconnect p) (nMisbehavior p) (fShouldBan p).
Definition set_disconnect (p : Peer) : Peer :=
  mkPeer (peer_nVersion p) (pfilter p) (fRelayTxes p) true (nMisbehavior p) (fShouldBan p).

(** The services and arguments of the node. *)
Class FilterEnv := {
  node_bloom : bool;
  enforcenodebloom : bool;
  banscore : Z;
}.

Section Peers.
Context `{HashFunctions, StandardEnv, FilterEnv}.

Definition Misbehaving (p : Peer) (howmuch : Z) : Peer :=
  if howmuch =? 0 then p
  else
    let n := i32 (nMisbehavior p + howmuch) in
    mkPeer (peer_nVersion p) (pfilter p) (fRelayTxes p) (fDisconnect p) n
      (fShouldBan p || ((banscore <=? n) && (i32 (n - howmuch) <? banscore))).

Inductive filter_message := FILTERLOAD | FILTERADD | FILTERCLEAR.

Definition filterload {E} (data : list Z) (p : Peer) : res E Peer :=
  match get CBloomFilter_op data with
  | Ok (filter, _) =>
      Ok (set_relay (if negb (IsWithinSizeConstraints filter) then Misbehaving p 100 else set_filter p (UpdateEmptyFull filter)))
  | Err _ => Exn ios_failure
  | Exn x => Exn x
  end.

Definition filteradd {E} (data : list Z) (p : Peer) : res E Peer :=
  match get c_vector data with
  | Ok (vData, _) =>
      if MAX_SCRIPT_ELEMENT_SIZE <? zlen vData then Ok (Misbehaving p 100)
      else match pfilter p with Some f => f ← insert f vData; Ok (set_filter p f) | None => Ok (Misbehaving p 100) end
  | Err _ => Exn ios_failure
  | Exn x => Exn x
  end.

Definition filterclear (p : Peer) : Peer :=
  set_relay (if node_bloom then set_filter p CBloomFilter_default else p).

Definition NO_BLOOM_VERSION : Z := 170004.

(** The branches of [ProcessMessage] for the three messages: what it returns, and
    the peer afterwards. *)
Definition filter_handler {E} (m : filter_message) (data : list Z) (p : Peer) : res E (bool * Peer) :=
  let handle := match m with FILTERLOAD => filterload data p | FILTERADD => filteradd data p | FILTERCLEAR => Ok (filterclear p) end in
  let done := p ← handle; Ok (true, p) in
  match m with
  | FILTERCLEAR => done
  | _ =>
      if negb node_bloom then
        if NO_BLOOM_VERSION <=? peer_nVersion p then Ok (false, Misbehaving p 100)
        else if enforcenodebloom then Ok (false, set_disconnect p)
        else Ok (true, p)
      else done
  end.

(** The answer to a request for a filtered block: the message merkleblock and the
    messages tx; [known] is [setInventoryKnown]. *)
Fixpoint push_matched {E} (known : uint256 -> bool) (txs : list (uint256 * CTransaction)) (matched : list (Z * uint256)) : res E (list (uint256 * CTransaction)) :=
  match matched with
  | [] => Ok []
  | (i, hash) :: matched =>
      if known hash then push_matched known txs matched
      else
        match txs !! Z.to_nat i with
        | Some tx => rest ← push_matched known txs matched; Ok (tx :: rest)
        | None => Exn oob_read
        end
  end.

Definition send_filtered_block {E} (known : uint256 -> bool) (block : CBlock) (p : Peer) : res E (option (CMerkleBlock * list (uint256 * CTransaction)) * Peer) :=
  match pfilter p with
  | Some f =>
      '(merkleBlock, f) ← CMerkleBlock_filter block f;
      txs ← push_matched known (vtx block) (vMatchedTxn merkleBlock);
      Ok (Some (merkleBlock, txs), set_filter p f)
  | None => Ok (None, p)
  end.

(** [RelayTransaction] for one peer: whether the inventory is pushed. *)
Definition relay_to {E} (tx : uint256 * CTransaction) (p : Peer) : res E (bool * Peer) :=
  if negb (fRelayTxes p) then Ok (false, p)
  else
    match pfilter p with
    | Some f => '(relevant, f) ← IsRelevantAndUpdate f tx; Ok (relevant, set_filter p f)
    | None => Ok (true, p)
    end.

(** The message mempool: the inventories that are pushed, at most [MAX_INV_SZ]
    transactions in each. *)
Definition MAX_INV_SZ : Z := 50000.

Fixpoint mempool_loop {E} (lookup : uint256 -> option CTransaction) (vtxid vInv : list uint256) (p : Peer) : res E (list (list uint256) * Peer) :=
  match vtxid with
  | [] => Ok (if 0 <? zlen vInv then [vInv] else [], p)
  | hash :: vtxid =>
      let push p :=
        let vInv := vInv ++ [hash] in
        if zlen vInv =? MAX_INV_SZ then '(sent, p) ← mempool_loop lookup vtxid [] p; Ok (vInv :: sent, p)
        else mempool_loop lookup vtxid vInv p in
      match pfilter p with
      | None => push p
      | Some f =>
          match lookup hash with
          | None => mempool_loop lookup vtxid vInv p
          | Some tx =>
              '(relevant, f) ← IsRelevantAndUpdate f (hash, tx);
              if negb relevant then mempool_loop lookup vtxid vInv (set_filter p f) else push (set_filter p f)
          end
      end
  end.
End Peers.

(** ** The rolling filter *)

Record CRollingBloomFilter := mkRolling {
  nBloomSize : Z;
  nInsertions : Z;
  b1 : CBloomFilter;
  b2 : CBloomFilter;
}.

(** [nNewTweak] is the random number. *)
Definition rolling_reset (r : CRollingBloomFilter) (nNewTweak : Z) : CRollingBloomFilter :=
  mkRolling (nBloomSize r) 0 (bloom_reset (b1 r) nNewTweak) (bloom_reset (b2 r) nNewTweak).

Definition CRollingBloomFilter_new (nElements bits funcs nNewTweak : Z) : CRollingBloomFilter :=
  let b := CBloomFilter_rolling bits funcs 0 in
  rolling_reset (mkRolling (u32 (nElements * 2)) 0 b b) nNewTweak.

Definition rolling_insert {E} (r : CRollingBloomFilter) (vKey : list Z) : res E CRollingBloomFilter :=
  let c1 := if nInsertions r =? 0 then clear (b1 r) else b1 r in
  let c2 := if nInsertions r =? 0 then b2 r else if nInsertions r =? nBloomSize r / 2 then clear (b2 r) else b2 r in
  c1 ← insert c1 vKey;
  c2 ← insert c2 vKey;
  let n := u32 (nInsertions r + 1) in
  Ok (mkRolling (nBloomSize r) (if n =? nBloomSize r then 0 else n) c1 c2).

Definition rolling_contains {E} (r : CRollingBloomFilter) (vKey : list Z) : res E bool :=
  if nInsertions r <? nBloomSize r / 2 then contains (b2 r) vKey else contains (b1 r) vKey.
