(* ===== verification/BloomSpec.v ===== *)
(** * Bloom filters: theorems

    What was inserted is found, in filters that peers load as in the rolling
    filter, and no operation reads outside the filter or divides by its size when
    that is zero; a client that loads a filter receives every transaction that
    touches it. *)
From stdpp Require Import relations.
From S2P Require Import Prelude Hashing Hmac Merkle ScriptNum Script Serialize Transaction TransactionSpec Interpreter InterpreterSpec Compressor Standard StandardSpec.
From S2P Require Import PartialMerkle PartialMerkleSpec BlockCheck Bloom.

(** ** Bits *)

Definition has_bit (data : list Z) (nIndex : Z) : Prop :=
  exists b, data !! Z.to_nat (Z.shiftr nIndex 3) = Some b /\ Z.testbit b (Z.land 7 nIndex) = true.

Lemma bit_position nIndex : 0 <= nIndex -> 0 <= Z.land 7 nIndex < 8.
Proof.
  intros Hn; rewrite Z.land_comm; change 7 with (Z.ones 3); rewrite Z.land_ones by lia; apply Z.mod_pos_bound; lia.
Qed.

Lemma bit_mask_pow nIndex : 0 <= nIndex -> bit_mask nIndex = 2 ^ Z.land 7 nIndex.
Proof. intros Hn; unfold bit_mask; rewrite Z.shiftl_1_l; reflexivity. Qed.

Lemma mask_test b nIndex : 0 <= nIndex -> (Z.land b (bit_mask nIndex) =? 0) = negb (Z.testbit b (Z.land 7 nIndex)).
Proof. intros Hn; rewrite bit_mask_pow by exact Hn; apply land_pow2_eqb; apply (bit_position nIndex Hn). Qed.

Lemma mask_set b nIndex k : 0 <= nIndex -> 0 <= k < 8 ->
  Z.testbit (u8 (Z.lor b (bit_mask nIndex))) k = Z.testbit b k || (k =? Z.land 7 nIndex).
Proof.
  intros Hn Hk; unfold uwrap; rewrite Z.mod_pow2_bits_low, Z.lor_spec, bit_mask_pow by lia.
  rewrite Z.pow2_bits_eqb by (apply (bit_position nIndex Hn)); f_equal; apply Z.eqb_sym.
Qed.

(** ** Well-formed filters *)

(** The hash functions are only used when there is a bit to choose. *)
Record bloom_ok (f : CBloomFilter) : Prop := {
  bo_funcs : 0 <= nHashFuncs f;
  bo_size : isFull f = true \/ nHashFuncs f = 0 \/ vData f <> [];
}.

Definition index_of (f : CBloomFilter) (i : Z) (key : list Z) : Z :=
  MurmurHash3 (u32 (i * 0xFBA4C795 + nTweak f)) key mod (zlen (vData f) * 8).

(** The filter contains the key, as far as it can tell. *)
Definition holds (f : CBloomFilter) (key : list Z) : Prop :=
  isFull f = true \/ (isEmpty f = false /\ forall i, 0 <= i < nHashFuncs f -> has_bit (vData f) (index_of f i key)).

Lemma index_range f i key : vData f <> [] -> 0 <= index_of f i key /\ (Z.to_nat (Z.shiftr (index_of f i key) 3) < length (vData f))%nat.
Proof.
  intros Hne; assert (Hp : 0 < zlen (vData f)) by (destruct (vData f); [congruence | unfold zlen; cbn; lia]).
  pose proof (Z.mod_pos_bound (MurmurHash3 (u32 (i * 0xFBA4C795 + nTweak f)) key) (zlen (vData f) * 8) ltac:(lia)) as Hr.
  unfold index_of; split; [lia |]; rewrite Z.shiftr_div_pow2 by lia; change (2 ^ 3) with 8.
  pose proof (Z.div_lt_upper_bound (MurmurHash3 (u32 (i * 0xFBA4C795 + nTweak f)) key mod (zlen (vData f) * 8)) 8 (zlen (vData f)) ltac:(lia) ltac:(lia)) as Hd.
  unfold zlen in *; pose proof (Z.div_pos (MurmurHash3 (u32 (i * 0xFBA4C795 + nTweak f)) key mod (Z.of_nat (length (vData f)) * 8)) 8 ltac:(lia) ltac:(lia)); lia.
Qed.

Lemma bloom_Hash_ok {E} f i key : vData f <> [] -> bloom_Hash (E := E) f i key = Ok (index_of f i key).
Proof.
  intros Hne; unfold bloom_Hash; rewrite (proj2 (Z.eqb_neq _ 0)); [reflexivity |]; destruct (vData f); [congruence | unfold zlen; cbn; lia].
Qed.

Lemma byte_of_ok {E} f i key : vData f <> [] ->
  exists b, vData f !! Z.to_nat (Z.shiftr (index_of f i key) 3) = Some b /\ byte_of (E := E) (vData f) (index_of f i key) = Ok b.
Proof.
  intros Hne; destruct (index_range f i key Hne) as [_ Hr]; apply lookup_lt_is_Some_2 in Hr as [b Hb].
  exists b; split; [exact Hb |]; unfold byte_of, index_; now rewrite Hb.
Qed.

(** Two filters of the same shape. *)
Definition same_shape (f f' : CBloomFilter) : Prop :=
  length (vData f') = length (vData f) /\ nHashFuncs f' = nHashFuncs f /\ nTweak f' = nTweak f /\ nFlags f' = nFlags f /\ isFull f' = isFull f.

#[global] Instance same_shape_equivalence : Equivalence same_shape.
Proof. split; [now intros f | intros f g (? & ? & ? & ? & ?); repeat split; congruence | intros f g h (? & ? & ? & ? & ?) (? & ? & ? & ? & ?); repeat split; congruence]. Qed.

Lemma index_same f f' i key : same_shape f f' -> index_of f' i key = index_of f i key.
Proof. intros (El & _ & Et & _); unfold index_of, zlen; now rewrite El, Et. Qed.

(** ** Lookup *)

Lemma contains_loop_ok {E} f key : vData f <> [] -> forall n i, 0 <= i ->
  exists r, contains_loop (E := E) n i f key = Ok r /\
    (r = true <-> forall j, i <= j < i + Z.of_nat n -> has_bit (vData f) (index_of f j key)).
Proof.
  intros Hne; induction n as [| n IH]; intros i Hi; cbn [contains_loop]; [exists true; split; [reflexivity |]; split; [lia | reflexivity] |].
  rewrite (bloom_Hash_ok f i key Hne); cbn [mbind res_bind]; destruct (byte_of_ok (E := E) f i key Hne) as (b & Hb & ->); cbn [mbind res_bind].
  destruct (index_range f i key Hne) as [H0 _]; rewrite mask_test by exact H0; destruct (Z.testbit b _) eqn:Et; cbn [negb].
  - destruct (IH (i + 1) ltac:(lia)) as (r & -> & Hr); exists r; split; [reflexivity |]; rewrite Hr; split; intros Hall j Hj.
    + destruct (decide (j = i)) as [-> |]; [exists b; auto | apply Hall; lia].
    + apply Hall; lia.
  - exists false; split; [reflexivity |]; split; [discriminate |]; intros Hall; destruct (Hall i ltac:(lia)) as (b' & Hb' & Ht); congruence.
Qed.

Lemma contains_ok {E} f key : bloom_ok f -> exists r, contains (E := E) f key = Ok r /\ (r = true <-> holds f key).
Proof.
  intros [Hf Hs]; unfold contains, holds; destruct (isFull f) eqn:Ef; [exists true; split; [reflexivity | tauto] |].
  destruct (isEmpty f) eqn:Ee; [exists false; split; [reflexivity |]; split; [discriminate | intros [|[]]; discriminate] |].
  destruct Hs as [Hs | [Hs | Hs]]; [discriminate | |].
  - rewrite Hs; exists true; split; [reflexivity |]; split; [intros _; right; split; [reflexivity | lia] | reflexivity].
  - destruct (contains_loop_ok (E := E) f key Hs (Z.to_nat (nHashFuncs f)) 0 ltac:(lia)) as (r & -> & Hr); exists r; split; [reflexivity |].
    rewrite Hr; split; [intros Hall; right; split; [reflexivity |]; intros i Hi; apply Hall; lia |].
    intros [|[_ Hall]] j Hj; [discriminate | apply Hall; lia].
Qed.

(** ** Insertion *)

Lemma has_bit_set data n m : 0 <= n -> 0 <= m -> forall b, data !! Z.to_nat (Z.shiftr n 3) = Some b ->
  (m = n \/ has_bit data m) -> has_bit (<[Z.to_nat (Z.shiftr n 3) := u8 (Z.lor b (bit_mask n))]> data) m.
Proof.
  intros Hn Hm b Hb Hor; pose proof (bit_position n Hn) as Pn; pose proof (bit_position m Hm) as Pm; unfold has_bit.
  destruct (decide (Z.to_nat (Z.shiftr m 3) = Z.to_nat (Z.shiftr n 3))) as [E | E].
  - rewrite E, list_lookup_insert_eq by (now apply lookup_lt_Some in Hb); eexists; split; [reflexivity |]; rewrite mask_set by assumption.
    destruct Hor as [-> | (b' & Hb' & Ht)]; [now rewrite Z.eqb_refl, orb_true_r | rewrite E in Hb'; assert (b' = b) as -> by congruence; now rewrite Ht].
  - rewrite list_lookup_insert_ne by congruence; destruct Hor as [-> | Hor]; [congruence | exact Hor].
Qed.

Lemma insert_loop_ok {E} key n : forall f i, vData f <> [] -> 0 <= i ->
  exists f', insert_loop (E := E) n i f key = Ok f' /\ same_shape f f' /\ isEmpty f' = isEmpty f /\
    (forall j, 0 <= j -> has_bit (vData f) j -> has_bit (vData f') j) /\
    (forall j, i <= j < i + Z.of_nat n -> has_bit (vData f') (index_of f j key)).
Proof.
  induction n as [| n IH]; intros f i Hne Hi; cbn [insert_loop].
  { exists f; split; [reflexivity |]; split; [reflexivity |]; split; [reflexivity |]; split; [auto | lia]. }
  rewrite (bloom_Hash_ok f i key Hne); cbn [mbind res_bind]; destruct (byte_of_ok (E := E) f i key Hne) as (b & Hb & ->); cbn [mbind res_bind].
  set (f1 := set_data f _ _ _); destruct (index_range f i key Hne) as [H0 _].
  assert (S1 : same_shape f f1) by (repeat split; cbn; now rewrite length_insert).
  assert (Hne1 : vData f1 <> []) by (intros En; apply (f_equal length) in En; rewrite (proj1 S1) in En; destruct (vData f); [congruence | discriminate]).
  destruct (IH f1 (i + 1) Hne1 ltac:(lia)) as (f' & -> & S' & Ee & Hmono & Hnew).
  exists f'; split; [reflexivity |]; split; [now transitivity f1 |]; split; [exact Ee |]; split.
  - intros j Hj Hbit; apply Hmono, has_bit_set; auto.
  - intros j Hj; destruct (decide (j = i)) as [-> |].
    + apply Hmono, has_bit_set; auto.
    + rewrite <- (index_same f f1) by exact S1; apply Hnew; lia.
Qed.

(** What insertion promises. *)
Record inserted (f f' : CBloomFilter) (keys : list (list Z)) : Prop := {
  in_ok : bloom_ok f';
  in_shape : same_shape f f';
  in_new : forall k, k ∈ keys -> holds f' k;
  in_old : forall k, holds f k -> holds f' k;
  in_some : isEmpty f = false -> isEmpty f' = false;
}.

Lemma inserted_refl f : bloom_ok f -> inserted f f [].
Proof. intros Hf; split; auto; [reflexivity |]; intros k Hk; now apply not_elem_of_nil in Hk. Qed.

Lemma inserted_trans f g h ks ks' : inserted f g ks -> inserted g h ks' -> inserted f h (ks ++ ks').
Proof.
  intros [O1 S1 N1 P1 E1] [O2 S2 N2 P2 E2]; split; auto; [now transitivity g |].
  intros k [Hk | Hk]%elem_of_app; auto.
Qed.

Lemma insert_ok {E} f key : bloom_ok f -> exists f', insert (E := E) f key = Ok f' /\ inserted f f' [key].
Proof.
  intros Hok; pose proof Hok as [Hf Hs]; unfold insert; destruct (isFull f) eqn:Ef.
  { exists f; split; [reflexivity |]; split; auto; [reflexivity |]; intros k _; now left. }
  assert (Hl : exists f', insert_loop (E := E) (Z.to_nat (nHashFuncs f)) 0 f key = Ok f' /\ same_shape f f' /\
    (forall j, 0 <= j -> has_bit (vData f) j -> has_bit (vData f') j) /\
    (forall j, 0 <= j < nHashFuncs f -> has_bit (vData f') (index_of f j key))).
  { destruct Hs as [Hs | [Hs | Hs]]; [discriminate | |].
    - rewrite Hs; exists f; split; [reflexivity |]; split; [reflexivity |]; split; [auto | lia].
    - destruct (insert_loop_ok (E := E) key (Z.to_nat (nHashFuncs f)) f 0 Hs ltac:(lia)) as (f' & E1 & S & _ & Hm & Hn).
      exists f'; split; [exact E1 |]; split; [exact S |]; split; [exact Hm |]; intros j Hj; apply Hn; lia. }
  destruct Hl as (f' & -> & S & Hm & Hn); cbn [mbind res_bind]; set (g := set_data f' _ _ _); exists g; split; [reflexivity |].
  assert (Sg : same_shape f g) by (destruct S as (? & ? & ? & ? & ?); repeat split; assumption).
  destruct Sg as (El & Eh & Et & Efl & Efu); assert (Ei : forall i k, index_of g i k = index_of f i k) by (intros; now apply index_same).
  split; [| repeat split; assumption | | | reflexivity].
  - split; [congruence |]; destruct Hs as [Hs | [Hs | Hs]]; [congruence | right; left; congruence | right; right].
    intros En; rewrite En in El; destruct (vData f); [congruence | discriminate].
  - intros k ->%list_elem_of_singleton; right; split; [reflexivity |]; intros i Hi; rewrite Ei; apply Hn; congruence.
  - intros k [Hk | [_ Hk]]; [left; congruence | right]; split; [reflexivity |]; intros i Hi; rewrite Ei; rewrite Eh in Hi; apply Hm; [| auto].
    destruct (Hk i Hi) as (x & Hx & _); apply index_range; intros En; rewrite En in Hx; discriminate.
Qed.

Fixpoint insert_all {E} (f : CBloomFilter) (keys : list (list Z)) : res E CBloomFilter :=
  match keys with [] => Ok f | k :: keys => f ← insert f k; insert_all f keys end.

Lemma insert_all_ok {E} keys : forall f, bloom_ok f -> exists f', insert_all (E := E) f keys = Ok f' /\ inserted f f' keys.
Proof.
  induction keys as [| k keys IH]; intros f Hf; cbn [insert_all]; [exists f; auto using inserted_refl |].
  destruct (insert_ok (E := E) f k Hf) as (f1 & -> & I1); cbn [mbind res_bind].
  destruct (IH f1 (in_ok _ _ _ I1)) as (f' & E' & I2); exists f'; split; [exact E' | exact (inserted_trans f f1 f' [k] keys I1 I2)].
Qed.

Lemma contains_holds {E} f k : bloom_ok f -> contains (E := E) f k = Ok true <-> holds f k.
Proof. intros Hf; destruct (contains_ok (E := E) f k Hf) as (r & -> & Hr); rewrite <- Hr; split; [now intros [= ->] | now intros ->]. Qed.

(** The wire format.  What is read has the flags of the default constructor. *)
Definition filter_valid (f : CBloomFilter) : Prop :=
  vector_valid (vData f) /\ is_u32 (nHashFuncs f) /\ is_u32 (nTweak f) /\ is_byte (nFlags f) /\ isFull f = true /\ isEmpty f = false.

#[global] Instance Codec_CBloomFilter : Codec filter_valid CBloomFilter_op.
Proof.
  split; unfold CBloomFilter_op, filter_valid; [| codec_reads_record].
  intros [data full empty funcs tweak flags] (? & ? & ? & ? & Ef & Ee); cbn in Ef, Ee; subst full empty; writes_steps; apply writes_ret.
Qed.

(** A filter that a peer loads can be used. *)
Lemma loaded_ok data f rest : bytes data -> get CBloomFilter_op data = Ok (f, rest) -> bloom_ok (UpdateEmptyFull f).
Proof.
  intros Hb Eg; destruct (codec_reads (Codec := Codec_CBloomFilter) data f rest Hb Eg) as [(_ & Hf & _) _].
  split; cbn; [apply Hf |]; destruct (vData f); [left; reflexivity | right; right; discriminate].
Qed.

(** ** The rolling filter *)

Definition holds_all (f : CBloomFilter) (keys : list (list Z)) : Prop := forall k, k ∈ keys -> holds f k.

Lemma clear_ok f : bloom_ok f -> vData f <> [] -> bloom_ok (clear f) /\ vData (clear f) <> [].
Proof.
  intros [Hf _] Hne; assert (Hc : vData (clear f) <> []) by (cbn; destruct (vData f); [congruence | discriminate]).
  split; [split; [exact Hf | right; right; exact Hc] | exact Hc].
Qed.

(** [recent] are the inserted keys, the last one first. *)
Record rolling_inv (N : nat) (r : CRollingBloomFilter) (recent : list (list Z)) : Prop := {
  ri_size : nBloomSize r = 2 * Z.of_nat N;
  ri_count : 0 <= nInsertions r < 2 * Z.of_nat N;
  ri_b1 : bloom_ok (b1 r) /\ vData (b1 r) <> [];
  ri_b2 : bloom_ok (b2 r) /\ vData (b2 r) <> [];
  ri_first : holds_all (b1 r) (take (Z.to_nat (nInsertions r)) recent);
  ri_second : holds_all (b2 r) (take (if nInsertions r <=? Z.of_nat N then Z.to_nat (nInsertions r) + N else Z.to_nat (nInsertions r) - N) recent);
}.

(** One filter, cleared or not, gets the new key. *)
Lemma insert_recent {E} f key recent n (cleared : bool) :
  bloom_ok f -> vData f <> [] -> (cleared = false -> holds_all f (take n recent)) ->
  exists f', insert (E := E) (if cleared then clear f else f) key = Ok f' /\ bloom_ok f' /\ vData f' <> [] /\
    holds_all f' (if cleared then [key] else key :: take n recent).
Proof.
  intros Hf Hne Hh; set (g := if cleared then clear f else f).
  assert (Hg : bloom_ok g /\ vData g <> []) by (subst g; destruct cleared; [now apply clear_ok | auto]); destruct Hg as [Hg Hgn].
  destruct (insert_ok (E := E) g key Hg) as (f' & -> & I); exists f'; split; [reflexivity |]; split; [apply I |]; split.
  - destruct (in_shape _ _ _ I) as (El & _); intros En; rewrite En in El; destruct (vData g); [congruence | discriminate].
  - subst g; destruct cleared; intros k; [apply (in_new _ _ _ I) |]; intros [-> | Hk]%elem_of_cons; [apply (in_new _ _ _ I); now left |].
    apply (in_old _ _ _ I), Hh; auto.
Qed.

Lemma holds_all_take f n m (l : list (list Z)) : (n <= m)%nat -> holds_all f (take m l) -> holds_all f (take n l).
Proof.
  intros Hnm Hh k Hk; apply Hh; rewrite <- (take_drop n (take m l)), take_take, Nat.min_l by exact Hnm; apply elem_of_app; now left.
Qed.

Lemma rolling_insert_ok {E} N r recent key : (0 < N)%nat -> 2 * Z.of_nat N < 2 ^ 32 -> rolling_inv N r recent ->
  exists r', rolling_insert (E := E) r key = Ok r' /\ rolling_inv N r' (key :: recent).
Proof.
  intros HN HN2 [Hs Hc [O1 V1] [O2 V2] F Sc]; unfold rolling_insert; set (n := nInsertions r) in *.
  assert (Hhalf : nBloomSize r / 2 = Z.of_nat N) by (rewrite Hs, Z.mul_comm; apply Z.div_mul; lia); rewrite Hhalf.
  destruct (insert_recent (E := E) (b1 r) key recent (Z.to_nat n) (n =? 0) O1 V1) as (c1 & E1 & O1' & V1' & F'); [auto |].
  destruct (insert_recent (E := E) (b2 r) key recent (if n <=? Z.of_nat N then Z.to_nat n + N else Z.to_nat n - N) (negb (n =? 0) && (n =? Z.of_nat N)) O2 V2)
    as (c2 & E2 & O2' & V2' & S'); [auto |].
  replace (if n =? 0 then b2 r else if n =? Z.of_nat N then clear (b2 r) else b2 r)
    with (if negb (n =? 0) && (n =? Z.of_nat N) then clear (b2 r) else b2 r) by (destruct (n =? 0), (n =? Z.of_nat N); reflexivity).
  rewrite E1; cbn [mbind res_bind]; rewrite E2; cbn [mbind res_bind]; rewrite uwrap_small by lia; rewrite Hs.
  eexists; split; [reflexivity |]; split; cbn [nBloomSize nInsertions b1 b2]; auto.
  - destruct (Z.eqb_spec (n + 1) (2 * Z.of_nat N)); lia.
  - destruct (Z.eqb_spec (n + 1) (2 * Z.of_nat N)); [intros k Hk; now apply not_elem_of_nil in Hk |].
    replace (Z.to_nat (n + 1)) with (S (Z.to_nat n)) by lia; cbn [take]; destruct (Z.eqb_spec n 0) as [E0 |]; [rewrite E0; exact F' | exact F'].
  - destruct (Z.eqb_spec n 0) as [E0 | E0]; [| destruct (Z.eqb_spec n (Z.of_nat N)) as [EN | EN]]; cbn [negb andb] in S'.
    + rewrite E0 in *; rewrite (proj2 (Z.eqb_neq _ _)), (proj2 (Z.leb_le _ _)) by lia.
      rewrite (proj2 (Z.leb_le 0 _)) in S' by lia; exact S'.
    + destruct (Z.eqb_spec (n + 1) (2 * Z.of_nat N)) as [E1' | E1'].
      * rewrite (proj2 (Z.leb_le 0 _)) by lia; assert (N = 1%nat) as -> by lia; exact S'.
      * rewrite (proj2 (Z.leb_gt _ _)) by lia; replace (Z.to_nat (n + 1) - N)%nat with 1%nat by lia; exact S'.
    + destruct (Z.eqb_spec (n + 1) (2 * Z.of_nat N)) as [E1' | E1'].
      * rewrite (proj2 (Z.leb_le 0 _)) by lia; rewrite (proj2 (Z.leb_gt _ _)) in S' by lia.
        replace (Z.to_nat 0 + N)%nat with (S (Z.to_nat n - N)) by lia; exact S'.
      * destruct (Z.leb_spec n (Z.of_nat N)) as [Hle | Hgt].
        -- rewrite (proj2 (Z.leb_le (n + 1) _)) by lia; replace (Z.to_nat (n + 1) + N)%nat with (S (Z.to_nat n + N)) by lia; exact S'.
        -- rewrite (proj2 (Z.leb_gt (n + 1) _)) by lia; replace (Z.to_nat (n + 1) - N)%nat with (S (Z.to_nat n - N)) by lia; exact S'.
Qed.

Fixpoint rolling_insert_all {E} (r : CRollingBloomFilter) (keys : list (list Z)) : res E CRollingBloomFilter :=
  match keys with [] => Ok r | k :: keys => r ← rolling_insert r k; rolling_insert_all r keys end.

Lemma rolling_insert_all_ok {E} N keys : (0 < N)%nat -> 2 * Z.of_nat N < 2 ^ 32 -> forall r recent, rolling_inv N r recent ->
  exists r', rolling_insert_all (E := E) r keys = Ok r' /\ rolling_inv N r' (rev keys ++ recent).
Proof.
  intros HN HN2; induction keys as [| k keys IH]; intros r recent I; cbn [rolling_insert_all]; [exists r; auto |].
  destruct (rolling_insert_ok (E := E) N r recent k HN HN2 I) as (r1 & -> & I1); cbn [mbind res_bind].
  destruct (IH r1 _ I1) as (r' & E' & I'); exists r'; split; [exact E' |]; cbn [rev]; now rewrite <- app_assoc.
Qed.

Lemma rolling_new_inv N bits funcs tweak : (0 < N)%nat -> 2 * Z.of_nat N < 2 ^ 32 -> 8 <= bits -> 0 <= funcs ->
  rolling_inv N (CRollingBloomFilter_new (Z.of_nat N) bits funcs tweak) [].
Proof.
  intros HN HN2 Hb Hf; assert (Hne : repeat 0 (length (repeat 0 (Z.to_nat (bits / 8)))) <> []).
  { assert (0 < bits / 8) by (apply Z.div_str_pos; lia); rewrite repeat_length; destruct (Z.to_nat (bits / 8)) eqn:E; [lia | discriminate]. }
  split; cbn; try (split; [split; [exact Hf | right; right; exact Hne] | exact Hne]); try lia.
  - rewrite uwrap_small; lia.
  - intros k Hk; now apply not_elem_of_nil in Hk.
  - intros k Hk; rewrite take_nil in Hk; now apply not_elem_of_nil in Hk.
Qed.

(** The rolling filter remembers.  After any sequence of insertions into a new
    filter for [N] elements, none of which fails, each of the last [N] inserted
    elements is found, however often the two filters behind it were cleared. *)
Theorem rolling_remembers (N : nat) (bits funcs tweak : Z) (keys : list (list Z)) :
  (0 < N)%nat -> 2 * Z.of_nat N < 2 ^ 32 -> 8 <= bits -> 0 <= funcs ->
  exists r, rolling_insert_all (E := unit) (CRollingBloomFilter_new (Z.of_nat N) bits funcs tweak) keys = Ok r /\
    forall k, k ∈ take N (rev keys) -> rolling_contains (E := unit) r k = Ok true.
Proof.
  intros HN HN2 Hb Hf; destruct (rolling_insert_all_ok (E := unit) N keys HN HN2 _ [] (rolling_new_inv N bits funcs tweak HN HN2 Hb Hf)) as (r & E & I).
  rewrite app_nil_r in I; destruct I as [Hs Hc [O1 _] [O2 _] F Sc]; exists r; split; [exact E |]; intros k Hk; unfold rolling_contains.
  replace (nBloomSize r / 2) with (Z.of_nat N) by (rewrite Hs, Z.mul_comm; symmetry; apply Z.div_mul; lia).
  destruct (Z.ltb_spec (nInsertions r) (Z.of_nat N)).
  - apply (contains_holds (E := unit)); [exact O2 |]; rewrite (proj2 (Z.leb_le _ _)) in Sc by lia; revert Hk; apply (holds_all_take _ N (Z.to_nat (nInsertions r) + N) _ ltac:(lia) Sc).
  - apply (contains_holds (E := unit)); [exact O1 |]; revert Hk; apply (holds_all_take _ N (Z.to_nat (nInsertions r)) _ ltac:(lia) F).
Qed.

(** ** Relevant transactions *)

Section Relevant.
Context `{HashFunctions, StandardEnv}.

(** A data element of the script is in the filter. *)
Definition script_has (f : CBloomFilter) (s : list Z) : Prop :=
  exists ops op data rest, reads s (ops ++ [(op, data)]) rest /\ data <> [] /\ holds f data.

Lemma GetOp2_shorter s : go_ret (GetOp2 s) = true -> (length (go_pc (GetOp2 s)) < length s)%nat.
Proof. intros Hr; apply GetOp2_progress; intros ->; discriminate. Qed.

Lemma script_has_step f s : script_has f s <->
  go_ret (GetOp2 s) = true /\ ((go_vch (GetOp2 s) <> [] /\ holds f (go_vch (GetOp2 s))) \/ script_has f (go_pc (GetOp2 s))).
Proof.
  split.
  - intros (ops & op & data & rest & R & Hd & Hh); destruct ops as [| o ops]; inversion R as [| pc op' data' pc' ops' rest' E R' E1 E2]; subst; rewrite E; cbn [go_ret go_vch go_pc].
    + auto.
    + split; [reflexivity |]; right; exists ops, op, data, rest; auto.
  - intros [Hr Ho]; assert (E : GetOp2 s = {| go_ret := true; go_pc := go_pc (GetOp2 s); go_opcode := go_opcode (GetOp2 s); go_vch := go_vch (GetOp2 s) |})
      by (destruct (GetOp2 s); cbn in *; now rewrite Hr).
    destruct Ho as [[Hd Hh] | (ops & op & data & rest & R & Hd & Hh)].
    + exists [], (go_opcode (GetOp2 s)), (go_vch (GetOp2 s)), (go_pc (GetOp2 s)); split; [cbn; eapply reads_cons; [exact E | constructor] | auto].
    + exists ((go_opcode (GetOp2 s), go_vch (GetOp2 s)) :: ops), op, data, rest; split; [cbn; eapply reads_cons; eassumption | auto].
Qed.

Lemma script_matches_ok {E} f fuel : bloom_ok f -> forall s, (length s <= fuel)%nat ->
  exists r, script_matches (E := E) fuel f s = Ok r /\ (r = true <-> script_has f s).
Proof.
  intros Hf; induction fuel as [| fuel IH]; intros s Hl; setoid_rewrite script_has_step.
  { destruct s; [| cbn in Hl; lia]; exists false; split; [reflexivity |]; split; [discriminate | intros [? _]; discriminate]. }
  destruct s as [| x s]; [exists false; split; [reflexivity |]; split; [discriminate | intros [? _]; discriminate] |].
  cbn [script_matches]; set (r := GetOp2 (x :: s)); destruct (go_ret r) eqn:Er; [| exists false; split; [reflexivity |]; split; [discriminate | intros [? _]; discriminate]].
  pose proof (GetOp2_shorter (x :: s) Er) as Hs; fold r in Hs; destruct (IH (go_pc r) ltac:(lia)) as (r' & Er' & Hr').
  assert (Hc : exists b, (if zlen (go_vch r) =? 0 then Ok false else contains (E := E) f (go_vch r)) = Ok b /\
    (b = true <-> go_vch r <> [] /\ holds f (go_vch r))).
  { destruct (go_vch r) as [| y v]; [exists false; split; [reflexivity |]; split; [discriminate | now intros [[] _]] |].
    rewrite (proj2 (Z.eqb_neq _ 0)) by (unfold zlen; cbn; lia); destruct (contains_ok (E := E) f (y :: v) Hf) as (b & -> & Hb); exists b; split; [reflexivity |].
    rewrite Hb; split; [now split | tauto]. }
  destruct Hc as (b & -> & Hb); cbn [mbind res_bind]; destruct b; [exists true; split; [reflexivity |]; tauto |].
  exists r'; split; [exact Er' |]; rewrite Hr'; split; [tauto |]; intros [_ [Ho | Ho]]; [apply Hb in Ho; discriminate | exact Ho].
Qed.

(** The bytes of an outpoint. *)
Definition outpoint_key (o : COutPoint) : list Z := match put COutPoint_op o with Ok (_, d) => d | _ => [] end.

Lemma outpoint_written {E} o : outpoint_valid o -> written (E := E) COutPoint_op o = Ok (outpoint_key o).
Proof. intros Ho; destruct (codec_writes (Codec := Codec_COutPoint) o Ho) as (d & Hp & _); unfold written, outpoint_key; now rewrite Hp. Qed.

(** A transaction touches a filter: its id, a data element of an output script, an
    outpoint that it spends or a data element of an input script is in it. *)
Definition touches (f : CBloomFilter) (tx : uint256 * CTransaction) : Prop :=
  holds f tx.1 \/ (exists o, o ∈ tx_vout tx.2 /\ script_has f (scriptPubKey o)) \/
  (exists i, i ∈ tx_vin tx.2 /\ (holds f (outpoint_key (prevout i)) \/ script_has f (scriptSig i))).

(** The hash, the inputs and the number of outputs of a transaction that was read. *)
Definition filterable (tx : uint256 * CTransaction) : Prop :=
  is_blob 32 tx.1 /\ zlen (tx_vout tx.2) < 2 ^ 32 /\ Forall (fun i => outpoint_valid (prevout i)) (tx_vin tx.2).

(** A later filter: only more is found. *)
Definition grown (f f' : CBloomFilter) : Prop := exists keys, inserted f f' keys.

Lemma grown_refl f : bloom_ok f -> grown f f.
Proof. exists []; now apply inserted_refl. Qed.

Lemma grown_trans f g h : grown f g -> grown g h -> grown f h.
Proof. intros [ks I] [ks' I']; exists (ks ++ ks'); eapply inserted_trans; eauto. Qed.

Lemma grown_ok f f' : grown f f' -> bloom_ok f'.
Proof. intros [ks I]; apply I. Qed.

Lemma grown_has f f' s : grown f f' -> script_has f s -> script_has f' s.
Proof. intros [ks I] (ops & op & data & rest & R & Hd & Hh); exists ops, op, data, rest; split; [exact R |]; split; [exact Hd | now apply (in_old _ _ _ I)]. Qed.


(** What an update of a matched output leaves. *)
Definition updates_all (f : CBloomFilter) : Prop := Z.land (nFlags f) BLOOM_UPDATE_MASK = BLOOM_UPDATE_ALL.
Definition updates_none (f : CBloomFilter) : Prop := Z.land (nFlags f) BLOOM_UPDATE_MASK = BLOOM_UPDATE_NONE.

Lemma grown_flags f f' : grown f f' -> nFlags f' = nFlags f.
Proof. intros [ks I]; apply I. Qed.

Lemma update_output_ok {E} f hash i s : bloom_ok f -> outpoint_valid (mkOutPoint hash i) ->
  exists f', update_output (E := E) f hash i s = Ok f' /\ grown f f' /\
    (updates_all f -> holds f' (outpoint_key (mkOutPoint hash i))) /\ (updates_none f -> f' = f).
Proof.
  intros Hf Ho; assert (Hi : exists f', insert_outpoint (E := E) f (mkOutPoint hash i) = Ok f' /\ inserted f f' [outpoint_key (mkOutPoint hash i)]).
  { unfold insert_outpoint; rewrite (outpoint_written _ Ho); cbn [mbind res_bind]; now apply insert_ok. }
  destruct Hi as (f1 & E1 & I1); assert (Hk : holds f1 (outpoint_key (mkOutPoint hash i))) by (apply (in_new _ _ _ I1); now left).
  unfold update_output, updates_all, updates_none; destruct (Z.eqb_spec (Z.land (nFlags f) BLOOM_UPDATE_MASK) BLOOM_UPDATE_ALL) as [Ea | Ea].
  { exists f1; split; [exact E1 |]; split; [now exists [outpoint_key (mkOutPoint hash i)] |]; split; [auto |]; rewrite Ea; discriminate. }
  assert (Hsame : exists f', Ok f = Ok (E := E) f' /\ grown f f' /\ (Z.land (nFlags f) BLOOM_UPDATE_MASK = BLOOM_UPDATE_ALL -> holds f' (outpoint_key (mkOutPoint hash i))) /\
    (Z.land (nFlags f) BLOOM_UPDATE_MASK = BLOOM_UPDATE_NONE -> f' = f)) by (exists f; split; [reflexivity |]; split; [now apply grown_refl | tauto]).
  destruct (Z.eqb_spec (Z.land (nFlags f) BLOOM_UPDATE_MASK) BLOOM_UPDATE_P2PUBKEY_ONLY) as [Ep | Ep]; [| exact Hsame].
  destruct (Solver_total (E := E) TX_NONSTANDARD s) as (ok & ty & sols & -> & _); cbn [mbind res_bind]; destruct (ok && _); [| exact Hsame].
  exists f1; split; [exact E1 |]; split; [now exists [outpoint_key (mkOutPoint hash i)] |]; split; [auto |]; rewrite Ep; discriminate.
Qed.

(** The loop over the outputs. *)
Record matched_outputs (f f' : CBloomFilter) (hash : uint256) (i : Z) (vout : list CTxOut) (before after : bool) : Prop := {
  mo_grown : grown f f';
  mo_found : after = true <-> before = true \/ exists o, o ∈ vout /\ script_has f (scriptPubKey o);
  mo_none : after = false \/ updates_none f -> f' = f;
  mo_spent : updates_all f -> forall k o, vout !! k = Some o -> script_has f (scriptPubKey o) ->
    holds f' (outpoint_key (mkOutPoint hash (i + Z.of_nat k)));
}.

Lemma match_outputs_ok {E} hash vout : is_blob 32 hash -> forall f i fFound, bloom_ok f -> 0 <= i -> i + zlen vout <= 2 ^ 32 ->
  exists r f', match_outputs (E := E) f hash i vout fFound = Ok (r, f') /\ matched_outputs f f' hash i vout fFound r.
Proof.
  intros Hb; induction vout as [| o vout IH]; intros f i fFound Hf Hi Hn; cbn [match_outputs].
  { exists fFound, f; split; [reflexivity |]; split; [now apply grown_refl | | reflexivity | discriminate].
    split; [now left | intros [| (o & Ho & _)]; [assumption | now apply not_elem_of_nil in Ho]]. }
  rewrite zlen_cons in Hn; pose proof (zlen_nonneg vout).
  destruct (script_matches_ok (E := E) f _ Hf (scriptPubKey o) (le_n _)) as (b & -> & Hbm); cbn [mbind res_bind]; destruct b.
  - destruct (update_output_ok (E := E) f hash i (scriptPubKey o) Hf) as (g & -> & G & Hall & Hnone); [split; [exact Hb | split; cbn; lia] |]; cbn [mbind res_bind].
    destruct (IH g (i + 1) true (grown_ok _ _ G) ltac:(lia) ltac:(lia)) as (r & f' & -> & [G' Hfd Hno Hsp]); exists r, f'; split; [reflexivity |].
    assert (r = true) as -> by (apply Hfd; now left); split; [eapply grown_trans; eauto | | |].
    + split; [intros _; right; exists o; split; [now left | now apply Hbm] | reflexivity].
    + intros [| Hu]; [discriminate |]; assert (g = f) as -> by auto; auto.
    + intros Hu k o' Hk Hs; destruct k as [| k]; cbn in Hk.
      * rewrite Z.add_0_r; destruct G' as [ks I]; apply (in_old _ _ _ I); auto.
      * replace (i + Z.of_nat (S k)) with (i + 1 + Z.of_nat k) by lia; apply (Hsp ltac:(unfold updates_all; now rewrite (grown_flags _ _ G)) k o' Hk); eapply grown_has; eauto.
  - destruct (IH f (i + 1) fFound Hf ltac:(lia) ltac:(lia)) as (r & f' & -> & [G' Hfd Hno Hsp]); exists r, f'; split; [reflexivity |].
    assert (Hno' : ~ script_has f (scriptPubKey o)) by (intros Hs; apply Hbm in Hs; discriminate); split; [exact G' | | exact Hno |].
    + rewrite Hfd; split; (intros [Hl | (o' & Ho' & Hs)]; [now left | right]); [exists o'; split; [now right | exact Hs] |].
      apply elem_of_cons in Ho' as [-> | Ho']; [contradiction | eauto].
    + intros Hu k o' Hk Hs; destruct k as [| k]; cbn in Hk; [congruence |].
      replace (i + Z.of_nat (S k)) with (i + 1 + Z.of_nat k) by lia; eauto.
Qed.

Lemma match_inputs_ok {E} f vin : bloom_ok f -> Forall (fun i => outpoint_valid (prevout i)) vin ->
  exists r, match_inputs (E := E) f vin = Ok r /\
    (r = true <-> exists i, i ∈ vin /\ (holds f (outpoint_key (prevout i)) \/ script_has f (scriptSig i))).
Proof.
  intros Hf; induction 1 as [| i vin Hi _ (r & Er & Hr)]; cbn [match_inputs].
  { exists false; split; [reflexivity |]; split; [discriminate | intros (i & Hi & _); now apply not_elem_of_nil in Hi]. }
  setoid_rewrite elem_of_cons; unfold contains_outpoint; rewrite (outpoint_written _ Hi); cbn [mbind res_bind].
  destruct (contains_ok (E := E) f (outpoint_key (prevout i)) Hf) as (b & -> & Hb); cbn [mbind res_bind]; destruct b.
  { exists true; split; [reflexivity |]; split; [intros _; exists i; tauto | reflexivity]. }
  destruct (script_matches_ok (E := E) f _ Hf (scriptSig i) (le_n _)) as (b & -> & Hb'); cbn [mbind res_bind]; destruct b.
  { exists true; split; [reflexivity |]; split; [intros _; exists i; tauto | reflexivity]. }
  exists r; split; [exact Er |]; rewrite Hr; split; [intros (j & Hj & Ho); exists j; auto |].
  intros (j & [-> | Hj] & Ho); [| eauto]; destruct Ho as [Ho | Ho]; [apply Hb in Ho | apply Hb' in Ho]; discriminate.
Qed.

(** The answer is exact, and a matched output is remembered. *)
Record relevance (f f' : CBloomFilter) (tx : uint256 * CTransaction) (r : bool) : Prop := {
  rel_grown : grown f f';
  rel_touches : r = true <-> touches f tx;
  rel_none : r = false \/ updates_none f -> f' = f;
  rel_spent : updates_all f -> forall k o, tx_vout tx.2 !! k = Some o -> script_has f (scriptPubKey o) ->
    holds f' (outpoint_key (mkOutPoint tx.1 (Z.of_nat k)));
}.

Lemma empty_touches f tx : isFull f = false -> isEmpty f = true -> ~ touches f tx.
Proof.
  intros Ef Ee; assert (Hn : forall k, ~ holds f k) by (intros k [Hk | [Hk _]]; congruence).
  assert (Hs : forall s, ~ script_has f s) by (intros s (ops & op & data & rest & _ & _ & Hh); now apply (Hn data)).
  intros [Hh | [(o & _ & Ho) | (i & _ & [Hh | Ho])]]; [eapply Hn | eapply Hs | eapply Hn | eapply Hs]; eassumption.
Qed.

Lemma IsRelevantAndUpdate_ok {E} f tx : bloom_ok f -> filterable tx ->
  exists r f', IsRelevantAndUpdate (E := E) f tx = Ok (r, f') /\ relevance f f' tx r.
Proof.
  intros Hf (Hb & Hn & Hv); unfold IsRelevantAndUpdate; destruct (isFull f) eqn:Ef.
  { exists true, f; split; [reflexivity |]; split; [now apply grown_refl | | reflexivity | intros; now left]; split; [intros _; left; now left | reflexivity]. }
  destruct (isEmpty f) eqn:Ee.
  { pose proof (empty_touches f tx Ef Ee) as Hno; exists false, f; split; [reflexivity |]; split; [now apply grown_refl | | reflexivity |].
    - split; [discriminate | intros Ht; now destruct Hno].
    - intros _ k o Hk Ho; destruct Hno; right; left; exists o; split; [eapply list_elem_of_lookup_2; eauto | exact Ho]. }
  destruct (contains_ok (E := E) f tx.1 Hf) as (b & -> & Hc); cbn [mbind res_bind].
  destruct (match_outputs_ok (E := E) tx.1 (tx_vout tx.2) Hb f 0 b Hf ltac:(lia) ltac:(lia)) as (r & f' & -> & [G Hfd Hno Hsp]); cbn [mbind res_bind]; destruct r.
  { exists true, f'; split; [reflexivity |]; split; [exact G | | intros [|]; [discriminate | auto] | exact Hsp]; split; [| reflexivity].
    intros _; destruct (proj1 Hfd eq_refl) as [Hl | Hl]; [left; now apply Hc | right; now left]. }
  assert (f' = f) as -> by auto; destruct (match_inputs_ok (E := E) f (tx_vin tx.2) Hf Hv) as (r & -> & Hr); cbn [mbind res_bind].
  exists r, f; split; [reflexivity |]; split; [exact G | | reflexivity | exact Hsp]; rewrite Hr; split; [right; now right |].
  intros [Hl | [Hl | Hl]]; [| | exact Hl]; exfalso; assert (false = true) by (apply Hfd; tauto); discriminate.
Qed.

(** ** Filtered blocks *)

(** The state of the filter when a transaction of a block is looked at. *)
Record filter_at (f g : CBloomFilter) (before : list (uint256 * CTransaction)) : Prop := {
  fa_grown : grown f g;
  fa_none : updates_none f -> g = f;
  fa_spent : updates_all f -> forall tx k o, tx ∈ before -> tx_vout tx.2 !! k = Some o -> script_has f (scriptPubKey o) ->
    holds g (outpoint_key (mkOutPoint tx.1 (Z.of_nat k)));
}.

Record filtered (f : CBloomFilter) (i : Z) (txs : list (uint256 * CTransaction)) (ms : list bool) (matched : list (Z * uint256)) : Prop := {
  fl_length : length ms = length txs;
  fl_ids : map snd matched = selected (map fst txs) ms;
  fl_from : forall p, p ∈ matched -> i <= p.1 < i + zlen txs;
  fl_in : forall j tx, txs !! j = Some tx -> (i + Z.of_nat j, tx.1) ∈ matched <-> ms !! j = Some true;
  fl_touches : forall j tx, txs !! j = Some tx -> exists g, filter_at f g (take j txs) /\ (ms !! j = Some true <-> touches g tx);
}.

Lemma filter_at_step f g h tx before r : relevance f g tx r -> filter_at g h before -> filter_at f h (tx :: before).
Proof.
  intros [G _ N S] [G' N' S']; split; [eapply grown_trans; eauto | |].
  - intros Hn; assert (g = f) as -> by auto; auto.
  - intros Hu tx' k o [-> | Hin]%elem_of_cons Hk Hs; [destruct G' as [ks I]; apply (in_old _ _ _ I); eauto |].
    apply (S' ltac:(unfold updates_all; now rewrite (grown_flags _ _ G)) tx' k o Hin Hk); eapply grown_has; eauto.
Qed.

Lemma filter_txs_ok {E} txs : Forall filterable txs -> forall f i, bloom_ok f ->
  exists ms matched f', filter_txs (E := E) f i txs = Ok (ms, matched, f') /\ filtered f i txs ms matched /\ grown f f'.
Proof.
  induction 1 as [| tx txs Ht _ IH]; intros f i Hf; cbn [filter_txs].
  { exists [], [], f; split; [reflexivity |]; split; [| now apply grown_refl]; split; try reflexivity; [intros p Hp; now apply not_elem_of_nil in Hp | discriminate..]. }
  destruct (IsRelevantAndUpdate_ok (E := E) f tx Hf Ht) as (m & g & -> & R); cbn [mbind res_bind].
  destruct (IH g (i + 1) (grown_ok _ _ (rel_grown _ _ _ _ R))) as (ms & matched & f' & -> & [L I F M T] & G); cbn [mbind res_bind].
  eexists _, _, f'; split; [reflexivity |]; split; [| eapply grown_trans; [apply R | exact G]]; split.
  - cbn; now rewrite L.
  - rewrite map_app, I; unfold selected; destruct m; reflexivity.
  - intros p [Hp | Hp]%elem_of_app; rewrite zlen_cons; pose proof (zlen_nonneg txs); [| apply F in Hp; lia]; destruct m; [apply list_elem_of_singleton in Hp as ->; cbn; lia | now apply not_elem_of_nil in Hp].
  - intros [| j] tx' Hj; cbn in Hj; rewrite elem_of_app.
    + injection Hj as <-; rewrite Z.add_0_r; assert (Hno : (i, tx.1) ∉ matched) by (intros Hin; apply F in Hin; cbn in Hin; lia).
      destruct m; cbn; [split; [reflexivity | intros _; left; now left] | split; [intros [Hi | Hi]; [now apply not_elem_of_nil in Hi | contradiction] | discriminate]].
    + replace (i + Z.of_nat (S j)) with (i + 1 + Z.of_nat j) by lia; cbn [lookup list_lookup]; rewrite <- (M j tx' Hj); split; [| now right].
      intros [Hp | Hp]; [| exact Hp]; destruct m; [apply list_elem_of_singleton in Hp; injection Hp; lia | now apply not_elem_of_nil in Hp].
  - intros [| j] tx' Hj; cbn in Hj.
    + injection Hj as <-; exists f; split; [| cbn; rewrite <- (rel_touches _ _ _ _ R); split; [now intros [= ->] | now intros ->]].
      split; [now apply grown_refl | reflexivity | intros _ ? ? ? Hin; now apply not_elem_of_nil in Hin].
    + destruct (T j tx' Hj) as (h & Fa & Ht'); exists h; split; [exact (filter_at_step _ _ _ _ _ _ R Fa) | exact Ht'].
Qed.



End Relevant.

(** ** The filter of a peer *)

(** A node changes the filter of a peer when it handles its messages, sends it a
    filtered block, relays a transaction or answers the message mempool.  With
    [keep] the filter is not replaced. *)
Section Peers.
Context `{HashFunctionsOk, StandardEnv, FilterEnv}.

Definition lookup_ok (lookup : uint256 -> option CTransaction) : Prop := forall h tx, lookup h = Some tx -> filterable (h, tx).

Inductive peer_step (keep : bool) (p p' : Peer) : Prop :=
| step_message m data r :
    bytes data -> (keep = true -> m = FILTERADD) -> filter_handler (E := unit) m data p = Ok (r, p') -> peer_step keep p p'
| step_block known b r :
    Forall filterable (vtx b) -> send_filtered_block (E := unit) known b p = Ok (r, p') -> peer_step keep p p'
| step_relay tx r : filterable tx -> relay_to (E := unit) tx p = Ok (r, p') -> peer_step keep p p'
| step_mempool lookup vtxid sent : lookup_ok lookup -> mempool_loop (E := unit) lookup vtxid [] p = Ok (sent, p') -> peer_step keep p p'.

Definition usable (p : Peer) : Prop := exists f, pfilter p = Some f /\ bloom_ok f.

(** The filter of the peer finds what it found. *)
Definition keeps (p p' : Peer) : Prop := exists f f', pfilter p = Some f /\ pfilter p' = Some f' /\ grown f f'.

Lemma keeps_same p p' : usable p -> pfilter p' = pfilter p -> keeps p p'.
Proof. intros (f & Ef & Hf) E; exists f, f; rewrite E; auto using grown_refl. Qed.

Lemma keeps_trans p q r : keeps p q -> keeps q r -> keeps p r.
Proof.
  intros (f & g & E1 & E2 & G1) (g' & h & E3 & E4 & G2); assert (g' = g) as -> by congruence.
  exists f, h; split; [exact E1 |]; split; [exact E4 | eapply grown_trans; eauto].
Qed.

Lemma keeps_usable p p' : keeps p p' -> usable p'.
Proof. intros (f & f' & _ & E & G); exists f'; split; [exact E | exact (grown_ok _ _ G)]. Qed.

Lemma Misbehaving_filter p n : pfilter (Misbehaving p n) = pfilter p.
Proof. unfold Misbehaving; now destruct (n =? 0). Qed.

(** *** The messages *)

Definition malformed (m : filter_message) (data : list Z) : Prop :=
  match m with
  | FILTERLOAD => forall f rest, get CBloomFilter_op data <> Ok (f, rest)
  | FILTERADD => forall v rest, get c_vector data <> Ok (v, rest)
  | FILTERCLEAR => False
  end.

Lemma filteradd_ok {E} data p : usable p ->
  (malformed FILTERADD data /\ exists x, filteradd (E := E) data p = Exn x) \/ exists p' v rest, filteradd (E := E) data p = Ok p' /\ keeps p p' /\ get c_vector data = Ok (v, rest) /\
    (zlen v <= MAX_SCRIPT_ELEMENT_SIZE -> exists f', pfilter p' = Some f' /\ holds f' v).
Proof.
  intros Hu; pose proof Hu as (f & Ef & Hf); unfold filteradd; cbn [malformed]; destruct (get c_vector data) as [[v rest] | |]; [right | left; split; [discriminate | eauto]..].
  rewrite Ef; destruct (Z.ltb_spec MAX_SCRIPT_ELEMENT_SIZE (zlen v)) as [Hl | Hl].
  - exists (Misbehaving p 100), v, rest; split; [reflexivity |]; split; [apply (keeps_same _ _ Hu), Misbehaving_filter | split; [reflexivity | lia]].
  - destruct (insert_ok (E := E) f v Hf) as (f' & -> & I); cbn [mbind res_bind]; exists (set_filter p f'), v, rest; split; [reflexivity |]; split.
    + exists f, f'; split; [exact Ef |]; split; [reflexivity | now exists [v]].
    + split; [reflexivity |]; intros _; exists f'; split; [reflexivity |]; apply (in_new _ _ _ I); now left.
Qed.

Lemma filterload_ok {E} data p : bytes data -> usable p ->
  (malformed FILTERLOAD data /\ exists x, filterload (E := E) data p = Exn x) \/ exists p', filterload (E := E) data p = Ok p' /\ usable p'.
Proof.
  intros Hb (f & Ef & Hf); unfold filterload; cbn [malformed]; destruct (get CBloomFilter_op data) as [[g rest] | |] eqn:Eg; [right | left; split; [discriminate | eauto]..].
  eexists; split; [reflexivity |]; destruct (IsWithinSizeConstraints g); cbn [negb].
  - exists (UpdateEmptyFull g); split; [reflexivity | exact (loaded_ok data g rest Hb Eg)].
  - exists f; split; [| exact Hf]; change (pfilter (Misbehaving p 100) = Some f); now rewrite Misbehaving_filter.
Qed.

Lemma filter_handler_ok {E} m data p : bytes data -> usable p ->
  (malformed m data /\ exists x, filter_handler (E := E) m data p = Exn x) \/ exists r p', filter_handler (E := E) m data p = Ok (r, p') /\ usable p' /\ (m = FILTERADD -> keeps p p').
Proof.
  intros Hb Hu; unfold filter_handler; destruct m.
  - destruct node_bloom; cbn [negb].
    { destruct (filterload_ok (E := E) data p Hb Hu) as [(Hm & x & ->) | (p' & -> & Hu')]; [left; split; [exact Hm | now exists x] | right]; exists true, p'; split; [reflexivity |]; split; [exact Hu' | discriminate]. }
    right; destruct (_ <=? _); [| destruct enforcenodebloom]; eexists _, _; (split; [reflexivity |]; split; [| discriminate]); exact Hu.
  - assert (Hk : forall p', keeps p p' -> usable p' /\ (FILTERADD = FILTERADD -> keeps p p')) by (intros p' Hk; split; [exact (keeps_usable _ _ Hk) | auto]).
    destruct node_bloom; cbn [negb].
    { destruct (filteradd_ok (E := E) data p Hu) as [(Hm & x & ->) | (p' & v & rest & -> & Hk' & _)]; [left; split; [exact Hm | now exists x] | right]; exists true, p'; split; [reflexivity | auto]. }
    right; destruct (_ <=? _); [| destruct enforcenodebloom]; eexists _, _; (split; [reflexivity |]); apply Hk, (keeps_same _ _ Hu); [apply Misbehaving_filter | reflexivity..].
  - right; eexists _, _; split; [reflexivity |]; split; [| discriminate]; unfold filterclear; destruct node_bloom; [| exact Hu].
    exists CBloomFilter_default; split; [reflexivity |]; split; [cbn; lia | now left].
Qed.

(** *** Blocks and transactions *)



Lemma send_keeps {E} known b p r p' : usable p -> Forall filterable (vtx b) -> send_filtered_block (E := E) known b p = Ok (r, p') -> keeps p p'.
Proof.
  intros Hu Hf; pose proof Hu as (f & Ef & Hok); unfold send_filtered_block, CMerkleBlock_filter; rewrite Ef.
  destruct (filter_txs_ok (E := E) (vtx b) Hf f 0 Hok) as (ms & matched & f' & -> & _ & G); cbn [mbind res_bind].
  destruct (new_pmt _ _) as [t | |]; try discriminate; cbn [mbind res_bind vMatchedTxn]; destruct (push_matched _ _ _); try discriminate.
  intros [= _ <-]; exists f, f'; auto.
Qed.

Lemma relay_ok {E} tx p : usable p -> filterable tx -> exists r p', relay_to (E := E) tx p = Ok (r, p') /\ keeps p p'.
Proof.
  intros Hu Ht; pose proof Hu as (f & Ef & Hok); unfold relay_to; destruct (negb (fRelayTxes p)).
  { exists false, p; split; [reflexivity | now apply keeps_same]. }
  rewrite Ef; destruct (IsRelevantAndUpdate_ok (E := E) f tx Hok Ht) as (r & f' & -> & R); cbn [mbind res_bind].
  exists r, (set_filter p f'); split; [reflexivity |]; exists f, f'; split; [exact Ef |]; split; [reflexivity | apply R].
Qed.

Lemma mempool_ok {E} lookup vtxid : lookup_ok lookup -> forall vInv p, usable p ->
  exists sent p', mempool_loop (E := E) lookup vtxid vInv p = Ok (sent, p') /\ keeps p p'.
Proof.
  intros Hl; induction vtxid as [| hash vtxid IH]; intros vInv p Hu; cbn [mempool_loop]; [eexists _, p; split; [reflexivity | now apply keeps_same] |].
  pose proof Hu as (f & Ef & Hok); rewrite Ef; destruct (lookup hash) as [tx |] eqn:El; [| apply IH, Hu].
  destruct (IsRelevantAndUpdate_ok (E := E) f (hash, tx) Hok (Hl _ _ El)) as (r & f' & -> & R); cbn [mbind res_bind].
  assert (Hk : keeps p (set_filter p f')) by (exists f, f'; split; [exact Ef |]; split; [reflexivity | apply R]).
  pose proof (fun vInv => IH vInv _ (keeps_usable _ _ Hk)) as IH'; destruct r; cbn [negb]; [destruct (_ =? MAX_INV_SZ) |].
  - destruct (IH' []) as (sent & p' & -> & Hk'); cbn [mbind res_bind]; eexists _, p'; split; [reflexivity | eapply keeps_trans; eauto].
  - destruct (IH' (vInv ++ [hash])) as (sent & p' & -> & Hk'); eexists _, p'; split; [reflexivity | eapply keeps_trans; eauto].
  - destruct (IH' vInv) as (sent & p' & -> & Hk'); eexists _, p'; split; [reflexivity | eapply keeps_trans; eauto].
Qed.

(** *** Reachable peers *)

Lemma step_usable keep p p' : peer_step keep p p' -> usable p -> usable p' /\ (keep = true -> keeps p p').
Proof.
  intros St Hu; destruct St as [m data r Hb Hm E | known b r Hf E | tx r Ht E | lookup vtxid sent Hl E].
  - destruct (filter_handler_ok (E := unit) m data p Hb Hu) as [(_ & x & E') | (r' & q & E' & Hq & Hk)]; [congruence |].
    rewrite E' in E; injection E as _ <-; auto.
  - pose proof (send_keeps known b p r p' Hu Hf E) as Hk; split; [exact (keeps_usable _ _ Hk) | auto].
  - destruct (relay_ok (E := unit) tx p Hu Ht) as (r' & q & E' & Hk); rewrite E' in E; injection E as _ <-; split; [exact (keeps_usable _ _ Hk) | auto].
  - destruct (mempool_ok (E := unit) lookup vtxid Hl [] p Hu) as (r' & q & E' & Hk); rewrite E' in E; injection E as _ <-; split; [exact (keeps_usable _ _ Hk) | auto].
Qed.

Lemma steps_usable keep p p' : rtc (peer_step keep) p p' -> usable p -> usable p' /\ (keep = true -> keeps p p').
Proof.
  induction 1 as [p | p q p' S _ IH]; intros Hu; [split; [exact Hu | intros _; now apply keeps_same] |].
  destruct (step_usable keep p q S Hu) as [Hq Hk]; destruct (IH Hq) as [Hp' Hk']; split; [exact Hp' | intros E; eapply keeps_trans; eauto].
Qed.

(** A peer that connected with the filter of the default constructor. *)
Definition reachable (p : Peer) : Prop := exists p0, pfilter p0 = Some CBloomFilter_default /\ rtc (peer_step false) p0 p.

Lemma reachable_usable p : reachable p -> usable p.
Proof.
  intros (p0 & E0 & St); apply (steps_usable false p0 p St); exists CBloomFilter_default; split; [exact E0 |]; split; [cbn; lia | now left].
Qed.

(** C30: the filter of a peer is safe and has no false negatives.  Whatever messages
    a peer sent, the next one is handled, and nothing but a malformed message
    throws: the code never divides by the size of an empty filter nor reads outside
    it.  An element that is added by filteradd to a peer of a node that offers the
    service is found in the filter from then on, through further additions, blocks,
    relayed transactions and answers to mempool, until the filter is replaced. *)
Theorem peer_filter_remembers (p : Peer) :
  reachable p ->
  (forall m data, bytes data ->
     (malformed m data /\ exists x, filter_handler (E := unit) m data p = Exn x) \/ exists r p', filter_handler (E := unit) m data p = Ok (r, p')) /\
  (forall data v rest p' q, bytes data -> node_bloom = true -> get c_vector data = Ok (v, rest) -> zlen v <= MAX_SCRIPT_ELEMENT_SIZE ->
     filter_handler (E := unit) FILTERADD data p = Ok (true, p') -> rtc (peer_step true) p' q ->
     exists f, pfilter q = Some f /\ contains (E := unit) f v = Ok true).
Proof.
  intros Hr%reachable_usable; split.
  - intros m data Hb; destruct (filter_handler_ok (E := unit) m data p Hb Hr) as [Hm | (r & p' & E & _)]; [now left | right; eauto].
  - intros data v rest p' q Hb Hn Eg Hv; unfold filter_handler; rewrite Hn; cbn [negb].
    destruct (filteradd_ok (E := unit) data p Hr) as [(_ & x & ->) | (p1 & v' & rest' & -> & Hk & Eg' & Hh)]; [discriminate |]; cbn [mbind res_bind].
    intros [= ->] St; assert (v' = v) as -> by congruence; destruct (Hh Hv) as (f1 & E1 & H1'); pose proof (keeps_usable _ _ Hk) as Hu.
    destruct (proj2 (steps_usable true p' q St Hu) eq_refl) as (f1' & f & E1' & Ef & G); assert (f1' = f1) as -> by congruence; destruct G as [ks I].
    exists f; split; [exact Ef |]; apply contains_holds; [apply I | now apply (in_old _ _ _ I)].
Qed.

End Peers.

(** ** Examples *)

Module Example_bloom.
Definition env : FilterEnv := {| node_bloom := true; enforcenodebloom := false; banscore := 101 |}.
#[export] Existing Instances toy_hashes toy_hashes_ok StandardSpec.Example_standard.env env.

Definition address : list Z := repeat 5 20.

(** A filter of eight bytes and three functions with one address in it, which
    updates itself, is loaded. *)
Definition filter0 : CBloomFilter :=
  match insert (E := unit) (mkBloom (repeat 0 8) false true 3 77 BLOOM_UPDATE_ALL) address with Ok f => f | _ => CBloomFilter_default end.
Definition message : list Z := Eval vm_compute in match put CBloomFilter_op filter0 with Ok (_, d) => d | _ => [] end.
Definition peer : Peer := Eval vm_compute in match filter_handler (E := unit) FILTERLOAD message new_peer with Ok (_, p) => p | _ => new_peer end.

(** A payment to the address, one that does not concern it, and one that spends
    the first. *)
Definition pay (id : Z) (from : COutPoint) (script : list Z) : uint256 * CTransaction :=
  (repeat id 32, mkTx false 1 0 [mkTxIn from [] UINT32_MAX] [mkTxOut 1000 script] 0 0 0 [] [] [] uint256_null (repeat 0 64) (repeat 0 64)).
Definition pay1 : uint256 * CTransaction := pay 1 (mkOutPoint (repeat 9 32) 0) (p2pkh_script address).
Definition pay2 : uint256 * CTransaction := pay 2 (mkOutPoint (repeat 8 32) 0) (p2pkh_script (repeat 6 20)).
Definition pay3 : uint256 * CTransaction := pay 3 (mkOutPoint (repeat 1 32) 0) (p2pkh_script (repeat 6 20)).
Definition block : CBlock := mkBlock (mkHeader 4 (repeat 0 32) (repeat 0 32) (repeat 0 32) 0 0 (repeat 0 32) []) [pay1; pay2; pay3].

Lemma peer_reachable : reachable peer.
Proof.
  exists new_peer; split; [reflexivity |]; apply rtc_once, (step_message false new_peer peer FILTERLOAD message true).
  - apply (bool_decide_unpack _); vm_compute; exact I.
  - discriminate.
  - vm_compute; reflexivity.
Qed.




(** The first and the third transaction are sent. *)
Example block_sent :
  match send_filtered_block (E := unit) (fun _ => false) block peer with Ok (Some (mb, txs), _) => (vMatchedTxn mb, txs) | _ => ([], []) end
  = ([(0, repeat 1 32); (2, repeat 3 32)], [pay1; pay3]).
Proof. vm_compute; reflexivity. Qed.
End Example_bloom.


Lemma peer_filter_remembers_witness :
  exists p' f, filter_handler (H1 := Example_bloom.env) (E := unit) FILTERADD [2; 7; 8] Example_bloom.peer = Ok (true, p') /\
    pfilter p' = Some f /\ contains (E := unit) f [7; 8] = Ok true.
Proof.
  destruct (peer_filter_remembers (H := toy_hashes) (H1 := StandardSpec.Example_standard.env) (H2 := Example_bloom.env) Example_bloom.peer
    Example_bloom.peer_reachable) as [_ Hk].
  assert (Hb : bytes [2; 7; 8]) by (apply (bool_decide_unpack _); vm_compute; exact I).
  assert (E : exists p', filter_handler (H1 := Example_bloom.env) (E := unit) FILTERADD [2; 7; 8] Example_bloom.peer = Ok (true, p')) by (eexists; vm_compute; reflexivity).
  destruct E as (p' & E); destruct (Hk [2; 7; 8] [7; 8] [] p' p' Hb eq_refl ltac:(vm_compute; reflexivity) ltac:(vm_compute; discriminate) E (rtc_refl _ _)) as (f & Ef & Hc).
  exists p', f; auto.
Defined.

Lemma rolling_remembers_witness :
  exists r, rolling_insert_all (E := unit) (CRollingBloomFilter_new 2 64 3 9) [[1]; [2]; [3]; [4]; [5]] = Ok r /\
    rolling_contains (E := unit) r [4] = Ok true.
Proof.
  destruct (rolling_remembers 2 64 3 9 [[1]; [2]; [3]; [4]; [5]]) as (r & E & Hk); [lia.. |].
  exists r; split; [exact E |]; apply Hk; right; left.
Defined.
