(* ===== verification/Mempool.v ===== *)
(** * The memory pool

    txmempool.h and txmempool.cpp: the pool of transactions that wait for a block,
    with its maps of spent outpoints, nullifiers and proofs; the checks that
    AcceptToMemoryPool (main.cpp) makes against it; CFeeRate (amount.cpp).  The
    self-check of the pool is in PoolCheck.

    The maps of the pool hold pointers to transactions inside the elements of
    [mapTx].  An element has an address, a number that is never used again, and
    [nodes] holds the elements that exist; following a pointer to an element that
    was erased is undefined and has the outcome [oob_read].  The fee estimator,
    the priorities (floating point) and the address and spent indexes are left
    out; they are kept beside the maps below and do not influence them. *)
From stdpp Require Import gmap sorting.
From S2P Require Import Prelude Hashing Merkle Serialize Transaction Coins CoinsView TxCheck Subsidy TxInputs BlockCheck.

(** ** Fee rates *)

(** The product is signed, the division by [nSize] is unsigned. *)
Definition CFeeRate_new (nFeePaid nSize : Z) : Z :=
  if 0 <? nSize then i64 (u64 (i64 (nFeePaid * 1000)) / nSize) else 0.

Definition GetFee (nSatoshisPerK nSize : Z) : Z :=
  let nFee := i64 (u64 (nSatoshisPerK * nSize) / 1000) in
  if (nFee =? 0) && (0 <? nSatoshisPerK) then nSatoshisPerK else nFee.

(** ** The pool *)

Record CTxMemPoolEntry := mkEntry {
  GetTx : uint256 * CTransaction;
  nFee : Z;
  GetTxSize : Z;
  DynamicMemoryUsage : Z;
  feeRate : Z;
  entry_nTime : Z;
  entry_nHeight : Z;
  hadNoDependencies : bool;
  GetSpendsCoinbase : bool;
  GetValidatedBranchId : Z;
}.

(** The constructor; [RecursiveDynamicUsage] depends on the allocator. *)
Definition new_pool_entry `{Layout} (RecursiveDynamicUsage : CTransaction -> Z) (tx : uint256 * CTransaction) (fee time height : Z)
    (poolHasNoInputsOf spendsCoinbase : bool) (nBranchId : Z) : res unit CTxMemPoolEntry :=
  d ← tx_Serialize tx.2;
  Ok (mkEntry tx fee (zlen d) (RecursiveDynamicUsage tx.2) (CFeeRate_new fee (zlen d)) time height poolHasNoInputsOf spendsCoinbase nBranchId).

Record CInPoint := mkInPoint { ip_ptx : nat; ip_n : Z }.

#[global] Instance COutPoint_countable : Countable COutPoint.
Proof. apply (inj_countable' (fun o => (op_hash o, op_n o)) (fun p => mkOutPoint p.1 p.2)); now intros []. Defined.

(** The keys of mapSproutNullifiers, mapSaplingNullifiers, mapZkSpendProofHash and
    mapZkOutputProofHash, which are one map here. *)
Inductive mark := SproutNullifier (nf : uint256) | SaplingNullifier (nf : uint256) | ZkSpendProof (h : uint256) | ZkOutputProof (h : uint256).

#[global] Instance mark_eq_dec : EqDecision mark.
Proof. solve_decision. Defined.
#[global] Instance mark_countable : Countable mark.
Proof.
  apply (inj_countable'
    (fun m => match m with SproutNullifier h => (0%nat, h) | SaplingNullifier h => (1%nat, h) | ZkSpendProof h => (2%nat, h) | ZkOutputProof h => (3%nat, h) end)
    (fun p => match p.1 with 0%nat => SproutNullifier p.2 | 1%nat => SaplingNullifier p.2 | 2%nat => ZkSpendProof p.2 | _ => ZkOutputProof p.2 end)).
  now intros [].
Defined.

Record CTxMemPool := mkPool {
  nodes : gmap nat CTxMemPoolEntry;
  next_node : nat;
  mapTx : gmap uint256 nat;
  mapNextTx : gmap COutPoint CInPoint;
  mapShielded : gmap mark nat;
  mapRecentlyAddedTx : gmap uint256 nat;
  nRecentlyAddedSequence : Z;
  mapDeltas : gmap uint256 Z;
  nTransactionsUpdated : Z;
  totalTxSize : Z;
  cachedInnerUsage : Z;
}.

Definition empty_pool : CTxMemPool := mkPool ∅ 0 ∅ ∅ ∅ ∅ 0 ∅ 0 0 0.

(** [*p]. *)
Definition deref {E} (m : CTxMemPool) (p : nat) : res E CTxMemPoolEntry :=
  match nodes m !! p with Some e => Ok e | None => Exn oob_read end.

(** [mapTx.find(hash)], with the element. *)
Definition find_entry (m : CTxMemPool) (hash : uint256) : option (nat * CTxMemPoolEntry) :=
  match mapTx m !! hash with Some p => match nodes m !! p with Some e => Some (p, e) | None => None end | None => None end.

Definition pool_exists (m : CTxMemPool) (hash : uint256) : bool := bool_decide (is_Some (mapTx m !! hash)).

Definition pool_lookup (m : CTxMemPool) (hash : uint256) : option (uint256 * CTransaction) :=
  match find_entry m hash with Some (_, e) => Some (GetTx e) | None => None end.

(** Iteration over [mapTx] goes in the order of the hashes, as [memcmp] compares
    them. *)
Fixpoint blob_le (a b : list Z) : bool :=
  match a, b with
  | [], _ => true
  | _ :: _, [] => false
  | x :: a, y :: b => if x =? y then blob_le a b else x <? y
  end.

Definition key_le (a b : uint256 * nat) : Prop := blob_le a.1 b.1 = true.
#[global] Instance key_le_dec a b : Decision (key_le a b).
Proof. unfold key_le; apply _. Defined.

Definition entries (m : CTxMemPool) : list CTxMemPoolEntry :=
  omap (fun hp => nodes m !! hp.2) (merge_sort key_le (map_to_list (mapTx m))).

Definition queryHashes (m : CTxMemPool) : list uint256 := map (fun e => (GetTx e).1) (entries m).

(** What a transaction enters into the maps, in the order of the code. *)
Section Marks.
Context `{HashFunctions}.

Definition marks (tx : CTransaction) : list mark :=
  map SproutNullifier (sprout_nullifiers tx)
  ++ mjoin (map (fun d => [SaplingNullifier (sp_nullifier d); ZkSpendProof (Hash (sp_zkproof d))]) (vShieldedSpend tx))
  ++ map (fun d => ZkOutputProof (Hash (od_zkproof d))) (vShieldedOutput tx).

(** ** Adding *)

Fixpoint add_inputs (p : nat) (i : Z) (vin : list CTxIn) (next : gmap COutPoint CInPoint) : gmap COutPoint CInPoint :=
  match vin with
  | [] => next
  | txin :: vin => add_inputs p (i + 1) vin (<[prevout txin := mkInPoint p i]> next)
  end.

Definition addUnchecked {E} (m : CTxMemPool) (hash : uint256) (entry : CTxMemPoolEntry) : res E CTxMemPool :=
  let m :=
    match mapTx m !! (GetTx entry).1 with
    | Some _ => m
    | None =>
        mkPool (<[next_node m := entry]> (nodes m)) (S (next_node m)) (<[(GetTx entry).1 := next_node m]> (mapTx m))
          (mapNextTx m) (mapShielded m) (mapRecentlyAddedTx m) (nRecentlyAddedSequence m) (mapDeltas m)
          (nTransactionsUpdated m) (totalTxSize m) (cachedInnerUsage m)
    end in
  match find_entry m hash with
  | None => Exn oob_read
  | Some (p, e) =>
      let tx := GetTx e in
      Ok (mkPool (nodes m) (next_node m) (mapTx m)
        (if negb (IsCoinImport tx.2) then add_inputs p 0 (tx_vin tx.2) (mapNextTx m) else mapNextTx m)
        (fold_left (fun marked k => <[k := p]> marked) (marks tx.2) (mapShielded m))
        (<[tx.1 := p]> (mapRecentlyAddedTx m)) (u64 (nRecentlyAddedSequence m + 1)) (mapDeltas m)
        (u32 (nTransactionsUpdated m + 1)) (u64 (totalTxSize m + GetTxSize entry)) (u64 (cachedInnerUsage m + DynamicMemoryUsage entry)))
  end.

(** ** Removing *)

(** The transactions that spend outputs [i], [i + 1], ..., [n] of them. *)
Fixpoint spenders {E} (m : CTxMemPool) (hash : uint256) (n : nat) (i : Z) : res E (list uint256) :=
  match n with
  | O => Ok []
  | S n =>
      match mapNextTx m !! mkOutPoint hash i with
      | None => spenders m hash n (i + 1)
      | Some ip => e ← deref m (ip_ptx ip); rest ← spenders m hash n (i + 1); Ok ((GetTx e).1 :: rest)
      end
  end.

Definition erase_entry (m : CTxMemPool) (hash : uint256) (p : nat) (e : CTxMemPoolEntry) : CTxMemPool :=
  let tx := (GetTx e).2 in
  mkPool (delete p (nodes m)) (next_node m) (delete hash (mapTx m))
    (fold_left (fun next txin => delete (prevout txin) next) (tx_vin tx) (mapNextTx m))
    (fold_left (fun marked k => delete k marked) (marks tx) (mapShielded m))
    (delete hash (mapRecentlyAddedTx m)) (nRecentlyAddedSequence m) (mapDeltas m)
    (u32 (nTransactionsUpdated m + 1)) (u64 (totalTxSize m - GetTxSize e)) (u64 (cachedInnerUsage m - DynamicMemoryUsage e)).

(** The loop over [txToRemove]; the removed transactions are appended to
    [removed]. *)
Fixpoint remove_loop {E} (fuel : nat) (m : CTxMemPool) (txToRemove : list uint256) (fRecursive : bool)
    (removed : list (uint256 * CTransaction)) : res E (CTxMemPool * list (uint256 * CTransaction)) :=
  match txToRemove with
  | [] => Ok (m, removed)
  | hash :: txToRemove =>
      match fuel with
      | O => Exn out_of_fuel
      | S fuel =>
          match find_entry m hash with
          | None => remove_loop fuel m txToRemove fRecursive removed
          | Some (p, e) =>
              children ← (if fRecursive then spenders m hash (length (tx_vout (GetTx e).2)) 0 else Ok []);
              remove_loop fuel (erase_entry m hash p e) (txToRemove ++ children) fRecursive (removed ++ [GetTx e])
          end
      end
  end.

(** All outputs in the pool, which bounds what can be put on the queue. *)
Definition pool_outputs (m : CTxMemPool) : nat :=
  foldr (fun pe n => (length (tx_vout (GetTx pe.2).2) + n)%nat) 0%nat (map_to_list (nodes m)).

Definition remove {E} (m : CTxMemPool) (origTx : uint256 * CTransaction) (removed : list (uint256 * CTransaction)) (fRecursive : bool)
    : res E (CTxMemPool * list (uint256 * CTransaction)) :=
  children ← (if fRecursive && negb (pool_exists m origTx.1) then spenders m origTx.1 (length (tx_vout origTx.2)) 0 else Ok []);
  let txToRemove := origTx.1 :: children in
  remove_loop (length txToRemove + pool_outputs m) m txToRemove fRecursive removed.

(** The loops that remove a list of transactions with what depends on them. *)
Fixpoint remove_all {E} (m : CTxMemPool) (txs : list (uint256 * CTransaction)) : res E CTxMemPool :=
  match txs with
  | [] => Ok m
  | tx :: txs => '(m, _) ← remove m tx [] true; remove_all m txs
  end.

Definition removeWithAnchor {E} (m : CTxMemPool) (invalidRoot : uint256) (type : ShieldedType) : res E CTxMemPool :=
  let matches (tx : CTransaction) :=
    match type with
    | SPROUT => existsb (fun js => bool_decide (js_anchor js = invalidRoot)) (vjoinsplit tx)
    | SAPLING | SAPLINGFRONTIER => existsb (fun d => bool_decide (sp_anchor d = invalidRoot)) (vShieldedSpend tx)
    end in
  remove_all m (List.filter (fun tx => matches tx.2) (map GetTx (entries m))).

Definition removeWithoutBranchId {E} (m : CTxMemPool) (nMemPoolBranchId : Z) : res E CTxMemPool :=
  remove_all m (map GetTx (List.filter (fun e => negb (GetValidatedBranchId e =? nMemPoolBranchId)) (entries m))).

(** One input or mark of a transaction of a block: what else has it is removed. *)
Definition remove_conflict {E} (m : CTxMemPool) (tx : uint256 * CTransaction) (found : option nat) (removed : list (uint256 * CTransaction))
    : res E (CTxMemPool * list (uint256 * CTransaction)) :=
  match found with
  | None => Ok (m, removed)
  | Some p =>
      txConflict ← deref m p;
      if negb (bool_decide ((GetTx txConflict).1 = tx.1)) then remove m (GetTx txConflict) removed true else Ok (m, removed)
  end.

Fixpoint conflict_inputs {E} (m : CTxMemPool) (tx : uint256 * CTransaction) (vin : list CTxIn) (removed : list (uint256 * CTransaction))
    : res E (CTxMemPool * list (uint256 * CTransaction)) :=
  match vin with
  | [] => Ok (m, removed)
  | txin :: vin => '(m, removed) ← remove_conflict m tx (ip_ptx <$> mapNextTx m !! prevout txin) removed; conflict_inputs m tx vin removed
  end.

Fixpoint conflict_marks {E} (m : CTxMemPool) (tx : uint256 * CTransaction) (ks : list mark) (removed : list (uint256 * CTransaction))
    : res E (CTxMemPool * list (uint256 * CTransaction)) :=
  match ks with
  | [] => Ok (m, removed)
  | k :: ks => '(m, removed) ← remove_conflict m tx (mapShielded m !! k) removed; conflict_marks m tx ks removed
  end.

Definition removeConflicts {E} (m : CTxMemPool) (tx : uint256 * CTransaction) (removed : list (uint256 * CTransaction))
    : res E (CTxMemPool * list (uint256 * CTransaction)) :=
  '(m, removed) ← conflict_inputs m tx (tx_vin tx.2) removed;
  conflict_marks m tx (marks tx.2) removed.

Definition ClearPrioritisation (m : CTxMemPool) (hash : uint256) : CTxMemPool :=
  mkPool (nodes m) (next_node m) (mapTx m) (mapNextTx m) (mapShielded m) (mapRecentlyAddedTx m) (nRecentlyAddedSequence m)
    (delete hash (mapDeltas m)) (nTransactionsUpdated m) (totalTxSize m) (cachedInnerUsage m).

(** The transactions of a block; the conflicting ones are returned. *)
Fixpoint removeForBlock {E} (m : CTxMemPool) (vtx : list (uint256 * CTransaction)) (conflicts : list (uint256 * CTransaction))
    : res E (CTxMemPool * list (uint256 * CTransaction)) :=
  match vtx with
  | [] => Ok (m, conflicts)
  | tx :: vtx =>
      '(m, _) ← remove m tx [] false;
      '(m, conflicts) ← removeConflicts m tx conflicts;
      removeForBlock (ClearPrioritisation m tx.1) vtx conflicts
  end.

(** The tip and the clock. *)
Class PoolEnv := {
  chain_Height : Z;
  tip_MedianTimePast : option Z;
  pool_GetTime : Z;
}.

Definition LOCKTIME_MEDIAN_TIME_PAST : Z := 2.

(** Without a tip, the median time is read through a null pointer. *)
Definition CheckFinalTx {E} `{ChainParams, PoolEnv} (tx : CTransaction) (flags : Z) : res E bool :=
  nBlockTime ← (if negb (Z.land (Z.max flags 0) LOCKTIME_MEDIAN_TIME_PAST =? 0)
                then match tip_MedianTimePast with Some t => Ok t | None => Exn oob_read end else Ok pool_GetTime);
  Ok (IsFinalTx tx (chain_Height + 1) nBlockTime).

Section Reorg.
Context `{ChainParams, SubsidyParams, SpendParams, PoolEnv}.

(** An input of an entry that spends a coinbase; [checking] is
    [nCheckFrequency != 0]. *)
Definition input_lost {E} (checking : bool) (AccessCoins : uint256 -> option CCoins) (m : CTxMemPool) (nMemPoolHeight : Z) (txin : CTxIn) : res E bool :=
  if pool_exists m (op_hash (prevout txin)) then Ok false
  else
    let coins := AccessCoins (op_hash (prevout txin)) in
    _ ← (if checking then assert_ (bool_decide (is_Some coins)) else Ok tt);
    match coins with
    | None => Ok true
    | Some c =>
        Ok (fCoinBase c && (nMemPoolHeight - coins_nHeight c <? CoinbaseMaturity)
            && ((nMemPoolHeight <? komodo_block_unlocktime (coins_nHeight c)) && IsAvailable c 0
                && match vout c with o :: _ => ASSETCHAINS_TIMELOCKGTE <=? u64 (nValue o) | [] => false end))
    end.

Fixpoint some_input_lost {E} (checking : bool) (AccessCoins : uint256 -> option CCoins) (m : CTxMemPool) (nMemPoolHeight : Z) (vin : list CTxIn) : res E bool :=
  match vin with
  | [] => Ok false
  | txin :: vin =>
      lost ← input_lost checking AccessCoins m nMemPoolHeight txin;
      if (lost : bool) then Ok true else some_input_lost checking AccessCoins m nMemPoolHeight vin
  end.

Fixpoint select_reorg {E} (checking : bool) (AccessCoins : uint256 -> option CCoins) (m : CTxMemPool) (nMemPoolHeight flags : Z) (es : list CTxMemPoolEntry)
    : res E (list (uint256 * CTransaction)) :=
  match es with
  | [] => Ok []
  | e :: es =>
      final ← CheckFinalTx (GetTx e).2 flags;
      gone ← (if negb final then Ok true
              else if GetSpendsCoinbase e then some_input_lost checking AccessCoins m nMemPoolHeight (tx_vin (GetTx e).2) else Ok false);
      rest ← select_reorg checking AccessCoins m nMemPoolHeight flags es;
      Ok (if (gone : bool) then GetTx e :: rest else rest)
  end.

Definition removeForReorg {E} (checking : bool) (AccessCoins : uint256 -> option CCoins) (m : CTxMemPool) (nMemPoolHeight flags : Z) : res E CTxMemPool :=
  txs ← select_reorg checking AccessCoins m nMemPoolHeight flags (entries m);
  remove_all m txs.
End Reorg.

(** [tip] is the height and median time of the tip; [validate_interest] is the
    check of the interest rules, which only KMD makes. *)
Definition removeExpired {E} (isKMD : bool) (tip : option (Z * Z)) (validate_interest : CTransaction -> Z -> Z -> bool) (m : CTxMemPool) (nBlockHeight : Z) : res E CTxMemPool :=
  let gone (tx : CTransaction) :=
    IsExpiredTx tx nBlockHeight
    || (isKMD && match tip with Some (h, t) => negb (validate_interest tx (h + 1) (u32 (t + 777))) | None => false end) in
  remove_all m (List.filter (fun tx => gone tx.2) (map GetTx (entries m))).

(** The maps of nullifiers, proofs, recent transactions and priorities stay. *)
Definition pool_clear (m : CTxMemPool) : CTxMemPool :=
  mkPool ∅ (next_node m) ∅ ∅ (mapShielded m) (mapRecentlyAddedTx m) (nRecentlyAddedSequence m) (mapDeltas m)
    (u32 (nTransactionsUpdated m + 1)) 0 0.

(** ** Other operations *)

Definition AddTransactionsUpdated (m : CTxMemPool) (n : Z) : CTxMemPool :=
  mkPool (nodes m) (next_node m) (mapTx m) (mapNextTx m) (mapShielded m) (mapRecentlyAddedTx m) (nRecentlyAddedSequence m)
    (mapDeltas m) (u32 (nTransactionsUpdated m + n)) (totalTxSize m) (cachedInnerUsage m).

(** The fee part of the deltas. *)
Definition PrioritiseTransaction (m : CTxMemPool) (hash : uint256) (nFeeDelta : Z) : CTxMemPool :=
  mkPool (nodes m) (next_node m) (mapTx m) (mapNextTx m) (mapShielded m) (mapRecentlyAddedTx m) (nRecentlyAddedSequence m)
    (<[hash := i64 (default 0 (mapDeltas m !! hash) + nFeeDelta)]> (mapDeltas m)) (nTransactionsUpdated m) (totalTxSize m) (cachedInnerUsage m).

Definition ApplyDeltas (m : CTxMemPool) (hash : uint256) (nFeeDelta : Z) : Z :=
  match mapDeltas m !! hash with None => nFeeDelta | Some d => i64 (nFeeDelta + d) end.

Definition HasNoInputsOf (m : CTxMemPool) (tx : CTransaction) : bool :=
  forallb (fun txin => negb (pool_exists m (op_hash (prevout txin)))) (tx_vin tx).

Definition mark_exists (m : CTxMemPool) (k : mark) : bool := bool_decide (is_Some (mapShielded m !! k)).

Definition nullifierExists {E} (m : CTxMemPool) (nullifier : uint256) (type : ShieldedType) : res E bool :=
  match type with
  | SPROUT => Ok (mark_exists m (SproutNullifier nullifier))
  | SAPLING => Ok (mark_exists m (SaplingNullifier nullifier))
  | SAPLINGFRONTIER => Exn runtime_error
  end.

Definition zkProofHashExists (m : CTxMemPool) (h : uint256) (type : ProofType) : bool :=
  match type with OUTPUT => mark_exists m (ZkOutputProof h) | SPEND => mark_exists m (ZkSpendProof h) end.

(** The outputs of a transaction that the pool spends, in the order of the map. *)
Definition pruneSpent (m : CTxMemPool) (hashTx : uint256) (coins : CCoins) : CCoins :=
  fold_left (fun c n => (Spend c n).2)
    (merge_sort Z.le (op_n <$> List.filter (fun o => bool_decide (op_hash o = hashTx)) (map fst (map_to_list (mapNextTx m))))) coins.

(** CCoinsViewMemPool over the coins of the view below. *)
Definition MEMPOOL_HEIGHT : Z := 0x7FFFFFFF.

Definition mempool_GetCoins (base_GetCoins : uint256 -> option CCoins) (m : CTxMemPool) (txid : uint256) : option CCoins :=
  match pool_lookup m txid with
  | Some tx => Some (FromTx tx.2 MEMPOOL_HEIGHT)
  | None => match base_GetCoins txid with Some c => if IsPruned c then None else Some c | None => None end
  end.

Definition mempool_HaveCoins (base_HaveCoins : uint256 -> bool) (m : CTxMemPool) (txid : uint256) : bool :=
  pool_exists m txid || base_HaveCoins txid.

(** ** The checks of AcceptToMemoryPool against the pool *)

(** The loop that refuses a repeated proof. *)
Fixpoint duplicate_proof (proofs seen : list (list Z)) : bool :=
  match proofs with
  | [] => false
  | x :: proofs => bool_decide (x ∈ seen) || duplicate_proof proofs (x :: seen)
  end.

Definition has_duplicate_proofs (tx : CTransaction) : bool :=
  duplicate_proof (map od_zkproof (vShieldedOutput tx)) [] || duplicate_proof (map sp_zkproof (vShieldedSpend tx)) [].

(** The reasons, in the order of the code. *)
Inductive pool_reject := already_in_mempool | mempool_conflict | nullifier_conflict | proof_conflict.

Definition accept_checks {E} (m : CTxMemPool) (tx : uint256 * CTransaction) : res E (option pool_reject) :=
  if pool_exists m tx.1 then Ok (Some already_in_mempool)
  else if existsb (fun txin => bool_decide (is_Some (mapNextTx m !! prevout txin))) (tx_vin tx.2) then Ok (Some mempool_conflict)
  else if existsb (fun nf => mark_exists m (SproutNullifier nf)) (sprout_nullifiers tx.2) then Ok (Some nullifier_conflict)
  else if existsb (fun d => mark_exists m (SaplingNullifier (sp_nullifier d)) || zkProofHashExists m (Hash (sp_zkproof d)) SPEND) (vShieldedSpend tx.2)
  then Ok (Some nullifier_conflict)
  else if existsb (fun d => zkProofHashExists m (Hash (od_zkproof d)) OUTPUT) (vShieldedOutput tx.2) then Ok (Some proof_conflict)
  else Ok None.

(** NotifyRecentlyAdded: the transactions that the wallets are told about. *)
Fixpoint read_recent {E} (m : CTxMemPool) (l : list (uint256 * nat)) : res E (list (uint256 * CTransaction)) :=
  match l with
  | [] => Ok []
  | (_, p) :: l => e ← deref m p; rest ← read_recent m l; Ok (GetTx e :: rest)
  end.

Definition NotifyRecentlyAdded {E} (m : CTxMemPool) : res E (list (uint256 * CTransaction) * CTxMemPool) :=
  txs ← read_recent m (merge_sort key_le (map_to_list (mapRecentlyAddedTx m)));
  Ok (txs, mkPool (nodes m) (next_node m) (mapTx m) (mapNextTx m) (mapShielded m) ∅ (nRecentlyAddedSequence m) (mapDeltas m)
             (nTransactionsUpdated m) (totalTxSize m) (cachedInnerUsage m)).
End Marks.
