(* ===== verification/MempoolSpec.v ===== *)
(** * The memory pool: theorems

    The maps of the pool mirror its transactions, whatever is added and removed,
    so that no pointer dangles; removing a transaction removes exactly what depends
    on it.  What the pool has to do with the coins is in PoolCheckSpec. *)
From stdpp Require Import gmap sorting relations.
From S2P Require Import Prelude Hashing Merkle Script Serialize Transaction Coins CoinsView TxCheck Subsidy TxInputs BlockCheck BlockCheckSpec Mempool.

(** ** Maps that are changed key by key *)

Lemma fold_insert_lookup {K V} `{Countable K} (ks : list K) (v : V) (k : K) : forall m : gmap K V,
  fold_left (fun m k => <[k := v]> m) ks m !! k = if decide (k ∈ ks) then Some v else m !! k.
Proof.
  induction ks as [| a ks IH]; intros m; cbn [fold_left]; [now rewrite decide_False by apply not_elem_of_nil |].
  rewrite IH; destruct (decide (k ∈ ks)) as [Hk | Hk]; [now rewrite decide_True by (now right) |].
  destruct (decide (k = a)) as [-> | Hne]; [rewrite lookup_insert_eq, decide_True by (now left); reflexivity |].
  rewrite lookup_insert_ne by congruence; rewrite decide_False; [reflexivity |]; intros [-> | ?]%elem_of_cons; contradiction.
Qed.

Lemma fold_delete_lookup {A K V} `{Countable K} (key : A -> K) (l : list A) (k : K) : forall m : gmap K V,
  fold_left (fun m a => delete (key a) m) l m !! k = if decide (k ∈ map key l) then None else m !! k.
Proof.
  induction l as [| a l IH]; intros m; cbn [fold_left map]; [now rewrite decide_False by apply not_elem_of_nil |].
  rewrite IH; destruct (decide (k ∈ map key l)) as [Hk | Hk]; [now rewrite decide_True by (now right) |].
  destruct (decide (k = key a)) as [-> | Hne]; [rewrite lookup_delete_eq, decide_True by (now left); reflexivity |].
  rewrite lookup_delete_ne by congruence; rewrite decide_False; [reflexivity |]; intros [-> | ?]%elem_of_cons; contradiction.
Qed.

Definition prevouts (tx : CTransaction) : list COutPoint := map prevout (tx_vin tx).

Lemma add_inputs_other p vin o : forall i next, o ∉ map prevout vin -> add_inputs p i vin next !! o = next !! o.
Proof.
  induction vin as [| x vin IH]; intros i next Ho; [reflexivity |]; cbn [add_inputs map] in *; apply not_elem_of_cons in Ho as [Hne Ho].
  rewrite IH by exact Ho; now rewrite lookup_insert_ne by congruence.
Qed.

Lemma add_inputs_at p vin k x : forall i next, base.NoDup (map prevout vin) -> vin !! k = Some x ->
  add_inputs p i vin next !! prevout x = Some (mkInPoint p (i + Z.of_nat k)).
Proof.
  revert k; induction vin as [| y vin IH]; intros k i next Hd Hk; [discriminate |]; cbn [add_inputs map] in *; apply list_relations.list.NoDup_cons in Hd as [Hn Hd].
  destruct k as [| k]; cbn in Hk.
  - injection Hk as ->; rewrite add_inputs_other by exact Hn; rewrite lookup_insert_eq, Z.add_0_r; reflexivity.
  - rewrite (IH k (i + 1) _ Hd Hk); do 2 f_equal; lia.
Qed.

(** Sums over the elements. *)
Definition total (f : CTxMemPoolEntry -> Z) (l : list CTxMemPoolEntry) : Z := foldr (fun e n => f e + n) 0 l.

#[global] Instance total_perm f : Proper (Permutation ==> eq) (total f).
Proof. unfold total; induction 1 as [| x l l2 _ IH | x y l | l1 l2 l3 _ IH1 _ IH2]; cbn; [reflexivity | now rewrite IH | lia | congruence]. Qed.

Definition elements (m : CTxMemPool) : list CTxMemPoolEntry := map snd (map_to_list (nodes m)).

(** ** The invariant *)

Section Pool.
Context `{HashFunctions}.

(** The pool has the transaction. *)
Definition has (m : CTxMemPool) (tx : uint256 * CTransaction) : Prop := exists p e, nodes m !! p = Some e /\ GetTx e = tx.
Definition present (m : CTxMemPool) (h : uint256) : Prop := is_Some (mapTx m !! h).

Definition spends (tx : CTransaction) (o : COutPoint) : Prop := IsCoinImport tx = false /\ o ∈ prevouts tx.

(** The output index that marks an import. *)
Definition import_index (o : COutPoint) : Prop := op_n o = 1000000000.

Record pool_ok (m : CTxMemPool) : Prop := {
  po_tx : forall h p, mapTx m !! h = Some p <-> exists e, nodes m !! p = Some e /\ (GetTx e).1 = h;
  po_fresh : forall p, is_Some (nodes m !! p) -> (p < next_node m)%nat;
  po_next : forall o ip, mapNextTx m !! o = Some ip <->
    exists e x k, nodes m !! ip_ptx ip = Some e /\ IsCoinImport (GetTx e).2 = false /\ tx_vin (GetTx e).2 !! k = Some x /\ ip_n ip = Z.of_nat k /\ prevout x = o;
  po_marks : forall k p, mapShielded m !! k = Some p <-> exists e, nodes m !! p = Some e /\ k ∈ marks (GetTx e).2;
  po_recent : forall h p, mapRecentlyAddedTx m !! h = Some p -> exists e, nodes m !! p = Some e /\ (GetTx e).1 = h;
  po_index : forall p e o, nodes m !! p = Some e -> spends (GetTx e).2 o -> ~ import_index o;
  po_size : totalTxSize m = u64 (total GetTxSize (elements m));
  po_usage : cachedInnerUsage m = u64 (total DynamicMemoryUsage (elements m));
}.

Lemma empty_ok : pool_ok empty_pool.
Proof.
  split; try reflexivity; cbn.
  - intros h p; split; [discriminate | intros (e & E & _); discriminate].
  - intros p [e E]; discriminate.
  - intros o ip; split; [discriminate | intros (e & x & k & E & _); discriminate].
  - intros k p; split; [discriminate | intros (e & E & _); discriminate].
  - discriminate.
  - discriminate.
Qed.

(** Addresses and hashes. *)
Lemma node_hash m p e : pool_ok m -> nodes m !! p = Some e -> mapTx m !! (GetTx e).1 = Some p.
Proof. intros Hok Hp; apply (po_tx _ Hok); eauto. Qed.

Lemma node_unique m p q e e' : pool_ok m -> nodes m !! p = Some e -> nodes m !! q = Some e' -> (GetTx e).1 = (GetTx e').1 -> p = q /\ e = e'.
Proof.
  intros Hok Hp Hq E; pose proof (node_hash m p e Hok Hp) as H1; rewrite E, (node_hash m q e' Hok Hq) in H1; injection H1 as ->.
  split; congruence.
Qed.

Lemma find_entry_some m h p e : pool_ok m -> find_entry m h = Some (p, e) <-> nodes m !! p = Some e /\ (GetTx e).1 = h.
Proof.
  intros Hok; unfold find_entry; split.
  - destruct (mapTx m !! h) as [q |] eqn:Eh; [| discriminate]; destruct (nodes m !! q) as [e' |] eqn:Eq; [| discriminate]; intros [= -> ->].
    split; [exact Eq |]; apply (po_tx _ Hok) in Eh as (e' & E' & <-); congruence.
  - intros [Hp <-]; now rewrite (node_hash m p e Hok Hp), Hp.
Qed.

Lemma find_entry_none m h : pool_ok m -> find_entry m h = None <-> ~ present m h.
Proof.
  intros Hok; unfold find_entry, present; destruct (mapTx m !! h) as [p |] eqn:Eh; [| split; [intros _ [? [=]] | reflexivity]].
  apply (po_tx _ Hok) in Eh as (e & -> & _); split; [discriminate | intros []; eauto].
Qed.

Lemma present_has m h : pool_ok m -> present m h <-> exists tx, has m tx /\ tx.1 = h.
Proof.
  intros Hok; split.
  - intros [p Hp]; apply (po_tx _ Hok) in Hp as (e & He & <-); exists (GetTx e); split; [exists p, e; auto | reflexivity].
  - intros (tx & (p & e & Hp & <-) & <-); exists p; exact (node_hash m p e Hok Hp).
Qed.

Lemma has_unique m t t' : pool_ok m -> has m t -> has m t' -> t.1 = t'.1 -> t = t'.
Proof. intros Hok (p & e & Hp & <-) (q & e' & Hq & <-) E; now destruct (node_unique m p q e e' Hok Hp Hq E) as [_ ->]. Qed.

(** Who spends an outpoint. *)
Lemma next_spends m o : pool_ok m -> (exists ip, mapNextTx m !! o = Some ip) <-> exists tx, has m tx /\ spends tx.2 o.
Proof.
  intros Hok; split.
  - intros (ip & Hip); apply (po_next _ Hok) in Hip as (e & x & k & He & Hi & Hk & _ & <-); exists (GetTx e); split; [exists (ip_ptx ip), e; auto |].
    split; [exact Hi |]; apply list_elem_of_fmap; exists x; split; [reflexivity | eapply list_elem_of_lookup_2; eauto].
  - intros (tx & (p & e & Hp & <-) & Hi & Ho); apply list_elem_of_fmap in Ho as (x & -> & Hx); apply list_elem_of_lookup_1 in Hx as (k & Hk).
    exists (mkInPoint p (Z.of_nat k)); apply (po_next _ Hok); exists e, x, k; auto.
Qed.

Lemma next_owner m o ip : pool_ok m -> mapNextTx m !! o = Some ip -> exists e, nodes m !! ip_ptx ip = Some e /\ spends (GetTx e).2 o.
Proof.
  intros Hok Hip; apply (po_next _ Hok) in Hip as (e & x & k & He & Hi & Hk & _ & <-); exists e; split; [exact He |]; split; [exact Hi |].
  apply list_elem_of_fmap; exists x; split; [reflexivity | eapply list_elem_of_lookup_2; eauto].
Qed.

(** Two transactions of the pool do not spend one outpoint, nor share a mark. *)
Lemma spends_once m t t' o : pool_ok m -> has m t -> has m t' -> spends t.2 o -> spends t'.2 o -> t = t'.
Proof.
  assert (Hip : forall m p e o, pool_ok m -> nodes m !! p = Some e -> spends (GetTx e).2 o -> exists ip, mapNextTx m !! o = Some ip /\ ip_ptx ip = p).
  { intros m0 p e o0 Hok Hp [Hi Ho]; apply list_elem_of_fmap in Ho as (x & -> & Hx); apply list_elem_of_lookup_1 in Hx as (k & Hk).
    exists (mkInPoint p (Z.of_nat k)); split; [| reflexivity]; apply (po_next _ Hok); exists e, x, k; auto. }
  intros Hok (p & e & Hp & <-) (q & e' & Hq & <-) S1 S2; destruct (Hip m p e o Hok Hp S1) as (ip & E1 & <-), (Hip m q e' o Hok Hq S2) as (ip' & E2 & <-).
  assert (ip = ip') as -> by congruence; congruence.
Qed.

Lemma marks_once m t t' k : pool_ok m -> has m t -> has m t' -> k ∈ marks t.2 -> k ∈ marks t'.2 -> t = t'.
Proof.
  intros Hok (p & e & Hp & <-) (q & e' & Hq & <-) M1 M2.
  assert (E1 : mapShielded m !! k = Some p) by (apply (po_marks _ Hok); eauto); assert (E2 : mapShielded m !! k = Some q) by (apply (po_marks _ Hok); eauto).
  congruence.
Qed.

(** ** Erasing an element *)

Lemma elements_delete m p e : nodes m !! p = Some e -> elements m ≡ₚ e :: map snd (map_to_list (delete p (nodes m))).
Proof. intros Hp; unfold elements; rewrite <- (map_to_list_delete _ _ _ Hp); reflexivity. Qed.

Lemma wrap_less a b s : a = s + b -> u64 (u64 a - s) = u64 b.
Proof. intros ->; unfold uwrap; rewrite Zminus_mod_idemp_l; f_equal; lia. Qed.

(** An import has no link, and its outpoint has none. *)
Lemma erased_links m p e o : pool_ok m -> nodes m !! p = Some e -> o ∈ prevouts (GetTx e).2 ->
  forall ip, mapNextTx m !! o = Some ip -> ip_ptx ip = p.
Proof.
  intros Hok Hp Ho ip Hip; destruct (next_owner m o ip Hok Hip) as (e' & He' & S'); destruct (IsCoinImport (GetTx e).2) eqn:Ei.
  - exfalso; apply (po_index _ Hok _ _ o He' S'); unfold IsCoinImport in Ei; unfold prevouts in Ho.
    destruct (tx_vin (GetTx e).2) as [| x [|]]; try discriminate; apply list_elem_of_singleton in Ho as ->; now apply Z.eqb_eq in Ei.
  - assert (E : GetTx e' = GetTx e) by (apply (spends_once m _ _ o Hok); [exists (ip_ptx ip), e'; auto | exists p, e; auto | exact S' | now split]).
    destruct (node_unique m (ip_ptx ip) p e' e Hok He' Hp ltac:(now rewrite E)); assumption.
Qed.

Lemma erase_ok m h p e : pool_ok m -> find_entry m h = Some (p, e) -> pool_ok (erase_entry m h p e).
Proof.
  intros Hok Hf; apply (find_entry_some m h p e Hok) in Hf as [Hp Hh].
  assert (Hd : forall q e', delete p (nodes m) !! q = Some e' <-> q <> p /\ nodes m !! q = Some e').
  { intros q e'; rewrite lookup_delete_Some; split; intros [? ?]; split; congruence. }
  split; cbn [erase_entry nodes mapTx mapNextTx mapShielded mapRecentlyAddedTx next_node totalTxSize cachedInnerUsage].
  - intros h' q; rewrite lookup_delete_Some, (po_tx _ Hok); setoid_rewrite Hd; split.
    + intros (Hne & e' & He' & <-); exists e'; split; [split; [| exact He'] | reflexivity]; intros ->; congruence.
    + intros (e' & [Hne He'] & <-); split; [| eauto]; intros E; rewrite <- Hh in E; destruct (node_unique m p q e e' Hok Hp He' E); congruence.
  - intros q [e' He']; apply Hd in He' as [_ He']; apply (po_fresh _ Hok); eauto.
  - intros o ip; rewrite fold_delete_lookup; fold (prevouts (GetTx e).2); setoid_rewrite Hd; destruct (decide (o ∈ prevouts (GetTx e).2)) as [Ho | Ho].
    + split; [discriminate |]; intros (e' & x & k & [Hne He'] & Hi & Hk & Hn & Hx); destruct Hne; apply (erased_links m p e o Hok Hp Ho ip).
      apply (po_next _ Hok); exists e', x, k; auto.
    + rewrite (po_next _ Hok); split; intros (e' & x & k & He' & Hi & Hk & Hn & Hx); exists e', x, k; (split; [| auto]).
      * split; [| exact He']; intros E; rewrite E in He'; assert (e' = e) as -> by congruence; destruct Ho; subst o; apply list_elem_of_fmap; exists x; split; [reflexivity | eapply list_elem_of_lookup_2; eauto].
      * apply He'.
  - intros k q; rewrite fold_delete_lookup with (key := fun k : mark => k), map_id; setoid_rewrite Hd; destruct (decide (k ∈ marks (GetTx e).2)) as [Hk | Hk].
    + split; [discriminate |]; intros (e' & [Hne He'] & Hk'); destruct Hne.
      assert (E : GetTx e' = GetTx e) by (apply (marks_once m _ _ k Hok); [exists q, e'; auto | exists p, e; auto | exact Hk' | exact Hk]).
      destruct (node_unique m q p e' e Hok He' Hp ltac:(now rewrite E)); assumption.
    + rewrite (po_marks _ Hok); split; intros (e' & He' & Hk'); exists e'; (split; [| exact Hk']); [split; [| exact He']; intros ->; congruence | apply He'].
  - intros h' q Hq; apply lookup_delete_Some in Hq as [Hne Hq]; apply (po_recent _ Hok) in Hq as (e' & He' & <-); exists e'; split; [| reflexivity].
    apply Hd; split; [intros ->; congruence | exact He'].
  - intros q e' o He'; apply Hd in He' as [_ He']; exact (po_index _ Hok q e' o He').
  - rewrite (po_size _ Hok); apply wrap_less; rewrite (elements_delete m p e Hp); reflexivity.
  - rewrite (po_usage _ Hok); apply wrap_less; rewrite (elements_delete m p e Hp); reflexivity.
Qed.

(** ** Adding a transaction *)

(** What AcceptToMemoryPool has checked. *)
Record addable (m : CTxMemPool) (tx : uint256 * CTransaction) : Prop := {
  ad_new : mapTx m !! tx.1 = None;
  ad_distinct : base.NoDup (prevouts tx.2);
  ad_inputs : forall o, o ∈ prevouts tx.2 -> mapNextTx m !! o = None;
  ad_marks : forall k, k ∈ marks tx.2 -> mapShielded m !! k = None;
  ad_index : forall o, spends tx.2 o -> ~ import_index o;
}.

Lemma new_node m : pool_ok m -> nodes m !! next_node m = None.
Proof. intros Hok; destruct (nodes m !! next_node m) eqn:E; [| reflexivity]; pose proof (po_fresh _ Hok (next_node m) ltac:(eauto)); lia. Qed.

(** A fresh element owns no mark, and no link. *)
Lemma insert_node m e q e' : pool_ok m -> <[next_node m := e]> (nodes m) !! q = Some e' <-> (q = next_node m /\ e' = e) \/ (nodes m !! q = Some e').
Proof.
  intros Hok; rewrite lookup_insert_Some; pose proof (new_node m Hok); split.
  - intros [[<- <-] | [_ ?]]; auto.
  - intros [[-> ->] | Hq]; [now left | right; split; [congruence | exact Hq]].
Qed.

Lemma wrap_more a b s : b = s + a -> u64 (u64 a + s) = u64 b.
Proof. intros ->; unfold uwrap; rewrite Zplus_mod_idemp_l; f_equal; lia. Qed.

Lemma elements_insert m e : pool_ok m -> map snd (map_to_list (<[next_node m := e]> (nodes m))) ≡ₚ e :: elements m.
Proof. intros Hok; rewrite (map_to_list_insert _ _ e (new_node m Hok)); reflexivity. Qed.

Lemma add_ok {E} m e : pool_ok m -> addable m (GetTx e) ->
  exists m', addUnchecked (E := E) m (GetTx e).1 e = Ok m' /\ pool_ok m' /\ nodes m' = <[next_node m := e]> (nodes m) /\ mapDeltas m' = mapDeltas m.
Proof.
  intros Hok [Hnew Hdist Hin Hmk Hix]; unfold addUnchecked; rewrite Hnew; unfold find_entry; cbn [mapTx nodes]; rewrite !lookup_insert_eq.
  eexists; split; [reflexivity |]; split; [| split; reflexivity]; pose proof (fun q e' => insert_node m e q e' Hok) as Hd; pose proof (new_node m Hok) as Hnn.
  split; cbn [nodes mapTx mapNextTx mapShielded mapRecentlyAddedTx next_node totalTxSize cachedInnerUsage].
  - intros h q; rewrite lookup_insert_Some, (po_tx _ Hok); setoid_rewrite Hd; split.
    + intros [[<- <-] | [Hne (e' & He' & Hh)]]; [exists e; auto | exists e'; auto].
    + intros (e' & [[-> ->] | He'] & <-); [auto |]; right; split; [| eauto].
      intros E1; pose proof (node_hash m q e' Hok He') as Hq; congruence.
  - intros q [e' He']; apply Hd in He' as [[-> ->] | He']; [lia |]; pose proof (po_fresh _ Hok q ltac:(eauto)); lia.
  - intros o ip; setoid_rewrite Hd; destruct (IsCoinImport (GetTx e).2) eqn:Ei; cbn [negb].
    + rewrite (po_next _ Hok); split; intros (e' & x & k & He' & Hi & Hk & Hn & Hx); exists e', x, k; (split; [| auto]); [now right |].
      destruct He' as [[_ ->] | He']; [congruence | exact He'].
    + destruct (decide (o ∈ prevouts (GetTx e).2)) as [Ho | Ho].
      * split.
        -- intros Hip; apply list_elem_of_fmap in Ho as (x & -> & Hx); apply list_elem_of_lookup_1 in Hx as (k & Hk).
           rewrite (add_inputs_at _ _ k x 0 _ Hdist Hk) in Hip; injection Hip as <-; exists e, x, k; split; [now left | auto].
        -- intros (e' & x & k & He' & Hi & Hk & Hn & Hx); destruct He' as [[Hq ->] | He'].
           ++ subst o; rewrite (add_inputs_at _ _ k x 0 _ Hdist Hk); destruct ip as [q n]; cbn in *; subst; reflexivity.
           ++ exfalso; assert (Hno : mapNextTx m !! o = Some ip) by (apply (po_next _ Hok); exists e', x, k; auto); rewrite (Hin o Ho) in Hno; discriminate.
      * rewrite add_inputs_other by exact Ho; rewrite (po_next _ Hok); split; intros (e' & x & k & He' & Hi & Hk & Hn & Hx); exists e', x, k; (split; [| auto]); [now right |].
        destruct He' as [[_ ->] | He']; [| exact He']; destruct Ho; subst o; apply list_elem_of_fmap; exists x; split; [reflexivity | eapply list_elem_of_lookup_2; eauto].
  - intros k q; rewrite fold_insert_lookup; setoid_rewrite Hd; destruct (decide (k ∈ marks (GetTx e).2)) as [Hk | Hk].
    + split; [intros [= <-]; exists e; auto |]; intros (e' & [[-> ->] | He'] & Hk'); [reflexivity |].
      exfalso; assert (Hno : mapShielded m !! k = Some q) by (apply (po_marks _ Hok); eauto); rewrite (Hmk k Hk) in Hno; discriminate.
    + rewrite (po_marks _ Hok); split; [intros (e' & He' & Hk'); exists e'; auto |]; intros (e' & [[_ ->] | He'] & Hk'); [contradiction | eauto].
  - intros h q Hq; setoid_rewrite Hd; apply lookup_insert_Some in Hq as [[<- <-] | [_ Hq]]; [exists e; auto |].
    apply (po_recent _ Hok) in Hq as (e' & He' & <-); exists e'; auto.
  - intros q e' o He'; apply Hd in He' as [[_ ->] | He']; [apply Hix | exact (po_index _ Hok q e' o He')].
  - rewrite (po_size _ Hok); apply wrap_more; unfold elements at 1; cbn [nodes]; rewrite (elements_insert m e Hok); reflexivity.
  - rewrite (po_usage _ Hok); apply wrap_more; unfold elements at 1; cbn [nodes]; rewrite (elements_insert m e Hok); reflexivity.
Qed.

(** ** Removing *)

(** [c] spends an output of the entry with the hash [h]. *)
Definition spends_output (c : CTransaction) (t : uint256 * CTransaction) : Prop :=
  exists i, 0 <= i < zlen (tx_vout t.2) /\ spends c (mkOutPoint t.1 i).

Definition child (recursive : bool) (m : CTxMemPool) (h h' : uint256) : Prop :=
  recursive = true /\ exists t c, has m t /\ has m c /\ t.1 = h /\ c.1 = h' /\ spends_output c.2 t.

Lemma spenders_ok {E} m h n : pool_ok m -> forall i, exists l, spenders (E := E) m h n i = Ok l /\
  forall h', h' ∈ l <-> exists c k, has m c /\ c.1 = h' /\ i <= k < i + Z.of_nat n /\ spends c.2 (mkOutPoint h k).
Proof.
  intros Hok; induction n as [| n IH]; intros i; cbn [spenders].
  { exists []; split; [reflexivity |]; intros h'; split; [intros Hi; now apply not_elem_of_nil in Hi | intros (c & k & _ & _ & Hk & _); lia]. }
  destruct (IH (i + 1)) as (l & El & Hl); destruct (mapNextTx m !! mkOutPoint h i) as [ip |] eqn:Eo.
  - destruct (next_owner m _ ip Hok Eo) as (e & He & Se); unfold deref; rewrite He; cbn [mbind res_bind]; rewrite El; cbn [mbind res_bind].
    exists ((GetTx e).1 :: l); split; [reflexivity |]; intros h'; rewrite elem_of_cons, Hl; split.
    + intros [-> | (c & k & Hc & Hh & Hk & Sc)]; [exists (GetTx e), i; split; [exists (ip_ptx ip), e; auto | split; [reflexivity | split; [lia | exact Se]]] |].
      exists c, k; split; [exact Hc |]; split; [exact Hh |]; split; [lia | exact Sc].
    + intros (c & k & Hc & Hh & Hk & Sc); destruct (decide (k = i)) as [-> |].
      * left; rewrite <- Hh; f_equal; apply (spends_once m _ _ (mkOutPoint h i) Hok); [exact Hc | exists (ip_ptx ip), e; auto | exact Sc | exact Se].
      * right; exists c, k; split; [exact Hc |]; split; [exact Hh |]; split; [lia | exact Sc].
  - exists l; split; [exact El |]; intros h'; rewrite Hl; split; intros (c & k & Hc & Hh & Hk & Sc); exists c, k; (split; [exact Hc |]; split; [exact Hh |]; split; [| exact Sc]); [lia |].
    destruct (decide (k = i)) as [-> |]; [| lia]; destruct (proj2 (next_spends m (mkOutPoint h i) Hok)) as (ip & Hip); [exists c; auto | congruence].
Qed.

(** Erasing, in terms of transactions. *)
Lemma erase_has m h p e t : pool_ok m -> find_entry m h = Some (p, e) -> has (erase_entry m h p e) t <-> has m t /\ t.1 <> h.
Proof.
  intros Hok Hf; apply (find_entry_some m h p e Hok) in Hf as [Hp Hh]; unfold has; cbn [erase_entry nodes]; split.
  - intros (q & e' & Hq & <-); apply lookup_delete_Some in Hq as [Hne Hq]; split; [exists q, e'; auto |].
    intros E; rewrite <- Hh in E; destruct (node_unique m q p e' e Hok Hq Hp E); congruence.
  - intros [(q & e' & Hq & <-) Hne]; exists q, e'; split; [| reflexivity]; apply lookup_delete_Some; split; [intros ->; congruence | exact Hq].
Qed.

Lemma erase_present m h p e h' : pool_ok m -> find_entry m h = Some (p, e) -> present (erase_entry m h p e) h' <-> present m h' /\ h' <> h.
Proof.
  intros Hok Hf; rewrite (present_has _ h' (erase_ok m h p e Hok Hf)), (present_has m h' Hok); setoid_rewrite (erase_has m h p e _ Hok Hf); split.
  - intros (t & [Ht Hne] & <-); eauto.
  - intros [(t & Ht & <-) Hne]; eauto.
Qed.

Lemma erase_child rc m h p e a b : pool_ok m -> find_entry m h = Some (p, e) -> child rc (erase_entry m h p e) a b <-> child rc m a b /\ a <> h /\ b <> h.
Proof.
  intros Hok Hf; unfold child; setoid_rewrite (erase_has m h p e _ Hok Hf); split.
  - intros (Hr & t & c & [Ht Hnt] & [Hc Hnc] & <- & <- & S); split; [| auto]; split; [exact Hr |]; exists t, c; auto.
  - intros [(Hr & t & c & Ht & Hc & <- & <- & S) [Ha Hb]]; split; [exact Hr |]; exists t, c; auto.
Qed.

(** A path that avoids the erased element, or one from a child of it. *)
Lemma path_around rc m h p e q h' : pool_ok m -> find_entry m h = Some (p, e) -> h' <> h -> rtc (child rc m) q h' ->
  (q <> h /\ rtc (child rc (erase_entry m h p e)) q h') \/ exists c, child rc m h c /\ rtc (child rc (erase_entry m h p e)) c h'.
Proof.
  intros Hok Hf Hne; induction 1 as [q | q q' h' Hc _ IH]; [left; split; [exact Hne | reflexivity] |].
  destruct (IH Hne) as [[Hq' P] | R]; [| now right]; destruct (decide (q = h)) as [-> | Hq]; [right; eauto |].
  left; split; [exact Hq |]; eapply rtc_l; [apply (erase_child rc m h p e q q' Hok Hf) |]; eauto.
Qed.

Lemma path_back rc m h p e q h' : pool_ok m -> find_entry m h = Some (p, e) -> rtc (child rc (erase_entry m h p e)) q h' -> rtc (child rc m) q h'.
Proof. intros Hok Hf; apply rtc_subrel; intros a b Hab; now apply (erase_child rc m h p e a b Hok Hf) in Hab. Qed.

Lemma absent_leaf rc m q h : pool_ok m -> ~ present m q -> rtc (child rc m) q h -> h = q.
Proof.
  intros Hok Hq; inversion 1 as [| ? b ? (_ & t & c & Ht & _ & Et & _) _]; subst; [reflexivity |]; destruct Hq; apply (present_has m _ Hok); eauto.
Qed.

Lemma outputs_erase m h p e : pool_ok m -> find_entry m h = Some (p, e) ->
  pool_outputs m = (length (tx_vout (GetTx e).2) + pool_outputs (erase_entry m h p e))%nat.
Proof.
  intros Hok Hf; apply (find_entry_some m h p e Hok) in Hf as [Hp _]; unfold pool_outputs; cbn [erase_entry nodes].
  assert (P : forall l l' : list (nat * CTxMemPoolEntry), l ≡ₚ l' ->
    foldr (fun pe n => (length (tx_vout (GetTx pe.2).2) + n)%nat) 0%nat l = foldr (fun pe n => (length (tx_vout (GetTx pe.2).2) + n)%nat) 0%nat l').
  { induction 1; cbn; lia. }
  rewrite (P _ _ (symmetry (map_to_list_delete _ _ _ Hp))); reflexivity.
Qed.

(** The pool after removals: an older pool without some of its elements. *)
Record shrunk (m m' : CTxMemPool) : Prop := {
  sh_ok : pool_ok m';
  sh_nodes : nodes m' ⊆ nodes m;
}.

Lemma shrunk_has m m' t : shrunk m m' -> has m' t -> has m t.
Proof. intros [_ S] (p & e & Hp & <-); exists p, e; split; [exact (lookup_weaken _ _ _ _ Hp S) | reflexivity]. Qed.

Lemma shrunk_trans m m1 m2 : shrunk m m1 -> shrunk m1 m2 -> shrunk m m2.
Proof. intros [_ S1] [O2 S2]; split; [exact O2 | now transitivity (nodes m1)]. Qed.

Lemma erase_shrunk m h p e : pool_ok m -> find_entry m h = Some (p, e) -> shrunk m (erase_entry m h p e).
Proof. intros Hok Hf; split; [now apply erase_ok | cbn; apply delete_subseteq]. Qed.

Definition gone (rc : bool) (m : CTxMemPool) (queue : list uint256) (h : uint256) : Prop := exists q, q ∈ queue /\ rtc (child rc m) q h.

Lemma gone_absent rc m h queue h' : pool_ok m -> ~ present m h -> h' <> h -> gone rc m (h :: queue) h' <-> gone rc m queue h'.
Proof.
  intros Hok Hn Hne; split; intros (q & Hq & P).
  - apply elem_of_cons in Hq as [-> | Hq]; [now apply absent_leaf in P | exists q; auto].
  - exists q; split; [now right | exact P].
Qed.

Lemma gone_erase rc m h p e queue children h' : pool_ok m -> find_entry m h = Some (p, e) -> (forall c, c ∈ children <-> child rc m h c) -> h' <> h ->
  gone rc m (h :: queue) h' <-> gone rc (erase_entry m h p e) (queue ++ children) h'.
Proof.
  intros Hok Hf Hch Hne; split; intros (q & Hq & P).
  - destruct (path_around rc m h p e q h' Hok Hf Hne P) as [[Hqh P'] | (c & Hc & P')].
    + exists q; split; [| exact P']; apply elem_of_cons in Hq as [-> | Hq]; [contradiction | apply elem_of_app; now left].
    + exists c; split; [apply elem_of_app; right; now apply Hch | exact P'].
  - apply path_back in P; [| exact Hok | exact Hf]; apply elem_of_app in Hq as [Hq | Hq]; [exists q; split; [now right | exact P] |].
    exists h; split; [now left |]; eapply rtc_l; [apply Hch; exact Hq | exact P].
Qed.

(** The children that the loop looks up. *)
Lemma children_ok {E} (rc : bool) m h p e : pool_ok m -> find_entry m h = Some (p, e) ->
  exists l, (if rc then spenders (E := E) m h (length (tx_vout (GetTx e).2)) 0 else Ok []) = Ok l /\ (forall c, c ∈ l <-> child rc m h c) /\
    (length l <= length (tx_vout (GetTx e).2))%nat.
Proof.
  intros Hok Hf; apply (find_entry_some m h p e Hok) in Hf as [Hp Hh]; destruct rc.
  - destruct (spenders_ok (E := E) m h (length (tx_vout (GetTx e).2)) Hok 0) as (l & El & Hl); exists l; split; [exact El |]; split.
    + intros c'; rewrite Hl; split.
      * intros (c & k & Hc & <- & Hk & S); split; [reflexivity |]; exists (GetTx e), c; split; [exists p, e; auto |]; split; [exact Hc |]; split; [exact Hh |].
        split; [reflexivity |]; exists k; unfold zlen; rewrite Hh; split; [lia | exact S].
      * intros (_ & t & c & Ht & Hc & Et & <- & i & Hi & S); assert (t = GetTx e) as -> by (apply (has_unique m _ _ Hok Ht); [exists p, e; auto | congruence]).
        exists c, i; rewrite <- Hh; unfold zlen in Hi; split; [exact Hc |]; split; [reflexivity |]; split; [lia | exact S].
    + clear Hl; revert l El; generalize 0 as i, (length (tx_vout (GetTx e).2)) as n; intros i n; revert i; induction n as [| n IH]; intros i l; cbn [spenders]; [intros [= <-]; cbn; lia |].
      destruct (mapNextTx m !! _); [| intros El; apply IH in El; cbn; lia].
      destruct (deref m _); cbn [mbind res_bind]; try discriminate; destruct (spenders m h n (i + 1)) as [r | |] eqn:Er; cbn [mbind res_bind]; try discriminate.
      intros [= <-]; apply IH in Er; cbn; lia.
  - exists []; split; [reflexivity |]; split; [| cbn; lia]; intros c; split; [intros Hc; now apply not_elem_of_nil in Hc | intros [? _]; discriminate].
Qed.

Lemma remove_loop_ok {E} fuel rc : forall m queue removed, pool_ok m -> (length queue + pool_outputs m <= fuel)%nat ->
  exists m' rm, remove_loop (E := E) fuel m queue rc removed = Ok (m', removed ++ rm) /\ shrunk m m' /\
    (forall h, present m' h <-> present m h /\ ~ gone rc m queue h) /\ (forall t, t ∈ rm <-> has m t /\ gone rc m queue t.1).
Proof.
  induction fuel as [| fuel IH]; intros m queue removed Hok Hf.
  { destruct queue; [| cbn in Hf; lia]; exists m, []; rewrite app_nil_r; split; [reflexivity |]; split; [now split |].
    split; [intros h; split; [intros Hp; split; [exact Hp |]; intros (q & Hq & _); now apply not_elem_of_nil in Hq | tauto] |].
    intros t; split; [intros Ht; now apply not_elem_of_nil in Ht | intros [_ (q & Hq & _)]; now apply not_elem_of_nil in Hq]. }
  destruct queue as [| h queue]; cbn [remove_loop].
  { exists m, []; rewrite app_nil_r; split; [reflexivity |]; split; [now split |].
    split; [intros h; split; [intros Hp; split; [exact Hp |]; intros (q & Hq & _); now apply not_elem_of_nil in Hq | tauto] |].
    intros t; split; [intros Ht; now apply not_elem_of_nil in Ht | intros [_ (q & Hq & _)]; now apply not_elem_of_nil in Hq]. }
  cbn [length] in Hf; destruct (find_entry m h) as [[p e] |] eqn:Ef.
  - destruct (children_ok (E := E) rc m h p e Hok Ef) as (l & -> & Hl & Hlen); cbn [mbind res_bind].
    pose proof (erase_ok m h p e Hok Ef) as Hok1; pose proof (outputs_erase m h p e Hok Ef) as Ho.
    destruct (IH (erase_entry m h p e) (queue ++ l) (removed ++ [GetTx e]) Hok1 ltac:(rewrite length_app; lia)) as (m' & rm & -> & Sh & Hp & Hr).
    exists m', (GetTx e :: rm); rewrite <- app_assoc; split; [reflexivity |]; split; [eapply shrunk_trans; [exact (erase_shrunk m h p e Hok Ef) | exact Sh] |].
    pose proof (proj1 (find_entry_some m h p e Hok) Ef) as [Hpe Hh].
    assert (Hself : gone rc m (h :: queue) h) by (exists h; split; [left | reflexivity]); split.
    + intros h'; rewrite Hp, (erase_present m h p e h' Hok Ef); destruct (decide (h' = h)) as [-> | Hne]; [tauto |].
      rewrite <- (gone_erase rc m h p e queue l h' Hok Ef Hl Hne); tauto.
    + intros t; rewrite elem_of_cons, Hr, (erase_has m h p e t Hok Ef); destruct (decide (t.1 = h)) as [Eh | Hne].
      * rewrite Eh; split; [intros [-> | [[_ ?] _]]; [split; [exists p, e; auto | exact Hself] | contradiction] |].
        intros [Ht _]; left; apply (has_unique m _ _ Hok Ht); [exists p, e; auto | congruence].
      * rewrite <- (gone_erase rc m h p e queue l t.1 Hok Ef Hl Hne); split; [intros [-> | ?]; [congruence | tauto] | tauto].
  - destruct (IH m queue removed Hok ltac:(lia)) as (m' & rm & -> & Sh & Hp & Hr); exists m', rm; split; [reflexivity |]; split; [exact Sh |].
    apply (find_entry_none m h Hok) in Ef; split.
    + intros h'; rewrite Hp; split; intros [Hpr Hg]; (split; [exact Hpr |]); rewrite (gone_absent rc m h queue h' Hok Ef) in *; auto; intros ->; contradiction.
    + intros t; rewrite Hr; split; intros [Ht Hg]; (split; [exact Ht |]); assert (Hne : t.1 <> h) by (intros E1; apply Ef, (present_has m h Hok); eauto);
        [rewrite (gone_absent rc m h queue t.1 Hok Ef Hne) | rewrite (gone_absent rc m h queue t.1 Hok Ef Hne) in Hg]; exact Hg.
Qed.

(** What depends on a transaction: itself, and what spends an output of something
    that depends on it. *)
Inductive depends (m : CTxMemPool) (tx : uint256 * CTransaction) : uint256 * CTransaction -> Prop :=
| dep_self : depends m tx tx
| dep_child t c : depends m tx t -> has m c -> spends_output c.2 t -> depends m tx c.

Lemma depends_in m tx t : depends m tx t -> t = tx \/ has m t.
Proof. destruct 1; auto. Qed.

(** The pool holds no other transaction with the same hash. *)
Definition known (m : CTxMemPool) (tx : uint256 * CTransaction) : Prop := present m tx.1 -> has m tx.

Lemma known_shrunk m m' tx : pool_ok m -> shrunk m m' -> known m tx -> known m' tx.
Proof.
  intros Hok S K Hp; apply (present_has m' _ (sh_ok _ _ S)) in Hp as (t & Ht & E); pose proof (shrunk_has m m' t S Ht) as Ht0.
  assert (t = tx) as <- by (apply (has_unique m _ _ Hok Ht0); [apply K, (present_has m _ Hok); eauto | exact E]); exact Ht.
Qed.

Lemma has_known m tx : has m tx -> known m tx.
Proof. now intros Ht _. Qed.

Lemma path_depends m tx a b : pool_ok m -> rtc (child true m) a b -> (forall t, has m t -> t.1 = a -> depends m tx t) -> forall t, has m t -> t.1 = b -> depends m tx t.
Proof.
  intros Hok; induction 1 as [a | a a1 b (_ & t0 & c & Ht0 & Hc & E0 & E1 & S) _ IH]; intros Hd; [exact Hd |].
  apply IH; intros t Ht E; assert (t = c) as -> by (apply (has_unique m _ _ Hok Ht Hc); congruence).
  apply (dep_child m tx t0 c); auto.
Qed.

Lemma gone_depends m tx queue t : pool_ok m -> known m tx -> has m t ->
  (forall q, q ∈ queue <-> q = tx.1 \/ (~ present m tx.1 /\ exists c, has m c /\ c.1 = q /\ spends_output c.2 tx)) ->
  gone true m queue t.1 <-> depends m tx t.
Proof.
  intros Hok K Ht Hq; split.
  - intros (q & Hin & P); apply (path_depends m tx q t.1 Hok P); [| exact Ht | reflexivity]; intros t0 H0 E0.
    apply Hq in Hin as [-> | (_ & c & Hc & <- & S)].
    + assert (t0 = tx) as -> by (apply (has_unique m _ _ Hok H0); [apply K, (present_has m _ Hok); eauto | exact E0]); apply dep_self.
    + assert (t0 = c) as -> by exact (has_unique m _ _ Hok H0 Hc E0); apply (dep_child m tx tx c); auto using dep_self.
  - clear Ht; induction 1 as [| t c D IH Hc S]; [exists tx.1; split; [apply Hq; now left | reflexivity] |].
    assert (Hedge : has m t -> gone true m queue c.1).
    { intros Ht; destruct IH as (q & Hin & P); exists q; split; [exact Hin |]; eapply rtc_r; [exact P |]; split; [reflexivity |]; exists t, c; auto. }
    destruct (depends_in m tx t D) as [-> | Ht]; [| auto]; destruct (decide (is_Some (mapTx m !! tx.1))) as [Hp | Hn]; [auto |].
    exists c.1; split; [| reflexivity]; apply Hq; right; split; [exact Hn | eauto].
Qed.

(** What a removal takes away. *)
Definition dropped (rc : bool) (m : CTxMemPool) (tx t : uint256 * CTransaction) : Prop := if rc then depends m tx t else t = tx.

Lemma remove_ok {E} m tx removed rc : pool_ok m -> known m tx ->
  exists m' rm, remove (E := E) m tx removed rc = Ok (m', removed ++ rm) /\ shrunk m m' /\
    (forall t, has m' t <-> has m t /\ ~ dropped rc m tx t) /\ (forall t, t ∈ rm <-> has m t /\ dropped rc m tx t).
Proof.
  intros Hok K; unfold remove.
  assert (Hc : exists l, (if rc && negb (pool_exists m tx.1) then spenders (E := E) m tx.1 (length (tx_vout tx.2)) 0 else Ok []) = Ok l /\
    forall t, has m t -> gone rc m (tx.1 :: l) t.1 <-> dropped rc m tx t).
  { unfold pool_exists; destruct rc; cbn [andb dropped].
    - destruct (bool_decide (is_Some (mapTx m !! tx.1))) eqn:Eb; cbn [negb].
      + apply bool_decide_eq_true in Eb; exists []; split; [reflexivity |]; intros t Ht; apply gone_depends; auto; intros q; rewrite list_elem_of_singleton; split; [auto | intros [? | [[] _]]; auto].
      + apply bool_decide_eq_false in Eb; destruct (spenders_ok (E := E) m tx.1 (length (tx_vout tx.2)) Hok 0) as (l & -> & Hl); exists l; split; [reflexivity |].
        intros t Ht; apply gone_depends; auto; intros q; rewrite elem_of_cons, Hl; split.
        * intros [-> | (c & k & Hc & Hh & Hk & S)]; [now left | right; split; [exact Eb |]; exists c; split; [exact Hc |]; split; [exact Hh |]; exists k; unfold zlen; auto].
        * intros [-> | (_ & c & Hc & Hh & k & Hk & S)]; [now left | right; exists c, k; unfold zlen in Hk; auto].
    - exists []; split; [reflexivity |]; intros t Ht; split.
      + intros (q & ->%list_elem_of_singleton & P); inversion P as [| ? ? ? [Ef _] _]; [| discriminate].
        apply (has_unique m _ _ Hok Ht); [apply K, (present_has m _ Hok); eauto | congruence].
      + intros ->; exists tx.1; split; [left | reflexivity]. }
  destruct Hc as (l & -> & Hg); cbn [mbind res_bind].
  destruct (remove_loop_ok (E := E) (length (tx.1 :: l) + pool_outputs m) rc m (tx.1 :: l) removed Hok ltac:(lia)) as (m' & rm & -> & Sh & Hp & Hr).
  exists m', rm; split; [reflexivity |]; split; [exact Sh |]; split.
  - intros t; split.
    + intros Ht; pose proof (shrunk_has m m' t Sh Ht) as Ht0; split; [exact Ht0 |]; rewrite <- (Hg t Ht0).
      apply Hp, (present_has m' _ (sh_ok _ _ Sh)); eauto.
    + intros [Ht Hn]; rewrite <- (Hg t Ht) in Hn; assert (Hpr : present m' t.1) by (apply Hp; split; [apply (present_has m _ Hok); eauto | exact Hn]).
      apply (present_has m' _ (sh_ok _ _ Sh)) in Hpr as (t' & Ht' & E'); now rewrite <- (has_unique m _ _ Hok (shrunk_has m m' t' Sh Ht') Ht E').
  - intros t; rewrite Hr; split; intros [Ht Hd]; (split; [exact Ht |]); now apply (Hg t Ht).
Qed.

(** ** Closed removals *)

(** Nothing is left that spends an output of something that was removed. *)
Definition closed (m m' : CTxMemPool) : Prop := forall r c, has m r -> ~ has m' r -> has m' c -> ~ spends_output c.2 r.

Lemma closed_refl m : closed m m.
Proof. intros r c Hr Hn; contradiction. Qed.

Lemma remove_closed m m' tx : (forall t, has m' t <-> has m t /\ ~ depends m tx t) -> closed m m'.
Proof.
  intros Hm r c Hr Hn Hc S; apply Hm in Hc as [Hc Hd]; apply Hn, Hm; split; [exact Hr |]; intros D; apply Hd; now apply (dep_child m tx r c).
Qed.

Lemma still_there m m1 r : pool_ok m -> shrunk m m1 -> has m r -> has m1 r \/ ~ present m1 r.1.
Proof.
  intros Hok S Hr; destruct (decide (is_Some (mapTx m1 !! r.1))) as [Hp | Hn]; [left | now right].
  apply (present_has m1 _ (sh_ok _ _ S)) in Hp as (t & Ht & E); now rewrite <- (has_unique m _ _ Hok (shrunk_has m m1 t S Ht) Hr E).
Qed.

Lemma closed_trans m m1 m2 : pool_ok m -> shrunk m m1 -> shrunk m1 m2 -> closed m m1 -> closed m1 m2 -> closed m m2.
Proof.
  intros Hok S1 S C1 C2 r c Hr Hn Hc; destruct (still_there m m1 r Hok S1 Hr) as [H1 | H1]; [exact (C2 r c H1 Hn Hc) |].
  apply (C1 r c Hr); [| exact (shrunk_has m1 m2 c S Hc)]; intros Hh; apply H1, (present_has m1 _ (sh_ok _ _ S1)); eauto.
Qed.

Lemma shrunk_refl m : pool_ok m -> shrunk m m.
Proof. now split. Qed.

Lemma remove_all_ok {E} txs : forall m, pool_ok m -> Forall (known m) txs ->
  exists m', remove_all (E := E) m txs = Ok m' /\ shrunk m m' /\ closed m m' /\ (forall t, t ∈ txs -> ~ has m' t).
Proof.
  induction txs as [| tx txs IH]; intros m Hok Hk; cbn [remove_all].
  { exists m; split; [reflexivity |]; split; [now apply shrunk_refl |]; split; [apply closed_refl |]; intros t Ht; now apply not_elem_of_nil in Ht. }
  apply Forall_cons_iff in Hk as [Hk Hks]; destruct (remove_ok (E := E) m tx [] true Hok Hk) as (m1 & rm & -> & S1 & H1 & _); cbn [mbind res_bind].
  destruct (IH m1 (sh_ok _ _ S1)) as (m' & E' & S2 & C2 & N2); [revert Hks; apply Forall_impl; intros t; now apply known_shrunk |].
  exists m'; split; [exact E' |]; split; [now apply (shrunk_trans m m1) |]; split; [apply (closed_trans m m1 m' Hok S1 S2); [now apply (remove_closed m m1 tx) | exact C2] |].
  intros t [-> | Ht]%elem_of_cons; [| auto]; intros Hh; apply (shrunk_has m1 m' tx S2), H1 in Hh as [_ Hn]; apply Hn, dep_self.
Qed.

(** ** A block *)

Lemma remove_conflict_ok {E} m tx found removed : pool_ok m -> (forall p, found = Some p -> is_Some (nodes m !! p)) ->
  exists m' removed', remove_conflict (E := E) m tx found removed = Ok (m', removed') /\ shrunk m m' /\ closed m m' /\
    (forall p e, found = Some p -> nodes m !! p = Some e -> has m' (GetTx e) -> (GetTx e).1 = tx.1).
Proof.
  intros Hok Hf; unfold remove_conflict; destruct found as [p |].
  - destruct (Hf p eq_refl) as [e He]; unfold deref; rewrite He; cbn [mbind res_bind]; destruct (decide ((GetTx e).1 = tx.1)) as [Eh | Hne].
    + rewrite bool_decide_eq_true_2 by exact Eh; cbn [negb]; exists m, removed; split; [reflexivity |]; split; [now apply shrunk_refl |]; split; [apply closed_refl |].
      intros q e' [= <-] He'; assert (e' = e) as -> by congruence; auto.
    + rewrite bool_decide_eq_false_2 by exact Hne; cbn [negb]; assert (Hh : has m (GetTx e)) by (exists p, e; auto).
      destruct (remove_ok (E := E) m (GetTx e) removed true Hok (has_known m _ Hh)) as (m' & rm & -> & S & Hm & _).
      exists m', (removed ++ rm); split; [reflexivity |]; split; [exact S |]; split; [exact (remove_closed m m' (GetTx e) Hm) |].
      intros q e' [= <-] He' Hh'; assert (e' = e) as -> by congruence; apply Hm in Hh' as [_ []]; apply dep_self.
  - exists m, removed; split; [reflexivity |]; split; [now apply shrunk_refl |]; split; [apply closed_refl | discriminate].
Qed.

(** Both loops of [removeConflicts], for what a key tells apart. *)
Section Conflicts.
Context {A : Type} (owns : A -> uint256 * CTransaction -> Prop) (lookup : CTxMemPool -> A -> option nat).
Hypothesis lookup_owner : forall m a p, pool_ok m -> lookup m a = Some p -> exists e, nodes m !! p = Some e /\ owns a (GetTx e).
Hypothesis owner_lookup : forall m a t, pool_ok m -> has m t -> owns a t -> exists p e, lookup m a = Some p /\ nodes m !! p = Some e /\ GetTx e = t.

Lemma conflict_step {E} m tx a removed : pool_ok m ->
  exists m' removed', remove_conflict (E := E) m tx (lookup m a) removed = Ok (m', removed') /\ shrunk m m' /\ closed m m' /\
    (forall t, has m' t -> owns a t -> t.1 = tx.1).
Proof.
  intros Hok; destruct (remove_conflict_ok (E := E) m tx (lookup m a) removed Hok) as (m' & removed' & E' & S & C & N).
  { intros p Hp; destruct (lookup_owner m a p Hok Hp) as (e & He & _); eauto. }
  exists m', removed'; split; [exact E' |]; split; [exact S |]; split; [exact C |]; intros t Ht Ho.
  destruct (owner_lookup m a t Hok (shrunk_has m m' t S Ht) Ho) as (p & e & Hp & He & <-); exact (N p e Hp He Ht).
Qed.
End Conflicts.

Lemma next_lookup m o t : pool_ok m -> has m t -> spends t.2 o -> exists p e, ip_ptx <$> mapNextTx m !! o = Some p /\ nodes m !! p = Some e /\ GetTx e = t.
Proof.
  intros Hok Ht S; destruct (proj2 (next_spends m o Hok)) as (ip & Hip); [eauto |]; destruct (next_owner m o ip Hok Hip) as (e & He & Se).
  exists (ip_ptx ip), e; rewrite Hip; split; [reflexivity |]; split; [exact He |]; apply (spends_once m _ _ o Hok); auto; exists (ip_ptx ip), e; auto.
Qed.

Lemma next_pointer m o p : pool_ok m -> ip_ptx <$> mapNextTx m !! o = Some p -> exists e, nodes m !! p = Some e /\ spends (GetTx e).2 o.
Proof. intros Hok; destruct (mapNextTx m !! o) as [ip |] eqn:Eo; intros [= <-]; exact (next_owner m o ip Hok Eo). Qed.

Lemma conflict_inputs_ok {E} tx vin : forall m removed, pool_ok m ->
  exists m' removed', conflict_inputs (E := E) m tx vin removed = Ok (m', removed') /\ shrunk m m' /\ closed m m' /\
    (forall t o, has m' t -> o ∈ map prevout vin -> spends t.2 o -> t.1 = tx.1).
Proof.
  induction vin as [| x vin IH]; intros m removed Hok; cbn [conflict_inputs].
  { exists m, removed; split; [reflexivity |]; split; [now apply shrunk_refl |]; split; [apply closed_refl |]; intros t o _ Ho; now apply not_elem_of_nil in Ho. }
  destruct (conflict_step (fun o t => spends t.2 o) (fun m o => ip_ptx <$> mapNextTx m !! o) next_pointer next_lookup (E := E) m tx (prevout x) removed Hok)
    as (m1 & r1 & E1 & S1 & C1 & N1).
  rewrite E1; cbn [mbind res_bind]; destruct (IH m1 r1 (sh_ok _ _ S1)) as (m' & r' & E' & S' & C' & N').
  exists m', r'; split; [exact E' |]; split; [now apply (shrunk_trans m m1) |]; split; [now apply (closed_trans m m1 m' Hok S1 S') |].
  intros t o Ht [-> | Ho]%elem_of_cons Hs; [apply N1; [now apply (shrunk_has m1 m') | exact Hs] | eauto].
Qed.

Lemma marks_lookup m k t : pool_ok m -> has m t -> k ∈ marks t.2 -> exists p e, mapShielded m !! k = Some p /\ nodes m !! p = Some e /\ GetTx e = t.
Proof. intros Hok (p & e & Hp & <-) Hk; exists p, e; split; [apply (po_marks _ Hok); eauto | auto]. Qed.

Lemma conflict_marks_ok {E} tx ks : forall m removed, pool_ok m ->
  exists m' removed', conflict_marks (E := E) m tx ks removed = Ok (m', removed') /\ shrunk m m' /\ closed m m' /\
    (forall t k, has m' t -> k ∈ ks -> k ∈ marks t.2 -> t.1 = tx.1).
Proof.
  induction ks as [| k ks IH]; intros m removed Hok; cbn [conflict_marks].
  { exists m, removed; split; [reflexivity |]; split; [now apply shrunk_refl |]; split; [apply closed_refl |]; intros t k _ Hk; now apply not_elem_of_nil in Hk. }
  destruct (conflict_step (fun k t => k ∈ marks t.2) (fun m k => mapShielded m !! k) (fun m k p Hok => proj1 (po_marks m Hok k p)) marks_lookup (E := E) m tx k removed Hok)
    as (m1 & r1 & E1 & S1 & C1 & N1).
  rewrite E1; cbn [mbind res_bind]; destruct (IH m1 r1 (sh_ok _ _ S1)) as (m' & r' & E' & S' & C' & N').
  exists m', r'; split; [exact E' |]; split; [now apply (shrunk_trans m m1) |]; split; [now apply (closed_trans m m1 m' Hok S1 S') |].
  intros t k' Ht [-> | Hk]%elem_of_cons Hs; [apply N1; [now apply (shrunk_has m1 m') | exact Hs] | eauto].
Qed.

(** Two transactions cannot both be in a chain. *)
Definition conflict (t t' : CTransaction) : Prop := (exists o, o ∈ prevouts t' /\ spends t o) \/ (exists k, k ∈ marks t /\ k ∈ marks t').

Lemma removeConflicts_ok {E} m tx removed : pool_ok m ->
  exists m' removed', removeConflicts (E := E) m tx removed = Ok (m', removed') /\ shrunk m m' /\ closed m m' /\
    (forall t, has m' t -> conflict t.2 tx.2 -> t.1 = tx.1).
Proof.
  intros Hok; unfold removeConflicts; destruct (conflict_inputs_ok (E := E) tx (tx_vin tx.2) m removed Hok) as (m1 & r1 & -> & S1 & C1 & N1); cbn [mbind res_bind].
  destruct (conflict_marks_ok (E := E) tx (marks tx.2) m1 r1 (sh_ok _ _ S1)) as (m' & r' & -> & S' & C' & N').
  exists m', r'; split; [reflexivity |]; split; [now apply (shrunk_trans m m1) |]; split; [now apply (closed_trans m m1 m' Hok S1 S') |].
  intros t Ht [(o & Ho & Hs) | (k & Hk & Hk')]; [apply (N1 t o); [now apply (shrunk_has m1 m') | exact Ho | exact Hs] | exact (N' t k Ht Hk' Hk)].
Qed.

(** An output that can be spent. *)
Definition good_output (tx : CTransaction) (n : Z) : Prop :=
  0 <= n < zlen (tx_vout tx) /\ exists out, tx_vout tx !! Z.to_nat n = Some out /\ txout_IsNull out = false /\ IsUnspendable (scriptPubKey out) = false.

Definition creates (t : uint256 * CTransaction) (o : COutPoint) : Prop := op_hash o = t.1 /\ good_output t.2 (op_n o).

(** The unspent outputs after a transaction of a block. *)
Definition coins_step (avail : COutPoint -> Prop) (t : uint256 * CTransaction) (o : COutPoint) : Prop :=
  (avail o /\ o ∉ prevouts t.2) \/ creates t o.

(** Every input of the pool is an output of the pool, or one of the coins. *)
Definition supported (avail : COutPoint -> Prop) (m : CTxMemPool) : Prop :=
  forall t o, has m t -> spends t.2 o -> (exists r, has m r /\ creates r o) \/ (~ present m (op_hash o) /\ avail o).

Lemma creates_spent c r o : creates r o -> spends c o -> spends_output c r.
Proof. intros [Eh [Hn _]] Hs; exists (op_n o); split; [exact Hn |]; rewrite <- Eh; now destruct o. Qed.

Lemma pool_clear_deltas m h : pool_ok m -> shrunk m (ClearPrioritisation m h) /\ forall t, has (ClearPrioritisation m h) t <-> has m t.
Proof. intros [? ? ? ? ? ? ? ?]; split; [split; [split; assumption | reflexivity] | reflexivity]. Qed.

Lemma block_step {E} m tx conflicts : pool_ok m -> known m tx ->
  exists m1 rm m2 conflicts', remove (E := E) m tx [] false = Ok (m1, rm) /\ removeConflicts (E := E) m1 tx conflicts = Ok (m2, conflicts') /\
    shrunk m m2 /\ ~ present m2 tx.1 /\ (forall t, has m2 t -> ~ conflict t.2 tx.2) /\
    (forall avail, supported avail m -> supported (coins_step avail tx) m2).
Proof.
  intros Hok K; destruct (remove_ok (E := E) m tx [] false Hok K) as (m1 & rm & E1 & S1 & H1 & _).
  destruct (removeConflicts_ok (E := E) m1 tx conflicts (sh_ok _ _ S1)) as (m2 & c2 & E2 & S2 & C2 & N2).
  assert (Hgone : ~ present m1 tx.1).
  { intros Hp; pose proof (known_shrunk m m1 tx Hok S1 K Hp) as Hh; now apply H1 in Hh as [_ []]. }
  assert (Hgone2 : ~ present m2 tx.1).
  { intros Hp; apply (present_has m2 _ (sh_ok _ _ S2)) in Hp as (t & Ht & E'); apply Hgone, (present_has m1 _ (sh_ok _ _ S1)); exists t; split; [now apply (shrunk_has m1 m2) | exact E']. }
  assert (Hnc : forall t, has m2 t -> ~ conflict t.2 tx.2).
  { intros t Ht Hc; pose proof (N2 t Ht Hc) as E'; apply Hgone2, (present_has m2 _ (sh_ok _ _ S2)); eauto. }
  exists m1, rm, m2, c2; split; [exact E1 |]; split; [exact E2 |]; split; [now apply (shrunk_trans m m1) |]; split; [exact Hgone2 |]; split; [exact Hnc |].
  intros avail Sup t o Ht Hs; pose proof (shrunk_has m1 m2 t S2 Ht) as Ht1; pose proof (shrunk_has m m1 t S1 Ht1) as Ht0.
  assert (Ho : o ∉ prevouts tx.2) by (intros Ho; apply (Hnc t Ht); left; eauto).
  destruct (Sup t o Ht0 Hs) as [(r & Hr & Cr) | [Hn Ha]].
  - destruct (still_there m m1 r Hok S1 Hr) as [Hr1 | Hn1].
    + destruct (still_there m1 m2 r (sh_ok _ _ S1) S2 Hr1) as [Hr2 | Hn2]; [left; eauto |]; exfalso.
      apply (C2 r t Hr1); [intros Hh; apply Hn2, (present_has m2 _ (sh_ok _ _ S2)); eauto | exact Ht | exact (creates_spent _ _ _ Cr Hs)].
    + right; assert (Et : r.1 = tx.1 -> r = tx) by (intros E'; apply (has_unique m _ _ Hok Hr); [apply K; rewrite <- E'; apply (present_has m _ Hok); eauto | exact E']).
      destruct (decide (r.1 = tx.1)) as [E' | Hne].
      * rewrite (Et E') in Cr; pose proof Cr as [Eo _]; split; [rewrite Eo; exact Hgone2 | now right].
      * exfalso; apply Hn1, (present_has m1 _ (sh_ok _ _ S1)); exists r; split; [apply H1; split; [exact Hr | intros ->; now apply Hne] | reflexivity].
  - right; split; [| left; auto]; intros Hp; apply (present_has m2 _ (sh_ok _ _ S2)) in Hp as (r & Hr & E'); apply Hn, (present_has m _ Hok); exists r.
    split; [apply (shrunk_has m m1 r S1), (shrunk_has m1 m2 r S2), Hr | exact E'].
Qed.

Lemma block_ok {E} vtx : forall m conflicts, pool_ok m -> Forall (known m) vtx ->
  exists m' conflicts', removeForBlock (E := E) m vtx conflicts = Ok (m', conflicts') /\ shrunk m m' /\
    (forall t, t ∈ vtx -> ~ present m' t.1 /\ forall t', has m' t' -> ~ conflict t'.2 t.2) /\
    (forall avail, supported avail m -> supported (fold_left coins_step vtx avail) m').
Proof.
  induction vtx as [| tx vtx IH]; intros m conflicts Hok Hk; cbn [removeForBlock fold_left].
  { exists m, conflicts; split; [reflexivity |]; split; [now apply shrunk_refl |]; split; [intros t Ht; now apply not_elem_of_nil in Ht | auto]. }
  apply Forall_cons_iff in Hk as [Hk Hks]; destruct (block_step (E := E) m tx conflicts Hok Hk) as (m1 & rm & m2 & c2 & -> & E2 & S & Hn & Hc & Sup2).
  cbn [mbind res_bind]; rewrite E2; cbn [mbind res_bind]; destruct (pool_clear_deltas m2 tx.1 (sh_ok _ _ S)) as [Sd Hd]; set (m3 := ClearPrioritisation m2 tx.1) in *.
  assert (S3 : shrunk m m3) by (now apply (shrunk_trans m m2)).
  destruct (IH m3 c2 (sh_ok _ _ Sd)) as (m' & c' & E' & S' & N' & Sup').
  - revert Hks; apply Forall_impl; intros t; now apply known_shrunk.
  - exists m', c'; split; [exact E' |]; split; [now apply (shrunk_trans m m3) |]; split.
    2: { intros avail Sup; apply Sup'; intros t o Ht Hs; apply Hd in Ht; destruct (Sup2 avail Sup t o Ht Hs) as [(r & Hr & Cr) | Ha]; [left; exists r; split; [now apply Hd | exact Cr] | now right]. }
    intros t [-> | Ht]%elem_of_cons; [| auto]; split.
    + intros Hp; apply Hn; apply (present_has m' _ (sh_ok _ _ S')) in Hp as (t & Ht & Et); apply (present_has m2 _ (sh_ok _ _ S)); exists t; split; [apply Hd, (shrunk_has m3 m' t S' Ht) | exact Et].
    + intros t' Ht'; apply Hc, Hd, (shrunk_has m3 m' t' S' Ht').
Qed.

(** ** Iteration *)

Lemma mapTx_list m : pool_ok m -> map_to_list (mapTx m) ≡ₚ map (fun pe => ((GetTx pe.2).1, pe.1)) (map_to_list (nodes m)).
Proof.
  intros Hok; apply NoDup_Permutation; [apply NoDup_map_to_list | |].
  - apply NoDup_fmap_2_strong; [| apply NoDup_map_to_list]; intros [p e] [q e'] Hp%elem_of_map_to_list Hq%elem_of_map_to_list [= E1 E2]; congruence.
  - intros [h p]; rewrite elem_of_map_to_list, (po_tx _ Hok), list_elem_of_fmap; split.
    + intros (e & He & <-); exists (p, e); split; [reflexivity | now apply elem_of_map_to_list].
    + intros ([q e] & [= -> ->] & Hq%elem_of_map_to_list); eauto.
Qed.

Lemma entries_elements m : pool_ok m -> entries m ≡ₚ elements m.
Proof.
  intros Hok; unfold entries, elements; rewrite merge_sort_Permutation, (mapTx_list m Hok).
  assert (Hin : forall pe, pe ∈ map_to_list (nodes m) -> nodes m !! pe.1 = Some pe.2) by (intros [p e]; apply elem_of_map_to_list).
  induction (map_to_list (nodes m)) as [| pe l IH]; [reflexivity |]; cbn [map omap list_omap snd]; rewrite (Hin pe) by (now left).
  apply Permutation_cons; [reflexivity |]; apply IH; intros pe' Hpe; apply Hin; now right.
Qed.

Lemma entries_node m e : pool_ok m -> e ∈ entries m -> exists p, nodes m !! p = Some e.
Proof.
  intros Hok; rewrite (entries_elements m Hok); unfold elements; intros He; apply list_elem_of_fmap in He as ([p e'] & -> & Hp%elem_of_map_to_list); eauto.
Qed.

Lemma entries_has m e : pool_ok m -> e ∈ entries m -> has m (GetTx e).
Proof. intros Hok He; destruct (entries_node m e Hok He) as (p & Hp); exists p, e; auto. Qed.

Lemma selected_known m txs : pool_ok m -> (forall t, t ∈ txs -> exists e, e ∈ entries m /\ GetTx e = t) -> Forall (known m) txs.
Proof. intros Hok Hs; apply list_relations.list.Forall_forall; intros t Ht; destruct (Hs t Ht) as (e & He & <-); now apply has_known, entries_has. Qed.

End Pool.

(** ** Every operation *)

Section Operations.
Context `{HashFunctions, ChainParams, SubsidyParams, SpendParams, PoolEnv}.

(** A transaction that passed the checks against the pool; its inputs are distinct
    ([CheckTransaction]), and none has the index of an import, which no output of a
    transaction reaches. *)
Record acceptable (m : CTxMemPool) (tx : uint256 * CTransaction) : Prop := {
  ac_proofs : has_duplicate_proofs tx.2 = false;
  ac_checks : accept_checks (E := unit) m tx = Ok None;
  ac_distinct : base.NoDup (prevouts tx.2);
  ac_index : forall o, spends tx.2 o -> ~ import_index o;
}.

Lemma existsb_none {A} (f : A -> bool) l a : existsb f l = false -> a ∈ l -> f a = false.
Proof.
  induction l as [| b l IH]; cbn; intros E Ha; [now apply not_elem_of_nil in Ha |]; apply orb_false_iff in E as [E1 E2].
  apply elem_of_cons in Ha as [-> | Ha]; auto.
Qed.

Lemma mark_free m k : mark_exists m k = false -> mapShielded m !! k = None.
Proof. unfold mark_exists; rewrite bool_decide_eq_false; destruct (mapShielded m !! k); [intros []; eauto | reflexivity]. Qed.

Lemma acceptable_addable m tx : acceptable m tx -> addable m tx.
Proof.
  intros [_ Hc Hd Hi]; unfold accept_checks in Hc.
  destruct (pool_exists m tx.1) eqn:E1; [discriminate |]; destruct (existsb _ (tx_vin tx.2)) eqn:E2; [discriminate |].
  destruct (existsb _ (sprout_nullifiers tx.2)) eqn:E3; [discriminate |]; destruct (existsb _ (vShieldedSpend tx.2)) eqn:E4; [discriminate |].
  destruct (existsb _ (vShieldedOutput tx.2)) eqn:E5; [discriminate |]; split; auto.
  - unfold pool_exists in E1; apply bool_decide_eq_false in E1; destruct (mapTx m !! tx.1); [destruct E1; eauto | reflexivity].
  - intros o Ho; apply list_elem_of_fmap in Ho as (x & -> & Hx); pose proof (existsb_none _ _ x E2 Hx) as Ex; cbn in Ex.
    apply bool_decide_eq_false in Ex; destruct (mapNextTx m !! prevout x); [destruct Ex; eauto | reflexivity].
  - intros k; unfold marks; rewrite !elem_of_app; intros [Hk | [Hk | Hk]].
    + apply list_elem_of_fmap in Hk as (nf & -> & Hn); apply mark_free; exact (existsb_none _ _ nf E3 Hn).
    + apply list_elem_of_join in Hk as (l & Hk & Hl).
      apply list_elem_of_fmap in Hl as (d & -> & Hd'); pose proof (existsb_none _ _ d E4 Hd') as Ed; cbn in Ed; apply orb_false_iff in Ed as [Ea Eb].
      rewrite !elem_of_cons, elem_of_nil in Hk; destruct Hk as [-> | [-> | []]]; now apply mark_free.
    + apply list_elem_of_fmap in Hk as (d & -> & Hd'); apply mark_free; exact (existsb_none _ _ d E5 Hd').
Qed.

(** The operations of the pool, but for [clear], which leaves dangling pointers. *)
Inductive pool_step (m m' : CTxMemPool) : Prop :=
| step_add e : acceptable m (GetTx e) -> addUnchecked (E := unit) m (GetTx e).1 e = Ok m' -> pool_step m m'
| step_remove tx rc removed r : known m tx -> remove (E := unit) m tx removed rc = Ok (m', r) -> pool_step m m'
| step_anchor root type : removeWithAnchor (E := unit) m root type = Ok m' -> pool_step m m'
| step_branch id : removeWithoutBranchId (E := unit) m id = Ok m' -> pool_step m m'
| step_reorg checking coins height flags : removeForReorg (E := unit) checking coins m height flags = Ok m' -> pool_step m m'
| step_expired kmd tip validate height : removeExpired (E := unit) kmd tip validate m height = Ok m' -> pool_step m m'
| step_block vtx conflicts r : Forall (known m) vtx -> removeForBlock (E := unit) m vtx conflicts = Ok (m', r) -> pool_step m m'
| step_conflicts tx removed r : removeConflicts (E := unit) m tx removed = Ok (m', r) -> pool_step m m'
| step_prioritise hash delta : m' = PrioritiseTransaction m hash delta -> pool_step m m'
| step_clear_priority hash : m' = ClearPrioritisation m hash -> pool_step m m'
| step_updated n : m' = AddTransactionsUpdated m n -> pool_step m m'
| step_notify txs : NotifyRecentlyAdded (E := unit) m = Ok (txs, m') -> pool_step m m'.

Lemma filtered_known {E} m txs m' : pool_ok m -> (forall t, t ∈ txs -> exists e, e ∈ entries m /\ GetTx e = t) -> remove_all (E := E) m txs = Ok m' -> pool_ok m'.
Proof. intros Hok Hs Hr; destruct (remove_all_ok (E := E) txs m Hok (selected_known m txs Hok Hs)) as (m1 & E1 & S & _); assert (m1 = m') as <- by congruence; apply S. Qed.

Lemma filter_entries m (f : uint256 * CTransaction -> bool) t : t ∈ List.filter f (map GetTx (entries m)) -> exists e, e ∈ entries m /\ GetTx e = t.
Proof. intros Ht; apply list_elem_of_In, filter_In in Ht as [Ht _]; apply list_elem_of_In, list_elem_of_fmap in Ht as (e & -> & He); eauto. Qed.

Lemma branch_entries m (f : CTxMemPoolEntry -> bool) t : t ∈ map GetTx (List.filter f (entries m)) -> exists e, e ∈ entries m /\ GetTx e = t.
Proof. intros Ht; apply list_elem_of_fmap in Ht as (e & -> & He); apply list_elem_of_In, filter_In in He as [He _]; exists e; split; [now apply list_elem_of_In | reflexivity]. Qed.

Lemma reorg_entries {E} checking coins m height flags es : forall txs, select_reorg (E := E) checking coins m height flags es = Ok txs -> forall t, t ∈ txs -> exists e, e ∈ es /\ GetTx e = t.
Proof.
  induction es as [| e es IH]; intros txs; cbn [select_reorg]; [intros [= <-] t Ht; now apply not_elem_of_nil in Ht |].
  destruct (CheckFinalTx _ _) as [final | |]; try discriminate; cbn [mbind res_bind]; destruct (if negb final then _ else _) as [g | |]; try discriminate; cbn [mbind res_bind].
  destruct (select_reorg checking coins m height flags es) as [rest | |]; try discriminate; cbn [mbind res_bind]; intros [= <-] t Ht.
  assert (Hc : t = GetTx e \/ t ∈ rest) by (destruct g; [now apply elem_of_cons in Ht | now right]).
  destruct Hc as [-> | Hr]; [exists e; split; [now left | reflexivity] |]; destruct (IH rest eq_refl t Hr) as (e' & He' & <-); exists e'; split; [now right | reflexivity].
Qed.

(** Only the maps of the invariant matter. *)
Lemma pool_ok_same m m' : pool_ok m -> nodes m' = nodes m -> next_node m' = next_node m -> mapTx m' = mapTx m -> mapNextTx m' = mapNextTx m ->
  mapShielded m' = mapShielded m -> mapRecentlyAddedTx m' ⊆ mapRecentlyAddedTx m -> totalTxSize m' = totalTxSize m -> cachedInnerUsage m' = cachedInnerUsage m -> pool_ok m'.
Proof.
  intros [T F N M R I S U] E1 E2 E3 E4 E5 E6 E7 E8; split; unfold elements; rewrite ?E1, ?E2, ?E3, ?E4, ?E5, ?E7, ?E8; auto.
  intros h p Hp; apply R; exact (lookup_weaken _ _ _ _ Hp E6).
Qed.

Lemma step_ok m m' : pool_step m m' -> pool_ok m -> pool_ok m'.
Proof.
  intros St Hok; destruct St as [e Ha E | tx rc removed r K E | root type E | id E | checking coins height flags E | kmd tip validate height E | vtx conflicts r K E | tx removed r E | hash delta -> | hash -> | n -> | txs E].
  - destruct (add_ok (E := unit) m e Hok (acceptable_addable m _ Ha)) as (m1 & E1 & Hok1 & _); assert (m1 = m') as <- by congruence; exact Hok1.
  - destruct (remove_ok (E := unit) m tx removed rc Hok K) as (m1 & rm & E1 & S & _); assert (m1 = m') as <- by congruence; apply S.
  - refine (filtered_known m _ m' Hok _ E); intros t; apply filter_entries.
  - refine (filtered_known m _ m' Hok _ E); intros t; apply branch_entries.
  - unfold removeForReorg in E; destruct (select_reorg checking coins m height flags (entries m)) as [txs | |] eqn:Es; try discriminate; cbn [mbind res_bind] in E.
    exact (filtered_known m _ m' Hok (reorg_entries checking coins m height flags (entries m) txs Es) E).
  - refine (filtered_known m _ m' Hok _ E); intros t; apply filter_entries.
  - destruct (block_ok (E := unit) vtx m conflicts Hok K) as (m1 & c1 & E1 & S & _); assert (m1 = m') as <- by congruence; apply S.
  - destruct (removeConflicts_ok (E := unit) m tx removed Hok) as (m1 & c1 & E1 & S & _); assert (m1 = m') as <- by congruence; apply S.
  - apply (pool_ok_same m); auto; reflexivity.
  - apply (pool_ok_same m); auto; reflexivity.
  - apply (pool_ok_same m); auto; reflexivity.
  - unfold NotifyRecentlyAdded in E; destruct (read_recent m _); try discriminate; injection E as _ <-; apply (pool_ok_same m); auto; cbn; apply map_empty_subseteq.
Qed.

(** Pools that the operations lead to. *)
Definition pool_reachable (m : CTxMemPool) : Prop := rtc pool_step empty_pool m.

Lemma reachable_ok m : pool_reachable m -> pool_ok m.
Proof. intros R; assert (G : forall a b, rtc pool_step a b -> pool_ok a -> pool_ok b) by (induction 1; eauto using step_ok); exact (G _ _ R empty_ok). Qed.

Lemma pool_conflict_free m t t' : pool_ok m -> has m t -> has m t' -> conflict t.2 t'.2 -> t = t'.
Proof.
  intros Hok Ht Ht' [(o & Ho & Hs) | (k & Hk & Hk')]; [| exact (marks_once m t t' k Hok Ht Ht' Hk Hk')].
  destruct (IsCoinImport t'.2) eqn:Ei; [| apply (spends_once m t t' o Hok Ht Ht' Hs); now split].
  destruct Ht as (p & e & Hp & <-); exfalso; apply (po_index _ Hok p e o Hp Hs); unfold IsCoinImport in Ei; unfold prevouts in Ho.
  destruct (tx_vin t'.2) as [| x [|]]; try discriminate; apply list_elem_of_singleton in Ho as ->; now apply Z.eqb_eq in Ei.
Qed.

(** C28: removing a transaction from the pool with what depends on it removes exactly
    the transaction, if the pool has it, and the transactions that spend its outputs
    or those of what was removed, also when the transaction itself is not in the
    pool; these are the transactions that are returned. *)
Theorem remove_takes_dependants (m : CTxMemPool) (tx : uint256 * CTransaction) :
  pool_reachable m -> known m tx ->
  exists m' removed, remove (E := unit) m tx [] true = Ok (m', removed) /\
    (forall t, has m' t <-> has m t /\ ~ depends m tx t) /\ (forall t, t ∈ removed <-> has m t /\ depends m tx t).
Proof.
  intros Hok%reachable_ok K; destruct (remove_ok (E := unit) m tx [] true Hok K) as (m' & rm & E & _ & Hm & Hr).
  exists m', rm; split; [exact E |]; split; [exact Hm | exact Hr].
Qed.

End Operations.

(** ** Examples *)

Module Example_pool.
Definition env : PoolEnv := {| chain_Height := 100; tip_MedianTimePast := Some 1600000000; pool_GetTime := 1600000500 |}.
Definition spending : SpendParams := {| CoinbaseMaturity := 100; coinbase_protected := false; ASSETCHAINS_TIMELOCKGTE := 2 ^ 64 - 1; GetCoinImportValue := fun _ => 0 |}.
#[export] Existing Instances toy_hashes BlockCheckSpec.Example_check.net BlockCheckSpec.Example_check.rewards spending env.

Definition id (n : Z) : uint256 := repeat n 32.
Definition pay (n : Z) (from : COutPoint) : uint256 * CTransaction :=
  (id n, mkTx false 1 0 [mkTxIn from [] UINT32_MAX] [mkTxOut 1000 [81]] 0 0 0 [] [] [] uint256_null (repeat 0 64) (repeat 0 64)).
Definition entry (tx : uint256 * CTransaction) : CTxMemPoolEntry := mkEntry tx 10 100 200 100000 1600000000 100 true false 0.

(** The second transaction spends the first; the third is apart; the fourth
    conflicts with the first. *)
Definition tx1 : uint256 * CTransaction := pay 1 (mkOutPoint (id 9) 0).
Definition tx2 : uint256 * CTransaction := pay 2 (mkOutPoint (id 1) 0).
Definition tx3 : uint256 * CTransaction := pay 3 (mkOutPoint (id 8) 0).
Definition tx4 : uint256 * CTransaction := pay 4 (mkOutPoint (id 9) 0).

Definition add (m : CTxMemPool) (tx : uint256 * CTransaction) : CTxMemPool :=
  match addUnchecked (E := unit) m tx.1 (entry tx) with Ok m => m | _ => m end.
Definition pool1 : CTxMemPool := add empty_pool tx1.
Definition pool2 : CTxMemPool := add pool1 tx2.
Definition pool3 : CTxMemPool := add pool2 tx3.

Lemma payment_acceptable m n from : accept_checks (E := unit) m (pay n from) = Ok None -> op_n from = 0 -> acceptable m (pay n from).
Proof.
  intros Ha Hn; split; [reflexivity | exact Ha | apply NoDup_singleton |]; intros o [_ Ho]; apply list_elem_of_singleton in Ho as ->; unfold import_index; cbn; lia.
Qed.

Lemma pool3_reachable : pool_reachable pool3.
Proof.
  apply rtc_l with pool1; [| apply rtc_l with pool2; [| apply rtc_once]].
  - apply (step_add _ _ (entry tx1)); [apply payment_acceptable; vm_compute; reflexivity | vm_compute; reflexivity].
  - apply (step_add _ _ (entry tx2)); [apply payment_acceptable; vm_compute; reflexivity | vm_compute; reflexivity].
  - apply (step_add _ _ (entry tx3)); [apply payment_acceptable; vm_compute; reflexivity | vm_compute; reflexivity].
Qed.

Lemma pool3_has t : has pool3 t -> t = tx1 \/ t = tx2 \/ t = tx3.
Proof.
  intros (p & e & Hp & <-); change (nodes pool3) with (<[2%nat := entry tx3]> (<[1%nat := entry tx2]> (<[0%nat := entry tx1]> ∅)) : gmap nat CTxMemPoolEntry) in Hp.
  rewrite !lookup_insert_Some in Hp; destruct Hp as [[_ <-] | [_ [[_ <-] | [_ [[_ <-] | [_ Hp]]]]]]; auto; discriminate.
Qed.

Lemma tx4_known : Forall (known pool3) [tx4].
Proof. apply Forall_cons_2; [intros [p Hp]; vm_compute in Hp; discriminate | apply Forall_nil_2]. Qed.

(** The conflicting transaction and the one that spends it leave the pool. *)
Example block_connected :
  match removeForBlock (E := unit) pool3 [tx4] [] with Ok (m, conflicts) => (queryHashes m, conflicts) | _ => ([], []) end = ([id 3], [tx1; tx2]).
Proof. vm_compute; reflexivity. Qed.

(** After [clear], the pool still has the nullifiers of its former transactions, and
    the next block that uses one makes it follow a dangling pointer. *)
Definition shielded : uint256 * CTransaction :=
  (id 5, mkTx true 4 SAPLING_VERSION_GROUP_ID [] [] 0 0 0 [mkSpend (id 1) (id 1) (id 7) (id 1) (repeat 0 192) (repeat 0 64)] [] [] uint256_null (repeat 0 64) (repeat 0 64)).
Example clear_leaves_marks :
  removeForBlock (E := unit) (pool_clear (add empty_pool shielded)) [shielded] [] = Exn oob_read.
Proof. vm_compute; reflexivity. Qed.

(** A coinbase that is no longer mature, of a chain without time locks. *)
Example immature_not_lost :
  input_lost (E := unit) false (fun _ => Some (mkCoins true [mkTxOut 1000 [81]] 99 1)) pool3 101 (mkTxIn (mkOutPoint (id 7) 0) [] UINT32_MAX) = Ok false.
Proof. vm_compute; reflexivity. Qed.
End Example_pool.

Lemma remove_takes_dependants_witness :
  exists m' removed, remove (H := toy_hashes) (E := unit) Example_pool.pool3 Example_pool.tx1 [] true = Ok (m', removed) /\ Example_pool.tx2 ∈ removed.
Proof.
  assert (H1 : has Example_pool.pool3 Example_pool.tx1) by (exists 0%nat, (Example_pool.entry Example_pool.tx1); split; vm_compute; reflexivity).
  assert (H2 : has Example_pool.pool3 Example_pool.tx2) by (exists 1%nat, (Example_pool.entry Example_pool.tx2); split; vm_compute; reflexivity).
  destruct (remove_takes_dependants (H := toy_hashes) (H0 := Example_check.net) (H1 := Example_check.rewards) (H2 := Example_pool.spending) (H3 := Example_pool.env)
    Example_pool.pool3 Example_pool.tx1 Example_pool.pool3_reachable (has_known _ _ H1)) as (m' & removed & E & _ & Hr).
  exists m', removed; split; [exact E |]; apply Hr; split; [exact H2 |]; apply (dep_child _ _ Example_pool.tx1 _ (dep_self _ _) H2).
  exists 0; split; [unfold zlen; cbn; lia |]; split; [reflexivity | left].
Defined.

