(* ===== verification/PoolCheck.v ===== *)
(** * The self-check of the memory pool

    CTxMemPool::check of txmempool.cpp, with checkNullifiers and checkZkProofHash:
    the assertions on the maps of the pool, on the coins, nullifiers, anchors and
    proofs of the coin view that its transactions use, and the simulation of all
    transactions on a copy of the view.  [pcoins] and the copy [mempoolDuplicate],
    a cache on top of it, are one stack of views; a read through [pcoins] is a
    read of the lower part. *)
From stdpp Require Import gmap functions sorting.
From S2P Require Import Prelude Hashing Merkle Interpreter Serialize Transaction TxCheck Interest Subsidy.
From S2P Require Import Coins CoinsView UpdateCoins TxInputs Connect BlockCheck Mempool.

Section Check.
Context {Tree : Type} `{AnchorTrees Tree, NoteTrees Tree, HashFunctions, ChainParams, MoneyLimit, SpendParams,
  InterestChain, SubsidyParams, BlockEnv}.
Abbreviation cache := (CCoinsViewCache Tree).
Abbreviation view := (view Tree).
Abbreviation top := (cache * view)%type.

(** ** The assertions on one transaction *)

(** The loop over the inputs: [fDependsWait], and [pcoins]. *)
Fixpoint check_vin (pcoins : view) (m : CTxMemPool) (p : nat) (i : Z) (vin : list CTxIn) (fDependsWait : bool)
    : res unit (bool * view) :=
  match vin with
  | [] => Ok (fDependsWait, pcoins)
  | txin :: vin =>
      let o := prevout txin in
      '(fDependsWait, pcoins) ←
        match find_entry m (op_hash o) with
        | Some (_, e2) =>
            _ ← assert_ ((op_n o <? zlen (tx_vout (GetTx e2).2))
                         && match tx_vout (GetTx e2).2 !! Z.to_nat (op_n o) with Some out => negb (txout_IsNull out) | None => false end);
            Ok (true, pcoins)
        | None =>
            let '(coins, pcoins) := AccessCoins pcoins (op_hash o) in
            _ ← assert_ match coins with Some c => IsAvailable c (op_n o) | None => false end;
            Ok (fDependsWait, pcoins)
        end;
      _ ← assert_ match mapNextTx m !! o with Some ip => (ip_ptx ip =? p)%nat && (ip_n ip =? i) | None => false end;
      check_vin pcoins m p (i + 1) vin fDependsWait
  end.

(** No nullifier of the list is spent. *)
Fixpoint check_unspent (pcoins : view) (t : ShieldedType) (nfs : list uint256) : res unit view :=
  match nfs with
  | [] => Ok pcoins
  | nf :: nfs => '(spent, pcoins) ← GetNullifier pcoins t nf; _ ← assert_ (negb spent); check_unspent pcoins t nfs
  end.

(** The loop over the join-splits, with the trees of the earlier ones. *)
Fixpoint check_joinsplit_trees (pcoins : view) (intermediates : gmap uint256 Tree) (l : list JSDescription) : res unit view :=
  match l with
  | [] => Ok pcoins
  | js :: l =>
      pcoins ← check_unspent pcoins SPROUT (js_nullifiers js);
      let '(tree, pcoins) :=
        match intermediates !! js_anchor js with
        | Some tree => (Some tree, pcoins)
        | None => GetAnchorAt pcoins SPROUT (js_anchor js)
        end in
      match tree with
      | None => Exn assertion_failed
      | Some tree =>
          tree ← append_all tree (js_commitments js);
          let root := tree_root SPROUT tree in
          let intermediates :=
            match intermediates !! root with Some _ => intermediates | None => <[root := tree]> intermediates end in
          check_joinsplit_trees pcoins intermediates l
      end
  end.

(** [assert(!pcoins->GetZkProofHash(h, type, txids))]. *)
Definition check_new_proof (pcoins : view) (t : ProofType) (h : uint256) : res unit view :=
  let '(found, _, pcoins) := GetZkProofHash pcoins t h in
  _ ← assert_ (negb found); Ok pcoins.

Definition check_anchor (pcoins : view) (t : ShieldedType) (rt : uint256) : res unit view :=
  let '(tree, pcoins) := GetAnchorAt pcoins t rt in
  _ ← assert_ (bool_decide (is_Some tree)); Ok pcoins.

Fixpoint check_spends (pcoins : view) (l : list SpendDescription) : res unit view :=
  match l with
  | [] => Ok pcoins
  | d :: l =>
      pcoins ← check_anchor pcoins SAPLING (sp_anchor d);
      pcoins ← check_anchor pcoins SAPLINGFRONTIER (sp_anchor d);
      pcoins ← check_unspent pcoins SAPLING [sp_nullifier d];
      pcoins ← check_new_proof pcoins SPEND (Hash (sp_zkproof d));
      check_spends pcoins l
  end.

Fixpoint check_output_proofs (pcoins : view) (l : list OutputDescription) : res unit view :=
  match l with
  | [] => Ok pcoins
  | d :: l => pcoins ← check_new_proof pcoins OUTPUT (Hash (od_zkproof d)); check_output_proofs pcoins l
  end.

(** ** The simulation *)

(** [fCheckResult], its assertion, and [UpdateCoins(tx, mempoolDuplicate, 1000000)]. *)
Definition simulate (v : top) (nSpendHeight : Z) (tx : uint256 * CTransaction) : res unit top :=
  '(fCheckResult, v) ←
    (if IsCoinBase tx.2 then Ok (true, v)
     else match CheckTxInputs (VCache v.1 v.2) tx.2 nSpendHeight with
          | Ok (_, v') => Ok (true, as_top v' v)
          | Err _ => Ok (false, v)
          | Exn x => Exn x
          end);
  _ ← assert_ fCheckResult;
  '(_, v) ← UpdateCoins v tx.1 tx.2 1000000;
  Ok v.

(** The loop over [mapTx]: the two counters, [waitingOnDependants] and the views. *)
Fixpoint check_entries (v : top) (m : CTxMemPool) (nSpendHeight : Z) (es : list CTxMemPoolEntry) (checkTotal innerUsage : Z)
    (waiting : list CTxMemPoolEntry) : res unit (Z * Z * list CTxMemPoolEntry * top) :=
  match es with
  | [] => Ok (checkTotal, innerUsage, waiting, v)
  | e :: es =>
      let checkTotal := u64 (checkTotal + GetTxSize e) in
      let innerUsage := u64 (innerUsage + DynamicMemoryUsage e) in
      let tx := (GetTx e).2 in
      '(fDependsWait, pcoins) ← check_vin v.2 m (default 0%nat (mapTx m !! (GetTx e).1)) 0 (tx_vin tx) false;
      pcoins ← check_joinsplit_trees pcoins ∅ (vjoinsplit tx);
      pcoins ← check_spends pcoins (vShieldedSpend tx);
      pcoins ← check_output_proofs pcoins (vShieldedOutput tx);
      if (fDependsWait : bool) then check_entries (v.1, pcoins) m nSpendHeight es checkTotal innerUsage (waiting ++ [e])
      else v ← simulate (v.1, pcoins) nSpendHeight (GetTx e);
           check_entries v m nSpendHeight es checkTotal innerUsage waiting
  end.

(** The loop over [waitingOnDependants]; a queue of [n] is done after fewer than
    [n * (n + 1)] rounds. *)
Fixpoint check_waiting (fuel : nat) (v : top) (nSpendHeight : Z) (waiting : list CTxMemPoolEntry) (stepsSinceLastRemove : Z) : res unit top :=
  match waiting with
  | [] => Ok v
  | entry :: waiting =>
      match fuel with
      | O => Exn out_of_fuel
      | S fuel =>
          let '(have, v') := HaveInputs (VCache v.1 v.2) (GetTx entry).2 in
          let v := as_top v' v in
          if negb have then
            let waiting := waiting ++ [entry] in
            let stepsSinceLastRemove := u32 (stepsSinceLastRemove + 1) in
            _ ← assert_ (stepsSinceLastRemove <? zlen waiting);
            check_waiting fuel v nSpendHeight waiting stepsSinceLastRemove
          else
            v ← simulate v nSpendHeight (GetTx entry);
            check_waiting fuel v nSpendHeight waiting 0
      end
  end.

(** ** The maps *)

(** [hash = ptx->GetHash(); it2 = mapTx.find(hash); assert(&*it2 == ptx)]. *)
Definition check_pointer {E} (m : CTxMemPool) (p : nat) : res E CTxMemPoolEntry :=
  e ← deref m p;
  match find_entry m (GetTx e).1 with
  | None => Exn oob_read
  | Some (q, e2) => _ ← assert_ (q =? p)%nat; Ok e2
  end.

Fixpoint check_links {E} (m : CTxMemPool) (links : list (COutPoint * CInPoint)) : res E unit :=
  match links with
  | [] => Ok tt
  | (o, ip) :: links =>
      e ← check_pointer m (ip_ptx ip);
      _ ← assert_ (ip_n ip <? zlen (tx_vin (GetTx e).2));
      _ ← assert_ match tx_vin (GetTx e).2 !! Z.to_nat (ip_n ip) with Some txin => bool_decide (o = prevout txin) | None => false end;
      check_links m links
  end.

(** checkNullifiers and checkZkProofHash. *)
Fixpoint check_marks {E} (m : CTxMemPool) (marked : list (mark * nat)) : res E unit :=
  match marked with
  | [] => Ok tt
  | (_, p) :: marked => _ ← check_pointer m p; check_marks m marked
  end.

(** ** check *)

(** [rand] is the number that [insecure_rand()] gives; the result is [pcoins],
    whose caches were filled. *)
Definition check (nCheckFrequency rand : Z) (pcoins : view) (m : CTxMemPool) : res unit view :=
  if (nCheckFrequency =? 0) || (nCheckFrequency <=? rand) then Ok pcoins
  else
    '(nSpendHeight, v) ← GetSpendHeight (VCache new_cache pcoins);
    '(checkTotal, innerUsage, waiting, v) ← check_entries (as_top v (new_cache, pcoins)) m nSpendHeight (entries m) 0 0 [];
    v ← check_waiting (length waiting * S (length waiting)) v nSpendHeight waiting 0;
    _ ← check_links m (map_to_list (mapNextTx m));
    _ ← check_marks m (map_to_list (mapShielded m));
    _ ← assert_ (totalTxSize m =? checkTotal);
    _ ← assert_ (innerUsage =? cachedInnerUsage m);
    Ok v.2.
End Check.
