(* ===== verification/PoolCheckSpec.v ===== *)
(** * The memory pool and the coins: theorems

    When every transaction of the pool could be mined, no assertion of
    CTxMemPool::check fails, whatever the order in which it simulates them; and
    what is left of the pool after a block has its inputs, and none of the
    nullifiers and proofs of the block. *)
From stdpp Require Import gmap functions sorting relations.
From S2P Require Import Prelude Endian Hashing Merkle Script Interpreter Serialize Transaction TransactionSpec TxCheck Interest Subsidy.
From S2P Require Import Coins CoinsView CoinsViewSpec UpdateCoins UpdateCoinsSpec TxInputs ViewReads TxInputsSpec Connect ConnectSpec.
From S2P Require Import BlockCheck BlockCheckSpec Mempool MempoolSpec PoolCheck.

(** ** Reading anchors and proofs *)

Section Reads.
Context {Tree : Type} `{AnchorTrees Tree, NoteTrees Tree, HashFunctions}.
Abbreviation cache := (CCoinsViewCache Tree).
Abbreviation view := (view Tree).
Abbreviation top := (cache * view)%type.
Abbreviation vtop v := (VCache v.1 v.2).

Definition anchor_at (v : view) (t : ShieldedType) (rt : uint256) : option Tree := (GetAnchorAt v t rt).1.
Definition proofs_of (v : view) (t : ProofType) (h : uint256) : bool * gset (uint256 * Z) := (GetZkProofHash v t h).1.

(** The views show the same. *)
Record agrees (v v' : view) : Prop := {
  ag_good : forall s, good v s -> good v' s;
  ag_entry : forall t, has_entry v t -> has_entry v' t;
  ag_anchor : forall t rt, anchor_at v' t rt = anchor_at v t rt;
  ag_proof : forall t h, proofs_of v' t h = proofs_of v t h;
}.

#[global] Instance agrees_preorder : PreOrder agrees.
Proof. split; [now split |]; intros v1 v2 v3 [] []; split; intros; eauto; etransitivity; eauto. Qed.

(** So do the views below them. *)
Fixpoint reads (v v' : view) : Prop :=
  agrees v v' /\ match v, v' with VDB _, VDB _ => True | VCache _ b, VCache _ b' => reads b b' | _, _ => False end.

Lemma reads_agrees v v' : reads v v' -> agrees v v'.
Proof. destruct v; now intros []. Qed.

#[global] Instance reads_preorder : PreOrder reads.
Proof.
  split; [intros v; induction v; (split; [reflexivity | auto]) |]; intros v1; induction v1 as [d1 | c1 b1 IH]; intros [d2 | c2 b2] [d3 | c3 b3] [A1 B1] [A2 B2]; try contradiction.
  all: split; [etransitivity; eassumption | eauto].
Qed.

Lemma rd_good v v' : reads v v' -> forall s, good v s -> good v' s.
Proof. intros R; apply (reads_agrees _ _ R). Qed.
Lemma rd_anchor v v' : reads v v' -> forall t rt, anchor_at v' t rt = anchor_at v t rt.
Proof. intros R; apply (reads_agrees _ _ R). Qed.
Lemma rd_proof v v' : reads v v' -> forall t h, proofs_of v' t h = proofs_of v t h.
Proof. intros R; apply (reads_agrees _ _ R). Qed.

Lemma anchor_cache (c : cache) b t rt :
  anchor_at (VCache c b) t rt = match cacheAnchors c t !! rt with Some e => if ae_entered e then Some (ae_tree e) else None | None => anchor_at b t rt end.
Proof. unfold anchor_at; cbn [GetAnchorAt]; destruct (cacheAnchors c t !! rt); [reflexivity |]; now destruct (GetAnchorAt b t rt) as [[] ?]. Qed.

Lemma proofs_cache (c : cache) b t h :
  proofs_of (VCache c b) t h =
  let s := match cacheProofHash c t !! h with Some e => pe_txids e | None => (proofs_of b t h).2 end in (negb (bool_decide (s = ∅)), s).
Proof. unfold proofs_of; cbn [GetZkProofHash]; destruct (cacheProofHash c t !! h); [reflexivity |]; now destruct (GetZkProofHash b t h) as [[f s] b']. Qed.

(** A cache over a view that was read. *)
Lemma good_swap (c : cache) b b' l s : agrees b b' -> good (VCache c b) (l :: s) -> good (VCache c b') (l :: s).
Proof.
  intros R Hg; destruct (good_cache c b l s Hg) as (l2 & s2 & -> & Hr); destruct Hg as ((Hb & Hm & He) & (Hnb & Hn) & [Hl1 Hl2] & _).
  pose proof (ag_good _ _ R _ (conj Hb (conj Hnb Hr))) as Hg'; pose proof (good_level b' l2 s2 Hg') as [U1 N1].
  pose proof (good_level b l2 s2 (conj Hb (conj Hnb Hr))) as [U0 N0]; destruct Hg' as (Hb' & Hnb' & Hr').
  split; [split; [exact Hb' |]; split; [exact Hm |] | split; [split; [exact Hnb' |] | split; [split |exact Hr']]].
  - intros t e Ht; apply (entry_inv_mono b); [now rewrite <- U1, U0 | apply R | exact (He t e Ht)].
  - intros t nf e Ht Hc Hd; rewrite (Hn t nf e Ht Hc Hd), <- N0, <- N1 by exact Ht; reflexivity.
  - intros t; rewrite Hl1; cbn [utxo]; destruct (cacheCoins c !! t); [reflexivity |]; now rewrite <- U0, U1.
  - intros t nf Ht; rewrite Hl2 by exact Ht; cbn [nf_spent]; destruct (cacheNullifiers c t !! nf); [reflexivity |]; now rewrite <- N0, N1.
Qed.

Lemma reads_swap (c : cache) b b' : reads b b' -> reads (VCache c b) (VCache c b').
Proof.
  intros R; split; [| exact R]; apply reads_agrees in R; split; [| auto | intros t rt; now rewrite !anchor_cache, (ag_anchor _ _ R) | intros t h; now rewrite !proofs_cache, (ag_proof _ _ R)].
  intros s Hg; destruct (good_cons _ _ Hg) as (l & s' & -> & _); exact (good_swap c b b' l s' R Hg).
Qed.

(** A read that fills the maps of a cache without changing what it shows. *)
Lemma loads_all (v v' : view) : loads v v' -> forall s, good v s -> good v' s.
Proof. intros L s Hg; destruct (good_cons _ _ Hg) as (l & s' & -> & _); now apply L. Qed.

Lemma GetCoins_agrees txid : forall v : view, agrees v (GetCoins v txid).2.
Proof.
  intros v; split; [apply loads_all, GetCoins_loads | | |].
  - destruct v as [d | c b]; cbn [GetCoins]; [auto |]; intros t; destruct (cacheCoins c !! txid); [auto |].
    destruct (GetCoins b txid) as [[tmp |] b']; [| auto]; cbn; intros [e He]; destruct (decide (t = txid)) as [-> | Hn]; [rewrite lookup_insert_eq; eauto | rewrite lookup_insert_ne by congruence; eauto].
  - induction v as [d | c b IH]; intros t rt; cbn [GetCoins]; [reflexivity |]; destruct (cacheCoins c !! txid); [reflexivity |].
    destruct (GetCoins b txid) as [[tmp |] b']; cbn [snd] in *; rewrite !anchor_cache, IH; reflexivity.
  - induction v as [d | c b IH]; intros t h; cbn [GetCoins]; [reflexivity |]; destruct (cacheCoins c !! txid); [reflexivity |].
    destruct (GetCoins b txid) as [[tmp |] b']; cbn [snd] in *; rewrite !proofs_cache, IH; reflexivity.
Qed.

Lemma GetNullifier_agrees {E} t nf : nf_type t -> forall (v v' : view) r, GetNullifier (E := E) v t nf = Ok (r, v') -> agrees v v'.
Proof.
  intros Ht; assert (G : forall (v v' : view) r, GetNullifier (E := E) v t nf = Ok (r, v') ->
    (forall x, has_entry v x -> has_entry v' x) /\ (forall a rt, anchor_at v' a rt = anchor_at v a rt) /\ (forall p h, proofs_of v' p h = proofs_of v p h)).
  { induction v as [d | c b IH]; intros v' r Eq; (assert (Hd : t = SPROUT \/ t = SAPLING) by exact Ht); destruct Hd as [-> | ->]; cbn [GetNullifier db_GetNullifier mbind res_bind] in Eq.
    1, 2: injection Eq as _ <-; auto.
    all: destruct (cacheNullifiers c _ !! nf); [injection Eq as _ <-; auto |]; destruct (GetNullifier b _ nf) as [[q b'] | |]; try discriminate.
    all: cbn [mbind res_bind fst snd] in Eq; injection Eq as _ <-; destruct (IH b' q eq_refl) as (_ & A & P); split; [auto |]; split; intros; rewrite ?anchor_cache, ?proofs_cache, ?A, ?P; reflexivity. }
  intros v v' r Eq; destruct (G v v' r Eq) as (A & B & C); split; auto; eapply loads_all, GetNullifier_loads, Eq.
Qed.

Lemma GetAnchorAt_agrees t rt : forall (v v' : view) r, GetAnchorAt v t rt = (r, v') -> agrees v v'.
Proof.
  intros v v' r Eq; split; [eapply loads_all, GetAnchorAt_loads, Eq | | |].
  - destruct v as [d | c b]; cbn [GetAnchorAt] in Eq; [now injection Eq as _ <- |]; destruct (cacheAnchors c t !! rt); [now injection Eq as _ <- |].
    destruct (GetAnchorAt b t rt) as [[] ?]; injection Eq as _ <-; auto.
  - revert v' r Eq; induction v as [d | c b IH]; intros v' r Eq a rt'; cbn [GetAnchorAt] in Eq; [now injection Eq as _ <- |].
    destruct (cacheAnchors c t !! rt) eqn:Ec; [now injection Eq as _ <- |]; destruct (GetAnchorAt b t rt) as [q b'] eqn:Eb; specialize (IH _ _ eq_refl).
    destruct q as [tree |]; injection Eq as _ <-; rewrite !anchor_cache, ?IH; [| reflexivity]; cbn [set_anchors cacheAnchors].
    destruct (decide (a = t)) as [-> | Hn]; [rewrite fn_lookup_insert | now rewrite fn_lookup_insert_ne]; destruct (decide (rt' = rt)) as [-> | Hn].
    + rewrite lookup_insert_eq, Ec; unfold anchor_at; now rewrite Eb.
    + now rewrite lookup_insert_ne by congruence.
  - revert v' r Eq; induction v as [d | c b IH]; intros v' r Eq p h; cbn [GetAnchorAt] in Eq; [now injection Eq as _ <- |].
    destruct (cacheAnchors c t !! rt); [now injection Eq as _ <- |]; destruct (GetAnchorAt b t rt) as [q b'] eqn:Eb; specialize (IH _ _ eq_refl).
    destruct q; injection Eq as _ <-; rewrite !proofs_cache, IH; reflexivity.
Qed.

Lemma GetZkProofHash_agrees t h : forall (v v' : view) r, GetZkProofHash v t h = (r, v') -> agrees v v'.
Proof.
  intros v v' r Eq; split; [eapply loads_all, GetZkProofHash_loads, Eq | | |].
  - destruct v as [d | c b]; cbn [GetZkProofHash] in Eq; [now injection Eq as _ <- |]; destruct (cacheProofHash c t !! h); [now injection Eq as _ <- |].
    destruct (GetZkProofHash b t h) as [[] ?]; injection Eq as _ <-; auto.
  - revert v' r Eq; induction v as [d | c b IH]; intros v' r Eq a rt; cbn [GetZkProofHash] in Eq; [now injection Eq as _ <- |].
    destruct (cacheProofHash c t !! h); [now injection Eq as _ <- |]; destruct (GetZkProofHash b t h) as [[f x] b'] eqn:Eb; specialize (IH _ _ eq_refl).
    injection Eq as _ <-; rewrite !anchor_cache, IH; reflexivity.
  - revert v' r Eq; induction v as [d | c b IH]; intros v' r Eq p k; cbn [GetZkProofHash] in Eq; [now injection Eq as _ <- |].
    destruct (cacheProofHash c t !! h) eqn:Ec; [now injection Eq as _ <- |]; destruct (GetZkProofHash b t h) as [[f x] b'] eqn:Eb; specialize (IH _ _ eq_refl).
    injection Eq as _ <-; rewrite !proofs_cache, ?IH; cbn [set_proofs cacheProofHash].
    destruct (decide (p = t)) as [-> | Hn]; [rewrite fn_lookup_insert | now rewrite fn_lookup_insert_ne]; destruct (decide (k = h)) as [-> | Hn].
    + rewrite lookup_insert_eq, Ec; unfold proofs_of; now rewrite Eb.
    + now rewrite lookup_insert_ne by congruence.
Qed.

Lemma GetBestBlock_agrees (v v' : view) r : GetBestBlock v = (r, v') -> agrees v v'.
Proof.
  intros Eq; split; [eapply loads_all, GetBestBlock_loads, Eq | | |].
  - destruct v as [d | c b]; cbn [GetBestBlock] in Eq; [now injection Eq as _ <- |]; destruct (IsNull _); [| now injection Eq as _ <-].
    destruct (GetBestBlock b); injection Eq as _ <-; auto.
  - revert v' r Eq; induction v as [d | c b IH]; intros v' r Eq a rt; cbn [GetBestBlock] in Eq; [now injection Eq as _ <- |].
    destruct (IsNull _); [| now injection Eq as _ <-]; destruct (GetBestBlock b) as [x b']; specialize (IH _ _ eq_refl); injection Eq as _ <-; rewrite !anchor_cache, IH; reflexivity.
  - revert v' r Eq; induction v as [d | c b IH]; intros v' r Eq p h; cbn [GetBestBlock] in Eq; [now injection Eq as _ <- |].
    destruct (IsNull _); [| now injection Eq as _ <-]; destruct (GetBestBlock b) as [x b']; specialize (IH _ _ eq_refl); injection Eq as _ <-; rewrite !proofs_cache, IH; reflexivity.
Qed.
Lemma GetCoins_reads txid (v : view) : reads v (GetCoins v txid).2.
Proof.
  induction v as [d | c b IH]; [reflexivity |]; split; [apply GetCoins_agrees |]; cbn [GetCoins]; destruct (cacheCoins c !! txid); [exact (reflexivity b) |].
  destruct (GetCoins b txid) as [[tmp |] b']; exact IH.
Qed.

Lemma AccessCoins_reads (v v' : view) txid r : AccessCoins v txid = (r, v') -> reads v v'.
Proof. unfold AccessCoins; intros E; pose proof (GetCoins_reads txid v) as R; now rewrite E in R. Qed.

Lemma GetNullifier_reads {E} t nf : nf_type t -> forall (v v' : view) r, GetNullifier (E := E) v t nf = Ok (r, v') -> reads v v'.
Proof.
  intros Ht; induction v as [d | c b IH]; intros v' r Eq; pose proof (GetNullifier_agrees t nf Ht _ _ _ Eq) as A; destruct Ht as [-> | ->]; cbn [GetNullifier db_GetNullifier mbind res_bind] in Eq.
  1, 2: injection Eq as _ <-; now split.
  all: destruct (cacheNullifiers c _ !! nf); [injection Eq as _ <-; exact (reflexivity (VCache c b)) |]; destruct (GetNullifier b _ nf) as [[q b'] | |]; try discriminate.
  all: cbn [mbind res_bind fst snd] in Eq; injection Eq as _ <-; split; [exact A | exact (IH b' q eq_refl)].
Qed.

Lemma GetAnchorAt_reads t rt : forall (v v' : view) r, GetAnchorAt v t rt = (r, v') -> reads v v'.
Proof.
  induction v as [d | c b IH]; intros v' r Eq; pose proof (GetAnchorAt_agrees t rt _ _ _ Eq) as A; cbn [GetAnchorAt] in Eq; [injection Eq as _ <-; now split |].
  destruct (cacheAnchors c t !! rt); [injection Eq as _ <-; reflexivity |]; destruct (GetAnchorAt b t rt) as [[tree |] b']; injection Eq as _ <-; (split; [exact A | exact (IH _ _ eq_refl)]).
Qed.

Lemma GetZkProofHash_reads t h : forall (v v' : view) r, GetZkProofHash v t h = (r, v') -> reads v v'.
Proof.
  induction v as [d | c b IH]; intros v' r Eq; pose proof (GetZkProofHash_agrees t h _ _ _ Eq) as A; cbn [GetZkProofHash] in Eq; [injection Eq as _ <-; now split |].
  destruct (cacheProofHash c t !! h); [injection Eq as _ <-; reflexivity |]; destruct (GetZkProofHash b t h) as [[f x] b']; injection Eq as _ <-; split; [exact A | exact (IH _ _ eq_refl)].
Qed.

Lemma GetBestBlock_reads (v v' : view) r : GetBestBlock v = (r, v') -> reads v v'.
Proof.
  revert v' r; induction v as [d | c b IH]; intros v' r Eq; pose proof (GetBestBlock_agrees _ _ _ Eq) as A; cbn [GetBestBlock] in Eq; [injection Eq as _ <-; now split |].
  destruct (IsNull _); [| injection Eq as _ <-; reflexivity]; destruct (GetBestBlock b) as [x b']; injection Eq as _ <-; split; [exact A | exact (IH _ _ eq_refl)].
Qed.

(** ** What a transaction needs of the shielded pools *)

(** The anchor of every join-split is known or the root after an earlier one, and
    no tree is full. *)
Fixpoint joinsplit_trees (anchor : uint256 -> option Tree) (im : gmap uint256 Tree) (l : list JSDescription) : bool :=
  match l with
  | [] => true
  | js :: l =>
      match (match im !! js_anchor js with Some tree => Some tree | None => anchor (js_anchor js) end) with
      | None => false
      | Some tree =>
          match append_all tree (js_commitments js) with
          | Ok tree => joinsplit_trees anchor (match im !! tree_root SPROUT tree with Some _ => im | None => <[tree_root SPROUT tree := tree]> im end) l
          | _ => false
          end
      end
  end.

Definition unrevealed (l : level) (tx : CTransaction) : Prop :=
  forall t x, nf_type t -> x ∈ marked (sprout_nullifiers tx) (sapling_nullifiers tx) t -> lv_spent l t x = false.

Record anchored (v : view) (tx : CTransaction) : Prop := {
  an_trees : joinsplit_trees (anchor_at v SPROUT) ∅ (vjoinsplit tx) = true;
  an_spends : Forall (fun d => is_Some (anchor_at v SAPLING (sp_anchor d)) /\ is_Some (anchor_at v SAPLINGFRONTIER (sp_anchor d))) (vShieldedSpend tx);
}.

Definition unproved (v : view) (tx : CTransaction) : Prop :=
  Forall (fun d => (proofs_of v SPEND (Hash (sp_zkproof d))).1 = false) (vShieldedSpend tx) /\
  Forall (fun d => (proofs_of v OUTPUT (Hash (od_zkproof d))).1 = false) (vShieldedOutput tx).

Lemma joinsplit_trees_ext (f g : uint256 -> option Tree) : (forall x, f x = g x) -> forall l im, joinsplit_trees f im l = joinsplit_trees g im l.
Proof. intros E; induction l as [| js l IH]; intros im; cbn [joinsplit_trees]; [reflexivity |]; rewrite E; repeat case_match; auto. Qed.

Lemma anchored_reads (v v' : view) tx : (forall t rt, anchor_at v' t rt = anchor_at v t rt) -> anchored v tx -> anchored v' tx.
Proof.
  intros R [A B]; split; [rewrite <- A; apply joinsplit_trees_ext; auto |]; eapply Forall_impl; [| exact B]; cbn; intros d; now rewrite !R.
Qed.

(** A nullifier that is not spent. *)
Lemma GetNullifier_unspent {E} (v : view) l s t nf : good v (l :: s) -> nf_type t -> lv_spent l t nf = false ->
  exists v', GetNullifier (E := E) v t nf = Ok (false, v') /\ reads v v'.
Proof.
  intros Hg Ht Hs; destruct (GetNullifier_ok (E := E) v t nf Ht (proj1 (proj2 Hg))) as (v' & Eq & _); exists v'.
  rewrite <- (proj2 (good_level v l s Hg) t nf Ht), Hs in Eq; split; [exact Eq |]; eapply GetNullifier_reads; eauto.
Qed.

Lemma check_unspent_ok t nfs : nf_type t -> forall (v : view) l s, good v (l :: s) -> (forall x, x ∈ nfs -> lv_spent l t x = false) ->
  exists v', check_unspent v t nfs = Ok v' /\ reads v v'.
Proof.
  intros Ht; induction nfs as [| nf nfs IH]; intros v l s Hg Hs; cbn [check_unspent]; [exists v; split; reflexivity |].
  destruct (GetNullifier_unspent (E := unit) v l s t nf Hg Ht (Hs nf ltac:(now left))) as (v1 & -> & R1); cbn [mbind res_bind negb assert_].
  destruct (IH v1 l s (rd_good _ _ R1 _ Hg) ltac:(intros x Hx; apply Hs; now right)) as (v2 & -> & R2); exists v2; split; [reflexivity | now transitivity v1].
Qed.

Lemma nullifier_spent_none {E} t nfs : nf_type t -> forall (v : view) l s, good v (l :: s) -> (forall x, x ∈ nfs -> lv_spent l t x = false) ->
  exists v', nullifier_spent (E := E) v t nfs = Ok (false, v') /\ reads v v'.
Proof.
  intros Ht; induction nfs as [| nf nfs IH]; intros v l s Hg Hs; cbn [nullifier_spent]; [exists v; split; reflexivity |].
  destruct (GetNullifier_unspent (E := E) v l s t nf Hg Ht (Hs nf ltac:(now left))) as (v1 & -> & R1); cbn [mbind res_bind].
  destruct (IH v1 l s (rd_good _ _ R1 _ Hg) ltac:(intros x Hx; apply Hs; now right)) as (v2 & -> & R2); exists v2; split; [reflexivity | now transitivity v1].
Qed.

(** The tree of a join-split. *)
Lemma joinsplit_tree (v : view) (im : gmap uint256 Tree) a : exists v',
  match im !! a with Some tree => (Some tree, v) | None => GetAnchorAt v SPROUT a end =
  (match im !! a with Some tree => Some tree | None => anchor_at v SPROUT a end, v') /\ reads v v'.
Proof.
  destruct (im !! a); [exists v; split; reflexivity |]; unfold anchor_at; destruct (GetAnchorAt v SPROUT a) as [r v'] eqn:Ea; exists v'; split; [reflexivity |].
  eapply GetAnchorAt_reads, Ea.
Qed.

Lemma joinsplits_ok jss : forall (v : view) im l s, good v (l :: s) ->
  (forall x, x ∈ concat (map js_nullifiers jss) -> lv_spent l SPROUT x = false) -> joinsplit_trees (anchor_at v SPROUT) im jss = true ->
  (exists v', check_joinsplit_trees v im jss = Ok v' /\ reads v v') /\ (exists v', joinsplit_loop v im jss = Ok (true, v') /\ reads v v').
Proof.
  induction jss as [| js jss IH]; intros v im l s Hg Hs Ht; cbn [check_joinsplit_trees joinsplit_loop]; [split; exists v; split; reflexivity |]; cbn [joinsplit_trees map concat] in *.
  assert (Hs1 : forall x, x ∈ js_nullifiers js -> lv_spent l SPROUT x = false) by (intros x Hx; apply Hs, elem_of_app; now left).
  assert (Hs2 : forall x, x ∈ concat (map js_nullifiers jss) -> lv_spent l SPROUT x = false) by (intros x Hx; apply Hs, elem_of_app; now right).
  assert (Hnext : forall v1 : view, reads v v1 -> exists v2 tree tree', match im !! js_anchor js with Some tree => (Some tree, v1) | None => GetAnchorAt v1 SPROUT (js_anchor js) end = (Some tree, v2) /\
    append_all tree (js_commitments js) = Ok tree' /\ reads v v2 /\
    joinsplit_trees (anchor_at v2 SPROUT) (match im !! tree_root SPROUT tree' with Some _ => im | None => <[tree_root SPROUT tree' := tree']> im end) jss = true).
  { intros v1 R1; destruct (joinsplit_tree v1 im (js_anchor js)) as (v2 & E2 & R2); assert (R : reads v v2) by (now transitivity v1).
    rewrite (rd_anchor _ _ R1) in E2; destruct (match im !! js_anchor js with Some tree => Some tree | None => anchor_at v SPROUT (js_anchor js) end) as [tree |]; [| discriminate].
    destruct (append_all tree (js_commitments js)) as [tree' | |] eqn:Ea; try discriminate; exists v2, tree, tree'; split; [exact E2 |]; split; [exact Ea |]; split; [exact R |].
    rewrite (joinsplit_trees_ext _ (anchor_at v SPROUT)); [exact Ht | intros x; apply (rd_anchor _ _ R)]. }
  split.
  - destruct (check_unspent_ok SPROUT (js_nullifiers js) ltac:(now left) v l s Hg Hs1) as (v1 & -> & R1); cbn [mbind res_bind].
    destruct (Hnext v1 R1) as (v2 & tree & tree' & -> & -> & R & Ht2); cbn [mbind res_bind].
    destruct (IH v2 _ l s (rd_good _ _ R _ Hg) Hs2 Ht2) as [(v3 & -> & R3) _]; exists v3; split; [reflexivity | now transitivity v2].
  - destruct (nullifier_spent_none (E := unit) SPROUT (js_nullifiers js) ltac:(now left) v l s Hg Hs1) as (v1 & -> & R1); cbn [mbind res_bind].
    destruct (Hnext v1 R1) as (v2 & tree & tree' & -> & -> & R & Ht2); cbn [mbind res_bind].
    destruct (IH v2 _ l s (rd_good _ _ R _ Hg) Hs2 Ht2) as [_ (v3 & -> & R3)]; exists v3; split; [reflexivity | now transitivity v2].
Qed.

Lemma anchors_known_ok ds : forall v : view, Forall (fun d => is_Some (anchor_at v SAPLING (sp_anchor d))) ds ->
  exists v', anchors_known v ds = (true, v') /\ reads v v'.
Proof.
  induction ds as [| d ds IH]; intros v Ha; cbn [anchors_known]; [exists v; split; reflexivity |]; apply Forall_cons_1 in Ha as [[tree Ed] Ha].
  unfold anchor_at in Ed; destruct (GetAnchorAt v SAPLING (sp_anchor d)) as [r v1] eqn:Eg; cbn in Ed; subst r; apply GetAnchorAt_reads in Eg.
  destruct (IH v1) as (v2 & -> & R2); [eapply Forall_impl; [| exact Ha]; cbn; intros x; now rewrite (rd_anchor _ _ Eg) |].
  exists v2; split; [reflexivity | now transitivity v1].
Qed.

Lemma requirements_pass (v : view) l s tx : good v (l :: s) -> unrevealed l tx -> anchored v tx ->
  exists v', HaveJoinSplitRequirements v tx = Ok (true, v') /\ reads v v'.
Proof.
  intros Hg Hu [Ht Ha]; unfold HaveJoinSplitRequirements.
  destruct (joinsplits_ok (vjoinsplit tx) v ∅ l s Hg (fun x => Hu SPROUT x ltac:(now left)) Ht) as [_ (v1 & -> & R1)]; cbn [mbind res_bind negb].
  destruct (nullifier_spent_none (E := unit) SAPLING (sapling_nullifiers tx) ltac:(now right) v1 l s (rd_good _ _ R1 _ Hg) (fun x => Hu SAPLING x ltac:(now right))) as (v2 & -> & R2).
  assert (R : reads v v2) by (now transitivity v1).
  destruct (anchors_known_ok (vShieldedSpend tx) v2) as (v3 & E3 & R3); [eapply Forall_impl; [| exact Ha]; cbn; intros d [Hd _]; now rewrite (rd_anchor _ _ R) |].
  cbn [mbind res_bind]; rewrite E3; exists v3; split; [reflexivity | now transitivity v2].
Qed.

Lemma duplicate_proofs_reads t hs : forall (v v' : view) r, duplicate_proofs v t hs = (r, v') -> reads v v'.
Proof.
  induction hs as [| h hs IH]; intros v v' r; cbn [duplicate_proofs]; [now intros [= _ <-] |].
  destruct (GetZkProofHash v t h) as [[[] x] v1] eqn:Ez; apply GetZkProofHash_reads in Ez; [now intros [= _ <-] |]; intros E; etransitivity; [exact Ez | eapply IH, E].
Qed.

Lemma duplicates_reads (v v' : view) tx r : HaveJoinSplitRequirementsDuplicateProofs v tx = (r, v') -> reads v v'.
Proof.
  unfold HaveJoinSplitRequirementsDuplicateProofs; destruct (duplicate_proofs v SPEND _) as [b1 v1] eqn:E1; apply duplicate_proofs_reads in E1.
  destruct (duplicate_proofs v1 OUTPUT _) as [b2 v2] eqn:E2; apply duplicate_proofs_reads in E2; intros [= _ <-]; now transitivity v1.
Qed.

(** The assertions on the shielded parts. *)
Lemma check_new_proof_ok (v : view) t h : (proofs_of v t h).1 = false -> exists v', check_new_proof v t h = Ok v' /\ reads v v'.
Proof.
  unfold proofs_of, check_new_proof; destruct (GetZkProofHash v t h) as [[f x] v'] eqn:Ez; cbn [fst]; intros ->; exists v'; split; [reflexivity | eapply GetZkProofHash_reads, Ez].
Qed.

Lemma check_anchor_ok (v : view) t rt : is_Some (anchor_at v t rt) -> exists v', check_anchor v t rt = Ok v' /\ reads v v'.
Proof.
  unfold anchor_at, check_anchor; destruct (GetAnchorAt v t rt) as [r v'] eqn:Ea; cbn [fst]; intros Hr; rewrite bool_decide_eq_true_2 by exact Hr.
  exists v'; split; [reflexivity | eapply GetAnchorAt_reads, Ea].
Qed.

Lemma check_output_proofs_ok ds : forall v : view, Forall (fun d => (proofs_of v OUTPUT (Hash (od_zkproof d))).1 = false) ds -> exists v', check_output_proofs v ds = Ok v' /\ reads v v'.
Proof.
  induction ds as [| d ds IH]; intros v Hp; cbn [check_output_proofs]; [exists v; split; reflexivity |]; apply Forall_cons_1 in Hp as [Hd Hp].
  destruct (check_new_proof_ok v _ _ Hd) as (v1 & -> & R1); cbn [mbind res_bind]; destruct (IH v1) as (v2 & -> & R2).
  - eapply Forall_impl; [| exact Hp]; cbn; intros x; now rewrite (rd_proof _ _ R1).
  - exists v2; split; [reflexivity | now transitivity v1].
Qed.

Lemma check_spends_ok ds : forall (v : view) l s, good v (l :: s) -> (forall x, x ∈ map sp_nullifier ds -> lv_spent l SAPLING x = false) ->
  Forall (fun d => is_Some (anchor_at v SAPLING (sp_anchor d)) /\ is_Some (anchor_at v SAPLINGFRONTIER (sp_anchor d))) ds ->
  Forall (fun d => (proofs_of v SPEND (Hash (sp_zkproof d))).1 = false) ds -> exists v', check_spends v ds = Ok v' /\ reads v v'.
Proof.
  induction ds as [| d ds IH]; intros v l s Hg Hn Ha Hp; cbn [check_spends]; [exists v; split; reflexivity |].
  apply Forall_cons_1 in Ha as [[Ha1 Ha2] Ha], Hp as [Hp1 Hp]; cbn [map] in Hn.
  destruct (check_anchor_ok v _ _ Ha1) as (v1 & -> & R1); cbn [mbind res_bind].
  rewrite <- (rd_anchor _ _ R1) in Ha2; destruct (check_anchor_ok v1 _ _ Ha2) as (v2 & -> & R2); cbn [mbind res_bind].
  assert (R : reads v v2) by (now transitivity v1).
  destruct (check_unspent_ok SAPLING [sp_nullifier d] ltac:(now right) v2 l s (rd_good _ _ R _ Hg)) as (v3 & -> & R3); [intros x Hx%list_elem_of_singleton; subst x; apply Hn; now left |].
  cbn [mbind res_bind]; assert (R' : reads v v3) by (now transitivity v2).
  rewrite <- (rd_proof _ _ R') in Hp1; destruct (check_new_proof_ok v3 _ _ Hp1) as (v4 & -> & R4); cbn [mbind res_bind]; assert (R'' : reads v v4) by (now transitivity v3).
  destruct (IH v4 l s (rd_good _ _ R'' _ Hg)) as (v5 & -> & R5).
  - intros x Hx; apply Hn; now right.
  - eapply Forall_impl; [| exact Ha]; cbn; intros x; now rewrite !(rd_anchor _ _ R'').
  - eapply Forall_impl; [| exact Hp]; cbn; intros x; now rewrite (rd_proof _ _ R'').
  - exists v5; split; [reflexivity | now transitivity v4].
Qed.
End Reads.

(** ** A transaction that CheckTxInputs accepts *)

(** The output that an outpoint names, with the height if it is of a coinbase: in a
    level; and for a transaction of the pool, where the outputs of the pool hide the
    coins. *)
Definition coin_of (l : level) (o : COutPoint) : option (CTxOut * option Z) :=
  match lv_coins l (op_hash o) with
  | Some c =>
      match vout c !! Z.to_nat (op_n o) with
      | Some out => if txout_IsNull out then None else Some (out, if fCoinBase c then Some (coins_nHeight c) else None)
      | None => None
      end
  | None => None
  end.

Definition pool_coin (l : level) (m : CTxMemPool) (o : COutPoint) : option (CTxOut * option Z) :=
  match find_entry m (op_hash o) with
  | Some (_, e) =>
      match tx_vout (GetTx e).2 !! Z.to_nat (op_n o) with
      | Some out => if txout_IsNull out || IsUnspendable (scriptPubKey out) then None else Some (out, None)
      | None => None
      end
  | None => coin_of l o
  end.

Section Spending.
Context {Tree : Type} `{AnchorTrees Tree, NoteTrees Tree, HashFunctions, ChainParams, MoneyLimit, SpendParams,
  InterestChain, SubsidyParams} `{!MoneyLimitOk _} (icok : InterestChainOk _).
Abbreviation cache := (CCoinsViewCache Tree).
Abbreviation view := (view Tree).
Abbreviation top := (cache * view)%type.
Abbreviation vtop v := (VCache v.1 v.2).

Section Source.
Context (src : COutPoint -> option (CTxOut * option Z)) (h : Z).

Definition src_value (o : COutPoint) : Z := from_option (fun oc => nValue oc.1) 0 (src o).
Definition src_interest (o : COutPoint) : Z := input_interest (op_hash o) (op_n o) (src_value o) h.

(** The input names an output, which is mature and unlocked if it is of a coinbase. *)
Definition input_ready (tx : CTransaction) (o : COutPoint) : Prop :=
  0 <= op_n o /\ exists out cb, src o = Some (out, cb) /\ 0 <= nValue out <= MAX_MONEY /\
    forall k, cb = Some k ->
      CoinbaseMaturity <= h - k /\ u64 (komodo_block_unlocktime (u32 k)) <= h /\ (coinbase_protected = true -> tx_vout tx = []).

Definition total_in (tx : CTransaction) : Z :=
  zsum (map src_value (MempoolSpec.prevouts tx)) + zsum (map src_interest (MempoolSpec.prevouts tx)) + shielded_value_in tx.

Record spendable (tx : CTransaction) : Prop := {
  sd_inputs : Forall (input_ready tx) (MempoolSpec.prevouts tx);
  sd_amounts : amounts_valid tx;
  sd_outputs : outputs_ok tx;
  sd_joinsplits : Forall (fun x => 0 <= x) (map vpub_old (vjoinsplit tx)) /\ Forall (fun x => 0 <= x) (map vpub_new (vjoinsplit tx));
  sd_total : value_out tx <= total_in tx <= MAX_MONEY;
}.
End Source.

Lemma spendable_agree src src' h tx : (forall o, o ∈ MempoolSpec.prevouts tx -> src' o = src o) -> spendable src h tx -> spendable src' h tx.
Proof.
  intros Ha [I A O J T].
  assert (Ev : map (src_value src') (MempoolSpec.prevouts tx) = map (src_value src) (MempoolSpec.prevouts tx)) by (apply map_ext_in; intros o Hk; apply list_elem_of_In in Hk; unfold src_value; now rewrite (Ha o Hk)).
  assert (Ei : map (src_interest src' h) (MempoolSpec.prevouts tx) = map (src_interest src h) (MempoolSpec.prevouts tx)) by (apply map_ext_in; intros o Hk; apply list_elem_of_In in Hk; unfold src_interest, src_value; now rewrite (Ha o Hk)).
  split; auto; [| unfold total_in in *; now rewrite Ev, Ei].
  apply list_relations.list.Forall_forall; intros o Ho; unfold input_ready; rewrite Ha by exact Ho; exact (proj1 (list_relations.list.Forall_forall _ _) I o Ho).
Qed.

Definition pair_of (o : COutPoint) : uint256 * Z := (op_hash o, op_n o).

Lemma prevouts_pairs tx : CoinsView.prevouts tx = map pair_of (MempoolSpec.prevouts tx).
Proof. unfold CoinsView.prevouts, MempoolSpec.prevouts; now rewrite map_map. Qed.

Lemma coin_of_Some l o out cb : 0 <= op_n o -> coin_of l o = Some (out, cb) ->
  exists c, lv_coins l (op_hash o) = Some c /\ vout c !! Z.to_nat (op_n o) = Some out /\ txout_IsNull out = false /\ cb = (if fCoinBase c then Some (coins_nHeight c) else None) /\
    available l (pair_of o).
Proof.
  intros Hn; unfold coin_of; destruct (lv_coins l (op_hash o)) as [c |] eqn:Ec; [| discriminate]; destruct (vout c !! Z.to_nat (op_n o)) as [x |] eqn:Eo; [| discriminate].
  destruct (txout_IsNull x) eqn:En; [discriminate |]; intros [= <- <-]; exists c; do 4 (split; [assumption || reflexivity |]).
  split; [exact Hn |]; exists c; split; [exact Ec |].
  apply IsAvailable_iff; [exact Hn | eauto].
Qed.

Lemma available_coin l o : available l (pair_of o) -> is_Some (coin_of l o).
Proof.
  intros (Hn & c & Ec & Ha); cbn in *; apply IsAvailable_iff in Ha as (out & Ho & En); [| exact Hn]; unfold coin_of; rewrite Ec, Ho, En; eauto.
Qed.

Lemma coinbase_pass tx c h : 0 <= h < 2 ^ 31 -> 0 < coins_nHeight c < 2 ^ 31 ->
  (fCoinBase c = true -> CoinbaseMaturity <= h - coins_nHeight c /\ u64 (komodo_block_unlocktime (u32 (coins_nHeight c))) <= h /\ (coinbase_protected = true -> tx_vout tx = [])) ->
  check_coinbase_spend tx c h = Ok tt.
Proof.
  intros Hh Hk Hc; unfold check_coinbase_spend; destruct (fCoinBase c); [| reflexivity]; destruct (Hc eq_refl) as (Hm & Hu & Hp).
  rewrite (uwrap_small 64 h), (swrap_small 32) by lia; rewrite (proj2 (Z.ltb_ge _ _) Hu), andb_false_r; cbn [reject_if mbind res_bind].
  rewrite (proj2 (Z.ltb_ge _ _) Hm); cbn [reject_if mbind res_bind]; destruct coinbase_protected; [| reflexivity]; now rewrite Hp.
Qed.

Lemma ready_bounds src h tx o : input_ready src h tx o -> 0 <= src_value src o <= MAX_MONEY /\ 0 <= src_interest src h o.
Proof.
  intros (_ & out & cb & Es & Hv & _); assert (Ev : src_value src o = nValue out) by (unfold src_value; now rewrite Es); pose proof money_limit.
  unfold src_interest; rewrite Ev; split; [exact Hv |]; pose proof (input_interest_bound icok (op_hash o) (op_n o) (nValue out) h ltac:(lia)); lia.
Qed.

Lemma ready_sums src h tx os : Forall (input_ready src h tx) os -> 0 <= zsum (map (src_value src) os) /\ 0 <= zsum (map (src_interest src h) os).
Proof. intros Hr; split; apply zsum_nonneg, Forall_fmap; eapply Forall_impl; [| exact Hr | | exact Hr]; cbn; intros o Ho; now apply (ready_bounds src h tx) in Ho. Qed.

Lemma inputs_pass tx lv s h os : forall (v : view) t,
  good v (lv :: s) -> level_wf lv -> Forall (input_ready (coin_of lv) h tx) os -> 0 <= h < 2 ^ 31 -> 0 <= t ->
  t + zsum (map (src_value (coin_of lv)) os) + zsum (map (src_interest (coin_of lv) h) os) <= MAX_MONEY ->
  exists v', check_inputs_loop v tx (map pair_of os) h t = Ok (t + zsum (map (src_value (coin_of lv)) os) + zsum (map (src_interest (coin_of lv) h) os), v') /\ reads v v'.
Proof.
  induction os as [| o os IH]; intros v t Hg Hw Hin Hh Ht Hb; cbn [map check_inputs_loop].
  { exists v; split; [do 2 f_equal; unfold zsum; cbn; lia | reflexivity]. }
  apply Forall_cons_1 in Hin as [Ho Hin]; pose proof (ready_sums _ _ _ _ Hin) as [Hs1 Hs2]; pose proof (ready_bounds _ _ _ _ Ho) as [Hb1 Hb2].
  destruct Ho as (Hn & out & cb & Es & Hv & Hc); destruct (coin_of_Some lv o out cb Hn Es) as (c & Ec & Eo & En & -> & Hav).
  destruct (AccessCoins_ok v lv s (pair_of o) Hg Hav) as (c' & o' & v1 & Ea & Hg1 & Ec' & Eo' & _); cbn [pair_of fst snd] in *.
  rewrite Ec in Ec'; injection Ec' as <-; rewrite Eo in Eo'; injection Eo' as <-; change (pair_of o) with (op_hash o, op_n o); cbv iota beta; rewrite Ea; apply AccessCoins_reads in Ea.
  rewrite coinbase_pass; [| exact Hh | apply (Hw _ _ Ec) | intros Hf; apply Hc; now rewrite Hf]; cbn [mbind res_bind]; rewrite Eo.
  assert (Ex : src_value (coin_of lv) o = nValue out) by (unfold src_value; now rewrite Es).
  assert (Ei : src_interest (coin_of lv) h o = input_interest (op_hash o) (op_n o) (nValue out) h) by (unfold src_interest; now rewrite Ex).
  pose proof money_limit as HM; unfold zsum in *; cbn [map fold_right] in Hb |- *; rewrite Ex in *; rewrite <- Ei; set (i := src_interest (coin_of lv) h o) in *.
  rewrite (swrap_small 64 (t + nValue out)), (swrap_small 64) by lia.
  rewrite (proj2 (MoneyRange_iff (nValue out))), (proj2 (MoneyRange_iff (t + nValue out + i))) by lia; cbn [negb orb reject_if mbind res_bind].
  destruct (IH v1 (t + nValue out + i) Hg1 Hw Hin Hh ltac:(lia) ltac:(lia)) as (v2 & -> & R2); exists v2; split; [do 2 f_equal; lia | now transitivity v1].
Qed.

Lemma have_inputs_reads l : forall v : view, reads v (have_inputs_loop v l).2.
Proof.
  induction l as [| [x n] l IH]; intros v; cbn [have_inputs_loop]; [reflexivity |]; destruct (AccessCoins v x) as [[c |] v'] eqn:Ea; apply AccessCoins_reads in Ea; [| exact Ea].
  destruct (IsAvailable c n); [etransitivity; [exact Ea | apply IH] | exact Ea].
Qed.

Lemma HaveInputs_iff (v : view) l s tx : good v (l :: s) -> IsMint tx = false -> Forall (fun o => 0 <= op_n o) (MempoolSpec.prevouts tx) ->
  exists b v', HaveInputs v tx = (b, v') /\ reads v v' /\ (b = true <-> Forall (fun o => available l (pair_of o)) (MempoolSpec.prevouts tx)).
Proof.
  intros Hg Hm Hi; unfold HaveInputs; rewrite Hm, prevouts_pairs; pose proof (have_inputs_reads (map pair_of (MempoolSpec.prevouts tx)) v) as R.
  destruct (have_inputs_loop_ok (map pair_of (MempoolSpec.prevouts tx)) v (l :: s)) as [_ Hiff]; [apply Forall_fmap; exact Hi | exact Hg |].
  destruct (have_inputs_loop v (map pair_of (MempoolSpec.prevouts tx))) as [b v']; cbn [fst snd] in *; exists b, v'; split; [reflexivity |]; split; [exact R |]; rewrite Hiff, Forall_fmap.
  rewrite !list_relations.list.Forall_forall; split; intros Hf o Ho; specialize (Hf o Ho); cbn in *.
  - destruct Hf as (c & Hu & Ha); split; [exact (proj1 (list_relations.list.Forall_forall _ _) Hi o Ho) |]; exists c; split; [now rewrite (proj1 (good_level v l s Hg)) | exact Ha].
  - destruct Hf as (_ & c & Hu & Ha); exists c; split; [now rewrite <- (proj1 (good_level v l s Hg)) | exact Ha].
Qed.

(** The converse of [CheckTxInputs_ok]. *)
Lemma CheckTxInputs_pass (v : view) lv s tx h : good v (lv :: s) -> level_wf lv -> IsMint tx = false -> 0 <= h < 2 ^ 31 ->
  spendable (coin_of lv) h tx -> unrevealed lv tx -> anchored v tx -> exists fee v', CheckTxInputs v tx h = Ok (fee, v') /\ reads v v'.
Proof.
  intros Hg Hw Hm Hh [Hin Ha [Ho _] [Hj1 Hj2] [Ht1 Ht2]] Hu Hk; unfold CheckTxInputs, reject_requirements; pose proof money_limit as HM; pose proof (ready_sums _ _ _ _ Hin) as [Hs1 Hs2].
  destruct (HaveInputs_iff v lv s tx Hg Hm) as (b & v1 & -> & R1 & Hb).
  { eapply Forall_impl; [| exact Hin]; cbn; intros o (Hn & _); exact Hn. }
  assert (b = true) as -> by (apply Hb; eapply Forall_impl; [| exact Hin]; cbn; intros o (Hn & out & cb & Es & _); destruct (coin_of_Some lv o out cb Hn Es) as (_ & _ & _ & _ & _ & Hav); exact Hav); cbn [negb].
  destruct (requirements_pass v1 lv s tx (rd_good _ _ R1 _ Hg) Hu (anchored_reads v v1 tx (rd_anchor _ _ R1) Hk)) as (v2 & -> & R2); cbn [rethrow mbind res_bind negb].
  destruct (HaveJoinSplitRequirementsDuplicateProofs v2 tx) as [d v3] eqn:Ed; apply duplicates_reads in Ed.
  assert (R3 : reads v v3) by (transitivity v1; [exact R1 | now transitivity v2]); rewrite prevouts_pairs; unfold total_in in *; pose proof (shielded_nonneg tx Hj2) as Hsn.
  destruct (inputs_pass tx lv s h _ v3 0 (rd_good _ _ R3 _ Hg) Hw Hin Hh ltac:(lia) ltac:(lia)) as (v4 & -> & R4); cbn [mbind res_bind].
  set (a := zsum (map (src_value _) _)) in *; set (i := zsum (map (src_interest _ _) _)) in *.
  assert (Ho' : Forall (fun x => 0 <= x) (map nValue (tx_vout tx))) by (apply Forall_fmap; exact Ho); pose proof (value_out_nonneg tx Ho' Hj1) as Hon.
  rewrite (proj2 (GetShieldedValueIn_ok (E := reject) tx (shielded_value_in tx) Ha)) by (split; [exact Hj2 |]; split; [lia | reflexivity]); cbn [mbind res_bind].
  rewrite (swrap_small 64 (0 + a + i + _)) by lia; rewrite (proj2 (MoneyRange_iff _)) by lia; cbn [negb reject_if mbind res_bind].
  rewrite (proj2 (GetValueOut_ok (E := reject) tx (value_out tx) Ha)) by (split; [exact Ho' |]; split; [exact Hj1 |]; split; [lia | reflexivity]); cbn [mbind res_bind].
  set (sum := 0 + a + i + shielded_value_in tx) in *; rewrite (proj2 (Z.ltb_ge sum (value_out tx))) by lia; cbn [reject_if mbind res_bind].
  rewrite (swrap_small 64 (sum - value_out tx)) by lia; rewrite (proj2 (Z.ltb_ge (sum - value_out tx) 0)) by lia; cbn [reject_if mbind res_bind].
  rewrite (proj2 (MoneyRange_iff _)) by lia; cbn [negb reject_if mbind res_bind]; do 2 eexists; split; [reflexivity | now transitivity v3].
Qed.
End Spending.

(** ** What UpdateCoins leaves of the coins *)

Lemma Cleanup_lookup c n out : vout c !! n = Some out -> txout_IsNull out = false -> vout (Cleanup c) !! n = Some out.
Proof.
  intros Hn He; destruct (Cleanup_vout c) as (d & E & F); rewrite E in Hn; apply lookup_app_Some in Hn as [Hn | [_ Hn]]; [exact Hn |].
  rewrite (lookup_null_tail d _ out F Hn) in He; discriminate.
Qed.

Lemma canon_lookup c n out : vout c !! n = Some out -> txout_IsNull out = false -> canon c = Some c.
Proof.
  intros Hn He; unfold canon, IsPruned; destruct (forallb txout_IsNull (vout c)) eqn:Ef; [| reflexivity].
  rewrite List.forallb_forall in Ef; rewrite (Ef out) in He; [discriminate |]; apply list_elem_of_In; eapply list_elem_of_lookup_2, Hn.
Qed.

Lemma coin_of_canon l o c out : lv_coins l (op_hash o) = canon c -> vout c !! Z.to_nat (op_n o) = Some out -> txout_IsNull out = false ->
  coin_of l o = Some (out, if fCoinBase c then Some (coins_nHeight c) else None).
Proof. intros Hl Hn He; unfold coin_of; now rewrite Hl, (canon_lookup c _ out Hn He), Hn, He. Qed.

Lemma spend_one_coin l p o x : 0 <= p.2 -> 0 <= op_n o -> pair_of o <> p -> coin_of l o = Some x -> coin_of (spend_one l p) o = Some x.
Proof.
  intros Hp Hn Hne; destruct x as [out cb]; intros Ec; destruct (coin_of_Some l o out cb Hn Ec) as (c & Hl & Ho & He & -> & _).
  destruct (decide (op_hash o = p.1)) as [Eh | Eh].
  - assert (Hp1 : lv_coins (spend_one l p) (op_hash o) = canon (Spend c p.2).2) by (unfold spend_one; cbn; rewrite decide_True by exact Eh; now rewrite <- Eh, Hl).
    assert (Hs : vout (Spend c p.2).2 !! Z.to_nat (op_n o) = Some out /\ fCoinBase (Spend c p.2).2 = fCoinBase c /\ coins_nHeight (Spend c p.2).2 = coins_nHeight c).
    { unfold Spend; destruct (_ || _); [auto |]; cbn [snd]; split; [| split; reflexivity]; apply Cleanup_lookup; [| exact He]; cbn [set_vout vout].
      rewrite list_lookup_insert_ne; [exact Ho |]; intros E; apply Hne; destruct p as [ph pn]; unfold pair_of; cbn in *; f_equal; [exact Eh | lia]. }
    destruct Hs as (Hs1 & <- & <-); now apply coin_of_canon.
  - unfold coin_of in *; unfold spend_one; cbn; now rewrite decide_False by exact Eh.
Qed.

Lemma spend_level_coin ps : forall l o x, Forall (fun p => 0 <= p.2) ps -> 0 <= op_n o -> pair_of o ∉ ps -> coin_of l o = Some x -> coin_of (spend_level l ps) o = Some x.
Proof.
  induction ps as [| p ps IH]; intros l o x Hp Hn Hni Hc; [exact Hc |]; apply Forall_cons_1 in Hp as [Hp Hps]; apply not_elem_of_cons in Hni as [Hne Hni].
  apply (IH (spend_one l p)); auto; now apply spend_one_coin.
Qed.

Lemma next_level_other l txid tx h o x : (IsMint tx = false -> Forall (fun p => 0 <= p.2) (CoinsView.prevouts tx)) -> 0 <= op_n o ->
  pair_of o ∉ CoinsView.prevouts tx -> op_hash o <> txid -> coin_of l o = Some x -> coin_of (next_level l txid tx h) o = Some x.
Proof.
  intros Hp Hn Hni Hne Hc; assert (Hl : coin_of (if IsMint tx then l else spend_level l (CoinsView.prevouts tx)) o = Some x) by (destruct (IsMint tx); [exact Hc | now apply spend_level_coin; auto]).
  unfold next_level; set (l1 := if IsMint tx then _ else _) in *; clearbody l1; unfold coin_of in *; cbn; now rewrite decide_False by exact Hne.
Qed.

Lemma next_level_own l txid tx h n out : tx_vout tx !! Z.to_nat n = Some out -> txout_IsNull out = false -> IsUnspendable (scriptPubKey out) = false ->
  coin_of (next_level l txid tx h) (mkOutPoint txid n) = Some (out, if IsCoinBase tx then Some h else None).
Proof.
  intros Ho He Hu; apply (coin_of_canon (next_level l txid tx h) (mkOutPoint txid n) (FromTx tx h) out); [unfold next_level; cbn; now rewrite decide_True by reflexivity | | exact He].
  unfold FromTx, ClearUnspendable; apply Cleanup_lookup; [| exact He]; cbn [set_vout vout op_n]; rewrite list_lookup_fmap, Ho; cbn; now rewrite Hu.
Qed.

Lemma next_level_new l txid tx h t : t <> txid -> lv_coins l t = None -> lv_coins (next_level l txid tx h) t = None.
Proof. intros Hne Hl; unfold next_level; cbn; rewrite decide_False by exact Hne; destruct (IsMint tx); [exact Hl | now apply spend_level_None]. Qed.

Lemma next_level_unrevealed l txid tx h tx' : unrevealed l tx' ->
  (forall t x, nf_type t -> x ∈ marked (sprout_nullifiers tx) (sapling_nullifiers tx) t -> x ∉ marked (sprout_nullifiers tx') (sapling_nullifiers tx') t) ->
  unrevealed (next_level l txid tx h) tx'.
Proof.
  intros Hu Hd t x Ht Hx; unfold next_level; cbn; destruct (decide _) as [Hi |]; [now apply (Hd t x Ht) in Hi |].
  destruct (IsMint tx); [now apply Hu | rewrite spend_level_spent; now apply Hu].
Qed.

(** ** The simulation *)

Section Simulation.
Context {Tree : Type} `{AnchorTrees Tree, NoteTrees Tree, HashFunctions, ChainParams, MoneyLimit, SpendParams,
  InterestChain, SubsidyParams, BlockEnv} `{!MoneyLimitOk _} (icok : InterestChainOk _).
Abbreviation cache := (CCoinsViewCache Tree).
Abbreviation view := (view Tree).
Abbreviation top := (cache * view)%type.
Abbreviation vtop v := (VCache v.1 v.2).
Abbreviation hashed_tx := (uint256 * CTransaction)%type.

(** Changing coins only reads the view below. *)
Lemma modify_with_base {E R} (c c' : cache) (b b' : view) txid (f : CCoins -> res E (R * CCoins)) r :
  modify_with c b txid f = Ok (r, (c', b')) -> reads b b'.
Proof.
  unfold modify_with, ModifyCoins; destruct (hasModifier c); cbn [negb assert_ mbind res_bind]; [discriminate |].
  assert (R0 : reads b (GetCoins b txid).2) by apply GetCoins_reads.
  destruct (cacheCoins c !! txid); [| destruct (GetCoins b txid) as [[] b1]]; cbn [snd mbind res_bind] in *; case_match; try discriminate;
    match goal with |- context [f ?x] => destruct (f x) as [[] | |] end; cbn [mbind res_bind]; try discriminate;
    match goal with |- context [modifier_end ?x ?y ?z] => destruct (modifier_end (E := E) x y z) end; cbn [mbind res_bind]; try discriminate; intros [= _ _ <-]; auto; reflexivity.
Qed.

Lemma modify_base {E} (c c' : cache) (b b' : view) txid f : modify (E := E) c b txid f = Ok (c', b') -> reads b b'.
Proof.
  rewrite modify_as_with; destruct (modify_with c b txid _) as [[r [c1 b1]] | |] eqn:Em; cbn; try discriminate; intros [= -> ->]; exact (modify_with_base _ _ _ _ _ _ _ Em).
Qed.

Lemma spend_inputs_base {E} ps : forall (v v' : top) u, spend_inputs (E := E) v ps = Ok (u, v') -> reads v.2 v'.2.
Proof.
  induction ps as [| [x n] ps IH]; intros v v' u; cbn [spend_inputs]; [now intros [= _ <-] |].
  destruct (modify_with v.1 v.2 x (spend_coin n)) as [[r [c1 b1]] | |] eqn:Em; cbn [mbind res_bind fst snd]; try discriminate; apply modify_with_base in Em.
  destruct (spend_inputs (c1, b1) ps) as [[us v2] | |] eqn:Es; cbn [mbind res_bind]; try discriminate; intros [= _ <-]; etransitivity; [exact Em | exact (IH _ _ _ Es)].
Qed.

Lemma UpdateCoins_base {E} (v v' : top) txid tx h u : IsCoinImport tx = false -> UpdateCoins (E := E) v txid tx h = Ok (u, v') -> reads v.2 v'.2.
Proof.
  intros Hi; unfold UpdateCoins; rewrite Hi.
  destruct (if negb (IsMint tx) then spend_inputs v (CoinsView.prevouts tx) else Ok ([], v)) as [[us [c1 b1]] | |] eqn:Es; cbn [mbind res_bind]; try discriminate.
  assert (R1 : reads v.2 b1) by (destruct (negb (IsMint tx)); [exact (spend_inputs_base _ _ _ _ Es) | injection Es as _ ->; reflexivity]).
  destruct (modify _ b1 txid _) as [[c2 b2] | |] eqn:Em; cbn [mbind res_bind]; try discriminate; intros [= _ <-]; etransitivity; [exact R1 | exact (modify_base _ _ _ _ _ _ Em)].
Qed.

(** The pool could be mined on the coins [l] of the view [v], at height [h]: no
    transaction creates coins or is one of the coins; the inputs are outputs of the
    pool or coins, and pay for the outputs; nullifiers and proofs are new, anchors
    known; and no transaction spends what depends on it. *)
Record pool_ready (v : view) (l : level) (h : Z) (m : CTxMemPool) : Prop := {
  pr_mint : forall t, has m t -> IsMint t.2 = false;
  pr_new : forall t, has m t -> lv_coins l t.1 = None;
  pr_inputs : forall t, has m t -> spendable (pool_coin l m) h t.2;
  pr_nullifiers : forall t, has m t -> unrevealed l t.2;
  pr_proofs : forall t, has m t -> unproved v t.2;
  pr_anchors : forall t, has m t -> anchored v t.2;
  pr_order : exists rank : uint256 -> nat, forall t o, has m t -> spends t.2 o -> present m (op_hash o) -> (rank (op_hash o) < rank t.1)%nat;
}.

Section Pool.
Context (m : CTxMemPool) (Hok : pool_ok m) (v0 : view) (l : level) (s : list level) (h : Z) (Hh : 0 <= h < 2 ^ 31) (Hready : pool_ready v0 l h m).

Lemma pool_import t : has m t -> IsCoinImport t.2 = false.
Proof. intros Ht; pose proof (pr_mint _ _ _ _ Hready t Ht) as Hm; now apply orb_false_iff in Hm. Qed.

Lemma pool_coinbase t : has m t -> IsCoinBase t.2 = false.
Proof. intros Ht; pose proof (pr_mint _ _ _ _ Hready t Ht) as Hm; now apply orb_false_iff in Hm. Qed.

Lemma pool_spends t o : has m t -> o ∈ MempoolSpec.prevouts t.2 -> spends t.2 o.
Proof. intros Ht Ho; split; [now apply pool_import | exact Ho]. Qed.

Lemma pool_indices t : has m t -> Forall (fun o => 0 <= op_n o) (MempoolSpec.prevouts t.2).
Proof. intros Ht; destruct (pr_inputs _ _ _ _ Hready t Ht) as [Hin _ _ _ _]; eapply Forall_impl; [| exact Hin]; cbn; intros o (Hn & _); exact Hn. Qed.

Lemma pool_source t o : has m t -> o ∈ MempoolSpec.prevouts t.2 -> is_Some (pool_coin l m o).
Proof.
  intros Ht Ho; destruct (pr_inputs _ _ _ _ Hready t Ht) as [Hin _ _ _ _].
  destruct (proj1 (list_relations.list.Forall_forall _ _) Hin o Ho) as (_ & out & cb & -> & _); eauto.
Qed.

Lemma pool_distinct t : has m t -> base.NoDup (MempoolSpec.prevouts t.2).
Proof.
  intros Ht; pose proof (pool_import t Ht) as Hi; destruct Ht as (p & e & Hp & <-); apply NoDup_alt; intros i j o Hj Hk.
  unfold MempoolSpec.prevouts in *; apply list_lookup_fmap_Some in Hj as (x & -> & Hx), Hk as (y & Ey & Hy).
  assert (E1 : mapNextTx m !! prevout x = Some (mkInPoint p (Z.of_nat i))) by (apply (po_next _ Hok); exists e, x, i; auto).
  assert (E2 : mapNextTx m !! prevout x = Some (mkInPoint p (Z.of_nat j))) by (apply (po_next _ Hok); exists e, y, j; auto).
  rewrite E1 in E2; injection E2 as E2; lia.
Qed.

Definition nullifier_mark (t : ShieldedType) (x : uint256) : mark := match t with SPROUT => SproutNullifier x | _ => SaplingNullifier x end.

Lemma marked_marks tx t x : nf_type t -> x ∈ marked (sprout_nullifiers tx) (sapling_nullifiers tx) t ->
  nullifier_mark t x ∈ marks tx.
Proof.
  unfold marks; intros [-> | ->] Hx; cbn [marked] in Hx; rewrite !elem_of_app; [left; now apply list_elem_of_fmap_2 |]; right; left.
  unfold sapling_nullifiers in Hx; apply list_elem_of_fmap in Hx as (d & -> & Hd); apply list_elem_of_join; eexists; split; [| apply list_elem_of_fmap_2, Hd]; now left.
Qed.

(** The simulated transactions, and the level they lead to. *)
Record sim_level (done : list hashed_tx) (lv : level) : Prop := {
  sm_wf : level_wf lv;
  sm_new : forall t, has m t -> t ∉ done -> lv_coins lv t.1 = None;
  sm_nullifiers : forall t, has m t -> t ∉ done -> unrevealed lv t.2;
  sm_coins : forall t o x, has m t -> t ∉ done -> o ∈ MempoolSpec.prevouts t.2 -> pool_coin l m o = Some x ->
    (present m (op_hash o) -> exists r, r ∈ done /\ r.1 = op_hash o) -> coin_of lv o = Some x;
}.

(** Every parent of the transaction in the pool is done. *)
Definition ready (done : list hashed_tx) (t : hashed_tx) : Prop :=
  forall o, o ∈ MempoolSpec.prevouts t.2 -> present m (op_hash o) -> exists r, r ∈ done /\ r.1 = op_hash o.

Lemma sim_spendable done lv t : sim_level done lv -> has m t -> t ∉ done -> ready done t -> spendable (coin_of lv) h t.2.
Proof.
  intros Sm Ht Hd Hr; eapply spendable_agree; [| exact (pr_inputs _ _ _ _ Hready t Ht)]; intros o Ho.
  destruct (pool_source t o Ht Ho) as [x Hx]; rewrite Hx; exact (sm_coins _ _ Sm t o x Ht Hd Ho Hx (Hr o Ho)).
Qed.

Lemma sim_tx_ok done lv t : sim_level done lv -> has m t -> t ∉ done -> ready done t -> tx_ok lv t.1 t.2.
Proof.
  intros Sm Ht Hd Hr; pose proof (sim_spendable done lv t Sm Ht Hd Hr) as [Hin _ Ho _ _]; split.
  - now apply pool_import.
  - exact (sm_new _ _ Sm t Ht Hd).
  - exact Ho.
  - intros _; rewrite prevouts_pairs; apply NoDup_fmap_2; [intros [] [] [= -> ->]; reflexivity | now apply pool_distinct].
  - intros _; rewrite prevouts_pairs; apply Forall_fmap; eapply Forall_impl; [| exact Hin]; cbn; intros o (Hn & out & cb & Es & _).
    destruct (coin_of_Some lv o out cb Hn Es) as (_ & _ & _ & _ & _ & Hav); exact Hav.
  - exact (sm_nullifiers _ _ Sm t Ht Hd).
Qed.

Lemma sim_next done lv t : sim_level done lv -> has m t -> t ∉ done -> ready done t -> level_wf (next_level lv t.1 t.2 1000000) ->
  sim_level (done ++ [t]) (next_level lv t.1 t.2 1000000).
Proof.
  intros Sm Ht Hd Hr Hw; assert (Hsplit : forall t', t' ∉ (done ++ [t]) -> (t' ∉ done) /\ t' <> t).
  { intros t' Hn; rewrite elem_of_app, list_elem_of_singleton in Hn; tauto. }
  split; [exact Hw | | |].
  - intros t' Ht' [Hn Hne]%Hsplit; apply next_level_new; [intros E; apply Hne; now apply (has_unique m) | exact (sm_new _ _ Sm t' Ht' Hn)].
  - intros t' Ht' [Hn Hne]%Hsplit; apply next_level_unrevealed; [exact (sm_nullifiers _ _ Sm t' Ht' Hn) |]; intros ty x Hty Hx Hx'.
    apply Hne; apply (marks_once m t' t (nullifier_mark ty x)); auto; now apply marked_marks.
  - intros t' o x Ht' [Hn Hne]%Hsplit Ho Hx Hp; destruct (decide (op_hash o = t.1)) as [Eh | Eh].
    + destruct Ht as (p & e & Hpe & Et); unfold pool_coin in Hx; rewrite (proj2 (find_entry_some m (op_hash o) p e Hok)) in Hx by (split; [exact Hpe | now rewrite Et]).
      rewrite Et in Hx; destruct (tx_vout t.2 !! Z.to_nat (op_n o)) as [out |] eqn:Eo; [| discriminate].
      destruct (txout_IsNull out || IsUnspendable (scriptPubKey out)) eqn:En; [discriminate |]; injection Hx as <-; apply orb_false_iff in En as [En Eu].
      destruct o as [oh on]; cbn in Eh, Eo |- *; subst oh; rewrite (next_level_own lv t.1 t.2 1000000 on out Eo En Eu), (pool_coinbase t) by (exists p, e; auto); reflexivity.
    + apply next_level_other; auto; [intros _ | exact (proj1 (list_relations.list.Forall_forall _ _) (pool_indices t' Ht') o Ho) | |].
      * rewrite prevouts_pairs; apply Forall_fmap; exact (pool_indices t Ht).
      * rewrite prevouts_pairs; intros (o' & E' & Ho')%list_elem_of_fmap; apply Hne.
        assert (o = o') as <- by (destruct o, o'; unfold pair_of in E'; cbn in E'; congruence).
        apply (spends_once m t' t o Hok); auto; now apply pool_spends.
      * apply (sm_coins _ _ Sm t'); auto; intros Hpr; destruct (Hp Hpr) as (r & Hr' & E'); rewrite elem_of_app, list_elem_of_singleton in Hr'.
        destruct Hr' as [Hr' | ->]; [eauto | congruence].
Qed.
(** The views during the simulation. *)
Record sim (done : list hashed_tx) (lv : level) (v : top) : Prop := {
  si_good : good (vtop v) (lv :: l :: s);
  si_level : sim_level done lv;
  si_base : reads v0 v.2;
  si_anchor : forall t rt, anchor_at (vtop v) t rt = anchor_at v0 t rt;
}.

(** Reading through the simulated view, and through the view below. *)
Lemma sim_read done lv v v' : sim done lv v -> reads (vtop v) v' -> vtop (as_top v' v) = v' /\ sim done lv (as_top v' v).
Proof.
  intros [G L B A] R; destruct v' as [d | c b]; [destruct R as [_ []] |]; split; [reflexivity |]; cbn [as_top]; split; [exact (rd_good _ _ R _ G) | exact L | | ].
  - etransitivity; [exact B | apply R].
  - intros t rt; cbn [fst snd]; now rewrite (rd_anchor _ _ R), A.
Qed.

Lemma sim_below done lv v b : sim done lv v -> reads v.2 b -> sim done lv (v.1, b).
Proof.
  intros Si R; destruct (sim_read done lv v (VCache v.1 b) Si (reads_swap v.1 v.2 b R)) as [_ S']; exact S'.
Qed.

Lemma simulate_ok done lv v t : sim done lv v -> has m t -> t ∉ done -> ready done t ->
  exists v', simulate v h t = Ok v' /\ sim (done ++ [t]) (next_level lv t.1 t.2 1000000) v'.
Proof.
  intros Si Ht Hd Hr; pose proof (si_level _ _ _ Si) as Sm; unfold simulate; rewrite (pool_coinbase t Ht).
  destruct (CheckTxInputs_pass icok (vtop v) lv (l :: s) t.2 h (si_good _ _ _ Si) (sm_wf _ _ Sm) (pr_mint _ _ _ _ Hready t Ht) Hh
    (sim_spendable done lv t Sm Ht Hd Hr) (sm_nullifiers _ _ Sm t Ht Hd) (anchored_reads v0 (vtop v) t.2 (si_anchor _ _ _ Si) (pr_anchors _ _ _ _ Hready t Ht)))
    as (fee & v1 & -> & R1); cbn [mbind res_bind assert_].
  destruct (sim_read done lv v v1 Si R1) as [_ S1]; set (v2 := as_top v1 v) in *; clearbody v2.
  destruct (UpdateCoins_ok (E := unit) v2 lv (l :: s) t.1 t.2 1000000 (si_good _ _ _ S1) (sm_wf _ _ Sm) (sim_tx_ok done lv t Sm Ht Hd Hr) ltac:(lia))
    as (u & v3 & E3 & (_ & _ & F3) & G3 & W3 & _).
  rewrite E3; cbn [mbind res_bind]; exists v3; split; [reflexivity |]; pose proof (UpdateCoins_base v2 v3 t.1 t.2 1000000 u (pool_import t Ht) E3) as R3.
  split; [exact G3 | now apply sim_next | etransitivity; [exact (si_base _ _ _ S1) | exact R3] |].
  intros ty rt; rewrite <- (si_anchor _ _ _ S1 ty rt), !anchor_cache, F3, (rd_anchor _ _ R3); reflexivity.
Qed.

(** ** The queue of the transactions that depend on others *)

Lemma have_ready done lv v t : sim done lv v -> has m t -> t ∉ done ->
  exists b v', HaveInputs (vtop v) t.2 = (b, v') /\ sim done lv (as_top v' v) /\ (ready done t -> b = true) /\
    ((exists o, o ∈ MempoolSpec.prevouts t.2 /\ present m (op_hash o) /\ forall r, r ∈ done -> r.1 <> op_hash o) -> b = false).
Proof.
  intros Si Ht Hd; pose proof (si_level _ _ _ Si) as Sm.
  destruct (HaveInputs_iff (vtop v) lv (l :: s) t.2 (si_good _ _ _ Si) (pr_mint _ _ _ _ Hready t Ht) (pool_indices t Ht)) as (b & v' & E & R & Hb).
  exists b, v'; split; [exact E |]; split; [now apply (sim_read done lv v v') |]; split.
  - intros Hr; apply Hb; pose proof (sim_spendable done lv t Sm Ht Hd Hr) as [Hin _ _ _ _]; eapply Forall_impl; [| exact Hin]; cbn; intros o (Hn & out & cb & Es & _).
    destruct (coin_of_Some lv o out cb Hn Es) as (_ & _ & _ & _ & _ & Hav); exact Hav.
  - intros (o & Ho & Hp & Hn); destruct b; [| reflexivity]; exfalso; pose proof (proj1 Hb eq_refl) as Hall; rewrite list_relations.list.Forall_forall in Hall.
    destruct (Hall o Ho) as (_ & c & Ec & _); cbn in Ec; apply (present_has m _ Hok) in Hp as (r & Hr & Er); rewrite <- Er in *.
    rewrite (sm_new _ _ Sm r Hr) in Ec; [discriminate |]; intros Hin; exact (Hn r Hin eq_refl).
Qed.

(** What is missing has a parent that is not done yet. *)
Lemma ready_dec done t : ready done t \/ exists o, o ∈ MempoolSpec.prevouts t.2 /\ present m (op_hash o) /\ forall r, r ∈ done -> r.1 <> op_hash o.
Proof.
  unfold ready; induction (MempoolSpec.prevouts t.2) as [| o os IH]; [left; intros o Ho; now apply not_elem_of_nil in Ho |].
  destruct IH as [IH | (o' & Ho' & Hr)]; [| right; exists o'; split; [now right | exact Hr]].
  destruct (decide (is_Some (mapTx m !! op_hash o))) as [Hp | Hp].
  2: { left; intros o' [-> | Ho']%elem_of_cons; [now intros Hp' | now apply IH]. }
  destruct (decide (op_hash o ∈ map fst done)) as [Hi | Hi].
  - left; intros o' [-> | Ho']%elem_of_cons; [| now apply IH]; intros _; apply list_elem_of_fmap in Hi as (r & -> & Hr); eauto.
  - right; exists o; split; [now left |]; split; [exact Hp |]; intros r Hr E; apply Hi; rewrite <- E; now apply list_elem_of_fmap_2.
Qed.

Definition blocked (done : list hashed_tx) (t : hashed_tx) : Prop :=
  exists o, o ∈ MempoolSpec.prevouts t.2 /\ present m (op_hash o) /\ forall r, r ∈ done -> r.1 <> op_hash o.

(** As nothing depends on itself, some transaction of the queue is ready. *)
Lemma some_ready done (W : list hashed_tx) t : (forall r, has m r -> r ∈ done \/ r ∈ W) -> (forall r, r ∈ W -> has m r) -> t ∈ W -> exists r, r ∈ W /\ ready done r.
Proof.
  intros Hall HW; destruct (pr_order _ _ _ _ Hready) as [rank Hrank]; remember (rank t.1) as n eqn:En; revert t En.
  induction (lt_wf n) as [n _ IH]; intros t -> Ht; destruct (ready_dec done t) as [Hr | (o & Ho & Hp & Hn)]; [eauto |].
  pose proof Hp as Hp'; apply (present_has m _ Hok) in Hp' as (r & Hr & Er); destruct (Hall r Hr) as [Hd | Hw]; [now destruct (Hn r Hd) |].
  apply (IH (rank r.1)) with (t := r); auto; rewrite Er; apply (Hrank t o); auto; apply pool_spends; auto.
Qed.

Lemma first_ready done (W : list CTxMemPoolEntry) : (exists r, r ∈ map GetTx W /\ ready done r) ->
  exists A e B, W = A ++ e :: B /\ ready done (GetTx e) /\ Forall (fun e => blocked done (GetTx e)) A.
Proof.
  induction W as [| e W IH]; intros (r & Hr & Hd); [now apply not_elem_of_nil in Hr |]; destruct (ready_dec done (GetTx e)) as [He | He]; [exists [], e, W; auto |].
  cbn [map] in Hr; apply elem_of_cons in Hr as [-> | Hr].
  - exfalso; destruct He as (o & Ho & Hp & Hn); destruct (Hd o Ho Hp) as (q & Hq & Eq); exact (Hn q Hq Eq).
  - destruct IH as (A & e' & B & -> & Hre & HA); [eauto |]; exists (e :: A), e', B; split; [reflexivity |]; split; [exact Hre |]; now apply Forall_cons_2.
Qed.

Lemma u32_step k : u32 (u32 (Z.of_nat k) + 1) = u32 (Z.of_nat (S k)).
Proof. unfold uwrap; rewrite Zplus_mod_idemp_l; f_equal; lia. Qed.

(** What is blocked goes to the end of the queue. *)
Lemma rotate done lv e A : forall B v k fuel, sim done lv v -> Forall (fun e => blocked done (GetTx e)) A ->
  (forall e', e' ∈ A -> has m (GetTx e') /\ GetTx e' ∉ done) -> (k + length A < length (A ++ e :: B))%nat ->
  exists v', check_waiting (length A + fuel) v h (A ++ e :: B) (u32 (Z.of_nat k)) = check_waiting fuel v' h (e :: B ++ A) (u32 (Z.of_nat (k + length A))) /\ sim done lv v'.
Proof.
  induction A as [| a A IH]; intros B v k fuel Si HA Hin Hk; cbn [length app Nat.add] in *.
  { exists v; rewrite app_nil_r, Nat.add_0_r; auto. }
  apply Forall_cons_1 in HA as [Ha HA]; destruct (Hin a ltac:(now left)) as [Hh1 Hd1]; destruct (have_ready done lv v (GetTx a) Si Hh1 Hd1) as (b & v1 & E1 & S1 & _ & Hb).
  cbn [check_waiting]; rewrite E1, (Hb Ha); cbn [negb]; rewrite u32_step, <- app_assoc; cbn [app].
  rewrite length_app in Hk; cbn [length] in Hk; rewrite (proj2 (Z.ltb_lt _ _)).
  2: { pose proof (Z.mod_le (Z.of_nat (S k)) (2 ^ 32) ltac:(lia) ltac:(lia)); unfold uwrap, zlen; rewrite !length_app; cbn [length]; rewrite length_app; cbn [length]; lia. }
  cbn [assert_ mbind res_bind]; destruct (IH (B ++ [a]) (as_top v1 v) (S k) fuel S1 HA) as (v2 & E2 & S2).
  - intros e' He'; apply Hin; now right.
  - rewrite length_app; cbn [length]; rewrite length_app; cbn [length]; lia.
  - exists v2; rewrite E2, <- app_assoc; cbn [app]; split; [do 2 f_equal; lia | exact S2].
Qed.

Lemma check_waiting_ok n : forall waiting done lv v fuel, length waiting = n -> sim done lv v -> base.NoDup (map GetTx waiting) ->
  (forall t, t ∈ map GetTx waiting -> has m t /\ t ∉ done) -> (forall t, has m t -> t ∈ done \/ t ∈ map GetTx waiting) -> (n * S n <= fuel)%nat ->
  exists done' lv' v', check_waiting fuel v h waiting 0 = Ok v' /\ sim done' lv' v'.
Proof.
  induction n as [| n IH]; intros waiting done lv v fuel Hlen Si Hnd Hin Hall Hf.
  { destruct waiting; [| discriminate]; exists done, lv, v; split; [now destruct fuel | exact Si]. }
  destruct (first_ready done waiting) as (A & e & B & -> & He & HA).
  { destruct waiting as [| e0 W]; [discriminate |]; apply (some_ready done _ (GetTx e0) Hall); [intros r Hr; now apply Hin | now left]. }
  rewrite length_app in Hlen; cbn [length] in Hlen; replace fuel with (length A + S (fuel - length A - 1))%nat by nia.
  destruct (rotate done lv e A B v 0 (S (fuel - length A - 1)) Si HA) as (v1 & E1 & S1).
  { intros e' He'; apply Hin; rewrite map_app; apply elem_of_app; left; now apply list_elem_of_fmap_2. }
  { rewrite length_app; cbn [length]; lia. }
  change (u32 (Z.of_nat 0)) with 0 in E1; rewrite E1; clear E1.
  destruct (Hin (GetTx e)) as [Hhe Hde]; [rewrite map_app; apply elem_of_app; right; now left |].
  destruct (have_ready done lv v1 (GetTx e) S1 Hhe Hde) as (b & v2 & E2 & S2 & Hb & _); cbn [check_waiting]; rewrite E2, (Hb He); cbn [negb].
  destruct (simulate_ok done lv (as_top v2 v1) (GetTx e) S2 Hhe Hde He) as (v3 & -> & S3); cbn [mbind res_bind].
  assert (Hperm : map GetTx (A ++ e :: B) ≡ₚ GetTx e :: map GetTx (B ++ A)) by (rewrite !map_app; cbn [map]; rewrite <- Permutation_middle, (Permutation_app_comm (map GetTx A)); reflexivity).
  assert (Hnd' : base.NoDup (GetTx e :: map GetTx (B ++ A))) by (now rewrite <- Hperm); apply list_relations.list.NoDup_cons in Hnd' as [Hne Hnd'].
  eapply (IH (B ++ A) (done ++ [GetTx e])); [rewrite length_app; lia | exact S3 | exact Hnd' | | | nia].
  - intros t Ht; assert (Ht' : t ∈ map GetTx (A ++ e :: B)) by (rewrite Hperm; now right); destruct (Hin t Ht') as [H1' H2']; split; [exact H1' |].
    rewrite elem_of_app, list_elem_of_singleton; intros [Hd | ->]; contradiction.
  - intros t Ht; destruct (Hall t Ht) as [Hd | Hw]; [left; apply elem_of_app; now left |]; rewrite Hperm in Hw; apply elem_of_cons in Hw as [-> | Hw]; [left; apply elem_of_app; right; now left | now right].
Qed.

(** ** The loop over the pool *)

Context (Hgood : good v0 (l :: s)).

Definition depends_wait (vin : list CTxIn) : bool := existsb (fun x => pool_exists m (op_hash (prevout x))) vin.

Lemma check_vin_ok p e : nodes m !! p = Some e -> forall vin k dep b, drop k (tx_vin (GetTx e).2) = vin -> reads v0 b ->
  exists b', check_vin b m p (Z.of_nat k) vin dep = Ok (dep || depends_wait vin, b') /\ reads b b'.
Proof.
  intros Hp; assert (Ht : has m (GetTx e)) by (exists p, e; auto); induction vin as [| x vin IH]; intros k dep b Hd R; cbn [check_vin depends_wait existsb].
  { exists b; rewrite orb_false_r; split; reflexivity. }
  assert (Hk : tx_vin (GetTx e).2 !! k = Some x) by (rewrite <- (Nat.add_0_r k), <- lookup_drop, Hd; reflexivity).
  assert (Ho : prevout x ∈ MempoolSpec.prevouts (GetTx e).2) by (apply list_elem_of_fmap_2; eapply list_elem_of_lookup_2, Hk).
  assert (En : mapNextTx m !! prevout x = Some (mkInPoint p (Z.of_nat k))) by (apply (po_next _ Hok); exists e, x, k; auto using pool_import).
  pose proof (proj1 (list_relations.list.Forall_forall _ _) (pool_indices _ Ht) _ Ho) as Hn; cbn in Hn.
  assert (Hnext : forall b1, reads v0 b1 -> exists b', check_vin b1 m p (Z.of_nat k + 1) vin (dep || pool_exists m (op_hash (prevout x))) =
    Ok ((dep || pool_exists m (op_hash (prevout x))) || depends_wait vin, b') /\ reads b1 b').
  { intros b1 R1; replace (Z.of_nat k + 1) with (Z.of_nat (S k)) by lia; apply IH; [| exact R1]; replace (S k) with (k + 1)%nat by lia; rewrite <- drop_drop, Hd; reflexivity. }
  rewrite orb_assoc; destruct (pool_source _ _ Ht Ho) as [[out cb] Hc]; unfold pool_coin in Hc; destruct (find_entry m (op_hash (prevout x))) as [[q e2] |] eqn:Ef.
  - assert (Hx : pool_exists m (op_hash (prevout x)) = true).
    { apply bool_decide_eq_true_2, (present_has m _ Hok); apply (find_entry_some m _ q e2 Hok) in Ef as [Hq Eq]; exists (GetTx e2); split; [exists q, e2; auto | exact Eq]. }
    rewrite Hx, orb_true_r in Hnext |- *; destruct (tx_vout (GetTx e2).2 !! Z.to_nat (op_n (prevout x))) as [y |] eqn:Ey; [| discriminate].
    destruct (txout_IsNull y); [discriminate |]; rewrite (proj2 (Z.ltb_lt _ _)) by (apply lookup_lt_Some in Ey; unfold zlen; lia); cbn [andb negb assert_ mbind res_bind].
    rewrite En; cbn [ip_ptx ip_n]; rewrite Nat.eqb_refl, Z.eqb_refl; cbn [andb assert_ mbind res_bind]; exact (Hnext b R).
  - assert (Hx : pool_exists m (op_hash (prevout x)) = false) by (apply bool_decide_eq_false_2; now apply (find_entry_none m _ Hok)).
    rewrite Hx, orb_false_r in Hnext |- *; destruct (coin_of_Some l (prevout x) out cb Hn Hc) as (c & _ & _ & _ & _ & Hav).
    destruct (AccessCoins_ok b l s (pair_of (prevout x)) (rd_good _ _ R _ Hgood) Hav) as (c' & y & b1 & Ea & _ & _ & _ & Hava); cbn [pair_of fst snd] in *; rewrite Ea, Hava.
    apply AccessCoins_reads in Ea; cbn [assert_ mbind res_bind]; rewrite En; cbn [ip_ptx ip_n]; rewrite Nat.eqb_refl, Z.eqb_refl; cbn [andb assert_ mbind res_bind].
    destruct (Hnext b1 ltac:(now transitivity b)) as (b2 & E2 & R2); exists b2; split; [exact E2 | now transitivity b1].
Qed.

Lemma no_wait_ready done t : depends_wait (tx_vin t.2) = false -> ready done t.
Proof.
  intros Hd o Ho Hp; exfalso; unfold MempoolSpec.prevouts in Ho; apply list_elem_of_fmap in Ho as (x & -> & Hx).
  pose proof (existsb_none _ _ x Hd Hx) as E; apply bool_decide_eq_false in E; contradiction.
Qed.

(** The assertions on one entry leave the views alone. *)
Lemma check_shielded_ok t b : has m t -> reads v0 b ->
  exists b', (pcoins ← check_joinsplit_trees b ∅ (vjoinsplit t.2); pcoins ← check_spends pcoins (vShieldedSpend t.2); check_output_proofs pcoins (vShieldedOutput t.2)) = Ok b' /\ reads b b'.
Proof.
  intros Ht R; destruct (pr_anchors _ _ _ _ Hready t Ht) as [Hj Ha]; destruct (pr_proofs _ _ _ _ Hready t Ht) as [Hp1 Hp2]; pose proof (pr_nullifiers _ _ _ _ Hready t Ht) as Hn.
  destruct (joinsplits_ok (vjoinsplit t.2) b ∅ l s (rd_good _ _ R _ Hgood) (fun x => Hn SPROUT x ltac:(now left))) as [(b1 & -> & R1) _].
  { rewrite (joinsplit_trees_ext _ (anchor_at v0 SPROUT)); [exact Hj | intros x; apply (rd_anchor _ _ R)]. }
  cbn [mbind res_bind]; assert (R1' : reads v0 b1) by (now transitivity b).
  destruct (check_spends_ok (vShieldedSpend t.2) b1 l s (rd_good _ _ R1' _ Hgood) (fun x => Hn SAPLING x ltac:(now right))) as (b2 & -> & R2).
  { eapply Forall_impl; [| exact Ha]; cbn; intros d; now rewrite !(rd_anchor _ _ R1'). }
  { eapply Forall_impl; [| exact Hp1]; cbn; intros d; now rewrite (rd_proof _ _ R1'). }
  cbn [mbind res_bind]; assert (R2' : reads v0 b2) by (now transitivity b1); destruct (check_output_proofs_ok (vShieldedOutput t.2) b2) as (b3 & -> & R3).
  { eapply Forall_impl; [| exact Hp2]; cbn; intros d; now rewrite (rd_proof _ _ R2'). }
  exists b3; split; [reflexivity |]; transitivity b1; [exact R1 | now transitivity b2].
Qed.

(** Every transaction of the pool is done or still to be done. *)
Record pending (done : list hashed_tx) (todo : list CTxMemPoolEntry) : Prop := {
  pe_distinct : base.NoDup (map GetTx todo);
  pe_todo : forall t, t ∈ map GetTx todo -> has m t /\ t ∉ done;
  pe_all : forall t, has m t -> t ∈ done \/ t ∈ map GetTx todo;
}.

Lemma pending_perm done todo todo' : todo ≡ₚ todo' -> pending done todo -> pending done todo'.
Proof.
  intros P [A B C]; assert (P' : map GetTx todo ≡ₚ map GetTx todo') by (now apply Permutation_map); split; [now rewrite <- P' | intros t; rewrite <- P'; apply B | intros t; rewrite <- P'; apply C].
Qed.

Lemma pending_done done e todo : pending done (e :: todo) -> pending (done ++ [GetTx e]) todo.
Proof.
  intros [A B C]; cbn [map] in *; apply list_relations.list.NoDup_cons in A as [A1 A2]; split; [exact A2 | |].
  - intros t Ht; destruct (B t ltac:(now right)) as [Hh1 Hd]; split; [exact Hh1 |]; rewrite elem_of_app, list_elem_of_singleton; intros [? | ->]; contradiction.
  - intros t Ht; destruct (C t Ht) as [Hd | [-> | Hw]%elem_of_cons]; rewrite elem_of_app, list_elem_of_singleton; tauto.
Qed.

Lemma u64_step a b c : u64 (u64 a + b) = u64 (a + b) /\ a + b + c = a + (b + c).
Proof. split; [unfold uwrap; now rewrite Zplus_mod_idemp_l | lia]. Qed.

Lemma check_entries_ok es : forall done lv v waiting a b, (forall e, e ∈ es -> exists p, nodes m !! p = Some e) -> sim done lv v -> pending done (waiting ++ es) ->
  exists done' lv' v' waiting', check_entries v m h es (u64 a) (u64 b) waiting = Ok (u64 (a + total GetTxSize es), u64 (b + total DynamicMemoryUsage es), waiting', v') /\
    sim done' lv' v' /\ pending done' waiting'.
Proof.
  induction es as [| e es IH]; intros done lv v waiting a b Hes Si Hpe; cbn [check_entries total foldr].
  { rewrite app_nil_r in Hpe; exists done, lv, v, waiting; rewrite !Z.add_0_r; auto. }
  destruct (Hes e ltac:(now left)) as (p & Hp); assert (Ht : has m (GetTx e)) by (exists p, e; auto); rewrite (node_hash m p e Hok Hp); cbn [default from_option id].
  destruct (check_vin_ok p e Hp (tx_vin (GetTx e).2) 0 false v.2 eq_refl (si_base _ _ _ Si)) as (b1 & E1 & R1); change (Z.of_nat 0) with 0 in E1; rewrite E1; cbn [mbind res_bind orb].
  destruct (check_shielded_ok (GetTx e) b1 Ht ltac:(transitivity v.2; [exact (si_base _ _ _ Si) | exact R1])) as (b2 & E2 & R2); cbn [mbind res_bind] in E2.
  destruct (check_joinsplit_trees b1 ∅ _) as [x1 | |]; cbn [mbind res_bind] in E2 |- *; try discriminate; destruct (check_spends x1 _) as [x2 | |]; cbn [mbind res_bind] in E2 |- *; try discriminate.
  rewrite E2; cbn [mbind res_bind]; clear x1 x2 E1 E2; pose proof (sim_below done lv v b2 Si ltac:(now transitivity b1)) as S2.
  assert (Hes' : forall e', e' ∈ es -> exists p, nodes m !! p = Some e') by (intros e' He'; apply Hes; now right).
  rewrite (proj1 (u64_step a (GetTxSize e) 0)), (proj1 (u64_step b (DynamicMemoryUsage e) 0)); unfold total; cbn [foldr]; fold (total GetTxSize es) (total DynamicMemoryUsage es); rewrite !Z.add_assoc.
  destruct (depends_wait (tx_vin (GetTx e).2)) eqn:Ed; [apply IH with (done := done) (lv := lv); auto; now rewrite <- app_assoc |].
  destruct (pe_todo _ _ Hpe (GetTx e)) as [_ Hd]; [apply list_elem_of_fmap_2, elem_of_app; right; now left |].
  destruct (simulate_ok done lv (v.1, b2) (GetTx e) S2 Ht Hd (no_wait_ready done _ Ed)) as (v3 & -> & S3); cbn [mbind res_bind].
  eapply IH; [exact Hes' | exact S3 |]; apply pending_done, (pending_perm done (waiting ++ e :: es)); [symmetry; apply Permutation_middle | exact Hpe].
Qed.

(** ** The maps *)

Lemma check_pointer_ok {E} p e : nodes m !! p = Some e -> check_pointer (E := E) m p = Ok e.
Proof.
  intros Hp; unfold check_pointer, deref; rewrite Hp; cbn [mbind res_bind]; rewrite (proj2 (find_entry_some m _ p e Hok) (conj Hp eq_refl)).
  now rewrite Nat.eqb_refl.
Qed.

Lemma check_links_ok {E} links : (forall o ip, (o, ip) ∈ links -> mapNextTx m !! o = Some ip) -> check_links (E := E) m links = Ok tt.
Proof.
  induction links as [| [o ip] links IH]; intros Hl; [reflexivity |]; cbn [check_links].
  pose proof (Hl o ip ltac:(now left)) as Hip; apply (po_next _ Hok) in Hip as (e & x & k & He & _ & Hk & Hn & Hx).
  rewrite (check_pointer_ok _ e He); cbn [mbind res_bind]; rewrite Hn, Nat2Z.id, Hk, (bool_decide_eq_true_2 (o = prevout x)) by auto.
  rewrite (proj2 (Z.ltb_lt _ _)) by (apply lookup_lt_Some in Hk; unfold zlen; lia); cbn [assert_ mbind res_bind].
  apply IH; intros o' ip' Hin; apply Hl; now right.
Qed.

Lemma check_marks_ok {E} marked : (forall k p, (k, p) ∈ marked -> mapShielded m !! k = Some p) -> check_marks (E := E) m marked = Ok tt.
Proof.
  induction marked as [| [k p] marked IH]; intros Hl; [reflexivity |]; cbn [check_marks].
  pose proof (Hl k p ltac:(now left)) as Hk; apply (po_marks _ Hok) in Hk as (e & He & _); rewrite (check_pointer_ok p e He); cbn [mbind res_bind].
  apply IH; intros k' p' Hin; apply Hl; now right.
Qed.

(** ** check *)

Lemma sim_start (v : top) : level_wf l -> reads (VCache new_cache v0) (vtop v) -> sim [] l v.
Proof.
  intros Hw R; split.
  - apply (rd_good _ _ R); destruct Hgood as (Hc & Hn & Hr); destruct (empty_cache_ok new_cache v0 eq_refl eq_refl eq_refl Hc Hn) as (C & N & U & S); split; [exact C |]; split; [exact N |].
    pose proof (good_level v0 l s Hgood) as [L1 L2]; split; [| exact Hr]; split; intros; rewrite ?U, ?S; auto.
  - split; [exact Hw | intros t Ht _; exact (pr_new _ _ _ _ Hready t Ht) | intros t Ht _; exact (pr_nullifiers _ _ _ _ Hready t Ht) |].
    intros t o x Ht _ Ho Hx Hp; unfold pool_coin in Hx; destruct (find_entry m (op_hash o)) as [[q e] |] eqn:Ef; [exfalso | exact Hx].
    apply (find_entry_some m _ q e Hok) in Ef as [Hq Eq]; destruct Hp as (r & Hr & _); [apply (present_has m _ Hok); exists (GetTx e); split; [exists q, e; auto | exact Eq] |].
    now apply not_elem_of_nil in Hr.
  - apply R.
  - intros t rt; rewrite (rd_anchor _ _ R), anchor_cache; cbn; now rewrite lookup_empty.
Qed.

Lemma pending_start : pending [] (entries m).
Proof.
  assert (P : map GetTx (entries m) ≡ₚ map (fun pe => GetTx pe.2) (map_to_list (nodes m))) by (rewrite (entries_elements m Hok); unfold elements; now rewrite map_map).
  split.
  - rewrite P; apply NoDup_fmap_2_strong; [| apply NoDup_map_to_list]; intros [p e] [q e'] Hp%elem_of_map_to_list Hq%elem_of_map_to_list E; cbn in E.
    destruct (node_unique m p q e e' Hok Hp Hq) as [-> ->]; [now rewrite E | reflexivity].
  - intros t Ht; split; [| apply not_elem_of_nil]; apply list_elem_of_fmap in Ht as (e & -> & He); now apply entries_has.
  - intros t (p & e & Hp & <-); right; rewrite P; apply list_elem_of_fmap; exists (p, e); split; [reflexivity | now apply elem_of_map_to_list].
Qed.

Lemma check_ok freq rand : level_wf l -> mapBlockIndex_nHeight (GetBestBlock v0).1 = Some (h - 1) ->
  exists v', check freq rand v0 m = Ok v' /\ reads v0 v'.
Proof.
  intros Hw; destruct (GetBestBlock v0) as [best v1] eqn:Hbest; cbn [fst]; intros Hheight; unfold check; destruct (_ || _); [exists v0; split; reflexivity |]; unfold GetSpendHeight.
  assert (Eb : GetBestBlock (VCache new_cache v0) = (best, VCache (set_block new_cache best) v1)) by (cbn [GetBestBlock]; rewrite Hbest; reflexivity).
  rewrite Eb, Hheight; cbn [mbind res_bind as_top]; apply GetBestBlock_reads in Eb; rewrite swrap_small by lia; replace (h - 1 + 1) with h by lia.
  destruct (check_entries_ok (entries m) [] l _ [] 0 0 (fun e => entries_node m e Hok) (sim_start (set_block new_cache best, v1) Hw Eb) pending_start) as (done & lv & v & waiting & E1 & S1 & P1).
  change (u64 0) with 0 in E1; rewrite E1; cbn [mbind res_bind].
  destruct (check_waiting_ok (length waiting) waiting done lv v (length waiting * S (length waiting)) eq_refl S1 (pe_distinct _ _ P1) (pe_todo _ _ P1) (pe_all _ _ P1) ltac:(lia)) as (done' & lv' & v' & -> & S2).
  cbn [mbind res_bind]; rewrite check_links_ok by (intros o ip; apply elem_of_map_to_list); cbn [mbind res_bind].
  rewrite check_marks_ok by (intros k p; apply elem_of_map_to_list); cbn [mbind res_bind].
  rewrite (total_perm GetTxSize _ _ (entries_elements m Hok)), (total_perm DynamicMemoryUsage _ _ (entries_elements m Hok)).
  rewrite (po_size _ Hok), (po_usage _ Hok), !Z.add_0_l, !Z.eqb_refl; cbn [assert_ mbind res_bind]; exists v'.2; split; [reflexivity | exact (si_base _ _ _ S2)].
Qed.
End Pool.
End Simulation.

(** ** The pool and a block *)

Section Block.
Context {Tree : Type} `{AnchorTrees Tree, NoteTrees Tree, HashFunctions, ChainParams, MoneyLimit, SpendParams,
  InterestChain, SubsidyParams, BlockEnv, PoolEnv} `{!MoneyLimitOk _} (icok : InterestChainOk _).
Abbreviation view := (view Tree).
Abbreviation hashed_tx := (uint256 * CTransaction)%type.

(** The part of [pool_ready] that does not depend on amounts and heights. *)
Record pool_backed (v : view) (l : level) (m : CTxMemPool) : Prop := {
  bk_inputs : forall t o, has m t -> spends t.2 o -> 0 <= op_n o /\ is_Some (pool_coin l m o);
  bk_new : forall t, has m t -> lv_coins l t.1 = None;
  bk_nullifiers : forall t, has m t -> unrevealed l t.2;
  bk_proofs : forall t, has m t -> unproved v t.2;
  bk_anchors : forall t, has m t -> anchored v t.2;
  bk_order : exists rank : uint256 -> nat, forall t o, has m t -> spends t.2 o -> present m (op_hash o) -> (rank (op_hash o) < rank t.1)%nat;
}.

Lemma backed_ready v l h m : pool_backed v l m -> (forall t, has m t -> IsMint t.2 = false /\ spendable (pool_coin l m) h t.2) -> pool_ready v l h m.
Proof. intros [] Hs; split; auto; intros t Ht; now apply Hs. Qed.

(** Every transaction of the block can be connected in its turn. *)
Fixpoint block_steps (l : level) (vtx : list hashed_tx) (h : Z) : Prop :=
  match vtx with [] => True | t :: vtx => tx_ok l t.1 t.2 /\ block_steps (next_level l t.1 t.2 h) vtx h end.

(** What the block does to the other records of the view: it adds its own proofs,
    and it removes no anchor. *)
Record shielded_after (v v' : view) (vtx : list hashed_tx) : Prop := {
  sa_spends : forall x, (proofs_of v' SPEND x).1 = true -> (proofs_of v SPEND x).1 = true \/ exists t, t ∈ vtx /\ ZkSpendProof x ∈ marks t.2;
  sa_outputs : forall x, (proofs_of v' OUTPUT x).1 = true -> (proofs_of v OUTPUT x).1 = true \/ exists t, t ∈ vtx /\ ZkOutputProof x ∈ marks t.2;
  sa_anchors : forall t rt tree, anchor_at v t rt = Some tree -> anchor_at v' t rt = Some tree;
}.

Definition avail (l : level) (o : COutPoint) : Prop := available l (pair_of o).

Lemma coin_avail l o : 0 <= op_n o -> is_Some (coin_of l o) -> avail l o.
Proof. intros Hn [[out cb] Hc]; destruct (coin_of_Some l o out cb Hn Hc) as (_ & _ & _ & _ & _ & Ha); exact Ha. Qed.

Lemma backed_supported l m : pool_ok m -> (forall t o, has m t -> spends t.2 o -> 0 <= op_n o /\ is_Some (pool_coin l m o)) <-> supported (avail l) m.
Proof.
  intros Hok; split; intros Hs t o Ht Ho; specialize (Hs t o Ht Ho); unfold pool_coin in *.
  - destruct Hs as [Hn Hc]; destruct (find_entry m (op_hash o)) as [[q e] |] eqn:Ef.
    + apply (find_entry_some m _ q e Hok) in Ef as [Hq Eq]; left; exists (GetTx e); split; [exists q, e; auto |]; split; [now symmetry |].
      destruct (tx_vout (GetTx e).2 !! Z.to_nat (op_n o)) as [out |] eqn:Eo; [| now destruct Hc]; destruct (txout_IsNull out || _) eqn:En; [now destruct Hc |]; apply orb_false_iff in En.
      split; [apply lookup_lt_Some in Eo; unfold zlen; lia | exists out; auto].
    + right; split; [now apply (find_entry_none m _ Hok) | now apply coin_avail].
  - destruct Hs as [(r & Hr & Eh & Hn & out & Eo & En & Eu) | [Hnp Ha]].
    + split; [lia |]; destruct Hr as (q & e & Hq & <-); rewrite (proj2 (find_entry_some m (op_hash o) q e Hok)) by auto; rewrite Eo, En, Eu; cbn; eauto.
    + split; [apply Ha |]; rewrite (proj2 (find_entry_none m _ Hok) Hnp); now apply available_coin.
Qed.

(** The coins after a transaction, and after the block. *)
Lemma step_avail l t h o : tx_ok l t.1 t.2 -> coins_step (avail l) t o -> avail (next_level l t.1 t.2 h) o.
Proof.
  intros [_ Hnew _ _ Hin _] [[Ha Hni] | [Eh [Hn (out & Eo & En & Eu)]]].
  - assert (Hn : 0 <= op_n o) by apply Ha; destruct (available_coin l o Ha) as [x Hx]; apply coin_avail; [exact Hn |]; exists x; apply next_level_other; auto.
    + intros Hm; eapply Forall_impl; [| exact (Hin Hm)]; cbn; intros p Hp; apply Hp.
    + rewrite prevouts_pairs; intros (o' & E' & Ho')%list_elem_of_fmap; assert (o = o') as <- by (destruct o, o'; unfold pair_of in E'; cbn in E'; congruence); contradiction.
    + intros E; destruct Ha as (_ & c & Ec & _); cbn in Ec; congruence.
  - apply coin_avail; [lia |]; destruct o as [oh on]; cbn in Eh, Hn, Eo; subst oh; rewrite (next_level_own l t.1 t.2 h on out Eo En Eu); eauto.
Qed.

Lemma coins_step_mono (P Q : COutPoint -> Prop) t o : (forall o, P o -> Q o) -> coins_step P t o -> coins_step Q t o.
Proof. intros Hpq [[Hp Hn] | Hc]; [left | right]; auto. Qed.

Lemma block_step_mono vtx : forall (P Q : COutPoint -> Prop), (forall o, P o -> Q o) -> forall o, fold_left coins_step vtx P o -> fold_left coins_step vtx Q o.
Proof. induction vtx as [| t vtx IH]; intros P Q Hpq o; cbn [fold_left]; [apply Hpq |]; apply IH; intros o'; now apply coins_step_mono. Qed.

Lemma block_avail vtx h : forall l o, block_steps l vtx h -> fold_left coins_step vtx (avail l) o -> avail (levels l vtx h) o.
Proof.
  induction vtx as [| t vtx IH]; intros l o Hb; cbn [fold_left]; [auto |]; destruct Hb as [Ht Hb]; intros Ho; apply (IH (next_level l t.1 t.2 h)); [exact Hb |].
  revert Ho; apply block_step_mono; intros o'; now apply step_avail.
Qed.

Lemma block_new vtx h txid : forall l, lv_coins l txid = None -> (forall t, t ∈ vtx -> t.1 <> txid) -> lv_coins (levels l vtx h) txid = None.
Proof.
  induction vtx as [| t vtx IH]; intros l Hl Hv; [exact Hl |]; apply (IH (next_level l t.1 t.2 h)); [| intros t' Ht'; apply Hv; now right].
  apply next_level_new; [intros E; apply (Hv t); [now left | now symmetry] | exact Hl].
Qed.

Lemma conflict_nullifiers tx tx' : ~ conflict tx' tx -> forall t x, nf_type t -> x ∈ marked (sprout_nullifiers tx) (sapling_nullifiers tx) t -> x ∉ marked (sprout_nullifiers tx') (sapling_nullifiers tx') t.
Proof. intros Hc t x Ht Hx Hx'; apply Hc; right; exists (nullifier_mark t x); split; now apply marked_marks. Qed.

Lemma block_unrevealed vtx h tx : forall l, unrevealed l tx -> (forall t, t ∈ vtx -> ~ conflict tx t.2) -> unrevealed (levels l vtx h) tx.
Proof.
  induction vtx as [| t vtx IH]; intros l Hl Hv; [exact Hl |]; apply (IH (next_level l t.1 t.2 h)); [| intros t' Ht'; apply Hv; now right].
  apply next_level_unrevealed; [exact Hl |]; apply conflict_nullifiers, Hv; now left.
Qed.

Lemma joinsplit_trees_mono (f g : uint256 -> option Tree) : (forall x tree, f x = Some tree -> g x = Some tree) -> forall l im, joinsplit_trees f im l = true -> joinsplit_trees g im l = true.
Proof.
  intros Hfg; induction l as [| js l IH]; intros im; cbn [joinsplit_trees]; [auto |]; destruct (im !! js_anchor js) as [tree |].
  - destruct (append_all tree (js_commitments js)); auto.
  - destruct (f (js_anchor js)) as [tree |] eqn:Ef; [| discriminate]; rewrite (Hfg _ _ Ef); destruct (append_all tree (js_commitments js)); auto.
Qed.

Lemma shielded_backed v v' vtx tx : shielded_after v v' vtx -> (forall t, t ∈ vtx -> ~ conflict tx t.2) -> unproved v tx -> anchored v tx -> unproved v' tx /\ anchored v' tx.
Proof.
  intros [S1 S2 S3] Hc [U1 U2] [A1 A2]; split; split.
  - apply list_relations.list.Forall_forall; intros d Hd; pose proof (proj1 (list_relations.list.Forall_forall _ _) U1 d Hd) as Hu; cbn in Hu.
    destruct (proofs_of v' SPEND (Hash (sp_zkproof d))).1 eqn:E; [| reflexivity]; exfalso; destruct (S1 _ E) as [E' | (t & Ht & Hm)]; [congruence |].
    apply (Hc t Ht); right; exists (ZkSpendProof (Hash (sp_zkproof d))); split; [| exact Hm]; unfold marks; rewrite !elem_of_app; right; left; apply list_elem_of_join; eexists; split; [| apply list_elem_of_fmap_2, Hd]; right; now left.
  - apply list_relations.list.Forall_forall; intros d Hd; pose proof (proj1 (list_relations.list.Forall_forall _ _) U2 d Hd) as Hu; cbn in Hu.
    destruct (proofs_of v' OUTPUT (Hash (od_zkproof d))).1 eqn:E; [| reflexivity]; exfalso; destruct (S2 _ E) as [E' | (t & Ht & Hm)]; [congruence |].
    apply (Hc t Ht); right; exists (ZkOutputProof (Hash (od_zkproof d))); split; [| exact Hm]; unfold marks; rewrite !elem_of_app; right; right; apply list_elem_of_fmap; exists d; auto.
  - exact (joinsplit_trees_mono _ _ (S3 SPROUT) _ _ A1).
  - eapply Forall_impl; [| exact A2]; cbn; intros d [[t1 E1] [t2 E2]]; split; eexists; apply S3; eassumption.
Qed.

Lemma block_backed {E} m vtx v v' l h : pool_ok m -> Forall (known m) vtx -> pool_backed v l m -> block_steps l vtx h -> shielded_after v v' vtx ->
  exists m' conflicts, removeForBlock (E := E) m vtx [] = Ok (m', conflicts) /\ pool_ok m' /\
    (forall t, t ∈ vtx -> ~ present m' t.1 /\ forall t', has m' t' -> ~ conflict t'.2 t.2) /\ pool_backed v' (levels l vtx h) m'.
Proof.
  intros Hok K Hb Hs Ha; destruct (block_ok (E := E) vtx m [] Hok K) as (m' & c & Er & S & N & Sup); pose proof (sh_ok _ _ S) as Hok'.
  assert (Hhas : forall t, has m' t -> has m t) by (intros t; now apply shrunk_has).
  assert (Hfree : forall t, has m' t -> forall t', t' ∈ vtx -> ~ conflict t.2 t'.2) by (intros t Ht t' Ht'; now apply N).
  exists m', c; split; [exact Er |]; split; [exact Hok' |]; split; [exact N |]; split.
  - apply backed_supported; [exact Hok' |]; pose proof (Sup _ (proj1 (backed_supported l m Hok) (bk_inputs _ _ _ Hb))) as Sup'; intros t o Ht Ho.
    destruct (Sup' t o Ht Ho) as [Hr | [Hn Hav]]; [now left | right; split; [exact Hn | now apply block_avail]].
  - intros t Ht; apply block_new; [exact (bk_new _ _ _ Hb t (Hhas t Ht)) |]; intros t' Ht' E'; apply (proj1 (N t' Ht')), (present_has m' _ Hok'); exists t; split; [exact Ht | now symmetry].
  - intros t Ht; apply block_unrevealed; [exact (bk_nullifiers _ _ _ Hb t (Hhas t Ht)) | exact (Hfree t Ht)].
  - intros t Ht; apply (shielded_backed v v' vtx t.2 Ha (Hfree t Ht) (bk_proofs _ _ _ Hb t (Hhas t Ht)) (bk_anchors _ _ _ Hb t (Hhas t Ht))).
  - intros t Ht; apply (shielded_backed v v' vtx t.2 Ha (Hfree t Ht) (bk_proofs _ _ _ Hb t (Hhas t Ht)) (bk_anchors _ _ _ Hb t (Hhas t Ht))).
  - destruct (bk_order _ _ _ Hb) as [rank Hr]; exists rank; intros t o Ht Ho Hp; apply (Hr t o (Hhas t Ht) Ho).
    apply (present_has m' _ Hok') in Hp as (r & Hr' & E'); apply (present_has m _ Hok); exists r; auto.
Qed.

(** C26: the memory pool stays consistent.  Whatever sequence of additions that
    passed the checks against the pool, removals, blocks, reorganisations,
    expirations and prioritisations led to it (all operations but [clear]), the map
    of spent outpoints has exactly the inputs of the pool's transactions other than
    imports, no two transactions of the pool spend one outpoint or share a nullifier
    or a proof, and further removals return, without following a pointer to a
    transaction that is gone (a transaction that is removed, or comes in a block,
    with the id of one in the pool being that one).  The self-check CTxMemPool::check then passes, all of
    its assertions and its loop over the waiting transactions included, when the
    pool could be mined on the coin view: it has no import and no coinbase, none of
    its transactions is among the coins, every input is an output of the pool or an
    unspent coin, mature and unlocked if of a coinbase, the amounts are those that
    CheckTxInputs accepts at the next height, nullifiers and proofs are not in the
    view, anchors are, and no transaction spends what depends on it. *)
Theorem mempool_consistent (m : CTxMemPool) :
  pool_reachable m ->
  (forall o, is_Some (mapNextTx m !! o) <-> exists t, has m t /\ spends t.2 o) /\
  (forall t t', has m t -> has m t' -> conflict t.2 t'.2 -> t = t') /\
  (forall tx rc, known m tx -> exists r, remove (E := unit) m tx [] rc = Ok r) /\
  (forall vtx, Forall (known m) vtx -> exists r, removeForBlock (E := unit) m vtx [] = Ok r) /\
  (forall nCheckFrequency rand (v : view) l s h,
     good v (l :: s) -> level_wf l -> 0 <= h < 2 ^ 31 -> mapBlockIndex_nHeight (GetBestBlock v).1 = Some (h - 1) -> pool_ready v l h m ->
     exists v', check nCheckFrequency rand v m = Ok v' /\ good v' (l :: s)).
Proof.
  intros Hok%reachable_ok; split; [| split; [| split; [| split]]].
  - intros o; rewrite <- (next_spends m o Hok); split; intros [ip Hip]; eauto.
  - intros t t'; now apply pool_conflict_free.
  - intros tx rc K; destruct (remove_ok (E := unit) m tx [] rc Hok K) as (m' & rm & E & _); eauto.
  - intros vtx K; destruct (block_ok (E := unit) vtx m [] Hok K) as (m' & c & E & _); eauto.
  - intros freq rand v l s h Hg Hw Hh Hb Hr; destruct (check_ok icok m Hok v l s h Hh Hr Hg freq rand Hw Hb) as (v' & E & R); exists v'; split; [exact E | exact (rd_good _ _ R _ Hg)].
Qed.

(** C27: after a block, what is left of the pool is still backed by the coins.  When
    a block without imports, whose transactions UpdateCoins can connect one after
    the other, is connected on coins that back the pool (every input an output of
    the pool or an unspent coin, no transaction of the pool among the coins, no
    nullifier or proof of it in the view, its anchors known, no cycle of spends),
    and the view afterwards has no new proofs but the block's and keeps its anchors,
    then removeForBlock returns (a transaction of the block with the id of one in
    the pool being that one), no transaction of the block and none that conflicts
    with one is left in the pool, and the coins after the block back what is left in
    the same sense.  So CTxMemPool::check passes against them, if what is left has
    no import and no coinbase, and its amounts and the maturity of the coinbases it
    spends are still those that CheckTxInputs accepts at the next height. *)
Theorem pool_survives_block (m : CTxMemPool) (vtx : list hashed_tx) (v v' : view) (l : level) (h : Z) :
  pool_reachable m -> Forall (known m) vtx -> pool_backed v l m -> block_steps l vtx h -> shielded_after v v' vtx ->
  exists m' conflicts, removeForBlock (E := unit) m vtx [] = Ok (m', conflicts) /\
    (forall t, t ∈ vtx -> ~ present m' t.1 /\ forall t', has m' t' -> ~ conflict t'.2 t.2) /\
    pool_backed v' (levels l vtx h) m' /\
    (forall nCheckFrequency rand s,
       good v' (levels l vtx h :: s) -> level_wf (levels l vtx h) -> 0 <= h < 2 ^ 31 - 1 -> mapBlockIndex_nHeight (GetBestBlock v').1 = Some h ->
       (forall t, has m' t -> IsMint t.2 = false /\ spendable (pool_coin (levels l vtx h) m') (h + 1) t.2) ->
       exists v'', check nCheckFrequency rand v' m' = Ok v'').
Proof.
  intros Hok%reachable_ok K Hb Hs Ha; destruct (block_backed (E := unit) m vtx v v' l h Hok K Hb Hs Ha) as (m' & c & E & Hok' & N & Hb').
  exists m', c; split; [exact E |]; split; [exact N |]; split; [exact Hb' |]; intros freq rand s Hg Hw Hh Hbest Hsp.
  destruct (check_ok icok m' Hok' v' (levels l vtx h) s (h + 1) ltac:(lia) (backed_ready _ _ _ _ Hb' Hsp) Hg freq rand Hw) as (v'' & E'' & _); [now replace (h + 1 - 1) with h by lia | eauto].
Qed.
End Block.

(** ** Examples *)

Module Example_backed.
Import MempoolSpec.Example_pool.
Definition coin : CCoins := mkCoins false [mkTxOut 1000 [81]] 5 1.
Definition prev : uint256 := id 77.
Definition db : view nat := VDB (mkDB (<[id 9 := coin]> {[id 8 := coin]}) (fun _ => ∅) (fun _ => ∅) (fun _ => ∅) (Some prev) (fun _ => None)).
Definition bottom : level := mkLevel (utxo db) (nf_spent db).
Definition blocks : BlockEnv := {|
  MAX_BLOCK_SIGOPS := 20000; KOMODO_EXTRASATOSHI := 0; ASSETCHAINS_CC := 0; ASSETCHAINS_FOUNDERS := 0;
  ASSETCHAINS_FOUNDERS_REWARD := 0; nScriptCheckThreads := 2; mapBlockIndex_nHeight := fun h => if decide (h = prev) then Some 100 else None;
  ServerChecker := fun _ _ _ => BaseChecker; CheckEvalCondition := fun _ _ => false; komodo_checkPOW := fun _ => 0 |}.
#[export] Existing Instances blocks Example_inputs.limit Example_inputs.limit_ok Example_inputs.chain.

Lemma bottom_good : good db [bottom].
Proof. split; [exact I |]; split; [exact I |]; now split. Qed.

Lemma bottom_coins t : lv_coins bottom t = if decide (t = id 9 \/ t = id 8) then Some coin else None.
Proof.
  unfold bottom, db; cbn [lv_coins utxo db_coins]; destruct (decide (t = id 9)) as [-> | H9]; [rewrite lookup_insert_eq, decide_True by auto; reflexivity |].
  rewrite lookup_insert_ne by congruence; destruct (decide (t = id 8)) as [-> | H8]; [rewrite lookup_singleton_eq, decide_True by auto; reflexivity |].
  rewrite lookup_singleton_ne by congruence; rewrite decide_False by tauto; reflexivity.
Qed.

Lemma bottom_wf : level_wf bottom.
Proof.
  intros t c; rewrite bottom_coins; destruct (decide _) as [_ | _]; [intros [= <-] | discriminate]; split; [| split; [| split; [reflexivity | cbn; lia]]].
  - intros [| ? [| ? ?]] o; cbn; intros [=]; subst; reflexivity.
  - repeat constructor; discriminate.
Qed.

(** A payment of the example spends what it names, without a fee. *)
Lemma payment_spendable src h n from cb : op_n from = 0 -> src from = Some (mkTxOut 1000 [81], cb) -> cb = None -> spendable src h (pay n from).2.
Proof.
  intros H0 Es ->; assert (Ev : src_value src from = 1000) by (unfold src_value; now rewrite Es); split.
  - apply Forall_cons_2; [| apply Forall_nil_2]; split; [cbn; lia |]; exists (mkTxOut 1000 [81]), None; split; [exact Es |]; split; [vm_compute; split; discriminate | discriminate].
  - repeat split; repeat constructor; vm_compute; discriminate || reflexivity.
  - split; [repeat constructor; cbn; lia | vm_compute; reflexivity].
  - split; apply Forall_nil_2.
  - unfold total_in, src_interest; cbn [pay MempoolSpec.prevouts tx_vin map snd prevout]; rewrite Ev; vm_compute; split; discriminate.
Qed.

Lemma payment_unshielded (v : view nat) l n from : unrevealed l (pay n from).2 /\ unproved v (pay n from).2 /\ anchored v (pay n from).2.
Proof.
  split; [intros t x [-> | ->] Hx; now apply not_elem_of_nil in Hx |]; split; split; try apply Forall_nil_2; reflexivity.
Qed.

Lemma pool3_backed : pool_backed db bottom pool3.
Proof.
  split.
  - intros t o Ht [_ Ho]; destruct (pool3_has t Ht) as [-> | [-> | ->]]; apply list_elem_of_singleton in Ho as ->; (split; [cbn; lia |]); vm_compute; eauto.
  - intros t Ht; rewrite bottom_coins; destruct (pool3_has t Ht) as [-> | [-> | ->]]; (rewrite decide_False; [reflexivity | intros [E | E]; vm_compute in E; discriminate]).
  - intros t Ht; destruct (pool3_has t Ht) as [-> | [-> | ->]]; apply (payment_unshielded db bottom).
  - intros t Ht; destruct (pool3_has t Ht) as [-> | [-> | ->]]; apply (payment_unshielded db bottom).
  - intros t Ht; destruct (pool3_has t Ht) as [-> | [-> | ->]]; apply (payment_unshielded db bottom).
  - exists (fun h => if decide (h = id 2) then 1%nat else 0%nat); intros t o Ht [_ Ho] Hp; destruct (pool3_has t Ht) as [-> | [-> | ->]]; apply list_elem_of_singleton in Ho as ->.
    + exfalso; vm_compute in Hp; destruct Hp; discriminate.
    + vm_compute; lia.
    + exfalso; vm_compute in Hp; destruct Hp; discriminate.
Qed.

Lemma pool3_ready : pool_ready db bottom 101 pool3.
Proof.
  apply backed_ready; [exact pool3_backed |]; intros t Ht; destruct (pool3_has t Ht) as [-> | [-> | ->]]; (split; [reflexivity |]);
    (eapply payment_spendable; [reflexivity | vm_compute; reflexivity | reflexivity]).
Qed.

Lemma block_connects : block_steps bottom [tx4] 101.
Proof.
  split; [| exact I]; split; try reflexivity.
  - split; [repeat constructor; cbn; lia | vm_compute; reflexivity].
  - intros _; apply NoDup_singleton.
  - intros _; apply Forall_cons_2; [| apply Forall_nil_2]; split; [cbn; lia |]; eexists; split; vm_compute; reflexivity.
Qed.

Lemma nothing_shielded : shielded_after db db [tx4].
Proof. split; [now left | now left | auto]. Qed.

(** An import names no coin, and the check asserts that it does. *)
Definition import : uint256 * CTransaction := pay 6 (mkOutPoint (id 9) 1000000000).
Definition import_pool : CTxMemPool := Eval vm_compute in add empty_pool import.
Lemma import_vin p : check_vin db import_pool p 0 (tx_vin import.2) false = Exn assertion_failed.
Proof.
  cbn [check_vin tx_vin import pay snd prevout op_hash op_n]; change (find_entry import_pool (id 9)) with (@None (nat * CTxMemPoolEntry)).
  change (AccessCoins db (id 9)) with (Some coin, db); cbv iota beta; unfold IsAvailable; change (1000000000 <? zlen (vout coin)) with false; reflexivity.
Qed.
Example import_fails_check :
  IsCoinImport import.2 = true /\ accept_checks (E := unit) empty_pool import = Ok None /\ check 1 0 db import_pool = Exn assertion_failed.
Proof.
  split; [reflexivity |]; split; [vm_compute; reflexivity |]; unfold check, GetSpendHeight; cbn [Z.eqb Z.leb orb].
  assert (E : entries import_pool = [entry import]) by (vm_compute; reflexivity); change (GetBestBlock (VCache new_cache db)) with (prev, VCache (set_block new_cache prev) db).
  assert (E2 : mapBlockIndex_nHeight prev = Some 100) by (vm_compute; reflexivity); cbv beta iota; rewrite E2, E; cbn [mbind res_bind as_top check_entries fst snd entry GetTx].
  rewrite import_vin; reflexivity.
Qed.

(** A coinbase that a reorganisation made immature: removeForReorg keeps the
    transaction that spends it, and the check asserts that CheckTxInputs accepts it. *)
Definition young_db : view nat := VDB (mkDB {[id 9 := mkCoins true [mkTxOut 1000 [81]] 99 1]} (fun _ => ∅) (fun _ => ∅) (fun _ => ∅) (Some prev) (fun _ => None)).
Definition spends_coinbase : CTxMemPoolEntry := mkEntry tx1 10 100 200 100000 1600000000 100 true true 0.
Definition young_pool : CTxMemPool := Eval vm_compute in match addUnchecked (E := unit) empty_pool tx1.1 spends_coinbase with Ok m => m | _ => empty_pool end.
Example immature_fails_check :
  removeForReorg (E := unit) false (fun h => (AccessCoins young_db h).1) young_pool 101 2 = Ok young_pool /\ check 1 0 young_db young_pool = Exn assertion_failed.
Proof. split; vm_compute; reflexivity. Qed.
End Example_backed.

Lemma mempool_consistent_witness :
  (exists r, remove (H := toy_hashes) (E := unit) Example_pool.pool3 Example_pool.tx1 [] true = Ok r) /\
  exists v', check (H1 := toy_hashes) (H2 := Example_check.net) (H3 := Example_inputs.limit) (H4 := Example_pool.spending) (H5 := Example_inputs.chain) (H6 := Example_check.rewards) (H7 := Example_backed.blocks)
    1 0 Example_backed.db Example_pool.pool3 = Ok v' /\ good v' [Example_backed.bottom].
Proof.
  destruct (mempool_consistent (H1 := toy_hashes) (H2 := Example_check.net) (H3 := Example_inputs.limit) (H4 := Example_pool.spending) (H5 := Example_inputs.chain) (H6 := Example_check.rewards)
    (H7 := Example_backed.blocks) (H8 := Example_pool.env) (MoneyLimitOk0 := Example_inputs.limit_ok) Example_inputs.chain_ok Example_pool.pool3 Example_pool.pool3_reachable) as (_ & _ & Hr & _ & Hc); split.
  - apply Hr; intros _; exists 0%nat, (Example_pool.entry Example_pool.tx1); split; vm_compute; reflexivity.
  - apply (Hc 1 0 Example_backed.db Example_backed.bottom [] 101 Example_backed.bottom_good Example_backed.bottom_wf); [lia | vm_compute; reflexivity | exact Example_backed.pool3_ready].
Defined.

Lemma pool_survives_block_witness :
  exists m' conflicts, removeForBlock (H := toy_hashes) (E := unit) Example_pool.pool3 [Example_pool.tx4] [] = Ok (m', conflicts) /\
    pool_backed (H1 := toy_hashes) Example_backed.db (levels Example_backed.bottom [Example_pool.tx4] 101) m'.
Proof.
  destruct (pool_survives_block (H1 := toy_hashes) (H2 := Example_check.net) (H3 := Example_inputs.limit) (H4 := Example_pool.spending) (H5 := Example_inputs.chain) (H6 := Example_check.rewards)
    (H7 := Example_backed.blocks) (H8 := Example_pool.env) (MoneyLimitOk0 := Example_inputs.limit_ok) Example_inputs.chain_ok Example_pool.pool3 [Example_pool.tx4] Example_backed.db Example_backed.db Example_backed.bottom 101
    Example_pool.pool3_reachable Example_pool.tx4_known Example_backed.pool3_backed Example_backed.block_connects Example_backed.nothing_shielded) as (m' & c & E & _ & B & _).
  exists m', c; auto.
Defined.
