(* ===== verification/BlockTree.v ===== *)
(** * Headers and blocks arrive

    main.cpp: AddToBlockIndex, AcceptBlockHeader, ReceivedBlockTransactions and
    AcceptBlock; the constructor of CBlockIndex (chain.h).  A new entry gets an
    unused pointer, and every hash in the map has an entry.  The block files are
    those that the driver reads, so storing a block changes nothing here but the
    entry; the position that FindBlockPos finds, the value pools of the entries,
    pruning and log messages are left out. *)
From stdpp Require Import gmap strings.
From S2P Require Import Prelude Endian Hashing Merkle ArithUint256 Serialize Transaction TxCheck.
From S2P Require Import BlockIndex Chain Pow ChainState Interest Subsidy Connect BlockCheck.

(** The globals of ChainState with [pindexBestHeader] and [nBlockSequenceId]. *)
Record Node (V U : Type) := mkNode {
  chainstate : ChainState V U;
  pindexBestHeader : option ptr;
  nBlockSequenceId : Z;
}.
Arguments mkNode {V U}.
Arguments chainstate {V U}.
Arguments pindexBestHeader {V U}.
Arguments nBlockSequenceId {V U}.

(** [new CBlockIndex(block)], with its hash. *)
Definition new_entry (h : CBlockHeader) (hash : uint256) : CBlockIndex :=
  mkBlockIndex hash None None 0 (hd_nTime h) (hd_nBits h) (repeat 0 8) 0 0 0 0.

Definition set_position (b : CBlockIndex) (prev : option ptr) (height : Z) (chainwork : list Z) : CBlockIndex :=
  mkBlockIndex (blockHash b) prev (pskip b) height (nTime b) (nBits b) chainwork (nStatus b) (nTx b) (nChainTx b) (nSequenceId b).

(** How far ahead blocks are stored, and what FindBlockPos answers for a block:
    the reason of [state.Error] when there is no space. *)
Class ArrivalEnv := {
  BLOCK_DOWNLOAD_WINDOW : Z;
  FindBlockPos : CBlock -> option string;
}.

Section Arrival.
Context {V U : Type}.
Abbreviation node := (Node V U).
Abbreviation index n := (mapBlockIndex (chainstate n)).

Definition set_map (n : node) (m : index_map) : node :=
  mkNode (set_index (chainstate n) m) (pindexBestHeader n) (nBlockSequenceId n).

(** An address that is not in use. *)
Definition new_pointer (n : node) : ptr := fresh (dom (index n) ∪ dom (undo_files (chainstate n))).

(** ** AddToBlockIndex *)

Definition AddToBlockIndex `{HashFunctions} (n : node) (h : CBlockHeader) : res unit (ptr * node) :=
  hash ← GetSHA256DHash h;
  match find_ptr (index n) hash with
  | Some p => Ok (p, n)
  | None =>
      let p := new_pointer n in
      let miPrev := find_ptr (index n) (hashPrevBlock h) in
      '(height, prevwork) ←
        match miPrev with
        | Some q => c ← deref (index n) q; Ok (i32 (nHeight c + 1), nChainWork c)
        | None => Ok (0, arith_u64 0)
        end;
      proof ← GetBlockProof (hd_nBits h);
      m ← match miPrev with
          | Some _ => BuildSkip (<[p := set_position (new_entry h hash) miPrev height (repeat 0 8)]> (index n)) p
          | None => Ok (<[p := new_entry h hash]> (index n))
          end;
      b ← deref m p;
      let b := set_position b miPrev height (op_add prevwork proof) in
      '(_, b) ← RaiseValidity b BLOCK_VALID_TREE;
      best ←
        match pindexBestHeader n with
        | None => Ok (Some p)
        | Some q => c ← deref (index n) q; Ok (if a_lt (nChainWork c) (nChainWork b) then Some p else Some q)
        end;
      Ok (p, mkNode (set_index (chainstate n) (<[p := b]> m)) best (nBlockSequenceId n))
  end.

(** ** ReceivedBlockTransactions *)

(** The body of the loop: the block counts the transactions up to it, gets its
    sequence number and becomes a candidate unless it is worse than the tip.  The
    blocks that were waiting for it are returned. *)
Definition link_block (n : node) (p : ptr) : res unit (list ptr * node) :=
  let st := chainstate n in
  b ← deref (index n) p;
  below ← match pprev b with None => Ok 0 | Some q => c ← deref (index n) q; Ok (nChainTx c) end;
  let m := <[p := set_counts b (nTx b) (u32 (below + nTx b)) (nBlockSequenceId n)]> (index n) in
  let candidate := match Tip (chainActive st) with None => true | Some t => negb (worse m p t) end in
  let waiting := base.filter (fun e => e.1 = p) (mapBlocksUnlinked st) in
  let st := set_index st m in
  let st := if candidate then set_candidates st (setBlockIndexCandidates st ∪ {[p]}) else st in
  let st := set_unlinked st (base.filter (fun e => e.1 <> p) (mapBlocksUnlinked st)) in
  Ok (map snd waiting, mkNode st (pindexBestHeader n) (u32 (nBlockSequenceId n + 1))).

(** The queue of blocks whose parents are linked. *)
Fixpoint link_queue (fuel : nat) (n : node) (queue : list ptr) : res unit node :=
  match queue with
  | [] => Ok n
  | p :: queue =>
      match fuel with
      | O => Exn out_of_fuel
      | S fuel => '(waiting, n) ← link_block n p; link_queue fuel n (queue ++ waiting)
      end
  end.

(** The entry that has got its data. *)
Definition received_entry (b : CBlockIndex) (txs : Z) : res unit CBlockIndex :=
  let b := set_counts b txs 0 (nSequenceId b) in
  '(_, b) ← RaiseValidity (set_nStatus b (Z.lor (nStatus b) BLOCK_HAVE_DATA)) BLOCK_VALID_TRANSACTIONS;
  Ok b.

Definition ReceivedBlockTransactions (n : node) (p : ptr) (txs : Z) : res unit node :=
  b ← deref (index n) p;
  b ← received_entry b (u32 txs);
  let n := set_map n (<[p := b]> (index n)) in
  let st := chainstate n in
  parent ← match pprev b with None => Ok None | Some q => c ← deref (index n) q; Ok (Some (q, c)) end;
  match parent with
  | Some (q, c) =>
      if nChainTx c =? 0 then
        valid ← IsValid c BLOCK_VALID_TREE;
        Ok (if (valid : bool) then mkNode (set_unlinked st (mapBlocksUnlinked st ++ [(q, p)])) (pindexBestHeader n) (nBlockSequenceId n)
            else n)
      else link_queue (S (length (mapBlocksUnlinked st))) n [p]
  | None => link_queue (S (length (mapBlocksUnlinked st))) n [p]
  end.

(** ** AcceptBlockHeader *)

Section Accept.
Context `{HashFunctions, Layout, MoneyLimit, ChainParams, TxEnvironment, SubsidyParams, BlockEnv, CheckEnv, ArrivalEnv}.

(** [*futureblockp], the returned boolean, the validation state, [*ppindex] and
    the globals. *)
Abbreviation answer := (res unit (bool * bool * CValidationState * option ptr * node)).

(** What a check does to the validation state. *)
Definition apply_error (vs : CValidationState) (e : connect_error) : CValidationState :=
  match e with
  | Rejected r corruption => state_DoS vs (rj_level r) (rj_code r) (rj_reason r) corruption
  | Failed (Some reason) => state_Error vs reason
  | Failed None => vs
  end.

(** The boolean that a check returns, and the validation state. *)
Definition run_checks (vs : CValidationState) (r : res connect_error unit) : res unit (bool * CValidationState) :=
  match r with Ok _ => Ok (true, vs) | Err e => Ok (false, apply_error vs e) | Exn x => Exn x end.

(** A header that is in the tree. *)
Definition known_header (future : bool) (vs : CValidationState) (n : node) (p : ptr) : answer :=
  b ← deref (index n) p;
  if has_status b BLOCK_FAILED_MASK then
    if ASSETCHAINS_CC =? 0 then Ok (future, false, state_Invalid vs 0 "duplicate", Some p, n)
    else Ok (future, true, vs, Some p, set_map n (<[p := clear_failed b]> (index n)))
  else Ok (future, true, vs, Some p, n).

(** The entry of the previous block: [None] is the return without a rejection. *)
Definition previous_header (n : node) (h : CBlockHeader) (hash : uint256) : res unit (option (option ptr)) :=
  if bool_decide (hash = hashGenesisBlock) then Ok (Some None)
  else match find_ptr (index n) (hashPrevBlock h) with None => Ok None | Some q => Ok (Some (Some q)) end.

(** [pindexPrev] and the entries below it. *)
Definition chain_below (m : index_map) (q : option ptr) : list CBlockIndex :=
  match q with
  | None => []
  | Some q => pprev_list m (S (Z.to_nat (match m !! q with Some c => nHeight c | None => 0 end))) (Some q)
  end.

Definition AcceptBlockHeader (future : bool) (vs : CValidationState) (n : node) (h : CBlockHeader) (ppindex : option ptr) : answer :=
  hash ← GetSHA256DHash h;
  match find_ptr (index n) hash with
  | Some p => known_header future vs n p
  | None =>
      height ← match ppindex with None => Ok 0 | Some p => b ← deref (index n) p; Ok (nHeight b) end;
      let '(future, r) := CheckBlockHeader height h false in
      '(ok, vs) ← run_checks vs r;
      if negb ok && negb future then Ok (future, false, vs, ppindex, n)
      else
        prev ← previous_header n h hash;
        match prev with
        | None => Ok (future, false, vs, ppindex, n)
        | Some prev =>
            failed ← match prev with None => Ok false | Some q => c ← deref (index n) q; Ok (has_status c BLOCK_FAILED_MASK) end;
            if (failed : bool) then Ok (future, false, apply_error vs (Rejected (DoS 100 "bad-prevblk") false), ppindex, n)
            else
              '(ok, vs) ← run_checks vs (ContextualCheckBlockHeader (index n) (chainActive (chainstate n)) h (chain_below (index n) prev));
              if negb ok then Ok (future, false, vs, ppindex, n)
              else
                '(p, n) ← AddToBlockIndex n h;
                Ok (future, true, vs, Some p, n)
        end
  end.

(** ** AcceptBlock *)

(** The cases in which a block that fails its checks is kept: the height at which
    Sapling activates is not known yet, or near. *)
Definition near_sapling (st : ChainState V U) (height : Z) : res unit bool :=
  let s := sapling_nActivationHeight in
  if s <? 0 then Ok true
  else if 0 <? s then
    match Tip (chainActive st) with
    | None => Ok false
    | Some t =>
        c ← deref (mapBlockIndex st) t;
        Ok ((height <? 0) || ((s <=? height) && (height <? i32 (s + 50000)))
            || ((i32 (s - 720) <? nHeight c) && (nHeight c <? i32 (s + 720))))
    end
  else Ok false.

(** The block is not looked at: it is there, or was not asked for and is pruned,
    brings no more work than the tip, or is too far ahead. *)
Definition skip_block (st : ChainState V U) (b : CBlockIndex) (fRequested : bool) : res unit bool :=
  more ← match Tip (chainActive st) with
         | None => Ok true
         | Some t => c ← deref (mapBlockIndex st) t; Ok (a_gt (nChainWork b) (nChainWork c))
         end;
  let ahead := u32 (Height (chainActive st) + BLOCK_DOWNLOAD_WINDOW) in
  Ok (has_status b BLOCK_HAVE_DATA
      || (negb fRequested && (negb (nTx b =? 0) || negb more || (i32 ahead <? nHeight b)))).

Definition AcceptBlock (future : bool) (vs : CValidationState) (n : node) (blk : CBlock) (ppindex : option ptr) (fRequested : bool) : answer :=
  '(future, ok, vs, pindex, n) ← AcceptBlockHeader future vs n (header blk) ppindex;
  if negb ok && negb future then Ok (future, false, vs, pindex, n)
  else
    match pindex with
    | None => Ok (true, false, vs, pindex, n)
    | Some p =>
        b ← deref (index n) p;
        skip ← skip_block (chainstate n) b fRequested;
        if (skip : bool) then Ok (future, true, vs, pindex, n)
        else
          '(fContextual, vs) ← run_checks vs (ContextualCheckBlock (index n) blk (chain_below (index n) (pprev b)));
          prevtime ← match pprev b with None => Ok None | Some q => c ← deref (index n) q; Ok (Some (nTime c)) end;
          let '(future, r) := CheckBlock (nHeight b) prevtime blk false true in
          '(checked, vs) ← run_checks vs r;
          near ← (if checked && fContextual then Ok false else near_sapling (chainstate n) (nHeight b));
          let future := future || near in
          if negb (checked && fContextual) && negb future then
            let n := match mode vs with
                     | MODE_INVALID => if corruptionPossible vs then n else set_map n (or_status (index n) p BLOCK_FAILED_VALID)
                     | _ => n
                     end in
            Ok (future, false, vs, pindex, n)
          else
            let n := if fContextual then set_map n (or_status (index n) p BLOCK_VALID_CONTEXT) else n in
            match FindBlockPos blk with
            | Some reason => Ok (future, false, state_Error vs reason, pindex, n)
            | None =>
                n ← ReceivedBlockTransactions n p (zlen (vtx blk));
                Ok (future, negb future, vs, pindex, n)
            end
    end.
End Accept.
End Arrival.
