(* ===== verification/ChainTree.v ===== *)
(** * Trees of block index entries

    Facts that the driver of the active chain relies on: changing the status of
    entries leaves the tree, its chains and the order of the candidates as they
    are; the comparator of the candidates is a strict total order, in which a
    block is better than its ancestors. *)
From stdpp Require Import gmap.
From S2P Require Import Prelude Merkle BlockIndex BlockIndexSpec Chain ArithUint256 ArithUint256Spec Pow PowSpec ChainState.

(** ** Trees that differ in the status of their entries *)

Definition strip (b : CBlockIndex) : CBlockIndex := set_nStatus b 0.

Definition tree_eq (m m' : index_map) : Prop := forall p, strip <$> m !! p = strip <$> m' !! p.

#[global] Instance tree_eq_equivalence : Equivalence tree_eq.
Proof.
  split; [now intros m p | now intros m m' E p | intros a b c E1 E2 p; now rewrite E1].
Qed.

Lemma tree_eq_Some m m' p b : tree_eq m m' -> m !! p = Some b -> exists b', m' !! p = Some b' /\ strip b = strip b'.
Proof.
  intros E Hp; specialize (E p); rewrite Hp in E; cbn in E; destruct (m' !! p) as [b' |]; [| discriminate].
  exists b'; split; [reflexivity | cbn in E; congruence].
Qed.

Lemma tree_eq_insert m p b b' : m !! p = Some b -> strip b = strip b' -> tree_eq m (<[p := b']> m).
Proof.
  intros Hp E q; destruct (decide (q = p)) as [-> | Hne].
  - rewrite lookup_insert_eq, Hp; cbn; congruence.
  - now rewrite lookup_insert_ne by congruence.
Qed.

Lemma tree_eq_or_status m p f : tree_eq m (or_status m p f).
Proof.
  intros q; unfold or_status; destruct (decide (q = p)) as [-> | Hne].
  - rewrite lookup_alter_eq; now destruct (m !! p).
  - now rewrite lookup_alter_ne by congruence.
Qed.

(** ** Trees that differ in what is known of their blocks *)

(** An entry without its status and counts: where the block is in the tree. *)
Definition place (b : CBlockIndex) : CBlockIndex := set_counts (strip b) 0 0 0.

Definition place_eq (m m' : index_map) : Prop := forall p, place <$> m !! p = place <$> m' !! p.

#[global] Instance place_eq_equivalence : Equivalence place_eq.
Proof.
  split; [now intros m p | now intros m m' E p | intros a b c E1 E2 p; now rewrite E1].
Qed.

Lemma place_eq_Some m m' p b : place_eq m m' -> m !! p = Some b -> exists b', m' !! p = Some b' /\ place b = place b'.
Proof.
  intros E Hp; specialize (E p); rewrite Hp in E; cbn in E; destruct (m' !! p) as [b' |]; [| discriminate].
  exists b'; split; [reflexivity | cbn in E; congruence].
Qed.

Lemma place_eq_None m m' p : place_eq m m' -> m !! p = None -> m' !! p = None.
Proof. intros E Hp; specialize (E p); rewrite Hp in E; now destruct (m' !! p). Qed.

Lemma place_eq_insert m p b b' : m !! p = Some b -> place b = place b' -> place_eq m (<[p := b']> m).
Proof.
  intros Hp E q; destruct (decide (q = p)) as [-> | Hne].
  - rewrite lookup_insert_eq, Hp; cbn; congruence.
  - now rewrite lookup_insert_ne by congruence.
Qed.

Lemma tree_place_eq m m' : tree_eq m m' -> place_eq m m'.
Proof.
  intros E p; specialize (E p); destruct (m !! p) as [b |], (m' !! p) as [b' |]; cbn in *; try congruence.
  apply (inj Some) in E; unfold place; now rewrite E.
Qed.

(** What equal places share. *)
Lemma place_fields b b' : place b = place b' ->
  blockHash b = blockHash b' /\ pprev b = pprev b' /\ pskip b = pskip b' /\ nHeight b = nHeight b' /\ nChainWork b = nChainWork b'.
Proof. now injection 1. Qed.

Lemma up_place_eq m m' k : place_eq m m' -> forall p, up m k p = up m' k p.
Proof.
  intros E; induction k as [| k IH]; intros p; cbn [up]; [reflexivity |].
  destruct (m !! p) as [b |] eqn:Hp.
  - destruct (place_eq_Some m m' p b E Hp) as (b' & -> & (_ & Ep & _)%place_fields).
    rewrite Ep; destruct (pprev b'); [apply IH | reflexivity].
  - now rewrite (place_eq_None m m' p E Hp).
Qed.

Lemma up_tree_eq m m' k : tree_eq m m' -> forall p, up m k p = up m' k p.
Proof. intros E; now apply up_place_eq, tree_place_eq. Qed.

Lemma index_ok_place_eq m m' : place_eq m m' -> index_ok m -> index_ok m'.
Proof.
  intros E Hm p b' Hp; symmetry in E; destruct (place_eq_Some m' m p b' E Hp) as (b & Hb & (_ & Ep & Es & Eh & _)%place_fields).
  destruct (Hm p b Hb) as [Hh Hg Hpr Hs]; symmetry in E; split; rewrite ?Eh, ?Ep, ?Es; auto.
  - intros q Hq; destruct (Hpr q Hq) as (c & Hc & Hn); destruct (place_eq_Some m m' q c E Hc) as (c' & Hc' & (_ & _ & _ & Eh' & _)%place_fields).
    exists c'; split; [exact Hc' | congruence].
  - intros s Hs'; rewrite <- (up_place_eq m m' _ E); auto.
Qed.

Lemma chain_to_place_eq m m' v t : place_eq m m' -> chain_to m v t -> chain_to m' v t.
Proof.
  intros E (b & Hb & Hl & Hu); destruct (place_eq_Some m m' t b E Hb) as (b' & Hb' & (_ & _ & _ & Eh & _)%place_fields).
  exists b'; rewrite <- Eh; split; [exact Hb' |]; split; [exact Hl |].
  intros i Hi; rewrite (Hu i Hi); f_equal; now apply up_place_eq.
Qed.

Lemma chain_to_tree_eq m m' v t : tree_eq m m' -> chain_to m v t -> chain_to m' v t.
Proof. intros E; now apply chain_to_place_eq, tree_place_eq. Qed.

Lemma descends_place_eq m m' p q : place_eq m m' -> descends m p q -> descends m' p q.
Proof. intros E [k Hk]; exists k; now rewrite <- (up_place_eq m m' k E). Qed.

Lemma descends_tree_eq m m' p q : tree_eq m m' -> descends m p q -> descends m' p q.
Proof. intros E; now apply descends_place_eq, tree_place_eq. Qed.

Lemma worse_tree_eq m m' p q : tree_eq m m' -> worse m p q = worse m' p q.
Proof.
  intros E; unfold worse.
  assert (Hn : forall x, m !! x = None -> m' !! x = None).
  { intros x Hx; specialize (E x); rewrite Hx in E; now destruct (m' !! x). }
  destruct (m !! p) as [a |] eqn:Ha; [| now rewrite (Hn p Ha)].
  destruct (tree_eq_Some m m' p a E Ha) as (a' & -> & Ea).
  destruct (m !! q) as [b |] eqn:Hb; [| now rewrite (Hn q Hb)].
  destruct (tree_eq_Some m m' q b E Hb) as (b' & -> & Eb); unfold worse_entry.
  pose proof (f_equal nChainWork Ea) as Wa; pose proof (f_equal nChainWork Eb) as Wb.
  pose proof (f_equal nSequenceId Ea) as Sa; pose proof (f_equal nSequenceId Eb) as Sb; cbn in *.
  now rewrite Wa, Wb, Sa, Sb.
Qed.

(** ** Well-formed trees *)

Definition work (b : CBlockIndex) : Z := lval (nChainWork b).

(** Every block has more work than its parent, and a block that is linked to the
    genesis block has parents that are.  Blocks are known by their hashes, none
    of which is null, and heights are of type int. *)
Record tree_ok (m : index_map) : Prop := {
  to_index : index_ok m;
  to_arith : forall p b, m !! p = Some b -> arith_ok (nChainWork b);
  to_more : forall p b q c, m !! p = Some b -> pprev b = Some q -> m !! q = Some c -> work c < work b;
  to_linked : forall p b q c, m !! p = Some b -> nChainTx b <> 0 -> pprev b = Some q -> m !! q = Some c -> nChainTx c <> 0;
  to_hash : forall p q b c, m !! p = Some b -> m !! q = Some c -> blockHash b = blockHash c -> p = q;
  to_known : forall p b, m !! p = Some b -> blockHash b <> uint256_null /\ nHeight b < 2 ^ 31;
}.

(** A change of statuses and counts that keeps the parents of linked blocks
    linked. *)
Lemma tree_ok_place_eq m m' : place_eq m m' ->
  (forall p b q c, m' !! p = Some b -> nChainTx b <> 0 -> pprev b = Some q -> m' !! q = Some c -> nChainTx c <> 0) ->
  tree_ok m -> tree_ok m'.
Proof.
  intros E Hl' [Hi Ha Hm Hl Hh Hk]; symmetry in E.
  assert (back : forall p b', m' !! p = Some b' -> exists b, m !! p = Some b /\ place b' = place b)
    by (intros p b' Hb'; exact (place_eq_Some m' m p b' E Hb')).
  split; [now apply (index_ok_place_eq m) | | | exact Hl' | |].
  - intros p b' (b & Hb & (_ & _ & _ & _ & W)%place_fields)%back; rewrite W; eauto.
  - intros p b' q c' (b & Hb & (_ & Ep & _ & _ & W)%place_fields)%back Hq (c & Hc & (_ & _ & _ & _ & W')%place_fields)%back.
    unfold work; rewrite W, W'; apply (Hm p b q c Hb); [congruence | exact Hc].
  - intros p q b' c' (b & Hb & (E1 & _)%place_fields)%back (c & Hc & (E2 & _)%place_fields)%back He.
    apply (Hh p q b c Hb Hc); congruence.
  - intros p b' (b & Hb & (E1 & _ & _ & E2 & _)%place_fields)%back; rewrite E1, E2; eauto.
Qed.

Lemma tree_ok_tree_eq m m' : tree_eq m m' -> tree_ok m -> tree_ok m'.
Proof.
  intros E Hm; apply (tree_ok_place_eq m); [now apply tree_place_eq | | exact Hm]; symmetry in E.
  intros p b' q c' Hb' Hn Hq Hc'; destruct (tree_eq_Some m' m p b' E Hb') as (b & Hb & Eb).
  destruct (tree_eq_Some m' m q c' E Hc') as (c & Hc & Ec).
  pose proof (f_equal nChainTx Eb) as N; pose proof (f_equal nChainTx Ec) as N'; pose proof (f_equal pprev Eb) as Ep; cbn in N, N', Ep.
  rewrite N'; apply (to_linked m Hm p b q c Hb); congruence.
Qed.

Section Order.
Context (m : index_map) (Hm : tree_ok m).

(** The comparator, on the integers that the entries hold. *)
Lemma worse_iff p q a b :
  m !! p = Some a -> m !! q = Some b ->
  worse m p q = true <->
  work a < work b \/ (work a = work b /\
    (nSequenceId b < nSequenceId a \/ (nSequenceId a = nSequenceId b /\ (q < p)%nat))).
Proof.
  intros Ha Hb; unfold worse, worse_entry; rewrite Ha, Hb; unfold work.
  rewrite (a_gt_spec _ _ (to_arith m Hm p a Ha) (to_arith m Hm q b Hb)).
  rewrite (a_lt_spec _ _ (to_arith m Hm p a Ha) (to_arith m Hm q b Hb)).
  destruct (Z.ltb_spec (lval (nChainWork b)) (lval (nChainWork a))); [split; [discriminate | lia] |].
  destruct (Z.ltb_spec (lval (nChainWork a)) (lval (nChainWork b))); [split; [lia | reflexivity] |].
  destruct (Z.ltb_spec (nSequenceId a) (nSequenceId b)); [split; [discriminate | lia] |].
  destruct (Z.ltb_spec (nSequenceId b) (nSequenceId a)); [split; [lia | reflexivity] |].
  rewrite Nat.ltb_lt; split; [intros; right; split; [lia | right; lia] | lia].
Qed.

Lemma worse_false p q a b :
  m !! p = Some a -> m !! q = Some b -> worse m p q = false ->
  work b < work a \/ (work a = work b /\
    (nSequenceId a < nSequenceId b \/ (nSequenceId a = nSequenceId b /\ (p <= q)%nat))).
Proof.
  intros Ha Hb Hw; destruct (worse_iff p q a b Ha Hb) as [_ Hi].
  assert (Hn : ~ (work a < work b \/ (work a = work b /\
    (nSequenceId b < nSequenceId a \/ (nSequenceId a = nSequenceId b /\ (q < p)%nat))))) by (intros Hx; rewrite Hi in Hw; auto; discriminate).
  lia.
Qed.

(** A block has at least the work of the blocks it descends from. *)
Lemma descends_work k : forall p q a b,
  up m k p = Some q -> m !! p = Some a -> m !! q = Some b -> (k = 0%nat /\ p = q) \/ work b < work a.
Proof.
  induction k as [| k IH]; intros p q a b Hu Ha Hb; cbn [up] in Hu; [left; split; congruence | right].
  rewrite Ha in Hu; destruct (pprev a) as [r |] eqn:Er; [| discriminate].
  destruct (eo_prev _ _ _ (to_index m Hm p a Ha) r Er) as (c & Hc & _).
  pose proof (to_more m Hm p a r c Ha Er Hc); destruct (IH r q c b Hu Hc Hb) as [[-> ->] | Hlt]; [| lia].
  rewrite Hc in Hb; injection Hb as <-; lia.
Qed.

Lemma worse_ancestor p q a : m !! p = Some a -> descends m p q -> worse m p q = false.
Proof.
  intros Ha [k Hk]; destruct (up_exists_height m (to_index m Hm) k p a q Ha Hk) as (_ & b & Hb & _).
  destruct (worse m p q) eqn:Hw; [| reflexivity]; apply (worse_iff p q a b Ha Hb) in Hw.
  destruct (descends_work k p q a b Hk Ha Hb) as [[_ ->] | Hlt]; [| lia].
  rewrite Ha in Hb; injection Hb as <-; lia.
Qed.

(** What is no worse than a block is no worse than its ancestors. *)
Lemma worse_below p t q a b :
  m !! p = Some a -> m !! t = Some b -> descends m t q -> worse m p t = false -> worse m p q = false.
Proof.
  intros Ha Hb [k Hk] Hw; destruct (up_exists_height m (to_index m Hm) k t b q Hb Hk) as (_ & c & Hc & _).
  destruct (descends_work k t q b c Hk Hb Hc) as [[_ ->] | Hlt]; [exact Hw |].
  pose proof (worse_false p t a b Ha Hb Hw); destruct (worse m p q) eqn:E; [| reflexivity].
  apply (worse_iff p q a c Ha Hc) in E; lia.
Qed.

(** A proper ancestor is worse. *)
Lemma worse_descends p t b : m !! t = Some b -> descends m t p -> p <> t -> worse m p t = true.
Proof.
  intros Hb [k Hk] Hne; destruct (up_exists_height m (to_index m Hm) k t b p Hb Hk) as (_ & c & Hc & _).
  apply (worse_iff p t c b Hc Hb); destruct (descends_work k t p b c Hk Hb Hc) as [[_ ->] | Hlt]; [congruence | auto].
Qed.

(** ** The best candidate *)

Lemma better_of_fold l : (forall p, p ∈ l -> is_Some (m !! p)) ->
  match foldr (better_of m) None l with
  | None => l = []
  | Some p => p ∈ l /\ forall q, q ∈ l -> worse m p q = false
  end.
Proof.
  induction l as [| x l IH]; cbn; intros Hl; [reflexivity |].
  assert (Hl' : forall p, p ∈ l -> is_Some (m !! p)) by (intros p Hp; apply Hl; now right).
  specialize (IH Hl'); destruct (Hl x ltac:(now left)) as [a Ha]; destruct (foldr _ _ _) as [p |].
  - destruct IH as [Hp Hb]; destruct (Hl' p Hp) as [b Eb]; cbn; destruct (worse m p x) eqn:Hw.
    + split; [now left |]; intros q [-> | Hq]%elem_of_cons; [apply (worse_ancestor x x a Ha); now exists 0%nat |].
      destruct (Hl' q Hq) as [c Ec]; pose proof (worse_false p q b c Eb Ec (Hb q Hq)).
      apply (worse_iff p x b a Eb Ha) in Hw; destruct (worse m x q) eqn:Hx; [| reflexivity].
      apply (worse_iff x q a c Ha Ec) in Hx; lia.
    + split; [now right |]; intros q [-> | Hq]%elem_of_cons; auto.
  - subst l; cbn; split; [now left |]; intros q Hq%list_elem_of_singleton; subst q.
    apply (worse_ancestor x x a Ha); now exists 0%nat.
Qed.

Lemma best_candidate_ok s : (forall p, p ∈ s -> is_Some (m !! p)) ->
  match best_candidate m s with
  | None => s = ∅
  | Some p => p ∈ s /\ forall q, q ∈ s -> worse m p q = false
  end.
Proof.
  intros Hs; unfold best_candidate; pose proof (better_of_fold (elements s)) as Hf.
  destruct (foldr _ _ _) as [p |].
  - destruct Hf as [Hp Hb]; [intros q Hq; apply Hs; now apply elem_of_elements |].
    split; [now apply elem_of_elements |]; intros q Hq; apply Hb; now apply elem_of_elements.
  - apply leibniz_equiv, elements_empty_inv, Hf; intros q Hq; apply Hs; now apply elem_of_elements.
Qed.
End Order.
