(* ===== verification/ChainStateSpec.v ===== *)
(** * The invariant of the driver

    In every state that the driver of main.cpp reaches, the coin set of
    pcoinsTip is the one that connecting the blocks of the active chain from
    the genesis block gives, whatever branches were active before.  The proof
    uses the coin set only through the laws of [CoinsDriverOk]. *)
From stdpp Require Import gmap strings.
From S2P Require Import Prelude BlockIndex BlockIndexSpec Chain ArithUint256 ArithUint256Spec Pow PowSpec TxCheck.
From S2P Require Import ChainState ChainTree.

(** ** What the driver relies on *)

(** [represents v c h]: the view holds the coin set [c] and its best block has
    the hash [h]; [undoes]: the undo data of the block at a height leads from a
    coin set back to another. *)
Class CoinsDriverOk (V B U C : Type) `{CoinsDriver V B U} := {
  represents : V -> C -> list Z -> Prop;
  genesis_coins : C;
  apply_block : C -> Z -> B -> C;
  undoes : Z -> B -> U -> C -> C -> Prop;
  connect_ok m v p b q bq block c u v' :
    tree_ok m -> m !! p = Some b -> pprev b = Some q -> m !! q = Some bq -> nHeight b = nHeight bq + 1 ->
    represents v c (blockHash bq) -> ReadBlockFromDisk p = Some block ->
    connect_view m v p block = Ok (u, v') ->
    represents v' (apply_block c (nHeight b) block) (blockHash b) /\
    undoes (nHeight b) block u (apply_block c (nHeight b) block) c;
  disconnect_ok m v p b q bq block c c' u v' :
    tree_ok m -> m !! p = Some b -> pprev b = Some q -> m !! q = Some bq -> nHeight b = nHeight bq + 1 ->
    represents v c' (blockHash b) -> ReadBlockFromDisk p = Some block -> undoes (nHeight b) block u c' c ->
    disconnect_view m v p block u = Ok (true, v') -> represents v' c (blockHash bq);
  read_trees_ok v c h v' : represents v c h -> read_trees v = Some v' -> represents v' c h;
  flush_ok v c h v' : represents v c h -> FlushStateToDisk v = Ok v' -> represents v' c h;
}.

Lemma bind_returns {E A B} (x : res E A) (f : A -> res E B) r : (x ≫= f) = Ok r -> exists a, x = Ok a /\ f a = Ok r.
Proof. destruct x as [a | |]; [eauto | discriminate..]. Qed.

Lemma deref_ok {E} m p b : deref (E := E) m p = Ok b -> m !! p = Some b.
Proof. unfold deref; destruct (m !! p); congruence. Qed.

Lemma assert_ok {E} (x : bool) u : assert_ (E := E) x = Ok u -> x = true.
Proof. now destruct x. Qed.

Section Invariant.
Context {V B U C : Type} `{CoinsDriverOk V B U C}.
Abbreviation state := (ChainState V U).

(** ** Replaying a branch *)

Inductive replays (m : index_map) : ptr -> C -> Prop :=
| replays_genesis p b : m !! p = Some b -> pprev b = None -> replays m p genesis_coins
| replays_block p b q block c :
    m !! p = Some b -> pprev b = Some q -> ReadBlockFromDisk p = Some block -> replays m q c ->
    replays m p (apply_block c (nHeight b) block).

(** The coin set of a branch is unique. *)
Lemma replays_fun m p c c' : replays m p c -> replays m p c' -> c = c'.
Proof.
  intros R; revert c'; induction R as [p b Hp Hq | p b q block c Hp Hq Hd R IH]; intros c'; inversion 1; subst;
    try congruence; assert (b0 = b) as -> by congruence.
  assert (q0 = q) as -> by congruence; assert (block0 = block) as -> by congruence.
  f_equal; now apply IH.
Qed.

Lemma replays_place_eq m m' p c : place_eq m m' -> replays m p c -> replays m' p c.
Proof.
  intros E; induction 1 as [p b Hp Hq | p b q block c Hp Hq Hd R IH];
    destruct (place_eq_Some m m' p b E Hp) as (b' & Hb' & (_ & Ep & _ & Eh & _)%place_fields).
  - apply (replays_genesis m' p b'); [exact Hb' | congruence].
  - rewrite Eh; apply (replays_block m' p b' q block c); auto; congruence.
Qed.

Lemma replays_tree_eq m m' p c : tree_eq m m' -> replays m p c -> replays m' p c.
Proof. intros E; now apply replays_place_eq, tree_place_eq. Qed.

(** The undo data of a block leads back to the coin set of its parent. *)
Definition undo_right (m : index_map) (p : ptr) (u : U) : Prop :=
  forall b q block c, m !! p = Some b -> pprev b = Some q -> ReadBlockFromDisk p = Some block -> replays m q c ->
  undoes (nHeight b) block u (apply_block c (nHeight b) block) c.

Lemma undo_right_place_eq m m' p u : place_eq m m' -> undo_right m p u -> undo_right m' p u.
Proof.
  intros E Hu b' q block c Hp Hq Hd R; symmetry in E.
  destruct (place_eq_Some m' m p b' E Hp) as (b & Hb & (_ & Ep & _ & Eh & _)%place_fields); rewrite Eh.
  apply (Hu b q block c Hb); auto; [congruence | now apply (replays_place_eq m')].
Qed.

Lemma undo_right_tree_eq m m' p u : tree_eq m m' -> undo_right m p u -> undo_right m' p u.
Proof. intros E; now apply undo_right_place_eq, tree_place_eq. Qed.

(** ** The invariant *)

Definition linked (m : index_map) (p : ptr) : Prop := exists b, m !! p = Some b /\ nChainTx b <> 0.

Record chain_inv (st : state) (t : ptr) : Prop := {
  ci_tree : tree_ok (mapBlockIndex st);
  ci_chain : chain_to (mapBlockIndex st) (chainActive st) t;
  ci_coins : exists c b, mapBlockIndex st !! t = Some b /\ replays (mapBlockIndex st) t c /\
    represents (pcoinsTip st) c (blockHash b);
  ci_undo : forall p u, undo_files st !! p = Some u -> undo_right (mapBlockIndex st) p u;
  ci_cands : forall p, p ∈ setBlockIndexCandidates st -> linked (mapBlockIndex st) p;
  ci_invalid : forall p, pindexBestInvalid st = Some p -> is_Some (mapBlockIndex st !! p);
}.

(** Failed blocks stay failed. *)
Definition failed (m : index_map) (p : ptr) : Prop := exists b, m !! p = Some b /\ has_status b BLOCK_FAILED_MASK = true.

(** A change of statuses and the best invalid block, in which candidates may
    leave. *)
Record quiet (st st' : state) : Prop := {
  qu_tree : tree_eq (mapBlockIndex st) (mapBlockIndex st');
  qu_chain : chainActive st' = chainActive st;
  qu_view : pcoinsTip st' = pcoinsTip st;
  qu_undo : undo_files st' = undo_files st;
  qu_cands : setBlockIndexCandidates st' ⊆ setBlockIndexCandidates st;
  qu_invalid : forall p, pindexBestInvalid st' = Some p -> pindexBestInvalid st = Some p \/ is_Some (mapBlockIndex st !! p);
  qu_failed : forall p, failed (mapBlockIndex st) p -> failed (mapBlockIndex st') p;
}.

Lemma linked_tree_eq m m' p : tree_eq m m' -> linked m p -> linked m' p.
Proof.
  intros E (b & Hb & Hn); destruct (tree_eq_Some m m' p b E Hb) as (b' & Hb' & Eb).
  exists b'; split; [exact Hb' |]; pose proof (f_equal nChainTx Eb) as En; cbn in En; congruence.
Qed.

Lemma known_tree_eq m m' p : tree_eq m m' -> is_Some (m !! p) -> is_Some (m' !! p).
Proof. intros E [b Hb]; destruct (tree_eq_Some m m' p b E Hb) as (b' & -> & _); eauto. Qed.

(** What every operation but invalidating and reconsidering leaves: the tree,
    the failed blocks, no new candidates. *)
Record evolves (st st' : state) : Prop := {
  ev_tree : tree_eq (mapBlockIndex st) (mapBlockIndex st');
  ev_failed : forall p, failed (mapBlockIndex st) p -> failed (mapBlockIndex st') p;
  ev_cands : setBlockIndexCandidates st' ⊆ setBlockIndexCandidates st;
}.

#[global] Instance evolves_preorder : PreOrder evolves.
Proof.
  split; [intros st; split; auto; reflexivity |]; intros a b c [] []; split; [now transitivity (mapBlockIndex b) | auto | set_solver].
Qed.

Lemma quiet_evolves st st' : quiet st st' -> evolves st st'.
Proof. intros []; now split. Qed.

#[global] Instance quiet_preorder : PreOrder quiet.
Proof.
  split.
  - intros st; split; auto; reflexivity.
  - intros a b c [T1 C1 V1 U1 S1 I1 F1] [T2 C2 V2 U2 S2 I2 F2].
    split; [now transitivity (mapBlockIndex b) | congruence | congruence | congruence | set_solver | | auto]; symmetry in T1.
    intros p Hp; destruct (I2 p Hp) as [Hb | Hl]; [auto | right; now apply (known_tree_eq (mapBlockIndex b))].
Qed.

(** The invariant looks at the tree, and not at the statuses. *)
Lemma shape_inv st st' t :
  tree_eq (mapBlockIndex st) (mapBlockIndex st') -> chainActive st' = chainActive st -> pcoinsTip st' = pcoinsTip st ->
  undo_files st' = undo_files st -> setBlockIndexCandidates st' ⊆ setBlockIndexCandidates st ->
  (forall p, pindexBestInvalid st' = Some p -> pindexBestInvalid st = Some p \/ is_Some (mapBlockIndex st !! p)) ->
  chain_inv st t -> chain_inv st' t.
Proof.
  intros T Ec Ev Eu Hs Hi [Ht Hc (c & b & Hb & R & Hr) Hu Hca Hin]; split; rewrite ?Ec, ?Ev, ?Eu.
  - now apply (tree_ok_tree_eq (mapBlockIndex st)).
  - now apply (chain_to_tree_eq (mapBlockIndex st)).
  - destruct (tree_eq_Some _ _ t b T Hb) as (b' & Hb' & Eb); pose proof (f_equal blockHash Eb) as Eh; cbn in Eh.
    exists c, b'; split; [exact Hb' |]; split; [now apply (replays_tree_eq (mapBlockIndex st)) | congruence].
  - intros p u Hp; apply (undo_right_tree_eq (mapBlockIndex st)); auto.
  - intros p Hp; apply (linked_tree_eq (mapBlockIndex st)); [exact T | auto].
  - intros p Hp; apply (known_tree_eq (mapBlockIndex st)); [exact T |]; destruct (Hi p Hp); auto.
Qed.

Lemma quiet_inv st st' t : quiet st st' -> chain_inv st t -> chain_inv st' t.
Proof. intros []; now apply shape_inv. Qed.

Lemma chain_inv_Tip st t : chain_inv st t -> Tip (chainActive st) = Some t.
Proof.
  intros [Ht (b & Hb & Hl & Hu) _ _ _ _]; pose proof (eo_height _ _ _ (to_index _ Ht t b Hb)).
  unfold Tip; rewrite (proj2 (Z.ltb_lt 0 (zlen (chainActive st)))) by (unfold zlen; lia); rewrite Hl.
  apply nth_lookup_vchain; rewrite Hu by lia; now replace (_ - _)%nat with 0%nat by lia.
Qed.

(** The parent of a block that has one. *)
Lemma parent m p b q :
  tree_ok m -> m !! p = Some b -> pprev b = Some q -> exists c, m !! q = Some c /\ nHeight b = nHeight c + 1.
Proof.
  intros Hm Hp Hq; destruct (eo_prev _ _ _ (to_index m Hm p b Hp) q Hq) as (c & Hc & Hh); exists c; split; [exact Hc | lia].
Qed.

(** ** Changes that are quiet *)

Lemma failed_or_status m p f q : failed m q -> failed (or_status m p f) q.
Proof.
  intros (b & Hb & Hf); unfold or_status, failed; destruct (decide (q = p)) as [-> | Hne].
  - rewrite lookup_alter_eq, Hb; eexists; split; [reflexivity |]; unfold has_status in *; cbn.
    rewrite Z.land_lor_distr_l; apply negb_true_iff, Z.eqb_neq; apply negb_true_iff, Z.eqb_neq in Hf.
    intros E; apply Z.lor_eq_0_iff in E as [E _]; contradiction.
  - rewrite lookup_alter_ne by congruence; eauto.
Qed.

Lemma quiet_or_status st p f : quiet st (set_index st (or_status (mapBlockIndex st) p f)).
Proof. split; cbn; auto using failed_or_status; apply tree_eq_or_status. Qed.

Lemma quiet_erase st p : quiet st (erase_candidate st p).
Proof. split; cbn; auto; [reflexivity |]; intros q [Hq _]%elem_of_difference; exact Hq. Qed.

Lemma quiet_unlinked st l : quiet st (set_unlinked st l).
Proof. split; cbn; auto; reflexivity. Qed.

Lemma quiet_raise st p b st' :
  mapBlockIndex st !! p = Some b -> raise_best_invalid st p b = Ok st' -> quiet st st'.
Proof.
  intros Hp; unfold raise_best_invalid; destruct (pindexBestInvalid st) as [q |] eqn:Eq.
  - intros (c & Hc & E)%bind_returns; injection E as <-; destruct (a_gt _ _); [| reflexivity].
    split; cbn; auto; [reflexivity |]; intros r [= <-]; right; eauto.
  - intros [= <-]; split; cbn; auto; [reflexivity |]; intros r [= <-]; right; eauto.
Qed.

Lemma quiet_InvalidChainFound st p st' : InvalidChainFound st p = Ok st' -> quiet st st'.
Proof.
  intros (b & Hb%deref_ok & (st1 & H1 & (u & _ & E)%bind_returns)%bind_returns)%bind_returns; injection E as <-.
  now apply (quiet_raise st p b).
Qed.

Lemma quiet_InvalidBlockFound st p vs st' : InvalidBlockFound st p vs = Ok st' -> quiet st st'.
Proof.
  unfold InvalidBlockFound; destruct (corruptionPossible vs); [now intros [= <-] |].
  intros E%quiet_InvalidChainFound; etransitivity; [apply quiet_or_status |]; etransitivity; [apply quiet_erase | exact E].
Qed.

Lemma quiet_Prune st st' : PruneBlockIndexCandidates st = Ok st' -> quiet st st'.
Proof.
  unfold PruneBlockIndexCandidates; destruct (Tip _) as [t |]; [| discriminate].
  intros (u & _ & E)%bind_returns; injection E as <-; split; cbn; auto; [reflexivity |]; intros q [_ Hq]%elem_of_filter; exact Hq.
Qed.

Lemma quiet_remove_chain fuel : forall st f pt pf st', remove_chain fuel st f pt pf = Ok st' -> quiet st st'.
Proof.
  induction fuel as [| fuel IH]; intros st f pt pf st'; cbn [remove_chain];
    (case_bool_decide; [now intros [= <-] |]); intros (b & Hb & E)%bind_returns; destruct (pprev b) as [q |]; try discriminate.
  etransitivity; [| eapply IH, E]; etransitivity; [| apply quiet_erase].
  destruct f; [apply quiet_or_status | apply quiet_unlinked].
Qed.

Lemma quiet_most_work fuel : forall st r st', most_work_loop fuel st = Ok (r, st') -> quiet st st'.
Proof.
  induction fuel as [| fuel IH]; intros st r st'; cbn [most_work_loop];
    (destruct (best_candidate _ _) as [p |]; [| now intros [= <- <-]]);
    intros (b & Hb%deref_ok & (bad & _ & E)%bind_returns)%bind_returns; (destruct bad as [[pt f] |]; [| now injection E as <- <-]);
    apply bind_returns in E as (st1 & E1 & (st2 & E2%quiet_remove_chain & E)%bind_returns); try discriminate.
  apply IH in E; assert (Q1 : quiet st st1) by (destruct f; [now apply (quiet_raise st p b) | now injection E1 as <-]).
  etransitivity; [exact Q1 |]; etransitivity; [exact E2 |]; etransitivity; [apply quiet_erase | exact E].
Qed.

(** ** Moving the tip *)

(** All but the active chain and the view is as before. *)
Record moved (st st' : state) : Prop := {
  mv_index : mapBlockIndex st' = mapBlockIndex st;
  mv_cands : setBlockIndexCandidates st' = setBlockIndexCandidates st;
  mv_invalid : pindexBestInvalid st' = pindexBestInvalid st;
  mv_undo : undo_files st' = undo_files st;
}.

Lemma moved_inv st st' t t' b c :
  moved st st' -> chain_inv st t -> chain_to (mapBlockIndex st) (chainActive st') t' ->
  mapBlockIndex st !! t' = Some b -> replays (mapBlockIndex st) t' c -> represents (pcoinsTip st') c (blockHash b) ->
  chain_inv st' t'.
Proof. intros [Em Es Ei Eu] [] Hc Hb R Hr; split; rewrite ?Em, ?Es, ?Ei, ?Eu; eauto. Qed.

Lemma UpdateTip_ok st t p b st' :
  chain_inv st t -> mapBlockIndex st !! p = Some b -> UpdateTip st (Some p) = Ok st' ->
  moved st st' /\ pcoinsTip st' = pcoinsTip st /\ chain_to (mapBlockIndex st) (chainActive st') p.
Proof.
  intros Hi Hp; unfold UpdateTip.
  destruct (SetTip_ok (mapBlockIndex st) (chainActive st) p b) as (c & -> & Hc & _);
    [apply (ci_tree _ _ Hi) | right; exists t; apply (ci_chain _ _ Hi) | exact Hp |].
  intros [= <-]; split; [now split |]; split; [reflexivity | exact Hc].
Qed.

Lemma chain_inv_view st t v c b :
  chain_inv st t -> mapBlockIndex st !! t = Some b -> replays (mapBlockIndex st) t c -> represents v c (blockHash b) ->
  chain_inv (set_view st v) t.
Proof. intros Hi Hb R Hr; apply (moved_inv st _ t t b c); auto; [now split | apply Hi]. Qed.

Lemma DisconnectTip_ok vs st t ok vs' st' :
  chain_inv st t -> DisconnectTip vs st = Ok (ok, vs', st') ->
  if ok then vs' = vs /\ moved st st' /\ exists b q, mapBlockIndex st !! t = Some b /\ pprev b = Some q /\ chain_inv st' q
  else mode vs' = MODE_ERROR \/ st' = st.
Proof.
  intros Hi; unfold DisconnectTip; rewrite (chain_inv_Tip st t Hi).
  intros (b & Hb%deref_ok & E)%bind_returns; revert E.
  destruct (ReadBlockFromDisk t) as [block |] eqn:Ed; [| intros [= <- <- <-]; now left].
  case_bool_decide; [intros [= <- <- <-]; now right |].
  destruct (has_status b BLOCK_HAVE_UNDO); [| intros [= <- <- <-]; now right].
  destruct (undo_files st !! t) as [u |] eqn:Eu; [| intros [= <- <- <-]; now right].
  destruct (disconnect_view _ _ t block u) as [[[] v] | |] eqn:Ev; try discriminate; try (intros [= <- <- <-]; now right).
  destruct (FlushStateToDisk v) as [v2 | |] eqn:Ef; try discriminate; [| intros [= <- <- <-]; now left].
  intros (st1 & E1 & E)%bind_returns; unfold UpdateTip in E1.
  destruct (pprev b) as [q |] eqn:Eq; [| apply bind_returns in E1 as (? & _ & E1); discriminate].
  destruct (ci_coins _ _ Hi) as (c & b' & Hb' & R & Hr); assert (b' = b) as -> by congruence.
  destruct (parent _ t b q (ci_tree _ _ Hi) Hb Eq) as (bq & Hq & Hh).
  inversion R as [p0 b0 Hp0 Hn | p0 b0 q0 block0 c0 Hp0 Hq0 Hd0 R0]; subst; [congruence |].
  assert (b0 = b) as -> by congruence; assert (q0 = q) as -> by congruence; assert (block0 = block) as -> by congruence.
  pose proof (ci_undo _ _ Hi t u Eu b q block c0 Hb Eq Ed R0) as Hu.
  pose proof (disconnect_ok _ _ t b q bq block c0 _ u v (ci_tree _ _ Hi) Hb Eq Hq Hh Hr Ed Hu Ev) as Hv.
  pose proof (flush_ok _ _ _ _ Hv Ef) as Hv2.
  destruct (SetTip_ok (mapBlockIndex st) (chainActive st) q bq) as (cc & Es & Hcc & _);
    [apply (ci_tree _ _ Hi) | right; exists t; apply (ci_chain _ _ Hi) | exact Hq |].
  cbn [mapBlockIndex set_view chainActive] in E1; rewrite Es in E1; injection E1 as <-; revert E; cbn [pcoinsTip set_chain set_view].
  destruct (read_trees v2) as [v3 |] eqn:Et; [| discriminate]; intros [= <- <- <-].
  split; [reflexivity |]; split; [now split |]; exists b, q; split; [exact Hb |]; split; [exact Eq |].
  apply (moved_inv st _ t q bq c0); [now split | exact Hi | exact Hcc | exact Hq | exact R0 |]; cbn; eapply read_trees_ok; eassumption.
Qed.

Lemma has_lor_failed s f : Z.land f BLOCK_FAILED_MASK = 0 -> Z.land (Z.lor s f) BLOCK_FAILED_MASK = Z.land s BLOCK_FAILED_MASK.
Proof. intros E; now rewrite Z.land_lor_distr_l, E, Z.lor_0_r. Qed.

(** What connecting writes to the entry and the undo files. *)
Lemma record_undo_ok (st : state) p b u (st' : state) :
  mapBlockIndex st !! p = Some b -> record_undo st p b u = Ok st' ->
  tree_eq (mapBlockIndex st) (mapBlockIndex st') /\ (forall q, failed (mapBlockIndex st) q -> failed (mapBlockIndex st') q) /\
  (undo_files st' = undo_files st \/ undo_files st' = <[p := u]> (undo_files st)) /\
  chainActive st' = chainActive st /\ pcoinsTip st' = pcoinsTip st /\
  setBlockIndexCandidates st' = setBlockIndexCandidates st /\ pindexBestInvalid st' = pindexBestInvalid st.
Proof.
  intros Hp (valid & _ & E)%bind_returns; revert E; destruct (negb _ || negb _); [| intros [= <-]; repeat split; auto].
  set (b1 := if negb (has_status b BLOCK_HAVE_UNDO) then set_nStatus b (Z.lor (nStatus b) BLOCK_HAVE_UNDO) else b).
  set (st1 := if negb (has_status b BLOCK_HAVE_UNDO) then set_undo st (<[p := u]> (undo_files st)) else st).
  intros E; assert (E' : ('(_, b2) ← RaiseValidity b1 BLOCK_VALID_SCRIPTS; Ok (set_index st1 (<[p := b2]> (mapBlockIndex st1)))) = Ok st')
    by (unfold b1, st1; destruct (negb _); exact E); clear E.
  apply bind_returns in E' as ([f b2] & Er & E); injection E as <-.
  assert (E1 : strip b = strip b1) by (unfold b1; now destruct (negb _)).
  assert (F1 : has_status b1 BLOCK_FAILED_MASK = has_status b BLOCK_FAILED_MASK).
  { unfold b1, has_status; destruct (negb _); [cbn; now rewrite has_lor_failed | reflexivity]. }
  assert (E2 : strip b1 = strip b2 /\ (has_status b1 BLOCK_FAILED_MASK = true -> b2 = b1)).
  { unfold RaiseValidity in Er; apply bind_returns in Er as (? & _ & Er); revert Er; fold (has_status b1 BLOCK_FAILED_MASK).
    destruct (has_status b1 BLOCK_FAILED_MASK); [intros [= _ <-]; auto |].
    destruct (_ <? _); intros [= _ <-]; split; auto; discriminate. }
  assert (Em : mapBlockIndex st1 = mapBlockIndex st) by (unfold st1; now destruct (negb _)).
  cbn [set_index mapBlockIndex undo_files chainActive pcoinsTip setBlockIndexCandidates pindexBestInvalid]; rewrite Em.
  split; [apply (tree_eq_insert _ p b); [exact Hp | destruct E2; congruence] |].
  split; [| unfold st1; destruct (negb _); cbn; auto 10].
  intros q (bq & Hq & Hf); unfold failed; destruct (decide (q = p)) as [-> | Hne].
  - rewrite lookup_insert_eq; exists b2; split; [reflexivity |]; assert (bq = b) as -> by congruence.
    rewrite (proj2 E2); congruence.
  - rewrite lookup_insert_ne by congruence; eauto.
Qed.

Lemma moved_evolves st st' : moved st st' -> evolves st st'.
Proof. intros [Em Es _ _]; split; rewrite ?Em, ?Es; auto; reflexivity. Qed.

Lemma record_undo_inv st t p b q c block u st' :
  chain_inv st t -> mapBlockIndex st !! p = Some b -> pprev b = Some q -> ReadBlockFromDisk p = Some block ->
  replays (mapBlockIndex st) q c -> undoes (nHeight b) block u (apply_block c (nHeight b) block) c ->
  record_undo st p b u = Ok st' -> chain_inv st' t /\ evolves st st'.
Proof.
  intros Hi Hp Hq Hd R Hu E; destruct (record_undo_ok st p b u st' Hp E) as (T & F & Eu & Ec & Ev & Es & Eb).
  split; [| split; [exact T | exact F | now rewrite Es]].
  apply (quiet_inv (set_undo st (undo_files st'))); [split; cbn; auto; [now rewrite Es | intros r Hr; left; congruence] |].
  destruct Hi as [Ht Hc Hco Hun Hca Hin]; split; cbn; auto; intros r x Hr.
  destruct Eu as [Eu | Eu]; rewrite Eu in Hr; [now apply Hun |]; destruct (decide (r = p)) as [-> | Hne].
  - rewrite lookup_insert_eq in Hr; injection Hr as <-; intros b' q' block' c' Hp' Hq' Hd' R'.
    assert (b' = b) as -> by congruence; assert (q' = q) as -> by congruence; assert (block' = block) as -> by congruence.
    now rewrite (replays_fun _ _ _ _ R' R).
  - rewrite lookup_insert_ne in Hr by congruence; auto.
Qed.

(** The block that a caller passes along is the one on disk. *)
Definition same_block (p : ptr) (pblock : option B) : Prop :=
  forall block, pblock = Some block -> ReadBlockFromDisk p = Some block.

Lemma ConnectTip_ok vs st t p pblock ok vs' st' :
  chain_inv st t -> same_block p pblock -> ConnectTip vs st p pblock = Ok (ok, vs', st') ->
  if ok then vs' = vs /\ chain_inv st' p /\ evolves st st' /\ setBlockIndexCandidates st' = setBlockIndexCandidates st /\
    exists b, mapBlockIndex st !! p = Some b /\ pprev b = Some t
  else mode vs' = MODE_ERROR \/
    (chain_inv st' t /\ evolves st st' /\
     (mode vs' = MODE_INVALID -> mode vs <> MODE_INVALID -> corruptionPossible vs' = false -> failed (mapBlockIndex st') p)).
Proof.
  intros Hi Hpb; intros (b & Hb%deref_ok & (x & Ha%assert_ok & E)%bind_returns)%bind_returns; revert E.
  apply bool_decide_eq_true in Ha; rewrite (chain_inv_Tip st t Hi) in Ha.
  assert (Hd : forall block, (match pblock with Some block => Some block | None => ReadBlockFromDisk p end) = Some block ->
    ReadBlockFromDisk p = Some block) by (intros block; destruct pblock; auto).
  destruct (match pblock with Some block => Some block | None => ReadBlockFromDisk p end) as [block |];
    [specialize (Hd block eq_refl) | intros [= <- <- <-]; now left].
  destruct (read_trees (pcoinsTip st)) as [v |] eqn:Et; [| discriminate].
  destruct (ci_coins _ _ Hi) as (c & bt & Hbt & R & Hr).
  destruct (parent _ p b t (ci_tree _ _ Hi) Hb Ha) as (bq & Hq & Hh); assert (bq = bt) as -> by congruence.
  pose proof (read_trees_ok _ _ _ _ Hr Et) as Hr1; pose proof (chain_inv_view st t v c bt Hi Hbt R Hr1) as Hi1.
  assert (E1 : evolves st (set_view st v)) by (split; cbn; auto; reflexivity).
  cbv zeta; destruct (connect_view (mapBlockIndex (set_view st v)) v p block) as [[u v1] | [r cor | [reason |]] | x'] eqn:Ec; try discriminate.
  - destruct (connect_ok _ v p b t bt block c u v1 (ci_tree _ _ Hi1) Hb Ha Hbt Hh Hr1 Hd Ec) as [Hr2 Hu].
    intros (st1 & E2 & E)%bind_returns.
    destruct (record_undo_inv (set_view st v) t p b t c block u st1 Hi1 Hb Ha Hd R Hu E2) as [Hi2 Ev2].
    pose proof (record_undo_ok (set_view st v) p b u st1 Hb E2) as (T & _ & _ & _ & _ & Es & _).
    revert E; destruct (FlushStateToDisk v1) as [v2 | |] eqn:Ef; try discriminate; [| intros [= <- <- <-]; now left].
    destruct (tree_eq_Some _ _ p b T Hb) as (b' & Hb' & Eb); intros (st2 & E3 & E)%bind_returns; injection E as <- <- <-.
    assert (Rp : replays (mapBlockIndex st1) p (apply_block c (nHeight b) block))
      by (apply (replays_tree_eq (mapBlockIndex st)); [exact T | now apply (replays_block _ p b t block c)]).
    assert (Hr3 : represents v2 (apply_block c (nHeight b) block) (blockHash b'))
      by (pose proof (f_equal blockHash Eb) as Eh; cbn in Eh; rewrite <- Eh; eapply flush_ok; eassumption).
    unfold UpdateTip in E3; cbn [mapBlockIndex chainActive set_view] in E3.
    destruct (SetTip_ok (mapBlockIndex st1) (chainActive st1) p b') as (cc & Esc & Hcc & _);
      [apply (ci_tree _ _ Hi2) | right; exists t; apply (ci_chain _ _ Hi2) | exact Hb' |].
    rewrite Esc in E3; injection E3 as <-; split; [reflexivity |]; split; [| split; [| split; [exact Es | eauto]]].
    + apply (moved_inv st1 _ t p b' (apply_block c (nHeight b) block)); auto; now split.
    + etransitivity; [exact E1 |]; etransitivity; [exact Ev2 |]; split; cbn; auto; reflexivity.
  - intros E; destruct (mode (state_DoS vs _ _ _ cor)) eqn:Em.
    1, 3: injection E as <- <- <-; right; split; [exact Hi1 |]; split; [exact E1 | intros Hx; congruence].
    apply bind_returns in E as (st1 & E2 & E); injection E as <- <- <-; right.
    pose proof (quiet_InvalidBlockFound _ p _ st1 E2) as Q; split; [now apply (quiet_inv (set_view st v)) |].
    split; [etransitivity; [exact E1 | now apply quiet_evolves] |]; intros _ _ Hcor.
    unfold InvalidBlockFound in E2; rewrite Hcor in E2; apply quiet_InvalidChainFound in E2.
    apply (qu_failed _ _ E2); cbn; unfold failed, or_status; rewrite lookup_alter_eq, Hb; cbn.
    eexists; split; [reflexivity |]; unfold has_status; cbn; rewrite Z.land_lor_distr_l; apply negb_true_iff, Z.eqb_neq.
    intros Hz; apply Z.lor_eq_0_iff in Hz as [_ Hz]; discriminate.
  - intros [= <- <- <-]; now left.
  - intros [= <- <- <-]; right; split; [exact Hi1 |]; split; [exact E1 | intros Hx Hy; contradiction].
Qed.

(** ** The candidates are no worse than the tip *)

Definition cands_best (st : state) (t : ptr) : Prop :=
  forall p, p ∈ setBlockIndexCandidates st -> worse (mapBlockIndex st) p t = false.

Record driver_inv (st : state) (t : ptr) : Prop := { di_chain : chain_inv st t; di_best : cands_best st t }.

Lemma quiet_driver_inv st st' t : quiet st st' -> driver_inv st t -> driver_inv st' t.
Proof.
  intros Q [Hi Hb]; split; [now apply (quiet_inv st) |]; intros p Hp.
  rewrite <- (worse_tree_eq (mapBlockIndex st)) by apply Q; apply Hb, (qu_cands _ _ Q), Hp.
Qed.

(** After a change that keeps the tip, the candidates are as good as before. *)
Lemma evolves_best st st' t : evolves st st' -> cands_best st t -> cands_best st' t.
Proof.
  intros E Hb p Hp; rewrite <- (worse_tree_eq (mapBlockIndex st)) by apply E; apply Hb, (ev_cands _ _ E), Hp.
Qed.

Lemma DisconnectTip_inv vs st t ok vs' st' :
  driver_inv st t -> DisconnectTip vs st = Ok (ok, vs', st') ->
  if ok then vs' = vs /\ moved st st' /\ exists b q, mapBlockIndex st !! t = Some b /\ pprev b = Some q /\ driver_inv st' q
  else mode vs' = MODE_ERROR \/ st' = st.
Proof.
  intros [Hi Hb] Hd; pose proof (DisconnectTip_ok vs st t ok vs' st' Hi Hd) as Hr; destruct ok; [| exact Hr].
  destruct Hr as (Hv & M & b & q & Ht & Hq & Hi'); split; [exact Hv |]; split; [exact M |]; exists b, q.
  split; [exact Ht |]; split; [exact Hq |]; split; [exact Hi' |]; intros p Hp.
  rewrite (mv_index _ _ M); rewrite (mv_cands _ _ M) in Hp; destruct (ci_cands _ _ Hi p Hp) as (a & Ha & _).
  apply (worse_below _ (ci_tree _ _ Hi) p t q a b); auto; exists 1%nat; cbn; now rewrite Ht, Hq.
Qed.

Lemma Prune_best st t st' : chain_inv st t -> PruneBlockIndexCandidates st = Ok st' -> driver_inv st' t.
Proof.
  intros Hi E; pose proof (quiet_Prune st st' E) as Q; split; [now apply (quiet_inv st) |]; revert E.
  unfold PruneBlockIndexCandidates; rewrite (chain_inv_Tip st t Hi); intros (u & _ & E)%bind_returns; injection E as <-.
  now intros p [Hp _]%elem_of_filter.
Qed.

(** ** The loops *)

#[global] Instance moved_preorder : PreOrder moved.
Proof. split; [intros st; now split | intros a b c [] []; split; congruence]. Qed.

Lemma disconnect_to_ok fuel : forall vs st t fork ok vs' st',
  driver_inv st t -> disconnect_to fuel vs st fork = Ok (ok, vs', st') ->
  if ok then vs' = vs /\ moved st st' /\ exists f, fork = Some f /\ driver_inv st' f
  else mode vs' = MODE_ERROR \/ exists t', driver_inv st' t' /\ moved st st'.
Proof.
  induction fuel as [| fuel IH]; intros vs st t fork ok vs' st' Hi; cbn [disconnect_to];
    rewrite (chain_inv_Tip st t (di_chain _ _ Hi));
    (case_bool_decide as Ef; [intros [= <- <- <-]; split; [reflexivity |]; split; [reflexivity |]; eauto |]);
    intros ([[ok1 vs1] st1] & Ed & E)%bind_returns; pose proof (DisconnectTip_inv vs st t ok1 vs1 st1 Hi Ed) as Hd;
    (destruct ok1; cbn [negb] in E; [| injection E as <- <- <-; destruct Hd as [Hd | ->]; [now left | right; exists t; now split]]);
    [discriminate |].
  destruct Hd as (-> & M1 & b & q & _ & _ & Hi1); specialize (IH vs st1 q fork ok vs' st' Hi1 E); destruct ok.
  - destruct IH as (Hv & M2 & Hf); split; [exact Hv |]; split; [now transitivity st1 | exact Hf].
  - destruct IH as [He | (t' & Hi2 & M2)]; [now left |]; right; exists t'; split; [exact Hi2 | now transitivity st1].
Qed.

Lemma connect_batch_ok old mostWork pblock back ps : same_block mostWork pblock -> forall vs st t r vs' st',
  driver_inv st t -> connect_batch vs st old mostWork pblock back ps = Ok (r, vs', st') ->
  (r = BatchFailed /\ mode vs' = MODE_ERROR) \/ exists t', driver_inv st' t' /\ evolves st st'.
Proof.
  intros Hb; induction ps as [| p ps IH]; intros vs st t r vs' st' Hi; cbn [connect_batch].
  { intros [= <- <- <-]; right; exists t; split; [exact Hi | reflexivity]. }
  intros ([[ok vs1] st1] & Ec & E)%bind_returns.
  assert (Hsb : same_block p (if bool_decide (p = mostWork) then pblock else None))
    by (case_bool_decide; [subst p; exact Hb | intros block; discriminate]).
  pose proof (ConnectTip_ok _ _ _ _ _ _ _ _ (di_chain _ _ Hi) Hsb Ec) as Hc; destruct ok; cbn [negb] in E.
  - destruct Hc as (-> & Hi1 & Ev1 & _); apply bind_returns in E as (st2 & Ep & E); pose proof (Prune_best _ _ _ Hi1 Ep) as Hi2.
    assert (Ev2 : evolves st st2) by (etransitivity; [exact Ev1 | now apply quiet_evolves, quiet_Prune]).
    rewrite (chain_inv_Tip _ _ (di_chain _ _ Hi2)) in E; apply bind_returns in E as (better & _ & E); destruct better.
    + injection E as <- <- <-; eauto.
    + destruct (IH _ _ _ _ _ _ Hi2 E) as [He | (t' & Hi3 & Ev3)]; [now left |]; right; exists t'; split; [exact Hi3 | now transitivity st2].
  - assert (Hk : mode vs1 = MODE_ERROR \/ (driver_inv st1 t /\ evolves st st1)).
    { destruct Hc as [He | (Hi1 & Ev1 & _)]; [now left | right; split; [| exact Ev1]].
      split; [exact Hi1 | now apply (evolves_best st); [| apply (di_best _ _ Hi)]]. }
    destruct (mode vs1) eqn:Em.
    1, 3: injection E as <- <- <-; destruct Hk as [He | [Hi1 Ev1]]; [left; split; [reflexivity | congruence] | eauto].
    apply bind_returns in E as (st2 & Ex & E); injection E as <- <- <-; right; destruct Hk as [He | [Hi1 Ev1]]; [discriminate |].
    assert (Q : quiet st1 st2) by (destruct (corruptionPossible vs1); [now injection Ex as <- | now apply quiet_InvalidChainFound in Ex]).
    exists t; split; [now apply (quiet_driver_inv st1) | etransitivity; [exact Ev1 | now apply quiet_evolves]].
Qed.

Lemma connect_to_ok old mostWork pblock fuel : same_block mostWork pblock -> forall vs st t h r vs' st',
  driver_inv st t -> connect_to fuel vs st old mostWork pblock h = Ok (r, vs', st') ->
  (r = BatchFailed /\ mode vs' = MODE_ERROR) \/ exists t', driver_inv st' t' /\ evolves st st'.
Proof.
  intros Hb; induction fuel as [| fuel IH]; intros vs st t h r vs' st' Hi; cbn [connect_to]; intros (b & _ & E)%bind_returns;
    (destruct (h =? nHeight b); [injection E as <- <- <-; right; exists t; split; [exact Hi | reflexivity] |]);
    apply bind_returns in E as (top & _ & (ps & _ & ([[r1 vs1] st1] & Ec & E)%bind_returns)%bind_returns);
    pose proof (connect_batch_ok _ _ _ _ _ Hb _ _ _ _ _ _ Hi Ec) as Hc; destruct r1;
    try discriminate; try (injection E as <- <- <-; exact Hc).
  destruct Hc as [[He _] | (t1 & Hi1 & Ev1)]; [discriminate |].
  destruct (IH _ _ _ _ _ _ _ Hi1 E) as [He | (t2 & Hi2 & Ev2)]; [now left |]; right; exists t2; split; [exact Hi2 | now transitivity st1].
Qed.

(** ** The entry points *)

(** What an operation leaves: a state of the invariant over the same tree, unless
    the node is aborting. *)
Definition sound (st : state) (r : bool * CValidationState * state) : Prop :=
  (r.1.1 = false /\ mode r.1.2 = MODE_ERROR) \/ exists t, driver_inv r.2 t /\ tree_eq (mapBlockIndex st) (mapBlockIndex r.2).

Lemma sound_trans st st1 r : tree_eq (mapBlockIndex st) (mapBlockIndex st1) -> sound st1 r -> sound st r.
Proof. intros T [He | (t & Hi & T')]; [now left |]; right; exists t; split; [exact Hi | now transitivity (mapBlockIndex st1)]. Qed.

Lemma invalidate_loop_ok fuel : forall vs st t p ok vs' st',
  driver_inv st t -> invalidate_loop fuel vs st p = Ok (ok, vs', st') ->
  (ok = false /\ mode vs' = MODE_ERROR) \/ exists t, driver_inv st' t /\ tree_eq (mapBlockIndex st) (mapBlockIndex st').
Proof.
  induction fuel as [| fuel IH]; intros vs st t p ok vs' st' Hi; cbn [invalidate_loop]; intros (inside & _ & E)%bind_returns;
    (destruct inside; cbn [negb] in E; [| injection E as <- <- <-; right; exists t; split; [exact Hi | reflexivity]]);
    rewrite (chain_inv_Tip st t (di_chain _ _ Hi)) in E; apply bind_returns in E as ([[ok1 vs1] st1] & Ed & E);
    match type of Ed with DisconnectTip _ ?s = _ =>
      assert (Q : quiet st s) by (etransitivity; [apply quiet_or_status | apply quiet_erase]) end;
    pose proof (quiet_driver_inv _ _ _ Q Hi) as Hi1; pose proof (DisconnectTip_inv _ _ _ _ _ _ Hi1 Ed) as Hd;
    pose proof (qu_tree _ _ Q) as T; destruct ok1; cbn [negb] in E; try discriminate.
  1, 3: injection E as <- <- <-; destruct Hd as [He | ->]; [now left | right; eauto].
  destruct Hd as (-> & M & b & q & _ & _ & Hi2).
  destruct (IH _ _ _ _ _ _ _ Hi2 E) as [He | (t' & Hi3 & T3)]; [now left |]; right; exists t'; split; [exact Hi3 |].
  rewrite (mv_index _ _ M) in T3; etransitivity; [exact T | exact T3].
Qed.

Lemma eligible_ok m t p : p ∈ dom (base.filter (fun e => eligible m t e.1 e.2 = true) m) -> linked m p /\ worse m p t = false.
Proof.
  intros (b & Hb)%elem_of_dom; apply map_lookup_filter_Some in Hb as [Hb He]; cbn in He; unfold eligible in He.
  apply andb_prop in He as [He Hw]; apply andb_prop in He as [_ He]; apply negb_true_iff in Hw.
  split; [exists b; split; [exact Hb |]; now apply negb_true_iff, Z.eqb_neq in He | exact Hw].
Qed.

Lemma driver_inv_candidates st t s :
  driver_inv st t -> (forall p, p ∈ s -> linked (mapBlockIndex st) p /\ worse (mapBlockIndex st) p t = false) ->
  driver_inv (set_candidates st (setBlockIndexCandidates st ∪ s)) t.
Proof.
  intros [[] Hb] Hs; split; [split; cbn; auto |]; intros p Hp; cbn in Hp; apply elem_of_union in Hp as [Hp | Hp]; auto; now apply Hs.
Qed.

Lemma InvalidateBlock_ok vs st t p r : driver_inv st t -> InvalidateBlock vs st p = Ok r -> sound st r.
Proof.
  intros Hi; unfold InvalidateBlock; cbv zeta; intros ([[ok1 vs1] st1] & El & E)%bind_returns.
  match type of El with invalidate_loop _ _ ?s _ = _ =>
    assert (Q : quiet st s) by (etransitivity; [apply quiet_or_status | apply quiet_erase]) end.
  pose proof (invalidate_loop_ok _ _ _ _ _ _ _ _ (quiet_driver_inv _ _ _ Q Hi) El) as Hl; apply (sound_trans st _ _ (qu_tree _ _ Q)).
  destruct ok1; cbn [negb] in E.
  - destruct Hl as [[He _] | (t1 & Hi1 & T1)]; [discriminate |]; rewrite (chain_inv_Tip st1 t1 (di_chain _ _ Hi1)) in E.
    apply bind_returns in E as (st2 & E2%quiet_InvalidChainFound & E); injection E as <-; right; exists t1; cbn [snd].
    split; [| etransitivity; [exact T1 | exact (qu_tree _ _ E2)]].
    eapply quiet_driver_inv; [exact E2 |]; apply driver_inv_candidates; [exact Hi1 | intros q Hq; now apply eligible_ok].
  - injection E as <-; destruct Hl as [[_ He] | (t1 & Hi1 & T1)]; [now left | right; eauto].
Qed.

(** A block outside the active chain is invalidated without touching the chain. *)
Lemma InvalidateBlock_outside vs st t p r :
  driver_inv st t -> is_Some (mapBlockIndex st !! p) -> ~ descends (mapBlockIndex st) t p ->
  InvalidateBlock vs st p = Ok r -> r.1.2 = vs.
Proof.
  intros [Hi _] [b Hb] Hn; unfold InvalidateBlock; cbv zeta; intros ([[ok1 vs1] st1] & El & E)%bind_returns.
  match type of El with invalidate_loop _ _ ?s _ = _ =>
    assert (Q : quiet st s) by (etransitivity; [apply quiet_or_status | apply quiet_erase]); set (s0 := s) in * end.
  assert (El' : ok1 = true /\ vs1 = vs).
  { destruct (ci_chain _ _ (quiet_inv _ _ _ Q Hi)) as (bt & Ht & Hl & Hu).
    destruct (tree_eq_Some _ _ p b (qu_tree _ _ Q) Hb) as (b' & Hb' & _).
    destruct (Contains_iff _ (to_index _ (ci_tree _ _ (quiet_inv _ _ _ Q Hi))) _ t bt Ht Hl Hu (E := unit) p b' Hb') as (c & Hc & Hd).
    destruct (length _) in El; cbn [invalidate_loop] in El; rewrite Hc in El; cbn [mbind res_bind] in El;
      (destruct c; [exfalso; apply Hn, (descends_tree_eq (mapBlockIndex s0)); [symmetry; apply Q | now apply Hd] |]);
      cbn [negb] in El; injection El as <- <- _; auto. }
  destruct El' as [-> ->]; cbn [negb] in E; destruct (Tip _); [| discriminate].
  apply bind_returns in E as (st2 & _ & E); now injection E as <-.
Qed.

Lemma ActivateBestChainStep_ok fSkip vs st t mostWork pblock r :
  driver_inv st t -> same_block mostWork pblock -> is_Some (mapBlockIndex st !! mostWork) ->
  ~ descends (mapBlockIndex st) t mostWork ->
  ActivateBestChainStep fSkip vs st mostWork pblock = Ok r -> sound st r.
Proof.
  intros Hi Hb Hk Hn; unfold ActivateBestChainStep; cbv zeta; intros (fork & _ & (refused & _ & E)%bind_returns)%bind_returns; destruct refused.
  { destruct (negb _); [discriminate |]; apply bind_returns in E as ([[ok1 vs1] st1] & Ei & E); injection E as <-.
    pose proof (InvalidateBlock_outside _ _ _ _ _ Hi Hk Hn Ei) as Hv; cbn in Hv; subst vs1.
    destruct (InvalidateBlock_ok _ _ _ _ _ Hi Ei) as [[_ He] | Hs]; [discriminate | now right]. }
  apply bind_returns in E as (fh & _ & (len & _ & (u & _ & E)%bind_returns)%bind_returns); revert E.
  destruct (_ <? len); [destruct fork; [intros [= <-]; right; exists t; split; [exact Hi | reflexivity] | discriminate] |].
  intros ([[ok1 vs1] st1] & Ed & E)%bind_returns; pose proof (disconnect_to_ok _ _ _ _ _ _ _ _ Hi Ed) as Hd.
  destruct ok1; cbn [negb] in E.
  - destruct Hd as (-> & M & f & _ & Hi1); apply bind_returns in E as (b & _ & ([[r1 vs2] st2] & Ec & E)%bind_returns).
    apply (sound_trans st st1); [now rewrite (mv_index _ _ M) |].
    destruct (connect_to_ok _ _ _ _ Hb _ _ _ _ _ _ _ Hi1 Ec) as [[-> He] | (t2 & Hi2 & Ev2)]; [injection E as <-; now left |].
    assert (Hs : forall b', sound st1 (b', vs2, st2)) by (intros b'; right; exists t2; split; [exact Hi2 | apply Ev2]).
    rewrite (chain_inv_Tip _ _ (di_chain _ _ Hi2)) in E; destruct r1; injection E as <-; apply Hs.
  - injection E as <-; destruct Hd as [He | (t' & Hi1 & M)]; [now left |]; right; exists t'; split; [exact Hi1 |].
    cbn; now rewrite (mv_index _ _ M).
Qed.

(** ** Choosing and activating the chain with the most work *)

Lemma most_work_best fuel : forall (st : state) p (st' : state),
  most_work_loop fuel st = Ok (Some p, st') -> best_candidate (mapBlockIndex st') (setBlockIndexCandidates st') = Some p.
Proof.
  induction fuel as [| fuel IH]; intros st p st'; cbn [most_work_loop];
    (destruct (best_candidate _ _) as [q |] eqn:Eb; [| discriminate]);
    intros (b & _ & (bad & _ & E)%bind_returns)%bind_returns; (destruct bad as [[pt f] |]; [| now injection E as <- <-]);
    apply bind_returns in E as (st1 & _ & (st2 & _ & E)%bind_returns); [discriminate | now apply IH in E].
Qed.

(** The block chosen is a candidate, none is better, and unless it is the tip it
    is not in the active chain. *)
Lemma FindMostWorkChain_Some st t p st' :
  driver_inv st t -> FindMostWorkChain st = Ok (Some p, st') ->
  quiet st st' /\ driver_inv st' t /\ p ∈ setBlockIndexCandidates st' /\
  (forall q, q ∈ setBlockIndexCandidates st' -> worse (mapBlockIndex st') p q = false) /\
  (p <> t -> ~ descends (mapBlockIndex st') t p).
Proof.
  intros Hi E; pose proof (quiet_most_work _ _ _ _ E) as Q; pose proof (quiet_driver_inv _ _ _ Q Hi) as Hi'.
  pose proof (di_chain _ _ Hi') as Hc; split; [exact Q |]; split; [exact Hi' |].
  pose proof (best_candidate_ok _ (ci_tree _ _ Hc) (setBlockIndexCandidates st')) as Hb.
  rewrite (most_work_best _ _ _ _ E) in Hb; destruct Hb as [Hp Hq].
  { intros q Hq; destruct (ci_cands _ _ Hc q Hq) as (b & Hb & _); eauto. }
  split; [exact Hp |]; split; [exact Hq |]; intros Hne Hd; destruct (ci_coins _ _ Hc) as (c & b & Hb & _).
  pose proof (worse_descends _ (ci_tree _ _ Hc) p t b Hb Hd Hne) as Hw; pose proof (di_best _ _ Hi' p Hp); congruence.
Qed.

(** The block that is passed along is the one on disk for its hash. *)
Definition block_known (m : index_map) (pblock : option (list Z * B)) : Prop := forall p, same_block p (block_for m p pblock).

Lemma block_known_tree_eq m m' pblock : tree_eq m m' -> block_known m pblock -> block_known m' pblock.
Proof.
  intros T Hk p block; unfold block_for; destruct pblock as [[h blk] |]; [| discriminate].
  destruct (m' !! p) as [b' |] eqn:Hb'; [| discriminate]; symmetry in T; destruct (tree_eq_Some _ _ p b' T Hb') as (b & Hb & Eb).
  pose proof (f_equal blockHash Eb) as Eh; cbn in Eh; rewrite Eh; intros E; apply (Hk p); unfold block_for; now rewrite Hb.
Qed.

Lemma activate_loop_ok fSkip pblock fuel : forall vs st t r,
  driver_inv st t -> block_known (mapBlockIndex st) pblock -> activate_loop fuel fSkip vs st pblock = Ok r -> sound st r.
Proof.
  induction fuel as [| fuel IH]; intros vs st t r Hi Hk; cbn [activate_loop]; intros ([mw st1] & Ef & E)%bind_returns;
    (destruct mw as [p |]; [| injection E as <-; right; exists t; pose proof (quiet_most_work _ _ _ _ Ef) as Q;
       split; [exact (quiet_driver_inv _ _ _ Q Hi) | apply Q]]);
    destruct (FindMostWorkChain_Some st t p st1 Hi Ef) as (Q & Hi1 & Hp & _ & Hn);
    (apply (sound_trans st st1); [apply Q |]); revert E;
    (case_bool_decide as Et; [intros [= <-]; right; exists t; split; [exact Hi1 | reflexivity] |]);
    rewrite (chain_inv_Tip _ _ (di_chain _ _ Hi1)) in Et; intros ([[ok1 vs1] st2] & Es & E)%bind_returns;
    pose proof (block_known_tree_eq _ _ pblock (qu_tree _ _ Q) Hk) as Hk1;
    (assert (Hs : sound st1 (ok1, vs1, st2)) by (eapply ActivateBestChainStep_ok; [exact Hi1 | apply Hk1 | | apply Hn; congruence | exact Es];
       destruct (ci_cands _ _ (di_chain _ _ Hi1) p Hp) as (b & Hb & _); eauto));
    (destruct ok1; cbn [negb] in E; [| injection E as <-; exact Hs]);
    (destruct Hs as [[He _] | (t2 & Hi2 & T2)]; [discriminate |]); cbn [snd] in Hi2, T2; revert E.
  1, 2: case_bool_decide; [| try discriminate].
  1, 2: destruct (ci_coins _ _ (di_chain _ _ Hi2)) as (c & b & Hb & R & Hr).
  1, 2: destruct (FlushStateToDisk _) as [v | |] eqn:Efl; try discriminate; [| intros [= <-]; now left].
  1, 2: intros [= <-]; right; exists t2; split; [| exact T2].
  1, 2: split; [exact (chain_inv_view _ _ _ _ _ (di_chain _ _ Hi2) Hb R (flush_ok _ _ _ _ Hr Efl)) | apply (di_best _ _ Hi2)].
  intros E; apply (sound_trans st1 st2); [exact T2 |]; eapply IH; [exact Hi2 | | exact E].
  now apply (block_known_tree_eq (mapBlockIndex st1)).
Qed.

(** ** Reconsidering *)

Lemma clear_ancestors_ok fuel : forall m p m', clear_ancestors fuel m p = Ok m' -> tree_eq m m'.
Proof.
  induction fuel as [| fuel IH]; intros m [p |] m'; cbn [clear_ancestors]; try (now intros [= <-]);
    intros (b & Hb%deref_ok & E)%bind_returns; [discriminate |]; apply IH in E; etransitivity; [| exact E].
  destruct (has_status _ _); [now apply (tree_eq_insert m p b) | reflexivity].
Qed.

Lemma ReconsiderBlock_ok vs st t p r : driver_inv st t -> ReconsiderBlock vs st p = Ok r -> sound st r.
Proof.
  intros Hi; unfold ReconsiderBlock; intros (b & Hb%deref_ok & E)%bind_returns; rewrite (chain_inv_Tip _ _ (di_chain _ _ Hi)) in E.
  cbv zeta in E; apply bind_returns in E as (m' & Ec%clear_ancestors_ok & E); injection E as <-; right; exists t; cbn [snd].
  set (m1 := map_imap _ _) in *; assert (T1 : tree_eq (mapBlockIndex st) m1).
  { intros q; unfold m1; rewrite map_lookup_imap; destruct (mapBlockIndex st !! q) as [c |]; [| reflexivity].
    cbn; now destruct (reconsidered _ _ _ _ _). }
  assert (T : tree_eq (mapBlockIndex st) m') by now transitivity m1.
  assert (Hi1 : driver_inv (set_best_invalid (set_index st m')
    (match pindexBestInvalid st with
     | Some q => match mapBlockIndex st !! q with
                 | Some c => if reconsidered (mapBlockIndex st) p (nHeight b) q c then None else Some q
                 | None => Some q end
     | None => None end)) t).
  { split.
    - apply (shape_inv st); cbn; auto; [| apply Hi].
      intros q Hq; left; destruct (pindexBestInvalid st) as [r |]; [| discriminate].
      destruct (mapBlockIndex st !! r); [destruct (reconsidered _ _ _ _ _); [discriminate |] |]; congruence.
    - intros q Hq; cbn; rewrite <- (worse_tree_eq (mapBlockIndex st)) by exact T; now apply (di_best _ _ Hi). }
  split; [| exact T]; refine (driver_inv_candidates _ t _ Hi1 _); cbn; intros q (c & Hc)%elem_of_dom.
  apply map_lookup_filter_Some in Hc as [Hc He]; cbn in He; apply andb_prop in He as [He Hw]; apply andb_prop in He as [_ He].
  apply negb_true_iff, Z.eqb_neq in He; split; [apply (linked_tree_eq (mapBlockIndex st)); [exact T | now exists c] |].
  destruct (ci_coins _ _ (di_chain _ _ Hi)) as (_ & bt & Hbt & _); pose proof (ci_tree _ _ (di_chain _ _ Hi)) as Ht.
  rewrite <- (worse_tree_eq (mapBlockIndex st)) by exact T; rewrite <- (worse_tree_eq (mapBlockIndex st)) in Hw by exact T1.
  apply (worse_iff _ Ht t q bt c Hbt Hc) in Hw; destruct (worse _ q t) eqn:Ew; [| reflexivity].
  apply (worse_iff _ Ht q t c bt Hc Hbt) in Ew; lia.
Qed.

(** ** Reachable states *)

(** The operations that the node performs on the chain, from a fresh validation
    state, as long as it is not aborting. *)
Inductive driver_step (st : state) : state -> Prop :=
| step_activate fSkip pblock ok vs st' :
    block_known (mapBlockIndex st) pblock -> ActivateBestChain fSkip new_state st pblock = Ok (ok, vs, st') ->
    mode vs <> MODE_ERROR -> driver_step st st'
| step_invalidate p ok vs st' :
    InvalidateBlock new_state st p = Ok (ok, vs, st') -> mode vs <> MODE_ERROR -> driver_step st st'
| step_reconsider p ok vs st' :
    ReconsiderBlock new_state st p = Ok (ok, vs, st') -> mode vs <> MODE_ERROR -> driver_step st st'.

Lemma sound_step st ok vs st' :
  sound st (ok, vs, st') -> mode vs <> MODE_ERROR -> exists t, driver_inv st' t /\ tree_eq (mapBlockIndex st) (mapBlockIndex st').
Proof. now intros [[_ He] | Hs] Hm. Qed.

Lemma driver_step_inv st t st' :
  driver_inv st t -> driver_step st st' -> exists t', driver_inv st' t' /\ tree_eq (mapBlockIndex st) (mapBlockIndex st').
Proof.
  intros Hi [fSkip pblock ok vs st1 Hk E Hm | p ok vs st1 E Hm | p ok vs st1 E Hm]; eapply sound_step; try exact Hm.
  - eapply activate_loop_ok; eassumption.
  - eapply InvalidateBlock_ok; eassumption.
  - eapply ReconsiderBlock_ok; eassumption.
Qed.

Lemma reachable_inv st st' : rtc driver_step st st' -> forall t,
  driver_inv st t -> exists t', driver_inv st' t' /\ tree_eq (mapBlockIndex st) (mapBlockIndex st').
Proof.
  induction 1 as [st | st st1 st2 Hs _ IH]; intros t Hi; [exists t; split; [exact Hi | reflexivity] |].
  destruct (driver_step_inv st t st1 Hi Hs) as (t1 & Hi1 & T1); destruct (IH t1 Hi1) as (t2 & Hi2 & T2).
  exists t2; split; [exact Hi2 | now transitivity (mapBlockIndex st1)].
Qed.

(** States with the same tip, whatever led to them. *)
Lemma path_independent (st : state) (t : ptr) (st1 st2 : state) :
  driver_inv st t -> rtc driver_step st st1 -> rtc driver_step st st2 ->
  Tip (chainActive st1) = Tip (chainActive st2) ->
  exists t' b c, Tip (chainActive st1) = Some t' /\ mapBlockIndex st !! t' = Some b /\
    chain_to (mapBlockIndex st) (chainActive st1) t' /\ chain_to (mapBlockIndex st) (chainActive st2) t' /\
    replays (mapBlockIndex st) t' c /\
    represents (pcoinsTip st1) c (blockHash b) /\ represents (pcoinsTip st2) c (blockHash b).
Proof.
  intros Hi R1 R2 Et; destruct (reachable_inv st st1 R1 t Hi) as (t1 & [Hi1 _] & T1).
  destruct (reachable_inv st st2 R2 t Hi) as (t2 & [Hi2 _] & T2); symmetry in T1, T2.
  rewrite (chain_inv_Tip _ _ Hi1), (chain_inv_Tip _ _ Hi2) in Et; injection Et as <-.
  destruct (ci_coins _ _ Hi1) as (c1 & b1 & Hb1 & Hc1 & Hr1), (ci_coins _ _ Hi2) as (c2 & b2 & Hb2 & Hc2 & Hr2).
  destruct (tree_eq_Some _ _ t1 b1 T1 Hb1) as (b & Hb & E1), (tree_eq_Some _ _ t1 b2 T2 Hb2) as (b' & Hb' & E2).
  assert (b' = b) as -> by congruence; apply (replays_tree_eq _ _ _ _ T1) in Hc1; apply (replays_tree_eq _ _ _ _ T2) in Hc2.
  rewrite (replays_fun _ _ _ _ Hc2 Hc1) in Hr2; pose proof (f_equal blockHash E1) as H1; pose proof (f_equal blockHash E2) as H2.
  cbn in H1, H2; exists t1, b, c1; rewrite <- H1 at 1; rewrite <- H2.
  split; [exact (chain_inv_Tip _ _ Hi1) |]; split; [exact Hb |].
  split; [exact (chain_to_tree_eq _ _ _ _ T1 (ci_chain _ _ Hi1)) |].
  split; [exact (chain_to_tree_eq _ _ _ _ T2 (ci_chain _ _ Hi2)) |]; auto.
Qed.
End Invariant.

(** ** A driver over a log of blocks

    The coin set is the list of the blocks connected; block 13 is refused. *)
Module Example_driver.

Definition log_view : Type := list Z * list Z.

Definition log_connect (m : index_map) (v : log_view) (p : ptr) (block : Z) : res connect_error (Z * log_view) :=
  match m !! p with
  | Some b =>
      if block =? 13 then Err (Rejected (mkReject 100 REJECT_INVALID "bad-block") false)
      else Ok (block, (v.1 ++ [block], blockHash b))
  | None => Exn oob_read
  end.

Definition log_disconnect (m : index_map) (v : log_view) (p : ptr) (block undo : Z) : res string (bool * log_view) :=
  match (m !! p ≫= pprev) ≫= (fun q => m !! q) with
  | Some c => Ok (true, (take (length v.1 - 1) v.1, blockHash c))
  | None => Exn oob_read
  end.

#[global] Instance log_driver : CoinsDriver log_view Z Z := {
  ReadBlockFromDisk p := Some (Z.of_nat p + 10);
  connect_view := log_connect;
  disconnect_view := log_disconnect;
  read_trees := Some;
  FlushStateToDisk := Ok;
  komodo_notarized_height _ := (0, [0; 1]);
  MAX_REORG_LENGTH := 9;
}.

#[global] Instance log_driver_ok : CoinsDriverOk log_view Z Z (list Z).
Proof.
  refine {|
    represents v c h := v = (c, h);
    genesis_coins := [];
    apply_block c _ block := c ++ [block];
    undoes _ block u c' c := c' = c ++ [block];
  |}.
  - intros m v p b q bq block c u v' _ Hp _ _ _ -> _; cbn; unfold log_connect; rewrite Hp.
    destruct (block =? 13); [discriminate |]; now intros [= <- <-].
  - intros m v p b q bq block c c' u v' _ Hp Hq Hb _ -> _ ->; cbn; unfold log_disconnect; rewrite Hp; cbn; rewrite Hq; cbn.
    rewrite Hb; intros [= <-]; rewrite length_app; cbn; now rewrite Nat.add_sub, take_app_length.
  - now intros v c h v' -> [= <-].
  - now intros v c h v' -> [= <-].
Defined.

(** Two blocks over the genesis block, the refused block and a block with more
    work beside them. *)
Definition entry (prev : option ptr) (height amount : Z) : CBlockIndex :=
  mkBlockIndex [height; amount] prev None height 0 0 (arith_u64 amount)
    (Z.lor BLOCK_VALID_TRANSACTIONS BLOCK_HAVE_DATA) 1 (height + 1) 0.

Definition tree : index_map :=
  list_to_map [(0%nat, entry None 0 1); (1%nat, entry (Some 0%nat) 1 2); (2%nat, entry (Some 1%nat) 2 3);
    (3%nat, entry (Some 0%nat) 1 4); (4%nat, entry (Some 0%nat) 1 5)].

Definition start : ChainState log_view Z :=
  mkChain tree [Some 0%nat] {[0%nat; 2%nat; 3%nat; 4%nat]} [] None ([], [0; 1]) ∅.

Lemma tree_entries p b : tree !! p = Some b ->
  (p = 0%nat /\ b = entry None 0 1) \/ (p = 1%nat /\ b = entry (Some 0%nat) 1 2) \/ (p = 2%nat /\ b = entry (Some 1%nat) 2 3) \/
  (p = 3%nat /\ b = entry (Some 0%nat) 1 4) \/ (p = 4%nat /\ b = entry (Some 0%nat) 1 5).
Proof.
  intros Hp; apply elem_of_list_to_map_2 in Hp; rewrite !elem_of_cons, elem_of_nil in Hp.
  destruct Hp as [[= -> ->] | [[= -> ->] | [[= -> ->] | [[= -> ->] | [[= -> ->] | []]]]]]; auto 10.
Qed.

Ltac each_entry Hp := destruct (tree_entries _ _ Hp) as [[-> ->] | [[-> ->] | [[-> ->] | [[-> ->] | [-> ->]]]]].

Lemma tree_good : tree_ok tree.
Proof.
  split.
  - intros p b Hp; each_entry Hp; split; cbn; try discriminate; try lia; intros q [= <-]; eexists; split; reflexivity.
  - intros p b Hp; each_entry Hp; apply arith_u64_ok.
  - intros p b q c Hp Hq Hc; each_entry Hp; cbn in Hq; try discriminate; injection Hq as <-; injection Hc as <-; vm_compute; reflexivity.
  - intros p b q c Hp _ Hq Hc; each_entry Hp; cbn in Hq; try discriminate; injection Hq as <-; injection Hc as <-; discriminate.
  - intros p q b c Hp Hq; each_entry Hp; each_entry Hq; first [reflexivity | discriminate].
  - intros p b Hp; each_entry Hp; split; try discriminate; reflexivity.
Qed.

Lemma start_inv : driver_inv start 0%nat.
Proof.
  split; [split |].
  - exact tree_good.
  - exists (entry None 0 1); split; [reflexivity |]; split; [reflexivity |]; intros [| i] Hi; [reflexivity | cbn in Hi; lia].
  - exists genesis_coins, (entry None 0 1); split; [reflexivity |]; split; [| reflexivity].
    now apply (replays_genesis _ 0%nat (entry None 0 1)).
  - intros p u; cbn; now rewrite lookup_empty.
  - intros p Hp; cbn in Hp; repeat apply elem_of_union in Hp as [Hp | Hp]; apply elem_of_singleton in Hp as ->; eexists; split; try reflexivity; discriminate.
  - discriminate.
  - intros p Hp; cbn in Hp; repeat apply elem_of_union in Hp as [Hp | Hp]; apply elem_of_singleton in Hp as ->; vm_compute; reflexivity.
Qed.

Definition result (st : ChainState log_view Z) (r : res unit (bool * CValidationState * ChainState log_view Z)) : ChainState log_view Z :=
  match r with Ok (_, _, st') => st' | _ => st end.

Definition activate st := result st (ActivateBestChain false new_state st None).
Definition invalidate st p := result st (InvalidateBlock new_state st p).
Definition reconsider st p := result st (ReconsiderBlock new_state st p).

Definition direct := activate start.
Definition detour := activate (reconsider (activate (invalidate start 4)) 4).

Lemma known m : block_known (B := Z) m None.
Proof. intros p block; discriminate. Qed.

(** On the detour the refused block fails, and the two blocks are active before
    the invalidated one is reconsidered. *)
Example detour_passes :
  let st := activate (invalidate start 4) in
  chainActive st = [Some 0%nat; Some 1%nat; Some 2%nat] /\ pcoinsTip st = ([11; 12], [2; 3]) /\
  (fun b => has_status b BLOCK_FAILED_VALID) <$> mapBlockIndex st !! 3%nat = Some true /\
  undo_files detour !! 2%nat = Some 12 /\ pcoinsTip detour = ([14], [1; 5]).
Proof. vm_compute; auto. Qed.

Lemma direct_run : rtc driver_step start direct.
Proof.
  apply rtc_once, (step_activate _ false None true new_state); [apply known | vm_compute; reflexivity | discriminate].
Qed.

Lemma detour_run : rtc driver_step start detour.
Proof.
  eapply rtc_l; [apply (step_invalidate _ 4 true new_state (invalidate start 4)); [vm_compute; reflexivity | discriminate] |].
  eapply rtc_l; [apply (step_activate _ false None true new_state (activate (invalidate start 4)));
    [apply known | vm_compute; reflexivity | discriminate] |].
  eapply rtc_l; [apply (step_reconsider _ 4 true new_state (reconsider (activate (invalidate start 4)) 4));
    [vm_compute; reflexivity | discriminate] |].
  apply rtc_once, (step_activate _ false None true new_state); [apply known | vm_compute; reflexivity | discriminate].
Qed.
End Example_driver.
