(* ===== verification/BlockTreeSpec.v ===== *)
(** * Headers and blocks arrive: theorems

    The tree of headers stays well-formed and the best header has the most work;
    whatever the order in which blocks arrive, a block is linked exactly when it
    and all blocks below it have their data. *)
From stdpp Require Import gmap strings.
From S2P Require Import Prelude Hashing Merkle BlockIndex BlockIndexSpec Chain ArithUint256 ArithUint256Spec Pow PowSpec TxCheck.
From S2P Require Import Compact Endian Serialize Transaction Interest Subsidy Connect.
From S2P Require Import ChainState BlockCheck BlockCheckSpec BlockTree ChainTree ChainStateSpec.

(** ** Transactions up to a block *)

Fixpoint txs_up (m : index_map) (fuel : nat) (p : ptr) : Z :=
  match fuel, m !! p with
  | S fuel, Some b => nTx b + match pprev b with Some q => txs_up m fuel q | None => 0 end
  | _, _ => 0
  end.

Definition chain_txs (m : index_map) (p : ptr) : Z :=
  match m !! p with Some b => txs_up m (S (Z.to_nat (nHeight b))) p | None => 0 end.

Lemma chain_txs_step m p b : index_ok m -> m !! p = Some b ->
  chain_txs m p = nTx b + match pprev b with Some q => chain_txs m q | None => 0 end.
Proof.
  intros Hm Hp; unfold chain_txs; rewrite Hp; cbn [txs_up]; rewrite Hp; f_equal; destruct (pprev b) as [q |] eqn:Eq; [| reflexivity].
  destruct (eo_prev _ _ _ (Hm p b Hp) q Eq) as (c & Hc & Hh); rewrite Hc.
  pose proof (eo_height _ _ _ (Hm q c Hc)); replace (Z.to_nat (nHeight b)) with (S (Z.to_nat (nHeight c))) by lia; cbn [txs_up]; now rewrite Hc.
Qed.

(** ** Trees that differ in what is linked *)

Definition unlink (b : CBlockIndex) : CBlockIndex := set_counts b (nTx b) 0 0.

Definition data_eq (m m' : index_map) : Prop := forall p, unlink <$> m !! p = unlink <$> m' !! p.

#[global] Instance data_eq_equivalence : Equivalence data_eq.
Proof. split; [now intros m p | now intros m m' E p | intros a b c E1 E2 p; now rewrite E1]. Qed.

Lemma data_eq_Some m m' p b : data_eq m m' -> m !! p = Some b -> exists b', m' !! p = Some b' /\ unlink b = unlink b'.
Proof.
  intros E Hp; specialize (E p); rewrite Hp in E; cbn in E; destruct (m' !! p) as [b' |]; [| discriminate].
  exists b'; split; [reflexivity | cbn in E; congruence].
Qed.

Lemma data_eq_None m m' p : data_eq m m' -> m !! p = None -> m' !! p = None.
Proof. intros E Hp; specialize (E p); rewrite Hp in E; now destruct (m' !! p). Qed.

Lemma data_place_eq m m' : data_eq m m' -> place_eq m m'.
Proof.
  intros E p; specialize (E p); destruct (m !! p) as [b |], (m' !! p) as [b' |]; cbn in *; try congruence.
  apply (inj Some) in E; f_equal; change (place (unlink b) = place (unlink b')); now rewrite E.
Qed.

Lemma unlink_fields b b' : unlink b = unlink b' -> nTx b = nTx b' /\ pprev b = pprev b' /\ nHeight b = nHeight b' /\ nStatus b = nStatus b'.
Proof. now injection 1. Qed.

(** What the counts depend on. *)
Definition tx_place (b : CBlockIndex) : Z * option ptr * Z := (nTx b, pprev b, nHeight b).

Lemma chain_txs_same m m' p : (forall q, tx_place <$> m !! q = tx_place <$> m' !! q) -> chain_txs m p = chain_txs m' p.
Proof.
  intros E; assert (Ef : forall fuel q, txs_up m fuel q = txs_up m' fuel q).
  { induction fuel as [| fuel IH]; intros q; cbn [txs_up]; [reflexivity |]; specialize (E q).
    destruct (m !! q) as [b |], (m' !! q) as [b' |]; cbn in E; try discriminate; [| reflexivity].
    injection E as -> -> _; destruct (pprev b'); [now rewrite IH | reflexivity]. }
  unfold chain_txs; specialize (E p); destruct (m !! p) as [b |], (m' !! p) as [b' |]; cbn in E; try discriminate; [| reflexivity].
  injection E as _ _ ->; apply Ef.
Qed.

Lemma chain_txs_data_eq m m' p : data_eq m m' -> chain_txs m p = chain_txs m' p.
Proof.
  intros E; apply chain_txs_same; intros q; specialize (E q); destruct (m !! q), (m' !! q); cbn in *; try congruence.
  apply (inj Some) in E; injection E; unfold tx_place; congruence.
Qed.

Lemma chain_txs_tree_eq m m' p : tree_eq m m' -> chain_txs m p = chain_txs m' p.
Proof.
  intros E; apply chain_txs_same; intros q; specialize (E q); destruct (m !! q), (m' !! q); cbn in *; try congruence.
  apply (inj Some) in E; injection E; unfold tx_place; congruence.
Qed.

(** ** What is linked *)

Definition has_data (m : index_map) (p : ptr) : Prop := exists b, m !! p = Some b /\ nTx b <> 0.

(** The block and all blocks below it have their data. *)
Definition complete (m : index_map) (p : ptr) : Prop := is_Some (m !! p) /\ forall q, descends m p q -> has_data m q.

(** [queue] is about to be linked; the pairs of [waiting] are those of
    mapBlocksUnlinked. *)
Record link_inv (m : index_map) (waiting : list (ptr * ptr)) (queue : list ptr) : Prop := {
  li_txs : forall p b, m !! p = Some b -> 0 <= nTx b;
  li_linked : forall p b, m !! p = Some b -> nChainTx b <> 0 -> nTx b <> 0 /\ nChainTx b = chain_txs m p;
  li_queue : forall p, p ∈ queue -> exists b, m !! p = Some b /\ nTx b <> 0 /\ nChainTx b = 0 /\
    forall q, pprev b = Some q -> linked m q;
  li_waiting : forall q p, (q, p) ∈ waiting -> exists b, m !! p = Some b /\ pprev b = Some q /\ nTx b <> 0 /\
    nChainTx b = 0 /\ ~ linked m q;
  li_once : base.NoDup (queue ++ map snd waiting);
}.

#[global] Instance linked_decision m p : Decision (linked m p).
Proof.
  unfold linked; destruct (m !! p) as [b |]; [| right; now intros (b & ? & _)].
  destruct (decide (nChainTx b = 0)) as [E | E]; [right; intros (b' & [= <-] & Hn); contradiction | left; now exists b].
Defined.

(** A block that has its data and is neither linked nor waiting for its parent. *)
Definition forgotten (m : index_map) (waiting : list (ptr * ptr)) (p : ptr) : Prop :=
  exists b, m !! p = Some b /\ nTx b <> 0 /\ nChainTx b = 0 /\ p ∉ map snd waiting.

(** No block with data is forgotten but those of [F]. *)
Definition all_wait (F : ptr -> Prop) (m : index_map) (waiting : list (ptr * ptr)) (queue : list ptr) : Prop :=
  forall p b, m !! p = Some b -> nTx b <> 0 -> nChainTx b = 0 -> p ∈ queue ++ map snd waiting \/ F p.

Lemma all_wait_forgotten m w : all_wait (forgotten m w) m w [].
Proof.
  intros p b Hp Hx Hn; destruct (decide (p ∈ map snd w)) as [Hin | Hnin]; [left; exact Hin | right; now exists b].
Qed.

Lemma forgotten_among F m w p : all_wait F m w [] -> forgotten m w p -> F p.
Proof. intros A (b & Hp & Hx & Hn & Hw); now destruct (A p b Hp Hx Hn). Qed.

(** The blocks below a linked one are linked. *)
Lemma linked_below m p q : tree_ok m -> linked m p -> descends m p q -> linked m q.
Proof.
  intros Hm (b & Hp & Hn) [k Hk]; revert p b Hp Hn Hk; induction k as [| k IH]; intros p b Hp Hn Hk; cbn [up] in Hk.
  - injection Hk as <-; now exists b.
  - rewrite Hp in Hk; destruct (pprev b) as [r |] eqn:Er; [| discriminate]; destruct (parent m p b r Hm Hp Er) as (c & Hc & _).
    apply (IH r c); auto; apply (to_linked m Hm p b r c); auto.
Qed.

Lemma linked_complete m w p : tree_ok m -> link_inv m w [] -> linked m p -> complete m p.
Proof.
  intros Hm L Hl; split; [destruct Hl as (b & Hp & _); eauto |]; intros q Hq.
  destruct (linked_below m p q Hm Hl Hq) as (b & Hb & Hn); exists b; split; [exact Hb | apply (li_linked _ _ _ L q b Hb Hn)].
Qed.

Lemma complete_linked F m w p : tree_ok m -> link_inv m w [] -> all_wait F m w [] ->
  complete m p -> (forall q, descends m p q -> ~ F q) -> linked m p.
Proof.
  intros Hm L A [[b Hp] Hc] HF; remember (Z.to_nat (nHeight b)) as h eqn:Eh; revert p b Hp Hc HF Eh; induction h as [h IH] using lt_wf_ind; intros p b Hp Hc HF ->.
  assert (Hself : descends m p p) by now exists 0%nat.
  destruct (Hc p Hself) as (b' & Hb' & Hx); assert (b' = b) as -> by congruence.
  destruct (decide (nChainTx b = 0)) as [E |]; [| now exists b].
  destruct (A p b Hp Hx E) as [Hin | Hin]; [| now destruct (HF p Hself)]; cbn in Hin; apply list_elem_of_fmap in Hin as ([q p'] & E' & Hin); cbn in E'; subst p'.
  destruct (li_waiting _ _ _ L q p Hin) as (b' & Hb'' & Hq & _ & _ & Hnl); assert (b' = b) as -> by congruence.
  destruct (parent m p b q Hm Hp Hq) as (c & Hqc & Hh); destruct Hnl.
  pose proof (eo_height _ _ _ (to_index m Hm q c Hqc)).
  assert (Hup : forall r, descends m q r -> descends m p r) by (intros r [k Hk]; exists (S k); cbn [up]; now rewrite Hp, Hq).
  apply (IH (Z.to_nat (nHeight c)) ltac:(lia) q c Hqc); auto.
Qed.

Lemma txs_up_nonneg m : (forall p b, m !! p = Some b -> 0 <= nTx b) -> forall fuel p, 0 <= txs_up m fuel p.
Proof.
  intros Hx; induction fuel as [| fuel IH]; intros p; cbn [txs_up]; [lia |]; destruct (m !! p) as [b |] eqn:Hp; [| lia].
  pose proof (Hx p b Hp); destruct (pprev b) as [q |]; [pose proof (IH q) |]; lia.
Qed.

Lemma chain_txs_nonneg m w Q p : link_inv m w Q -> 0 <= chain_txs m p.
Proof. intros L; unfold chain_txs; destruct (m !! p) as [c |]; [apply txs_up_nonneg, L | lia]. Qed.

(** One block of the queue is linked. *)
Section LinkEntry.
Context (m : index_map) (Hm : tree_ok m) (w : list (ptr * ptr)) (p : ptr) (Q : list ptr) (L : link_inv m w (p :: Q)).
Context (b : CBlockIndex) (Hp : m !! p = Some b) (Hsize : chain_txs m p < 2 ^ 32) (seq : Z).

Let m' : index_map := <[p := set_counts b (nTx b) (chain_txs m p) seq]> m.

Lemma queue_head : nTx b <> 0 /\ nChainTx b = 0 /\ forall q, pprev b = Some q -> linked m q.
Proof. destruct (li_queue _ _ _ L p ltac:(now left)) as (b' & Hb & Hr); now assert (b' = b) as -> by congruence. Qed.

Lemma chain_txs_pos : 0 < chain_txs m p.
Proof.
  pose proof (li_txs _ _ _ L p b Hp); destruct queue_head as [Hx _]; rewrite (chain_txs_step m p b (to_index m Hm) Hp).
  destruct (pprev b) as [q |]; [| lia].
  assert (0 <= chain_txs m q); [| lia].
  unfold chain_txs; destruct (m !! q) as [c |]; [apply txs_up_nonneg, L | lia].
Qed.

(** The number that the loop computes from the parent's. *)
Lemma counted_below : u32 (match pprev b with Some q => match m !! q with Some c => nChainTx c | None => 0 end | None => 0 end + nTx b) = chain_txs m p.
Proof.
  pose proof chain_txs_pos as H0; pose proof (chain_txs_step m p b (to_index m Hm) Hp) as E; destruct queue_head as (_ & _ & Hq).
  assert (E' : match pprev b with Some q => match m !! q with Some c => nChainTx c | None => 0 end | None => 0 end
    = match pprev b with Some q => chain_txs m q | None => 0 end).
  { destruct (pprev b) as [q |]; [| reflexivity]; destruct (Hq q eq_refl) as (c & Hc & Hn); rewrite Hc; apply (li_linked _ _ _ L q c Hc Hn). }
  rewrite E', Z.add_comm, <- E; apply Z.mod_small; lia.
Qed.

Lemma link_data_eq : data_eq m m'.
Proof.
  intros q; unfold m'; destruct (decide (q = p)) as [-> | Hne]; [now rewrite lookup_insert_eq, Hp | now rewrite lookup_insert_ne by congruence].
Qed.

Lemma link_data_eq' : data_eq m' m.
Proof. symmetry; apply link_data_eq. Qed.

Lemma link_linked q : linked m' q <-> q = p \/ linked m q.
Proof.
  unfold linked, m'; destruct (decide (q = p)) as [-> | Hne].
  - rewrite lookup_insert_eq; split; [auto |]; intros _; eexists; split; [reflexivity |]; cbn; pose proof chain_txs_pos; lia.
  - rewrite lookup_insert_ne by congruence; tauto.
Qed.

Lemma link_tree_ok : tree_ok m'.
Proof.
  apply (tree_ok_place_eq m); [apply data_place_eq, link_data_eq | | exact Hm].
  intros q d r c Hq Hd Hr Hc; assert (Hl : linked m' r); [| destruct Hl as (c' & Hc' & Hn); congruence].
  apply link_linked; right; unfold m' in Hq; destruct (decide (q = p)) as [-> | Hne].
  - rewrite lookup_insert_eq in Hq; injection Hq as <-; now apply queue_head.
  - rewrite lookup_insert_ne in Hq by congruence; destruct (parent m q d r Hm Hq Hr) as (e & He & _); exists e; split; [exact He |].
    apply (to_linked m Hm q d r e); auto.
Qed.

Lemma link_other q : q <> p -> m' !! q = m !! q.
Proof. intros Hne; unfold m'; now rewrite lookup_insert_ne by congruence. Qed.

Abbreviation released := (map snd (base.filter (fun e : ptr * ptr => e.1 = p) w)).
Abbreviation left_over := (base.filter (fun e : ptr * ptr => e.1 <> p) w).

Lemma link_split : (Q ++ released) ++ map snd left_over ≡ₚ Q ++ map snd w.
Proof.
  rewrite <- (assoc (++)); f_equiv; rewrite <- map_app; apply Permutation_map.
  clear L; induction w as [| e w' IH]; [reflexivity |]; rewrite !filter_cons; destruct (decide (e.1 = p)) as [E | E].
  - rewrite decide_False by tauto; cbn; now rewrite IH.
  - rewrite decide_True by tauto; rewrite <- Permutation_middle; now rewrite IH.
Qed.

Lemma link_not_queued : p ∉ Q ++ map snd w.
Proof. pose proof (li_once _ _ _ L) as Hn; cbn in Hn; now apply NoDup_cons_1_1 in Hn. Qed.

Lemma waiting_other q r : (q, r) ∈ w -> r <> p.
Proof. intros Hin ->; apply link_not_queued, elem_of_app; right; apply list_elem_of_fmap; now exists (q, p). Qed.

Lemma link_inv_link : link_inv m' left_over (Q ++ released).
Proof.
  split.
  - intros q d Hq; destruct (data_eq_Some m' m q d link_data_eq' Hq) as (d' & Hd & (E & _)%unlink_fields); rewrite E; now apply (li_txs _ _ _ L q d').
  - intros q d Hq Hn; rewrite <- (chain_txs_data_eq m m' q link_data_eq); destruct (decide (q = p)) as [-> | Hne].
    + unfold m' in Hq; rewrite lookup_insert_eq in Hq; injection Hq as <-; cbn; split; [apply queue_head | reflexivity].
    + rewrite link_other in Hq by exact Hne; now apply (li_linked _ _ _ L).
  - intros q [Hq | Hq]%elem_of_app.
    + destruct (li_queue _ _ _ L q ltac:(now right)) as (d & Hd & Hx & Hn & Hl); exists d; rewrite link_other.
      2: { intros ->; apply link_not_queued, elem_of_app; now left. }
      do 3 (split; [assumption |]); intros r Hr; apply link_linked; right; auto.
    + apply list_elem_of_fmap in Hq as ([r q'] & E & [Er Hin]%list_elem_of_filter); cbn in E, Er; subst q' r.
      destruct (li_waiting _ _ _ L p q Hin) as (d & Hd & Hpr & Hx & Hn & _); exists d; rewrite link_other by (now apply (waiting_other p)).
      do 3 (split; [assumption |]); intros r Hr; apply link_linked; left; congruence.
  - intros q r [Hne Hin]%list_elem_of_filter; cbn in Hne; destruct (li_waiting _ _ _ L q r Hin) as (d & Hd & Hpr & Hx & Hn & Hl).
    exists d; rewrite link_other by (now apply (waiting_other q)); do 4 (split; [assumption |]); rewrite link_linked; tauto.
  - rewrite link_split; pose proof (li_once _ _ _ L) as Hn; cbn in Hn; now apply NoDup_cons_1_2 in Hn.
Qed.

Lemma link_all_wait F : all_wait F m w (p :: Q) -> all_wait F m' left_over (Q ++ released).
Proof.
  intros A q d Hq Hx Hn; rewrite link_split; destruct (decide (q = p)) as [-> | Hne].
  - unfold m' in Hq; rewrite lookup_insert_eq in Hq; injection Hq as <-; cbn in Hn; pose proof chain_txs_pos; lia.
  - rewrite link_other in Hq by exact Hne; destruct (A q d Hq Hx Hn) as [Hin | Hin]; [left; now apply elem_of_cons in Hin as [|] | now right].
Qed.
End LinkEntry.

(** ** Linking blocks *)

Section Linking.
Context {V B U C : Type} `{CoinsDriverOk V B U C}.
Abbreviation node := (Node V U).
Abbreviation index n := (mapBlockIndex (chainstate n)).
Abbreviation unlinked n := (mapBlocksUnlinked (chainstate n)).
Abbreviation candidates n := (setBlockIndexCandidates (chainstate n)).

(** Blocks were linked, and became candidates unless they are worse than the tip;
    the tree, the chain and the coin set are the same. *)
Record links (t : ptr) (n n' : node) : Prop := {
  ln_place : place_eq (index n) (index n');
  ln_kept : forall p, linked (index n) p -> index n' !! p = index n !! p;
  ln_cands : forall p, p ∈ candidates n' <->
    p ∈ candidates n \/ (linked (index n') p /\ ~ linked (index n) p /\ worse (index n') p t = false);
  ln_chain : chainActive (chainstate n') = chainActive (chainstate n);
  ln_coins : pcoinsTip (chainstate n') = pcoinsTip (chainstate n);
  ln_undo : undo_files (chainstate n') = undo_files (chainstate n);
  ln_invalid : pindexBestInvalid (chainstate n') = pindexBestInvalid (chainstate n);
  ln_header : pindexBestHeader n' = pindexBestHeader n;
}.

Lemma worse_same m m' p q : m' !! p = m !! p -> m' !! q = m !! q -> worse m' p q = worse m p q.
Proof. unfold worse; now intros -> ->. Qed.

Lemma linked_same m m' p : m' !! p = m !! p -> linked m p -> linked m' p.
Proof. unfold linked; now intros ->. Qed.

Lemma links_refl t n : links t n n.
Proof. split; auto; [reflexivity |]; intros p; split; [auto | intros [Hp | (Hl & Hn & _)]; [exact Hp | contradiction]]. Qed.

Lemma links_trans t n1 n2 n3 : linked (index n1) t -> links t n1 n2 -> links t n2 n3 -> links t n1 n3.
Proof.
  intros Ht A B'; split; [| | | etransitivity; [apply B' | apply A]..].
  - etransitivity; [apply A | apply B'].
  - intros p Hp; rewrite (ln_kept _ _ _ B'), (ln_kept _ _ _ A); auto; apply (linked_same (index n1)), Hp; now apply (ln_kept _ _ _ A).
  - assert (Ht2 : linked (index n2) t) by (apply (linked_same (index n1)), Ht; now apply (ln_kept _ _ _ A)).
    intros p; rewrite (ln_cands _ _ _ B'), (ln_cands _ _ _ A).
    assert (Hw : linked (index n2) p -> worse (index n3) p t = worse (index n2) p t)
      by (intros Hp; apply worse_same; now apply (ln_kept _ _ _ B')).
    assert (Hl : linked (index n2) p -> linked (index n3) p)
      by (intros Hp; apply (linked_same (index n2)), Hp; now apply (ln_kept _ _ _ B')).
    assert (Hl' : linked (index n1) p -> linked (index n2) p)
      by (intros Hp; apply (linked_same (index n1)), Hp; now apply (ln_kept _ _ _ A)).
    split.
    + intros [[Hp | (L2 & L1 & W)] | (L3 & L2 & W)]; [now left | right; rewrite Hw; tauto | tauto].
    + intros [Hp | (L3 & L1 & W)]; [auto |]; destruct (decide (linked (index n2) p)) as [L2 | L2]; [| tauto].
      rewrite Hw in W; tauto.
Qed.

Lemma links_inv t n n' : links t n n' -> tree_ok (index n') -> linked (index n) t ->
  driver_inv (chainstate n) t -> driver_inv (chainstate n') t.
Proof.
  intros K Hm' Ht [I Hb]; pose proof (ln_place _ _ _ K) as E; split.
  - destruct I as [Hm Hc (c & b & Hbt & R & Rp) Hu Hcd Hi]; split; [exact Hm' | | | | |].
    + rewrite (ln_chain _ _ _ K); now apply (chain_to_place_eq (index n)).
    + rewrite (ln_coins _ _ _ K); exists c, b; rewrite (ln_kept _ _ _ K) by exact Ht; split; [exact Hbt |]; split; [| exact Rp].
      now apply (replays_place_eq (index n)).
    + rewrite (ln_undo _ _ _ K); intros p u Hp; apply (undo_right_place_eq (index n)); auto.
    + intros p [Hp | (Hp & _)]%(ln_cands _ _ _ K); [| exact Hp].
      apply (linked_same (index n)); [apply (ln_kept _ _ _ K) |]; auto.
    + rewrite (ln_invalid _ _ _ K); intros p [d Hd]%Hi; destruct (place_eq_Some _ _ p d E Hd) as (d' & -> & _); eauto.
  - intros p [Hp | (_ & _ & Hp)]%(ln_cands _ _ _ K); [| exact Hp].
    rewrite (worse_same (index n)); [now apply Hb | apply (ln_kept _ _ _ K) ..]; [now apply (ci_cands _ _ I) | exact Ht].
Qed.

(** [queued n q]: everything that the loop relies on. *)
Record queued (t : ptr) (n : node) (Q : list ptr) : Prop := {
  qd_tree : tree_ok (index n);
  qd_link : link_inv (index n) (unlinked n) Q;
  qd_tip : Tip (chainActive (chainstate n)) = Some t;
  qd_linked : linked (index n) t;
  qd_cands : forall p, p ∈ candidates n -> linked (index n) p;
  qd_size : forall p, chain_txs (index n) p < 2 ^ 32;
}.

Lemma link_block_ok t n p Q : queued t n (p :: Q) ->
  exists W n', link_block n p = Ok (W, n') /\ links t n n' /\ data_eq (index n) (index n') /\ queued t n' (Q ++ W) /\
    (length W + length (unlinked n') = length (unlinked n))%nat /\
    (forall F, all_wait F (index n) (unlinked n) (p :: Q) -> all_wait F (index n') (unlinked n') (Q ++ W)).
Proof.
  intros [Hm L Ht Hl Hc Hs]; destruct (li_queue _ _ _ L p ltac:(now left)) as (b & Hp & _ & Hn & _).
  pose proof (counted_below _ Hm _ _ _ L b Hp (Hs p)) as Hk; unfold link_block, deref; rewrite Hp; cbn [mbind res_bind].
  assert (Hbelow : match pprev b with None => Ok 0 | Some q => match index n !! q with Some c => Ok c | None => Exn oob_read end ≫= (fun c => Ok (nChainTx c)) end
    = Ok (E := unit) (match pprev b with Some q => match index n !! q with Some c => nChainTx c | None => 0 end | None => 0 end)).
  { destruct (pprev b) as [q |] eqn:Eq; [| reflexivity]; destruct (parent _ p b q Hm Hp Eq) as (c & -> & _); reflexivity. }
  rewrite Hbelow; cbn [mbind res_bind]; clear Hbelow; rewrite Hk, Ht; clear Hk.
  pose proof (link_linked _ Hm _ _ _ L b Hp (nBlockSequenceId n)) as Hlk.
  pose proof (link_data_eq _ p b Hp (nBlockSequenceId n)) as Hd.
  pose proof (link_tree_ok _ Hm _ _ _ L b Hp (nBlockSequenceId n)) as Hm'.
  pose proof (link_inv_link _ Hm _ _ _ L b Hp (nBlockSequenceId n)) as L'.
  pose proof (link_all_wait _ Hm _ _ _ L b Hp (nBlockSequenceId n)) as A'.
  assert (Hkeep : forall q, linked (index n) q -> q <> p) by (intros q (c & Hq & Hx) ->; congruence).
  pose proof (link_other (index n) p b (nBlockSequenceId n)) as Ho.
  set (m' := <[p := _]> (index n)) in *; clearbody m'.
  assert (Hlen : (length (map snd (base.filter (fun e : ptr * ptr => e.1 = p) (unlinked n)))
    + length (base.filter (fun e : ptr * ptr => e.1 <> p) (unlinked n)) = length (unlinked n))%nat).
  { pose proof (Permutation_length (link_split (unlinked n) p [])) as E; now rewrite !length_app, !length_map in *. }
  assert (Hcd : forall q, q ∈ candidates n \/ (linked m' q /\ ~ linked (index n) q /\ worse m' q t = false) <->
    q ∈ candidates n \/ (q = p /\ worse m' p t = false)).
  { intros q; rewrite Hlk; split; [intros [Hq | ([-> | Hq] & Hn' & W)]; tauto |].
    intros [Hq | [-> W]]; [tauto |]; right; split; [tauto |]; split; [| exact W]; intros Hx; now apply (Hkeep p). }
  assert (Hs' : forall q, chain_txs m' q < 2 ^ 32) by (intros q; now rewrite <- (chain_txs_data_eq _ _ q Hd)).
  assert (Hl' : linked m' t) by (apply Hlk; auto).
  assert (Hc' : forall q, q ∈ candidates n -> linked m' q) by (intros q Hq; apply Hlk; auto).
  assert (Hc'' : forall q, q ∈ candidates n ∪ {[p]} -> linked m' q) by (intros q; rewrite elem_of_union, elem_of_singleton, Hlk; intuition auto).
  destruct (worse m' p t); eexists _, _; (split; [reflexivity |]); (split; [split | split; [| split; [split |]]]); cbn -[base.filter]; auto using data_place_eq.
  all: intros q; rewrite Hcd, ?elem_of_union, ?elem_of_singleton; intuition congruence.
Qed.

Lemma link_queue_ok t fuel : forall n Q, queued t n Q -> (length Q + length (unlinked n) <= fuel)%nat ->
  exists n', link_queue fuel n Q = Ok n' /\ links t n n' /\ data_eq (index n) (index n') /\ queued t n' [] /\
    (forall F, all_wait F (index n) (unlinked n) Q -> all_wait F (index n') (unlinked n') []).
Proof.
  induction fuel as [| fuel IH]; intros n [| p Q] Hq Hf; cbn in Hf; try lia;
    try (exists n; split; [reflexivity |]; split; [apply links_refl | split; [reflexivity | auto]]; fail).
  destruct (link_block_ok t n p Q Hq) as (W & n1 & E & K & D & Hq1 & Hlen & A).
  destruct (IH n1 (Q ++ W) Hq1) as (n' & E' & K' & D' & Hq' & A'); [rewrite length_app; lia |].
  exists n'; cbn [link_queue]; rewrite E; cbn [mbind res_bind]; split; [exact E' |].
  split; [apply (links_trans t n n1); [apply Hq | exact K | exact K'] |]; split; [now transitivity (index n1) | auto].
Qed.

(** ** A block gets its data *)

(** The best header has the most work. *)
Definition best_header (n : node) : Prop :=
  exists h c, pindexBestHeader n = Some h /\ index n !! h = Some c /\ forall p b, index n !! p = Some b -> work b <= work c.

(** Nothing is pruned. *)
Definition have_data (m : index_map) : Prop := forall p b, m !! p = Some b -> nTx b <> 0 -> has_status b BLOCK_HAVE_DATA = true.

Lemma have_data_eq m m' : data_eq m m' -> have_data m -> have_data m'.
Proof.
  intros E Hd p b' Hp Hx; symmetry in E; destruct (data_eq_Some _ _ p b' E Hp) as (b & Hb & (Et & _ & _ & Es)%unlink_fields).
  unfold has_status; rewrite Es; apply (Hd p b Hb); congruence.
Qed.

(** The invariant of the tree while headers and blocks arrive. *)
Record arrival_inv (t : ptr) (n : node) : Prop := {
  ai_driver : driver_inv (chainstate n) t;
  ai_tip : linked (index n) t;
  ai_link : link_inv (index n) (unlinked n) [];
  ai_size : forall p, chain_txs (index n) p < 2 ^ 32;
  ai_have : have_data (index n);
  ai_best : best_header n;
}.

Lemma best_header_place_eq (n n' : node) : place_eq (index n) (index n') -> pindexBestHeader n' = pindexBestHeader n ->
  best_header n -> best_header n'.
Proof.
  intros E Eh (h & c & Hh & Hc & Hb); destruct (place_eq_Some _ _ h c E Hc) as (c' & Hc' & (_ & _ & _ & _ & W)%place_fields).
  exists h, c'; split; [congruence |]; split; [exact Hc' |]; intros p b' Hp; symmetry in E.
  destruct (place_eq_Some _ _ p b' E Hp) as (b & Hpb & (_ & _ & _ & _ & W')%place_fields); unfold work in *; rewrite W', <- W; eauto.
Qed.

Lemma queued_inv t n n' : links t n n' -> queued t n' [] -> driver_inv (chainstate n) t -> linked (index n) t -> best_header n ->
  have_data (index n') -> arrival_inv t n'.
Proof.
  intros K Q D Ht Hb Hd; split; try apply Q; [| exact Hd |].
  - apply (links_inv t n); auto; apply Q.
  - apply (best_header_place_eq n); auto; apply K.
Qed.

(** The counts of linked blocks do not depend on blocks that are not linked. *)
Lemma txs_up_linked m m' : tree_ok m -> (forall q, linked m q -> m' !! q = m !! q) ->
  forall fuel q, linked m q -> txs_up m' fuel q = txs_up m fuel q.
Proof.
  intros Hm Hk; induction fuel as [| fuel IH]; intros q Hq; [reflexivity |]; cbn [txs_up]; rewrite (Hk q Hq).
  destruct Hq as (b & Hq & Hn); rewrite Hq; destruct (pprev b) as [r |] eqn:Er; [| reflexivity].
  destruct (parent m q b r Hm Hq Er) as (c & Hc & _); rewrite IH; [reflexivity |]; exists c; split; [exact Hc | apply (to_linked m Hm q b r c); auto].
Qed.

Lemma chain_txs_linked m m' q : tree_ok m -> (forall q, linked m q -> m' !! q = m !! q) -> linked m q -> chain_txs m' q = chain_txs m q.
Proof.
  intros Hm Hk Hq; unfold chain_txs; rewrite (Hk q Hq); destruct (m !! q); [now apply txs_up_linked | reflexivity].
Qed.

Lemma bit_set x y k : Z.testbit y k = true -> Z.testbit (Z.lor x y) k = true.
Proof. intros E; now rewrite Z.lor_spec, E, orb_true_r. Qed.

Lemma received_entry_ok b txs :
  exists s, received_entry b txs = Ok (set_nStatus (set_counts b txs 0 (nSequenceId b)) s) /\ Z.testbit s 3 = true.
Proof.
  unfold received_entry, RaiseValidity; cbn [assert_ mbind res_bind].
  change (Z.land BLOCK_VALID_TRANSACTIONS (Z.lnot BLOCK_VALID_MASK) =? 0) with true; cbn [assert_ mbind res_bind].
  case_goal; cbn [mbind res_bind]; [| case_goal; cbn [mbind res_bind]]; eexists; (split; [reflexivity |]); cbn [nStatus set_nStatus set_counts].
  - now apply bit_set.
  - now rewrite Z.lor_spec, Z.land_spec, bit_set.
  - now apply bit_set.
Qed.

Lemma has_data_bit b : has_status b BLOCK_HAVE_DATA = Z.testbit (nStatus b) 3.
Proof.
  unfold has_status; change BLOCK_HAVE_DATA with (2 ^ 3); destruct (Z.eqb_spec (Z.land (nStatus b) (2 ^ 3)) 0) as [E | E]; cbn [negb].
  - apply (f_equal (fun z => Z.testbit z 3)) in E; rewrite Z.land_spec, Z.bits_0 in E; cbn in E; now rewrite andb_true_r in E.
  - destruct (Z.testbit (nStatus b) 3) eqn:Et; [reflexivity |]; destruct E; apply Z.bits_inj'; intros k Hk.
    rewrite Z.land_spec, Z.bits_0, Z.pow2_bits_eqb by lia; destruct (Z.eqb_spec 3 k) as [<- |]; [now rewrite Et | apply andb_false_r].
Qed.

Section Received.
Context (m : index_map) (Hm : tree_ok m) (w : list (ptr * ptr)) (L : link_inv m w []).
Context (p : ptr) (b : CBlockIndex) (Hp : m !! p = Some b) (Hnew : nTx b = 0) (txs : Z) (Htxs : 0 < txs) (s : Z).

Let m1 : index_map := <[p := set_nStatus (set_counts b txs 0 (nSequenceId b)) s]> m.

Lemma new_unlinked : ~ linked m p.
Proof. intros (b' & Hb & Hn); assert (b' = b) as -> by congruence; now destruct (li_linked _ _ _ L p b Hp Hn). Qed.

Lemma received_same q : q <> p -> m1 !! q = m !! q.
Proof. intros Hne; unfold m1; now rewrite lookup_insert_ne by congruence. Qed.

Lemma received_kept q : linked m q -> m1 !! q = m !! q.
Proof. intros Hq; apply received_same; intros ->; now apply new_unlinked. Qed.

Lemma received_linked q : linked m1 q <-> linked m q.
Proof.
  split; intros Hq; [| now apply (linked_same m), Hq; apply received_kept].
  destruct (decide (q = p)) as [-> | Hne]; [| now apply (linked_same m1), Hq; rewrite received_same].
  destruct Hq as (b' & Hb & Hn); unfold m1 in Hb; rewrite lookup_insert_eq in Hb; injection Hb as <-; now cbn in Hn.
Qed.

Lemma received_place : place_eq m m1.
Proof. now apply (place_eq_insert m p b). Qed.

Lemma received_tree_ok : tree_ok m1.
Proof.
  apply (tree_ok_place_eq m); [apply received_place | | exact Hm].
  intros q d r c Hq Hn Hr Hc; assert (Hlq : linked m q) by (apply received_linked; now exists d).
  rewrite (received_kept q Hlq) in Hq; destruct (parent m q d r Hm Hq Hr) as (c' & Hc' & _).
  assert (Hlr : linked m r) by (exists c'; split; [exact Hc' | now apply (to_linked m Hm q d r c')]).
  apply received_linked in Hlr as (c'' & Hc'' & Hx); congruence.
Qed.

(** A branch passes the block at most once. *)
Lemma received_below fuel : forall q c, m !! q = Some c -> nHeight c < nHeight b -> txs_up m1 fuel q = txs_up m fuel q.
Proof.
  induction fuel as [| fuel IH]; intros q c Hq Hh; cbn [txs_up]; [reflexivity |].
  rewrite received_same, Hq by (intros ->; assert (c = b) as -> by congruence; lia).
  destruct (pprev c) as [r |] eqn:Er; [| reflexivity]; destruct (parent m q c r Hm Hq Er) as (d & Hd & Hn).
  now rewrite (IH r d Hd ltac:(lia)).
Qed.

Lemma received_txs_up fuel : forall q, txs_up m1 fuel q <= txs_up m fuel q + txs.
Proof.
  induction fuel as [| fuel IH]; intros q; cbn [txs_up]; [lia |]; destruct (decide (q = p)) as [-> | Hne].
  - unfold m1; rewrite lookup_insert_eq, Hp; fold m1; cbn [nTx pprev set_nStatus set_counts]; rewrite Hnew.
    destruct (pprev b) as [r |] eqn:Er; [| lia]; destruct (parent m p b r Hm Hp Er) as (c & Hc & Hn).
    rewrite (received_below fuel r c Hc) by lia; lia.
  - rewrite received_same by exact Hne; destruct (m !! q) as [c |]; [| lia]; destruct (pprev c) as [r |]; [specialize (IH r) |]; lia.
Qed.

Lemma received_size q : chain_txs m1 q <= chain_txs m q + txs.
Proof.
  unfold chain_txs; destruct (m !! q) as [c |] eqn:Hq.
  - destruct (place_eq_Some m m1 q c received_place Hq) as (c' & -> & (_ & _ & _ & <- & _)%place_fields); apply received_txs_up.
  - rewrite (place_eq_None m m1 q received_place Hq); lia.
Qed.

Lemma not_waiting q : (q, p) ∉ w.
Proof. intros Hin; destruct (li_waiting _ _ _ L q p Hin) as (b' & Hb & _ & Hx & _); congruence. Qed.

Lemma waiting_differ q r : (q, r) ∈ w -> r <> p.
Proof. intros Hin ->; now apply (not_waiting q). Qed.

Lemma received_link_inv w' Q :
  base.NoDup (Q ++ map snd w') ->
  (forall q, q ∈ Q -> q = p /\ forall r, pprev b = Some r -> linked m r) ->
  (forall q r, (q, r) ∈ w' -> (q, r) ∈ w \/ (r = p /\ pprev b = Some q /\ ~ linked m q)) ->
  link_inv m1 w' Q.
Proof.
  intros Hnd HQ Hw; assert (Hp1 : m1 !! p = Some (set_nStatus (set_counts b txs 0 (nSequenceId b)) s)) by apply lookup_insert_eq.
  split; [| | | | exact Hnd].
  - intros q d Hq; destruct (decide (q = p)) as [-> | Hne]; [rewrite Hp1 in Hq; injection Hq as <-; cbn; lia |].
    rewrite received_same in Hq by exact Hne; now apply (li_txs _ _ _ L q d).
  - intros q d Hq Hn; assert (Hlq : linked m q) by (apply received_linked; now exists d).
    rewrite (chain_txs_linked m m1 q Hm received_kept Hlq); rewrite received_kept in Hq by exact Hlq; now apply (li_linked _ _ _ L).
  - intros q [-> Hl]%HQ; eexists; split; [exact Hp1 |]; cbn; split; [lia |]; split; [reflexivity |].
    intros r Hr; apply received_linked; auto.
  - intros q r [Hin | (-> & Hr & Hn)]%Hw.
    + destruct (li_waiting _ _ _ L q r Hin) as (d & Hd & Hpr & Hx & Hz & Hl); exists d.
      rewrite received_same, received_linked by (now apply (waiting_differ q)); auto.
    + eexists; split; [exact Hp1 |]; cbn; rewrite received_linked; repeat split; auto; lia.
Qed.

Lemma received_all_wait (F F' : ptr -> Prop) w' Q : all_wait F m w [] -> (forall q, F q -> F' q) ->
  (p ∈ Q ++ map snd w' \/ F' p) -> (forall q, q ∈ map snd w -> q ∈ Q ++ map snd w') -> all_wait F' m1 w' Q.
Proof.
  intros A HF Hp' Hin q d Hq Hx Hn; destruct (decide (q = p)) as [-> | Hne]; [exact Hp' |].
  rewrite received_same in Hq by exact Hne; destruct (A q d Hq Hx Hn) as [Hw | Hw]; auto.
Qed.

Lemma received_have_data : Z.testbit s 3 = true -> have_data m -> have_data m1.
Proof.
  intros Hs Hd q c Hq Hx; destruct (decide (q = p)) as [-> | Hne]; [| rewrite received_same in Hq by exact Hne; now apply (Hd q c)].
  unfold m1 in Hq; rewrite lookup_insert_eq in Hq; injection Hq as <-; now rewrite has_data_bit.
Qed.

Lemma received_has_data q : has_data m1 q <-> q = p \/ has_data m q.
Proof.
  unfold has_data; destruct (decide (q = p)) as [-> | Hne].
  - unfold m1; rewrite lookup_insert_eq; split; [auto |]; intros _; eexists; split; [reflexivity |]; cbn; lia.
  - rewrite received_same by exact Hne; tauto.
Qed.
End Received.

(** The parent is not linked and is known to be invalid: then the code does not
    enter the block in mapBlocksUnlinked. *)
Definition refused_parent (m : index_map) (b : CBlockIndex) : Prop :=
  exists q c, pprev b = Some q /\ m !! q = Some c /\ nChainTx c = 0 /\ IsValid (E := unit) c BLOCK_VALID_TREE = Ok false.

Lemma deref_Some {E} (m : index_map) p b : m !! p = Some b -> deref (E := E) m p = Ok b.
Proof. unfold deref; now intros ->. Qed.

(** The entry is marked before anything is linked. *)
Lemma received_links t (n : node) p b txs s :
  arrival_inv t n -> index n !! p = Some b -> nTx b = 0 ->
  links t n (set_map n (<[p := set_nStatus (set_counts b txs 0 (nSequenceId b)) s]> (index n))).
Proof.
  intros [D Ht L _ _ _] Hp Hnew; split; cbn; auto.
  - now apply (received_place _ p b).
  - now apply (received_kept _ _ L p b).
  - intros q; rewrite (received_linked _ _ L p b Hp Hnew); tauto.
Qed.

(** What receiving the data of the block at [p] does. *)
Record received (t p : ptr) (b : CBlockIndex) (n n' : node) : Prop := {
  rc_inv : arrival_inv t n';
  rc_links : links t n n';
  rc_data : forall q, has_data (index n') q <-> q = p \/ has_data (index n) q;
  rc_wait : forall F, all_wait F (index n) (unlinked n) [] ->
    all_wait (fun q => F q \/ q = p /\ refused_parent (index n) b) (index n') (unlinked n') [];
}.

Lemma has_data_eq m m' q : data_eq m m' -> has_data m q <-> has_data m' q.
Proof.
  intros E; split; intros (b & Hq & Hx); [| symmetry in E];
    destruct (data_eq_Some _ _ q b E Hq) as (b' & Hq' & (Et & _)%unlink_fields); exists b'; split; congruence.
Qed.

Section ReceivedNode.
Context (t : ptr) (n : node) (p : ptr) (b : CBlockIndex) (txs s : Z).
Context (I : arrival_inv t n) (Hp : index n !! p = Some b) (Hnew : nTx b = 0) (Htxs : 0 < txs).
Context (Hsize : forall q, chain_txs (index n) q + txs < 2 ^ 32) (Hbit : Z.testbit s 3 = true).

Let Hm : tree_ok (index n) := ci_tree _ _ (di_chain _ _ (ai_driver _ _ I)).
Let L : link_inv (index n) (unlinked n) [] := ai_link _ _ I.
Let n1 : node := set_map n (<[p := set_nStatus (set_counts b txs 0 (nSequenceId b)) s]> (index n)).

Lemma received_bound q : chain_txs (index n1) q < 2 ^ 32.
Proof.
  pose proof (received_size (index n) Hm p b Hp Hnew txs Htxs s q) as Hr; specialize (Hsize q).
  change (index n1) with (<[p := set_nStatus (set_counts b txs 0 (nSequenceId b)) s]> (index n)); lia.
Qed.

Lemma not_waiting_snd : p ∉ map snd (unlinked n).
Proof. intros ([q r] & E & Hin)%list_elem_of_fmap; cbn in E; subst r; now apply (not_waiting _ _ L p b Hp Hnew q). Qed.

(** The parents are linked. *)
Lemma received_queued : (forall q, pprev b = Some q -> linked (index n) q) ->
  exists n', link_queue (S (length (unlinked n))) n1 [p] = Ok n' /\ received t p b n n'.
Proof.
  intros Hpar; pose proof (received_links t n p b txs s I Hp Hnew) as K; fold n1 in K.
  assert (Q : queued t n1 [p]).
  { split; cbn.
    - now apply (received_tree_ok _ Hm _ L p b).
    - apply (received_link_inv _ Hm _ L p b); auto; [constructor; [apply not_waiting_snd | apply (li_once _ _ _ L)] |].
      intros q ->%list_elem_of_singleton; auto.
    - apply (chain_inv_Tip (chainstate n)), I.
    - apply (received_linked _ _ L p b Hp Hnew), (ai_tip _ _ I).
    - intros q Hq; apply (received_linked _ _ L p b Hp Hnew); now apply (ci_cands _ _ (di_chain _ _ (ai_driver _ _ I))).
    - apply received_bound. }
  destruct (link_queue_ok t (S (length (unlinked n))) n1 [p] Q) as (n' & E & K' & Dq & Q' & A); [cbn; lia |].
  pose proof (links_trans t n n1 n' (ai_tip _ _ I) K K') as Kt.
  exists n'; split; [exact E |]; split; [apply (queued_inv t n n' Kt Q' (ai_driver _ _ I) (ai_tip _ _ I) (ai_best _ _ I)), (have_data_eq _ _ Dq), received_have_data, (ai_have _ _ I); exact Hbit | exact Kt | |].
  - intros q; rewrite <- (has_data_eq _ _ q Dq); now apply received_has_data.
  - intros F Aw; apply A; cbn -[all_wait]; apply (received_all_wait _ (unlinked n) p b txs s F); [exact Aw | auto | left; now left |].
    cbn; intros q Hq; now right.
Qed.

(** The block waits for its parent, or is not remembered. *)
Lemma received_waits (n2 : node) q c v : pprev b = Some q -> index n !! q = Some c -> nChainTx c = 0 ->
  IsValid (E := unit) c BLOCK_VALID_TREE = Ok v ->
  n2 = (if (v : bool) then mkNode (set_unlinked (chainstate n1) (unlinked n1 ++ [(q, p)])) (pindexBestHeader n1) (nBlockSequenceId n1) else n1) ->
  received t p b n n2.
Proof.
  intros Hq Hc H0' Hv E2; pose proof (received_links t n p b txs s I Hp Hnew) as K; fold n1 in K.
  assert (Hn : ~ linked (index n) q) by (intros (c' & Hc' & Hx); congruence).
  assert (Em : index n2 = index n1) by (subst n2; now destruct v).
  assert (K2 : links t n n2) by (destruct K; subst n2; destruct v; split; auto).
  assert (L2 : link_inv (index n2) (unlinked n2) []).
  { rewrite Em; apply (received_link_inv _ Hm _ L p b); auto; [subst n2; destruct v; cbn; [| apply (li_once _ _ _ L)] | | ].
    - rewrite map_app; apply list_relations.list.NoDup_app; split; [apply (li_once _ _ _ L) |]; split; [| apply NoDup_singleton].
      intros r Hr ->%list_elem_of_singleton; now apply not_waiting_snd.
    - intros r Hr; now apply not_elem_of_nil in Hr.
    - subst n2; destruct v; cbn; [| auto]; intros q' r' [Hin | Hin%list_elem_of_singleton]%elem_of_app; [auto |].
      injection Hin as -> ->; auto. }
  assert (Hlq : linked (index n2) t) by (rewrite Em; apply (received_linked _ _ L p b Hp Hnew), (ai_tip _ _ I)).
  assert (Hm2 : tree_ok (index n2)) by (rewrite Em; now apply (received_tree_ok _ Hm _ L p b)).
  split; [split; auto | exact K2 | |].
  - exact (links_inv t n n2 K2 Hm2 (ai_tip _ _ I) (ai_driver _ _ I)).
  - intros r; rewrite Em; apply received_bound.
  - rewrite Em; apply received_have_data, (ai_have _ _ I); exact Hbit.
  - apply (best_header_place_eq n n2 (ln_place _ _ _ K2) (ln_header _ _ _ K2)), (ai_best _ _ I).
  - intros r; rewrite Em; now apply received_has_data.
  - intros F Aw; rewrite Em; apply (received_all_wait _ (unlinked n) p b txs s F); [exact Aw | auto | |]; subst n2; destruct v; cbn.
    + left; rewrite map_app; apply elem_of_app; right; now left.
    + right; right; split; [reflexivity |]; now exists q, c.
    + intros r Hr; rewrite map_app; apply elem_of_app; now left.
    + auto.
Qed.
End ReceivedNode.

Lemma ReceivedBlockTransactions_ok t (n : node) p b txs :
  arrival_inv t n -> index n !! p = Some b -> nTx b = 0 -> 0 < txs < 2 ^ 32 ->
  (forall q, chain_txs (index n) q + txs < 2 ^ 32) ->
  exists n', ReceivedBlockTransactions n p txs = Ok n' /\ received t p b n n'.
Proof.
  intros I Hp Hnew Htxs Hsize; pose proof (ci_tree _ _ (di_chain _ _ (ai_driver _ _ I))) as Hm.
  unfold ReceivedBlockTransactions; rewrite (deref_Some _ p b Hp); cbn [mbind res_bind].
  replace (u32 txs) with txs by (symmetry; apply Z.mod_small; lia).
  destruct (received_entry_ok b txs) as (s & -> & Hbit); cbn [mbind res_bind pprev set_nStatus set_counts].
  destruct (pprev b) as [q |] eqn:Eq; cbn [mbind res_bind].
  2: { apply (received_queued t n p b txs s); auto; [lia | congruence]. }
  destruct (parent _ p b q Hm Hp Eq) as (c & Hc & Hh).
  rewrite (deref_Some _ q c) by (cbn; rewrite lookup_insert_ne; [exact Hc | intros ->; assert (c = b) as -> by congruence; lia]).
  cbn [mbind res_bind]; destruct (Z.eqb_spec (nChainTx c) 0) as [E0 | E0].
  - destruct (IsValid c BLOCK_VALID_TREE) as [v | |] eqn:Ev; [| unfold IsValid in Ev; cbn in Ev; destruct (negb _) in Ev; discriminate ..].
    eexists; split; [reflexivity |]; apply (received_waits t n p b txs s I Hp Hnew ltac:(lia) Hsize Hbit _ q c v); auto.
  - apply (received_queued t n p b txs s); auto; [lia |]; intros r Hr; assert (r = q) as -> by congruence; now exists c.
Qed.

(** ** A header is added *)

Section Added.
Context (m : index_map) (Hm : tree_ok m) (p : ptr) (b : CBlockIndex) (Hp : m !! p = None).

Let m' : index_map := <[p := b]> m.

Lemma added_old q c : m !! q = Some c -> m' !! q = Some c.
Proof. intros Hq; unfold m'; now rewrite lookup_insert_ne by congruence. Qed.

Lemma added_inv q c : m' !! q = Some c -> (q = p /\ c = b) \/ m !! q = Some c.
Proof.
  unfold m'; destruct (decide (q = p)) as [-> | Hne]; [rewrite lookup_insert_eq; intros [= <-]; auto |].
  rewrite lookup_insert_ne by congruence; auto.
Qed.

Lemma added_up k : forall q c, m !! q = Some c -> up m' k q = up m k q.
Proof.
  induction k as [| k IH]; intros q c Hq; cbn [up]; [reflexivity |]; rewrite (added_old q c Hq), Hq.
  destruct (pprev c) as [r |] eqn:Er; [| reflexivity]; destruct (parent m q c r Hm Hq Er) as (d & Hd & _); now apply (IH r d).
Qed.

Lemma added_txs fuel : forall q c, m !! q = Some c -> txs_up m' fuel q = txs_up m fuel q.
Proof.
  induction fuel as [| fuel IH]; intros q c Hq; cbn [txs_up]; [reflexivity |]; rewrite (added_old q c Hq), Hq.
  destruct (pprev c) as [r |] eqn:Er; [| reflexivity]; destruct (parent m q c r Hm Hq Er) as (d & Hd & _); now rewrite (IH r d).
Qed.

Lemma added_chain_txs q c : m !! q = Some c -> chain_txs m' q = chain_txs m q.
Proof. intros Hq; unfold chain_txs; rewrite (added_old q c Hq), Hq; now apply (added_txs _ q c). Qed.

Lemma added_chain v t : chain_to m v t -> chain_to m' v t.
Proof.
  intros (c & Hc & Hl & Hu); exists c; split; [now apply added_old |]; split; [exact Hl |].
  intros i Hi; rewrite (Hu i Hi); f_equal; symmetry; now apply (added_up _ t c).
Qed.

Lemma added_replays q x : replays m q x -> replays m' q x.
Proof.
  induction 1 as [q c Hq Hr | q c r block x Hq Hr Hd R IH]; [apply (replays_genesis m' q c) | apply (replays_block m' q c r block x)];
    auto using added_old.
Qed.

Lemma added_replays_inv q x : replays m' q x -> is_Some (m !! q) -> replays m q x.
Proof.
  induction 1 as [q c Hq Hr | q c r block x Hq Hr Hd R IH]; intros [c' Hq']; pose proof (added_old q c' Hq') as E; assert (c' = c) as -> by congruence.
  - now apply (replays_genesis m q c).
  - apply (replays_block m q c r block x); auto; apply IH; destruct (parent m q c r Hm Hq' Hr) as (d & Hd' & _); eauto.
Qed.

Lemma added_undo q u : q <> p -> undo_right m q u -> undo_right m' q u.
Proof.
  intros Hne Hu c r block x [[-> _] | Hq]%added_inv Hr Hd R; [contradiction |]; apply (Hu c r block x Hq Hr Hd).
  apply added_replays_inv; [exact R |]; destruct (parent m q c r Hm Hq Hr) as (d & Hd' & _); eauto.
Qed.

Context (Hlink : nChainTx b = 0).

Lemma added_linked q : linked m' q <-> linked m q.
Proof.
  split; [| intros (c & Hq & Hn); exists c; auto using added_old].
  intros (c & [[-> ->] | Hq]%added_inv & Hn); [contradiction | now exists c].
Qed.

Lemma added_worse q r : is_Some (m !! q) -> is_Some (m !! r) -> worse m' q r = worse m q r.
Proof. intros [c Hc] [d Hd]; apply worse_same; [rewrite (added_old q c), Hc | rewrite (added_old r d), Hd]; auto. Qed.

(** The new entry is on top of [prev]. *)
Context (Hentry : index_ok m') (Harith : arith_ok (nChainWork b)) (Hwork : forall q c, pprev b = Some q -> m !! q = Some c -> work c < work b).
Context (Hhash : forall q c, m !! q = Some c -> blockHash c <> blockHash b) (Hknown : blockHash b <> uint256_null /\ nHeight b < 2 ^ 31).

Lemma added_tree_ok : tree_ok m'.
Proof.
  split; [exact Hentry | | | | |].
  - intros q c [[-> ->] | Hq]%added_inv; [exact Harith | now apply (to_arith m Hm q)].
  - intros q c r d Hq Hr Hd; destruct (added_inv q c Hq) as [[-> ->] | Hq'].
    + destruct (added_inv r d Hd) as [[-> ->] | Hd']; [| now apply (Hwork r d)].
      destruct (eo_prev _ _ _ (Hentry p b Hq) p Hr) as (e & He & Hn); assert (e = b) as -> by congruence; lia.
    + destruct (parent m q c r Hm Hq' Hr) as (d' & Hd' & _); pose proof (added_old r d' Hd'); assert (d' = d) as -> by congruence.
      now apply (to_more m Hm q c r d).
  - intros q c r d [[-> ->] | Hq]%added_inv Hn Hr Hd; [contradiction |].
    destruct (parent m q c r Hm Hq Hr) as (d' & Hd' & _); pose proof (added_old r d' Hd'); assert (d' = d) as -> by congruence.
    now apply (to_linked m Hm q c r d).
  - intros q r c d [[-> ->] | Hq]%added_inv [[-> ->] | Hd]%added_inv E; [reflexivity | | | now apply (to_hash m Hm q r c d)].
    + exfalso; now apply (Hhash r d Hd).
    + exfalso; now apply (Hhash q c Hq).
  - intros q c [[-> ->] | Hq]%added_inv; [exact Hknown | now apply (to_known m Hm q)].
Qed.

Context (Hdata : nTx b = 0).

Lemma added_link_inv w Q : link_inv m w Q -> link_inv m' w Q.
Proof.
  intros [Hx Hl Hq Hw Ho]; split; [| | | | exact Ho].
  - intros q c [[-> ->] | Hc]%added_inv; [lia | now apply (Hx q)].
  - intros q c [[-> ->] | Hc]%added_inv Hn; [contradiction |]; rewrite (added_chain_txs q c Hc); auto.
  - intros q Hin; destruct (Hq q Hin) as (c & Hc & H1 & H2 & H3); exists c; split; [now apply added_old |].
    split; [exact H1 |]; split; [exact H2 |]; intros r Hr; apply added_linked; auto.
  - intros q r Hin; destruct (Hw q r Hin) as (c & Hc & H1 & H2 & H3 & H4); exists c; rewrite added_linked; auto using added_old.
Qed.

Lemma added_have_data : have_data m -> have_data m'.
Proof. intros Hd q c [[-> ->] | Hc]%added_inv Hx; [contradiction | now apply (Hd q c)]. Qed.

Lemma added_all_wait F w Q : all_wait F m w Q -> all_wait F m' w Q.
Proof. intros A q c [[-> ->] | Hc]%added_inv Hx Hn; [contradiction | now apply (A q c)]. Qed.

Lemma added_size K : 0 < K -> (forall q, chain_txs m q < K) -> forall q, chain_txs m' q < K.
Proof.
  intros HK Hs q; destruct (m !! q) as [c |] eqn:Hq; [rewrite (added_chain_txs q c Hq); apply Hs |].
  destruct (decide (q = p)) as [-> | Hne]; [| unfold chain_txs, m'; rewrite lookup_insert_ne, Hq by congruence; lia].
  assert (Hpb : m' !! p = Some b) by apply lookup_insert_eq; rewrite (chain_txs_step m' p b Hentry Hpb), Hdata.
  destruct (pprev b) as [r |] eqn:Er; [| lia].
  destruct (eo_prev _ _ _ (Hentry p b Hpb) r Er) as (c & Hc & Hh); destruct (added_inv r c Hc) as [[-> ->] | Hc']; [lia |].
  rewrite (added_chain_txs r c Hc'); specialize (Hs r); lia.
Qed.
End Added.

(** What makes a header fit on the tree: its hash is new, its target is a positive
    256-bit number, and height and work do not overflow. *)
Record fits `{HashFunctions} (m : index_map) (h : CBlockHeader) (hash : uint256) (target : limbs) : Prop := {
  ft_hash : GetSHA256DHash (E := unit) h = Ok hash;
  ft_known : hash <> uint256_null;
  ft_bits : is_u32 (hd_nBits h);
  ft_target : SetCompact (hd_nBits h) = (target, false, false) /\ 0 < lval target;
  ft_room : forall q c, m !! q = Some c -> blockHash c = hashPrevBlock h ->
    nHeight c + 1 < 2 ^ 31 /\ work c + 2 ^ 256 / (lval target + 1) < 2 ^ 256;
}.

Lemma find_ptr_Some m h p : find_ptr m h = Some p -> exists b, m !! p = Some b /\ blockHash b = h.
Proof.
  unfold find_ptr; intros E%head_Some_elem_of; apply list_elem_of_omap in E as ([q b] & Hin & E); cbn in E.
  destruct (decide (blockHash b = h)) as [Eh |]; [| discriminate]; injection E as ->; exists b; split; [now apply elem_of_map_to_list | exact Eh].
Qed.

Lemma find_ptr_None m h : find_ptr m h = None -> forall p b, m !! p = Some b -> blockHash b <> h.
Proof.
  unfold find_ptr; intros E p b Hp%elem_of_map_to_list Eh.
  assert (Hin : p ∈ omap (fun e : nat * CBlockIndex => if decide (blockHash e.2 = h) then Some e.1 else None) (map_to_list m)).
  { apply list_elem_of_omap; exists (p, b); split; [exact Hp | cbn; now rewrite decide_True]. }
  destruct (omap _ _); [now apply not_elem_of_nil in Hin | discriminate].
Qed.

Lemma new_pointer_fresh (n : node) : index n !! new_pointer n = None /\ undo_files (chainstate n) !! new_pointer n = None.
Proof.
  pose proof (is_fresh (dom (index n) ∪ dom (undo_files (chainstate n)))) as Hf; fold (new_pointer n) in Hf.
  rewrite not_elem_of_union, !not_elem_of_dom in Hf; exact Hf.
Qed.

Lemma added_driver_inv t (n : node) p b : driver_inv (chainstate n) t -> index n !! p = None -> undo_files (chainstate n) !! p = None ->
  nChainTx b = 0 -> tree_ok (<[p := b]> (index n)) -> driver_inv (set_index (chainstate n) (<[p := b]> (index n))) t.
Proof.
  intros [I Hb] Hp Hu Hn Hm'; pose proof (ci_tree _ _ I) as Hm; split; [destruct I as [_ Hc (c & d & Hd & R & Rp) Hun Hcd Hi]; split; cbn |].
  - exact Hm'.
  - now apply added_chain.
  - exists c, d; split; [now apply added_old |]; split; [now apply added_replays | exact Rp].
  - intros q u Hq; apply (added_undo _ Hm p b Hp); [congruence | auto].
  - intros q Hq; apply (added_linked _ p b Hp Hn); auto.
  - intros q [d' Hd']%Hi; exists d'; now apply added_old.
  - intros q Hq; cbn; rewrite added_worse; auto.
    + destruct (ci_cands _ _ I q Hq) as (d & Hd & _); eauto.
    + destruct (ci_chain _ _ I) as (d & Hd & _); eauto.
Qed.

(** Walks do not look at work and status. *)
Lemma up_relink m p b b' : pprev b = pprev b' -> forall k q, up (<[p := b]> m) k q = up (<[p := b']> m) k q.
Proof.
  intros E; induction k as [| k IH]; intros q; cbn [up]; [reflexivity |]; destruct (decide (q = p)) as [-> | Hne].
  - rewrite !lookup_insert_eq, E; destruct (pprev b'); auto.
  - rewrite !lookup_insert_ne by congruence; destruct (m !! q) as [c |]; [destruct (pprev c) |]; auto.
Qed.

Lemma index_ok_relink m p b b' : pprev b = pprev b' -> pskip b = pskip b' -> nHeight b = nHeight b' ->
  index_ok (<[p := b]> m) -> index_ok (<[p := b']> m).
Proof.
  intros Ep Es Eh Hi.
  assert (Hl : forall q c', <[p := b']> m !! q = Some c' ->
    exists c, <[p := b]> m !! q = Some c /\ pprev c = pprev c' /\ pskip c = pskip c' /\ nHeight c = nHeight c').
  { intros q c'; destruct (decide (q = p)) as [-> | Hne]; [rewrite !lookup_insert_eq; intros [= <-]; eauto |].
    rewrite !lookup_insert_ne by congruence; eauto. }
  assert (Hr : forall q c, <[p := b]> m !! q = Some c -> exists c', <[p := b']> m !! q = Some c' /\ nHeight c = nHeight c').
  { intros q c; destruct (decide (q = p)) as [-> | Hne]; [rewrite !lookup_insert_eq; intros [= <-]; eauto |].
    rewrite !lookup_insert_ne by congruence; eauto. }
  intros q c' Hq; destruct (Hl q c' Hq) as (c & Hc & E1 & E2 & E3); destruct (Hi q c Hc) as [H1 H2 H3 H4].
  split; rewrite <- ?E1, <- ?E2, <- ?E3; auto.
  - intros r Hr'; destruct (H3 r Hr') as (d & Hd & Hn); destruct (Hr r d Hd) as (d' & Hd' & En); exists d'; split; [exact Hd' | lia].
  - intros s Hs; rewrite <- (up_relink m p b b' Ep); auto.
Qed.

(** The entry of a header on top of [prev], which has [height] and [work0]. *)
Definition on_top (m : index_map) (prev : option ptr) (height work0 : Z) : Prop :=
  match prev with
  | None => height = 0 /\ work0 = 0
  | Some q => exists c, m !! q = Some c /\ height = nHeight c + 1 /\ work0 = work c
  end.

(** The entry that is built for a new header. *)
Lemma built_entry `{HashFunctions} (m : index_map) h hash target p :
  tree_ok m -> fits m h hash target -> m !! p = None ->
  let prev := find_ptr m (hashPrevBlock h) in
  exists height prevwork w s,
    match prev with
    | Some q => c ← deref (E := unit) m q; Ok (i32 (nHeight c + 1), nChainWork c)
    | None => Ok (0, arith_u64 0)
    end = Ok (height, prevwork) /\
    GetBlockProof (hd_nBits h) = Ok w /\
    match prev with
    | Some _ => BuildSkip (E := unit) (<[p := set_position (new_entry h hash) prev height (repeat 0 8)]> m) p
    | None => Ok (<[p := new_entry h hash]> m)
    end = Ok (<[p := set_pskip (set_position (new_entry h hash) prev height (repeat 0 8)) s]> m) /\
    arith_ok (op_add prevwork w) /\ lval (op_add prevwork w) = lval prevwork + 2 ^ 256 / (lval target + 1) /\
    0 < 2 ^ 256 / (lval target + 1) /\ on_top m prev height (lval prevwork) /\ 0 <= height < 2 ^ 31 /\
    index_ok (<[p := set_pskip (set_position (new_entry h hash) prev height (repeat 0 8)) s]> m).
Proof.
  intros Hm [_ _ Hb [Ht Hpos] Hroom] Hp; cbn zeta.
  destruct (block_proof_exact _ _ _ _ Hb Ht) as (w & Ew & Hw & Vw); cbn [orb] in Vw; rewrite (proj2 (Z.eqb_neq _ 0)) in Vw by lia.
  pose proof (SetCompact_spec (hd_nBits h) Hb) as Hspec; rewrite Ht in Hspec; destruct Hspec as (W8 & L8 & _).
  pose proof (arith_range target (conj W8 L8)) as Hr.
  assert (Hwp : 0 < 2 ^ 256 / (lval target + 1)) by (apply Z.div_str_pos; lia).
  assert (Hwm : 2 ^ 256 / (lval target + 1) < 2 ^ 256) by (apply Z.div_lt; lia).
  destruct (find_ptr m (hashPrevBlock h)) as [q |] eqn:Eq.
  - destruct (find_ptr_Some _ _ _ Eq) as (c & Hc & Ec); destruct (Hroom q c Hc Ec) as [Hh Hwk].
    pose proof (eo_height _ _ _ (to_index m Hm q c Hc)) as H0'.
    assert (Ei : i32 (nHeight c + 1) = nHeight c + 1) by (apply swrap_small; lia).
    destruct (BuildSkip_ok (E := unit) m (to_index m Hm) p q (set_position (new_entry h hash) (Some q) (nHeight c + 1) (repeat 0 8)) c
      Hp Hc eq_refl eq_refl eq_refl) as (s & Es & Hok).
    destruct (arith_add (nChainWork c) w (to_arith m Hm q c Hc) Hw) as [Ha Va].
    pose proof (arith_range _ (to_arith m Hm q c Hc)) as Hrc; unfold work in Hwk.
    exists (nHeight c + 1), (nChainWork c), w, s; rewrite (deref_Some m q c Hc); cbn [mbind res_bind]; rewrite Ei.
    do 3 (split; [assumption || reflexivity |]); split; [exact Ha |].
    split; [rewrite Va, Vw; apply Z.mod_small; lia |]; split; [exact Hwp |]; split; [exists c; auto |]; split; [lia | exact Hok].
  - destruct (arith_u64_spec 0 ltac:(unfold is_u64; lia)) as [Ha0 Va0]; destruct (arith_add (arith_u64 0) w Ha0 Hw) as [Ha Va].
    exists 0, (arith_u64 0), w, None; do 2 (split; [assumption || reflexivity |]); split; [reflexivity |]; split; [exact Ha |].
    split; [rewrite Va, Va0, Vw; apply Z.mod_small; lia |]; split; [exact Hwp |]; split; [split; [reflexivity | exact Va0] |].
    split; [lia |]; intros r d; destruct (decide (r = p)) as [-> | Hne].
    + rewrite lookup_insert_eq; intros [= <-]; split; cbn; congruence || lia.
    + rewrite lookup_insert_ne by congruence; intros Hr'; now apply entry_ok_insert; [apply Hm | |].
Qed.

(** What adding a header does. *)
Record added `{HashFunctions} (t p : ptr) (h : CBlockHeader) (hash : uint256) (target : limbs) (n n' : node) : Prop := {
  ad_inv : arrival_inv t n';
  ad_new : index n !! p = None;
  ad_entry : exists b, index n' = <[p := b]> (index n) /\ blockHash b = hash /\ nTime b = hd_nTime h /\ nBits b = hd_nBits h /\
    pprev b = find_ptr (index n) (hashPrevBlock h) /\
    on_top (index n) (pprev b) (nHeight b) (work b - 2 ^ 256 / (lval target + 1)) /\
    nStatus b = BLOCK_VALID_TREE /\ nTx b = 0 /\ nChainTx b = 0;
  ad_rest : chainstate n' = set_index (chainstate n) (index n');
  ad_wait : forall F, all_wait F (index n) (unlinked n) [] -> all_wait F (index n') (unlinked n') [];
  ad_size : forall K, 0 < K -> (forall q, chain_txs (index n) q < K) -> forall q, chain_txs (index n') q < K;
}.

Lemma on_top_more m prev height w0 w q c : on_top m prev height (w - w0) -> 0 < w0 -> prev = Some q -> m !! q = Some c -> work c < w.
Proof. intros Ho H0' -> Hc; destruct Ho as (c' & Hc' & _ & E); assert (c' = c) as -> by congruence; lia. Qed.

(** The best header after a new one. *)
Lemma best_header_added t (n n' : node) p b h c :
  arrival_inv t n -> index n !! p = None -> index n' = <[p := b]> (index n) -> arith_ok (nChainWork b) ->
  pindexBestHeader n = Some h -> index n !! h = Some c -> (forall q d, index n !! q = Some d -> work d <= work c) ->
  pindexBestHeader n' = (if a_lt (nChainWork c) (nChainWork b) then Some p else Some h) -> best_header n'.
Proof.
  intros I Hp Em Hb Hh Hc Hmax; pose proof (ci_tree _ _ (di_chain _ _ (ai_driver _ _ I))) as Hm.
  rewrite (a_lt_spec _ _ (to_arith _ Hm h c Hc) Hb); fold (work c) (work b); unfold best_header; rewrite Em.
  destruct (Z.ltb_spec (work c) (work b)) as [Hlt | Hge]; intros E.
  - exists p, b; split; [exact E |]; split; [apply lookup_insert_eq |]; intros q d [[-> ->] | Hq]%(added_inv _ p b); [lia |].
    specialize (Hmax q d Hq); lia.
  - exists h, c; split; [exact E |]; split; [now apply added_old |]; intros q d [[-> ->] | Hq]%(added_inv _ p b); [lia | now apply (Hmax q)].
Qed.

Lemma AddToBlockIndex_ok `{HashFunctions} t (n : node) h hash target :
  arrival_inv t n -> find_ptr (index n) hash = None -> fits (index n) h hash target ->
  exists p n', AddToBlockIndex n h = Ok (p, n') /\ added t p h hash target n n'.
Proof.
  intros I Hnew F; pose proof (ci_tree _ _ (di_chain _ _ (ai_driver _ _ I))) as Hm.
  destruct (new_pointer_fresh n) as [Hp Hu]; destruct (built_entry _ h hash target _ Hm F Hp) as
    (height & pw & w & s & E1 & E2 & E3 & Ha & Va & Hpos & Ho & Hh & Hok).
  unfold AddToBlockIndex; rewrite (ft_hash _ _ _ _ F); cbn [mbind res_bind]; rewrite Hnew, E1; cbn [mbind res_bind].
  rewrite E2; cbn [mbind res_bind]; rewrite E3; cbn [mbind res_bind].
  rewrite (deref_Some _ (new_pointer n) _ (lookup_insert_eq _ _ _)); cbn [mbind res_bind].
  set (b := mkBlockIndex hash (find_ptr (index n) (hashPrevBlock h)) s height (hd_nTime h) (hd_nBits h) (op_add pw w) BLOCK_VALID_TREE 0 0 0).
  match goal with |- context [RaiseValidity ?x ?y] => replace (RaiseValidity x y) with (Ok (E := unit) (true, b)) by reflexivity end.
  destruct (ai_best _ _ I) as (bh & bc & Hbh & Hbc & Hmax); cbn [mbind res_bind]; rewrite Hbh, (deref_Some _ bh bc Hbc), insert_insert_eq.
  cbn [mbind res_bind]; eexists _, _; split; [reflexivity |].
  assert (Ho' : on_top (index n) (pprev b) height (work b - 2 ^ 256 / (lval target + 1)))
    by (change (work b) with (lval (op_add pw w)); rewrite Va, Z.add_simpl_r; exact Ho).
  pose proof (fun q c => on_top_more _ _ _ _ _ q c Ho' Hpos) as Hmore.
  assert (Hm' : tree_ok (<[new_pointer n := b]> (index n))).
  { apply added_tree_ok; auto.
    - revert Hok; now apply index_ok_relink.
    - apply (find_ptr_None _ _ Hnew).
    - exact (conj (ft_known _ _ _ _ F) (proj2 Hh)). }
  assert (Hi' : index_ok (<[new_pointer n := b]> (index n))) by apply Hm'.
  pose proof (added_size _ Hm _ b Hp Hi' Hmore eq_refl) as Hsize.
  split; [split | exact Hp | exists b; cbn; auto 9 | reflexivity | intros ?; apply added_all_wait; auto | exact Hsize].
  - apply added_driver_inv; auto; exact (ai_driver _ _ I).
  - apply (added_linked _ _ b Hp eq_refl), (ai_tip _ _ I).
  - apply added_link_inv; auto; exact (ai_link _ _ I).
  - apply (Hsize (2 ^ 32)); [lia | exact (ai_size _ _ I)].
  - apply added_have_data; auto; exact (ai_have _ _ I).
  - eapply (best_header_added t n _ (new_pointer n) b bh bc); eauto; reflexivity.
Qed.

(** ** Accepting headers and blocks *)

Lemma link_inv_tree_eq m m' w Q : tree_eq m m' -> link_inv m w Q -> link_inv m' w Q.
Proof.
  intros E [Hx Hl Hq Hw Ho]; pose proof E as E'; symmetry in E'.
  assert (back : forall p b', m' !! p = Some b' -> exists b, m !! p = Some b /\ nTx b = nTx b' /\ nChainTx b = nChainTx b').
  { intros p b' Hp; destruct (tree_eq_Some m' m p b' E' Hp) as (b & Hb & Eb); exists b; injection Eb; auto. }
  assert (forth : forall p b, m !! p = Some b -> exists b', m' !! p = Some b' /\ nTx b = nTx b' /\ nChainTx b = nChainTx b' /\ pprev b = pprev b').
  { intros p b Hp; destruct (tree_eq_Some m m' p b E Hp) as (b' & Hb & Eb); exists b'; injection Eb; auto. }
  split; [| | | | exact Ho].
  - intros p b' (b & Hb & Et & _)%back; rewrite <- Et; now apply (Hx p).
  - intros p b' (b & Hb & Et & En)%back Hn; rewrite <- Et, <- En, <- (chain_txs_tree_eq m m' p E); apply Hl; [exact Hb | congruence].
  - intros p (b & Hb & H1 & H2 & H3)%Hq; destruct (forth p b Hb) as (b' & Hb' & Et & En & Ep); exists b'; rewrite <- Et, <- En, <- Ep.
    do 3 (split; [assumption |]); intros q Hr; apply (linked_tree_eq m); auto.
  - intros q p (b & Hb & H1 & H2 & H3 & H4)%Hw; destruct (forth p b Hb) as (b' & Hb' & Et & En & Ep); exists b'; rewrite <- Et, <- En, <- Ep.
    do 4 (split; [assumption |]); intros Hr; now apply H4, (linked_tree_eq m').
Qed.

(** Statuses may change as long as no data is dropped. *)
Lemma arrival_status t (n : node) m' : tree_eq (index n) m' -> have_data m' -> arrival_inv t n -> arrival_inv t (set_map n m').
Proof.
  intros E Hd [[I Hb] Ht L Hs _ Hbest]; split; cbn; [split | | | | exact Hd |].
  - apply (shape_inv (chainstate n)); cbn; auto.
  - intros p Hp; cbn; rewrite <- (worse_tree_eq (index n)) by exact E; now apply Hb.
  - now apply (linked_tree_eq (index n)).
  - now apply (link_inv_tree_eq (index n)).
  - intros p; now rewrite <- (chain_txs_tree_eq (index n)).
  - revert Hbest; apply best_header_place_eq; [now apply tree_place_eq | reflexivity].
Qed.

Lemma have_data_or m p f : have_data m -> have_data (or_status m p f).
Proof.
  intros Hd q b'; unfold or_status; destruct (decide (q = p)) as [-> | Hne].
  - rewrite lookup_alter_eq; destruct (m !! p) as [b |] eqn:Hp; [| discriminate]; intros [= <-] Hx.
    pose proof (Hd p b Hp Hx) as Hh; rewrite has_data_bit in *; cbn [nStatus set_nStatus]; now rewrite Z.lor_spec, Hh.
  - rewrite lookup_alter_ne by congruence; apply Hd.
Qed.

Lemma arrival_or t (n : node) p f : arrival_inv t n -> arrival_inv t (set_map n (or_status (index n) p f)).
Proof. intros I; apply arrival_status; [apply tree_eq_or_status | apply have_data_or, (ai_have _ _ I) | exact I]. Qed.

Lemma arrival_clear t (n : node) p b : index n !! p = Some b -> arrival_inv t n -> arrival_inv t (set_map n (<[p := clear_failed b]> (index n))).
Proof.
  intros Hp I; apply arrival_status; [now apply (tree_eq_insert _ p b) | | exact I].
  intros q c Hq Hx; destruct (decide (q = p)) as [-> | Hne]; [| rewrite lookup_insert_ne in Hq by congruence; now apply (ai_have _ _ I q c)].
  rewrite lookup_insert_eq in Hq; injection Hq as <-; pose proof (ai_have _ _ I p b Hp Hx) as Hh; rewrite has_data_bit in *.
  cbn [nStatus set_nStatus clear_failed]; rewrite Z.land_spec, Hh; reflexivity.
Qed.

Section Accepting.
Context `{HashFunctions, Layout, MoneyLimit, ChainParams, TxEnvironment, SubsidyParams, BlockEnv, CheckEnv, ArrivalEnv}.

(** What an arriving header has to satisfy: it fits if it is new. *)
Definition header_fits (n : node) (h : CBlockHeader) : Prop :=
  forall hash, GetSHA256DHash (E := unit) h = Ok hash -> find_ptr (index n) hash = None -> exists target, fits (index n) h hash target.

Lemma AcceptBlockHeader_inv t future vs (n : node) h pp f ok vs' pi n' K :
  arrival_inv t n -> header_fits n h -> 0 < K -> (forall q, chain_txs (index n) q < K) ->
  AcceptBlockHeader future vs n h pp = Ok (f, ok, vs', pi, n') ->
  arrival_inv t n' /\ forall q, chain_txs (index n') q < K.
Proof.
  intros I Hf HK Hs; unfold AcceptBlockHeader; intros (hash & Eh & E)%bind_returns; revert E.
  destruct (find_ptr (index n) hash) as [p |] eqn:Ep.
  - unfold known_header; intros (b & Hb%deref_ok & E)%bind_returns; revert E.
    destruct (has_status b BLOCK_FAILED_MASK); [destruct (ASSETCHAINS_CC =? 0) |]; intros [= <- <- <- <- <-]; auto.
    split; [now apply arrival_clear |]; intros q; cbn; rewrite <- (chain_txs_tree_eq (index n)); [apply Hs | now apply (tree_eq_insert _ p b)].
  - destruct (Hf hash Eh Ep) as (target & F); intros (height & _ & E)%bind_returns; revert E.
    destruct (CheckBlockHeader height h false) as [f1 r]; intros ([ok1 vs1] & _ & E)%bind_returns; revert E.
    destruct (_ && _); [intros [= <- <- <- <- <-]; auto |]; intros (prev & _ & E)%bind_returns; revert E.
    destruct prev as [prev |]; [| intros [= <- <- <- <- <-]; auto]; intros (fl & _ & E)%bind_returns; revert E.
    destruct fl; [intros [= <- <- <- <- <-]; auto |]; intros ([ok2 vs2] & _ & E)%bind_returns; revert E.
    destruct (negb ok2); [intros [= <- <- <- <- <-]; auto |].
    destruct (AddToBlockIndex_ok t n h hash target I Ep F) as (p & n1 & -> & A); intros [= <- <- <- <- <-].
    split; [apply A | exact (ad_size _ _ _ _ _ _ _ A K HK Hs)].
Qed.

Lemma AcceptBlock_inv t future vs (n : node) blk pp requested f ok vs' pi n' :
  arrival_inv t n -> header_fits n (header blk) -> (forall q, chain_txs (index n) q + zlen (vtx blk) < 2 ^ 32) -> (vtx blk = [] -> f = false) ->
  AcceptBlock future vs n blk pp requested = Ok (f, ok, vs', pi, n') -> arrival_inv t n'.
Proof.
  intros I Hfit Hsz Hempty; unfold AcceptBlock; intros ([[[[f1 ok1] vs1] pi1] n1] & E1 & E)%bind_returns; revert E.
  assert (Hz : zlen (vtx blk) < 2 ^ 32) by (specialize (Hsz t); pose proof (chain_txs_nonneg (index n) (unlinked n) [] t (ai_link _ _ I)); lia).
  destruct (AcceptBlockHeader_inv t _ _ n (header blk) _ _ _ _ _ _ (2 ^ 32 - zlen (vtx blk)) I Hfit ltac:(lia)
    ltac:(intros q; specialize (Hsz q); lia) E1) as [I1 Hs]; destruct (negb ok1 && negb f1); [now intros [= _ _ _ _ <-] |].
  destruct pi1 as [p |]; [| now intros [= _ _ _ _ <-]]; intros (b & Hb%deref_ok & E)%bind_returns; revert E.
  intros (skip & Ek & E)%bind_returns; revert E; destruct skip; [now intros [= _ _ _ _ <-] |].
  assert (Hnew : nTx b = 0).
  { destruct (decide (nTx b = 0)) as [| Hx]; [assumption |]; pose proof (ai_have _ _ I1 p b Hb Hx) as Hh; revert Ek; unfold skip_block.
    intros (more & _ & [= Ek])%bind_returns; now rewrite Hh in Ek. }
  intros ([cx vs2] & _ & E)%bind_returns; revert E; intros (pt & _ & E)%bind_returns; revert E.
  pose proof (empty_refused (nHeight b) pt blk false true) as Href.
  destruct (CheckBlock (nHeight b) pt blk false true) as [f2 r]; cbn [snd] in Href; intros ([ck vs3] & Ec & E)%bind_returns; revert E.
  assert (Hck : vtx blk = [] -> ck = false) by (intros He; specialize (Href He); unfold run_checks in Ec; destruct r as [[] | |]; [easy | injection Ec; congruence | discriminate]).
  intros (near & _ & E)%bind_returns; revert E; destruct (_ && _) eqn:Erej.
  { destruct (mode vs3), (corruptionPossible vs3); intros [= _ _ _ _ <-]; auto using arrival_or. }
  set (n2 := if cx then _ else n1); assert (I2 : arrival_inv t n2) by (subst n2; destruct cx; auto using arrival_or).
  assert (T2 : tree_eq (index n1) (index n2)) by (subst n2; destruct cx; [apply tree_eq_or_status | reflexivity]).
  destruct (tree_eq_Some _ _ p b T2 Hb) as (b2 & Hb2 & Eb); pose proof (f_equal nTx Eb) as Et; cbn in Et.
  destruct (FindBlockPos blk); [now intros [= _ _ _ _ <-] |]; intros (n3 & E3 & E)%bind_returns; revert E.
  intros [= <- _ _ _ <-]; assert (Hpos : 0 < zlen (vtx blk)).
  { destruct (vtx blk) as [| x l]; [| rewrite zlen_cons; pose proof (zlen_nonneg l); lia].
    rewrite (Hck eq_refl), (Hempty eq_refl) in Erej; discriminate. }
  destruct (ReceivedBlockTransactions_ok t n2 p b2 (zlen (vtx blk)) I2 Hb2) as (n3' & E3' & R); [congruence | lia | |].
  - intros q; rewrite <- (chain_txs_tree_eq (index n1)) by exact T2; specialize (Hs q); lia.
  - assert (n3' = n3) as -> by congruence; apply R.
Qed.

(** ** Sequences of arrivals *)

(** A header or a block arrives, from a peer or from the miner; whatever the
    answer is. *)
Inductive arrival_step (n n' : node) : Prop :=
| step_header future vs h pp f ok vs' pi : header_fits n h ->
    AcceptBlockHeader future vs n h pp = Ok (f, ok, vs', pi, n') -> arrival_step n n'
| step_block future vs blk pp requested f ok vs' pi :
    header_fits n (header blk) -> (forall q, chain_txs (index n) q + zlen (vtx blk) < 2 ^ 32) -> (vtx blk = [] -> f = false) ->
    AcceptBlock future vs n blk pp requested = Ok (f, ok, vs', pi, n') -> arrival_step n n'.

Lemma arrival_step_inv t n n' : arrival_step n n' -> arrival_inv t n -> arrival_inv t n'.
Proof.
  intros [future vs h pp f ok vs' pi A E | future vs blk pp requested f ok vs' pi A Hs He E] I.
  - exact (proj1 (AcceptBlockHeader_inv t _ _ _ _ _ _ _ _ _ _ (2 ^ 32) I A ltac:(lia) (ai_size _ _ I) E)).
  - exact (AcceptBlock_inv t _ _ _ _ _ _ _ _ _ _ _ I A Hs He E).
Qed.

(** C13: headers and blocks may arrive in whatever order, and be accepted or refused.
    Every header that is new has a hash that is not zero, a target that is a positive
    256-bit number, and a height and a total work that do not overflow; no chain counts
    2^32 transactions; and no empty block is answered with [*futureblockp], since
    near the Sapling height the code stores such a block although CheckBlock refused
    it.  Then the tree of headers stays well-formed, the best header
    has the most work, the coins are still those of the active chain, only linked
    blocks no worse than the tip are candidates, and a linked block has all the
    data below it and the exact number of transactions up to it. *)
Theorem arrivals_keep_tree t (n n' : node) :
  rtc arrival_step n n' -> arrival_inv t n ->
  arrival_inv t n' /\
  forall p b, index n' !! p = Some b -> nChainTx b <> 0 -> complete (index n') p /\ nChainTx b = chain_txs (index n') p.
Proof.
  intros R I; assert (I' : arrival_inv t n') by (revert I; induction R as [| n n1 n2 S R IH]; [auto | intros I; apply IH, (arrival_step_inv t n n1 S I)]).
  split; [exact I' |]; intros p b Hp Hn; split; [| apply (li_linked _ _ _ (ai_link _ _ I') p b Hp Hn)].
  apply (linked_complete _ (unlinked n')); [apply I' | apply I' | now exists b].
Qed.
End Accepting.

(** C14: the data of a block may come before or after that of its ancestors.  When
    it comes, for the first time and with a positive number of transactions (and no
    chain counting 2^32 of them), the loop over the waiting blocks ends, and
    afterwards the linked blocks are exactly those that have their data and that of
    all blocks below them, none of these blocks being forgotten; those that are newly
    linked and no worse than the tip become candidates.  A block is forgotten, that is,
    has its data and is neither linked nor waiting, only if it was forgotten before, or
    it is the one that came and its parent is not linked and marked as failed: the
    code does not remember such a block.  So while no data comes on top of a failed
    header, the order in which blocks come makes no difference to what is linked. *)
Theorem received_links_complete t (n : node) p b txs :
  arrival_inv t n -> index n !! p = Some b -> nTx b = 0 ->
  0 < txs < 2 ^ 32 -> (forall q, chain_txs (index n) q + txs < 2 ^ 32) ->
  exists n', ReceivedBlockTransactions n p txs = Ok n' /\ arrival_inv t n' /\
    (forall q, has_data (index n') q <-> q = p \/ has_data (index n) q) /\
    (forall q, linked (index n') q <->
      complete (index n') q /\ forall r, descends (index n') q r -> ~ forgotten (index n') (unlinked n') r) /\
    (forall r, forgotten (index n') (unlinked n') r ->
      forgotten (index n) (unlinked n) r \/ (r = p /\ refused_parent (index n) b)) /\
    (forall q, q ∈ candidates n' <->
      q ∈ candidates n \/ (linked (index n') q /\ ~ linked (index n) q /\ worse (index n') q t = false)).
Proof.
  intros I Hp Hnew Htxs Hs; destruct (ReceivedBlockTransactions_ok t n p b txs I Hp Hnew Htxs Hs) as (n' & E & [I' K Hd Hw]).
  exists n'; split; [exact E |]; split; [exact I' |]; split; [exact Hd |].
  pose proof (ci_tree _ _ (di_chain _ _ (ai_driver _ _ I'))) as Hm; pose proof (ai_link _ _ I') as L; split; [| split; [| apply K]].
  - intros q; split; [intros Hl; split; [now apply (linked_complete _ (unlinked n')) |] |].
    + intros r Hr (c & Hc & _ & Hn & _); destruct (linked_below _ q r Hm Hl Hr) as (c' & Hc' & Hn'); congruence.
    + intros [Hc Hf]; now apply (complete_linked _ _ (unlinked n') q Hm L (all_wait_forgotten _ _) Hc).
  - intros r Hr; exact (forgotten_among _ _ _ r (Hw _ (all_wait_forgotten _ _)) Hr).
Qed.

(** C15: a header with an unknown hash gets a new entry, on top of the entry of its
    previous block, one higher and with [2^256 / (target + 1)] more work; its skip
    pointer is built without failing, and the tree stays well-formed. *)
Theorem add_header_ok `{HashFunctions} t (n : node) h hash target :
  arrival_inv t n -> find_ptr (index n) hash = None -> fits (index n) h hash target ->
  exists p n' b, AddToBlockIndex n h = Ok (p, n') /\ arrival_inv t n' /\ index n !! p = None /\ index n' = <[p := b]> (index n) /\
    blockHash b = hash /\ nTime b = hd_nTime h /\ nBits b = hd_nBits h /\ pprev b = find_ptr (index n) (hashPrevBlock h) /\
    on_top (index n) (pprev b) (nHeight b) (work b - 2 ^ 256 / (lval target + 1)) /\ nTx b = 0 /\
    chainstate n' = set_index (chainstate n) (index n').
Proof.
  intros I Hn F; destruct (AddToBlockIndex_ok t n h hash target I Hn F) as (p & n' & E & [I' Hp (b & Em & A1 & A2 & A3 & A4 & A5 & _ & A7 & _) Hr _ _]).
  exists p, n', b; auto 12.
Qed.
End Linking.

(** ** An example *)

(** The genesis block is active.  The header of block 1 is known; the data of the
    blocks 2 and 3 above it came first. *)
Module Example_arrival.
Import Example_driver.

Definition entry' (prev : option ptr) (height amount txs chaintxs status : Z) : CBlockIndex :=
  mkBlockIndex (repeat (9 - height) 32) prev None height (1600000000 + height) 537857807 (arith_u64 amount) status txs chaintxs 0.

Definition data_status : Z := Z.lor BLOCK_VALID_TRANSACTIONS BLOCK_HAVE_DATA.

Definition headers : index_map :=
  list_to_map [(0%nat, entry' None 0 1 1 1 data_status); (1%nat, entry' (Some 0%nat) 1 2 0 0 BLOCK_VALID_TREE);
    (2%nat, entry' (Some 1%nat) 2 3 2 0 data_status); (3%nat, entry' (Some 2%nat) 3 4 4 0 data_status)].

Definition node : Node log_view Z :=
  mkNode (mkChain headers [Some 0%nat] {[0%nat]} [(1%nat, 2%nat); (2%nat, 3%nat)] None ([], repeat 9 32) ∅) (Some 3%nat) 7.

Lemma header_entries p b : headers !! p = Some b ->
  (p = 0%nat /\ b = entry' None 0 1 1 1 data_status) \/ (p = 1%nat /\ b = entry' (Some 0%nat) 1 2 0 0 BLOCK_VALID_TREE) \/
  (p = 2%nat /\ b = entry' (Some 1%nat) 2 3 2 0 data_status) \/ (p = 3%nat /\ b = entry' (Some 2%nat) 3 4 4 0 data_status).
Proof.
  intros Hp; apply elem_of_list_to_map_2 in Hp; rewrite !elem_of_cons, elem_of_nil in Hp.
  destruct Hp as [[= -> ->] | [[= -> ->] | [[= -> ->] | [[= -> ->] | []]]]]; auto 10.
Qed.

Ltac each_header Hp := destruct (header_entries _ _ Hp) as [[-> ->] | [[-> ->] | [[-> ->] | [-> ->]]]].

Lemma headers_good : tree_ok headers.
Proof.
  split.
  - intros p b Hp; each_header Hp; split; cbn; try discriminate; try lia; intros q [= <-]; eexists; split; reflexivity.
  - intros p b Hp; each_header Hp; apply arith_u64_ok.
  - intros p b q c Hp Hq Hc; each_header Hp; cbn in Hq; try discriminate; injection Hq as <-; injection Hc as <-; vm_compute; reflexivity.
  - intros p b q c Hp Hn Hq Hc; each_header Hp; cbn in Hq, Hn; try discriminate; congruence.
  - intros p q b c Hp Hq; each_header Hp; each_header Hq; first [reflexivity | discriminate].
  - intros p b Hp; each_header Hp; split; try discriminate; reflexivity.
Qed.

Lemma node_inv : arrival_inv 0%nat node.
Proof.
  split; cbn.
  - split; [split |]; cbn.
    + exact headers_good.
    + exists (entry' None 0 1 1 1 data_status); split; [reflexivity |]; split; [reflexivity |]; intros [| i] Hi; [reflexivity | cbn in Hi; lia].
    + exists genesis_coins, (entry' None 0 1 1 1 data_status); split; [reflexivity |]; split; [| reflexivity].
      now apply (replays_genesis _ 0%nat (entry' None 0 1 1 1 data_status)).
    + intros p u; now rewrite lookup_empty.
    + intros p ->%elem_of_singleton; eexists; split; [reflexivity | discriminate].
    + discriminate.
    + intros p Hp; cbn in Hp; apply elem_of_singleton in Hp as ->; vm_compute; reflexivity.
  - eexists; split; [reflexivity | discriminate].
  - split.
    + intros p b Hp; each_header Hp; cbn; lia.
    + intros p b Hp Hn; each_header Hp; cbn in Hn; try congruence; split; [discriminate | vm_compute; reflexivity].
    + intros p Hp; now apply not_elem_of_nil in Hp.
    + intros q p Hp; rewrite !elem_of_cons, elem_of_nil in Hp; destruct Hp as [E | [E | []]]; injection E as -> ->;
        (eexists; split; [reflexivity |]; repeat split; try discriminate; intros (c & Hc & Hn); vm_compute in Hc; injection Hc as <-; now cbn in Hn).
    + apply (bool_decide_unpack (base.NoDup _)); vm_compute; exact I.
  - intros p; change (chain_txs headers p < 2 ^ 32); unfold chain_txs; destruct (headers !! p) as [b |] eqn:Hp; [| lia]; each_header Hp; vm_compute; reflexivity.
  - intros p b Hp Hx; each_header Hp; reflexivity || (now cbn in Hx).
  - eexists 3%nat, _; split; [reflexivity |]; split; [reflexivity |]; intros p b Hp; each_header Hp; vm_compute; discriminate.
Qed.

Lemma none_forgotten p : ~ forgotten headers [(1%nat, 2%nat); (2%nat, 3%nat)] p.
Proof. intros (b & Hp & Hx & Hn & Hw); each_header Hp; cbn in Hx, Hn; try congruence; apply Hw; repeat constructor. Qed.

(** A block over the genesis block, which the checks accept. *)
Import Example_check.

Definition arrival : ArrivalEnv := {| BLOCK_DOWNLOAD_WINDOW := 1024; FindBlockPos := fun _ => None |}.

Definition body1 : list (uint256 * CTransaction) := [hashed (coinbase_at 1 5000); hashed payment].
Definition block1 : CBlock :=
  mkBlock (mkHeader 4 (repeat 9 32) (merkle_root (map fst body1)) (repeat 0 32) 1600000400 537858047 (repeat 0 32) []) body1.

Definition accepted : res unit (bool * bool * CValidationState * option ptr * Node log_view Z) :=
  AcceptBlock (H7 := arrival) false new_state node block1 None true.
Definition node1 : Node log_view Z := match accepted with Ok (_, _, _, _, n) => n | _ => node end.

(** It is linked, a candidate and the best header. *)
Example block1_accepted :
  match accepted with Ok (future, ok, vs, p, _) => (future, ok, vs, p) | _ => (true, false, new_state, None) end
    = (false, true, new_state, Some 4%nat) /\
  (fun b => (nHeight b, nTx b, nChainTx b, nSequenceId b)) <$> mapBlockIndex (chainstate node1) !! 4%nat = Some (1, 2, 3, 7) /\
  setBlockIndexCandidates (chainstate node1) = {[0%nat; 4%nat]} /\ pindexBestHeader node1 = Some 4%nat.
Proof. vm_compute; auto. Qed.

Lemma small_counts k q : 0 <= k <= 10 -> chain_txs headers q + k < 2 ^ 32.
Proof.
  intros Hk; assert (Hx : chain_txs headers q <= 7); [| lia].
  unfold chain_txs; destruct (headers !! q) as [b |] eqn:Hp; [| lia]; each_header Hp; vm_compute; discriminate.
Qed.

Definition hash1 : uint256 := match GetSHA256DHash (E := unit) (header block1) with Ok h => h | _ => [] end.

Lemma block1_fits : fits headers (header block1) hash1 (set_compact 537858047).
Proof.
  split.
  - vm_compute; reflexivity.
  - vm_compute; discriminate.
  - unfold is_u32; cbn; lia.
  - split; vm_compute; reflexivity.
  - intros q c Hq Hh; each_header Hq; try (vm_compute in Hh; discriminate); split; vm_compute; reflexivity.
Qed.

Lemma block1_new : header_fits node (header block1).
Proof. intros hash Eh _; assert (hash = hash1) as -> by (unfold hash1; now rewrite Eh); exists (set_compact 537858047); exact block1_fits. Qed.

Lemma block1_counts q : chain_txs headers q + zlen (vtx block1) < 2 ^ 32.
Proof. apply small_counts; change (zlen (vtx block1)) with 2; lia. Qed.
End Example_arrival.

Lemma arrivals_keep_tree_witness :
  nBlockSequenceId Example_arrival.node1 = 8 /\ arrival_inv 0%nat Example_arrival.node1.
Proof.
  split; [vm_compute; reflexivity |].
  refine (proj1 (arrivals_keep_tree (H1 := toy_hashes) (H2 := TransactionSpec.Example_tx.layout) (H3 := TransactionSpec.Example_tx.limit)
    (H4 := Example_check.net) (H5 := Example_check.txenv) (H6 := Example_check.rewards) (H7 := Example_check.blockenv)
    (H8 := Example_check.checkenv) (H9 := Example_arrival.arrival) 0%nat Example_arrival.node Example_arrival.node1 _ Example_arrival.node_inv)).
  apply rtc_once, (step_block (H2 := TransactionSpec.Example_tx.layout) _ _ false new_state Example_arrival.block1 None true false true
    new_state (Some 4%nat)); [exact Example_arrival.block1_new | exact Example_arrival.block1_counts | discriminate | vm_compute; reflexivity].
Defined.

Lemma received_links_complete_witness :
  exists n', ReceivedBlockTransactions Example_arrival.node 1%nat 3 = Ok n' /\ mapBlocksUnlinked (chainstate n') = [] /\
    forall q, linked (mapBlockIndex (chainstate n')) q <-> complete (mapBlockIndex (chainstate n')) q.
Proof.
  destruct (received_links_complete 0%nat Example_arrival.node 1%nat (Example_arrival.entry' (Some 0%nat) 1 2 0 0 BLOCK_VALID_TREE) 3)
    as (n' & E & _ & _ & Hl & Hf & _).
  - exact Example_arrival.node_inv.
  - reflexivity.
  - reflexivity.
  - lia.
  - intros q; apply Example_arrival.small_counts; lia.
  - exists n'; split; [exact E |]; split; [vm_compute in E; injection E as <-; reflexivity |].
    assert (Hn : forall r, ~ forgotten (mapBlockIndex (chainstate n')) (mapBlocksUnlinked (chainstate n')) r).
    { intros r [Hr | (_ & q & c & [= <-] & Hc & Hz & _)]%Hf; [now apply Example_arrival.none_forgotten in Hr |].
      vm_compute in Hc; injection Hc as <-; discriminate. }
    intros q; rewrite Hl; split; [now intros [? _] | intros Hc; split; [exact Hc | auto]].
Defined.

Lemma add_header_ok_witness :
  exists p n' b, AddToBlockIndex (H := toy_hashes) Example_arrival.node (header Example_arrival.block1) = Ok (p, n') /\
    mapBlockIndex (chainstate n') !! p = Some b /\ nHeight b = 1 /\ pskip b = Some 0%nat.
Proof.
  destruct (add_header_ok (H1 := toy_hashes) 0%nat Example_arrival.node (header Example_arrival.block1) Example_arrival.hash1 (set_compact 537858047))
    as (p & n' & b & E & _ & _ & Em & _).
  - exact Example_arrival.node_inv.
  - vm_compute; reflexivity.
  - exact Example_arrival.block1_fits.
  - exists p, n', b; split; [exact E |]; split; [rewrite Em; apply lookup_insert_eq |].
    pose proof (f_equal (fun m : index_map => m !! p) Em) as Eb; cbn beta in Eb; rewrite lookup_insert_eq in Eb.
    vm_compute in E; injection E as <- <-; vm_compute in Eb; injection Eb as <-; split; reflexivity.
Defined.
