(* ===== verification/MostWork.v ===== *)
(** * The choice of the chain with the most work

    [FindMostWorkChain] against its meaning: a candidate is usable when no block
    between it and the active chain failed or misses its data; the function
    returns the best usable candidate, removes only candidates that are not
    usable and marks only blocks that descend from a failed one. *)
From stdpp Require Import gmap strings.
From S2P Require Import Prelude BlockIndex BlockIndexSpec Chain ArithUint256 ArithUint256Spec Pow PowSpec TxCheck.
From S2P Require Import ChainState ChainTree ChainStateSpec.

Section Usable.
Context (m : index_map) (t : ptr).

Definition bad_entry (b : CBlockIndex) : bool := has_status b BLOCK_FAILED_MASK || negb (has_status b BLOCK_HAVE_DATA).

(** [q] is a block of the branch of [p] above the active chain. *)
Definition branch (p q : ptr) (b : CBlockIndex) : Prop := descends m p q /\ ~ descends m t q /\ m !! q = Some b.

Definition usable (p : ptr) : Prop := forall q b, branch p q b -> bad_entry b = false.

(** [p] descends from a block above the active chain that failed. *)
Definition doomed (p : ptr) : Prop := exists q b, branch p q b /\ has_status b BLOCK_FAILED_MASK = true.

Lemma descends_trans p q r : descends m p q -> descends m q r -> descends m p r.
Proof. intros [k Hk]; now apply (descends_up m k). Qed.

Lemma usable_ancestor p q : usable p -> descends m p q -> usable q.
Proof. intros Hu Hd r b (H1 & H2 & H3); apply (Hu r b); split; [now apply (descends_trans p q) | auto]. Qed.

Lemma doomed_descendant p q : doomed q -> descends m p q -> doomed p.
Proof. intros (r & b & (H1 & H2) & Hf) Hd; exists r, b; split; [split; [now apply (descends_trans p q) | exact H2] | exact Hf]. Qed.

Lemma doomed_usable p : doomed p -> usable p -> False.
Proof. intros (q & b & Hb & Hf) Hu; specialize (Hu q b Hb); unfold bad_entry in Hu; now rewrite Hf in Hu. Qed.

(** One step of the branch. *)
Lemma usable_step p b : m !! p = Some b -> bad_entry b = false ->
  (forall q, pprev b = Some q -> usable q) -> usable p.
Proof.
  intros Hp Hb Hq r c ([k Hk] & Hn & Hc); destruct k as [| k]; cbn [up] in Hk.
  - injection Hk as <-; congruence.
  - rewrite Hp in Hk; destruct (pprev b) as [q |]; [| discriminate]; apply (Hq q eq_refl r); split; [now exists k | auto].
Qed.

Lemma usable_inside p : descends m t p -> usable p.
Proof. intros Hd q b (H1 & H2 & _); destruct H2; now apply (descends_trans t p). Qed.
End Usable.

(** ** The walk to the active chain *)

Lemma test_path_ok m c t fuel : tree_ok m -> chain_to m c t -> forall p b,
  m !! p = Some b -> nChainTx b <> 0 -> nHeight b < Z.of_nat fuel ->
  exists r, test_path fuel m c (Some p) = Ok r /\
    match r with
    | None => usable m t p
    | Some (q, f) => exists d, branch m t p q d /\ bad_entry d = true /\ f = has_status d BLOCK_FAILED_MASK
    end.
Proof.
  intros Hm (bt & Ht & Hl & Hu); induction fuel as [| fuel IH]; intros p b Hp Hn Hf.
  { pose proof (eo_height _ _ _ (to_index m Hm p b Hp)); lia. }
  cbn [test_path]; destruct (Contains_iff m (to_index m Hm) c t bt Ht Hl Hu (E := unit) p b Hp) as ([|] & -> & Hc); cbn [mbind res_bind].
  { eexists; split; [reflexivity |]; apply usable_inside; now apply Hc. }
  assert (Hd : ~ descends m t p) by (intros Hd; apply Hc in Hd; discriminate).
  unfold deref; rewrite Hp; cbn [mbind res_bind]; rewrite (proj2 (Z.eqb_neq _ _) Hn); cbn [negb orb assert_ mbind res_bind].
  destruct (has_status b BLOCK_FAILED_MASK || negb (has_status b BLOCK_HAVE_DATA)) eqn:Eb.
  { eexists; split; [reflexivity |]; exists b; split; [split; [now exists 0%nat | auto] | auto]. }
  destruct (pprev b) as [q |] eqn:Eq.
  - destruct (parent m p b q Hm Hp Eq) as (d & Hq & Hh).
    destruct (IH q d Hq (to_linked m Hm p b q d Hp Hn Eq Hq) ltac:(lia)) as (r & -> & Hr); exists r; split; [reflexivity |].
    destruct r as [[q' f] |]; [| apply (usable_step m t p b Hp Eb); intros x Hx; assert (x = q) as -> by congruence; exact Hr].
    destruct Hr as (e & (H1 & H2) & H3); exists e; split; [split; [| exact H2] | exact H3].
    apply (descends_trans m p q); [exists 1%nat; cbn; now rewrite Hp, Eq | exact H1].
  - exists None; split; [now destruct fuel |]; apply (usable_step m t p b Hp Eb); congruence.
Qed.

Section Choice.
Context {V B U C : Type} `{CoinsDriverOk V B U C}.
Abbreviation state := (ChainState V U).

(** The entry after [nStatus |= BLOCK_FAILED_CHILD]. *)
Definition marked (b : CBlockIndex) : CBlockIndex := set_nStatus b (Z.lor (nStatus b) BLOCK_FAILED_CHILD).

Lemma marked_twice b : marked (marked b) = marked b.
Proof. unfold marked, set_nStatus; cbn; now rewrite <- Z.lor_assoc, Z.lor_diag. Qed.

Lemma marked_failed b : has_status (marked b) BLOCK_FAILED_MASK = true.
Proof.
  unfold has_status, marked; cbn [nStatus set_nStatus]; apply negb_true_iff, Z.eqb_neq; rewrite Z.land_lor_distr_l.
  intros E; apply Z.lor_eq_0_iff in E as [_ E]; discriminate.
Qed.

(** What a round of the choice may change. *)
Record cleaned (t : ptr) (st st' : state) : Prop := {
  cl_quiet : quiet st st';
  cl_gone : forall q, q ∈ setBlockIndexCandidates st -> q ∉ setBlockIndexCandidates st' -> ~ usable (mapBlockIndex st) t q;
  cl_mark : forall q b, mapBlockIndex st !! q = Some b ->
    mapBlockIndex st' !! q = Some b \/ (doomed (mapBlockIndex st) t q /\ mapBlockIndex st' !! q = Some (marked b));
}.

Lemma cleaned_branch t st st' p q b' : cleaned t st st' -> branch (mapBlockIndex st') t p q b' ->
  exists b, branch (mapBlockIndex st) t p q b /\ (b' = b \/ (doomed (mapBlockIndex st) t q /\ b' = marked b)).
Proof.
  intros [Q _ Hm] (H1 & H2 & H3); pose proof (qu_tree _ _ Q) as T; symmetry in T.
  destruct (tree_eq_Some _ _ q b' T H3) as (b & Hb & _); exists b; split.
  - split; [now apply (descends_tree_eq _ _ _ _ T) |]; split; [| exact Hb].
    intros Hd; apply H2; symmetry in T; now apply (descends_tree_eq _ _ _ _ T).
  - destruct (Hm q b Hb) as [E | [Hd E]]; [left | right; split; [exact Hd |]]; congruence.
Qed.

Lemma branch_cleaned t st st' p q b : cleaned t st st' -> branch (mapBlockIndex st) t p q b ->
  exists b', branch (mapBlockIndex st') t p q b' /\ (b' = b \/ b' = marked b).
Proof.
  intros [Q _ Hm] (H1 & H2 & H3); pose proof (qu_tree _ _ Q) as T.
  assert (Hn : ~ descends (mapBlockIndex st') t q) by (intros Hd; apply H2; symmetry in T; now apply (descends_tree_eq _ _ _ _ T)).
  destruct (Hm q b H3) as [E | [_ E]]; eexists; (split; [split; [now apply (descends_tree_eq _ _ _ _ T) | split; [exact Hn | exact E]] | auto]).
Qed.

(** It changes neither which candidates are usable nor which are doomed. *)
Lemma cleaned_usable t st st' p : cleaned t st st' -> usable (mapBlockIndex st) t p <-> usable (mapBlockIndex st') t p.
Proof.
  intros Hc; split; intros Hu q b Hb.
  - destruct (cleaned_branch t st st' p q b Hc Hb) as (b0 & Hb0 & [-> | [Hd _]]); [now apply (Hu q) |].
    destruct (doomed_usable _ _ q Hd); apply (usable_ancestor _ _ p q Hu), Hb0.
  - destruct (branch_cleaned t st st' p q b Hc Hb) as (b' & Hb' & [-> | ->]); [now apply (Hu q) |].
    specialize (Hu q _ Hb'); unfold bad_entry in Hu; now rewrite marked_failed in Hu.
Qed.

Lemma cleaned_doomed t st st' p : cleaned t st st' -> doomed (mapBlockIndex st') t p -> doomed (mapBlockIndex st) t p.
Proof.
  intros Hc (q & b' & Hb' & Hf); destruct (cleaned_branch t st st' p q b' Hc Hb') as (b & Hb & [-> | [Hd _]]).
  - now exists q, b.
  - apply (doomed_descendant _ _ p q Hd), Hb.
Qed.

#[global] Instance cleaned_preorder t : PreOrder (cleaned t).
Proof.
  split; [intros st; split; [reflexivity | contradiction | auto] |]; intros x y z Hxy Hyz.
  split; [transitivity y; [apply Hxy | apply Hyz] | |].
  - intros q Hq Hz; destruct (decide (q ∈ setBlockIndexCandidates y)) as [Hy | Hy]; [| now apply (cl_gone _ _ _ Hxy)].
    rewrite (cleaned_usable t x y q Hxy); now apply (cl_gone _ _ _ Hyz).
  - intros q b Hb; destruct (cl_mark _ _ _ Hxy q b Hb) as [Ey | [Hd Ey]];
      (destruct (cl_mark _ _ _ Hyz q _ Ey) as [Ez | [Hd' Ez]]; [auto | right]).
    + split; [now apply (cleaned_doomed t x y) | exact Ez].
    + split; [exact Hd | now rewrite marked_twice in Ez].
Qed.

Lemma cleaned_erase t st p : ~ usable (mapBlockIndex st) t p -> cleaned t st (erase_candidate st p).
Proof.
  intros Hu; split; [apply quiet_erase | | cbn; auto]; cbn; intros q Hq Hn.
  destruct (decide (q = p)) as [-> | Hne]; [exact Hu | destruct Hn; apply elem_of_difference; split; [exact Hq | now intros ->%elem_of_singleton]].
Qed.

Lemma cleaned_mark t st p : doomed (mapBlockIndex st) t p ->
  cleaned t st (set_index st (or_status (mapBlockIndex st) p BLOCK_FAILED_CHILD)).
Proof.
  intros Hd; split; [apply quiet_or_status | contradiction |]; intros q b Hb; cbn; unfold or_status.
  destruct (decide (q = p)) as [-> | Hne]; [right | left; now rewrite lookup_alter_ne by congruence].
  split; [exact Hd | now rewrite lookup_alter_eq, Hb].
Qed.

Lemma cleaned_unlinked t st l : cleaned t st (set_unlinked st l).
Proof. split; [apply quiet_unlinked | contradiction | auto]. Qed.

Lemma cleaned_raise t st p b st' :
  mapBlockIndex st !! p = Some b -> raise_best_invalid st p b = Ok st' -> cleaned t st st'.
Proof.
  intros Hp E; pose proof (quiet_raise st p b st' Hp E) as Q; revert E; unfold raise_best_invalid.
  destruct (pindexBestInvalid st) as [q |]; [intros (c & _ & E)%bind_returns; destruct (a_gt _ _) |]; try injection E as <-; try intros [= <-];
    (split; [exact Q | contradiction | auto]).
Qed.

Lemma raise_total st t p b : chain_inv st t -> exists st', raise_best_invalid st p b = Ok st'.
Proof.
  intros Hi; unfold raise_best_invalid; destruct (pindexBestInvalid st) as [q |] eqn:Eq; [| eauto].
  destruct (ci_invalid _ _ Hi q Eq) as [c Hc]; unfold deref; rewrite Hc; cbn; eauto.
Qed.

(** The block that ends the walk dooms the branch above it, or leaves it without
    data. *)
Definition stops (m : index_map) (t p q : ptr) (f : bool) : Prop :=
  exists d, branch m t p q d /\ bad_entry d = true /\ f = has_status d BLOCK_FAILED_MASK.

Lemma stops_unusable m t p q f : stops m t p q f -> ~ usable m t p.
Proof. intros (d & Hb & Hd & _) Hu; specialize (Hu q d Hb); congruence. Qed.

Lemma stops_doomed m t p q : stops m t p q true -> doomed m t p.
Proof. intros (d & Hb & _ & Hf); now exists q, d. Qed.

(** One block of the branch leaves the candidates. *)
Lemma remove_one t st f pf b q pt :
  mapBlockIndex st !! pf = Some b -> pprev b = Some q -> stops (mapBlockIndex st) t pf pt f ->
  let st1 := if f then set_index st (or_status (mapBlockIndex st) pf BLOCK_FAILED_CHILD)
             else match pprev b with
                  | Some q => set_unlinked st (mapBlocksUnlinked st ++ [(q, pf)])
                  | None => st
                  end in
  cleaned t st (erase_candidate st1 pf).
Proof.
  intros Hp Hq Hs st1; assert (H1 : cleaned t st st1).
  { unfold st1; rewrite Hq; destruct f; [apply cleaned_mark; eapply stops_doomed, Hs | apply cleaned_unlinked]. }
  etransitivity; [exact H1 |]; apply cleaned_erase; rewrite <- (cleaned_usable t st st1 pf H1); eapply stops_unusable, Hs.
Qed.

Lemma remove_chain_ok t f pt fuel : forall k st pf b,
  (k <= fuel)%nat -> mapBlockIndex st !! pf = Some b -> up (mapBlockIndex st) k pf = Some pt ->
  stops (mapBlockIndex st) t pf pt f ->
  exists st', remove_chain fuel st f pt pf = Ok st' /\ cleaned t st st' /\
    (pf = pt \/ pf ∉ setBlockIndexCandidates st').
Proof.
  induction fuel as [| fuel IH]; intros k st pf b Hk Hp Hu Hs; cbn [remove_chain];
    (case_bool_decide as Eq; [exists st; split; [reflexivity |]; split; [reflexivity | auto] |]);
    (destruct k as [| k]; [cbn in Hu; congruence |]); [lia |].
  unfold deref; rewrite Hp; cbn [mbind res_bind]; cbn [up] in Hu; rewrite Hp in Hu.
  destruct (pprev b) as [q |] eqn:Epq; [| discriminate].
  pose proof (remove_one t st f pf b q pt Hp Epq Hs) as H1; cbv zeta in H1; rewrite Epq in H1; set (st1 := erase_candidate _ pf) in *.
  pose proof (qu_tree _ _ (cl_quiet _ _ _ H1)) as T.
  destruct Hs as (d & Hbr & Hbad & Hf); pose proof Hbr as (_ & Hoff & Hd).
  assert (Hd1 : mapBlockIndex st1 !! pt = Some d).
  { unfold st1; cbn; destruct f; cbn; [unfold or_status; rewrite lookup_alter_ne by congruence |]; exact Hd. }
  destruct (branch_cleaned t st st1 pf pt d H1 Hbr) as (d' & (_ & Hoff' & _) & _).
  assert (exists bq, mapBlockIndex st1 !! q = Some bq) as [bq Hbq].
  { destruct (mapBlockIndex st1 !! q) eqn:Eq1; [eauto |]; rewrite (up_tree_eq _ _ k T) in Hu.
    destruct k; cbn [up] in Hu; [injection Hu as ->; congruence | now rewrite Eq1 in Hu]. }
  rewrite (up_tree_eq _ _ k T) in Hu.
  destruct (IH k st1 q bq ltac:(lia) Hbq Hu) as (st' & -> & H2 & _).
  { exists d; split; [split; [now exists k | now split] | auto]. }
  exists st'; split; [reflexivity |]; split; [now transitivity st1 | right].
  intros Hin; apply (qu_cands _ _ (cl_quiet _ _ _ H2)) in Hin; unfold st1 in Hin; cbn in Hin.
  apply elem_of_difference in Hin as [_ Hin]; now apply Hin, elem_of_singleton.
Qed.

(** A round that does not choose its candidate removes it. *)
Lemma most_work_round t st p b q f :
  chain_inv st t -> p ∈ setBlockIndexCandidates st -> mapBlockIndex st !! p = Some b -> stops (mapBlockIndex st) t p q f ->
  exists st1 st2, (if f then raise_best_invalid st p b else Ok st) = Ok st1 /\
    remove_chain (S (Z.to_nat (nHeight b))) st1 f q p = Ok st2 /\ cleaned t st (erase_candidate st2 q) /\
    setBlockIndexCandidates (erase_candidate st2 q) ⊂ setBlockIndexCandidates st.
Proof.
  intros Hi Hp Hb Hs; destruct (raise_total st t p b Hi) as [st1' Hr].
  assert (exists st1, (if f then raise_best_invalid st p b else Ok st) = Ok st1 /\ cleaned t st st1 /\ mapBlockIndex st1 = mapBlockIndex st)
    as (st1 & E1 & H1 & M1).
  { destruct f; [| exists st; split; [reflexivity | split; [reflexivity | reflexivity]]].
    exists st1'; split; [exact Hr |]; split; [now apply (cleaned_raise t st p b) |]; revert Hr; unfold raise_best_invalid.
    destruct (pindexBestInvalid st); [intros (c & _ & E)%bind_returns; injection E as <-; now destruct (a_gt _ _) | now intros [= <-]]. }
  assert (Hs1 : stops (mapBlockIndex st1) t p q f) by now rewrite M1.
  pose proof Hs as (d & ([k Hk] & _ & Hd) & _).
  destruct (up_exists_height _ (to_index _ (ci_tree _ _ Hi)) k p b q Hb Hk) as (Hle & _).
  destruct (remove_chain_ok t f q (S (Z.to_nat (nHeight b))) k st1 p b) as (st2 & E2 & H2 & Hgone);
    [lia | now rewrite M1 | now rewrite M1 | exact Hs1 |].
  exists st1, st2; split; [exact E1 |]; split; [exact E2 |].
  assert (H12 : cleaned t st st2) by now transitivity st1.
  assert (Hq : ~ usable (mapBlockIndex st) t q).
  { destruct Hs as (d' & (_ & Hoff & Hq') & Hbad & _); intros Hu; specialize (Hu q d'); rewrite Hu in Hbad; [discriminate |].
    split; [now exists 0%nat | now split]. }
  split; [transitivity st2; [exact H12 |]; apply cleaned_erase; now rewrite <- (cleaned_usable t st st2 q H12) |].
  pose proof (qu_cands _ _ (cl_quiet _ _ _ H12)) as Hsub; cbn; split.
  - intros x [Hx _]%elem_of_difference; now apply Hsub.
  - intros Hall; specialize (Hall p Hp); apply elem_of_difference in Hall as [Hin Hne]; destruct Hgone as [-> | Hgone]; [| contradiction].
    now apply Hne, elem_of_singleton.
Qed.

Lemma most_work_ok t fuel : forall st, chain_inv st t -> (size (setBlockIndexCandidates st) <= fuel)%nat ->
  exists r st', most_work_loop fuel st = Ok (r, st') /\ cleaned t st st' /\
    match r with
    | None => setBlockIndexCandidates st' = ∅
    | Some p => p ∈ setBlockIndexCandidates st' /\ usable (mapBlockIndex st') t p /\
        forall q, q ∈ setBlockIndexCandidates st' -> worse (mapBlockIndex st') p q = false
    end.
Proof.
  induction fuel as [| fuel IH]; intros st Hi Hsz; cbn [most_work_loop];
    (pose proof (best_candidate_ok _ (ci_tree _ _ Hi) (setBlockIndexCandidates st)) as Hb;
     destruct (best_candidate _ _) as [p |];
     [| exists None, st; split; [reflexivity |]; split; [reflexivity |]; apply Hb; intros p Hp;
        destruct (ci_cands _ _ Hi p Hp) as (b & Hx & _); eauto]);
    (destruct Hb as [Hp Hbest]; [intros q Hq; destruct (ci_cands _ _ Hi q Hq) as (b & Hx & _); eauto |]);
    destruct (ci_cands _ _ Hi p Hp) as (b & Hpb & Hn); unfold deref; rewrite Hpb; cbn [mbind res_bind].
  - assert (Hz : setBlockIndexCandidates st ≡ ∅) by (apply size_empty_inv; lia); exfalso; apply (Hz p) in Hp; set_solver.
  - destruct (test_path_ok _ _ t (S (Z.to_nat (nHeight b))) (ci_tree _ _ Hi) (ci_chain _ _ Hi) p b Hpb Hn ltac:(lia)) as (r & -> & Hr).
    cbn [mbind res_bind]; destruct r as [[q f] |]; [| exists (Some p), st; split; [reflexivity |]; split; [reflexivity | auto]].
    destruct (most_work_round t st p b q f Hi Hp Hpb Hr) as (st1 & st2 & -> & E2 & Hc & Hlt); cbn [mbind res_bind]; rewrite E2; cbn [mbind res_bind].
    apply subset_size in Hlt.
    destruct (IH (erase_candidate st2 q)) as (r' & st' & E' & Hc' & Hr'); [| lia |].
    { apply (quiet_inv st); [apply Hc | exact Hi]. }
    exists r', st'; split; [exact E' |]; split; [now transitivity (erase_candidate st2 q) | exact Hr'].
Qed.

(** C8: the choice of the chain with the most work.  In every state of the
    invariant, [FindMostWorkChain] returns.  It answers null if and only if no
    candidate is usable: on the way from every candidate to the active chain
    some block failed or misses its data.  Otherwise it returns a usable
    candidate that no usable candidate is better than.  It leaves the active
    chain and the coins as they are, removes only candidates that are not
    usable, and marks as failed only blocks that descend from a failed block
    above the active chain. *)
Theorem find_most_work_exact (st : state) (t : ptr) :
  chain_inv st t ->
  exists r st', FindMostWorkChain st = Ok (r, st') /\ cleaned t st st' /\
    match r with
    | None => forall p, p ∈ setBlockIndexCandidates st -> ~ usable (mapBlockIndex st) t p
    | Some p => p ∈ setBlockIndexCandidates st /\ usable (mapBlockIndex st) t p /\
        forall q, q ∈ setBlockIndexCandidates st -> usable (mapBlockIndex st) t q -> worse (mapBlockIndex st) p q = false
    end.
Proof.
  intros Hi; destruct (most_work_ok t (S (size (setBlockIndexCandidates st))) st Hi ltac:(lia)) as (r & st' & E & Hc & Hr).
  exists r, st'; split; [exact E |]; split; [exact Hc |]; pose proof (qu_tree _ _ (cl_quiet _ _ _ Hc)) as T; destruct r as [p |].
  - destruct Hr as (Hp & Hu & Hb); split; [now apply (qu_cands _ _ (cl_quiet _ _ _ Hc)) |].
    split; [now apply (cleaned_usable t st st') |]; intros q Hq Huq; rewrite (worse_tree_eq _ _ p q T); apply Hb.
    destruct (decide (q ∈ setBlockIndexCandidates st')); [assumption | now destruct (cl_gone _ _ _ Hc q Hq)].
  - intros p Hp; apply (cl_gone _ _ _ Hc p Hp); rewrite Hr; set_solver.
Qed.
End Choice.

(** ** An example

    In the tree of [Example_driver] the best candidate failed and a block on the
    way to another one has no data. *)
Module Example_choice.
Import Example_driver.

Definition hurt : ChainState log_view Z :=
  set_index start (or_status (alter (fun b => set_nStatus b BLOCK_VALID_TRANSACTIONS) 1%nat tree) 4 BLOCK_FAILED_VALID).

Lemma hurt_inv : chain_inv hurt 0%nat.
Proof.
  apply (shape_inv start); auto; [| apply start_inv]; transitivity (alter (fun b => set_nStatus b BLOCK_VALID_TRANSACTIONS) 1%nat tree);
    [| apply tree_eq_or_status].
  intros q; destruct (decide (q = 1%nat)) as [-> | Hne]; [reflexivity | now rewrite lookup_alter_ne by congruence].
Qed.

Example hurt_choice :
  match FindMostWorkChain hurt with
  | Ok (r, st) => r = Some 3%nat /\ elements (setBlockIndexCandidates st) = [2%nat; 3%nat; 0%nat]
  | _ => False
  end /\
  match FindMostWorkChain (set_index hurt (or_status (mapBlockIndex hurt) 3 BLOCK_FAILED_VALID)) with
  | Ok (r, st) => r = Some 0%nat /\ elements (setBlockIndexCandidates st) = [0%nat] /\ mapBlocksUnlinked st = [(1%nat, 2%nat)]
  | _ => False
  end.
Proof. vm_compute; auto. Qed.
End Example_choice.

Import Example_driver Example_choice.

Lemma find_most_work_exact_witness :
  exists r st', FindMostWorkChain hurt = Ok (r, st') /\ cleaned 0%nat hurt st' /\
    match r with
    | None => forall p, p ∈ setBlockIndexCandidates hurt -> ~ usable (mapBlockIndex hurt) 0%nat p
    | Some p => p ∈ setBlockIndexCandidates hurt /\ usable (mapBlockIndex hurt) 0%nat p /\
        forall q, q ∈ setBlockIndexCandidates hurt -> usable (mapBlockIndex hurt) 0%nat q -> worse (mapBlockIndex hurt) p q = false
    end.
Proof. exact (find_most_work_exact hurt 0%nat hurt_inv). Defined.
