(* ===== verification/ChainLive.v ===== *)
(** * ActivateBestChain returns

    The driver's loops end, and no assertion or null pointer stops them: every
    round of ActivateBestChain activates the block it aimed at, or leaves a tip
    with more work, or marks a block as failed that was not.  When it succeeds,
    no candidate but the tip is left. *)
From stdpp Require Import gmap strings.
From S2P Require Import Prelude BlockIndex BlockIndexSpec Chain ArithUint256 ArithUint256Spec Pow PowSpec TxCheck.
From S2P Require Import ChainState ChainTree ChainStateSpec MostWork.

(** ** What is relied on *)

(** Connecting and disconnecting give an answer, a rejection is not blamed on
    corrupt data, the best trees are readable, and flushing returns. *)
Class CoinsDriverLive (V B U C : Type) `{CoinsDriverOk V B U C} : Prop := {
  connect_live m v p b q bq block c :
    tree_ok m -> m !! p = Some b -> pprev b = Some q -> m !! q = Some bq -> represents v c (blockHash bq) ->
    ReadBlockFromDisk p = Some block ->
    match connect_view m v p block with Exn _ | Err (Rejected _ true) => False | _ => True end;
  disconnect_live m v p b q bq block c u :
    tree_ok m -> m !! p = Some b -> pprev b = Some q -> m !! q = Some bq -> represents v c (blockHash b) ->
    ReadBlockFromDisk p = Some block ->
    match disconnect_view m v p block u with Exn _ => False | _ => True end;
  trees_live v c h : represents v c h -> is_Some (read_trees v);
  flush_live v c h : represents v c h -> match FlushStateToDisk v with Exn _ => False | _ => True end;
}.

(** ** Paths *)

(** The blocks [ps] are connected one on the other, the first on [f]. *)
Fixpoint chain_path (m : index_map) (f : ptr) (ps : list ptr) : Prop :=
  match ps with
  | [] => True
  | p :: ps => (exists b, m !! p = Some b /\ pprev b = Some f) /\ chain_path m p ps
  end.

Lemma chain_path_tree_eq m m' : tree_eq m m' -> forall ps f, chain_path m f ps -> chain_path m' f ps.
Proof.
  intros T ps; induction ps as [| p ps IH]; intros f; cbn; [auto |]; intros ((b & Hb & Hf) & Hp); split; [| auto].
  destruct (tree_eq_Some m m' p b T Hb) as (b' & Hb' & Eb); exists b'; split; [exact Hb' |].
  pose proof (f_equal pprev Eb) as Ep; cbn in Ep; congruence.
Qed.

(** The last block of a path. *)
Definition end_of (f : ptr) (ps : list ptr) : ptr := fold_left (fun _ p => p) ps f.

Lemma end_of_snoc f ps p : end_of f (ps ++ [p]) = p.
Proof. unfold end_of; now rewrite fold_left_app. Qed.

Lemma chain_path_snoc m ps : forall f p b, chain_path m f ps -> m !! p = Some b -> pprev b = Some (end_of f ps) -> chain_path m f (ps ++ [p]).
Proof.
  induction ps as [| q ps IH]; intros f p b Hp Hb Hl; cbn [app chain_path] in *; [eauto |]; destruct Hp as [Hq Hp]; split; [exact Hq |].
  now apply (IH q p b Hp Hb).
Qed.

(** [to_connect] collects the path from below. *)
Lemma to_connect_ok m f c : tree_ok m -> m !! f = Some c -> forall k fuel p b acc,
  (k <= fuel)%nat -> m !! p = Some b -> up m k p = Some f ->
  exists ps, to_connect fuel m (Some p) (nHeight c) acc = Ok (ps ++ acc) /\ chain_path m f ps /\ end_of f ps = p /\
    Forall (fun q => descends m p q /\ exists d, m !! q = Some d /\ nHeight c < nHeight d) ps.
Proof.
  intros Hm Hf k; induction k as [| k IH]; intros fuel p b acc Hk Hp Hu.
  - cbn [up] in Hu; injection Hu as ->; assert (c = b) as -> by congruence; exists []; cbn [to_connect app chain_path].
    split; [| repeat split; constructor]; destruct fuel; cbn [to_connect]; unfold deref; rewrite Hp; cbn [mbind res_bind]; now rewrite Z.eqb_refl.
  - destruct (up_exists_height m (to_index m Hm) (S k) p b f Hp Hu) as (_ & c' & Hc' & Hh); assert (c' = c) as -> by congruence.
    destruct fuel as [| fuel]; [lia |]; cbn [to_connect]; unfold deref; rewrite Hp; cbn [mbind res_bind].
    rewrite (proj2 (Z.eqb_neq _ _)) by lia; cbn [up] in Hu; rewrite Hp in Hu; destruct (pprev b) as [q |] eqn:Eq; [| discriminate].
    destruct (parent m p b q Hm Hp Eq) as (d & Hq & _).
    destruct (IH fuel q d (p :: acc) ltac:(lia) Hq Hu) as (ps & -> & Hpa & He & Hall).
    exists (ps ++ [p]); split; [now rewrite <- app_assoc |]; split; [apply (chain_path_snoc m ps f p b Hpa Hp); now rewrite He |].
    split; [apply end_of_snoc |]; apply Forall_app; split.
    + eapply Forall_impl; [| exact Hall]; intros x [Hd Hx]; split; [| exact Hx].
      apply (descends_trans m p q); [exists 1%nat; cbn; now rewrite Hp, Eq | exact Hd].
    + apply Forall_cons_2; [| apply Forall_nil_2]; split; [now exists 0%nat |]; exists b; split; [exact Hp | lia].
Qed.

(** The work of the chain that ends in a block. *)
Definition work_of (m : index_map) (p : ptr) : Z := match m !! p with Some b => work b | None => 0 end.

Lemma work_of_tree_eq m m' p : tree_eq m m' -> work_of m p = work_of m' p.
Proof.
  intros T; unfold work_of; destruct (m !! p) as [b |] eqn:Hb.
  - destruct (tree_eq_Some m m' p b T Hb) as (b' & -> & Eb); unfold work; pose proof (f_equal nChainWork Eb) as Ew; cbn in Ew; now rewrite Ew.
  - specialize (T p); rewrite Hb in T; now destruct (m' !! p).
Qed.

Lemma more_work_ok m t o : tree_ok m -> is_Some (m !! t) -> is_Some (m !! o) ->
  more_work m t (Some o) = Ok (work_of m o <? work_of m t).
Proof.
  intros Hm [b Hb] [c Hc]; unfold more_work, work_of, deref; rewrite Hb, Hc; cbn [mbind res_bind]; f_equal.
  apply a_gt_spec; [exact (to_arith m Hm t b Hb) | exact (to_arith m Hm o c Hc)].
Qed.

(** ** One genesis block *)

Definition one_root (m : index_map) : Prop :=
  forall p q b c, m !! p = Some b -> m !! q = Some c -> pprev b = None -> pprev c = None -> p = q.

Lemma one_root_tree_eq m m' : tree_eq m m' -> one_root m -> one_root m'.
Proof.
  intros T Hr p q b' c' Hp Hq Hb Hc; symmetry in T.
  destruct (tree_eq_Some _ _ p b' T Hp) as (b & Hp' & Eb), (tree_eq_Some _ _ q c' T Hq) as (c & Hq' & Ec).
  pose proof (f_equal pprev Eb) as E1; pose proof (f_equal pprev Ec) as E2; cbn in E1, E2; apply (Hr p q b c Hp' Hq'); congruence.
Qed.

Lemma reaches_root m p b : tree_ok m -> m !! p = Some b -> exists g c, descends m p g /\ m !! g = Some c /\ pprev c = None.
Proof.
  intros Hm Hp; pose proof (to_index m Hm) as Hx; pose proof (eo_height _ _ _ (Hx p b Hp)).
  destruct (up_height m Hx (Z.to_nat (nHeight b)) p b Hp ltac:(lia)) as (g & c & Hu & Hg & Hh); exists g, c; split; [eexists; exact Hu |].
  split; [exact Hg |]; destruct (pprev c) as [q |] eqn:Eq; [| reflexivity].
  destruct (parent m g c q Hm Hg Eq) as (d & Hd & Hdh); pose proof (eo_height _ _ _ (Hx q d Hd)); lia.
Qed.

Lemma fork_found m c t p b : tree_ok m -> one_root m -> chain_to m c t -> m !! p = Some b ->
  exists f, FindFork (E := unit) m c (Some p) = Ok (Some f) /\ last_common m t p (Some f).
Proof.
  intros Hm Hr Hc Hp; pose proof Hc as (bt & Ht & Hl & Hu).
  destruct (FindFork_ok m (to_index m Hm) c t bt Ht Hl Hu (E := unit) p b Hp) as ([f |] & E & Hlc); [eauto |]; exfalso.
  destruct (reaches_root m p b Hm Hp) as (g & d & Hg & Hgd & Hgn), (reaches_root m t bt Hm Ht) as (g' & d' & Hg' & Hgd' & Hgn').
  assert (g' = g) as -> by exact (Hr g' g d' d Hgd' Hgd Hgn' Hgn); exact (Hlc g Hg Hg').
Qed.

(** ** The measure of the loop *)

Definition is_failed (m : index_map) (p : ptr) : bool := match m !! p with Some b => has_status b BLOCK_FAILED_MASK | None => false end.

(** The blocks that have not failed, and those with more work than the tip. *)
Definition unfailed (m : index_map) : gset ptr := base.filter (fun p => is_failed m p = false) (dom m).
Definition better (m : index_map) (t : ptr) : gset ptr := base.filter (fun p => work_of m t < work_of m p) (dom m).

Definition remaining (m : index_map) (t : ptr) : nat := size (unfailed m) * S (size m) + size (better m t).

Lemma is_failed_iff m p : is_failed m p = true <-> failed m p.
Proof.
  unfold is_failed, failed; split; [destruct (m !! p) as [b |]; [eauto | discriminate] |]; intros (b & -> & Hb); exact Hb.
Qed.

Lemma dom_tree_eq m m' : tree_eq m m' -> dom m = dom m'.
Proof.
  intros T; apply set_eq; intros p; rewrite !elem_of_dom; split; intros Hp; [now apply (known_tree_eq m) |].
  symmetry in T; now apply (known_tree_eq m').
Qed.

Lemma better_tree_eq m m' t : tree_eq m m' -> better m t = better m' t.
Proof.
  intros T; unfold better; rewrite (dom_tree_eq m m' T); apply set_eq; intros p; rewrite !elem_of_filter.
  now rewrite !(work_of_tree_eq m m' _ T).
Qed.

Lemma unfailed_subset m m' : tree_eq m m' -> (forall p, failed m p -> failed m' p) -> unfailed m' ⊆ unfailed m.
Proof.
  intros T Hf p; unfold unfailed; rewrite (dom_tree_eq m m' T), !elem_of_filter; intros [Hp Hd]; split; [| exact Hd].
  destruct (is_failed m p) eqn:E; [| reflexivity]; apply is_failed_iff, Hf, is_failed_iff in E; congruence.
Qed.

Lemma remaining_bound m t : (remaining m t < S (size m) * S (size m))%nat.
Proof.
  assert (H1 : (size (unfailed m) <= size m)%nat) by (rewrite <- size_dom; apply subseteq_size; intros p; now intros [_ Hp]%elem_of_filter).
  assert (H2 : (size (better m t) <= size m)%nat) by (rewrite <- size_dom; apply subseteq_size; intros p; now intros [_ Hp]%elem_of_filter).
  unfold remaining; nia.
Qed.

(** A change that keeps the tree and the failed blocks does not raise it, a tip
    with more work or a newly failed block lowers it. *)
Lemma remaining_le m m' t : tree_eq m m' -> (forall p, failed m p -> failed m' p) -> (remaining m' t <= remaining m t)%nat.
Proof.
  intros T Hf; unfold remaining; rewrite <- (better_tree_eq m m' t T); pose proof (subseteq_size _ _ (unfailed_subset m m' T Hf)).
  rewrite <- (size_dom m), <- (size_dom m'), (dom_tree_eq m m' T); nia.
Qed.

Lemma remaining_better m t t' : is_Some (m !! t') -> work_of m t < work_of m t' -> (remaining m t' < remaining m t)%nat.
Proof.
  intros Ht Hw; unfold remaining; enough (size (better m t') < size (better m t))%nat by lia; apply subset_size; split.
  - intros p [Hp Hd]%elem_of_filter; apply elem_of_filter; split; [lia | exact Hd].
  - intros Hs; specialize (Hs t'); unfold better in Hs; rewrite !elem_of_filter in Hs; destruct Hs as [Hs _]; [split; [exact Hw | now apply elem_of_dom] | lia].
Qed.

Lemma remaining_failed m m' t t' p : tree_eq m m' -> (forall q, failed m q -> failed m' q) -> is_Some (m !! p) ->
  ~ failed m p -> failed m' p -> (remaining m' t' < remaining m t)%nat.
Proof.
  intros T Hf Hp Hn Hp'; unfold remaining; rewrite <- (better_tree_eq m m' t' T).
  assert (H2 : (size (better m t') <= size m)%nat) by (rewrite <- size_dom; apply subseteq_size; intros q; now intros [_ Hq]%elem_of_filter).
  assert (H1 : (size (unfailed m') < size (unfailed m))%nat).
  { apply subset_size; split; [now apply unfailed_subset |]; intros Hs; specialize (Hs p); unfold unfailed in Hs; rewrite !elem_of_filter in Hs.
    destruct Hs as [Hs _]; [split; [| now apply elem_of_dom]; destruct (is_failed m p) eqn:E; [apply is_failed_iff in E; contradiction | reflexivity] |].
    apply is_failed_iff in Hp'; congruence. }
  rewrite <- (size_dom m), <- (size_dom m'), (dom_tree_eq m m' T) in *; nia.
Qed.

Section Live.
Context {V B U C : Type} `{CoinsDriverLive V B U C}.
Abbreviation state := (ChainState V U).

(** ** Moving the tip *)

Lemma UpdateTip_total (st : state) t p b : chain_inv st t -> mapBlockIndex st !! p = Some b -> exists st', UpdateTip st (Some p) = Ok st'.
Proof.
  intros Hi Hp; unfold UpdateTip; destruct (SetTip_ok (mapBlockIndex st) (chainActive st) p b) as (c & -> & _);
    [apply (ci_tree _ _ Hi) | right; exists t; apply (ci_chain _ _ Hi) | exact Hp | eexists; reflexivity].
Qed.

Lemma DisconnectTip_total vs (st : state) t b q : chain_inv st t -> mapBlockIndex st !! t = Some b -> pprev b = Some q ->
  exists r, DisconnectTip vs st = Ok r.
Proof.
  intros Hi Hb Hq; unfold DisconnectTip; rewrite (chain_inv_Tip st t Hi); unfold deref; rewrite Hb; cbn [mbind res_bind].
  destruct (ReadBlockFromDisk t) as [block |] eqn:Ed; [| eauto]; case_bool_decide; [eauto |].
  destruct (if has_status b BLOCK_HAVE_UNDO then _ else None) as [u |] eqn:Eu; [| eauto].
  destruct (ci_coins _ _ Hi) as (c & b' & Hb' & R & Hr); assert (b' = b) as -> by congruence.
  destruct (parent _ t b q (ci_tree _ _ Hi) Hb Hq) as (bq & Hbq & Hh).
  pose proof (disconnect_live _ (pcoinsTip st) t b q bq block c u (ci_tree _ _ Hi) Hb Hq Hbq Hr Ed) as Hl.
  destruct (disconnect_view _ _ t block u) as [[[] v] | |] eqn:Ev; try contradiction; eauto.
  inversion R as [p0 b0 Hp0 Hn | p0 b0 q0 block0 c0 Hp0 Hq0 Hd0 R0]; subst; [congruence |].
  assert (b0 = b) as -> by congruence; assert (q0 = q) as -> by congruence; assert (block0 = block) as -> by congruence.
  assert (Eu' : undo_files st !! t = Some u) by (destruct (has_status b BLOCK_HAVE_UNDO); congruence).
  pose proof (ci_undo _ _ Hi t u Eu' b q block c0 Hb Hq Ed R0) as Hu.
  pose proof (disconnect_ok _ _ t b q bq block c0 _ u v (ci_tree _ _ Hi) Hb Hq Hbq Hh Hr Ed Hu Ev) as Hv.
  pose proof (flush_live v c0 _ Hv) as Hf; destruct (FlushStateToDisk v) as [v2 | |] eqn:Ef; try contradiction; [| eauto].
  rewrite Hq; destruct (SetTip_ok (mapBlockIndex st) (chainActive st) q bq) as (cc & Es & _);
    [apply (ci_tree _ _ Hi) | right; exists t; apply (ci_chain _ _ Hi) | exact Hbq |].
  unfold UpdateTip; cbn [mapBlockIndex chainActive set_view]; rewrite Es; cbn [mbind res_bind pcoinsTip set_chain set_view].
  destruct (trees_live v2 c0 _ (flush_ok _ _ _ _ Hv Ef)) as [v3 ->]; eauto.
Qed.

Lemma record_undo_total (st : state) p b u : exists st', record_undo st p b u = Ok st'.
Proof.
  unfold record_undo, IsValid, RaiseValidity.
  change (Z.land BLOCK_VALID_SCRIPTS (Z.lnot BLOCK_VALID_MASK) =? 0) with true; cbn [assert_ mbind res_bind].
  destruct (negb (Z.land (nStatus b) BLOCK_FAILED_MASK =? 0)); cbn [mbind res_bind];
    (destruct (negb _ || negb _); [| eauto]); destruct (negb (has_status b BLOCK_HAVE_UNDO)); cbn [mbind res_bind];
    repeat (destruct (negb _); cbn [mbind res_bind]); try destruct (_ <? _); cbn [mbind res_bind]; eauto.
Qed.

Lemma InvalidChainFound_total (st : state) t p : chain_inv st t -> is_Some (mapBlockIndex st !! p) -> exists st', InvalidChainFound st p = Ok st'.
Proof.
  intros Hi [b Hb]; unfold InvalidChainFound, deref; rewrite Hb; cbn [mbind res_bind].
  destruct (raise_total st t p b Hi) as [st1 E1]; rewrite E1; cbn [mbind res_bind].
  rewrite (qu_chain _ _ (quiet_raise st p b st1 Hb E1)), (chain_inv_Tip st t Hi); cbn; eauto.
Qed.

Lemma ConnectTip_total vs (st : state) t p b pblock :
  chain_inv st t -> mapBlockIndex st !! p = Some b -> pprev b = Some t -> same_block p pblock -> mode vs = MODE_VALID ->
  exists r, ConnectTip vs st p pblock = Ok r /\ (mode r.1.2 = MODE_INVALID -> corruptionPossible r.1.2 = false).
Proof.
  intros Hi Hb Hq Hs Hvs; unfold ConnectTip, deref; rewrite Hb; cbn [mbind res_bind].
  rewrite (chain_inv_Tip st t Hi), Hq, bool_decide_eq_true_2 by reflexivity; cbn [assert_ mbind res_bind].
  assert (Hd : forall block, (match pblock with Some block => Some block | None => ReadBlockFromDisk p end) = Some block ->
    ReadBlockFromDisk p = Some block) by (intros block; destruct pblock; auto).
  destruct (match pblock with Some block => Some block | None => ReadBlockFromDisk p end) as [block |];
    [specialize (Hd block eq_refl) | eexists; split; [reflexivity | discriminate]].
  destruct (ci_coins _ _ Hi) as (c & bt & Hbt & R & Hr); destruct (trees_live _ _ _ Hr) as [v Et]; rewrite Et.
  pose proof (read_trees_ok _ _ _ _ Hr Et) as Hr1; pose proof (chain_inv_view st t v c bt Hi Hbt R Hr1) as Hi1.
  cbv zeta; pose proof (connect_live (mapBlockIndex st) v p b t bt block c (ci_tree _ _ Hi) Hb Hq Hbt Hr1 Hd) as Hl.
  change (mapBlockIndex (set_view st v)) with (mapBlockIndex st).
  destruct (connect_view (mapBlockIndex st) v p block) as [[u v1] | [r [] | [reason |]] | x] eqn:Ec; try contradiction.
  - destruct (parent _ p b t (ci_tree _ _ Hi) Hb Hq) as (bq & Hbq & Hh); assert (bq = bt) as -> by congruence.
    destruct (connect_ok _ v p b t bt block c u v1 (ci_tree _ _ Hi) Hb Hq Hbt Hh Hr1 Hd Ec) as [Hr2 Hu].
    destruct (record_undo_total (set_view st v) p b u) as [st1 E1]; rewrite E1; cbn [mbind res_bind].
    destruct (record_undo_inv (set_view st v) t p b t c block u st1 Hi1 Hb Hq Hd R Hu E1) as [Hi2 Ev].
    destruct (tree_eq_Some _ _ p b (ev_tree _ _ Ev) Hb) as (b' & Hb' & _).
    pose proof (flush_live _ _ _ Hr2) as Hf; destruct (FlushStateToDisk v1) as [v2 | |]; try contradiction; [| eexists; split; [reflexivity | discriminate]].
    destruct (SetTip_ok (mapBlockIndex st1) (chainActive st1) p b') as (cc & Es & _);
      [apply (ci_tree _ _ Hi2) | right; exists t; apply (ci_chain _ _ Hi2) | exact Hb' |].
    unfold UpdateTip; cbn [mapBlockIndex chainActive set_view]; rewrite Es; cbn [mbind res_bind].
    eexists; split; [reflexivity |]; cbn; congruence.
  - unfold state_DoS; rewrite Hvs; cbn [mode]; unfold InvalidBlockFound; cbn [corruptionPossible].
    match goal with |- context [InvalidChainFound ?s p] =>
      assert (Q : quiet (set_view st v) s) by (etransitivity; [apply quiet_or_status | apply quiet_erase]); set (s0 := s) in * end.
    destruct (InvalidChainFound_total s0 t p) as [st1 ->]; [now apply (quiet_inv (set_view st v)) | |].
    { apply (known_tree_eq (mapBlockIndex st)); [apply (qu_tree _ _ Q) | eauto]. }
    cbn [mbind res_bind]; eexists; split; [reflexivity | reflexivity].
  - eexists; split; [reflexivity | discriminate].
  - eexists; split; [reflexivity |]; cbn; congruence.
Qed.

(** ** The loops *)

Lemma disconnect_to_total f fuel : forall vs (st : state) t k,
  driver_inv st t -> up (mapBlockIndex st) k t = Some f -> (k <= fuel)%nat -> exists r, disconnect_to fuel vs st (Some f) = Ok r.
Proof.
  induction fuel as [| fuel IH]; intros vs st t k Hi Hu Hk; cbn [disconnect_to]; rewrite (chain_inv_Tip st t (di_chain _ _ Hi));
    (case_bool_decide as Ef; [eauto |]); (destruct k as [| k]; [cbn in Hu; congruence |]); [lia |].
  cbn [up] in Hu; destruct (mapBlockIndex st !! t) as [b |] eqn:Hb; [| discriminate]; destruct (pprev b) as [q |] eqn:Eq; [| discriminate].
  destruct (DisconnectTip_total vs st t b q (di_chain _ _ Hi) Hb Eq) as [[[ok vs1] st1] E]; rewrite E; cbn [mbind res_bind].
  destruct ok; cbn [negb]; [| eauto]; destruct (DisconnectTip_inv _ _ _ _ _ _ Hi E) as (-> & M & b' & q' & Hb' & Hq' & Hi').
  assert (q' = q) as -> by congruence; apply (IH vs st1 q k Hi'); [now rewrite (mv_index _ _ M) | lia].
Qed.

Lemma Prune_total (st : state) t p : chain_inv st t -> p ∈ setBlockIndexCandidates st -> worse (mapBlockIndex st) p t = false ->
  exists st', PruneBlockIndexCandidates st = Ok st' /\ p ∈ setBlockIndexCandidates st'.
Proof.
  intros Hi Hp Hw; unfold PruneBlockIndexCandidates; rewrite (chain_inv_Tip st t Hi); set (s := base.filter _ _).
  assert (Hin : p ∈ s) by (now apply elem_of_filter); rewrite bool_decide_eq_false_2 by (intros Hs; rewrite Hs in Hin; set_solver).
  cbn [negb assert_ mbind res_bind]; eauto.
Qed.

(** What a batch of connections towards [mostWork] leaves, from the tip [t]; [o]
    is the tip before the step. *)
Definition batch_ok (st : state) (o mostWork last : ptr) (ps : list ptr) (r : batch) (vs' : CValidationState) (st' : state) : Prop :=
  match r with
  | BatchDone => driver_inv st' last /\ mostWork ∈ setBlockIndexCandidates st'
  | BatchBetter => exists t', driver_inv st' t' /\ work_of (mapBlockIndex st) o < work_of (mapBlockIndex st) t'
  | BatchInvalid => exists t' p, driver_inv st' t' /\ p ∈ ps /\ failed (mapBlockIndex st') p
  | BatchFailed => True
  end /\ (r <> BatchFailed -> mode vs' = MODE_VALID /\ evolves st st').

Lemma batch_ok_trans (st st1 : state) o mw last p ps r vs' st' :
  evolves st st1 -> batch_ok st1 o mw last ps r vs' st' -> batch_ok st o mw last (p :: ps) r vs' st'.
Proof.
  intros Ev [Hb Hr]; split; [| intros Hn; destruct (Hr Hn) as [Hv Ev']; split; [exact Hv | now transitivity st1]].
  destruct r; auto.
  - destruct Hb as (t' & Hi & Hw); exists t'; split; [exact Hi |]; now rewrite !(work_of_tree_eq _ _ _ (ev_tree _ _ Ev)).
  - destruct Hb as (t' & q & Hi & Hq & Hf); exists t', q; split; [exact Hi |]; split; [now right | exact Hf].
Qed.

Lemma connect_batch_total o mostWork pblock back ps : same_block mostWork pblock -> forall vs (st : state) t,
  driver_inv st t -> mode vs = MODE_VALID -> chain_path (mapBlockIndex st) t ps -> mostWork ∈ setBlockIndexCandidates st ->
  Forall (descends (mapBlockIndex st) mostWork) ps -> is_Some (mapBlockIndex st !! o) -> (ps <> [] -> is_Some (mapBlockIndex st !! back)) ->
  exists r vs' st', connect_batch vs st (Some o) mostWork pblock back ps = Ok (r, vs', st') /\ batch_ok st o mostWork (end_of t ps) ps r vs' st'.
Proof.
  intros Hs; induction ps as [| p ps IH]; intros vs st t Hi Hvs Hpa Hmw Hall Ho Hback; cbn [connect_batch].
  { exists BatchDone, vs, st; split; [reflexivity |]; split; [now split |]; intros _; split; [exact Hvs | reflexivity]. }
  destruct Hpa as [(b & Hb & Hq) Hpa]; apply Forall_cons_1 in Hall as [Hd Hall].
  assert (Hsb : same_block p (if bool_decide (p = mostWork) then pblock else None))
    by (case_bool_decide; [subst p; exact Hs | intros block; discriminate]).
  destruct (ConnectTip_total vs st t p b _ (di_chain _ _ Hi) Hb Hq Hsb Hvs) as ([[ok vs1] st1] & Ec & Hcor); rewrite Ec; cbn [mbind res_bind fst snd] in *.
  pose proof (ConnectTip_ok _ _ _ _ _ _ _ _ (di_chain _ _ Hi) Hsb Ec) as Hc; destruct ok; cbn [negb].
  - destruct Hc as (-> & Hi1 & Ev1 & Es & _); pose proof (ev_tree _ _ Ev1) as T1.
    destruct (ci_cands _ _ (di_chain _ _ Hi) mostWork Hmw) as (bm & Hbm & _); destruct (tree_eq_Some _ _ _ bm T1 Hbm) as (bm' & Hbm' & _).
    destruct (Prune_total st1 p mostWork Hi1) as (st2 & Ep & Hmw2); [now rewrite Es | |].
    { apply (worse_ancestor _ (ci_tree _ _ Hi1) mostWork p bm' Hbm'); now apply (descends_tree_eq (mapBlockIndex st)). }
    rewrite Ep; cbn [mbind res_bind]; pose proof (Prune_best _ _ _ Hi1 Ep) as Hi2.
    assert (Ev2 : evolves st st2) by (etransitivity; [exact Ev1 | now apply quiet_evolves, quiet_Prune]); pose proof (ev_tree _ _ Ev2) as T2.
    rewrite (chain_inv_Tip _ _ (di_chain _ _ Hi2)), (more_work_ok _ p o (ci_tree _ _ (di_chain _ _ Hi2)));
      [| apply (known_tree_eq _ _ _ T2); eauto | now apply (known_tree_eq _ _ _ T2)]; cbn [mbind res_bind].
    destruct (Z.ltb_spec (work_of (mapBlockIndex st2) o) (work_of (mapBlockIndex st2) p)) as [Hw | Hw].
    + exists BatchBetter, vs, st2; split; [reflexivity |]; split; [| intros _; split; [exact Hvs | exact Ev2]].
      exists p; split; [exact Hi2 |]; now rewrite !(work_of_tree_eq _ _ _ T2).
    + destruct (IH vs st2 p Hi2 Hvs) as (r & vs' & st' & E & Hr).
      * now apply (chain_path_tree_eq _ _ T2).
      * exact Hmw2.
      * eapply Forall_impl; [| exact Hall]; intros x Hx; now apply (descends_tree_eq _ _ _ _ T2).
      * now apply (known_tree_eq _ _ _ T2).
      * intros _; apply (known_tree_eq _ _ _ T2), Hback; discriminate.
      * exists r, vs', st'; split; [exact E |]; now apply (batch_ok_trans st st2).
  - destruct (mode vs1) eqn:Em; [exists BatchFailed, vs1, st1; split; [reflexivity |]; split; [exact I | contradiction] | |
      exists BatchFailed, vs1, st1; split; [reflexivity |]; split; [exact I | contradiction]].
    specialize (Hcor eq_refl); rewrite Hcor; destruct Hc as [Hc | (Hi1 & Ev1 & Hf)]; [discriminate |].
    specialize (Hf eq_refl ltac:(congruence) Hcor).
    destruct (InvalidChainFound_total st1 t back Hi1) as [st2 E2]; [apply (known_tree_eq _ _ _ (ev_tree _ _ Ev1)), Hback; discriminate |].
    rewrite E2; cbn [mbind res_bind]; pose proof (quiet_InvalidChainFound _ _ _ E2) as Q.
    assert (Hi1' : driver_inv st1 t) by (split; [exact Hi1 | apply (evolves_best st); [exact Ev1 | apply Hi]]).
    exists BatchInvalid, new_state, st2; split; [reflexivity |]; split.
    + exists t, p; split; [now apply (quiet_driver_inv st1) |]; split; [now left | now apply (qu_failed _ _ Q)].
    + intros _; split; [reflexivity |]; etransitivity; [exact Ev1 | now apply quiet_evolves].
Qed.

(** What the connections from the height [h] up to [mostWork] leave. *)
Definition climb_ok (st : state) (o mostWork : ptr) (h : Z) (r : batch) (vs' : CValidationState) (st' : state) : Prop :=
  match r with
  | BatchDone => driver_inv st' mostWork
  | BatchBetter => exists t', driver_inv st' t' /\ work_of (mapBlockIndex st) o < work_of (mapBlockIndex st) t'
  | BatchInvalid => exists t' p d, driver_inv st' t' /\ failed (mapBlockIndex st') p /\ descends (mapBlockIndex st) mostWork p /\
      mapBlockIndex st !! p = Some d /\ h < nHeight d
  | BatchFailed => True
  end /\ (r <> BatchFailed -> mode vs' = MODE_VALID /\ evolves st st').

Lemma climb_ok_trans (st st1 : state) o mw h h1 r vs' st' :
  evolves st st1 -> h <= h1 -> climb_ok st1 o mw h1 r vs' st' -> climb_ok st o mw h r vs' st'.
Proof.
  intros Ev Hh [Hb Hr]; split; [| intros Hn; destruct (Hr Hn) as [Hv Ev']; split; [exact Hv | now transitivity st1]].
  pose proof (ev_tree _ _ Ev) as T; destruct r; auto.
  - destruct Hb as (t' & Hi & Hw); exists t'; split; [exact Hi |]; now rewrite !(work_of_tree_eq _ _ _ T).
  - destruct Hb as (t' & q & d & Hi & Hf & Hd & Hq & Hlt); symmetry in T; destruct (tree_eq_Some _ _ q d T Hq) as (d' & Hq' & Ed).
    exists t', q, d'; split; [exact Hi |]; split; [exact Hf |]; split; [now apply (descends_tree_eq _ _ _ _ T) |]; split; [exact Hq' |].
    pose proof (f_equal nHeight Ed) as Eh; cbn in Eh; lia.
Qed.

(** The next batch: its blocks, from the tip [f] up to the target height. *)
Lemma next_batch m mostWork bm f c : tree_ok m -> m !! mostWork = Some bm -> m !! f = Some c -> descends m mostWork f ->
  nHeight c <> nHeight bm -> let target := Z.min (nHeight c + 32) (nHeight bm) in
  exists top d ps, GetAncestor (E := unit) m mostWork target = Ok (Some top) /\ m !! top = Some d /\ nHeight d = target /\
    nHeight c < target /\ to_connect (S (Z.to_nat target)) m (Some top) (nHeight c) [] = Ok ps /\ chain_path m f ps /\ end_of f ps = top /\
    descends m mostWork top /\
    Forall (fun q => descends m mostWork q /\ exists d, m !! q = Some d /\ nHeight c < nHeight d) ps.
Proof.
  intros Hm Hb Hf [k Hk] Hne target; pose proof (to_index m Hm) as Hx; pose proof (eo_height _ _ _ (Hx f c Hf)) as H0'.
  destruct (up_exists_height m Hx k mostWork bm f Hb Hk) as (Hkb & c' & Hc' & Hh); assert (c' = c) as -> by congruence.
  destruct (up_height m Hx (Z.to_nat (nHeight bm - target)) mostWork bm Hb ltac:(lia)) as (top & d & Hu & Hd & Hdh).
  assert (Ek : k = (Z.to_nat (nHeight bm - target) + Z.to_nat (target - nHeight c))%nat) by lia.
  rewrite Ek, up_add, Hu in Hk.
  destruct (to_connect_ok m f c Hm Hf (Z.to_nat (target - nHeight c)) (S (Z.to_nat target)) top d [] ltac:(lia) Hd Hk) as (ps & Et & Hp & He & Hall).
  exists top, d, ps; rewrite (GetAncestor_ok m Hx mostWork bm target Hb) by lia; rewrite Hu, app_nil_r in *.
  split; [reflexivity |]; split; [exact Hd |]; split; [lia |]; split; [lia |]; split; [exact Et |]; split; [exact Hp |]; split; [exact He |].
  assert (Htop : descends m mostWork top) by (now exists (Z.to_nat (nHeight bm - target))); split; [exact Htop |].
  eapply Forall_impl; [| exact Hall]; intros q [Hq Hqd]; split; [now apply (descends_trans m mostWork top) | exact Hqd].
Qed.

Lemma climb_batch (st st' : state) o mw last h ps r vs' :
  Forall (fun q => descends (mapBlockIndex st) mw q /\ exists d, mapBlockIndex st !! q = Some d /\ h < nHeight d) ps -> r <> BatchDone ->
  batch_ok st o mw last ps r vs' st' -> climb_ok st o mw h r vs' st'.
Proof.
  intros Hall Hr [Hb Hv]; split; [| exact Hv]; destruct r; auto; [contradiction |].
  destruct Hb as (t' & p & Hi & Hp & Hf); destruct (proj1 (Forall_forall _ _) Hall p ltac:(now apply list_elem_of_In)) as (Hd & d & Hpd & Hlt).
  exists t', p, d; auto.
Qed.

Lemma connect_to_total o mostWork pblock : same_block mostWork pblock -> forall fuel vs (st : state) f c bm,
  driver_inv st f -> mode vs = MODE_VALID -> mapBlockIndex st !! f = Some c -> mapBlockIndex st !! mostWork = Some bm ->
  descends (mapBlockIndex st) mostWork f -> mostWork ∈ setBlockIndexCandidates st -> is_Some (mapBlockIndex st !! o) ->
  nHeight bm - nHeight c <= Z.of_nat fuel ->
  exists r vs' st', connect_to fuel vs st (Some o) mostWork pblock (nHeight c) = Ok (r, vs', st') /\
    climb_ok st o mostWork (nHeight c) r vs' st'.
Proof.
  intros Hs; induction fuel as [| fuel IH]; intros vs st f c bm Hi Hvs Hf Hb Hd Hmw Ho Hfu; cbn [connect_to]; unfold deref; rewrite Hb; cbn [mbind res_bind];
    pose proof (ci_tree _ _ (di_chain _ _ Hi)) as Ht; pose proof Hd as [k Hk];
    destruct (up_exists_height _ (to_index _ Ht) k mostWork bm f Hb Hk) as (Hkb & c' & Hc' & Hh); assert (c' = c) as -> by congruence;
    destruct (Z.eqb_spec (nHeight c) (nHeight bm)) as [Eh | Eh]; try lia.
  1, 2: exists BatchDone, vs, st; split; [reflexivity |]; split; [| intros _; split; [exact Hvs | reflexivity]].
  1, 2: assert (k = 0%nat) as -> by lia; cbn in Hk; injection Hk as <-; exact Hi.
  destruct (next_batch _ mostWork bm f c Ht Hb Hf Hd Eh) as (top & d & ps & -> & Hd' & Hdh & Hlt & Et & Hp & He & Htop & Hall).
  cbn [mbind res_bind]; rewrite Et; cbn [mbind res_bind].
  destruct (connect_batch_total o mostWork pblock (hd 0%nat ps) ps Hs vs st f Hi Hvs Hp Hmw) as (r & vs' & st' & Ec & Hr).
  { eapply Forall_impl; [| exact Hall]; intros q [Hq _]; exact Hq. }
  { exact Ho. }
  { intros Hne; destruct ps as [| q ps]; [contradiction |]; apply Forall_cons_1 in Hall as [(_ & x & Hx & _) _]; cbn; eauto. }
  rewrite Ec; cbn [mbind res_bind]; destruct r; cycle 1.
  1, 2, 3: eexists _, vs', st'; split; [reflexivity |]; eapply climb_batch; [exact Hall | discriminate | exact Hr].
  destruct Hr as [[Hi1 Hmw1] Hv]; destruct (Hv ltac:(discriminate)) as [Hvs1 Ev]; rewrite He in Hi1; pose proof (ev_tree _ _ Ev) as T.
  destruct (tree_eq_Some _ _ top d T Hd') as (d1 & Hd1 & Ed), (tree_eq_Some _ _ mostWork bm T Hb) as (bm1 & Hb1 & Eb).
  pose proof (f_equal nHeight Ed) as E1; pose proof (f_equal nHeight Eb) as E2; cbn in E1, E2; rewrite <- Hdh, E1.
  destruct (IH vs' st' top d1 bm1 Hi1 Hvs1 Hd1 Hb1) as (r & vs2 & st2 & E & Hr2); [now apply (descends_tree_eq _ _ _ _ T) | exact Hmw1
    | now apply (known_tree_eq _ _ _ T) | lia |].
  exists r, vs2, st2; split; [exact E |]; apply (climb_ok_trans st st' _ _ _ (nHeight d1)); [exact Ev | lia | exact Hr2].
Qed.

(** ** The step *)

Lemma InvalidateBlock_total vs (st : state) t p :
  driver_inv st t -> is_Some (mapBlockIndex st !! p) -> ~ descends (mapBlockIndex st) t p -> exists r, InvalidateBlock vs st p = Ok r.
Proof.
  intros Hi [b Hb] Hn; unfold InvalidateBlock; cbv zeta; set (s0 := erase_candidate _ p).
  assert (Q : quiet st s0) by (etransitivity; [apply quiet_or_status | apply quiet_erase]); pose proof (quiet_driver_inv _ _ _ Q Hi) as Hi0.
  destruct (ci_chain _ _ (di_chain _ _ Hi0)) as (bt & Ht & Hl & Hu); destruct (tree_eq_Some _ _ p b (qu_tree _ _ Q) Hb) as (b' & Hb' & _).
  destruct (Contains_iff _ (to_index _ (ci_tree _ _ (di_chain _ _ Hi0))) _ t bt Ht Hl Hu (E := unit) p b' Hb') as (c & Hc & Hd).
  assert (c = false) as ->.
  { destruct c; [| reflexivity]; exfalso; apply Hn, (descends_tree_eq (mapBlockIndex s0)); [symmetry; apply Q | now apply Hd]. }
  assert (El : invalidate_loop (length (chainActive st)) vs s0 p = Ok (true, vs, s0))
    by (destruct (length _); cbn [invalidate_loop]; rewrite Hc; reflexivity).
  change (chainActive s0) with (chainActive st); rewrite El; cbn [mbind res_bind negb]; rewrite (chain_inv_Tip _ _ (di_chain _ _ Hi0)).
  match goal with |- context [InvalidChainFound ?s p] => destruct (InvalidChainFound_total s t p) as [st1 ->] end; cbn [mbind res_bind]; eauto.
  apply di_chain, driver_inv_candidates; [exact Hi0 | intros q Hq; now apply eligible_ok].
Qed.

(** The notarised block, when it counts, is known. *)
Definition notarized_known (fSkipdpow : bool) (m : index_map) : Prop :=
  fSkipdpow = true \/ forall c, exists p b, m !! p = Some b /\ blockHash b = snd (komodo_notarized_height c).

Lemma notarized_known_tree_eq f m m' : tree_eq m m' -> notarized_known f m -> notarized_known f m'.
Proof.
  intros T [Hf | Hk]; [now left | right]; intros c; destruct (Hk c) as (p & b & Hp & Hh).
  destruct (tree_eq_Some _ _ p b T Hp) as (b' & Hp' & Eb); exists p, b'; split; [exact Hp' |].
  pose proof (f_equal blockHash Eb) as Eh; cbn in Eh; congruence.
Qed.

Lemma known_hash_ok m h p b : m !! p = Some b -> blockHash b = h -> known_hash m h = true.
Proof.
  intros Hp Hh; unfold known_hash; apply existsb_exists; exists (p, b); split; [now apply list_elem_of_In, elem_of_map_to_list |].
  now apply bool_decide_eq_true.
Qed.

(** What a step that succeeds leaves. *)
Definition step_ok (st : state) (t mostWork : ptr) (vs' : CValidationState) (st' : state) : Prop :=
  mode vs' = MODE_VALID /\ evolves st st' /\
  exists t', driver_inv st' t' /\
    (t' = mostWork \/ work_of (mapBlockIndex st) t < work_of (mapBlockIndex st) t' \/
     exists p, ~ failed (mapBlockIndex st) p /\ failed (mapBlockIndex st') p /\ is_Some (mapBlockIndex st !! p)).

(** A block above the fork was not failed before. *)
Lemma above_fork_fresh m t p f c q d :
  tree_ok m -> usable m t p -> last_common m t p (Some f) -> m !! f = Some c -> descends m p q -> m !! q = Some d -> nHeight c < nHeight d ->
  ~ failed m q.
Proof.
  intros Hm Hu (_ & _ & Hlast) Hf Hd Hq Hlt (d' & Hd' & Hfa); assert (d' = d) as -> by congruence.
  assert (Hb : bad_entry d = false).
  { apply (Hu q d); split; [exact Hd |]; split; [| exact Hq]; intros Ht; destruct (Hlast q Hd Ht) as [k Hk].
    destruct (up_exists_height m (to_index m Hm) k f c q Hf Hk) as (_ & x & Hx & Hh); assert (x = d) as -> by congruence; lia. }
  unfold bad_entry in Hb; now rewrite Hfa in Hb.
Qed.

Lemma ActivateBestChainStep_total fSkip vs (st : state) t mostWork pblock :
  driver_inv st t -> mode vs = MODE_VALID -> same_block mostWork pblock -> mostWork ∈ setBlockIndexCandidates st ->
  usable (mapBlockIndex st) t mostWork -> ~ descends (mapBlockIndex st) t mostWork -> one_root (mapBlockIndex st) ->
  notarized_known fSkip (mapBlockIndex st) -> 0 < MAX_REORG_LENGTH ->
  exists ok vs' st', ActivateBestChainStep fSkip vs st mostWork pblock = Ok (ok, vs', st') /\ (ok = true -> step_ok st t mostWork vs' st').
Proof.
  intros Hi Hvs Hs Hmw Hu Hn Hr Hk Hmax; unfold ActivateBestChainStep; cbv zeta; pose proof (di_chain _ _ Hi) as Hc; pose proof (ci_tree _ _ Hc) as Hm.
  destruct (ci_cands _ _ Hc mostWork Hmw) as (bm & Hbm & _); pose proof (ci_chain _ _ Hc) as (bt & Hbt & Hlen & _).
  destruct (fork_found _ (chainActive st) t mostWork bm Hm Hr (ci_chain _ _ Hc) Hbm) as (f & -> & Hlc); cbn [mbind res_bind].
  pose proof Hlc as (Hdf & [k Hkf] & _); destruct (up_exists_height _ (to_index _ Hm) k t bt f Hbt Hkf) as (Hkt & c & Hfc & Hfh).
  assert (exists refused, below_notarized st fSkip (Some f) = Ok refused /\ (refused = true -> fSkip = false)) as (refused & -> & Href).
  { unfold below_notarized; destruct fSkip; [exists false; split; [reflexivity | discriminate] |].
    rewrite (chain_inv_Tip _ _ Hc); unfold deref; rewrite Hbt, Hfc; cbn; eauto. }
  cbn [mbind res_bind]; destruct refused.
  { destruct Hk as [Hk | Hk]; [rewrite (Href eq_refl) in Hk; discriminate |]; destruct (Hk (chainActive st)) as (q & bq & Hq & Hh).
    rewrite (known_hash_ok _ _ q bq Hq Hh); cbn [negb].
    destruct (InvalidateBlock_total new_state st t mostWork Hi ltac:(eauto) Hn) as [[[ok1 vs1] st1] ->]; cbn [mbind res_bind].
    eexists _, _, _; split; [reflexivity | discriminate]. }
  unfold height_or, deref; rewrite Hfc; cbn [mbind res_bind]; rewrite (chain_inv_Tip _ _ Hc), Hbt; cbn [mbind res_bind].
  rewrite (proj2 (Z.ltb_lt _ _) Hmax); cbn [assert_ mbind res_bind].
  destruct (_ <? i32 _); [eexists _, _, _; split; [reflexivity | discriminate] |].
  destruct (disconnect_to_total f (length (chainActive st)) vs st t k Hi Hkf ltac:(lia)) as [[[ok1 vs1] st1] Ed]; rewrite Ed; cbn [mbind res_bind].
  pose proof (disconnect_to_ok _ _ _ _ _ _ _ _ Hi Ed) as Hd; destruct ok1; cbn [negb]; [| eexists _, _, _; split; [reflexivity | discriminate]].
  destruct Hd as (-> & M & f' & [= <-] & Hi1); rewrite (mv_index _ _ M), Hbm; cbn [mbind res_bind].
  pose proof (moved_evolves _ _ M) as Ev1.
  destruct (connect_to_total t mostWork pblock Hs (S (Z.to_nat (nHeight bm))) vs st1 f c bm Hi1 Hvs) as (r & vs2 & st2 & E & Hcl & Hv);
    [now rewrite (mv_index _ _ M) | now rewrite (mv_index _ _ M) | now rewrite (mv_index _ _ M) | now rewrite (mv_cands _ _ M)
    | rewrite (mv_index _ _ M); eauto | pose proof (eo_height _ _ _ (to_index _ Hm f c Hfc)); lia |].
  rewrite E; cbn [mbind res_bind].
  assert (Hstep : r <> BatchFailed -> exists t', driver_inv st2 t' /\ step_ok st t mostWork vs2 st2).
  { intros Hrf; destruct (Hv Hrf) as [Hvs2 Ev2]; rewrite (mv_index _ _ M) in Hcl.
    assert (Ev : evolves st st2) by (now transitivity st1).
    destruct r; [exists mostWork; split; [exact Hcl |] | destruct Hcl as (t' & Hi2 & Hw); exists t'; split; [exact Hi2 |]
      | destruct Hcl as (t' & p & d & Hi2 & Hfa & Hpd & Hp & Hlt); exists t'; split; [exact Hi2 |] | contradiction];
      (split; [exact Hvs2 |]; split; [exact Ev |]; eexists; split; [eassumption |]); auto.
    right; right; exists p; split; [exact (above_fork_fresh _ t mostWork f c p d Hm Hu Hlc Hfc Hpd Hp Hlt) | eauto]. }
  destruct r; [destruct (Hstep ltac:(discriminate)) as (t' & Hi2 & Hso).. | eexists _, _, _; split; [reflexivity | discriminate]];
    rewrite (chain_inv_Tip _ _ (di_chain _ _ Hi2)); eexists _, _, _; split; try reflexivity; auto.
Qed.

(** ** The loop *)

(** The comparator leaves at most one candidate that is as good as the tip. *)
Lemma same_best m p q : tree_ok m -> is_Some (m !! p) -> is_Some (m !! q) -> worse m p q = false -> worse m q p = false -> p = q.
Proof.
  intros Hm [a Ha] [b Hb] H1' H2'; pose proof (worse_false m Hm p q a b Ha Hb H1'); pose proof (worse_false m Hm q p b a Hb Ha H2'); lia.
Qed.

Definition settled (st : state) : Prop := exists t, driver_inv st t /\ setBlockIndexCandidates st ⊆ {[t]}.

Lemma settled_best (st : state) p :
  driver_inv st p -> (forall q, q ∈ setBlockIndexCandidates st -> worse (mapBlockIndex st) p q = false) -> settled st.
Proof.
  intros Hi Hb; exists p; split; [exact Hi |]; intros q Hq; apply elem_of_singleton; pose proof (di_chain _ _ Hi) as Hc.
  destruct (ci_cands _ _ Hc q Hq) as (b & Hqb & _); destruct (ci_coins _ _ Hc) as (_ & bp & Hp & _).
  exact (same_best (mapBlockIndex st) q p (ci_tree _ _ Hc) (mk_is_Some _ _ Hqb) (mk_is_Some _ _ Hp) (di_best _ _ Hi q Hq) (Hb q Hq)).
Qed.

(** What every round assumes of the state. *)
Record round_ready (fSkip : bool) (pblock : option (list Z * B)) (vs : CValidationState) (st : state) (t : ptr) : Prop := {
  rr_inv : driver_inv st t;
  rr_vs : mode vs = MODE_VALID;
  rr_block : block_known (mapBlockIndex st) pblock;
  rr_root : one_root (mapBlockIndex st);
  rr_notary : notarized_known fSkip (mapBlockIndex st);
}.

Lemma round_ready_next fSkip pblock vs vs' (st st' : state) t t' :
  round_ready fSkip pblock vs st t -> tree_eq (mapBlockIndex st) (mapBlockIndex st') -> driver_inv st' t' -> mode vs' = MODE_VALID ->
  round_ready fSkip pblock vs' st' t'.
Proof.
  intros [] T Hi Hv; split; auto; [now apply (block_known_tree_eq (mapBlockIndex st)) | now apply (one_root_tree_eq (mapBlockIndex st))
    | now apply (notarized_known_tree_eq _ (mapBlockIndex st))].
Qed.

Lemma step_lowers (st st' : state) t p vs' : step_ok st t p vs' st' -> Tip (chainActive st') <> Some p ->
  exists t', driver_inv st' t' /\ (remaining (mapBlockIndex st') t' < remaining (mapBlockIndex st) t)%nat.
Proof.
  intros (_ & Ev & t' & Hi & Ht) Hn; exists t'; split; [exact Hi |]; rewrite (chain_inv_Tip _ _ (di_chain _ _ Hi)) in Hn.
  destruct (ci_coins _ _ (di_chain _ _ Hi)) as (_ & b & Hb & _); pose proof (ev_tree _ _ Ev) as T.
  destruct Ht as [-> | [Hw | (q & Hq & Hq' & Hk)]]; [congruence | |].
  - eapply Nat.le_lt_trans; [apply (remaining_le (mapBlockIndex st)); apply Ev |]; apply remaining_better; [| exact Hw].
    symmetry in T; apply (known_tree_eq _ _ _ T); eauto.
  - apply (remaining_failed _ _ t t' q T); auto; apply Ev.
Qed.

Lemma activate_loop_total fSkip pblock fuel : 0 < MAX_REORG_LENGTH -> forall vs (st : state) t,
  round_ready fSkip pblock vs st t -> (remaining (mapBlockIndex st) t <= fuel)%nat ->
  exists ok vs' st', activate_loop fuel fSkip vs st pblock = Ok (ok, vs', st') /\ (ok = true -> settled st').
Proof.
  intros Hmax; induction fuel as [| fuel IH]; intros vs st t Hr Hm; cbn [activate_loop]; pose proof (rr_inv _ _ _ _ _ Hr) as Hi;
    destruct (most_work_ok t (S (size (setBlockIndexCandidates st))) st (di_chain _ _ Hi) ltac:(lia)) as (r & st1 & E1 & Hcl & Hbest);
    unfold FindMostWorkChain; rewrite E1; cbn [mbind res_bind]; pose proof (cl_quiet _ _ _ Hcl) as Q; pose proof (quiet_driver_inv _ _ _ Q Hi) as Hi1;
    pose proof (round_ready_next _ _ _ _ _ _ _ _ Hr (qu_tree _ _ Q) Hi1 (rr_vs _ _ _ _ _ Hr)) as Hr1; pose proof (di_chain _ _ Hi1) as Hc1;
    (destruct r as [p |]; [| exists true, vs, st1; split; [reflexivity |]; intros _; exists t; split; [exact Hi1 | rewrite Hbest; set_solver]]);
    destruct Hbest as (Hp & Hu & Hb); rewrite (chain_inv_Tip _ _ Hc1);
    (case_bool_decide as Et; [injection Et as ->; exists true, vs, st1; split; [reflexivity |]; intros _; now apply (settled_best st1 p) |]);
    (assert (Hn : ~ descends (mapBlockIndex st1) t p) by (intros Hd; destruct (ci_coins _ _ Hc1) as (_ & bt & Hbt & _);
       pose proof (worse_descends _ (ci_tree _ _ Hc1) p t bt Hbt Hd ltac:(congruence)); pose proof (di_best _ _ Hi1 p Hp); congruence));
    destruct (ActivateBestChainStep_total fSkip vs st1 t p (block_for (mapBlockIndex st1) p pblock) Hi1 (rr_vs _ _ _ _ _ Hr1)
      (rr_block _ _ _ _ _ Hr1 p) Hp Hu Hn (rr_root _ _ _ _ _ Hr1) (rr_notary _ _ _ _ _ Hr1) Hmax) as (ok & vs2 & st2 & -> & Hst);
    cbn [mbind res_bind]; (destruct ok; cbn [negb]; [specialize (Hst eq_refl) | eexists _, _, _; split; [reflexivity | discriminate]]);
    pose proof (remaining_le (mapBlockIndex st) (mapBlockIndex st1) t (qu_tree _ _ Q) (qu_failed _ _ Q)) as Hle;
    (case_bool_decide as Et2; [| destruct (step_lowers _ _ _ _ _ Hst Et2) as (t2 & Hi2 & Hlt)]).
  2: lia.
  3: { destruct Hst as (Hv2 & Ev & _); apply (IH vs2 st2 t2); [| lia]; exact (round_ready_next _ _ _ _ _ _ _ _ Hr1 (ev_tree _ _ Ev) Hi2 Hv2). }
  all: destruct Hst as (Hv2 & Ev & t2 & Hi2 & _); rewrite (chain_inv_Tip _ _ (di_chain _ _ Hi2)) in Et2; injection Et2 as ->.
  all: destruct (ci_coins _ _ (di_chain _ _ Hi2)) as (c & b & Hpb & R & Hrep); pose proof (flush_live _ _ _ Hrep) as Hfl.
  all: destruct (FlushStateToDisk (pcoinsTip st2)) as [v | |] eqn:Ef; try contradiction; [| eexists _, _, _; split; [reflexivity | discriminate]].
  all: exists true, vs2, (set_view st2 v); split; [reflexivity |]; intros _; apply (settled_best _ p); cbn.
  1, 3: split; [exact (chain_inv_view _ _ _ _ _ (di_chain _ _ Hi2) Hpb R (flush_ok _ _ _ _ Hrep Ef)) | apply (di_best _ _ Hi2)].
  all: intros q Hq; rewrite <- (worse_tree_eq _ _ p q (ev_tree _ _ Ev)); apply Hb, (ev_cands _ _ Ev), Hq.
Qed.

(** C3: the node settles on a best chain, as long as no block is rejected with the
    blame on corrupt data.  The theorem relies on the coin database: connecting or
    disconnecting a block and flushing answer without an exception, the best trees
    can be read, and no rejection says that corruption is possible (such a block is
    not marked as failed and is tried again without end: [corrupt_block_retried],
    main.cpp:5108).  Then, from every state of the invariant over a tree with one
    genesis block, in which the notarised block is known or the notary rule is
    skipped, the validation state has no error, a block that is passed along is the
    one on disk, and MAX_REORG_LENGTH is positive, [ActivateBestChain] returns: no
    assertion fails, no null pointer is read, and its loop ends, since every round
    activates the block it aimed at, or leaves a tip with more work, or marks as
    failed a block that was not.  When it reports success, the invariant holds and
    no candidate but the tip is left: none that is better remains to be tried. *)
Theorem activate_best_chain_settles (fSkip : bool) (pblock : option (list Z * B)) (vs : CValidationState) (st : state) (t : ptr) :
  round_ready fSkip pblock vs st t -> 0 < MAX_REORG_LENGTH ->
  exists ok vs' st', ActivateBestChain fSkip vs st pblock = Ok (ok, vs', st') /\ (ok = true -> settled st').
Proof.
  intros Hr Hmax; apply (activate_loop_total fSkip pblock _ Hmax vs st t Hr), Nat.lt_le_incl, remaining_bound.
Qed.
End Live.

Import Example_driver.

#[global] Instance log_driver_live : CoinsDriverLive log_view Z Z (list Z).
Proof.
  split.
  - intros m v p b q bq block c _ Hp _ _ _ _; cbn; unfold log_connect; rewrite Hp; now destruct (block =? 13).
  - intros m v p b q bq block c u _ Hp Hq Hb _ _; cbn; unfold log_disconnect; rewrite Hp; cbn; rewrite Hq; cbn; now rewrite Hb.
  - intros v c h _; cbn; eauto.
  - now intros v c h _.
Qed.

Lemma start_ready : round_ready false None new_state start 0%nat.
Proof.
  split; [exact start_inv | reflexivity | apply known | |].
  - intros p q b c Hp Hq Hb Hc; change (mapBlockIndex start) with tree in *; each_entry Hp; each_entry Hq; first [reflexivity | discriminate].
  - right; intros c; exists 0%nat, (entry None 0 1); now split.
Qed.

Lemma activate_best_chain_settles_witness :
  exists ok vs st, ActivateBestChain false new_state start None = Ok (ok, vs, st) /\ (ok = true -> settled st).
Proof. exact (activate_best_chain_settles false None new_state start 0%nat start_ready eq_refl). Defined.

(** ** A block that is blamed on corrupt data

    When [ConnectBlock] rejects a block with [corruptionIn], nothing is marked:
    the block stays the best candidate, and [ActivateBestChain] tries it again
    without end. *)
Module Example_corrupt.

Definition corrupt_connect (m : index_map) (v : log_view) (p : ptr) (block : Z) : res connect_error (Z * log_view) :=
  Err (Rejected (mkReject 100 REJECT_INVALID "bad-blk-sigops") true).

#[local] Instance corrupt_driver : CoinsDriver log_view Z Z := {|
  ReadBlockFromDisk p := Some (Z.of_nat p + 10);
  connect_view := corrupt_connect;
  disconnect_view := log_disconnect;
  read_trees := Some;
  FlushStateToDisk := Ok;
  komodo_notarized_height _ := (0, [0; 1]);
  MAX_REORG_LENGTH := 9;
|}.

Lemma round_repeats : FindMostWorkChain start = Ok (Some 4%nat, start) /\
  ActivateBestChainStep false new_state start 4%nat None = Ok (true, new_state, start).
Proof. vm_compute; auto. Qed.

Example corrupt_block_retried fuel : activate_loop fuel false new_state start None = Exn out_of_fuel.
Proof.
  destruct round_repeats as [E1 E2]; induction fuel as [| fuel IH]; cbn [activate_loop]; rewrite E1; cbn [mbind res_bind];
    (rewrite bool_decide_eq_false_2 by discriminate); unfold block_for; rewrite E2; cbn [mbind res_bind negb];
    (rewrite bool_decide_eq_false_2 by discriminate); [reflexivity | exact IH].
Qed.
End Example_corrupt.
