(* ===== verification/ChainCoins.v ===== *)
(** * The coin set under the driver

    The coin set that ConnectTip and DisconnectTip move: a cache over pcoinsTip
    on which ConnectBlock or DisconnectBlock runs and which is flushed into
    pcoinsTip, the reads of the best trees, and FlushStateToDisk.  They
    implement the interface [CoinsDriver] of the driver, and the theorems on
    ConnectBlock and DisconnectBlock discharge its laws. *)
From stdpp Require Import gmap functions strings.
From S2P Require Import Prelude Endian Hashing Merkle Script Interpreter Serialize Transaction TransactionSpec.
From S2P Require Import TxCheck TxCheckSpec Interest Subsidy Coins CoinsSer CoinsView CoinsViewSpec UpdateCoins.
From S2P Require Import UpdateCoinsSpec TxInputs ViewReads TxInputsSpec Connect ConnectTx ConnectSpec.
From S2P Require Import BlockIndex BlockIndexSpec Chain Pow ChainState ChainTree ChainStateSpec BlockCheck BlockCheckSpec.

(** The part of the start-up parameters that follows the tip. *)
Definition tip_params (P : ChainParams) (b : CBlockIndex) : ChainParams := {|
  ASSETCHAINS_PRIVATE := ASSETCHAINS_PRIVATE; ASSETCHAINS_PUBLIC := ASSETCHAINS_PUBLIC; ASSETCHAINS_TXPOW := ASSETCHAINS_TXPOW;
  isKMD := isKMD; isZEX := isZEX; tip_nTime := Some (nTime b); tip_nHeight := nHeight b; isnotaryvout := isnotaryvout |}.

(** [mapBlockIndex[hash]->nHeight]. *)
Definition height_of_hash (m : index_map) (h : uint256) : option Z :=
  head (omap (fun e => if decide (blockHash e.2 = h) then Some (nHeight e.2) else None) (map_to_list m)).

Definition tip_env (E : BlockEnv) (m : index_map) : BlockEnv := {|
  MAX_BLOCK_SIGOPS := MAX_BLOCK_SIGOPS; KOMODO_EXTRASATOSHI := KOMODO_EXTRASATOSHI; ASSETCHAINS_CC := ASSETCHAINS_CC;
  ASSETCHAINS_FOUNDERS := ASSETCHAINS_FOUNDERS; ASSETCHAINS_FOUNDERS_REWARD := ASSETCHAINS_FOUNDERS_REWARD;
  nScriptCheckThreads := nScriptCheckThreads; mapBlockIndex_nHeight := height_of_hash m;
  ServerChecker := ServerChecker; CheckEvalCondition := CheckEvalCondition; komodo_checkPOW := komodo_checkPOW |}.

(** What the node has besides the index: the blocks on disk, what the checks of
    the block at an entry consult, what [ConnectBlock] looks up about it, whether
    [ASSETCHAINS_NOTARY_PAY] is set and what komodo_connectblock and
    komodo_checknotarypay then say of the notarisation and its pay, whether
    [FlushStateToDisk] writes the coins or fails, the notarised block and the
    chain's history for interest. *)
Class NodeEnv (Tree : Type) := {
  blocks_on_disk : ptr -> option CBlock;
  tx_environment : index_map -> ptr -> TxEnvironment;
  check_environment : index_map -> ptr -> CheckEnv;
  sapling_active : Z -> bool;
  final_sapling_root : ptr -> uint256;
  script_checks_on : ptr -> bool;
  branch_id : Z -> Z;
  KOMODO_STOPAT : Z;
  notaries_paid : bool;
  komodo_connectblock : index_map -> ptr -> CBlock -> Z;
  komodo_checknotarypay : CBlock -> Z -> Z;
  flush_due : CCoinsViewCache Tree -> res string bool;
  notarized : vchain -> Z * list Z;
  max_reorg : Z;
  interest_chain : index_map -> ptr -> InterestChain;
}.

Section Coins.
Context {Tree : Type} `{AnchorTrees Tree, NoteTrees Tree, HashFunctions, LowS, MoneyLimit, SpendParams, SubsidyParams, NodeEnv Tree, Layout}.
Context (P : ChainParams) (E : BlockEnv).
Abbreviation top := (CCoinsViewCache Tree * view Tree)%type.
Abbreviation vtop v := (VCache v.1 v.2).

(** pcoinsTip, and the static variables of the subsidy. *)
Definition coins : Type := top * subsidy_cache.

(** The entry of a block, with its parent. *)
Definition with_parent (m : index_map) (p : ptr) : option (CBlockIndex * ptr * CBlockIndex) :=
  b ← m !! p; q ← pprev b; c ← m !! q; Some (b, q, c).

Definition block_position (p : ptr) (e : CBlockIndex * ptr * CBlockIndex) : block_pos :=
  let '(b, q, c) := e in
  mkPos (blockHash b) (nHeight b) (sapling_active (nHeight b)) (final_sapling_root p)
    (blockHash c) (final_sapling_root q) (sapling_active (nHeight c)).

(** The cache is flushed into pcoinsTip. *)
Definition flush_into {X} (v : top) (old : top) : res X top := '(_, base) ← Flush v.1 v.2; Ok (as_top base old).

(** [fExpensiveChecks ? verifier : disabledVerifier]. *)
Definition verifier_for (fExpensiveChecks : bool) (T : TxEnvironment) : TxEnvironment :=
  if fExpensiveChecks then T
  else {| banned := banned; TxCheck.ASSETCHAINS_STAKED := TxCheck.ASSETCHAINS_STAKED; newStakerActive := newStakerActive;
          DecodeStakingOpRet := DecodeStakingOpRet; VerifySprout := fun _ _ => true |}.

(** The checks at the beginning of [ConnectBlock] for a block over its parent:
    [CheckBlock], and [ContextualCheckBlock] unless the entry says that it has
    passed; blocks before 15 January 2019 are let through. *)
Definition connect_checks (m : index_map) (p : ptr) (e : CBlockIndex * ptr * CBlockIndex) (blk : CBlock) : res connect_error unit :=
  let '(b, q, c) := e in
  _ ← fail_if (negb (KOMODO_STOPAT =? 0) && (KOMODO_STOPAT <? nHeight b));
  let '(future, r) :=
    CheckBlock (H2 := tip_params P c) (H3 := verifier_for (script_checks_on p) (tx_environment m p)) (H5 := tip_env E m)
      (H6 := check_environment m p) (nHeight b) (Some (nTime c)) blk true true in
  _ ← r;
  _ ← fail_if future;
  if Z.land (nStatus b) BLOCK_VALID_CONTEXT =? BLOCK_VALID_CONTEXT then Ok tt
  else
    match ContextualCheckBlock (H2 := tip_params P c) (H6 := check_environment m p) m blk
            (pprev_list m (S (Z.to_nat (nHeight c))) (Some q)) with
    | Err x => if 1547510400 <? nTime b then Err x else Ok tt
    | r => r
    end.

(** The position of the notarisation and the notaries' pay: [notarypaycheque]. *)
Definition check_notary_pay (m : index_map) (p : ptr) (height : Z) (blk : CBlock) : res connect_error Z :=
  if notaries_paid && (10 <? height) then
    let notarisationTx := komodo_connectblock m p blk in
    if notarisationTx =? -1 then Err (Rejected (DoS 100 "bad-notarization-position") false)
    else if notarisationTx =? 1 then
      match vtx blk with
      | [] => Exn oob_read
      | (_, coinbase) :: _ =>
          if zlen (tx_vout coinbase) =? 1 then Err (Rejected (DoS 100 "bad-cb-amount") false)
          else
            let notarypaycheque := komodo_checknotarypay blk height in
            if 0 <? notarypaycheque then Ok notarypaycheque else Err (Rejected (DoS 100 "bad-cb-amount") false)
      end
    else Ok 0
  else Ok 0.

(** [ConnectTip] on a cache of its own, which is flushed when [ConnectBlock] accepts.
    Moving the block from the temporary file to its place on disk
    ([BLOCK_IN_TMPFILE], with ReceivedBlockTransactions) and setting
    [BLOCK_VALID_CONTEXT] change the index and not the coins; they are left out. *)
Definition coins_connect (m : index_map) (v : coins) (p : ptr) (blk : CBlock) : res connect_error (CBlockUndo * coins) :=
  match with_parent m p with
  | None => Exn oob_read
  | Some (b, q, c) =>
      _ ← connect_checks m p (b, q, c) blk;
      pay ← check_notary_pay m p (nHeight b) blk;
      let a := mkConnectArgs (block_position p (b, q, c)) (script_checks_on p) (branch_id (nHeight b)) true pay in
      match ConnectBlock (H3 := tip_params P c) (H6 := interest_chain m q) (H8 := tip_env E m) v.2 (new_cache, vtop v.1) (vtx blk) a with
      | Ok (undo, v1, s) => v1 ← flush_into v1 v.1; Ok (undo, (v1, s))
      | Err r => Err (Rejected r false)
      | Exn x => Exn x
      end
  end.

Definition coins_disconnect (m : index_map) (v : coins) (p : ptr) (blk : CBlock) (undo : CBlockUndo)
    : res string (bool * coins) :=
  match with_parent m p with
  | None => Exn oob_read
  | Some e =>
      '(clean, v1) ← DisconnectBlock (new_cache, vtop v.1) (vtx blk) (block_position p e) undo;
      v1 ← flush_into v1 v.1;
      Ok (clean, (v1, v.2))
  end.

(** The three best trees are read through pcoinsTip. *)
Definition coins_trees (v : coins) : option coins :=
  match ('(_, _, v1) ← best_tree v.1 SPROUT; '(_, _, v1) ← best_tree v1 SAPLING; best_tree v1 SAPLINGFRONTIER) with
  | Ok (_, _, v1) => Some (v1, v.2)
  | _ => None
  end.

(** The coins are written out when the cache is too large or old. *)
Definition coins_flush (v : coins) : res string coins :=
  due ← flush_due v.1.1;
  if (due : bool) then v1 ← Flush v.1.1 v.1.2; Ok (v1, v.2) else Ok v.

#[global] Instance coins_driver : CoinsDriver coins CBlock CBlockUndo := {|
  ReadBlockFromDisk := blocks_on_disk;
  connect_view := coins_connect;
  disconnect_view := coins_disconnect;
  read_trees := coins_trees;
  ChainState.FlushStateToDisk := coins_flush;
  komodo_notarized_height := notarized;
  MAX_REORG_LENGTH := max_reorg;
|}.

(** ** The laws *)

Context `{!MoneyLimitOk _}.

(** What is relied on: the transactions of a block on disk have fields of their
    machine types and different hashes, and none of them is an import; the times
    of transactions and the tip are of type uint32_t. *)
Definition block_on_disk_ok (blk : CBlock) : Prop :=
  Forall (fun t => machine_tx t.2 /\ IsCoinImport t.2 = false) (vtx blk) /\ base.NoDup (vtx blk).*1.

Context (disk_ok : forall p blk, blocks_on_disk p = Some blk -> block_on_disk_ok blk).
Context (interest_ok : forall m q, InterestChainOk (interest_chain m q)).

Lemma with_parent_eq m p b q c : m !! p = Some b -> pprev b = Some q -> m !! q = Some c -> with_parent m p = Some (b, q, c).
Proof. intros Hp Hq Hc; unfold with_parent; rewrite Hp; cbn; rewrite Hq; cbn; now rewrite Hc. Qed.

Lemma height_of_hash_ok m q c : tree_ok m -> m !! q = Some c -> height_of_hash m (blockHash c) = Some (nHeight c).
Proof.
  intros Hm Hq; unfold height_of_hash.
  assert (Hall : forall q' c', (q', c') ∈ map_to_list m -> blockHash c' = blockHash c -> c' = c).
  { intros q' c' Hin%elem_of_map_to_list He; assert (q' = q) as -> by exact (to_hash m Hm q' q c' c Hin Hq He); congruence. }
  apply elem_of_map_to_list in Hq; revert Hall Hq; induction (map_to_list m) as [| [q' c'] l IH]; intros Hall Hin;
    [now apply not_elem_of_nil in Hin |]; cbn.
  destruct (decide (blockHash c' = blockHash c)) as [He | He]; cbn.
  - now rewrite (Hall q' c' ltac:(now left) He).
  - apply IH; [intros q2 c2 Hl2; apply (Hall q2); now right |]; apply elem_of_cons in Hin as [[= <- <-] | Hin]; [contradiction | exact Hin].
Qed.

Lemma IsNull_false h : h <> uint256_null -> IsNull h = false.
Proof. intros Hn; unfold IsNull; now apply bool_decide_eq_false. Qed.

(** The block extends the tip, in the sense of the checks. *)
Lemma block_position_at_tip m p b q c : tree_ok m -> m !! p = Some b -> pprev b = Some q -> m !! q = Some c ->
  at_tip (H3 := tip_params P c) (H8 := tip_env E m) (block_position p (b, q, c)).
Proof.
  intros Hm Hp Hq Hc; destruct (parent m p b q Hm Hp Hq) as (c' & Hc' & Hh); assert (c' = c) as -> by congruence.
  destruct (to_known m Hm q c Hc) as [Hn _]; destruct (to_known m Hm p b Hp) as [_ Hr].
  pose proof (eo_height _ _ _ (to_index m Hm q c Hc)); split; cbn; [now apply IsNull_false | now apply height_of_hash_ok with q | exact Hh | lia].
Qed.

(** pcoinsTip holds the coin set [l], with the best block [h]. *)
Definition holds (v : coins) (l : level) (h : uint256) : Prop :=
  (exists s, good (vtop v.1) (l :: s)) /\ level_wf l /\ level_money l /\ hashBlock v.1.1 = h.

(** The undo data leads back, for transactions that were connected. *)
Definition leads_back (h : Z) (vtx : list (uint256 * CTransaction)) (undo : CBlockUndo) (l' l : level) : Prop :=
  length vtx = S (length (vtxundo undo)) /\ disconnects_all (with_undo vtx (vtxundo undo)) h l' l /\ level_wf l /\ level_money l.

Lemma good_fresh (v : top) l s : good (vtop v) (l :: s) -> good (VCache new_cache (vtop v)) (l :: l :: s).
Proof. intros Hg; destruct (refines_push (vtop v) (l :: s) Hg) as (v' & [= <-] & Hg'); exact Hg'. Qed.

Lemma write_block {X} (p : CCoinsViewCache Tree) (b : view Tree) ch base :
  BatchWrite (E := X) (VCache p b) ch = Ok base -> exists p', base = VCache p' b /\ hashBlock p' = hashBlock ch.
Proof.
  cbn [BatchWrite]; intros (x & _ & Hx)%bind_returns; apply bind_returns in Hx as (c & _ & Hx); injection Hx as <-; eexists; split; reflexivity.
Qed.

(** Flushing a cache over pcoinsTip moves its coins and its best block there. *)
Lemma flush_into_ok {X} (v old old' : top) l l' s :
  good (vtop v) (l :: l' :: s) -> s <> [] -> flush_into (X := X) v old = Ok old' ->
  good (vtop old') (l :: s) /\ hashBlock old'.1 = hashBlock v.1.
Proof.
  intros Hg Hs; unfold flush_into; destruct v as [c base]; cbn [fst snd] in *.
  destruct base as [d | p b]; [destruct Hg as (_ & _ & _ & Hr); destruct s; [contradiction | destruct Hr] |].
  destruct (good_flush (E := X) c (VCache p b) l l' s Hg) as (c' & b' & Hf & Hg' & Hb'); rewrite Hf; intros [= <-].
  destruct b' as [| p' b'']; [discriminate |]; cbn [as_top fst snd]; split.
  - destruct (refines_discard _ _ Hg') as (v' & [= <-] & Hg2); exact Hg2.
  - unfold Flush in Hf; apply bind_returns in Hf as (base & Hw & Hf); injection Hf as _ ->.
    destruct (write_block p b c _ Hw) as (p2 & [= -> _] & Hh); exact Hh.
Qed.

Lemma pop_same {X} (v v' : top) t rt : PopAnchor (E := X) v.1 v.2 t rt = Ok v' -> same_coins (vtop v) (vtop v').
Proof.
  unfold PopAnchor; pose proof (GetBestAnchor_same (vtop v) t) as S1; destruct (GetBestAnchor (vtop v) t) as [cur v1]; cbn [fst snd] in S1.
  case_bool_decide; [destruct v1; intros [= <-]; [destruct S1 | exact S1] |].
  pose proof (GetAnchorAt_same v1 t cur) as S2; destruct (GetAnchorAt v1 t cur) as [[tree |] [d | c b]]; try discriminate.
  intros [= <-]; cbn [fst snd] in S2 |- *; eapply same_coins_trans; [exact S1 |]; eapply same_coins_trans; [exact S2 |].
  repeat split; apply same_coins_refl.
Qed.

(** When the view is clean, disconnecting leads where the undo data says. *)
Lemma DisconnectBlock_back (v v' : top) l l' s vtx pindex undo :
  good (vtop v) (l' :: s) -> length vtx = S (length (vtxundo undo)) ->
  disconnects_all (with_undo vtx (vtxundo undo)) (bp_nHeight pindex) l' l ->
  DisconnectBlock v vtx pindex undo = Ok (true, v') -> good (vtop v') (l :: s) /\ hashBlock v'.1 = bp_prev_hash pindex.
Proof.
  intros Hg Hl Hd; unfold DisconnectBlock; pose proof (GetBestBlock_same (vtop v)) as S0.
  pose proof (good_below v l' s Hg) as Hs; destruct (GetBestBlock (vtop v)) as [best v0]; cbn [snd] in S0.
  intros (x & _ & Hr)%bind_returns; revert Hr; pose proof (good_same _ _ _ S0 Hg) as Hg0; pose proof (as_top_ok v0 v l' s Hg0 Hs) as Et.
  destruct (negb _); [discriminate |]; rewrite <- Et in Hg0; set (va := as_top v0 v) in *; clearbody va; destruct va as [ca ba].
  rewrite disconnect_loop_list by lia; rewrite take_ge by (unfold with_undo; rewrite length_zip_with; cbn; rewrite length_fmap; lia).
  destruct (Hd (ca, ba) s Hg0) as (vb & -> & _ & Gb); cbn [mbind res_bind]; destruct vb as [cb bb].
  intros (v1 & K1%(pop_same (cb, bb)) & Hr)%bind_returns; apply bind_returns in Hr as (v2 & K2%pop_same & Hr).
  apply bind_returns in Hr as (v3 & K3%pop_same & Hr); injection Hr as <-; split; [| reflexivity].
  eapply good_same; [| eapply good_same; [exact K3 |]; eapply good_same; [exact K2 |]; eapply good_same; [exact K1 | exact Gb]].
  repeat split; apply same_coins_refl.
Qed.

(** The checks let only checked blocks through. *)
Lemma checks_hold m p b q c blk : blocks_on_disk p = Some blk -> connect_checks m p (b, q, c) blk = Ok tt ->
  block_checked (H := tip_params P c) (nTime c) (vtx blk).
Proof.
  intros Hd; unfold connect_checks; destruct (CheckBlock _ _ _ _ _) as [future r] eqn:Ec.
  rewrite then_iff; intros [_ Hs]; apply then_iff in Hs as [-> Hf]; apply then_iff in Hf as [->%fail_if_iff _]; apply check_block_iff in Ec.
  destruct (disk_ok p blk Hd) as [Hm Hn]; destruct Ec as [_ _ _ _ Hcb Ht _ _]; split; [| exact Hn | exact Hcb].
  apply list.Forall_forall; intros [txid tx] (i & Hi)%list_elem_of_lookup; specialize (Ht (or_intror eq_refl) i txid tx Hi).
  apply list.Forall_forall with (x := (txid, tx)) in Hm as [H1' H2']; [| now apply list_elem_of_lookup_2 in Hi].
  split; [exact H1' |]; split; [exact H2' |]; cbn [default] in Ht; exact (CheckTransaction_without _ _ _ _ _ Ht).
Qed.

Lemma connect_holds m v p b q c blk l undo v' :
  blocks_on_disk p = Some blk ->
  tree_ok m -> m !! p = Some b -> pprev b = Some q -> m !! q = Some c -> holds v l (blockHash c) ->
  coins_connect m v p blk = Ok (undo, v') ->
  holds v' (levels l (vtx blk) (nHeight b)) (blockHash b) /\ leads_back (nHeight b) (vtx blk) undo (levels l (vtx blk) (nHeight b)) l.
Proof.
  intros Hdk Hm Hp Hq Hc ((s & Hg) & Hw & Hmo & Hb); unfold coins_connect; rewrite (with_parent_eq m p b q c Hp Hq Hc).
  intros ([] & Hck & Hr)%bind_returns; pose proof (checks_hold m p b q c blk Hdk Hck) as Hchk; apply bind_returns in Hr as (pay & _ & Hr).
  set (a := mkConnectArgs _ _ _ _ _) in Hr.
  destruct (ConnectBlock _ _ _ a) as [[[u v1] sc] | r | x] eqn:Ec; try discriminate.
  destruct (ConnectBlock_ok (H3 := tip_params P c) (H6 := interest_chain m q) (H8 := tip_env E m) (interest_ok m q)
    v.2 sc (new_cache, vtop v.1) v1 l (l :: s) (vtx blk) a u)
    as (txid & cb & rest & rew & paid & st & _ & [[Cg Cl Cd Cb] _ _ _ _ _ Cr Cm Cw _ _ _]);
    [now apply good_fresh | exact Hw | exact Hmo | now apply (block_position_at_tip m) | exact (checked_static (H := tip_params P c) _ (vtx blk) Hchk)
    | exact (bk_distinct (H := tip_params P c) _ _ Hchk) | exact (checked_mint (H := tip_params P c) _ (vtx blk) Hchk) | exact Ec |].
  apply bind_returns in Hr as (v2 & Hf & Hr); injection Hr as <- <-; cbn [ca_pos block_position bp_nHeight bp_hash a] in *.
  destruct (flush_into_ok (X := connect_error) v1 v.1 v2 _ l s Cg) as [Gf Hh]; [now apply (good_below v.1 l s) | exact Hf |].
  split; [| now split].
  split; [now exists s |]; split; [exact Cw | split; [exact Cm | cbn [fst]; congruence]].
Qed.

Lemma disconnect_holds m v p b q c blk l l' undo v' :
  m !! p = Some b -> pprev b = Some q -> m !! q = Some c -> holds v l' (blockHash b) ->
  leads_back (nHeight b) (vtx blk) undo l' l -> coins_disconnect m v p blk undo = Ok (true, v') -> holds v' l (blockHash c).
Proof.
  intros Hp Hq Hc ((s & Hg) & _ & _ & _) (Hl & Hd & Hw & Hmo); unfold coins_disconnect.
  rewrite (with_parent_eq m p b q c Hp Hq Hc); intros ([clean v1] & Hdis & Hr)%bind_returns.
  apply bind_returns in Hr as (v2 & Hf & Hr); injection Hr as -> <-.
  destruct (DisconnectBlock_back (new_cache, vtop v.1) v1 l l' (l' :: s) (vtx blk) (block_position p (b, q, c)) undo (good_fresh v.1 l' s Hg) Hl Hd Hdis) as [G1 H1'].
  destruct (flush_into_ok (X := string) v1 v.1 v2 l l' s G1) as [G2 H2']; [now apply (good_below v.1 l' s) | exact Hf |].
  split; [now exists s |]; split; [exact Hw |]; split; [exact Hmo |]; cbn [fst]; rewrite H2'; exact H1'.
Qed.

Lemma best_tree_holds (v v1 : top) l s t rt tree :
  good (vtop v) (l :: s) -> IsNull (hashBlock v.1) = false -> best_tree v t = Ok (rt, tree, v1) ->
  good (vtop v1) (l :: s) /\ hashBlock v1.1 = hashBlock v.1.
Proof. intros Hg Hn E1; destruct (best_tree_ok v v1 l s t rt tree Hg E1) as (G1 & _ & _ & Hb & _); split; [exact G1 | now apply Hb]. Qed.

Lemma trees_hold v l h v' : h <> uint256_null -> holds v l h -> coins_trees v = Some v' -> holds v' l h.
Proof.
  intros Hn ((s & Hg) & Hw & Hmo & Hb); unfold coins_trees; pose proof (IsNull_false h Hn) as Hn0; rewrite <- Hb in Hn0.
  destruct (best_tree v.1 SPROUT) as [[[r1 t1] v1] | |] eqn:E1; try discriminate; cbn [mbind res_bind].
  destruct (best_tree_holds v.1 v1 l s _ _ _ Hg Hn0 E1) as [G1 B1]; rewrite <- B1 in Hn0.
  destruct (best_tree v1 SAPLING) as [[[r2 t2] v2] | |] eqn:E2; try discriminate; cbn [mbind res_bind].
  destruct (best_tree_holds v1 v2 l s _ _ _ G1 Hn0 E2) as [G2 B2]; rewrite <- B2 in Hn0.
  destruct (best_tree v2 SAPLINGFRONTIER) as [[[r3 t3] v3] | |] eqn:E3; try discriminate.
  destruct (best_tree_holds v2 v3 l s _ _ _ G2 Hn0 E3) as [G3 B3]; intros [= <-].
  split; [now exists s |]; split; [exact Hw |]; split; [exact Hmo | cbn [fst]; congruence].
Qed.

Lemma flush_holds v l h v' : holds v l h -> coins_flush v = Ok v' -> holds v' l h.
Proof.
  intros ((s & Hg) & Hw & Hmo & Hb); unfold coins_flush; intros (due & _ & Hr)%bind_returns; revert Hr.
  destruct due; [| intros [= <-]; split; [now exists s | auto]].
  destruct v as [[c base] sc]; cbn [fst snd] in *; pose proof (good_below (c, base) l s Hg) as Hs; destruct s as [| l2 s]; [contradiction |].
  destruct (good_flush (E := string) c base l l2 s Hg) as (c' & b' & Hf & Hg' & _); rewrite Hf; intros [= <-].
  split; [now exists (l :: s) |]; split; [exact Hw |]; split; [exact Hmo |]; cbn [fst].
  unfold Flush in Hf; apply bind_returns in Hf as (b2 & _ & Hf); injection Hf as <- _; exact Hb.
Qed.

(** A node starts with the genesis block connected, and no coins. *)
Definition no_coins : level := mkLevel (fun _ => None) (fun _ _ => false).

#[global] Instance coins_driver_ok : CoinsDriverOk coins CBlock CBlockUndo level.
Proof.
  refine {|
    ChainStateSpec.represents v l h := holds v l h /\ h <> uint256_null;
    genesis_coins := no_coins;
    apply_block l h blk := levels l (vtx blk) h;
    undoes h blk undo l' l := leads_back h (vtx blk) undo l' l;
  |}.
  - intros m v p b q c blk l u v' Hm Hp Hq Hc _ [Hh _] Hdk Hcon; cbn in Hdk, Hcon.
    destruct (connect_holds m v p b q c blk l u v' Hdk Hm Hp Hq Hc Hh Hcon) as [Hv Hu]; split; [split; [exact Hv | now apply (to_known m Hm p)] | exact Hu].
  - intros m v p b q c blk l l' u v' Hm Hp Hq Hc _ [Hh _] _ Hu Hdis; cbn in Hdis.
    split; [exact (disconnect_holds m v p b q c blk l l' u v' Hp Hq Hc Hh Hu Hdis) | now apply (to_known m Hm q)].
  - intros v l h v' [Hh Hn] Ht; split; [exact (trees_hold v l h v' Hn Hh Ht) | exact Hn].
  - intros v l h v' [Hh Hn] Ht; split; [exact (flush_holds v l h v' Hh Ht) | exact Hn].
Defined.

(** C2: the coin set depends on the active chain only, for a node whose blocks on
    disk hold no import transactions, and transactions of distinct ids with fields
    of their machine types.  (With imports it is not so: ConnectBlock does not look
    for the tombstone of an earlier import of the same burn, and disconnecting the
    later one clears it; see [Example_imports] in ConnectSpec.)  Take two states
    that such a node reaches from a state of the invariant by any activations of
    the best chain, with all the disconnections and failed connections they
    involve, invalidations and reconsiderations of blocks.  If they have the same
    tip, then both active chains are the ancestors of that tip, and pcoinsTip
    holds, in both, the coins and nullifiers that connecting the blocks of this
    chain one after the other from the genesis block gives, with the hash of the
    tip as best block: reorganisations leave no trace in the coins and
    nullifiers. *)
Theorem reorg_path_independent (st : ChainState coins CBlockUndo) (t : ptr) (st1 st2 : ChainState coins CBlockUndo) :
  driver_inv st t -> rtc driver_step st st1 -> rtc driver_step st st2 ->
  Tip (chainActive st1) = Tip (chainActive st2) ->
  exists t' b l s1 s2, Tip (chainActive st1) = Some t' /\ mapBlockIndex st !! t' = Some b /\
    chain_to (mapBlockIndex st) (chainActive st1) t' /\ chain_to (mapBlockIndex st) (chainActive st2) t' /\
    replays (mapBlockIndex st) t' l /\
    good (vtop (pcoinsTip st1).1) (l :: s1) /\ good (vtop (pcoinsTip st2).1) (l :: s2) /\
    hashBlock (pcoinsTip st1).1.1 = blockHash b /\ hashBlock (pcoinsTip st2).1.1 = blockHash b.
Proof.
  intros Hi R1 R2 Et; destruct (path_independent st t st1 st2 Hi R1 R2 Et) as (t' & b & l & H1' & H2' & H3' & H4' & H5' & H6' & H7').
  destruct H6' as [((s1 & G1) & _ & _ & B1) _], H7' as [((s2 & G2) & _ & _ & B2) _].
  exists t', b, l, s1, s2; repeat (split; [assumption |]); assumption.
Qed.
End Coins.

(** ** An example

    The tree of [Example_driver] with real blocks: the second block of the first
    branch spends the first one's coinbase, and block 3 has two
    coinbases. *)
Module Example_node.
Import Example_driver.
Import Example_inputs.
#[local] Existing Instances toy_hashes Example_interest.kmd limit limit_ok Example_block.lows params Example_block.env.
#[local] Instance young : SpendParams := {|
  CoinbaseMaturity := 1; coinbase_protected := false; ASSETCHAINS_TIMELOCKGTE := 2 ^ 64 - 1; GetCoinImportValue := fun _ => 0 |}.

Definition coinbase (h n : Z) : uint256 * CTransaction :=
  (repeat n 32, tx_with [mkTxIn outpoint_SetNull [80 + h; n] 0] [mkTxOut (3 * COIN) [81]]).
Definition with_header (txs : list (uint256 * CTransaction)) : CBlock :=
  mkBlock (mkHeader 4 (repeat 0 32) (merkle_root (map fst txs)) (repeat 0 32) 60 537857807 (repeat 0 32) []) txs.
Definition blocks (p : ptr) : option CBlock :=
  match p with
  | 1%nat => Some (with_header [coinbase 1 21])
  | 2%nat => Some (with_header [coinbase 2 22; (repeat 23 32, tx_with [mkTxIn (mkOutPoint (repeat 21 32) 0) [1; 2] 0] [mkTxOut (2 * COIN) [81]])])
  | 3%nat => Some (with_header [coinbase 2 25; coinbase 2 26])
  | 4%nat => Some (with_header [coinbase 1 24])
  | _ => None
  end.

#[local] Instance node : NodeEnv nat := {|
  blocks_on_disk := blocks; tx_environment := fun _ _ => Example_check.txenv; check_environment := fun _ _ => Example_check.checkenv;
  sapling_active := fun _ => false; final_sapling_root := fun _ => uint256_null;
  script_checks_on := fun _ => true; branch_id := fun _ => 0; KOMODO_STOPAT := 0; notaries_paid := false; komodo_connectblock := fun _ _ _ => 0;
  komodo_checknotarypay := fun _ _ => 0; flush_due := fun _ => Ok true;
  notarized := fun _ => (0, []); max_reorg := 9; interest_chain := fun _ _ => chain |}.

Lemma blocks_ok p blk : blocks_on_disk p = Some blk -> block_on_disk_ok blk.
Proof.
  cbn [blocks_on_disk node]; unfold blocks; destruct p as [| [| [| [| [| p]]]]]; try discriminate; intros [= <-]; split; cbn [vtx with_header].
  all: lazymatch goal with |- base.NoDup _ => apply (bool_decide_unpack (base.NoDup _)); vm_compute; exact I | _ => idtac end.
  all: repeat apply Forall_cons_2; [.. | apply Forall_nil_2].
  all: split; [| reflexivity]; unfold machine_tx, amounts_valid, is_i64; cbn.
  all: repeat first [apply Forall_nil_2 | apply Forall_cons_2 | apply conj | reflexivity | vm_compute; discriminate].
Qed.

Definition genesis_view : CCoinsViewCache nat * view nat :=
  (set_block new_cache [0; 1], VDB (mkDB ∅ (fun _ => ∅) (fun _ => ∅) (fun _ => ∅) None (fun _ => None))).
Abbreviation node_state := (ChainState (coins (Tree := nat)) CBlockUndo).
Definition begin : node_state :=
  mkChain tree [Some 0%nat] {[0%nat; 2%nat; 3%nat; 4%nat]} [] None (genesis_view, empty_subsidy_cache) ∅.

#[local] Instance driver : CoinsDriver (coins (Tree := nat)) CBlock CBlockUndo :=
  coins_driver Example_interest.kmd Example_block.env.

Definition outcome_of (st : node_state) (r : res unit (bool * CValidationState * node_state)) : node_state :=
  match r with Ok (true, _, st') => st' | _ => st end.
Definition activated st := outcome_of st (ActivateBestChain false new_state st None).
Definition invalidated st p := outcome_of st (InvalidateBlock new_state st p).
Definition considered_again st p := outcome_of st (ReconsiderBlock new_state st p).

Definition straight := activated begin.
Definition around := activated (considered_again (activated (invalidated begin 4)) 4).

(** The detour passes by the first branch, and spends its coinbase. *)
Example around_passes :
  let st := activated (invalidated begin 4) in
  chainActive st = [Some 0%nat; Some 1%nat; Some 2%nat] /\
  fst (GetCoins (VCache (pcoinsTip st).1.1 (pcoinsTip st).1.2) (repeat 23 32)) = Some (mkCoins false [mkTxOut (2 * COIN) [81]] 2 1) /\
  fst (GetCoins (VCache (pcoinsTip around).1.1 (pcoinsTip around).1.2) (repeat 24 32)) = Some (mkCoins true [mkTxOut (3 * COIN) [81]] 1 1) /\
  fst (GetCoins (VCache (pcoinsTip around).1.1 (pcoinsTip around).1.2) (repeat 23 32)) = None.
Proof. vm_compute; auto. Qed.

#[local] Instance driver_ok : CoinsDriverOk (coins (Tree := nat)) CBlock CBlockUndo level :=
  coins_driver_ok Example_interest.kmd Example_block.env blocks_ok (fun _ _ => chain_ok).

Lemma begin_inv : driver_inv begin 0%nat.
Proof.
  split; [split |].
  - exact tree_good.
  - apply start_inv.
  - exists no_coins, (entry None 0 1); split; [reflexivity |]; split; [exact (replays_genesis tree 0%nat (entry None 0 1) eq_refl eq_refl) |].
    split; [| discriminate]; split; [exists [no_coins] | now split].
    split; [split; [exact I | split; [reflexivity |]; intros t e; cbn; now rewrite lookup_empty] |]; split.
    + split; [exact I |]; intros t nf e _; cbn; now rewrite lookup_empty.
    + split; split; intros; cbn; now rewrite ?lookup_empty.
  - intros p u; cbn; now rewrite lookup_empty.
  - apply start_inv.
  - discriminate.
  - apply start_inv.
Qed.

Lemma no_block m : block_known (B := CBlock) m None.
Proof. intros p block; discriminate. Qed.

(** The operation succeeds and leaves the validation state as it was. *)
Definition succeeds (r : res unit (bool * CValidationState * node_state)) : bool :=
  match r with
  | Ok (true, vs, _) => match mode vs with MODE_VALID => (nDoS vs =? 0) && (chRejectCode vs =? 0)
      && String.eqb (strRejectReason vs) "" && negb (corruptionPossible vs) | _ => false end
  | _ => false
  end.

Lemma succeeds_ok st r : succeeds r = true -> r = Ok (true, new_state, outcome_of st r).
Proof.
  destruct r as [[[[] [md d rs cd cr]] st'] | |]; try discriminate; cbn; destruct md; try discriminate; intros Hs.
  apply andb_prop in Hs as [Hs Hc]; apply andb_prop in Hs as [Hs Hr%String.eqb_eq]; apply andb_prop in Hs as [Hd%Z.eqb_eq Hd'%Z.eqb_eq].
  destruct cr; [discriminate |]; now subst.
Qed.

Lemma activated_step st : succeeds (ActivateBestChain false new_state st None) = true -> driver_step st (activated st).
Proof. intros Hr; exact (step_activate st false None true new_state (activated st) (no_block _) (succeeds_ok st _ Hr) ltac:(discriminate)). Qed.

Lemma invalidated_step st p : succeeds (InvalidateBlock new_state st p) = true -> driver_step st (invalidated st p).
Proof. intros Hr; exact (step_invalidate st p true new_state (invalidated st p) (succeeds_ok st _ Hr) ltac:(discriminate)). Qed.

Lemma considered_again_step st p : succeeds (ReconsiderBlock new_state st p) = true -> driver_step st (considered_again st p).
Proof. intros Hr; exact (step_reconsider st p true new_state (considered_again st p) (succeeds_ok st _ Hr) ltac:(discriminate)). Qed.

Lemma straight_run : rtc driver_step begin straight.
Proof. apply rtc_once, activated_step; vm_compute; reflexivity. Qed.

Lemma around_run : rtc driver_step begin around.
Proof.
  apply rtc_l with (invalidated begin 4); [apply invalidated_step; vm_compute; reflexivity |].
  apply rtc_l with (activated (invalidated begin 4)); [apply activated_step; vm_compute; reflexivity |].
  apply rtc_l with (considered_again (activated (invalidated begin 4)) 4); [apply considered_again_step; vm_compute; reflexivity |].
  apply rtc_once, activated_step; vm_compute; reflexivity.
Qed.
End Example_node.

Lemma reorg_path_independent_witness :
  exists t b l s1 s2, Tip (chainActive Example_node.straight) = Some t /\ Example_driver.tree !! t = Some b /\
    good (VCache (pcoinsTip Example_node.straight).1.1 (pcoinsTip Example_node.straight).1.2) (l :: s1) /\
    good (VCache (pcoinsTip Example_node.around).1.1 (pcoinsTip Example_node.around).1.2) (l :: s2) /\
    hashBlock (pcoinsTip Example_node.around).1.1 = blockHash b.
Proof.
  destruct (reorg_path_independent (H1 := toy_hashes) (H2 := Example_block.lows) (H4 := Example_node.young)
    (H5 := Example_inputs.params) (H6 := Example_node.node) (MoneyLimitOk0 := Example_inputs.limit_ok)
    Example_interest.kmd Example_block.env Example_node.blocks_ok (fun _ _ => Example_inputs.chain_ok)
    Example_node.begin 0%nat Example_node.straight Example_node.around
    Example_node.begin_inv Example_node.straight_run Example_node.around_run) as (t & b & l & s1 & s2 & A & C & _ & _ & _ & G1 & G2 & _ & D).
  - vm_compute; reflexivity.
  - exists t, b, l, s1, s2; auto.
Defined.
