(* ===== verification/NoteTree.v ===== *)
(** * Incremental note commitment trees

    zcash/IncrementalMerkleTree.hpp and .cpp: the append-only tree that keeps
    only its frontier, and the witness that is updated as leaves are appended.
    The hash of two nodes at a depth and the empty leaf are [NodeHash] (SHA-256
    compression for Sprout, the Pedersen hash of the zero-knowledge library for
    Sapling); [Depth] is the template parameter. *)
From stdpp Require Import list.
From S2P Require Import Prelude Endian Merkle Serialize.

Class NodeHash := {
  combine : uint256 -> uint256 -> nat -> uint256;
  uncommitted : uint256;
}.

Definition is_some {A} (o : option A) : bool := match o with Some _ => true | None => false end.

Section Code.
Context `{NodeHash} (Depth : nat).

(** [EmptyMerkleRoots]; the reads are at depths up to [Depth]. *)
Fixpoint empty_root_at (d : nat) : uint256 :=
  match d with O => uncommitted | S d => combine (empty_root_at d) (empty_root_at d) d end.

Record IncrementalMerkleTree := mkTree {
  left_ : option uint256; right_ : option uint256; parents : list (option uint256) }.

Definition new_tree : IncrementalMerkleTree := mkTree None None [].

(** [PathFiller::next]: the hash and the queue. *)
Definition filler_next (queue : list uint256) (depth : nat) : uint256 * list uint256 :=
  match queue with h :: queue => (h, queue) | [] => (empty_root_at depth, []) end.

(** [wfcheck]: whether it returns. *)
Definition wfcheck (t : IncrementalMerkleTree) : bool :=
  negb (Depth <=? length (parents t))%nat
  && (match rev (parents t) with [] => true | back :: _ => is_some back end)
  && negb (negb (is_some (left_ t)) && is_some (right_ t))
  && negb (negb (is_some (left_ t)) && (0 <? length (parents t))%nat).

Definition tree_last {E} (t : IncrementalMerkleTree) : res E uint256 :=
  match right_ t, left_ t with
  | Some r, _ => Ok r
  | None, Some l => Ok l
  | None, None => Exn runtime_error
  end.

(** The loop of [size]; the shifted 1 is an int. *)
Fixpoint size_loop (ps : list (option uint256)) (i : Z) (ret : Z) : Z :=
  match ps with
  | [] => ret
  | p :: ps => size_loop ps (i + 1) (if is_some p then u64 (ret + i32 (Z.shiftl 1 (i + 1))) else ret)
  end.

Definition tree_size (t : IncrementalMerkleTree) : Z :=
  size_loop (parents t) 0 (Z.b2z (is_some (left_ t)) + Z.b2z (is_some (right_ t))).

Definition TRACKED_SUBTREE_HEIGHT : Z := 16.

Definition current_subtree_index (t : IncrementalMerkleTree) : Z := Z.shiftr (tree_size t) TRACKED_SUBTREE_HEIGHT.

Definition is_complete (t : IncrementalMerkleTree) (depth : nat) : bool :=
  if negb (is_some (left_ t)) || negb (is_some (right_ t)) then false
  else if negb (length (parents t) =? depth - 1)%nat then false
  else forallb is_some (parents t).

(** The loop of [append] that propagates a finished subtree, from index [i],
    with [n] rounds left. *)
Fixpoint propagate (n : nat) (i : nat) (ps : list (option uint256)) (combined : uint256)
    : list (option uint256) :=
  match n with
  | O => ps
  | S n =>
      match ps with
      | [] => [Some combined]
      | None :: ps => Some combined :: ps
      | Some p :: ps => None :: propagate n (S i) ps (combine p combined (S i))
      end
  end.

Definition append {E} (t : IncrementalMerkleTree) (obj : uint256) : res E IncrementalMerkleTree :=
  if is_complete t Depth then Exn runtime_error
  else
    match left_ t, right_ t with
    | None, _ => Ok (mkTree (Some obj) (right_ t) (parents t))
    | Some l, None => Ok (mkTree (Some l) (Some obj) (parents t))
    | Some l, Some r => Ok (mkTree (Some obj) None (propagate Depth 0 (parents t) (combine l r 0)))
    end.

(** The loop of [complete_subtree_root] over the first [n] parents. *)
Fixpoint subtree_loop {E} (n : nat) (ps : list (option uint256)) (d : nat) (root : uint256) : res E uint256 :=
  match n with
  | O => Ok root
  | S n =>
      match ps with
      | Some p :: ps => subtree_loop n ps (S d) (combine p root d)
      | _ => Exn assertion_failed
      end
  end.

Definition complete_subtree_root {E} (t : IncrementalMerkleTree) : res E uint256 :=
  let treeSize := tree_size t in
  if negb (treeSize =? 0) && (treeSize mod Z.shiftl 1 TRACKED_SUBTREE_HEIGHT =? 0) then
    match left_ t, right_ t with
    | Some l, Some r => subtree_loop 15 (parents t) 1 (combine l r 0)
    | _, _ => Exn assertion_failed
    end
  else Exn runtime_error.

(** The loops of [next_depth] and [root]. *)
Fixpoint next_depth_loop (ps : list (option uint256)) (d skip : nat) : nat :=
  match ps with
  | [] => (d + skip)%nat
  | Some _ :: ps => next_depth_loop ps (S d) skip
  | None :: ps => match skip with S skip => next_depth_loop ps (S d) skip | O => d end
  end.

Definition next_depth (t : IncrementalMerkleTree) (skip : nat) : nat :=
  match is_some (left_ t), is_some (right_ t), skip with
  | true, true, _ => next_depth_loop (parents t) 1 skip
  | true, false, S skip | false, true, S skip | false, false, S (S skip) => next_depth_loop (parents t) 1 skip
  | _, _, _ => O
  end.

Fixpoint root_parents (ps : list (option uint256)) (d : nat) (root : uint256) (queue : list uint256)
    : nat * uint256 * list uint256 :=
  match ps with
  | [] => (d, root, queue)
  | Some p :: ps => root_parents ps (S d) (combine p root d) queue
  | None :: ps => let '(h, queue) := filler_next queue d in root_parents ps (S d) (combine root h d) queue
  end.

Fixpoint root_fill (n : nat) (d : nat) (root : uint256) (queue : list uint256) : uint256 :=
  match n with
  | O => root
  | S n => let '(h, queue) := filler_next queue d in root_fill n (S d) (combine root h d) queue
  end.

Definition tree_root (t : IncrementalMerkleTree) (depth : nat) (filler_hashes : list uint256) : uint256 :=
  let '(combine_left, queue) :=
    match left_ t with Some l => (l, filler_hashes) | None => filler_next filler_hashes 0 end in
  let '(combine_right, queue) :=
    match right_ t with Some r => (r, queue) | None => filler_next queue 0 end in
  let '(d, root, queue) := root_parents (parents t) 1 (combine combine_left combine_right 0) queue in
  root_fill (depth - d) d root queue.

(** [path]: the siblings from the leaf up and whether each is on the left, as
    in the code before they are reversed and turned into bits. *)
Fixpoint path_parents (ps : list (option uint256)) (d : nat) (queue : list uint256)
    : list (uint256 * bool) * nat * list uint256 :=
  match ps with
  | [] => ([], d, queue)
  | Some p :: ps => let '(l, d, queue) := path_parents ps (S d) queue in ((p, true) :: l, d, queue)
  | None :: ps =>
      let '(h, queue) := filler_next queue d in
      let '(l, d, queue) := path_parents ps (S d) queue in ((h, false) :: l, d, queue)
  end.

Fixpoint path_fill (n : nat) (d : nat) (queue : list uint256) : list (uint256 * bool) :=
  match n with
  | O => []
  | S n => let '(h, queue) := filler_next queue d in (h, false) :: path_fill n (S d) queue
  end.

Record MerklePath := mkPath { authentication_path : list (list bool); path_index : list bool }.

(** [convertBytesVectorToVector]: the most significant bit first. *)
Definition convertBytesVectorToVector (bytes : list Z) : list bool :=
  concat (map (fun b => map (fun j => Z.testbit b j) [7; 6; 5; 4; 3; 2; 1; 0]) bytes).

(** [convertVectorToInt], most significant bit first, and [MerklePath::position]. *)
Fixpoint vector_to_int (v : list bool) (result : Z) : Z :=
  match v with
  | [] => result
  | b :: v => vector_to_int v (if b then Z.lor result (Z.shiftl 1 (Z.of_nat (length v))) else result)
  end.

Definition convertVectorToInt {E} (v : list bool) : res E Z :=
  if (64 <? length v)%nat then Exn length_error else Ok (vector_to_int v 0).

Definition position {E} (p : MerklePath) : res E Z := convertVectorToInt (path_index p).

Definition path_nodes {E} (t : IncrementalMerkleTree) (filler_hashes : list uint256) : res E (list (uint256 * bool)) :=
  match left_ t with
  | None => Exn runtime_error
  | Some l =>
      let '(first, queue) :=
        match right_ t with
        | Some _ => ((l, true), filler_hashes)
        | None => let '(h, queue) := filler_next filler_hashes 0 in ((h, false), queue)
        end in
      let '(mid, d, queue) := path_parents (parents t) 1 queue in
      Ok (first :: mid ++ path_fill (Depth - d) d queue)
  end.

Definition path {E} (t : IncrementalMerkleTree) (filler_hashes : list uint256) : res E MerklePath :=
  l ← path_nodes t filler_hashes;
  Ok (mkPath (rev (map (fun n => convertBytesVectorToVector n.1) l)) (rev (map snd l))).

(** ** Witnesses *)

Record IncrementalWitness := mkWitness {
  w_tree : IncrementalMerkleTree; filled : list uint256; cursor : option IncrementalMerkleTree; cursor_depth : nat }.

(** [IncrementalMerkleTree::witness]. *)
Definition witness (t : IncrementalMerkleTree) : IncrementalWitness := mkWitness t [] None 0.

Definition partial_path (w : IncrementalWitness) : list uint256 :=
  filled w ++ match cursor w with Some c => [tree_root c (cursor_depth w) []] | None => [] end.

Definition witness_path {E} (w : IncrementalWitness) : res E MerklePath := path (w_tree w) (partial_path w).
Definition witness_element {E} (w : IncrementalWitness) : res E uint256 := tree_last (w_tree w).
Definition witness_position (w : IncrementalWitness) : Z := u64 (tree_size (w_tree w) - 1).
Definition witness_root (w : IncrementalWitness) : uint256 := tree_root (w_tree w) Depth (partial_path w).

Definition witness_append {E} (w : IncrementalWitness) (obj : uint256) : res E IncrementalWitness :=
  match cursor w with
  | Some c =>
      c ← append c obj;
      if is_complete c (cursor_depth w)
      then Ok (mkWitness (w_tree w) (filled w ++ [tree_root c (cursor_depth w) []]) None (cursor_depth w))
      else Ok (mkWitness (w_tree w) (filled w) (Some c) (cursor_depth w))
  | None =>
      let depth := next_depth (w_tree w) (length (filled w)) in
      if (Depth <=? depth)%nat then Exn runtime_error
      else if (depth =? 0)%nat then Ok (mkWitness (w_tree w) (filled w ++ [obj]) None depth)
      else c ← append new_tree obj; Ok (mkWitness (w_tree w) (filled w) (Some c) depth)
  end.

(** ** The serialised form *)

(** [boost::optional]: a flag byte, 0 or 1, and the value. *)
Definition c_optional {A} (c : codec A) : codec (option A) :=
  flag ← READWRITE c_uint8 (fun o : option A => Z.b2z (is_some o));
  if flag =? 0 then mret None
  else if flag =? 1 then
    mkBi (fun o : option A => match o with
                              | Some a => r ← put c a; Ok (Some r.1, r.2)
                              | None => Exn ios_failure
                              end)
         (a ← get c; mret (Some a))
  else mkBi (fun _ => Exn ios_failure) r_fail.

Definition IncrementalMerkleTree_op (sizeof_optional : Z) : codec IncrementalMerkleTree :=
  left ← READWRITE (c_optional (c_flat 32)) left_;
  right ← READWRITE (c_optional (c_flat 32)) right_;
  parents ← READWRITE (c_vec sizeof_optional (c_optional (c_flat 32))) parents;
  _ ← throw_if (negb (wfcheck (mkTree left right parents)));
  mret (mkTree left right parents).
End Code.
