(* ===== verification/NoteTreeSpec.v ===== *)
(** * Correctness of the note commitment trees

    The incremental tree is a compressed form of the list of its leaves: it has
    the root of the full tree over them, and a witness keeps an authentication
    path to its leaf while leaves are appended. *)
From stdpp Require Import list.
From S2P Require Import Prelude Endian Merkle Serialize NoteTree.

Section Spec.
Context `{NodeHash}.

(** ** The full tree *)

(** The root of the tree of depth [d] over the leaves, padded on the right. *)
Fixpoint sub_root (d : nat) (leaves : list uint256) : uint256 :=
  match d with
  | O => match leaves with x :: _ => x | [] => uncommitted end
  | S d => combine (sub_root d (take (2 ^ d) leaves)) (sub_root d (drop (2 ^ d) leaves)) d
  end.

Lemma sub_root_nil d : sub_root d [] = empty_root_at d.
Proof. induction d as [| d IH]; cbn; [reflexivity |]; now rewrite take_nil, drop_nil, IH. Qed.

Lemma sub_root_take d l : sub_root d (take (2 ^ d) l) = sub_root d l.
Proof.
  revert l; induction d as [| d IH]; intros l; [now destruct l |]; cbn [sub_root].
  assert (E : (2 ^ S d = 2 ^ d + 2 ^ d)%nat) by (cbn; lia); rewrite take_take, E.
  replace (2 ^ d `min` (2 ^ d + 2 ^ d))%nat with (2 ^ d)%nat by lia; f_equal.
  rewrite <- (IH (drop (2 ^ d) l)), <- (IH (drop (2 ^ d) (take _ l))); f_equal.
  rewrite skipn_firstn_comm, take_take; f_equal; lia.
Qed.

(** A full left half. *)
Lemma sub_root_app d l r : length l = (2 ^ d)%nat -> sub_root (S d) (l ++ r) = combine (sub_root d l) (sub_root d r) d.
Proof. intros Hl; cbn [sub_root]; rewrite <- Hl, take_app_length, drop_app_length; reflexivity. Qed.

(** An empty right half. *)
Lemma sub_root_left d l : (length l <= 2 ^ d)%nat -> sub_root (S d) l = combine (sub_root d l) (empty_root_at d) d.
Proof. intros Hl; cbn [sub_root]; rewrite take_ge, drop_ge by assumption; now rewrite sub_root_nil. Qed.

(** ** The frontier *)

(** The parents from depth [d] on hold the roots of the full subtrees into
    which the leaves split, the lowest one last. *)
Fixpoint rep_parents (d : nat) (ps : list (option uint256)) (leaves : list uint256) : Prop :=
  match ps with
  | [] => leaves = []
  | None :: ps => rep_parents (S d) ps leaves
  | Some p :: ps => exists front block, leaves = front ++ block /\ length block = (2 ^ d)%nat /\
      p = sub_root d block /\ rep_parents (S d) ps front
  end.

Definition canonical (ps : list (option uint256)) : Prop :=
  match rev ps with [] => True | p :: _ => is_some p = true end.

(** The leaves that are kept themselves. *)
Definition pair (t : IncrementalMerkleTree) : list uint256 :=
  match left_ t, right_ t with Some a, Some b => [a; b] | Some a, None => [a] | None, _ => [] end.

(** The tree represents the list of its leaves. *)
Record represents (t : IncrementalMerkleTree) (leaves : list uint256) : Prop := {
  rp_split : exists front, leaves = front ++ pair t /\ rep_parents 1 (parents t) front;
  rp_canonical : canonical (parents t);
  rp_left : left_ t = None -> right_ t = None /\ parents t = [];
}.

Lemma represents_new : represents new_tree [].
Proof. split; cbn; [exists []; auto | exact I | auto]. Qed.

(** The number of leaves, as a binary number whose digits are the parents. *)
Fixpoint weight (d : nat) (ps : list (option uint256)) : nat :=
  match ps with [] => 0 | p :: ps => (if is_some p then 2 ^ d else 0) + weight (S d) ps end.

Lemma rep_weight ps : forall d leaves, rep_parents d ps leaves -> length leaves = weight d ps.
Proof.
  induction ps as [| [p |] ps IH]; intros d leaves; cbn [rep_parents weight is_some]; [now intros -> | | apply IH].
  intros (front & block & -> & Hb & _ & Hr); rewrite length_app, Hb, (IH _ _ Hr); lia.
Qed.

Lemma weight_upper ps : forall d, (weight d ps + 2 ^ d <= 2 ^ (d + length ps))%nat.
Proof.
  induction ps as [| p ps IH]; intros d; cbn [weight length]; [rewrite Nat.add_0_r; lia |].
  specialize (IH (S d)); replace (d + S (length ps))%nat with (S d + length ps)%nat by lia.
  cbn [Nat.pow] in *; destruct (is_some p); lia.
Qed.

Lemma weight_full ps : forall d,
  forallb is_some ps = true <-> (weight d ps + 2 ^ d = 2 ^ (d + length ps))%nat.
Proof.
  induction ps as [| p ps IH]; intros d; cbn [forallb weight length]; [rewrite Nat.add_0_r; split; auto; lia |].
  specialize (IH (S d)); replace (d + S (length ps))%nat with (S d + length ps)%nat by lia.
  pose proof (weight_upper ps (S d)); pose proof (Nat.pow_nonzero 2 d); cbn [Nat.pow] in *.
  destruct (is_some p); cbn [andb]; [rewrite IH; lia | split; [discriminate | lia]].
Qed.

Lemma canonical_weight ps d : canonical ps -> ps <> [] -> (2 ^ (d + length ps - 1) <= weight d ps)%nat.
Proof.
  unfold canonical; destruct ps as [| p0 ps0] using rev_ind; [congruence |]; rewrite rev_app_distr; cbn [rev app].
  intros Hp _; rewrite length_app; cbn [length].
  assert (G : forall l d', weight d' (l ++ [p0]) = (weight d' l + 2 ^ (d' + length l))%nat).
  { induction l as [| q l IH]; intros d'; cbn [app weight length]; [rewrite Hp, !Nat.add_0_r; lia |].
    rewrite IH; replace (S d' + length l)%nat with (d' + S (length l))%nat by lia; lia. }
  rewrite G; replace (d + (length ps0 + 1) - 1)%nat with (d + length ps0)%nat by lia; lia.
Qed.

(** ** Sizes *)

Lemma represents_length t leaves : represents t leaves -> length leaves = (weight 1 (parents t) + length (pair t))%nat.
Proof. intros [(front & -> & Hr) _ _]; rewrite length_app; now rewrite (rep_weight _ _ _ Hr). Qed.

Lemma pair_length t : (length (pair t) <= 2)%nat.
Proof. unfold pair; destruct (left_ t), (right_ t); cbn; lia. Qed.

(** How many parents a tree of [n] leaves can have. *)
Lemma parents_bound t leaves depth :
  represents t leaves -> (1 <= depth)%nat -> (length leaves <= 2 ^ depth)%nat -> (length (parents t) <= depth - 1)%nat.
Proof.
  intros Hr Hd Hl; rewrite (represents_length _ _ Hr) in Hl; destruct Hr as [_ Hc Hn].
  destruct (parents t) as [| p ps] eqn:Ep; [cbn; lia |].
  assert (Hp : (1 <= length (pair t))%nat).
  { unfold pair; destruct (left_ t); [destruct (right_ t); cbn; lia |]; destruct (Hn eq_refl); discriminate. }
  pose proof (canonical_weight (p :: ps) 1 Hc ltac:(discriminate)) as Hw.
  destruct (Nat.le_gt_cases (length (p :: ps)) (depth - 1)) as [| Hgt]; [assumption |].
  assert (2 ^ depth <= 2 ^ (1 + length (p :: ps) - 1))%nat by (apply Nat.pow_le_mono_r; lia); lia.
Qed.

(** A tree is complete at a depth when it has all its leaves. *)
Lemma is_complete_iff t leaves depth :
  represents t leaves -> (1 <= depth)%nat -> (length leaves <= 2 ^ depth)%nat ->
  is_complete t depth = true <-> length leaves = (2 ^ depth)%nat.
Proof.
  intros Hr Hd Hl; pose proof (parents_bound _ _ _ Hr Hd Hl) as Hb; rewrite (represents_length _ _ Hr) in *.
  unfold is_complete, pair in *; destruct Hr as [_ _ Hn].
  pose proof (weight_upper (parents t) 1) as Hu; pose proof (weight_full (parents t) 1) as Hf.
  assert (Hp : (2 ^ (1 + length (parents t)) <= 2 ^ depth)%nat) by (apply Nat.pow_le_mono_r; lia).
  assert (Hlt : (length (parents t) <> depth - 1 -> 2 ^ (1 + length (parents t)) < 2 ^ depth)%nat)
    by (intros; apply Nat.pow_lt_mono_r; lia).
  destruct (left_ t), (right_ t); cbn [is_some negb orb length] in *; try (split; [discriminate |]); cbn [Nat.pow] in *; try lia.
  destruct (Nat.eqb_spec (length (parents t)) (depth - 1)) as [E | E]; cbn [negb]; [| split; [discriminate | lia]].
  rewrite Hf; replace depth with (1 + length (parents t))%nat by lia; cbn [Nat.pow Nat.add]; lia.
Qed.

Lemma size_loop_ok ps : forall d ret,
  0 <= ret -> ret + Z.of_nat (weight (S d) ps) < 2 ^ 31 ->
  size_loop ps (Z.of_nat d) ret = ret + Z.of_nat (weight (S d) ps).
Proof.
  induction ps as [| p ps IH]; intros d ret H0 Hb; cbn [size_loop weight] in *; [lia |].
  replace (Z.of_nat d + 1) with (Z.of_nat (S d)) by lia; destruct (is_some p); [| rewrite IH; lia].
  rewrite Nat2Z.inj_add, Nat2Z.inj_pow in Hb; change (Z.of_nat 2) with 2 in Hb.
  pose proof (Z.pow_pos_nonneg 2 (Z.of_nat (S d))).
  rewrite Z.shiftl_1_l, (swrap_small 32), (uwrap_small 64) by lia; rewrite IH by lia.
  rewrite Nat2Z.inj_add, Nat2Z.inj_pow; change (Z.of_nat 2) with 2; lia.
Qed.

Lemma tree_size_ok t leaves : represents t leaves -> zlen leaves < 2 ^ 31 -> tree_size t = zlen leaves.
Proof.
  intros Hr; unfold zlen, tree_size; rewrite (represents_length _ _ Hr), Nat2Z.inj_add; intros Hb.
  assert (Hp : Z.b2z (is_some (left_ t)) + Z.b2z (is_some (right_ t)) = Z.of_nat (length (pair t))).
  { unfold pair; destruct (left_ t) eqn:El, (right_ t) eqn:Er; try reflexivity; destruct (rp_left _ _ Hr El); congruence. }
  rewrite Hp; change 0 with (Z.of_nat 0); rewrite size_loop_ok; lia.
Qed.

(** ** Appending *)

Lemma propagate_ok n : forall i ps front block,
  rep_parents (S i) ps front -> length block = (2 ^ S i)%nat -> (length ps < n)%nat ->
  rep_parents (S i) (propagate n i ps (sub_root (S i) block)) (front ++ block).
Proof.
  induction n as [| n IH]; intros i ps front block Hr Hb Hn; [lia |]; cbn [propagate].
  destruct ps as [| [p |] ps]; cbn [rep_parents] in *.
  - subst front; exists [], block; auto.
  - destruct Hr as (f & b & -> & Hlb & -> & Hr); rewrite <- sub_root_app, <- app_assoc by assumption.
    apply IH; [exact Hr | rewrite length_app; cbn [Nat.pow] in *; lia | cbn in Hn; lia].
  - exists front, block; auto.
Qed.

Lemma propagate_canonical n : forall i ps c,
  canonical ps -> (length ps < n)%nat -> canonical (propagate n i ps c) /\ propagate n i ps c <> [].
Proof.
  assert (Hcons : forall o ps, canonical ps -> ps <> [] -> canonical (o :: ps)).
  { intros o ps Hc Hne; unfold canonical in *; cbn [rev]; destruct (rev ps) eqn:E; cbn; [| assumption].
    apply (f_equal (@rev _)) in E; rewrite rev_involutive in E; contradiction. }
  assert (Htail : forall o ps, canonical (o :: ps) -> canonical ps).
  { intros o ps; unfold canonical; cbn [rev]; now destruct (rev ps). }
  induction n as [| n IH]; intros i ps c Hc Hn; [lia |]; cbn [propagate].
  destruct ps as [| [p |] ps]; [split; [reflexivity | discriminate] | |].
  - destruct (IH (S i) ps (combine p c (S i)) (Htail _ _ Hc)) as [H1 H2]; [cbn in Hn; lia |].
    split; [now apply Hcons | discriminate].
  - split; [| discriminate]; destruct ps as [| q ps]; [reflexivity | apply Hcons; [eapply Htail; eassumption | discriminate]].
Qed.

(** Appending a leaf to a tree that is not full. *)
Lemma append_ok {E} Depth t leaves x :
  represents t leaves -> (1 <= Depth)%nat -> (length leaves < 2 ^ Depth)%nat ->
  exists t', append (E := E) Depth t x = Ok t' /\ represents t' (leaves ++ [x]).
Proof.
  intros Hr Hd Hl; pose proof (is_complete_iff _ _ Depth Hr Hd ltac:(lia)) as Hc.
  pose proof (parents_bound _ _ Depth Hr Hd ltac:(lia)) as Hb.
  unfold append; destruct (is_complete t Depth); [lia |].
  destruct Hr as [(front & -> & Hf) Hcan Hnone]; unfold pair in *; destruct (left_ t) as [a |] eqn:Ea.
  - destruct (right_ t) as [b |] eqn:Eb; eexists; (split; [reflexivity |]).
    + destruct (propagate_canonical Depth 0 (parents t) (combine a b 0) Hcan ltac:(lia)) as [Hc1 _].
      split; cbn [left_ right_ parents pair]; [| exact Hc1 | discriminate].
      exists (front ++ [a; b]); split; [now rewrite <- app_assoc |].
      change (combine a b 0) with (sub_root 1 [a; b]); apply propagate_ok; [exact Hf | reflexivity | lia].
    + split; cbn [left_ right_ parents]; [| exact Hcan | discriminate]; exists front; split; [| exact Hf].
      unfold pair; cbn; now rewrite <- app_assoc.
  - destruct (Hnone eq_refl) as [Er Ep]; eexists; split; [reflexivity |]; rewrite Er.
    split; cbn [left_ right_ parents]; [| exact Hcan | discriminate]; exists front; split; [| exact Hf].
    unfold pair; cbn; now rewrite <- app_assoc.
Qed.

Lemma append_full {E} Depth t leaves x :
  represents t leaves -> (1 <= Depth)%nat -> length leaves = (2 ^ Depth)%nat -> append (E := E) Depth t x = Exn runtime_error.
Proof.
  intros Hr Hd Hl; unfold append.
  now rewrite (proj2 (is_complete_iff t leaves Depth Hr Hd ltac:(lia)) Hl).
Qed.

(** ** Roots *)

(** The roots of the subtrees at the depths [ds] that later leaves fill, as
    far as there are leaves. *)
Fixpoint uncles (ds : list nat) (M : list uint256) : list uint256 :=
  match ds, M with
  | d :: ds, _ :: _ => sub_root d (take (2 ^ d) M) :: uncles ds (drop (2 ^ d) M)
  | _, _ => []
  end.

Lemma uncles_nil ds : uncles ds [] = [].
Proof. now destruct ds. Qed.

(** The next hash of the filler is the root of the leaves that belong there. *)
Lemma filler_next_ok d ds M :
  filler_next (uncles (d :: ds) M) d = (sub_root d (take (2 ^ d) M), uncles ds (drop (2 ^ d) M)).
Proof. destruct M as [| m M]; [| reflexivity]; rewrite take_nil, drop_nil, sub_root_nil, !uncles_nil; reflexivity. Qed.

(** A subtree of depth [d] over [cur] is followed by the leaves [M]. *)
Definition in_order (d : nat) (cur M : list uint256) : Prop :=
  (length cur <= 2 ^ d)%nat /\ (M = [] \/ length cur = (2 ^ d)%nat).

Lemma in_order_next d cur M :
  in_order d cur M ->
  combine (sub_root d cur) (sub_root d (take (2 ^ d) M)) d = sub_root (S d) (cur ++ take (2 ^ d) M) /\
  in_order (S d) (cur ++ take (2 ^ d) M) (drop (2 ^ d) M).
Proof.
  intros [Hl Hm]; assert (E : (2 ^ S d = 2 ^ d + 2 ^ d)%nat) by (cbn; lia); destruct Hm as [-> | Hm].
  - rewrite take_nil, drop_nil, app_nil_r, sub_root_nil, sub_root_left by assumption; split; [reflexivity |].
    split; [lia | now left].
  - rewrite sub_root_app by assumption; split; [reflexivity |]; unfold in_order.
    rewrite length_app, length_take, E; split; [lia |].
    destruct (Nat.le_gt_cases (length M) (2 ^ d)); [left; now apply drop_ge | right; lia].
Qed.

Lemma in_order_block d block cur M :
  in_order d cur M -> length block = (2 ^ d)%nat -> in_order (S d) (block ++ cur) M.
Proof.
  intros [Hl Hm] Hb; assert (E : (2 ^ S d = 2 ^ d + 2 ^ d)%nat) by (cbn; lia); unfold in_order.
  rewrite length_app, E; split; [lia |]; destruct Hm; [now left | right; lia].
Qed.

Fixpoint missing_parents (d : nat) (ps : list (option uint256)) : list nat :=
  match ps with
  | [] => []
  | Some _ :: ps => missing_parents (S d) ps
  | None :: ps => d :: missing_parents (S d) ps
  end.

Lemma root_parents_ok ps : forall d front cur M ds,
  rep_parents d ps front -> in_order d cur M ->
  exists cur' M',
    root_parents ps d (sub_root d cur) (uncles (missing_parents d ps ++ ds) M)
      = ((d + length ps)%nat, sub_root (d + length ps) cur', uncles ds M') /\
    in_order (d + length ps) cur' M' /\ front ++ cur ++ M = cur' ++ M'.
Proof.
  induction ps as [| [p |] ps IH]; intros d front cur M ds Hr Ho; cbn [root_parents missing_parents app length] in *.
  - cbn in Hr; subst front; exists cur, M; rewrite Nat.add_0_r; auto.
  - destruct Hr as (f & b & -> & Hb & -> & Hr); rewrite <- sub_root_app by assumption.
    destruct (IH (S d) f (b ++ cur) M ds Hr (in_order_block _ _ _ _ Ho Hb)) as (c & M' & E & Ho' & Es).
    replace (d + S (length ps))%nat with (S d + length ps)%nat by lia.
    exists c, M'; split; [exact E |]; split; [exact Ho' |]; rewrite <- Es, <- !app_assoc; reflexivity.
  - rewrite filler_next_ok; destruct (in_order_next _ _ _ Ho) as [-> Ho1].
    destruct (IH (S d) front _ _ ds Hr Ho1) as (c & M' & E & Ho' & Es).
    replace (d + S (length ps))%nat with (S d + length ps)%nat by lia.
    exists c, M'; split; [exact E |]; split; [exact Ho' |]; rewrite <- Es, <- (take_drop (2 ^ d) M) at 1.
    now rewrite <- !app_assoc.
Qed.

Lemma in_order_root d cur M : in_order d cur M -> sub_root d (cur ++ M) = sub_root d cur.
Proof.
  intros [Hl [-> | Hm]]; [now rewrite app_nil_r |].
  rewrite <- (sub_root_take d (cur ++ M)), <- Hm, take_app_length; reflexivity.
Qed.

Lemma root_fill_ok n : forall d cur M,
  in_order d cur M -> root_fill n d (sub_root d cur) (uncles (seq d n) M) = sub_root (d + n) (cur ++ M).
Proof.
  induction n as [| n IH]; intros d cur M Ho; cbn [root_fill seq].
  { rewrite Nat.add_0_r; symmetry; now apply in_order_root. }
  rewrite filler_next_ok; destruct (in_order_next _ _ _ Ho) as [-> Ho1].
  rewrite IH by exact Ho1; replace (d + S n)%nat with (S d + n)%nat by lia.
  rewrite <- app_assoc, take_drop; reflexivity.
Qed.

(** The depths at which a nonempty tree lacks a right neighbour. *)
Definition missing (t : IncrementalMerkleTree) (depth : nat) : list nat :=
  (if is_some (right_ t) then [] else [0%nat]) ++ missing_parents 1 (parents t)
  ++ seq (1 + length (parents t)) (depth - (1 + length (parents t))).

Lemma tree_root_ok t leaves M depth :
  represents t leaves -> leaves <> [] -> (1 <= depth)%nat -> (length leaves <= 2 ^ depth)%nat ->
  tree_root t depth (uncles (missing t depth) M) = sub_root depth (leaves ++ M).
Proof.
  intros Hr Hne Hd Hl; pose proof (parents_bound _ _ _ Hr Hd Hl) as Hb; destruct Hr as [(front & -> & Hf) _ Hnone].
  unfold tree_root, missing, pair in *; destruct (left_ t) as [a |] eqn:Ea.
  2: { destruct (Hnone eq_refl) as [_ Ep]; rewrite Ep in Hf; cbn in Hf; subst front; now destruct Hne. }
  set (ds := seq _ _); rewrite <- app_assoc.
  assert (G : forall cur M', in_order 1 cur M' ->
    (let '(d, r, q) := root_parents (parents t) 1 (sub_root 1 cur) (uncles (missing_parents 1 (parents t) ++ ds) M') in
     root_fill (depth - d) d r q) = sub_root depth (front ++ cur ++ M')).
  { intros cur M' Ho; destruct (root_parents_ok _ _ _ _ _ ds Hf Ho) as (c & M2 & -> & Ho2 & ->); subst ds.
    rewrite root_fill_ok by exact Ho2; f_equal; lia. }
  destruct (right_ t) as [b |]; cbn [is_some].
  - apply (G [a; b] M); split; [cbn; lia | now right].
  - change ([0%nat] ++ ?l) with (0%nat :: l); rewrite filler_next_ok.
    destruct M as [| m M]; cbn [take drop app sub_root Nat.pow].
    + apply (G [a] []); split; [cbn; lia | now left].
    + apply (G [a; m] M); split; [cbn; lia | now right].
Qed.

Lemma tree_root_new depth : (1 <= depth)%nat -> tree_root new_tree depth [] = empty_root_at depth.
Proof.
  intros Hd; unfold tree_root; cbn [left_ right_ parents new_tree filler_next root_parents].
  pose proof (root_fill_ok (depth - 1) 1 [] [] ltac:(split; [cbn; lia | now left])) as E.
  rewrite uncles_nil, app_nil_r, sub_root_nil in E; replace (1 + (depth - 1))%nat with depth in E by lia.
  rewrite sub_root_nil in E; exact E.
Qed.

(** ** Witnesses *)

Definition total (ds : list nat) : nat := fold_right (fun d n => (2 ^ d + n)%nat) 0%nat ds.

Lemma total_app a b : total (a ++ b) = (total a + total b)%nat.
Proof. unfold total; induction a as [| d a IH]; cbn [fold_right app]; [reflexivity | lia]. Qed.

Lemma total_seq n : forall d, (total (seq d n) + 2 ^ d = 2 ^ (d + n))%nat.
Proof.
  unfold total; induction n as [| n IH]; intros d; cbn [seq fold_right]; [now rewrite Nat.add_0_r |].
  specialize (IH (S d)); replace (d + S n)%nat with (S d + n)%nat by lia; cbn [Nat.pow] in *; lia.
Qed.

Lemma total_missing_parents ps : forall d,
  (total (missing_parents d ps) + weight d ps + 2 ^ d = 2 ^ (d + length ps))%nat.
Proof.
  unfold total; induction ps as [| [p |] ps IH]; intros d; cbn [missing_parents weight length fold_right is_some];
    [rewrite !Nat.add_0_r; lia | |]; specialize (IH (S d));
    replace (d + S (length ps))%nat with (S d + length ps)%nat by lia; cbn [Nat.pow] in *; lia.
Qed.

(** The missing leaves are those up to the capacity. *)
Lemma total_missing t leaves depth :
  represents t leaves -> leaves <> [] -> (1 <= depth)%nat -> (length leaves <= 2 ^ depth)%nat ->
  (length leaves + total (missing t depth) = 2 ^ depth)%nat.
Proof.
  intros Hr Hne Hd Hl; pose proof (parents_bound _ _ _ Hr Hd Hl) as Hb; rewrite (represents_length _ _ Hr).
  unfold missing; rewrite !total_app; pose proof (total_missing_parents (parents t) 1) as Hm.
  pose proof (total_seq (depth - (1 + length (parents t))) (1 + length (parents t))) as Hs.
  replace (1 + length (parents t) + (depth - (1 + length (parents t))))%nat with depth in Hs by lia.
  assert (Hp : (length (pair t) + total (if is_some (right_ t) then [] else [0%nat]) = 2)%nat).
  { destruct Hr as [(f & -> & Hf) _ Hn]; unfold pair in *; destruct (left_ t); [now destruct (right_ t) |].
    destruct (Hn eq_refl) as [_ Ep]; rewrite Ep in Hf; cbn in Hf; subst f; now destruct Hne. }
  cbn [Nat.pow] in Hm; lia.
Qed.

Lemma next_depth_loop_nth ps n : forall d skip,
  (skip < length (missing_parents d ps) + n)%nat ->
  (missing_parents d ps ++ seq (d + length ps) n) !! skip = Some (next_depth_loop ps d skip).
Proof.
  induction ps as [| [p |] ps IH]; intros d skip Hs; cbn [missing_parents next_depth_loop length app] in *.
  - rewrite lookup_seq_lt by lia; f_equal; lia.
  - replace (d + S (length ps))%nat with (S d + length ps)%nat by lia; now apply IH.
  - destruct skip as [| skip]; [reflexivity |]; cbn [lookup list_lookup].
    replace (d + S (length ps))%nat with (S d + length ps)%nat by lia; apply IH; lia.
Qed.

(** [next_depth] enumerates the missing depths. *)
Lemma next_depth_ok t leaves depth skip :
  represents t leaves -> leaves <> [] -> (skip < length (missing t depth))%nat ->
  missing t depth !! skip = Some (next_depth t skip).
Proof.
  intros [(f & -> & Hf) _ Hn] Hne; unfold missing, next_depth, pair in *; destruct (left_ t) as [a |].
  2: { destruct (Hn eq_refl) as [_ Ep]; rewrite Ep in Hf; cbn in Hf; subst f; now destruct Hne. }
  rewrite !length_app, length_seq; destruct (right_ t); cbn [is_some app length].
  - intros Hs; apply next_depth_loop_nth; lia.
  - destruct skip as [| skip]; [reflexivity |]; intros Hs; cbn [lookup list_lookup]; apply next_depth_loop_nth; lia.
Qed.

Lemma missing_below t depth d : d ∈ missing t depth -> (length (parents t) < depth)%nat -> (d < depth)%nat.
Proof.
  unfold missing; rewrite !elem_of_app, elem_of_seq; intros [Hd | [Hd | Hd]] Hb; [| | lia].
  - destruct (is_some (right_ t)); [now apply not_elem_of_nil in Hd | apply list_elem_of_singleton in Hd; lia].
  - assert (G : forall ps d', d ∈ missing_parents d' ps -> (d < d' + length ps)%nat).
    { induction ps as [| [p |] ps IH]; intros d' Hin; cbn [missing_parents length] in *;
        [now apply not_elem_of_nil in Hin | specialize (IH _ Hin); lia |].
      apply elem_of_cons in Hin as [-> | Hin]; [lia | specialize (IH _ Hin); lia]. }
    specialize (G _ _ Hd); lia.
Qed.

Lemma uncles_app ds1 : forall ds2 M1 M2,
  length M1 = total ds1 -> uncles (ds1 ++ ds2) (M1 ++ M2) = uncles ds1 M1 ++ uncles ds2 M2.
Proof.
  induction ds1 as [| d ds1 IH]; intros ds2 M1 M2 Hl; cbn [total fold_right] in Hl.
  { destruct M1; [reflexivity | discriminate]. }
  pose proof (Nat.pow_nonzero 2 d ltac:(lia)); destruct M1 as [| m M1]; [cbn in Hl; lia |].
  cbn [app uncles]; change (m :: M1 ++ M2) with ((m :: M1) ++ M2).
  rewrite take_app_le, drop_app_le by lia; f_equal; apply IH; rewrite length_drop; unfold total in *; lia.
Qed.

(** The state of a witness after the leaves [M]: the subtrees that are full,
    and the one that is being filled. *)
Record witness_inv (Depth : nat) (w : IncrementalWitness) (L M : list uint256) : Prop := {
  wi_tree : represents (w_tree w) L;
  wi_state : exists done rest,
    M = done ++ rest /\ filled w = uncles (take (length (filled w)) (missing (w_tree w) Depth)) done /\
    length done = total (take (length (filled w)) (missing (w_tree w) Depth)) /\
    match cursor w with
    | None => rest = []
    | Some c => represents c rest /\ (0 < length rest < 2 ^ cursor_depth w)%nat /\
        missing (w_tree w) Depth !! length (filled w) = Some (cursor_depth w)
    end;
}.

Lemma witness_inv_new Depth t L : represents t L -> witness_inv Depth (witness t) L [].
Proof. intros Hr; split; [exact Hr |]; exists [], []; cbn; auto. Qed.

(** One more full subtree. *)
Lemma uncles_snoc ds k done d block :
  ds !! k = Some d -> length done = total (take k ds) -> length block = (2 ^ d)%nat ->
  uncles (take (S k) ds) (done ++ block) = uncles (take k ds) done ++ [sub_root d block] /\
  length (done ++ block) = total (take (S k) ds).
Proof.
  intros Hk Hd Hb; rewrite (take_S_r _ _ _ Hk), total_app, length_app, uncles_app by assumption.
  cbn [uncles total fold_right]; pose proof (Nat.pow_nonzero 2 d ltac:(lia)).
  destruct block as [| b block]; [cbn in Hb; lia |]; rewrite (take_ge (b :: block)) by lia; split; [reflexivity | lia].
Qed.

Lemma partial_path_ok Depth w L M :
  (1 <= Depth)%nat -> L <> [] -> (length L <= 2 ^ Depth)%nat -> witness_inv Depth w L M ->
  partial_path w = uncles (missing (w_tree w) Depth) M.
Proof.
  intros Hd Hne Hl [Hr (done & rest & -> & Ef & El & Hc)]; unfold partial_path.
  set (k := length (filled w)) in *; set (ds := missing (w_tree w) Depth) in *.
  rewrite <- (take_drop k ds), uncles_app by exact El; rewrite <- Ef; f_equal.
  destruct (cursor w) as [c |]; [| subst rest; now rewrite uncles_nil].
  destruct Hc as (Hrc & Hlen & Hk); rewrite (drop_S _ _ _ Hk); cbn [uncles].
  destruct rest as [| x rest]; [cbn in Hlen; lia |]; rewrite (take_ge (x :: rest)), (drop_ge (x :: rest)), uncles_nil by lia.
  destruct (cursor_depth w) as [| cd] eqn:Ecd; [cbn in Hlen; lia |].
  pose proof (tree_root_ok c (x :: rest) [] (S cd) Hrc ltac:(discriminate) ltac:(lia) ltac:(lia)) as Ert.
  rewrite uncles_nil, app_nil_r in Ert; now rewrite Ert.
Qed.

(** Appending a leaf to the witness of a tree that is not full. *)
Lemma witness_append_ok {E} Depth w L M x :
  (1 <= Depth)%nat -> L <> [] -> (length L + length M < 2 ^ Depth)%nat -> witness_inv Depth w L M ->
  exists w', witness_append (E := E) Depth w x = Ok w' /\ witness_inv Depth w' L (M ++ [x]) /\ w_tree w' = w_tree w.
Proof.
  intros Hd Hne Hl [Hr (done & rest & -> & Ef & El & Hc)]; rewrite length_app in Hl.
  pose proof (total_missing _ _ Depth Hr Hne Hd ltac:(lia)) as Ht; pose proof (parents_bound _ _ Depth Hr Hd ltac:(lia)) as Hb.
  unfold witness_append; set (ds := missing (w_tree w) Depth) in *; set (k := length (filled w)) in *.
  destruct (cursor w) as [c |].
  - destruct Hc as (Hrc & Hlen & Hk).
    assert (Hcd : (cursor_depth w < Depth)%nat) by (eapply missing_below; [eapply list_elem_of_lookup_2, Hk | lia]).
    assert (Hpow : (2 ^ cursor_depth w <= 2 ^ Depth)%nat) by (apply Nat.pow_le_mono_r; lia).
    assert (Hcd1 : (1 <= cursor_depth w)%nat) by (destruct (cursor_depth w); [cbn in Hlen; lia | lia]).
    destruct (append_ok (E := E) Depth c rest x Hrc Hd ltac:(lia)) as (c' & -> & Hrc'); cbn [mbind res_bind].
    assert (Hlen' : length (rest ++ [x]) = S (length rest)) by (rewrite length_app; cbn; lia).
    pose proof (is_complete_iff c' _ (cursor_depth w) Hrc' Hcd1 ltac:(lia)) as Hcomp.
    destruct (is_complete c' (cursor_depth w)).
    + pose proof (proj1 Hcomp eq_refl) as Hfull; eexists; split; [reflexivity |]; split; [| reflexivity].
      pose proof (tree_root_ok c' _ [] (cursor_depth w) Hrc' ltac:(destruct rest; discriminate) Hcd1 ltac:(lia)) as Ert.
      rewrite uncles_nil, app_nil_r in Ert; destruct (uncles_snoc ds k done _ _ Hk El Hfull) as [Eu Et].
      split; [exact Hr |]; exists (done ++ rest ++ [x]), []; cbn [cursor filled w_tree]; rewrite Ert, length_app, Nat.add_1_r.
      rewrite app_nil_r, <- app_assoc; fold k ds; rewrite Eu, <- Ef; auto.
    + eexists; split; [reflexivity |]; split; [| reflexivity]; split; [exact Hr |].
      exists done, (rest ++ [x]); cbn [cursor filled w_tree cursor_depth]; rewrite <- app_assoc; fold k ds.
      assert (length (rest ++ [x]) <> 2 ^ cursor_depth w)%nat by (intros Hx; discriminate (proj2 Hcomp Hx)).
      do 3 (split; [auto; fail |]); split; [exact Hrc' | split; [lia | exact Hk]].
  - subst rest; cbn [length] in Hl; rewrite app_nil_r in *.
    assert (Hk : (k < length ds)%nat).
    { destruct (Nat.le_gt_cases (length ds) k); [rewrite take_ge in El by assumption; lia | assumption]. }
    pose proof (next_depth_ok _ _ Depth k Hr Hne Hk) as Hnd; fold ds in Hnd; set (d := next_depth _ _) in *.
    assert (Hdd : (d < Depth)%nat) by (eapply missing_below; [eapply list_elem_of_lookup_2, Hnd | lia]).
    rewrite (proj2 (Nat.leb_gt _ _) Hdd); destruct (Nat.eqb_spec d 0) as [E0 | E0].
    + eexists; split; [reflexivity |]; split; [| reflexivity]; split; [exact Hr |].
      rewrite E0 in Hnd; destruct (uncles_snoc ds k done 0 [x] Hnd El eq_refl) as [Eu Et].
      exists (done ++ [x]), []; cbn [cursor filled w_tree]; rewrite app_nil_r, length_app, Nat.add_1_r; fold k ds.
      rewrite Eu, <- Ef; auto.
    + destruct (append_ok (E := E) Depth new_tree [] x represents_new Hd ltac:(cbn; pose proof (Nat.pow_nonzero 2 Depth); lia))
        as (c & -> & Hrc); cbn [mbind res_bind]; eexists; split; [reflexivity |]; split; [| reflexivity]; split; [exact Hr |].
      exists done, [x]; cbn [cursor filled w_tree cursor_depth]; fold k ds.
      assert (2 ^ 1 <= 2 ^ d)%nat by (apply Nat.pow_le_mono_r; lia).
      do 3 (split; [auto; fail |]); split; [exact Hrc | split; [cbn in *; lia | exact Hnd]].
Qed.

(** ** Authentication paths *)

(** The root that a path from a leaf leads to, as the proof system computes it. *)
Fixpoint climb (d : nat) (x : uint256) (l : list (uint256 * bool)) : uint256 :=
  match l with
  | [] => x
  | (h, true) :: l => climb (S d) (combine h x d) l
  | (h, false) :: l => climb (S d) (combine x h d) l
  end.

(** The number whose digits, the lowest first, are the directions. *)
Fixpoint path_number (l : list (uint256 * bool)) : Z :=
  match l with [] => 0 | n :: l => Z.b2z n.2 + 2 * path_number l end.

Lemma climb_app l1 : forall l2 d x, climb d x (l1 ++ l2) = climb (d + length l1) (climb d x l1) l2.
Proof.
  induction l1 as [| [h []] l1 IH]; intros l2 d x; cbn [app climb length]; [now rewrite Nat.add_0_r | |];
    rewrite IH; now replace (d + S (length l1))%nat with (S d + length l1)%nat by lia.
Qed.

Lemma path_parents_ok ps : forall d x q,
  let '(l, d', q') := path_parents ps d q in
  root_parents ps d x q = (d', climb d x l, q') /\ d' = (d + length l)%nat /\ length l = length ps /\
  2 ^ Z.of_nat d * path_number l = Z.of_nat (weight d ps).
Proof.
  assert (Hpow : forall d, Z.of_nat (2 ^ d) = 2 ^ Z.of_nat d) by (intros d; now rewrite Nat2Z.inj_pow).
  induction ps as [| [p |] ps IH]; intros d x q; cbn [path_parents root_parents weight is_some].
  - cbn; repeat split; lia.
  - specialize (IH (S d) (combine p x d) q); destruct (path_parents ps (S d) q) as [[l d'] q'].
    destruct IH as (-> & -> & Hl & Hn); cbn [climb length path_number snd Z.b2z]; repeat split; [lia | lia |].
    rewrite Nat2Z.inj_add, Hpow, <- Hn, Nat2Z.inj_succ, Z.pow_succ_r by lia; lia.
  - destruct (filler_next q d) as [h q1]; specialize (IH (S d) (combine x h d) q1).
    destruct (path_parents ps (S d) q1) as [[l d'] q'].
    destruct IH as (-> & -> & Hl & Hn); cbn [climb length path_number snd Z.b2z]; repeat split; [lia | lia |].
    cbn [Nat.add]; rewrite <- Hn, Nat2Z.inj_succ, Z.pow_succ_r by lia; lia.
Qed.

Lemma path_fill_ok n : forall d x q,
  climb d x (path_fill n d q) = root_fill n d x q /\ length (path_fill n d q) = n /\ path_number (path_fill n d q) = 0.
Proof.
  induction n as [| n IH]; intros d x q; cbn [path_fill root_fill]; [now repeat split |].
  destruct (filler_next q d) as [h q1]; cbn [climb length path_number snd Z.b2z].
  destruct (IH (S d) (combine x h d) q1) as (-> & -> & ->); now repeat split.
Qed.

Lemma path_number_app l1 l2 : path_number l2 = 0 -> path_number (l1 ++ l2) = path_number l1.
Proof. intros E; induction l1 as [| n l1 IH]; cbn; [exact E | now rewrite IH]. Qed.

(** A path leads from the last leaf to the root that the tree computes with the
    same filler, and its directions are the position of that leaf. *)
Lemma path_nodes_ok {E} Depth t leaves q :
  represents t leaves -> leaves <> [] -> (1 <= Depth)%nat -> (length leaves <= 2 ^ Depth)%nat ->
  exists l x, path_nodes (E := E) Depth t q = Ok l /\ tree_last (E := E) t = Ok x /\
    climb 0 x l = tree_root t Depth q /\ length l = Depth /\ path_number l = zlen leaves - 1.
Proof.
  intros Hr Hne Hd Hl; pose proof (parents_bound _ _ _ Hr Hd Hl) as Hb; unfold zlen; rewrite (represents_length _ _ Hr).
  destruct Hr as [(f & -> & Hf) _ Hn]; unfold path_nodes, tree_last, tree_root, pair in *.
  destruct (left_ t) as [a |]; [| destruct (Hn eq_refl) as [_ Ep]; rewrite Ep in Hf; cbn in Hf; subst f; now destruct Hne].
  destruct (right_ t) as [b |]; [| destruct (filler_next q 0) as [h q1]].
  - pose proof (path_parents_ok (parents t) 1 (combine a b 0) q) as Hp.
    destruct (path_parents (parents t) 1 q) as [[l d] q']; destruct Hp as (-> & -> & Hlen & Hw).
    destruct (path_fill_ok (Depth - (1 + length l)) (1 + length l) (climb 1 (combine a b 0) l) q') as (Ec & El & Ep).
    eexists _, b; split; [reflexivity |]; split; [reflexivity |]; cbn [climb length path_number snd].
    rewrite climb_app, length_app, path_number_app, El by exact Ep; split; [exact Ec |]; split; [lia |].
    cbn [Z.b2z] in *; change (2 ^ Z.of_nat 1) with 2 in Hw; cbn [length]; lia.
  - pose proof (path_parents_ok (parents t) 1 (combine a h 0) q1) as Hp.
    destruct (path_parents (parents t) 1 q1) as [[l d] q']; destruct Hp as (-> & -> & Hlen & Hw).
    destruct (path_fill_ok (Depth - (1 + length l)) (1 + length l) (climb 1 (combine a h 0) l) q') as (Ec & El & Ep).
    eexists _, a; split; [reflexivity |]; split; [reflexivity |]; cbn [climb length path_number snd].
    rewrite climb_app, length_app, path_number_app, El by exact Ep; split; [exact Ec |]; split; [lia |].
    cbn [Z.b2z] in *; change (2 ^ Z.of_nat 1) with 2 in Hw; cbn [length]; lia.
Qed.

(** The digits of a path, the highest first, read as a number. *)
Lemma vector_to_int_ok l : forall m,
  vector_to_int (rev (map snd l)) (2 ^ zlen l * m) = 2 ^ zlen l * m + path_number l.
Proof.
  induction l as [| [h b] l IH] using rev_ind; intros m; [cbn; lia |].
  rewrite map_app, rev_app_distr, zlen_app; cbn [map rev app snd vector_to_int].
  assert (Hlen : length (rev (map snd l)) = length l) by now rewrite length_rev, length_map.
  assert (Hn : path_number (l ++ [(h, b)]) = path_number l + 2 ^ zlen l * Z.b2z b).
  { clear IH Hlen; unfold zlen; induction l as [| n l IH]; [cbn; lia |]; cbn [app path_number length].
    rewrite IH, Nat2Z.inj_succ, Z.pow_succ_r by lia; lia. }
  change (zlen [(h, b)]) with 1; rewrite Hn, Hlen; pose proof (zlen_nonneg l); rewrite Z.pow_add_r, Z.pow_1_r by lia.
  fold (zlen l); replace (2 ^ zlen l * 2 * m) with (2 ^ zlen l * (2 * m)) by lia.
  destruct b; cbn [Z.b2z]; [| rewrite IH; lia].
  assert (El : Z.lor (2 ^ zlen l * (2 * m)) (Z.shiftl 1 (zlen l)) = 2 ^ zlen l * (2 * m + 1)).
  { pose proof (Z.pow_pos_nonneg 2 (zlen l)); assert (Ep : 2 ^ (zlen l + 1) = 2 * 2 ^ zlen l) by (rewrite Z.pow_add_r by lia; lia).
    rewrite Z.lor_comm, Z.shiftl_1_l; replace (2 ^ zlen l * (2 * m)) with (Z.shiftl m (zlen l + 1))
      by (rewrite Z.shiftl_mul_pow2, Ep by lia; lia).
    rewrite lor_shiftl_add, Ep by lia; lia. }
  rewrite El, IH; lia.
Qed.

(** Appending several leaves. *)
Fixpoint appends {E} (Depth : nat) (t : IncrementalMerkleTree) (l : list uint256) : res E IncrementalMerkleTree :=
  match l with [] => Ok t | x :: l => t ← append Depth t x; appends Depth t l end.

Fixpoint witness_appends {E} (Depth : nat) (w : IncrementalWitness) (l : list uint256) : res E IncrementalWitness :=
  match l with [] => Ok w | x :: l => w ← witness_append Depth w x; witness_appends Depth w l end.

Lemma appends_ok {E} Depth l : forall t leaves,
  represents t leaves -> (1 <= Depth)%nat -> (length leaves + length l <= 2 ^ Depth)%nat ->
  exists t', appends (E := E) Depth t l = Ok t' /\ represents t' (leaves ++ l).
Proof.
  induction l as [| x l IH]; intros t leaves Hr Hd Hl; cbn [appends length] in *.
  { exists t; now rewrite app_nil_r. }
  destruct (append_ok (E := E) Depth t leaves x Hr Hd ltac:(lia)) as (t1 & -> & Hr1); cbn [mbind res_bind].
  destruct (IH t1 (leaves ++ [x]) Hr1 Hd) as (t' & E' & Hr'); [rewrite length_app; cbn; lia |].
  exists t'; split; [exact E' |]; now rewrite <- app_assoc in Hr'.
Qed.

Lemma witness_appends_ok {E} Depth l : forall w L M,
  witness_inv Depth w L M -> L <> [] -> (1 <= Depth)%nat -> (length L + length M + length l <= 2 ^ Depth)%nat ->
  exists w', witness_appends (E := E) Depth w l = Ok w' /\ witness_inv Depth w' L (M ++ l) /\ w_tree w' = w_tree w.
Proof.
  induction l as [| x l IH]; intros w L M Hw Hne Hd Hl; cbn [witness_appends length] in *.
  { exists w; now rewrite app_nil_r. }
  destruct (witness_append_ok (E := E) Depth w L M x Hd Hne ltac:(lia) Hw) as (w1 & -> & Hw1 & T1); cbn [mbind res_bind].
  destruct (IH w1 L (M ++ [x]) Hw1 Hne Hd) as (w' & E' & Hw' & T'); [rewrite length_app; cbn; lia |].
  exists w'; split; [exact E' |]; rewrite <- app_assoc in Hw'; split; [exact Hw' | congruence].
Qed.

Lemma tree_last_ok {E} t front x : represents t (front ++ [x]) -> tree_last (E := E) t = Ok x.
Proof.
  intros [(f & Ef & Hf) _ Hn]; unfold pair, tree_last in *; destruct (left_ t) as [a |].
  - destruct (right_ t) as [b |]; [rewrite (app_assoc f [a] [b] : f ++ [a; b] = (f ++ [a]) ++ [b]) in Ef |];
      apply app_inj_tail in Ef as [_ ->]; reflexivity.
  - destruct (Hn eq_refl) as [_ Ep]; rewrite Ep in Hf; cbn in Hf; subst f; now destruct front.
Qed.

Lemma represents_wf Depth t leaves :
  represents t leaves -> (1 <= Depth)%nat -> (length leaves <= 2 ^ Depth)%nat -> wfcheck Depth t = true.
Proof.
  intros Hr Hd Hl; pose proof (parents_bound _ _ _ Hr Hd Hl) as Hb; destruct Hr as [_ Hc Hn]; unfold wfcheck, canonical in *.
  rewrite (proj2 (Nat.leb_gt _ _)) by lia; cbn [negb andb].
  assert (match rev (parents t) with [] => true | back :: _ => is_some back end = true) as -> by now destruct (rev _).
  destruct (left_ t); [reflexivity |]; destruct (Hn eq_refl) as [-> ->]; reflexivity.
Qed.
End Spec.

(** C22: the incremental tree is the tree of its leaves.  Appending any leaves
    up to the capacity one by one succeeds; the tree that keeps only its
    frontier then has the root of the full tree over all of them, padded with
    empty leaves, counts them, passes [wfcheck], and has the last of them as
    its last element; a leaf beyond the capacity raises an error. *)
Theorem note_tree_refines_leaves `{NodeHash} (Depth : nat) (leaves : list uint256) :
  (1 <= Depth)%nat -> (length leaves <= 2 ^ Depth)%nat ->
  exists t, appends (E := unit) Depth new_tree leaves = Ok t /\
    tree_root t Depth [] = sub_root Depth leaves /\ wfcheck Depth t = true /\
    (zlen leaves < 2 ^ 31 -> tree_size t = zlen leaves) /\
    (forall front x, leaves = front ++ [x] -> tree_last (E := unit) t = Ok x) /\
    (forall x, length leaves = (2 ^ Depth)%nat -> append (E := unit) Depth t x = Exn runtime_error).
Proof.
  intros Hd Hl; destruct (appends_ok (E := unit) Depth leaves new_tree [] represents_new Hd Hl) as (t & E & Hr); cbn [app] in Hr.
  exists t; split; [exact E |]; split; [| split; [eapply represents_wf; eassumption |]; split; [now apply tree_size_ok |]; split].
  - destruct leaves as [| x l] eqn:El; [injection E as <-; rewrite sub_root_nil; now apply tree_root_new |].
    pose proof (tree_root_ok t (x :: l) [] Depth Hr ltac:(discriminate) Hd Hl) as Ert.
    now rewrite uncles_nil, app_nil_r in Ert.
  - intros front x ->; exact (tree_last_ok t front x Hr).
  - intros x Hx; eapply append_full; eassumption.
Qed.

(** C23: a witness stays valid.  Take the witness of a tree at its last leaf and
    append any further leaves up to the capacity: this succeeds, the root of the
    witness is the root of the tree over all leaves, and the path it yields has
    one node per level, gives the position of the leaf, and leads from the leaf
    to that root. *)
Theorem witness_authenticates `{NodeHash} (Depth : nat) (L M : list uint256) (x : uint256) (t : IncrementalMerkleTree) :
  (1 <= Depth <= 64)%nat -> (length (L ++ [x]) + length M <= 2 ^ Depth)%nat ->
  appends (E := unit) Depth new_tree (L ++ [x]) = Ok t ->
  exists w p nodes, witness_appends (E := unit) Depth (witness t) M = Ok w /\
    witness_root Depth w = sub_root Depth (L ++ [x] ++ M) /\ witness_element (E := unit) w = Ok x /\
    witness_path (E := unit) Depth w = Ok p /\ position (E := unit) p = Ok (zlen L) /\
    authentication_path p = rev (map (fun n => convertBytesVectorToVector n.1) nodes) /\
    path_index p = rev (map snd nodes) /\ length nodes = Depth /\
    climb 0 x nodes = sub_root Depth (L ++ [x] ++ M).
Proof.
  intros Hd Hl Et; set (L' := L ++ [x]) in *; assert (Hne : L' <> []) by (subst L'; destruct L; discriminate).
  destruct (appends_ok (E := unit) Depth L' new_tree [] represents_new ltac:(lia) ltac:(cbn; lia)) as (t0 & E0 & Hr).
  rewrite Et in E0; injection E0 as <-; cbn [app] in Hr.
  destruct (witness_appends_ok (E := unit) Depth M (witness t) L' [] (witness_inv_new Depth t L' Hr) Hne ltac:(lia) ltac:(cbn; lia))
    as (w & Ew & Hw & Tw); cbn [app witness w_tree] in Hw, Tw.
  pose proof (partial_path_ok Depth w L' M ltac:(lia) Hne ltac:(lia) Hw) as Ep; rewrite Tw in Ep.
  destruct (path_nodes_ok (E := unit) Depth t L' (partial_path w) Hr Hne ltac:(lia) ltac:(lia)) as (l & y & El & Ey & Ec & Hlen & Hn).
  assert (Ert : tree_root t Depth (partial_path w) = sub_root Depth (L' ++ M)) by (rewrite Ep; apply tree_root_ok; auto; lia).
  assert (y = x) as -> by (rewrite (tree_last_ok t L x Hr) in Ey; congruence).
  exists w; eexists; exists l; unfold witness_root, witness_element, witness_path, path; rewrite Tw, El; cbn [mbind res_bind].
  rewrite app_assoc; fold L'; repeat split; auto; [| congruence].
  unfold position, convertVectorToInt; cbn [path_index]; rewrite length_rev, length_map, Hlen, (proj2 (Nat.ltb_ge _ _)) by lia.
  pose proof (vector_to_int_ok l 0) as Hv; rewrite Z.mul_0_r in Hv; rewrite Hv, Hn; f_equal.
  subst L'; rewrite zlen_app; change (zlen [x]) with 1; lia.
Qed.

(** A tree of depth 3 whose nodes spell out what they combine. *)
Module Example_trees.
#[local] Instance spell : NodeHash := {| combine := fun a b d => Z.of_nat d :: a ++ b; uncommitted := [-1] |}.
Definition leaves : list uint256 := [[11]; [12]; [13]; [14]; [15]].
End Example_trees.

Lemma note_tree_refines_leaves_witness :
  exists t, appends (H := Example_trees.spell) (E := unit) 3 new_tree Example_trees.leaves = Ok t /\
    tree_root (H := Example_trees.spell) t 3 [] = sub_root (H := Example_trees.spell) 3 Example_trees.leaves /\
    tree_size t = 5.
Proof.
  destruct (note_tree_refines_leaves (H := Example_trees.spell) 3 Example_trees.leaves) as (t & E & R & _ & S & _);
    [lia | cbn; lia |].
  exists t; split; [exact E |]; split; [exact R | apply S; reflexivity].
Defined.

Lemma witness_authenticates_witness :
  exists t w nodes, appends (H := Example_trees.spell) (E := unit) 3 new_tree [[11]; [12]; [13]] = Ok t /\
    witness_appends (H := Example_trees.spell) (E := unit) 3 (witness t) [[14]; [15]] = Ok w /\
    climb (H := Example_trees.spell) 0 [13] nodes = sub_root (H := Example_trees.spell) 3 Example_trees.leaves.
Proof.
  destruct (appends (H := Example_trees.spell) (E := unit) 3 new_tree [[11]; [12]; [13]]) as [t | |] eqn:E;
    [| vm_compute in E; discriminate..].
  destruct (witness_authenticates (H := Example_trees.spell) 3 [[11]; [12]] [[14]; [15]] [13] t)
    as (w & p & nodes & Ew & _ & _ & _ & _ & _ & _ & _ & C); [lia | cbn; lia | exact E |].
  exists t, w, nodes; auto.
Defined.
